(* ===== verification/_CoqProject ===== *)
-Q . S2P
Prelude.v
Bits.v
Words.v
SmartPackFormat.v
SmartPack.v
SmartPackProofs.v
SmartPackTheorems.v
Frame.v
Paging.v
PagingProofs.v
Cow.v
CowProofs.v
Shmem.v
Cgroup.v
Swap.v
Pipe.v
Epoll.v
FdTable.v
Sched.v
SmpBalance.v
Ipc.v
Compression.v
CompressionProofs.v
Chunking.v
Journal.v
RamFs.v
Vfs.v
SmartPkg.v
Partition.v
AuditLog.v
Seccomp.v
Capabilities.v
LinuxCaps.v
Signals.v
Process.v
Sandbox.v
TcpWire.v
Tcp.v
TcpProofs.v
TcpStream.v
Ip.v
NetStack.v
Dhcp.v
Dns.v
Sha2.v
Hmac.v
Aead.v
ChaCha.v
Aes.v
AesGcm.v
X25519.v
Tls13.v
BigInt.v
BigIntProofs.v
Inflate.v
InflateProofs.v
InflateSafety.v
InflateTheorems.v
DiskFs.v
DiskFsProofs.v
DiskFsTheorems.v
TextBytes.v
WebSocket.v
WebSocketTheorems.v
Hpack.v
HpackProofs.v
HpackTheorems.v
Http2.v
Http2Theorems.v
Http1.v
Http1Theorems.v
Cookies.v
HttpFetch.v
Elf.v
ElfProofs.v
Users.v
P256.v
X509.v
X509Proofs.v
CertChain.v
