(* ===== verification/Prelude.v ===== *)
(** * Smart OS: a verification development

    Smart OS is a research operating system in Rust: a kernel ([src/kernel/src])
    with memory management, processes, IPC, file systems, a network stack, a
    cryptographic library and a security layer, and a serialisation crate
    ([src/smartpack]) the kernel uses for every structured value.  This library
    translates the parts that carry the system's own logic into executable
    definitions, function by function, and proves what makes them correct.

    ** How the code is modelled

    A struct is a [Record], an enum an [Inductive] with the same constructors, a
    function a [Definition] or [Fixpoint] of the same name (a name the file already
    uses gets a suffix, e.g. [delete_path] for [RamFs::delete]).  Statics behind a
    [Mutex] are fields of a state record that operations take and return; one call
    is one atomic step, as the lock makes it.  [Result] is [result], a panic is
    [outcome], [&mut self] with [?] is the state and error monad [M].  Integers are
    [Z] with the wrap-around of their width written out ([wrap], [uN]); bytes are
    [Z] below 256, strings their UTF-8 bytes where the code looks into them and
    [string] where it does not.  [BTreeMap] is [gmap], iterated in key order
    ([sorted_keys]); [Vec] and [VecDeque] are lists.  Console output is left out.
    The clock is an argument where the code reads it.

    ** The parts

    - [Prelude], [Bits], [Words], [TextBytes]: results and monads, machine
      integers, little- and big-endian bytes, ordered maps, automation; bits and
      words; what the network modules use of Rust's strings.
    - SmartPack, [smartpack/src/{format,types,encode,decode}.rs]:
      [SmartPackFormat] (tags, header byte, the value type), [SmartPack] (encoder
      and decoder), [SmartPackProofs], [SmartPackTheorems].
      Decoding inverts encoding up to the width of integers, fails beyond the
      depth limit and only there; decoded values are well formed; the cursor stays
      in the input; encoding fails exactly on lengths above 32 bits.
    - Memory, [kernel/src/memory]: [Frame] (frame.rs, the bitmap allocator),
      [Paging] and [PagingProofs] (paging.rs, the four-level tables), [Cow] and
      [CowProofs] (cow.rs and the copy-on-write fault of swap.rs), [Shmem]
      (shmem.rs), [Swap] (swap.rs), [Cgroup] (cgroup.rs).  The allocator refines a
      set of free frames; no frame ever backs two segments; address spaces that
      share frames after a fork behave as private memories; a page swapped out
      comes back with its bytes; limits hold over any history.
    - Processes, [kernel/src/process] and [io]: [Pipe] (pipe.rs), [Epoll]
      (io/epoll.rs), [FdTable] (fd.rs), [Sched] (scheduler.rs, wait.rs, thread.rs
      and the wake-up loops of the timer interrupt and of process exit),
      [SmpBalance] (smp_balance.rs), [Signals] (signal.rs, sigdeliver.rs),
      [Process] (process.rs with the bookkeeping of spawn, fork, waitpid and the
      choice of memory/oom.rs), [Elf] and [ElfProofs] (elf.rs, dynlink.rs).  Pipes
      refine a byte queue; each thread is in exactly one place with the matching
      state under any interleaving; blocked threads stay registered; the process
      tree stays consistent with its side tables; a loaded program sees its
      segments, zeroes behind them, and pages with the rights of its headers.
    - IPC, [kernel/src/ipc]: [Ipc] (channel.rs, port.rs): shared channels are
      reliable bounded queues.
    - Storage, [kernel/src/smartfs], [vfs], [drivers/diskfs.rs]: [Compression] and
      [CompressionProofs] (RLE and LZ4), [Chunking] (content-defined chunks and the
      deduplicating store), [Journal] (the write-ahead log), [RamFs] (ramfs.rs,
      inode.rs), [Vfs] (mod.rs, fd.rs, immutable/protection.rs), [DiskFs],
      [DiskFsProofs], [DiskFsTheorems] (the persistent file system, alone and behind
      the VFS).  Decompression inverts compression; stored chunks
      reassemble; a committed transaction can be read back from the log; the RAM
      file system refines a tree of files and directories and the disk a map of
      files, across remounts; protected paths never change.
    - Packages and update: [SmartPkg] (smartpack/src/pkg.rs, apps/pkgmgr.rs),
      [Partition] (immutable/partition.rs): one partition is active at any time,
      and an update can be rolled back.
    - Security, [kernel/src/security] and [users]: [AuditLog], [Seccomp],
      [Capabilities], [LinuxCaps], [Sandbox] with the gates of [syscall/linux.rs]
      and [arch/x86_64/syscall_entry.rs], [Users] (accounts, passwords, groups,
      permissions, sessions, namespaces).  Confined processes never gain rights by
      any sequence of calls; the gates admit exactly what both layers admit and
      audit every refusal; no sequence of calls makes a user's process root but by
      root's password, and a new password replaces the old one.
    - Network, [kernel/src/net]: [Ip] (ethernet.rs, ipv4.rs, ipv6.rs, icmp.rs),
      [NetStack] (mod.rs, arp.rs, udp.rs), [Dhcp], [Dns], [TcpWire], [Tcp],
      [TcpProofs], [TcpStream] (tcp.rs).  Received frames never crash the
      dispatcher but on the inputs named; TCP delivers in order and completely and
      two stacks complete the handshake over the bytes on the wire.
    - Web protocols, [kernel/src/net]: [Inflate], [InflateProofs],
      [InflateSafety], [InflateTheorems] (inflate.rs), [WebSocket],
      [WebSocketTheorems] (websocket.rs), [Hpack], [HpackProofs],
      [HpackTheorems], [Http2], [Http2Theorems] (http2.rs), [Http1],
      [Http1Theorems] (http_client.rs), [Cookies] (cookies.rs), [HttpFetch]
      ([http_get]).  Each reads what a conforming peer writes, as a reference
      writer of the format defines it, and returns on every input.
    - Cryptography, [kernel/src/crypto]: [Sha2], [Hmac] (hmac.rs, kdf.rs),
      [Aead], [ChaCha], [Aes], [AesGcm], [X25519], [Tls13], [BigInt],
      [BigIntProofs], [P256] (p256.rs, also RSA), [X509], [X509Proofs] (x509.rs),
      [CertChain] (ca_store.rs, cert_verifier.rs and the certificate step of
      net/tls.rs).  Streaming equals one-shot hashing; ciphers invert
      and refuse a wrong tag; the arithmetic computes on numbers what it
      should, points of a curve stay on it; a TLS 1.3 session delivers the records
      sent; certificates are read as a reference writer wrote them, and every link of
      an accepted chain is signed.

    Files of a part require the ones they call: [Shmem], [Swap] and [Cow] allocate
    through [Frame]'s interface, [Elf] maps through [Paging], [Process] ends
    processes in the tables of its siblings, [Capabilities] and [Sandbox] consult
    [Seccomp] and write to [AuditLog], [Vfs] dispatches to [RamFs] and its
    backends, [NetStack] carries [Tcp] segments, [CertChain] checks [X509]
    certificates with [P256] and [BigInt], [HttpFetch] runs [Http1] and
    [Cookies], [Http1] inflates bodies with [Inflate].

    ** Interfaces

    What lies outside the modelled code, and what a component promises another,
    is a class with its laws and an instance that shows them satisfiable:
    [PhysFrames] (the x86_64 crate's frames; [phys_frames_Z]), [FrameAlloc] (the
    allocator, implemented by [Frame]), [Mapper] ([tree_mapper]) and
    [Shmem.Paging] ([map_paging]) (page mapping), [BlockDev] ([ram_disk]), [Reliable]
    ([ram_disk_reliable]) and [Journal.BlockDevice] ([ram_blocks]) (disks), [Backends]
    ([demo_backends], and [disk_backends] over [DiskFs]), [Aead] (the record
    ciphers), [TcpEndpoint] and [TcpLink] ([queue_endpoint], [queue_link]), [ClientIo] and [ReliableIo]
    ([channel_io], [channel_reliable]), [LineIo] ([slice_io], [tcp_io]), [Net] ([demo_net]), [FileStore]
    ([map_files]).

    ** The theorems

    A property is marked C1 .. C40 in its comment.  Each component has some of:
    refinement of an abstract object (a set of frames, a queue, a map of files, a
    log of cookies), an invariant over every history of calls, exact behaviour on
    each branch with errors, round trips, bounds, termination.  A property with
    hypotheses is followed by a witness that applies it to a concrete state.
    Lemmas after the properties of a file, introduced as findings, exhibit inputs
    on which the code departs from its comments or loses data; the properties
    state the conditions that exclude them.

    ** Fuel and bounds

    Loops that are not structural run on fuel that is enough by construction: the
    length of the input for the decompressors, the chunker, the delta parser, the
    DER reader, the HPACK decoder and [flush_send_buf] (each round consumes a byte or more); the
    length and one more for the frame loops of WebSocket and HTTP/2 and for the
    lines and chunks of HTTP/1.1 ([parse_response_settles] shows the fuel is never
    exhausted); the remaining bits and one more for DEFLATE ([inflate_terminates]);
    four rounds for the checksum fold (three suffice for a u32,
    [fold_carries_spec]); ten bytes for a 64-bit HPACK integer; and for the
    SmartPack decoder one level more than [MAX_DEPTH] allows
    ([decode_value_budget] shows that more changes nothing).  Page tables recurse on
    the level.  [skip_name] of the DNS parser and the relocation loops of the
    dynamic linker need not end in the source: they run on the length and one more,
    and running out is an outcome of its own ([Hangs] for the linker).  The polling
    loops of DHCP and DNS have the source's own bounds (8000 and 10000 polls), as
    have redirects (five exchanges).  Totality is part of the round-trip theorems:
    they state the result, not a result if there is one.  Theorems over histories
    that draw ids from a counter assume fewer calls than the counter has values.

    ** Not modelled

    Hardware access: device drivers, the FAT32, ext4 and NTFS readers, interrupt
    and context-switch assembly.  The marshalling of system-call arguments from
    user memory.  TLS 1.2, the handshake of net/tls.rs but for its certificates, and
    the browser's cryptography interface.  The browser engine (HTML, CSS, JavaScript, WebAssembly), the
    graphical system, the applications, AI, knowledge graph and profiling code.
    Plugins, installer, submission rings and tracing.  These are glue to hardware,
    tables of data, or programs above the kernel whose result is what is drawn.
    Within modelled files: the disk-backed part of the page-fault entry, the
    C-library shims of the dynamic linker, the entropy estimate of compression.rs
    (floating point; it is an argument), self tests and textual listings. *)

From stdpp Require Export base list gmap numbers strings sorting.
From Stdlib Require Export ZArith Lia.

#[global] Open Scope Z_scope.

(** ** Results and the state/error monad

    A Rust [Result<A, E>]; errors the code spells as [&'static str] are
    [string]s with the same text. *)
Inductive result (E A : Type) : Type :=
| Ok (a : A)
| Err (e : E).
Arguments Ok {E A} a.
Arguments Err {E A} e.

Definition is_ok {E A} (r : result E A) : bool :=
  match r with Ok _ => true | Err _ => false end.

(** A call that may panic (failed bounds check, arithmetic overflow check, a
    constructor that asserts). *)
Inductive outcome (A : Type) : Type :=
| Returned (a : A)
| Panicked.
Arguments Returned {A} a.
Arguments Panicked {A}.

(** A method taking [&mut self] and returning [Result<A, E>]: the receiver
    keeps whatever was written to it before an early return. *)
Definition M (S E A : Type) : Type := S → result E A * S.

#[export] Instance M_ret S E : MRet (M S E) := λ A a s, (Ok a, s).
#[export] Instance M_bind S E : MBind (M S E) := λ A B k m s,
  match m s with
  | (Ok a, s') => k a s'
  | (Err e, s') => (Err e, s')
  end.

Definition throw {S E A} (e : E) : M S E A := λ s, (Err e, s).
Definition modify {S E} (f : S → S) : M S E unit := λ s, (Ok tt, f s).
Definition gets {S E A} (f : S → A) : M S E A := λ s, (Ok (f s), s).

(** [for item in items { body(item)?; }] *)
Definition for_each {S E A} (body : A → M S E unit) : list A → M S E unit :=
  fix go (l : list A) : M S E unit :=
    match l with
    | [] => mret tt
    | x :: l' => body x ≫= λ _, go l'
    end.

(** [for _ in 0..n { items.push(body()?); }] *)
Definition collect {S E A} (body : M S E A) : nat → M S E (list A) :=
  fix go (n : nat) : M S E (list A) :=
    match n with
    | O => mret []
    | S n' => body ≫= λ x, go n' ≫= λ xs, mret (x :: xs)
    end.

(** ** Machine integers

    A [w]-bit unsigned integer is a [Z] in [[0, 2^w)]; casts and wrapping
    arithmetic are written with [wrap]. *)
Definition wrap (w : Z) (v : Z) : Z := v `mod` 2 ^ w.

Definition uN (w : Z) (v : Z) : Prop := 0 ≤ v < 2 ^ w.

Definition iN (w : Z) (v : Z) : Prop := - 2 ^ (w - 1) ≤ v < 2 ^ (w - 1).

(** Reinterpretation of a [w]-bit pattern as two's complement ([v as iw]). *)
Definition to_signed (w : Z) (v : Z) : Z :=
  if v <? 2 ^ (w - 1) then v else v - 2 ^ w.

Definition saturating_add (w a b : Z) : Z := Z.min (a + b) (2 ^ w - 1).
Definition saturating_sub (a b : Z) : Z := Z.max (a - b) 0.

Abbreviation is_byte := (uN 8).
Abbreviation bytes_ok := (Forall (uN 8)).

#[export] Instance uN_decision w v : Decision (uN w v) := _.
#[export] Instance iN_decision w v : Decision (iN w v) := _.

(** [v.to_le_bytes()] for a value of [n] bytes and its inverse. *)
Fixpoint to_le_bytes (n : nat) (v : Z) : list Z :=
  match n with
  | O => []
  | S n' => v `mod` 256 :: to_le_bytes n' (v `div` 256)
  end.

Fixpoint from_le_bytes (bs : list Z) : Z :=
  match bs with
  | [] => 0
  | b :: bs' => b + 256 * from_le_bytes bs'
  end.

Definition to_be_bytes (n : nat) (v : Z) : list Z := reverse (to_le_bytes n v).
Definition from_be_bytes (bs : list Z) : Z := from_le_bytes (reverse bs).

(** ** Automation *)

Create HintDb smartos.

(** Split the conjunctions of the context, substitute what can be
    substituted, and leave arithmetic to [lia]. *)
Ltac crush :=
  repeat match goal with
    | H : _ ∧ _ |- _ => destruct H
    | H : ∃ _, _ |- _ => destruct H
    end;
  simplify_eq/=; try done; try lia; eauto with smartos.

(** Case analysis on the first test of the goal, with its Prop meaning. *)
Ltac case_bool :=
  match goal with
  | |- context [ (?a <=? ?b)%Z ] => destruct (Z.leb_spec a b)
  | |- context [ (?a <? ?b)%Z ] => destruct (Z.ltb_spec a b)
  | |- context [ (?a =? ?b)%Z ] => destruct (Z.eqb_spec a b)
  end.

(** Decide the tests that linear arithmetic settles. *)
Ltac zbool :=
  repeat match goal with
    | |- context [(?a <=? ?b)%Z] =>
        first [ rewrite (proj2 (Z.leb_le a b)) by lia | rewrite (proj2 (Z.leb_gt a b)) by lia ]
    | |- context [(?a <? ?b)%Z] =>
        first [ rewrite (proj2 (Z.ltb_lt a b)) by lia | rewrite (proj2 (Z.ltb_ge a b)) by lia ]
    | |- context [(?a =? ?b)%Z] =>
        first [ rewrite (proj2 (Z.eqb_eq a b)) by lia | rewrite (proj2 (Z.eqb_neq a b)) by lia ]
    end.

(** ** Lemmas on integers and bytes *)

Lemma wrap_id w v : uN w v → wrap w v = v.
Proof. intros. by apply Z.mod_small. Qed.

Lemma wrap_range w v : 0 ≤ w → uN w (wrap w v).
Proof. intros. apply Z.mod_pos_bound. lia. Qed.

Lemma length_to_le_bytes n v : length (to_le_bytes n v) = n.
Proof. revert v. induction n; intros; simpl; auto. Qed.

Lemma to_le_bytes_ok n v : bytes_ok (to_le_bytes n v).
Proof.
  revert v. induction n; intros v; simpl; constructor; [|done].
  split; [apply Z.mod_pos_bound|apply (Z.mod_pos_bound v 256)]; lia.
Qed.

Lemma pow256_S n : 2 ^ (8 * Z.of_nat (S n)) = 256 * 2 ^ (8 * Z.of_nat n).
Proof.
  replace (8 * Z.of_nat (S n)) with (8 + 8 * Z.of_nat n) by lia.
  rewrite Z.pow_add_r by lia. done.
Qed.

Lemma from_to_le_bytes n v :
  uN (8 * Z.of_nat n) v → from_le_bytes (to_le_bytes n v) = v.
Proof.
  revert v. induction n as [|n IH]; intros v [H1 H2].
  - simpl in *. lia.
  - cbn [to_le_bytes from_le_bytes]. rewrite pow256_S in H2.
    rewrite IH by (split; [apply Z.div_pos; lia|apply Z.div_lt_upper_bound; lia]).
    pose proof (Z.div_mod v 256). lia.
Qed.

Lemma from_le_bytes_range bs : bytes_ok bs → uN (8 * Z.of_nat (length bs)) (from_le_bytes bs).
Proof.
  induction 1 as [|b bs [Hb1 Hb2] _ [IH1 IH2]]; [split; simpl; lia|].
  cbn [length from_le_bytes]. split; [lia|]. rewrite pow256_S. lia.
Qed.

Lemma to_from_le_bytes bs :
  bytes_ok bs → to_le_bytes (length bs) (from_le_bytes bs) = bs.
Proof.
  induction 1 as [|b bs [Hb1 Hb2] _ IH]; [done|].
  change (2 ^ 8) with 256 in Hb2. cbn [length to_le_bytes from_le_bytes].
  rewrite (Z.mul_comm 256), Z.mod_add, Z.mod_small by lia.
  rewrite Z.div_add, Z.div_small, Z.add_0_l by lia. by rewrite IH.
Qed.

(** Two's complement: the cast to [w] bits and back is the identity on the
    signed range. *)
Lemma to_signed_wrap w v : 0 < w → iN w v → to_signed w (wrap w v) = v.
Proof.
  intros Hw [H1 H2]. unfold to_signed, wrap.
  assert (E : 2 ^ w = 2 * 2 ^ (w - 1))
    by (rewrite <- Z.pow_succ_r by lia; f_equal; lia).
  destruct (Z_lt_le_dec v 0) as [Hv|Hv].
  - replace (v `mod` 2 ^ w) with (v + 2 ^ w)
      by (rewrite <- (Z.mod_add v 1) by lia; rewrite Z.mod_small; lia).
    zbool. lia.
  - rewrite Z.mod_small by lia. zbool. lia.
Qed.

(** ** Ordered maps

    A [BTreeMap] is a [gmap] whose iteration order is that of its keys. *)
Definition sorted_keys {A} (m : gmap Z A) : list Z := merge_sort Z.le (elements (dom m)).

Lemma elem_of_sorted_keys {A} (m : gmap Z A) k : k ∈ sorted_keys m ↔ is_Some (m !! k).
Proof.
  unfold sorted_keys. rewrite merge_sort_Permutation, elem_of_elements. apply elem_of_dom.
Qed.

Lemma sorted_keys_sorted {A} (m : gmap Z A) : StronglySorted Z.le (sorted_keys m).
Proof. apply (StronglySorted_merge_sort Z.le). Qed.

Lemma sorted_keys_NoDup {A} (m : gmap Z A) : NoDup (sorted_keys m).
Proof. unfold sorted_keys. rewrite merge_sort_Permutation. apply NoDup_elements. Qed.

(** The first element of a sorted list satisfying a test is the least one. *)
Lemma find_sorted_least (f : Z → bool) l x :
  StronglySorted Z.le l → List.find f l = Some x → ∀ y, y ∈ l → f y = true → x ≤ y.
Proof.
  induction 1 as [|a l Hs IH Ha]; simpl; [done|]. destruct (f a) eqn:E.
  - intros [= ->] y [->|Hy]%elem_of_cons _; [done|]. rewrite Forall_forall in Ha. by apply Ha.
  - intros Hx y [->|Hy]%elem_of_cons Hfy; [congruence|]. by apply IH.
Qed.

#[export] Hint Resolve to_le_bytes_ok length_to_le_bytes : smartos.

#[global] Arguments to_le_bytes : simpl never.
#[global] Arguments from_le_bytes : simpl never.
