(* ===== verification/Bits.v ===== *)
(** Bits of machine words: the complement, single-bit tests and updates, and
    [trailing_zeros], with their [Z.testbit] characterisations.  Used by the
    frame bitmap, the capability masks and the syscall filters. *)

From S2P Require Import Prelude.

(** ** Machine words *)
Definition not64 (x : Z) : Z := Z.lxor x (Z.ones 64).

Fixpoint ctz_pos (p : positive) : Z :=
  match p with
  | xO p' => 1 + ctz_pos p'
  | _ => 0
  end.

(** [u64::trailing_zeros] *)
Definition trailing_zeros (w : Z) : Z :=
  match w with
  | Zpos p => ctz_pos p
  | _ => 64
  end.

(** ** Bits *)

Lemma testbit_ones64 j : 0 ≤ j → Z.testbit (Z.ones 64) j = (j <? 64).
Proof. intros. rewrite Z.testbit_ones_nonneg by lia. done. Qed.

Lemma testbit_shiftl1 b j : 0 ≤ b → Z.testbit (Z.shiftl 1 b) j = (j =? b).
Proof.
  intros Hb. rewrite Z.shiftl_1_l. destruct (Z.eqb_spec j b) as [->|Hne].
  - by apply Z.pow2_bits_true.
  - by apply Z.pow2_bits_false.
Qed.

Lemma uN_testbit_high w v j : 0 ≤ w → uN w v → w ≤ j → Z.testbit v j = false.
Proof.
  intros Hw [? ?] Hj. destruct (Z.eq_dec v 0) as [->|]; [apply Z.bits_0|].
  apply Z.bits_above_log2; [lia|]. apply Z.log2_lt_pow2; [lia|].
  pose proof (Z.pow_le_mono_r 2 w j). lia.
Qed.

Lemma testbit_uN w v : 0 ≤ w → 0 ≤ v → (∀ j, w ≤ j → Z.testbit v j = false) → uN w v.
Proof.
  intros Hw Hv Hb. split; [done|]. destruct (Z.eq_dec v 0) as [->|]; [lia|].
  apply Z.log2_lt_pow2; [lia|]. destruct (Z_lt_le_dec (Z.log2 v) w) as [|Hge]; [done|].
  specialize (Hb _ Hge). rewrite Z.bit_log2 in Hb by lia. done.
Qed.

Lemma testbit_clear w b j :
  uN 64 w → 0 ≤ b → 0 ≤ j →
  Z.testbit (Z.land w (not64 (Z.shiftl 1 b))) j = Z.testbit w j && negb (j =? b).
Proof.
  intros Hw Hb Hj. unfold not64. rewrite Z.land_spec, Z.lxor_spec, testbit_shiftl1 by lia.
  destruct (Z_lt_le_dec j 64).
  - rewrite testbit_ones64 by lia. rewrite (proj2 (Z.ltb_lt _ _)) by lia.
    by rewrite xorb_true_r.
  - rewrite (uN_testbit_high 64 w j) by (done || lia). done.
Qed.

Lemma testbit_set w b j :
  0 ≤ b → Z.testbit (Z.lor w (Z.shiftl 1 b)) j = Z.testbit w j || (j =? b).
Proof. intros. by rewrite Z.lor_spec, testbit_shiftl1. Qed.

Lemma set_uN w b : uN 64 w → 0 ≤ b < 64 → uN 64 (Z.lor w (Z.shiftl 1 b)).
Proof.
  intros Hw Hb. apply testbit_uN; [lia| |].
  - apply Z.lor_nonneg. split; [apply Hw|]. apply Z.shiftl_nonneg. lia.
  - intros j Hj. rewrite testbit_set by lia. rewrite (uN_testbit_high 64) by (done || lia).
    by apply Z.eqb_neq; lia.
Qed.

Lemma clear_uN w b : uN 64 w → 0 ≤ b → uN 64 (Z.land w (not64 (Z.shiftl 1 b))).
Proof.
  intros Hw Hb. apply testbit_uN; [lia| |].
  - apply Z.land_nonneg. left. apply Hw.
  - intros j Hj. rewrite testbit_clear by (done || lia).
    by rewrite (uN_testbit_high 64) by (done || lia).
Qed.

Lemma land_bit w b : 0 ≤ b → (Z.land w (Z.shiftl 1 b) =? 0) = negb (Z.testbit w b).
Proof.
  intros Hb. destruct (Z.testbit w b) eqn:E; simpl.
  - apply Z.eqb_neq. intros H. apply (f_equal (λ z, Z.testbit z b)) in H.
    rewrite Z.land_spec, E, testbit_shiftl1, Z.eqb_refl, Z.bits_0 in H by lia. done.
  - apply Z.eqb_eq, Z.bits_inj_0. intros j. rewrite Z.land_spec, testbit_shiftl1 by lia.
    destruct (Z.eqb_spec j b) as [->|]; [by rewrite E|by rewrite andb_false_r].
Qed.

(** [trailing_zeros] is the lowest set bit. *)
Lemma ctz_pos_spec p :
  0 ≤ ctz_pos p ∧ Z.testbit (Zpos p) (ctz_pos p) = true
  ∧ ∀ j, 0 ≤ j < ctz_pos p → Z.testbit (Zpos p) j = false.
Proof.
  induction p as [p _|p (IH1 & IH2 & IH3)|]; simpl ctz_pos.
  - split_and!; [lia|done|lia].
  - change (Zpos p~0) with (Z.double (Zpos p)) at 1 2. split_and!; [lia| |].
    + rewrite Z.double_bits. by replace (Z.pred (1 + ctz_pos p)) with (ctz_pos p) by lia.
    + intros j Hj. change (Zpos p~0) with (Z.double (Zpos p)). rewrite Z.double_bits.
      destruct (Z.eq_dec j 0) as [->|]; [done|]. apply IH3. lia.
  - split_and!; [lia|done|lia].
Qed.

Lemma trailing_zeros_spec w :
  uN 64 w → w ≠ 0 →
  0 ≤ trailing_zeros w < 64 ∧ Z.testbit w (trailing_zeros w) = true
  ∧ ∀ j, 0 ≤ j < trailing_zeros w → Z.testbit w j = false.
Proof.
  intros Hw H0. destruct w as [|p|p]; [done| |by destruct Hw].
  destruct (ctz_pos_spec p) as (H1 & H2 & H3). simpl trailing_zeros. split_and!; [done| |done..].
  destruct (Z_lt_le_dec (ctz_pos p) 64) as [|Hge]; [done|].
  by rewrite (uN_testbit_high 64) in H2 by (done || lia).
Qed.

(** ** Two-byte fields *)

Lemma split16 v : 0 ≤ v < 65536 → Z.lor (Z.shiftl (Z.shiftr v 8) 8) (Z.land v 0xFF) = v.
Proof.
  intros Hv. change 0xFF with (Z.ones 8). rewrite <- Z.ldiff_ones_r by lia.
  apply Z.bits_inj'. intros n Hn. rewrite Z.lor_spec, Z.ldiff_spec, Z.land_spec.
  destruct (Z.testbit v n), (Z.testbit (Z.ones 8) n); done.
Qed.

Lemma shiftr8_byte v : 0 ≤ v < 65536 → uN 8 (Z.shiftr v 8).
Proof. intros Hv. rewrite Z.shiftr_div_pow2 by lia. split; [apply Z.div_pos; lia|apply Z.div_lt_upper_bound; lia]. Qed.

Lemma land255_byte v : 0 ≤ v → uN 8 (Z.land v 0xFF).
Proof. intros Hv. change 0xFF with (Z.ones 8). rewrite Z.land_ones by lia. apply Z.mod_pos_bound. lia. Qed.

(** Complement within [w] bits. *)
Lemma lxor_ones w v : 0 ≤ w → uN w v → Z.lxor v (Z.ones w) = Z.ones w - v.
Proof.
  intros Hw Hv. rewrite Z.sub_nocarry_ldiff.
  - apply Z.bits_inj'. intros n Hn. rewrite Z.lxor_spec, Z.ldiff_spec, Z.testbit_ones_nonneg by lia.
    destruct (Z.ltb_spec n w).
    + by rewrite xorb_true_r.
    + rewrite (uN_testbit_high w v n) by (done || lia). done.
  - apply Z.bits_inj'. intros n Hn. rewrite Z.ldiff_spec, Z.testbit_ones_nonneg, Z.bits_0 by lia.
    destruct (Z.ltb_spec n w); [by rewrite andb_false_r|].
    by rewrite (uN_testbit_high w v n) by (done || lia).
Qed.

(** A value below [2^s] and a multiple of it combine by addition. *)
Lemma lor_disjoint c q s : 0 ≤ s → 0 ≤ c < 2 ^ s → Z.lor c (q * 2 ^ s) = c + q * 2 ^ s.
Proof.
  intros Hs Hc. symmetry. apply Z.add_nocarry_lor. rewrite <- Z.shiftl_mul_pow2 by lia.
  apply Z.bits_inj'. intros j Hj. rewrite Z.land_spec, Z.bits_0, Z.shiftl_spec by lia.
  destruct (Z_lt_le_dec j s).
  - rewrite (Z.testbit_neg_r q) by lia. apply andb_false_r.
  - rewrite (uN_testbit_high s c j) by (done || lia). done.
Qed.
