(* ===== verification/Words.v ===== *)
(** Word and byte-string operations shared by the cryptographic components:
    rotations, big-endian words of a byte string, xor of byte strings,
    [slice::chunks], with the lemmas the ciphers and hashes use. *)

From S2P Require Import Prelude Bits.

(** ** Rotations of [w]-bit words *)
Definition rotr (w n x : Z) : Z := Z.lor (Z.shiftr x n) (wrap w (Z.shiftl x (w - n))).
Definition rotl (w n x : Z) : Z := Z.lor (wrap w (Z.shiftl x n)) (Z.shiftr x (w - n)).

(** [a.wrapping_add(b)] *)
Definition wadd (w a b : Z) : Z := wrap w (a + b).

(** [!x] on [w] bits *)
Definition wnot (w x : Z) : Z := Z.lxor x (Z.ones w).

(** ** Byte strings *)

(** [for i in 0..n { a[i] ^= b[i]; }] on slices of which the shorter sets the
    length. *)
Definition xor_bytes (a b : list Z) : list Z := zip_with Z.lxor a b.

(** [data.chunks(n)]: pieces of [n] bytes, the last one shorter. *)
Fixpoint chunks_aux {A} (fuel n : nat) (l : list A) : list (list A) :=
  match fuel, l with
  | O, _ | _, [] => []
  | S f, _ => take n l :: chunks_aux f n (drop n l)
  end.
Definition chunks {A} (n : nat) (l : list A) : list (list A) := chunks_aux (length l) n l.

(** ** Writing into a fixed-size buffer *)

(** [while idx < lim { buf[idx] = v; idx += 1; }]: the loop runs [lim - idx]
    times. *)
Fixpoint fill_from {A} (n : nat) (v : A) (idx : nat) (buf : list A) : list A :=
  match n with
  | O => buf
  | S n' => fill_from n' v (S idx) (<[idx := v]> buf)
  end.

(** [buf[at..at+src.len()].copy_from_slice(src)] *)
Definition copy_at {A} (at_ : nat) (src buf : list A) : list A :=
  take at_ buf ++ src ++ drop (at_ + length src) buf.

(** ** Lemmas on byte strings *)

Lemma length_to_be_bytes n v : length (to_be_bytes n v) = n.
Proof. unfold to_be_bytes. by rewrite length_reverse, length_to_le_bytes. Qed.

Lemma to_be_bytes_ok n v : bytes_ok (to_be_bytes n v).
Proof. unfold to_be_bytes. apply Forall_reverse, to_le_bytes_ok. Qed.

Lemma to_le_bytes_wrap n v : to_le_bytes n (wrap (8 * Z.of_nat n) v) = to_le_bytes n v.
Proof.
  revert v. induction n as [|n IH]; intros v; [done|].
  unfold wrap. rewrite pow256_S. cbn [to_le_bytes].
  rewrite Z.rem_mul_r by (lia || apply Z.pow_pos_nonneg; lia).
  apply (f_equal2 cons).
  - by rewrite (Z.mul_comm 256 _), Z.mod_add, Z.mod_mod by lia.
  - rewrite (Z.mul_comm 256 _), Z.div_add, (Z.div_small (v `mod` 256)), Z.add_0_l
      by (lia || (apply Z.mod_pos_bound; lia)).
    apply IH.
Qed.

Lemma to_be_bytes_wrap n v : to_be_bytes n (wrap (8 * Z.of_nat n) v) = to_be_bytes n v.
Proof. unfold to_be_bytes. by rewrite to_le_bytes_wrap. Qed.

Lemma from_to_be_bytes n v : uN (8 * Z.of_nat n) v → from_be_bytes (to_be_bytes n v) = v.
Proof.
  intros. unfold from_be_bytes, to_be_bytes. by rewrite reverse_involutive, from_to_le_bytes.
Qed.

Lemma to_from_be_bytes bs : bytes_ok bs → to_be_bytes (length bs) (from_be_bytes bs) = bs.
Proof.
  intros H. unfold from_be_bytes, to_be_bytes.
  rewrite <- (length_reverse bs), to_from_le_bytes by by apply Forall_reverse.
  apply reverse_involutive.
Qed.

Lemma from_be_bytes_snoc l x : from_be_bytes (l ++ [x]) = x + 256 * from_be_bytes l.
Proof. unfold from_be_bytes. by rewrite reverse_snoc. Qed.

Lemma to_be_bytes_S n v : to_be_bytes (S n) v = to_be_bytes n (v `div` 256) ++ [v `mod` 256].
Proof. unfold to_be_bytes. by rewrite <- reverse_cons. Qed.

Lemma from_be_bytes_range bs : bytes_ok bs → uN (8 * Z.of_nat (length bs)) (from_be_bytes bs).
Proof.
  intros H. unfold from_be_bytes. rewrite <- (length_reverse bs).
  by apply from_le_bytes_range, Forall_reverse.
Qed.

Lemma length_fill_from {A} n (v : A) i buf : length (fill_from n v i buf) = length buf.
Proof. revert i buf. induction n; intros; simpl; [done|]. by rewrite IHn, length_insert. Qed.

(** The loop writes [n] copies at [idx] and leaves the rest alone. *)
Lemma fill_from_app {A} n (v : A) pre mid post :
  length mid = n → fill_from n v (length pre) (pre ++ mid ++ post) = pre ++ replicate n v ++ post.
Proof.
  revert pre mid. induction n as [|n IH]; intros pre mid Hm; simpl.
  - by rewrite (nil_length_inv mid Hm).
  - destruct mid as [|m mid]; [done|]. simpl in Hm. injection Hm as Hm.
    rewrite insert_app_r_alt by lia. rewrite Nat.sub_diag. simpl.
    rewrite !(cons_middle v), !(app_assoc pre [v]).
    replace (S (length pre)) with (length (pre ++ [v])) by (rewrite length_app; simpl; lia).
    by rewrite IH.
Qed.

Lemma copy_at_app {A} (src pre mid : list A) :
  length mid = length src → copy_at (length pre) src (pre ++ mid) = pre ++ src.
Proof.
  intros H. unfold copy_at. rewrite take_app_length. rewrite drop_app_add', drop_ge by lia.
  by rewrite app_nil_r.
Qed.

(** ** Chunks *)

Lemma chunks_aux_fuel {A} n f f' (l : list A) :
  (0 < n)%nat → (length l ≤ f)%nat → (length l ≤ f')%nat → chunks_aux f n l = chunks_aux f' n l.
Proof.
  intros Hn. revert f' l. induction f as [|f IH]; intros f' l H H'; destruct l as [|x l]; try done;
    try (by destruct f'); cbn [length] in *; [lia|].
  destruct f' as [|f']; [lia|]. cbn [chunks_aux]. f_equal.
  apply IH; rewrite length_drop; cbn [length]; lia.
Qed.

Lemma chunks_nil {A} n : chunks n ([] : list A) = [].
Proof. done. Qed.

Lemma chunks_app {A} n (b l : list A) :
  (0 < n)%nat → length b = n → chunks n (b ++ l) = b :: chunks n l.
Proof.
  intros Hn Hb. unfold chunks. destruct b as [|x b]; [simpl in Hb; lia|].
  rewrite length_app. cbn [length Nat.add app chunks_aux].
  rewrite app_comm_cons, take_app_length', drop_app_length' by done. f_equal.
  apply chunks_aux_fuel; cbn [length] in Hb; lia.
Qed.

Lemma chunks_short {A} n (l : list A) : (0 < length l ≤ n)%nat → chunks n l = [l].
Proof.
  intros H. unfold chunks. destruct l as [|x l]; [simpl in H; lia|]. cbn [length] in *.
  cbn [chunks_aux]. rewrite take_ge, drop_ge by (cbn [length]; lia). by destruct (length l).
Qed.

Lemma chunks_step {A} n (l : list A) :
  (0 < n)%nat → l ≠ [] → chunks n l = take n l :: chunks n (drop n l).
Proof.
  intros Hn Hl. destruct (decide (n ≤ length l)%nat) as [H|H].
  - rewrite <- (take_drop n l) at 1. apply chunks_app; [done|]. rewrite length_take. lia.
  - rewrite take_ge, drop_ge by lia. rewrite chunks_short by (destruct l; simpl in *; [done|lia]).
    by rewrite chunks_nil.
Qed.

(** Induction on a byte string by its chunks. *)
Lemma chunks_ind {A} n (P : list A → Prop) :
  (0 < n)%nat → P [] → (∀ l, l ≠ [] → P (drop n l) → P l) → ∀ l, P l.
Proof.
  intros Hn H0 HS l. remember (length l) as k eqn:E. revert l E.
  induction k as [k IH] using lt_wf_ind. intros l E.
  destruct l as [|x l]; [done|]. apply HS; [done|].
  eapply IH; [|done]. rewrite length_drop. subst. cbn [length]. lia.
Qed.

Lemma concat_chunks {A} n (l : list A) : (0 < n)%nat → concat (chunks n l) = l.
Proof.
  intros Hn. revert l. apply (chunks_ind n); [done..|]. intros l Hl IH.
  rewrite chunks_step by done. cbn [concat]. rewrite IH. apply take_drop.
Qed.

Lemma chunks_concat {A} n (bs : list (list A)) :
  (0 < n)%nat → Forall (λ b, length b = n) bs → ∀ l, chunks n (concat bs ++ l) = bs ++ chunks n l.
Proof.
  intros Hn Hbs l. induction Hbs as [|b bs Hb _ IH]; [done|].
  cbn [concat]. rewrite <- app_assoc, chunks_app by done. by rewrite IH.
Qed.

Lemma length_chunks {A} n k (l : list A) :
  (0 < n)%nat → length l = (k * n)%nat → length (chunks n l) = k.
Proof.
  intros Hn. revert l. induction k as [|k IH]; intros l Hl; [by rewrite (nil_length_inv l)|].
  rewrite <- (take_drop n l), chunks_app by (done || rewrite length_take; lia).
  cbn [length]. rewrite IH; [done|]. rewrite length_drop. lia.
Qed.

Lemma chunks_length_le {A} n (l : list A) : (0 < n)%nat → Forall (λ c, 0 < length c ≤ n)%nat (chunks n l).
Proof.
  intros Hn. revert l. apply (chunks_ind n); [done|constructor|]. intros l Hl IH.
  rewrite chunks_step by done. constructor; [|done].
  destruct l; [done|]. rewrite length_take. cbn [length]. lia.
Qed.

(** ** Reading a bit *)

Lemma bit_eqb x i : 0 ≤ i → (Z.land (Z.shiftr x i) 1 =? 1) = Z.testbit x i.
Proof.
  intros Hi. change 1 with (Z.ones 1) at 1. rewrite Z.land_ones by lia. change (2 ^ 1) with 2.
  rewrite <- Z.bit0_mod, Z.shiftr_spec, Z.add_0_l by lia. by destruct (Z.testbit x i).
Qed.

(** ** Xor of byte strings *)

Lemma lxor_uN w a b : 0 ≤ w → uN w a → uN w b → uN w (Z.lxor a b).
Proof.
  intros Hw Ha Hb. apply testbit_uN; [done| |].
  - apply Z.lxor_nonneg. destruct Ha, Hb. lia.
  - intros j Hj. rewrite Z.lxor_spec.
    by rewrite (uN_testbit_high w a), (uN_testbit_high w b) by done.
Qed.

Lemma length_xor_bytes a b : length (xor_bytes a b) = min (length a) (length b).
Proof. apply length_zip_with. Qed.

Lemma xor_bytes_ok a b : bytes_ok a → bytes_ok b → bytes_ok (xor_bytes a b).
Proof.
  intros Ha Hb. unfold xor_bytes.
  revert b Hb. induction Ha as [|x a Hx _ IH]; intros [|y b] Hb; simpl; try by constructor.
  inversion Hb; subst. constructor; [apply lxor_uN; (done || lia)|by apply IH].
Qed.

(** Xor with the same key stream twice is the identity. *)
Lemma xor_bytes_cancel a k : (length a ≤ length k)%nat → xor_bytes (xor_bytes a k) k = a.
Proof.
  revert k. induction a as [|x a IH]; intros [|y k] H; simpl in *; try done; [lia|].
  rewrite Z.lxor_assoc, Z.lxor_nilpotent, Z.lxor_0_r. f_equal. apply IH. lia.
Qed.

Lemma xor_bytes_comm a b : xor_bytes a b = xor_bytes b a.
Proof. revert b. induction a; intros [|y b]; simpl; [done..|]. by rewrite Z.lxor_comm, IHa. Qed.

Lemma xor_bytes_take n a b : xor_bytes (take n a) b = take n (xor_bytes a b).
Proof. revert n b. induction a; intros [|n] [|y b]; simpl; try done. by rewrite IHa. Qed.

Lemma xor_bytes_app a1 a2 b1 b2 :
  length a1 = length b1 → xor_bytes (a1 ++ a2) (b1 ++ b2) = xor_bytes a1 b1 ++ xor_bytes a2 b2.
Proof. intros H. unfold xor_bytes. by apply zip_with_app. Qed.

(** A longer second string does not matter. *)
Lemma xor_bytes_prefix a b c : (length a ≤ length b)%nat → xor_bytes a (b ++ c) = xor_bytes a b.
Proof. revert b. induction a; intros [|y b] H; simpl in *; try done; [lia|]. rewrite IHa by lia. done. Qed.

Lemma xor_bytes_inj_r a b b' :
  length a = length b → length a = length b' → xor_bytes a b = xor_bytes a b' → b = b'.
Proof.
  revert b b'. induction a as [|x a IH]; intros [|y b] [|y' b'] H H'; simpl in *; try done.
  intros [= E Et]. f_equal; [|apply IH; (done || lia)].
  apply (f_equal (Z.lxor x)) in E. by rewrite <- !Z.lxor_assoc, Z.lxor_nilpotent, !Z.lxor_0_l in E.
Qed.

Lemma to_be_bytes_inj n v v' :
  uN (8 * Z.of_nat n) v → uN (8 * Z.of_nat n) v' → to_be_bytes n v = to_be_bytes n v' → v = v'.
Proof. intros H H' E. rewrite <- (from_to_be_bytes n v H), E. by apply from_to_be_bytes. Qed.

(** ** Checking a property of all bytes *)

Lemma forall_byte (P : Z → bool) :
  forallb P (seqZ 0 256) = true → ∀ b, uN 8 b → P b = true.
Proof.
  intros H b [H1 H2]. rewrite forallb_forall in H. apply H, list_elem_of_In, elem_of_seqZ. lia.
Qed.

Lemma forall_byte2 (P : Z → Z → bool) :
  forallb (λ a, forallb (P a) (seqZ 0 256)) (seqZ 0 256) = true →
  ∀ a b, uN 8 a → uN 8 b → P a b = true.
Proof.
  intros H a b Ha Hb. apply (forall_byte (P a)); [|done].
  by apply (forall_byte (λ a, forallb (P a) (seqZ 0 256)) H).
Qed.

Lemma nth_bytes_ok n l : bytes_ok l → uN 8 (nth n l 0).
Proof.
  intros H. revert n. induction H as [|x l Hx _ IH]; intros [|n]; cbn [nth]; try done;
    unfold uN; lia.
Qed.

#[export] Hint Resolve nth_bytes_ok : smartos.
#[export] Hint Resolve to_be_bytes_ok length_to_be_bytes xor_bytes_ok : smartos.
#[global] Arguments to_be_bytes : simpl never.
#[global] Arguments from_be_bytes : simpl never.
