(* ===== verification/SmartPackFormat.v ===== *)
(** SmartPack wire format and values: [smartpack/src/format.rs] (tag bytes,
    header byte) and [smartpack/src/types.rs] (the [Value] enum and its
    accessors).  [Value.t] carries integers at their declared width as [Z],
    floats as their IEEE bit pattern, strings as their UTF-8 bytes. *)

From S2P Require Import Prelude.

Set Warnings "-register-all".

(** ** Tag bytes and header byte (format.rs) *)
Module Format.

Definition MAGIC_0 : Z := 0x53.
Definition MAGIC_1 : Z := 0x50.

Definition FIXINT_MAX : Z := 0x7F.

Definition TAG_UINT8 : Z := 0x80.
Definition TAG_UINT16 : Z := 0x81.
Definition TAG_UINT32 : Z := 0x82.
Definition TAG_UINT64 : Z := 0x83.
Definition TAG_UINT128 : Z := 0x84.

Definition NEG_FIXINT_BASE : Z := 0x90.
Definition NEG_FIXINT_MAX : Z := 0x9B.
Definition NEG_FIXINT_COUNT : Z := 12.

Definition TAG_INT8 : Z := 0x9C.
Definition TAG_INT16 : Z := 0x9D.
Definition TAG_INT32 : Z := 0x9E.
Definition TAG_INT64 : Z := 0x9F.

Definition TAG_FLOAT32 : Z := 0xA1.
Definition TAG_FLOAT64 : Z := 0xA2.

Definition FIXSTR_BASE : Z := 0xB0.
Definition FIXSTR_MAX_LEN : Z := 11.
Definition TAG_STR8 : Z := 0xBC.
Definition TAG_STR16 : Z := 0xBD.
Definition TAG_STR32 : Z := 0xBE.

Definition FIXBIN_BASE : Z := 0xC0.
Definition FIXBIN_MAX_LEN : Z := 11.
Definition TAG_BIN8 : Z := 0xCC.
Definition TAG_BIN16 : Z := 0xCD.
Definition TAG_BIN32 : Z := 0xCE.

Definition FIXARRAY_BASE : Z := 0xD0.
Definition FIXARRAY_MAX_LEN : Z := 11.
Definition TAG_ARRAY8 : Z := 0xDC.
Definition TAG_ARRAY16 : Z := 0xDD.
Definition TAG_ARRAY32 : Z := 0xDE.

Definition FIXMAP_BASE : Z := 0xE0.
Definition FIXMAP_MAX_LEN : Z := 11.
Definition TAG_MAP8 : Z := 0xEC.
Definition TAG_MAP16 : Z := 0xED.
Definition TAG_MAP32 : Z := 0xEE.

Definition TAG_NULL : Z := 0xF0.
Definition TAG_FALSE : Z := 0xF1.
Definition TAG_TRUE : Z := 0xF2.
Definition TAG_TIMESTAMP : Z := 0xF3.
Definition TAG_UUID : Z := 0xF4.
Definition TAG_EXT : Z := 0xF9.

(** [((version & 0x0F) << 4) | ((mode & 0x03) << 2) | (compression & 0x03)] *)
Definition make_header_byte0 (version mode compression : Z) : Z :=
  Z.lor (Z.lor (wrap 8 (Z.shiftl (Z.land version 0x0F) 4))
               (wrap 8 (Z.shiftl (Z.land mode 0x03) 2)))
        (Z.land compression 0x03).

Definition header_version (byte0 : Z) : Z := Z.land (Z.shiftr byte0 4) 0x0F.
Definition header_mode (byte0 : Z) : Z := Z.land (Z.shiftr byte0 2) 0x03.
Definition header_compression (byte0 : Z) : Z := Z.land byte0 0x03.

End Format.

(** ** Values (types.rs) *)
Module Value.


Inductive t : Type :=
| Null
| Bool (b : bool)
| UInt8 (v : Z)
| UInt16 (v : Z)
| UInt32 (v : Z)
| UInt64 (v : Z)
| UInt128 (v : Z)
| Int8 (v : Z)
| Int16 (v : Z)
| Int32 (v : Z)
| Int64 (v : Z)
| Float32 (bits : Z)
| Float64 (bits : Z)
| String (s : list Z)
| Binary (b : list Z)
| Array (items : list t)
| Map (pairs : list (t * t))
| Timestamp (nanos : Z)
| Uuid (uuid : list Z)
| Extension (type_id : Z) (data : list Z).

Definition is_null (v : t) : bool :=
  match v with Null => true | _ => false end.

Definition as_bool (v : t) : option bool :=
  match v with Bool b => Some b | _ => None end.

Definition as_u64 (v : t) : option Z :=
  match v with
  | UInt8 v | UInt16 v | UInt32 v | UInt64 v => Some v
  | _ => None
  end.

Definition as_i64 (v : t) : option Z :=
  match v with
  | Int8 v | Int16 v | Int32 v | Int64 v => Some v
  | _ => None
  end.

Definition as_str (v : t) : option (list Z) :=
  match v with String s => Some s | _ => None end.

Definition as_bytes (v : t) : option (list Z) :=
  match v with Binary b => Some b | _ => None end.

Definition as_array (v : t) : option (list t) :=
  match v with Array a => Some a | _ => None end.

Definition as_map (v : t) : option (list (t * t)) :=
  match v with Map m => Some m | _ => None end.

Definition type_family (v : t) : Z :=
  match v with
  | Null | Bool _ | Timestamp _ | Uuid _ => 0x7
  | UInt8 _ | UInt16 _ | UInt32 _ | UInt64 _ | UInt128 _ => 0x0
  | Int8 _ | Int16 _ | Int32 _ | Int64 _ => 0x1
  | Float32 _ | Float64 _ => 0x2
  | String _ => 0x3
  | Binary _ => 0x4
  | Array _ => 0x5
  | Map _ => 0x6
  | Extension _ _ => 0x9
  end.

(** Induction over values with the hypothesis for every array element and
    every key and value of a map. *)
Section induction.

Variable P : t → Prop.
Hypothesis HArray : ∀ l, Forall P l → P (Array l).
Hypothesis HMap : ∀ l, Forall (λ kv, P kv.1 ∧ P kv.2) l → P (Map l).
Hypothesis Hflat : ∀ v, (∀ l, v ≠ Array l) → (∀ l, v ≠ Map l) → P v.

Lemma value_ind v : P v.
Proof.
  revert v. fix go 1. intros v. destruct v; try (apply Hflat; discriminate).
  - apply HArray. induction items; constructor; auto.
  - apply HMap. induction pairs as [|[k x] l]; constructor; auto.
Qed.

End induction.

End Value.
