(* ===== verification/SmartPack.v ===== *)
(** SmartPack encoder and decoder: [smartpack/src/encode.rs] and
    [smartpack/src/decode.rs].

    [Encoder] and [Decoder] are the Rust structs; a [&mut self] method is a
    computation of the monad [M] of the prelude, so that a failing call keeps
    what it has already written or consumed.  [decode_value] recurses at most
    [MAX_DEPTH] levels: the code checks the depth before it descends, so the
    level budget [129 - depth] of the model is never the reason of a failure
    ([decode_value_budget]). *)

From S2P Require Import Prelude SmartPackFormat.
Import Format.

(** ** Encoder (encode.rs) *)
Module Encode.
Import Value.

Inductive EncodeError : Type :=
| BufferTooSmall (needed available : Z)
| StringTooLong (len : Z)
| BinaryTooLong (len : Z)
| ArrayTooLong (len : Z)
| MapTooLong (len : Z).

Record Encoder := mkEncoder { buf : list Z }.

Definition new : Encoder := {| buf := [] |}.
Definition push (b : Z) (e : Encoder) : Encoder := {| buf := buf e ++ [b] |}.
Definition extend_from_slice (bs : list Z) (e : Encoder) : Encoder :=
  {| buf := buf e ++ bs |}.

Definition encode_null (e : Encoder) : Encoder := push TAG_NULL e.

Definition encode_bool (v : bool) (e : Encoder) : Encoder :=
  push (if v then TAG_TRUE else TAG_FALSE) e.

Definition encode_uint (v : Z) (e : Encoder) : Encoder :=
  if v <=? FIXINT_MAX then push (wrap 8 v) e
  else if v <=? 2 ^ 8 - 1 then push (wrap 8 v) (push TAG_UINT8 e)
  else if v <=? 2 ^ 16 - 1 then
    extend_from_slice (to_le_bytes 2 (wrap 16 v)) (push TAG_UINT16 e)
  else if v <=? 2 ^ 32 - 1 then
    extend_from_slice (to_le_bytes 4 (wrap 32 v)) (push TAG_UINT32 e)
  else extend_from_slice (to_le_bytes 8 v) (push TAG_UINT64 e).

Definition encode_uint128 (v : Z) (e : Encoder) : Encoder :=
  if v <=? 2 ^ 64 - 1 then encode_uint (wrap 64 v) e
  else extend_from_slice (to_le_bytes 16 v) (push TAG_UINT128 e).

Definition encode_int (v : Z) (e : Encoder) : Encoder :=
  if 0 <=? v then encode_uint (wrap 64 v) e
  else if - NEG_FIXINT_COUNT <=? v then push (NEG_FIXINT_BASE + wrap 8 (- v - 1)) e
  else if - 2 ^ 7 <=? v then push (wrap 8 v) (push TAG_INT8 e)
  else if - 2 ^ 15 <=? v then
    extend_from_slice (to_le_bytes 2 (wrap 16 v)) (push TAG_INT16 e)
  else if - 2 ^ 31 <=? v then
    extend_from_slice (to_le_bytes 4 (wrap 32 v)) (push TAG_INT32 e)
  else extend_from_slice (to_le_bytes 8 (wrap 64 v)) (push TAG_INT64 e).

Definition encode_f32 (bits : Z) (e : Encoder) : Encoder :=
  extend_from_slice (to_le_bytes 4 bits) (push TAG_FLOAT32 e).

Definition encode_f64 (bits : Z) (e : Encoder) : Encoder :=
  extend_from_slice (to_le_bytes 8 bits) (push TAG_FLOAT64 e).

Definition encode_str (s : list Z) : M Encoder EncodeError unit :=
  let len := Z.of_nat (length s) in
  (if len <=? FIXSTR_MAX_LEN then modify (push (FIXSTR_BASE + wrap 8 len))
   else if len <=? 2 ^ 8 - 1 then
     modify (λ e, push (wrap 8 len) (push TAG_STR8 e))
   else if len <=? 2 ^ 16 - 1 then
     modify (λ e, extend_from_slice (to_le_bytes 2 (wrap 16 len)) (push TAG_STR16 e))
   else if len <=? 2 ^ 32 - 1 then
     modify (λ e, extend_from_slice (to_le_bytes 4 (wrap 32 len)) (push TAG_STR32 e))
   else throw (StringTooLong len))
  ≫= λ _, modify (extend_from_slice s).

Definition encode_binary (data : list Z) : M Encoder EncodeError unit :=
  let len := Z.of_nat (length data) in
  (if len <=? FIXBIN_MAX_LEN then modify (push (FIXBIN_BASE + wrap 8 len))
   else if len <=? 2 ^ 8 - 1 then
     modify (λ e, push (wrap 8 len) (push TAG_BIN8 e))
   else if len <=? 2 ^ 16 - 1 then
     modify (λ e, extend_from_slice (to_le_bytes 2 (wrap 16 len)) (push TAG_BIN16 e))
   else if len <=? 2 ^ 32 - 1 then
     modify (λ e, extend_from_slice (to_le_bytes 4 (wrap 32 len)) (push TAG_BIN32 e))
   else throw (BinaryTooLong len))
  ≫= λ _, modify (extend_from_slice data).

Definition encode_array_header (count : Z) : M Encoder EncodeError unit :=
  if count <=? FIXARRAY_MAX_LEN then modify (push (FIXARRAY_BASE + wrap 8 count))
  else if count <=? 2 ^ 8 - 1 then
    modify (λ e, push (wrap 8 count) (push TAG_ARRAY8 e))
  else if count <=? 2 ^ 16 - 1 then
    modify (λ e, extend_from_slice (to_le_bytes 2 (wrap 16 count)) (push TAG_ARRAY16 e))
  else if count <=? 2 ^ 32 - 1 then
    modify (λ e, extend_from_slice (to_le_bytes 4 (wrap 32 count)) (push TAG_ARRAY32 e))
  else throw (ArrayTooLong count).

Definition encode_map_header (count : Z) : M Encoder EncodeError unit :=
  if count <=? FIXMAP_MAX_LEN then modify (push (FIXMAP_BASE + wrap 8 count))
  else if count <=? 2 ^ 8 - 1 then
    modify (λ e, push (wrap 8 count) (push TAG_MAP8 e))
  else if count <=? 2 ^ 16 - 1 then
    modify (λ e, extend_from_slice (to_le_bytes 2 (wrap 16 count)) (push TAG_MAP16 e))
  else if count <=? 2 ^ 32 - 1 then
    modify (λ e, extend_from_slice (to_le_bytes 4 (wrap 32 count)) (push TAG_MAP32 e))
  else throw (MapTooLong count).

Definition encode_timestamp (nanos : Z) (e : Encoder) : Encoder :=
  extend_from_slice (to_le_bytes 8 nanos) (push TAG_TIMESTAMP e).

Definition encode_uuid (uuid : list Z) (e : Encoder) : Encoder :=
  extend_from_slice uuid (push TAG_UUID e).

Fixpoint encode_value (value : Value.t) : M Encoder EncodeError unit :=
  match value with
  | Null => modify encode_null
  | Bool v => modify (encode_bool v)
  | UInt8 v | UInt16 v | UInt32 v | UInt64 v => modify (encode_uint v)
  | UInt128 v => modify (encode_uint128 v)
  | Int8 v | Int16 v | Int32 v | Int64 v => modify (encode_int v)
  | Float32 v => modify (encode_f32 v)
  | Float64 v => modify (encode_f64 v)
  | Timestamp nanos => modify (encode_timestamp nanos)
  | Uuid uuid => modify (encode_uuid uuid)
  | String s => encode_str s
  | Binary b => encode_binary b
  | Array items =>
      encode_array_header (Z.of_nat (length items)) ≫= λ _,
      for_each encode_value items
  | Map pairs =>
      encode_map_header (Z.of_nat (length pairs)) ≫= λ _,
      for_each (λ '(k, v), encode_value k ≫= λ _, encode_value v) pairs
  | Extension type_id data =>
      modify (λ e,
        extend_from_slice data
          (encode_uint (Z.of_nat (length data)) (push type_id (push TAG_EXT e))))
  end.

Definition encode (value : Value.t) : result EncodeError (list Z) :=
  match encode_value value new with
  | (Ok _, e) => Ok (buf e)
  | (Err err, _) => Err err
  end.

End Encode.

(** ** UTF-8 validity ([core::str::from_utf8])

    The well-formed byte sequences of the Unicode standard (no overlong
    forms, no surrogates, nothing above U+10FFFF). *)
Definition in_range (lo hi b : Z) : bool := (lo <=? b) && (b <=? hi).

Definition is_cont (b : Z) : bool := in_range 0x80 0xBF b.

Fixpoint utf8_valid (bs : list Z) : bool :=
  match bs with
  | [] => true
  | b0 :: r0 =>
      if b0 <? 0x80 then utf8_valid r0
      else if in_range 0xC2 0xDF b0 then
        match r0 with
        | b1 :: r1 => is_cont b1 && utf8_valid r1
        | _ => false
        end
      else if in_range 0xE0 0xEF b0 then
        match r0 with
        | b1 :: b2 :: r2 =>
            (if b0 =? 0xE0 then in_range 0xA0 0xBF b1
             else if b0 =? 0xED then in_range 0x80 0x9F b1
             else is_cont b1)
            && is_cont b2 && utf8_valid r2
        | _ => false
        end
      else if in_range 0xF0 0xF4 b0 then
        match r0 with
        | b1 :: b2 :: b3 :: r3 =>
            (if b0 =? 0xF0 then in_range 0x90 0xBF b1
             else if b0 =? 0xF4 then in_range 0x80 0x8F b1
             else is_cont b1)
            && is_cont b2 && is_cont b3 && utf8_valid r3
        | _ => false
        end
      else false
  end.

(** ** Decoder (decode.rs) *)
Module Decode.
Import Value.

Inductive DecodeError : Type :=
| UnexpectedEof
| InvalidTag (tag : Z)
| InvalidUtf8
| DepthLimitExceeded
| TrailingData (n : Z).

Definition MAX_DEPTH : nat := 128.

Record Decoder := mkDecoder { data : list Z; pos : Z; depth : nat }.

Abbreviation D := (M Decoder DecodeError).

Definition new (data : list Z) : Decoder := {| data := data; pos := 0; depth := 0 |}.

Definition data_len (d : Decoder) : Z := Z.of_nat (length (data d)).

Definition position (d : Decoder) : Z := pos d.
Definition remaining (d : Decoder) : Z := data_len d - pos d.
Definition is_empty (d : Decoder) : bool := data_len d <=? pos d.

Definition advance (n : Z) (d : Decoder) : Decoder :=
  {| data := data d; pos := pos d + n; depth := depth d |}.

Definition read_byte : D Z := λ d,
  if data_len d <=? pos d then (Err UnexpectedEof, d)
  else (Ok (nth (Z.to_nat (pos d)) (data d) 0), advance 1 d).

Definition read_bytes (n : Z) : D (list Z) := λ d,
  if data_len d <? pos d + n then (Err UnexpectedEof, d)
  else (Ok (take (Z.to_nat n) (drop (Z.to_nat (pos d)) (data d))), advance n d).

Definition read_u8 : D Z := read_byte.
Definition read_u16_le : D Z := read_bytes 2 ≫= λ bytes, mret (from_le_bytes bytes).
Definition read_u32_le : D Z := read_bytes 4 ≫= λ bytes, mret (from_le_bytes bytes).
Definition read_u64_le : D Z := read_bytes 8 ≫= λ bytes, mret (from_le_bytes bytes).
Definition read_u128_le : D Z := read_bytes 16 ≫= λ bytes, mret (from_le_bytes bytes).

Definition set_depth (n : nat) (d : Decoder) : Decoder :=
  {| data := data d; pos := pos d; depth := n |}.

Definition push_depth : D unit := λ d,
  let d' := set_depth (S (depth d)) d in
  if (MAX_DEPTH <? depth d')%nat then (Err DepthLimitExceeded, d') else (Ok tt, d').

Definition pop_depth : D unit := modify (λ d, set_depth (pred (depth d)) d).

(** [core::str::from_utf8(bytes).map_err(|_| InvalidUtf8)] *)
Definition from_utf8 (bytes : list Z) : D (list Z) :=
  if utf8_valid bytes then mret bytes else throw InvalidUtf8.

Definition decode_str_ref : D (list Z) :=
  read_byte ≫= λ tag,
  (if (FIXSTR_BASE <=? tag) && (tag <=? FIXSTR_BASE + FIXSTR_MAX_LEN) then
     mret (tag - FIXSTR_BASE)
   else if tag =? TAG_STR8 then read_u8
   else if tag =? TAG_STR16 then read_u16_le
   else if tag =? TAG_STR32 then read_u32_le
   else throw (InvalidTag tag)) ≫= λ len,
  read_bytes len ≫= λ bytes, from_utf8 bytes.

Definition decode_bin_ref : D (list Z) :=
  read_byte ≫= λ tag,
  (if (FIXBIN_BASE <=? tag) && (tag <=? FIXBIN_BASE + FIXBIN_MAX_LEN) then
     mret (tag - FIXBIN_BASE)
   else if tag =? TAG_BIN8 then read_u8
   else if tag =? TAG_BIN16 then read_u16_le
   else if tag =? TAG_BIN32 then read_u32_le
   else throw (InvalidTag tag)) ≫= λ len,
  read_bytes len.

Definition decode_array_values (decode_value : D Value.t) (count : Z) : D Value.t :=
  push_depth ≫= λ _,
  collect decode_value (Z.to_nat count) ≫= λ items,
  pop_depth ≫= λ _, mret (Array items).

Definition decode_map_values (decode_value : D Value.t) (count : Z) : D Value.t :=
  push_depth ≫= λ _,
  collect (decode_value ≫= λ key, decode_value ≫= λ val, mret (key, val))
    (Z.to_nat count) ≫= λ pairs,
  pop_depth ≫= λ _, mret (Map pairs).

Definition string_value (len : Z) : D Value.t :=
  read_bytes len ≫= λ bytes, from_utf8 bytes ≫= λ s, mret (String s).

Definition binary_value (len : Z) : D Value.t :=
  read_bytes len ≫= λ bytes, mret (Binary bytes).

(** The [match tag] of [decode_value], arms in source order; [rec] decodes a
    nested value. *)
Definition decode_tag (rec : D Value.t) (tag : Z) : D Value.t :=
  if tag <=? FIXINT_MAX then mret (UInt8 tag)
  else if tag =? TAG_UINT8 then read_u8 ≫= λ v, mret (UInt8 v)
  else if tag =? TAG_UINT16 then read_u16_le ≫= λ v, mret (UInt16 v)
  else if tag =? TAG_UINT32 then read_u32_le ≫= λ v, mret (UInt32 v)
  else if tag =? TAG_UINT64 then read_u64_le ≫= λ v, mret (UInt64 v)
  else if tag =? TAG_UINT128 then read_u128_le ≫= λ v, mret (UInt128 v)
  else if (NEG_FIXINT_BASE <=? tag) && (tag <=? NEG_FIXINT_MAX) then
    mret (Int8 (- to_signed 8 (tag - NEG_FIXINT_BASE) - 1))
  else if tag =? TAG_INT8 then read_u8 ≫= λ v, mret (Int8 (to_signed 8 v))
  else if tag =? TAG_INT16 then read_u16_le ≫= λ v, mret (Int16 (to_signed 16 v))
  else if tag =? TAG_INT32 then read_u32_le ≫= λ v, mret (Int32 (to_signed 32 v))
  else if tag =? TAG_INT64 then read_u64_le ≫= λ v, mret (Int64 (to_signed 64 v))
  else if tag =? TAG_FLOAT32 then
    read_bytes 4 ≫= λ bytes, mret (Float32 (from_le_bytes bytes))
  else if tag =? TAG_FLOAT64 then
    read_bytes 8 ≫= λ bytes, mret (Float64 (from_le_bytes bytes))
  else if (FIXSTR_BASE <=? tag) && (tag <=? FIXSTR_BASE + FIXSTR_MAX_LEN) then
    string_value (tag - FIXSTR_BASE)
  else if tag =? TAG_STR8 then read_u8 ≫= string_value
  else if tag =? TAG_STR16 then read_u16_le ≫= string_value
  else if tag =? TAG_STR32 then read_u32_le ≫= string_value
  else if (FIXBIN_BASE <=? tag) && (tag <=? FIXBIN_BASE + FIXBIN_MAX_LEN) then
    binary_value (tag - FIXBIN_BASE)
  else if tag =? TAG_BIN8 then read_u8 ≫= binary_value
  else if tag =? TAG_BIN16 then read_u16_le ≫= binary_value
  else if tag =? TAG_BIN32 then read_u32_le ≫= binary_value
  else if (FIXARRAY_BASE <=? tag) && (tag <=? FIXARRAY_BASE + FIXARRAY_MAX_LEN) then
    decode_array_values rec (tag - FIXARRAY_BASE)
  else if tag =? TAG_ARRAY8 then read_u8 ≫= decode_array_values rec
  else if tag =? TAG_ARRAY16 then read_u16_le ≫= decode_array_values rec
  else if tag =? TAG_ARRAY32 then read_u32_le ≫= decode_array_values rec
  else if (FIXMAP_BASE <=? tag) && (tag <=? FIXMAP_BASE + FIXMAP_MAX_LEN) then
    decode_map_values rec (tag - FIXMAP_BASE)
  else if tag =? TAG_MAP8 then read_u8 ≫= decode_map_values rec
  else if tag =? TAG_MAP16 then read_u16_le ≫= decode_map_values rec
  else if tag =? TAG_MAP32 then read_u32_le ≫= decode_map_values rec
  else if tag =? TAG_NULL then mret Null
  else if tag =? TAG_FALSE then mret (Bool false)
  else if tag =? TAG_TRUE then mret (Bool true)
  else if tag =? TAG_TIMESTAMP then read_u64_le ≫= λ v, mret (Timestamp v)
  else if tag =? TAG_UUID then read_bytes 16 ≫= λ bytes, mret (Uuid bytes)
  else throw (InvalidTag tag).

Fixpoint decode_value (budget : nat) : D Value.t :=
  read_byte ≫= decode_tag
    (match budget with O => throw DepthLimitExceeded | S b => decode_value b end).

(** [Decoder::decode_value]: the levels left under [MAX_DEPTH]. *)
Definition decode_value_at (d : Decoder) : result DecodeError Value.t * Decoder :=
  decode_value (MAX_DEPTH - depth d) d.

Definition decode (data : list Z) : result DecodeError Value.t :=
  (decode_value_at (new data)).1.

End Decode.
