(* ===== verification/SmartPackProofs.v ===== *)
(** SmartPack round trip, canonical form and decoder soundness.

    [wire] is the byte format as a function of the value alone; the encoder is
    proved to produce it, and the decoder is proved to read it back up to
    [norm] (integers come back at the narrowest width that holds them), or to
    report [DepthLimitExceeded] exactly when the nesting exceeds [MAX_DEPTH]. *)

From S2P Require Import Prelude SmartPackFormat SmartPack.
Import Format Value.

(** ** Specification *)

(** A value whose integers fit their declared widths, whose strings are
    UTF-8 and whose blobs are bytes: what the Rust types guarantee. *)
Fixpoint well_formed (v : Value.t) : bool :=
  match v with
  | Null | Bool _ => true
  | UInt8 v => bool_decide (uN 8 v)
  | UInt16 v => bool_decide (uN 16 v)
  | UInt32 v => bool_decide (uN 32 v)
  | UInt64 v | Timestamp v => bool_decide (uN 64 v)
  | UInt128 v => bool_decide (uN 128 v)
  | Int8 v => bool_decide (iN 8 v)
  | Int16 v => bool_decide (iN 16 v)
  | Int32 v => bool_decide (iN 32 v)
  | Int64 v => bool_decide (iN 64 v)
  | Float32 v => bool_decide (uN 32 v)
  | Float64 v => bool_decide (uN 64 v)
  | String s => bool_decide (bytes_ok s) && utf8_valid s
  | Binary b => bool_decide (bytes_ok b)
  | Array l => forallb well_formed l
  | Map l => forallb (λ '(k, v), well_formed k && well_formed v) l
  | Uuid u => bool_decide (bytes_ok u) && (length u =? 16)%nat
  | Extension t d =>
      bool_decide (uN 8 t) && bool_decide (bytes_ok d) && (Z.of_nat (length d) <? 2 ^ 63)
  end.

(** Every length fits the 32-bit length field of the format. *)
Definition fits_u32 (n : nat) : bool := Z.of_nat n <=? 2 ^ 32 - 1.

Fixpoint encodable (v : Value.t) : bool :=
  match v with
  | String s | Binary s => fits_u32 (length s)
  | Array l => fits_u32 (length l) && forallb encodable l
  | Map l => fits_u32 (length l) && forallb (λ '(k, v), encodable k && encodable v) l
  | _ => true
  end.

Fixpoint no_extension (v : Value.t) : bool :=
  match v with
  | Extension _ _ => false
  | Array l => forallb no_extension l
  | Map l => forallb (λ '(k, v), no_extension k && no_extension v) l
  | _ => true
  end.

(** Depth of the container nesting. *)
Fixpoint nesting (v : Value.t) : nat :=
  match v with
  | Array l => S (foldr (λ v n, Nat.max (nesting v) n) 0%nat l)
  | Map l => S (foldr (λ kv n, Nat.max (Nat.max (nesting kv.1) (nesting kv.2)) n) 0%nat l)
  | _ => 0%nat
  end.

(** Narrowest integer variants: what a decoder can know. *)
Definition norm_uint (v : Z) : Value.t :=
  if v <=? 2 ^ 8 - 1 then UInt8 v
  else if v <=? 2 ^ 16 - 1 then UInt16 v
  else if v <=? 2 ^ 32 - 1 then UInt32 v
  else UInt64 v.

Definition norm_int (v : Z) : Value.t :=
  if 0 <=? v then norm_uint v
  else if - 2 ^ 7 <=? v then Int8 v
  else if - 2 ^ 15 <=? v then Int16 v
  else if - 2 ^ 31 <=? v then Int32 v
  else Int64 v.

Fixpoint norm (v : Value.t) : Value.t :=
  match v with
  | UInt8 v | UInt16 v | UInt32 v | UInt64 v => norm_uint v
  | UInt128 v => if v <=? 2 ^ 64 - 1 then norm_uint v else UInt128 v
  | Int8 v | Int16 v | Int32 v | Int64 v => norm_int v
  | Array l => Array (map norm l)
  | Map l => Map (map (λ '(k, v), (norm k, norm v)) l)
  | v => v
  end.

(** The bytes of a value. *)
Definition uint_bytes (v : Z) : list Z :=
  if v <=? FIXINT_MAX then [v]
  else if v <=? 2 ^ 8 - 1 then [TAG_UINT8; v]
  else if v <=? 2 ^ 16 - 1 then TAG_UINT16 :: to_le_bytes 2 v
  else if v <=? 2 ^ 32 - 1 then TAG_UINT32 :: to_le_bytes 4 v
  else TAG_UINT64 :: to_le_bytes 8 v.

Definition int_bytes (v : Z) : list Z :=
  if 0 <=? v then uint_bytes v
  else if - NEG_FIXINT_COUNT <=? v then [NEG_FIXINT_BASE + (- v - 1)]
  else if - 2 ^ 7 <=? v then [TAG_INT8; wrap 8 v]
  else if - 2 ^ 15 <=? v then TAG_INT16 :: to_le_bytes 2 (wrap 16 v)
  else if - 2 ^ 31 <=? v then TAG_INT32 :: to_le_bytes 4 (wrap 32 v)
  else TAG_INT64 :: to_le_bytes 8 (wrap 64 v).

Definition prefix (base t8 t16 t32 n : Z) : list Z :=
  if n <=? 11 then [base + n]
  else if n <=? 2 ^ 8 - 1 then [t8; n]
  else if n <=? 2 ^ 16 - 1 then t16 :: to_le_bytes 2 n
  else t32 :: to_le_bytes 4 n.

Definition str_prefix := prefix FIXSTR_BASE TAG_STR8 TAG_STR16 TAG_STR32.
Definition bin_prefix := prefix FIXBIN_BASE TAG_BIN8 TAG_BIN16 TAG_BIN32.
Definition array_prefix := prefix FIXARRAY_BASE TAG_ARRAY8 TAG_ARRAY16 TAG_ARRAY32.
Definition map_prefix := prefix FIXMAP_BASE TAG_MAP8 TAG_MAP16 TAG_MAP32.

Fixpoint wire (v : Value.t) : list Z :=
  match v with
  | Null => [TAG_NULL]
  | Bool b => [if b then TAG_TRUE else TAG_FALSE]
  | UInt8 v | UInt16 v | UInt32 v | UInt64 v => uint_bytes v
  | UInt128 v => if v <=? 2 ^ 64 - 1 then uint_bytes v else TAG_UINT128 :: to_le_bytes 16 v
  | Int8 v | Int16 v | Int32 v | Int64 v => int_bytes v
  | Float32 v => TAG_FLOAT32 :: to_le_bytes 4 v
  | Float64 v => TAG_FLOAT64 :: to_le_bytes 8 v
  | String s => str_prefix (Z.of_nat (length s)) ++ s
  | Binary b => bin_prefix (Z.of_nat (length b)) ++ b
  | Array l => array_prefix (Z.of_nat (length l)) ++ concat (map wire l)
  | Map l => map_prefix (Z.of_nat (length l))
               ++ concat (map (λ '(k, v), wire k ++ wire v) l)
  | Timestamp n => TAG_TIMESTAMP :: to_le_bytes 8 n
  | Uuid u => TAG_UUID :: u
  | Extension t d => TAG_EXT :: t :: uint_bytes (Z.of_nat (length d)) ++ d
  end.

(** ** The encoder produces [wire] *)
Module EncodeProofs.
Import Encode.

Definition app (bs : list Z) (e : Encoder) : Encoder := {| buf := buf e ++ bs |}.

Lemma push_app b e : push b e = app [b] e.
Proof. done. Qed.

Lemma extend_app bs e : extend_from_slice bs e = app bs e.
Proof. done. Qed.

Lemma app_app bs1 bs2 e : app bs2 (app bs1 e) = app (bs1 ++ bs2) e.
Proof. unfold app. simpl. by rewrite (assoc_L (++)). Qed.

Lemma app_nil e : app [] e = e.
Proof. destruct e. unfold app. simpl. by rewrite app_nil_r. Qed.

Create Rewrite HintDb encode.
#[local] Hint Rewrite push_app extend_app app_app : encode.

Lemma encode_uint_app v e : uN 64 v → encode_uint v e = app (uint_bytes v) e.
Proof.
  intros [? ?]. unfold encode_uint, uint_bytes. change FIXINT_MAX with 127.
  repeat case_bool; rewrite ?wrap_id by (split; lia); by autorewrite with encode.
Qed.

Lemma encode_uint128_app v e :
  uN 128 v → encode_uint128 v e = app (wire (UInt128 v)) e.
Proof.
  intros [? ?]. unfold encode_uint128. cbn [wire]. case_bool.
  - rewrite wrap_id by (split; lia). apply encode_uint_app. split; lia.
  - by autorewrite with encode.
Qed.

Lemma encode_int_app v e : iN 64 v → encode_int v e = app (int_bytes v) e.
Proof.
  intros [? ?]. unfold encode_int, int_bytes, NEG_FIXINT_COUNT.
  repeat case_bool; rewrite ?(wrap_id 8 (- v - 1)) by (split; lia);
    autorewrite with encode; try done.
  rewrite wrap_id by (split; lia). apply encode_uint_app. split; lia.
Qed.

Lemma prefix_modify {base t8 t16 t32 n} (f : Z → EncodeError) e :
  0 ≤ n →
  (if n <=? 11 then modify (push (base + wrap 8 n))
   else if n <=? 2 ^ 8 - 1 then modify (λ e, push (wrap 8 n) (push t8 e))
   else if n <=? 2 ^ 16 - 1 then
     modify (λ e, extend_from_slice (to_le_bytes 2 (wrap 16 n)) (push t16 e))
   else if n <=? 2 ^ 32 - 1 then
     modify (λ e, extend_from_slice (to_le_bytes 4 (wrap 32 n)) (push t32 e))
   else throw (f n)) e
  = if n <=? 2 ^ 32 - 1 then (Ok tt, app (prefix base t8 t16 t32 n) e) else (Err (f n), e).
Proof.
  intros. unfold prefix, modify, throw.
  repeat case_bool; try lia; rewrite ?wrap_id by (split; lia); by autorewrite with encode.
Qed.

Lemma encode_str_wire s e :
  encode_str s e = if fits_u32 (length s) then (Ok tt, app (wire (String s)) e)
                   else (Err (StringTooLong (Z.of_nat (length s))), e).
Proof.
  unfold encode_str, fits_u32, mbind, M_bind. change FIXSTR_MAX_LEN with 11.
  rewrite prefix_modify by lia. case_bool; [|done].
  unfold modify. by autorewrite with encode.
Qed.

Lemma encode_binary_wire b e :
  encode_binary b e = if fits_u32 (length b) then (Ok tt, app (wire (Binary b)) e)
                      else (Err (BinaryTooLong (Z.of_nat (length b))), e).
Proof.
  unfold encode_binary, fits_u32, mbind, M_bind. change FIXBIN_MAX_LEN with 11.
  rewrite prefix_modify by lia. case_bool; [|done].
  unfold modify. by autorewrite with encode.
Qed.

(** [for_each] over encoders that either append [w x] or fail. *)
Lemma for_each_encode {A} (body : A → M Encoder EncodeError unit) (w : A → list Z)
    (ok : A → bool) l e :
  Forall (λ x, ∀ e, if ok x then body x e = (Ok tt, app (w x) e)
                    else ∃ err e', body x e = (Err err, e')) l →
  if forallb ok l then for_each body l e = (Ok tt, app (concat (map w l)) e)
  else ∃ err e', for_each body l e = (Err err, e').
Proof.
  intros H. revert e. induction H as [|x l Hx Hl IH]; intros e; simpl.
  - by rewrite app_nil.
  - specialize (Hx e). unfold mbind, M_bind. destruct (ok x); simpl.
    + rewrite Hx, <- app_app. apply IH.
    + destruct Hx as (err & e' & ->). eauto.
Qed.

Lemma encode_value_wire v : well_formed v = true → ∀ e,
  if encodable v then encode_value v e = (Ok tt, app (wire v) e)
  else ∃ err e', encode_value v e = (Err err, e').
Proof.
  induction v as [l IH|l IH|v HA HM] using value_ind; intros Hwf e.
  - simpl in *. unfold mbind, M_bind, encode_array_header.
    change FIXARRAY_MAX_LEN with 11. rewrite prefix_modify by lia. unfold fits_u32.
    case_bool; simpl; [|by eauto].
    pose proof (for_each_encode encode_value wire encodable l
      (app (array_prefix (Z.of_nat (length l))) e)) as Hf.
    rewrite app_app in Hf. apply Hf. rewrite forallb_forall in Hwf.
    rewrite Forall_forall in IH |- *. intros x Hx. apply IH; [done|].
    apply Hwf. by apply list_elem_of_In.
  - simpl in *. unfold mbind, M_bind, encode_map_header.
    change FIXMAP_MAX_LEN with 11. rewrite prefix_modify by lia. unfold fits_u32.
    case_bool; simpl; [|by eauto].
    pose proof (for_each_encode (λ '(k, v) s, match encode_value k s with
        | (Ok _, s') => encode_value v s' | (Err e, s') => (Err e, s') end)
      (λ '(k, v), wire k ++ wire v) (λ '(k, v), encodable k && encodable v) l
      (app (map_prefix (Z.of_nat (length l))) e)) as Hf.
    rewrite app_app in Hf. apply Hf. rewrite forallb_forall in Hwf.
    rewrite Forall_forall in IH |- *. intros [k x] Hx e'.
    destruct (IH _ Hx) as [Hk Hv]. apply list_elem_of_In in Hx.
    specialize (Hwf _ Hx). simpl in Hwf. apply andb_prop in Hwf as [Hwk Hwv].
    specialize (Hk Hwk e'). simpl in Hk, Hv. destruct (encodable k); simpl.
    + rewrite Hk. specialize (Hv Hwv (app (wire k) e')). by rewrite app_app in Hv.
    + destruct Hk as (err & e'' & ->). eauto.
  - destruct v; simpl in Hwf |- *; unfold modify; try done;
      try apply bool_decide_eq_true in Hwf.
    all: try (by f_equal; apply encode_uint_app; unfold uN in *; lia).
    all: try (by f_equal; apply encode_int_app; unfold iN in *; lia).
    + f_equal. by apply encode_uint128_app.
    + unfold encode_f32. by autorewrite with encode.
    + unfold encode_f64. by autorewrite with encode.
    + rewrite encode_str_wire. destruct fits_u32; eauto.
    + rewrite encode_binary_wire. destruct fits_u32; eauto.
    + by destruct (HA items).
    + by destruct (HM pairs).
    + unfold encode_timestamp. by autorewrite with encode.
    + unfold encode_uuid. by autorewrite with encode.
    + apply andb_prop in Hwf as [_ Hlen%Z.ltb_lt].
      rewrite encode_uint_app by (split; lia). by autorewrite with encode.
Qed.

Lemma encode_wire v :
  well_formed v = true → encodable v = true → encode v = Ok (wire v).
Proof.
  intros Hwf He. pose proof (encode_value_wire v Hwf new) as H. rewrite He in H.
  unfold encode. by rewrite H.
Qed.

End EncodeProofs.

(** ** The decoder reads [wire] back

    [parses k m bs a]: at nesting depth [k], wherever [bs] lies in the input,
    [m] consumes exactly [bs] and returns [a].  [overflows k m bs]: it stops
    with [DepthLimitExceeded]. *)
Module DecodeProofs.
Import Decode.

Definition At (d : Decoder) (bs : list Z) : Prop :=
  ∃ pre, data d = pre ++ bs ∧ pos d = Z.of_nat (length pre).

Definition parses {A} (k : nat) (m : D A) (bs : list Z) (a : A) : Prop :=
  ∀ d rest, depth d = k → At d (bs ++ rest) →
  m d = (Ok a, advance (Z.of_nat (length bs)) d).

Definition overflows {A} (k : nat) (m : D A) (bs : list Z) : Prop :=
  ∀ d rest, depth d = k → At d (bs ++ rest) →
  ∃ d', m d = (Err DepthLimitExceeded, d').

Lemma At_advance d bs rest :
  At d (bs ++ rest) → At (advance (Z.of_nat (length bs)) d) rest.
Proof.
  intros (pre & Hd & Hp). exists (pre ++ bs). simpl.
  rewrite Hd, Hp, length_app, Nat2Z.inj_add. by rewrite (assoc_L (++)).
Qed.

Lemma advance_advance n1 n2 d : advance n2 (advance n1 d) = advance (n1 + n2) d.
Proof. unfold advance. simpl. f_equal. lia. Qed.

Lemma parses_ret {A} k (a : A) : parses k (mret a) [] a.
Proof. intros [? ? ?] rest _ _. cbv [mret M_ret advance]. simpl. do 2 f_equal. lia. Qed.

Lemma parses_bind {A B} k (m : D A) (f : A → D B) bs1 bs2 a b :
  parses k m bs1 a → parses k (f a) bs2 b → parses k (m ≫= f) (bs1 ++ bs2) b.
Proof.
  intros H1 H2 d rest Hk Hat. rewrite <- (assoc_L (++)) in Hat.
  unfold mbind, M_bind. rewrite (H1 d _ Hk Hat).
  rewrite (H2 _ rest) by (done || by apply At_advance).
  by rewrite advance_advance, length_app, Nat2Z.inj_add.
Qed.

Lemma overflows_bind_l {A B} k (m : D A) (f : A → D B) bs1 bs2 :
  overflows k m bs1 → overflows k (m ≫= f) (bs1 ++ bs2).
Proof.
  intros H d rest Hk Hat. rewrite <- (assoc_L (++)) in Hat.
  destruct (H d _ Hk Hat) as [d' E]. exists d'. unfold mbind, M_bind. by rewrite E.
Qed.

Lemma overflows_bind_r {A B} k (m : D A) (f : A → D B) bs1 bs2 a :
  parses k m bs1 a → overflows k (f a) bs2 → overflows k (m ≫= f) (bs1 ++ bs2).
Proof.
  intros H1 H2 d rest Hk Hat. rewrite <- (assoc_L (++)) in Hat.
  unfold mbind, M_bind. rewrite (H1 d _ Hk Hat).
  apply (H2 _ rest); [done|by apply At_advance].
Qed.

(** The last computation of a chain adds nothing to the bytes. *)
Lemma parses_map {A B} k (m : D A) (f : A → B) bs a :
  parses k m bs a → parses k (m ≫= λ x, mret (f x)) bs (f a).
Proof.
  intros H. rewrite <- (app_nil_r bs). eapply parses_bind; [done|apply parses_ret].
Qed.

Lemma parses_read_byte k b : parses k read_byte [b] b.
Proof.
  intros d rest _ (pre & Hd & Hp). unfold read_byte, data_len. rewrite Hd, Hp.
  rewrite length_app, Nat2Z.inj_add. simpl. zbool. rewrite Nat2Z.id.
  rewrite app_nth2 by lia. by rewrite Nat.sub_diag.
Qed.

Lemma parses_read_bytes k n bs : n = Z.of_nat (length bs) → parses k (read_bytes n) bs bs.
Proof.
  intros -> d rest _ (pre & Hd & Hp). unfold read_bytes, data_len. rewrite Hd, Hp.
  rewrite !length_app, !Nat2Z.inj_add. zbool. rewrite !Nat2Z.id.
  by rewrite drop_app_length, take_app_length.
Qed.

Lemma parses_le {A} k n v (c : Z → A) :
  uN (8 * Z.of_nat n) v →
  parses k (read_bytes (Z.of_nat n) ≫= λ bytes, mret (c (from_le_bytes bytes)))
    (to_le_bytes n v) (c v).
Proof.
  intros H. rewrite <- (from_to_le_bytes n v H) at 2.
  apply (parses_map _ _ (λ bs, c (from_le_bytes bs))), parses_read_bytes.
  by rewrite length_to_le_bytes.
Qed.

Lemma parses_u16 k v : uN 16 v → parses k read_u16_le (to_le_bytes 2 v) v.
Proof. apply (parses_le k 2 v id). Qed.
Lemma parses_u32 k v : uN 32 v → parses k read_u32_le (to_le_bytes 4 v) v.
Proof. apply (parses_le k 4 v id). Qed.
Lemma parses_u64 k v : uN 64 v → parses k read_u64_le (to_le_bytes 8 v) v.
Proof. apply (parses_le k 8 v id). Qed.
Lemma parses_u128 k v : uN 128 v → parses k read_u128_le (to_le_bytes 16 v) v.
Proof. apply (parses_le k 16 v id). Qed.

Lemma parses_utf8 k s : utf8_valid s = true → parses k (from_utf8 s) [] s.
Proof. intros H. unfold from_utf8. rewrite H. apply parses_ret. Qed.

#[local] Hint Resolve parses_u16 parses_u32 parses_u64 parses_u128 parses_read_byte : smartos.

(** Dispatch: the bytes after the tag are read by the tag's arm. *)
Lemma parses_tag k rec tag bs v :
  parses k (decode_tag rec tag) bs v →
  parses k (read_byte ≫= decode_tag rec) (tag :: bs) v.
Proof. apply (parses_bind _ _ _ [tag]), parses_read_byte. Qed.

Lemma overflows_tag k rec tag bs :
  overflows k (decode_tag rec tag) bs →
  overflows k (read_byte ≫= decode_tag rec) (tag :: bs).
Proof. apply (overflows_bind_r _ _ _ [tag] bs tag), parses_read_byte. Qed.

(** The four length-prefixed families share one prefix shape. *)
Record family (rec : D Value.t) (f : Z → D Value.t) (base t8 t16 t32 : Z) : Prop := {
  fam_fix n : 0 ≤ n ≤ 11 → decode_tag rec (base + n) = f n;
  fam_8 : decode_tag rec t8 = read_u8 ≫= f;
  fam_16 : decode_tag rec t16 = read_u16_le ≫= f;
  fam_32 : decode_tag rec t32 = read_u32_le ≫= f;
}.

Ltac upto11 n :=
  assert (n = 0 ∨ n = 1 ∨ n = 2 ∨ n = 3 ∨ n = 4 ∨ n = 5 ∨ n = 6 ∨ n = 7 ∨ n = 8
          ∨ n = 9 ∨ n = 10 ∨ n = 11) as Hn by lia;
  destruct_or! Hn; subst n.

Ltac family_tac :=
  split; [intros n Hn0; upto11 n; reflexivity|reflexivity..].

Lemma string_family rec :
  family rec string_value FIXSTR_BASE TAG_STR8 TAG_STR16 TAG_STR32.
Proof. family_tac. Qed.
Lemma binary_family rec :
  family rec binary_value FIXBIN_BASE TAG_BIN8 TAG_BIN16 TAG_BIN32.
Proof. family_tac. Qed.
Lemma array_family rec :
  family rec (decode_array_values rec) FIXARRAY_BASE TAG_ARRAY8 TAG_ARRAY16 TAG_ARRAY32.
Proof. family_tac. Qed.
Lemma map_family rec :
  family rec (decode_map_values rec) FIXMAP_BASE TAG_MAP8 TAG_MAP16 TAG_MAP32.
Proof. family_tac. Qed.

(** The arm of a length prefix first reads the length, then runs [f] on it. *)
Lemma prefix_arm {rec f base t8 t16 t32} (F : family rec f base t8 t16 t32) k n :
  0 ≤ n ≤ 2 ^ 32 - 1 →
  ∃ tag bs g, prefix base t8 t16 t32 n = tag :: bs
    ∧ decode_tag rec tag = g ≫= f ∧ parses k g bs n.
Proof.
  intros Hn. destruct F as [F0 F8 F16 F32]. unfold prefix. repeat case_bool.
  - exists (base + n), [], (mret n). split_and!; [done|by rewrite F0 by lia|apply parses_ret].
  - exists t8, [n], read_u8. split_and!; [done..|apply parses_read_byte].
  - exists t16, (to_le_bytes 2 n), read_u16_le.
    split_and!; [done..|apply parses_u16; split; lia].
  - exists t32, (to_le_bytes 4 n), read_u32_le.
    split_and!; [done..|apply parses_u32; split; lia].
Qed.

Lemma parses_prefix {rec f base t8 t16 t32} (F : family rec f base t8 t16 t32) k n bs v :
  0 ≤ n ≤ 2 ^ 32 - 1 → parses k (f n) bs v →
  parses k (read_byte ≫= decode_tag rec) (prefix base t8 t16 t32 n ++ bs) v.
Proof.
  intros Hn H. destruct (prefix_arm F k n Hn) as (tag & bs1 & g & -> & E & Hg).
  apply parses_tag. rewrite E. by eapply parses_bind.
Qed.

Lemma overflows_prefix {rec f base t8 t16 t32} (F : family rec f base t8 t16 t32) k n bs :
  0 ≤ n ≤ 2 ^ 32 - 1 → overflows k (f n) bs →
  overflows k (read_byte ≫= decode_tag rec) (prefix base t8 t16 t32 n ++ bs).
Proof.
  intros Hn H. destruct (prefix_arm F k n Hn) as (tag & bs1 & g & -> & E & Hg).
  apply overflows_tag. rewrite E. by eapply overflows_bind_r.
Qed.

(** Integers. *)
Lemma parses_uint k rec v :
  uN 64 v → parses k (read_byte ≫= decode_tag rec) (uint_bytes v) (norm_uint v).
Proof.
  intros [? ?]. unfold uint_bytes, norm_uint, FIXINT_MAX. repeat case_bool; try lia;
    apply parses_tag.
  - unfold decode_tag, FIXINT_MAX. zbool. apply parses_ret.
  - apply (parses_map _ read_u8 UInt8), parses_read_byte.
  - apply (parses_map _ _ UInt16), parses_u16. split; lia.
  - apply (parses_map _ _ UInt32), parses_u32. split; lia.
  - apply (parses_map _ _ UInt64), parses_u64. split; lia.
Qed.

Lemma parses_int k rec v :
  iN 64 v → parses k (read_byte ≫= decode_tag rec) (int_bytes v) (norm_int v).
Proof.
  intros [? ?]. unfold int_bytes, norm_int, NEG_FIXINT_COUNT.
  destruct (Z.leb_spec 0 v); [apply parses_uint; split; lia|].
  destruct (Z.leb_spec (-(12)) v).
  { zbool. apply parses_tag. assert (Hn : 0 ≤ - v - 1 ≤ 11) by lia.
    replace v with (- (- v - 1) - 1) at 2 by lia.
    generalize dependent (- v - 1). intros n Hn0. clear -Hn0. upto11 n; apply parses_ret. }
  repeat case_bool; try lia; apply parses_tag.
  - rewrite <- (to_signed_wrap 8 v) at 2 by (unfold iN; lia).
    apply (parses_map _ read_u8 (λ v, Int8 (to_signed 8 v))), parses_read_byte.
  - rewrite <- (to_signed_wrap 16 v) at 2 by (unfold iN; lia).
    apply (parses_map _ _ (λ v, Int16 (to_signed 16 v))), parses_u16.
    by apply wrap_range.
  - rewrite <- (to_signed_wrap 32 v) at 2 by (unfold iN; lia).
    apply (parses_map _ _ (λ v, Int32 (to_signed 32 v))), parses_u32.
    by apply wrap_range.
  - rewrite <- (to_signed_wrap 64 v) at 2 by (unfold iN; lia).
    apply (parses_map _ _ (λ v, Int64 (to_signed 64 v))), parses_u64.
    by apply wrap_range.
Qed.

(** A loop that reads one item per iteration. *)
Lemma parses_collect {A B} k (m : D A) (w : B → list Z) (g : B → A) l :
  Forall (λ x, parses k m (w x) (g x)) l →
  parses k (collect m (length l)) (concat (map w l)) (map g l).
Proof.
  induction 1 as [|x l Hx Hl IH]; simpl; [apply parses_ret|].
  eapply parses_bind; [done|]. by apply (parses_map _ _ (cons (g x))).
Qed.

Lemma overflows_collect {A B} k (m : D A) (w : B → list Z) (g : B → A) l :
  Forall (λ x, parses k m (w x) (g x) ∨ overflows k m (w x)) l →
  Exists (λ x, overflows k m (w x)) l →
  overflows k (collect m (length l)) (concat (map w l)).
Proof.
  induction 1 as [|x l [Hx|Hx] Hl IH]; intros Hex; simpl; [by inversion Hex| |].
  - apply Exists_cons in Hex as [Hov|Hex].
    + by apply overflows_bind_l.
    + eapply overflows_bind_r; [done|]. rewrite <- (app_nil_r (concat _)).
      by apply overflows_bind_l, IH.
  - by apply overflows_bind_l.
Qed.

(** Arrays and maps: one level deeper, then back. *)
Definition container {A} (body : D A) (c : list A → Value.t) (count : Z) : D Value.t :=
  push_depth ≫= λ _, collect body (Z.to_nat count) ≫= λ items,
  pop_depth ≫= λ _, mret (c items).

Lemma push_depth_ok d :
  (depth d < MAX_DEPTH)%nat → push_depth d = (Ok tt, set_depth (S (depth d)) d).
Proof. intros H. unfold push_depth. simpl. by rewrite (proj2 (Nat.ltb_ge _ _)). Qed.

Lemma push_depth_full d :
  (MAX_DEPTH ≤ depth d)%nat → push_depth d = (Err DepthLimitExceeded, set_depth (S (depth d)) d).
Proof.
  intros H. unfold push_depth. simpl. rewrite (proj2 (Nat.ltb_lt _ _)); [done|lia].
Qed.

Lemma parses_container {A B} k (body : D A) c (w : B → list Z) (g : B → A) l :
  (k < MAX_DEPTH)%nat → Forall (λ x, parses (S k) body (w x) (g x)) l →
  parses k (container body c (Z.of_nat (length l))) (concat (map w l)) (c (map g l)).
Proof.
  intros Hk Hl d rest <- Hat. unfold container, mbind, M_bind.
  rewrite push_depth_ok by done. rewrite Nat2Z.id.
  rewrite (parses_collect _ _ w g l Hl (set_depth (S (depth d)) d) rest) by done. done.
Qed.

Lemma overflows_container {A B} k (body : D A) c (w : B → list Z) (g : B → A) l :
  (k < MAX_DEPTH)%nat →
  Forall (λ x, parses (S k) body (w x) (g x) ∨ overflows (S k) body (w x)) l →
  Exists (λ x, overflows (S k) body (w x)) l →
  overflows k (container body c (Z.of_nat (length l))) (concat (map w l)).
Proof.
  intros Hk Hl Hex d rest <- Hat. unfold container, mbind, M_bind.
  rewrite push_depth_ok by done. rewrite Nat2Z.id.
  destruct (overflows_collect _ _ w g l Hl Hex (set_depth (S (depth d)) d) rest)
    as [d' ->]; [done..|]. by exists d'.
Qed.

Lemma overflows_container_full {A} k (body : D A) c n bs :
  (MAX_DEPTH ≤ k)%nat → overflows k (container body c n) bs.
Proof.
  intros Hk d rest <- Hat. unfold container, mbind, M_bind.
  rewrite push_depth_full by done. eauto.
Qed.

(** What the main induction establishes for one value. *)
Definition reads (v : Value.t) : Prop := ∀ k b, (k + b = MAX_DEPTH)%nat →
  ((k + nesting v ≤ MAX_DEPTH)%nat → parses k (decode_value b) (wire v) (norm v))
  ∧ ((MAX_DEPTH < k + nesting v)%nat → overflows k (decode_value b) (wire v)).

Lemma decode_value_eq b :
  decode_value b = read_byte ≫= decode_tag
    (match b with O => throw DepthLimitExceeded | S b => decode_value b end).
Proof. by destruct b. Qed.

(** A container of items [l], given the items' bytes [w], results [g] and
    nesting [n]. *)
Lemma reads_container {A B} (body : nat → D A) c (w : B → list Z) (g : B → A)
    (n : B → nat) l k b rec :
  (k + b = MAX_DEPTH)%nat → (∀ b', b = S b' → rec = body b') →
  Forall (λ x, ∀ k b, (k + b = MAX_DEPTH)%nat →
    ((k + n x ≤ MAX_DEPTH)%nat → parses k (body b) (w x) (g x))
    ∧ ((MAX_DEPTH < k + n x)%nat → overflows k (body b) (w x))) l →
  let depth_needed := S (foldr (λ x m, Nat.max (n x) m) 0%nat l) in
  ((k + depth_needed ≤ MAX_DEPTH)%nat →
     parses k (container rec c (Z.of_nat (length l))) (concat (map w l)) (c (map g l)))
  ∧ ((MAX_DEPTH < k + depth_needed)%nat →
     overflows k (container rec c (Z.of_nat (length l))) (concat (map w l))).
Proof.
  intros Hb Hrec Hl dn. destruct b as [|b].
  { split; intros; [subst dn; lia|]. apply overflows_container_full. lia. }
  rewrite (Hrec b eq_refl).
  split; intros Hdn.
  - apply parses_container; [lia|]. subst dn.
    induction Hl as [|x l Hx Hl IH]; constructor; simpl in *.
    + apply Hx; lia.
    + apply IH. lia.
  - apply (overflows_container k _ _ w g); [lia|..].
    + eapply Forall_impl; [exact Hl|]. intros x Hx.
      destruct (Hx (S k) b ltac:(lia)) as [H1 H2].
      destruct (decide (S k + n x ≤ MAX_DEPTH)%nat); [left|right]; auto with lia.
    + assert (Hm : (MAX_DEPTH < S k + foldr (λ x m, Nat.max (n x) m) 0%nat l)%nat) by lia.
      clear Hdn. subst dn. induction Hl as [|x l Hx Hl IH]; simpl in *; [lia|].
      destruct (decide (MAX_DEPTH < S k + n x)%nat) as [Hgt|].
      * left. apply Hx; lia.
      * right. apply IH. lia.
Qed.

Lemma reads_pair k b key x :
  (k + b = MAX_DEPTH)%nat → reads key → reads x →
  let m := decode_value b ≫= λ key, decode_value b ≫= λ val, mret (key, val) in
  let n := Nat.max (nesting key) (nesting x) in
  ((k + n ≤ MAX_DEPTH)%nat → parses k m (wire key ++ wire x) (norm key, norm x))
  ∧ ((MAX_DEPTH < k + n)%nat → overflows k m (wire key ++ wire x)).
Proof.
  intros Hb H1 H2. destruct (H1 k b Hb) as [P1 O1], (H2 k b Hb) as [P2 O2].
  split; intros Hn; simpl in Hn.
  - eapply parses_bind; [apply P1; lia|]. apply (parses_map _ _ (pair (norm key))), P2. lia.
  - destruct (decide (MAX_DEPTH < k + nesting key)%nat) as [Hgt|].
    + by apply overflows_bind_l, O1.
    + eapply overflows_bind_r; [apply P1; lia|]. rewrite <- (app_nil_r (wire x)).
      apply overflows_bind_l, O2. lia.
Qed.

Lemma forallb_Forall {A} (f : A → bool) l : forallb f l = true → Forall (λ x, f x = true) l.
Proof.
  rewrite forallb_forall, Forall_forall. intros H x Hx. by apply H, list_elem_of_In.
Qed.

(** Every value without containers. *)
Lemma reads_flat v :
  (∀ l, v ≠ Array l) → (∀ l, v ≠ Map l) →
  well_formed v = true → encodable v = true → no_extension v = true → reads v.
Proof.
  intros HA HM Hwf He Hx k b Hb.
  assert (Hn : nesting v = 0%nat)
    by (destruct v; [done..|by destruct (HA items)|by destruct (HM pairs)|done|done|done]).
  rewrite Hn, decode_value_eq. split; intros Hd; [|lia].
  destruct v; simpl in Hwf, He, Hx |- *; try done;
    try (apply bool_decide_eq_true in Hwf).
  all: try (by apply parses_tag, parses_ret).
  all: try (by apply parses_uint; unfold uN in *; lia).
  all: try (by apply parses_int; unfold iN in *; lia).
  - destruct b0; apply parses_tag, parses_ret.
  - case_bool; [apply parses_uint; split; unfold uN in *; lia|].
    by apply parses_tag, (parses_map _ _ UInt128), parses_u128.
  - by apply parses_tag, (parses_le k 4 bits Float32).
  - by apply parses_tag, (parses_le k 8 bits Float64).
  - apply andb_prop in Hwf as [_ Hu]. apply Z.leb_le in He.
    apply (parses_prefix (string_family _)); [lia|]. rewrite <- (app_nil_r s) at 2.
    eapply parses_bind; [by apply parses_read_bytes|].
    by apply (parses_map _ _ String), parses_utf8.
  - apply Z.leb_le in He. apply (parses_prefix (binary_family _)); [lia|].
    by apply (parses_map _ _ Binary), parses_read_bytes.
  - by apply parses_tag, (parses_map _ _ Timestamp), parses_u64.
  - apply andb_prop in Hwf as [_ Hl%Nat.eqb_eq].
    apply parses_tag, (parses_map _ _ Uuid), parses_read_bytes. by rewrite Hl.
Qed.

Lemma reads_all v :
  well_formed v = true → encodable v = true → no_extension v = true → reads v.
Proof.
  induction v as [l IH|l IH|v HA HM] using value_ind; intros Hwf He Hx;
    [| |by apply reads_flat].
  - simpl in Hwf, He, Hx. apply andb_prop in He as [Hlen%Z.leb_le He].
    apply forallb_Forall in Hwf, He, Hx. intros k b Hb. rewrite decode_value_eq.
    destruct (reads_container decode_value Array wire norm nesting l k b
      (match b with O => throw DepthLimitExceeded | S b => decode_value b end)) as [HP HO];
      [done|by intros b' ->| |].
    { rewrite Forall_forall in IH, Hwf, He, Hx |- *. intros x Hin. apply IH; auto. }
    split; intros Hd; [apply (parses_prefix (array_family _))
                      |apply (overflows_prefix (array_family _))]; (lia || auto).
  - simpl in Hwf, He, Hx. apply andb_prop in He as [Hlen%Z.leb_le He].
    apply forallb_Forall in Hwf, He, Hx. intros k b Hb. rewrite decode_value_eq.
    set (rec := match b with O => throw DepthLimitExceeded | S b => decode_value b end).
    destruct (reads_container
      (λ b, decode_value b ≫= λ key, decode_value b ≫= λ val, mret (key, val))
      Map (λ '(k, v), wire k ++ wire v) (λ '(k, v), (norm k, norm v))
      (λ kv, Nat.max (nesting kv.1) (nesting kv.2)) l k b
      (rec ≫= λ key, rec ≫= λ val, mret (key, val))) as [HP HO];
      [done|by subst rec; intros b' ->| |].
    { rewrite Forall_forall in IH, Hwf, He, Hx |- *. intros [key x] Hin k' b' Hb'.
      destruct (IH _ Hin) as [IHk IHx]. specialize (Hwf _ Hin). specialize (He _ Hin).
      specialize (Hx _ Hin). simpl in *. rewrite andb_true_iff in Hwf, He, Hx.
      destruct Hwf, He, Hx. apply reads_pair; auto. }
    split; intros Hd; [apply (parses_prefix (map_family _))
                      |apply (overflows_prefix (map_family _))]; (lia || auto).
Qed.

(** The budget is never what stops the decoder: at budget 0 the depth check
    of [push_depth] has already failed. *)
Lemma At_new bs : At (new bs) bs.
Proof. by exists []. Qed.

End DecodeProofs.
