(* ===== verification/SmartPackTheorems.v ===== *)
(** The properties of SmartPack: safety of the decoder on arbitrary input (cursor
    bounds, well-formedness of every decoded value, the recursion budget of the model),
    round trip, totality of the encoder, canonical encodings.

    [safe k m Q]: run at depth [k] on any decoder whose cursor is inside its input, [m]
    keeps the input, keeps the cursor inside it (so no slice the code takes is out of
    range), and a result satisfies [Q] with the depth restored. *)

From S2P Require Import Prelude SmartPackFormat SmartPack SmartPackProofs.

Import Format Value Decode DecodeProofs.

Definition cursor_ok (d : Decoder) : Prop :=
  0 ≤ pos d ≤ data_len d ∧ bytes_ok (data d).

Definition safe {A} (k : nat) (m : D A) (Q : A → Prop) : Prop :=
  ∀ d r d', cursor_ok d → depth d = k → m d = (r, d') →
  cursor_ok d' ∧ data d' = data d ∧ pos d ≤ pos d'
  ∧ (∀ a, r = Ok a → Q a ∧ depth d' = k).

Lemma safe_ret {A} k (a : A) (Q : A → Prop) : Q a → safe k (mret a) Q.
Proof. intros HQ d r d' Hc Hk [= <- <-]. split_and!; [done..|naive_solver]. Qed.

Lemma safe_throw {A} k e (Q : A → Prop) : safe k (throw e) Q.
Proof. intros d r d' Hc Hk [= <- <-]. split_and!; [done..|naive_solver]. Qed.

Lemma safe_bind {A B} k (m : D A) (f : A → D B) (Q : A → Prop) (R : B → Prop) :
  safe k m Q → (∀ a, Q a → safe k (f a) R) → safe k (m ≫= f) R.
Proof.
  intros Hm Hf d r d' Hc Hk. unfold mbind, M_bind.
  destruct (m d) as [[a|e] d1] eqn:E.
  - intros E'. destruct (Hm d _ d1 Hc Hk E) as (Hc1 & Hd1 & Hp1 & H1).
    destruct (H1 a eq_refl) as [HQ Hk1].
    destruct (Hf a HQ d1 r d' Hc1 Hk1 E') as (? & ? & ? & ?).
    split_and!; [done|congruence|lia|done].
  - intros [= <- <-]. destruct (Hm d _ d1 Hc Hk E) as (Hc1 & Hd1 & Hp1 & _).
    split_and!; done.
Qed.

Lemma safe_mono {A} k (m : D A) (Q R : A → Prop) :
  safe k m Q → (∀ a, Q a → R a) → safe k m R.
Proof.
  intros Hm HQR d r d' Hc Hk E. destruct (Hm d r d' Hc Hk E) as (? & ? & ? & H).
  split_and!; [done..|]. intros a ->. destruct (H a eq_refl). auto.
Qed.

Lemma safe_read_byte k : safe k read_byte (uN 8).
Proof.
  intros d r d' [Hp Hb] Hk. unfold read_byte. case_bool; intros [= <- <-].
  - by split_and!.
  - unfold cursor_ok, advance, data_len in *. simpl. split_and!; try done; try lia.
    intros a [= <-]. split; [|done]. rewrite Forall_forall in Hb. apply Hb.
    apply list_elem_of_In, nth_In. lia.
Qed.

Lemma safe_read_bytes k n :
  0 ≤ n → safe k (read_bytes n) (λ bs, bytes_ok bs ∧ Z.of_nat (length bs) = n).
Proof.
  intros Hn d r d' [Hp Hb] Hk. unfold read_bytes. case_bool; intros [= <- <-].
  - by split_and!.
  - unfold cursor_ok, advance, data_len in *. simpl. split_and!; try done; try lia.
    intros a [= <-]. split; [|done]. split.
    + by apply Forall_take, Forall_drop.
    + rewrite length_take, length_drop. lia.
Qed.

Lemma safe_le k n w : w = 8 * Z.of_nat n →
  safe k (read_bytes (Z.of_nat n) ≫= λ bytes, mret (from_le_bytes bytes)) (uN w).
Proof.
  intros ->. eapply safe_bind; [apply safe_read_bytes; lia|].
  intros bs [Hb Hl]. apply safe_ret. rewrite <- Hl. by apply from_le_bytes_range.
Qed.

Lemma safe_u16 k : safe k read_u16_le (uN 16).
Proof. by apply (safe_le k 2). Qed.
Lemma safe_u32 k : safe k read_u32_le (uN 32).
Proof. by apply (safe_le k 4). Qed.
Lemma safe_u64 k : safe k read_u64_le (uN 64).
Proof. by apply (safe_le k 8). Qed.
Lemma safe_u128 k : safe k read_u128_le (uN 128).
Proof. by apply (safe_le k 16). Qed.

#[local] Hint Resolve safe_read_byte safe_u16 safe_u32 safe_u64 safe_u128 safe_throw : smartos.

(** What a value decoded at depth [k] satisfies. *)
Definition good (k : nat) (v : Value.t) : Prop :=
  well_formed v = true ∧ encodable v = true ∧ no_extension v = true
  ∧ (k + nesting v ≤ MAX_DEPTH)%nat.

Lemma to_signed_range w v : 0 < w → uN w v → iN w (to_signed w v).
Proof.
  intros Hw [? ?]. unfold to_signed, iN.
  assert (E : 2 ^ w = 2 * 2 ^ (w - 1))
    by (rewrite <- Z.pow_succ_r by lia; f_equal; lia).
  case_bool; lia.
Qed.

Lemma safe_string k len :
  (k ≤ MAX_DEPTH)%nat → 0 ≤ len ≤ 2 ^ 32 - 1 → safe k (string_value len) (good k).
Proof.
  intros Hk Hl. eapply safe_bind; [apply safe_read_bytes; lia|].
  intros bs [Hb Hlen]. unfold from_utf8. destruct (utf8_valid bs) eqn:Hu.
  - eapply (safe_bind _ _ _ (eq bs)); [by apply safe_ret|]. intros _ <-.
    apply safe_ret. unfold good. simpl. rewrite bool_decide_true by done.
    split_and!; [done| |done|lia]. apply Z.leb_le. lia.
  - by eapply (safe_bind _ _ _ (λ _, False)); [apply safe_throw|].
Qed.

Lemma safe_binary k len :
  (k ≤ MAX_DEPTH)%nat → 0 ≤ len ≤ 2 ^ 32 - 1 → safe k (binary_value len) (good k).
Proof.
  intros Hk Hl. eapply safe_bind; [apply safe_read_bytes; lia|].
  intros bs [Hb Hlen]. apply safe_ret. unfold good. simpl.
  rewrite bool_decide_true by done. split_and!; [done| |done|lia]. apply Z.leb_le. lia.
Qed.

Lemma safe_collect {A} k (m : D A) (Q : A → Prop) n :
  safe k m Q → safe k (collect m n) (λ l, Forall Q l ∧ length l = n).
Proof.
  intros Hm. induction n as [|n IH]; simpl; [by apply safe_ret|].
  eapply safe_bind; [done|]. intros a Ha. eapply safe_bind; [done|].
  intros l [Hl <-]. apply safe_ret. by split; [constructor|].
Qed.

(** A container: the items are decoded one level deeper. *)
Lemma safe_container {A} k (body : D A) c (Q : A → Prop) (R : Value.t → Prop) n :
  ((k < MAX_DEPTH)%nat → safe (S k) body Q) →
  (∀ l, (k < MAX_DEPTH)%nat → Forall Q l → length l = Z.to_nat n → R (c l)) →
  safe k (container body c n) R.
Proof.
  intros Hbody HR d r d' Hc Hk. unfold container, mbind, M_bind.
  destruct (decide (depth d < MAX_DEPTH)%nat) as [Hlt|].
  - rewrite push_depth_ok by done.
    destruct (collect body (Z.to_nat n) (set_depth (S (depth d)) d)) as [r1 d1] eqn:E.
    destruct (safe_collect (S k) body Q (Z.to_nat n) (Hbody ltac:(lia))
      (set_depth (S (depth d)) d) r1 d1 Hc ltac:(simpl; lia) E) as (Hc1 & Hd1 & Hp1 & H1).
    simpl in *. destruct r1 as [l|e]; intros [= <- <-]; [|by split_and!].
    destruct (H1 l eq_refl) as [[Hl Hlen] Hk1]. split_and!; try done.
    intros a [= <-]. split; [apply HR; auto; lia|]. simpl. by rewrite Hk1.
  - rewrite push_depth_full by lia. intros [= <- <-]. by split_and!.
Qed.

Lemma Forall_forallb {A} (f : A → bool) l : Forall (λ x, f x = true) l → forallb f l = true.
Proof. induction 1 as [|x l Hx _ IH]; simpl; [done|]. by rewrite Hx. Qed.

Lemma foldr_max_le {A} (n : A → nat) l k :
  Forall (λ x, n x ≤ k)%nat l → (foldr (λ x m, Nat.max (n x) m) 0 l ≤ k)%nat.
Proof. induction 1; simpl; lia. Qed.

Lemma good_array k l :
  (k < MAX_DEPTH)%nat → Z.of_nat (length l) ≤ 2 ^ 32 - 1 →
  Forall (good (S k)) l → good k (Array l).
Proof.
  intros Hk Hlen Hl. unfold good. simpl. unfold fits_u32.
  rewrite (proj2 (Z.leb_le _ _)) by done. rewrite !Forall_forallb.
  - split_and!; try done. assert (foldr (λ v n, Nat.max (nesting v) n) 0 l ≤ MAX_DEPTH - S k)%nat;
      [|lia]. apply foldr_max_le. eapply Forall_impl; [exact Hl|]. unfold good. intros. lia.
  - eapply Forall_impl; [exact Hl|]. by intros ? (?&?&?&?).
  - eapply Forall_impl; [exact Hl|]. by intros ? (?&?&?&?).
  - eapply Forall_impl; [exact Hl|]. by intros ? (?&?&?&?).
Qed.

Lemma good_map k l :
  (k < MAX_DEPTH)%nat → Z.of_nat (length l) ≤ 2 ^ 32 - 1 →
  Forall (λ kv, good (S k) kv.1 ∧ good (S k) kv.2) l → good k (Map l).
Proof.
  intros Hk Hlen Hl. unfold good. simpl. unfold fits_u32.
  rewrite (proj2 (Z.leb_le _ _)) by done. rewrite !Forall_forallb.
  - split_and!; try done.
    assert (foldr (λ kv n, Nat.max (Nat.max (nesting kv.1) (nesting kv.2)) n) 0 l
            ≤ MAX_DEPTH - S k)%nat; [|lia].
    apply (foldr_max_le (λ kv, Nat.max (nesting kv.1) (nesting kv.2))).
    eapply Forall_impl; [exact Hl|]. unfold good. intros. lia.
  - eapply Forall_impl; [exact Hl|]. intros [??] [(?&?&?&?) (?&?&?&?)]. by apply andb_true_intro.
  - eapply Forall_impl; [exact Hl|]. intros [??] [(?&?&?&?) (?&?&?&?)]. by apply andb_true_intro.
  - eapply Forall_impl; [exact Hl|]. intros [??] [(?&?&?&?) (?&?&?&?)]. by apply andb_true_intro.
Qed.

Lemma safe_array k rec count :
  0 ≤ count ≤ 2 ^ 32 - 1 → ((k < MAX_DEPTH)%nat → safe (S k) rec (good (S k))) →
  safe k (decode_array_values rec count) (good k).
Proof.
  intros Hn Hrec. apply (safe_container k rec Array (good (S k))); [done|].
  intros l Hk Hl Hlen. apply good_array; (done || lia).
Qed.

Lemma safe_map k rec count :
  0 ≤ count ≤ 2 ^ 32 - 1 → ((k < MAX_DEPTH)%nat → safe (S k) rec (good (S k))) →
  safe k (decode_map_values rec count) (good k).
Proof.
  intros Hn Hrec.
  apply (safe_container k _ Map (λ kv, good (S k) kv.1 ∧ good (S k) kv.2)).
  - intros Hk. eapply safe_bind; [by apply Hrec|]. intros key Hkey.
    eapply safe_bind; [by apply Hrec|]. intros val Hval. by apply safe_ret.
  - intros l Hk Hl Hlen. apply good_map; (done || lia).
Qed.

(** Scalars. *)
Lemma good_scalar k v (P : Prop) `{!Decision P} :
  (k ≤ MAX_DEPTH)%nat → P → well_formed v = bool_decide P → encodable v = true →
  no_extension v = true → nesting v = 0%nat → good k v.
Proof.
  intros Hk HP Hw He Hx Hn. unfold good. rewrite Hw, Hn, bool_decide_true by done.
  split_and!; [done..|lia].
Qed.

Lemma good_uuid k bs :
  (k ≤ MAX_DEPTH)%nat → bytes_ok bs → Z.of_nat (length bs) = 16 → good k (Uuid bs).
Proof.
  intros Hk Hb Hl. unfold good. simpl. rewrite bool_decide_true by done.
  rewrite (proj2 (Nat.eqb_eq _ _)) by lia. split_and!; [done..|lia].
Qed.

Lemma neg_fixint_range tag :
  144 ≤ tag → tag ≤ 155 → iN 8 (- to_signed 8 (tag - 144) - 1).
Proof. intros. unfold to_signed. case_bool; unfold iN; lia. Qed.

Lemma from_le_bytes_uN w bs :
  bytes_ok bs ∧ Z.of_nat (length bs) = w `div` 8 → w `mod` 8 = 0 → uN w (from_le_bytes bs).
Proof.
  intros [Hb Hl] Hw. replace w with (8 * Z.of_nat (length bs)).
  - by apply from_le_bytes_range.
  - rewrite Hl. pose proof (Z.div_mod w 8). lia.
Qed.

Ltac scalar :=
  apply safe_ret;
  lazymatch goal with
  | |- good _ (Uuid _) =>
      match goal with H : _ ∧ _ |- _ => destruct H; by apply good_uuid end
  | |- good _ Null => by apply (good_scalar _ _ True)
  | |- good _ (Bool _) => by apply (good_scalar _ _ True)
  | |- _ =>
      eapply good_scalar; [assumption| |reflexivity..];
      first [ assumption | apply to_signed_range; [reflexivity|assumption]
            | by apply neg_fixint_range | by apply from_le_bytes_uN ]
  end.

Ltac reader :=
  lazymatch goal with
  | |- safe _ read_u8 _ => apply safe_read_byte
  | |- safe _ read_u16_le _ => apply safe_u16
  | |- safe _ read_u32_le _ => apply safe_u32
  | |- safe _ read_u64_le _ => apply safe_u64
  | |- safe _ read_u128_le _ => apply safe_u128
  | |- safe _ (read_bytes _) _ => apply safe_read_bytes; lia
  end.

(** An arm of the dispatch: read what follows the tag, build the value or
    hand the length to a reader of that many bytes or items. *)
Ltac arm :=
  lazymatch goal with
  | |- safe _ (mret _) _ => scalar
  | |- safe _ (throw _) _ => apply safe_throw
  | |- safe _ (string_value _) _ => apply safe_string; [assumption|unfold uN in *; lia]
  | |- safe _ (binary_value _) _ => apply safe_binary; [assumption|unfold uN in *; lia]
  | |- safe _ (decode_array_values _ _) _ => apply safe_array; [unfold uN in *; lia|assumption]
  | |- safe _ (decode_map_values _ _) _ => apply safe_map; [unfold uN in *; lia|assumption]
  | |- safe _ (_ ≫= _) _ => eapply safe_bind; [reader|intros ? ?; cbv beta in *; arm]
  end.

(** Every arm of the tag dispatch. *)
Lemma safe_tag k rec tag :
  (k ≤ MAX_DEPTH)%nat → uN 8 tag → ((k < MAX_DEPTH)%nat → safe (S k) rec (good (S k))) →
  safe k (decode_tag rec tag) (good k).
Proof.
  intros Hk Ht Hrec. unfold decode_tag, FIXSTR_BASE, FIXSTR_MAX_LEN, FIXBIN_BASE,
    FIXBIN_MAX_LEN, FIXARRAY_BASE, FIXARRAY_MAX_LEN, FIXMAP_BASE, FIXMAP_MAX_LEN,
    NEG_FIXINT_BASE, NEG_FIXINT_MAX.
  repeat match goal with
    | |- safe _ (if ?c then _ else _) _ =>
        let E := fresh in
        destruct c eqn:E;
        [try (apply andb_prop in E as [?%Z.leb_le ?%Z.leb_le])|clear E]
    end; arm.
Qed.

Lemma safe_decode_value b k :
  (k + b = MAX_DEPTH)%nat → safe k (decode_value b) (good k).
Proof.
  revert k. induction b as [|b IH]; intros k Hb; rewrite decode_value_eq.
  - eapply safe_bind; [apply safe_read_byte|]. intros tag Ht.
    apply safe_tag; [lia|done|lia].
  - eapply safe_bind; [apply safe_read_byte|]. intros tag Ht.
    apply safe_tag; [lia|done|]. intros. apply IH. lia.
Qed.

Lemma decode_good bs v : bytes_ok bs → decode bs = Ok v → good 0 v.
Proof.
  intros Hb. unfold decode, decode_value_at.
  destruct (decode_value (MAX_DEPTH - depth (new bs)) (new bs)) as [r d'] eqn:E.
  simpl. intros ->.
  destruct (safe_decode_value _ 0 ltac:(done) (new bs) _ d' ltac:(split; [unfold data_len; simpl; lia|done])
    eq_refl E) as (_ & _ & _ & H).
  by destruct (H v eq_refl).
Qed.

(** ** The recursion budget *)

(** Two nested decoders that agree wherever the code can call them. *)
Definition agree {A} (k : nat) (m1 m2 : D A) : Prop :=
  ∀ d, cursor_ok d → depth d = k → m1 d = m2 d.

Lemma agree_bind {A B} k (m1 m2 : D A) (f1 f2 : A → D B) (Q : A → Prop) :
  agree k m1 m2 → safe k m1 Q → (∀ a, Q a → agree k (f1 a) (f2 a)) →
  agree k (m1 ≫= f1) (m2 ≫= f2).
Proof.
  intros Hm Hs Hf d Hc Hk. unfold mbind, M_bind. rewrite <- (Hm d Hc Hk).
  destruct (m1 d) as [[a|e] d1] eqn:E; [|done].
  destruct (Hs d _ d1 Hc Hk E) as (Hc1 & _ & _ & H). destruct (H a eq_refl) as [Ha Hk1].
  by apply Hf.
Qed.

Lemma agree_collect {A} k (m1 m2 : D A) Q n :
  agree k m1 m2 → safe k m1 Q → agree k (collect m1 n) (collect m2 n).
Proof.
  intros Hm Hs. induction n as [|n IH]; [done|]. simpl.
  apply (agree_bind _ _ _ _ _ Q); [done..|]. intros a _.
  eapply (agree_bind _ _ _ _ _ (λ _, True)); [done| |done].
  eapply safe_mono; [by apply safe_collect|done].
Qed.

Lemma agree_container {A} k (m1 m2 : D A) c Q n :
  ((k < MAX_DEPTH)%nat → agree (S k) m1 m2 ∧ safe (S k) m1 Q) →
  agree k (container m1 c n) (container m2 c n).
Proof.
  intros Hm d Hc <-. unfold container, mbind, M_bind.
  destruct (decide (depth d < MAX_DEPTH)%nat) as [Hlt|].
  - rewrite push_depth_ok by done. destruct (Hm Hlt) as [Ha Hs].
    by rewrite (agree_collect _ m1 m2 Q (Z.to_nat n) Ha Hs (set_depth (S (depth d)) d)).
  - by rewrite push_depth_full by lia.
Qed.

Lemma agree_tag k r1 r2 tag :
  ((k < MAX_DEPTH)%nat → agree (S k) r1 r2 ∧ safe (S k) r1 (good (S k))) →
  agree k (decode_tag r1 tag) (decode_tag r2 tag).
Proof.
  intros Hr.
  assert (HA : ∀ n, agree k (decode_array_values r1 n) (decode_array_values r2 n))
    by (intros; by eapply (agree_container _ _ _ Array)).
  assert (HM : ∀ n, agree k (decode_map_values r1 n) (decode_map_values r2 n)).
  { intros n. apply (agree_container _ _ _ Map (λ _, True)). intros Hk.
    destruct (Hr Hk) as [Ha Hs]. split.
    - eapply agree_bind; [done..|]. intros a Hgood. by eapply agree_bind.
    - eapply safe_bind; [done|]. intros a Hgood. eapply safe_bind; [done|].
      intros b Hgood'. by apply safe_ret. }
  unfold decode_tag.
  repeat match goal with
    | |- agree _ (if ?c then _ else _) _ => destruct c; [try (by intros ?)|]
    end; try done.
  all: eapply agree_bind; [by intros ?|reader|auto].
Qed.

(** A larger budget changes nothing: the depth check fails first. *)
Lemma decode_value_extra b j k :
  (k + b = MAX_DEPTH)%nat → agree k (decode_value b) (decode_value (b + j)).
Proof.
  revert k. induction b as [|b IH]; intros k Hb;
    [rewrite (decode_value_eq 0), (decode_value_eq (0 + j))
    |rewrite (decode_value_eq (S b)); change (S b + j)%nat with (S (b + j));
     rewrite (decode_value_eq (S (b + j)))];
    (eapply agree_bind; [by intros ?|apply safe_read_byte|]); intros tag Ht;
    apply agree_tag; intros Hk; [lia|].
  split; [apply IH; lia|apply safe_decode_value; lia].
Qed.

Import Format Value.

(** ** Canonical encodings *)

Lemma encode_norm_uint v e :
  Encode.encode_value (norm_uint v) e = (Ok tt, Encode.encode_uint v e).
Proof. unfold norm_uint. by repeat case_bool. Qed.

Lemma encode_norm_int v e :
  iN 64 v → Encode.encode_value (norm_int v) e = (Ok tt, Encode.encode_int v e).
Proof.
  intros [? ?]. unfold norm_int. case_bool; [|by repeat case_bool].
  rewrite encode_norm_uint. unfold Encode.encode_int. zbool.
  by rewrite wrap_id by (split; lia).
Qed.

Lemma for_each_map {S E A B} (f : A → B) (g : B → M S E unit) (h : A → M S E unit) l s :
  Forall (λ x, ∀ s, g (f x) s = h x s) l → for_each g (map f l) s = for_each h l s.
Proof.
  intros H. revert s. induction H as [|x l Hx Hl IH]; intros s; [done|]. simpl.
  unfold mbind, M_bind. rewrite Hx. destruct (h x s) as [[[]|e] s']; [apply IH|done].
Qed.

Lemma encode_value_norm v : well_formed v = true → ∀ e,
  Encode.encode_value (norm v) e = Encode.encode_value v e.
Proof.
  induction v as [l IH|l IH|v HA HM] using value_ind; intros Hwf e.
  - simpl in *. apply DecodeProofs.forallb_Forall in Hwf. rewrite length_map.
    unfold mbind, M_bind. destruct Encode.encode_array_header as [[[]|] e']; [|done].
    apply for_each_map. rewrite Forall_forall in *. auto.
  - simpl in *. apply DecodeProofs.forallb_Forall in Hwf. rewrite length_map.
    unfold mbind, M_bind. destruct Encode.encode_map_header as [[[]|] e']; [|done].
    apply (for_each_map (λ '(k, v), (norm k, norm v))). rewrite Forall_forall in *. intros [k x] Hin s.
    specialize (Hwf _ Hin). simpl in Hwf. apply andb_prop in Hwf as [Hk Hx].
    destruct (IH _ Hin) as [IHk IHx]. simpl in *. rewrite (IHk Hk).
    destruct (Encode.encode_value k s) as [[[]|] s']; [by apply IHx|done].
  - destruct v; try done; simpl in Hwf; try apply bool_decide_eq_true in Hwf; simpl.
    all: try by rewrite encode_norm_uint.
    all: try (by rewrite encode_norm_int by (unfold iN in *; lia)).
    + unfold Encode.encode_uint128, modify. destruct Hwf. case_bool.
      * by rewrite encode_norm_uint, wrap_id by (split; lia).
      * simpl. unfold modify, Encode.encode_uint128. by zbool.
    + by destruct (HA items).
    + by destruct (HM pairs).
Qed.

Lemma decode_wire v :
  well_formed v = true → encodable v = true → no_extension v = true →
  Decode.decode (wire v) = if (nesting v <=? Decode.MAX_DEPTH)%nat then Ok (norm v)
                           else Err Decode.DepthLimitExceeded.
Proof.
  intros Hwf He Hx.
  destruct (DecodeProofs.reads_all v Hwf He Hx 0%nat Decode.MAX_DEPTH eq_refl) as [HP HO].
  pose proof (DecodeProofs.At_new (wire v)) as Hat. rewrite <- (app_nil_r (wire v)) in Hat at 2.
  unfold Decode.decode, Decode.decode_value_at. rewrite Nat.sub_0_r.
  destruct (Nat.leb_spec (nesting v) Decode.MAX_DEPTH) as [Hn|Hn].
  - by rewrite (HP Hn (Decode.new (wire v)) [] eq_refl Hat).
  - by destruct (HO Hn (Decode.new (wire v)) [] eq_refl Hat) as [d' ->].
Qed.

(** ** The properties *)


Definition sample : Value.t :=
  Map [(String [115; 105; 122; 101], UInt64 70000);
       (UInt8 200, Array [Int64 (-300); Int32 7; Binary [1; 2; 3]; Null])].


(** The encoder succeeds exactly when every string, blob, array and map
    length fits in 32 bits; no other value is refused. *)
Theorem encode_total v :
  well_formed v = true → is_ok (Encode.encode v) = encodable v.
Proof.
  intros Hwf. pose proof (EncodeProofs.encode_value_wire v Hwf Encode.new) as H.
  unfold Encode.encode. destruct (encodable v); [by rewrite H|].
  by destruct H as (err & e' & ->).
Qed.

Lemma encode_total_witness : is_ok (Encode.encode sample) = true.
Proof. rewrite (encode_total sample eq_refl). reflexivity. Defined.

(** The encoding does not depend on the integer variant that carries a
    number: a value and its normal form have the same bytes. *)
Theorem encode_canonical v :
  well_formed v = true → Encode.encode (norm v) = Encode.encode v.
Proof. intros Hwf. unfold Encode.encode. by rewrite encode_value_norm. Qed.

Lemma encode_canonical_witness :
  Encode.encode (Int64 5) = Encode.encode (UInt8 5).
Proof. symmetry. exact (encode_canonical (Int64 5) eq_refl). Defined.

(** C33: whatever bytes are decoded, a value that comes out is well formed
    (widths respected, strings valid UTF-8), nests at most [MAX_DEPTH] deep,
    can be encoded again, and that encoding decodes to its normal form. *)
Theorem decode_sound bs v :
  bytes_ok bs → Decode.decode bs = Ok v →
  well_formed v = true ∧ (nesting v ≤ Decode.MAX_DEPTH)%nat
  ∧ ∃ bs', Encode.encode v = Ok bs' ∧ Decode.decode bs' = Ok (norm v).
Proof.
  intros Hb Hd. destruct (decode_good bs v Hb Hd) as (Hwf & He & Hx & Hn).
  split_and!; [done|done|].
  exists (wire v). split; [by apply EncodeProofs.encode_wire|].
  rewrite decode_wire by done. by rewrite (proj2 (Nat.leb_le _ _)).
Qed.

Lemma decode_sound_witness :
  ∃ bs', Encode.encode (Array [UInt16 5]) = Ok bs' ∧ Decode.decode bs' = Ok (Array [UInt8 5]).
Proof.
  destruct (decode_sound [0xD1; 0x81; 5; 0] (Array [UInt16 5])
    ltac:(repeat constructor; done) eq_refl) as (_ & _ & H).
  exact H.
Defined.

(** Running the decoder on any input from a cursor inside it never moves
    the cursor out of the input nor changes the input, never rewinds, and a
    successful call restores the nesting depth. *)
Theorem decode_cursor_safe d r d' :
  cursor_ok d → (Decode.depth d ≤ Decode.MAX_DEPTH)%nat →
  Decode.decode_value_at d = (r, d') →
  cursor_ok d' ∧ Decode.data d' = Decode.data d ∧ Decode.pos d ≤ Decode.pos d'
  ∧ (is_ok r = true → Decode.depth d' = Decode.depth d).
Proof.
  intros Hc Hk E. unfold Decode.decode_value_at in E.
  destruct (safe_decode_value (Decode.MAX_DEPTH - Decode.depth d) (Decode.depth d)
    ltac:(lia) d r d' Hc eq_refl E) as (? & ? & ? & H).
  split_and!; [done..|]. destruct r as [a|]; [|done]. intros _. by destruct (H a eq_refl).
Qed.

Lemma decode_cursor_safe_witness :
  Decode.pos (Decode.decode_value_at (Decode.new [0xDE; 255; 255; 255; 255; 1])).2 ≤ 6.
Proof.
  destruct (decode_cursor_safe (Decode.new [0xDE; 255; 255; 255; 255; 1])
    (Decode.decode_value_at (Decode.new [0xDE; 255; 255; 255; 255; 1])).1
    (Decode.decode_value_at (Decode.new [0xDE; 255; 255; 255; 255; 1])).2) as (H & Hd & _).
  - split; [split; done|repeat constructor; done].
  - simpl. lia.
  - by destruct Decode.decode_value_at.
  - destruct H as [[_ H] _]. unfold Decode.data_len in H. rewrite Hd in H. exact H.
Defined.

(** The level budget of the model is no restriction: any larger budget
    gives the same result, because [push_depth] refuses first. *)
Theorem decode_value_budget d j :
  cursor_ok d → (Decode.depth d ≤ Decode.MAX_DEPTH)%nat →
  Decode.decode_value (Decode.MAX_DEPTH - Decode.depth d + j) d = Decode.decode_value_at d.
Proof.
  intros Hc Hk. symmetry. apply (decode_value_extra _ j (Decode.depth d)); [lia|done..].
Qed.

Lemma decode_value_budget_witness :
  Decode.decode_value 1000 (Decode.new [0xD1; 5]) = Decode.decode_value_at (Decode.new [0xD1; 5]).
Proof.
  apply (decode_value_budget (Decode.new [0xD1; 5]) 872).
  - split; [split; done|repeat constructor; done].
  - simpl. lia.
Defined.

(** An [Extension] value encodes but its encoding cannot be decoded: the
    decoder has no arm for [TAG_EXT]. *)
Theorem extension_not_decodable t d :
  well_formed (Extension t d) = true →
  ∃ bs, Encode.encode (Extension t d) = Ok bs
    ∧ Decode.decode bs = Err (Decode.InvalidTag TAG_EXT).
Proof.
  intros Hwf. exists (wire (Extension t d)).
  split; [by apply EncodeProofs.encode_wire|done].
Qed.

Lemma extension_not_decodable_witness :
  ∃ bs, Encode.encode (Extension 7 [1; 2]) = Ok bs
    ∧ Decode.decode bs = Err (Decode.InvalidTag 0xF9).
Proof. exact (extension_not_decodable 7 [1; 2] eq_refl). Defined.
