(* ===== verification/Frame.v ===== *)
(** Physical frame allocator: [kernel/src/memory/frame.rs].

    [BitmapFrameAllocator] keeps one bit per 4 KiB frame (1 = free).  [free_set]
    is its abstract state, the set of free frame numbers; [wf] says that the
    bitmap, its size and [free_count] agree with it.  [FrameAlloc] is the
    interface the clients (shared memory, swap, copy-on-write) are proved
    against; [bitmap_frame_alloc] is its instance.

    [PhysFrame] and its two operations come from the x86_64 crate: they are the
    class [PhysFrames] with the one documented law the allocator relies on. *)

From S2P Require Import Prelude Bits.

(** ** Frames (x86_64 crate) *)
Class PhysFrames := {
  PhysFrame : Type;
  containing_address : Z → PhysFrame;
  start_address : PhysFrame → Z;
  start_containing a : 0 ≤ a < 2 ^ 52 → a `mod` 4096 = 0 → start_address (containing_address a) = a;
}.

(** A frame represented by its start address. *)
#[export] Instance phys_frames_Z : PhysFrames.
Proof.
  refine {| PhysFrame := Z; containing_address a := a - a `mod` 4096; start_address f := f |}.
  intros a _ Ha. lia.
Defined.

(** ** The allocator *)
Definition FRAME_SIZE : Z := 4096.

(** A zeroed frame's bytes. *)
Definition zero_page : list Z := replicate 4096 0.

(** A region of the boot memory map; [usable] is [kind == Usable]. *)
Record MemoryRegion := mkRegion { rstart : Z; rend : Z; usable : bool }.

Record BitmapFrameAllocator := mkAllocator {
  bitmap : list Z;
  base_addr : Z;
  total_frames : Z;
  free_count : Z;
}.

Definition set_bit (bm : list Z) (frame_idx : Z) : list Z :=
  alter (λ w, Z.lor w (Z.shiftl 1 (frame_idx `mod` 64))) (Z.to_nat (frame_idx `div` 64)) bm.

(** Body of [while addr < end { .. addr += FRAME_SIZE }], [fuel] iterations
    at most. *)
Fixpoint mark_region (fuel : nat) (addr end_ reserved_end : Z) (st : list Z * Z) : list Z * Z :=
  match fuel with
  | O => st
  | S fuel' =>
      if addr <? end_ then
        let '(bm, free) := st in
        let st' :=
          if reserved_end <=? addr then
            let frame_idx := addr `div` FRAME_SIZE in
            if frame_idx `div` 64 <? Z.of_nat (length bm) then
              (set_bit bm frame_idx, free + 1)
            else (bm, free)
          else (bm, free) in
        mark_region fuel' (addr + FRAME_SIZE) end_ reserved_end st'
      else st
  end.

Definition mark_regions (reserved_end : Z) (rs : list MemoryRegion) (st : list Z * Z) : list Z * Z :=
  foldl (λ st region,
    if usable region then
      let start := Z.land (rstart region + FRAME_SIZE - 1) (not64 (FRAME_SIZE - 1)) in
      let end_ := Z.land (rend region) (not64 (FRAME_SIZE - 1)) in
      if end_ <=? start then st
      else mark_region (S (Z.to_nat ((end_ - start) `div` FRAME_SIZE))) start end_ reserved_end st
    else st) st rs.

Definition new_allocator (memory_regions : list MemoryRegion) (reserved_end : Z) : BitmapFrameAllocator :=
  let max_addr := foldr Z.max 0 (map rend memory_regions) in
  let total := max_addr `div` FRAME_SIZE in
  let bitmap_words := (total + 63) `div` 64 in
  let '(bm, free) := mark_regions reserved_end memory_regions (replicate (Z.to_nat bitmap_words) 0, 0) in
  {| bitmap := bm; base_addr := 0; total_frames := total; free_count := free |}.

(** The scan of [alloc_frame]: first word with a free bit whose frame number
    is tracked; returns the frame number and the bitmap with the bit cleared. *)
Fixpoint alloc_scan (total word_idx : Z) (ws : list Z) : option (Z * list Z) :=
  match ws with
  | [] => None
  | word :: ws' =>
      let next :=
        match alloc_scan total (word_idx + 1) ws' with
        | Some (i, ws'') => Some (i, word :: ws'')
        | None => None
        end in
      if word =? 0 then next
      else
        let bit := trailing_zeros word in
        let frame_idx := word_idx * 64 + bit in
        if total <=? frame_idx then next
        else Some (frame_idx, Z.land word (not64 (Z.shiftl 1 bit)) :: ws')
  end.

Section allocator.
Context `{PhysFrames}.

Definition alloc_frame (fa : BitmapFrameAllocator) : option PhysFrame * BitmapFrameAllocator :=
  if free_count fa =? 0 then (None, fa)
  else
    match alloc_scan (total_frames fa) 0 (bitmap fa) with
    | Some (frame_idx, bm) =>
        (Some (containing_address (base_addr fa + frame_idx * FRAME_SIZE)),
         {| bitmap := bm; base_addr := base_addr fa; total_frames := total_frames fa;
            free_count := free_count fa - 1 |})
    | None => (None, fa)
    end.

Definition dealloc_frame (frame : PhysFrame) (fa : BitmapFrameAllocator) : BitmapFrameAllocator :=
  let addr := start_address frame in
  let frame_idx := (addr - base_addr fa) `div` FRAME_SIZE in
  let word := frame_idx `div` 64 in
  let bit := frame_idx `mod` 64 in
  match bitmap fa !! Z.to_nat word with
  | Some w =>
      if Z.land w (Z.shiftl 1 bit) =? 0 then
        {| bitmap := set_bit (bitmap fa) frame_idx; base_addr := base_addr fa;
           total_frames := total_frames fa; free_count := free_count fa + 1 |}
      else fa
  | None => fa
  end.

(** The global allocator: [None] before [init]. *)
Definition global_alloc (g : option BitmapFrameAllocator) : option PhysFrame * option BitmapFrameAllocator :=
  match g with
  | Some fa => let '(f, fa') := alloc_frame fa in (f, Some fa')
  | None => (None, None)
  end.

Definition global_dealloc (frame : PhysFrame) (g : option BitmapFrameAllocator) : option BitmapFrameAllocator :=
  match g with
  | Some fa => Some (dealloc_frame frame fa)
  | None => None
  end.

End allocator.

Definition init (memory_regions : list MemoryRegion) (reserved_end : Z) : option BitmapFrameAllocator :=
  Some (new_allocator memory_regions reserved_end).

Definition frame_stats (g : option BitmapFrameAllocator) : Z * Z :=
  match g with
  | Some fa => (free_count fa, total_frames fa)
  | None => (0, 0)
  end.

(** ** Abstract state and invariant *)

(** Bit [j] of a bitmap. *)
Definition bit_of (bm : list Z) (j : Z) : bool :=
  match bm !! Z.to_nat (j `div` 64) with
  | Some w => Z.testbit w (j `mod` 64)
  | None => false
  end.

Definition free_set (fa : BitmapFrameAllocator) : gset Z :=
  list_to_set (base.filter (λ j, bit_of (bitmap fa) j = true) (seqZ 0 (total_frames fa))).

Record wf (fa : BitmapFrameAllocator) : Prop := {
  wf_total : 0 ≤ total_frames fa < 2 ^ 40;
  wf_base : base_addr fa = 0;
  wf_len : Z.of_nat (length (bitmap fa)) = (total_frames fa + 63) `div` 64;
  wf_words : Forall (uN 64) (bitmap fa);
  wf_bits j : 0 ≤ j → bit_of (bitmap fa) j = true → j < total_frames fa;
  wf_count : free_count fa = Z.of_nat (size (free_set fa));
}.

(** ** The bitmap as a set of frame numbers *)

Lemma bit_of_cons w ws j :
  0 ≤ j → bit_of (w :: ws) j = if j <? 64 then Z.testbit w j else bit_of ws (j - 64).
Proof.
  intros Hj. unfold bit_of. case_bool.
  - rewrite Z.div_small, Z.mod_small by lia. done.
  - assert (Ed : j `div` 64 = 1 + (j - 64) `div` 64)
      by (replace j with ((j - 64) + 1 * 64) at 1 by lia; rewrite Z.div_add by lia; lia).
    assert (Em : j `mod` 64 = (j - 64) `mod` 64)
      by (replace j with ((j - 64) + 1 * 64) at 1 by lia; rewrite Z.mod_add by lia; done).
    assert (0 ≤ (j - 64) `div` 64) by (apply Z.div_pos; lia).
    rewrite Ed, Em, Z2Nat.inj_add by lia. done.
Qed.

Lemma bit_of_set bm i j :
  0 ≤ i → 0 ≤ j → (Z.to_nat (i `div` 64) < length bm)%nat →
  bit_of (set_bit bm i) j = bit_of bm j || (j =? i).
Proof.
  intros Hi Hj Hlen. unfold bit_of, set_bit.
  pose proof (Z.mod_pos_bound i 64). pose proof (Z.mod_pos_bound j 64).
  pose proof (Z.div_mod i 64). pose proof (Z.div_mod j 64).
  destruct (decide (i `div` 64 = j `div` 64)) as [E|E].
  - rewrite <- E, list_lookup_alter_eq. destruct (lookup_lt_is_Some_2 _ _ Hlen) as [w Hw].
    rewrite Hw. simpl. rewrite testbit_set by lia. f_equal.
    destruct (Z.eqb_spec j i); [subst; by rewrite Z.eqb_refl|]. apply Z.eqb_neq. lia.
  - rewrite list_lookup_alter_ne.
    + destruct (Z.eqb_spec j i); [subst; done|]. by rewrite orb_false_r.
    + assert (0 ≤ i `div` 64) by (apply Z.div_pos; lia).
      assert (0 ≤ j `div` 64) by (apply Z.div_pos; lia). lia.
Qed.

Lemma elem_of_free_set fa j :
  j ∈ free_set fa ↔ 0 ≤ j < total_frames fa ∧ bit_of (bitmap fa) j = true.
Proof.
  unfold free_set. rewrite elem_of_list_to_set, list_elem_of_filter, elem_of_seqZ. intuition lia.
Qed.

(** What one scan finds: the lowest tracked free frame, and nothing else
    changes.  [word_idx * 64] is the number of the first bit of [ws]. *)
Lemma alloc_scan_spec total word_idx ws :
  Forall (uN 64) ws →
  match alloc_scan total word_idx ws with
  | Some (i, ws') => ∃ j, i = word_idx * 64 + j ∧ 0 ≤ j ∧ i < total ∧ bit_of ws j = true
      ∧ length ws' = length ws ∧ Forall (uN 64) ws'
      ∧ (∀ k, 0 ≤ k < j → word_idx * 64 + k < total → bit_of ws k = false)
      ∧ ∀ k, 0 ≤ k → bit_of ws' k = bit_of ws k && negb (k =? j)
  | None => ∀ k, 0 ≤ k → word_idx * 64 + k < total → bit_of ws k = false
  end.
Proof.
  intros Hws. revert word_idx. induction Hws as [|w ws Hw Hws IH]; intros word_idx; simpl.
  { by intros. }
  assert (Hskip : (∀ k, 0 ≤ k < 64 → word_idx * 64 + k < total → Z.testbit w k = false) →
    match match alloc_scan total (word_idx + 1) ws with
          | Some (i, ws'') => Some (i, w :: ws'') | None => None end with
    | Some (i, ws') => ∃ j, i = word_idx * 64 + j ∧ 0 ≤ j ∧ i < total ∧ bit_of (w :: ws) j = true
        ∧ length ws' = S (length ws) ∧ Forall (uN 64) ws'
        ∧ (∀ k, 0 ≤ k < j → word_idx * 64 + k < total → bit_of (w :: ws) k = false)
        ∧ ∀ k, 0 ≤ k → bit_of ws' k = bit_of (w :: ws) k && negb (k =? j)
    | None => ∀ k, 0 ≤ k → word_idx * 64 + k < total → bit_of (w :: ws) k = false
    end).
  { intros Hlow. specialize (IH (word_idx + 1)).
    destruct (alloc_scan total (word_idx + 1) ws) as [[i ws']|].
    - destruct IH as (j & -> & Hj & Hlt & Hb & Hl & Hf & Hmin & Hupd).
      exists (64 + j). split_and!; try lia.
      + rewrite bit_of_cons by lia. zbool. by replace (64 + j - 64) with j by lia.
      + simpl. lia.
      + by constructor.
      + intros k Hk Hkt. rewrite bit_of_cons by lia. case_bool; [apply Hlow; lia|].
        apply Hmin; lia.
      + intros k Hk. rewrite !bit_of_cons by lia. case_bool.
        * rewrite (proj2 (Z.eqb_neq _ _)) by lia. by rewrite andb_true_r.
        * rewrite Hupd by lia. do 2 f_equal. destruct (Z.eqb_spec (k - 64) j), (Z.eqb_spec k (64 + j)); lia.
    - intros k Hk Hkt. rewrite bit_of_cons by lia. case_bool; [apply Hlow; lia|]. apply IH; lia. }
  destruct (Z.eqb_spec w 0) as [->|Hne].
  { apply Hskip. intros. apply Z.bits_0. }
  destruct (trailing_zeros_spec w Hw Hne) as (Hr & Hset & Hmin). case_bool.
  { apply Hskip. intros k Hk Hkt. apply Hmin. lia. }
  exists (trailing_zeros w). split_and!; try lia.
  - rewrite bit_of_cons by lia. by zbool.
  - done.
  - constructor; [|done]. apply clear_uN; [done|lia].
  - intros k Hk _. rewrite bit_of_cons by lia. zbool. apply Hmin. lia.
  - intros k Hk. rewrite !bit_of_cons by lia. case_bool; [by apply testbit_clear; (done || lia)|].
    rewrite (proj2 (Z.eqb_neq _ _)) by lia. by rewrite andb_true_r.
Qed.

(** Only the marked bit decides how the set and its size change. *)
Lemma size_add (X : gset Z) i : i ∉ X → size ({[i]} ∪ X) = S (size X).
Proof. intros Hi. rewrite size_union by set_solver. by rewrite size_singleton. Qed.

Lemma size_remove (X : gset Z) i : i ∈ X → Z.of_nat (size (X ∖ {[i]})) = Z.of_nat (size X) - 1.
Proof.
  intros Hi. replace X with ({[i]} ∪ X ∖ {[i]}) at 2
    by (symmetry; apply union_difference_singleton_L; done).
  rewrite size_add by set_solver. lia.
Qed.

Definition frame_no `{PhysFrames} (f : PhysFrame) : Z := start_address f `div` FRAME_SIZE.

Section proofs.
Context `{PhysFrames}.

Lemma frame_no_containing i : 0 ≤ i < 2 ^ 40 → frame_no (containing_address (i * FRAME_SIZE)) = i.
Proof.
  intros Hi. unfold frame_no, FRAME_SIZE. rewrite start_containing.
  - by rewrite Z.div_mul.
  - lia.
  - by apply Z.mod_mul.
Qed.

(** [alloc_frame] takes the lowest free frame; it fails only when none is
    free. *)
Lemma alloc_frame_spec fa : wf fa →
  match alloc_frame fa with
  | (Some f, fa') =>
      frame_no f ∈ free_set fa ∧ (∀ j, j ∈ free_set fa → frame_no f ≤ j)
      ∧ free_set fa' = free_set fa ∖ {[frame_no f]}
      ∧ total_frames fa' = total_frames fa ∧ wf fa'
  | (None, fa') => fa' = fa ∧ free_set fa = ∅
  end.
Proof.
  intros [Ht Hb Hl Hw Hbits Hc]. unfold alloc_frame. case_bool.
  { split; [done|]. apply leibniz_equiv, size_empty_inv. lia. }
  pose proof (alloc_scan_spec (total_frames fa) 0 (bitmap fa) Hw) as Hscan.
  destruct (alloc_scan (total_frames fa) 0 (bitmap fa)) as [[i bm]|].
  - destruct Hscan as (j & -> & Hj & Hlt & Hset & Hlen & Hf & Hmin & Hupd).
    rewrite Hb, Z.add_0_l. simpl. rewrite frame_no_containing by lia.
    assert (Hin : j ∈ free_set fa) by (apply elem_of_free_set; split; [lia|done]).
    assert (Hfs : ∀ c, free_set {| bitmap := bm; base_addr := 0;
        total_frames := total_frames fa; free_count := c |} = free_set fa ∖ {[j]}).
    { intros c. apply set_eq. intros k. rewrite elem_of_difference, !elem_of_free_set, elem_of_singleton.
      simpl. split.
      - intros [Hk E]. rewrite Hupd in E by lia. apply andb_prop in E as [E1 E2].
        apply negb_true_iff, Z.eqb_neq in E2. done.
      - intros [[Hk E] Hne]. split; [done|]. rewrite Hupd, E by lia. simpl.
        apply negb_true_iff, Z.eqb_neq. done. }
    split_and!; [done| |done|done|].
    + intros k [Hk Ek]%elem_of_free_set. destruct (Z_lt_le_dec k j); [|done].
      rewrite Hmin in Ek; (done || lia).
    + split; simpl; try done; [by rewrite Hlen| |].
      * intros k Hk E. rewrite Hupd in E by lia. apply andb_prop in E as [E _]. auto.
      * rewrite Hfs, size_remove by done. lia.
  - split; [done|]. apply set_eq. intros k. rewrite elem_of_free_set.
    split; [|set_solver]. intros [Hk E]. rewrite Hscan in E; (done || lia).
Qed.

(** [dealloc_frame] of a tracked frame adds it to the free set; doing it twice
    changes nothing more. *)
Lemma dealloc_frame_spec fa f : wf fa → 0 ≤ frame_no f < total_frames fa →
  free_set (dealloc_frame f fa) = {[frame_no f]} ∪ free_set fa
  ∧ total_frames (dealloc_frame f fa) = total_frames fa ∧ wf (dealloc_frame f fa).
Proof.
  intros Hwf Hi. pose proof Hwf as [Ht Hb Hl Hw Hbits Hc]. unfold dealloc_frame.
  rewrite Hb, Z.sub_0_r. fold (frame_no f). set (i := frame_no f) in *.
  assert (Hq : 0 ≤ i `div` 64 < Z.of_nat (length (bitmap fa))).
  { split; [apply Z.div_pos; lia|]. rewrite Hl. apply Z.div_lt_upper_bound; [lia|].
    pose proof (Z.div_mod (total_frames fa + 63) 64). pose proof (Z.mod_pos_bound (total_frames fa + 63) 64). lia. }
  assert (Hlt : (Z.to_nat (i `div` 64) < length (bitmap fa))%nat) by lia.
  destruct (lookup_lt_is_Some_2 _ _ Hlt) as [w Hlw]. rewrite Hlw.
  pose proof (Z.mod_pos_bound i 64 ltac:(lia)) as Hm. rewrite land_bit by lia.
  assert (Ebit : bit_of (bitmap fa) i = Z.testbit w (i `mod` 64)) by (unfold bit_of; by rewrite Hlw).
  destruct (Z.testbit w (i `mod` 64)) eqn:Et; simpl.
  - assert (i ∈ free_set fa) by (apply elem_of_free_set; done). split_and!; [set_solver|done|done].
  - assert (Hni : i ∉ free_set fa) by (rewrite elem_of_free_set; intros [_ E]; congruence).
    assert (Hfs : ∀ c, free_set {| bitmap := set_bit (bitmap fa) i; base_addr := 0;
        total_frames := total_frames fa; free_count := c |} = {[i]} ∪ free_set fa).
    { intros c. apply set_eq. intros k. rewrite elem_of_union, !elem_of_free_set, elem_of_singleton.
      simpl. split.
      - intros [Hk E]. rewrite bit_of_set in E by lia.
        apply orb_prop in E as [E|E%Z.eqb_eq]; auto.
      - intros [->|[Hk E]]; (split; [lia|]); rewrite bit_of_set by lia;
          [by rewrite Z.eqb_refl, orb_true_r|by rewrite E]. }
    split_and!; [done|done|]. split; simpl; try done.
    + unfold set_bit. by rewrite length_alter.
    + unfold set_bit. apply Forall_alter; [done|]. intros x Hx _. apply set_uN; [|lia].
      rewrite Hlw in Hx. injection Hx as <-. rewrite Forall_forall in Hw.
      apply Hw, list_elem_of_lookup. eauto.
    + intros k Hk E. rewrite bit_of_set in E by lia. apply orb_prop in E as [E|E%Z.eqb_eq]; [auto|lia].
    + rewrite Hfs, size_add by done. lia.
Qed.

(** A frame that is already free is left alone. *)
Lemma dealloc_frame_free fa f : wf fa → frame_no f ∈ free_set fa → dealloc_frame f fa = fa.
Proof.
  intros Hwf [Hr Hb]%elem_of_free_set. unfold dealloc_frame. rewrite (wf_base _ Hwf), Z.sub_0_r.
  fold (frame_no f). revert Hb. unfold bit_of. destruct (_ !! _) as [w|]; [|done]. intros Hb.
  rewrite land_bit, Hb by (apply Z.mod_pos_bound; lia). done.
Qed.

End proofs.

(** ** Construction from the memory map *)

(** [x & !(FRAME_SIZE - 1)] rounds down to a frame boundary. *)
Lemma align_down x : uN 64 x → Z.land x (not64 (FRAME_SIZE - 1)) = x `div` FRAME_SIZE * FRAME_SIZE.
Proof.
  intros Hx. unfold FRAME_SIZE. change (4096 - 1) with (Z.ones 12). change 4096 with (2 ^ 12).
  rewrite <- Z.shiftr_div_pow2, <- Z.shiftl_mul_pow2, <- Z.ldiff_ones_r by lia.
  apply Z.bits_inj'. intros j Hj. unfold not64.
  rewrite Z.land_spec, Z.ldiff_spec, Z.lxor_spec, !Z.testbit_ones_nonneg by lia.
  destruct (Z_lt_le_dec j 64).
  - zbool. by rewrite xorb_true_r.
  - rewrite (uN_testbit_high 64 x j) by (done || lia). done.
Qed.

(** The bits of a bitmap, tracked or not. *)
Definition all_bits (bm : list Z) : gset Z :=
  list_to_set (base.filter (λ j, bit_of bm j = true) (seqZ 0 (64 * Z.of_nat (length bm)))).

Lemma bit_of_range bm j : 0 ≤ j → bit_of bm j = true → j < 64 * Z.of_nat (length bm).
Proof.
  intros Hj. unfold bit_of. destruct (bm !! _) as [w|] eqn:E; [|done]. intros _.
  apply lookup_lt_Some in E. pose proof (Z.div_mod j 64). pose proof (Z.mod_pos_bound j 64). lia.
Qed.

Lemma elem_of_all_bits bm j : j ∈ all_bits bm ↔ 0 ≤ j ∧ bit_of bm j = true.
Proof.
  unfold all_bits. rewrite elem_of_list_to_set, list_elem_of_filter, elem_of_seqZ.
  split; [intros (? & ? & ?); done|]. intros [? E]. pose proof (bit_of_range _ _ ltac:(done) E).
  split_and!; (done || lia).
Qed.

(** Bitmap and counter agree while the map is being read. *)
Record marking (n : nat) (st : list Z * Z) : Prop := {
  mk_len : length st.1 = n;
  mk_words : Forall (uN 64) st.1;
  mk_count : st.2 = Z.of_nat (size (all_bits st.1));
}.

Lemma mark_frame n bm free i :
  marking n (bm, free) → 0 ≤ i → i `div` 64 < Z.of_nat n → bit_of bm i = false →
  marking n (set_bit bm i, free + 1).
Proof.
  intros [Hl Hw Hc] Hi Hq Hb. simpl in *. pose proof (Z.mod_pos_bound i 64 ltac:(lia)).
  assert (0 ≤ i `div` 64) by (apply Z.div_pos; lia). split; simpl.
  - unfold set_bit. by rewrite length_alter.
  - unfold set_bit. apply Forall_alter; [done|]. intros x Hx _. apply set_uN; [|lia].
    rewrite Forall_forall in Hw. apply Hw, list_elem_of_lookup. eauto.
  - replace (all_bits (set_bit bm i)) with ({[i]} ∪ all_bits bm).
    + rewrite size_add, Hc; [lia|]. rewrite elem_of_all_bits. intros [_ ?]. congruence.
    + apply set_eq. intros k. rewrite elem_of_union, elem_of_singleton, !elem_of_all_bits. split.
      * intros [->|[Hk E]]; (split; [lia|]); rewrite bit_of_set by lia;
          [by rewrite Z.eqb_refl, orb_true_r|by rewrite E].
      * intros [Hk E]. rewrite bit_of_set in E by lia.
        apply orb_prop in E as [E|E%Z.eqb_eq]; auto.
Qed.

(** One region: frames [a .. b) above the reserved limit become free. *)
Lemma mark_region_spec n fuel a b reserved st :
  marking n st → 0 ≤ a → b ≤ 64 * Z.of_nat n → (Z.to_nat (b - a) ≤ fuel)%nat →
  (∀ j, a ≤ j < b → bit_of st.1 j = false) →
  let st' := mark_region fuel (a * FRAME_SIZE) (b * FRAME_SIZE) reserved st in
  marking n st' ∧ ∀ j, 0 ≤ j →
    bit_of st'.1 j = bit_of st.1 j || bool_decide (a ≤ j < b ∧ reserved ≤ j * FRAME_SIZE).
Proof.
  revert a st. induction fuel as [|fuel IH]; intros a [bm free] Hst Ha Hb Hf Hfree; simpl.
  { split; [done|]. intros j Hj. rewrite bool_decide_false by lia. by rewrite orb_false_r. }
  unfold FRAME_SIZE in *. destruct (Z.ltb_spec (a * 4096) (b * 4096)).
  2: { split; [done|]. intros j Hj. rewrite bool_decide_false by lia. by rewrite orb_false_r. }
  rewrite Z.div_mul by lia.
  assert (Hq : a `div` 64 < Z.of_nat n) by (apply Z.div_lt_upper_bound; lia).
  assert (0 ≤ a `div` 64) by (apply Z.div_pos; lia).
  replace (a * 4096 + 4096) with ((a + 1) * 4096) by lia.
  assert (Hba : bit_of bm a = false) by (apply Hfree; lia). simpl in *.
  pose proof (mk_len _ _ Hst) as Hl. simpl in Hl. rewrite Hl, (proj2 (Z.ltb_lt _ (Z.of_nat n))) by done.
  case_bool.
  - destruct (IH (a + 1) (set_bit bm a, free + 1)) as [IH1 IH2]; try lia.
    + by apply mark_frame.
    + intros j Hj. simpl. rewrite bit_of_set by lia. rewrite Hfree by lia. apply Z.eqb_neq. lia.
    + split; [done|]. intros j Hj. rewrite IH2 by done. simpl. rewrite bit_of_set by lia.
      rewrite <- orb_assoc. f_equal. destruct (Z.eqb_spec j a) as [->|].
      * rewrite (bool_decide_true (a ≤ a < b ∧ _)) by lia. done.
      * simpl. apply bool_decide_ext. lia.
  - destruct (IH (a + 1) (bm, free)) as [IH1 IH2]; try lia; [done|intros; apply Hfree; lia|].
    split; [done|]. intros j Hj. rewrite IH2 by done. simpl. f_equal. apply bool_decide_ext. lia.
Qed.

(** A frame lies inside a usable region, above the reserved area. *)
Definition covers (reserved : Z) (r : MemoryRegion) (j : Z) : Prop :=
  usable r = true ∧ rstart r ≤ j * FRAME_SIZE ∧ (j + 1) * FRAME_SIZE ≤ rend r
  ∧ reserved ≤ j * FRAME_SIZE.

(** Region bounds are physical addresses. *)
Definition region_ok (r : MemoryRegion) : Prop := 0 ≤ rstart r < 2 ^ 52 ∧ 0 ≤ rend r < 2 ^ 52.

(** Two usable regions do not overlap. *)
Definition disjoint_regions (r1 r2 : MemoryRegion) : Prop :=
  usable r1 = true → usable r2 = true → rend r1 ≤ rstart r2 ∨ rend r2 ≤ rstart r1.

(** Frames of a region, reserved or not. *)
Lemma region_frames x r j :
  covers x r j → (rstart r + FRAME_SIZE - 1) `div` FRAME_SIZE ≤ j < rend r `div` FRAME_SIZE.
Proof.
  intros (_ & H1 & H2 & _).
  unfold FRAME_SIZE in *. split.
  - apply Z.lt_succ_r, Z.div_lt_upper_bound; lia.
  - assert (j + 1 ≤ rend r `div` 4096); [apply Z.div_le_lower_bound|]; lia.
Qed.

Lemma frames_region x r j :
  usable r = true → (rstart r + FRAME_SIZE - 1) `div` FRAME_SIZE ≤ j < rend r `div` FRAME_SIZE →
  x ≤ j * FRAME_SIZE → covers x r j.
Proof.
  unfold FRAME_SIZE, covers. intros Hu [H1 H2] Hx. unfold FRAME_SIZE.
  pose proof (Z.div_mod (rstart r + 4096 - 1) 4096). pose proof (Z.mod_pos_bound (rstart r + 4096 - 1) 4096).
  pose proof (Z.div_mod (rend r) 4096). pose proof (Z.mod_pos_bound (rend r) 4096).
  split_and!; (done || lia).
Qed.

(** One region of the map, with its alignment. *)
Lemma mark_one_spec n reserved r st :
  region_ok r → rend r `div` FRAME_SIZE ≤ 64 * Z.of_nat n → marking n st → usable r = true →
  (∀ x j, covers x r j → bit_of st.1 j = false) →
  let start := Z.land (rstart r + FRAME_SIZE - 1) (not64 (FRAME_SIZE - 1)) in
  let end_ := Z.land (rend r) (not64 (FRAME_SIZE - 1)) in
  let st' := if end_ <=? start then st
    else mark_region (S (Z.to_nat ((end_ - start) `div` FRAME_SIZE))) start end_ reserved st in
  marking n st' ∧ ∀ j, 0 ≤ j → bit_of st'.1 j = true ↔ bit_of st.1 j = true ∨ covers reserved r j.
Proof.
  intros [Hs He] Hn Hst Hu Hfree. cbv zeta.
  rewrite !align_down by (unfold uN, FRAME_SIZE; lia).
  set (a := (rstart r + FRAME_SIZE - 1) `div` FRAME_SIZE). set (b := rend r `div` FRAME_SIZE).
  assert (0 ≤ a) by (apply Z.div_pos; unfold FRAME_SIZE; lia). case_bool.
  { split; [done|]. intros j Hj. split; [by left|]. intros [|Hc]; [done|].
    pose proof (region_frames _ r j Hc). unfold FRAME_SIZE in *. lia. }
  rewrite <- Z.mul_sub_distr_r, Z.div_mul by (unfold FRAME_SIZE; lia).
  destruct (mark_region_spec n (S (Z.to_nat (b - a))) a b reserved st) as [Hm Hbit]; try done; try lia.
  { intros j Hj. apply (Hfree (j * FRAME_SIZE)), frames_region; (done || lia). }
  split; [done|]. intros j Hj. rewrite Hbit, orb_true_iff, bool_decide_eq_true by done.
  split; intros [|Hc]; auto.
  - destruct Hc. right. by apply frames_region.
  - right. split; [by eapply region_frames|]. by destruct Hc as (_ & _ & _ & ?).
Qed.

Lemma mark_regions_spec n reserved rs st :
  Forall region_ok rs → Forall (λ r, rend r `div` FRAME_SIZE ≤ 64 * Z.of_nat n) rs →
  ForallOrdPairs disjoint_regions rs → marking n st →
  (∀ r x j, r ∈ rs → covers x r j → bit_of st.1 j = false) →
  let st' := mark_regions reserved rs st in
  marking n st' ∧
  ∀ j, 0 ≤ j → bit_of st'.1 j = true ↔ bit_of st.1 j = true ∨ ∃ r, r ∈ rs ∧ covers reserved r j.
Proof.
  intros Hok Hn Hd. revert st. induction Hd as [|r rs Hr Hd IH]; intros st Hst Hfree; simpl.
  { split; [done|]. intros j Hj. split; [by left|]. intros [|(r & ?%elem_of_nil & _)]; done. }
  apply Forall_cons in Hok as [Hok1 Hok]. apply Forall_cons in Hn as [Hn1 Hn].
  destruct (usable r) eqn:Hu.
  - destruct (mark_one_spec n reserved r st) as [Hst' Hbit]; try done.
    { intros x j. apply Hfree. set_solver. }
    set (st1 := if _ <=? _ then st else _) in *. destruct (IH Hok Hn st1 Hst') as [IH1 IH2].
    + intros r' x j Hr' Hc. pose proof Hc as (Hu' & Hc1 & Hc2 & _).
      destruct (bit_of st1.1 j) eqn:E; [|done]. exfalso. rewrite Forall_forall in Hr, Hok.
      destruct (Hok _ Hr') as [? _]. apply Hbit in E; [|unfold FRAME_SIZE in *; lia].
      destruct E as [E|(_ & ? & ? & _)]; [by rewrite (Hfree r' x) in E by set_solver|].
      destruct (Hr r' Hr' Hu Hu'); unfold FRAME_SIZE in *; lia.
    + split; [done|]. intros j Hj. rewrite IH2, Hbit by done.
      split; [intros [[|]|(? & ? & ?)]; set_solver|]. intros [|(r' & [->|]%elem_of_cons & ?)]; set_solver.
  - destruct (IH Hok Hn st Hst) as [IH1 IH2].
    { intros r' x j Hr'. apply Hfree. set_solver. }
    split; [done|]. intros j Hj. rewrite IH2 by done. split; [set_solver|].
    intros [|(r' & [->|]%elem_of_cons & Hc)]; [by left| |set_solver].
    destruct Hc as (? & _). congruence.
Qed.

Lemma max_end_bound rs r : r ∈ rs → rend r ≤ foldr Z.max 0 (map rend rs).
Proof. induction 1; simpl; lia. Qed.

Lemma max_end_range rs : Forall region_ok rs → 0 ≤ foldr Z.max 0 (map rend rs) < 2 ^ 52.
Proof. induction 1 as [|r rs [_ ?] _ IH]; simpl; lia. Qed.

Lemma bit_of_zeros n j : bit_of (replicate n 0) j = false.
Proof.
  unfold bit_of. destruct (_ !! _) as [w|] eqn:E; [|done].
  apply lookup_replicate in E as [-> _]. apply Z.bits_0.
Qed.

Lemma marking_zeros n : marking n (replicate n 0, 0).
Proof.
  split; simpl.
  - apply length_replicate.
  - apply Forall_replicate. by vm_compute.
  - replace (all_bits (replicate n 0)) with (∅ : gset Z); [done|].
    apply set_eq. intros j. rewrite elem_of_all_bits, bit_of_zeros. set_solver.
Qed.

(** The allocator built from the memory map is well formed, and its free
    frames are exactly those of the usable regions above the reserved area. *)
Lemma new_allocator_spec rs reserved :
  Forall region_ok rs → ForallOrdPairs disjoint_regions rs →
  let fa := new_allocator rs reserved in
  wf fa ∧ ∀ j, 0 ≤ j → j ∈ free_set fa ↔ ∃ r, r ∈ rs ∧ covers reserved r j.
Proof.
  intros Hok Hd. pose proof (max_end_range rs Hok) as Hmax. unfold new_allocator. cbv zeta.
  set (max := foldr Z.max 0 (map rend rs)) in *. set (total := max `div` FRAME_SIZE).
  set (n := Z.to_nat ((total + 63) `div` 64)).
  assert (Htot : 0 ≤ total < 2 ^ 40)
    by (unfold total, FRAME_SIZE; split; [apply Z.div_pos|apply Z.div_lt_upper_bound]; lia).
  assert (Hn : Z.of_nat n = (total + 63) `div` 64) by (unfold n; rewrite Z2Nat.id; [done|apply Z.div_pos; lia]).
  pose proof (Z.div_mod (total + 63) 64 ltac:(lia)). pose proof (Z.mod_pos_bound (total + 63) 64 ltac:(lia)).
  pose proof (Z.div_mod max 4096 ltac:(lia)). pose proof (Z.mod_pos_bound max 4096 ltac:(lia)).
  assert (Hend : ∀ r, r ∈ rs → rend r `div` FRAME_SIZE ≤ total).
  { intros r Hr. apply Z.div_le_mono; [done|]. by apply max_end_bound. }
  destruct (mark_regions_spec n reserved rs (replicate n 0, 0)) as [Hm Hbit]; try done.
  { apply Forall_forall. intros r Hr. specialize (Hend r Hr). lia. }
  { apply marking_zeros. }
  { intros. apply bit_of_zeros. }
  destruct (mark_regions reserved rs (replicate n 0, 0)) as [bm free]. destruct Hm as [Hl Hw Hc]. simpl in *.
  assert (Hbit' : ∀ j, 0 ≤ j → bit_of bm j = true ↔ ∃ r, r ∈ rs ∧ covers reserved r j)
    by (intros j Hj; rewrite Hbit, bit_of_zeros by done; naive_solver).
  assert (Hlt : ∀ j, 0 ≤ j → bit_of bm j = true → j < total).
  { intros j Hj (r & Hr & Hcov)%Hbit'; [|done]. pose proof (region_frames _ _ _ Hcov).
    specialize (Hend r Hr). lia. }
  set (fa := {| bitmap := bm; base_addr := 0; total_frames := total; free_count := free |}).
  assert (Hfs : ∀ j, j ∈ free_set fa ↔ 0 ≤ j ∧ bit_of bm j = true).
  { intros j. rewrite elem_of_free_set. simpl. naive_solver. }
  split; [split; simpl; try done; [by rewrite Hl|]|].
  - rewrite Hc. do 2 f_equal. apply set_eq. intros j. by rewrite elem_of_all_bits, Hfs.
  - intros j Hj. rewrite Hfs, Hbit' by done. naive_solver.
Qed.

(** ** The interface to the other memory managers *)

(** What a client may rely on.  [fa_free] is the set of free frame numbers and
    [fa_total] bounds the numbers the allocator tracks. *)
Class FrameAlloc `{PhysFrames} (A : Type) := {
  fa_alloc : A → option PhysFrame * A;
  fa_dealloc : PhysFrame → A → A;
  fa_ok : A → Prop;
  fa_free : A → gset Z;
  fa_total : A → Z;
  fa_free_range a j : fa_ok a → j ∈ fa_free a → 0 ≤ j < fa_total a;
  fa_alloc_spec a : fa_ok a →
    match fa_alloc a with
    | (Some f, a') => frame_no f ∈ fa_free a ∧ fa_free a' = fa_free a ∖ {[frame_no f]}
        ∧ fa_total a' = fa_total a ∧ fa_ok a'
    | (None, a') => a' = a ∧ fa_free a = ∅
    end;
  fa_dealloc_spec a f : fa_ok a → 0 ≤ frame_no f < fa_total a →
    fa_free (fa_dealloc f a) = {[frame_no f]} ∪ fa_free a
    ∧ fa_total (fa_dealloc f a) = fa_total a ∧ fa_ok (fa_dealloc f a);
}.

Definition global_ok (g : option BitmapFrameAllocator) : Prop := from_option wf True g.
Definition global_free (g : option BitmapFrameAllocator) : gset Z := from_option free_set ∅ g.
Definition global_total (g : option BitmapFrameAllocator) : Z := from_option total_frames 0 g.

Lemma global_free_range g j : global_ok g → j ∈ global_free g → 0 ≤ j < global_total g.
Proof. destruct g; simpl; [intros _ [? _]%elem_of_free_set; done|set_solver]. Qed.

Section global.
Context `{PhysFrames}.

Lemma global_alloc_spec g : global_ok g →
  match global_alloc g with
  | (Some f, g') => frame_no f ∈ global_free g ∧ global_free g' = global_free g ∖ {[frame_no f]}
      ∧ global_total g' = global_total g ∧ global_ok g'
  | (None, g') => g' = g ∧ global_free g = ∅
  end.
Proof.
  destruct g as [fa|]; simpl; [|done]. intros Hwf. pose proof (alloc_frame_spec fa Hwf) as Ha.
  destruct (alloc_frame fa) as [[f|] fa']; simpl; [naive_solver|]. by destruct Ha as [-> ?].
Qed.

Lemma global_dealloc_spec g f : global_ok g → 0 ≤ frame_no f < global_total g →
  global_free (global_dealloc f g) = {[frame_no f]} ∪ global_free g
  ∧ global_total (global_dealloc f g) = global_total g ∧ global_ok (global_dealloc f g).
Proof. destruct g as [fa|]; simpl; [apply dealloc_frame_spec|lia]. Qed.

(** [FRAME_ALLOCATOR] behind [alloc_frame] / [dealloc_frame]. *)
#[export] Instance bitmap_frame_alloc : FrameAlloc (option BitmapFrameAllocator) := {|
  fa_alloc := global_alloc; fa_dealloc := global_dealloc;
  fa_ok := global_ok; fa_free := global_free; fa_total := global_total;
  fa_free_range := global_free_range;
  fa_alloc_spec := global_alloc_spec; fa_dealloc_spec := global_dealloc_spec;
|}.

End global.

(** ** Theorems *)

(** [BitmapFrameAllocator::new] on a boot memory map whose usable regions
    do not overlap yields a well-formed allocator: the bitmap is sized for the
    map, no untracked bit is set, [free_count] is the number of free frames, and
    a frame is free exactly when it lies wholly inside a usable region and at or
    above the reserved limit (kernel image and boot structures are never handed
    out). *)
Theorem frame_new_correct rs reserved :
  Forall region_ok rs → ForallOrdPairs disjoint_regions rs →
  let fa := new_allocator rs reserved in
  wf fa ∧ ∀ j, 0 ≤ j → j ∈ free_set fa ↔ ∃ r, r ∈ rs ∧ covers reserved r j.
Proof. apply new_allocator_spec. Qed.

Definition demo_map : list MemoryRegion :=
  [ mkRegion 0 40960 true; mkRegion 40960 81920 false; mkRegion 81921 122000 true ].

Lemma frame_new_correct_witness :
  wf (new_allocator demo_map 8192) ∧ free_count (new_allocator demo_map 8192) = 16.
Proof.
  split; [|vm_compute; reflexivity].
  apply (frame_new_correct demo_map 8192).
  - repeat constructor; simpl; lia.
  - repeat first [apply FOP_cons | apply FOP_nil | apply Forall_cons_2 | apply Forall_nil_2];
      intros ? ?; simpl in *; (discriminate || lia).
Defined.

Lemma frame_demo_wf : wf (new_allocator demo_map 8192).
Proof.
  apply new_allocator_spec.
  - repeat constructor; simpl; lia.
  - repeat first [apply FOP_cons | apply FOP_nil | apply Forall_cons_2 | apply Forall_nil_2];
      intros ? ?; simpl in *; (discriminate || lia).
Defined.

(** C4: [alloc_frame] on a well-formed allocator refines "take the least
    element of the free set": it returns a free frame, the lowest one, removes
    exactly that frame from the free set and keeps the invariant; it reports
    out of memory exactly when no frame is free and then changes nothing. *)
Theorem frame_alloc_refines `{PhysFrames} fa : wf fa →
  match alloc_frame fa with
  | (Some f, fa') =>
      frame_no f ∈ free_set fa ∧ (∀ j, j ∈ free_set fa → frame_no f ≤ j)
      ∧ free_set fa' = free_set fa ∖ {[frame_no f]}
      ∧ total_frames fa' = total_frames fa ∧ wf fa'
  | (None, fa') => fa' = fa ∧ free_set fa = ∅
  end.
Proof. apply alloc_frame_spec. Qed.

Lemma frame_alloc_refines_witness :
  wf (new_allocator demo_map 8192) ∧
  (alloc_frame (new_allocator demo_map 8192)).1 = Some 8192 ∧
  wf (alloc_frame (new_allocator demo_map 8192)).2.
Proof.
  pose proof frame_demo_wf as Hwf. split; [exact Hwf|]. split; [vm_compute; reflexivity|].
  exact (proj2 (proj2 (proj2 (proj2 (frame_alloc_refines (new_allocator demo_map 8192) Hwf))))).
Defined.

(** [dealloc_frame] of a tracked frame makes it free and keeps the
    invariant; a second deallocation of the same frame is detected and changes
    nothing, so [free_count] never counts a frame twice; and giving back the
    frame just allocated restores the free set. *)
Theorem frame_dealloc_correct `{PhysFrames} fa f : wf fa → 0 ≤ frame_no f < total_frames fa →
  let fa' := dealloc_frame f fa in
  free_set fa' = {[frame_no f]} ∪ free_set fa ∧ wf fa'
  ∧ dealloc_frame f fa' = fa'
  ∧ (∀ g fa1, alloc_frame fa = (Some g, fa1) → free_set (dealloc_frame g fa1) = free_set fa).
Proof.
  intros Hwf Hf. destruct (dealloc_frame_spec fa f Hwf Hf) as (Hfs & Ht & Hwf'). cbv zeta.
  split_and!; [done|done| |].
  - apply dealloc_frame_free; [done|]. rewrite Hfs. set_solver.
  - intros g fa1 E. pose proof (alloc_frame_spec fa Hwf) as Ha. rewrite E in Ha.
    destruct Ha as (Hin & _ & Hfs1 & Ht1 & Hwf1).
    destruct (dealloc_frame_spec fa1 g Hwf1) as (-> & _).
    { rewrite Ht1. by apply elem_of_free_set in Hin as [? _]. }
    rewrite Hfs1. symmetry. by apply union_difference_singleton_L.
Qed.

Lemma frame_dealloc_correct_witness :
  let fa := new_allocator demo_map 8192 in
  wf fa ∧ wf (dealloc_frame (containing_address 4096) fa).
Proof.
  pose proof frame_demo_wf as Hwf. split; [exact Hwf|].
  apply (frame_dealloc_correct (new_allocator demo_map 8192) (containing_address 4096) Hwf).
  vm_compute. split; [intros ?; discriminate|reflexivity].
Defined.
