(* ===== verification/Paging.v ===== *)
(** Page tables ([kernel/src/memory/paging.rs]): the four-level tree, its
    walk, creation, mapping and release of user address spaces.

    A table of a level is the map of its used entries; an entry carries the
    frame it points to, its flags and, above the leaves, the table in that
    frame.  A tree is an exact picture because every table frame is linked from
    one entry only: tables are always freshly allocated.  An address space is
    the entry that would point to its level-4 table.  [map_to] and
    [translate_page] belong to the x86_64 crate; the class [Mapper] states the
    documented behaviour the kernel relies on.  The translation cache is not
    modelled. *)

From S2P Require Import Prelude Bits Frame.

(** ** Flags *)

Definition PRESENT : Z := 0.
Definition WRITABLE : Z := 1.
Definition USER_ACCESSIBLE : Z := 2.
Definition HUGE_PAGE : Z := 7.
Definition BIT_9 : Z := 9.
Definition contains (flags b : Z) : bool := Z.testbit flags b.
Definition insert_flag (flags b : Z) : Z := Z.setbit flags b.
Definition remove_flag (flags b : Z) : Z := Z.clearbit flags b.

(** ** Tables *)

Section Tables.
Context `{PhysFrames}.

Record Entry (A : Type) := mkEntry { e_frame : PhysFrame; e_flags : Z; e_sub : A }.
#[global] Arguments mkEntry {_}.
#[global] Arguments e_frame {_}.
#[global] Arguments e_flags {_}.
#[global] Arguments e_sub {_}.

Fixpoint Table (level : nat) : Type :=
  match level with O => unit | S l => gmap Z (Entry (Table l)) end.
#[global] Arguments Table : simpl never.

Definition entries {l} (e : Entry (Table (S l))) : gmap Z (Entry (Table l)) := e_sub e.
Notation Pte := (Entry (Table 0)).
Notation Space := (Entry (Table 4)).

(** [entry.frame()] succeeds: present and not huge. *)
Definition is_link {A} (e : Entry A) : bool := contains (e_flags e) PRESENT && negb (contains (e_flags e) HUGE_PAGE).

(** [(addr >> (12 + 9 * (level - 1))) & 0x1FF] *)
Definition index (level : nat) (addr : Z) : Z := Z.land (Z.shiftr addr (12 + 9 * (Z.of_nat level - 1))) 0x1FF.

(** The leaf entry of an address below an entry of a level. *)
Fixpoint walk (level : nat) : Entry (Table level) → Z → option Pte :=
  match level return Entry (Table level) → Z → option Pte with
  | O => λ e _, Some e
  | S l => λ e addr, if is_link e then entries e !! index (S l) addr ≫= λ e', walk l e' addr else None
  end.

(** A change of that leaf in place. *)
Fixpoint update (level : nat) (f : Pte → Pte) : Entry (Table level) → Z → Entry (Table level) :=
  match level return Entry (Table level) → Z → Entry (Table level) with
  | O => λ e _, f e
  | S l => λ e addr, if is_link e
      then mkEntry (A := Table (S l)) (e_frame e) (e_flags e) (alter (λ e', update l f e' addr) (index (S l) addr) (entries e))
      else e
  end.

(** The leaf of a mapped page. *)
Definition leaf (e : Space) (addr : Z) : option Pte := walk 4 e addr ≫= λ x, if is_link x then Some x else None.

(** Indices fit nine bits. *)
Fixpoint tables_ok (level : nat) : Entry (Table level) → Prop :=
  match level return Entry (Table level) → Prop with
  | O => λ _, True
  | S l => λ e, map_Forall (λ i e', 0 ≤ i < 512 ∧ tables_ok l e') (entries e)
  end.

(** The walk of an address meets no huge and no non-present entry. *)
Fixpoint clear (level : nat) : Entry (Table level) → Z → Prop :=
  match level return Entry (Table level) → Z → Prop with
  | O => λ e _, is_link e = true
  | S l => λ e v, is_link e = true ∧ match entries e !! index (S l) v with Some e' => clear l e' v | None => True end
  end.

(** A page of the lower half, by its address. *)
Definition user_page (v : Z) : Prop := 0 ≤ v < 2 ^ 47 ∧ v `mod` 4096 = 0.

(** [Page::containing_address] *)
Definition page_base (addr : Z) : Z := addr - addr `mod` 4096.

End Tables.

Notation Pte := (Entry (Table 0)).
Notation Space := (Entry (Table 4)).

(** ** The x86_64 crate's mapper *)

Class Mapper `{PhysFrames} (A : Type) `{!FrameAlloc A} := {
  map_to : Z → PhysFrame → Z → Space → A → result string unit * (Space * A);
  translate_page : Z → Space → option PhysFrame;
  (** No mapping but the requested one changes, and that one only on success. *)
  map_to_spec page f flags e a : fa_ok a → tables_ok 4 e → is_link e = true → user_page page →
    contains flags PRESENT = true → contains flags HUGE_PAGE = false →
    let '(r, (e', a')) := map_to page f flags e a in
    (∀ v, user_page v → leaf e' v =
       match r with
       | Ok _ => if bool_decide (v = page) then Some (mkEntry (A := Table 0) f flags tt) else leaf e v
       | Err _ => leaf e v
       end)
    ∧ tables_ok 4 e' ∧ is_link e' = true ∧ (∀ v, clear 4 e v → clear 4 e' v)
    ∧ fa_ok a' ∧ fa_free a' ⊆ fa_free a ∧ fa_total a' = fa_total a ∧ (size (fa_free a) ≤ size (fa_free a') + 3)%nat;
  (** An unmapped page is mapped when a frame is left for each table it may need. *)
  map_to_ok page f flags e a : fa_ok a → tables_ok 4 e → is_link e = true → user_page page →
    contains flags PRESENT = true → contains flags HUGE_PAGE = false → clear 4 e page → leaf e page = None → (3 ≤ size (fa_free a))%nat → is_ok (map_to page f flags e a).1 = true;
  translate_mapped page e x : user_page page → leaf e page = Some x → is_Some (translate_page page e);
}.

(** ** Address spaces *)

Section Spaces.
Context `{PhysFrames} {A : Type} `{!FrameAlloc A} `{!Mapper A}.

(** The address spaces by the address of their level-4 table, the bytes of the
    data frames, the copy-on-write counts and the allocator. *)
Record Mem := mkMem {
  spaces : gmap Z Space;
  contents : gmap Z (list Z);
  REFCOUNTS : gmap Z Z;
  falloc : A;
}.
Definition set_spaces (m : gmap Z Space) (s : Mem) : Mem := mkMem m (contents s) (REFCOUNTS s) (falloc s).
Definition set_contents (m : gmap Z (list Z)) (s : Mem) : Mem := mkMem (spaces s) m (REFCOUNTS s) (falloc s).
Definition set_refs (m : gmap Z Z) (s : Mem) : Mem := mkMem (spaces s) (contents s) m (falloc s).
Definition set_alloc (a : A) (s : Mem) : Mem := mkMem (spaces s) (contents s) (REFCOUNTS s) a.

Definition page_data (s : Mem) (f : PhysFrame) : list Z := default zero_page (contents s !! start_address f).

(** [cr3] is the active table, whose upper half is copied. *)
Definition create_user_page_table (cr3 : PhysFrame) (s : Mem) : option PhysFrame * Mem :=
  match fa_alloc (falloc s) with
  | (None, a) => (None, set_alloc a s)
  | (Some frame, a) =>
      let kernel := match spaces s !! start_address cr3 with Some e => entries e | None => ∅ end in
      let upper := filter (λ '(i, _), 256 ≤ i) kernel in
      (Some frame, set_spaces (<[start_address frame := mkEntry (A := Table 4) frame 1 upper]> (spaces s)) (set_alloc a s))
  end.

Definition map_page (pml4 : PhysFrame) (page : Z) (frame : PhysFrame) (flags : Z) (s : Mem) : result string unit * Mem :=
  match spaces s !! start_address pml4 with
  | None => (Err "Failed to map page"%string, s)
  | Some e =>
      let '(r, (e', a)) := map_to page frame flags e (falloc s) in
      (r, set_spaces (<[start_address pml4 := e']> (spaces s)) (set_alloc a s))
  end.

(** One turn of [map_range]: a fresh frame for a page. *)
Definition map_fresh (pml4 : PhysFrame) (page flags : Z) (s : Mem) : result string unit * Mem :=
  match fa_alloc (falloc s) with
  | (None, a) => (Err "Out of physical frames"%string, set_alloc a s)
  | (Some frame, a) => map_page pml4 page frame flags (set_alloc a s)
  end.

Fixpoint map_range_from (i : Z) (n : nat) (pml4 : PhysFrame) (start flags : Z) (s : Mem) : result string unit * Mem :=
  match n with
  | O => (Ok tt, s)
  | S n' =>
      match map_fresh pml4 (page_base (start + i * 4096)) flags s with
      | (Err e, s') => (Err e, s')
      | (Ok _, s') => map_range_from (i + 1) n' pml4 start flags s'
      end
  end.
Definition map_range (pml4 : PhysFrame) (start_vaddr : Z) (page_count : nat) (flags : Z) (s : Mem) : result string unit * Mem :=
  map_range_from 0 page_count pml4 start_vaddr flags s.

Definition mmap_anonymous (pml4 : PhysFrame) (hint_vaddr : Z) (num_pages : nat) (s : Mem) : result string Z * Mem :=
  let start := if hint_vaddr =? 0 then 0x10000000 else Z.land hint_vaddr (not64 0xFFF) in
  let flags := insert_flag (insert_flag (insert_flag 0 PRESENT) WRITABLE) USER_ACCESSIBLE in
  match map_range pml4 start num_pages flags s with
  | (Err e, s') => (Err e, s')
  | (Ok _, s') => (Ok start, s')
  end.

(** [free_page_table_level] releases what an entry's table links to, leaves
    and tables alike. *)
Fixpoint free_page_table_level (level : nat) : Entry (Table level) → A → A :=
  match level return Entry (Table level) → A → A with
  | O => λ _ a, a
  | S l => λ e a, foldl (λ a idx,
      match entries e !! idx with
      | Some e' => if is_link e' then fa_dealloc (e_frame e') (free_page_table_level l e' a) else a
      | None => a
      end) a (sorted_keys (entries e))
  end.

(** The lower half of a level-4 table: each linked table, then its frame. *)
Definition free_user_half (e : Space) (a : A) : A :=
  foldl (λ a idx,
    match entries e !! idx with
    | Some e' => if (idx <? 256) && is_link e' then fa_dealloc (e_frame e') (free_page_table_level 3 e' a) else a
    | None => a
    end) a (sorted_keys (entries e)).

Definition free_user_page_table (pml4 : PhysFrame) (s : Mem) : Mem :=
  match spaces s !! start_address pml4 with
  | None => s
  | Some e => set_spaces (delete (start_address pml4) (spaces s))
                (set_alloc (fa_dealloc pml4 (free_user_half e (falloc s))) s)
  end.

Definition free_user_pages_only (pml4 : PhysFrame) (s : Mem) : Mem :=
  match spaces s !! start_address pml4 with
  | None => s
  | Some e => set_spaces (<[start_address pml4 :=
                  mkEntry (A := Table 4) (e_frame e) (e_flags e) (filter (λ '(i, _), 256 ≤ i) (entries e))]> (spaces s))
                (set_alloc (free_user_half e (falloc s)) s)
  end.

End Spaces.
Arguments Mem {_} _.
