(* ===== verification/PagingProofs.v ===== *)
(** Lemmas on page tables: addresses and their indices, the effect of an update
    on every walk, the leaves of a space in address order, and an instance of
    the mapper interface on the tree. *)

From S2P Require Import Prelude Bits Frame Paging.

(** ** Addresses and indices *)

(** The bytes below one entry of a level-[l + 1] table. *)
Definition span (l : nat) : Z := 2 ^ (12 + 9 * Z.of_nat l).

Lemma span_pos l : 0 < span l.
Proof. apply Z.pow_pos_nonneg; lia. Qed.
Lemma span_S l : span (S l) = 512 * span l.
Proof. unfold span. rewrite Nat2Z.inj_succ. replace (12 + 9 * Z.succ (Z.of_nat l)) with (9 + (12 + 9 * Z.of_nat l)) by lia. rewrite Z.pow_add_r by lia. lia. Qed.

Lemma index_div l v : 0 ≤ v → index (S l) v = (v `div` span l) `mod` 512.
Proof.
  intros Hv. unfold index. change 0x1FF with (Z.ones 9). rewrite Z.land_ones by lia.
  rewrite Z.shiftr_div_pow2 by lia. unfold span. by replace (12 + 9 * (Z.of_nat (S l) - 1)) with (12 + 9 * Z.of_nat l) by lia.
Qed.

Lemma index_range l v : 0 ≤ v → 0 ≤ index (S l) v < 512.
Proof. intros Hv. rewrite index_div by done. apply Z.mod_pos_bound. lia. Qed.

(** The address of offset [r] in slot [i] of a table based at [b]. *)
Lemma index_slot l b i r : b `mod` span (S l) = 0 → 0 ≤ b → 0 ≤ i < 512 → 0 ≤ r < span l → index (S l) (b + i * span l + r) = i.
Proof.
  intros Hb Hb0 Hi Hr. pose proof (span_pos l). rewrite span_S in Hb. rewrite index_div by nia.
  assert (E : b = 512 * span l * (b `div` (512 * span l))) by (rewrite (Z.div_mod b (512 * span l)) at 1 by lia; lia).
  rewrite E. replace (512 * span l * (b `div` (512 * span l)) + i * span l + r) with (r + (512 * (b `div` (512 * span l)) + i) * span l) by ring.
  rewrite Z.div_add, Z.div_small, Z.add_0_l by lia. rewrite Z.add_comm, Z.mul_comm, Z.mod_add by lia. by apply Z.mod_small.
Qed.

(** Slot and offset of an address in a table. *)
Lemma slot_of l b v : b `mod` span (S l) = 0 → 0 ≤ b → b ≤ v < b + span (S l) →
  ∃ i r, 0 ≤ i < 512 ∧ 0 ≤ r < span l ∧ v = b + i * span l + r.
Proof.
  intros Hb Hb0 Hv. pose proof (span_pos l) as Hw. rewrite span_S in Hv. exists ((v - b) `div` span l), ((v - b) `mod` span l).
  pose proof (Z.mod_pos_bound (v - b) (span l) Hw). pose proof (Z.div_mod (v - b) (span l) ltac:(lia)).
  split; [|split; [done|lia]]. split; [apply Z.div_pos; lia|apply Z.div_lt_upper_bound; lia].
Qed.

Lemma lor_add_low a b n : 0 ≤ n → a `mod` 2 ^ n = 0 → 0 ≤ b < 2 ^ n → Z.lor a b = a + b.
Proof.
  intros Hn Ha Hb. rewrite (Z.div_mod a (2 ^ n)), Ha, Z.add_0_r, (Z.mul_comm (2 ^ n)) by lia.
  rewrite Z.lor_comm, lor_disjoint by lia. lia.
Qed.

Lemma lor_slot l b i : b `mod` span (S l) = 0 → 0 ≤ i < 512 → Z.lor b (Z.shiftl i (12 + 9 * Z.of_nat l)) = b + i * span l.
Proof.
  intros Hb Hi. rewrite Z.shiftl_mul_pow2 by lia. fold (span l). pose proof (span_pos l).
  apply (lor_add_low _ _ (12 + 9 * Z.of_nat (S l))); [lia|exact Hb|]. fold (span (S l)). rewrite span_S. nia.
Qed.

Lemma mod_slot l b i : b `mod` span (S l) = 0 → (b + i * span l) `mod` span l = 0.
Proof.
  intros Hb. pose proof (span_pos l). rewrite Z.mod_add by lia. rewrite span_S in Hb.
  apply Z.mod_divide in Hb as [q ->]; [|lia]. replace (q * (512 * span l)) with (512 * q * span l) by ring. apply Z.mod_mul. lia.
Qed.

(** An address below 2^48 is given by its four indices and its offset. *)
Lemma indices_inj l b v w : b `mod` span l = 0 → 0 ≤ b → b ≤ v < b + span l → b ≤ w < b + span l → v `mod` 4096 = 0 → w `mod` 4096 = 0 →
  (∀ k, (k < l)%nat → index (S k) v = index (S k) w) → v = w.
Proof.
  revert b. induction l as [|l IH]; intros b Hb Hb0 Hv Hw Hv0 Hw0 Hk.
  - change (span 0) with 4096 in *. Z.to_euclidean_division_equations. lia.
  - destruct (slot_of l b v Hb Hb0 Hv) as (i & r & Hi & Hr & Ev), (slot_of l b w Hb Hb0 Hw) as (j & q & Hj & Hq & Ew).
    assert (i = j) as <-.
    { pose proof (Hk l ltac:(lia)) as E. rewrite Ev, Ew in E. by rewrite !index_slot in E. }
    pose proof (span_pos l). apply (IH (b + i * span l)); [by apply mod_slot|lia|lia|lia|done|done|]. intros k Hkl. apply Hk. lia.
Qed.

Lemma user_page_inj v w : user_page v → user_page w → (∀ k, (k < 4)%nat → index (S k) v = index (S k) w) → v = w.
Proof. intros [Hv Hv0] [Hw Hw0]. apply (indices_inj 4 0); try done; change (span 4) with (2 ^ 48); lia. Qed.

Lemma index_page_base l addr : 0 ≤ addr → index (S l) (page_base addr) = index (S l) addr.
Proof.
  intros Ha. assert (Hp : 0 ≤ page_base addr) by (unfold page_base; pose proof (Z.mod_le addr 4096); lia).
  rewrite !index_div by done. f_equal. unfold page_base, span.
  replace (2 ^ (12 + 9 * Z.of_nat l)) with (4096 * 2 ^ (9 * Z.of_nat l)) by (rewrite Z.pow_add_r by lia; done).
  assert (Hw : 0 < 2 ^ (9 * Z.of_nat l)) by (apply Z.pow_pos_nonneg; lia).
  rewrite <- !Z.div_div by lia. f_equal. pose proof (Z.div_mod addr 4096 ltac:(lia)).
  replace (addr - addr `mod` 4096) with (addr `div` 4096 * 4096) by lia. apply Z.div_mul. lia.
Qed.

(** ** Walks and updates *)

Section Walks.
Context `{PhysFrames}.

Lemma walk_page_base l : ∀ (e : Entry (Table l)) addr, 0 ≤ addr → walk l e (page_base addr) = walk l e addr.
Proof.
  induction l as [|l IH]; intros e addr Ha; [done|]. cbn [walk]. rewrite index_page_base by done. destruct (is_link e); [|done].
  destruct (entries e !! index (S l) addr); [|done]. cbn. by apply IH.
Qed.

Lemma walk_update_same l f : ∀ (e : Entry (Table l)) a v, (∀ k, (k < l)%nat → index (S k) a = index (S k) v) →
  walk l (update l f e a) v = f <$> walk l e v.
Proof.
  induction l as [|l IH]; intros e a v Hk; [done|]. cbn [walk update]. destruct (is_link e) eqn:Hl; [|by rewrite Hl].
  unfold is_link in *. cbn [e_flags]. rewrite Hl. unfold entries at 1. cbn [e_sub]. rewrite (Hk l) by lia. rewrite lookup_alter_eq.
  destruct (entries e !! index (S l) v) as [e'|]; [|done]. cbn. apply IH. intros k ?. apply Hk. lia.
Qed.

Lemma walk_update_other l f : ∀ (e : Entry (Table l)) a v k, (k < l)%nat → index (S k) a ≠ index (S k) v →
  walk l (update l f e a) v = walk l e v.
Proof.
  induction l as [|l IH]; intros e a v k Hk Hne; [lia|]. cbn [walk update]. destruct (is_link e) eqn:Hl; [|by rewrite Hl].
  unfold is_link in *. cbn [e_flags]. rewrite Hl. unfold entries at 1. cbn [e_sub].
  destruct (decide (index (S l) a = index (S l) v)) as [E|E]; [|by rewrite lookup_alter_ne].
  rewrite E, lookup_alter_eq. destruct (entries e !! index (S l) v) as [e'|]; [|done]. cbn. apply (IH e' a v k); [|done].
  destruct (decide (k = l)) as [->|]; [done|lia].
Qed.

Lemma tables_ok_update l f : ∀ (e : Entry (Table l)) a, tables_ok l e → tables_ok l (update l f e a).
Proof.
  induction l as [|l IH]; intros e a Ht; [done|]. cbn [tables_ok update] in *. destruct (is_link e); [|done].
  unfold entries at 1. cbn [e_sub]. intros i e' He. destruct (decide (i = index (S l) a)) as [->|Hne].
  - rewrite lookup_alter_eq in He. destruct (entries e !! index (S l) a) as [e0|] eqn:E; [|done]. injection He as <-.
    destruct (Ht _ _ E). split; [done|]. by apply IH.
  - rewrite lookup_alter_ne in He by done. by apply (Ht i).
Qed.

Lemma is_link_update l f (e : Entry (Table (S l))) a : is_link (update (S l) f e a) = is_link e.
Proof. cbn [update]. by destruct (is_link e) eqn:E. Qed.

(** The effect of a leaf update on the pages of a space. *)
Lemma leaf_update f (e : Space) a v : user_page a → user_page v → leaf (update 4 f e a) v =
  if bool_decide (v = a) then walk 4 e a ≫= λ x, if is_link (f x) then Some (f x) else None else leaf e v.
Proof.
  intros Ha Hv. unfold leaf. case_bool_decide as E.
  - subst v. rewrite walk_update_same by done. by destruct (walk 4 e a).
  - assert (Hk : ∃ k, (k < 4)%nat ∧ index (S k) a ≠ index (S k) v).
    { destruct (decide (Forall (λ k, index (S k) a = index (S k) v) (seq 0 4))) as [Hall|Hnot].
      - exfalso. apply E. apply user_page_inj; [done..|]. intros k Hk. symmetry. rewrite Forall_forall in Hall.
        apply Hall, elem_of_seq. lia.
      - apply not_Forall_Exists in Hnot; [|intros ?; apply _]. apply Exists_exists in Hnot as (k & Hk & Hne). exists k.
        apply elem_of_seq in Hk. split; [lia|done]. }
    destruct Hk as (k & Hk & Hne). by rewrite (walk_update_other 4 f e a v k).
Qed.

Lemma leaf_Some (e : Space) v x : leaf e v = Some x ↔ walk 4 e v = Some x ∧ is_link x = true.
Proof.
  unfold leaf. destruct (walk 4 e v) as [y|]; cbn; [|split; [done|by intros [? _]]].
  destruct (is_link y) eqn:E; split; [intros [= <-]; auto|intros [Hx _]; exact Hx|done|intros [[= ->] Hl]; by rewrite Hl in E].
Qed.

End Walks.

(** ** The leaves of a table in address order *)

Lemma NoDup_concat_map {X Y} (f : X → list Y) l : NoDup l → (∀ x, x ∈ l → NoDup (f x)) →
  (∀ x y z, x ∈ l → y ∈ l → z ∈ f x → z ∈ f y → x = y) → NoDup (concat (map f l)).
Proof.
  induction l as [|a l IH]; intros Hl Hf Hd; cbn; [constructor|]. apply NoDup_cons in Hl as [Ha Hl]. apply NoDup_app. split_and!.
  - apply Hf, list_elem_of_here.
  - intros z Hz Hz'. apply list_elem_of_In, in_concat in Hz' as (ys & (y & <- & Hy)%in_map_iff & Hz').
    apply list_elem_of_In in Hy. apply list_elem_of_In in Hz'.
    assert (a = y) as <-; [|done]. apply (Hd a y z); [apply list_elem_of_here|by apply list_elem_of_further|done..].
  - apply IH; [done|intros x Hx; apply Hf; by apply list_elem_of_further|].
    intros x y z Hx Hy. apply Hd; by apply list_elem_of_further.
Qed.

Lemma fmap_concat_map {X Y U} (g : Y → U) (f : X → list Y) l : g <$> concat (map f l) = concat (map (λ x, g <$> f x) l).
Proof. induction l as [|a l IH]; [done|]. cbn [map concat]. by rewrite fmap_app, IH. Qed.

Section Leaves.
Context `{PhysFrames}.

(** The slots of a table of level [l + 1], with what hangs below each. *)
Definition below {l} (sub : Entry (Table l) → Z → list (Z * Pte)) (e : Entry (Table (S l))) (base idx : Z) : list (Z * Pte) :=
  match entries e !! idx with
  | Some e' => if is_link e' then sub e' (base + idx * span l) else []
  | None => []
  end.

Fixpoint leaves (level : nat) : Entry (Table level) → Z → list (Z * Pte) :=
  match level return Entry (Table level) → Z → list (Z * Pte) with
  | O => λ e base, [(base, e)]
  | S l => λ e base, concat (map (below (leaves l) e base) (sorted_keys (entries e)))
  end.

Definition user_leaves (e : Space) : list (Z * Pte) :=
  concat (map (below (leaves 3) e 0) (List.filter (λ i, i <? 256) (sorted_keys (entries e)))).

Lemma elem_of_below {l} (sub : Entry (Table l) → Z → list (Z * Pte)) e base idxs p :
  p ∈ concat (map (below sub e base) idxs) ↔
  ∃ idx e', idx ∈ idxs ∧ entries e !! idx = Some e' ∧ is_link e' = true ∧ p ∈ sub e' (base + idx * span l).
Proof.
  rewrite list_elem_of_In, in_concat. split.
  - intros (ys & (i & <- & Hi)%in_map_iff & Hp). apply list_elem_of_In in Hi. apply list_elem_of_In in Hp. unfold below in Hp.
    destruct (entries e !! i) as [e'|] eqn:E; [|by apply elem_of_nil in Hp].
    destruct (is_link e') eqn:El; [|by apply elem_of_nil in Hp]. eauto 8.
  - intros (i & e' & Hi & E & El & Hp). exists (below sub e base i). split; [apply in_map; by apply list_elem_of_In|].
    apply list_elem_of_In. unfold below. by rewrite E, El.
Qed.

Lemma leaves_spec l : ∀ (e : Entry (Table l)) base v x, tables_ok l e → is_link e = true → base `mod` span l = 0 → 0 ≤ base →
  (v, x) ∈ leaves l e base ↔ base ≤ v < base + span l ∧ v `mod` 4096 = 0 ∧ walk l e v = Some x ∧ is_link x = true.
Proof.
  induction l as [|l IH]; intros e base v x Ht Hl Hb Hb0.
  - cbn [leaves walk]. rewrite list_elem_of_singleton. change (span 0) with 4096 in *. split.
    + intros [= -> ->]. split_and!; (done || lia).
    + intros (Hv & Hv0 & [= ->] & _). f_equal. Z.to_euclidean_division_equations. lia.
  - cbn [leaves walk]. rewrite elem_of_below, Hl. pose proof (span_pos l) as Hpos. split.
    + intros (i & e' & _ & E & El & Hp). destruct (Ht i e' E) as [Hi Hok].
      apply IH in Hp as (Hv & Hv0 & Hw & Hx); [|done|done|by apply mod_slot|nia]. rewrite span_S.
      replace v with (base + i * span l + (v - base - i * span l)) by lia. rewrite index_slot by (done || lia).
      rewrite E. cbn. replace (base + i * span l + (v - base - i * span l)) with v by lia. split_and!; (done || nia).
    + intros (Hv & Hv0 & Hw & Hx). destruct (slot_of l base v Hb Hb0 Hv) as (i & r & Hi & Hr & Ev). subst v.
      rewrite index_slot in Hw by done. destruct (entries e !! i) as [e'|] eqn:E; [|done]. cbn in Hw.
      destruct (Ht i e' E) as [_ Hok].
      assert (El : is_link e' = true).
      { destruct l as [|l]; [cbn in Hw; congruence|]. cbn [walk] in Hw. by destruct (is_link e'). }
      exists i, e'. split_and!; [apply elem_of_sorted_keys; eauto|done|done|].
      apply IH; [done|done|by apply mod_slot|nia|]. split_and!; (done || lia).
Qed.

(** Different slots cover different addresses. *)
Lemma below_disjoint {l} (e : Entry (Table (S l))) base i j v x y : tables_ok (S l) e → base `mod` span (S l) = 0 → 0 ≤ base →
  (v, x) ∈ below (leaves l) e base i → (v, y) ∈ below (leaves l) e base j → i = j.
Proof.
  intros Ht Hb Hb0. unfold below. destruct (entries e !! i) as [ei|] eqn:Ei; [|by intros ?%elem_of_nil].
  destruct (is_link ei) eqn:Li; [|by intros ?%elem_of_nil]. destruct (entries e !! j) as [ej|] eqn:Ej; [|by intros _ ?%elem_of_nil].
  destruct (is_link ej) eqn:Lj; [|by intros _ ?%elem_of_nil]. destruct (Ht i ei Ei) as [? ?], (Ht j ej Ej) as [? ?]. pose proof (span_pos l).
  intros (Hv1 & _)%leaves_spec (Hv2 & _)%leaves_spec; try done; try (by apply mod_slot); nia.
Qed.

Lemma leaves_keys_NoDup l : ∀ (e : Entry (Table l)) base, tables_ok l e → base `mod` span l = 0 → 0 ≤ base →
  NoDup (leaves l e base).*1.
Proof.
  induction l as [|l IH]; intros e base Ht Hb Hb0; [apply NoDup_singleton|]. cbn [leaves].
  rewrite fmap_concat_map. apply NoDup_concat_map; [apply sorted_keys_NoDup| |].
  - intros i _. unfold below. destruct (entries e !! i) as [e'|] eqn:E; [|constructor]. destruct (is_link e'); [|constructor].
    destruct (Ht i e' E) as [Hi Hok]. pose proof (span_pos l). apply IH; [done|by apply mod_slot|nia].
  - intros i j v _ _ ([v1 x] & -> & Hx)%list_elem_of_fmap ([v2 y] & Ev & Hy)%list_elem_of_fmap. cbn in Ev. subst v2.
    by apply (below_disjoint e base i j v1 x y).
Qed.

Lemma elem_user_leaves (e : Space) v x : tables_ok 4 e → is_link e = true →
  (v, x) ∈ user_leaves e ↔ user_page v ∧ leaf e v = Some x.
Proof.
  intros Ht Hl. unfold user_leaves, user_page. rewrite elem_of_below, leaf_Some.
  pose proof (leaves_spec 4 e 0 v x Ht Hl eq_refl ltac:(lia)) as Hs. change (leaves 4 e 0) with (concat (map (below (leaves 3) e 0) (sorted_keys (entries e)))) in Hs.
  rewrite elem_of_below in Hs.
  change (span 4) with (2 ^ 48) in Hs. change (span 3) with (2 ^ 39) in *. split.
  - intros (i & e' & Hi & E & El & Hp). rewrite list_elem_of_In, filter_In, <- list_elem_of_In, Z.ltb_lt in Hi. destruct Hi as [Hi Hlt].
    destruct (proj1 Hs) as (Hv & Hv0 & Hw & Hx); [eauto 8|]. destruct (Ht i e' E) as [Hr Hok].
    apply leaves_spec in Hp as (Hv' & _); [|done|done|by apply (mod_slot 3 0 i)|lia]. change (span 3) with (2 ^ 39) in *.
    split_and!; (done || lia).
  - intros ([Hv Hv0] & Hw & Hx). destruct (proj2 Hs) as (i & e' & Hi & E & El & Hp); [split_and!; (done || lia)|].
    exists i, e'. split_and!; try done. rewrite list_elem_of_In, filter_In, <- list_elem_of_In, Z.ltb_lt. split; [done|].
    destruct (Ht i e' E) as [Hr Hok].
    apply leaves_spec in Hp as (Hv' & _); [|done|done|by apply (mod_slot 3 0 i)|lia]. change (span 3) with (2 ^ 39) in *. lia.
Qed.

Lemma user_leaves_NoDup (e : Space) : tables_ok 4 e → NoDup (user_leaves e).*1.
Proof.
  intros Ht. unfold user_leaves. rewrite fmap_concat_map. apply NoDup_concat_map.
  - apply NoDup_ListNoDup, List.NoDup_filter, NoDup_ListNoDup, sorted_keys_NoDup.
  - intros i _. unfold below. destruct (entries e !! i) as [e'|] eqn:E; [|constructor]. destruct (is_link e'); [|constructor].
    destruct (Ht i e' E) as [Hi Hok]. apply leaves_keys_NoDup; [done|by apply (mod_slot 3 0 i)|change (span 3) with (2 ^ 39); lia].
  - intros i j v _ _ ([v1 x] & -> & Hx)%list_elem_of_fmap ([v2 y] & Ev & Hy)%list_elem_of_fmap. cbn in Ev. subst v2.
    by apply (below_disjoint e 0 i j v1 x y).
Qed.

End Leaves.

(** ** A mapper on the tree *)

Section TreeMapper.
Context `{PhysFrames} {A : Type} `{!FrameAlloc A}.

(** Replace the entry of a slot. *)
Definition put {l} (e : Entry (Table (S l))) (i : Z) (e' : Entry (Table l)) : Entry (Table (S l)) :=
  mkEntry (A := Table (S l)) (e_frame e) (e_flags e) (<[i := e']> (entries e)).

Definition fresh_table (l : nat) (f : PhysFrame) : Entry (Table (S l)) := mkEntry (A := Table (S l)) f 7 ∅.

Fixpoint map_at (l : nat) (page : Z) (f : PhysFrame) (flags : Z) :
    Entry (Table (S l)) → A → result string unit * (Entry (Table (S l)) * A) :=
  match l return Entry (Table (S l)) → A → result string unit * (Entry (Table (S l)) * A) with
  | O => λ e a,
      match entries e !! index 1 page with
      | Some _ => (Err "page already mapped"%string, (e, a))
      | None => (Ok tt, (put e (index 1 page) (mkEntry (A := Table 0) f flags tt), a))
      end
  | S l' => λ e a,
      let i := index (S (S l')) page in
      match entries e !! i with
      | Some e' =>
          if is_link e' then let '(r, (e2, a2)) := map_at l' page f flags e' a in (r, (put e i e2, a2))
          else (Err "parent entry not a table"%string, (e, a))
      | None =>
          match fa_alloc a with
          | (None, a1) => (Err "frame allocation failed"%string, (e, a1))
          | (Some nf, a1) => let '(r, (e2, a2)) := map_at l' page f flags (fresh_table l' nf) a1 in (r, (put e i e2, a2))
          end
      end
  end.

Definition same_slots (l : nat) (v w : Z) : Prop := ∀ k, (k < l)%nat → index (S k) v = index (S k) w.

Lemma entries_put {l} (e : Entry (Table (S l))) i e' : entries (put e i e') = <[i := e']> (entries e).
Proof. done. Qed.

Lemma put_tables_ok l (e : Entry (Table (S l))) i e' : tables_ok (S l) e → 0 ≤ i < 512 → tables_ok l e' → tables_ok (S l) (put e i e').
Proof. intros Ht Hi He j x. rewrite entries_put. intros [[<- <-]|[_ ?]]%lookup_insert_Some; [done|by apply (Ht j)]. Qed.

(** What mapping one page below an entry does. *)
Definition mapped_spec (l : nat) (page : Z) (f : PhysFrame) (flags : Z) (e : Entry (Table (S l))) (a : A)
    (r : result string unit) (e' : Entry (Table (S l))) (a' : A) : Prop :=
  tables_ok (S l) e' ∧ is_link e' = true ∧ (∀ v, clear (S l) e v → clear (S l) e' v)
  ∧ fa_ok a' ∧ fa_free a' ⊆ fa_free a ∧ fa_total a' = fa_total a ∧ (size (fa_free a) ≤ size (fa_free a') + l)%nat
  ∧ (∀ v, same_slots (S l) v page → walk (S l) e' v = if is_ok r then Some (mkEntry (A := Table 0) f flags tt) else walk (S l) e v)
  ∧ (∀ v, ¬ same_slots (S l) v page → walk (S l) e' v = walk (S l) e v)
  ∧ (clear (S l) e page → walk (S l) e page = None → (l ≤ size (fa_free a))%nat → is_ok r = true).

Lemma walk_put l (e : Entry (Table (S l))) i e' v : is_link e = true →
  walk (S l) (put e i e') v = if bool_decide (index (S l) v = i) then walk l e' v else walk (S l) e v.
Proof.
  intros Hl. cbn [walk]. assert (Hl' : is_link (put e i e') = true) by exact Hl. rewrite Hl, Hl', entries_put.
  case_bool_decide as E; [subst i; by rewrite lookup_insert_eq|by rewrite lookup_insert_ne by congruence].
Qed.

Lemma clear_put l (e : Entry (Table (S l))) i e' v : clear (S l) e v → (index (S l) v = i → clear l e' v) → clear (S l) (put e i e') v.
Proof.
  intros [Hl Hr] He. split; [exact Hl|]. rewrite entries_put. destruct (decide (index (S l) v = i)) as [E|E].
  - rewrite E, lookup_insert_eq. auto.
  - by rewrite lookup_insert_ne by congruence.
Qed.

Lemma walk_fresh l nf v : walk (S l) (fresh_table l nf) v = None.
Proof. cbn [walk]. change (is_link (fresh_table l nf)) with true. change (entries (fresh_table l nf)) with (∅ : gmap Z (Entry (Table l))). by rewrite lookup_empty. Qed.
Lemma clear_fresh l nf v : clear (S l) (fresh_table l nf) v.
Proof. split; [done|]. change (entries (fresh_table l nf)) with (∅ : gmap Z (Entry (Table l))). by rewrite lookup_empty. Qed.

Lemma same_slots_S l v w : same_slots (S l) v w ↔ index (S l) v = index (S l) w ∧ same_slots l v w.
Proof.
  unfold same_slots. split.
  - intros Hs. split; [apply Hs; lia|]. intros k Hk. apply Hs. lia.
  - intros [Hl Hs] k Hk. destruct (decide (k = l)) as [->|]; [done|]. apply Hs. lia.
Qed.

(** One more level on top. *)
Lemma mapped_spec_put l page f flags (e : Entry (Table (S (S l)))) e0 a a1 r e2 a2 :
  tables_ok (S (S l)) e → is_link e = true → 0 ≤ page →
  (entries e !! index (S (S l)) page = Some e0 ∧ a1 = a
   ∨ entries e !! index (S (S l)) page = None ∧ (∃ nf, e0 = fresh_table l nf) ∧ fa_free a1 ⊆ fa_free a ∧ fa_total a1 = fa_total a
     ∧ (size (fa_free a) ≤ size (fa_free a1) + 1)%nat) →
  is_link e0 = true → mapped_spec l page f flags e0 a1 r e2 a2 →
  mapped_spec (S l) page f flags e a r (put e (index (S (S l)) page) e2) a2.
Proof.
  intros Ht Hl Hp Hcase Hl0 (T2 & L2 & R2 & A2 & F2 & O2 & S2 & Wsame & Wother & Rok).
  assert (Hw0 : ∀ v, index (S (S l)) v = index (S (S l)) page → walk (S (S l)) e v = walk (S l) e0 v).
  { intros v Hv. assert (Hz : walk (S (S l)) e v = entries e !! index (S (S l)) v ≫= λ e', walk (S l) e' v) by (cbn [walk]; by rewrite Hl).
    rewrite Hz, Hv. destruct Hcase as [[-> _]|(-> & [nf ->] & _)]; [done|]. cbn [mbind option_bind]. by rewrite walk_fresh. }
  assert (Hr0 : ∀ v, index (S (S l)) v = index (S (S l)) page → clear (S (S l)) e v → clear (S l) e0 v).
  { intros v Hv [_ Hr]. rewrite Hv in Hr. destruct Hcase as [[He _]|(_ & [nf ->] & _)]; [by rewrite He in Hr|apply clear_fresh]. }
  assert (Hsub : fa_free a1 ⊆ fa_free a ∧ fa_total a1 = fa_total a ∧ (size (fa_free a) ≤ size (fa_free a1) + 1)%nat)
    by (destruct Hcase as [[_ ->]|(_ & _ & ? & ? & ?)]; split_and!; (done || lia)).
  destruct Hsub as (Hfree & Htot & Hsz). unfold mapped_spec. split_and!.
  - apply put_tables_ok; [done|by apply index_range|done].
  - exact Hl.
  - intros v Hr. apply clear_put; auto.
  - done.
  - set_solver.
  - congruence.
  - lia.
  - intros v [Hi Hs]%same_slots_S. rewrite walk_put, bool_decide_eq_true_2, Hw0 by done. by apply Wsame, same_slots_S; apply same_slots_S in Hs.
  - intros v Hs. rewrite walk_put by done. case_bool_decide as E; [|done]. rewrite Hw0 by done. apply Wother. intros Hs'. apply Hs.
    apply same_slots_S. done.
  - intros Hr Hnone Hfr. apply Rok; [auto|by rewrite <- Hw0|lia].
Qed.

Lemma map_at_spec l page f flags : 0 ≤ page → contains flags PRESENT = true → contains flags HUGE_PAGE = false →
  ∀ (e : Entry (Table (S l))) a, fa_ok a → tables_ok (S l) e → is_link e = true →
  let '(r, (e', a')) := map_at l page f flags e a in mapped_spec l page f flags e a r e' a'.
Proof.
  intros Hp Hpres Hhuge. induction l as [|l IH]; intros e a Ha Ht Hl; cbn [map_at].
  - destruct (entries e !! index 1 page) as [x|] eqn:E.
    + unfold mapped_spec. split_and!; try done; [lia|]. intros _ Hnone _. cbn [walk] in Hnone. by rewrite Hl, E in Hnone.
    + unfold mapped_spec. split_and!; try done; try lia.
      * apply put_tables_ok; [done|by apply index_range|done].
      * intros v Hr. apply clear_put; [done|]. intros _. cbn [clear]. unfold is_link. cbn [e_flags]. by rewrite Hpres, Hhuge.
      * intros v [Hi _]%same_slots_S. rewrite walk_put, bool_decide_eq_true_2 by done. done.
      * intros v Hs. rewrite walk_put by done. case_bool_decide as Ei; [|done]. exfalso. apply Hs, same_slots_S. split; [done|]. intros k ?. lia.
  - destruct (entries e !! index (S (S l)) page) as [e0|] eqn:E.
    + destruct (is_link e0) eqn:L0.
      * specialize (IH e0 a Ha (proj2 (Ht _ _ E)) L0). destruct (map_at l page f flags e0 a) as [r [e2 a2]].
        eapply (mapped_spec_put l page f flags e e0 a a); eauto.
      * unfold mapped_spec. split_and!; try done; [lia|]. intros [_ Hr] _ _. rewrite E in Hr. destruct Hr as [Hr _]. congruence.
    + pose proof (fa_alloc_spec a Ha) as Hal. destruct (fa_alloc a) as [[nf|] a1].
      * destruct Hal as (Hin & Hfree & Htot & Ha1). specialize (IH (fresh_table l nf) a1 Ha1 (map_Forall_empty _) eq_refl).
        destruct (map_at l page f flags (fresh_table l nf) a1) as [r [e2 a2]].
        eapply (mapped_spec_put l page f flags e (fresh_table l nf) a a1); eauto. right. split_and!; [done|eauto|set_solver|done|].
        rewrite Hfree, size_difference by set_solver. rewrite size_singleton. lia.
      * destruct Hal as [-> Hempty]. unfold mapped_spec. split_and!; try done; [lia|]. intros _ _ Hfr.
        rewrite Hempty, size_empty in Hfr. lia.
Qed.

Lemma same_slots_user v w : user_page v → user_page w → same_slots 4 v w ↔ v = w.
Proof. intros Hv Hw. split; [by apply user_page_inj|by intros ->]. Qed.

#[export] Instance tree_mapper : Mapper A.
Proof.
  refine {| map_to page f flags e a := map_at 3 page f flags e a; translate_page page e := e_frame <$> leaf e page |}.
  - intros page f flags e a Ha Ht Hl Hp Hpres Hhuge. pose proof (map_at_spec 3 page f flags (proj1 (proj1 Hp)) Hpres Hhuge e a Ha Ht Hl) as Hs.
    destruct (map_at 3 page f flags e a) as [r [e' a']]. destruct Hs as (T & L & R & Ao & F & O & S & Ws & Wo & _). split_and!; try done.
    intros v Hv. unfold leaf. case_bool_decide as E.
    + subst v. rewrite (Ws page) by done. destruct r; [|done]. cbn. unfold is_link. cbn [e_flags]. by rewrite Hpres, Hhuge.
    + rewrite (Wo v); [by destruct r|]. by rewrite same_slots_user.
  - intros page f flags e a Ha Ht Hl Hp Hpres Hhuge Hc Hnone Hfr.
    pose proof (map_at_spec 3 page f flags (proj1 (proj1 Hp)) Hpres Hhuge e a Ha Ht Hl) as Hs.
    destruct (map_at 3 page f flags e a) as [r [e' a']]. destruct Hs as (_ & _ & _ & _ & _ & _ & _ & _ & _ & Hok). apply Hok; [done| |done].
    destruct (walk 4 e page) as [x|] eqn:E; [|done]. exfalso.
    assert (Hx : ∀ l (e : Entry (Table l)) x, clear l e page → walk l e page = Some x → is_link x = true).
    { clear. induction l as [|l IH]; intros e x Hc Hw; [by injection Hw as <-|]. destruct Hc as [Hl Hc]. cbn [walk] in Hw. rewrite Hl in Hw.
      destruct (entries e !! index (S l) page) as [e'|]; [|done]. by apply (IH e'). }
    unfold leaf in Hnone. rewrite E in Hnone. cbn [mbind option_bind] in Hnone. by rewrite (Hx 4%nat e x Hc E) in Hnone.
  - intros page e x Hp ->. eauto.
Defined.

End TreeMapper.
