(* ===== verification/Cow.v ===== *)
(** Copy-on-write fork ([kernel/src/memory/cow.rs]) and the page-fault entry
    ([handle_page_fault] of [memory/swap.rs], its copy-on-write part).

    The theorem is a simulation: seen through its page tables every address
    space has a private memory, which a fork copies and a write changes for the
    writer only, although frames are shared.  The translation cache and the
    console are left out. *)

From S2P Require Import Prelude Bits Frame Paging PagingProofs.

Section Cow.
Context `{PhysFrames} {A : Type} `{!FrameAlloc A} `{!Mapper A}.

(** ** Reference counts *)

Definition ref_inc (phys_addr : Z) (s : Mem A) : Mem A :=
  set_refs (<[phys_addr := wrap 32 (default 0 (REFCOUNTS s !! phys_addr) + 1)]> (REFCOUNTS s)) s.

Definition ref_dec (phys_addr : Z) (s : Mem A) : Z * Mem A :=
  match REFCOUNTS s !! phys_addr with
  | Some count =>
      let c := if 0 <? count then count - 1 else count in
      (c, set_refs (if c =? 0 then delete phys_addr (REFCOUNTS s) else <[phys_addr := c]> (REFCOUNTS s)) s)
  | None => (0, s)
  end.

Definition ref_count (phys_addr : Z) (s : Mem A) : Z := default 0 (REFCOUNTS s !! phys_addr).

Definition cow_stats (s : Mem A) : nat * nat :=
  (size (filter (λ kv : Z * Z, 1 < kv.2) (REFCOUNTS s)), size (REFCOUNTS s)).

(** ** Fork *)

(** [set_frame(phys, new_flags)] on a present leaf. *)
Definition with_flags (new_flags : Z) (x : Pte) : Pte :=
  if is_link x then mkEntry (A := Table 0) (e_frame x) new_flags (e_sub x) else x.

Definition update_page_flags_inplace (pml4 : PhysFrame) (page new_flags : Z) (s : Mem A) : Mem A :=
  set_spaces (alter (λ e, update 4 (with_flags new_flags) e page) (start_address pml4) (spaces s)) s.

Definition remap_page_flags (pml4 : PhysFrame) (page flags : Z) (s : Mem A) : Mem A :=
  match spaces s !! start_address pml4 ≫= translate_page page with
  | Some _ => update_page_flags_inplace pml4 page flags s
  | None => s
  end.

(** The leaf case of [cow_clone_recursive]. *)
Definition share_page (src dst : PhysFrame) (page : Z) (entry : Pte) (s : Mem A) : Mem A :=
  let phys_addr := start_address (e_frame entry) in
  let was_writable := contains (e_flags entry) WRITABLE in
  let cow_flags := if was_writable then insert_flag (remove_flag (e_flags entry) WRITABLE) BIT_9 else e_flags entry in
  let s1 := if was_writable then remap_page_flags src page cow_flags s else s in
  let s2 := (map_page dst page (e_frame entry) cow_flags s1).2 in
  let s3 := ref_inc phys_addr s2 in
  if ref_count phys_addr s3 =? 1 then ref_inc phys_addr s3 else s3.

(** The base address of the next level. *)
Definition next_base (level : nat) (l4_index vaddr_base idx : Z) : Z :=
  if (level =? 3)%nat then Z.lor (Z.shiftl l4_index 39) (Z.shiftl idx 30)
  else Z.lor vaddr_base (Z.shiftl idx (if (level =? 2)%nat then 21 else 12)).

(** Over the entries of a table in index order.  The walk changes only leaf
    flags of pages it has passed, so the table can be read once. *)
Fixpoint cow_clone_recursive (level : nat) (src dst : PhysFrame) : Entry (Table level) → Z → Z → Mem A → Mem A :=
  match level return Entry (Table level) → Z → Z → Mem A → Mem A with
  | O => λ entry _ vaddr s, share_page src dst vaddr entry s
  | S l => λ table l4_index vaddr_base s,
      foldl (λ s idx,
        match entries table !! idx with
        | Some entry =>
            if negb (contains (e_flags entry) PRESENT) then s
            else if contains (e_flags entry) HUGE_PAGE then s
            else cow_clone_recursive l src dst entry l4_index (next_base (S l) l4_index vaddr_base idx) s
        | None => s
        end) s (sorted_keys (entries table))
  end.

Definition cow_fork (cr3 src_pml4 : PhysFrame) (s : Mem A) : option PhysFrame * Mem A :=
  match create_user_page_table cr3 s with
  | (None, s1) => (None, s1)
  | (Some new_pml4, s1) =>
      match spaces s1 !! start_address src_pml4 with
      | None => (Some new_pml4, s1)
      | Some src =>
          (Some new_pml4,
           foldl (λ s i, match entries src !! i with
                         | Some l4e => if is_link l4e then cow_clone_recursive 3 src_pml4 new_pml4 l4e i 0 s else s
                         | None => s
                         end) s1 (List.filter (λ i, i <? 256) (sorted_keys (entries src))))
      end
  end.

(** ** Faults *)

(** [set_frame(f, flags)] with the leaf made writable and private. *)
Definition private (f : PhysFrame) (x : Pte) : Pte :=
  mkEntry (A := Table 0) f (remove_flag (insert_flag (e_flags x) WRITABLE) BIT_9) (e_sub x).

Definition set_pte (pml4 : PhysFrame) (addr : Z) (x : Pte) (s : Mem A) : Mem A :=
  set_spaces (alter (λ e, update 4 (λ _, x) e addr) (start_address pml4) (spaces s)) s.

Definition handle_cow_fault (pml4 : PhysFrame) (addr : Z) (s : Mem A) : bool * Mem A :=
  match spaces s !! start_address pml4 ≫= λ e, walk 4 e addr with
  | None => (false, s)
  | Some pte =>
      if negb (contains (e_flags pte) PRESENT) then (false, s)
      else if negb (contains (e_flags pte) BIT_9) then (false, s)
      else if contains (e_flags pte) HUGE_PAGE then (false, s)
      else
        let old_phys := start_address (e_frame pte) in
        if ref_count old_phys s <=? 1 then (true, set_pte pml4 addr (private (e_frame pte) pte) s)
        else match fa_alloc (falloc s) with
        | (None, a) => (false, set_alloc a s)
        | (Some new_frame, a) =>
            let s1 := set_alloc a s in
            let s2 := set_contents (<[start_address new_frame := page_data s1 (e_frame pte)]> (contents s1)) s1 in
            let s3 := set_pte pml4 addr (private new_frame pte) s2 in
            (true, (ref_dec old_phys s3).2)
        end
  end.

(** A store by the processor: through a writable leaf, or after the fault
    handler has made it writable. *)
Definition store (f : PhysFrame) (off : nat) (b : Z) (s : Mem A) : Mem A :=
  set_contents (<[start_address f := <[off := b]> (page_data s f)]> (contents s)) s.

Definition try_store (pml4 : PhysFrame) (page : Z) (off : nat) (b : Z) (s : Mem A) : option (Mem A) :=
  match spaces s !! start_address pml4 ≫= λ e, leaf e page with
  | Some x => if contains (e_flags x) WRITABLE then Some (store (e_frame x) off b s) else None
  | None => None
  end.

Definition user_store (pml4 : PhysFrame) (page : Z) (off : nat) (b : Z) (s : Mem A) : bool * Mem A :=
  match try_store pml4 page off b s with
  | Some s' => (true, s')
  | None =>
      match handle_cow_fault pml4 page s with
      | (true, s1) => match try_store pml4 page off b s1 with Some s2 => (true, s2) | None => (false, s1) end
      | (false, s1) => (false, s1)
      end
  end.

End Cow.
