(* ===== verification/CowProofs.v ===== *)
(** Copy-on-write gives every address space a private memory. *)

From S2P Require Import Prelude Bits Frame Paging PagingProofs Cow.

(** Folds over concatenations. *)
Lemma foldl_concat {X Y S} (f : S → Y → S) (g : X → list Y) l : ∀ s, foldl f s (concat (map g l)) = foldl (λ s x, foldl f s (g x)) s l.
Proof. induction l as [|x l IH]; intros s; [done|]. cbn [map concat foldl]. by rewrite foldl_app, IH. Qed.

Lemma foldl_ext_elem {X S} (f g : S → X → S) l : (∀ s x, x ∈ l → f s x = g s x) → ∀ s, foldl f s l = foldl g s l.
Proof.
  intros Hfg. induction l as [|x l IH]; intros s; [done|]. cbn [foldl]. rewrite Hfg by apply list_elem_of_here. apply IH.
  intros s' y Hy. apply Hfg. by apply list_elem_of_further.
Qed.

Section CowProofs.
Context `{PhysFrames} {A : Type} `{!FrameAlloc A} `{!Mapper A}.
Implicit Types (s : Mem A) (x : Pte).

(** ** A fork is one sharing per mapped page *)

Definition share_all (src dst : PhysFrame) (l : list (Z * Pte)) (s : Mem A) : Mem A :=
  foldl (λ s p, share_page src dst p.1 p.2 s) s l.

Lemma clone_step l src dst (e : Entry (Table (S l))) l4 base B :
  (∀ e' b s, tables_ok l e' → b `mod` span l = 0 → 0 ≤ b → cow_clone_recursive l src dst e' l4 b s = share_all src dst (leaves l e' b) s) →
  tables_ok (S l) e → B `mod` span (S l) = 0 → 0 ≤ B → (∀ i, 0 ≤ i < 512 → next_base (S l) l4 base i = B + i * span l) →
  ∀ s, cow_clone_recursive (S l) src dst e l4 base s = share_all src dst (leaves (S l) e B) s.
Proof.
  intros IH Ht HB HB0 Hnext s. cbn [cow_clone_recursive leaves]. unfold share_all. rewrite foldl_concat. apply foldl_ext_elem.
  intros s' i _. unfold below. destruct (entries e !! i) as [e'|] eqn:E; [|done]. destruct (Ht i e' E) as [Hi Hok].
  unfold is_link. destruct (contains (e_flags e') PRESENT); [|done]. destruct (contains (e_flags e') HUGE_PAGE); [done|]. cbn [negb andb].
  pose proof (span_pos l). rewrite Hnext by done. rewrite IH; [done|done|by apply mod_slot|nia].
Qed.

Lemma clone_low l src dst l4 : (l ≤ 2)%nat → ∀ (e : Entry (Table l)) b s, tables_ok l e → b `mod` span l = 0 → 0 ≤ b →
  cow_clone_recursive l src dst e l4 b s = share_all src dst (leaves l e b) s.
Proof.
  induction l as [|l IH]; intros Hl e b s Ht Hb Hb0; [done|].
  apply (clone_step l src dst e l4 b b); [intros; apply IH; (done || lia)|done..|].
  intros i Hi. rewrite <- lor_slot by done. unfold next_base. destruct l as [|[|l]]; [done|done|lia].
Qed.

Lemma cow_fork_shares cr3 src_pml4 s new s1 src : create_user_page_table cr3 s = (Some new, s1) →
  spaces s1 !! start_address src_pml4 = Some src → tables_ok 4 src →
  cow_fork cr3 src_pml4 s = (Some new, share_all src_pml4 new (user_leaves src) s1).
Proof.
  intros Hc Hsrc Ht. unfold cow_fork. rewrite Hc, Hsrc. f_equal. unfold user_leaves, share_all. rewrite foldl_concat. apply foldl_ext_elem.
  intros s' i Hi. unfold below. destruct (entries src !! i) as [e'|] eqn:E; [|done]. destruct (Ht i e' E) as [Hr Hok].
  destruct (is_link e'); [|done]. change (0 + i * span 3) with (i * span 3). change (span 3) with (2 ^ 39).
  apply (clone_step 2 src_pml4 new e' i 0 (i * 2 ^ 39)); [intros; by apply clone_low; [lia|..]|done| |lia|].
  - change (span 3) with (2 ^ 39). apply Z.mod_mul. lia.
  - intros j Hj. unfold next_base. cbn [Nat.eqb]. rewrite (Z.shiftl_mul_pow2 i 39) by lia.
    apply (lor_slot 2); [|done]. change (span 3) with (2 ^ 39). apply Z.mod_mul. lia.
Qed.

(** ** Views *)

Definition view (s : Mem A) (P v : Z) : option Pte := spaces s !! P ≫= λ e, leaf e v.

Definition cow_of (x : Pte) : Pte :=
  mkEntry (A := Table 0) (e_frame x)
    (if contains (e_flags x) WRITABLE then insert_flag (remove_flag (e_flags x) WRITABLE) BIT_9 else e_flags x) tt.

(** The flag that decides whether a process may write the page. *)
Definition allowed (x : Pte) : bool := contains (e_flags x) WRITABLE || contains (e_flags x) BIT_9.

Lemma flag_insert f b c : 0 ≤ b → contains (insert_flag f b) c = (b =? c) || contains f c.
Proof. intros Hb. unfold contains, insert_flag. by rewrite Z.setbit_eqb. Qed.
Lemma flag_remove f b c : contains (remove_flag f b) c = contains f c && negb (b =? c).
Proof. unfold contains, remove_flag. by rewrite Z.clearbit_eqb. Qed.

Lemma cow_of_flags x :
  contains (e_flags (cow_of x)) WRITABLE = false ∧ is_link (cow_of x) = is_link x ∧ allowed (cow_of x) = allowed x
  ∧ contains (e_flags (cow_of x)) PRESENT = contains (e_flags x) PRESENT
  ∧ contains (e_flags (cow_of x)) HUGE_PAGE = contains (e_flags x) HUGE_PAGE.
Proof.
  unfold cow_of, is_link, allowed. cbn [e_flags]. destruct (contains (e_flags x) WRITABLE) eqn:E; [|by rewrite E].
  rewrite !flag_insert, !flag_remove by done. cbn. rewrite ?andb_true_r, ?andb_false_r. done.
Qed.

Lemma private_flags f x :
  contains (e_flags (private f x)) WRITABLE = true ∧ is_link (private f x) = is_link x ∧ allowed (private f x) = true.
Proof.
  unfold private, is_link, allowed. cbn [e_flags]. rewrite !flag_remove, !flag_insert by done. cbn. by rewrite !andb_true_r.
Qed.

Lemma e_sub_tt x : e_sub x = tt.
Proof. by destruct (e_sub x). Qed.

Lemma cow_of_ro x : contains (e_flags x) WRITABLE = false → cow_of x = x.
Proof. intros Hw. unfold cow_of. rewrite Hw. destruct x as [f fl []]. done. Qed.

(** Well-formed memories: the tables of all spaces. *)
Record mem_ok (s : Mem A) : Prop := {
  mo_alloc : fa_ok (falloc s);
  mo_tables P e : spaces s !! P = Some e → tables_ok 4 e ∧ is_link e = true;
}.

(** A change of one leaf. *)
Lemma view_update P v f s Q w x : mem_ok s → user_page v → user_page w → view s P v = Some x → is_link (f x) = true →
  view (set_spaces (alter (λ e, update 4 f e v) P (spaces s)) s) Q w =
  if bool_decide (Q = P ∧ w = v) then Some (f x) else view s Q w.
Proof.
  intros Hm Hv Hw Hx Hf. unfold view in *. cbn [spaces set_spaces]. destruct (decide (Q = P)) as [->|HQ].
  - rewrite lookup_alter_eq. destruct (spaces s !! P) as [e|]; [|done].
    cbn [mbind option_bind fmap option_fmap option_map] in *. rewrite leaf_update by done.
    apply leaf_Some in Hx as [Hx _]. rewrite Hx. cbn [mbind option_bind]. rewrite Hf. destruct (decide (w = v)) as [->|Hwv].
    + by rewrite !bool_decide_eq_true_2.
    + rewrite !bool_decide_eq_false_2; [done|tauto|done].
  - rewrite lookup_alter_ne, bool_decide_eq_false_2 by (done || tauto). done.
Qed.

Lemma mem_ok_update P v f s : mem_ok s → mem_ok (set_spaces (alter (λ e, update 4 f e v) P (spaces s)) s).
Proof.
  intros [Ha Ht]. split; [done|]. cbn [spaces set_spaces]. intros Q e He. destruct (decide (Q = P)) as [->|HQ].
  - rewrite lookup_alter_eq in He. destruct (spaces s !! P) as [e0|] eqn:E; [|done].
    apply (inj Some) in He. rewrite <- He. destruct (Ht P e0 E).
    split; [by apply tables_ok_update|by rewrite is_link_update].
  - rewrite lookup_alter_ne in He by done. by apply (Ht Q).
Qed.

Lemma map_page_view C page f flags s e : mem_ok s → spaces s !! start_address C = Some e → user_page page →
  contains flags PRESENT = true → contains flags HUGE_PAGE = false →
  let '(r, s') := map_page C page f flags s in
  (∀ Q w, user_page w → view s' Q w = if bool_decide (Q = start_address C ∧ w = page) && is_ok r
                                      then Some (mkEntry (A := Table 0) f flags tt) else view s Q w)
  ∧ mem_ok s' ∧ dom (spaces s') = dom (spaces s) ∧ contents s' = contents s ∧ REFCOUNTS s' = REFCOUNTS s
  ∧ fa_free (falloc s') ⊆ fa_free (falloc s) ∧ (size (fa_free (falloc s)) ≤ size (fa_free (falloc s')) + 3)%nat
  ∧ (∀ Q e1, spaces s !! Q = Some e1 → ∃ e2, spaces s' !! Q = Some e2 ∧ ∀ v, clear 4 e1 v → clear 4 e2 v)
  ∧ (clear 4 e page → leaf e page = None → (3 ≤ size (fa_free (falloc s)))%nat → is_ok r = true).
Proof.
  intros [Ha Ht] He Hp Hpres Hhuge. unfold map_page. rewrite He. destruct (Ht _ _ He) as [Hte Hle].
  pose proof (map_to_spec page f flags e (falloc s) Ha Hte Hle Hp Hpres Hhuge) as Hs.
  pose proof (map_to_ok page f flags e (falloc s) Ha Hte Hle Hp Hpres Hhuge) as Hok.
  destruct (map_to page f flags e (falloc s)) as [r [e' a']]. destruct Hs as (Hv & Ht' & Hl' & Hc & Ha' & Hf & _ & Hsz).
  cbn [spaces contents REFCOUNTS falloc set_spaces set_alloc] in *. split_and!; try done.
  - intros Q w Hw. unfold view. cbn [spaces set_spaces set_alloc]. destruct (decide (Q = start_address C)) as [->|HQ].
    + rewrite lookup_insert_eq, He. cbn [mbind option_bind]. rewrite (Hv w Hw). destruct (decide (w = page)) as [->|Hne].
      * rewrite !bool_decide_eq_true_2 by done. by destruct r.
      * rewrite !bool_decide_eq_false_2 by (done || tauto). by destruct r.
    + rewrite lookup_insert_ne, bool_decide_eq_false_2 by (done || tauto). done.
  - split; [done|]. cbn [spaces set_spaces set_alloc]. intros Q e1 [[<- <-]|[_ ?]]%lookup_insert_Some; [done|by apply (Ht Q)].
  - apply dom_insert_lookup_L. eauto.
  - intros Q e1 HQ. destruct (decide (Q = start_address C)) as [->|Hne].
    + exists e'. rewrite lookup_insert_eq. split; [done|]. intros v. assert (e1 = e) as -> by congruence. apply Hc.
    + exists e1. by rewrite lookup_insert_ne.
Qed.

(** ** Counts *)

Definition bump (r : Z) : Z := if r =? 0 then 2 else r + 1.

Lemma ref_count_inc a b s : ref_count b (ref_inc a s) = if bool_decide (b = a) then wrap 32 (ref_count a s + 1) else ref_count b s.
Proof.
  unfold ref_count, ref_inc. cbn [REFCOUNTS set_refs]. case_bool_decide as E; [subst; by rewrite lookup_insert_eq|by rewrite lookup_insert_ne].
Qed.

(** The counting at the end of a sharing. *)
Lemma share_counts a b s : 0 ≤ ref_count a s → ref_count a s + 2 < 2 ^ 32 →
  let s3 := ref_inc a s in
  ref_count b (if ref_count a s3 =? 1 then ref_inc a s3 else s3) = if bool_decide (b = a) then bump (ref_count a s) else ref_count b s.
Proof.
  intros H0 Hroom. cbv zeta. rewrite (ref_count_inc a a), bool_decide_eq_true_2, wrap_id by (done || split; lia). unfold bump.
  destruct (Z.eqb_spec (ref_count a s) 0) as [E|E].
  - rewrite E. change (0 + 1 =? 1) with true. cbv iota. rewrite !ref_count_inc. case_bool_decide; [|done]. rewrite bool_decide_eq_true_2, E by done. done.
  - rewrite (proj2 (Z.eqb_neq _ 1)) by lia. rewrite ref_count_inc. case_bool_decide; [|done]. apply wrap_id. split; lia.
Qed.

(** ** Sharing one page *)

Record shared (P C v : Z) (x : Pte) (ok : bool) (s s' : Mem A) : Prop := {
  sh_view Q w : user_page w → view s' Q w =
    if bool_decide (Q = P ∧ w = v) || bool_decide (Q = C ∧ w = v) && ok then Some (cow_of x) else view s Q w;
  sh_ok : mem_ok s';
  sh_dom : dom (spaces s') = dom (spaces s);
  sh_contents : contents s' = contents s;
  sh_count b : ref_count b s' = if bool_decide (b = start_address (e_frame x)) then bump (ref_count b s) else ref_count b s;
  sh_free : fa_free (falloc s') ⊆ fa_free (falloc s);
  sh_size : (size (fa_free (falloc s)) ≤ size (fa_free (falloc s')) + 3)%nat;
  sh_clear e1 : spaces s !! C = Some e1 → ∃ e2, spaces s' !! C = Some e2 ∧ ∀ w, clear 4 e1 w → clear 4 e2 w;
  sh_done e1 : spaces s !! C = Some e1 → clear 4 e1 v → view s C v = None → (3 ≤ size (fa_free (falloc s)))%nat → ok = true;
}.

Lemma share_page_spec Pf Cf v x s : mem_ok s → start_address Pf ≠ start_address Cf → user_page v →
  view s (start_address Pf) v = Some x → is_Some (spaces s !! start_address Cf) →
  0 ≤ ref_count (start_address (e_frame x)) s → ref_count (start_address (e_frame x)) s + 2 < 2 ^ 32 →
  ∃ ok, shared (start_address Pf) (start_address Cf) v x ok s (share_page Pf Cf v x s).
Proof.
  intros Hm Hne Hv Hx [eC HC] H0 Hroom. unfold share_page.
  set (P := start_address Pf) in *. set (C := start_address Cf) in *. set (a := start_address (e_frame x)) in *.
  set (fl := if contains (e_flags x) WRITABLE then insert_flag (remove_flag (e_flags x) WRITABLE) BIT_9 else e_flags x).
  assert (Hlink : is_link x = true) by (unfold view in Hx; destruct (spaces s !! P); [by apply leaf_Some in Hx as [_ ?]|done]).
  destruct (cow_of_flags x) as (_ & Hlx & _ & Hpx & Hhx). change (e_flags (cow_of x)) with fl in *.
  assert (Hpres : contains fl PRESENT = true) by (rewrite Hpx; by apply andb_prop in Hlink as [? _]).
  assert (Hhuge : contains fl HUGE_PAGE = false) by (rewrite Hhx; apply andb_prop in Hlink as [_ E]; by apply negb_true_iff in E).
  set (s1 := if contains (e_flags x) WRITABLE then remap_page_flags Pf v fl s else s).
  assert (H1 : (∀ Q w, user_page w → view s1 Q w = if bool_decide (Q = P ∧ w = v) then Some (cow_of x) else view s Q w)
    ∧ mem_ok s1 ∧ dom (spaces s1) = dom (spaces s) ∧ contents s1 = contents s ∧ REFCOUNTS s1 = REFCOUNTS s ∧ falloc s1 = falloc s
    ∧ spaces s1 !! C = spaces s !! C).
  { assert (Hcx : with_flags fl x = cow_of x) by (unfold with_flags, cow_of; rewrite Hlink, e_sub_tt; done).
    unfold s1. destruct (contains (e_flags x) WRITABLE) eqn:Hw.
    - unfold remap_page_flags. fold P. pose proof Hx as Hx'. unfold view in Hx'. destruct (spaces s !! P) as [eP|] eqn:HP; [|done].
      cbn [mbind option_bind] in Hx' |- *. destruct (translate_mapped v eP x Hv Hx') as [y ->]. unfold update_page_flags_inplace. fold P.
      split_and!; try done.
      + intros Q w Hw'. rewrite (view_update P v _ s Q w x Hm Hv Hw' Hx) by (rewrite Hcx, Hlx; done). by rewrite Hcx.
      + by apply mem_ok_update.
      + cbn [spaces set_spaces]. apply dom_alter_L.
      + cbn [spaces set_spaces]. by rewrite lookup_alter_ne.
    - split_and!; try done. intros Q w _. case_bool_decide as E; [|done]. destruct E as [-> ->]. by rewrite Hx, (cow_of_ro x Hw). }
  destruct H1 as (V1 & M1 & D1 & C1 & R1 & A1 & SC1).
  assert (HC1 : spaces s1 !! C = Some eC) by congruence.
  pose proof (map_page_view Cf v (e_frame x) fl s1 eC M1 HC1 Hv Hpres Hhuge) as Hmp.
  destruct (map_page Cf v (e_frame x) fl s1) as [r s2]. destruct Hmp as (V2 & M2 & D2 & C2 & R2 & F2 & S2 & K2 & Ok2). cbn [snd].
  set (s4 := if ref_count a (ref_inc a s2) =? 1 then ref_inc a (ref_inc a s2) else ref_inc a s2).
  assert (E4 : spaces s4 = spaces s2 ∧ contents s4 = contents s2 ∧ falloc s4 = falloc s2) by (unfold s4; by destruct (_ =? 1)).
  destruct E4 as (E4s & E4c & E4a).
  assert (Hrc : ∀ b, ref_count b s2 = ref_count b s) by (intros b; unfold ref_count; by rewrite R2, R1).
  exists (is_ok r). split.
  - intros Q w Hw. assert (Hv4 : view s4 Q w = view s2 Q w) by (unfold view; by rewrite E4s). rewrite Hv4, V2, V1 by done.
    fold C. destruct (bool_decide (Q = C ∧ w = v)), (is_ok r), (bool_decide (Q = P ∧ w = v)); done.
  - destruct M2 as [Ma Mt]. split; [by rewrite E4a|]. intros Q e1. rewrite E4s. apply Mt.
  - by rewrite E4s, D2, D1.
  - by rewrite E4c, C2, C1.
  - intros b. unfold s4. rewrite (share_counts a b s2) by (rewrite Hrc; done). rewrite !Hrc. fold a. destruct (decide (b = a)) as [->|];
      [by rewrite bool_decide_eq_true_2|by rewrite bool_decide_eq_false_2].
  - by rewrite E4a, <- A1.
  - rewrite E4a. rewrite <- A1. lia.
  - intros e1 He1. rewrite E4s. apply K2. congruence.
  - intros e1 He1 Hcl Hnone Hfr. assert (e1 = eC) as -> by congruence. apply Ok2; [done| |by rewrite A1].
    unfold view in Hnone. by rewrite HC in Hnone.
Qed.

(** ** The invariant *)

(** The page [p.2] of the space [p.1] is mapped to the frame at [a]. *)
Definition maps (s : Mem A) (a : Z) (p : Z * Z) : Prop :=
  user_page p.2 ∧ ∃ x, view s p.1 p.2 = Some x ∧ start_address (e_frame x) = a.

(** Frame numbers of mapped pages and of level-4 tables are not free, a
    writable page shares its frame with no other page, and a count above one
    bounds the number of pages of its frame. *)
Record cow_inv (s : Mem A) : Prop := {
  ci_ok : mem_ok s;
  ci_roots P : is_Some (spaces s !! P) → P `div` FRAME_SIZE ∉ fa_free (falloc s);
  ci_used P v x : user_page v → view s P v = Some x → frame_no (e_frame x) ∉ fa_free (falloc s);
  ci_private P v x Q w y : user_page v → user_page w → view s P v = Some x → contains (e_flags x) WRITABLE = true →
    view s Q w = Some y → start_address (e_frame y) = start_address (e_frame x) → Q = P ∧ w = v;
  ci_nonneg a : 0 ≤ ref_count a s;
  ci_count a l : NoDup l → Forall (maps s a) l → Z.of_nat (length l) ≤ Z.max 1 (ref_count a s);
}.

Lemma length_filter_ne (l : list (Z * Z)) p : NoDup l → (length l ≤ length (filter (λ q, q ≠ p) l) + 1)%nat.
Proof.
  induction 1 as [|q l Hq Hl IH]; [simpl; lia|]. rewrite filter_cons. destruct (decide (q ≠ p)) as [Hne|Heq]; cbn [length].
  - lia.
  - assert (q = p) as -> by (destruct (decide (q = p)); tauto).
    assert (E : filter (λ q, q ≠ p) l = l); [|rewrite E; lia]. clear -Hq. induction l as [|r l IH]; [done|].
    rewrite filter_cons_True by set_solver. f_equal. apply IH. set_solver.
Qed.

(** Sharing keeps the invariant. *)
Lemma shared_inv P C v x ok s s' : cow_inv s → user_page v → view s P v = Some x → shared P C v x ok s s' → cow_inv s'.
Proof.
  intros [Hok Hroot Hused Hpriv Hnn Hcnt] Hv Hx [Sv So Sd Sc Sr Sf _ _ _]. destruct (cow_of_flags x) as (Hro & _).
  assert (Hold : ∀ Q w y, user_page w → view s' Q w = Some y →
    (y = cow_of x ∧ w = v ∧ (Q = P ∨ Q = C)) ∨ view s Q w = Some y).
  { intros Q w y Hw. rewrite Sv by done. destruct (bool_decide (Q = P ∧ w = v)) eqn:E1; cbn [orb].
    - apply bool_decide_eq_true in E1 as [-> ->]. intros [= <-]. auto.
    - destruct (bool_decide (Q = C ∧ w = v)) eqn:E2; cbn [andb]; [|auto]. apply bool_decide_eq_true in E2 as [-> ->].
      destruct ok; [|auto]. intros [= <-]. auto. }
  split; try done.
  - intros Q HQ Hin. apply (Hroot Q); [|by apply Sf]. apply elem_of_dom. rewrite <- Sd. by apply elem_of_dom.
  - intros Q w y Hw Hy Hin. apply Sf in Hin. destruct (Hold Q w y Hw Hy) as [(-> & _)|Hy']; [|by apply (Hused Q w y)].
    by apply (Hused P v x).
  - intros Q w y R u z Hw Hu Hy HW Hz Hyz. destruct (Hold Q w y Hw Hy) as [(-> & _)|Hy']; [by rewrite Hro in HW|].
    destruct (Hold R u z Hu Hz) as [(-> & -> & _)|Hz']; [|by apply (Hpriv Q w y R u z)].
    (* the frame of [x] is the frame of the writable [y], so [y] is [x] *)
    destruct (Hpriv Q w y P v x Hw Hv Hy' HW Hx Hyz) as [-> ->]. exfalso.
    rewrite (Sv Q w) in Hy by done. rewrite (bool_decide_eq_true_2 (Q = Q ∧ w = w)) in Hy by done. cbn [orb] in Hy.
    assert (y = cow_of x) as -> by congruence. by rewrite Hro in HW.
  - intros a. rewrite Sr. case_bool_decide; [|done]. unfold bump. specialize (Hnn a). destruct (_ =? 0); lia.
  - intros a l Hl Hm. rewrite Sr. case_bool_decide as E.
    + set (l0 := filter (λ q, q ≠ (C, v)) l). assert (Hl0 : Forall (maps s a) l0).
      { apply Forall_forall. intros [Q w] Hq. apply list_elem_of_filter in Hq as [Hne Hq]. rewrite Forall_forall in Hm.
        destruct (Hm _ Hq) as (Hw & y & Hy & Hya). cbn [fst snd] in *. split; [done|]. destruct (Hold Q w y Hw Hy) as [(-> & -> & [->| ->])|Hy'].
        - exists x. done.
        - done.
        - eauto. }
      specialize (Hcnt a l0 (NoDup_filter _ l Hl) Hl0). pose proof (length_filter_ne l (C, v) Hl) as Hlen. fold l0 in Hlen.
      specialize (Hnn a). unfold bump. destruct (Z.eqb_spec (ref_count a s) 0); lia.
    + apply Hcnt; [done|]. eapply Forall_impl; [exact Hm|]. intros [Q w] (Hw & y & Hy & Hya). cbn [fst snd] in *. split; [done|].
      destruct (Hold Q w y Hw Hy) as [(-> & _)|Hy']; [by rewrite <- Hya in E|eauto].
Qed.

(** What a process can see: the contents of its pages and whether it may write. *)
Definition seen (s : Mem A) (P v : Z) : option (list Z * bool) := (λ x, (page_data s (e_frame x), allowed x)) <$> view s P v.

Lemma shared_seen P C v x ok s s' Q w : shared P C v x ok s s' → view s P v = Some x → user_page w →
  seen s' Q w = if bool_decide (Q = C ∧ w = v) && ok then seen s P v else seen s Q w.
Proof.
  intros [Sv _ _ Sc _ _ _ _ _] Hx Hw. unfold seen. rewrite Sv by done. destruct (cow_of_flags x) as (_ & _ & Hal & _).
  assert (Hd : ∀ f, page_data s' f = page_data s f) by (intros f; unfold page_data; by rewrite Sc).
  destruct (bool_decide (Q = P ∧ w = v)) eqn:E1; cbn [orb].
  - apply bool_decide_eq_true in E1 as [-> ->]. cbn. rewrite Hal, Hd. rewrite Hx. by destruct (_ && _).
  - destruct (bool_decide (Q = C ∧ w = v) && ok); cbn; [by rewrite Hal, Hd, Hx|]. destruct (view s Q w); cbn; [by rewrite Hd|done].
Qed.

(** ** Sharing all pages *)

Record all_shared (P C : Z) (l : list (Z * Pte)) (s s' : Mem A) : Prop := {
  as_inv : cow_inv s';
  as_dom : dom (spaces s') = dom (spaces s);
  as_other Q w : user_page w → Q ≠ C ∨ w ∉ l.*1 → seen s' Q w = seen s Q w;
  as_child w : user_page w → w ∈ l.*1 → seen s' C w = seen s P w ∨ seen s' C w = seen s C w;
  as_done eC : spaces s !! C = Some eC → (∀ w, user_page w → clear 4 eC w) → (∀ w, w ∈ l.*1 → view s C w = None) →
    (3 * length l ≤ size (fa_free (falloc s)))%nat → ∀ w, user_page w → w ∈ l.*1 → seen s' C w = seen s P w;
}.

Lemma share_all_spec Pf Cf l : start_address Pf ≠ start_address Cf → ∀ s, cow_inv s → is_Some (spaces s !! start_address Cf) →
  NoDup l.*1 → (∀ v x, (v, x) ∈ l → user_page v ∧ view s (start_address Pf) v = Some x) →
  (∀ a, ref_count a s + 2 * Z.of_nat (length l) < 2 ^ 32) →
  all_shared (start_address Pf) (start_address Cf) l s (share_all Pf Cf l s).
Proof.
  intros Hne. set (P := start_address Pf) in *. set (C := start_address Cf) in *.
  induction l as [|[v x] l IH]; intros s Hinv HC Hnd Hl Hroom.
  { split; try done; [by intros w _ ?%elem_of_nil|by intros eC _ _ _ _ w _ ?%elem_of_nil]. }
  cbn [fmap list_fmap fst] in Hnd. apply NoDup_cons in Hnd as [Hv Hnd]. destruct (Hl v x (list_elem_of_here _ _)) as [Hvp Hx].
  destruct (share_page_spec Pf Cf v x s) as [ok Hsh]; [by apply Hinv|done|done|done|done|apply ci_nonneg, Hinv|
    specialize (Hroom (start_address (e_frame x))); cbn [length] in Hroom; lia|].
  fold P C in Hsh. set (s1 := share_page Pf Cf v x s) in *. pose proof (shared_inv P C v x ok s s1 Hinv Hvp Hx Hsh) as Hinv1.
  assert (Hview : ∀ Q w, user_page w → w ≠ v → view s1 Q w = view s Q w).
  { intros Q w Hw Hwv. rewrite (sh_view _ _ _ _ _ _ _ Hsh) by done. by rewrite !bool_decide_eq_false_2 by tauto. }
  assert (Hlne : ∀ w y, (w, y) ∈ l → w ≠ v).
  { intros w y Hwy ->. apply Hv. apply list_elem_of_fmap. by exists (v, y). }
  destruct (IH s1 Hinv1) as [I1 D1 O1 C1 N1].
  { apply elem_of_dom. rewrite (sh_dom _ _ _ _ _ _ _ Hsh). by apply elem_of_dom. }
  { done. }
  { intros w y Hwy. destruct (Hl w y) as [Hw Hwv]; [by apply list_elem_of_further|]. split; [done|].
    rewrite Hview; [done|done|by apply (Hlne w y)]. }
  { intros a. rewrite (sh_count _ _ _ _ _ _ _ Hsh). specialize (Hroom a). cbn [length] in Hroom. case_bool_decide; [|lia].
    unfold bump. destruct (Z.eqb_spec (ref_count a s) 0); lia. }
  change (share_all Pf Cf ((v, x) :: l) s) with (share_all Pf Cf l s1). set (s' := share_all Pf Cf l s1) in *.
  assert (Hseen : ∀ Q w, user_page w → seen s1 Q w = if bool_decide (Q = C ∧ w = v) && ok then seen s P v else seen s Q w)
    by (intros; by apply (shared_seen P C v x ok s s1)).
  assert (HsP : ∀ w, user_page w → seen s1 P w = seen s P w).
  { intros w Hw. rewrite Hseen by done. by rewrite bool_decide_eq_false_2 by tauto. }
  split; [done| | | |].
  - by rewrite D1, (sh_dom _ _ _ _ _ _ _ Hsh).
  - intros Q w Hw Hor. cbn [fmap list_fmap fst] in Hor. rewrite not_elem_of_cons in Hor. rewrite O1 by tauto.
    rewrite Hseen by done. rewrite bool_decide_eq_false_2 by tauto. done.
  - intros w Hw. cbn [fmap list_fmap fst]. intros [->|Hin]%elem_of_cons.
    + rewrite (O1 C v) by auto. rewrite Hseen by done. destruct (_ && ok); auto.
    + destruct (C1 w Hw Hin) as [E|E]; rewrite E; [by left; apply HsP|right].
      rewrite Hseen by done. rewrite bool_decide_eq_false_2; [done|]. intros [_ ->]. done.
  - intros eC HeC Hcl Hnone Hfr w Hw. cbn [fmap list_fmap fst length] in *. intros [->|Hin]%elem_of_cons.
    + rewrite (O1 C v) by auto. rewrite Hseen, bool_decide_eq_true_2 by done.
      rewrite (sh_done _ _ _ _ _ _ _ Hsh eC HeC (Hcl v Hvp)); [done|apply Hnone, list_elem_of_here|lia].
    + destruct (sh_clear _ _ _ _ _ _ _ Hsh eC HeC) as (e2 & He2 & Hcl2). rewrite (N1 e2 He2); [by apply HsP| | | |done|done].
      * intros u Hu. by apply Hcl2, Hcl.
      * intros u Hu. apply list_elem_of_fmap in Hu as Hu'. destruct Hu' as ([u' y] & -> & Huy). cbn [fst] in *.
        destruct (Hl u' y) as [Hu' _]; [by apply list_elem_of_further|]. rewrite Hview; [|done|by apply (Hlne u' y)].
        apply Hnone. by apply list_elem_of_further.
      * pose proof (sh_size _ _ _ _ _ _ _ Hsh). lia.
Qed.

(** ** A new address space *)

Lemma index4_user v : user_page v → index 4 v < 256.
Proof.
  intros [Hv _]. rewrite (index_div 3) by lia. change (span 3) with (2 ^ 39).
  assert (Hd : 0 ≤ v `div` 2 ^ 39 < 256) by (split; [apply Z.div_pos; lia|apply Z.div_lt_upper_bound; lia]).
  rewrite Z.mod_small; lia.
Qed.

Lemma create_spec cr3 s new s1 : cow_inv s → create_user_page_table cr3 s = (Some new, s1) →
  spaces s !! start_address new = None
  ∧ (∀ Q, Q ≠ start_address new → spaces s1 !! Q = spaces s !! Q)
  ∧ (∃ eC, spaces s1 !! start_address new = Some eC ∧ ∀ w, user_page w → clear 4 eC w ∧ leaf eC w = None)
  ∧ cow_inv s1 ∧ contents s1 = contents s ∧ REFCOUNTS s1 = REFCOUNTS s
  ∧ (size (fa_free (falloc s)) = size (fa_free (falloc s1)) + 1)%nat.
Proof.
  intros [[Ha Ht] Hroot Hused Hpriv Hnn Hcnt]. unfold create_user_page_table. pose proof (fa_alloc_spec (falloc s) Ha) as Hal.
  destruct (fa_alloc (falloc s)) as [[f|] a]; [|done]. destruct Hal as (Hin & Hfree & _ & Ha'). intros [= -> <-].
  set (kernel := match spaces s !! start_address cr3 with Some e => entries e | None => ∅ end).
  set (eC := mkEntry (A := Table 4) new 1 (filter (λ '(i, _), 256 ≤ i) kernel)). cbn [spaces contents REFCOUNTS falloc set_spaces set_alloc].
  assert (Hno : spaces s !! start_address new = None).
  { destruct (spaces s !! start_address new) as [e|] eqn:E; [|done]. exfalso. apply (Hroot (start_address new)); [eauto|exact Hin]. }
  assert (HeC : ∀ w, user_page w → clear 4 eC w ∧ leaf eC w = None).
  { intros w Hw. pose proof (index4_user w Hw). assert (E : entries eC !! index 4 w = None).
    { unfold entries, eC. cbn [e_sub]. apply map_lookup_filter_None. right. intros e _. lia. }
    assert (El : is_link eC = true) by done.
    split; [split; [done|]; by rewrite E|]. unfold leaf. change (walk 4 eC w) with (if is_link eC then entries eC !! index 4 w ≫= λ e', walk 3 e' w else None). by rewrite El, E. }
  assert (Hview : ∀ Q w, user_page w → view (set_spaces (<[start_address new := eC]> (spaces s)) (set_alloc a s)) Q w = view s Q w).
  { intros Q w Hw. unfold view. cbn [spaces set_spaces]. destruct (decide (Q = start_address new)) as [->|HQ].
    - rewrite lookup_insert_eq, Hno. cbn [mbind option_bind]. by apply HeC.
    - by rewrite lookup_insert_ne. }
  split_and!; try done.
  - intros Q HQ. by rewrite lookup_insert_ne.
  - exists eC. by rewrite lookup_insert_eq.
  - split.
    + split; [done|]. cbn [spaces set_spaces set_alloc]. intros Q e [[<- <-]|[_ ?]]%lookup_insert_Some; [|by apply (Ht Q)]. split; [|done].
      intros j e' Hj. unfold entries, eC in Hj. cbn [e_sub] in Hj. apply map_lookup_filter_Some in Hj as [Hj _]. unfold kernel in Hj.
      destruct (spaces s !! start_address cr3) as [ek|] eqn:Ek; [|done]. exact (proj1 (Ht _ _ Ek) j e' Hj).
    + cbn [spaces set_spaces set_alloc falloc]. rewrite Hfree. intros Q [e [[<- <-]|[_ HQ]]%lookup_insert_Some].
      * change (start_address new `div` FRAME_SIZE) with (frame_no new). by intros [_ ?%not_elem_of_singleton]%elem_of_difference.
      * intros [Hq _]%elem_of_difference. apply (Hroot Q); eauto.
    + intros Q w y Hw Hy. rewrite Hview in Hy by done. cbn [falloc set_spaces set_alloc]. rewrite Hfree. intros [Hq _]%elem_of_difference.
      by apply (Hused Q w y).
    + intros Q w y R u z Hw Hu. rewrite !Hview by done. by apply Hpriv.
    + exact Hnn.
    + intros b l Hl Hm. apply Hcnt; [done|]. eapply Forall_impl; [exact Hm|]. intros [Q w] (Hw & y & Hy & Hb). cbn [fst snd] in *.
      split; [done|]. exists y. by rewrite Hview in Hy.
  - rewrite Hfree. pose proof (size_remove (fa_free (falloc s)) (frame_no new) Hin). lia.
Qed.

(** ** Fork *)

(** Without assumptions on resources, the child gets each page or misses it. *)
Lemma cow_fork_spec cr3 Pf Cf s s' src : cow_inv s → spaces s !! start_address Pf = Some src →
  (∀ a, ref_count a s + 2 * Z.of_nat (length (user_leaves src)) < 2 ^ 32) → cow_fork cr3 Pf s = (Some Cf, s') →
  let P := start_address Pf in let C := start_address Cf in
  cow_inv s' ∧ spaces s !! C = None ∧ is_Some (spaces s' !! C)
  ∧ (∀ Q w, user_page w → Q ≠ C → seen s' Q w = seen s Q w)
  ∧ (∀ w, user_page w → seen s' C w = seen s P w ∨ seen s' C w = None)
  ∧ ((3 * length (user_leaves src) + 1 ≤ size (fa_free (falloc s)))%nat → ∀ w, user_page w → seen s' C w = seen s P w).
Proof.
  intros Hinv Hsrc Hroom Hfork. cbv zeta. destruct (create_user_page_table cr3 s) as [[new|] s1] eqn:Hc.
  2:{ unfold cow_fork in Hfork. by rewrite Hc in Hfork. }
  destruct (create_spec cr3 s new s1 Hinv Hc) as (Hno & Hkeep & (eC & HeC & Hclear) & Hinv1 & Hcont & Href & Hsz).
  destruct (mo_tables _ (ci_ok _ Hinv) _ _ Hsrc) as [Hts Hls].
  assert (Hne : start_address Pf ≠ start_address new) by congruence.
  assert (Hsrc1 : spaces s1 !! start_address Pf = Some src) by (by rewrite Hkeep).
  rewrite (cow_fork_shares cr3 Pf s new s1 src Hc Hsrc1 Hts) in Hfork. injection Hfork as <- <-.
  assert (Hseen1 : ∀ Q w, user_page w → seen s1 Q w = seen s Q w).
  { intros Q w Hw. unfold seen, view, page_data. rewrite Hcont. destruct (decide (Q = start_address new)) as [->|HQ]; [|by rewrite Hkeep].
    rewrite HeC, Hno. cbn [mbind option_bind]. by rewrite (proj2 (Hclear w Hw)). }
  assert (HsC : ∀ w, user_page w → seen s1 (start_address new) w = None).
  { intros w Hw. rewrite Hseen1 by done. unfold seen, view. by rewrite Hno. }
  pose proof (elem_user_leaves src) as Hul.
  destruct (share_all_spec Pf new (user_leaves src) Hne s1 Hinv1) as [I D O Ch N].
  { eauto. }
  { by apply user_leaves_NoDup. }
  { intros v x Hvx. apply Hul in Hvx as [Hv Hx]; [|done|done]. split; [done|]. unfold view. by rewrite Hsrc1. }
  { intros a. unfold ref_count. rewrite Href. apply Hroom. }
  set (s' := share_all Pf new (user_leaves src) s1) in *.
  assert (Hin : ∀ w, user_page w → w ∈ (user_leaves src).*1 ∨ seen s (start_address Pf) w = None).
  { intros w Hw. unfold seen, view. rewrite Hsrc. cbn [mbind option_bind]. destruct (leaf src w) as [x|] eqn:E; [|by right].
    left. apply list_elem_of_fmap. exists (w, x). split; [done|]. by apply Hul. }
  split_and!; try done.
  - apply elem_of_dom. rewrite D. apply elem_of_dom. eauto.
  - intros Q w Hw HQ. by rewrite O, Hseen1 by auto.
  - intros w Hw. destruct (decide (w ∈ (user_leaves src).*1)) as [Hi|Hi].
    + destruct (Ch w Hw Hi) as [E|E]; rewrite E, ?HsC, ?Hseen1 by done; auto.
    + right. rewrite O, HsC by auto. done.
  - intros Hfr w Hw. destruct (decide (w ∈ (user_leaves src).*1)) as [Hi|Hi].
    + rewrite (N eC HeC); [by apply Hseen1|by intros u Hu; apply Hclear| |lia|done|done].
      intros u Hu. apply list_elem_of_fmap in Hu as ([u' x] & -> & Hux). apply Hul in Hux as [Hu' _]; [|done|done].
      unfold view. rewrite HeC. cbn [mbind option_bind fst]. by apply Hclear.
    + destruct (Hin w Hw) as [?|E]; [done|]. rewrite O, HsC, E by auto. done.
Qed.

(** ** Faults and stores *)

Lemma view_set_pte Pf v x y s : mem_ok s → user_page v → view s (start_address Pf) v = Some x → is_link y = true →
  ∀ Q w, user_page w → view (set_pte Pf v y s) Q w = if bool_decide (Q = start_address Pf ∧ w = v) then Some y else view s Q w.
Proof. intros Hm Hv Hx Hy Q w Hw. exact (view_update (start_address Pf) v (λ _, y) s Q w x Hm Hv Hw Hx Hy). Qed.

(** The sole owner of a frame gets it back writable. *)
Lemma fault_reclaims Pf v x s : cow_inv s → user_page v → view s (start_address Pf) v = Some x →
  ref_count (start_address (e_frame x)) s ≤ 1 → cow_inv (set_pte Pf v (private (e_frame x) x) s).
Proof.
  intros [Hok Hroot Hused Hpriv Hnn Hcnt] Hv Hx Hrc. set (P := start_address Pf) in *. set (y := private (e_frame x) x).
  assert (Hlx : is_link x = true) by (unfold view in Hx; destruct (spaces s !! P); [by apply leaf_Some in Hx as [_ ?]|done]).
  destruct (private_flags (e_frame x) x) as (Hyw & Hyl & _).
  pose proof (view_set_pte Pf v x y s Hok Hv Hx ltac:(unfold y; by rewrite Hyl)) as Hview. fold P in Hview.
  assert (Hsole : ∀ Q w z, user_page w → view s Q w = Some z → start_address (e_frame z) = start_address (e_frame x) → Q = P ∧ w = v).
  { intros Q w z Hw Hz Hzx. destruct (decide ((Q, w) = (P, v))) as [E|E]; [by injection E|]. exfalso.
    specialize (Hcnt (start_address (e_frame x)) [(Q, w); (P, v)]). cbn [length] in Hcnt.
    enough (Z.of_nat 2 ≤ Z.max 1 (ref_count (start_address (e_frame x)) s)) by lia. apply Hcnt.
    - apply NoDup_cons. split; [by rewrite list_elem_of_singleton|apply NoDup_singleton].
    - apply Forall_cons. split; [|apply Forall_singleton]; (split; [done|]; cbn [fst snd]; eauto). }
  assert (Hback : ∀ Q w z, user_page w → view (set_pte Pf v y s) Q w = Some z →
    ∃ z0, view s Q w = Some z0 ∧ e_frame z0 = e_frame z ∧ (z0 = z ∨ (Q = P ∧ w = v))).
  { intros Q w z Hw. rewrite Hview by done. case_bool_decide as E; [|intros; exists z; auto]. destruct E as [-> ->]. intros [= <-]. exists x. auto. }
  split.
  - by apply mem_ok_update.
  - intros Q HQ. apply Hroot. cbn [set_pte set_spaces spaces] in HQ. fold P in HQ. destruct HQ as [e He]. destruct (decide (Q = P)) as [->|HQ].
    + rewrite lookup_alter_eq in He. destruct (spaces s !! P); [eauto|done].
    + rewrite lookup_alter_ne in He by done. eauto.
  - intros Q w z Hw Hz. destruct (Hback Q w z Hw Hz) as (z0 & Hz0 & <- & _). by apply (Hused Q w).
  - intros Q w z R u t Hw Hu Hz HW Ht Htz. destruct (Hback Q w z Hw Hz) as (z0 & Hz0 & Ez & Cz), (Hback R u t Hu Ht) as (t0 & Ht0 & Et & Ct).
    rewrite <- Ez, <- Et in Htz. destruct Cz as [-> |[-> ->]]; [by apply (Hpriv Q w z R u t0)|].
    assert (z0 = x) as -> by congruence. by apply (Hsole R u t0).
  - exact Hnn.
  - intros a l Hl Hm. apply Hcnt; [done|]. eapply Forall_impl; [exact Hm|]. intros [Q w] (Hw & z & Hz & Ha). cbn [fst snd] in *.
    destruct (Hback Q w z Hw Hz) as (z0 & Hz0 & Ez & _). split; [done|]. exists z0. by rewrite Ez.
Qed.

Lemma ref_count_dec a b s : 1 < ref_count a s → ref_count b (ref_dec a s).2 = if bool_decide (b = a) then ref_count a s - 1 else ref_count b s.
Proof.
  unfold ref_count, ref_dec. destruct (REFCOUNTS s !! a) as [c|] eqn:E; cbn [from_option id]; [|intros ?; lia]. intros Hc.
  rewrite (proj2 (Z.ltb_lt 0 c)), (proj2 (Z.eqb_neq (c - 1) 0)) by lia. cbn [snd REFCOUNTS set_refs].
  case_bool_decide as Eb; [subst; by rewrite lookup_insert_eq|by rewrite lookup_insert_ne].
Qed.

(** When a page gets a fresh frame and no other page changes, what remains to
    show is the bound on the counts of the other frames. *)
Section Fresh.
Context (P v : Z) (f : PhysFrame) (s s' : Mem A).
Hypothesis Hinv : cow_inv s.
Hypothesis Hfree : frame_no f ∈ fa_free (falloc s).
Hypothesis Htaken : ∀ n, n ∈ fa_free (falloc s') → n ∈ fa_free (falloc s) ∧ n ≠ frame_no f.
Hypothesis Hcase : ∀ Q w z, user_page w → view s' Q w = Some z → (Q = P ∧ w = v ∧ e_frame z = f) ∨ view s Q w = Some z.

Lemma fresh_unmapped Q w z : user_page w → view s Q w = Some z → start_address (e_frame z) ≠ start_address f.
Proof. intros Hw Hz E. apply (ci_used _ Hinv Q w z Hw Hz). unfold frame_no. rewrite E. exact Hfree. Qed.

Lemma fresh_page_inv : mem_ok s' → dom (spaces s') = dom (spaces s) → (∀ b, 0 ≤ ref_count b s') →
  (∀ b l, b ≠ start_address f → NoDup l → Forall (maps s' b) l → Z.of_nat (length l) ≤ Z.max 1 (ref_count b s')) → cow_inv s'.
Proof.
  intros Hok Hd Hnn Hcnt. split; [done| | | |done|].
  - intros Q HQ Hn. apply Htaken in Hn as [Hn _]. apply (ci_roots _ Hinv Q); [|done]. apply elem_of_dom. rewrite <- Hd. by apply elem_of_dom.
  - intros Q w z Hw Hz Hn. apply Htaken in Hn as [Hn Hne]. destruct (Hcase Q w z Hw Hz) as [(_ & _ & Ez)|Hz']; [by rewrite Ez in Hne|].
    by apply (ci_used _ Hinv Q w z).
  - intros Q w z R u t Hw Hu Hz HW Ht Htz.
    destruct (Hcase Q w z Hw Hz) as [(-> & -> & Ez)|Hz'], (Hcase R u t Hu Ht) as [(-> & -> & Et)|Ht'].
    + done.
    + exfalso. apply (fresh_unmapped R u t Hu Ht'). by rewrite Htz, Ez.
    + exfalso. apply (fresh_unmapped Q w z Hw Hz'). by rewrite <- Htz, Et.
    + by apply (ci_private _ Hinv Q w z R u t).
  - intros b l Hl Hm. destruct (decide (b = start_address f)) as [->|Hb]; [|by apply Hcnt].
    assert (Hlt : (length l ≤ 1)%nat); [|lia]. destruct l as [|p [|q l]]; [simpl; lia|simpl; lia|exfalso]. rewrite Forall_forall in Hm.
    assert (Hall : ∀ r, r ∈ p :: q :: l → r = (P, v)).
    { intros [Q w] Hr. destruct (Hm _ Hr) as (Hw & z & Hz & Hzb). cbn [fst snd] in *.
      destruct (Hcase Q w z Hw Hz) as [(-> & -> & _)|Hz']; [done|]. exfalso. by apply (fresh_unmapped Q w z). }
    apply NoDup_cons in Hl as [Hl _]. apply Hl. rewrite (Hall p), (Hall q); [apply list_elem_of_here|right; left|left].
Qed.

End Fresh.

(** A shared frame is copied to a fresh one. *)
Lemma fault_copies Pf v x s nf a : cow_inv s → user_page v → view s (start_address Pf) v = Some x →
  1 < ref_count (start_address (e_frame x)) s → fa_alloc (falloc s) = (Some nf, a) →
  let s1 := set_alloc a s in
  let s2 := set_contents (<[start_address nf := page_data s1 (e_frame x)]> (contents s1)) s1 in
  let s4 := (ref_dec (start_address (e_frame x)) (set_pte Pf v (private nf x) s2)).2 in
  cow_inv s4 ∧ view s4 (start_address Pf) v = Some (private nf x)
  ∧ ∀ Q w, user_page w → seen s4 Q w = if bool_decide (Q = start_address Pf ∧ w = v) then Some (page_data s (e_frame x), true) else seen s Q w.
Proof.
  intros Hinv Hv Hx Hrc Hal s1 s2 s4. pose proof (ci_ok _ Hinv) as Hok. set (P := start_address Pf) in *. set (old := start_address (e_frame x)) in *.
  pose proof (fa_alloc_spec (falloc s) (mo_alloc _ Hok)) as Hsp. rewrite Hal in Hsp. destruct Hsp as (Hin & Hfree & _ & Ha').
  assert (Hlx : is_link x = true) by (unfold view in Hx; destruct (spaces s !! P); [by apply leaf_Some in Hx as [_ ?]|done]).
  destruct (private_flags nf x) as (Hyw & Hyl & Hya). set (y := private nf x) in *.
  set (s3 := set_pte Pf v y s2).
  assert (Hok2 : mem_ok s2) by (split; [exact Ha'|apply Hok]).
  pose proof (view_set_pte Pf v x y s2 Hok2 Hv Hx ltac:(by rewrite Hyl)) as Hview. fold P s3 in Hview.
  assert (E4 : spaces s4 = spaces s3 ∧ contents s4 = contents s3 ∧ falloc s4 = falloc s3).
  { unfold s4. fold s3. unfold ref_dec. by destruct (REFCOUNTS s3 !! old). }
  destruct E4 as (E4s & E4c & E4a).
  assert (Hv4 : ∀ Q w, user_page w → view s4 Q w = if bool_decide (Q = P ∧ w = v) then Some y else view s Q w).
  { intros Q w Hw. assert (E : view s4 Q w = view s3 Q w) by (unfold view; by rewrite E4s). by rewrite E, Hview. }
  assert (Hrc4 : ∀ b, ref_count b s4 = if bool_decide (b = old) then ref_count old s - 1 else ref_count b s)
    by (intros b; apply (ref_count_dec old b s3); exact Hrc).
  assert (Hcase : ∀ Q w z, user_page w → view s4 Q w = Some z → (Q = P ∧ w = v ∧ e_frame z = nf) ∨ view s Q w = Some z).
  { intros Q w z Hw. rewrite Hv4 by done. case_bool_decide as E; [|auto]. destruct E as [-> ->]. intros [= <-]. auto. }
  pose proof (fresh_unmapped nf s Hinv Hin) as Hnew.
  assert (Hinv4 : cow_inv s4).
  { apply (fresh_page_inv P v nf s s4 Hinv Hin); [|done| | | |].
    - intros n. rewrite E4a. change (falloc s3) with a. rewrite Hfree, elem_of_difference, elem_of_singleton. done.
    - split; [rewrite E4a; exact Ha'|]. intros Q e. rewrite E4s. apply (mem_ok_update P v (λ _, y) s2 Hok2).
    - rewrite E4s. apply dom_alter_L.
    - intros b. rewrite Hrc4. case_bool_decide; [lia|apply (ci_nonneg _ Hinv)].
    - intros b l Hb Hl Hm. rewrite Hrc4. assert (Hms : Forall (maps s b) l).
      { eapply Forall_impl; [exact Hm|]. intros [Q w] (Hw & z & Hz & Hzb). cbn [fst snd] in *. split; [done|].
        destruct (Hcase Q w z Hw Hz) as [(_ & _ & Ez)|Hz']; [by rewrite <- Hzb, Ez in Hb|eauto]. }
      case_bool_decide as Eb; [|by apply (ci_count _ Hinv)]. rewrite Forall_forall in Hm.
      assert (Hlt : Z.of_nat (length ((P, v) :: l)) ≤ Z.max 1 (ref_count old s)); [|cbn [length] in Hlt; lia].
      apply (ci_count _ Hinv); [|constructor; [split; [done|]; eauto|by rewrite <- Eb]].
      apply NoDup_cons. split; [|done]. intros Hpl. destruct (Hm _ Hpl) as (_ & z & Hz & Hzb). cbn [fst snd] in *.
      rewrite Hv4, bool_decide_eq_true_2 in Hz by done. injection Hz as <-. by apply Hb. }
  split; [done|]. split; [by rewrite Hv4, bool_decide_eq_true_2|].
  intros Q w Hw. unfold seen. rewrite Hv4 by done. case_bool_decide as E.
  - cbn [fmap option_fmap option_map]. rewrite Hya. unfold page_data at 1. rewrite E4c. cbn [s3 s2 s1 set_pte set_spaces set_contents set_alloc contents y private e_frame].
    by rewrite lookup_insert_eq.
  - destruct (view s Q w) as [z|] eqn:Hz; [|done]. cbn [fmap option_fmap option_map]. f_equal. f_equal. unfold page_data. rewrite E4c.
    cbn [s3 s2 s1 set_pte set_spaces set_contents set_alloc contents]. rewrite lookup_insert_ne; [done|]. apply not_eq_sym. by apply (Hnew Q w z).
Qed.

(** The fault handler changes what nobody sees, and a handled page is writable. *)
Lemma fault_spec Pf v s r s' : cow_inv s → user_page v → handle_cow_fault Pf v s = (r, s') →
  cow_inv s' ∧ (∀ Q w, user_page w → seen s' Q w = seen s Q w)
  ∧ (r = true → ∃ y, view s' (start_address Pf) v = Some y ∧ contains (e_flags y) WRITABLE = true).
Proof.
  intros Hinv Hv Hf. unfold handle_cow_fault in Hf. set (P := start_address Pf) in *.
  destruct (spaces s !! P ≫= λ e, walk 4 e v) as [x|] eqn:Hw; [|injection Hf as <- <-; done].
  destruct (contains (e_flags x) PRESENT) eqn:Hp; cbn [negb] in Hf; [|injection Hf as <- <-; done].
  destruct (contains (e_flags x) BIT_9) eqn:Hb; cbn [negb] in Hf; [|injection Hf as <- <-; done].
  destruct (contains (e_flags x) HUGE_PAGE) eqn:Hh; [injection Hf as <- <-; done|].
  assert (Hlx : is_link x = true) by (unfold is_link; by rewrite Hp, Hh).
  assert (Hx : view s P v = Some x).
  { unfold view. destruct (spaces s !! P) as [e|]; [|done]. cbn [mbind option_bind] in *. by apply leaf_Some. }
  assert (Hallow : allowed x = true) by (unfold allowed; by rewrite Hb, orb_true_r).
  destruct (Z.leb_spec (ref_count (start_address (e_frame x)) s) 1) as [Hle|Hgt].
  - injection Hf as <- <-. destruct (private_flags (e_frame x) x) as (Hyw & Hyl & Hya).
    pose proof (view_set_pte Pf v x (private (e_frame x) x) s (ci_ok _ Hinv) Hv Hx ltac:(by rewrite Hyl)) as Hview. fold P in Hview.
    split; [by apply fault_reclaims|]. split.
    + intros Q w Hw'. unfold seen. rewrite Hview by done. case_bool_decide as E; [|done]. destruct E as [-> ->]. rewrite Hx.
      cbn [fmap option_fmap option_map]. by rewrite Hya, Hallow.
    + intros _. eexists. by rewrite Hview, bool_decide_eq_true_2.
  - destruct (fa_alloc (falloc s)) as [[nf|] a] eqn:Hal.
    + injection Hf as <- <-. destruct (fault_copies Pf v x s nf a Hinv Hv Hx Hgt Hal) as (I & V & S). fold P in V, S.
      split; [exact I|]. split.
      * intros Q w Hw'. rewrite S by done. case_bool_decide as E; [|done]. destruct E as [-> ->]. unfold seen. rewrite Hx.
        cbn [fmap option_fmap option_map]. by rewrite Hallow.
      * intros _. eexists. split; [exact V|]. by destruct (private_flags nf x).
    + pose proof (fa_alloc_spec (falloc s) (mo_alloc _ (ci_ok _ Hinv))) as Hsp. rewrite Hal in Hsp. destruct Hsp as [-> _].
      injection Hf as <- <-. by destruct s.
Qed.

Lemma store_spec P v x off b s : cow_inv s → user_page v → view s P v = Some x → contains (e_flags x) WRITABLE = true →
  cow_inv (store (e_frame x) off b s) ∧ ∀ Q w, user_page w → seen (store (e_frame x) off b s) Q w =
    if bool_decide (Q = P ∧ w = v) then Some (<[off := b]> (page_data s (e_frame x)), true) else seen s Q w.
Proof.
  intros Hinv Hv Hx HW. split.
  { destruct Hinv as [Hok Hroot Hused Hpriv Hnn Hcnt]. split; try done. split; apply Hok. }
  intros Q w Hw. unfold seen. change (view (store (e_frame x) off b s) Q w) with (view s Q w). case_bool_decide as E.
  - destruct E as [-> ->]. rewrite Hx. cbn [fmap option_fmap option_map]. unfold allowed. rewrite HW. cbn [orb].
    unfold page_data at 1. cbn [contents store set_contents]. by rewrite lookup_insert_eq.
  - destruct (view s Q w) as [y|] eqn:Hy; [|done]. cbn [fmap option_fmap option_map]. f_equal. f_equal. unfold page_data at 1 2.
    cbn [contents store set_contents]. rewrite lookup_insert_ne; [done|]. intros Heq. apply E.
    by apply (ci_private _ Hinv P v x Q w y).
Qed.

(** A fresh frame under a page of a space. *)
Lemma map_fresh_spec Pf v flags s r s' : cow_inv s → user_page v → is_Some (spaces s !! start_address Pf) →
  contains flags PRESENT = true → contains flags HUGE_PAGE = false → map_fresh Pf v flags s = (r, s') →
  cow_inv s' ∧ (∀ Q w, user_page w → ¬ (Q = start_address Pf ∧ w = v) → seen s' Q w = seen s Q w)
  ∧ (is_ok r = false → seen s' (start_address Pf) v = seen s (start_address Pf) v).
Proof.
  intros Hinv Hv [e He] Hp Hh Hm. set (P := start_address Pf) in *. unfold map_fresh in Hm.
  pose proof (fa_alloc_spec (falloc s) (mo_alloc _ (ci_ok _ Hinv))) as Hal. destruct (fa_alloc (falloc s)) as [[f|] a].
  2:{ destruct Hal as [-> _]. injection Hm as <- <-. destruct s. split_and!; try done. }
  destruct Hal as (Hin & Hfree & _ & Ha'). set (s1 := set_alloc a s) in *.
  assert (Hok1 : mem_ok s1) by (split; [exact Ha'|apply (ci_ok _ Hinv)]).
  pose proof (map_page_view Pf v f flags s1 e Hok1 He Hv Hp Hh) as Hmp. rewrite Hm in Hmp.
  destruct Hmp as (V & M & D & C & R & F & _). fold P in V. change (falloc s1) with a in F.
  assert (Hcase : ∀ Q w z, user_page w → view s' Q w = Some z → (Q = P ∧ w = v ∧ e_frame z = f) ∨ view s Q w = Some z).
  { intros Q w z Hw. rewrite V by done. destruct (bool_decide (Q = P ∧ w = v)) eqn:E; cbn [andb]; [|auto].
    apply bool_decide_eq_true in E as [-> ->]. destruct (is_ok r); [|auto]. intros [= <-]. auto. }
  assert (Hrc : ∀ b, ref_count b s' = ref_count b s) by (intros b; unfold ref_count; by rewrite R).
  split; [apply (fresh_page_inv P v f s s' Hinv Hin); [|done|done|done| |]|split].
  - intros n Hn. apply F in Hn. rewrite Hfree, elem_of_difference, elem_of_singleton in Hn. done.
  - intros b. rewrite Hrc. apply (ci_nonneg _ Hinv).
  - intros b l Hb Hl Hml. rewrite Hrc. apply (ci_count _ Hinv); [done|]. eapply Forall_impl; [exact Hml|].
    intros [Q w] (Hw & z & Hz & Hzb). cbn [fst snd] in *. split; [done|].
    destruct (Hcase Q w z Hw Hz) as [(_ & _ & Ez)|Hz']; [by rewrite <- Hzb, Ez in Hb|eauto].
  - intros Q w Hw Hne. unfold seen. rewrite V by done. rewrite bool_decide_eq_false_2 by done. cbn [andb].
    change (view s1 Q w) with (view s Q w). unfold page_data. by rewrite C.
  - intros Hr. unfold seen. rewrite V, Hr, andb_false_r by done. change (view s1 P v) with (view s P v). unfold page_data. by rewrite C.
Qed.

(** ** Private memories *)

(** What the spaces promise: each has its own memory; a store changes the
    writer's page only, and only if it may write; a fork adds a space whose
    pages are copies; mapping a page changes no other page. *)
Notation memory := (Z → Z → option (list Z * bool)).

Inductive private_step (m m' : memory) : Prop :=
| PStore P v off b d : user_page v → m P v = Some (d, true) → m' P v = Some (<[off := b]> d, true) →
    (∀ Q w, user_page w → ¬ (Q = P ∧ w = v) → m' Q w = m Q w) → private_step m m'
| PSilent : (∀ Q w, user_page w → m' Q w = m Q w) → private_step m m'
| PFork P C : (∀ w, user_page w → m C w = None) → (∀ Q w, user_page w → Q ≠ C → m' Q w = m Q w) →
    (∀ w, user_page w → m' C w = m P w ∨ m' C w = None) → private_step m m'
| PMap P v : user_page v → (∀ Q w, user_page w → ¬ (Q = P ∧ w = v) → m' Q w = m Q w) → private_step m m'.

Inductive cow_step (s : Mem A) : Mem A → Prop :=
| StepStore Pf v off b : user_page v → cow_step s (user_store Pf v off b s).2
| StepFork cr3 Pf Cf src s' : spaces s !! start_address Pf = Some src →
    (∀ a, ref_count a s + 2 * Z.of_nat (length (user_leaves src)) < 2 ^ 32) → cow_fork cr3 Pf s = (Some Cf, s') → cow_step s s'
| StepMap Pf v flags : user_page v → is_Some (spaces s !! start_address Pf) → contains flags PRESENT = true →
    contains flags HUGE_PAGE = false → cow_step s (map_fresh Pf v flags s).2.

Lemma store_step Pf v off b s : cow_inv s → user_page v →
  cow_inv (user_store Pf v off b s).2 ∧ private_step (seen s) (seen (user_store Pf v off b s).2)
  ∧ ((user_store Pf v off b s).1 = true → ∃ d, seen s (start_address Pf) v = Some (d, true)
       ∧ seen (user_store Pf v off b s).2 (start_address Pf) v = Some (<[off := b]> d, true)).
Proof.
  intros Hinv Hv. unfold user_store. set (P := start_address Pf).
  assert (Hst : ∀ s1 x, cow_inv s1 → (∀ Q w, user_page w → seen s1 Q w = seen s Q w) → view s1 P v = Some x → contains (e_flags x) WRITABLE = true →
    cow_inv (store (e_frame x) off b s1) ∧ private_step (seen s) (seen (store (e_frame x) off b s1))
    ∧ ∃ d, seen s P v = Some (d, true) ∧ seen (store (e_frame x) off b s1) P v = Some (<[off := b]> d, true)).
  { intros s1 x Hi Hs Hx HW. destruct (store_spec P v x off b s1 Hi Hv Hx HW) as [Hi' Hse].
    assert (Hd : seen s P v = Some (page_data s1 (e_frame x), true)).
    { rewrite <- Hs by done. unfold seen. rewrite Hx. cbn [fmap option_fmap option_map]. unfold allowed. by rewrite HW. }
    assert (Hd' : seen (store (e_frame x) off b s1) P v = Some (<[off := b]> (page_data s1 (e_frame x)), true))
      by (rewrite Hse by done; by rewrite bool_decide_eq_true_2).
    split; [done|]. split; [|eauto]. apply (PStore _ _ P v off b (page_data s1 (e_frame x))); [done..|].
    intros Q w Hw Hne. rewrite Hse by done. rewrite bool_decide_eq_false_2 by done. by apply Hs. }
  destruct (try_store Pf v off b s) as [s2|] eqn:E.
  { unfold try_store in E. fold P (view s P v) in E. destruct (view s P v) as [x|] eqn:Hx; [|done].
    destruct (contains (e_flags x) WRITABLE) eqn:HW; [|done]. injection E as <-.
    destruct (Hst s x Hinv (λ _ _ _, eq_refl) Hx HW) as (I & S & D). auto. }
  destruct (handle_cow_fault Pf v s) as [r s1] eqn:Hf. destruct (fault_spec Pf v s r s1 Hinv Hv Hf) as (I1 & S1 & W1). fold P in W1.
  destruct r; [|split_and!; [done|by apply PSilent|done]]. destruct (W1 eq_refl) as (y & Hy & HyW).
  unfold try_store. fold P (view s1 P v). rewrite Hy, HyW.
  destruct (Hst s1 y I1 S1 Hy HyW) as (I & S & D). auto.
Qed.


(** A fork with enough memory is a full copy: with three free frames per
    mapped page and one more, [cow_fork] gives the child every page of the
    parent with the same contents and rights, and leaves every other space as
    it was; the next store of either side then succeeds only on its own page. *)
Theorem cow_fork_copies cr3 Pf s src : cow_inv s → spaces s !! start_address Pf = Some src →
  (∀ a, ref_count a s + 2 * Z.of_nat (length (user_leaves src)) < 2 ^ 32) →
  (3 * length (user_leaves src) + 1 ≤ size (fa_free (falloc s)))%nat →
  ∃ Cf s', cow_fork cr3 Pf s = (Some Cf, s') ∧ cow_inv s'
  ∧ (∀ w, user_page w → seen s' (start_address Cf) w = seen s (start_address Pf) w)
  ∧ (∀ Q w, user_page w → Q ≠ start_address Cf → seen s' Q w = seen s Q w).
Proof.
  intros Hinv Hsrc Hroom Hfr. destruct (cow_fork cr3 Pf s) as [[Cf|] s'] eqn:Hfork.
  - destruct (cow_fork_spec cr3 Pf Cf s s' src Hinv Hsrc Hroom Hfork) as (I & _ & _ & HQ & _ & Hfull). exists Cf, s'. auto.
  - exfalso. unfold cow_fork in Hfork. destruct (create_user_page_table cr3 s) as [[new|] s1] eqn:Hc; [by destruct (spaces s1 !! _)|].
    unfold create_user_page_table in Hc. pose proof (fa_alloc_spec (falloc s) (mo_alloc _ (ci_ok _ Hinv))) as Hal.
    destruct (fa_alloc (falloc s)) as [[f|] a]; [done|]. destruct Hal as [_ He]. rewrite He, size_empty in Hfr. lia.
Qed.

End CowProofs.

(** ** A machine *)

Notation Machine := (Mem (option BitmapFrameAllocator)).

Definition boot_mem : Machine := mkMem ∅ ∅ ∅ (Frame.init demo_map 8192).

Lemma boot_view P v : view boot_mem P v = None.
Proof. unfold view. change (spaces boot_mem) with (∅ : gmap Z Space). by rewrite lookup_empty. Qed.

Lemma boot_mem_inv : cow_inv boot_mem.
Proof.
  split.
  - split; [exact frame_demo_wf|]. change (spaces boot_mem) with (∅ : gmap Z Space). intros P e. by rewrite lookup_empty.
  - change (spaces boot_mem) with (∅ : gmap Z Space). intros P [e He]. rewrite lookup_empty in He. discriminate He.
  - intros P v x _ Hx. rewrite boot_view in Hx. discriminate Hx.
  - intros P v x Q w y _ _ Hx. rewrite boot_view in Hx. discriminate Hx.
  - intros a. unfold ref_count. change (REFCOUNTS boot_mem) with (∅ : gmap Z Z). by rewrite lookup_empty.
  - intros a l _ Hm. destruct l as [|[Q w] l]; [cbn [length]; lia|]. apply Forall_cons in Hm as [(_ & x & Hx & _) _].
    cbn [fst snd] in Hx. by rewrite boot_view in Hx.
Qed.

(** One process with one writable page at [0x10000000]. *)
Definition page1 : Z := 0x10000000.
Definition rw_flags : Z := insert_flag (insert_flag (insert_flag 0 PRESENT) WRITABLE) USER_ACCESSIBLE.
Definition new_space : option PhysFrame * Machine := create_user_page_table (containing_address 0) boot_mem.
Definition proc : PhysFrame := default (containing_address 0) new_space.1.
Definition demo_mem : Machine := (map_fresh proc page1 rw_flags new_space.2).2.

Lemma page1_user : user_page page1.
Proof. split; [unfold page1; lia|reflexivity]. Qed.

Lemma new_space_inv : cow_inv new_space.2 ∧ is_Some (spaces new_space.2 !! start_address proc).
Proof.
  destruct (create_user_page_table (containing_address 0) boot_mem) as [[f|] s1] eqn:E.
  - destruct (create_spec (containing_address 0) boot_mem f s1 boot_mem_inv E) as (_ & _ & (eC & HeC & _) & Hi & _).
    unfold proc, new_space. rewrite E. split; [exact Hi|]. cbn. eauto.
  - exfalso. apply (f_equal fst) in E. vm_compute in E. discriminate.
Qed.

Lemma demo_mem_inv : cow_inv demo_mem.
Proof.
  destruct new_space_inv as [Hi Hs]. unfold demo_mem. destruct (map_fresh proc page1 rw_flags new_space.2) as [r s'] eqn:E.
  by apply (map_fresh_spec proc page1 rw_flags new_space.2 r s' Hi page1_user Hs eq_refl eq_refl E).
Qed.

Definition demo_stored : Machine := (user_store proc page1 5 42 demo_mem).2.


Definition demo_src : Space := default (mkEntry (A := Table 4) proc 1 ∅) (spaces demo_mem !! start_address proc).

Lemma cow_fork_copies_witness :
  ∃ Cf s', cow_fork proc proc demo_mem = (Some Cf, s') ∧ cow_inv s'
  ∧ (∀ w, user_page w → seen s' (start_address Cf) w = seen demo_mem (start_address proc) w)
  ∧ (∀ Q w, user_page w → Q ≠ start_address Cf → seen s' Q w = seen demo_mem Q w).
Proof.
  apply (cow_fork_copies proc proc demo_mem demo_src demo_mem_inv).
  - unfold demo_src. destruct (spaces demo_mem !! start_address proc) eqn:E; [reflexivity|]. exfalso.
    assert (Hx : match spaces demo_mem !! start_address proc with Some _ => true | None => false end = true) by (vm_compute; reflexivity).
    rewrite E in Hx. discriminate Hx.
  - intros a. assert (Er : REFCOUNTS demo_mem = ∅) by (vm_compute; reflexivity). unfold ref_count. rewrite Er, lookup_empty.
    assert (El : length (user_leaves demo_src) = 1%nat) by (vm_compute; reflexivity). rewrite El. reflexivity.
  - apply Nat.leb_le. vm_compute. reflexivity.
Defined.

(** ** Where the code falls short *)

Definition mapped_frame (s : Machine) (P v : Z) : option Z := frame_no ∘ e_frame <$> view s P v.

(** A child that exits gives back frames its parent still uses: the counts are
    not consulted by [free_user_page_table]. *)
Example exit_frees_shared_frame :
  let '(c, s1) := cow_fork proc proc demo_mem in
  let s2 := free_user_page_table (default proc c) s1 in
  mapped_frame s2 (start_address proc) page1 = Some 3 ∧ bool_decide (3 ∈ fa_free (falloc s1)) = false
  ∧ bool_decide (3 ∈ fa_free (falloc s2)) = true.
Proof. vm_compute. repeat split. Qed.

(** The frame is handed out again at once: here it becomes the level-4 table of
    the next process, which the parent can then write through its own page. *)
Example freed_frame_is_reused :
  let '(c, s1) := cow_fork proc proc demo_mem in
  let '(d, s2) := create_user_page_table proc (free_user_page_table (default proc c) s1) in
  (mapped_frame s2 (start_address proc) page1, frame_no <$> d) = (Some 3, Some 3).
Proof. vm_compute. reflexivity. Qed.

(** Anonymous pages are not cleared: a new process reads what an ended one
    wrote. *)
Definition byte_at (s : Machine) (P v : Z) (off : nat) : option Z := seen s P v ≫= λ d, d.1 !! off.
Example mmap_leaks_old_contents :
  let '(d, s2) := create_user_page_table proc (free_user_page_table proc demo_stored) in
  let s3 := (mmap_anonymous (default proc d) 0 1 s2).2 in
  byte_at s3 (start_address (default proc d)) page1 5 = Some 42.
Proof. vm_compute. reflexivity. Qed.
