(* ===== verification/Shmem.v ===== *)
(** Shared memory segments: [kernel/src/memory/shmem.rs].

    The two global tables, the id counter, the frame allocator and the contents
    of physical memory form one state [t].  The frame allocator is used through
    the interface [FrameAlloc] only.  [paging::map_page] goes to the x86_64
    crate's page-table walker: it is the field [map_page] of the class [Paging],
    whose law says that it may take frames from the allocator (for intermediate
    tables) and does nothing else to it. *)

From S2P Require Import Prelude Bits Frame.

(** [paging::map_page], with page-table state [P]. *)
Class Paging `{PhysFrames} (A P : Type) `{!FrameAlloc A} := {
  map_page : PhysFrame → Z → PhysFrame → P * A → result string unit * (P * A);
  map_page_alloc pml4 page f p a : fa_ok a →
    let '(_, (_, a')) := map_page pml4 page f (p, a) in
    fa_ok a' ∧ fa_free a' ⊆ fa_free a ∧ fa_total a' = fa_total a;
}.

(** [VirtAddr::new] panics unless bits 48..64 copy bit 47. *)
Definition canonical (v : Z) : bool := (v <? 2 ^ 47) || (2 ^ 64 - 2 ^ 47 <=? v).

Section shmem.
Context `{PhysFrames} {A P : Type} `{!FrameAlloc A} `{!Paging A P}.

Record SharedMemSegment := mkSegment {
  id : Z;
  name : string;
  frames : list PhysFrame;
  page_count : Z;
  attached_pids : list Z;
  creator_pid : Z;
}.

(** The globals of the module, the allocator, the page tables, and the bytes
    of each frame by its start address. *)
Record t := mkT {
  SHMEM_TABLE : gmap Z SharedMemSegment;
  SHMEM_NAMES : gmap string Z;
  NEXT_SHM_ID : Z;
  falloc : A;
  tables : P;
  memory : gmap Z (list Z);
}.

(** [for _ in 0..page_count { alloc_frame()?; write_bytes(..); push }]: the
    frames in order, or [None] at the first failure, with the allocator and
    memory as the loop leaves them. *)
Fixpoint alloc_zeroed (n : nat) (a : A) (m : gmap Z (list Z)) : option (list PhysFrame) * A * gmap Z (list Z) :=
  match n with
  | O => (Some [], a, m)
  | S n' =>
      match fa_alloc a with
      | (None, a') => (None, a', m)
      | (Some f, a') =>
          let '(r, a'', m'') := alloc_zeroed n' a' (<[start_address f := zero_page]> m) in
          ((λ fs, f :: fs) <$> r, a'', m'')
      end
  end.

Definition create (nm : string) (pages creator : Z) (s : t) : option Z * t :=
  if (pages =? 0) || (256 <? pages) then (None, s)
  else
    let '(r, a', m') := alloc_zeroed (Z.to_nat pages) (falloc s) (memory s) in
    match r with
    | None => (None, mkT (SHMEM_TABLE s) (SHMEM_NAMES s) (NEXT_SHM_ID s) a' (tables s) m')
    | Some fs =>
        let i := NEXT_SHM_ID s in
        let segment := mkSegment i nm fs pages [] creator in
        (Some i, mkT (<[i := segment]> (SHMEM_TABLE s)) (<[nm := i]> (SHMEM_NAMES s))
                     (wrap 64 (i + 1)) a' (tables s) m')
    end.

(** The mapping loop of [attach]: page [i] of the segment at
    [start + i * 4096]. *)
Fixpoint map_frames (pml4 : PhysFrame) (vaddr : Z) (fs : list PhysFrame) (pa : P * A) : outcome bool * (P * A) :=
  match fs with
  | [] => (Returned true, pa)
  | f :: fs' =>
      if canonical (wrap 64 vaddr) then
        match map_page pml4 (wrap 64 vaddr) f pa with
        | (Ok _, pa') => map_frames pml4 (vaddr + 4096) fs' pa'
        | (Err _, pa') => (Returned false, pa')
        end
      else (Panicked, pa)
  end.

Definition attach (shm_id : Z) (pml4 : PhysFrame) (hint_vaddr pid : Z) (s : t) : outcome (option Z) * t :=
  match SHMEM_TABLE s !! shm_id with
  | None => (Returned None, s)
  | Some seg =>
      let start_vaddr := if hint_vaddr =? 0 then 0x20000000 else Z.land hint_vaddr (not64 0xFFF) in
      let '(r, (p', a')) := map_frames pml4 start_vaddr (frames seg) (tables s, falloc s) in
      let pids := if bool_decide (pid ∈ attached_pids seg) then attached_pids seg
                  else attached_pids seg ++ [pid] in
      let seg' := mkSegment (id seg) (name seg) (frames seg) (page_count seg) pids (creator_pid seg) in
      let tbl' := match r with Returned true => <[shm_id := seg']> (SHMEM_TABLE s) | _ => SHMEM_TABLE s end in
      let res := match r with
                 | Returned true => Returned (Some start_vaddr)
                 | Returned false => Returned None
                 | Panicked => Panicked
                 end in
      (res, mkT tbl' (SHMEM_NAMES s) (NEXT_SHM_ID s) a' p' (memory s))
  end.

Definition detach (shm_id pid : Z) (s : t) : t :=
  match SHMEM_TABLE s !! shm_id with
  | None => s
  | Some seg =>
      let seg' := mkSegment (id seg) (name seg) (frames seg) (page_count seg)
        (base.filter (λ p, p ≠ pid) (attached_pids seg)) (creator_pid seg) in
      mkT (<[shm_id := seg']> (SHMEM_TABLE s)) (SHMEM_NAMES s) (NEXT_SHM_ID s) (falloc s) (tables s) (memory s)
  end.

Definition destroy (shm_id : Z) (s : t) : bool * t :=
  match SHMEM_TABLE s !! shm_id with
  | None => (false, s)
  | Some seg =>
      match attached_pids seg with
      | _ :: _ => (false, s)
      | [] =>
          (true, mkT (delete shm_id (SHMEM_TABLE s)) (delete (name seg) (SHMEM_NAMES s)) (NEXT_SHM_ID s)
                     (foldl (λ a f, fa_dealloc f a) (falloc s) (frames seg)) (tables s) (memory s))
      end
  end.

Definition lookup_name (nm : string) (s : t) : option Z := SHMEM_NAMES s !! nm.

Definition shmem_stats (s : t) : Z * Z :=
  (Z.of_nat (size (SHMEM_TABLE s)),
   foldr (λ kv acc, page_count kv.2 + acc) 0 (map_to_list (SHMEM_TABLE s))).

(** ** Invariant *)

(** Numbers of the frames backing a segment. *)
Definition seg_frames (seg : SharedMemSegment) : list Z := frame_no <$> frames seg.

Record seg_ok (a : A) (i : Z) (seg : SharedMemSegment) : Prop := {
  sg_id : id seg = i;
  sg_pages : page_count seg = Z.of_nat (length (frames seg));
  sg_bound : 1 ≤ page_count seg ≤ 256;
  sg_nodup : NoDup (seg_frames seg);
  sg_pids : NoDup (attached_pids seg);
  sg_taken j : j ∈ seg_frames seg → 0 ≤ j < fa_total a ∧ j ∉ fa_free a;
}.

(** Segment frames are allocated, distinct, and belong to one segment only;
    every id was handed out; names point to past ids. *)
Record inv (s : t) : Prop := {
  inv_alloc : fa_ok (falloc s);
  inv_next : 1 ≤ NEXT_SHM_ID s < 2 ^ 64;
  inv_fresh i seg : SHMEM_TABLE s !! i = Some seg → 1 ≤ i < NEXT_SHM_ID s;
  inv_seg i seg : SHMEM_TABLE s !! i = Some seg → seg_ok (falloc s) i seg;
  inv_disjoint i1 i2 g1 g2 j : SHMEM_TABLE s !! i1 = Some g1 → SHMEM_TABLE s !! i2 = Some g2 →
    i1 ≠ i2 → j ∈ seg_frames g1 → j ∉ seg_frames g2;
}.

(** ** Lemmas *)

Lemma seg_ok_shrink a a' i seg :
  fa_free a' ⊆ fa_free a → fa_total a' = fa_total a → seg_ok a i seg → seg_ok a' i seg.
Proof. intros Hf Ht [? ? ? ? ? Hk]. split; try done. intros j Hj. rewrite Ht. set_solver. Qed.

(** The allocation loop: [n] distinct frames leave the free set, all zeroed;
    on failure every free frame has been taken. *)
Lemma alloc_zeroed_spec n a m : fa_ok a →
  match alloc_zeroed n a m with
  | (Some fs, a', m') => length fs = n ∧ NoDup (frame_no <$> fs)
      ∧ list_to_set (frame_no <$> fs) ⊆ fa_free a
      ∧ fa_free a' = fa_free a ∖ list_to_set (frame_no <$> fs)
      ∧ fa_total a' = fa_total a ∧ fa_ok a'
      ∧ (∀ f, f ∈ fs → m' !! start_address f = Some zero_page)
      ∧ (∀ k, k ∉ (start_address <$> fs) → m' !! k = m !! k)
  | (None, a', m') => (size (fa_free a) < n)%nat ∧ fa_free a' = ∅ ∧ fa_total a' = fa_total a ∧ fa_ok a'
  end.
Proof.
  revert a m. induction n as [|n IH]; intros a m Ha; simpl.
  { split_and!; try done; try apply NoDup_nil_2; set_solver. }
  pose proof (fa_alloc_spec a Ha) as Hs. destruct (fa_alloc a) as [[f|] a1].
  2: { destruct Hs as [-> E]. rewrite E, size_empty. split_and!; (done || lia). }
  destruct Hs as (Hin & Hfree & Ht & Ha1). specialize (IH a1 (<[start_address f:=zero_page]> m) Ha1).
  destruct (alloc_zeroed n a1 _) as [[[fs|] a'] m']; simpl.
  - destruct IH as (Hl & Hnd & Hsub & Hf' & Ht' & Ha' & Hz & Hk).
    rewrite Hfree in Hsub, Hf'. split_and!; try done; try congruence.
    + constructor; [|done]. set_solver.
    + set_solver.
    + rewrite Hf'. set_solver.
    + intros f' [->|Hf]%elem_of_cons; [|by apply Hz].
      destruct (decide (start_address f ∈ (start_address <$> fs))) as [Hd|Hd].
      * apply list_elem_of_fmap in Hd as (g & E & Hg). rewrite E. by apply Hz.
      * rewrite Hk by done. by rewrite lookup_insert_eq.
    + intros k Hkk. rewrite not_elem_of_cons in Hkk. rewrite Hk by naive_solver.
      rewrite lookup_insert_ne by naive_solver. done.
  - destruct IH as (Hsz & Hf' & Ht' & Ha'). split_and!; try done; [|congruence].
    rewrite Hfree in Hsz. pose proof (size_remove _ _ Hin). lia.
Qed.

Lemma map_frames_alloc pml4 v fs p a : fa_ok a →
  let '(_, (_, a')) := map_frames pml4 v fs (p, a) in
  fa_ok a' ∧ fa_free a' ⊆ fa_free a ∧ fa_total a' = fa_total a.
Proof.
  revert v p a. induction fs as [|f fs IH]; intros v p a Ha; simpl; [done|].
  destruct (canonical _); [|done]. pose proof (map_page_alloc pml4 (wrap 64 v) f p a Ha) as Hm.
  destruct (map_page _ _ _ _) as [[?|?] [p1 a1]]; [|done]. destruct Hm as (Ha1 & Hs & Ht).
  specialize (IH (v + 4096) p1 a1 Ha1). destruct (map_frames _ _ _ _) as [? [? a2]].
  destruct IH as (? & ? & ?). split_and!; [done|set_solver|congruence].
Qed.

Lemma dealloc_all_spec fs a : fa_ok a → (∀ f, f ∈ fs → 0 ≤ frame_no f < fa_total a) →
  let a' := foldl (λ a f, fa_dealloc f a) a fs in
  fa_ok a' ∧ fa_free a' = fa_free a ∪ list_to_set (frame_no <$> fs) ∧ fa_total a' = fa_total a.
Proof.
  revert a. induction fs as [|f fs IH]; intros a Ha Hr; simpl; [split_and!; set_solver|].
  destruct (fa_dealloc_spec a f Ha (Hr f ltac:(set_solver))) as (Hf & Ht & Ha').
  destruct (IH (fa_dealloc f a) Ha') as (? & Hf' & ?).
  { intros g Hg. rewrite Ht. set_solver. }
  split_and!; [done| |congruence]. rewrite Hf', Hf. set_solver.
Qed.

(** A segment whose frames and identity stay the same. *)
Definition same_backing (g g' : SharedMemSegment) : Prop :=
  id g' = id g ∧ frames g' = frames g ∧ page_count g' = page_count g ∧ NoDup (attached_pids g').

Lemma shmem_inv_update s i g g' a' p' :
  inv s → SHMEM_TABLE s !! i = Some g → same_backing g g' →
  fa_ok a' → fa_free a' ⊆ fa_free (falloc s) → fa_total a' = fa_total (falloc s) →
  inv (mkT (<[i := g']> (SHMEM_TABLE s)) (SHMEM_NAMES s) (NEXT_SHM_ID s) a' p' (memory s)).
Proof.
  intros [Ha Hn Hf Hs Hd] Hg (Ei & Ef & Ep & Hnd) Ha' Hsub Ht.
  assert (Hlk : ∀ k h, <[i := g']> (SHMEM_TABLE s) !! k = Some h →
    ∃ h0, SHMEM_TABLE s !! k = Some h0 ∧ seg_frames h = seg_frames h0 ∧ (k = i ∧ h = g' ∨ h = h0)).
  { intros k h. destruct (decide (k = i)) as [->|].
    - rewrite lookup_insert_eq. intros [= <-]. exists g. unfold seg_frames. rewrite Ef. auto.
    - rewrite lookup_insert_ne by done. intros. exists h. auto. }
  split; simpl; try done.
  - intros k h (h0 & ? & _)%Hlk. eauto.
  - intros k h (h0 & Hk & Efr & Hc)%Hlk. pose proof (seg_ok_shrink _ _ _ _ Hsub Ht (Hs _ _ Hk)) as Hok.
    destruct Hc as [[-> ->]| ->]; [|done]. assert (h0 = g) as -> by congruence.
    destruct Hok. unfold seg_frames in *. split; rewrite ?Ei, ?Ep, ?Ef; unfold seg_frames; rewrite ?Ef; done.
  - intros i1 i2 g1 g2 j (h1 & ? & -> & _)%Hlk (h2 & ? & -> & _)%Hlk. eauto.
Qed.

Lemma shmem_inv_tables s a' p' m' :
  inv s → fa_ok a' → fa_free a' ⊆ fa_free (falloc s) → fa_total a' = fa_total (falloc s) →
  inv (mkT (SHMEM_TABLE s) (SHMEM_NAMES s) (NEXT_SHM_ID s) a' p' m').
Proof. intros [Ha Hn Hf Hs Hd] Ha' Hsub Ht. split; simpl; eauto using seg_ok_shrink. Qed.

Lemma shmem_create_inv nm pages creator s : 0 ≤ pages →
  inv s → NEXT_SHM_ID s + 1 < 2 ^ 64 → inv (create nm pages creator s).2.
Proof.
  intros Hp Hi Hb. pose proof Hi as [Ha Hn Hf Hs Hd]. unfold create.
  destruct ((pages =? 0) || (256 <? pages)) eqn:Eg; [done|].
  apply orb_false_elim in Eg as [E1%Z.eqb_neq E2%Z.ltb_ge].
  pose proof (alloc_zeroed_spec (Z.to_nat pages) (falloc s) (memory s) Ha) as Hz.
  destruct (alloc_zeroed _ _ _) as [[[fs|] a'] m'].
  2: { destruct Hz as (_ & Hf' & Ht & Ha'). apply shmem_inv_tables; try done. rewrite Hf'. set_solver. }
  destruct Hz as (Hl & Hnd & Hsub & Hf' & Ht & Ha' & _).
  assert (Hshr : fa_free a' ⊆ fa_free (falloc s)) by (rewrite Hf'; set_solver).
  rewrite wrap_id by (split; lia).
  split; simpl; [done|lia| | |].
  - intros i g. destruct (decide (i = NEXT_SHM_ID s)) as [->|].
    + intros _. lia.
    + rewrite lookup_insert_ne by done. intros ?%Hf. lia.
  - intros i g. destruct (decide (i = NEXT_SHM_ID s)) as [->|].
    + rewrite lookup_insert_eq. intros [= <-]. split; simpl; try done; try lia; [apply NoDup_nil_2|].
      intros j Hj. unfold seg_frames in Hj. simpl in Hj. rewrite Ht, Hf'.
      split; [|set_solver]. apply fa_free_range; [done|]. set_solver.
    + rewrite lookup_insert_ne by done. intros ?%Hs. by eapply seg_ok_shrink.
  - intros i1 i2 g1 g2 j.
    destruct (decide (i1 = NEXT_SHM_ID s)) as [->|], (decide (i2 = NEXT_SHM_ID s)) as [->|];
      rewrite ?lookup_insert_eq, ?lookup_insert_ne by done; [done| | |by eauto].
    + intros [= <-] H2 _ Hj Hj2. unfold seg_frames in Hj; simpl in Hj.
      destruct (sg_taken _ _ _ (Hs _ _ H2) j Hj2) as [_ Hk]. set_solver.
    + intros H1 [= <-] _ Hj Hj2. unfold seg_frames in Hj2; simpl in Hj2.
      destruct (sg_taken _ _ _ (Hs _ _ H1) j Hj) as [_ Hk]. set_solver.
Qed.

Lemma shmem_attach_inv i pml4 hint pid s : inv s → inv (attach i pml4 hint pid s).2.
Proof.
  intros Hi. unfold attach. destruct (SHMEM_TABLE s !! i) as [g|] eqn:Eg; [|done]. cbv zeta.
  set (v := if hint =? 0 then _ else _).
  pose proof (map_frames_alloc pml4 v (frames g) (tables s) (falloc s) (inv_alloc _ Hi)) as Hm.
  destruct (map_frames _ _ _ _) as [r [p' a']]. destruct Hm as (? & ? & ?).
  assert (Hpids : NoDup (if bool_decide (pid ∈ attached_pids g) then attached_pids g
                         else attached_pids g ++ [pid])).
  { pose proof (sg_pids _ _ _ (inv_seg _ Hi _ _ Eg)). case_bool_decide; [done|].
    apply NoDup_app. split_and!; [done|set_solver|apply NoDup_singleton]. }
  destruct r as [[]|]; simpl; [by eapply shmem_inv_update|by apply shmem_inv_tables..].
Qed.

Lemma shmem_detach_inv i pid s : inv s → inv (detach i pid s).
Proof.
  intros Hi. unfold detach. destruct (SHMEM_TABLE s !! i) as [g|] eqn:Eg; [|done].
  eapply shmem_inv_update; try done; [|apply Hi]. split_and!; try done. simpl.
  apply NoDup_filter, (sg_pids _ _ _ (inv_seg _ Hi _ _ Eg)).
Qed.

(** [destroy] gives back exactly the frames of the segment. *)
Lemma destroy_frames i g s : inv s → SHMEM_TABLE s !! i = Some g →
  let a' := foldl (λ a f, fa_dealloc f a) (falloc s) (frames g) in
  fa_ok a' ∧ fa_free a' = fa_free (falloc s) ∪ list_to_set (seg_frames g)
  ∧ fa_total a' = fa_total (falloc s).
Proof.
  intros Hi Hg. apply dealloc_all_spec; [apply Hi|]. intros f Hf.
  apply (sg_taken _ _ _ (inv_seg _ Hi _ _ Hg)). unfold seg_frames. set_solver.
Qed.

Lemma shmem_destroy_inv i s : inv s → inv (destroy i s).2.
Proof.
  intros Hi. unfold destroy. destruct (SHMEM_TABLE s !! i) as [g|] eqn:Eg; [|done].
  destruct (attached_pids g); [|done]. destruct (destroy_frames i g s Hi Eg) as (Ha' & Hf' & Ht').
  destruct Hi as [Ha Hn Hf Hs Hd]. split; simpl; try done.
  - intros k h [_ ?]%lookup_delete_Some. eauto.
  - intros k h [Hne Hk]%lookup_delete_Some. destruct (Hs _ _ Hk) as [? ? ? ? ? Htk].
    split; try done. intros j Hj. rewrite Ht', Hf'. split; [by apply Htk|].
    apply not_elem_of_union. split; [by apply Htk|]. rewrite elem_of_list_to_set. intros Hjg.
    eapply (Hd i k g h); eauto.
  - intros i1 i2 g1 g2 j [_ ?]%lookup_delete_Some [_ ?]%lookup_delete_Some. eauto.
Qed.

(** ** Histories *)

Inductive op :=
| OpCreate (nm : string) (pages creator : Z)
| OpAttach (shm_id : Z) (pml4 : PhysFrame) (hint_vaddr pid : Z)
| OpDetach (shm_id pid : Z)
| OpDestroy (shm_id : Z).

Definition apply_op (o : op) (s : t) : t :=
  match o with
  | OpCreate nm pages creator => (create nm pages creator s).2
  | OpAttach i pml4 hint pid => (attach i pml4 hint pid s).2
  | OpDetach i pid => detach i pid s
  | OpDestroy i => (destroy i s).2
  end.

Definition op_ok (o : op) : Prop := match o with OpCreate _ pages _ => 0 ≤ pages | _ => True end.

Definition run (ops : list op) (s : t) : t := foldl (λ s o, apply_op o s) s ops.

Lemma shmem_apply_op_inv o s : op_ok o → inv s → NEXT_SHM_ID s + 1 < 2 ^ 64 →
  inv (apply_op o s) ∧ NEXT_SHM_ID (apply_op o s) ≤ NEXT_SHM_ID s + 1.
Proof.
  intros Ho Hi Hb. pose proof (inv_next _ Hi). destruct o as [nm pages c|i f h p|i p|i]; simpl in *.
  - split; [by apply shmem_create_inv|]. unfold create. destruct (_ || _); simpl; [lia|].
    destruct (alloc_zeroed _ _ _) as [[[fs|] ?] ?]; simpl; [|lia]. rewrite wrap_id by (split; lia). lia.
  - split; [by apply shmem_attach_inv|]. unfold attach. destruct (_ !! _); simpl; [|lia].
    destruct (map_frames _ _ _ _) as [? [? ?]]. simpl. lia.
  - split; [by apply shmem_detach_inv|]. unfold detach. destruct (_ !! _); simpl; lia.
  - split; [by apply shmem_destroy_inv|]. unfold destroy. destruct (_ !! _) as [g|]; simpl; [|lia].
    destruct (attached_pids g); simpl; lia.
Qed.

End shmem.
Arguments SharedMemSegment {_}.
Arguments t {_} A P.
Arguments op {_}.

(** ** Theorems *)

(** A page table as a map from page to frame that refuses to map a page twice;
    it needs no intermediate frames. *)
Definition map_page_map (_ : PhysFrame) (page : Z) (f : PhysFrame)
    (pa : gmap Z Z * option BitmapFrameAllocator) : result string unit * (gmap Z Z * option BitmapFrameAllocator) :=
  match pa.1 !! page with
  | Some _ => (Err "Failed to map page", pa)
  | None => (Ok tt, (<[page := start_address f]> pa.1, pa.2))
  end.

#[export] Instance map_paging : Paging (option BitmapFrameAllocator) (gmap Z Z).
Proof.
  refine {| map_page := map_page_map |}. intros pml4 page f p a Ha. unfold map_page_map. simpl.
  destruct (p !! page); simpl; done.
Defined.

Definition demo_state : t (option BitmapFrameAllocator) (gmap Z Z) :=
  mkT ∅ ∅ 1 (Frame.init demo_map 8192) ∅ ∅.

Lemma shmem_demo_state_inv : inv demo_state.
Proof. split; simpl; [exact frame_demo_wf|lia|done|done|done]. Defined.

Section theorems.
Context `{PhysFrames} {A P : Type} `{!FrameAlloc A} `{!Paging A P}.

(** Any sequence of create, attach, detach and destroy calls keeps the
    segments isolated: every frame of a segment is allocated (never in the free
    set, so never handed to anybody else), no frame backs two segments or
    appears twice in one, segment sizes stay within 1..256 pages, and a process
    appears at most once among the attachers. *)
Theorem shmem_isolation ops (s : t A P) :
  inv s → Forall op_ok ops → NEXT_SHM_ID s + Z.of_nat (length ops) < 2 ^ 64 → inv (run ops s).
Proof.
  intros Hi Ho. revert s Hi. induction Ho as [|o ops Ho _ IH]; intros s Hi Hb; simpl in *; [done|].
  destruct (shmem_apply_op_inv o s) as [Hi' Hn]; [done..|lia|]. apply IH; [done|lia].
Qed.

(** [create] on success returns a fresh id bound to the name and to a new
    segment of exactly the requested number of pages, all zeroed and taken from
    the free frames; it fails when the page count is 0 or above 256, changing
    nothing, or when fewer frames are free than requested, and then the frames
    already taken are not given back: none is left free. *)
Theorem shmem_create_correct nm pages creator (s : t A P) :
  inv s → 0 ≤ pages → NEXT_SHM_ID s + 1 < 2 ^ 64 →
  match create nm pages creator s with
  | (Some i, s') => 1 ≤ pages ≤ 256 ∧ SHMEM_TABLE s !! i = None ∧ lookup_name nm s' = Some i
      ∧ ∃ fs, SHMEM_TABLE s' = <[i := mkSegment i nm fs pages [] creator]> (SHMEM_TABLE s)
        ∧ Z.of_nat (length fs) = pages ∧ NoDup (frame_no <$> fs)
        ∧ list_to_set (frame_no <$> fs) ⊆ fa_free (falloc s)
        ∧ fa_free (falloc s') = fa_free (falloc s) ∖ list_to_set (frame_no <$> fs)
        ∧ ∀ f, f ∈ fs → memory s' !! start_address f = Some (replicate 4096 0)
  | (None, s') => SHMEM_TABLE s' = SHMEM_TABLE s ∧ SHMEM_NAMES s' = SHMEM_NAMES s
      ∧ ((pages = 0 ∨ 256 < pages) ∧ s' = s
         ∨ Z.of_nat (size (fa_free (falloc s))) < pages ∧ fa_free (falloc s') = ∅)
  end.
Proof.
  intros Hi Hp Hb. pose proof Hi as [Ha Hn Hf Hs Hd]. unfold create.
  destruct ((pages =? 0) || (256 <? pages)) eqn:Eg.
  { apply orb_true_iff in Eg as [E%Z.eqb_eq|E%Z.ltb_lt]; split_and!; auto. }
  apply orb_false_elim in Eg as [E1%Z.eqb_neq E2%Z.ltb_ge].
  pose proof (alloc_zeroed_spec (Z.to_nat pages) (falloc s) (memory s) Ha) as Hz.
  destruct (alloc_zeroed _ _ _) as [[[fs|] a'] m']; simpl.
  - destruct Hz as (Hl & Hnd & Hsub & Hf' & Ht & Ha' & Hzero & _).
    split_and!; [lia|lia| | |].
    + destruct (SHMEM_TABLE s !! NEXT_SHM_ID s) as [g|] eqn:E; [|done]. apply Hf in E. lia.
    + unfold lookup_name. simpl. apply lookup_insert_eq.
    + exists fs. split_and!; (done || lia).
  - destruct Hz as (Hsz & Hf' & _). split_and!; [done..|]. right. split; [lia|done].
Qed.

(** [destroy] refuses while a process is attached (and for unknown ids),
    changing nothing; otherwise it removes the segment and its name and returns
    exactly the segment's frames to the allocator, leaving the other segments
    in place. *)
Theorem shmem_destroy_correct i (s : t A P) : inv s →
  match SHMEM_TABLE s !! i with
  | None => destroy i s = (false, s)
  | Some g =>
      if decide (attached_pids g = []) then
        let '(ok, s') := destroy i s in
        ok = true ∧ SHMEM_TABLE s' = delete i (SHMEM_TABLE s)
        ∧ SHMEM_NAMES s' = delete (name g) (SHMEM_NAMES s)
        ∧ fa_free (falloc s') = fa_free (falloc s) ∪ list_to_set (seg_frames g)
        ∧ list_to_set (seg_frames g) ## fa_free (falloc s)
      else destroy i s = (false, s)
  end.
Proof.
  intros Hi. unfold destroy. destruct (SHMEM_TABLE s !! i) as [g|] eqn:Eg; [|done].
  case_decide as Hp; [|by destruct (attached_pids g)]. rewrite Hp. simpl.
  destruct (destroy_frames i g s Hi Eg) as (_ & Hf' & _). split_and!; try done.
  intros j Hj%elem_of_list_to_set. by apply (sg_taken _ _ _ (inv_seg _ Hi _ _ Eg)).
Qed.

End theorems.

Definition demo_ops : list op :=
  [OpCreate "a" 3 1; OpAttach 1 8192 0 7; OpCreate "b" 2 1; OpDestroy 1; OpDetach 1 7; OpDestroy 1].

Lemma shmem_isolation_witness :
  inv (run demo_ops demo_state) ∧ dom (SHMEM_TABLE (run demo_ops demo_state)) = {[2]}.
Proof.
  split; [|vm_compute; reflexivity].
  apply (shmem_isolation demo_ops demo_state shmem_demo_state_inv).
  - repeat first [apply Forall_cons_2 | apply Forall_nil_2]; simpl; (exact I || lia).
  - vm_compute. reflexivity.
Defined.

Lemma shmem_create_correct_witness :
  (create "a" 3 1 demo_state).1 = Some 1 ∧ lookup_name "a" (create "a" 3 1 demo_state).2 = Some 1.
Proof.
  split; [vm_compute; reflexivity|].
  exact (proj1 (proj2 (proj2 (shmem_create_correct "a" 3 1 demo_state shmem_demo_state_inv
    ltac:(lia) ltac:(vm_compute; reflexivity))))).
Defined.

Lemma shmem_destroy_correct_witness : destroy 5 demo_state = (false, demo_state).
Proof. exact (shmem_destroy_correct 5 demo_state shmem_demo_state_inv). Defined.

(** ** Consequences of the code as written *)

(** Two segments may carry the same name; destroying the first one removes the
    name of the second, which then cannot be looked up. *)
Lemma shmem_duplicate_name :
  let s := run [OpCreate "a" 1 1; OpCreate "a" 1 1; OpDestroy 1] demo_state in
  lookup_name "a" s = None ∧ name <$> SHMEM_TABLE s !! 2 = Some "a"%string.
Proof. vm_compute. done. Qed.

(** [attach] that fails after mapping some pages leaves them mapped without
    recording the process: [destroy] then frees a frame the process can still
    reach (here the page at 0x20000000 keeps pointing at frame 2). *)
Lemma shmem_partial_attach :
  let s0 := mkT ∅ ∅ 1 (Frame.init demo_map 8192) {[ 0x20001000 := 0 ]} ∅ : t (option BitmapFrameAllocator) (gmap Z Z) in
  let s1 := run [OpCreate "a" 2 1] s0 in
  let '(r, s2) := attach 1 0 0 7 s1 in
  let '(ok, s3) := destroy 1 s2 in
  r = Returned None ∧ ok = true ∧ tables s3 !! 0x20000000 = Some 8192
  ∧ bool_decide (2 ∈ global_free (falloc s3)) = true.
Proof. vm_compute. done. Qed.

(** A hint outside the canonical range is not rejected: [VirtAddr::new]
    panics on it. *)
Lemma shmem_attach_panics :
  (attach 1 0 0x800000000000 7 (run [OpCreate "a" 2 1] demo_state)).1 = Panicked.
Proof. vm_compute. done. Qed.
