(* ===== verification/Cgroup.v ===== *)
(** Control groups: [kernel/src/memory/cgroup.rs].

    [CGROUP_TABLE] and [NEXT_CGID] form the state [t]; every public function is
    one definition on it.  The table is a [BTreeMap], so [cgroup_list] and
    [cgroup_of_pid] see the ids in increasing order. *)

From S2P Require Import Prelude.

Inductive CgroupError := OutOfMemory | PidLimitExceeded | NotFound | NotEmpty.

Record CgroupLimits := mkLimits { memory_limit : Z; pid_limit : Z; cpu_shares : Z }.

Definition default_limits : CgroupLimits := mkLimits 0 0 1024.

Record Cgroup := mkCgroup {
  name : string;
  limits : CgroupLimits;
  memory_used : Z;
  memory_peak : Z;
  oom_count : Z;
  pids : list Z;
}.

Record CgroupStat := mkStat {
  stat_name : string;
  stat_id : Z;
  stat_limits : CgroupLimits;
  stat_memory_used : Z;
  stat_memory_peak : Z;
  stat_oom_count : Z;
  stat_pid_count : Z;
}.

Definition new_cgroup (nm : string) (l : CgroupLimits) : Cgroup := mkCgroup nm l 0 0 0 [].

Record t := mkT { CGROUP_TABLE : gmap Z Cgroup; NEXT_CGID : Z }.

Definition set_table (f : gmap Z Cgroup → gmap Z Cgroup) (s : t) : t :=
  mkT (f (CGROUP_TABLE s)) (NEXT_CGID s).

Definition cgroup_create (nm : string) (l : CgroupLimits) (s : t) : Z * t :=
  let id := NEXT_CGID s in
  (id, mkT (<[id := new_cgroup nm l]> (CGROUP_TABLE s)) (wrap 64 (id + 1))).

Definition cgroup_destroy (id : Z) (s : t) : result CgroupError unit * t :=
  match CGROUP_TABLE s !! id with
  | None => (Err NotFound, s)
  | Some g =>
      match pids g with
      | _ :: _ => (Err NotEmpty, s)
      | [] => (Ok tt, set_table (delete id) s)
      end
  end.

Definition cgroup_add_pid (id pid : Z) (s : t) : result CgroupError unit * t :=
  match CGROUP_TABLE s !! id with
  | None => (Err NotFound, s)
  | Some g =>
      if (0 <? pid_limit (limits g)) && (pid_limit (limits g) <=? Z.of_nat (length (pids g)))
      then (Err PidLimitExceeded, s)
      else if bool_decide (pid ∈ pids g) then (Ok tt, s)
      else (Ok tt, set_table (insert id
              (mkCgroup (name g) (limits g) (memory_used g) (memory_peak g) (oom_count g) (pids g ++ [pid]))) s)
  end.

Definition cgroup_remove_pid (id pid : Z) (s : t) : t :=
  match CGROUP_TABLE s !! id with
  | None => s
  | Some g => set_table (insert id
      (mkCgroup (name g) (limits g) (memory_used g) (memory_peak g) (oom_count g)
         (base.filter (λ p, p ≠ pid) (pids g)))) s
  end.

Definition cgroup_account_alloc (id bytes : Z) (s : t) : result CgroupError unit * t :=
  match CGROUP_TABLE s !! id with
  | None => (Err NotFound, s)
  | Some g =>
      let new_used := saturating_add 64 (memory_used g) bytes in
      if (0 <? memory_limit (limits g)) && (memory_limit (limits g) <? new_used)
      then (Err OutOfMemory, set_table (insert id
              (mkCgroup (name g) (limits g) (memory_used g) (memory_peak g) (wrap 64 (oom_count g + 1)) (pids g))) s)
      else
        let peak := if memory_peak g <? new_used then new_used else memory_peak g in
        (Ok tt, set_table (insert id
           (mkCgroup (name g) (limits g) new_used peak (oom_count g) (pids g))) s)
  end.

Definition cgroup_account_free (id bytes : Z) (s : t) : t :=
  match CGROUP_TABLE s !! id with
  | None => s
  | Some g => set_table (insert id
      (mkCgroup (name g) (limits g) (saturating_sub (memory_used g) bytes) (memory_peak g) (oom_count g) (pids g))) s
  end.

Definition cgroup_stat (id : Z) (s : t) : option CgroupStat :=
  g ← CGROUP_TABLE s !! id;
  Some (mkStat (name g) id (limits g) (memory_used g) (memory_peak g) (oom_count g)
          (wrap 32 (Z.of_nat (length (pids g))))).

Definition cgroup_set_limits (id : Z) (l : CgroupLimits) (s : t) : result CgroupError unit * t :=
  match CGROUP_TABLE s !! id with
  | None => (Err NotFound, s)
  | Some g => (Ok tt, set_table (insert id
      (mkCgroup (name g) l (memory_used g) (memory_peak g) (oom_count g) (pids g))) s)
  end.

Definition cgroup_list (s : t) : list Z := sorted_keys (CGROUP_TABLE s).

Definition cgroup_of_pid (pid : Z) (s : t) : option Z :=
  List.find (λ id, match CGROUP_TABLE s !! id with
                   | Some g => bool_decide (pid ∈ pids g)
                   | None => false
                   end) (cgroup_list s).

Definition cgroup_total_charged (s : t) : Z :=
  foldr (λ id acc, from_option memory_used 0 (CGROUP_TABLE s !! id) + acc) 0 (cgroup_list s).

Definition init (s : t) : t :=
  set_table (insert 0 (new_cgroup "root" (mkLimits 0 0 1024))) s.

(** ** Invariant *)

Record group_wf (g : Cgroup) : Prop := {
  gw_used : 0 ≤ memory_used g ≤ memory_peak g;
  gw_peak : memory_peak g < 2 ^ 64;
  gw_pids : NoDup (pids g);
}.

(** Within its limits; 0 means unlimited. *)
Definition within (g : Cgroup) : Prop :=
  (memory_limit (limits g) = 0 ∨ memory_used g ≤ memory_limit (limits g))
  ∧ (pid_limit (limits g) = 0 ∨ Z.of_nat (length (pids g)) ≤ pid_limit (limits g)).

Definition limits_ok (l : CgroupLimits) : Prop := uN 64 (memory_limit l) ∧ uN 32 (pid_limit l).

Record inv (s : t) : Prop := {
  inv_next : 1 ≤ NEXT_CGID s < 2 ^ 64;
  inv_fresh i g : CGROUP_TABLE s !! i = Some g → 0 ≤ i < NEXT_CGID s;
  inv_limits i g : CGROUP_TABLE s !! i = Some g → limits_ok (limits g);
  inv_group i g : CGROUP_TABLE s !! i = Some g → group_wf g;
  inv_within i g : CGROUP_TABLE s !! i = Some g → within g;
}.

Inductive op :=
| OpCreate (nm : string) (l : CgroupLimits)
| OpDestroy (id : Z)
| OpAddPid (id pid : Z)
| OpRemovePid (id pid : Z)
| OpAlloc (id bytes : Z)
| OpFree (id bytes : Z).

Definition apply_op (o : op) (s : t) : t :=
  match o with
  | OpCreate nm l => (cgroup_create nm l s).2
  | OpDestroy id => (cgroup_destroy id s).2
  | OpAddPid id pid => (cgroup_add_pid id pid s).2
  | OpRemovePid id pid => cgroup_remove_pid id pid s
  | OpAlloc id bytes => (cgroup_account_alloc id bytes s).2
  | OpFree id bytes => cgroup_account_free id bytes s
  end.

Definition op_ok (o : op) : Prop :=
  match o with
  | OpCreate _ l => limits_ok l
  | OpAlloc _ b | OpFree _ b => uN 64 b
  | _ => True
  end.

Definition run (ops : list op) (s : t) : t := foldl (λ s o, apply_op o s) s ops.

(** ** Lemmas *)

(** Replacing one group by one with the same limits that is still well formed
    and within them. *)
Lemma cgroup_inv_update s i g g' :
  inv s → CGROUP_TABLE s !! i = Some g → limits g' = limits g → group_wf g' → within g' →
  inv (set_table (insert i g') s).
Proof.
  intros [Hn Hf Hl Hg Hw] Hi El Hg' Hw'.
  assert (Hcase : ∀ k h, <[i := g']> (CGROUP_TABLE s) !! k = Some h →
    (k = i ∧ h = g') ∨ CGROUP_TABLE s !! k = Some h).
  { intros k h [[-> ->]|[_ ?]]%lookup_insert_Some; auto. }
  split; simpl; [done|intros k h [[-> ->]|?]%Hcase..]; eauto.
  rewrite El. eauto.
Qed.

Lemma add_pid_inv i pid s : inv s → inv (cgroup_add_pid i pid s).2.
Proof.
  intros Hi. unfold cgroup_add_pid. destruct (CGROUP_TABLE s !! i) as [g|] eqn:Eg; [|done].
  pose proof (inv_limits _ Hi _ _ Eg) as [_ [Hl _]].
  destruct (inv_within _ Hi _ _ Eg) as [Hw _]. destruct (inv_group _ Hi _ _ Eg) as [? ? Hnd].
  destruct ((0 <? _) && (_ <=? _)) eqn:E; simpl; [done|].
  case_bool_decide; simpl; [done|]. eapply cgroup_inv_update; try done.
  - split; simpl; try done. apply NoDup_app. split_and!; [done|set_solver|apply NoDup_singleton].
  - split; simpl; [done|]. rewrite length_app. simpl. apply andb_false_iff in E as [E%Z.ltb_ge|E%Z.leb_gt]; lia.
Qed.

Lemma account_alloc_inv i bytes s : uN 64 bytes → inv s → inv (cgroup_account_alloc i bytes s).2.
Proof.
  intros Hb Hi. unfold cgroup_account_alloc. destruct (CGROUP_TABLE s !! i) as [g|] eqn:Eg; [|done].
  pose proof (inv_limits _ Hi _ _ Eg) as [[Hl _] _].
  destruct (inv_within _ Hi _ _ Eg) as [Hw Hp]. destruct (inv_group _ Hi _ _ Eg) as [Hu Hk Hnd].
  destruct Hb. unfold saturating_add.
  destruct ((0 <? _) && (_ <? _)) eqn:E; simpl; (eapply cgroup_inv_update; [done|done|done|..]).
  - done.
  - done.
  - split; simpl; [|..|done]; destruct (Z.ltb_spec (memory_peak g) (Z.min (memory_used g + bytes) (2 ^ 64 - 1))); lia.
  - split; simpl; [|done]. apply andb_false_iff in E as [E%Z.ltb_ge|E%Z.ltb_ge]; lia.
Qed.

Lemma account_free_inv i bytes s : uN 64 bytes → inv s → inv (cgroup_account_free i bytes s).
Proof.
  intros [Hb _] Hi. unfold cgroup_account_free. destruct (CGROUP_TABLE s !! i) as [g|] eqn:Eg; [|done].
  destruct (inv_within _ Hi _ _ Eg) as [Hw Hp]. destruct (inv_group _ Hi _ _ Eg) as [Hu Hk Hnd].
  unfold saturating_sub. eapply cgroup_inv_update; try done; split; simpl; try done; lia.
Qed.

Lemma remove_pid_inv i pid s : inv s → inv (cgroup_remove_pid i pid s).
Proof.
  intros Hi. unfold cgroup_remove_pid. destruct (CGROUP_TABLE s !! i) as [g|] eqn:Eg; [|done].
  destruct (inv_within _ Hi _ _ Eg) as [Hw Hp]. destruct (inv_group _ Hi _ _ Eg) as [Hu Hk Hnd].
  eapply cgroup_inv_update; try done; split; simpl; try done; [by apply NoDup_filter|].
  pose proof (length_filter (λ p, p ≠ pid) (pids g)). lia.
Qed.

Lemma cgroup_create_inv nm l s : limits_ok l → NEXT_CGID s + 1 < 2 ^ 64 → inv s → inv (cgroup_create nm l s).2.
Proof.
  intros Hl Hb [Hn Hf Hll Hg Hw]. unfold cgroup_create. simpl. rewrite wrap_id by (split; lia).
  assert (Hcase : ∀ k h, <[NEXT_CGID s := new_cgroup nm l]> (CGROUP_TABLE s) !! k = Some h →
    (k = NEXT_CGID s ∧ h = new_cgroup nm l) ∨ CGROUP_TABLE s !! k = Some h).
  { intros k h [[-> ->]|[_ ?]]%lookup_insert_Some; auto. }
  split; simpl; [lia|intros k h [[-> ->]|Hk]%Hcase..]; eauto.
  - lia.
  - apply Hf in Hk. lia.
  - split; simpl; [lia|lia|apply NoDup_nil_2].
  - destruct Hl as [[? _] [? _]]. split; simpl; lia.
Qed.

Lemma cgroup_destroy_inv i s : inv s → inv (cgroup_destroy i s).2.
Proof.
  intros Hi. unfold cgroup_destroy. destruct (CGROUP_TABLE s !! i) as [g|]; [|done].
  destruct (pids g); [|done]. destruct Hi as [Hn Hf Hl Hg Hw].
  split; simpl; [done|intros k h [_ Hk]%lookup_delete_Some..]; eauto.
Qed.

Lemma cgroup_apply_op_inv o s : op_ok o → NEXT_CGID s + 1 < 2 ^ 64 → inv s →
  inv (apply_op o s) ∧ NEXT_CGID (apply_op o s) ≤ NEXT_CGID s + 1.
Proof.
  intros Ho Hb Hi. pose proof (inv_next _ Hi). split.
  - destruct o; [by apply cgroup_create_inv|by apply cgroup_destroy_inv|by apply add_pid_inv|by apply remove_pid_inv
      |by apply account_alloc_inv|by apply account_free_inv].
  - destruct o as [nm l|i|i p|i p|i b|i b]; simpl.
    1: { rewrite wrap_id by (split; lia). lia. }
    all: unfold cgroup_destroy, cgroup_add_pid, cgroup_remove_pid, cgroup_account_alloc, cgroup_account_free;
      destruct (_ !! _) as [g|]; simpl; try lia;
      repeat match goal with
        | |- context [if ?b then _ else _] => destruct b
        | |- context [match pids ?g with _ => _ end] => destruct (pids g)
        end; simpl; lia.
Qed.

(** ** Theorems *)

(** As long as the limits themselves are not rewritten, every sequence of
    create, destroy, add/remove pid, charge and release calls keeps each group
    inside its limits: the bytes charged never exceed a non-zero memory limit,
    the number of tasks never exceeds a non-zero pid limit, usage stays below
    the recorded peak, and no pid is listed twice in a group. *)
Theorem cgroup_limits_enforced ops s :
  inv s → Forall op_ok ops → NEXT_CGID s + Z.of_nat (length ops) < 2 ^ 64 → inv (run ops s).
Proof.
  intros Hi Ho. revert s Hi. induction Ho as [|o ops Ho _ IH]; intros s Hi Hb; simpl in *; [done|].
  destruct (cgroup_apply_op_inv o s) as [Hi' Hn]; [done|lia|done|]. apply IH; [done|lia].
Qed.

Definition demo_state : t := init (mkT ∅ 1).

Definition demo_ops : list op :=
  [OpCreate "web" (mkLimits 1000 2 512); OpAddPid 1 7; OpAlloc 1 600; OpAlloc 1 600; OpAddPid 1 8; OpAddPid 1 9].

Lemma cgroup_demo_state_inv : inv demo_state.
Proof.
  split; simpl; [lia|intros i g [[<- <-]|[_ ?]]%lookup_insert_Some; [|done]..].
  - lia.
  - split; split; simpl; lia.
  - split; simpl; [lia|lia|apply NoDup_nil_2].
  - split; simpl; lia.
Defined.

Lemma cgroup_limits_enforced_witness :
  inv (run demo_ops demo_state)
  ∧ cgroup_stat 1 (run demo_ops demo_state) = Some (mkStat "web" 1 (mkLimits 1000 2 512) 600 600 1 2).
Proof.
  split; [|vm_compute; reflexivity].
  apply (cgroup_limits_enforced demo_ops demo_state cgroup_demo_state_inv).
  - repeat first [apply Forall_cons_2 | apply Forall_nil_2]; simpl;
      try exact I; repeat split; simpl; lia.
  - vm_compute. reflexivity.
Defined.

(** The charge and release operations in full.  Charging an unknown group
    is [NotFound]; charging past a non-zero limit is [OutOfMemory], counts one
    failure and charges nothing; otherwise usage grows by the amount (saturating
    at the top of u64), the peak follows, no other group changes, and releasing
    the same amount restores the usage unless it saturated. *)
Theorem cgroup_account_correct id bytes s : inv s → uN 64 bytes →
  match CGROUP_TABLE s !! id, cgroup_account_alloc id bytes s with
  | None, (r, s') => r = Err NotFound ∧ s' = s
  | Some g, (Err e, s') => e = OutOfMemory ∧ 0 < memory_limit (limits g) < memory_used g + bytes
      ∧ CGROUP_TABLE s' = <[id := mkCgroup (name g) (limits g) (memory_used g) (memory_peak g)
                                   (wrap 64 (oom_count g + 1)) (pids g)]> (CGROUP_TABLE s)
  | Some g, (Ok _, s') =>
      ∃ g', CGROUP_TABLE s' = <[id := g']> (CGROUP_TABLE s)
      ∧ (memory_limit (limits g) = 0 ∨ memory_used g' ≤ memory_limit (limits g))
      ∧ memory_used g' = Z.min (memory_used g + bytes) (2 ^ 64 - 1)
      ∧ memory_peak g' = Z.max (memory_peak g) (memory_used g')
      ∧ pids g' = pids g ∧ limits g' = limits g ∧ oom_count g' = oom_count g
      ∧ (memory_used g + bytes < 2 ^ 64 →
         memory_used <$> CGROUP_TABLE (cgroup_account_free id bytes s') !! id = Some (memory_used g))
  end.
Proof.
  intros Hi [Hb _]. unfold cgroup_account_alloc. destruct (CGROUP_TABLE s !! id) as [g|] eqn:Eg; [|done].
  pose proof (inv_limits _ Hi _ _ Eg) as [[Hl Hl'] _]. destruct (inv_group _ Hi _ _ Eg) as [Hu Hk _].
  unfold saturating_add. destruct ((0 <? _) && (_ <? _)) eqn:E; simpl.
  - apply andb_true_iff in E as [E1%Z.ltb_lt E2%Z.ltb_lt]. split_and!; (done || lia).
  - eexists. split; [done|]. simpl. split_and!; try done.
    + apply andb_false_iff in E as [E%Z.ltb_ge|E%Z.ltb_ge]; lia.
    + case_bool; lia.
    + intros Hsat. unfold cgroup_account_free. simpl. rewrite lookup_insert_eq. simpl.
      rewrite lookup_insert_eq. simpl. f_equal. unfold saturating_sub. lia.
Qed.

Lemma cgroup_account_correct_witness :
  (cgroup_account_alloc 3 10 demo_state).1 = Err NotFound ∧ inv demo_state.
Proof.
  split; [|exact cgroup_demo_state_inv].
  exact (proj1 (cgroup_account_correct 3 10 demo_state cgroup_demo_state_inv
    ltac:(split; lia))).
Defined.

(** [cgroup_of_pid] finds a group containing the pid if there is one, and
    the one with the lowest id; membership and the group's task list agree. *)
Theorem cgroup_of_pid_correct pid s :
  match cgroup_of_pid pid s with
  | Some i => (∃ g, CGROUP_TABLE s !! i = Some g ∧ pid ∈ pids g)
      ∧ ∀ k g, CGROUP_TABLE s !! k = Some g → pid ∈ pids g → i ≤ k
  | None => ∀ k g, CGROUP_TABLE s !! k = Some g → pid ∉ pids g
  end.
Proof.
  unfold cgroup_of_pid. set (f := λ id, match CGROUP_TABLE s !! id with Some g => _ | None => false end).
  assert (Hf : ∀ k g, CGROUP_TABLE s !! k = Some g → f k = bool_decide (pid ∈ pids g))
    by (intros k g E; unfold f; by rewrite E).
  destruct (List.find f (cgroup_list s)) as [i|] eqn:E.
  - split.
    + apply find_some in E as [_ E]. unfold f in E. destruct (CGROUP_TABLE s !! i) as [g|]; [|done].
      exists g. split; [done|]. by apply bool_decide_eq_true in E.
    + intros k g Hk Hp. apply (find_sorted_least f _ _ (sorted_keys_sorted _) E).
      * apply elem_of_sorted_keys. eauto.
      * rewrite (Hf _ _ Hk). by apply bool_decide_eq_true.
  - intros k g Hk Hp. assert (Hin : k ∈ cgroup_list s) by (apply elem_of_sorted_keys; eauto).
    apply list_elem_of_In in Hin. apply (find_none _ _ E) in Hin. rewrite (Hf _ _ Hk) in Hin.
    by apply bool_decide_eq_false in Hin.
Qed.
