(* ===== verification/Swap.v ===== *)
(** Page swapping: [kernel/src/memory/swap.rs].

    The swap table, the free slots, the sector counter and the statistics are
    the module's globals; with the frame allocator, the bytes of physical memory
    and the block device they form the state [t].  The VirtIO block driver is
    the class [BlockDev]: its laws say that a sector read gives back what was
    last written there and that a write touches its own sector only; either may
    fail at any time.  The abstract state is [swapped], the contents of every
    swapped-out page by process and page number. *)

From S2P Require Import Prelude Frame.

(** ** Block device *)
Class BlockDev (D : Type) := {
  write_sector : Z → list Z → D → result string unit * D;
  read_sector : Z → D → result string (list Z) * D;
  contents : D → Z → list Z;
  contents_len d x : length (contents d x) = 512%nat;
  write_ok x b d d' : write_sector x b d = (Ok tt, d') → length b = 512%nat → contents d' x = b;
  write_other x b d r d' y : write_sector x b d = (r, d') → y ≠ x → contents d' y = contents d y;
  read_ok x d b d' : read_sector x d = (Ok b, d') → b = contents d x;
  read_same x d r d' y : read_sector x d = (r, d') → contents d' y = contents d y;
}.

Definition SECTORS_PER_PAGE : Z := 8.

Record SwapSlot := mkSlot { sector_start : Z; sector_count : Z }.

#[export] Instance SwapSlot_eq : EqDecision SwapSlot.
Proof. solve_decision. Defined.

(** [SwapKey]: process and virtual page number. *)
Abbreviation SwapKey := (Z * Z)%type.

Section swap.
Context `{PhysFrames} {A D : Type} `{!FrameAlloc A} `{!BlockDev D}.

Record t := mkT {
  SWAP_TABLE : gmap SwapKey SwapSlot;
  SWAP_SECTOR_NEXT : Z;
  SWAP_FREE_SLOTS : list SwapSlot;
  SWAP_AVAILABLE : bool;
  SWAP_OUT_COUNT : Z;
  SWAP_IN_COUNT : Z;
  falloc : A;
  memory : gmap Z (list Z);
  disk : D;
}.

Definition set_slots (next : Z) (free : list SwapSlot) (s : t) : t :=
  mkT (SWAP_TABLE s) next free (SWAP_AVAILABLE s) (SWAP_OUT_COUNT s) (SWAP_IN_COUNT s) (falloc s) (memory s) (disk s).
Definition set_io (m : gmap Z (list Z)) (d : D) (s : t) : t :=
  mkT (SWAP_TABLE s) (SWAP_SECTOR_NEXT s) (SWAP_FREE_SLOTS s) (SWAP_AVAILABLE s) (SWAP_OUT_COUNT s)
    (SWAP_IN_COUNT s) (falloc s) m d.
Definition set_table (tb : gmap SwapKey SwapSlot) (s : t) : t :=
  mkT tb (SWAP_SECTOR_NEXT s) (SWAP_FREE_SLOTS s) (SWAP_AVAILABLE s) (SWAP_OUT_COUNT s)
    (SWAP_IN_COUNT s) (falloc s) (memory s) (disk s).
Definition set_falloc (a : A) (s : t) : t :=
  mkT (SWAP_TABLE s) (SWAP_SECTOR_NEXT s) (SWAP_FREE_SLOTS s) (SWAP_AVAILABLE s) (SWAP_OUT_COUNT s)
    (SWAP_IN_COUNT s) a (memory s) (disk s).
Definition set_counts (o i : Z) (s : t) : t :=
  mkT (SWAP_TABLE s) (SWAP_SECTOR_NEXT s) (SWAP_FREE_SLOTS s) (SWAP_AVAILABLE s) o i (falloc s) (memory s) (disk s).

(** The free slots are a stack: the head is the end of the [Vec]. *)
Definition alloc_swap_slot (s : t) : option SwapSlot * t :=
  match SWAP_FREE_SLOTS s with
  | slot :: rest => (Some slot, set_slots (SWAP_SECTOR_NEXT s) rest s)
  | [] =>
      let sector := SWAP_SECTOR_NEXT s in
      (Some (mkSlot sector SECTORS_PER_PAGE), set_slots (wrap 64 (sector + SECTORS_PER_PAGE)) [] s)
  end.

Definition free_swap_slot (slot : SwapSlot) (s : t) : t :=
  set_slots (SWAP_SECTOR_NEXT s) (slot :: SWAP_FREE_SLOTS s) s.

(** Bytes of a frame, by its start address. *)
Definition page_of (m : gmap Z (list Z)) (addr : Z) : list Z := default zero_page (m !! addr).

(** [for i in 0..8 { write_sector(sector_start + i, &data[i*512..][..512]) }],
    stopping at the first error; [n] sectors from index [i] on. *)
Fixpoint write_page (n : nat) (i : Z) (sector : Z) (data : list Z) (d : D) : bool * D :=
  match n with
  | O => (true, d)
  | S n' =>
      let offset := Z.to_nat (i * 512) in
      match write_sector (sector + i) (take 512 (drop offset data)) d with
      | (Ok _, d') => write_page n' (i + 1) sector data d'
      | (Err _, d') => (false, d')
      end
  end.

Definition swap_out (pid vaddr : Z) (frame : PhysFrame) (s : t) : bool * t :=
  if negb (SWAP_AVAILABLE s) then (false, s)
  else
    match alloc_swap_slot s with
    | (None, s1) => (false, s1)
    | (Some slot, s1) =>
        let data := page_of (memory s1) (start_address frame) in
        let '(success, d') := write_page 8 0 (sector_start slot) data (disk s1) in
        let s2 := set_io (memory s1) d' s1 in
        if negb success then (false, free_swap_slot slot s2)
        else
          let s3 := set_table (<[(pid, Z.shiftr vaddr 12) := slot]> (SWAP_TABLE s2)) s2 in
          let s4 := set_falloc (fa_dealloc frame (falloc s3)) s3 in
          (true, set_counts (wrap 64 (SWAP_OUT_COUNT s4 + 1)) (SWAP_IN_COUNT s4) s4)
    end.

(** [data[offset..offset + 512].copy_from_slice(&sector_buf)] *)
Definition store_sector (page : list Z) (offset : nat) (buf : list Z) : list Z :=
  take offset page ++ buf ++ drop (offset + 512) page.

(** The read loop of [swap_in]: fills the frame at [addr] sector by sector. *)
Fixpoint read_page (n : nat) (i : Z) (sector addr : Z) (m : gmap Z (list Z)) (d : D) : bool * gmap Z (list Z) * D :=
  match n with
  | O => (true, m, d)
  | S n' =>
      let offset := Z.to_nat (i * 512) in
      match read_sector (sector + i) d with
      | (Ok buf, d') => read_page n' (i + 1) sector addr (<[addr := store_sector (page_of m addr) offset buf]> m) d'
      | (Err _, d') => (false, m, d')
      end
  end.

Definition swap_in (pid vaddr : Z) (s : t) : option PhysFrame * t :=
  let key := (pid, Z.shiftr vaddr 12) in
  match SWAP_TABLE s !! key with
  | None => (None, s)
  | Some slot =>
      let s1 := set_table (delete key (SWAP_TABLE s)) s in
      match fa_alloc (falloc s1) with
      | (None, a') => (None, set_falloc a' s1)
      | (Some frame, a') =>
          let s2 := set_falloc a' s1 in
          let '(ok, m', d') := read_page 8 0 (sector_start slot) (start_address frame) (memory s2) (disk s2) in
          let s3 := set_io m' d' s2 in
          if ok then
            let s4 := free_swap_slot slot s3 in
            (Some frame, set_counts (SWAP_OUT_COUNT s4) (wrap 64 (SWAP_IN_COUNT s4 + 1)) s4)
          else (None, free_swap_slot slot (set_falloc (fa_dealloc frame (falloc s3)) s3))
      end
  end.

Definition is_swapped (pid vaddr : Z) (s : t) : bool :=
  bool_decide (is_Some (SWAP_TABLE s !! (pid, Z.shiftr vaddr 12))).

Definition swapped_page_count (s : t) : Z := Z.of_nat (size (SWAP_TABLE s)).

(** ** Abstract state and invariant *)

Definition slot_page (d : D) (slot : SwapSlot) : list Z :=
  concat (map (λ k, contents d (sector_start slot + Z.of_nat k)) (seq 0 8)).

Definition swapped (s : t) : gmap SwapKey (list Z) := slot_page (disk s) <$> SWAP_TABLE s.

(** A slot is an aligned run of eight sectors already handed out. *)
Definition slot_ok (next : Z) (slot : SwapSlot) : Prop :=
  sector_count slot = 8 ∧ 1024 ≤ sector_start slot ∧ sector_start slot + 8 ≤ next
  ∧ sector_start slot `mod` 8 = 0.

Record inv (s : t) : Prop := {
  inv_alloc : fa_ok (falloc s);
  inv_next : 1024 ≤ SWAP_SECTOR_NEXT s < 2 ^ 64 ∧ SWAP_SECTOR_NEXT s `mod` 8 = 0;
  inv_table k slot : SWAP_TABLE s !! k = Some slot → slot_ok (SWAP_SECTOR_NEXT s) slot;
  inv_free slot : slot ∈ SWAP_FREE_SLOTS s → slot_ok (SWAP_SECTOR_NEXT s) slot;
  inv_free_nodup : NoDup (SWAP_FREE_SLOTS s);
  inv_free_table k slot : SWAP_TABLE s !! k = Some slot → slot ∉ SWAP_FREE_SLOTS s;
  inv_inj k1 k2 slot : SWAP_TABLE s !! k1 = Some slot → SWAP_TABLE s !! k2 = Some slot → k1 = k2;
  inv_pages addr p : memory s !! addr = Some p → length p = 4096%nat;
}.

Lemma page_len s addr : inv s → length (page_of (memory s) addr) = 4096%nat.
Proof.
  intros Hi. unfold page_of. destruct (memory s !! addr) eqn:E; simpl; [by eapply inv_pages|done].
Qed.

(** Different slots share no sector. *)
Lemma slots_disjoint n1 n2 s1 s2 i j :
  slot_ok n1 s1 → slot_ok n2 s2 → s1 ≠ s2 → 0 ≤ i < 8 → 0 ≤ j < 8 → sector_start s1 + i ≠ sector_start s2 + j.
Proof.
  intros (Hc1 & _ & _ & Hm1) (Hc2 & _ & _ & Hm2) Hne Hi Hj E. apply Hne.
  destruct s1 as [a ca], s2 as [b cb]; simpl in *. f_equal; [|congruence].
  pose proof (Z.div_mod a 8). pose proof (Z.div_mod b 8). lia.
Qed.

Lemma slot_page_ext d d' slot :
  (∀ i, 0 ≤ i < 8 → contents d' (sector_start slot + i) = contents d (sector_start slot + i)) →
  slot_page d' slot = slot_page d slot.
Proof.
  intros Hc. unfold slot_page. f_equal. apply map_ext_in. intros k [_ Hk]%in_seq. apply Hc. lia.
Qed.

(** Cutting into 512-byte pieces and gluing them. *)
Lemma concat_sectors (l : list Z) m :
  concat (map (λ k, take 512 (drop (k * 512) l)) (seq 0 m)) = take (m * 512) l.
Proof.
  induction m as [|m IH]; [done|]. rewrite seq_S, map_app, concat_app, IH. cbn [map concat].
  rewrite app_nil_r. replace (S m * 512)%nat with (m * 512 + 512)%nat by lia.
  rewrite <- (take_take_drop l (m * 512) 512). done.
Qed.

Lemma write_page_spec n i sector data d ok d' :
  length data = 4096%nat → 0 ≤ i → i + Z.of_nat n ≤ 8 → write_page n i sector data d = (ok, d') →
  (∀ y, ¬ (sector + i ≤ y < sector + i + Z.of_nat n) → contents d' y = contents d y)
  ∧ (ok = true → ∀ k, i ≤ k < i + Z.of_nat n →
      contents d' (sector + k) = take 512 (drop (Z.to_nat (k * 512)) data)).
Proof.
  intros Hlen. revert i d. induction n as [|n IH]; intros i d Hi Hn; cbn [write_page].
  { intros [= <- <-]. split; [done|lia]. }
  destruct (write_sector _ _ _) as [[[]|e] d1] eqn:E.
  - intros Hw. destruct (IH (i + 1) d1) as [H1 H2]; [lia|lia|done|]. split.
    + intros y Hy. rewrite H1 by lia. eapply write_other; [done|lia].
    + intros -> k Hk. destruct (Z.eq_dec k i) as [->|]; [|apply H2; [done|lia]].
      rewrite H1 by lia. eapply write_ok; [done|]. rewrite length_take, length_drop. lia.
  - intros [= <- <-]. split; [|done]. intros y Hy. eapply write_other; [done|lia].
Qed.

(** A complete write stores the page in the slot. *)
Lemma write_page_slot slot data d d' :
  length data = 4096%nat → write_page 8 0 (sector_start slot) data d = (true, d') → slot_page d' slot = data.
Proof.
  intros Hlen Hw. destruct (write_page_spec 8 0 _ _ _ _ _ Hlen ltac:(lia) ltac:(lia) Hw) as [_ Hk].
  unfold slot_page. transitivity (take (8 * 512) data); [|by apply take_ge; rewrite Hlen].
  rewrite <- concat_sectors. f_equal. apply map_ext_in. intros k [_ Hkk]%in_seq.
  rewrite Hk by (done || lia). do 2 f_equal. lia.
Qed.

Lemma page_of_insert m a p : page_of (<[a := p]> m) a = p.
Proof. unfold page_of. by rewrite lookup_insert_eq. Qed.

(** After [i] sectors the frame starts with the first [i] sectors of the slot;
    the loop touches neither the disk contents nor any other frame. *)
Lemma read_page_spec n i sector addr m d ok m' d' :
  (i + n = 8)%nat → length (page_of m addr) = 4096%nat →
  take (i * 512) (page_of m addr) = concat (map (λ k, contents d (sector + Z.of_nat k)) (seq 0 i)) →
  read_page n (Z.of_nat i) sector addr m d = (ok, m', d') →
  (∀ y, contents d' y = contents d y) ∧ (∀ a, a ≠ addr → m' !! a = m !! a)
  ∧ length (page_of m' addr) = 4096%nat
  ∧ (ok = true → page_of m' addr = concat (map (λ k, contents d (sector + Z.of_nat k)) (seq 0 8))).
Proof.
  revert i m d. induction n as [|n IH]; intros i m d Hn Hlen Hpre; cbn [read_page].
  { intros [= <- <- <-]. split_and!; try done. intros _. replace i with 8%nat in Hpre by lia.
    rewrite <- Hpre. symmetry. apply take_ge. rewrite Hlen. done. }
  destruct (read_sector _ _) as [[b|e] d1] eqn:E.
  2: { intros [= <- <- <-]. split_and!; try done. intros y. by eapply read_same. }
  pose proof (read_ok _ _ _ _ E) as ->. replace (Z.of_nat i + 1) with (Z.of_nat (S i)) by lia.
  replace (Z.to_nat (Z.of_nat i * 512)) with (i * 512)%nat by lia. intros Hr.
  assert (Hd : ∀ y, contents d1 y = contents d y) by (intros; by eapply read_same).
  set (c := contents d (sector + Z.of_nat i)) in *.
  assert (Hc : length c = 512%nat) by apply contents_len.
  assert (Ht : length (take (i * 512) (page_of m addr)) = (i * 512)%nat) by (rewrite length_take; lia).
  destruct (IH (S i) (<[addr := store_sector (page_of m addr) (i * 512) c]> m) d1)
    as (H1 & H2 & H3 & H4); [lia| | |done|].
  - rewrite page_of_insert. unfold store_sector. rewrite !length_app, length_drop, Ht, Hc. lia.
  - rewrite page_of_insert. unfold store_sector.
    rewrite app_assoc, take_app_length' by (rewrite length_app; lia).
    rewrite Hpre, seq_S, map_app, concat_app. cbn [map concat]. rewrite app_nil_r, Hd. f_equal.
    f_equal. apply map_ext_in. intros. by rewrite Hd.
  - split_and!; try done.
    + intros y. by rewrite H1.
    + intros a Ha. rewrite H2, lookup_insert_ne by done. done.
    + intros Hok. rewrite (H4 Hok). f_equal. apply map_ext_in. intros. by rewrite Hd.
Qed.

(** A slot that is neither free nor in use. *)
Definition unused (slot : SwapSlot) (s : t) : Prop :=
  slot_ok (SWAP_SECTOR_NEXT s) slot ∧ slot ∉ SWAP_FREE_SLOTS s ∧ ∀ k, SWAP_TABLE s !! k ≠ Some slot.

Lemma alloc_swap_slot_spec s : inv s → SWAP_SECTOR_NEXT s + 8 < 2 ^ 64 →
  ∃ slot next free, alloc_swap_slot s = (Some slot, set_slots next free s)
    ∧ next ≤ SWAP_SECTOR_NEXT s + 8 ∧ inv (set_slots next free s) ∧ unused slot (set_slots next free s).
Proof.
  intros [Ha [Hn Hm] Ht Hf Hnd Hft Hinj Hp] Hb. unfold alloc_swap_slot.
  destruct (SWAP_FREE_SLOTS s) as [|slot rest] eqn:Ef.
  - set (next := SWAP_SECTOR_NEXT s) in *. unfold SECTORS_PER_PAGE. rewrite wrap_id by (split; lia).
    assert (Hup : ∀ sl, slot_ok next sl → slot_ok (next + 8) sl) by (intros sl (? & ? & ? & ?); split_and!; (done || lia)).
    exists (mkSlot next 8), (next + 8), []. split; [done|]. split; [lia|]. split; [split; simpl; try done; eauto|].
    + split; [lia|]. rewrite Z.add_mod, Hm by lia. done.
    + unfold unused. simpl. split_and!; [split_and!; simpl; (done || lia)|apply not_elem_of_nil|].
      intros k (_ & _ & Hk & _)%Ht. simpl in Hk. lia.
  - exists slot, (SWAP_SECTOR_NEXT s), rest. split; [done|]. apply NoDup_cons in Hnd as [Hni Hnd].
    split; [lia|]. split; [split; simpl; try done|].
    + intros sl Hsl. apply Hf. by right.
    + intros k sl Hk Hsl. apply (Hft _ _ Hk). by (left || right).
    + unfold unused. simpl. split_and!; [apply Hf; left|done|].
      intros k Hk. apply (Hft _ _ Hk). by (left || right).
Qed.

Lemma free_slot_inv slot s : inv s → unused slot s → inv (free_swap_slot slot s).
Proof.
  intros [Ha Hn Ht Hf Hnd Hft Hinj Hp] (Hok & Hnf & Hnt). split; simpl; try done.
  - intros sl [->|?]%elem_of_cons; auto.
  - by constructor.
  - intros k sl Hk [->|?]%elem_of_cons; [by eapply Hnt|by eapply Hft].
Qed.

(** Device and memory contents may change freely as long as pages stay pages. *)
Lemma set_io_inv m d s : inv s → (∀ a p, m !! a = Some p → length p = 4096%nat) → inv (set_io m d s).
Proof. intros [] ?. by split. Qed.

Lemma set_falloc_inv a s : inv s → fa_ok a → inv (set_falloc a s).
Proof. intros [] ?. by split. Qed.

Lemma set_counts_inv o i s : inv s → inv (set_counts o i s).
Proof. intros []. by split. Qed.

Lemma insert_slot_inv k slot s : inv s → unused slot s → inv (set_table (<[k := slot]> (SWAP_TABLE s)) s).
Proof.
  intros [Ha Hn Ht Hf Hnd Hft Hinj Hp] (Hok & Hnf & Hnt). split; simpl; try done.
  - intros k' sl [[_ <-]|[_ ?]]%lookup_insert_Some; eauto.
  - intros k' sl [[_ <-]|[_ ?]]%lookup_insert_Some; eauto.
  - intros k1 k2 sl [[<- <-]|[_ H1]]%lookup_insert_Some [[<- E]|[_ H2]]%lookup_insert_Some; eauto.
    + by destruct (Hnt _ H2).
    + subst. by destruct (Hnt _ H1).
Qed.

Lemma delete_slot_inv k slot s : inv s → SWAP_TABLE s !! k = Some slot →
  inv (set_table (delete k (SWAP_TABLE s)) s) ∧ unused slot (set_table (delete k (SWAP_TABLE s)) s).
Proof.
  intros [Ha Hn Ht Hf Hnd Hft Hinj Hp] Hk. split.
  - split; simpl; try done.
    + intros ? ? [_ ?]%lookup_delete_Some. eauto.
    + intros ? ? [_ ?]%lookup_delete_Some. eauto.
    + intros ? ? ? [_ ?]%lookup_delete_Some [_ ?]%lookup_delete_Some. eauto.
  - unfold unused. simpl. split_and!; eauto. intros k' [Hne ?]%lookup_delete_Some. eauto.
Qed.

(** Writing into an unused slot leaves the swapped pages alone. *)
Lemma swapped_frame slot data d' ok s :
  inv s → unused slot s → length data = 4096%nat →
  write_page 8 0 (sector_start slot) data (disk s) = (ok, d') →
  slot_page d' <$> SWAP_TABLE s = swapped s.
Proof.
  intros Hi (Hok & _ & Hnt) Hlen Hw.
  destruct (write_page_spec 8 0 _ _ _ _ _ Hlen ltac:(lia) ltac:(lia) Hw) as [Hy _].
  unfold swapped. apply map_fmap_ext. intros k sl Hk. apply slot_page_ext. intros i Hii. apply Hy.
  intros Hr. destruct (decide (sl = slot)) as [->|Hne]; [by destruct (Hnt k)|].
  eapply (slots_disjoint _ _ sl slot i (sector_start sl + i - sector_start slot) (inv_table _ Hi _ _ Hk) Hok Hne); lia.
Qed.

Definition same_bounds (s s' : t) : Prop :=
  SWAP_SECTOR_NEXT s' ≤ SWAP_SECTOR_NEXT s + 8 ∧ fa_total (falloc s') = fa_total (falloc s).

Ltac bounds := split; simpl in *; first [done|lia|congruence].

Lemma swap_out_spec pid vaddr f s :
  inv s → SWAP_SECTOR_NEXT s + 8 < 2 ^ 64 → 0 ≤ frame_no f < fa_total (falloc s) →
  let '(ok, s') := swap_out pid vaddr f s in
  inv s' ∧ memory s' = memory s ∧ same_bounds s s' ∧
  if ok then swapped s' = <[(pid, Z.shiftr vaddr 12) := page_of (memory s) (start_address f)]> (swapped s)
    ∧ fa_free (falloc s') = {[frame_no f]} ∪ fa_free (falloc s)
  else swapped s' = swapped s ∧ falloc s' = falloc s.
Proof.
  intros Hi Hb Hf. unfold swap_out. destruct (SWAP_AVAILABLE s); [|split_and!; (done || bounds)]. simpl negb. cbv iota.
  destruct (alloc_swap_slot_spec s Hi Hb) as (slot & next & free & -> & Hnext & Hi1 & Hu).
  set (s1 := set_slots next free s) in *. cbv zeta.
  assert (Hlen : length (page_of (memory s1) (start_address f)) = 4096%nat) by (by apply page_len).
  destruct (write_page _ _ _ _ _) as [ok d'] eqn:Ew. pose proof (swapped_frame slot _ d' ok s1 Hi1 Hu Hlen Ew) as Hsw.
  assert (Hi2 : inv (set_io (memory s1) d' s1)) by (apply set_io_inv; [done|apply Hi1]).
  destruct ok; simpl negb; cbv iota.
  - destruct (fa_dealloc_spec (falloc s) f (inv_alloc _ Hi) Hf) as (Hfree & Htot & Hok).
    split_and!; [|done|bounds| |done].
    + apply set_counts_inv, set_falloc_inv; [|done]. by apply insert_slot_inv.
    + unfold swapped. simpl. rewrite fmap_insert. rewrite (write_page_slot _ _ _ _ Hlen Ew). f_equal. apply Hsw.
  - split_and!; try done. by apply free_slot_inv.
Qed.

Lemma swap_in_spec pid vaddr s : inv s →
  let key := (pid, Z.shiftr vaddr 12) in
  match swap_in pid vaddr s with
  | (Some f, s') => inv s' ∧ same_bounds s s'
      ∧ swapped s !! key = Some (page_of (memory s') (start_address f))
      ∧ swapped s' = delete key (swapped s)
      ∧ frame_no f ∈ fa_free (falloc s) ∧ fa_free (falloc s') = fa_free (falloc s) ∖ {[frame_no f]}
      ∧ ∀ a, a ≠ start_address f → memory s' !! a = memory s !! a
  | (None, s') => inv s' ∧ same_bounds s s' ∧ fa_free (falloc s') = fa_free (falloc s) ∧ swapped s' = delete key (swapped s)
  end.
Proof.
  intros Hi. cbv zeta. unfold swap_in. set (key := (pid, Z.shiftr vaddr 12)).
  destruct (SWAP_TABLE s !! key) as [slot|] eqn:Ek.
  2: { split_and!; [done|bounds|done|]. unfold swapped. rewrite <- fmap_delete, delete_id; done. }
  destruct (delete_slot_inv key slot s Hi Ek) as [Hi1 Hu]. set (s1 := set_table _ s) in *.
  assert (Hsw : slot_page (disk s) <$> delete key (SWAP_TABLE s) = delete key (swapped s))
    by (unfold swapped; by rewrite fmap_delete).
  pose proof (fa_alloc_spec (falloc s1) (inv_alloc _ Hi1)) as Ha.
  destruct (fa_alloc (falloc s1)) as [[f|] a'].
  2: { destruct Ha as [-> _]. split_and!; [by apply set_falloc_inv; [|apply Hi1]|bounds|done|done]. }
  destruct Ha as (Hin & Hfree & Ht & Hok). set (s2 := set_falloc a' s1).
  assert (Hi2 : inv s2) by (by apply set_falloc_inv). cbv zeta.
  destruct (read_page _ _ _ _ _ _) as [[ok m'] d'] eqn:Er.
  destruct (read_page_spec 8 0 _ _ _ _ _ _ _ eq_refl (page_len s2 _ Hi2) eq_refl Er) as (Hd & Hm & Hl & Hp).
  assert (Hpages : ∀ a p, m' !! a = Some p → length p = 4096%nat).
  { intros a p E. destruct (decide (a = start_address f)) as [->|Hne].
    - unfold page_of in Hl. by rewrite E in Hl.
    - rewrite Hm in E by done. by eapply (inv_pages _ Hi). }
  assert (Hsw' : slot_page d' <$> delete key (SWAP_TABLE s) = delete key (swapped s)).
  { rewrite <- Hsw. apply map_fmap_ext. intros. apply slot_page_ext. intros. apply Hd. }
  assert (Hi3 : inv (set_io m' d' s2)) by (by apply set_io_inv).
  destruct ok; cbv iota.
  - split_and!; try done; [|bounds|].
    + apply set_counts_inv, free_slot_inv; [done|]. destruct Hu as (? & ? & ?). by split_and!.
    + unfold swapped. rewrite lookup_fmap, Ek. simpl. f_equal. by rewrite (Hp eq_refl).
  - apply (fa_free_range _ _ (inv_alloc _ Hi1)) in Hin as Hr.
    destruct (fa_dealloc_spec a' f Hok ltac:(by rewrite Ht)) as (Hfree' & Htot' & Hok').
    split_and!; try done; [|bounds|].
    + apply free_slot_inv; [by apply set_falloc_inv|]. destruct Hu as (? & ? & ?). by split_and!.
    + simpl. rewrite Hfree', Hfree. symmetry. by apply union_difference_singleton_L.
Qed.

(** ** Histories *)

Inductive op := OpOut (pid vaddr : Z) (frame : PhysFrame) | OpIn (pid vaddr : Z).

Definition apply_op (o : op) (s : t) : t :=
  match o with
  | OpOut pid vaddr f => (swap_out pid vaddr f s).2
  | OpIn pid vaddr => (swap_in pid vaddr s).2
  end.

Definition run (ops : list op) (s : t) : t := foldl (λ s o, apply_op o s) s ops.

Definition op_key (o : op) : SwapKey :=
  match o with OpOut pid v _ => (pid, Z.shiftr v 12) | OpIn pid v => (pid, Z.shiftr v 12) end.

(** The frame given to [swap_out] is a tracked one. *)
Definition op_ok (total : Z) (o : op) : Prop :=
  match o with OpOut _ _ f => 0 ≤ frame_no f < total | OpIn _ _ => True end.

Lemma swap_step o s : inv s → SWAP_SECTOR_NEXT s + 8 < 2 ^ 64 → op_ok (fa_total (falloc s)) o →
  inv (apply_op o s) ∧ same_bounds s (apply_op o s)
  ∧ ∀ k, op_key o ≠ k → swapped (apply_op o s) !! k = swapped s !! k.
Proof.
  intros Hi Hb Ho. destruct o as [pid v f|pid v]; simpl in *.
  - pose proof (swap_out_spec pid v f s Hi Hb Ho) as Hs. destruct (swap_out pid v f s) as [ok s'].
    destruct Hs as (? & _ & ? & Hs). split_and!; try done. intros k Hk. simpl.
    destruct ok; destruct Hs as [-> _]; [by rewrite lookup_insert_ne|done].
  - pose proof (swap_in_spec pid v s Hi) as Hs. cbv zeta in Hs. destruct (swap_in pid v s) as [[f|] s'].
    + destruct Hs as (? & ? & _ & Hs & _). split_and!; try done. intros k Hk. simpl. by rewrite Hs, lookup_delete_ne.
    + destruct Hs as (? & ? & _ & Hs). split_and!; try done. intros k Hk. simpl. by rewrite Hs, lookup_delete_ne.
Qed.

Lemma swap_run ops s : inv s → SWAP_SECTOR_NEXT s + 8 * Z.of_nat (length ops) < 2 ^ 64 →
  Forall (op_ok (fa_total (falloc s))) ops →
  inv (run ops s) ∧ ∀ k, Forall (λ o, op_key o ≠ k) ops → swapped (run ops s) !! k = swapped s !! k.
Proof.
  revert s. induction ops as [|o ops IH]; intros s Hi Hb Ho; [done|]. simpl length in Hb.
  apply Forall_cons in Ho as [Ho Hos]. destruct (swap_step o s Hi ltac:(lia) Ho) as (Hi' & [Hn Ht] & Hk).
  destruct (IH (apply_op o s) Hi' ltac:(lia)) as [IH1 IH2]; [by rewrite Ht|]. split; [done|].
  intros k [H1 H2]%Forall_cons. simpl. fold (run ops (apply_op o s)). by rewrite IH2, Hk.
Qed.

(** ** Theorems *)

(** [swap_out] adds exactly the page's contents to the swapped pages and
    gives its frame back; when the device is missing or fails, nothing is
    recorded, the frame stays allocated, and no other swapped page is disturbed
    even if some sectors were already written. *)
Theorem swap_out_refines pid vaddr f s :
  inv s → SWAP_SECTOR_NEXT s + 8 < 2 ^ 64 → 0 ≤ frame_no f < fa_total (falloc s) →
  let '(ok, s') := swap_out pid vaddr f s in
  inv s' ∧
  if ok then swapped s' = <[(pid, Z.shiftr vaddr 12) := page_of (memory s) (start_address f)]> (swapped s)
    ∧ fa_free (falloc s') = {[frame_no f]} ∪ fa_free (falloc s)
  else swapped s' = swapped s ∧ falloc s' = falloc s.
Proof.
  intros Hi Hb Hf. pose proof (swap_out_spec pid vaddr f s Hi Hb Hf) as Hs.
  destruct (swap_out pid vaddr f s). destruct Hs as (? & _ & _ & ?). done.
Qed.

(** [swap_in] on success returns a frame taken from the free ones that
    holds exactly the swapped page, removes that page from the swapped set and
    touches no other frame.  When it fails, the swapped page is gone: the table
    entry was removed before the frame allocation and the reads. *)
Theorem swap_in_refines pid vaddr s : inv s →
  let key := (pid, Z.shiftr vaddr 12) in
  match swap_in pid vaddr s with
  | (Some f, s') => inv s'
      ∧ swapped s !! key = Some (page_of (memory s') (start_address f))
      ∧ swapped s' = delete key (swapped s)
      ∧ frame_no f ∈ fa_free (falloc s) ∧ fa_free (falloc s') = fa_free (falloc s) ∖ {[frame_no f]}
      ∧ ∀ a, a ≠ start_address f → memory s' !! a = memory s !! a
  | (None, s') => inv s' ∧ fa_free (falloc s') = fa_free (falloc s) ∧ swapped s' = delete key (swapped s)
  end.
Proof.
  intros Hi. pose proof (swap_in_spec pid vaddr s Hi) as Hs. cbv zeta in *.
  destruct (swap_in pid vaddr s) as [[f|] s']; naive_solver.
Qed.

(** C8: a page swapped out comes back unchanged: after any further swap
    traffic on other pages, slots being reused meanwhile, a successful [swap_in]
    yields a frame with the bytes the page had when it was swapped out. *)
Theorem swap_roundtrip pid vaddr f s s1 ops f' s2 :
  inv s → SWAP_SECTOR_NEXT s + 8 * (1 + Z.of_nat (length ops)) < 2 ^ 64 →
  0 ≤ frame_no f < fa_total (falloc s) → Forall (op_ok (fa_total (falloc s))) ops →
  Forall (λ o, op_key o ≠ (pid, Z.shiftr vaddr 12)) ops →
  swap_out pid vaddr f s = (true, s1) → swap_in pid vaddr (run ops s1) = (Some f', s2) →
  page_of (memory s2) (start_address f') = page_of (memory s) (start_address f).
Proof.
  intros Hi Hb Hf Ho Hk Eo Ei. pose proof (swap_out_spec pid vaddr f s Hi ltac:(lia) Hf) as Hs.
  rewrite Eo in Hs. destruct Hs as (Hi1 & _ & [Hn Ht] & Hsw & _).
  destruct (swap_run ops s1 Hi1 ltac:(lia) ltac:(by rewrite Ht)) as [Hi2 Hkeep].
  pose proof (swap_in_spec pid vaddr (run ops s1) Hi2) as Hs. cbv zeta in Hs. rewrite Ei in Hs.
  destruct Hs as (_ & _ & Hs & _). rewrite Hkeep, Hsw, lookup_insert_eq in Hs by done. congruence.
Qed.

End swap.
Arguments t : clear implicits.
Arguments op {_}.

(** ** Witnesses *)

(** A disk that never fails: unwritten sectors read as zeros. *)
Definition zero_sector : list Z := replicate 512 0.

Definition ram_contents (d : gmap Z (list Z)) (x : Z) : list Z :=
  match d !! x with
  | Some b => if decide (length b = 512%nat) then b else zero_sector
  | None => zero_sector
  end.

#[export] Instance ram_disk : BlockDev (gmap Z (list Z)).
Proof.
  refine {| write_sector x b d := (Ok tt, <[x := b]> d);
            read_sector x d := (Ok (ram_contents d x), d);
            contents := ram_contents |}.
  - intros d x. unfold ram_contents. destruct (d !! x); [case_decide|]; done.
  - intros x b d d' [= <-] Hl. unfold ram_contents. rewrite lookup_insert_eq. by rewrite decide_True.
  - intros x b d r d' y [= <- <-] Hne. unfold ram_contents. by rewrite lookup_insert_ne.
  - by intros x d b d' [= <- <-].
  - by intros x d r d' y [= <- <-].
Defined.

Definition swap_demo : t (option BitmapFrameAllocator) (gmap Z (list Z)) :=
  mkT ∅ 1024 [] true 0 0 (Frame.init demo_map 16384) {[ 8192 := replicate 4096 7 ]} ∅.

Lemma swap_demo_inv : inv swap_demo.
Proof.
  split; simpl; try done.
  - apply new_allocator_spec.
    + repeat constructor; simpl; lia.
    + repeat first [apply FOP_cons | apply FOP_nil | apply Forall_cons_2 | apply Forall_nil_2];
        intros ? ?; simpl in *; (discriminate || lia).
  - by intros ? ?%elem_of_nil.
  - apply NoDup_nil_2.
  - intros addr p [<- <-]%lookup_singleton_Some. done.
Defined.

Lemma swap_out_refines_witness :
  (swap_out 5 0x7000 (containing_address 8192) swap_demo).1 = true ∧ inv (swap_out 5 0x7000 (containing_address 8192) swap_demo).2.
Proof.
  split; [vm_compute; reflexivity|].
  refine (proj1 (swap_out_refines 5 0x7000 (containing_address 8192) swap_demo swap_demo_inv _ _)).
  - vm_compute. reflexivity.
  - vm_compute. split; [discriminate|reflexivity].
Defined.

Lemma swap_in_refines_witness : inv swap_demo ∧ inv (swap_in 5 0x7000 swap_demo).2.
Proof. split; [exact swap_demo_inv|]. exact (proj1 (swap_in_refines 5 0x7000 swap_demo swap_demo_inv)). Defined.

Definition swap_demo1 := (swap_out 5 0x7000 (containing_address 8192) swap_demo).2.
Definition swap_demo2 := (swap_in 5 0x7abc (run [OpOut 6 0x7000 (containing_address 12288)] swap_demo1)).2.

Lemma swap_roundtrip_witness :
  page_of (memory swap_demo2) 8192 = replicate 4096 7.
Proof.
  refine (swap_roundtrip 5 0x7000 (containing_address 8192) swap_demo swap_demo1
    [OpOut 6 0x7000 (containing_address 12288)] (containing_address 8192) swap_demo2 swap_demo_inv _ _ _ _ _ _).
  - vm_compute. reflexivity.
  - vm_compute. split; [discriminate|reflexivity].
  - repeat constructor; vm_compute; discriminate.
  - repeat constructor. simpl. discriminate.
  - vm_compute. reflexivity.
  - vm_compute. reflexivity.
Defined.

(** [swap_in] with no free frame: the page is forgotten and its slot is neither
    in use nor free again. *)
Lemma swap_in_loses_page :
  let s0 := mkT ∅ 1024 [] true 0 0 (Frame.init [] 0) ∅ ∅ : t (option BitmapFrameAllocator) (gmap Z (list Z)) in
  let s1 := (swap_out 5 0x7000 (containing_address 8192) s0).2 in
  let '(r, s2) := swap_in 5 0x7000 s1 in
  is_swapped 5 0x7000 s1 = true ∧ r = None ∧ is_swapped 5 0x7000 s2 = false ∧ SWAP_FREE_SLOTS s2 = [].
Proof. vm_compute. done. Qed.
