(* ===== verification/Pipe.v ===== *)
(** Kernel pipes: [kernel/src/process/pipe.rs].

    A [Pipe] is a ring buffer of [PIPE_BUF_SIZE] bytes.  Its abstract state
    [queue] is the list of bytes written and not yet read; [read] and [write]
    refine taking from its front and appending to its end. *)

From S2P Require Import Prelude.

Definition PIPE_BUF_SIZE : nat := Z.to_nat 4096.

Record Pipe := mkPipe {
  buffer : list Z;
  read_pos : nat;
  write_pos : nat;
  count : nat;
  closed_write : bool;
  closed_read : bool;
}.

Definition new_pipe : Pipe := mkPipe (replicate PIPE_BUF_SIZE 0) 0 0 0 false false.

(** [for i in 0..to_read { buf[i] = buffer[read_pos]; read_pos = .. }]: the
    bytes stored into [buf] and the new position.  An index outside the buffer
    is a panic, excluded by [pipe_ok]; [nth] needs a default there. *)
Fixpoint read_loop (n : nat) (b : list Z) (r : nat) : list Z * nat :=
  match n with
  | O => ([], r)
  | S n' =>
      let x := nth r b 0 in
      let '(out, r') := read_loop n' b ((r + 1) `mod` PIPE_BUF_SIZE) in
      (x :: out, r')
  end.

(** Returns the count and the caller's buffer after the call. *)
Definition read (buf : list Z) (p : Pipe) : nat * list Z * Pipe :=
  let to_read := Nat.min (length buf) (count p) in
  let '(out, r') := read_loop to_read (buffer p) (read_pos p) in
  (to_read, out ++ drop to_read buf,
   mkPipe (buffer p) r' (write_pos p) (count p - to_read) (closed_write p) (closed_read p)).

Fixpoint write_loop (data : list Z) (b : list Z) (w : nat) : list Z * nat :=
  match data with
  | [] => (b, w)
  | x :: data' => write_loop data' (<[w := x]> b) ((w + 1) `mod` PIPE_BUF_SIZE)
  end.

Definition write (data : list Z) (p : Pipe) : nat * Pipe :=
  let space := (PIPE_BUF_SIZE - count p)%nat in
  let to_write := Nat.min (length data) space in
  let '(b', w') := write_loop (take to_write data) (buffer p) (write_pos p) in
  (to_write, mkPipe b' (read_pos p) w' (count p + to_write) (closed_write p) (closed_read p)).

Definition available (p : Pipe) : nat := count p.

(** ** The global table *)
Record t := mkT { PIPES : gmap Z Pipe; NEXT_PIPE_ID : Z }.

Definition set_pipe (id : Z) (p : Pipe) (s : t) : t := mkT (<[id := p]> (PIPES s)) (NEXT_PIPE_ID s).

Definition create_pipe (s : t) : Z * t :=
  let id := NEXT_PIPE_ID s in (id, mkT (<[id := new_pipe]> (PIPES s)) (wrap 64 (id + 1))).

Definition pipe_read (pipe_id : Z) (buf : list Z) (s : t) : result string nat * list Z * t :=
  match PIPES s !! pipe_id with
  | None => (Err "Invalid pipe"%string, buf, s)
  | Some p =>
      if (count p =? 0)%nat && closed_write p then (Ok 0%nat, buf, s)
      else let '(n, buf', p') := read buf p in (Ok n, buf', set_pipe pipe_id p' s)
  end.

Definition pipe_write (pipe_id : Z) (data : list Z) (s : t) : result string nat * t :=
  match PIPES s !! pipe_id with
  | None => (Err "Invalid pipe"%string, s)
  | Some p =>
      if closed_read p then (Err "Broken pipe"%string, s)
      else let '(n, p') := write data p in (Ok n, set_pipe pipe_id p' s)
  end.

Definition close_write (pipe_id : Z) (s : t) : t :=
  match PIPES s !! pipe_id with
  | None => s
  | Some p => set_pipe pipe_id (mkPipe (buffer p) (read_pos p) (write_pos p) (count p) true (closed_read p)) s
  end.

Definition close_read (pipe_id : Z) (s : t) : t :=
  match PIPES s !! pipe_id with
  | None => s
  | Some p => set_pipe pipe_id (mkPipe (buffer p) (read_pos p) (write_pos p) (count p) (closed_write p) true) s
  end.

Definition maybe_destroy (pipe_id : Z) (s : t) : t :=
  match PIPES s !! pipe_id with
  | Some p => if closed_read p && closed_write p then mkT (delete pipe_id (PIPES s)) (NEXT_PIPE_ID s) else s
  | None => s
  end.

Definition pipe_readable (pipe_id : Z) (s : t) : bool :=
  match PIPES s !! pipe_id with
  | Some p => negb (count p =? 0)%nat || closed_write p
  | None => false
  end.

(** ** Abstract state and invariant *)

(** The [n] bytes of a ring buffer from position [r] on. *)
Definition view (b : list Z) (r n : nat) : list Z :=
  map (λ i, nth ((r + i) `mod` PIPE_BUF_SIZE) b 0) (seq 0 n).

Definition queue (p : Pipe) : list Z := view (buffer p) (read_pos p) (count p).

Record pipe_ok (p : Pipe) : Prop := {
  po_len : length (buffer p) = PIPE_BUF_SIZE;
  po_read : (read_pos p < PIPE_BUF_SIZE)%nat;
  po_write : write_pos p = ((read_pos p + count p) `mod` PIPE_BUF_SIZE)%nat;
  po_count : (count p ≤ PIPE_BUF_SIZE)%nat;
}.

Lemma buf_size_pos : (0 < PIPE_BUF_SIZE)%nat.
Proof. unfold PIPE_BUF_SIZE. lia. Qed.

#[local] Opaque PIPE_BUF_SIZE.

Lemma mod_succ_add r i :
  (((r + 1) `mod` PIPE_BUF_SIZE + i) `mod` PIPE_BUF_SIZE = (r + S i) `mod` PIPE_BUF_SIZE)%nat.
Proof.
  rewrite Nat.Div0.add_mod_idemp_l. f_equal. lia.
Qed.

Lemma view_S b r n : (r < PIPE_BUF_SIZE)%nat →
  view b r (S n) = nth r b 0 :: view b ((r + 1) `mod` PIPE_BUF_SIZE) n.
Proof.
  intros Hr. unfold view. cbn [seq map]. f_equal.
  - by rewrite Nat.add_0_r, Nat.mod_small.
  - rewrite <- seq_shift, map_map. apply map_ext. intros i. by rewrite mod_succ_add.
Qed.

Lemma view_snoc b r n : view b r (n + 1) = view b r n ++ [nth ((r + n) `mod` PIPE_BUF_SIZE) b 0].
Proof. unfold view. by rewrite seq_app, map_app. Qed.

(** Positions in flight are distinct. *)
Lemma ring_distinct r i n : (i < n < PIPE_BUF_SIZE)%nat →
  ((r + i) `mod` PIPE_BUF_SIZE ≠ (r + n) `mod` PIPE_BUF_SIZE)%nat.
Proof.
  intros Hi E. pose proof buf_size_pos.
  pose proof (Nat.div_mod_eq (r + i) PIPE_BUF_SIZE). pose proof (Nat.div_mod_eq (r + n) PIPE_BUF_SIZE).
  set (q1 := ((r + i) `div` PIPE_BUF_SIZE)%nat) in *. set (q2 := ((r + n) `div` PIPE_BUF_SIZE)%nat) in *.
  destruct (decide (q1 = q2)) as [->|]; [lia|]. assert ((q1 + 1 ≤ q2 ∨ q2 + 1 ≤ q1)%nat) as [] by lia; nia.
Qed.

Lemma nth_insert_ne (b : list Z) i j x : i ≠ j → nth j (<[i := x]> b) 0 = nth j b 0.
Proof. intros. rewrite !nth_lookup. by rewrite list_lookup_insert_ne. Qed.

Lemma nth_insert_eq (b : list Z) i x : (i < length b)%nat → nth i (<[i := x]> b) 0 = x.
Proof. intros. rewrite nth_lookup, list_lookup_insert_eq; done. Qed.

Lemma view_insert b r n x : (n < PIPE_BUF_SIZE)%nat → length b = PIPE_BUF_SIZE →
  view (<[((r + n) `mod` PIPE_BUF_SIZE)%nat := x]> b) r (n + 1) = view b r n ++ [x].
Proof.
  intros Hn Hl. pose proof buf_size_pos. rewrite view_snoc. f_equal.
  - apply map_ext_in. intros i [_ Hi]%in_seq. apply nth_insert_ne. symmetry. apply ring_distinct. lia.
  - f_equal. apply nth_insert_eq. rewrite Hl. apply Nat.mod_upper_bound. lia.
Qed.

Lemma read_loop_spec n b r m : (r < PIPE_BUF_SIZE)%nat →
  let '(out, r') := read_loop n b r in
  view b r (n + m) = out ++ view b r' m ∧ length out = n
  ∧ r' = ((r + n) `mod` PIPE_BUF_SIZE)%nat ∧ (r' < PIPE_BUF_SIZE)%nat.
Proof.
  revert r. induction n as [|n IH]; intros r Hr; cbn [read_loop].
  { rewrite Nat.add_0_r, Nat.mod_small by done. done. }
  pose proof buf_size_pos. specialize (IH ((r + 1) `mod` PIPE_BUF_SIZE)%nat ltac:(apply Nat.mod_upper_bound; lia)).
  destruct (read_loop _ _ _) as [out r']. destruct IH as (Hv & Hl & -> & Hr').
  cbn [Nat.add]. rewrite view_S by done. rewrite Hv. split_and!; [done|simpl; lia|by rewrite mod_succ_add|done].
Qed.

Lemma write_loop_spec data b r n :
  (n + length data ≤ PIPE_BUF_SIZE)%nat → length b = PIPE_BUF_SIZE →
  let '(b', w') := write_loop data b ((r + n) `mod` PIPE_BUF_SIZE) in
  view b' r (n + length data) = view b r n ++ data ∧ length b' = PIPE_BUF_SIZE
  ∧ w' = ((r + (n + length data)) `mod` PIPE_BUF_SIZE)%nat.
Proof.
  revert b n. induction data as [|x data IH]; intros b n Hn Hl; cbn [write_loop length] in *.
  { rewrite Nat.add_0_r, app_nil_r. done. }
  specialize (IH (<[((r + n) `mod` PIPE_BUF_SIZE)%nat := x]> b) (n + 1)%nat ltac:(lia)).
  rewrite length_insert in IH. specialize (IH Hl).
  replace (((r + n) `mod` PIPE_BUF_SIZE + 1) `mod` PIPE_BUF_SIZE)%nat with ((r + (n + 1)) `mod` PIPE_BUF_SIZE)%nat
    by (rewrite Nat.Div0.add_mod_idemp_l; f_equal; lia).
  destruct (write_loop _ _ _) as [b' w']. rewrite view_insert in IH by lia.
  replace (n + 1 + length data)%nat with (n + S (length data))%nat in IH by lia.
  rewrite <- app_assoc in IH. exact IH.
Qed.

Lemma new_pipe_ok : pipe_ok new_pipe.
Proof.
  pose proof buf_size_pos. split; simpl; [apply length_replicate|lia| |lia]. by rewrite Nat.mod_small.
Qed.

Lemma length_queue p : length (queue p) = count p.
Proof. unfold queue, view. by rewrite length_map, length_seq. Qed.

Lemma read_spec buf p : pipe_ok p →
  let '(n, buf', p') := read buf p in
  n = Nat.min (length buf) (length (queue p)) ∧ buf' = take n (queue p) ++ drop n buf
  ∧ queue p' = drop n (queue p) ∧ pipe_ok p'
  ∧ closed_write p' = closed_write p ∧ closed_read p' = closed_read p.
Proof.
  intros [Hl Hr Hw Hc]. unfold read. rewrite length_queue. set (n := Nat.min (length buf) (count p)).
  pose proof (read_loop_spec n (buffer p) (read_pos p) (count p - n) Hr) as Hs.
  destruct (read_loop _ _ _) as [out r']. destruct Hs as (Hv & Hlo & Er & Hr').
  replace (n + (count p - n))%nat with (count p) in Hv by lia. fold (queue p) in Hv.
  rewrite Hv, take_app_length', drop_app_length' by done. split_and!; try done.
  split; simpl; [done|done| |lia]. rewrite Hw, Er, Nat.Div0.add_mod_idemp_l. f_equal. lia.
Qed.

Lemma write_spec data p : pipe_ok p →
  let '(n, p') := write data p in
  n = Nat.min (length data) (PIPE_BUF_SIZE - length (queue p)) ∧ queue p' = queue p ++ take n data
  ∧ pipe_ok p' ∧ closed_write p' = closed_write p ∧ closed_read p' = closed_read p.
Proof.
  intros [Hl Hr Hw Hc]. unfold write. rewrite length_queue.
  set (n := Nat.min (length data) (PIPE_BUF_SIZE - count p)).
  assert (Ht : length (take n data) = n) by (rewrite length_take; lia).
  pose proof (write_loop_spec (take n data) (buffer p) (read_pos p) (count p) ltac:(lia) Hl) as Hs.
  rewrite Hw. destruct (write_loop _ _ _) as [b' w']. rewrite Ht in Hs. destruct Hs as (Hv & Hl' & Ew).
  split_and!; try done. split; simpl; (done || lia).
Qed.

(** ** Histories of one pipe *)

Inductive call :=
| CRead (pipe_id : Z) (buf : list Z)
| CWrite (pipe_id : Z) (data : list Z)
| CCloseWrite (pipe_id : Z)
| CCloseRead (pipe_id : Z).

Definition call_id (c : call) : Z :=
  match c with CRead i _ | CWrite i _ | CCloseWrite i | CCloseRead i => i end.

(** Bytes the call delivers to a reader, bytes it accepts from a writer, and
    the table afterwards. *)
Definition exec (c : call) (s : t) : list Z * list Z * t :=
  match c with
  | CRead i buf =>
      let '(r, buf', s') := pipe_read i buf s in
      (match r with Ok n => take n buf' | Err _ => [] end, [], s')
  | CWrite i data =>
      let '(r, s') := pipe_write i data s in
      ([], match r with Ok n => take n data | Err _ => [] end, s')
  | CCloseWrite i => ([], [], close_write i s)
  | CCloseRead i => ([], [], close_read i s)
  end.

(** The bytes delivered by and accepted into pipe [id] over a history. *)
Fixpoint run (id : Z) (cs : list call) (s : t) : list Z * list Z * t :=
  match cs with
  | [] => ([], [], s)
  | c :: cs' =>
      let '(out, inp, s1) := exec c s in
      let '(outs, inps, s2) := run id cs' s1 in
      if call_id c =? id then (out ++ outs, inp ++ inps, s2) else (outs, inps, s2)
  end.

Lemma exec_spec c s id p :
  PIPES s !! id = Some p → pipe_ok p →
  let '(out, inp, s') := exec c s in
  ∃ p', PIPES s' !! id = Some p' ∧ pipe_ok p'
  ∧ if call_id c =? id then queue p ++ inp = out ++ queue p' else p' = p.
Proof.
  intros Hp Hok. destruct (Z.eqb_spec (call_id c) id) as [E|Hne].
  - destruct c as [i buf|i data|i|i]; simpl in *; subst i.
    + unfold pipe_read. rewrite Hp. destruct ((count p =? 0)%nat && closed_write p).
      { exists p. by rewrite app_nil_r, firstn_O. }
      pose proof (read_spec buf p Hok) as Hr. destruct (read buf p) as [[n buf'] p'].
      destruct Hr as (En & -> & Hq & Hok' & _). simpl. rewrite lookup_insert_eq. exists p'. split_and!; try done.
      rewrite app_nil_r, take_app_length', Hq, take_drop; [done|]. rewrite length_take. lia.
    + unfold pipe_write. rewrite Hp. destruct (closed_read p).
      { exists p. by rewrite app_nil_r. }
      pose proof (write_spec data p Hok) as Hw. destruct (write data p) as [n p'].
      destruct Hw as (_ & Hq & Hok' & _). simpl. rewrite lookup_insert_eq. by exists p'.
    + unfold close_write. rewrite Hp. simpl. rewrite lookup_insert_eq. eexists. split; [done|].
      destruct Hok. rewrite app_nil_r. by split.
    + unfold close_read. rewrite Hp. simpl. rewrite lookup_insert_eq. eexists. split; [done|].
      destruct Hok. rewrite app_nil_r. by split.
  - destruct c as [i buf|i data|i|i]; simpl in *;
      unfold pipe_read, pipe_write, close_write, close_read;
      (destruct (PIPES s !! i) as [q|]; [|by exists p]).
    + destruct (_ && _); [by exists p|]. destruct (read buf q) as [[? ?] ?]. exists p. simpl. by rewrite lookup_insert_ne.
    + destruct (closed_read q); [by exists p|]. destruct (write data q). exists p. simpl. by rewrite lookup_insert_ne.
    + exists p. simpl. by rewrite lookup_insert_ne.
    + exists p. simpl. by rewrite lookup_insert_ne.
Qed.

(** ** Theorems *)

(** [Pipe::read] and [Pipe::write] refine a bounded FIFO queue.  A read
    delivers the oldest min(buffer length, available) bytes in order and removes
    exactly those; a write appends the longest prefix that fits, never
    overwriting an unread byte; the ring invariant is kept. *)
Theorem pipe_ring_refines_queue buf data p : pipe_ok p →
  (let '(n, buf', p') := read buf p in
   n = Nat.min (length buf) (length (queue p)) ∧ buf' = take n (queue p) ++ drop n buf
   ∧ queue p' = drop n (queue p) ∧ pipe_ok p')
  ∧ (let '(n, p') := write data p in
     n = Nat.min (length data) (PIPE_BUF_SIZE - length (queue p))
     ∧ queue p' = queue p ++ take n data ∧ pipe_ok p').
Proof.
  intros Hok. pose proof (read_spec buf p Hok). pose proof (write_spec data p Hok).
  destruct (read buf p) as [[? ?] ?], (write data p). naive_solver.
Qed.

Lemma pipe_ring_refines_queue_witness :
  pipe_ok new_pipe ∧ queue (write [1; 2; 3] new_pipe).2 = [1; 2; 3].
Proof.
  split; [exact new_pipe_ok|].
  exact (proj1 (proj2 (proj2 (pipe_ring_refines_queue [] [1; 2; 3] new_pipe new_pipe_ok)))).
Defined.

(** C9: a pipe is a reliable byte stream.  Over any sequence of table-level
    reads, writes and closes, on this and on other pipes, the bytes delivered to
    readers followed by the bytes still queued are exactly the bytes queued at
    the start followed by those accepted from writers: nothing is lost,
    duplicated, reordered, or mixed between pipes. *)
Theorem pipe_stream id cs s p :
  PIPES s !! id = Some p → pipe_ok p →
  let '(out, inp, s') := run id cs s in
  ∃ p', PIPES s' !! id = Some p' ∧ pipe_ok p' ∧ queue p ++ inp = out ++ queue p'.
Proof.
  revert s p. induction cs as [|c cs IH]; intros s p Hp Hok; simpl.
  { exists p. by rewrite app_nil_r. }
  pose proof (exec_spec c s id p Hp Hok) as He. destruct (exec c s) as [[out inp] s1].
  destruct He as (p1 & Hp1 & Hok1 & Hq). specialize (IH s1 p1 Hp1 Hok1).
  destruct (run id cs s1) as [[outs inps] s2]. destruct IH as (p2 & Hp2 & Hok2 & Hq2).
  destruct (call_id c =? id); (exists p2; split_and!; [done|done|]); [|by subst].
  rewrite app_assoc, Hq, <- app_assoc, Hq2. by rewrite app_assoc.
Qed.

Definition demo_pipes : t := (create_pipe (mkT ∅ 1)).2.

Definition demo_calls : list call :=
  [CWrite 1 [1; 2; 3]; CRead 1 [0; 0]; CWrite 1 [4]; CCloseWrite 1; CRead 1 [0; 0; 0]].

Lemma pipe_stream_witness :
  (run 1 demo_calls demo_pipes).1 = ([1; 2; 3; 4], [1; 2; 3; 4])
  ∧ ∃ p', PIPES (run 1 demo_calls demo_pipes).2 !! 1 = Some p' ∧ pipe_ok p'.
Proof.
  split; [vm_compute; reflexivity|].
  pose proof (pipe_stream 1 demo_calls demo_pipes new_pipe eq_refl new_pipe_ok) as Hs.
  destruct (run 1 demo_calls demo_pipes) as [[out inp] s']. destruct Hs as (p' & H1 & H2 & _).
  exists p'. exact (conj H1 H2).
Defined.
