(* ===== verification/Epoll.v ===== *)
(** Readiness multiplexing ([kernel/src/io/epoll.rs]): instances with an
    interest table, the control operations and the wait.

    Every descriptor is always ready in this kernel, so a wait reports what the
    interest masks ask for; time-outs are accepted and ignored. *)

From S2P Require Import Prelude.

Definition EPOLLIN : Z := 0x0001.
Definition EPOLLOUT : Z := 0x0004.
Definition EPOLLRDNORM : Z := 0x0040.
Definition EPOLLWRNORM : Z := 0x0100.
Definition EPOLLONESHOT : Z := Z.shiftl 1 30.
Definition EPOLLET : Z := Z.shiftl 1 31.

Definition EPOLL_CTL_ADD : Z := 1.
Definition EPOLL_CTL_DEL : Z := 2.
Definition EPOLL_CTL_MOD : Z := 3.

Record EpollEvent := mkEvent { ev_events : Z; ev_data : Z }.
Definition default_event : EpollEvent := mkEvent 0 0.

Record Interest := mkInterest { events : Z; edata : Z; one_fired : bool }.
Definition set_fired (b : bool) (i : Interest) : Interest := mkInterest (events i) (edata i) b.

Notation EpollInstance := (gmap Z Interest).
Record Epoll := mkEpoll { EPOLL_TABLE : gmap Z EpollInstance; EPOLL_NEXT_FD : Z }.

Definition epoll_boot : Epoll := mkEpoll ∅ 10000.
Definition set_instance (epfd : Z) (i : EpollInstance) (s : Epoll) : Epoll := mkEpoll (<[epfd := i]> (EPOLL_TABLE s)) (EPOLL_NEXT_FD s).

Definition epoll_create (s : Epoll) : Z * Epoll :=
  (EPOLL_NEXT_FD s, mkEpoll (<[EPOLL_NEXT_FD s := ∅]> (EPOLL_TABLE s)) (wrap 64 (EPOLL_NEXT_FD s + 1))).

Definition epoll_close (epfd : Z) (s : Epoll) : Epoll := mkEpoll (delete epfd (EPOLL_TABLE s)) (EPOLL_NEXT_FD s).

Definition epoll_ctl (epfd op fd : Z) (event : option EpollEvent) (s : Epoll) : Z * Epoll :=
  match EPOLL_TABLE s !! epfd with
  | None => (-22, s)
  | Some inst =>
      let ev := default default_event event in
      let armed := mkInterest (ev_events ev) (ev_data ev) false in
      if op =? EPOLL_CTL_ADD then
        if bool_decide (is_Some (inst !! fd)) then (-17, s) else (0, set_instance epfd (<[fd := armed]> inst) s)
      else if op =? EPOLL_CTL_MOD then
        if bool_decide (is_Some (inst !! fd)) then (0, set_instance epfd (<[fd := armed]> inst) s) else (-2, s)
      else if op =? EPOLL_CTL_DEL then
        if bool_decide (is_Some (inst !! fd)) then (0, set_instance epfd (delete fd inst) s) else (-2, s)
      else (-22, s)
  end.

Definition ready_mask (fd interest : Z) : Z :=
  let ready := if Z.land interest (Z.lor EPOLLIN EPOLLRDNORM) =? 0 then 0 else EPOLLIN in
  if Z.land interest (Z.lor EPOLLOUT EPOLLWRNORM) =? 0 then ready else Z.lor ready EPOLLOUT.

Definition oneshot (i : Interest) : bool := negb (Z.land (events i) EPOLLONESHOT =? 0).
(** The event an entry gives: its mask without the meta flags. *)
Definition ready_of (fd : Z) (i : Interest) : Z :=
  ready_mask fd (Z.land (events i) (Z.lxor (2 ^ 32 - 1) (Z.lor EPOLLET EPOLLONESHOT))).

(** The loop of [epoll_wait] over the entries in key order. *)
Fixpoint wait_loop (cap : nat) (fds : list Z) (inst : EpollInstance) (out : list EpollEvent) : list EpollEvent * EpollInstance :=
  match fds with
  | [] => (out, inst)
  | fd :: fds' =>
      if (cap <=? length out)%nat then (out, inst)
      else match inst !! fd with
      | None => wait_loop cap fds' inst out
      | Some entry =>
          if oneshot entry && one_fired entry then wait_loop cap fds' inst out
          else
            let ready := ready_of fd entry in
            if ready =? 0 then wait_loop cap fds' inst out
            else wait_loop cap fds' (if oneshot entry then <[fd := set_fired true entry]> inst else inst)
                   (out ++ [mkEvent ready (edata entry)])
      end
  end.

Definition epoll_wait (epfd : Z) (maxevents : nat) (s : Epoll) : list EpollEvent * Epoll :=
  let cap := min maxevents 1024 in
  match EPOLL_TABLE s !! epfd with
  | None => ([], s)
  | Some inst => let '(out, inst') := wait_loop cap (sorted_keys inst) inst [] in (out, set_instance epfd inst' s)
  end.

Definition epoll_rearm (epfd fd : Z) (s : Epoll) : Epoll :=
  match EPOLL_TABLE s !! epfd with
  | None => s
  | Some inst => set_instance epfd (alter (set_fired false) fd inst) s
  end.

Definition epoll_interest_count (epfd : Z) (s : Epoll) : nat := default 0%nat (size <$> EPOLL_TABLE s !! epfd).

(** ** What a wait reports *)

Definition deliverable (inst : EpollInstance) (fd : Z) : bool :=
  match inst !! fd with
  | Some i => negb (oneshot i && one_fired i) && negb (ready_of fd i =? 0)
  | None => false
  end.
Definition event_of (inst : EpollInstance) (fd : Z) : EpollEvent :=
  match inst !! fd with Some i => mkEvent (ready_of fd i) (edata i) | None => default_event end.

(** The descriptors reported by a wait. *)
Definition reported (cap : nat) (inst : EpollInstance) : list Z := take cap (List.filter (deliverable inst) (sorted_keys inst)).

Definition fire (inst : EpollInstance) (fd : Z) : EpollInstance := alter (λ i, if oneshot i then set_fired true i else i) fd inst.

Lemma lookup_fire_all l : ∀ inst fd, foldl fire inst l !! fd =
  (λ i, if bool_decide (fd ∈ l) && oneshot i then set_fired true i else i) <$> inst !! fd.
Proof.
  induction l as [|x l IH]; intros inst fd; cbn [foldl].
  { rewrite bool_decide_eq_false_2 by apply not_elem_of_nil. cbn. by rewrite option_fmap_id. }
  rewrite IH. unfold fire. destruct (decide (fd = x)) as [->|Hne].
  - rewrite lookup_alter_eq, (bool_decide_eq_true_2 (x ∈ x :: l)) by apply list_elem_of_here. destruct (inst !! x) as [i|]; [|done].
    cbn. destruct (oneshot i) eqn:Ho; cbn; [|by rewrite Ho, andb_false_r]. by destruct (_ && _).
  - rewrite lookup_alter_ne by done. assert (E : bool_decide (fd ∈ x :: l) = bool_decide (fd ∈ l)); [|by rewrite E].
    apply bool_decide_ext. rewrite elem_of_cons. tauto.
Qed.

Lemma fire_eq inst fd i : inst !! fd = Some i → fire inst fd = if oneshot i then <[fd := set_fired true i]> inst else inst.
Proof.
  intros Hi. apply map_eq. intros x. unfold fire. destruct (decide (x = fd)) as [->|Hx].
  - rewrite lookup_alter_eq, Hi. destruct (oneshot i) eqn:Ho; cbn; rewrite Ho; [by rewrite lookup_insert_eq|done].
  - rewrite lookup_alter_ne by done. destruct (oneshot i); [by rewrite lookup_insert_ne|done].
Qed.

Lemma fire_other inst fd l : fd ∉ l →
  List.filter (deliverable (fire inst fd)) l = List.filter (deliverable inst) l
  ∧ ∀ k, map (event_of (fire inst fd)) (take k (List.filter (deliverable inst) l)) = map (event_of inst) (take k (List.filter (deliverable inst) l)).
Proof.
  intros Hl. assert (Hx : ∀ x, x ∈ l → fire inst fd !! x = inst !! x)
    by (intros x Hx; unfold fire; apply lookup_alter_ne; intros ->; done).
  split.
  - apply filter_ext_in. intros x Hin. unfold deliverable. by rewrite Hx by (by apply list_elem_of_In).
  - intros k. apply map_ext_in. intros x Hin. unfold event_of. rewrite Hx; [done|].
    apply list_elem_of_In, elem_of_take in Hin as (i & Hin & _). apply list_elem_of_lookup_2, list_elem_of_In, filter_In in Hin as [? _].
    by apply list_elem_of_In.
Qed.

Lemma wait_loop_spec cap fds : ∀ inst out, NoDup fds →
  let dl := take (cap - length out) (List.filter (deliverable inst) fds) in
  wait_loop cap fds inst out = (out ++ map (event_of inst) dl, foldl fire inst dl).
Proof.
  induction fds as [|fd fds IH]; intros inst out Hnd; cbn [wait_loop List.filter].
  { by rewrite take_nil, app_nil_r. }
  apply NoDup_cons in Hnd as [Hfd Hnd]. destruct (Nat.leb_spec cap (length out)) as [Hle|Hlt].
  { replace (cap - length out)%nat with 0%nat by lia. by rewrite take_0, app_nil_r. }
  destruct (inst !! fd) as [i|] eqn:Hi.
  2:{ assert (Hd : deliverable inst fd = false) by (unfold deliverable; by rewrite Hi). rewrite Hd. by apply IH. }
  assert (Hd : deliverable inst fd = negb (oneshot i && one_fired i) && negb (ready_of fd i =? 0))
    by (unfold deliverable; by rewrite Hi).
  destruct (oneshot i && one_fired i); cbn [negb andb] in Hd; [rewrite Hd; by apply IH|].
  destruct (ready_of fd i =? 0) eqn:Hr; cbn [negb] in Hd; rewrite Hd; [by apply IH|].
  destruct (cap - length out)%nat as [|n] eqn:En; [lia|]. cbn [take map foldl].
  rewrite <- (fire_eq inst fd i Hi), IH by done. destruct (fire_other inst fd fds Hfd) as [E1 E2].
  rewrite length_app. cbn [length]. replace (cap - (length out + 1))%nat with n by lia. rewrite E1, E2.
  assert (Hev : event_of inst fd = mkEvent (ready_of fd i) (edata i)) by (unfold event_of; by rewrite Hi).
  by rewrite Hev, <- app_assoc.
Qed.

(** A wait reports exactly what is due: the events of the first
    [min maxevents 1024] descriptors, in increasing order, whose entry asks for
    something and is not a spent one-shot; the one-shots among the reported ones
    are spent afterwards, and nothing else changes. *)
Theorem epoll_wait_exact epfd maxevents s inst :
  EPOLL_TABLE s !! epfd = Some inst →
  let dl := reported (min maxevents 1024) inst in
  (epoll_wait epfd maxevents s).1 = map (event_of inst) dl
  ∧ (∀ fd, fd ∈ dl → ∃ i, inst !! fd = Some i ∧ ready_of fd i ≠ 0 ∧ (oneshot i && one_fired i) = false)
  ∧ (length dl < min maxevents 1024 → ∀ fd, deliverable inst fd = true → fd ∈ dl)%nat
  ∧ ∃ inst', EPOLL_TABLE (epoll_wait epfd maxevents s).2 = <[epfd := inst']> (EPOLL_TABLE s)
     ∧ ∀ fd, inst' !! fd = (λ i, if bool_decide (fd ∈ dl) && oneshot i then set_fired true i else i) <$> inst !! fd.
Proof.
  intros Hs dl. unfold epoll_wait. rewrite Hs, wait_loop_spec by apply sorted_keys_NoDup. cbn [length].
  rewrite Nat.sub_0_r. change (take _ _) with dl. cbn [app fst snd set_instance EPOLL_TABLE].
  split_and!; [done| | |eexists; split; [done|intros fd; apply lookup_fire_all]].
  - intros fd (k & Hk & _)%elem_of_take. apply list_elem_of_lookup_2, list_elem_of_In, filter_In in Hk as [_ Hd].
    unfold deliverable in Hd. destruct (inst !! fd) as [i|]; [|done]. exists i. apply andb_prop in Hd as [H1 H2].
    apply negb_true_iff in H1. by apply negb_true_iff, Z.eqb_neq in H2.
  - unfold dl, reported. rewrite length_take. intros Hlen fd Hd. rewrite take_ge by lia.
    apply list_elem_of_In, filter_In. split; [|done]. apply list_elem_of_In, elem_of_sorted_keys.
    unfold deliverable in Hd. destruct (inst !! fd); [eauto|done].
Qed.

Definition demo_epoll : Epoll :=
  let '(e, s) := epoll_create epoll_boot in
  let s := (epoll_ctl e EPOLL_CTL_ADD 7 (Some (mkEvent EPOLLIN 42)) s).2 in
  (epoll_ctl e EPOLL_CTL_ADD 3 (Some (mkEvent (Z.lor EPOLLOUT EPOLLONESHOT) 9)) s).2.

Lemma epoll_wait_exact_witness :
  (epoll_wait 10000 8 demo_epoll).1 = [mkEvent EPOLLOUT 9; mkEvent EPOLLIN 42]
  ∧ ∀ inst, EPOLL_TABLE demo_epoll !! 10000 = Some inst → (epoll_wait 10000 8 demo_epoll).1 = map (event_of inst) (reported 8 inst).
Proof.
  split; [vm_compute; reflexivity|]. intros inst Hi. exact (proj1 (epoll_wait_exact 10000 8 demo_epoll inst Hi)).
Defined.

(** ** One-shot entries over time *)

Inductive epoll_op := Ctl (op fd : Z) (ev : option EpollEvent) | Wait (maxevents : nat) | Rearm (fd : Z).

Definition epoll_apply (epfd : Z) (o : epoll_op) (s : Epoll) : Epoll :=
  match o with
  | Ctl op fd ev => (epoll_ctl epfd op fd ev s).2
  | Wait n => (epoll_wait epfd n s).2
  | Rearm fd => epoll_rearm epfd fd s
  end.

(** How often [fd] is reported in a history, and how often it is armed. *)
Definition reports (epfd fd : Z) (o : epoll_op) (s : Epoll) : nat :=
  match o with
  | Wait n => match EPOLL_TABLE s !! epfd with
              | Some inst => if bool_decide (fd ∈ reported (min n 1024) inst) then 1 else 0
              | None => 0
              end
  | _ => 0
  end.
Fixpoint total_reports (epfd fd : Z) (ops : list epoll_op) (s : Epoll) : nat :=
  match ops with
  | [] => 0
  | o :: ops' => reports epfd fd o s + total_reports epfd fd ops' (epoll_apply epfd o s)
  end.
Definition arms (fd : Z) (o : epoll_op) : nat :=
  match o with Ctl _ x _ | Rearm x => if x =? fd then 1 else 0 | Wait _ => 0 end.

Definition unfired (o : option Interest) : nat := match o with Some i => if one_fired i then 0 else 1 | None => 0 end.
Definition entry (epfd fd : Z) (s : Epoll) : option Interest := EPOLL_TABLE s !! epfd ≫= (.!! fd).
Definition armed (epfd fd : Z) (s : Epoll) : nat := unfired (entry epfd fd s).

(** Every entry of [fd] is a one-shot. *)
Definition oneshot_fd (epfd fd : Z) (s : Epoll) : Prop := ∀ i, entry epfd fd s = Some i → oneshot i = true.
Definition oneshot_op (fd : Z) (o : epoll_op) : Prop :=
  match o with Ctl _ x ev => x = fd → oneshot (mkInterest (ev_events (default default_event ev)) 0 false) = true | _ => True end.

Lemma entry_set epfd inst s fd : entry epfd fd (set_instance epfd inst s) = inst !! fd.
Proof. unfold entry, set_instance. cbn. by rewrite lookup_insert_eq. Qed.

Lemma ctl_entry epfd op x ev s fd :
  let e' := entry epfd fd (epoll_ctl epfd op x ev s).2 in
  e' = entry epfd fd s
  ∨ x = fd ∧ (e' = None ∨ e' = Some (mkInterest (ev_events (default default_event ev)) (ev_data (default default_event ev)) false)).
Proof.
  cbv zeta. unfold epoll_ctl. destruct (EPOLL_TABLE s !! epfd) as [inst|] eqn:Hi; [|by left].
  assert (He : entry epfd fd s = inst !! fd) by (unfold entry; by rewrite Hi). rewrite He.
  destruct (decide (x = fd)) as [->|Hne].
  - destruct (op =? EPOLL_CTL_ADD); [case_bool_decide|destruct (op =? EPOLL_CTL_MOD); [case_bool_decide|destruct (op =? EPOLL_CTL_DEL); [case_bool_decide|]]];
      cbn [snd]; rewrite ?entry_set, ?lookup_insert_eq, ?lookup_delete_eq; auto.
  - left. destruct (op =? EPOLL_CTL_ADD); [case_bool_decide|destruct (op =? EPOLL_CTL_MOD); [case_bool_decide|destruct (op =? EPOLL_CTL_DEL); [case_bool_decide|]]];
      cbn [snd]; rewrite ?entry_set, ?lookup_insert_ne, ?lookup_delete_ne by done; done.
Qed.

Lemma wait_entry epfd n s fd inst : EPOLL_TABLE s !! epfd = Some inst →
  entry epfd fd (epoll_wait epfd n s).2
  = (λ i, if bool_decide (fd ∈ reported (min n 1024) inst) && oneshot i then set_fired true i else i) <$> inst !! fd.
Proof.
  intros Hi. unfold epoll_wait. rewrite Hi, wait_loop_spec by apply sorted_keys_NoDup. cbn [length].
  rewrite Nat.sub_0_r. change (take _ _) with (reported (min n 1024) inst). cbn [snd]. by rewrite entry_set, lookup_fire_all.
Qed.

Lemma reported_deliverable cap inst fd : fd ∈ reported cap inst → deliverable inst fd = true.
Proof. unfold reported. intros (k & Hk & _)%elem_of_take. by apply list_elem_of_lookup_2, list_elem_of_In, filter_In in Hk as [_ ?]. Qed.

Lemma oneshot_step epfd fd o s : oneshot_op fd o → oneshot_fd epfd fd s →
  oneshot_fd epfd fd (epoll_apply epfd o s)
  ∧ (reports epfd fd o s + armed epfd fd (epoll_apply epfd o s) ≤ armed epfd fd s + arms fd o)%nat.
Proof.
  unfold oneshot_fd, armed. intros Ho Hs. destruct o as [op x ev|n|x]; cbn [epoll_apply reports arms].
  - destruct (ctl_entry epfd op x ev s fd) as [->|(-> & [->| ->])]; cbn [unfired one_fired]; rewrite ?Z.eqb_refl.
    + split; [done|lia].
    + split; [done|lia].
    + split; [|lia]. intros i [= <-]. by apply Ho.
  - destruct (EPOLL_TABLE s !! epfd) as [inst|] eqn:Hi.
    2:{ unfold epoll_wait. rewrite Hi. cbn. split; [done|lia]. }
    rewrite (wait_entry _ _ _ _ _ Hi). assert (He : entry epfd fd s = inst !! fd) by (unfold entry; by rewrite Hi).
    rewrite He in *. destruct (inst !! fd) as [i|] eqn:Hfd; cbn.
    + specialize (Hs i eq_refl). rewrite Hs, andb_true_r. case_bool_decide as Hr; cbn; (split; [by intros j [= <-]|]); [|lia].
      apply reported_deliverable in Hr. unfold deliverable in Hr. rewrite Hfd, Hs in Hr. cbn in Hr. destruct (one_fired i); [done|lia].
    + split; [done|]. rewrite bool_decide_eq_false_2; [lia|]. intros Hr%reported_deliverable. unfold deliverable in Hr. by rewrite Hfd in Hr.
  - unfold epoll_rearm. destruct (EPOLL_TABLE s !! epfd) as [inst|] eqn:Hi; [|split; [done|lia]].
    assert (He : entry epfd fd s = inst !! fd) by (unfold entry; by rewrite Hi). rewrite entry_set, He in *.
    destruct (decide (x = fd)) as [->|Hne].
    + rewrite lookup_alter_eq, Z.eqb_refl. destruct (inst !! fd) as [i|]; cbn; [|split; [done|lia]].
      split; [intros j [= <-]; by apply (Hs i)|]. lia.
    + rewrite lookup_alter_ne by done. split; [done|lia].
Qed.

(** A one-shot descriptor is reported at most once per arming: in every
    history of control operations, waits and re-arms on an instance, the number
    of waits that report it is at most the number of times it is armed, plus
    one if it is armed at the start. *)
Theorem epoll_oneshot_once epfd fd ops : ∀ s,
  oneshot_fd epfd fd s → Forall (oneshot_op fd) ops →
  (total_reports epfd fd ops s ≤ armed epfd fd s + sum_list_with (arms fd) ops)%nat.
Proof.
  induction ops as [|o ops IH]; intros s Hs Ho; cbn [total_reports sum_list_with]; [lia|].
  apply Forall_cons in Ho as [Ho Hos]. destruct (oneshot_step epfd fd o s Ho Hs) as [Hs' Hle]. specialize (IH _ Hs' Hos). lia.
Qed.

Lemma epoll_oneshot_once_witness :
  (total_reports 10000 3 [Wait 8; Wait 8; Rearm 3; Wait 8; Wait 8] demo_epoll ≤ 2)%nat
  ∧ total_reports 10000 3 [Wait 8; Wait 8; Rearm 3; Wait 8; Wait 8] demo_epoll = 2%nat.
Proof.
  split; [|vm_compute; reflexivity].
  refine (epoll_oneshot_once 10000 3 [Wait 8; Wait 8; Rearm 3; Wait 8; Wait 8] demo_epoll _ _).
  - intros i Hi. vm_compute in Hi. injection Hi as <-. reflexivity.
  - repeat constructor.
Defined.

(** ** Where the code falls short *)

(** With a small buffer the lowest descriptors are reported for ever: no turn
    is kept between waits. *)
Example epoll_starves_high_fds :
  let s := (epoll_ctl 10000 EPOLL_CTL_MOD 3 (Some (mkEvent EPOLLOUT 9)) demo_epoll).2 in
  (epoll_wait 10000 1 s).1 = [mkEvent EPOLLOUT 9] ∧ ∀ inst, EPOLL_TABLE s !! 10000 = Some inst →
  EPOLL_TABLE (epoll_wait 10000 1 s).2 !! 10000 = Some inst.
Proof. split; [vm_compute; reflexivity|]. intros inst Hi. vm_compute in Hi. injection Hi as <-. vm_compute. reflexivity. Qed.
