(* ===== verification/FdTable.v ===== *)
(** Per-process file descriptors: [kernel/src/process/fd.rs].

    [ProcessFdTable] maps descriptor numbers to entries and hands out numbers
    from a counter; [PROC_FDS] holds one table per process. *)

From S2P Require Import Prelude.

Inductive FdKind :=
| File (path : string) (offset : Z)
| PipeRead (pipe_id : Z)
| PipeWrite (pipe_id : Z)
| Stdio
| TcpSocket (conn_id : Z).

Record FdFlags := mkFlags { readable : bool; writable : bool }.

Definition read_only : FdFlags := mkFlags true false.
Definition write_only : FdFlags := mkFlags false true.
Definition read_write : FdFlags := mkFlags true true.

Record ProcessFd := mkFd { kind : FdKind; flags : FdFlags }.

Record ProcessFdTable := mkTable { fds : gmap Z ProcessFd; next_fd : Z }.

Definition new_table : ProcessFdTable :=
  mkTable (<[2 := mkFd Stdio write_only]> (<[1 := mkFd Stdio write_only]> (<[0 := mkFd Stdio read_only]> ∅))) 3.

Definition alloc_fd (k : FdKind) (fl : FdFlags) (tb : ProcessFdTable) : Z * ProcessFdTable :=
  let fd := next_fd tb in (fd, mkTable (<[fd := mkFd k fl]> (fds tb)) (wrap 64 (fd + 1))).

Definition get (fd : Z) (tb : ProcessFdTable) : option ProcessFd := fds tb !! fd.

(** [get_mut], with the update the caller makes through the reference. *)
Definition get_mut (f : ProcessFd → ProcessFd) (fd : Z) (tb : ProcessFdTable) : ProcessFdTable :=
  mkTable (alter f fd (fds tb)) (next_fd tb).

Definition close (fd : Z) (tb : ProcessFdTable) : option ProcessFd * ProcessFdTable :=
  (fds tb !! fd, mkTable (delete fd (fds tb)) (next_fd tb)).

Definition dup2 (old_fd new_fd : Z) (tb : ProcessFdTable) : result string unit * ProcessFdTable :=
  match fds tb !! old_fd with
  | None => (Err "Bad fd"%string, tb)
  | Some entry =>
      (Ok tt, mkTable (<[new_fd := entry]> (fds tb))
                (if next_fd tb <=? new_fd then wrap 64 (new_fd + 1) else next_fd tb))
  end.

Definition clone_table (tb : ProcessFdTable) : ProcessFdTable := mkTable (fds tb) (next_fd tb).

Definition close_all (tb : ProcessFdTable) : ProcessFdTable := mkTable ∅ (next_fd tb).

Definition count (tb : ProcessFdTable) : Z := Z.of_nat (size (fds tb)).

(** ** All processes *)
Abbreviation PROC_FDS := (gmap Z ProcessFdTable).

Definition create_fd_table (pid : Z) (s : PROC_FDS) : PROC_FDS := <[pid := new_table]> s.
Definition destroy_fd_table (pid : Z) (s : PROC_FDS) : PROC_FDS := delete pid s.

Definition clone_fd_table (src_pid dst_pid : Z) (s : PROC_FDS) : PROC_FDS :=
  match s !! src_pid with
  | Some src => <[dst_pid := clone_table src]> s
  | None => s
  end.

Definition with_fd_table {R} (pid : Z) (f : ProcessFdTable → R * ProcessFdTable) (s : PROC_FDS) : result string R * PROC_FDS :=
  match s !! pid with
  | None => (Err "No FD table for process"%string, s)
  | Some tb => let '(r, tb') := f tb in (Ok r, <[pid := tb']> s)
  end.

Definition init (s : PROC_FDS) : PROC_FDS := create_fd_table 0 s.

(** ** Invariant and histories *)

(** Every open descriptor is below the counter. *)
Record table_ok (tb : ProcessFdTable) : Prop := {
  to_next : 3 ≤ next_fd tb;
  to_open fd e : fds tb !! fd = Some e → 0 ≤ fd < next_fd tb;
}.

Inductive op :=
| OpAlloc (k : FdKind) (fl : FdFlags)
| OpUpdate (f : ProcessFd → ProcessFd) (fd : Z)
| OpClose (fd : Z)
| OpDup2 (old_fd new_fd : Z)
| OpCloseAll.

Definition apply_op (o : op) (tb : ProcessFdTable) : ProcessFdTable :=
  match o with
  | OpAlloc k fl => (alloc_fd k fl tb).2
  | OpUpdate f fd => get_mut f fd tb
  | OpClose fd => (close fd tb).2
  | OpDup2 a b => (dup2 a b tb).2
  | OpCloseAll => close_all tb
  end.

Definition run (ops : list op) (tb : ProcessFdTable) : ProcessFdTable := foldl (λ tb o, apply_op o tb) tb ops.

(** Descriptor arguments stay below a bound that the counter cannot pass. *)
Definition op_ok (o : op) : Prop := match o with OpDup2 _ b => 0 ≤ b < 2 ^ 32 | _ => True end.

Lemma fd_op_ok o tb : op_ok o → table_ok tb → next_fd tb < 2 ^ 63 →
  table_ok (apply_op o tb) ∧ next_fd tb ≤ next_fd (apply_op o tb) ≤ Z.max (next_fd tb + 1) (2 ^ 32).
Proof.
  intros Ho [Hn Hf] Hb. destruct o as [k fl|f fd|fd|a b|]; simpl in *.
  - rewrite wrap_id by (split; lia). split; [|lia]. split; simpl; [lia|].
    intros fd e [[<- _]|[_ ?%Hf]]%lookup_insert_Some; lia.
  - split; [|lia]. split; simpl; [done|]. intros fd' e He. apply lookup_alter_Some in He as [(-> & e0 & ?%Hf & _)|[_ ?%Hf]]; lia.
  - split; [|lia]. split; simpl; [done|]. intros fd' e [_ ?%Hf]%lookup_delete_Some. lia.
  - unfold dup2. destruct (fds tb !! a) as [e|] eqn:E; simpl; [|split; [done|lia]].
    rewrite wrap_id by (split; lia). split.
    + split; simpl; [case_bool; lia|].
      intros fd e' [[<- _]|[_ ?%Hf]]%lookup_insert_Some; case_bool; lia.
    + case_bool; lia.
  - split; [|lia]. split; simpl; [done|]. by intros ? ? ?%lookup_empty_Some.
Qed.

Lemma fd_run_ok ops tb B : Forall op_ok ops → table_ok tb →
  next_fd tb ≤ B → 2 ^ 32 ≤ B → B + Z.of_nat (length ops) < 2 ^ 63 →
  table_ok (run ops tb) ∧ next_fd tb ≤ next_fd (run ops tb) ≤ B + Z.of_nat (length ops).
Proof.
  intros Ho. revert tb B. induction Ho as [|o ops Ho _ IH]; intros tb B Ht H1 H2 H3; simpl in *; [split; [done|lia]|].
  destruct (fd_op_ok o tb Ho Ht ltac:(lia)) as [Ht' Hn].
  destruct (IH (apply_op o tb) (B + 1) Ht') as [? ?]; [lia..|]. split; [done|lia].
Qed.

Lemma new_table_ok : table_ok new_table.
Proof.
  split; simpl; [lia|]. intros fd e He. unfold new_table in He. simpl in He.
  repeat (apply lookup_insert_Some in He as [[<- _]|[_ He]]; [lia|]). done.
Qed.

(** ** Theorems *)

(** Descriptor numbers are never confused.  After any history of alloc,
    update, close, dup2 and close_all on a fresh table, a new descriptor is not
    open already, is none of the standard ones, and is larger than every number
    handed out before; the new entry is what was asked for and every other open
    descriptor is untouched. *)
Theorem fd_alloc_fresh ops1 k1 fl1 ops2 k fl :
  Forall op_ok ops1 → Forall op_ok ops2 → Z.of_nat (length ops1 + length ops2) < 2 ^ 60 →
  let tb1 := run ops1 new_table in
  let '(fd1, tb1') := alloc_fd k1 fl1 tb1 in
  let tb2 := run ops2 tb1' in
  let '(fd, tb3) := alloc_fd k fl tb2 in
  get fd tb2 = None ∧ 3 ≤ fd1 < fd ∧ get fd tb3 = Some (mkFd k fl)
  ∧ ∀ fd', fd' ≠ fd → get fd' tb3 = get fd' tb2.
Proof.
  intros Ho1 Ho2 Hb. cbv zeta.
  destruct (fd_run_ok ops1 new_table (2 ^ 32) Ho1 new_table_ok) as [Ht1 Hn1]; [simpl; lia..|].
  destruct (fd_op_ok (OpAlloc k1 fl1) (run ops1 new_table) I Ht1) as [Ht1' Hn1']; [lia|].
  unfold alloc_fd. cbv zeta. simpl in Ht1', Hn1', Hn1.
  rewrite (wrap_id 64 (next_fd (run ops1 new_table) + 1)) in Ht1' |- * by (split; lia).
  destruct (fd_run_ok ops2 _ (2 ^ 32 + Z.of_nat (length ops1) + 1) Ho2 Ht1') as [Ht2 Hn2]; [simpl; lia..|].
  simpl in Hn2.
  unfold get. simpl. split_and!; [|lia|lia|apply lookup_insert_eq|].
  - destruct (_ !! _) as [e|] eqn:E; [|done]. apply (to_open _ Ht2) in E. lia.
  - intros fd' Hne. by rewrite lookup_insert_ne.
Qed.

Lemma fd_alloc_fresh_witness :
  (alloc_fd Stdio read_only (run [OpAlloc Stdio read_only; OpClose 3; OpDup2 1 9] new_table)).1 = 10
  ∧ let tb2 := run [OpDup2 1 9] (alloc_fd Stdio read_only (run [OpClose 3] new_table)).2 in
    get 10 tb2 = None.
Proof.
  split; [vm_compute; reflexivity|].
  refine (proj1 (fd_alloc_fresh [OpClose 3] Stdio read_only [OpDup2 1 9] Stdio read_only _ _ _)).
  - repeat constructor.
  - repeat constructor; simpl; lia.
  - vm_compute. reflexivity.
Defined.

(** [clone_fd_table] (fork) gives the child exactly the parent's open
    descriptors, and afterwards the two tables are independent: whatever either
    process does with its own table leaves the other's as it was at the fork. *)
Theorem fd_fork_isolated {R} src dst (s : PROC_FDS) tb (f : ProcessFdTable → R * ProcessFdTable) :
  src ≠ dst → s !! src = Some tb →
  let s1 := clone_fd_table src dst s in
  s1 !! dst = Some tb ∧ s1 !! src = Some tb
  ∧ (with_fd_table dst f s1).2 !! src = Some tb ∧ (with_fd_table src f s1).2 !! dst = Some tb
  ∧ (with_fd_table dst f s1).1 = Ok (f tb).1
  ∧ ∀ pid, pid ≠ dst → s1 !! pid = s !! pid.
Proof.
  intros Hne Hs. unfold clone_fd_table, with_fd_table. rewrite Hs. cbv zeta.
  assert (E : clone_table tb = tb) by (by destruct tb). rewrite E.
  rewrite lookup_insert_eq, lookup_insert_ne, Hs by done. destruct (f tb) as [r tb']. simpl.
  split_and!; try done.
  - by rewrite lookup_insert_ne, lookup_insert_ne.
  - by rewrite lookup_insert_ne, lookup_insert_eq.
  - intros pid Hp. by rewrite lookup_insert_ne.
Qed.

Lemma fd_fork_isolated_witness : clone_fd_table 0 5 (init ∅) !! 5 = Some new_table.
Proof.
  exact (proj1 (fd_fork_isolated 0 5 (init ∅) new_table (λ tb, (tt, close_all tb)) ltac:(discriminate) eq_refl)).
Defined.
