(* ===== verification/Sched.v ===== *)
(** Threads, wait queue and scheduler: [kernel/src/process/{mod,thread,wait,scheduler}.rs].

    One state [t] holds the scheduler, the wait queue, the thread counter and
    the preemption target.  A context switch is the pair of what the assembly
    does to memory (the running stack pointer [cur_sp] is written to the save
    location) and the [Switch] it performs; interrupts are off during a call, so
    calls are atomic steps.  Stack contents, logging and the app-launch predictor
    are left out. *)

From S2P Require Import Prelude Bits.

Inductive ThreadState := Ready | Running | Blocked | Dead.

#[export] Instance ThreadState_eq : EqDecision ThreadState.
Proof. solve_decision. Defined.

Record Thread := mkThread {
  tid : Z;
  pid : Z;
  name : string;
  state : ThreadState;
  stack_ptr : Z;
  kernel_stack_ptr : Z;
  priority : Z;
  is_user : bool;
  cr3 : Z;
  canary : Z;
}.

Definition set_state (st : ThreadState) (th : Thread) : Thread :=
  mkThread (tid th) (pid th) (name th) st (stack_ptr th) (kernel_stack_ptr th) (priority th) (is_user th) (cr3 th) (canary th).
Definition set_sp (sp : Z) (th : Thread) : Thread :=
  mkThread (tid th) (pid th) (name th) (state th) sp (kernel_stack_ptr th) (priority th) (is_user th) (cr3 th) (canary th).

Inductive WaitReason :=
| Sleep (wake_at_tick : Z)
| WaitPid (target_pid : Z)
| PipeRead (pipe_id : Z).

Record WaitEntry := mkEntry { w_tid : Z; reason : WaitReason }.

Record PreemptTarget := mkTarget { new_sp : Z; new_cr3 : Z; target_user : bool; active : bool }.

Record t := mkT {
  ready_queue : list Thread;
  current : option Thread;
  blocked_threads : gmap Z Thread;
  initialized : bool;
  WAIT_QUEUE : list WaitEntry;
  NEXT_TID : Z;
  PREEMPT_TARGET : PreemptTarget;
}.

Definition set_run (q : list Thread) (c : option Thread) (s : t) : t :=
  mkT q c (blocked_threads s) (initialized s) (WAIT_QUEUE s) (NEXT_TID s) (PREEMPT_TARGET s).
Definition set_wait (b : gmap Z Thread) (w : list WaitEntry) (s : t) : t :=
  mkT (ready_queue s) (current s) b (initialized s) w (NEXT_TID s) (PREEMPT_TARGET s).
Definition set_target (p : PreemptTarget) (s : t) : t :=
  mkT (ready_queue s) (current s) (blocked_threads s) (initialized s) (WAIT_QUEUE s) (NEXT_TID s) p.

(** ** Threads *)

(** [t] ticks: [t.wrapping_mul(c1).wrapping_add(tid).wrapping_mul(c2)] *)
Definition gen_canary (ticks id : Z) : Z :=
  wrap 64 (wrap 64 (wrap 64 (ticks * 0x9e3779b97f4a7c15) + id) * 0x6c62272e07bb0142).

Definition boot_thread : Thread := mkThread 0 0 "kernel_main" Running 0 0 0 false 0 0xCAFEBABEDEAD0000.

(** [Thread::new] and [new_large] differ in the size of the stack, whose end is
    [raw_top]. *)
Definition new_thread (nm : string) (prio raw_top ticks id : Z) : Thread :=
  let stack_top := Z.land raw_top (not64 15) in
  mkThread id 0 nm Ready (stack_top - 8 * 7) 0 prio false 0 (gen_canary ticks id).

Definition new_user (nm : string) (p cr prio raw_top ticks id : Z) : Thread :=
  let kernel_stack_top := Z.land raw_top (not64 15) in
  mkThread id p nm Ready (kernel_stack_top - 20 * 8) kernel_stack_top prio true cr (gen_canary ticks id).

Definition alloc_tid (s : t) : Z * t :=
  (NEXT_TID s, mkT (ready_queue s) (current s) (blocked_threads s) (initialized s) (WAIT_QUEUE s)
                   (wrap 64 (NEXT_TID s + 1)) (PREEMPT_TARGET s)).

(** ** Wait queue *)

Definition sleep_thread (id : Z) (r : WaitReason) (w : list WaitEntry) : list WaitEntry := w ++ [mkEntry id r].

(** [queue.retain] with the entries dropped pushed to [woken]. *)
Fixpoint drain (expired : WaitReason → bool) (w : list WaitEntry) : list Z * list WaitEntry :=
  match w with
  | [] => ([], [])
  | e :: w' =>
      let '(woken, kept) := drain expired w' in
      if expired (reason e) then (w_tid e :: woken, kept) else (woken, e :: kept)
  end.

Definition check_wakeups (current_tick : Z) : list WaitEntry → list Z * list WaitEntry :=
  drain (λ r, match r with Sleep wake_at_tick => wake_at_tick <=? current_tick | _ => false end).

Definition wake_waiters_for_pid (target_pid : Z) : list WaitEntry → list Z * list WaitEntry :=
  drain (λ r, match r with WaitPid tp => (tp =? target_pid) || (tp =? 0) | _ => false end).

Definition wake_pipe_readers (pipe_id : Z) : list WaitEntry → list Z * list WaitEntry :=
  drain (λ r, match r with PipeRead p => p =? pipe_id | _ => false end).

Definition wait_queue_count (w : list WaitEntry) : Z := Z.of_nat (length w).

(** ** Scheduler *)

(** What the switch loads: stack pointer, address space, user mode or not, and
    the kernel stack given to the TSS for user threads. *)
Record Switch := mkSwitch { sw_sp : Z; sw_cr3 : Z; sw_user : bool; sw_kernel_rsp : Z }.

Definition switch_to (th : Thread) : Switch :=
  mkSwitch (stack_ptr th) (cr3 th) (is_user th) (kernel_stack_ptr th).

Definition init (s : t) : t :=
  mkT (ready_queue s) (Some boot_thread) (blocked_threads s) true (WAIT_QUEUE s) (NEXT_TID s) (PREEMPT_TARGET s).

Definition spawn (nm : string) (prio raw_top ticks : Z) (s : t) : t :=
  let '(id, s1) := alloc_tid s in
  set_run (ready_queue s1 ++ [new_thread nm prio raw_top ticks id]) (current s1) s1.

(** The save location is the [stack_ptr] of the last queued thread unless that
    one is dead or the queue is empty ([len() - 1] wraps and [get] is [None]);
    then it is a dummy. *)
Definition save_last (cur_sp : Z) (q : list Thread) : list Thread :=
  match last q with
  | Some th => if decide (state th = Dead) then q else take (length q - 1) q ++ [set_sp cur_sp th]
  | None => q
  end.

Definition yield_now (cur_sp : Z) (s : t) : option Switch * t :=
  if negb (initialized s) || bool_decide (ready_queue s = []) then (None, s)
  else
    match current s with
    | None => (None, s)
    | Some old =>
        match ready_queue s with
        | [] => (None, s)
        | new :: q =>
            let q' := if decide (state old = Dead) then q else q ++ [set_state Ready old] in
            (Some (switch_to new), set_run (save_last cur_sp q') (Some (set_state Running new)) s)
        end
    end.

(** The running stack pointer goes to a dummy; with nothing ready the dead
    thread stays current and the processor halts. *)
Definition exit_current_thread (s : t) : option Switch * t :=
  match ready_queue s with
  | next :: q => (Some (switch_to next), set_run q (Some (set_state Running next)) s)
  | [] => (None, set_run [] (set_state Dead <$> current s) s)
  end.

(** [iter().position(|t| t.is_user)] and [remove] *)
Fixpoint take_user (q : list Thread) : option (Thread * list Thread) :=
  match q with
  | [] => None
  | th :: q' =>
      if is_user th then Some (th, q')
      else match take_user q' with Some (u, q'') => Some (u, th :: q'') | None => None end
  end.

(** [locked]: the scheduler lock is held elsewhere ([try_lock] fails). *)
Definition preempt (locked : bool) (interrupted_rsp : Z) (s : t) : bool * t :=
  if locked then (false, s)
  else if negb (initialized s) || bool_decide (ready_queue s = []) then (false, s)
  else
    match set_state Ready <$> (set_sp interrupted_rsp <$> current s) with
    | None => (false, s)
    | Some old =>
        match take_user (ready_queue s) with
        | None => (false, set_run (ready_queue s) (Some (set_state Running old)) s)
        | Some (new, q) =>
            (true, set_target (mkTarget (stack_ptr new) (cr3 new) (is_user new) true)
                     (set_run (q ++ [old]) (Some (set_state Running new)) s))
        end
    end.

Definition block_current_thread (r : WaitReason) (s : t) : option Switch * t :=
  if negb (initialized s) then (None, s)
  else
    match current s with
    | None => (None, s)
    | Some th =>
        let s1 := set_wait (<[tid th := set_state Blocked th]> (blocked_threads s))
                    (sleep_thread (tid th) r (WAIT_QUEUE s)) s in
        match ready_queue s with
        | next :: q => (Some (switch_to next), set_run q (Some (set_state Running next)) s1)
        | [] => (None, set_run [] None s1)
        end
    end.

Definition wake_thread (locked : bool) (id : Z) (s : t) : t :=
  if locked then s
  else match blocked_threads s !! id with
       | Some th => set_run (ready_queue s ++ [set_state Ready th]) (current s)
                      (set_wait (delete id (blocked_threads s)) (WAIT_QUEUE s) s)
       | None => s
       end.

(** The timer interrupt: expired sleepers leave the wait queue and each is
    woken; the lock is tried afresh for each ([arch/x86_64/idt.rs]). *)
Definition timer_wakeups (locked : bool) (current_tick : Z) (s : t) : t :=
  let '(woken, kept) := check_wakeups current_tick (WAIT_QUEUE s) in
  foldl (λ s id, wake_thread locked id s) (set_wait (blocked_threads s) kept s) woken.

(** Child exit ([process/process.rs]): waiting parents are woken. *)
Definition exit_wakeups (locked : bool) (p : Z) (s : t) : t :=
  let '(woken, kept) := wake_waiters_for_pid p (WAIT_QUEUE s) in
  foldl (λ s id, wake_thread locked id s) (set_wait (blocked_threads s) kept s) woken.

Definition current_tid (s : t) : option Z := tid <$> current s.
Definition current_pid (s : t) : option Z := pid <$> current s.
Definition ready_count (s : t) : Z := Z.of_nat (length (ready_queue s)).
Definition blocked_count (s : t) : Z := Z.of_nat (size (blocked_threads s)).

(** ** Invariant *)

(** Threads that are running or ready. *)
Definition active_threads (s : t) : list Thread := option_list (current s) ++ ready_queue s.

Record inv (s : t) : Prop := {
  inv_nodup : NoDup (tid <$> active_threads s);
  inv_fresh th : th ∈ active_threads s → 0 ≤ tid th < NEXT_TID s;
  inv_ready : Forall (λ th, state th = Ready) (ready_queue s);
  inv_current th : current s = Some th → state th = Running ∨ state th = Dead;
  inv_blocked id th : blocked_threads s !! id = Some th →
    tid th = id ∧ state th = Blocked ∧ 0 ≤ id < NEXT_TID s ∧ id ∉ (tid <$> active_threads s);
}.

(** Every blocked thread outside [ids] is registered in the wait queue. *)
Definition registered (ids : list Z) (s : t) : Prop :=
  ∀ id, is_Some (blocked_threads s !! id) → id ∈ ids ∨ id ∈ (w_tid <$> WAIT_QUEUE s).

Inductive op :=
| OpSpawn (nm : string) (prio raw_top ticks : Z)
| OpYield (cur_sp : Z)
| OpExit
| OpPreempt (locked : bool) (rsp : Z)
| OpBlock (r : WaitReason)
| OpTimer (locked : bool) (tick : Z)
| OpChildExit (locked : bool) (p : Z).

Definition apply_op (o : op) (s : t) : t :=
  match o with
  | OpSpawn nm prio top ticks => spawn nm prio top ticks s
  | OpYield sp => (yield_now sp s).2
  | OpExit => (exit_current_thread s).2
  | OpPreempt l rsp => (preempt l rsp s).2
  | OpBlock r => (block_current_thread r s).2
  | OpTimer l tick => timer_wakeups l tick s
  | OpChildExit l p => exit_wakeups l p s
  end.

Definition run (ops : list op) (s : t) : t := foldl (λ s o, apply_op o s) s ops.

(** The lock is free whenever a wake-up needs it. *)
Definition unlocked (o : op) : Prop :=
  match o with OpTimer l _ | OpChildExit l _ => l = false | _ => True end.

(** ** Lemmas *)

Lemma save_last_cases sp q :
  save_last sp q = q ∨ ∃ q' th, q = q' ++ [th] ∧ state th ≠ Dead ∧ save_last sp q = q' ++ [set_sp sp th].
Proof.
  unfold save_last. destruct (last q) as [th|] eqn:E; [|by left].
  apply last_Some in E as [q' ->]. case_decide; [by left|]. right. exists q', th. split_and!; try done.
  rewrite length_app. simpl. by rewrite Nat.add_sub, take_app_length.
Qed.

Lemma save_last_tids sp q : tid <$> save_last sp q = tid <$> q.
Proof. destruct (save_last_cases sp q) as [->|(q' & th & -> & _ & ->)]; [done|]. by rewrite !fmap_app. Qed.

Lemma save_last_ready sp q :
  Forall (λ th, state th = Ready) q → Forall (λ th, state th = Ready) (save_last sp q).
Proof.
  destruct (save_last_cases sp q) as [->|(q' & th & -> & _ & ->)]; [done|].
  rewrite !Forall_app, !Forall_singleton. done.
Qed.

Lemma take_user_spec q u q' : take_user q = Some (u, q') → is_user u = true ∧ q ≡ₚ u :: q'.
Proof.
  revert q'. induction q as [|th q IH]; intros q'; simpl; [done|]. destruct (is_user th) eqn:E.
  - by intros [= <- <-].
  - destruct (take_user q) as [[u' q'']|]; [|done]. intros [= <- <-].
    destruct (IH q'' eq_refl) as [? ->]. split; [done|]. apply Permutation_swap.
Qed.

(** Rebuilding the invariant after the running and ready threads changed but
    neither the blocked ones nor the counter did: it is enough that the new
    threads are a permutation, by number, of some of the old ones. *)
Lemma inv_set_run s q c :
  inv s → (tid <$> (option_list c ++ q)) ⊆+ (tid <$> active_threads s) →
  Forall (λ th, state th = Ready) q → (∀ th, c = Some th → state th = Running ∨ state th = Dead) →
  inv (set_run q c s).
Proof.
  intros [Hnd Hf Hr Hc Hb] Hp Hq Hcc. split; simpl; try done.
  - apply submseteq_Permutation in Hp as [k Hp]. rewrite Hp, NoDup_app in Hnd. by destruct Hnd.
  - intros th Hth. apply (list_elem_of_fmap_2 tid) in Hth.
    apply (λ H, elem_of_submseteq _ _ _ H Hp) in Hth. apply list_elem_of_fmap in Hth as (th' & -> & ?). by apply Hf.
  - intros id th (? & ? & ? & Hn)%Hb. split_and!; [done|done|lia|lia|]. intros Hin. apply Hn.
    by eapply elem_of_submseteq.
Qed.

Lemma yield_inv sp s : inv s → inv (yield_now sp s).2.
Proof.
  intros Hi. unfold yield_now. destruct (_ || _); [done|]. destruct (current s) as [old|] eqn:Ec; [|done].
  destruct (ready_queue s) as [|new q] eqn:Eq; [done|]. pose proof (inv_ready _ Hi) as Hr. rewrite Eq in Hr.
  apply Forall_cons in Hr as [_ Hr]. simpl. apply inv_set_run; [done| | |].
  - unfold active_threads. rewrite Ec, Eq, !fmap_app, save_last_tids. simpl. case_decide; simpl.
    + apply submseteq_cons. done.
    + rewrite fmap_app. simpl. apply Permutation_submseteq. rewrite <- Permutation_cons_append. apply Permutation_swap.
  - apply save_last_ready. case_decide; [done|]. apply Forall_app. split; [done|]. by apply Forall_singleton.
  - intros th [= <-]. by left.
Qed.

Lemma exit_inv s : inv s → inv (exit_current_thread s).2.
Proof.
  intros Hi. unfold exit_current_thread. pose proof (inv_ready _ Hi) as Hr. unfold active_threads in *.
  destruct (ready_queue s) as [|new q] eqn:Eq; simpl.
  - apply inv_set_run; [done| |done|].
    + unfold active_threads. rewrite Eq. by destruct (current s).
    + intros th. destruct (current s); [|done]. intros [= <-]. by right.
  - apply Forall_cons in Hr as [_ Hr]. apply inv_set_run; try done.
    + unfold active_threads. rewrite Eq, !fmap_app. by apply submseteq_inserts_l.
    + intros th [= <-]. by left.
Qed.

Lemma set_target_inv p s : inv s → inv (set_target p s).
Proof. intros []. by split. Qed.

Lemma preempt_inv l rsp s : inv s → inv (preempt l rsp s).2.
Proof.
  intros Hi. unfold preempt. destruct l; [done|]. destruct (_ || _); [done|].
  destruct (current s) as [old|] eqn:Ec; [|done]. simpl. pose proof (inv_ready _ Hi) as Hr.
  destruct (take_user (ready_queue s)) as [[new q]|] eqn:Et; simpl.
  - apply take_user_spec in Et as [_ Ep]. apply set_target_inv. rewrite Ep, Forall_cons in Hr.
    destruct Hr as [_ Hr]. apply inv_set_run; [done| | |].
    + unfold active_threads. rewrite Ec, Ep. apply Permutation_submseteq. simpl. rewrite fmap_app. simpl.
      rewrite <- Permutation_cons_append. apply Permutation_swap.
    + apply Forall_app. split; [done|]. by apply Forall_singleton.
    + intros th [= <-]. by left.
  - apply inv_set_run; try done.
    + unfold active_threads. by rewrite Ec.
    + intros th [= <-]. by left.
Qed.

Lemma block_inv r s : inv s → inv (block_current_thread r s).2.
Proof.
  intros Hi. unfold block_current_thread. destruct (initialized s); [|done]. simpl.
  destruct (current s) as [th|] eqn:Ec; [|done]. pose proof Hi as [Hnd Hf Hr Hc Hb].
  unfold active_threads in Hnd, Hf, Hb. rewrite Ec in Hnd, Hf, Hb. simpl in *.
  apply NoDup_cons in Hnd as [Hni Hnd].
  assert (Hblk : ∀ id th', <[tid th := set_state Blocked th]> (blocked_threads s) !! id = Some th' →
    tid th' = id ∧ state th' = Blocked ∧ 0 ≤ id < NEXT_TID s ∧ id ∉ (tid <$> ready_queue s)).
  { intros id th' [[<- <-]|[_ (? & ? & ? & Hx)%Hb]]%lookup_insert_Some.
    - split_and!; [done|done| | |done]; apply (Hf th); by left.
    - split_and!; [done|done|lia|lia|]. intros ?. apply Hx. by right. }
  assert (Hf' : ∀ th', th' ∈ ready_queue s → 0 ≤ tid th' < NEXT_TID s) by (intros; apply Hf; by right).
  destruct (ready_queue s) as [|next q]; simpl.
  - by split.
  - apply Forall_cons in Hr as [_ Hr]. split; simpl; try done.
    + intros th' [->|Hin]%elem_of_cons; [apply (Hf' next); by left|apply Hf'; by right].
    + intros ? [= <-]. by left.
Qed.

Lemma set_wait_queue_inv w s : inv s → inv (set_wait (blocked_threads s) w s).
Proof. intros []. by split. Qed.

Lemma wake_inv l id s : inv s → inv (wake_thread l id s).
Proof.
  intros Hi. unfold wake_thread. destruct l; [done|]. destruct (blocked_threads s !! id) as [th|] eqn:E; [|done].
  destruct Hi as [Hnd Hf Hr Hc Hb]. destruct (Hb _ _ E) as (<- & Hst & Hrange & Hni).
  unfold active_threads in *. split; unfold active_threads; simpl.
  - rewrite app_assoc, fmap_app, NoDup_app. split_and!; [done| |apply NoDup_singleton]. set_solver.
  - intros th'. rewrite app_assoc, elem_of_app, list_elem_of_singleton. intros [?| ->]; [by apply Hf|done].
  - apply Forall_app. split; [done|]. by apply Forall_singleton.
  - done.
  - intros id' th' [Hne (? & ? & ? & Hx)%Hb]%lookup_delete_Some. split_and!; [done|done|lia|lia|].
    rewrite app_assoc, fmap_app. set_solver.
Qed.

Lemma wake_all_inv l ids s : inv s → inv (foldl (λ s id, wake_thread l id s) s ids).
Proof. revert s. induction ids; intros s Hi; simpl; auto using wake_inv. Qed.

Lemma spawn_inv nm prio top ticks s : inv s → NEXT_TID s + 1 < 2 ^ 64 → 0 ≤ NEXT_TID s →
  inv (spawn nm prio top ticks s).
Proof.
  intros [Hnd Hf Hr Hc Hb] Hn H0. unfold spawn. simpl. unfold active_threads in *.
  split; unfold active_threads; simpl; rewrite ?wrap_id by (split; lia).
  - rewrite app_assoc, fmap_app, NoDup_app. split_and!; [done| |apply NoDup_singleton].
    intros x (th & -> & Hth%Hf)%list_elem_of_fmap. simpl. rewrite list_elem_of_singleton. lia.
  - intros th'. rewrite app_assoc, elem_of_app, list_elem_of_singleton. intros [?%Hf| ->]; simpl; lia.
  - apply Forall_app. split; [done|]. by apply Forall_singleton.
  - done.
  - intros id th (? & ? & ? & Hx)%Hb. split_and!; [done|done|lia|lia|].
    rewrite app_assoc, fmap_app, not_elem_of_app. split; [done|]. simpl. rewrite list_elem_of_singleton. lia.
Qed.

Lemma wake_all_next l ids s : NEXT_TID (foldl (λ s id, wake_thread l id s) s ids) = NEXT_TID s.
Proof.
  revert s. induction ids as [|id ids IH]; intros s; simpl; [done|]. rewrite IH. unfold wake_thread.
  destruct l; [done|]. by destruct (_ !! _).
Qed.

Lemma sched_step o s : inv s → 0 ≤ NEXT_TID s → NEXT_TID s + 1 < 2 ^ 64 →
  inv (apply_op o s) ∧ NEXT_TID s ≤ NEXT_TID (apply_op o s) ≤ NEXT_TID s + 1.
Proof.
  intros Hi H0 Hn. destruct o as [nm prio top ticks|sp| |l rsp|r|l tick|l p]; simpl.
  - split; [by apply spawn_inv|]. simpl. rewrite wrap_id by (split; lia). lia.
  - split; [by apply yield_inv|]. unfold yield_now. destruct (_ || _); [simpl; lia|].
    destruct (current s); [|simpl; lia]. destruct (ready_queue s); simpl; lia.
  - split; [by apply exit_inv|]. unfold exit_current_thread. destruct (ready_queue s); simpl; lia.
  - split; [by apply preempt_inv|]. unfold preempt. destruct l; [simpl; lia|]. destruct (_ || _); [simpl; lia|].
    destruct (current s); simpl; [|lia]. destruct (take_user _) as [[? ?]|]; simpl; lia.
  - split; [by apply block_inv|]. unfold block_current_thread. destruct (initialized s); simpl; [|lia].
    destruct (current s); [|simpl; lia]. destruct (ready_queue s); simpl; lia.
  - unfold timer_wakeups. destruct (check_wakeups _ _) as [w k]. rewrite wake_all_next. simpl.
    split; [|lia]. by apply wake_all_inv, set_wait_queue_inv.
  - unfold exit_wakeups. destruct (wake_waiters_for_pid _ _) as [w k]. rewrite wake_all_next. simpl.
    split; [|lia]. by apply wake_all_inv, set_wait_queue_inv.
Qed.

(** *** Registration of blocked threads *)

Lemma drain_spec f w :
  (drain f w).1 = w_tid <$> base.filter (λ e, f (reason e) = true) w
  ∧ (drain f w).2 = base.filter (λ e, f (reason e) = false) w.
Proof.
  induction w as [|e w [IH1 IH2]]; [done|]. cbn [drain]. rewrite !filter_cons.
  destruct (drain f w) as [a b]. simpl in *. destruct (f (reason e)); simpl; by subst.
Qed.

Lemma wake_all_registered ids s : registered ids s →
  registered [] (foldl (λ s id, wake_thread false id s) s ids).
Proof.
  revert s. induction ids as [|id ids IH]; intros s Hs; simpl; [done|]. apply IH. unfold wake_thread.
  destruct (blocked_threads s !! id) as [th|] eqn:E.
  - intros k [th' Hk]. simpl in *. apply lookup_delete_Some in Hk as [Hne Hk].
    destruct (Hs k ltac:(eauto)) as [[->|]%elem_of_cons|]; [done|auto..].
  - intros k [th' Hk]. destruct (Hs k ltac:(eauto)) as [[->|]%elem_of_cons|]; [congruence|auto..].
Qed.

Lemma drain_registered f s : registered [] s →
  let '(woken, kept) := drain f (WAIT_QUEUE s) in registered woken (set_wait (blocked_threads s) kept s).
Proof.
  intros Hs. destruct (drain_spec f (WAIT_QUEUE s)) as [E1 E2]. destruct (drain f _) as [w k]. simpl in *.
  intros id Hid. simpl. destruct (Hs id Hid) as [?%elem_of_nil|(e & -> & He)%list_elem_of_fmap]; [done|].
  subst. destruct (f (reason e)) eqn:E; [left|right]; apply list_elem_of_fmap; exists e;
    (split; [done|]); apply list_elem_of_filter; done.
Qed.

Lemma sched_step_registered o s : unlocked o → registered [] s → registered [] (apply_op o s).
Proof.
  intros Hu Hs. destruct o as [nm prio top ticks|sp| |l rsp|r|l tick|l p]; simpl in *.
  - exact Hs.
  - unfold yield_now. destruct (_ || _); [done|]. destruct (current s); [|done]. by destruct (ready_queue s).
  - unfold exit_current_thread. by destruct (ready_queue s).
  - unfold preempt. destruct l; [done|]. destruct (_ || _); [done|]. destruct (current s); simpl; [|done].
    by destruct (take_user _) as [[? ?]|].
  - unfold block_current_thread. destruct (initialized s); simpl; [|done].
    destruct (current s) as [th|]; [|done].
    assert (Hr : ∀ id, is_Some (<[tid th := set_state Blocked th]> (blocked_threads s) !! id) →
      id ∈ [] ∨ id ∈ (w_tid <$> sleep_thread (tid th) r (WAIT_QUEUE s))).
    { intros id [x [[<- _]|[_ Hx]]%lookup_insert_Some]; right; unfold sleep_thread; rewrite fmap_app, elem_of_app.
      - right. simpl. by left.
      - destruct (Hs id ltac:(eauto)) as [?%elem_of_nil|]; [done|by left]. }
    destruct (ready_queue s); exact Hr.
  - subst. pose proof (drain_registered (λ r, match r with Sleep w => w <=? tick | _ => false end) s Hs) as Hd.
    unfold timer_wakeups, check_wakeups. destruct (drain _ _). by apply wake_all_registered.
  - subst. pose proof (drain_registered (λ r, match r with WaitPid tp => (tp =? p) || (tp =? 0) | _ => false end) s Hs) as Hd.
    unfold exit_wakeups, wake_waiters_for_pid. destruct (drain _ _). by apply wake_all_registered.
Qed.

(** *** Round robin *)

(** The threads in running order, the running one first. *)
Definition cycle (s : t) : list Z := tid <$> active_threads s.

Definition rotate (l : list Z) : list Z := match l with [] => [] | x :: l' => l' ++ [x] end.

(** A running system: the current thread is alive. *)
Definition live (s : t) : Prop := initialized s = true ∧ ∃ th, current s = Some th ∧ state th ≠ Dead.

Lemma yield_spec sp s th : initialized s = true → current s = Some th → state th ≠ Dead →
  match ready_queue s with
  | [] => yield_now sp s = (None, s)
  | new :: q =>
      yield_now sp s = (Some (switch_to new),
        set_run (q ++ [set_sp sp (set_state Ready th)]) (Some (set_state Running new)) s)
  end.
Proof.
  intros Hinit Hc Hd. unfold yield_now. rewrite Hinit, Hc. simpl.
  destruct (ready_queue s) as [|new q]; [done|]. rewrite bool_decide_false by done. simpl.
  rewrite decide_False by done. unfold save_last. rewrite last_snoc. rewrite decide_False by done.
  rewrite length_app. simpl. by rewrite Nat.add_sub, take_app_length.
Qed.

Lemma yield_rotates sp s : live s → live (yield_now sp s).2 ∧ cycle (yield_now sp s).2 = rotate (cycle s).
Proof.
  intros (Hinit & th & Hc & Hd). pose proof (yield_spec sp s th Hinit Hc Hd) as Hy.
  destruct (ready_queue s) as [|new q] eqn:Eq; rewrite Hy; simpl.
  - split; [by split; [|exists th]|]. unfold cycle, active_threads. by rewrite Hc, Eq.
  - split; [split; [done|]; eexists; done|]. unfold cycle, active_threads. simpl. rewrite Hc, Eq. simpl.
    by rewrite fmap_app.
Qed.

Lemma rotate_app l1 l2 : Nat.iter (length l1) rotate (l1 ++ l2) = l2 ++ l1.
Proof.
  revert l2. induction l1 as [|x l1 IH]; intros l2; simpl; [by rewrite app_nil_r|].
  rewrite <- Nat.iter_succ, Nat.iter_succ_r. simpl. rewrite <- app_assoc, IH. by rewrite <- app_assoc.
Qed.

(** ** Theorems *)

(** C7: over any interleaving of spawns, yields, exits, timer preemptions,
    blocking calls and wake-ups (locks busy or not), thread numbers stay unique
    and fresh, a thread is in exactly one of running, ready or blocked, queued
    threads are in state Ready, blocked ones in state Blocked, and the current
    one is Running or Dead. *)
Theorem sched_invariant ops s :
  inv s → 0 ≤ NEXT_TID s → NEXT_TID s + Z.of_nat (length ops) < 2 ^ 64 → inv (run ops s).
Proof.
  revert s. induction ops as [|o ops IH]; intros s Hi H0 Hn; simpl in *; [done|].
  destruct (sched_step o s Hi H0 ltac:(lia)) as [Hi' ?]. apply IH; [done|lia|lia].
Qed.

Definition boot_state : t := init (mkT [] None ∅ false [] 1 (mkTarget 0 0 false false)).

Lemma boot_state_inv : inv boot_state.
Proof.
  split; simpl.
  - apply NoDup_singleton.
  - intros th ->%list_elem_of_singleton. simpl. lia.
  - by apply Forall_nil.
  - intros th [= <-]. by left.
  - done.
Defined.

Definition demo_ops : list op :=
  [OpSpawn "a" 5 4096 0; OpSpawn "b" 5 8192 0; OpYield 100; OpBlock (Sleep 7); OpTimer false 9; OpYield 200; OpExit].

Lemma sched_invariant_witness :
  inv (run demo_ops boot_state) ∧ cycle (run demo_ops boot_state) = [1; 2].
Proof.
  split; [|vm_compute; reflexivity].
  apply (sched_invariant demo_ops boot_state boot_state_inv); vm_compute; (reflexivity || discriminate).
Defined.

(** C31: no wake-up is lost while the scheduler lock is free at wake-up time:
    in every state reached by such a history each blocked thread still has an
    entry in the wait queue, so the event it waits for will find it. *)
Theorem sched_no_lost_wakeup ops s :
  registered [] s → Forall unlocked ops →
  ∀ id, is_Some (blocked_threads (run ops s) !! id) → id ∈ (w_tid <$> WAIT_QUEUE (run ops s)).
Proof.
  intros Hs Ho. assert (Hr : registered [] (run ops s)).
  { revert s Hs. induction Ho as [|o ops Ho _ IH]; intros s Hs; simpl; [done|].
    apply IH. by apply sched_step_registered. }
  intros id Hid. by destruct (Hr id Hid) as [?%elem_of_nil|].
Qed.

Lemma sched_no_lost_wakeup_witness :
  is_Some (blocked_threads (run [OpSpawn "a" 5 4096 0; OpBlock (Sleep 7)] boot_state) !! 0)
  ∧ 0 ∈ (w_tid <$> WAIT_QUEUE (run [OpSpawn "a" 5 4096 0; OpBlock (Sleep 7)] boot_state)).
Proof.
  assert (H : is_Some (blocked_threads (run [OpSpawn "a" 5 4096 0; OpBlock (Sleep 7)] boot_state) !! 0))
    by (vm_compute; eexists; reflexivity).
  split; [exact H|].
  refine (sched_no_lost_wakeup [OpSpawn "a" 5 4096 0; OpBlock (Sleep 7)] boot_state _ _ 0 H).
  - intros id [x Hx]. vm_compute in Hx. discriminate.
  - repeat constructor.
Defined.

(** Yielding is round robin.  In a live system, [k] yields rotate the
    running order by [k], whatever stack pointers are saved: the thread at
    position [i] of the queue runs after [i + 1] yields, and after as many
    yields as there are threads the original order is back. *)
Theorem sched_round_robin sps s :
  live s →
  let s' := foldl (λ s sp, (yield_now sp s).2) s sps in
  live s' ∧ cycle s' = Nat.iter (length sps) rotate (cycle s)
  ∧ (length sps = length (cycle s) → cycle s' = cycle s)
  ∧ ∀ x i, cycle s !! i = Some x → length sps = i → current_tid s' = Some x.
Proof.
  intros Hl. cbv zeta. assert (Hr : live (foldl (λ s sp, (yield_now sp s).2) s sps)
    ∧ cycle (foldl (λ s sp, (yield_now sp s).2) s sps) = Nat.iter (length sps) rotate (cycle s)).
  { revert s Hl. induction sps as [|sp sps IH]; intros s Hl; simpl; [done|].
    destruct (yield_rotates sp s Hl) as [Hl' Hc]. destruct (IH _ Hl') as [IH1 IH2]. split; [done|].
    rewrite IH2, Hc. by rewrite <- Nat.iter_succ, Nat.iter_succ_r. }
  destruct Hr as [Hl' Hc]. split_and!; [done|done| |].
  - intros E. rewrite Hc, E. rewrite <- (app_nil_r (cycle s)) at 2. by rewrite rotate_app.
  - intros x i Hx E. destruct Hl' as (_ & th & Hcur & _). unfold current_tid. rewrite Hcur. simpl.
    rewrite <- (take_drop i (cycle s)) in Hc.
    assert (Ht : length (take i (cycle s)) = length sps).
    { rewrite length_take. apply lookup_lt_Some in Hx. lia. }
    rewrite <- Ht, rotate_app, (drop_S _ _ _ Hx) in Hc. unfold cycle, active_threads in Hc.
    rewrite Hcur in Hc. simpl in Hc. congruence.
Qed.

Lemma sched_round_robin_witness :
  let s := run [OpSpawn "a" 5 4096 0; OpSpawn "b" 5 8192 0] boot_state in
  cycle s = [0; 1; 2] ∧ current_tid (foldl (λ s sp, (yield_now sp s).2) s [10; 20]) = Some 2.
Proof.
  split; [vm_compute; reflexivity|].
  refine (proj2 (proj2 (proj2 (sched_round_robin [10; 20] (run [OpSpawn "a" 5 4096 0; OpSpawn "b" 5 8192 0] boot_state) _)))
    2 2%nat _ _).
  - split; [reflexivity|]. exists boot_thread. split; [reflexivity|discriminate].
  - vm_compute. reflexivity.
  - reflexivity.
Defined.

(** A yield saves the running context in the thread that yields and
    resumes the next thread from its own saved context; every other thread's
    saved stack pointer is untouched. *)
Theorem yield_saves_context sp s th new q :
  initialized s = true → current s = Some th → state th ≠ Dead → ready_queue s = new :: q →
  let '(sw, s') := yield_now sp s in
  sw = Some (mkSwitch (stack_ptr new) (cr3 new) (is_user new) (kernel_stack_ptr new))
  ∧ ready_queue s' = q ++ [set_sp sp (set_state Ready th)]
  ∧ current s' = Some (set_state Running new)
  ∧ blocked_threads s' = blocked_threads s.
Proof.
  intros Hi Hc Hd Hq. pose proof (yield_spec sp s th Hi Hc Hd) as Hy. rewrite Hq in Hy. by rewrite Hy.
Qed.

Lemma yield_saves_context_witness :
  stack_ptr <$> ready_queue (yield_now 77 (run [OpSpawn "a" 5 4096 0] boot_state)).2 = [77].
Proof.
  exact (f_equal (λ q : list Thread, stack_ptr <$> q) (proj1 (proj2 (yield_saves_context 77 (run [OpSpawn "a" 5 4096 0] boot_state)
    boot_thread (new_thread "a" 5 4096 0 1) [] eq_refl eq_refl ltac:(discriminate) eq_refl)))).
Defined.

Lemma drain_exact f w :
  let '(woken, kept) := drain f w in
  (∀ id, id ∈ woken ↔ ∃ r, mkEntry id r ∈ w ∧ f r = true)
  ∧ (∀ e, e ∈ kept ↔ e ∈ w ∧ f (reason e) = false)
  ∧ kept `sublist_of` w ∧ (length woken + length kept = length w)%nat.
Proof.
  induction w as [|[id r] w IH]; simpl; [split_and!; set_solver|].
  destruct (drain f w) as [a b]. destruct IH as (H1 & H2 & H3 & H4).
  destruct (f r) eqn:E; split_and!; simpl; try lia; try (by constructor).
  - intros x. rewrite elem_of_cons, H1. split.
    + intros [->|(r' & ? & ?)]; eexists; (split; [|done]); set_solver.
    + intros (r' & [[= -> ->]|]%elem_of_cons & ?); [by left|right; eauto].
  - intros e. rewrite H2, elem_of_cons. split; [naive_solver|]. intros [[->|] ?]; simpl in *; [congruence|done].
  - intros x. rewrite H1. split.
    + intros (r' & ? & ?). exists r'. set_solver.
    + intros (r' & [[= -> ->]|]%elem_of_cons & ?); [congruence|eauto].
  - intros e. rewrite !elem_of_cons, H2. split; [|naive_solver]. intros [->|[? ?]]; [by split; [left|]|auto].
Qed.

(** The timer wakes exactly the sleepers whose tick has come; the exit of
    process [p] wakes exactly those waiting for [p] or for any child (pid 0);
    data on a pipe wakes exactly its readers.  Every other entry stays queued,
    in the same order, and no entry is dropped without its thread being woken. *)
Theorem wait_queue_wakes_exactly tick p pipe w :
  (let '(woken, kept) := check_wakeups tick w in
   (∀ id, id ∈ woken ↔ ∃ k, mkEntry id (Sleep k) ∈ w ∧ k ≤ tick)
   ∧ kept `sublist_of` w ∧ (length woken + length kept = length w)%nat)
  ∧ (let '(woken, kept) := wake_waiters_for_pid p w in
     (∀ id, id ∈ woken ↔ mkEntry id (WaitPid p) ∈ w ∨ mkEntry id (WaitPid 0) ∈ w)
     ∧ kept `sublist_of` w ∧ (length woken + length kept = length w)%nat)
  ∧ (let '(woken, kept) := wake_pipe_readers pipe w in
     (∀ id, id ∈ woken ↔ mkEntry id (PipeRead pipe) ∈ w)
     ∧ kept `sublist_of` w ∧ (length woken + length kept = length w)%nat).
Proof.
  unfold check_wakeups, wake_waiters_for_pid, wake_pipe_readers. split_and!;
    (match goal with |- context [drain ?f w] => pose proof (drain_exact f w) as Hd; destruct (drain f w) end);
    destruct Hd as (H1 & _ & H3 & H4); (split_and!; [|done|done]); intros id; rewrite H1.
  - split.
    + intros ([k| |] & Hin & E); try done. exists k. split; [done|]. by apply Z.leb_le.
    + intros (k & Hin & E). exists (Sleep k). split; [done|]. by apply Z.leb_le.
  - split.
    + intros ([|q|] & Hin & E); try done. apply orb_true_iff in E as [E|E]; apply Z.eqb_eq in E as ->; auto.
    + intros [Hin|Hin]; eexists; (split; [done|]); simpl; [by rewrite Z.eqb_refl|by rewrite orb_true_r].
  - split.
    + intros ([| |q] & Hin & E); try done. by apply Z.eqb_eq in E as ->.
    + intros Hin. eexists. split; [done|]. simpl. apply Z.eqb_refl.
Qed.

(** ** Consequences of the code as written *)

(** [check_wakeups] has already removed the entry when [wake_thread] finds the
    lock busy and returns: the thread stays blocked and nothing will wake it. *)
Lemma wakeup_lost_when_locked :
  let s := run [OpSpawn "a" 5 4096 0; OpBlock (Sleep 7); OpTimer true 9; OpTimer false 10] boot_state in
  is_Some (blocked_threads s !! 0) ∧ WAIT_QUEUE s = [].
Proof. vm_compute. split; [eexists; reflexivity|reflexivity]. Qed.

(** An exited thread with nothing else ready stays current; the next preemption
    puts it back in the ready queue. *)
Lemma preempt_revives_dead :
  let u := new_user "u" 3 0 5 8192 0 9 in
  let s1 := (exit_current_thread boot_state).2 in
  let s2 := set_run [u] (current s1) s1 in
  state <$> current s2 = Some Dead ∧ (preempt false 64 s2).1 = true
  ∧ (λ th, (tid th, state th)) <$> ready_queue (preempt false 64 s2).2 = [(0, Ready)].
Proof. vm_compute. done. Qed.

(** A yield by a dead thread saves the running stack pointer into the last
    queued thread instead of discarding it. *)
Lemma dead_yield_overwrites_other :
  let s1 := (exit_current_thread boot_state).2 in
  let s2 := set_run [new_thread "a" 5 4096 0 1; new_thread "b" 5 8192 0 2] (current s1) s1 in
  (λ th, (tid th, stack_ptr th)) <$> ready_queue (yield_now 77 s2).2 = [(2, 77)].
Proof. vm_compute. done. Qed.

(** A blocked thread keeps the stack pointer of its previous switch: the
    context it blocks with is written to a local that is never read. *)
Lemma block_discards_context r s th next q :
  initialized s = true → current s = Some th → ready_queue s = next :: q →
  stack_ptr <$> blocked_threads (block_current_thread r s).2 !! tid th = Some (stack_ptr th).
Proof.
  intros Hi Hc Hq. unfold block_current_thread. rewrite Hi, Hc, Hq. simpl. by rewrite lookup_insert_eq.
Qed.
