(* ===== verification/SmpBalance.v ===== *)
(** SMP load balancing: [kernel/src/process/smp_balance.rs].

    The per-CPU run queues, the number of active CPUs and the two counters form
    the state [t].  [all_tids] collects the threads of all queues: assignment
    adds to it, removal takes from it, balancing permutes it. *)

From S2P Require Import Prelude.

Definition MAX_CPUS : nat := 4.

Record CpuRunQueue := mkQueue {
  cpu_id : nat;
  thread_tids : list Z;
  tasks_executed : Z;
  active : bool;
}.

Definition new_queue (i : nat) : CpuRunQueue := mkQueue i [] 0 false.

Record t := mkT {
  CPU_QUEUES : list CpuRunQueue;
  ACTIVE_CPUS : nat;
  BALANCE_TICK : Z;
  STEAL_COUNT : Z;
}.

Definition BALANCE_INTERVAL : Z := 100.

Definition set_tids (l : list Z) (q : CpuRunQueue) : CpuRunQueue :=
  mkQueue (cpu_id q) l (tasks_executed q) (active q).
Definition set_queues (qs : list CpuRunQueue) (s : t) : t :=
  mkT qs (ACTIVE_CPUS s) (BALANCE_TICK s) (STEAL_COUNT s).
Definition activate (q : CpuRunQueue) : CpuRunQueue :=
  mkQueue (cpu_id q) (thread_tids q) (tasks_executed q) true.

(** [CPU_QUEUES[i].lock().thread_tids.push_back(tid)] *)
Definition push_back (i : nat) (tid : Z) (qs : list CpuRunQueue) : list CpuRunQueue :=
  alter (λ q, set_tids (thread_tids q ++ [tid]) q) i qs.

(** [cpu_count] comes from the SMP boot code. *)
Definition init (cpu_count : nat) (s : t) : t :=
  let qs := imap (λ i q, if bool_decide (i = 0%nat ∨ (i < cpu_count)%nat) then activate q else q) (CPU_QUEUES s) in
  mkT qs cpu_count (BALANCE_TICK s) (STEAL_COUNT s).

(** The loop over the first [active] queues: shortest active queue, the first
    one on a tie; the start value is [(usize::MAX, 0)]. *)
Fixpoint find_min (i : nat) (qs : list CpuRunQueue) (best : Z * nat) : Z * nat :=
  match qs with
  | [] => best
  | q :: qs' =>
      let len := Z.of_nat (length (thread_tids q)) in
      find_min (S i) qs' (if active q && (len <? best.1) then (len, i) else best)
  end.

Fixpoint find_max (i : nat) (qs : list CpuRunQueue) (best : Z * nat) : Z * nat :=
  match qs with
  | [] => best
  | q :: qs' =>
      let len := Z.of_nat (length (thread_tids q)) in
      find_max (S i) qs' (if active q && (best.1 <? len) then (len, i) else best)
  end.

Definition usize_MAX : Z := 2 ^ 64 - 1.

Definition assign_thread (tid : Z) (s : t) : nat * t :=
  let act := Nat.min (ACTIVE_CPUS s) MAX_CPUS in
  if (act <=? 1)%nat then (0%nat, set_queues (push_back 0 tid (CPU_QUEUES s)) s)
  else
    let min_cpu := (find_min 0 (take act (CPU_QUEUES s)) (usize_MAX, 0%nat)).2 in
    (min_cpu, set_queues (push_back min_cpu tid (CPU_QUEUES s)) s).

(** [iter().position(|&t| t == tid)] then [remove(pos)] *)
Fixpoint remove_first (tid : Z) (l : list Z) : option (list Z) :=
  match l with
  | [] => None
  | x :: l' => if x =? tid then Some l' else match remove_first tid l' with Some l'' => Some (x :: l'') | None => None end
  end.

Fixpoint remove_thread_from (tid : Z) (qs : list CpuRunQueue) : list CpuRunQueue :=
  match qs with
  | [] => []
  | q :: qs' =>
      match remove_first tid (thread_tids q) with
      | Some l => set_tids l q :: qs'
      | None => q :: remove_thread_from tid qs'
      end
  end.

Definition remove_thread (tid : Z) (s : t) : t := set_queues (remove_thread_from tid (CPU_QUEUES s)) s.

(** [pop_back] up to [n] times: the tids popped, in that order, and the rest. *)
Fixpoint pop_back_n (n : nat) (l : list Z) : list Z * list Z :=
  match n with
  | O => ([], l)
  | S n' =>
      match last l with
      | Some tid => let '(st, l') := pop_back_n n' (take (length l - 1) l) in (tid :: st, l')
      | None => ([], l)
      end
  end.

Definition balance (s0 : t) : t :=
  let tick := BALANCE_TICK s0 in
  let s := mkT (CPU_QUEUES s0) (ACTIVE_CPUS s0) (wrap 64 (tick + 1)) (STEAL_COUNT s0) in
  if negb (tick `mod` BALANCE_INTERVAL =? 0) then s
  else
    let act := Nat.min (ACTIVE_CPUS s) MAX_CPUS in
    if (act <=? 1)%nat then s
    else
      let qs := CPU_QUEUES s in
      let '(max_len, max_cpu) := find_max 0 (take act qs) (0, 0%nat) in
      let '(min_len, min_cpu) := find_min 0 (take act qs) (usize_MAX, 0%nat) in
      if negb (max_cpu =? min_cpu)%nat && (min_len + 2 <? max_len) then
        let steal_count := Z.min ((max_len - min_len) `div` 2) 4 in
        match qs !! max_cpu with
        | None => s
        | Some src =>
            let '(stolen, rest) := pop_back_n (Z.to_nat steal_count) (thread_tids src) in
            let qs1 := <[max_cpu := set_tids rest src]> qs in
            let qs2 := foldl (λ qs tid, push_back min_cpu tid qs) qs1 stolen in
            mkT qs2 (ACTIVE_CPUS s) (BALANCE_TICK s) (wrap 64 (STEAL_COUNT s + Z.of_nat (length stolen)))
        end
      else s.

Definition set_affinity (tid : Z) (target_cpu : nat) (s : t) : bool * t :=
  if (MAX_CPUS <=? target_cpu)%nat then (false, s)
  else let s1 := remove_thread tid s in (true, set_queues (push_back target_cpu tid (CPU_QUEUES s1)) s1).

Definition cpu_load_stats (s : t) : list (nat * Z * Z * bool) :=
  (λ q, (cpu_id q, Z.of_nat (length (thread_tids q)), tasks_executed q, active q)) <$>
    take (Nat.min (ACTIVE_CPUS s) MAX_CPUS) (CPU_QUEUES s).

(** ** Abstract state and invariant *)

Definition tids (qs : list CpuRunQueue) : list Z := qs ≫= thread_tids.
Definition all_tids (s : t) : list Z := tids (CPU_QUEUES s).
Definition load (i : nat) (s : t) : Z := from_option (λ q, Z.of_nat (length (thread_tids q))) 0 (CPU_QUEUES s !! i).
Definition is_active (i : nat) (s : t) : Prop := ∃ q, CPU_QUEUES s !! i = Some q ∧ active q = true.

(** Four queues, the boot CPU active, lengths below [usize::MAX]. *)
Record inv (s : t) : Prop := {
  inv_len : length (CPU_QUEUES s) = MAX_CPUS;
  inv_boot : is_active 0 s;
  inv_count : (1 ≤ ACTIVE_CPUS s)%nat;
  inv_small i : load i s < usize_MAX;
}.

(** ** Lemmas *)

Lemma find_min_spec i qs b :
  let r := find_min i qs b in
  (r = b ∨ ∃ j q, qs !! j = Some q ∧ active q = true ∧ r = (Z.of_nat (length (thread_tids q)), i + j)%nat)
  ∧ r.1 ≤ b.1
  ∧ ∀ j q, qs !! j = Some q → active q = true → r.1 ≤ Z.of_nat (length (thread_tids q)).
Proof.
  revert i b. induction qs as [|q qs IH]; intros i b; simpl; [split_and!; [by left|lia|done]|].
  remember (if active q && _ then _ else b) as b' eqn:Eb. specialize (IH (S i) b'). simpl in IH. destruct IH as (H1 & H2 & H3).
  set (r := find_min (S i) qs b') in *. split_and!.
  - destruct H1 as [->|(j & q' & ? & ? & ->)].
    + rewrite Eb. destruct (active q) eqn:E; simpl; [|by left]. case_bool; [|by left].
      right. exists 0%nat, q. by rewrite Nat.add_0_r.
    + right. exists (S j), q'. split_and!; try done. f_equal. lia.
  - rewrite Eb in H2. destruct (active q); simpl in *; [|done]. revert H2. case_bool; simpl; lia.
  - intros [|j] q' Hj Ha; simpl in Hj; [|by eapply H3]. injection Hj as ->.
    rewrite Eb in H2. rewrite Ha in H2. simpl in H2. revert H2. case_bool; simpl; lia.
Qed.

Lemma find_max_spec i qs b :
  let r := find_max i qs b in
  (r = b ∨ ∃ j q, qs !! j = Some q ∧ active q = true ∧ r = (Z.of_nat (length (thread_tids q)), i + j)%nat)
  ∧ b.1 ≤ r.1.
Proof.
  revert i b. induction qs as [|q qs IH]; intros i b; simpl; [split; [by left|lia]|].
  remember (if active q && _ then _ else b) as b' eqn:Eb. specialize (IH (S i) b'). simpl in IH. destruct IH as (H1 & H2).
  set (r := find_max (S i) qs b') in *. split.
  - destruct H1 as [->|(j & q' & ? & ? & ->)].
    + rewrite Eb. destruct (active q) eqn:E; simpl; [|by left]. case_bool; [|by left].
      right. exists 0%nat, q. by rewrite Nat.add_0_r.
    + right. exists (S j), q'. split_and!; try done. f_equal. lia.
  - rewrite Eb in H2. destruct (active q); simpl in *; [|done]. revert H2. case_bool; simpl; lia.
Qed.

Lemma tids_alter (f : CpuRunQueue → CpuRunQueue) i qs q :
  qs !! i = Some q → ∃ rest, tids qs ≡ₚ thread_tids q ++ rest ∧ tids (alter f i qs) ≡ₚ thread_tids (f q) ++ rest.
Proof.
  revert i. induction qs as [|p qs IH]; intros [|i] Hi; simpl in *; try done.
  - injection Hi as ->. by exists (tids qs).
  - destruct (IH i Hi) as (rest & H1 & H2). exists (thread_tids p ++ rest). unfold tids in *. simpl.
    rewrite H1, H2. split; rewrite !app_assoc; apply Permutation_app_tail, Permutation_app_comm.
Qed.

Lemma push_back_tids i tid qs : (i < length qs)%nat → tids (push_back i tid qs) ≡ₚ tid :: tids qs.
Proof.
  intros Hi. apply lookup_lt_is_Some_2 in Hi as [q Hq]. unfold push_back.
  destruct (tids_alter (λ q, set_tids (thread_tids q ++ [tid]) q) i qs q Hq) as (rest & -> & ->). simpl.
  rewrite <- app_assoc. simpl. by rewrite <- Permutation_middle.
Qed.

Lemma push_all_tids i st qs : (i < length qs)%nat →
  tids (foldl (λ qs tid, push_back i tid qs) qs st) ≡ₚ st ++ tids qs.
Proof.
  revert qs. induction st as [|x st IH]; intros qs Hi; simpl; [done|].
  rewrite IH by (unfold push_back; by rewrite length_alter). rewrite push_back_tids by done.
  symmetry. apply Permutation_middle.
Qed.

Lemma pop_back_n_spec n l : let '(st, l') := pop_back_n n l in l = l' ++ reverse st ∧ length st = Nat.min n (length l).
Proof.
  revert l. induction n as [|n IH]; intros l; cbn [pop_back_n]; [by rewrite app_nil_r|].
  destruct (last l) as [x|] eqn:E.
  - apply last_Some in E as [l0 ->]. rewrite length_app. cbn [length]. rewrite Nat.add_sub, take_app_length.
    specialize (IH l0). destruct (pop_back_n n l0) as [st l']. destruct IH as [-> Hl].
    rewrite reverse_cons, app_assoc. split; [done|].
    rewrite ?length_app, ?length_reverse in *. cbn [length]. lia.
  - apply last_None in E as ->. split; [done|]. simpl. lia.
Qed.

Lemma remove_first_spec tid l :
  match remove_first tid l with Some l' => l ≡ₚ tid :: l' | None => tid ∉ l end.
Proof.
  induction l as [|x l IH]; simpl; [set_solver|]. case_bool; [by subst|].
  destruct (remove_first tid l); [rewrite IH; apply Permutation_swap|set_solver].
Qed.

Lemma remove_thread_spec tid qs :
  (tid ∈ tids qs → tids qs ≡ₚ tid :: tids (remove_thread_from tid qs))
  ∧ (tid ∉ tids qs → remove_thread_from tid qs = qs).
Proof.
  induction qs as [|q qs [IH1 IH2]]; simpl; [split; set_solver|].
  pose proof (remove_first_spec tid (thread_tids q)) as Hr. destruct (remove_first _ _) as [l|].
  - unfold tids. simpl. split; [intros _; by rewrite Hr|]. rewrite Hr. set_solver.
  - unfold tids in *. simpl. split.
    + intros [?|Hin]%elem_of_app; [done|]. rewrite IH1 by done. symmetry. apply Permutation_middle.
    + intros Hn. rewrite IH2; [done|]. set_solver.
Qed.

Lemma push_back_load i j tid s : (i < length (CPU_QUEUES s))%nat →
  load j (set_queues (push_back i tid (CPU_QUEUES s)) s) = load j s + (if decide (j = i) then 1 else 0).
Proof.
  intros Hi. unfold load, push_back. simpl. case_decide as Hj.
  - subst. rewrite list_lookup_alter_eq. apply lookup_lt_is_Some_2 in Hi as [q ->]. simpl.
    rewrite length_app. simpl. lia.
  - rewrite list_lookup_alter_ne by done. lia.
Qed.

(** The chosen CPU is an active one among those in use. *)
Lemma find_min_active act s : inv s → (1 ≤ act)%nat →
  let r := find_min 0 (take act (CPU_QUEUES s)) (usize_MAX, 0%nat) in
  (r.2 < act)%nat ∧ is_active r.2 s ∧ r.1 = load r.2 s
  ∧ ∀ j, (j < act)%nat → is_active j s → load r.2 s ≤ load j s.
Proof.
  intros [Hl [q0 [Hq0 Ha0]] Hc Hs] Hact. cbv zeta.
  destruct (find_min_spec 0 (take act (CPU_QUEUES s)) (usize_MAX, 0%nat)) as (H1 & _ & H3).
  set (r := find_min _ _ _) in *.
  assert (H0 : r.1 ≤ Z.of_nat (length (thread_tids q0))).
  { apply (H3 0%nat); [|done]. by rewrite lookup_take_lt by lia. }
  pose proof (Hs 0%nat) as Hs0. unfold load in Hs0. rewrite Hq0 in Hs0. simpl in Hs0.
  destruct H1 as [E|(j & q & Hj & Ha & E)]; [rewrite E in H0; simpl in H0; lia|].
  apply lookup_take_Some in Hj as [Hj Hlt]. rewrite E. simpl. unfold load at 1 2. rewrite Hj. simpl.
  split_and!; [done|by exists q|done|]. intros j' Hj' (q' & Hq' & Ha'). unfold load. rewrite Hq'. simpl.
  rewrite E in H3. simpl in H3. eapply H3; [|done]. by rewrite lookup_take_lt.
Qed.

Lemma remove_thread_length tid qs : length (remove_thread_from tid qs) = length qs.
Proof. induction qs as [|q qs IH]; simpl; [done|]. destruct (remove_first _ _); simpl; by rewrite ?IH. Qed.

Lemma balance_tids s : inv s → all_tids (balance s) ≡ₚ all_tids s.
Proof.
  intros [Hl _ _ _]. unfold balance. destruct (negb _); [done|]. destruct (_ <=? 1)%nat; [done|]. simpl.
  set (act := Nat.min _ _). pose proof (find_min_spec 0 (take act (CPU_QUEUES s)) (usize_MAX, 0%nat)) as (Hmin & _ & _).
  destruct (find_max _ _ _) as [max_len max_cpu]. destruct (find_min _ _ _) as [min_len min_cpu].
  destruct (negb _ && _); [|done]. destruct (CPU_QUEUES s !! max_cpu) as [src|] eqn:Es; [|done].
  pose proof (pop_back_n_spec (Z.to_nat (Z.min ((max_len - min_len) `div` 2) 4)) (thread_tids src)) as Hp.
  destruct (pop_back_n _ _) as [st rest]. destruct Hp as [Ep _]. unfold all_tids. simpl.
  assert (Hm : (min_cpu < length (CPU_QUEUES s))%nat).
  { destruct Hmin as [[= _ ->]|(j & q & Hj & _ & [= _ ->])]; [rewrite Hl; unfold MAX_CPUS; lia|].
    apply lookup_take_Some in Hj as [?%lookup_lt_Some _]. lia. }
  rewrite push_all_tids by (by rewrite length_insert).
  destruct (tids_alter (λ _, set_tids rest src) max_cpu (CPU_QUEUES s) src Es) as (other & -> & Ha).
  rewrite list_insert_alter, Ha, Ep. simpl. rewrite app_assoc. apply Permutation_app_tail.
  rewrite reverse_Permutation. apply Permutation_app_comm.
Qed.

(** ** Theorems *)

(** [assign_thread] puts the thread on exactly one queue, and with several
    CPUs that queue is a shortest one among the active CPUs (the lowest-numbered
    on a tie is scanned first); the other queues are untouched. *)
Theorem assign_thread_least_loaded tid s : inv s →
  let '(cpu, s') := assign_thread tid s in
  all_tids s' ≡ₚ tid :: all_tids s ∧ is_active cpu s
  ∧ (∀ j, (j < Nat.min (ACTIVE_CPUS s) MAX_CPUS)%nat → is_active j s → load cpu s ≤ load j s)
  ∧ ∀ j, load j s' = load j s + (if decide (j = cpu) then 1 else 0).
Proof.
  intros Hi. pose proof Hi as [Hl Hb Hc Hs]. unfold assign_thread.
  set (act := Nat.min (ACTIVE_CPUS s) MAX_CPUS). destruct (Nat.leb_spec act 1) as [H1|H1].
  - assert (act = 1%nat) by (unfold act, MAX_CPUS in *; lia).
    split_and!; [apply push_back_tids; rewrite Hl; unfold MAX_CPUS; lia|done| |].
    + intros j Hj _. by replace j with 0%nat by lia.
    + intros j. apply push_back_load. rewrite Hl. unfold MAX_CPUS. lia.
  - destruct (find_min_active act s Hi ltac:(lia)) as (Hlt & Hact & _ & Hmin). set (r := find_min _ _ _) in *.
    assert (Hr : (r.2 < length (CPU_QUEUES s))%nat) by (rewrite Hl; unfold act in *; lia).
    split_and!; [by apply push_back_tids|done|done|]. intros j. by apply push_back_load.
Qed.

Definition demo_smp : t := init 3 (mkT (new_queue <$> seq 0 4) 1 0 0).

Lemma demo_smp_inv : inv demo_smp.
Proof.
  split; [done|by eexists|unfold demo_smp; simpl; lia|].
  intros [|[|[|[|i]]]]; vm_compute; reflexivity.
Defined.

Lemma assign_thread_least_loaded_witness :
  (assign_thread 7 demo_smp).1 = 0%nat ∧ all_tids (assign_thread 7 demo_smp).2 ≡ₚ [7].
Proof.
  split; [reflexivity|]. exact (proj1 (assign_thread_least_loaded 7 demo_smp demo_smp_inv)).
Defined.

(** Balancing, removing and re-pinning never lose or duplicate a thread:
    [balance] permutes the queued threads, [remove_thread] takes out exactly one
    occurrence of the thread (or changes nothing when it is queued nowhere), and
    [set_affinity] of a queued thread permutes as well. *)
Theorem smp_threads_conserved tid cpu s : inv s →
  all_tids (balance s) ≡ₚ all_tids s
  ∧ (tid ∈ all_tids s → all_tids s ≡ₚ tid :: all_tids (remove_thread tid s))
  ∧ (tid ∉ all_tids s → remove_thread tid s = s)
  ∧ (let '(ok, s') := set_affinity tid cpu s in
     (ok = true ↔ (cpu < MAX_CPUS)%nat)
     ∧ (tid ∈ all_tids s → all_tids s' ≡ₚ all_tids s)
     ∧ (ok = true → ∃ q, CPU_QUEUES s' !! cpu = Some q ∧ tid ∈ thread_tids q)).
Proof.
  intros Hi. pose proof Hi as [Hl Hb Hc Hs]. destruct (remove_thread_spec tid (CPU_QUEUES s)) as [Hr1 Hr2].
  split_and!; [by apply balance_tids|exact Hr1| |].
  - intros Hn. unfold remove_thread. rewrite Hr2 by done. by destruct s.
  - unfold set_affinity. destruct (Nat.leb_spec MAX_CPUS cpu) as [Hge|Hlt].
    { split_and!; [split; [done|lia]|done|done]. }
    assert (Hlen : (cpu < length (remove_thread_from tid (CPU_QUEUES s)))%nat)
      by (rewrite remove_thread_length, Hl; done).
    split_and!; [done| |].
    + intros Hin. unfold all_tids. simpl. rewrite push_back_tids by done. symmetry. by apply Hr1.
    + intros _. simpl. unfold push_back. rewrite list_lookup_alter_eq.
      apply lookup_lt_is_Some_2 in Hlen as [q ->]. eexists. split; [done|]. simpl. set_solver.
Qed.

Definition demo_smp5 : t :=
  foldl (λ s tid, set_queues (push_back 1 tid (CPU_QUEUES s)) s) demo_smp [1; 2; 3; 4; 5].

Lemma smp_threads_conserved_witness :
  all_tids (balance demo_smp5) ≡ₚ [1; 2; 3; 4; 5]
  ∧ thread_tids <$> CPU_QUEUES (balance demo_smp5) = [[5; 4]; [1; 2; 3]; []; []].
Proof.
  split; [|vm_compute; reflexivity].
  refine (proj1 (smp_threads_conserved 1 0 demo_smp5 _)).
  split; [reflexivity|by eexists|vm_compute; lia|]. intros [|[|[|[|i]]]]; vm_compute; reflexivity.
Defined.
