(* ===== verification/Ipc.v ===== *)
(** IPC channels and named ports: [kernel/src/ipc/channel.rs], [ipc/port.rs].

    A channel is shared by [Arc]: the registry holds references, so the channels
    live in a store of their own and the registry and the callers hold channel
    ids ([Channel::new] draws a fresh one from the static counter). *)

From S2P Require Import Prelude SmartPackFormat.

Record Message := mkMessage { sender_tid : Z; payload : Value.t }.

Inductive ChannelError := Full | Empty | NotFound.

Record Channel := mkChannel { ch_id : Z; ch_name : string; queue : list Message; capacity : nat }.

Record t := mkIpc {
  channels : gmap Z Channel;
  NEXT_CHANNEL_ID : Z;
  REGISTRY : option (gmap string Z);
}.

Definition set_channels (m : gmap Z Channel) (s : t) : t := mkIpc m (NEXT_CHANNEL_ID s) (REGISTRY s).

Definition new_channel (name : string) (cap : nat) (s : t) : Z * t :=
  let i := NEXT_CHANNEL_ID s in
  (i, mkIpc (<[i := mkChannel i name [] cap]> (channels s)) (wrap 64 (i + 1)) (REGISTRY s)).

Definition send (tid : Z) (v : Value.t) (c : Channel) : result ChannelError unit * Channel :=
  if (capacity c <=? length (queue c))%nat then (Err Full, c)
  else (Ok tt, mkChannel (ch_id c) (ch_name c) (queue c ++ [mkMessage tid v]) (capacity c)).

Definition recv (c : Channel) : result ChannelError Message * Channel :=
  match queue c with
  | [] => (Err Empty, c)
  | m :: q => (Ok m, mkChannel (ch_id c) (ch_name c) q (capacity c))
  end.

Definition has_messages (c : Channel) : bool := negb (bool_decide (length (queue c) = 0%nat)).
Definition len (c : Channel) : nat := length (queue c).

Definition init (s : t) : t := mkIpc (channels s) (NEXT_CHANNEL_ID s) (Some ∅).

Definition register (name : string) (cap : nat) (s : t) : Z * t :=
  let '(i, s1) := new_channel name cap s in
  (i, mkIpc (channels s1) (NEXT_CHANNEL_ID s1) (insert name i <$> REGISTRY s1)).

Definition lookup_port (name : string) (s : t) : option Z :=
  match REGISTRY s with Some r => r !! name | None => None end.

(** ** Calls through a channel reference *)

Inductive ipc_op :=
| Register (name : string) (cap : nat)
| SendTo (i : Z) (tid : Z) (v : Value.t)
| RecvFrom (i : Z).

(** The message a call delivers, if any, with its channel. *)
Inductive ipc_event := Sent (i : Z) (m : Message) | Received (i : Z) (m : Message) | Nothing.

Definition ipc_step (op : ipc_op) (s : t) : ipc_event * t :=
  match op with
  | Register name cap => (Nothing, (register name cap s).2)
  | SendTo i tid v =>
      match channels s !! i with
      | None => (Nothing, s)
      | Some c => let '(r, c') := send tid v c in
                  (match r with Ok _ => Sent i (mkMessage tid v) | Err _ => Nothing end, set_channels (<[i := c']> (channels s)) s)
      end
  | RecvFrom i =>
      match channels s !! i with
      | None => (Nothing, s)
      | Some c => let '(r, c') := recv c in
                  (match r with Ok m => Received i m | Err _ => Nothing end, set_channels (<[i := c']> (channels s)) s)
      end
  end.

Fixpoint ipc_run (ops : list ipc_op) (s : t) : list ipc_event * t :=
  match ops with
  | [] => ([], s)
  | op :: ops' => let '(e, s1) := ipc_step op s in let '(es, s2) := ipc_run ops' s1 in (e :: es, s2)
  end.

Definition sent_on (i : Z) (es : list ipc_event) : list Message :=
  omap (λ e, match e with Sent j m => if j =? i then Some m else None | _ => None end) es.
Definition received_on (i : Z) (es : list ipc_event) : list Message :=
  omap (λ e, match e with Received j m => if j =? i then Some m else None | _ => None end) es.

(** ** Properties *)

Lemma ipc_step_channel op s i c : channels s !! i = Some c → NEXT_CHANNEL_ID s ≠ i → (length (queue c) ≤ capacity c)%nat →
  let '(e, s') := ipc_step op s in
  ∃ c', channels s' !! i = Some c' ∧ (length (queue c') ≤ capacity c')%nat
    ∧ queue c ++ sent_on i [e] = received_on i [e] ++ queue c'.
Proof.
  intros Hc Hn Hcap. destruct op as [name cap|j tid v|j]; simpl.
  - exists c. rewrite lookup_insert_ne by done. by rewrite app_nil_r.
  - destruct (channels s !! j) as [c0|] eqn:E; [|exists c; by rewrite app_nil_r]. unfold send.
    destruct (decide (j = i)) as [->|Hne].
    + replace c0 with c by congruence. destruct (_ <=? _)%nat eqn:El; simpl; rewrite lookup_insert_eq; eexists; (split; [done|]).
      * by rewrite app_nil_r.
      * apply Nat.leb_gt in El. rewrite Z.eqb_refl. simpl. split; [rewrite length_app; simpl; lia|done].
    + apply Z.eqb_neq in Hne as Hne'. destruct (_ <=? _)%nat; simpl; rewrite lookup_insert_ne, ?Hne' by done; exists c; by rewrite app_nil_r.
  - destruct (channels s !! j) as [c0|] eqn:E; [|exists c; by rewrite app_nil_r]. unfold recv.
    destruct (decide (j = i)) as [->|Hne].
    + replace c0 with c by congruence. destruct (queue c) as [|m q] eqn:Eq; simpl; rewrite lookup_insert_eq; eexists; (split; [done|]).
      * rewrite Eq. simpl. split; [lia|done].
      * rewrite Z.eqb_refl. simpl in *. split; [lia|]. by rewrite app_nil_r.
    + apply Z.eqb_neq in Hne as Hne'. destruct (queue c0); simpl; rewrite lookup_insert_ne, ?Hne' by done; exists c; by rewrite app_nil_r.
Qed.

Lemma ipc_step_next op s : NEXT_CHANNEL_ID (ipc_step op s).2 = NEXT_CHANNEL_ID s
  ∨ NEXT_CHANNEL_ID (ipc_step op s).2 = wrap 64 (NEXT_CHANNEL_ID s + 1).
Proof.
  destruct op as [name cap|j tid v|j]; simpl; [by right|..]; left; destruct (channels s !! j) as [c|]; try done;
    [by destruct (send tid v c)|by destruct (recv c)].
Qed.

(** A channel is a reliable bounded FIFO: over any history of registrations,
    sends and receives on any channels, the messages received from a channel are,
    in order, exactly the ones it held before and those whose send succeeded,
    followed by the ones still queued, which never exceed the capacity;
    registering a name again does not disturb the channel others hold. *)
Theorem ipc_channel_fifo ops s i c :
  channels s !! i = Some c → i < NEXT_CHANNEL_ID s → 0 ≤ NEXT_CHANNEL_ID s → NEXT_CHANNEL_ID s + Z.of_nat (length ops) < 2 ^ 64 →
  (length (queue c) ≤ capacity c)%nat →
  let '(es, s') := ipc_run ops s in
  ∃ c', channels s' !! i = Some c' ∧ (length (queue c') ≤ capacity c')%nat
    ∧ queue c ++ sent_on i es = received_on i es ++ queue c'.
Proof.
  revert s c. induction ops as [|op ops IH]; intros s c Hc Hlt H0 Hroom Hcap; cbn [ipc_run].
  { exists c. by rewrite app_nil_r. }
  pose proof (ipc_step_channel op s i c Hc ltac:(lia) Hcap) as Hst. pose proof (ipc_step_next op s) as Hn.
  cbn [length] in Hroom. rewrite wrap_id in Hn by (split; lia).
  destruct (ipc_step op s) as [e s1]. destruct Hst as (c1 & Hc1 & Hcap1 & Heq). simpl in Hn.
  specialize (IH s1 c1 Hc1 ltac:(lia) ltac:(lia) ltac:(lia) Hcap1). destruct (ipc_run ops s1) as [es s2].
  destruct IH as (c2 & Hc2 & Hcap2 & Heq2). exists c2. split; [done|]. split; [done|].
  assert (Hs : ∀ l, sent_on i (e :: l) = sent_on i [e] ++ sent_on i l) by (intros; apply (omap_app _ [e])).
  assert (Hr : ∀ l, received_on i (e :: l) = received_on i [e] ++ received_on i l) by (intros; apply (omap_app _ [e])).
  by rewrite Hs, Hr, app_assoc, Heq, <- !app_assoc, Heq2.
Qed.

Definition demo_ipc : t := (register "vfs" 2 (init (mkIpc ∅ 1 None))).2.

Lemma ipc_channel_fifo_witness :
  let '(es, s') := ipc_run [SendTo 1 7 Value.Null; Register "vfs" 4; SendTo 1 8 (Value.Bool true); SendTo 1 9 Value.Null; RecvFrom 1] demo_ipc in
  ∃ c', channels s' !! 1 = Some c' ∧ (length (queue c') ≤ capacity c')%nat ∧ sent_on 1 es = received_on 1 es ++ queue c'.
Proof.
  exact (ipc_channel_fifo [SendTo 1 7 Value.Null; Register "vfs" 4; SendTo 1 8 (Value.Bool true); SendTo 1 9 Value.Null; RecvFrom 1]
    demo_ipc 1 (mkChannel 1 "vfs" [] 2) eq_refl ltac:(vm_compute; done) ltac:(vm_compute; done) ltac:(vm_compute; done) ltac:(vm_compute; lia)).
Defined.

(** Registering a taken name hides the old port: later lookups find the new one,
    messages waiting in the old channel stay with those who hold it. *)
Lemma register_replaces_port :
  lookup_port "vfs" demo_ipc = Some 1 ∧ lookup_port "vfs" (register "vfs" 4 demo_ipc).2 = Some 2.
Proof. split; reflexivity. Qed.
