(* ===== verification/Compression.v ===== *)
(** SmartFS compression: [kernel/src/smartfs/compression.rs] and the enums of
    [metadata.rs].

    Byte slices are lists of bytes and an index into a slice is the suffix that
    starts there.  The floating-point entropy estimate only picks a method for
    [Unknown] files; it is an argument of [select_compression]. *)

From S2P Require Import Prelude.

Inductive FileCategory := Text | SourceCode | Config | Binary | Image | Archive | Data | Unknown.

Inductive CompressionMethod := CNone | Rle | Lz4Simple.

(** ** Run-length encoding *)

(** Leading bytes of [l] equal to [b], at most [limit]. *)
Fixpoint run_from (b : Z) (l : list Z) (limit : Z) : Z :=
  match l with
  | x :: l' => if (x =? b) && (0 <? limit) then 1 + run_from b l' (limit - 1) else 0
  | [] => 0
  end.

Fixpoint rle_loop (fuel : nat) (l : list Z) : list Z :=
  match fuel, l with
  | S fuel', byte :: rest =>
      let run_len := 1 + run_from byte rest (65535 - 1) in
      if 4 <=? run_len then
        [0xFF; byte; wrap 8 (Z.shiftr run_len 8); wrap 8 (Z.land run_len 0xFF)]
          ++ rle_loop fuel' (drop (Z.to_nat run_len) l)
      else
        (if byte =? 0xFF then [0xFF; 0xFF; 0x00; 0x01] else [byte]) ++ rle_loop fuel' rest
  | _, _ => []
  end.

Definition rle_compress (data : list Z) : list Z := rle_loop (length data) data.

Fixpoint rle_decode (data : list Z) (max_size : Z) (out : list Z) : result string (list Z) :=
  match data with
  | [] => Ok out
  | x :: rest =>
      if x =? 0xFF then
        match rest with
        | byte :: hi :: lo :: rest' =>
            let count := Z.lor (Z.shiftl hi 8) lo in
            if max_size <? Z.of_nat (length out) + count then Err "RLE decompression overflow"%string
            else
              let out' := out ++ replicate (Z.to_nat count) byte in
              if max_size <? Z.of_nat (length out') then Err "RLE decompression overflow"%string
              else rle_decode rest' max_size out'
        | _ => Err "Truncated RLE sequence"%string
        end
      else
        let out' := out ++ [x] in
        if max_size <? Z.of_nat (length out') then Err "RLE decompression overflow"%string
        else rle_decode rest max_size out'
  end.

Definition rle_decompress (data : list Z) (max_size : Z) : result string (list Z) := rle_decode data max_size [].

(** ** LZ4-simple *)

Definition HASH_TABLE_SIZE : Z := 4096.
Definition MIN_MATCH : nat := 4.
Definition MAX_OFFSET : nat := Z.to_nat 65535.

Definition hash4 (data : list Z) : Z :=
  let v := Z.lor (Z.lor (Z.lor (nth 0 data 0) (Z.shiftl (nth 1 data 0) 8)) (Z.shiftl (nth 2 data 0) 16))
                 (Z.shiftl (nth 3 data 0) 24) in
  Z.shiftr (wrap 32 (v * 2654435761)) 20.

(** The [loop] that writes an extended length. *)
Fixpoint emit_extra (fuel : nat) (remaining : Z) : list Z :=
  match fuel with
  | O => []
  | S fuel' =>
      let extra := Z.min remaining 255 in
      extra :: (if extra <? 255 then [] else emit_extra fuel' (remaining - extra))
  end.

Definition extra_bytes (remaining : Z) : list Z := emit_extra (S (Z.to_nat (remaining `div` 255))) remaining.

(** Bytes of one sequence: token, lengths, literals, match. *)
Definition emit_sequence (literals : list Z) (match_len offset : Z) : list Z :=
  let lit_len := Z.of_nat (length literals) in
  let lit_nibble := if 15 <=? lit_len then 15 else lit_len in
  let match_nibble :=
    if match_len =? 0 then 0
    else let ml := match_len - Z.of_nat MIN_MATCH in if 15 <=? ml then 15 else ml in
  let token := Z.lor (wrap 8 (Z.shiftl lit_nibble 4)) match_nibble in
  [token] ++ (if 15 <=? lit_len then extra_bytes (lit_len - 15) else []) ++ literals
  ++ (if 0 <? match_len then
        [Z.land offset 0xFF; Z.land (Z.shiftr offset 8) 0xFF]
        ++ (if 15 <=? match_len - Z.of_nat MIN_MATCH then extra_bytes (match_len - Z.of_nat MIN_MATCH - 15) else [])
      else []).

Definition encode_literals_only (input : list Z) : list Z := emit_sequence input 0 0.

(** [while pos + m < len && candidate + m < len && equal && m < 65535 { m += 1 }];
    [a] and [b] are the suffixes at [candidate + m] and [pos + m]. *)
Fixpoint extend (a b : list Z) (m : nat) : nat :=
  match a, b with
  | x :: a', y :: b' => if (x =? y) && (Z.of_nat m <? 65535) then extend a' b' (S m) else m
  | _, _ => m
  end.

(** The main loop: the sequences emitted from [pos] on and the final [anchor].
    One unit of fuel per input byte is enough: every iteration advances. *)
Fixpoint lz4_loop (fuel : nat) (input : list Z) (pos anchor : nat) (hash_table : gmap Z Z) : list Z * nat :=
  match fuel with
  | O => ([], anchor)
  | S fuel' =>
      if (pos + MIN_MATCH <=? length input)%nat then
        let h := hash4 (drop pos input) `mod` HASH_TABLE_SIZE in
        let candidate := Z.to_nat (default 0 (hash_table !! h)) in
        let hash_table' := <[h := wrap 32 (Z.of_nat pos)]> hash_table in
        let offset := (pos - candidate)%nat in
        if (candidate <? pos)%nat && (0 <? offset)%nat && (offset <=? MAX_OFFSET)%nat
           && (pos + MIN_MATCH <=? length input)%nat && (candidate + MIN_MATCH <=? length input)%nat
           && bool_decide (take MIN_MATCH (drop candidate input) = take MIN_MATCH (drop pos input))
        then
          let match_len := extend (drop (candidate + MIN_MATCH) input) (drop (pos + MIN_MATCH) input) MIN_MATCH in
          let seq := emit_sequence (take (pos - anchor) (drop anchor input)) (Z.of_nat match_len) (Z.of_nat offset) in
          let '(out, a) := lz4_loop fuel' input (pos + match_len) (pos + match_len) hash_table' in
          (seq ++ out, a)
        else lz4_loop fuel' input (pos + 1) anchor hash_table'
      else ([], anchor)
  end.

Definition lz4_simple_compress (input : list Z) : list Z :=
  if (length input <? MIN_MATCH)%nat then encode_literals_only input
  else
    let '(out, anchor) := lz4_loop (S (length input)) input 0 0 ∅ in
    let out := if (anchor <? length input)%nat then out ++ emit_sequence (drop anchor input) 0 0 else out in
    if (length input <=? length out)%nat then encode_literals_only input else out.

(** The [loop] that reads an extended length; [None] at the end of the data. *)
Fixpoint read_extra (data : list Z) (acc : Z) : option (Z * list Z) :=
  match data with
  | [] => None
  | extra :: rest => if extra <? 255 then Some (acc + extra, rest) else read_extra rest (acc + extra)
  end.

(** [for i in 0..match_len { out.push(out[match_start + i]) }] *)
Fixpoint copy_match (n : nat) (start : nat) (out : list Z) : list Z :=
  match n with
  | O => out
  | S n' => copy_match n' (S start) (out ++ [nth start out 0])
  end.

(** The main loop on the unread data; [length data] units of fuel suffice. *)
Fixpoint lz4_decode (fuel : nat) (data : list Z) (max_size : Z) (out : list Z) : result string (list Z) :=
  match fuel, data with
  | S fuel', token :: d1 =>
      if max_size <=? Z.of_nat (length out) then Ok out
      else
        let lit0 := Z.land (Z.shiftr token 4) 0x0F in
        match (if lit0 =? 15 then read_extra d1 lit0 else Some (lit0, d1)) with
        | None => Err "Truncated LZ4 literal length"%string
        | Some (lit_len, d2) =>
            if Z.of_nat (length d2) <? lit_len then Err "Truncated LZ4 literals"%string
            else
              let out1 := out ++ take (Z.to_nat lit_len) d2 in
              match drop (Z.to_nat lit_len) d2 with
              | [] => Ok out1
              | [_] => Err "Truncated LZ4 offset"%string
              | b0 :: b1 :: d4 =>
                  let offset := Z.lor b0 (Z.shiftl b1 8) in
                  if offset =? 0 then Err "Invalid LZ4 zero offset"%string
                  else
                    let ml0 := Z.land token 0x0F + Z.of_nat MIN_MATCH in
                    match (if Z.land token 0x0F =? 15 then read_extra d4 ml0 else Some (ml0, d4)) with
                    | None => Err "Truncated LZ4 match length"%string
                    | Some (match_len, d5) =>
                        if Z.of_nat (length out1) <? offset then Err "LZ4 offset beyond output buffer"%string
                        else
                          lz4_decode fuel' d5 max_size
                            (copy_match (Z.to_nat match_len) (length out1 - Z.to_nat offset) out1)
                    end
              end
        end
  | _, _ => Ok out
  end.

Definition lz4_simple_decompress (data : list Z) (max_size : Z) : result string (list Z) :=
  lz4_decode (length data) data max_size [].

(** ** The public operations *)

Definition compress (data : list Z) (method : CompressionMethod) : list Z :=
  match method with
  | CNone => data
  | Rle => rle_compress data
  | Lz4Simple => lz4_simple_compress data
  end.

Definition decompress (data : list Z) (method : CompressionMethod) (original_size : Z) : result string (list Z) :=
  match method with
  | CNone => Ok data
  | Rle => rle_decompress data original_size
  | Lz4Simple => lz4_simple_decompress data original_size
  end.

(** The scan of [has_long_runs] over the rest of the sample: previous byte,
    longest and current run. *)
Fixpoint longest_run (prev : Z) (l : list Z) (max_run current_run : Z) : Z :=
  match l with
  | [] => max_run
  | x :: l' =>
      if x =? prev then longest_run x l' (Z.max max_run (current_run + 1)) (current_run + 1)
      else longest_run x l' max_run 1
  end.

Definition has_long_runs (data : list Z) : bool :=
  match take 256 data with
  | [] => false
  | x :: sample => 8 <=? longest_run x sample 0 1
  end.

(** [high_entropy] is [quick_entropy(data) > 7.0]. *)
Definition select_compression (high_entropy : list Z → bool) (data : list Z) (category : FileCategory) : CompressionMethod :=
  if (length data <? 64)%nat then CNone
  else
    match category with
    | Image | Archive => CNone
    | Text | SourceCode | Config => Lz4Simple
    | Binary | Data => if has_long_runs data then Rle else Lz4Simple
    | Unknown => if high_entropy data then CNone else Lz4Simple
    end.
