(* ===== verification/CompressionProofs.v ===== *)
(** Round trips of the SmartFS compressors ([Compression.v]). *)

From S2P Require Import Prelude Bits Compression.

(** ** RLE *)

Lemma run_from_spec b l limit : 0 ≤ limit →
  let n := run_from b l limit in
  0 ≤ n ≤ limit ∧ n ≤ Z.of_nat (length l) ∧ take (Z.to_nat n) l = replicate (Z.to_nat n) b.
Proof.
  revert limit. induction l as [|x l IH]; intros limit Hl; simpl; [split_and!; (lia || done)|].
  destruct (Z.eqb_spec x b) as [->|]; simpl; [|split_and!; (lia || done)].
  case_bool; [|split_and!; (lia || done)].
  destruct (IH (limit - 1) ltac:(lia)) as (H1 & H2 & H3). split_and!; [lia..|].
  replace (Z.to_nat (1 + run_from b l (limit - 1))) with (S (Z.to_nat (run_from b l (limit - 1)))) by lia.
  simpl. by rewrite H3.
Qed.

Lemma rle_decode_loop fuel l out max :
  bytes_ok l → (length l ≤ fuel)%nat → Z.of_nat (length out + length l) ≤ max →
  rle_decode (rle_loop fuel l) max out = Ok (out ++ l).
Proof.
  revert l out. induction fuel as [|fuel IH]; intros l out Hb Hf Hm; destruct l as [|b l]; simpl in *;
    try lia; try (by rewrite app_nil_r).
  apply Forall_cons in Hb as [Hb Hl].
  destruct (run_from_spec b l (65535 - 1) ltac:(lia)) as (H1 & H2 & H3).
  set (n := run_from b l (65535 - 1)) in *. destruct (Z.leb_spec 4 (1 + n)) as [H4|H4]; simpl.
  - rewrite !wrap_id, split16 by (first [apply shiftr8_byte|apply land255_byte|idtac]; lia).
    replace (Z.to_nat (1 + n)) with (S (Z.to_nat n)) by lia. cbn [drop replicate].
    zbool. rewrite !length_app. cbn [length]. rewrite length_replicate. zbool.
    rewrite IH.
    + f_equal. rewrite <- app_assoc. f_equal. simpl. by rewrite <- H3, take_drop.
    + by apply Forall_drop.
    + rewrite length_drop. lia.
    + rewrite !length_app, length_drop. cbn [length]. rewrite length_replicate. lia.
  - assert (Hone : ∀ o, o = out ++ [b] → rle_decode (rle_loop fuel l) max o = Ok (out ++ b :: l)).
    { intros o ->. rewrite IH; [by rewrite <- app_assoc|done|lia|]. rewrite length_app. simpl. lia. }
    destruct (Z.eqb_spec b 255) as [->|Hne]; cbn [app rle_decode].
    + change (Z.lor (Z.shiftl 0 8) 1) with 1. change (Z.to_nat 1) with 1%nat. cbn [Z.eqb Pos.eqb replicate].
      rewrite length_app. cbn [length]. zbool. by apply Hone.
    + rewrite (proj2 (Z.eqb_neq b 255)) by done. rewrite length_app. cbn [length]. zbool. by apply Hone.
Qed.

Lemma rle_roundtrip_lemma data : bytes_ok data →
  rle_decompress (rle_compress data) (Z.of_nat (length data)) = Ok data.
Proof. intros Hb. unfold rle_decompress, rle_compress. by rewrite rle_decode_loop. Qed.

(** ** LZ4-simple: the fields of a sequence *)

Lemma emit_extra_spec fuel r tail acc : 0 ≤ r → r `div` 255 < Z.of_nat fuel →
  read_extra (emit_extra fuel r ++ tail) acc = Some (acc + r, tail).
Proof.
  revert r acc. induction fuel as [|fuel IH]; intros r acc Hr Hf.
  { assert (0 ≤ r `div` 255) by (apply Z.div_pos; lia). lia. }
  cbn [emit_extra]. pose proof (Z.div_mod r 255). pose proof (Z.mod_pos_bound r 255).
  destruct (Z_lt_le_dec r 255) as [Hlt|Hge].
  - rewrite Z.min_l by lia. zbool. simpl. by zbool.
  - rewrite Z.min_r by lia. change (255 <? 255) with false. cbv iota. cbn [app read_extra].
    change (255 <? 255) with false. cbv iota. rewrite IH; [f_equal; f_equal; lia|lia|].
    replace (r - 255) with (r + (-1) * 255) by lia. rewrite Z.div_add by lia. lia.
Qed.

Lemma read_extra_bytes r tail acc : 0 ≤ r → read_extra (extra_bytes r ++ tail) acc = Some (acc + r, tail).
Proof.
  intros Hr. apply emit_extra_spec; [done|]. assert (0 ≤ r `div` 255) by (apply Z.div_pos; lia). lia.
Qed.

(** All 256 tokens. *)
Lemma token_fields l m : 0 ≤ l < 16 → 0 ≤ m < 16 →
  Z.land (Z.shiftr (Z.lor (wrap 8 (Z.shiftl l 4)) m) 4) 0x0F = l
  ∧ Z.land (Z.lor (wrap 8 (Z.shiftl l 4)) m) 0x0F = m.
Proof.
  intros Hl Hm.
  assert (Hall : Forall (λ l, Forall (λ m,
      Z.land (Z.shiftr (Z.lor (wrap 8 (Z.shiftl l 4)) m) 4) 0x0F = l
      ∧ Z.land (Z.lor (wrap 8 (Z.shiftl l 4)) m) 0x0F = m) (seqZ 0 16)) (seqZ 0 16)).
  { eapply bool_decide_unpack. vm_compute. exact I. }
  rewrite Forall_forall in Hall. specialize (Hall l). rewrite elem_of_seqZ in Hall. specialize (Hall ltac:(lia)).
  rewrite Forall_forall in Hall. specialize (Hall m). rewrite elem_of_seqZ in Hall. apply Hall. lia.
Qed.

Lemma offset_bytes v : 0 ≤ v < 65536 →
  Z.lor (Z.land v 0xFF) (Z.shiftl (Z.land (Z.shiftr v 8) 0xFF) 8) = v.
Proof.
  intros Hv. rewrite Z.lor_comm. destruct (shiftr8_byte v Hv) as [H1 H2].
  change 0xFF with (Z.ones 8) at 1. rewrite Z.land_ones, Z.mod_small by lia. by apply split16.
Qed.

(** ** The decoder *)

Lemma read_extra_length data acc v rest : read_extra data acc = Some (v, rest) → (length rest < length data)%nat.
Proof.
  revert acc. induction data as [|x data IH]; intros acc; simpl; [done|].
  destruct (x <? 255); [intros [= _ <-]; lia|]. intros ?%IH. lia.
Qed.

(** More fuel than bytes changes nothing. *)
Lemma lz4_decode_fuel f1 f2 data max out : (length data ≤ f1)%nat → (length data ≤ f2)%nat →
  lz4_decode f1 data max out = lz4_decode f2 data max out.
Proof.
  revert f2 data out. induction f1 as [|f1 IH]; intros f2 data out H1 H2.
  { destruct data; [by destruct f2|simpl in H1; lia]. }
  destruct data as [|token d1]; [by destruct f2|]. destruct f2 as [|f2]; [simpl in H2; lia|].
  simpl in H1, H2. cbn [lz4_decode]. destruct (max <=? _); [done|].
  set (lit0 := Z.land _ _). destruct (if lit0 =? 15 then _ else _) as [[lit_len d2]|] eqn:E1; [|done].
  assert (Hd2 : (length d2 ≤ length d1)%nat).
  { revert E1. destruct (lit0 =? 15); [intros ?%read_extra_length; lia|by intros [= _ <-]]. }
  destruct (_ <? lit_len); [done|]. destruct (drop _ d2) as [|b0 [|b1 d4]] eqn:E2; [done..|].
  assert (Hd4 : (S (S (length d4)) ≤ length d2)%nat).
  { apply (f_equal length) in E2. rewrite length_drop in E2. simpl in E2. lia. }
  destruct (_ =? 0); [done|]. clear E1.
  destruct (if Z.land token 15 =? 15 then _ else _) as [[ml d5]|] eqn:E3; [|done].
  assert (Hd5 : (length d5 ≤ length d4)%nat).
  { revert E3. destruct (_ =? 15); [intros ?%read_extra_length; lia|by intros [= _ <-]]. }
  destruct (_ <? _); [done|]. apply IH; lia.
Qed.

(** The decoder with the fuel it is called with. *)
Definition lz4_dec (data : list Z) (max : Z) (out : list Z) : result string (list Z) :=
  lz4_decode (length data) data max out.

Lemma lit_field (literals tail : list Z) :
  let n := Z.of_nat (length literals) in
  (let lit0 := if 15 <=? n then 15 else n in
   if lit0 =? 15 then read_extra ((if 15 <=? n then extra_bytes (n - 15) else []) ++ tail) lit0
   else Some (lit0, (if 15 <=? n then extra_bytes (n - 15) else []) ++ tail)) = Some (n, tail).
Proof.
  cbv zeta. destruct (Z.leb_spec 15 (Z.of_nat (length literals))).
  - rewrite Z.eqb_refl, read_extra_bytes by lia. do 2 f_equal. lia.
  - by zbool.
Qed.

(** A final sequence: literals only. *)
Lemma lz4_dec_literals literals max out : Z.of_nat (length out) < max →
  lz4_dec (encode_literals_only literals) max out = Ok (out ++ literals).
Proof.
  intros Hm. unfold lz4_dec, encode_literals_only, emit_sequence.
  change (0 =? 0) with true. change (0 <? 0) with false. cbv iota zeta. rewrite app_nil_r.
  set (n := Z.of_nat (length literals)). cbn [app length lz4_decode]. zbool.
  assert (Hl : 0 ≤ (if 15 <=? n then 15 else n) < 16) by (case_bool; lia).
  destruct (token_fields _ 0 Hl ltac:(lia)) as [-> _].
  pose proof (lit_field literals literals) as Hf. cbv zeta in Hf. fold n in Hf. rewrite Hf.
  unfold n. zbool. rewrite Nat2Z.id, take_ge, drop_ge by lia. done.
Qed.

(** A sequence with a match, followed by more data. *)
Lemma lz4_dec_sequence literals ml offset tail max out :
  Z.of_nat (length out) < max → 4 ≤ ml → 1 ≤ offset < 65536 → offset ≤ Z.of_nat (length out + length literals) →
  lz4_dec (emit_sequence literals ml offset ++ tail) max out =
  lz4_dec tail max (copy_match (Z.to_nat ml) (length out + length literals - Z.to_nat offset) (out ++ literals)).
Proof.
  intros Hm Hml Hoff Hlen. unfold lz4_dec, emit_sequence. cbv zeta. set (n := Z.of_nat (length literals)).
  rewrite (proj2 (Z.eqb_neq ml 0)), (proj2 (Z.ltb_lt 0 ml)) by lia. change (Z.of_nat MIN_MATCH) with 4.
  rewrite <- !app_assoc. cbn [app]. set (mn := if 15 <=? ml - 4 then 15 else ml - 4).
  set (ext := if 15 <=? ml - 4 then extra_bytes (ml - 4 - 15) else []).
  cbn [length lz4_decode]. zbool.
  assert (Hl : 0 ≤ (if 15 <=? n then 15 else n) < 16) by (case_bool; lia).
  assert (Hmn : 0 ≤ mn < 16) by (unfold mn; case_bool; lia).
  destruct (token_fields _ mn Hl Hmn) as [-> ->].
  pose proof (lit_field literals (literals ++ Z.land offset 255 :: Z.land (Z.shiftr offset 8) 255 :: ext ++ tail)) as Hf.
  cbv zeta in Hf. fold n in Hf. rewrite Hf. rewrite length_app. unfold n. zbool.
  rewrite Nat2Z.id, take_app_length, drop_app_length. rewrite offset_bytes by lia. zbool.
  assert (Hme : (if mn =? 15 then read_extra (ext ++ tail) (mn + Z.of_nat MIN_MATCH)
    else Some (mn + Z.of_nat MIN_MATCH, ext ++ tail)) = Some (ml, tail)).
  { unfold mn, ext. change (Z.of_nat MIN_MATCH) with 4. destruct (Z.leb_spec 15 (ml - 4)).
    - rewrite Z.eqb_refl, read_extra_bytes by lia. do 2 f_equal. lia.
    - zbool. do 2 f_equal. lia. }
  rewrite Hme. rewrite length_app. zbool.
  apply lz4_decode_fuel; [|done]. rewrite !length_app. simpl. rewrite !length_app. lia.
Qed.

(** ** The compressor *)

Lemma extend_spec a b m :
  ∃ k, extend a b m = (m + k)%nat ∧ take k a = take k b ∧ (k ≤ length b)%nat.
Proof.
  revert b m. induction a as [|x a IH]; intros [|y b] m; simpl; try (exists 0%nat; split_and!; (done || lia)).
  destruct (Z.eqb_spec x y) as [->|]; simpl; [|exists 0%nat; split_and!; (done || lia)].
  destruct (_ <? _); [|exists 0%nat; split_and!; (done || lia)].
  destruct (IH b (S m)) as (k & -> & Hk & Hl). exists (S k). simpl. rewrite Hk. split_and!; (done || lia).
Qed.

(** Copying [n] bytes from [c] extends a prefix of [l] by [n] when [l] repeats
    itself there; source and destination may overlap. *)
Lemma copy_match_spec n c p (l : list Z) :
  (c < p)%nat → (p + n ≤ length l)%nat → (∀ i, (i < n)%nat → l !! (c + i)%nat = l !! (p + i)%nat) →
  copy_match n c (take p l) = take (p + n) l.
Proof.
  revert c p. induction n as [|n IH]; intros c p Hc Hp Heq; simpl; [by rewrite Nat.add_0_r|].
  pose proof (Heq 0%nat ltac:(lia)) as H0. rewrite !Nat.add_0_r in H0.
  destruct (lookup_lt_is_Some_2 l p ltac:(lia)) as [x Hx].
  assert (Hn : nth c (take p l) 0 = x).
  { rewrite nth_lookup, lookup_take_lt by lia. by rewrite H0, Hx. }
  rewrite Hn, <- (take_S_r _ _ _ Hx), IH; [by rewrite Nat.add_succ_r| |lia|]; [lia|].
  intros i Hi. specialize (Heq (S i) ltac:(lia)). rewrite !Nat.add_succ_r in Heq. done.
Qed.

(** Equal blocks, as the compressor checks them, are equal bytes. *)
Lemma blocks_equal (l : list Z) c p j k :
  take j (drop c l) = take j (drop p l) → take k (drop (c + j) l) = take k (drop (p + j) l) →
  ∀ i, (i < j + k)%nat → l !! (c + i)%nat = l !! (p + i)%nat.
Proof.
  intros H1 H2 i Hi.
  assert (E : take (j + k) (drop c l) = take (j + k) (drop p l))
    by (rewrite <- !take_take_drop, !drop_drop, H1, H2; done).
  apply (f_equal (lookup i)) in E. by rewrite !lookup_take_lt, !lookup_drop in E by done.
Qed.

Lemma lz4_loop_spec fuel input pos anchor ht :
  (anchor ≤ pos ≤ length input)%nat → (length input - pos < fuel)%nat →
  let '(bs, a) := lz4_loop fuel input pos anchor ht in
  (anchor ≤ a ≤ length input)%nat
  ∧ ∀ tail, lz4_dec (bs ++ tail) (Z.of_nat (length input)) (take anchor input)
          = lz4_dec tail (Z.of_nat (length input)) (take a input).
Proof.
  revert pos anchor ht. induction fuel as [|fuel IH]; intros pos anchor ht Hpos Hf; [lia|].
  cbn [lz4_loop]. destruct (Nat.leb_spec (pos + MIN_MATCH) (length input)) as [Hle|]; [|split; [lia|done]].
  set (h := hash4 _ `mod` _). set (cand := Z.to_nat _). set (ht' := <[h := _]> ht).
  unfold MIN_MATCH in *. destruct (_ && _) eqn:Ec.
  2: { apply IH; lia. }
  rewrite !andb_true_iff in Ec. destruct Ec as (((((Hc & _) & Hoff) & _) & _) & Heq).
  apply Nat.ltb_lt in Hc. apply Nat.leb_le in Hoff. apply bool_decide_eq_true in Heq.
  assert (Hmax : Z.of_nat (pos - cand) < 65536) by (unfold MAX_OFFSET in Hoff; lia).
  destruct (extend_spec (drop (cand + 4) input) (drop (pos + 4) input) 4) as (k & -> & Hk & Hlk).
  rewrite length_drop in Hlk.
  specialize (IH (pos + (4 + k))%nat (pos + (4 + k))%nat ht' ltac:(lia) ltac:(lia)).
  destruct (lz4_loop fuel input _ _ ht') as [bs a]. destruct IH as [IH1 IH2]. split; [lia|].
  intros tail. rewrite <- app_assoc.
  assert (Hl : length (take (pos - anchor) (drop anchor input)) = (pos - anchor)%nat)
    by (rewrite length_take, length_drop; lia).
  assert (Ha : length (take anchor input) = anchor) by (rewrite length_take; lia).
  rewrite lz4_dec_sequence by lia. rewrite Hl, Ha, take_take_drop, !Nat2Z.id.
  replace (anchor + (pos - anchor))%nat with pos by lia. replace (pos - (pos - cand))%nat with cand by lia.
  rewrite copy_match_spec; [apply IH2|done|lia|]. by apply blocks_equal.
Qed.

Lemma lz4_roundtrip_lemma data :
  lz4_simple_decompress (lz4_simple_compress data) (Z.of_nat (length data)) = Ok data.
Proof.
  change (lz4_dec (lz4_simple_compress data) (Z.of_nat (length data)) [] = Ok data).
  assert (Hlit : lz4_dec (encode_literals_only data) (Z.of_nat (length data)) [] = Ok data).
  { destruct data as [|x data]; [done|]. rewrite lz4_dec_literals by (simpl; lia). done. }
  unfold lz4_simple_compress. destruct (_ <? MIN_MATCH)%nat; [done|].
  pose proof (lz4_loop_spec (S (length data)) data 0 0 ∅ ltac:(lia) ltac:(lia)) as Hs.
  destruct (lz4_loop _ _ _ _ _) as [bs a]. destruct Hs as [Ha Hs]. rewrite take_0 in Hs.
  destruct (Nat.ltb_spec a (length data)).
  - destruct (_ <=? _)%nat; [done|]. rewrite Hs. change (emit_sequence (drop a data) 0 0) with (encode_literals_only (drop a data)).
    rewrite lz4_dec_literals by (rewrite length_take; lia). by rewrite take_drop.
  - destruct (_ <=? _)%nat; [done|]. specialize (Hs []). rewrite app_nil_r in Hs. rewrite Hs.
    unfold lz4_dec. simpl. by rewrite take_ge by lia.
Qed.

(** ** Theorems *)

(** C6: compression is lossless: for every byte string and every method the
    store may select, decompressing the compressed bytes with the recorded
    original size succeeds and gives the original bytes back. *)
Theorem compression_roundtrip data method : bytes_ok data →
  decompress (compress data method) method (Z.of_nat (length data)) = Ok data.
Proof.
  intros Hb. destruct method; [done|by apply rle_roundtrip_lemma|apply lz4_roundtrip_lemma].
Qed.

Lemma compression_roundtrip_witness :
  decompress (compress (replicate 20 255 ++ [1; 2; 3]) Rle) Rle 23 = Ok (replicate 20 255 ++ [1; 2; 3]).
Proof.
  apply (compression_roundtrip (replicate 20 255 ++ [1; 2; 3]) Rle).
  repeat constructor; vm_compute; (discriminate || reflexivity).
Defined.

(** The RLE decoder is total on arbitrary (also corrupt) input and never
    produces more than the announced size: the result is a value of at most
    [max_size] bytes that extends nothing but the input's own runs, or one of
    its two errors. *)
Theorem rle_decompress_bounded data max : 0 ≤ max →
  match rle_decompress data max with
  | Ok out => Z.of_nat (length out) ≤ max
  | Err e => e = "Truncated RLE sequence"%string ∨ e = "RLE decompression overflow"%string
  end.
Proof.
  intros Hm. unfold rle_decompress. assert (H0 : Z.of_nat (length (@nil Z)) ≤ max) by (simpl; lia).
  revert H0. generalize (@nil Z) as out. remember (length data) as n eqn:En.
  assert (Hn : (length data ≤ n)%nat) by lia. clear En. revert data Hn.
  induction n as [|n IH]; intros [|x data] Hn out H0; simpl in *; try done; try lia.
  destruct (x =? 255).
  - destruct data as [|b [|hi [|lo data]]]; simpl in *; auto.
    case_bool; [auto|]. case_bool; [auto|]. apply IH; lia.
  - case_bool; [auto|]. apply IH; lia.
Qed.

Lemma rle_decompress_bounded_witness :
  rle_decompress [255; 7; 0; 9] 8 = Err "RLE decompression overflow"%string
  ∧ match rle_decompress [255; 7; 0; 9] 8 with
    | Ok out => Z.of_nat (length out) ≤ 8
    | Err e => e = "Truncated RLE sequence"%string ∨ e = "RLE decompression overflow"%string
    end.
Proof. split; [reflexivity|]. apply (rle_decompress_bounded [255; 7; 0; 9] 8). lia. Defined.

(** The LZ4 decoder tests the announced size only between sequences: one
    sequence may exceed it. *)
Lemma lz4_exceeds_max_size : lz4_simple_decompress [16; 7; 1; 0] 1 = Ok [7; 7; 7; 7; 7].
Proof. reflexivity. Qed.
