(* ===== verification/Chunking.v ===== *)
(** Content-defined chunking and the deduplicating store:
    [kernel/src/smartfs/chunking.rs]. *)

From S2P Require Import Prelude.

Definition MIN_CHUNK : nat := 256.
Definition MAX_CHUNK : nat := Z.to_nat 8192.
Definition CHUNK_MODULUS : Z := 2048.
Definition CHUNK_PATTERN : Z := 0.
Definition WINDOW_SIZE : nat := 32.

Record Chunk := mkChunk { offset : nat; chunk_length : nat; hash : Z }.

Definition fnv1a (data : list Z) : Z :=
  foldl (λ h byte, wrap 32 (Z.lxor h byte * 0x01000193)) 0x811c9dc5 data.

(** One byte into the rolling hash; [old] is the byte leaving the window. *)
Definition roll (h byte : Z) (old : option Z) : Z :=
  let h1 := wrap 32 (wrap 32 (h * 31) + byte) in
  match old with
  | Some o => wrap 32 (h1 - wrap 32 (o * wrap 32 (31 ^ Z.of_nat WINDOW_SIZE)))
  | None => h1
  end.

(** The loop of [chunk_data]; [rest] is the data from index [i] on. *)
Fixpoint chunk_loop (data rest : list Z) (i start : nat) (h : Z) : list Chunk :=
  match rest with
  | [] => []
  | byte :: rest' =>
      let chunk_len := (i - start + 1)%nat in
      let h' := roll h byte (if (WINDOW_SIZE <? chunk_len)%nat then Some (nth (i - WINDOW_SIZE) data 0) else None) in
      let at_boundary := (MIN_CHUNK <=? chunk_len)%nat && (h' `mod` CHUNK_MODULUS =? CHUNK_PATTERN) in
      let at_max := (MAX_CHUNK <=? chunk_len)%nat in
      let at_end := (i =? length data - 1)%nat in
      if at_boundary || at_max || at_end then
        mkChunk start chunk_len (fnv1a (take chunk_len (drop start data)))
          :: chunk_loop data rest' (i + 1) (i + 1) 0
      else chunk_loop data rest' (i + 1) start h'
  end.

Definition chunk_data (data : list Z) : list Chunk := chunk_loop data data 0 0 0.

Record ChunkStore := mkStore {
  chunks : gmap Z (list Z);
  total_seen : Z;
  dedup_hits : Z;
}.

Definition chunk_bytes (data : list Z) (c : Chunk) : list Z := take (chunk_length c) (drop (offset c) data).

(** Body of the loop of [store_chunks]. *)
Definition store_chunk (data : list Z) (st : ChunkStore) (c : Chunk) : ChunkStore :=
  match chunks st !! hash c with
  | Some _ => mkStore (chunks st) (total_seen st + 1) (dedup_hits st + 1)
  | None => mkStore (<[hash c := chunk_bytes data c]> (chunks st)) (total_seen st + 1) (dedup_hits st)
  end.

Definition store_chunks (data : list Z) (st : ChunkStore) : list Z * ChunkStore :=
  let cs := chunk_data data in (hash <$> cs, foldl (store_chunk data) st cs).

Fixpoint reassemble (chunk_hashes : list Z) (st : ChunkStore) : result string (list Z) :=
  match chunk_hashes with
  | [] => Ok []
  | h :: hs =>
      match chunks st !! h with
      | None => Err "Chunk not found in store"%string
      | Some chunk =>
          match reassemble hs st with
          | Ok rest => Ok (chunk ++ rest)
          | Err e => Err e
          end
      end
  end.

Definition stats (st : ChunkStore) : Z * Z := (Z.of_nat (size (chunks st)), total_seen st).

(** ** Chunk boundaries *)

(** The chunks lie end to end from [s] to [e]. *)
Fixpoint tiles (s : nat) (cs : list Chunk) (e : nat) : Prop :=
  match cs with
  | [] => s = e
  | c :: cs' => offset c = s ∧ tiles (s + chunk_length c) cs' e
  end.

Definition chunk_ok (data : list Z) (c : Chunk) : Prop :=
  (1 ≤ chunk_length c ≤ MAX_CHUNK)%nat ∧ hash c = fnv1a (chunk_bytes data c).

(** A chunk shorter than the minimum is the last one. *)
Definition short_is_last (data : list Z) (c : Chunk) : Prop :=
  (MIN_CHUNK ≤ chunk_length c)%nat ∨ (offset c + chunk_length c = length data)%nat.

Lemma max_chunk_min : (0 < MIN_CHUNK ≤ MAX_CHUNK)%nat.
Proof. unfold MIN_CHUNK, MAX_CHUNK. lia. Qed.

#[local] Opaque MIN_CHUNK MAX_CHUNK.

Lemma chunk_loop_spec data rest i start h :
  (i + length rest = length data)%nat → (start ≤ i)%nat → (i - start < MAX_CHUNK)%nat →
  (rest = [] → start = length data) →
  let cs := chunk_loop data rest i start h in
  tiles start cs (length data) ∧ Forall (chunk_ok data) cs ∧ Forall (short_is_last data) cs.
Proof.
  revert i start h. pose proof max_chunk_min.
  induction rest as [|b rest IH]; intros i start h Hi Hs Hm He; cbn [chunk_loop].
  { split_and!; [by apply He|constructor..]. }
  simpl in Hi. set (len := (i - start + 1)%nat). set (h' := roll _ _ _).
  destruct (((MIN_CHUNK <=? len)%nat && _) || _ || _) eqn:Ec.
  - destruct (IH (i + 1)%nat (i + 1)%nat 0) as (H1 & H2 & H3); [lia..| |].
    { intros ->. simpl in Hi. lia. }
    cbn [tiles offset chunk_length]. split_and!; [done| | |].
    + replace (start + len)%nat with (i + 1)%nat by lia. done.
    + constructor; [|done]. split; [simpl; lia|done].
    + constructor; [|done]. unfold short_is_last. simpl.
      rewrite !orb_true_iff, andb_true_iff, !Nat.leb_le, Nat.eqb_eq in Ec. lia.
  - rewrite !orb_false_iff, Nat.leb_gt, Nat.eqb_neq in Ec. destruct Ec as [[_ Hlt] Hne].
    apply IH; [lia..|]. intros ->. simpl in Hi. lia.
Qed.

Lemma chunk_data_spec data :
  tiles 0 (chunk_data data) (length data) ∧ Forall (chunk_ok data) (chunk_data data)
  ∧ Forall (short_is_last data) (chunk_data data).
Proof.
  unfold chunk_data. apply chunk_loop_spec; [done|done| |].
  - pose proof max_chunk_min. lia.
  - by intros ->.
Qed.

(** Tiled chunks spell the data. *)
Lemma tiles_concat data s cs : tiles s cs (length data) → (s ≤ length data)%nat →
  concat (chunk_bytes data <$> cs) = drop s data.
Proof.
  revert s. induction cs as [|c cs IH]; intros s Ht Hs; cbn [tiles] in Ht.
  { subst. by rewrite drop_all. }
  destruct Ht as [<- Ht]. assert ((offset c + chunk_length c ≤ length data)%nat).
  { clear -Ht. revert Ht. generalize (offset c + chunk_length c)%nat as k. induction cs as [|c' cs IH']; simpl; intros k Ht; [lia|].
    destruct Ht as [_ Ht]. apply IH' in Ht. lia. }
  rewrite fmap_cons. cbn [concat]. rewrite (IH _ Ht) by lia. unfold chunk_bytes. rewrite <- drop_drop. apply take_drop.
Qed.

(** ** The store *)

Definition store_ok (st : ChunkStore) : Prop := ∀ h b, chunks st !! h = Some b → fnv1a b = h.

(** No two different byte strings among the given ones hash alike. *)
Definition collision_free (l : list (list Z)) : Prop := ∀ a b, a ∈ l → b ∈ l → fnv1a a = fnv1a b → a = b.

Lemma store_chunk_ok data st c : chunk_ok data c → store_ok st →
  store_ok (store_chunk data st c) ∧ chunks st ⊆ chunks (store_chunk data st c)
  ∧ (∃ b, chunks (store_chunk data st c) !! hash c = Some b)
  ∧ (∀ h b, chunks (store_chunk data st c) !! h = Some b → chunks st !! h = Some b ∨ b = chunk_bytes data c).
Proof.
  intros [_ Hh] Hs. unfold store_chunk. destruct (chunks st !! hash c) as [b|] eqn:E; simpl.
  - split_and!; [done|done|eauto|auto].
  - split_and!.
    + intros h b Hb. simpl in Hb. apply lookup_insert_Some in Hb as [[<- <-]|[_ ?]]; [done|by apply Hs].
    + by apply insert_subseteq.
    + exists (chunk_bytes data c). apply lookup_insert_eq.
    + intros h b [[<- <-]|[_ ?]]%lookup_insert_Some; auto.
Qed.

Lemma store_all_ok data st cs : Forall (chunk_ok data) cs → store_ok st →
  let st' := foldl (store_chunk data) st cs in
  store_ok st' ∧ chunks st ⊆ chunks st'
  ∧ (∀ c, c ∈ cs → is_Some (chunks st' !! hash c))
  ∧ (∀ h b, chunks st' !! h = Some b → chunks st !! h = Some b ∨ b ∈ (chunk_bytes data <$> cs)).
Proof.
  intros Hc. revert st. induction Hc as [|c cs Hc _ IH]; intros st Hs; simpl; [split_and!; set_solver|].
  destruct (store_chunk_ok data st c Hc Hs) as (H1 & H2 & [b H3] & H4).
  destruct (IH _ H1) as (K1 & K2 & K3 & K4). split_and!; [done|by etrans| |].
  - intros c' [->|Hin]%elem_of_cons; [|by apply K3]. exists b. by eapply lookup_weaken.
  - intros h b' [[?|?]%H4|?]%K4; set_solver.
Qed.

Lemma reassemble_ok data st cs :
  (∀ c, c ∈ cs → chunks st !! hash c = Some (chunk_bytes data c)) →
  reassemble (hash <$> cs) st = Ok (concat (chunk_bytes data <$> cs)).
Proof.
  induction cs as [|c cs IH]; intros Hc; [done|].
  rewrite !fmap_cons. cbn [reassemble concat]. rewrite Hc by left. rewrite IH by (intros; apply Hc; by right). done.
Qed.

(** ** Theorems *)

(** [chunk_data] partitions the data: the chunks lie end to end from the
    first byte to the last, each is 1 to 8192 bytes long, only the last may be
    shorter than 256 bytes, each carries the FNV-1a hash of its bytes, and
    concatenating their bytes gives the data back. *)
Theorem chunk_partition data :
  tiles 0 (chunk_data data) (length data) ∧ Forall (chunk_ok data) (chunk_data data)
  ∧ Forall (short_is_last data) (chunk_data data)
  ∧ concat (chunk_bytes data <$> chunk_data data) = data.
Proof.
  destruct (chunk_data_spec data) as (H1 & H2 & H3). split_and!; [done..|].
  rewrite (tiles_concat data 0) by (done || lia). done.
Qed.

(** Storing data and reassembling it from the returned hashes gives the
    data back, now and after any further file is stored, provided the chunks of
    this file and those already stored are free of FNV-1a collisions; what was
    stored before is never overwritten. *)
Theorem chunk_store_roundtrip data more st : store_ok st →
  collision_free ((chunk_bytes data <$> chunk_data data) ++ (map_to_list (chunks st)).*2) →
  let '(hs, st1) := store_chunks data st in
  let '(_, st2) := store_chunks more st1 in
  reassemble hs st1 = Ok data ∧ reassemble hs st2 = Ok data
  ∧ chunks st ⊆ chunks st1 ∧ chunks st1 ⊆ chunks st2 ∧ store_ok st2.
Proof.
  intros Hs Hcf. unfold store_chunks. destruct (chunk_data_spec data) as (Ht & Hc & _).
  destruct (chunk_data_spec more) as (_ & Hcm & _).
  destruct (store_all_ok data st _ Hc Hs) as (K1 & K2 & K3 & K4).
  destruct (store_all_ok more _ _ Hcm K1) as (L1 & L2 & _ & _).
  set (st1 := foldl (store_chunk data) st _) in *. set (st2 := foldl (store_chunk more) st1 _) in *.
  assert (Hlk : ∀ c, c ∈ chunk_data data → chunks st1 !! hash c = Some (chunk_bytes data c)).
  { intros c Hin. destruct (K3 c Hin) as [b Hb]. rewrite Hb. f_equal.
    rewrite Forall_forall in Hc. destruct (Hc c Hin) as [_ Hh]. apply Hcf.
    - apply elem_of_app. destruct (K4 _ _ Hb) as [Hold|?]; [right|by left].
      apply list_elem_of_fmap. exists (hash c, b). split; [done|]. by apply elem_of_map_to_list.
    - apply elem_of_app. left. apply list_elem_of_fmap. eauto.
    - rewrite <- Hh. by apply K1. }
  assert (Hd : concat (chunk_bytes data <$> chunk_data data) = data) by (rewrite (tiles_concat data 0) by (done || lia); done).
  split_and!; try done.
  - rewrite (reassemble_ok data) by done. by rewrite Hd.
  - rewrite (reassemble_ok data); [by rewrite Hd|]. intros c Hin. eapply lookup_weaken; [by apply Hlk|done].
Qed.

Definition demo_data : list Z := replicate 40 3 ++ [1; 2; 3].

Lemma chunk_store_roundtrip_witness :
  reassemble (store_chunks demo_data (mkStore ∅ 0 0)).1 (store_chunks demo_data (mkStore ∅ 0 0)).2 = Ok demo_data.
Proof.
  refine (proj1 (chunk_store_roundtrip demo_data [9] (mkStore ∅ 0 0) _ _)).
  - intros h b Hb. vm_compute in Hb. discriminate.
  - intros a b Ha Hb _. vm_compute in Ha, Hb. apply list_elem_of_singleton in Ha, Hb. congruence.
Defined.

(** Different contents with the same 32-bit hash: the second file reads back as
    the first. *)
Lemma chunk_collision :
  let costarring := [99; 111; 115; 116; 97; 114; 114; 105; 110; 103] in
  let liquid := [108; 105; 113; 117; 105; 100] in
  let '(_, s1) := store_chunks costarring (mkStore ∅ 0 0) in
  let '(hs, s2) := store_chunks liquid s1 in
  reassemble hs s2 = Ok costarring.
Proof. vm_compute. reflexivity. Qed.
