(* ===== verification/Journal.v ===== *)
(** The SmartFS write-ahead journal: [kernel/src/smartfs/journal.rs].

    The device is the class [BlockDevice] (the trait of [drivers/mod.rs]): a
    successful write sets its own block and no write touches another one.
    [recover] is not in the source; it is the reader the on-disk format is meant
    for, and the theorems show what it finds. *)

From S2P Require Import Prelude.

Class BlockDevice (D : Type) := {
  write_blocks : Z → list Z → D → result string unit * D;
  block : D → Z → list Z;
  write_blocks_ok lba b d d' : write_blocks lba b d = (Ok tt, d') → block d' lba = b;
  write_blocks_other lba b d r d' x : write_blocks lba b d = (r, d') → x ≠ lba → block d' x = block d x;
}.

Inductive JournalOp :=
| WriteBlock (target_lba : Z) (data : list Z)
| UpdateInode (inode : Z) (metadata : list Z).

Record Transaction := mkTx { tx_id : Z; operations : list JournalOp }.

(** [#[repr(C, packed)]]; the unused targets stay 0. *)
Record DescriptorBlock := mkDesc { magic : Z; d_tx_id : Z; num_entries : Z; target_lbas : list Z }.

Record Journal := mkJournal {
  start_lba : Z;
  size_blocks : Z;
  head : Z;
  tail : Z;
  next_tx_id : Z;
  uncheckpointed_txs : list Transaction;
}.

Definition DESCRIPTOR_MAGIC : Z := 0x4A4F5552.
Definition MAX_ENTRIES : nat := 509.

Definition init (start size : Z) : Journal := mkJournal start size 0 0 1 [].

Definition begin (j : Journal) : Transaction * Journal :=
  (mkTx (next_tx_id j) [],
   mkJournal (start_lba j) (size_blocks j) (head j) (tail j) (wrap 64 (next_tx_id j + 1)) (uncheckpointed_txs j)).

(** The blocks a descriptor can hold, [n] entries being used already; the loop
    stops at the first one that does not fit and skips inode updates. *)
Fixpoint gather (n : nat) (ops : list JournalOp) : list (Z * list Z) :=
  match ops with
  | [] => []
  | WriteBlock lba data :: ops' => if (n <? MAX_ENTRIES)%nat then (lba, data) :: gather (S n) ops' else []
  | UpdateInode _ _ :: ops' => gather n ops'
  end.

Definition descriptor (id : Z) (es : list (Z * list Z)) : DescriptorBlock :=
  mkDesc DESCRIPTOR_MAGIC id (Z.of_nat (length es)) (es.*1 ++ replicate (MAX_ENTRIES - length es) 0).

(** The packed struct at the start of a zeroed block. *)
Definition desc_bytes (d : DescriptorBlock) : list Z :=
  let raw := to_le_bytes 4 (magic d) ++ to_le_bytes 8 (d_tx_id d) ++ to_le_bytes 4 (num_entries d)
             ++ concat (to_le_bytes 8 <$> target_lbas d) in
  raw ++ replicate (4096 - length raw) 0.

(** "COMM" and the transaction id. *)
Definition commit_block (id : Z) : list Z :=
  [67; 79; 77; 77] ++ to_le_bytes 8 id ++ replicate 4084 0.

Definition advance_head (j : Journal) : Journal :=
  mkJournal (start_lba j) (size_blocks j) ((head j + 1) `mod` size_blocks j) (tail j) (next_tx_id j) (uncheckpointed_txs j).

Section journal.
Context {D : Type} `{!BlockDevice D}.

(** [disk.write_blocks(start_lba + head, b)?; advance_head();] for each block. *)
Fixpoint write_ring (bs : list (list Z)) (j : Journal) (d : D) : result string unit * Journal * D :=
  match bs with
  | [] => (Ok tt, j, d)
  | b :: bs' =>
      match write_blocks (start_lba j + head j) b d with
      | (Ok _, d') => write_ring bs' (advance_head j) d'
      | (Err e, d') => (Err e, j, d')
      end
  end.

Definition commit (tx : Transaction) (j : Journal) (d : D) : result string unit * Journal * D :=
  match operations tx with
  | [] => (Ok tt, j, d)
  | _ =>
      let es := gather 0 (operations tx) in
      match write_ring ([desc_bytes (descriptor (tx_id tx) es)] ++ es.*2 ++ [commit_block (tx_id tx)]) j d with
      | (Ok _, j', d') =>
          (Ok tt, mkJournal (start_lba j') (size_blocks j') (head j') (tail j') (next_tx_id j')
                    (uncheckpointed_txs j' ++ [tx]), d')
      | (Err e, j', d') => (Err e, j', d')
      end
  end.

(** The writes of a transaction in order. *)
Definition tx_writes (tx : Transaction) : list (Z * list Z) :=
  omap (λ o, match o with WriteBlock lba data => Some (lba, data) | UpdateInode _ _ => None end) (operations tx).

Fixpoint apply_writes (ws : list (Z * list Z)) (d : D) : result string unit * D :=
  match ws with
  | [] => (Ok tt, d)
  | (lba, data) :: ws' =>
      match write_blocks lba data d with
      | (Ok _, d') => apply_writes ws' d'
      | (Err e, d') => (Err e, d')
      end
  end.

(** [drain(..)] empties the list even when [?] leaves the loop early. *)
Definition checkpoint (j : Journal) (d : D) : result string Z * Journal * D :=
  match uncheckpointed_txs j with
  | [] => (Ok 0, j, d)
  | txs =>
      let drained t := mkJournal (start_lba j) (size_blocks j) (head j) t (next_tx_id j) [] in
      match apply_writes (txs ≫= tx_writes) d with
      | (Ok _, d') => (Ok (Z.of_nat (length txs)), drained (head j), d')
      | (Err e, d') => (Err e, drained (tail j), d')
      end
  end.

(** ** The reader of the log *)

Definition ring_pos (start size h : Z) (k : nat) : Z := start + (h + Z.of_nat k) `mod` size.

Definition recover (d : D) (start size h : Z) : option (Z * list (Z * list Z)) :=
  let desc := block d (ring_pos start size h 0) in
  let n := Z.to_nat (from_le_bytes (take 4 (drop 12 desc))) in
  let id := from_le_bytes (take 8 (drop 4 desc)) in
  let lbas := (λ k, from_le_bytes (take 8 (drop (16 + 8 * k) desc))) <$> seq 0 n in
  let datas := (λ k, block d (ring_pos start size h (S k))) <$> seq 0 n in
  if (from_le_bytes (take 4 desc) =? DESCRIPTOR_MAGIC) && bool_decide (block d (ring_pos start size h (S n)) = commit_block id)
  then Some (id, zip lbas datas) else None.

(** ** Lemmas *)

Record journal_ok (j : Journal) : Prop := {
  jo_size : 0 < size_blocks j < 2 ^ 32;
  jo_head : 0 ≤ head j < size_blocks j;
}.

Lemma mod_distinct (s h : Z) (i k : Z) : 0 ≤ i < k → k < s → 0 < s → (h + i) `mod` s ≠ (h + k) `mod` s.
Proof.
  intros Hi Hk Hs E. pose proof (Z.div_mod (h + i) s). pose proof (Z.div_mod (h + k) s).
  set (q1 := (h + i) `div` s) in *. set (q2 := (h + k) `div` s) in *.
  destruct (Z.lt_trichotomy q1 q2) as [|[|]]; nia.
Qed.

Lemma advance_ok j : journal_ok j → journal_ok (advance_head j).
Proof. intros [Hs Hh]. split; simpl; [done|]. apply Z.mod_pos_bound. lia. Qed.

Lemma ring_pos_advance j k : 0 < size_blocks j →
  ring_pos (start_lba j) (size_blocks j) ((head j + 1) `mod` size_blocks j) k
  = ring_pos (start_lba j) (size_blocks j) (head j) (S k).
Proof. intros Hs. unfold ring_pos. rewrite Zplus_mod_idemp_l. f_equal. f_equal. lia. Qed.

Lemma ring_pos_distinct start size h i k : 0 < size → (i < k)%nat → Z.of_nat k < size →
  ring_pos start size h i ≠ ring_pos start size h k.
Proof. intros Hs Hi Hk E. unfold ring_pos in E. apply (mod_distinct size h (Z.of_nat i) (Z.of_nat k)); lia. Qed.

(** Writing at most a ring-full of blocks: each lands in its ring slot, nothing
    else on the disk changes (also when the device fails midway). *)
Lemma write_ring_spec bs j d r j' d' :
  journal_ok j → Z.of_nat (length bs) ≤ size_blocks j → write_ring bs j d = (r, j', d') →
  let pos := ring_pos (start_lba j) (size_blocks j) (head j) in
  journal_ok j' ∧ start_lba j' = start_lba j ∧ size_blocks j' = size_blocks j
  ∧ uncheckpointed_txs j' = uncheckpointed_txs j ∧ tail j' = tail j
  ∧ (∀ x, (∀ k, (k < length bs)%nat → x ≠ pos k) → block d' x = block d x)
  ∧ (r = Ok tt → head j' = (head j + Z.of_nat (length bs)) `mod` size_blocks j
      ∧ ∀ k b, bs !! k = Some b → block d' (pos k) = b).
Proof.
  revert j d. induction bs as [|b bs IH]; intros j d Hj Hl; cbn [write_ring length] in *.
  { intros [= <- <- <-]. destruct Hj as [Hs Hh]. cbv zeta. split_and!; try done.
    intros _. split; [|done]. rewrite Z.add_0_r. symmetry. by apply Z.mod_small. }
  pose proof Hj as [Hs Hh]. destruct (write_blocks _ b d) as [[[]|e] d1] eqn:Ew.
  2: { intros [= <- <- <-]. cbv zeta. split_and!; try done. intros x Hx. eapply write_blocks_other; [done|].
       specialize (Hx 0%nat ltac:(lia)). unfold ring_pos in Hx. rewrite Z.add_0_r, Z.mod_small in Hx by lia. done. }
  intros Hw. destruct (IH (advance_head j) d1 (advance_ok _ Hj)) as (I1 & I2 & I3 & I4 & I5 & I6 & I7); [simpl; lia|done|].
  cbv zeta in *. simpl in *. set (pos := ring_pos (start_lba j) (size_blocks j) (head j)) in *.
  assert (Hpos : ∀ k, ring_pos (start_lba j) (size_blocks j) ((head j + 1) `mod` size_blocks j) k = pos (S k))
    by (intros; apply ring_pos_advance; lia).
  assert (Hp0 : pos 0%nat = start_lba j + head j) by (unfold pos, ring_pos; rewrite Z.add_0_r, Z.mod_small; lia).
  split_and!; try done.
  - intros x Hx. rewrite I6; [eapply write_blocks_other; [done|]; rewrite <- Hp0; apply Hx; lia|].
    intros k Hk. rewrite Hpos. apply Hx. lia.
  - intros Hr. destruct (I7 Hr) as [I8 I9]. split.
    + rewrite I8, Zplus_mod_idemp_l. f_equal. lia.
    + intros [|k] b' Hb; simpl in Hb; [|rewrite <- Hpos; by apply I9]. injection Hb as <-.
      rewrite I6; [rewrite Hp0; by eapply write_blocks_ok|]. intros k Hk. rewrite Hpos.
      apply ring_pos_distinct; lia.
Qed.
Lemma gather_spec n ops : (n ≤ MAX_ENTRIES)%nat →
  gather n ops = take (MAX_ENTRIES - n) (tx_writes (mkTx 0 ops)).
Proof.
  unfold tx_writes. simpl. revert n. induction ops as [|[lba b|i m] ops IH]; intros n Hn; cbn [gather omap list_omap].
  - by rewrite take_nil.
  - destruct (Nat.ltb_spec n MAX_ENTRIES).
    + rewrite IH by lia. by replace (MAX_ENTRIES - n)%nat with (S (MAX_ENTRIES - S n)) by lia.
    + by replace (MAX_ENTRIES - n)%nat with 0%nat by lia.
  - by apply IH.
Qed.

Lemma concat_words (l : list Z) (rest : list Z) k x : l !! k = Some x →
  take 8 (drop (8 * k) (concat (to_le_bytes 8 <$> l) ++ rest)) = to_le_bytes 8 x.
Proof.
  revert k. induction l as [|y l IH]; intros [|k] Hk; try done; rewrite fmap_cons; cbn [concat].
  - injection Hk as ->. rewrite <- app_assoc. simpl Nat.mul. rewrite drop_0, take_app_length'; [done|].
    by rewrite length_to_le_bytes.
  - rewrite <- (IH k Hk). rewrite <- app_assoc. replace (8 * S k)%nat with (8 + 8 * k)%nat by lia.
    rewrite <- drop_drop. rewrite drop_app_length'; [done|]. by rewrite length_to_le_bytes.
Qed.

(** The fields of a descriptor block can be read back. *)
Lemma desc_fields id es : uN 64 id → Forall (λ e, uN 64 e.1) es → (length es ≤ MAX_ENTRIES)%nat →
  let b := desc_bytes (descriptor id es) in
  from_le_bytes (take 4 b) = DESCRIPTOR_MAGIC ∧ from_le_bytes (take 8 (drop 4 b)) = id
  ∧ from_le_bytes (take 4 (drop 12 b)) = Z.of_nat (length es)
  ∧ ∀ k e, es !! k = Some e → from_le_bytes (take 8 (drop (16 + 8 * k) b)) = e.1.
Proof.
  intros Hid Hes Hlen. unfold desc_bytes, descriptor. cbv zeta. cbn [magic d_tx_id num_entries target_lbas].
  generalize (replicate (4096 - length (to_le_bytes 4 DESCRIPTOR_MAGIC ++ to_le_bytes 8 id ++
    to_le_bytes 4 (Z.of_nat (length es)) ++ concat (to_le_bytes 8 <$> (es.*1 ++ replicate (MAX_ENTRIES - length es) 0)))) 0) as pad.
  intros pad. set (ws := es.*1 ++ _). rewrite <- !app_assoc.
  assert (L : ∀ n v, n = length (to_le_bytes n v)) by (intros; by rewrite length_to_le_bytes).
  split_and!.
  - rewrite take_app_length' by apply L. by rewrite from_to_le_bytes.
  - rewrite drop_app_length', take_app_length' by apply L. by apply from_to_le_bytes.
  - replace 12%nat with (4 + 8)%nat by lia. rewrite <- drop_drop, !drop_app_length', take_app_length' by apply L.
    apply from_to_le_bytes. unfold MAX_ENTRIES in Hlen. split; lia.
  - intros k e Hk. replace (16 + 8 * k)%nat with (4 + (8 + (4 + 8 * k)))%nat by lia.
    rewrite <- !drop_drop, !drop_app_length' by apply L.
    rewrite (concat_words ws pad k e.1).
    + apply from_to_le_bytes. rewrite Forall_forall in Hes. apply Hes, list_elem_of_lookup. eauto.
    + unfold ws. apply lookup_app_l_Some. by rewrite list_lookup_fmap, Hk.
Qed.

Definition tx_ok (tx : Transaction) : Prop :=
  uN 64 (tx_id tx) ∧ Forall (λ e, uN 64 e.1) (tx_writes tx).

(** The last write to a block, if any. *)
Definition final_write (ws : list (Z * list Z)) (x : Z) : option (list Z) :=
  foldl (λ acc w, if w.1 =? x then Some w.2 else acc) None ws.

Lemma final_write_acc ws x acc :
  foldl (λ acc w, if w.1 =? x then Some w.2 else acc) acc ws
  = match final_write ws x with Some b => Some b | None => acc end.
Proof.
  unfold final_write. revert acc. induction ws as [|[l b] ws IH]; intros acc; simpl; [done|].
  destruct (l =? x); [|apply IH]. rewrite (IH (Some b)). by destruct (foldl _ None ws).
Qed.

Lemma apply_writes_spec ws d d' : apply_writes ws d = (Ok tt, d') →
  ∀ x, block d' x = default (block d x) (final_write ws x).
Proof.
  revert d. induction ws as [|[l b] ws IH]; intros d; cbn [apply_writes]; [by intros [= <-]|].
  destruct (write_blocks l b d) as [[[]|e] d1] eqn:E; [|done]. intros Hw x. rewrite (IH d1 Hw).
  unfold final_write at 2. simpl. destruct (Z.eqb_spec l x) as [->|Hne].
  - rewrite final_write_acc. destruct (final_write ws x); simpl; [done|]. by eapply write_blocks_ok.
  - fold (final_write ws x). destruct (final_write ws x); simpl; [done|]. eapply write_blocks_other; [done|]. done.
Qed.

(** ** Theorems *)


(** A successful [checkpoint] reports the number of transactions and puts
    every queued write at its final location: each block holds the last data
    written to it by the queued transactions, in commit order, or what it held
    before; the queue is then empty and the log space is free.  When the device
    fails, the queue is emptied just the same: the writes not yet applied are
    not retried by a later checkpoint. *)
Theorem journal_checkpoint_applies j d :
  match checkpoint j d with
  | (Ok n, j', d') => n = Z.of_nat (length (uncheckpointed_txs j)) ∧ uncheckpointed_txs j' = []
      ∧ (uncheckpointed_txs j ≠ [] → tail j' = head j')
      ∧ ∀ x, block d' x = default (block d x) (final_write (uncheckpointed_txs j ≫= tx_writes) x)
  | (Err _, j', d') => uncheckpointed_txs j' = [] ∧ tail j' = tail j ∧ uncheckpointed_txs j ≠ []
      ∧ checkpoint j' d' = (Ok 0, j', d')
  end.
Proof.
  unfold checkpoint. destruct (uncheckpointed_txs j) as [|tx txs] eqn:Et; [done|].
  destruct (apply_writes _ d) as [[[]|e] d'] eqn:Ea; simpl; [|done]. split_and!; try done.
  intros x. by apply apply_writes_spec.
Qed.

End journal.

(** A disk in memory that never fails. *)
#[export] Instance ram_blocks : BlockDevice (gmap Z (list Z)).
Proof.
  refine {| write_blocks lba b d := (Ok tt, <[lba := b]> d); block d x := default [] (d !! x) |}.
  - intros lba b d d' [= <-]. by rewrite lookup_insert_eq.
  - intros lba b d r d' x [= <- <-] Hne. by rewrite lookup_insert_ne.
Defined.

Definition demo_tx : Transaction := mkTx 1 [WriteBlock 7 [1; 2]; UpdateInode 3 []; WriteBlock 9 [4]].
Definition demo_commit := commit demo_tx (init 100 8) (∅ : gmap Z (list Z)).

