(* ===== verification/RamFs.v ===== *)
(** The in-memory file system: [kernel/src/vfs/ramfs.rs], [vfs/inode.rs].

    A [&str] is the list of its UTF-8 bytes; '/' is a single byte, so splitting
    the bytes splits the string.  [timer::ticks()] is the argument [now] of the
    operations that read the clock; the static inode counter is a field. *)

From S2P Require Import Prelude SmartPackFormat.

Notation path := (list Z).

Definition slash : Z := 47.

Inductive InodeType := File | Directory | Device.

#[export] Instance InodeType_eq : EqDecision InodeType.
Proof. solve_decision. Defined.

Record Inode := mkInode {
  id : Z;
  name : path;
  inode_type : InodeType;
  data : list Z;
  children : list Z;
  size : Z;
  created_at : Z;
  modified_at : Z;
}.

Definition new_file (now : Z) (i : Z) (nm : path) (d : list Z) : Inode :=
  mkInode i nm File d [] (wrap 64 (Z.of_nat (length d))) now now.

Definition new_directory (now : Z) (i : Z) (nm : path) : Inode := mkInode i nm Directory [] [] 0 now now.

(** ASCII text as bytes. *)
Definition text (s : string) : list Z := (λ a, Z.of_nat (Ascii.nat_of_ascii a)) <$> String.list_ascii_of_string s.

Definition type_name (k : InodeType) : string :=
  match k with File => "file" | Directory => "directory" | Device => "device" end.

Definition to_smartpack (i : Inode) : Value.t :=
  Value.Map [(Value.String (text "name"), Value.String (name i));
             (Value.String (text "type"), Value.String (text (type_name (inode_type i))));
             (Value.String (text "size"), Value.UInt64 (size i));
             (Value.String (text "created"), Value.Timestamp (created_at i));
             (Value.String (text "modified"), Value.Timestamp (modified_at i));
             (Value.String (text "children"), Value.UInt32 (wrap 32 (Z.of_nat (length (children i)))))].

(** ** Paths *)

(** The index of the last '/'. *)
Fixpoint rfind_slash (p : path) : option nat :=
  match p with
  | [] => None
  | b :: p' => match rfind_slash p' with
               | Some i => Some (S i)
               | None => if b =? slash then Some 0%nat else None
               end
  end.

Definition path_filename (p : path) : path :=
  match rfind_slash p with Some i => drop (S i) p | None => p end.

(** [trim_end_matches('/')] *)
Fixpoint trim_end (p : path) : path :=
  match p with
  | [] => []
  | b :: p' => match trim_end p' with
               | [] => if b =? slash then [] else [b]
               | q => b :: q
               end
  end.

Definition path_parent (p : path) : option path :=
  if bool_decide (p = [slash]) then None
  else
    let trimmed := trim_end p in
    match rfind_slash trimmed with
    | Some O => Some [slash]
    | Some pos => Some (take pos trimmed)
    | None => None
    end.

(** ** The file system *)

Record RamFs := mkFs {
  inodes : gmap Z Inode;
  path_map : gmap path Z;
  root : option Z;
  NEXT_INODE : Z;
}.

Definition new_fs : RamFs := mkFs ∅ ∅ None 1.

Definition set_children (ch : list Z) (i : Inode) : Inode :=
  mkInode (id i) (name i) (inode_type i) (data i) ch (size i) (created_at i) (modified_at i).

(** The block "Add to parent directory", applied to the parent's children. *)
Definition update_parent (f : list Z → list Z) (p : path) (fs : RamFs) : gmap Z Inode :=
  match path_parent p with
  | Some pp =>
      match path_map fs !! pp with
      | Some pid => alter (λ i, set_children (f (children i)) i) pid (inodes fs)
      | None => inodes fs
      end
  | None => inodes fs
  end.

Definition mkdir (now : Z) (p : path) (fs : RamFs) : result string unit * RamFs :=
  match path_map fs !! p with
  | Some _ => (Ok tt, fs)
  | None =>
      let i := NEXT_INODE fs in
      let inode := new_directory now i (path_filename p) in
      (Ok tt, mkFs (<[i := inode]> (update_parent (λ ch, ch ++ [i]) p fs)) (<[p := i]> (path_map fs))
                   (match root fs with None => Some i | r => r end) (wrap 64 (i + 1)))
  end.

Definition create_file (now : Z) (p : path) (d : list Z) (fs : RamFs) : result string unit * RamFs :=
  match path_map fs !! p with
  | Some _ => (Err "File already exists"%string, fs)
  | None =>
      let i := NEXT_INODE fs in
      let inode := new_file now i (path_filename p) d in
      (Ok tt, mkFs (<[i := inode]> (update_parent (λ ch, ch ++ [i]) p fs)) (<[p := i]> (path_map fs))
                   (root fs) (wrap 64 (i + 1)))
  end.

Definition lookup_path (p : path) (fs : RamFs) : option Z := path_map fs !! p.

(** Returns the buffer after the call as well. *)
Definition read (inode_id : Z) (offset : nat) (buf : list Z) (fs : RamFs) : result string nat * list Z :=
  match inodes fs !! inode_id with
  | None => (Err "Inode not found"%string, buf)
  | Some i =>
      if negb (bool_decide (inode_type i = File)) then (Err "Not a file"%string, buf)
      else if (length (data i) <=? offset)%nat then (Ok 0%nat, buf)
      else
        let to_read := Nat.min (length buf) (length (data i) - offset) in
        (Ok to_read, take to_read (drop offset (data i)) ++ drop to_read buf)
  end.

Definition write (now : Z) (inode_id : Z) (d : list Z) (fs : RamFs) : result string unit * RamFs :=
  match inodes fs !! inode_id with
  | None => (Err "Inode not found"%string, fs)
  | Some i =>
      if negb (bool_decide (inode_type i = File)) then (Err "Not a file"%string, fs)
      else (Ok tt, mkFs (<[inode_id := mkInode (id i) (name i) (inode_type i) d (children i)
                                         (wrap 64 (Z.of_nat (length d))) (created_at i) now]> (inodes fs))
                        (path_map fs) (root fs) (NEXT_INODE fs))
  end.

Definition readdir (p : path) (fs : RamFs) : result string (list path) :=
  match path_map fs !! p with
  | None => Err "Path not found"%string
  | Some i =>
      match inodes fs !! i with
      | None => Err "Inode not found"%string
      | Some inode =>
          if negb (bool_decide (inode_type inode = Directory)) then Err "Not a directory"%string
          else Ok (omap (λ c, name <$> inodes fs !! c) (children inode))
      end
  end.

Definition stat (p : path) (fs : RamFs) : result string Value.t :=
  match path_map fs !! p with
  | None => Err "Path not found"%string
  | Some i => match inodes fs !! i with
              | None => Err "Inode not found"%string
              | Some inode => Ok (to_smartpack inode)
              end
  end.

Definition delete_path (p : path) (fs : RamFs) : result string unit * RamFs :=
  match path_map fs !! p with
  | None => (Err "Path not found"%string, fs)
  | Some i =>
      match inodes fs !! i with
      | None => (Err "Inode not found"%string, fs)
      | Some inode =>
          if bool_decide (inode_type inode = Directory) then (Err "is a directory"%string, fs)
          else (Ok tt, mkFs (delete i (update_parent (filter (λ c, c ≠ i)) p fs)) (delete p (path_map fs)) (root fs) (NEXT_INODE fs))
      end
  end.

(** ** Specification: a map from paths to entries *)

Record entry := mkEntry { e_kind : InodeType; e_data : list Z; e_children : list path }.

Definition on_children (f : list path → list path) (e : entry) : entry := mkEntry (e_kind e) (e_data e) (f (e_children e)).

Definition spec_update_parent (f : list path → list path) (p : path) (m : gmap path entry) : gmap path entry :=
  match path_parent p with Some pp => alter (on_children f) pp m | None => m end.

Definition spec_add (p : path) (e : entry) (m : gmap path entry) : gmap path entry :=
  <[p := e]> (spec_update_parent (λ ch, ch ++ [p]) p m).

(** The operations as a program calls them, on paths. *)
Inductive fs_op :=
| Mkdir (now : Z) (p : path)
| CreateFile (now : Z) (p : path) (d : list Z)
| WriteFile (now : Z) (p : path) (d : list Z)
| ReadFile (p : path) (offset n : nat)
| ReadDir (p : path)
| DeleteFile (p : path).

Inductive fs_out := Done | Bytes (bs : list Z) | Names (ns : list path).

Definition result_map {A B} (f : A → B) (r : result string A) : result string B :=
  match r with Ok a => Ok (f a) | Err e => Err e end.

Definition fs_apply (op : fs_op) (fs : RamFs) : result string fs_out * RamFs :=
  match op with
  | Mkdir now p => let '(r, fs') := mkdir now p fs in (result_map (λ _, Done) r, fs')
  | CreateFile now p d => let '(r, fs') := create_file now p d fs in (result_map (λ _, Done) r, fs')
  | WriteFile now p d =>
      match lookup_path p fs with
      | None => (Err "Path not found"%string, fs)
      | Some i => let '(r, fs') := write now i d fs in (result_map (λ _, Done) r, fs')
      end
  | ReadFile p off n =>
      match lookup_path p fs with
      | None => (Err "Path not found"%string, fs)
      | Some i => let '(r, buf) := read i off (replicate n 0) fs in (result_map (λ k, Bytes (take k buf)) r, fs)
      end
  | ReadDir p => (result_map Names (readdir p fs), fs)
  | DeleteFile p => let '(r, fs') := delete_path p fs in (result_map (λ _, Done) r, fs')
  end.

Definition spec_apply (op : fs_op) (m : gmap path entry) : result string fs_out * gmap path entry :=
  match op with
  | Mkdir _ p => match m !! p with Some _ => (Ok Done, m) | None => (Ok Done, spec_add p (mkEntry Directory [] []) m) end
  | CreateFile _ p d =>
      match m !! p with
      | Some _ => (Err "File already exists"%string, m)
      | None => (Ok Done, spec_add p (mkEntry File d []) m)
      end
  | WriteFile _ p d =>
      match m !! p with
      | None => (Err "Path not found"%string, m)
      | Some e => if bool_decide (e_kind e = File) then (Ok Done, <[p := mkEntry File d (e_children e)]> m)
                  else (Err "Not a file"%string, m)
      end
  | ReadFile p off n =>
      match m !! p with
      | None => (Err "Path not found"%string, m)
      | Some e => if bool_decide (e_kind e = File) then (Ok (Bytes (take n (drop off (e_data e)))), m)
                  else (Err "Not a file"%string, m)
      end
  | ReadDir p =>
      match m !! p with
      | None => (Err "Path not found"%string, m)
      | Some e => if bool_decide (e_kind e = Directory) then (Ok (Names (path_filename <$> e_children e)), m)
                  else (Err "Not a directory"%string, m)
      end
  | DeleteFile p =>
      match m !! p with
      | None => (Err "Path not found"%string, m)
      | Some e => if bool_decide (e_kind e = Directory) then (Err "is a directory"%string, m)
                  else (Ok Done, delete p (spec_update_parent (filter (λ q, q ≠ p)) p m))
      end
  end.

(** ** The simulation relation *)

(** An inode stands for an entry at [p]. *)
Record stands (pm : gmap path Z) (p : path) (i : Inode) (e : entry) : Prop := {
  st_kind : inode_type i = e_kind e;
  st_data : data i = e_data e;
  st_name : name i = path_filename p;
  st_children : Forall2 (λ c q, pm !! q = Some c) (children i) (e_children e);
}.

(** [n] more inodes can be allocated before the counter wraps. *)
Record sim (n : Z) (fs : RamFs) (m : gmap path entry) : Prop := {
  sim_some : ∀ p k, path_map fs !! p = Some k →
    ∃ i e, inodes fs !! k = Some i ∧ m !! p = Some e ∧ stands (path_map fs) p i e;
  sim_none : ∀ p, path_map fs !! p = None → m !! p = None;
  sim_inj : ∀ p q k, path_map fs !! p = Some k → path_map fs !! q = Some k → p = q;
  sim_fresh : ∀ k i, inodes fs !! k = Some i → k < NEXT_INODE fs;
  sim_parent : ∀ p e q, m !! p = Some e → q ∈ e_children e → path_parent q = Some p;
  sim_room : 0 ≤ NEXT_INODE fs ∧ NEXT_INODE fs + n < 2 ^ 64;
}.

Lemma sim_lookup n fs m p : sim n fs m →
  match path_map fs !! p with
  | None => m !! p = None
  | Some k => ∃ i e, inodes fs !! k = Some i ∧ m !! p = Some e ∧ stands (path_map fs) p i e
  end.
Proof.
  intros H. destruct (path_map fs !! p) as [k|] eqn:E; [by apply (sim_some _ _ _ H)|by apply (sim_none _ _ _ H)].
Qed.

Lemma trim_end_length p : (length (trim_end p) ≤ length p)%nat.
Proof. induction p as [|b p IH]; simpl; [lia|]. destruct (trim_end p); [destruct (_ =? _)|]; simpl in *; lia. Qed.

Lemma rfind_slash_lt p i : rfind_slash p = Some i → (i < length p)%nat.
Proof.
  revert i. induction p as [|b p IH]; intros i; simpl; [done|].
  destruct (rfind_slash p) as [j|]; [intros [= <-]; specialize (IH j eq_refl); lia|].
  destruct (_ =? _); [intros [= <-]; lia|done].
Qed.

Lemma path_parent_ne p : path_parent p ≠ Some p.
Proof.
  unfold path_parent. case_bool_decide as Hp; [done|]. pose proof (trim_end_length p).
  destruct (rfind_slash (trim_end p)) as [[|pos]|] eqn:E; [|apply rfind_slash_lt in E|done]; intros [= Heq]; [done|].
  apply (f_equal length) in Heq. rewrite length_take in Heq. lia.
Qed.

Lemma up_inode n fs m f p q k i : sim n fs m → path_map fs !! q = Some k → inodes fs !! k = Some i →
  update_parent f p fs !! k = Some (if decide (path_parent p = Some q) then set_children (f (children i)) i else i).
Proof.
  intros H Hq Hk. unfold update_parent. destruct (path_parent p) as [pp|] eqn:Ep; [|by rewrite decide_False].
  destruct (path_map fs !! pp) as [kp|] eqn:Epp.
  - destruct (decide (Some pp = Some q)) as [[= ->]|Hne].
    + replace kp with k by congruence. by rewrite lookup_alter_eq, Hk.
    + rewrite lookup_alter_ne; [done|]. intros ->. apply Hne. f_equal. by apply (sim_inj _ _ _ H pp q k).
  - rewrite decide_False; [done|]. intros [= ->]. congruence.
Qed.

Lemma up_entry f p q m :
  spec_update_parent f p m !! q = (λ e, if decide (path_parent p = Some q) then on_children f e else e) <$> m !! q.
Proof.
  unfold spec_update_parent. destruct (path_parent p) as [pp|].
  - destruct (decide (Some pp = Some q)) as [[= ->]|Hne]; [by rewrite lookup_alter_eq|].
    rewrite lookup_alter_ne by congruence. by destruct (m !! q).
  - destruct (m !! q); simpl; by rewrite ?decide_False.
Qed.

Lemma up_dom f p fs k i : update_parent f p fs !! k = Some i → is_Some (inodes fs !! k).
Proof.
  unfold update_parent. destruct (path_parent p) as [pp|]; [|by eexists]. destruct (path_map fs !! pp) as [kp|]; [|by eexists].
  intros H. destruct (inodes fs !! k) eqn:E; [by eexists|].
  destruct (decide (kp = k)) as [->|Hne]; [rewrite lookup_alter_eq, E in H|rewrite lookup_alter_ne, E in H by done]; done.
Qed.

(** Adding an entry. *)
Lemma sim_add n fs m p inode e r :
  sim (n + 1) fs m → 0 ≤ n → path_map fs !! p = None →
  inode_type inode = e_kind e → data inode = e_data e → name inode = path_filename p →
  children inode = [] → e_children e = [] →
  sim n (mkFs (<[NEXT_INODE fs := inode]> (update_parent (λ ch, ch ++ [NEXT_INODE fs]) p fs))
              (<[p := NEXT_INODE fs]> (path_map fs)) r (wrap 64 (NEXT_INODE fs + 1))) (spec_add p e m).
Proof.
  intros H Hn Hp Ht Hd Hnm Hch Hec. set (k0 := NEXT_INODE fs). pose proof (sim_room _ _ _ H) as Hroom.
  assert (Hlt : ∀ q k, path_map fs !! q = Some k → k < k0).
  { intros q k Hq. destruct (sim_some _ _ _ H q k Hq) as (i & _ & Hi & _). by apply (sim_fresh _ _ _ H k i). }
  assert (Hmp : m !! p = None) by (by apply (sim_none _ _ _ H)).
  assert (Hnew : wrap 64 (k0 + 1) = k0 + 1) by (apply wrap_id; unfold k0; split; lia).
  unfold spec_add. split; cbn [path_map inodes NEXT_INODE].
  - intros q k. destruct (decide (q = p)) as [->|Hne].
    + rewrite !lookup_insert_eq. intros [= <-]. exists inode, e. rewrite lookup_insert_eq. split_and!; try done.
      split; try done. rewrite Hch, Hec. constructor.
    + rewrite (lookup_insert_ne (path_map fs)) by done. intros Hq. destruct (sim_some _ _ _ H q k Hq) as (i & e' & Hi & He & Hst).
      rewrite (lookup_insert_ne (update_parent _ _ _)) by (specialize (Hlt q k Hq); lia).
      rewrite (up_inode _ _ _ _ _ _ _ _ H Hq Hi), (lookup_insert_ne (spec_update_parent _ _ _)) by done.
      rewrite up_entry, He. eexists _, _. split; [done|]. split; [done|]. destruct Hst as [H1 H2 H3 H4].
      assert (H4' : Forall2 (λ c q0, <[p:=k0]> (path_map fs) !! q0 = Some c) (children i) (e_children e')).
      { eapply Forall2_impl; [exact H4|]. intros c q0 Hc. rewrite lookup_insert_ne; [done|]. intros ->. congruence. }
      case_decide; split; try done. simpl. apply Forall2_app; [done|]. constructor; [by rewrite lookup_insert_eq|constructor].
  - intros q Hq. destruct (decide (q = p)) as [->|Hne]; [by rewrite lookup_insert_eq in Hq|].
    rewrite lookup_insert_ne in Hq by done. rewrite lookup_insert_ne, up_entry by done. by rewrite (sim_none _ _ _ H q Hq).
  - intros q1 q2 k. destruct (decide (q1 = p)) as [->|H1], (decide (q2 = p)) as [->|H2];
      rewrite ?lookup_insert_eq; rewrite ?lookup_insert_ne by done; try done.
    + intros [= <-] Hq. specialize (Hlt q2 _ Hq). lia.
    + intros Hq [= <-]. specialize (Hlt q1 _ Hq). lia.
    + by apply (sim_inj _ _ _ H).
  - intros k i. rewrite Hnew. intros [[<- _]|[_ Hk]]%lookup_insert_Some; [lia|].
    apply up_dom in Hk as [i' Hk]. apply (sim_fresh _ _ _ H) in Hk. fold k0 in Hk. lia.
  - intros q e' c. destruct (decide (q = p)) as [->|Hne].
    + rewrite lookup_insert_eq. intros [= <-]. rewrite Hec. by intros ?%elem_of_nil.
    + rewrite lookup_insert_ne, up_entry by done. destruct (m !! q) as [e0|] eqn:E; [|done]. simpl. intros [= <-].
      case_decide as Hpar; [|by apply (sim_parent _ _ _ H q e0)]. simpl. rewrite elem_of_app, list_elem_of_singleton.
      intros [Hc| ->]; [by apply (sim_parent _ _ _ H q e0)|done].
  - rewrite Hnew. unfold k0. lia.
Qed.

(** Taking a child out of the list, on ids and on paths. *)
Lemma filter_children (pm : gmap path Z) p k (cs : list Z) (qs : list path) :
  (∀ q c, pm !! q = Some c → c = k → q = p) → pm !! p = Some k →
  Forall2 (λ c q, pm !! q = Some c) cs qs →
  Forall2 (λ c q, delete p pm !! q = Some c) (filter (λ c, c ≠ k) cs) (filter (λ q, q ≠ p) qs).
Proof.
  intros Hinj Hp. induction 1 as [|c q cs qs Hc _ IH]; [constructor|]. rewrite !filter_cons.
  destruct (decide (q = p)) as [->|Hne].
  - rewrite !decide_False by (intros Hno; apply Hno; congruence). done.
  - rewrite !decide_True by (try done; intros ->; by apply Hne, (Hinj q k)). constructor; [|done].
    by rewrite lookup_delete_ne.
Qed.

(** Deleting an entry. *)
Lemma sim_delete n fs m p k r :
  sim n fs m → path_map fs !! p = Some k →
  sim n (mkFs (delete k (update_parent (filter (λ c, c ≠ k)) p fs)) (delete p (path_map fs)) r (NEXT_INODE fs))
        (delete p (spec_update_parent (filter (λ q, q ≠ p)) p m)).
Proof.
  intros H Hp. split; cbn [path_map inodes NEXT_INODE]; [..|apply H].
  - intros q k' Hq. apply lookup_delete_Some in Hq as [Hne Hq].
    destruct (sim_some _ _ _ H q k' Hq) as (i & e & Hi & He & [H1 H2 H3 H4]).
    assert (Hk : k ≠ k') by (intros ->; by apply Hne, (sim_inj _ _ _ H p q k')).
    rewrite lookup_delete_ne, (lookup_delete_ne (spec_update_parent _ _ _)) by done.
    rewrite (up_inode _ _ _ _ _ _ _ _ H Hq Hi), up_entry, He. eexists _, _. split; [done|]. split; [done|].
    destruct (decide (path_parent p = Some q)) as [Hpar|Hpar]; split; try done; simpl.
    + apply filter_children; [|done|done]. intros q' c Hq' ->. by apply (sim_inj _ _ _ H q' p k).
    + apply Forall2_same_length_lookup in H4 as [Hlen H4]. apply Forall2_same_length_lookup_2; [done|].
      intros j c q' Hc Hq'. rewrite lookup_delete_ne; [by apply (H4 j)|].
      intros <-. apply Hpar. by apply (sim_parent _ _ _ H q e), (list_elem_of_lookup_2 _ j).
  - intros q. destruct (decide (q = p)) as [->|Hne]; [intros _; apply lookup_delete_eq|].
    rewrite !lookup_delete_ne, up_entry by done. intros Hq. by rewrite (sim_none _ _ _ H q Hq).
  - intros q1 q2 k' [_ Hq1]%lookup_delete_Some [_ Hq2]%lookup_delete_Some. by apply (sim_inj _ _ _ H q1 q2 k').
  - intros k' i [_ Hk]%lookup_delete_Some. apply up_dom in Hk as [i' Hk]. by apply (sim_fresh _ _ _ H k' i').
  - intros q e c [_ Hq]%lookup_delete_Some. rewrite up_entry in Hq. destruct (m !! q) as [e0|] eqn:E; [|done].
    simpl in Hq. injection Hq as <-. case_decide; simpl; [|by apply (sim_parent _ _ _ H q e0)].
    intros [_ Hc]%list_elem_of_filter. by apply (sim_parent _ _ _ H q e0).
Qed.

(** Replacing a file's contents. *)
Lemma sim_write n fs m p k i e i' d r :
  sim n fs m → path_map fs !! p = Some k → inodes fs !! k = Some i → m !! p = Some e →
  inode_type i' = e_kind e → data i' = d → name i' = name i → children i' = children i →
  sim n (mkFs (<[k := i']> (inodes fs)) (path_map fs) r (NEXT_INODE fs)) (<[p := mkEntry (e_kind e) d (e_children e)]> m).
Proof.
  intros H Hp Hi He Ht Hd Hn Hch. split; cbn [path_map inodes NEXT_INODE]; [..|apply H].
  - intros q k' Hq. destruct (decide (q = p)) as [->|Hne].
    + replace k' with k by congruence. rewrite !lookup_insert_eq. eexists _, _. split; [done|]. split; [done|].
      destruct (sim_some _ _ _ H p k Hp) as (i0 & e0 & Hi0 & He0 & [H1 H2 H3 H4]). simplify_eq.
      split; simpl; [done|done|congruence|by rewrite Hch].
    + destruct (sim_some _ _ _ H q k' Hq) as (i0 & e0 & Hi0 & He0 & Hst). exists i0, e0.
      rewrite !lookup_insert_ne; [done|done|]. intros ->. by apply Hne, (sim_inj _ _ _ H q p k').
  - intros q Hq. rewrite lookup_insert_ne; [by apply (sim_none _ _ _ H)|congruence].
  - apply (sim_inj _ _ _ H).
  - intros k' i0 [[<- _]|[_ Hk]]%lookup_insert_Some; [by apply (sim_fresh _ _ _ H k i)|by apply (sim_fresh _ _ _ H k' i0)].
  - intros q e0 c [[<- <-]|[_ Hq]]%lookup_insert_Some; [by apply (sim_parent _ _ _ H p e)|by apply (sim_parent _ _ _ H q e0)].
Qed.

(** The names a directory lists. *)
Lemma listed_names n fs m cs qs : sim n fs m → Forall2 (λ c q, path_map fs !! q = Some c) cs qs →
  omap (λ c, name <$> inodes fs !! c) cs = path_filename <$> qs.
Proof.
  intros H. induction 1 as [|c q cs qs Hc _ IH]; [done|]. rewrite fmap_cons. cbn [omap list_omap].
  destruct (sim_some _ _ _ H q c Hc) as (i & e & -> & _ & Hst). simpl. rewrite (st_name _ _ _ _ Hst). f_equal. exact IH.
Qed.

Lemma sim_less n n' fs m : sim n fs m → n' ≤ n → sim n' fs m.
Proof. intros [] ?. split; try done. lia. Qed.

Lemma fs_apply_sim n op fs m : sim (n + 1) fs m → 0 ≤ n →
  (fs_apply op fs).1 = (spec_apply op m).1 ∧ sim n (fs_apply op fs).2 (spec_apply op m).2.
Proof.
  intros H Hn. assert (H' : sim n fs m) by (eapply sim_less; [done|lia]).
  destruct op as [now p|now p d|now p d|p off k|p|p]; simpl; pose proof (sim_lookup _ _ _ p H) as Hp.
  - unfold mkdir. destruct (path_map fs !! p) as [j|] eqn:E.
    + destruct Hp as (i & e & _ & -> & _). done.
    + rewrite Hp. simpl. split; [done|]. by apply sim_add.
  - unfold create_file. destruct (path_map fs !! p) as [j|] eqn:E.
    + destruct Hp as (i & e & _ & -> & _). done.
    + rewrite Hp. simpl. split; [done|]. by apply sim_add.
  - unfold lookup_path, write. destruct (path_map fs !! p) as [j|] eqn:E; [|by rewrite Hp].
    destruct Hp as (i & e & Ei & Ee & Hst). rewrite Ei, Ee, (st_kind _ _ _ _ Hst). case_bool_decide as Hk; simpl; [|done].
    split; [done|]. rewrite <- Hk. by eapply sim_write.
  - unfold lookup_path, read. destruct (path_map fs !! p) as [j|] eqn:E; [|by rewrite Hp].
    destruct Hp as (i & e & Ei & Ee & Hst). rewrite Ei, Ee, (st_kind _ _ _ _ Hst), (st_data _ _ _ _ Hst).
    case_bool_decide as Hk; simpl; [|done]. rewrite length_replicate. destruct (_ <=? _)%nat eqn:El; simpl.
    + apply Nat.leb_le in El. by rewrite take_0, drop_ge, take_nil.
    + split; [|done]. do 2 f_equal. set (j' := Nat.min k _).
      rewrite take_app_le, take_take, Nat.min_id by (rewrite length_take, length_drop; lia).
      unfold j'. destruct (Nat.min_spec k (length (e_data e) - off)) as [[? ->]|[? ->]]; [done|].
      rewrite !take_ge; rewrite ?length_drop; [done|lia..].
  - unfold readdir. destruct (path_map fs !! p) as [j|] eqn:E; [|by rewrite Hp].
    destruct Hp as (i & e & Ei & Ee & Hst). rewrite Ei, Ee, (st_kind _ _ _ _ Hst). case_bool_decide as Hk; simpl; [|done].
    split; [|done]. by rewrite (listed_names _ _ _ _ _ H (st_children _ _ _ _ Hst)).
  - unfold delete_path. destruct (path_map fs !! p) as [j|] eqn:E; [|by rewrite Hp].
    destruct Hp as (i & e & Ei & Ee & Hst). rewrite Ei, Ee, (st_kind _ _ _ _ Hst). case_bool_decide as Hk; simpl; [done|].
    split; [done|]. by apply sim_delete.
Qed.

Fixpoint fs_run (ops : list fs_op) (fs : RamFs) : list (result string fs_out) * RamFs :=
  match ops with
  | [] => ([], fs)
  | op :: ops' => let '(r, fs1) := fs_apply op fs in let '(rs, fs2) := fs_run ops' fs1 in (r :: rs, fs2)
  end.

Fixpoint spec_run (ops : list fs_op) (m : gmap path entry) : list (result string fs_out) * gmap path entry :=
  match ops with
  | [] => ([], m)
  | op :: ops' => let '(r, m1) := spec_apply op m in let '(rs, m2) := spec_run ops' m1 in (r :: rs, m2)
  end.

Lemma fs_run_sim ops fs m : sim (Z.of_nat (length ops)) fs m → (fs_run ops fs).1 = (spec_run ops m).1.
Proof.
  revert fs m. induction ops as [|op ops IH]; intros fs m H; [done|]. cbn [fs_run spec_run].
  destruct (fs_apply_sim (Z.of_nat (length ops)) op fs m) as [H1 H2]; [|lia|].
  { eapply sim_less; [done|]. cbn [length]. lia. }
  destruct (fs_apply op fs) as [r fs1], (spec_apply op m) as [r' m1]. simpl in H1, H2. subst r'.
  specialize (IH fs1 m1 H2). destruct (fs_run ops fs1), (spec_run ops m1). simpl in *. by rewrite IH.
Qed.

(** C3: the file system implements a map from paths to entries: for every
    sequence of mkdir, create, write, read, readdir and delete calls, each call
    returns exactly what the abstract map of files and directories returns (the
    same bytes, the same listings in creation order, the same errors).  Inode
    numbers, the inode table and the child lists are invisible. *)
Theorem ramfs_refines_tree ops : Z.of_nat (length ops) < 2 ^ 64 - 1 → (fs_run ops new_fs).1 = (spec_run ops ∅).1.
Proof.
  intros Hlen. apply fs_run_sim. split; simpl; try done. lia.
Qed.

Definition demo_ops : list fs_op :=
  [Mkdir 0 (text "/"); Mkdir 0 (text "/home"); CreateFile 1 (text "/home/a.txt") [104; 105];
   CreateFile 2 (text "/home/b") [1]; WriteFile 3 (text "/home/a.txt") [1; 2; 3; 4]; ReadFile (text "/home/a.txt") 1 2;
   ReadDir (text "/home"); DeleteFile (text "/home/a.txt"); ReadDir (text "/home"); DeleteFile (text "/home")].

Lemma ramfs_refines_tree_witness :
  (fs_run demo_ops new_fs).1 = (spec_run demo_ops ∅).1
  ∧ (fs_run demo_ops new_fs).1
    = [Ok Done; Ok Done; Ok Done; Ok Done; Ok Done; Ok (Bytes [2; 3]); Ok (Names [text "a.txt"; text "b"]); Ok Done;
       Ok (Names [text "b"]); Err "is a directory"%string].
Proof. split; [apply (ramfs_refines_tree demo_ops); vm_compute; reflexivity|vm_compute; reflexivity]. Defined.

(** Findings.  A file may be created below a directory that does not exist, or
    below a file, and a directory made afterwards does not list it. *)
Lemma orphan_not_listed :
  (fs_run [Mkdir 0 (text "/"); CreateFile 0 (text "/a/b") [7]; Mkdir 0 (text "/a"); ReadDir (text "/a"); ReadFile (text "/a/b") 0 9] new_fs).1
  = [Ok Done; Ok Done; Ok Done; Ok (Names []); Ok (Bytes [7])].
Proof. vm_compute. reflexivity. Qed.

(** Spellings with a trailing slash are other entries, listed without a name. *)
Lemma trailing_slash_entry :
  (fs_run [Mkdir 0 (text "/"); Mkdir 0 (text "/a"); Mkdir 0 (text "/a/"); ReadDir (text "/")] new_fs).1
  = [Ok Done; Ok Done; Ok Done; Ok (Names [text "a"; []])].
Proof. vm_compute. reflexivity. Qed.
