(* ===== verification/Vfs.v ===== *)
(** The virtual file system in front of the RAM file system
    ([kernel/src/vfs/mod.rs], [vfs/fd.rs]) and the write protection of system
    paths ([kernel/src/immutable/protection.rs]).

    The global file system, descriptor table, dirty list and protection state
    are one record.  The other backends (NTFS, FAT32, the disk file system,
    ext4 and the character devices) are drivers: the class [Backends] states
    what the front end calls, over a state of their own.  The knowledge-graph
    node that [create_and_write] adds and the boot-time contents that [init]
    writes are not modelled. *)

From S2P Require Import Prelude SmartPackFormat RamFs.

(** ** Write protection *)

Definition starts_with (prefix p : path) : bool := bool_decide (take (length prefix) p = prefix).

Record Protection := mkProtection {
  PROTECTED_PATHS : list path;
  BYPASS_ACTIVE : bool;
}.

Definition protection_init (s : Protection) : Protection :=
  mkProtection (PROTECTED_PATHS s ++ [text "/system/"; text "/boot/"; text "/bin/"]) (BYPASS_ACTIVE s).

Definition check_write (p : path) (s : Protection) : result string unit :=
  if BYPASS_ACTIVE s then Ok tt
  else if existsb (λ protected, starts_with protected p) (PROTECTED_PATHS s)
  then Err "Write to immutable system path denied"%string
  else Ok tt.

Definition bypass_for_update (s : Protection) : Protection := mkProtection (PROTECTED_PATHS s) true.
Definition drop_bypass (s : Protection) : Protection := mkProtection (PROTECTED_PATHS s) false.
Definition add_protected_path (p : path) (s : Protection) : Protection :=
  if existsb (λ q, bool_decide (q = p)) (PROTECTED_PATHS s) then s
  else mkProtection (PROTECTED_PATHS s ++ [p]) (BYPASS_ACTIVE s).

(** ** The descriptor table *)

Record FileDescriptor := mkFd {
  fd_inode : Z;
  fd_path : path;
  fd_offset : nat;
  readable : bool;
  writable : bool;
}.
Record VfsFdTable := mkFdt { fds : gmap Z FileDescriptor; next_fd : Z }.

Definition fdt_new : VfsFdTable := mkFdt ∅ 3.
Definition fdt_open (inode_id : Z) (p : path) (t : VfsFdTable) : Z * VfsFdTable :=
  (next_fd t, mkFdt (<[next_fd t := mkFd inode_id p 0 true true]> (fds t)) (next_fd t + 1)).
Definition fdt_close (fd : Z) (t : VfsFdTable) : option FileDescriptor * VfsFdTable :=
  (fds t !! fd, mkFdt (delete fd (fds t)) (next_fd t)).
(** [fd.offset += n] through [get_mut]. *)
Definition fdt_advance (fd : Z) (n : nat) (t : VfsFdTable) : VfsFdTable :=
  mkFdt (alter (λ d, mkFd (fd_inode d) (fd_path d) (fd_offset d + n) (readable d) (writable d)) fd (fds t)) (next_fd t).

(** ** Backends *)

Class Backends (B : Type) := {
  ntfs_available : B → bool;
  ntfs_read : path → B → result string (list Z);
  fat_available : B → bool;
  fat_read : path → B → result string (list Z);
  fat_write : path → list Z → B → result string unit * B;
  fat_list : path → B → result string (list path);
  disk_mounted : B → bool;
  disk_list : B → list path;
  disk_read : path → B → result string (list Z);
  disk_write : path → list Z → B → result string unit * B;
  ext4_handles : path → B → bool;
  ext4_readdir : path → B → option (list path);
  ext4_stat : path → B → option (Z * Z * Z);
  ext4_read : path → B → option (list Z);
  device_write : Z → list Z → B → result string unit * B;
}.

(** ** Routing *)

Definition is_disk_path (p : path) : bool := bool_decide (p = text "/disk") || starts_with (text "/disk/") p.
Definition disk_filename (p : path) : path := if starts_with (text "/disk/") p then drop 6 p else [].
Definition is_fat_path (p : path) : bool := bool_decide (p = text "/fat") || starts_with (text "/fat/") p.
Definition fat_subpath (p : path) : path := if starts_with (text "/fat/") p then drop 5 p else [].
Definition is_ntfs_path (p : path) : bool := bool_decide (p = text "/ntfs") || starts_with (text "/ntfs/") p.
Definition ntfs_subpath (p : path) : path := if starts_with (text "/ntfs/") p then drop 6 p else [].
Definition is_dev_path (p : path) : bool := starts_with (text "/dev/") p.
Definition dev_name (p : path) : path := if starts_with (text "/dev/") p then drop 5 p else [].

Definition DEV_BASE : Z := 0xA0000000.
Definition FAT_BASE : Z := 0x90000000.
Definition NTFS_BASE : Z := 0x80000000.

(** [match name { "ttyS0" => 0, .. }] *)
Definition device_id (name : path) : option Z :=
  snd <$> find (λ d, bool_decide (text d.1 = name))
    [("ttyS0"%string, 0); ("ttyS1"%string, 1); ("ttyS2"%string, 2); ("ttyS3"%string, 3);
     ("lp0"%string, 4); ("audio"%string, 5); ("dsp"%string, 6)].

Section Front.
  Context {B : Type} `{Backends B}.

Record Vfs := mkVfs {
  VFS : option RamFs;
  FD_TABLE : option VfsFdTable;
  DIRTY_FILES : list path;
  protection : Protection;
  backend : B;
}.

Definition set_fs (fs : RamFs) (s : Vfs) : Vfs := mkVfs (Some fs) (FD_TABLE s) (DIRTY_FILES s) (protection s) (backend s).
Definition set_fdt (t : VfsFdTable) (s : Vfs) : Vfs := mkVfs (VFS s) (Some t) (DIRTY_FILES s) (protection s) (backend s).
Definition set_backend (b : B) (s : Vfs) : Vfs := mkVfs (VFS s) (FD_TABLE s) (DIRTY_FILES s) (protection s) b.

Definition mark_dirty (p : path) (s : Vfs) : Vfs :=
  if existsb (λ q, bool_decide (q = p)) (DIRTY_FILES s) then s
  else mkVfs (VFS s) (FD_TABLE s) (DIRTY_FILES s ++ [p]) (protection s) (backend s).

(** The tail of every branch of [open]. *)
Definition open_fd (inode_id : Z) (p : path) (s : Vfs) : result string Z * Vfs :=
  match FD_TABLE s with
  | None => (Err "FD table not initialized"%string, s)
  | Some t => let '(fd, t') := fdt_open inode_id p t in (Ok fd, set_fdt t' s)
  end.

Definition vfs_open (p : path) (s : Vfs) : result string Z * Vfs :=
  if is_dev_path p then
    match device_id (dev_name p) with
    | None => (Err "Device not found"%string, s)
    | Some i => open_fd (DEV_BASE + i) p s
    end
  else if is_ntfs_path p then
    if negb (ntfs_available (backend s)) then (Err "NTFS not mounted"%string, s) else open_fd NTFS_BASE p s
  else if is_fat_path p then
    if negb (fat_available (backend s)) then (Err "FAT32 not mounted"%string, s)
    else match fat_read (fat_subpath p) (backend s) with
         | Err _ => (Err "File not found on FAT32"%string, s)
         | Ok _ => open_fd FAT_BASE p s
         end
  else if is_disk_path p then
    if negb (disk_mounted (backend s)) then (Err "Disk not mounted"%string, s)
    else if negb (existsb (λ f, bool_decide (f = disk_filename p)) (disk_list (backend s)))
    then (Err "File not found on disk"%string, s)
    else open_fd NTFS_BASE p s
  else
    match VFS s with
    | None => (Err "VFS not initialized"%string, s)
    | Some fs =>
        match lookup_path p fs with
        | None => (Err "File not found"%string, s)
        | Some i => open_fd i p s
        end
    end.

Definition vfs_close (fd : Z) (s : Vfs) : result string unit * Vfs :=
  match FD_TABLE s with
  | None => (Err "FD table not initialized"%string, s)
  | Some t =>
      let '(d, t') := fdt_close fd t in
      (match d with Some _ => Ok tt | None => Err "Invalid fd"%string end, set_fdt t' s)
  end.

(** What of [data] a read of [n] bytes at [offset] copies. *)
Definition slice (data : list Z) (offset n : nat) : list Z := take (min (length data - offset) n) (drop offset data).

(** [buf[..count].copy_from_slice(..)] *)
Definition fill_buf (bs buf : list Z) : list Z := bs ++ drop (length bs) buf.

Definition advance (fd : Z) (n : nat) (s : Vfs) : Vfs :=
  match FD_TABLE s with Some t => set_fdt (fdt_advance fd n t) s | None => s end.

(** The NTFS branch slices [data[offset..offset + count]] and panics when the
    offset is past the end. *)
Definition vfs_read (fd : Z) (buf : list Z) (s : Vfs) : outcome (result string nat * list Z * Vfs) :=
  match FD_TABLE s with
  | None => Returned (Err "FD table not initialized"%string, buf, s)
  | Some t =>
      match fds t !! fd with
      | None => Returned (Err "Invalid fd"%string, buf, s)
      | Some d =>
          let i := fd_inode d in
          let offset := fd_offset d in
          if (NTFS_BASE <=? i) && (i <? FAT_BASE) then
            match ntfs_read (ntfs_subpath (fd_path d)) (backend s) with
            | Err e => Returned (Err e, buf, s)
            | Ok data =>
                if (length data <? offset)%nat then Panicked
                else let bs := slice data offset (length buf) in Returned (Ok (length bs), fill_buf bs buf, s)
            end
          else if FAT_BASE <=? i then
            match fat_read (fat_subpath (fd_path d)) (backend s) with
            | Err e => Returned (Err e, buf, s)
            | Ok data => let bs := slice data offset (length buf) in Returned (Ok (length bs), fill_buf bs buf, advance fd (length bs) s)
            end
          else if NTFS_BASE <=? i then
            if negb (disk_mounted (backend s)) then Returned (Err "Disk not mounted"%string, buf, s)
            else match disk_read (disk_filename (fd_path d)) (backend s) with
            | Err e => Returned (Err e, buf, s)
            | Ok data => let bs := slice data offset (length buf) in Returned (Ok (length bs), fill_buf bs buf, advance fd (length bs) s)
            end
          else
            match VFS s with
            | None => Returned (Err "VFS not initialized"%string, buf, s)
            | Some fs =>
                match RamFs.read i offset buf fs with
                | (Err e, buf') => Returned (Err e, buf', s)
                | (Ok n, buf') => Returned (Ok n, buf', advance fd n s)
                end
            end
      end
  end.

(** The write of a whole file by path, shared by [write] and [create_and_write]. *)
Definition put_file (now : Z) (p : path) (data : list Z) (fs : RamFs) : result string unit * RamFs :=
  match lookup_path p fs with
  | Some i => RamFs.write now i data fs
  | None => create_file now p data fs
  end.

Definition written (n : nat) (r : result string unit * B) (s : Vfs) : result string nat * Vfs :=
  match r with
  | (Ok _, b) => (Ok n, set_backend b s)
  | (Err e, b) => (Err e, set_backend b s)
  end.

Definition vfs_write (now : Z) (fd : Z) (data : list Z) (s : Vfs) : result string nat * Vfs :=
  match FD_TABLE s with
  | None => (Err "FD table not initialized"%string, s)
  | Some t =>
      match fds t !! fd with
      | None => (Err "Invalid fd"%string, s)
      | Some d =>
          match check_write (fd_path d) (protection s) with
          | Err e => (Err e, s)
          | Ok _ =>
              let i := fd_inode d in
              if DEV_BASE <=? i then
                if i - DEV_BASE <=? 6 then written (length data) (device_write (i - DEV_BASE) data (backend s)) s
                else (Err "Invalid device ID"%string, s)
              else if FAT_BASE <=? i then written (length data) (fat_write (fat_subpath (fd_path d)) data (backend s)) s
              else if NTFS_BASE <=? i then
                if negb (disk_mounted (backend s)) then (Err "Disk not mounted"%string, s)
                else written (length data) (disk_write (disk_filename (fd_path d)) data (backend s)) s
              else
                match VFS s with
                | None => (Err "VFS not initialized"%string, s)
                | Some fs =>
                    match put_file now (fd_path d) data fs with
                    | (Err e, fs') => (Err e, set_fs fs' s)
                    | (Ok _, fs') => (Ok (length data), mark_dirty (fd_path d) (set_fs fs' s))
                    end
                end
          end
      end
  end.

Definition on_fs {A} (f : RamFs → result string A * RamFs) (s : Vfs) : result string A * Vfs :=
  match VFS s with
  | None => (Err "VFS not initialized"%string, s)
  | Some fs => let '(r, fs') := f fs in (r, set_fs fs' s)
  end.

Definition vfs_mkdir (now : Z) (p : path) (s : Vfs) : result string unit * Vfs :=
  if is_disk_path p then (Ok tt, s) else on_fs (RamFs.mkdir now p) s.

Definition vfs_delete_file (p : path) (s : Vfs) : result string unit * Vfs :=
  if is_disk_path p || is_fat_path p then (Err "delete not supported on this filesystem"%string, s)
  else on_fs (delete_path p) s.

Definition vfs_unlink (p : path) (s : Vfs) : result string unit * Vfs := vfs_delete_file p s.

Definition create_and_write (now : Z) (p : path) (data : list Z) (s : Vfs) : result string unit * Vfs :=
  match check_write p (protection s) with
  | Err e => (Err e, s)
  | Ok _ =>
      if is_fat_path p then let '(r, b) := fat_write (fat_subpath p) data (backend s) in (r, set_backend b s)
      else if is_disk_path p then
        if negb (disk_mounted (backend s)) then (Err "Disk not mounted"%string, s)
        else let '(r, b) := disk_write (disk_filename p) data (backend s) in (r, set_backend b s)
      else
        match VFS s with
        | None => (Err "VFS not initialized"%string, s)
        | Some fs =>
            match put_file now p data fs with
            | (Err e, fs') => (Err e, set_fs fs' s)
            | (Ok _, fs') => (Ok tt, mark_dirty p (set_fs fs' s))
            end
        end
  end.

Definition opt_err {A} (e : string) (o : option A) : result string A := match o with Some a => Ok a | None => Err e end.

Definition vfs_readdir (p : path) (s : Vfs) : result string (list path) :=
  if is_fat_path p || bool_decide (p = text "/fat") then fat_list (fat_subpath p) (backend s)
  else if ext4_handles p (backend s) then opt_err "ext4: readdir failed"%string (ext4_readdir p (backend s))
  else if is_disk_path p || bool_decide (p = text "/disk") then
    if disk_mounted (backend s) then Ok (disk_list (backend s)) else Err "Disk not mounted"%string
  else match VFS s with None => Err "VFS not initialized"%string | Some fs => readdir p fs end.

Definition str (s : string) : Value.t := Value.String (text s).

Definition vfs_stat (p : path) (s : Vfs) : result string Value.t :=
  if ext4_handles p (backend s) then
    match ext4_stat p (backend s) with
    | None => Err "ext4: stat failed"%string
    | Some (mode, size, ino) =>
        let kind := if Z.land mode 0xF000 =? 0x4000 then "dir"%string else "file"%string in
        Ok (Value.Map [(str "size", Value.UInt64 size); (str "type", str kind); (str "fs", str "ext4"); (str "ino", Value.UInt64 ino)])
    end
  else if is_fat_path p then
    match fat_read (fat_subpath p) (backend s) with
    | Err e => Err e
    | Ok data => Ok (Value.Map [(str "size", Value.UInt64 (wrap 64 (Z.of_nat (length data)))); (str "type", str "file"); (str "fs", str "fat32")])
    end
  else if is_disk_path p then
    if negb (disk_mounted (backend s)) then Err "Disk not mounted"%string
    else match disk_read (disk_filename p) (backend s) with
    | Err e => Err e
    | Ok data => Ok (Value.Map [(str "size", Value.UInt64 (wrap 64 (Z.of_nat (length data)))); (str "type", str "file")])
    end
  else match VFS s with None => Err "VFS not initialized"%string | Some fs => stat p fs end.

Definition fd_path_of (fd : Z) (s : Vfs) : option path := FD_TABLE s ≫= λ t, fd_path <$> fds t !! fd.

(** The [size] entry of a stat value. *)
Definition stat_size (v : Value.t) : nat :=
  match v with
  | Value.Map kvs =>
      match find (λ kv : Value.t * Value.t, match kv.1 with Value.String s => bool_decide (s = text "size") | _ => false end) kvs with
      | Some (_, Value.UInt64 n) => Z.to_nat n
      | _ => O
      end
  | _ => O
  end.

Definition read_file_full (p : path) (s : Vfs) : result string (list Z) :=
  if is_fat_path p then fat_read (fat_subpath p) (backend s)
  else if ext4_handles p (backend s) then opt_err "ext4: read failed"%string (ext4_read p (backend s))
  else if is_disk_path p then
    if disk_mounted (backend s) then disk_read (disk_filename p) (backend s) else Err "Disk not mounted"%string
  else
    match VFS s with
    | None => Err "VFS not initialized"%string
    | Some fs =>
        match lookup_path p fs with
        | None => Err "File not found"%string
        | Some i =>
            match stat p fs with
            | Err e => Err e
            | Ok v =>
                match RamFs.read i 0 (replicate (stat_size v) 0) fs with
                | (Err e, _) => Err e
                | (Ok _, data) => Ok data
                end
            end
        end
    end.

Definition file_size (p : path) (s : Vfs) : option nat :=
  match read_file_full p s with Ok data => Some (length data) | Err _ => None end.
End Front.
Arguments Vfs : clear implicits.

(** ** Paths below a protected prefix *)

Lemma starts_with_app pre p : starts_with pre p = true ↔ ∃ rest, p = pre ++ rest.
Proof.
  unfold starts_with. rewrite bool_decide_eq_true. split.
  - intros Hp. exists (drop (length pre) p). rewrite <- Hp at 1. by rewrite take_drop.
  - intros [rest ->]. apply take_app_length.
Qed.

Lemma trim_end_app p : ∃ rest, p = trim_end p ++ rest.
Proof.
  induction p as [|b p [rest IH]]; [by exists []|]. cbn [trim_end]. destruct (trim_end p) as [|c q] eqn:E.
  - destruct (b =? slash); [by exists (b :: p)|]. exists p. done.
  - exists rest. cbn [app]. by rewrite IH at 1.
Qed.

Lemma rfind_slash_0 p : rfind_slash p = Some O → ∃ rest, p = slash :: rest.
Proof.
  destruct p as [|b p]; [done|]. cbn [rfind_slash]. destruct (rfind_slash p); [done|].
  destruct (Z.eqb_spec b slash) as [->|]; [|done]. eauto.
Qed.

(** The parent of a path is a prefix of it. *)
Lemma path_parent_prefix p q : path_parent q = Some p → ∃ rest, q = p ++ rest.
Proof.
  unfold path_parent. case_bool_decide; [done|]. destruct (trim_end_app q) as [rest Hq].
  destruct (rfind_slash (trim_end q)) as [[|pos]|] eqn:E; [| |done]; intros [= <-].
  - apply rfind_slash_0 in E as [tl E]. exists (tl ++ rest). rewrite E in Hq. exact Hq.
  - exists (drop (S pos) (trim_end q) ++ rest). by rewrite app_assoc, take_drop.
Qed.

Definition protected (s : Protection) (p : path) : Prop := existsb (λ q, starts_with q p) (PROTECTED_PATHS s) = true.

Lemma protected_parent s p q : protected s p → path_parent q = Some p → protected s q.
Proof.
  unfold protected. rewrite !existsb_exists. intros (pre & Hin & [r1 ->]%starts_with_app) [r2 ->]%path_parent_prefix.
  exists pre. split; [done|]. apply starts_with_app. exists (r1 ++ r2). by rewrite app_assoc.
Qed.

Lemma check_write_ok s p q : BYPASS_ACTIVE s = false → check_write q s = Ok tt → protected s p →
  q ≠ p ∧ path_parent q ≠ Some p.
Proof.
  unfold check_write. intros -> Hq Hp. assert (Hn : ¬ protected s q) by (unfold protected; by destruct (existsb _ _)).
  split; [by intros ->|]. intros Hpar. apply Hn. by eapply protected_parent.
Qed.

(** ** Protection *)

Definition fs_at (p : path) (fs : RamFs) : option Inode := path_map fs !! p ≫= λ k, inodes fs !! k.

(** Writing one file leaves every other path alone, its parent excepted. *)
Lemma put_file_frame n now q d fs m r fs' p : sim (n + 1) fs m → 0 ≤ n → put_file now q d fs = (r, fs') →
  (∃ m', sim n fs' m') ∧ (q ≠ p → path_parent q ≠ Some p → fs_at p fs' = fs_at p fs).
Proof.
  intros Hs Hn Hput. assert (Hlt : ∀ x k, path_map fs !! x = Some k → k < NEXT_INODE fs).
  { intros x k Hx. destruct (sim_some _ _ _ Hs x k Hx) as (i & _ & Hi & _). by apply (sim_fresh _ _ _ Hs k i). }
  unfold put_file, lookup_path in Hput. destruct (path_map fs !! q) as [kq|] eqn:Eq.
  - destruct (fs_apply_sim n (WriteFile now q d) fs m Hs Hn) as [_ H2]. simpl in H2. unfold lookup_path in H2. rewrite Eq in H2.
    rewrite Hput in H2. simpl in H2. split; [by eexists|]. intros Hne _. unfold RamFs.write in Hput.
    destruct (sim_some _ _ _ Hs q kq Eq) as (i & e & Hi & _). rewrite Hi in Hput. unfold fs_at.
    destruct (negb _); injection Hput as <- <-; [done|]. cbn [path_map inodes].
    destruct (path_map fs !! p) as [k|] eqn:Ep; [|done]. cbn. rewrite lookup_insert_ne; [done|].
    intros ->. by apply Hne, (sim_inj _ _ _ Hs q p k).
  - destruct (fs_apply_sim n (CreateFile now q d) fs m Hs Hn) as [_ H2]. simpl in H2. rewrite Hput in H2. simpl in H2.
    split; [by eexists|]. intros Hne Hpar. unfold create_file in Hput. rewrite Eq in Hput. injection Hput as <- <-.
    unfold fs_at. cbn [path_map inodes]. rewrite lookup_insert_ne by done.
    destruct (path_map fs !! p) as [k|] eqn:Ep; [|done]. cbn. rewrite lookup_insert_ne by (specialize (Hlt p k Ep); lia).
    destruct (sim_some _ _ _ Hs p k Ep) as (i & e & Hi & _). rewrite (up_inode _ _ _ _ _ _ _ _ Hs Ep Hi).
    by rewrite decide_False.
Qed.

Section Protected.
  Context {B : Type} `{Backends B}.

(** The calls a program has on files. *)
Inductive vfs_op :=
| Open (p : path)
| Close (fd : Z)
| Read (fd : Z) (n : nat)
| Write (now fd : Z) (data : list Z)
| CreateAndWrite (now : Z) (p : path) (data : list Z).

Definition vfs_apply (op : vfs_op) (s : Vfs B) : outcome (Vfs B) :=
  match op with
  | Open p => Returned (vfs_open p s).2
  | Close fd => Returned (vfs_close fd s).2
  | Read fd n => match vfs_read fd (replicate n 0) s with Returned (_, _, s') => Returned s' | Panicked => Panicked end
  | Write now fd data => Returned (vfs_write now fd data s).2
  | CreateAndWrite now p data => Returned (create_and_write now p data s).2
  end.
Fixpoint vfs_run (ops : list vfs_op) (s : Vfs B) : outcome (Vfs B) :=
  match ops with
  | [] => Returned s
  | op :: ops' => match vfs_apply op s with Returned s' => vfs_run ops' s' | Panicked => Panicked end
  end.

Definition inode_at (p : path) (s : Vfs B) : option Inode := VFS s ≫= fs_at p.

(** Either the file system is untouched, or one file was put at a path that
    may be written. *)
Lemma vfs_apply_effect op s s' : vfs_apply op s = Returned s' → protection s' = protection s
  ∧ (VFS s' = VFS s ∨ ∃ now q d fs r fs', VFS s = Some fs ∧ VFS s' = Some fs' ∧ put_file now q d fs = (r, fs')
                        ∧ check_write q (protection s) = Ok tt).
Proof.
  assert (Ho : ∀ i p (x : Vfs B), protection (open_fd i p x).2 = protection x ∧ VFS (open_fd i p x).2 = VFS x).
  { intros i p x. unfold open_fd. by destruct (FD_TABLE x). }
  assert (Hd : ∀ p (x : Vfs B), protection (mark_dirty p x) = protection x ∧ VFS (mark_dirty p x) = VFS x).
  { intros p x. unfold mark_dirty. by destruct (existsb _ _). }
  assert (Ha : ∀ fd n (x : Vfs B), protection (advance fd n x) = protection x ∧ VFS (advance fd n x) = VFS x).
  { intros fd n x. unfold advance. by destruct (FD_TABLE x). }
  destruct op as [p|fd|fd n|now fd data|now p data]; cbn [vfs_apply].
  - intros [= <-]. assert (Hopen : (vfs_open p s).2 = s ∨ ∃ i, (vfs_open p s).2 = (open_fd i p s).2)
      by (unfold vfs_open; repeat case_match; eauto).
    destruct Hopen as [->|[i ->]]; [by auto|]. destruct (Ho i p s) as [-> ->]. by auto.
  - intros [= <-]. unfold vfs_close. destruct (FD_TABLE s); [|by auto]. split; [done|by left].
  - unfold vfs_read. destruct (FD_TABLE s) as [t|]; [|intros [= <-]; auto]. destruct (fds t !! fd) as [d|]; [|intros [= <-]; auto].
    repeat match goal with |- context [if ?b then _ else _] => destruct b end; repeat case_match; intros; simplify_eq;
      rewrite ?(proj1 (Ha _ _ _)), ?(proj2 (Ha _ _ _)); auto.
  - intros [= <-]. unfold vfs_write. destruct (FD_TABLE s) as [t|]; [|auto]. destruct (fds t !! fd) as [d|]; [|auto].
    destruct (check_write (fd_path d) (protection s)) as [[]|] eqn:Hc; [|auto]. unfold written.
    repeat match goal with |- context [if ?b then _ else _] => destruct b end; try (by auto);
      try (repeat case_match; by auto).
    destruct (VFS s) as [fs|] eqn:Hfs; [|auto]. destruct (put_file now (fd_path d) data fs) as [[u|e] fs'] eqn:Hput;
      cbn [snd]; (split; [by rewrite ?(proj1 (Hd _ _))|right]); exists now, (fd_path d), data, fs; eexists; exists fs';
      rewrite ?(proj2 (Hd _ _)); done.
  - intros [= <-]. unfold create_and_write. destruct (check_write p (protection s)) as [[]|] eqn:Hc; [|auto].
    repeat match goal with |- context [if ?b then _ else _] => destruct b end; try (by auto); try (repeat case_match; by auto).
    destruct (VFS s) as [fs|] eqn:Hfs; [|auto]. destruct (put_file now p data fs) as [[u|e] fs'] eqn:Hput;
      cbn [snd]; (split; [by rewrite ?(proj1 (Hd _ _))|right]); exists now, p, data, fs; eexists; exists fs';
      rewrite ?(proj2 (Hd _ _)); done.
Qed.

Lemma vfs_run_protected ops : ∀ s s' fs m p, BYPASS_ACTIVE (protection s) = false → VFS s = Some fs →
  sim (Z.of_nat (length ops)) fs m → protected (protection s) p → vfs_run ops s = Returned s' → inode_at p s' = inode_at p s.
Proof.
  induction ops as [|op ops IH]; intros s s' fs m p Hb Hfs Hsim Hp; cbn [vfs_run]; [by intros [= <-]|].
  destruct (vfs_apply op s) as [s1|] eqn:H1; [|done]. intros Hrun.
  assert (Hlen : Z.of_nat (length (op :: ops)) = Z.of_nat (length ops) + 1) by (cbn [length]; lia). rewrite Hlen in Hsim.
  apply vfs_apply_effect in H1 as [Hpr [Hsame|(now & q & d & fs0 & r & fs1 & Hf0 & Hf1 & Hput & Hc)]].
  - etransitivity; [eapply (IH s1 s' fs m); try done; rewrite ?Hpr, ?Hsame; try done; eapply sim_less; [done|lia]|].
    unfold inode_at. by rewrite Hsame.
  - rewrite Hfs in Hf0. injection Hf0 as <-. destruct (put_file_frame _ _ _ _ _ _ _ _ p Hsim ltac:(lia) Hput) as [[m' Hm'] Hfr].
    destruct (check_write_ok _ p q Hb Hc Hp) as [N1 N2].
    etransitivity; [eapply (IH s1 s' fs1 m'); try done; by rewrite Hpr|]. unfold inode_at. rewrite Hf1, Hfs. cbn. by apply Hfr.
Qed.
End Protected.


(** ** Reading through a descriptor *)

Section Streams.
  Context {B : Type} `{Backends B}.

(** Reads of [ns] bytes, each into a fresh buffer. *)
Fixpoint read_all (fd : Z) (ns : list nat) (s : Vfs B) : outcome (result string (list (list Z)) * Vfs B) :=
  match ns with
  | [] => Returned (Ok [], s)
  | n :: ns' =>
      match vfs_read fd (replicate n 0) s with
      | Panicked => Panicked
      | Returned (Err e, _, s1) => Returned (Err e, s1)
      | Returned (Ok k, buf, s1) =>
          match read_all fd ns' s1 with
          | Returned (Ok pieces, s2) => Returned (Ok (take k buf :: pieces), s2)
          | o => o
          end
      end
  end.

(** A path served by the RAM file system. *)
Definition ram_path (p : path) : Prop :=
  is_dev_path p = false ∧ is_ntfs_path p = false ∧ is_fat_path p = false ∧ is_disk_path p = false.

Lemma ram_read i off n fs inode : inodes fs !! i = Some inode → inode_type inode = File →
  ∃ k buf, RamFs.read i off (replicate n 0) fs = (Ok k, buf)
  ∧ take k buf = take n (drop off (data inode)) ∧ k = length (take n (drop off (data inode))).
Proof.
  intros Hi Ht. unfold RamFs.read. rewrite Hi, bool_decide_eq_true_2 by done. cbn [negb].
  rewrite length_replicate, length_take, length_drop.
  destruct (Nat.leb_spec (length (data inode)) off) as [Hle|Hlt].
  - eexists _, _. split; [done|]. rewrite take_0, drop_ge, take_nil by lia. split; [done|lia].
  - eexists _, _. split; [done|]. set (k := min n (length (data inode) - off)).
    rewrite take_app_le, take_take, Nat.min_id by (rewrite length_take, length_drop; lia). split; [|done].
    unfold k. destruct (Nat.min_spec n (length (data inode) - off)) as [[? ->]|[? ->]]; [done|].
    rewrite !take_ge; rewrite ?length_drop; [done|lia..].
Qed.

Lemma take_pieces n m (l : list Z) : take n l ++ take m (drop (length (take n l)) l) = take (n + m) l.
Proof.
  rewrite length_take. destruct (decide (n ≤ length l)%nat); [rewrite Nat.min_l by lia; apply take_take_drop|].
  by rewrite Nat.min_r, drop_ge, take_nil, app_nil_r, !take_ge by lia.
Qed.

Lemma read_all_from ns : ∀ fd s fs t d inode, VFS s = Some fs → FD_TABLE s = Some t → fds t !! fd = Some d →
  inodes fs !! fd_inode d = Some inode → inode_type inode = File → fd_inode d < NTFS_BASE →
  ∃ pieces s', read_all fd ns s = Returned (Ok pieces, s')
  ∧ concat pieces = take (sum_list ns) (drop (fd_offset d) (data inode)) ∧ VFS s' = VFS s
  ∧ Forall2 (λ piece n, length piece ≤ n)%nat pieces ns.
Proof.
  induction ns as [|n ns IH]; intros fd s fs t d inode Hfs Ht Hd Hi Hk Hlow; cbn [read_all].
  { exists [], s. split_and!; [done|by rewrite take_0|done|constructor]. }
  unfold vfs_read. rewrite Ht, Hd. cbv zeta.
  assert (Hlt : (NTFS_BASE <=? fd_inode d) = false) by (apply Z.leb_gt; lia).
  assert (Hlt2 : (FAT_BASE <=? fd_inode d) = false) by (apply Z.leb_gt; unfold FAT_BASE, NTFS_BASE in *; lia).
  rewrite Hlt, Hlt2. cbn [andb]. rewrite Hfs.
  destruct (ram_read (fd_inode d) (fd_offset d) n fs inode Hi Hk) as (k & buf & -> & Hpiece & Hlen).
  set (d' := mkFd (fd_inode d) (fd_path d) (fd_offset d + k) (readable d) (writable d)).
  assert (Hadv : advance fd k s = set_fdt (fdt_advance fd k t) s) by (unfold advance; by rewrite Ht).
  destruct (IH fd (advance fd k s) fs (fdt_advance fd k t) d' inode) as (pieces & s' & HR & Hc & Hv & Hl); try done.
  { by rewrite Hadv. }
  { by rewrite Hadv. }
  { cbn. by rewrite lookup_alter_eq, Hd. }
  rewrite HR. exists (take k buf :: pieces), s'. split_and!; [done| | |].
  - cbn [concat sum_list]. rewrite Hpiece, Hc. cbn [fd_offset d']. rewrite <- drop_drop, Hlen. apply take_pieces.
  - rewrite Hv, Hadv. done.
  - constructor; [|done]. rewrite Hpiece, length_take. lia.
Qed.
End Streams.

(** Reading a file through a descriptor walks through it: after opening a
    file of the RAM file system, any sequence of reads succeeds without a
    panic, each returns at most what was asked for, and together they return
    the corresponding prefix of the contents; nothing is modified. *)
Theorem vfs_sequential_read {B : Type} `{Backends B} (s : Vfs B) fs t p i inode ns :
  ram_path p → VFS s = Some fs → FD_TABLE s = Some t → lookup_path p fs = Some i →
  inodes fs !! i = Some inode → inode_type inode = File → i < NTFS_BASE →
  ∃ fd s1 pieces s2, vfs_open p s = (Ok fd, s1) ∧ read_all fd ns s1 = Returned (Ok pieces, s2)
  ∧ concat pieces = take (sum_list ns) (data inode) ∧ Forall2 (λ piece n, length piece ≤ n)%nat pieces ns ∧ VFS s2 = VFS s.
Proof.
  intros (H1 & H2 & H3 & H4) Hfs Ht Hl Hi Hk Hlow. unfold vfs_open. rewrite H1, H2, H3, H4, Hfs, Hl. unfold open_fd. rewrite Ht.
  cbn [fdt_open]. eexists _, _.
  destruct (read_all_from ns (next_fd t) (set_fdt (fdt_open i p t).2 s) fs (fdt_open i p t).2 (mkFd i p 0 true true) inode)
    as (pieces & s2 & HR & Hc & Hv & Hf); try done; [cbn; by rewrite lookup_insert_eq|].
  exists pieces, s2. split_and!; [done|exact HR|by rewrite Hc|done|by rewrite Hv].
Qed.

(** A successful [create_and_write] can be read back. *)
Lemma create_and_write_read {B : Type} `{Backends B} now (s s' : Vfs B) p d :
  is_fat_path p = false → is_disk_path p = false → ext4_handles p (backend s) = false → Z.of_nat (length d) < 2 ^ 64 →
  create_and_write now p d s = (Ok tt, s') →
  read_file_full p s' = Ok d ∧ p ∈ DIRTY_FILES s'.
Proof.
  intros Hf Hd He Hlen. unfold create_and_write. destruct (check_write p (protection s)); [|done]. rewrite Hf, Hd.
  destruct (VFS s) as [fs|]; [|done]. destruct (put_file now p d fs) as [[u|e] fs'] eqn:Hput; [|done]. intros [= <-].
  assert (Hdirty : ∀ x : Vfs B, VFS (mark_dirty p x) = VFS x ∧ backend (mark_dirty p x) = backend x ∧ p ∈ DIRTY_FILES (mark_dirty p x)).
  { intros x. unfold mark_dirty. destruct (existsb _ _) eqn:E; cbn.
    - apply existsb_exists in E as (q & Hq & ->%bool_decide_eq_true). split_and!; try done. by apply list_elem_of_In.
    - split_and!; try done. apply elem_of_app. right. by apply list_elem_of_singleton. }
  destruct (Hdirty (set_fs fs' s)) as (E1 & E2 & E3). split; [|done].
  assert (Hat : ∃ k i, path_map fs' !! p = Some k ∧ inodes fs' !! k = Some i ∧ inode_type i = File ∧ data i = d
                       ∧ size i = wrap 64 (Z.of_nat (length d))).
  { unfold put_file, lookup_path in Hput. destruct (path_map fs !! p) as [k|] eqn:Ek.
    - unfold RamFs.write in Hput. destruct (inodes fs !! k) as [i|]; [|done]. destruct (bool_decide _) eqn:Et; [|done].
      cbn [negb] in Hput. injection Hput as <- <-. exists k. eexists. cbn. rewrite lookup_insert_eq. split_and!; try done.
      by apply bool_decide_eq_true in Et.
    - unfold create_file in Hput. rewrite Ek in Hput. injection Hput as <- <-. exists (NEXT_INODE fs). eexists. cbn.
      by rewrite !lookup_insert_eq. }
  destruct Hat as (k & i & Hk & Hi & Ht & Hdata & Hsize). unfold read_file_full.
  rewrite Hf, Hd, E1, E2. cbn [VFS set_fs backend]. rewrite He. unfold lookup_path. rewrite Hk. unfold stat. rewrite Hk, Hi.
  assert (Hsz : stat_size (to_smartpack i) = length d).
  { change (stat_size (to_smartpack i)) with (Z.to_nat (size i)). rewrite Hsize, wrap_id by (split; lia). lia. }
  rewrite Hsz. unfold RamFs.read. rewrite Hi, bool_decide_eq_true_2, Hdata by done. cbn [negb]. rewrite length_replicate.
  destruct (Nat.leb_spec (length d) 0) as [H0|H0].
  - destruct d; [done|simpl in H0; lia].
  - rewrite Nat.min_l by lia. by rewrite drop_0, firstn_all, drop_ge, app_nil_r by (rewrite length_replicate; lia).
Qed.

(** What is written can be read: a successful [create_and_write] of a
    path of the RAM file system, new or existing, makes [read_file_full]
    return exactly those bytes, and marks the path for synchronisation. *)
Theorem vfs_write_read {B : Type} `{Backends B} now (s s' : Vfs B) p d :
  is_fat_path p = false → is_disk_path p = false → ext4_handles p (backend s) = false → Z.of_nat (length d) < 2 ^ 64 →
  create_and_write now p d s = (Ok tt, s') →
  read_file_full p s' = Ok d ∧ p ∈ DIRTY_FILES s'.
Proof. apply create_and_write_read. Qed.

(** ** Instances *)

(** A machine whose only other backend is a disk with one file. *)
#[export] Instance demo_backends : Backends unit := {|
  ntfs_available _ := false;
  ntfs_read _ _ := Err "NTFS not mounted"%string;
  fat_available _ := false;
  fat_read _ _ := Err "FAT32 not mounted"%string;
  fat_write _ _ b := (Err "FAT32 not mounted"%string, b);
  fat_list _ _ := Err "FAT32 not mounted"%string;
  disk_mounted _ := true;
  disk_list _ := [text "a"];
  disk_read p _ := if bool_decide (p = text "a") then Ok [1; 2; 3] else Err "File not found"%string;
  disk_write _ _ b := (Ok tt, b);
  ext4_handles _ _ := false;
  ext4_readdir _ _ := None;
  ext4_stat _ _ := None;
  ext4_read _ _ := None;
  device_write _ _ b := (Ok tt, b);
|}.

Definition demo_fs : RamFs :=
  (fs_run [Mkdir 0 (text "/"); Mkdir 0 (text "/system"); CreateFile 0 (text "/system/version") [48; 46; 56];
           CreateFile 0 (text "/note") [104; 101; 108; 108; 111]] new_fs).2.
Definition demo_vfs : Vfs unit :=
  mkVfs (Some demo_fs) (Some fdt_new) [] (protection_init (mkProtection [] false)) tt.

Lemma demo_sim n : 0 ≤ n < 1000 → ∃ m, sim n demo_fs m.
Proof.
  intros Hn. assert (H0 : sim (n + 1 + 1 + 1 + 1) new_fs ∅) by (split; simpl; try done; lia).
  unfold demo_fs. cbn [fs_run].
  destruct (fs_apply_sim (n + 1 + 1 + 1) (Mkdir 0 (text "/")) _ _ H0 ltac:(lia)) as [_ H1].
  destruct (fs_apply (Mkdir 0 (text "/")) new_fs) as [r1 f1].
  destruct (fs_apply_sim (n + 1 + 1) (Mkdir 0 (text "/system")) _ _ H1 ltac:(lia)) as [_ H2]. cbn [snd] in H2.
  destruct (fs_apply (Mkdir 0 (text "/system")) f1) as [r2 f2].
  destruct (fs_apply_sim (n + 1) (CreateFile 0 (text "/system/version") [48; 46; 56]) _ _ H2 ltac:(lia)) as [_ H3]. cbn [snd] in H3.
  destruct (fs_apply (CreateFile 0 (text "/system/version") [48; 46; 56]) f2) as [r3 f3].
  destruct (fs_apply_sim n (CreateFile 0 (text "/note") [104; 101; 108; 108; 111]) _ _ H3 ltac:(lia)) as [_ H4]. cbn [snd] in H4.
  destruct (fs_apply (CreateFile 0 (text "/note") [104; 101; 108; 108; 111]) f3) as [r4 f4]. eexists. exact H4.
Qed.

Definition demo_writes : list vfs_op :=
  [Open (text "/system/version"); Write 1 3 [0]; CreateAndWrite 2 (text "/system/x") [1]; CreateAndWrite 2 (text "/note") [9]].


Definition note_inode : Inode := mkInode 4 (text "note") File [104; 101; 108; 108; 111] [] 5 0 0.
Lemma vfs_sequential_read_witness :
  ∃ fd s1 pieces s2, vfs_open (text "/note") demo_vfs = (Ok fd, s1) ∧ read_all fd [2; 2; 9]%nat s1 = Returned (Ok pieces, s2)
  ∧ concat pieces = take (sum_list [2; 2; 9]%nat) (data note_inode)
  ∧ Forall2 (λ piece n, length piece ≤ n)%nat pieces [2; 2; 9]%nat ∧ VFS s2 = VFS demo_vfs.
Proof.
  apply (vfs_sequential_read demo_vfs demo_fs fdt_new (text "/note") 4 note_inode [2; 2; 9]%nat);
    [repeat split|reflexivity..].
Defined.

Lemma vfs_write_read_witness :
  match create_and_write 5 (text "/note") [7; 8] demo_vfs with
  | (Ok _, s') => read_file_full (text "/note") s' = Ok [7; 8] ∧ text "/note" ∈ DIRTY_FILES s'
  | (Err _, _) => False
  end.
Proof.
  destruct (create_and_write 5 (text "/note") [7; 8] demo_vfs) as [[[]|e] s'] eqn:E; [|vm_compute in E; discriminate].
  exact (vfs_write_read 5 demo_vfs s' (text "/note") [7; 8] eq_refl eq_refl eq_refl eq_refl E).
Defined.

(** ** Findings *)

(** Deleting and creating directories are not checked. *)
Lemma delete_not_protected :
  let s' := (vfs_delete_file (text "/system/version") demo_vfs).2 in
  protected (protection demo_vfs) (text "/system/version")
  ∧ inode_at (text "/system/version") demo_vfs ≠ None ∧ inode_at (text "/system/version") s' = None.
Proof. vm_compute. split_and!; [reflexivity|discriminate|reflexivity]. Qed.

(** A disk file opened by path is read as an NTFS file: the disk's branch of
    [read] is unreachable, for no inode number reaches it. *)
Lemma disk_branch_dead i : (NTFS_BASE <=? i) && (i <? FAT_BASE) = false → (FAT_BASE <=? i) = false → (NTFS_BASE <=? i) = false.
Proof. unfold NTFS_BASE, FAT_BASE. rewrite andb_false_iff, !Z.leb_gt, Z.ltb_ge. lia. Qed.
Lemma disk_read_fails :
  (let '(r, s1) := vfs_open (text "/disk/a") demo_vfs in
   match r, vfs_read 3 [0; 0] s1 with
   | Ok _, Returned (Err e, _, _) => Some e
   | _, _ => None
   end) = Some "NTFS not mounted"%string ∧ read_file_full (text "/disk/a") demo_vfs = Ok [1; 2; 3].
Proof. vm_compute. split; reflexivity. Qed.

(** Two guards: dropping the inner one ends the bypass of the outer one. *)
Lemma nested_bypass_lost s : BYPASS_ACTIVE (drop_bypass (bypass_for_update (bypass_for_update s))) = false.
Proof. reflexivity. Qed.
