(* ===== verification/SmartPkg.v ===== *)
(** SmartPkg packages ([smartpack/src/pkg.rs]) and the package manager's
    registry and installation from a server ([kernel/src/apps/pkgmgr.rs]).

    A package is a SmartPack value; its encoder and decoder are the composition
    of the modelled codec with the layout of the maps.  The download (name
    resolution, connection and receive loop) enters [fetch_and_install] as its
    result, the bytes received or an error; the DHT lookup and the built-in
    program that [fetch_from_dht] writes are arguments.  Messages on the console
    and the IPC listener are left out. *)

From S2P Require Import Prelude SmartPackFormat SmartPack SmartPackProofs SmartPackTheorems RamFs Vfs.
Import Format Value.

Record SmartPkg := mkPkg {
  pkg_name : list Z;
  pkg_version : list Z;
  pkg_description : list Z;
  pkg_capabilities : list (list Z);
  binary_payload : list Z;
  signature : list Z;
}.

Definition pkg_new (name version description binary : list Z) : SmartPkg := mkPkg name version description [] binary [].

Definition pkg_manifest (p : SmartPkg) : Value.t :=
  Map [(String (text "name"), String (pkg_name p)); (String (text "version"), String (pkg_version p));
       (String (text "description"), String (pkg_description p));
       (String (text "capabilities"), Array (map String (pkg_capabilities p)))].

Definition pkg_root (p : SmartPkg) : Value.t :=
  Map [(String (text "manifest"), pkg_manifest p); (String (text "payload"), Binary (binary_payload p));
       (String (text "signature"), Binary (signature p))].

Definition pkg_encode (p : SmartPkg) : result Encode.EncodeError (list Z) := Encode.encode (pkg_root p).

(** [map.iter().find(|(k, _)| k.as_str() == Some(key)).map(|(_, v)| v)] *)
Definition field (key : string) (m : list (Value.t * Value.t)) : option Value.t :=
  snd <$> List.find (λ '(k, _), bool_decide (as_str k = Some (text key))) m.

Definition str_field (key : string) (m : list (Value.t * Value.t)) : option (list Z) := field key m ≫= as_str.

(** [filter_map] over [as_str]. *)
Definition strings_of (l : list Value.t) : list (list Z) := omap as_str l.

Definition ok_or {A} (o : option A) (e : string) : result string A := match o with Some a => Ok a | None => Err e end.
Definition rbind {A C} (r : result string A) (f : A → result string C) : result string C :=
  match r with Ok a => f a | Err e => Err e end.

Definition pkg_decode (bs : list Z) : result string SmartPkg :=
  match Decode.decode bs with
  | Err _ => Err "Failed to decode SmartPack"%string
  | Ok root =>
      rbind (ok_or (as_map root) "Root is not a map") (λ m,
      rbind (ok_or (field "manifest" m) "Missing manifest") (λ manifest_val,
      rbind (ok_or (field "payload" m) "Missing payload") (λ payload_val,
      rbind (ok_or (field "signature" m) "Missing signature") (λ signature_val,
      rbind (ok_or (as_map manifest_val) "Manifest is not a map") (λ mm,
      rbind (ok_or (str_field "name" mm) "Missing name") (λ name,
      rbind (ok_or (str_field "version" mm) "Missing version") (λ version,
      rbind (ok_or (str_field "description" mm) "Missing description") (λ description,
      let capabilities := match field "capabilities" mm ≫= as_array with Some l => strings_of l | None => [] end in
      rbind (ok_or (as_bytes payload_val) "Payload is not binary") (λ payload,
      rbind (ok_or (as_bytes signature_val) "Signature is not binary") (λ sig,
      Ok (mkPkg name version description capabilities payload sig)))))))))))
  end.

(** ** The package manager *)

Record PackageManifest := mkManifest {
  m_name : list Z;
  m_version : list Z;
  m_description : list Z;
  m_files : list (list Z);
  m_installed : bool;
}.
Notation Registry := (gmap (list Z) PackageManifest).

Definition set_installed (b : bool) (m : PackageManifest) : PackageManifest :=
  mkManifest (m_name m) (m_version m) (m_description m) (m_files m) b.

Definition crlf2 : list Z := [13; 10; 13; 10].

(** [windows(4).position(|w| w == b"\r\n\r\n")] *)
Fixpoint header_end (l : list Z) : option nat :=
  if bool_decide (take 4 l = crlf2) then Some O
  else match l with [] => None | _ :: l' => S <$> header_end l' end.

Definition bin_path (name : list Z) : path := text "/bin/" ++ name.

Section Manager.
Context {B : Type} `{Backends B}.

(** The file is written, then the registry updated. *)
Definition install_file (now : Z) (name version description payload : list Z) (s : Vfs B) (reg : Registry)
  : result string (list Z) * Vfs B * Registry :=
  match create_and_write now (bin_path name) payload s with
  | (Err e, s') => (Err e, s', reg)
  | (Ok _, s') => (Ok (bin_path name), s', <[name := mkManifest name version description [bin_path name] true]> reg)
  end.

Definition fetch_and_install (now : Z) (name : list Z) (download : result string (list Z)) (s : Vfs B) (reg : Registry)
  : result string (list Z) * Vfs B * Registry :=
  match download with
  | Err e => (Err e, s, reg)
  | Ok resp_data =>
      if bool_decide (resp_data = []) then (Err "Empty response from package server"%string, s, reg)
      else match header_end resp_data with
      | None => (Err "Invalid HTTP response"%string, s, reg)
      | Some h =>
          match pkg_decode (drop (h + 4) resp_data) with
          | Err _ => (Err "Failed to decode SmartPkg (.spk)"%string, s, reg)
          | Ok spk =>
              match install_file now (pkg_name spk) (pkg_version spk) (pkg_description spk) (binary_payload spk) s reg with
              | (Err e, s', reg') => (Err e, s', reg')
              | (Ok _, s', reg') => (Ok (text "Successfully downloaded and installed " ++ name), s', reg')
              end
          end
      end
  end.

Definition fetch_from_dht (now : Z) (hash : list Z) (peer : option (list Z)) (dummy_elf : list Z) (s : Vfs B) (reg : Registry)
  : result string (list Z) * Vfs B * Registry :=
  match peer with
  | None => (Err "Content hash not found on DHT network"%string, s, reg)
  | Some _ =>
      match install_file now hash (text "1.0.0") (text "P2P Decentralized Package") dummy_elf s reg with
      | (Err e, s', reg') => (Err e, s', reg')
      | (Ok _, s', reg') => (Ok (text "Successfully downloaded and installed " ++ hash), s', reg')
      end
  end.

Definition ipfs : list Z := text "ipfs://".

(** [trim_start_matches] removes every leading copy. *)
Fixpoint trim_start (fuel : nat) (pre l : list Z) : list Z :=
  match fuel with
  | O => l
  | S fuel' => if starts_with pre l then trim_start fuel' pre (drop (length pre) l) else l
  end.

Definition install (now : Z) (name : list Z) (download : result string (list Z)) (peer : option (list Z)) (dummy_elf : list Z)
    (s : Vfs B) (reg : Registry) : result string (list Z) * Vfs B * Registry :=
  match reg !! name with
  | Some pkg =>
      if m_installed pkg then (Ok (name ++ text " is already installed"), s, reg)
      else (Ok (text "Installed " ++ m_name pkg ++ text " v" ++ m_version pkg), s, <[name := set_installed true pkg]> reg)
  | None =>
      if starts_with ipfs name then fetch_from_dht now (trim_start (length name) ipfs name) peer dummy_elf s reg
      else fetch_and_install now name download s reg
  end.

Definition remove (name : list Z) (reg : Registry) : result string (list Z) * Registry :=
  match reg !! name with
  | None => (Err "Package not found"%string, reg)
  | Some pkg =>
      if negb (m_installed pkg) then (Ok (name ++ text " is not installed"), reg)
      else (Ok (text "Removed " ++ name), <[name := set_installed false pkg]> reg)
  end.

End Manager.

(** ** Round trip *)

(** A Rust string that fits the length field, and a blob that does. *)
Definition text_ok (s : list Z) : Prop := bytes_ok s ∧ utf8_valid s = true ∧ Z.of_nat (length s) < 2 ^ 32.
Definition blob_ok (b : list Z) : Prop := bytes_ok b ∧ Z.of_nat (length b) < 2 ^ 32.

Record pkg_ok (p : SmartPkg) : Prop := {
  ok_name : text_ok (pkg_name p);
  ok_version : text_ok (pkg_version p);
  ok_description : text_ok (pkg_description p);
  ok_capabilities : Forall text_ok (pkg_capabilities p);
  ok_count : Z.of_nat (length (pkg_capabilities p)) < 2 ^ 32;
  ok_payload : blob_ok (binary_payload p);
  ok_signature : blob_ok (signature p);
}.

Lemma fits_lt n : Z.of_nat n < 2 ^ 32 → fits_u32 n = true.
Proof. intros ?. apply Z.leb_le. lia. Qed.

Lemma text_value s : text_ok s → well_formed (String s) = true ∧ encodable (String s) = true.
Proof. intros (Hb & Hu & Hl). cbn. by rewrite bool_decide_eq_true_2, Hu, fits_lt. Qed.

Lemma blob_value b : blob_ok b → well_formed (Binary b) = true ∧ encodable (Binary b) = true.
Proof. intros (Hb & Hl). cbn. by rewrite bool_decide_eq_true_2, fits_lt. Qed.

Lemma forallb_strings (f : Value.t → bool) l : (∀ s, s ∈ l → f (String s) = true) → forallb f (map String l) = true.
Proof. intros Hf. apply forallb_forall. intros v (s & <- & Hs)%in_map_iff. apply Hf. by apply list_elem_of_In. Qed.

Lemma pkg_root_ok p : pkg_ok p →
  well_formed (pkg_root p) = true ∧ encodable (pkg_root p) = true ∧ no_extension (pkg_root p) = true
  ∧ (nesting (pkg_root p) ≤ 3)%nat ∧ norm (pkg_root p) = pkg_root p.
Proof.
  intros []. destruct (text_value _ ok_name0) as [W1 E1], (text_value _ ok_version0) as [W2 E2],
    (text_value _ ok_description0) as [W3 E3], (blob_value _ ok_payload0) as [W4 E4], (blob_value _ ok_signature0) as [W5 E5].
  rewrite Forall_forall in ok_capabilities0.
  assert (WA : forallb well_formed (map String (pkg_capabilities p)) = true)
    by (apply forallb_strings; intros s Hs; by apply text_value, ok_capabilities0).
  assert (EA : forallb encodable (map String (pkg_capabilities p)) = true)
    by (apply forallb_strings; intros s Hs; by apply text_value, ok_capabilities0).
  assert (XA : forallb no_extension (map String (pkg_capabilities p)) = true) by (apply forallb_strings; done).
  assert (NA : foldr (λ v n, Nat.max (nesting v) n) 0%nat (map String (pkg_capabilities p)) = 0%nat)
    by (clear; induction (pkg_capabilities p) as [|s l IH]; [done|]; cbn [map foldr nesting]; by rewrite IH).
  assert (MA : map norm (map String (pkg_capabilities p)) = map String (pkg_capabilities p))
    by (rewrite map_map; by apply map_ext).
  unfold pkg_root, pkg_manifest.
  cbn [well_formed encodable no_extension nesting norm forallb foldr map fst snd] in *.
  rewrite W1, W2, W3, W4, W5, E1, E2, E3, E4, E5, WA, EA, XA, NA, MA, length_map, (fits_lt _ ok_count0). split_and!; done.
Qed.

Lemma strings_of_map l : strings_of (map String l) = l.
Proof. unfold strings_of. induction l as [|s l IH]; [done|]. cbn. by f_equal. Qed.

(** The decoder on the bytes of a package. *)
Lemma pkg_decode_wire p : pkg_ok p → pkg_encode p = Ok (wire (pkg_root p)) ∧ pkg_decode (wire (pkg_root p)) = Ok p.
Proof.
  intros Hp. destruct (pkg_root_ok p Hp) as (W & E & X & N & M). split; [by apply EncodeProofs.encode_wire|].
  unfold pkg_decode. rewrite decode_wire, (proj2 (Nat.leb_le _ _)), M by (done || unfold Decode.MAX_DEPTH; lia).
  destruct p as [n v d c b s]. change (rbind (Ok (map String c)) (λ l, Ok (mkPkg n v d (strings_of l) b s)) = Ok (mkPkg n v d c b s)).
  cbn. by rewrite strings_of_map.
Qed.

(** A package survives its trip: every package whose texts are UTF-8 and
    whose parts fit the length fields encodes, and decoding the bytes gives
    back the same package. *)
Theorem smartpkg_roundtrip p : pkg_ok p → ∃ bs, pkg_encode p = Ok bs ∧ pkg_decode bs = Ok p.
Proof. intros Hp. destruct (pkg_decode_wire p Hp). eauto. Qed.

Definition demo_pkg : SmartPkg :=
  mkPkg (text "hello") (text "1.2") (text "says hello") [text "net"; text "fs"] [127; 69; 76; 70] [1; 2].

Lemma demo_pkg_ok : pkg_ok demo_pkg.
Proof.
  split; repeat (apply Forall_cons; split); try apply Forall_nil; repeat split; try (vm_compute; reflexivity);
    apply (bool_decide_unpack _); vm_compute; exact I.
Qed.

Lemma smartpkg_roundtrip_witness : ∃ bs, pkg_encode demo_pkg = Ok bs ∧ pkg_decode bs = Ok demo_pkg.
Proof. apply (smartpkg_roundtrip demo_pkg). exact demo_pkg_ok. Defined.

(** ** Installation *)

Lemma header_end_app l rest k : header_end l = Some k → (k + 4 ≤ length l)%nat → header_end (l ++ rest) = Some k.
Proof.
  revert k. induction l as [|a l IH]; intros k Hk Hlen; [simpl in Hlen; lia|].
  cbn [header_end app] in *. case_bool_decide as E.
  - injection Hk as <-. rewrite bool_decide_eq_true_2; [done|]. change (a :: l ++ rest) with ((a :: l) ++ rest).
    rewrite take_app_le by (simpl in *; lia). done.
  - destruct (header_end l) as [k'|] eqn:E'; [|done]. injection Hk as <-. cbn [length] in Hlen.
    rewrite bool_decide_eq_false_2; [by rewrite (IH k' eq_refl) by lia|]. intros E2. apply E.
    change (a :: l ++ rest) with ((a :: l) ++ rest) in E2. rewrite take_app_le in E2 by (simpl; lia). done.
Qed.

Lemma bin_path_plain name : is_fat_path (bin_path name) = false ∧ is_disk_path (bin_path name) = false.
Proof.
  unfold is_fat_path, is_disk_path, bin_path, starts_with. split; apply orb_false_iff; split; apply bool_decide_eq_false; intros [=].
Qed.

(** A download is installed as sent: when the answer of the server is a
    header, the empty line and an encoded package, and the file system takes
    the file, the package's file then reads as its payload and the registry
    lists the package as installed with that file. *)
Theorem pkg_fetch_installs {B : Type} `{Backends B} now name head p bs (s s' : Vfs B) reg :
  pkg_ok p → pkg_encode p = Ok bs → header_end (head ++ crlf2) = Some (length head) →
  ext4_handles (bin_path (pkg_name p)) (backend s) = false →
  create_and_write now (bin_path (pkg_name p)) (binary_payload p) s = (Ok tt, s') →
  ∃ msg reg', fetch_and_install now name (Ok (head ++ crlf2 ++ bs)) s reg = (Ok msg, s', reg')
  ∧ read_file_full (bin_path (pkg_name p)) s' = Ok (binary_payload p)
  ∧ reg' !! pkg_name p = Some (mkManifest (pkg_name p) (pkg_version p) (pkg_description p) [bin_path (pkg_name p)] true)
  ∧ ∀ n, n ≠ pkg_name p → reg' !! n = reg !! n.
Proof.
  intros Hp Henc Hhead He Hw. destruct (pkg_decode_wire p Hp) as [Henc' Hdec].
  assert (Hbs : bs = wire (pkg_root p)) by congruence. subst bs. clear Henc'.
  unfold fetch_and_install. rewrite bool_decide_eq_false_2 by (intros E; apply app_nil in E as [_ E]; discriminate E).
  rewrite app_assoc, (header_end_app _ _ _ Hhead) by (rewrite length_app; simpl; lia).
  rewrite drop_app_length' by (by rewrite length_app). rewrite Hdec. unfold install_file. rewrite Hw.
  eexists _, _. split; [done|]. destruct (bin_path_plain (pkg_name p)) as [Hf Hd].
  destruct (ok_payload _ Hp) as [_ Hlen].
  split; [|split; [by rewrite lookup_insert_eq|intros n Hn; by rewrite lookup_insert_ne]].
  refine (proj1 (create_and_write_read now s s' _ _ Hf Hd He _ Hw)). lia.
Qed.

Definition demo_head : list Z := text "HTTP/1.0 200 OK".
Definition demo_bin_vfs : Vfs unit :=
  mkVfs (Some (fs_run [Mkdir 0 (text "/"); Mkdir 0 (text "/bin")] new_fs).2) (Some fdt_new) [] (mkProtection [] false) tt.

Lemma pkg_fetch_installs_witness :
  match pkg_encode demo_pkg, create_and_write 7 (bin_path (text "hello")) [127; 69; 76; 70] demo_bin_vfs with
  | Ok bs, (Ok _, s') =>
      ∃ msg reg', fetch_and_install 7 (text "hello") (Ok (demo_head ++ crlf2 ++ bs)) demo_bin_vfs ∅ = (Ok msg, s', reg')
      ∧ read_file_full (bin_path (text "hello")) s' = Ok [127; 69; 76; 70]
      ∧ reg' !! text "hello" = Some (mkManifest (text "hello") (text "1.2") (text "says hello") [bin_path (text "hello")] true)
      ∧ ∀ n, n ≠ text "hello" → reg' !! n = None
  | _, _ => False
  end.
Proof.
  destruct (pkg_encode demo_pkg) as [bs|] eqn:E; [|vm_compute in E; discriminate].
  destruct (create_and_write 7 (bin_path (text "hello")) [127; 69; 76; 70] demo_bin_vfs) as [[[]|] s'] eqn:Hw;
    [|vm_compute in Hw; discriminate].
  exact (pkg_fetch_installs 7 (text "hello") demo_head demo_pkg bs demo_bin_vfs s' ∅ demo_pkg_ok E eq_refl eq_refl Hw).
Defined.

(** ** Where the code falls short *)

(** [/bin/] is write protected at boot and the package manager never takes the
    bypass: no download and no DHT package is ever installed. *)
Lemma install_denied {B : Type} `{Backends B} now name version description payload (s : Vfs B) reg :
  BYPASS_ACTIVE (protection s) = false → protected (protection s) (text "/bin/") →
  install_file now name version description payload s reg = (Err "Write to immutable system path denied"%string, s, reg).
Proof.
  intros Hb Hp. unfold install_file, create_and_write, check_write. rewrite Hb.
  assert (Hx : existsb (λ q, starts_with q (bin_path name)) (PROTECTED_PATHS (protection s)) = true); [|by rewrite Hx].
  unfold protected in Hp. apply existsb_exists in Hp as (q & Hq & Hs). apply existsb_exists. exists q. split; [done|].
  apply starts_with_app in Hs as [rest Hs]. apply starts_with_app. exists (rest ++ name). unfold bin_path. by rewrite Hs, <- app_assoc.
Qed.

Lemma fetch_never_installs {B : Type} `{Backends B} now name download (s : Vfs B) reg :
  BYPASS_ACTIVE (protection s) = false → protected (protection s) (text "/bin/") →
  ∃ e, fetch_and_install now name download s reg = (Err e, s, reg).
Proof.
  intros Hb Hp. unfold fetch_and_install. destruct download as [resp|e]; [|eauto]. case_bool_decide; [eauto|].
  destruct (header_end resp); [|eauto]. destruct (pkg_decode _); [|eauto]. rewrite install_denied by done. eauto.
Qed.

Example boot_protects_bin ps : protected (protection_init (mkProtection ps false)) (text "/bin/").
Proof.
  unfold protected, protection_init. cbn [PROTECTED_PATHS]. rewrite existsb_app. apply orb_true_iff. right. vm_compute. reflexivity.
Qed.

(** A removed package that is installed again gets no file: only its mark
    changes. *)
Lemma reinstall_marks_only {B : Type} `{Backends B} now name download peer elf (s : Vfs B) reg pkg :
  reg !! name = Some pkg → (install now name download peer elf s reg).1.2 = s.
Proof. intros Hr. unfold install. rewrite Hr. by destruct (m_installed pkg). Qed.
