(* ===== verification/Partition.v ===== *)
(** A/B system partitions: [kernel/src/immutable/partition.rs].

    [partition_info] (a status value for the terminal) and console output are not
    modelled.  [apply_delta] computes a target sector that it does not use; the
    disk write is a comment in the source, so nothing is written here either. *)

From S2P Require Import Prelude.

Inductive PartitionState := Active | Standby | Invalid | Updating.

#[export] Instance PartitionState_eq : EqDecision PartitionState.
Proof. solve_decision. Defined.

Record SystemPartition := mkPart {
  id : Z;
  version : string;
  state : PartitionState;
  sector_start : Z;
  sector_count : Z;
  boot_count : Z;
  checksum : Z;
}.

(** [partitions: [SystemPartition; 2]] and [active_idx], 0 or 1. *)
Record PartitionManager := mkManager { part_a : SystemPartition; part_b : SystemPartition; active_idx : Z }.

Definition new_manager : PartitionManager :=
  mkManager (mkPart 0 "0.7.0" Active 0 4096 1 0) (mkPart 1 "0.7.0" Standby 4096 4096 0 0) 0.

(** [partitions[idx]]; an index above 1 panics, see [active_in_range]. *)
Definition part (idx : Z) (m : PartitionManager) : SystemPartition := if idx =? 0 then part_a m else part_b m.
Definition set_part (idx : Z) (p : SystemPartition) (m : PartitionManager) : PartitionManager :=
  if idx =? 0 then mkManager p (part_b m) (active_idx m) else mkManager (part_a m) p (active_idx m).

Definition active (m : PartitionManager) : SystemPartition := part (active_idx m) m.
Definition standby (m : PartitionManager) : SystemPartition := part (1 - active_idx m) m.

Definition with_state (st : PartitionState) (p : SystemPartition) : SystemPartition :=
  mkPart (id p) (version p) st (sector_start p) (sector_count p) (boot_count p) (checksum p).

Definition begin_update (m : PartitionManager) : result string unit * PartitionManager :=
  let idx := 1 - active_idx m in
  if bool_decide (state (part idx m) = Updating) then (Err "Standby partition already being updated"%string, m)
  else (Ok tt, set_part idx (with_state Updating (part idx m)) m).

(** The parsing loop over what is left of the delta: [None] for a truncated
    entry, otherwise the number of patches.  Each round takes 12 bytes or more. *)
Fixpoint delta_loop (fuel : nat) (delta : list Z) (patches : Z) : option Z :=
  match fuel with
  | O => Some patches
  | S fuel' =>
      if (length delta <? 12)%nat then Some patches
      else
        let data_len := Z.to_nat (from_le_bytes (take 4 (drop 8 delta))) in
        if (length (drop 12 delta) <? data_len)%nat then None
        else delta_loop fuel' (drop data_len (drop 12 delta)) (wrap 32 (patches + 1))
  end.

Definition apply_delta (delta : list Z) (m : PartitionManager) : result string unit * PartitionManager :=
  let idx := 1 - active_idx m in
  if negb (bool_decide (state (part idx m) = Updating)) then (Err "Standby partition not in update state"%string, m)
  else match delta_loop (length delta) delta 0 with
       | None => (Err "Delta data truncated"%string, m)
       | Some _ => (Ok tt, set_part idx (with_state Standby (part idx m)) m)
       end.

Definition swap_active (m : PartitionManager) : result string unit * PartitionManager :=
  let new_active := 1 - active_idx m in
  if bool_decide (state (part new_active m) = Invalid) then (Err "Cannot activate invalid partition"%string, m)
  else if bool_decide (state (part new_active m) = Updating)
  then (Err "Cannot activate partition that is being updated"%string, m)
  else
    let m1 := set_part (active_idx m) (with_state Standby (part (active_idx m) m)) m in
    let p := with_state Active (part new_active m1) in
    let m2 := set_part new_active (mkPart (id p) (version p) (state p) (sector_start p) (sector_count p)
                                     (wrap 32 (boot_count p + 1)) (checksum p)) m1 in
    (Ok tt, mkManager (part_a m2) (part_b m2) new_active).

Definition rollback (m : PartitionManager) : result string unit * PartitionManager := swap_active m.

(** ** Properties *)

(** Well-formed update files: entries of an 8-byte offset, a length and data. *)
Definition entry_bytes (off : Z) (data : list Z) : list Z :=
  to_le_bytes 8 off ++ to_le_bytes 4 (Z.of_nat (length data)) ++ data.
Definition delta_bytes (es : list (Z * list Z)) : list Z := es ≫= λ '(off, data), entry_bytes off data.

Lemma delta_entry fuel off data rest k : Z.of_nat (length data) < 2 ^ 32 →
  delta_loop (S fuel) (entry_bytes off data ++ rest) k = delta_loop fuel rest (wrap 32 (k + 1)).
Proof.
  intros Hd. unfold entry_bytes. rewrite <- !app_assoc. cbn [delta_loop].
  set (A := to_le_bytes 8 off). set (L := to_le_bytes 4 (Z.of_nat (length data))).
  assert (HA : length A = 8%nat) by apply length_to_le_bytes. assert (HL : length L = 4%nat) by apply length_to_le_bytes.
  assert (HlenL : from_le_bytes L = Z.of_nat (length data)) by (apply from_to_le_bytes; split; simpl; lia).
  clearbody A L.
  assert (E8 : drop 8 (A ++ L ++ data ++ rest) = L ++ data ++ rest) by (rewrite <- HA; apply drop_app_length).
  assert (E12 : drop 12 (A ++ L ++ data ++ rest) = data ++ rest).
  { change 12%nat with (8 + 4)%nat. rewrite <- drop_drop, E8, <- HL. apply drop_app_length. }
  rewrite E8, E12. replace (take 4 (L ++ data ++ rest)) with L by (rewrite <- HL; by rewrite take_app_length).
  rewrite HlenL, Nat2Z.id, drop_app_length.
  assert (Hl : (12 ≤ length (A ++ L ++ data ++ rest))%nat) by (rewrite !length_app; lia).
  apply Nat.ltb_ge in Hl as ->. assert (Hl' : (length data ≤ length (data ++ rest))%nat) by (rewrite length_app; lia).
  by apply Nat.ltb_ge in Hl' as ->.
Qed.

Lemma delta_wellformed es fuel k : Forall (λ e, Z.of_nat (length e.2) < 2 ^ 32) es → (length es ≤ fuel)%nat →
  is_Some (delta_loop fuel (delta_bytes es) k).
Proof.
  revert fuel k. induction es as [|[off data] es IH]; intros fuel k Hes Hf.
  - destruct fuel; by eexists.
  - apply Forall_cons in Hes as [He Hes]. destruct fuel as [|fuel]; [simpl in Hf; lia|].
    change (delta_bytes ((off, data) :: es)) with (entry_bytes off data ++ delta_bytes es).
    rewrite delta_entry by done. apply IH; [done|]. simpl in Hf. lia.
Qed.

Lemma delta_bytes_length es : (length es ≤ length (delta_bytes es))%nat.
Proof.
  induction es as [|[off data] es IH]; [done|]. change (delta_bytes ((off, data) :: es)) with (entry_bytes off data ++ delta_bytes es).
  unfold entry_bytes. rewrite !length_app, !length_to_le_bytes. simpl. lia.
Qed.

(** Exactly one bootable system: the active one. *)
Definition ab_ok (m : PartitionManager) : Prop :=
  (active_idx m = 0 ∨ active_idx m = 1) ∧ state (active m) = Active ∧ state (standby m) ≠ Active.

Inductive ab_op := BeginUpdate | ApplyDelta (delta : list Z) | SwapActive | Rollback.

Definition ab_apply (op : ab_op) (m : PartitionManager) : PartitionManager :=
  match op with
  | BeginUpdate => (begin_update m).2
  | ApplyDelta d => (apply_delta d m).2
  | SwapActive => (swap_active m).2
  | Rollback => (rollback m).2
  end.

Lemma swap_ok m : ab_ok m → ab_ok (swap_active m).2.
Proof.
  destruct m as [a b i]. intros ([Hi|Hi] & H2 & H3); simpl in Hi; subst i; unfold swap_active, active, standby in *; simpl in *;
    repeat case_bool_decide; simpl; unfold ab_ok, active, standby; simpl; auto.
Qed.

Lemma ab_apply_ok op m : ab_ok m → ab_ok (ab_apply op m).
Proof.
  intros H. destruct op; [| |by apply swap_ok..]; destruct m as [a b i]; destruct H as ([Hi|Hi] & H2 & H3); simpl in Hi; subst i;
    unfold ab_apply, begin_update, apply_delta, active, standby in *; simpl in *;
    repeat case_bool_decide; simpl; try destruct (delta_loop _ _ _); unfold ab_ok, active, standby; simpl; auto.
Qed.

Definition ab_run (ops : list ab_op) (m : PartitionManager) : PartitionManager := foldl (λ m op, ab_apply op m) m ops.

Lemma ab_run_ok ops m : ab_ok m → ab_ok (ab_run ops m).
Proof. revert m. induction ops as [|op ops IH]; intros m H; [done|]. simpl. by apply IH, ab_apply_ok. Qed.

Lemma new_manager_ok : ab_ok new_manager.
Proof. split; [by left|done]. Qed.

(** The operations on the two positions of the active index. *)
Definition booted (p : SystemPartition) : SystemPartition :=
  mkPart (id p) (version p) Active (sector_start p) (sector_count p) (wrap 32 (boot_count p + 1)) (checksum p).

Lemma swap_from_a a b : state b = Standby →
  swap_active (mkManager a b 0) = (Ok tt, mkManager (with_state Standby a) (booted b) 1).
Proof. intros H. unfold swap_active. change (part (1 - active_idx (mkManager a b 0)) (mkManager a b 0)) with b. by rewrite H. Qed.

Lemma swap_from_b a b : state a = Standby →
  swap_active (mkManager a b 1) = (Ok tt, mkManager (booted a) (with_state Standby b) 0).
Proof. intros H. unfold swap_active. change (part (1 - active_idx (mkManager a b 1)) (mkManager a b 1)) with a. by rewrite H. Qed.

Lemma update_a a b d k : state b = Standby → delta_loop (length d) d 0 = Some k →
  apply_delta d (begin_update (mkManager a b 0)).2 = (Ok tt, mkManager a (with_state Standby (with_state Updating b)) 0).
Proof.
  intros H Hk. unfold begin_update. change (part (1 - active_idx (mkManager a b 0)) (mkManager a b 0)) with b. rewrite H.
  unfold apply_delta. rewrite Hk. reflexivity.
Qed.

Lemma update_b a b d k : state a = Standby → delta_loop (length d) d 0 = Some k →
  apply_delta d (begin_update (mkManager a b 1)).2 = (Ok tt, mkManager (with_state Standby (with_state Updating a)) b 1).
Proof.
  intros H Hk. unfold begin_update. change (part (1 - active_idx (mkManager a b 1)) (mkManager a b 1)) with a. rewrite H.
  unfold apply_delta. rewrite Hk. reflexivity.
Qed.

(** Updating is safe.  After any history of updates, swaps and rollbacks
    exactly one of the two partitions is active.  A well-formed delta on a fresh
    update is always accepted and leaves the active partition untouched; then
    swapping activates the updated one, and rolling back returns to the same
    active partition, whose contents description was never changed but for the
    boot counter. *)
Theorem ab_update_rollback ops es :
  let m := ab_run ops new_manager in
  ab_ok m
  ∧ (Forall (λ e, Z.of_nat (length e.2) < 2 ^ 32) es → state (standby m) = Standby →
     let m1 := ab_apply (ApplyDelta (delta_bytes es)) (ab_apply BeginUpdate m) in
     let m2 := (swap_active m1).2 in
     let m3 := (rollback m2).2 in
     (apply_delta (delta_bytes es) (ab_apply BeginUpdate m)).1 = Ok tt ∧ active m1 = active m
     ∧ (swap_active m1).1 = Ok tt ∧ id (active m2) = id (standby m) ∧ (rollback m2).1 = Ok tt
     ∧ active_idx m3 = active_idx m ∧ ab_ok m3
     ∧ (id (active m3), version (active m3), sector_start (active m3)) = (id (active m), version (active m), sector_start (active m))).
Proof.
  intros m. assert (Hm : ab_ok m) by (apply ab_run_ok, new_manager_ok). split; [done|]. intros Hes Hst.
  assert (Hl : is_Some (delta_loop (length (delta_bytes es)) (delta_bytes es) 0))
    by (apply delta_wellformed; [done|apply delta_bytes_length]).
  destruct Hl as [k Hk]. revert Hk. generalize (delta_bytes es). intros d Hk. clear Hes.
  assert (Hok : ab_ok (rollback (swap_active (ab_apply (ApplyDelta d) (ab_apply BeginUpdate m))).2).2)
    by (apply swap_ok, swap_ok, ab_apply_ok, ab_apply_ok, Hm).
  revert Hok. cbv zeta. unfold rollback, ab_apply. clearbody m. destruct m as [a b i].
  destruct Hm as ([Hi|Hi] & H2 & H3); cbn in Hi; subst i.
  - change (state b = Standby) in Hst. rewrite (update_a a b d k Hst Hk). cbn [fst snd].
    rewrite swap_from_a by done. cbn [fst snd]. rewrite swap_from_b by done. intros Hok. split_and!; done.
  - change (state a = Standby) in Hst. rewrite (update_b a b d k Hst Hk). cbn [fst snd].
    rewrite swap_from_b by done. cbn [fst snd]. rewrite swap_from_a by done. intros Hok. split_and!; done.
Qed.

(** One update of two patches after a swap and back. *)
Lemma ab_update_rollback_witness :
  let m := ab_run [SwapActive; Rollback] new_manager in
  let m1 := ab_apply (ApplyDelta (delta_bytes [(0, [1; 2]); (9, [3])])) (ab_apply BeginUpdate m) in
  (apply_delta (delta_bytes [(0, [1; 2]); (9, [3])]) (ab_apply BeginUpdate m)).1 = Ok tt
  ∧ id (active (swap_active m1).2) = 1 ∧ active_idx (rollback (swap_active m1).2).2 = 0.
Proof.
  destruct (ab_update_rollback [SwapActive; Rollback] [(0, [1; 2]); (9, [3])]) as [_ H].
  destruct H as (H1 & _ & _ & H2 & _ & H3 & _); [repeat constructor|reflexivity|].
  split; [exact H1|]. split; [exact H2|exact H3].
Defined.

(** The comment says that rollback is always possible; while the standby
    partition is being updated, or after a truncated delta, it is refused. *)
Lemma rollback_refused_during_update :
  (rollback (ab_apply BeginUpdate (ab_apply SwapActive new_manager))).1 = Err "Cannot activate partition that is being updated"%string
  ∧ (rollback (ab_apply (ApplyDelta (replicate 12 255)) (ab_apply BeginUpdate new_manager))).1
    = Err "Cannot activate partition that is being updated"%string.
Proof. split; reflexivity. Qed.
