(* ===== verification/AuditLog.v ===== *)
(** The security audit log: [kernel/src/security/audit.rs].

    Console output and [flush_to_disk] (which writes the entries to the VFS) are
    not modelled. *)

From stdpp Require Import pretty.
From S2P Require Import Prelude.

Definition MAX_ENTRIES : nat := Z.to_nat 1024.

Record AuditLog := mkLog { entries : list string; total : Z }.

Definition LOG : AuditLog := mkLog [] 0.

Definition log (entry : string) (l : AuditLog) : AuditLog :=
  let kept := if (MAX_ENTRIES <=? length (entries l))%nat then drop 1 (entries l) else entries l in
  mkLog (kept ++ [entry]) (wrap 64 (total l + 1)).

Definition log_denied_syscall (pid nr : Z) (reason : string) : AuditLog → AuditLog :=
  log ("DENY pid=" +:+ pretty pid +:+ " syscall=" +:+ pretty nr +:+ " reason=" +:+ reason).

Definition log_auth (username : string) (success : bool) (ip : string) : AuditLog → AuditLog :=
  log ("AUTH user=" +:+ username +:+ " result=" +:+ (if success then "SUCCESS" else "FAIL") +:+ " src=" +:+ ip).

Definition log_cap_denied (pid cap : Z) : AuditLog → AuditLog :=
  log ("CAP_DENY pid=" +:+ pretty pid +:+ " cap=" +:+ pretty cap).

Definition recent (n : nat) (l : AuditLog) : list string := drop (length (entries l) - n) (entries l).

Definition total_events (l : AuditLog) : Z := total l.

(** ** Properties *)

Definition log_all (ms : list string) (l : AuditLog) : AuditLog := foldl (λ l m, log m l) l ms.

Lemma log_step (ms : list string) m :
  let kept := drop (length ms - MAX_ENTRIES) ms in
  (if (MAX_ENTRIES <=? length kept)%nat then drop 1 kept else kept) ++ [m]
  = drop (length (ms ++ [m]) - MAX_ENTRIES) (ms ++ [m]).
Proof.
  cbv zeta. rewrite length_drop, length_app. cbn [length].
  assert (Hmax : (0 < MAX_ENTRIES)%nat) by (unfold MAX_ENTRIES; lia).
  destruct (_ <=? _)%nat eqn:E.
  - apply Nat.leb_le in E. rewrite drop_drop, drop_app_le by lia. do 2 f_equal. lia.
  - apply Nat.leb_gt in E. replace (length ms - MAX_ENTRIES)%nat with 0%nat by lia.
    replace (length ms + 1 - MAX_ENTRIES)%nat with 0%nat by lia. done.
Qed.

(** The audit log is the last 1024 events: after any sequence of entries it
    holds exactly the most recent ones, oldest first, its counter is the number
    of all of them, and [recent n] gives the last [n] it holds. *)
Theorem audit_log_keeps_last (ms : list string) n :
  entries (log_all ms LOG) = drop (length ms - MAX_ENTRIES) ms
  ∧ total (log_all ms LOG) = wrap 64 (Z.of_nat (length ms))
  ∧ recent n (log_all ms LOG) = drop (length ms - Nat.min n MAX_ENTRIES) ms.
Proof.
  assert (H : entries (log_all ms LOG) = drop (length ms - MAX_ENTRIES) ms
    ∧ total (log_all ms LOG) = wrap 64 (Z.of_nat (length ms))).
  { induction ms as [|m ms [IH1 IH2]] using rev_ind; [done|]. unfold log_all in *. rewrite foldl_app. cbn [foldl].
    unfold log at 1 3. cbn [entries total]. rewrite IH1, IH2. split; [apply log_step|].
    unfold wrap. rewrite Zplus_mod_idemp_l, length_app. f_equal. cbn [length]. lia. }
  destruct H as [H1 H2]. split; [done|]. split; [done|]. unfold recent. rewrite H1, length_drop, drop_drop. f_equal. lia.
Qed.
