(* ===== verification/Seccomp.v ===== *)
(** Syscall filtering: [kernel/src/security/seccomp.rs].

    The state is the table of per-process filters and the audit log. *)

From S2P Require Import Prelude Bits AuditLog.

Definition SECCOMP_MODE_DISABLED : Z := 0.
Definition SECCOMP_MODE_STRICT : Z := 1.

Inductive SeccompMode := Disabled | Strict | Filter.

#[export] Instance SeccompMode_eq : EqDecision SeccompMode.
Proof. solve_decision. Defined.

(** [struct SyscallMask([u64; 4])] *)
Definition SyscallMask : Type := list Z.

Definition mask_empty : SyscallMask := replicate 4 0.
Definition mask_all : SyscallMask := replicate 4 (2 ^ 64 - 1).

Definition allow (nr : Z) (m : SyscallMask) : SyscallMask :=
  if nr <? 256 then alter (λ w, Z.lor w (Z.shiftl 1 (nr `mod` 64))) (Z.to_nat (nr / 64)) m else m.

Definition is_allowed (m : SyscallMask) (nr : Z) : bool :=
  if 256 <=? nr then false
  else negb (Z.land (nth (Z.to_nat (nr / 64)) m 0) (Z.shiftl 1 (nr `mod` 64)) =? 0).

Definition strict_syscalls : list Z := [0; 1; 15; 60; 231].

Definition strict_mask : SyscallMask := foldl (λ m nr, allow nr m) mask_empty strict_syscalls.

Record SeccompState := mkState { st_mode : SeccompMode; st_mask : SyscallMask }.

Record t := mkSeccomp { STATES : gmap Z SeccompState; audit : AuditLog }.

Definition set_strict (pid : Z) (s : t) : t :=
  mkSeccomp (<[pid := mkState Strict strict_mask]> (STATES s)) (audit s).

Definition set_filter (pid : Z) (mask : SyscallMask) (s : t) : t :=
  mkSeccomp (<[pid := mkState Filter mask]> (STATES s)) (audit s).

Definition disable (pid : Z) (s : t) : t := mkSeccomp (delete pid (STATES s)) (audit s).

Definition check (pid nr : Z) (s : t) : bool * t :=
  if pid =? 0 then (true, s)
  else
    match STATES s !! pid with
    | None => (true, s)
    | Some st =>
        match st_mode st with
        | Disabled => (true, s)
        | Strict | Filter =>
            if is_allowed (st_mask st) nr then (true, s)
            else (false, mkSeccomp (STATES s) (log_denied_syscall pid nr "seccomp" (audit s)))
        end
    end.

Definition mode (pid : Z) (s : t) : SeccompMode :=
  match STATES s !! pid with Some st => st_mode st | None => Disabled end.

Definition handle_prctl_set_seccomp (pid m : Z) (s : t) : Z * t :=
  if m =? SECCOMP_MODE_DISABLED then (0, disable pid s)
  else if m =? SECCOMP_MODE_STRICT then (0, set_strict pid s)
  else (2 ^ 64 - 1, s).

(** ** The mask is a set of numbers below 256 *)

Lemma bit_nonzero w k : 0 ≤ k → negb (Z.land w (Z.shiftl 1 k) =? 0) = Z.testbit w k.
Proof. intros Hk. rewrite land_bit by done. apply negb_involutive. Qed.

Lemma is_allowed_bit m nr : 0 ≤ nr < 256 → is_allowed m nr = Z.testbit (nth (Z.to_nat (nr / 64)) m 0) (nr `mod` 64).
Proof. intros H. unfold is_allowed. zbool. apply bit_nonzero. apply Z.mod_pos_bound. lia. Qed.

Lemma nth_alter (f : Z → Z) i j (l : list Z) : (i < length l)%nat →
  nth j (alter f i l) 0 = if decide (i = j) then f (nth i l 0) else nth j l 0.
Proof.
  intros Hi. rewrite !nth_lookup. destruct (decide (i = j)) as [->|Hne].
  - rewrite list_lookup_alter_eq. destruct (lookup_lt_is_Some_2 l j Hi) as [x Hx]. by rewrite Hx.
  - by rewrite list_lookup_alter_ne.
Qed.

(** Adding a number to the mask changes the answer for that number only. *)
Lemma is_allowed_allow m nr n : length m = 4%nat → 0 ≤ nr < 256 → 0 ≤ n →
  is_allowed (allow nr m) n = bool_decide (n = nr) || is_allowed m n.
Proof.
  intros Hl Hnr Hn. destruct (Z_lt_ge_dec n 256) as [Hlt|Hge].
  2: { unfold is_allowed. zbool. by rewrite bool_decide_eq_false_2 by lia. }
  rewrite !is_allowed_bit by lia. unfold allow. zbool.
  assert (Hi : (Z.to_nat (nr / 64) < 4)%nat) by (assert (nr / 64 < 4) by (apply Z.div_lt_upper_bound; lia); pose proof (Z.div_pos nr 64); lia).
  rewrite nth_alter by lia. pose proof (Z.mod_pos_bound nr 64). pose proof (Z.mod_pos_bound n 64).
  pose proof (Z.div_mod nr 64). pose proof (Z.div_mod n 64). pose proof (Z.div_pos nr 64). pose proof (Z.div_pos n 64).
  case_decide as Hd.
  - rewrite Z.lor_spec, testbit_shiftl1, Hd, orb_comm by lia. f_equal.
    destruct (decide (n = nr)) as [->|Hne].
    + by rewrite Z.eqb_refl, bool_decide_eq_true_2.
    + rewrite bool_decide_eq_false_2 by done. zbool. done.
  - rewrite bool_decide_eq_false_2 by (intros ->; done). done.
Qed.

Lemma length_allow nr m : length (allow nr m) = length m.
Proof. unfold allow. destruct (_ <? _); [apply length_alter|done]. Qed.

Lemma is_allowed_foldl nrs m n : length m = 4%nat → Forall (λ nr, 0 ≤ nr < 256) nrs → 0 ≤ n →
  is_allowed (foldl (λ m nr, allow nr m) m nrs) n = bool_decide (n ∈ nrs) || is_allowed m n.
Proof.
  revert m. induction nrs as [|nr nrs IH]; intros m Hl Hf Hn; cbn [foldl].
  { by rewrite bool_decide_eq_false_2 by (by intros ?%elem_of_nil). }
  apply Forall_cons in Hf as [Hnr Hf]. rewrite IH, is_allowed_allow by (rewrite ?length_allow; done).
  destruct (decide (n = nr)) as [->|Hne].
  - rewrite (bool_decide_eq_true_2 (nr = nr)) by done. rewrite (bool_decide_eq_true_2 (nr ∈ nr :: nrs)) by constructor.
    simpl. apply orb_true_r.
  - rewrite (bool_decide_eq_false_2 (n = nr)) by done. simpl. f_equal. apply bool_decide_ext. rewrite elem_of_cons. naive_solver.
Qed.

Lemma is_allowed_empty n : is_allowed mask_empty n = false.
Proof.
  unfold is_allowed. destruct (256 <=? n); [done|]. unfold mask_empty.
  rewrite nth_lookup. destruct (replicate 4 0 !! _) as [w|] eqn:E; [apply lookup_replicate in E as [-> _]|]; done.
Qed.

Lemma strict_allows n : 0 ≤ n → is_allowed strict_mask n = bool_decide (n ∈ strict_syscalls).
Proof.
  intros Hn. unfold strict_mask. rewrite is_allowed_foldl, is_allowed_empty, orb_false_r; [done|done| |done].
  repeat constructor; lia.
Qed.

(** A process in strict mode can make exactly the five listed system calls
    (0, 1, 15, 60, 231); any other is refused and recorded in the audit log, the
    filter tables unchanged; the filters of the other processes do not matter. *)
Theorem seccomp_strict_exact pid nr s : pid ≠ 0 → 0 ≤ nr →
  check pid nr (set_strict pid s)
  = if bool_decide (nr ∈ strict_syscalls) then (true, set_strict pid s)
    else (false, mkSeccomp (STATES (set_strict pid s)) (log_denied_syscall pid nr "seccomp" (audit s))).
Proof.
  intros Hp Hn. unfold check. apply Z.eqb_neq in Hp as ->. cbn [STATES set_strict audit].
  rewrite lookup_insert_eq. cbn [st_mode st_mask]. by rewrite strict_allows.
Qed.

Lemma seccomp_strict_exact_witness :
  (check 7 60 (set_strict 7 (mkSeccomp ∅ LOG))).1 = true ∧ (check 7 59 (set_strict 7 (mkSeccomp ∅ LOG))).1 = false.
Proof. split; rewrite seccomp_strict_exact by lia; reflexivity. Defined.
