(* ===== verification/Capabilities.v ===== *)
(** Capability-based access control: [kernel/src/security/capabilities.rs].

    The grant table, the seccomp tables and the audit log form the state; a
    function that returns [Result<(), &str>] is an [M t string unit].  The
    boot-time self test and the console output are not modelled. *)

From stdpp Require Import pretty.
From S2P Require Import Prelude Bits AuditLog Seccomp.

Inductive SmartCap :=
| VfsReadProtected | VfsWrite | VfsMutate | VfsRawDisk | VfsMount
| NetBindPrivileged | NetRaw | NetConnect | NetUdp | NetDns | NetAdmin
| SysExec | SysFork | SysKill | SysNice | SysModules | SysAuditRead | SysBoot | SysMmap
| IpcPort | IpcSend
| DbgTrace | DbgPerf.

#[export] Instance SmartCap_eq : EqDecision SmartCap.
Proof. solve_decision. Defined.

(** The discriminants of the enum, [self as u8]. *)
Definition discriminant (c : SmartCap) : Z :=
  match c with
  | VfsReadProtected => 0 | VfsWrite => 1 | VfsMutate => 2 | VfsRawDisk => 3 | VfsMount => 4
  | NetBindPrivileged => 8 | NetRaw => 9 | NetConnect => 10 | NetUdp => 11 | NetDns => 12 | NetAdmin => 13
  | SysExec => 16 | SysFork => 17 | SysKill => 18 | SysNice => 19 | SysModules => 20 | SysAuditRead => 21
  | SysBoot => 22 | SysMmap => 23
  | IpcPort => 24 | IpcSend => 25
  | DbgTrace => 32 | DbgPerf => 33
  end.

Definition bit (c : SmartCap) : Z := Z.shiftl 1 (discriminant c).

Definition cap_name (c : SmartCap) : string :=
  match c with
  | VfsReadProtected => "VfsReadProtected" | VfsWrite => "VfsWrite" | VfsMutate => "VfsMutate"
  | VfsRawDisk => "VfsRawDisk" | VfsMount => "VfsMount"
  | NetBindPrivileged => "NetBindPrivileged" | NetRaw => "NetRaw" | NetConnect => "NetConnect"
  | NetUdp => "NetUdp" | NetDns => "NetDns" | NetAdmin => "NetAdmin"
  | SysExec => "SysExec" | SysFork => "SysFork" | SysKill => "SysKill" | SysNice => "SysNice"
  | SysModules => "SysModules" | SysAuditRead => "SysAuditRead" | SysBoot => "SysBoot" | SysMmap => "SysMmap"
  | IpcPort => "IpcPort" | IpcSend => "IpcSend"
  | DbgTrace => "DbgTrace" | DbgPerf => "DbgPerf"
  end.

Record CapGrants := mkGrants { granted : Z; inheritable : bool; label : string }.

Definition grants_all : CapGrants := mkGrants (2 ^ 64 - 1) true "root".

Definition user_default : CapGrants :=
  let mask := Z.lor (Z.lor (Z.lor (Z.lor (Z.lor (Z.lor (Z.lor (bit NetConnect) (bit NetUdp)) (bit NetDns))
                (bit SysExec)) (bit SysFork)) (bit SysNice)) (bit IpcSend)) (bit SysMmap) in
  mkGrants mask false "user".

Definition sandboxed : CapGrants := mkGrants 0 false "sandbox".

Definition has (g : CapGrants) (c : SmartCap) : bool := negb (Z.land (granted g) (bit c) =? 0).
Definition grant_cap (c : SmartCap) (g : CapGrants) : CapGrants :=
  mkGrants (Z.lor (granted g) (bit c)) (inheritable g) (label g).
Definition revoke_cap (c : SmartCap) (g : CapGrants) : CapGrants :=
  mkGrants (Z.land (granted g) (not64 (bit c))) (inheritable g) (label g).
Definition grant_all (g : CapGrants) : CapGrants := mkGrants (2 ^ 64 - 1) (inheritable g) (label g).
Definition revoke_all (g : CapGrants) : CapGrants := mkGrants 0 (inheritable g) (label g).

Record t := mkCaps { GRANTS : gmap Z CapGrants; seccomp : Seccomp.t }.

Definition set_grants (m : gmap Z CapGrants) (s : t) : t := mkCaps m (seccomp s).

Definition audit_log (s : t) : AuditLog := Seccomp.audit (seccomp s).

Definition audit_deny (pid : Z) (c : SmartCap) (context : string) (s : t) : t :=
  let msg := "CAP_DENY pid=" +:+ pretty pid +:+ " cap=" +:+ cap_name c +:+ " ctx=" +:+ context in
  mkCaps (GRANTS s) (mkSeccomp (STATES (seccomp s)) (log msg (audit_log s))).

Definition assign (pid : Z) (g : CapGrants) (s : t) : t := set_grants (<[pid := g]> (GRANTS s)) s.
Definition assign_default (pid : Z) (s : t) : t := assign pid user_default s.
Definition remove (pid : Z) (s : t) : t := set_grants (delete pid (GRANTS s)) s.

(** Kernel and unregistered processes pass. *)
Definition cap_check_raw (pid : Z) (c : SmartCap) (s : t) : bool :=
  if pid =? 0 then true else match GRANTS s !! pid with Some g => has g c | None => true end.

Definition grant (caller target : Z) (c : SmartCap) : M t string unit := λ s,
  if negb (caller =? 0) && negb (cap_check_raw caller SysModules s)
  then (Err "EPERM"%string, audit_deny caller c "grant-requires-SysModules" s)
  else (Ok tt, assign target (grant_cap c (default user_default (GRANTS s !! target))) s).

Definition revoke (caller target : Z) (c : SmartCap) : M t string unit := λ s,
  if negb (caller =? 0) && negb (cap_check_raw caller SysModules s)
  then (Err "EPERM"%string, audit_deny caller c "revoke-requires-SysModules" s)
  else (Ok tt, match GRANTS s !! target with Some g => assign target (revoke_cap c g) s | None => s end).

Definition get_grants (pid : Z) (s : t) : CapGrants :=
  if pid =? 0 then grants_all else default user_default (GRANTS s !! pid).

Definition cap_check (pid : Z) (c : SmartCap) : M t string unit := λ s,
  if pid =? 0 then (Ok tt, s)
  else if match GRANTS s !! pid with Some g => has g c | None => true end then (Ok tt, s)
  else (Err "EPERM: capability denied"%string, audit_deny pid c "cap_check" s).

Inductive VfsOp := Read | Write | Create | Delete | Mount.

Definition PROTECTED_PREFIXES : list string :=
  ["/system/"; "/boot/"; "/kernel/"; "/etc/passwd"; "/etc/shadow"]%string.

Definition is_protected (path : string) : bool := existsb (λ pfx, String.prefix pfx path) PROTECTED_PREFIXES.

Definition vfs_cap_check (pid : Z) (path : string) (op : VfsOp) : M t string unit :=
  if pid =? 0 then mret tt
  else
    match op with
    | Read => if is_protected path then cap_check pid VfsReadProtected else mret tt
    | Write => (if is_protected path then cap_check pid VfsReadProtected else mret tt) ≫= λ _, cap_check pid VfsWrite
    | Create | Delete => cap_check pid VfsMutate
    | Mount => cap_check pid VfsMount
    end.

Inductive NetOp := TcpConnect | UdpSend | UdpBind | Dns | RawSend | AdminConfig.

Definition net_cap_check (pid : Z) (op : NetOp) (port : Z) : M t string unit :=
  if pid =? 0 then mret tt
  else
    match op with
    | TcpConnect => cap_check pid NetConnect
    | UdpSend => cap_check pid NetUdp
    | UdpBind => (if port <? 1024 then cap_check pid NetBindPrivileged else mret tt) ≫= λ _, cap_check pid NetUdp
    | Dns => cap_check pid NetDns
    | RawSend => cap_check pid NetRaw
    | AdminConfig => cap_check pid NetAdmin
    end.

(** [mod syscall_nr]. *)
Definition EXIT : Z := 0.
Definition YIELD : Z := 1.
Definition SPAWN : Z := 2.
Definition GETPID : Z := 3.
Definition SLEEP : Z := 4.
Definition FORK : Z := 5.
Definition EXEC : Z := 6.
Definition WAITPID : Z := 7.
Definition MMAP : Z := 8.
Definition PIPE : Z := 9.
Definition IPC_SEND : Z := 10.
Definition IPC_RECV : Z := 11.
Definition CREATE_PORT : Z := 12.
Definition LOOKUP_PORT : Z := 13.
Definition OPEN : Z := 20.
Definition CLOSE : Z := 21.
Definition READ : Z := 22.
Definition WRITE : Z := 23.
Definition STAT : Z := 24.
Definition READDIR : Z := 25.
Definition MKDIR : Z := 26.
Definition NET_SEND : Z := 30.
Definition NET_RECV : Z := 31.
Definition NET_BIND : Z := 32.
Definition TCP_CONNECT : Z := 33.
Definition TCP_LISTEN : Z := 34.
Definition TCP_ACCEPT : Z := 35.
Definition TCP_SEND : Z := 36.
Definition TCP_RECV : Z := 37.
Definition TCP_CLOSE : Z := 38.
Definition TCP_STATUS : Z := 39.
Definition KILL : Z := 41.
Definition USB_LIST : Z := 50.
Definition USB_READ : Z := 52.
Definition USB_WRITE : Z := 53.
Definition DUP2 : Z := 56.

(** The arms of the [match], tried in order. *)
Definition required_cap_for_syscall (nr : Z) : option SmartCap :=
  let among l := bool_decide (nr ∈ l) in
  if among [EXIT; YIELD; GETPID; SLEEP; CLOSE; READ; WRITE; STAT; READDIR; DUP2; IPC_RECV; LOOKUP_PORT; TCP_STATUS;
         TCP_RECV; TCP_CLOSE] then None
  else if among [FORK] then Some SysFork
  else if among [EXEC; SPAWN] then Some SysExec
  else if among [WAITPID] then None
  else if among [KILL] then Some SysKill
  else if among [MMAP] then Some SysMmap
  else if among [PIPE] then None
  else if among [OPEN; MKDIR] then None
  else if among [NET_SEND; NET_RECV] then Some NetUdp
  else if among [NET_BIND] then Some NetUdp
  else if among [TCP_CONNECT] then Some NetConnect
  else if among [TCP_LISTEN; TCP_ACCEPT] then Some NetConnect
  else if among [TCP_SEND] then Some NetConnect
  else if among [IPC_SEND; CREATE_PORT] then Some IpcSend
  else if among [USB_READ; USB_WRITE; USB_LIST] then Some VfsRawDisk
  else Some SysModules.

Definition syscall_cap_check (pid nr : Z) : M t string unit := λ s,
  if pid =? 0 then (Ok tt, s)
  else
    let '(ok, sc) := Seccomp.check pid nr (seccomp s) in
    let s1 := mkCaps (GRANTS s) sc in
    if negb ok then (Err "EPERM: seccomp blocked"%string, s1)
    else match required_cap_for_syscall nr with
         | Some c => cap_check pid c s1
         | None => (Ok tt, s1)
         end.

Definition inherit_on_fork (parent child : Z) (s : t) : t :=
  match GRANTS s !! parent with
  | Some g =>
      let g' := if inheritable g
                then mkGrants (granted g) (inheritable g) (label g +:+ ":fork:" +:+ pretty child)
                else mkGrants (granted user_default) false ("fork:" +:+ pretty child) in
      assign child g' s
  | None => assign_default child s
  end.

Definition count_ones (w : Z) : Z := foldr (λ k n, Z.b2z (Z.testbit w (Z.of_nat k)) + n) 0 (seq 0 64).

Definition list_grants (s : t) : list (Z * string * Z) :=
  omap (λ pid, (λ g, (pid, label g, count_ones (granted g))) <$> GRANTS s !! pid) (sorted_keys (GRANTS s)).

Definition init (s : t) : t := assign 1 grants_all s.

(** ** Grants as sets of tokens *)

Lemma discriminant_range c : 0 ≤ discriminant c < 64.
Proof. destruct c; simpl; lia. Qed.

Lemma discriminant_inj c c' : discriminant c = discriminant c' → c = c'.
Proof. destruct c, c'; done. Qed.

Lemma has_testbit g c : has g c = Z.testbit (granted g) (discriminant c).
Proof. unfold has, bit. apply bit_nonzero. pose proof (discriminant_range c). lia. Qed.

Lemma same_bit c c' : (discriminant c' =? discriminant c) = bool_decide (c' = c).
Proof.
  destruct (decide (c' = c)) as [->|Hne].
  - by rewrite Z.eqb_refl, bool_decide_eq_true_2.
  - rewrite bool_decide_eq_false_2 by done. apply Z.eqb_neq. intros E. by apply Hne, discriminant_inj.
Qed.

Lemma has_grant c g c' : has (grant_cap c g) c' = bool_decide (c' = c) || has g c'.
Proof.
  pose proof (discriminant_range c). pose proof (discriminant_range c'). rewrite !has_testbit. simpl. unfold bit.
  by rewrite Z.lor_spec, testbit_shiftl1, same_bit, orb_comm by lia.
Qed.

Lemma has_revoke c g c' : has (revoke_cap c g) c' = negb (bool_decide (c' = c)) && has g c'.
Proof.
  pose proof (discriminant_range c). pose proof (discriminant_range c'). rewrite !has_testbit. simpl. unfold bit, not64.
  rewrite Z.land_spec, Z.lxor_spec, testbit_ones64, testbit_shiftl1, same_bit by lia.
  replace (discriminant c' <? 64) with true by (symmetry; apply Z.ltb_lt; lia).
  by rewrite xorb_true_r, andb_comm.
Qed.

(** What a check answers. *)
Notation permitted s pid c := (cap_check_raw pid c s).

Lemma permitted_registered s pid g c : pid ≠ 0 → GRANTS s !! pid = Some g → permitted s pid c = has g c.
Proof. intros Hp E. unfold cap_check_raw. apply Z.eqb_neq in Hp as ->. by rewrite E. Qed.

(** One denial: an entry in the audit log and nothing else. *)
Definition denied_once (s s' : t) : Prop :=
  GRANTS s' = GRANTS s ∧ STATES (seccomp s') = STATES (seccomp s) ∧ ∃ m, audit_log s' = log m (audit_log s).

Lemma cap_check_exact pid c s :
  if permitted s pid c then cap_check pid c s = (Ok tt, s)
  else ∃ s', cap_check pid c s = (Err "EPERM: capability denied"%string, s') ∧ denied_once s s'.
Proof.
  unfold cap_check_raw, cap_check. destruct (pid =? 0); [done|].
  destruct (match GRANTS s !! pid with Some g => has g c | None => true end); [done|].
  eexists. split; [done|]. split; [done|]. split; [done|]. by eexists.
Qed.

(** Granting and revoking on every branch.  A caller without SysModules is
    refused, with an audit entry and no other effect.  Otherwise [grant] adds the
    token to the target (a process without an entry first gets the default set),
    [revoke] removes it (from a process with an entry), no other token of the
    target and no other process is affected; granting then revoking leaves the
    token out. *)
Theorem cap_grant_revoke_exact caller target c s :
  target ≠ 0 →
  let denied := negb (permitted s caller SysModules) in
  (if denied
   then (grant caller target c s).1 = Err "EPERM"%string ∧ denied_once s (grant caller target c s).2
        ∧ (revoke caller target c s).1 = Err "EPERM"%string ∧ denied_once s (revoke caller target c s).2
   else (grant caller target c s).1 = Ok tt ∧ (revoke caller target c s).1 = Ok tt
        ∧ (∀ c', permitted (grant caller target c s).2 target c'
                 = bool_decide (c' = c) || has (default user_default (GRANTS s !! target)) c')
        ∧ (∀ c', permitted (revoke caller target c s).2 target c'
                 = negb (bool_decide (c' = c) && bool_decide (is_Some (GRANTS s !! target))) && permitted s target c')
        ∧ ∀ p c', p ≠ target → permitted (grant caller target c s).2 p c' = permitted s p c'
                               ∧ permitted (revoke caller target c s).2 p c' = permitted s p c').
Proof.
  intros Ht denied. unfold grant, revoke.
  assert (Hd : negb (caller =? 0) && denied = denied).
  { unfold denied, cap_check_raw. by destruct (caller =? 0). }
  fold denied. rewrite Hd. destruct denied.
  { repeat split; try done; by eexists. }
  split; [done|]. split; [done|]. cbn [snd]. split_and!.
  - intros c'. rewrite (permitted_registered _ _ (grant_cap c (default user_default (GRANTS s !! target)))) by (done || apply lookup_insert_eq).
    apply has_grant.
  - intros c'. destruct (GRANTS s !! target) as [g|] eqn:E.
    + rewrite (permitted_registered _ _ (revoke_cap c g)), (permitted_registered _ _ g _ Ht E) by (done || apply lookup_insert_eq).
      rewrite has_revoke, (bool_decide_eq_true_2 (is_Some _)), andb_true_r; done.
    + rewrite (bool_decide_eq_false_2 (is_Some None)), andb_false_r by (by intros []). done.
  - intros p c' Hp. split.
    + unfold cap_check_raw. simpl. by rewrite lookup_insert_ne.
    + destruct (GRANTS s !! target); [|done]. unfold cap_check_raw. simpl. by rewrite lookup_insert_ne.
Qed.

(** An unprivileged user process, pid 9002. *)
Definition demo_caps : t := assign 9002 user_default (mkCaps ∅ (mkSeccomp ∅ LOG)).

Lemma cap_grant_revoke_exact_witness :
  permitted demo_caps 9002 NetRaw = false ∧ permitted (grant 0 9002 NetRaw demo_caps).2 9002 NetRaw = true
  ∧ (grant 9002 9002 NetRaw demo_caps).1 = Err "EPERM"%string.
Proof.
  split; [reflexivity|]. split.
  - destruct (cap_grant_revoke_exact 0 9002 NetRaw demo_caps ltac:(lia)) as (_ & _ & H & _).
    rewrite H. reflexivity.
  - exact (proj1 (cap_grant_revoke_exact 9002 9002 NetRaw demo_caps ltac:(lia))).
Defined.

(** The system-call gate: a process may make a call exactly when its seccomp
    filter admits the number and it holds the capability the number requires, if
    any; a refusal adds one audit entry, and the grants and filters never change.
    The kernel (pid 0) passes. *)
Theorem syscall_gate_exact pid nr s :
  let allowed := (pid =? 0) || ((Seccomp.check pid nr (seccomp s)).1
       && match required_cap_for_syscall nr with Some c => permitted s pid c | None => true end) in
  if allowed then syscall_cap_check pid nr s = (Ok tt, s)
  else ∃ e s', syscall_cap_check pid nr s = (Err e, s') ∧ denied_once s s'.
Proof.
  cbv zeta. unfold syscall_cap_check. destruct (pid =? 0) eqn:Ep; [done|]. cbn [orb].
  assert (Hc : Seccomp.check pid nr (seccomp s) = (true, seccomp s)
     ∨ ∃ m, Seccomp.check pid nr (seccomp s) = (false, mkSeccomp (STATES (seccomp s)) (log m (audit_log s)))).
  { unfold Seccomp.check. rewrite Ep. destruct (STATES (seccomp s) !! pid) as [st|]; [|by left].
    destruct (st_mode st); [by left|..]; (destruct (is_allowed _ nr); [by left|right; by eexists]). }
  destruct Hc as [->|[m ->]]; cbn [fst andb negb].
  - destruct s as [gr sc]. cbn [GRANTS seccomp]. destruct (required_cap_for_syscall nr) as [c|]; [|done].
    pose proof (cap_check_exact pid c (mkCaps gr sc)) as H. destruct (cap_check_raw pid c (mkCaps gr sc)); [done|].
    destruct H as (s' & -> & Hd). by exists "EPERM: capability denied"%string, s'.
  - eexists _, _. split; [done|]. split; [done|]. split; [done|]. by eexists.
Qed.

(** ** Confinement *)

(** What a set [C] of confined processes can do: call [grant] and [revoke] on
    anyone, fork a process with an unused pid, exit, and make system calls. *)
Inductive conf_step : gset Z * t → gset Z * t → Prop :=
| CGrant C s p q c : p ∈ C → conf_step (C, s) (C, (grant p q c s).2)
| CRevoke C s p q c : p ∈ C → conf_step (C, s) (C, (revoke p q c s).2)
| CFork C s p q : p ∈ C → q ≠ 0 → GRANTS s !! q = None → conf_step (C, s) ({[q]} ∪ C, inherit_on_fork p q s)
| CExit C s p : p ∈ C → conf_step (C, s) (C ∖ {[p]}, remove p s)
| CSyscall C s p nr : p ∈ C → conf_step (C, s) (C, (syscall_cap_check p nr s).2).

Section Confinement.
(** The tokens the confined processes may hold: the default set among them, and
    not SysModules, the token that guards [grant] and [revoke]. *)
Context (B : SmartCap → bool).
Hypothesis B_default : ∀ c, has user_default c = true → B c = true.
Hypothesis B_modules : B SysModules = false.

Definition within (g : CapGrants) : Prop := ∀ c, has g c = true → B c = true.

Definition confined (w : gset Z * t) : Prop :=
  ∀ p, p ∈ w.1 → p ≠ 0 ∧ ∃ g, GRANTS w.2 !! p = Some g ∧ within g.

Lemma confined_no_modules C s p : confined (C, s) → p ∈ C → permitted s p SysModules = false.
Proof.
  intros Hc Hp. destruct (Hc p Hp) as (H0 & g & E & Hw). rewrite (permitted_registered _ _ g) by done.
  destruct (has g SysModules) eqn:Eh; [|done]. apply Hw in Eh. congruence.
Qed.

Lemma confined_grants C C' s s' : confined (C, s) → GRANTS s' = GRANTS s → C' ⊆ C → confined (C', s').
Proof. intros Hc E Hs p Hp. simpl in *. rewrite E. apply (Hc p), Hs, Hp. Qed.

Lemma syscall_grants p nr s : GRANTS (syscall_cap_check p nr s).2 = GRANTS s.
Proof.
  unfold syscall_cap_check. destruct (p =? 0); [done|]. destruct (Seccomp.check _ _ _) as [ok sc]. destruct ok; simpl; [|done].
  destruct (required_cap_for_syscall nr) as [c|]; [|done]. unfold cap_check. destruct (p =? 0); [done|]. by case_match; case_match.
Qed.

Lemma fork_entry p q s g : GRANTS s !! p = Some g → within g →
  ∃ g', GRANTS (inherit_on_fork p q s) = <[q := g']> (GRANTS s) ∧ within g'.
Proof.
  intros E Hw. unfold inherit_on_fork. rewrite E. destruct (inheritable g); (eexists; split; [reflexivity|]); done.
Qed.

Lemma conf_step_confined w w' : conf_step w w' → confined w → confined w'.
Proof.
  intros Hst Hc. inversion Hst as [C s p q c Hp|C s p q c Hp|C s p q Hp H0 Hq|C s p Hp|C s p nr Hp]; subst.
  - unfold grant. rewrite (confined_no_modules C s p Hc Hp). destruct (Hc p Hp) as [->%Z.eqb_neq _]. simpl. by eapply confined_grants.
  - unfold revoke. rewrite (confined_no_modules C s p Hc Hp). destruct (Hc p Hp) as [->%Z.eqb_neq _]. simpl. by eapply confined_grants.
  - destruct (Hc p Hp) as (_ & g & E & Hw). destruct (fork_entry p q s g E Hw) as (g' & E' & Hw').
    intros r Hr. simpl in *. rewrite E'. apply elem_of_union in Hr as [->%elem_of_singleton|Hr].
    + split; [done|]. exists g'. by rewrite lookup_insert_eq.
    + destruct (Hc r Hr) as (? & gr & Er & ?). split; [done|]. exists gr. rewrite lookup_insert_ne; [done|]. intros ->. simpl in Er. congruence.
  - intros r Hr. simpl in *. apply elem_of_difference in Hr as [Hr Hne%not_elem_of_singleton].
    destruct (Hc r Hr) as (? & gr & Er & ?). split; [done|]. exists gr. by rewrite lookup_delete_ne.
  - eapply confined_grants; [done|apply syscall_grants|done].
Qed.

Lemma conf_step_outside w w' q g :
  conf_step w w' → confined w → q ∉ w.1 → GRANTS w.2 !! q = Some g → q ∉ w'.1 ∧ GRANTS w'.2 !! q = Some g.
Proof.
  intros Hst Hc Hq Eq. inversion Hst as [C s p r c Hp|C s p r c Hp|C s p r Hp H0 Hr|C s p Hp|C s p nr Hp]; subst; simpl in *.
  - unfold grant. rewrite (confined_no_modules C s p Hc Hp). destruct (Hc p Hp) as [->%Z.eqb_neq _]. done.
  - unfold revoke. rewrite (confined_no_modules C s p Hc Hp). destruct (Hc p Hp) as [->%Z.eqb_neq _]. done.
  - destruct (Hc p Hp) as (_ & gp & E & Hw). destruct (fork_entry p r s gp E Hw) as (g' & E' & _).
    assert (r ≠ q) by congruence. rewrite E', lookup_insert_ne by done. set_solver.
  - assert (p ≠ q) by set_solver. rewrite lookup_delete_ne by done. set_solver.
  - by rewrite syscall_grants.
Qed.
End Confinement.

(** C5: no privilege escalation.  Take processes that hold only tokens of a set
    B, where B contains the default user set and not SysModules.  Whatever
    sequence of grants, revocations, forks, exits and system calls they and their
    descendants perform, none of them ever passes a check for a token outside B,
    and the grants of every other registered process stay as they were. *)
Theorem caps_confined (B : SmartCap → bool) w w' :
  (∀ c, has user_default c = true → B c = true) → B SysModules = false →
  confined B w → rtc conf_step w w' →
  (∀ p c, p ∈ w'.1 → permitted w'.2 p c = true → B c = true)
  ∧ ∀ q g, q ∉ w.1 → GRANTS w.2 !! q = Some g → q ∉ w'.1 ∧ GRANTS w'.2 !! q = Some g.
Proof.
  intros Hdef Hmod Hc Hsteps. assert (Hc' : confined B w').
  { revert Hc. induction Hsteps as [|w1 w2 w3 Hst _ IH]; [done|]. intros. by eapply IH, conf_step_confined. }
  split.
  - intros p c Hp Hperm. destruct (Hc' p Hp) as (H0 & g & E & Hw). rewrite (permitted_registered _ _ g) in Hperm by done. by apply Hw.
  - intros q g Hq Eq. clear Hc'. induction Hsteps as [|w1 w2 w3 Hst _ IH]; [done|].
    destruct (conf_step_outside B Hdef Hmod w1 w2 q g Hst Hc Hq Eq) as [? ?].
    apply IH; [by eapply conf_step_confined|done..].
Qed.

(** A user process tries to grant itself NetRaw, forks, and its child tries. *)
Lemma caps_confined_witness :
  permitted (grant 9003 9003 NetRaw (inherit_on_fork 9002 9003 (grant 9002 9002 NetRaw demo_caps).2)).2 9003 NetRaw = false.
Proof.
  set (s' := (grant 9003 9003 NetRaw (inherit_on_fork 9002 9003 (grant 9002 9002 NetRaw demo_caps).2)).2).
  assert (H : permitted s' 9003 NetRaw = true → has user_default NetRaw = true).
  { refine (proj1 (caps_confined (has user_default) ({[9002]}, demo_caps) ({[9003]} ∪ {[9002]}, s') _ _ _ _) 9003 NetRaw _).
    - done.
    - reflexivity.
    - intros p Hp. change (p ∈ ({[9002]} : gset Z)) in Hp. apply elem_of_singleton in Hp as ->. split; [done|].
      exists user_default. split; [reflexivity|]. intros c Hc. exact Hc.
    - eapply rtc_l; [apply (CGrant _ _ 9002 9002 NetRaw), elem_of_singleton; done|].
      eapply rtc_l; [apply (CFork _ _ 9002 9003); [by apply elem_of_singleton|done|reflexivity]|].
      eapply rtc_l; [apply (CGrant _ _ 9003 9003 NetRaw), elem_of_union_l, elem_of_singleton; done|]. apply rtc_refl.
    - apply elem_of_union_l, elem_of_singleton. done. }
  destruct (cap_check_raw 9003 NetRaw s'); [discriminate (H eq_refl)|reflexivity].
Defined.

(** Findings.  A process without an entry passes every check, and may grant. *)
Lemma unregistered_passes pid c s : GRANTS s !! pid = None →
  cap_check pid c s = (Ok tt, s) ∧ (∀ q c', (grant pid q c' s).1 = Ok tt).
Proof.
  intros E. split; [unfold cap_check; rewrite E; by destruct (pid =? 0)|].
  intros q c'. unfold grant, cap_check_raw. rewrite E. by destruct (pid =? 0).
Qed.

(** ... although [get_grants] reports the default set for it, and granting it one
    token takes the others away. *)
Lemma grant_removes_rights :
  let s := mkCaps ∅ (mkSeccomp ∅ LOG) in
  permitted s 5 SysBoot = true ∧ has (get_grants 5 s) SysBoot = false
  ∧ permitted (grant 0 5 NetRaw s).2 5 SysBoot = false.
Proof. vm_compute. done. Qed.

(** A process with less than the default set gains rights by forking. *)
Lemma fork_gains_rights :
  let s := assign 7 (grant_cap SysFork sandboxed) (mkCaps ∅ (mkSeccomp ∅ LOG)) in
  (syscall_cap_check 7 FORK s).1 = Ok tt ∧ permitted s 7 NetConnect = false
  ∧ permitted (inherit_on_fork 7 8 s) 8 NetConnect = true.
Proof. vm_compute. done. Qed.

(** In strict mode the numbers admitted are the Linux ones: a native process may
    exit and yield, and may not read or write. *)
Lemma strict_mode_native_numbers :
  let s := mkCaps ∅ (set_strict 7 (mkSeccomp ∅ LOG)) in
  (syscall_cap_check 7 EXIT s).1 = Ok tt ∧ (syscall_cap_check 7 YIELD s).1 = Ok tt
  ∧ is_ok (syscall_cap_check 7 READ s).1 = false ∧ is_ok (syscall_cap_check 7 WRITE s).1 = false.
Proof. vm_compute. done. Qed.
