(* ===== verification/LinuxCaps.v ===== *)
(** Linux capability sets: [kernel/src/security/linux_caps.rs]. *)

From S2P Require Import Prelude Bits AuditLog Seccomp.

Definition CAP_SETPCAP : Z := 8.
Definition CAP_NET_BIND_SERVICE : Z := 10.
Definition CAP_SYS_NICE : Z := 23.

Record CapSet := mkCapSet { effective : Z; permitted_set : Z; inheritable_set : Z }.

Definition capset_all : CapSet := mkCapSet (2 ^ 64 - 1) (2 ^ 64 - 1) 0.
Definition capset_none : CapSet := mkCapSet 0 0 0.

(** [1u64 << (cap as u64)]: the shift amount is masked to the width (it panics
    with overflow checks on); the 40 capabilities are all below 64. *)
Definition cap_bit (cap : Z) : Z := Z.shiftl 1 (cap `mod` 64).

Definition non_root_default : CapSet :=
  let keep := Z.lor (cap_bit CAP_NET_BIND_SERVICE) (cap_bit CAP_SYS_NICE) in mkCapSet keep keep 0.

Definition has_effective (cs : CapSet) (cap : Z) : bool := negb (Z.land (effective cs) (cap_bit cap) =? 0).

Record t := mkLinuxCaps { CAPSETS : gmap Z CapSet; audit : AuditLog }.

Definition assign (pid : Z) (cs : CapSet) (s : t) : t := mkLinuxCaps (<[pid := cs]> (CAPSETS s)) (audit s).
Definition remove (pid : Z) (s : t) : t := mkLinuxCaps (delete pid (CAPSETS s)) (audit s).

Definition has_cap (pid cap : Z) (s : t) : bool :=
  if pid =? 0 then true else match CAPSETS s !! pid with Some cs => has_effective cs cap | None => true end.

Definition capget (pid : Z) (s : t) : CapSet := if pid =? 0 then capset_all else default capset_all (CAPSETS s !! pid).

Definition capset (target caller : Z) (cs : CapSet) : M t string unit := λ s,
  if negb (caller =? 0) && negb (has_cap caller CAP_SETPCAP s)
  then (Err "EPERM: need CAP_SETPCAP"%string, mkLinuxCaps (CAPSETS s) (log_cap_denied caller CAP_SETPCAP (audit s)))
  else (Ok tt, assign target cs s).

Definition drop_for_non_root (pid uid : Z) (s : t) : t := if negb (uid =? 0) then assign pid non_root_default s else s.

(** ** Properties *)

(** What processes without CAP_SETPCAP do to the table: [capset] on anyone, and
    the drop after exec as another user than root. *)
Inductive unpriv_step (P : gset Z) : t → t → Prop :=
| UCapset s caller target cs : caller ∈ P → unpriv_step P s (capset target caller cs s).2
| UDrop s pid uid : pid ∈ P → uid ≠ 0 → unpriv_step P s (drop_for_non_root pid uid s).

Definition lacks_setpcap (P : gset Z) (s : t) : Prop := ∀ p, p ∈ P → p ≠ 0 ∧ has_cap p CAP_SETPCAP s = false.

Lemma unpriv_step_kept P s s' : unpriv_step P s s' → lacks_setpcap P s →
  lacks_setpcap P s' ∧ ∀ p, CAPSETS s' !! p = CAPSETS s !! p ∨ p ∈ P ∧ CAPSETS s' !! p = Some non_root_default.
Proof.
  intros Hst Hp. destruct Hst as [s caller target cs Hc|s pid uid Hpid Hu].
  - unfold capset. destruct (Hp caller Hc) as [H0 Hno]. apply Z.eqb_neq in H0 as ->. rewrite Hno. simpl.
    split; [|by left]. intros p Hin. exact (Hp p Hin).
  - unfold drop_for_non_root. apply Z.eqb_neq in Hu as ->. simpl. split.
    + intros p Hin. destruct (Hp p Hin) as [H0 Hno]. split; [done|]. unfold has_cap in *. apply Z.eqb_neq in H0 as H0'.
      rewrite H0' in *. simpl. destruct (decide (p = pid)) as [->|Hne]; [by rewrite lookup_insert_eq|by rewrite lookup_insert_ne].
    + intros p. simpl. destruct (decide (p = pid)) as [->|Hne].
      * right. by rewrite lookup_insert_eq.
      * left. by rewrite lookup_insert_ne.
Qed.

(** Without CAP_SETPCAP no sequence of [capset] calls changes any process's sets,
    and none of the processes gains CAP_SETPCAP; all the sets can become is the
    reduced default after exec. *)
Lemma linux_caps_confined P s s' : lacks_setpcap P s → rtc (unpriv_step P) s s' →
  lacks_setpcap P s' ∧ ∀ p, CAPSETS s' !! p = CAPSETS s !! p ∨ p ∈ P ∧ CAPSETS s' !! p = Some non_root_default.
Proof.
  intros Hp Hs. revert Hp. induction Hs as [s|s1 s2 s3 Hst _ IH]; intros Hp; [split; [done|by left]|].
  destruct (unpriv_step_kept P s1 s2 Hst Hp) as [H2 H3]. destruct (IH H2) as [H4 H5]. split; [done|].
  intros p. destruct (H5 p) as [->|[? ->]]; [apply H3|by right].
Qed.

(** A caller with CAP_SETPCAP may raise its effective set beyond its permitted
    one; the permitted set is stored and never consulted. *)
Lemma capset_ignores_permitted s caller : has_cap caller CAP_SETPCAP s = true → caller ≠ 0 →
  capget caller (capset caller caller (mkCapSet (2 ^ 64 - 1) 0 0) s).2 = mkCapSet (2 ^ 64 - 1) 0 0.
Proof.
  intros Hc H0. apply Z.eqb_neq in H0. unfold capset. rewrite Hc, H0. simpl. unfold capget. rewrite H0. simpl.
  by rewrite lookup_insert_eq.
Qed.
