(* ===== verification/Signals.v ===== *)
(** Signal queues ([kernel/src/process/signal.rs]) and the handler table
    ([kernel/src/process/sigdeliver.rs]).

    The queues are keyed by thread, the handlers and saved contexts by
    process.  [send_signal] asks the scheduler for its threads; their ids are
    an argument here and come from [Sched] in [Process].  Printing and the
    formatted handler listing are left out. *)

From S2P Require Import Prelude.

Inductive Signal := Term | Kill | Stop | Cont | Int | Usr1 | Usr2 | Child.
#[export] Instance Signal_eq : EqDecision Signal.
Proof. solve_decision. Defined.

Definition signal_name (sig : Signal) : string :=
  match sig with
  | Term => "SIGTERM" | Kill => "SIGKILL" | Stop => "SIGSTOP" | Cont => "SIGCONT"
  | Int => "SIGINT" | Usr1 => "SIGUSR1" | Usr2 => "SIGUSR2" | Child => "SIGCHLD"
  end.

(** ** Queues *)

Notation SignalQueues := (gmap Z (list Signal)).

(** [queues.entry(tid).or_insert_with(VecDeque::new).push_back(sig)] *)
Definition push_signal (tid : Z) (sig : Signal) (q : SignalQueues) : SignalQueues :=
  <[tid := default [] (q !! tid) ++ [sig]]> q.

Definition send_signal (threads : list Z) (tid : Z) (sig : Signal) (q : SignalQueues) : result string unit * SignalQueues :=
  if negb (existsb (λ id, id =? tid) threads) then (Err "thread not found"%string, q)
  else if bool_decide (sig = Kill) then (Ok tt, push_signal tid sig q)
  else (Ok tt, push_signal tid sig q).

Definition pending_signal (tid : Z) (q : SignalQueues) : option Signal * SignalQueues :=
  match q !! tid with
  | Some (s :: rest) => (Some s, <[tid := rest]> q)
  | Some [] => (None, q)
  | None => (None, q)
  end.

Definition clear_signals (tid : Z) (q : SignalQueues) : SignalQueues := delete tid q.

(** ** Handlers *)

Definition MAX_SIGNALS : nat := 8.

Record SignalContext := mkContext { rip : Z; rflags : Z; rsp : Z }.
Record SigState := mkSig {
  SIG_HANDLERS : gmap Z (list Z);
  SIG_CONTEXTS : gmap Z SignalContext;
}.

Definition signal_to_index (sig : Signal) : nat :=
  match sig with Term => 0 | Kill => 1 | Stop => 2 | Cont => 3 | Int => 4 | Usr1 => 5 | Usr2 => 6 | Child => 7 end.

Definition init_handlers (pid : Z) (s : SigState) : SigState :=
  mkSig (<[pid := replicate MAX_SIGNALS 0]> (SIG_HANDLERS s)) (SIG_CONTEXTS s).
Definition destroy_handlers (pid : Z) (s : SigState) : SigState :=
  mkSig (delete pid (SIG_HANDLERS s)) (delete pid (SIG_CONTEXTS s)).
Definition clone_handlers (src_pid dst_pid : Z) (s : SigState) : SigState :=
  match SIG_HANDLERS s !! src_pid with
  | Some src => mkSig (<[dst_pid := src]> (SIG_HANDLERS s)) (SIG_CONTEXTS s)
  | None => s
  end.

Definition register_handler (pid : Z) (signum : nat) (handler_addr : Z) (s : SigState) : result string Z * SigState :=
  if (MAX_SIGNALS <=? signum)%nat then (Err "Invalid signal number"%string, s)
  else if (signum =? 1)%nat || (signum =? 2)%nat then (Err "Cannot catch SIGKILL or SIGSTOP"%string, s)
  else match SIG_HANDLERS s !! pid with
       | None => (Err "No handler table for process"%string, s)
       | Some table => (Ok (nth signum table 0), mkSig (<[pid := <[signum := handler_addr]> table]> (SIG_HANDLERS s)) (SIG_CONTEXTS s))
       end.

Definition get_handler (pid : Z) (sig : Signal) (s : SigState) : Z :=
  match SIG_HANDLERS s !! pid with Some t => nth (signal_to_index sig) t 0 | None => 0 end.
Definition has_handler (pid : Z) (sig : Signal) (s : SigState) : bool :=
  match SIG_HANDLERS s !! pid with Some t => negb (nth (signal_to_index sig) t 0 =? 0) | None => false end.

Definition save_context (pid rip rflags rsp : Z) (s : SigState) : SigState :=
  mkSig (SIG_HANDLERS s) (<[pid := mkContext rip rflags rsp]> (SIG_CONTEXTS s)).
Definition handle_sigreturn (pid : Z) (s : SigState) : option (Z * Z * Z) * SigState :=
  match SIG_CONTEXTS s !! pid with
  | Some c => (Some (rip c, rflags c, rsp c), mkSig (SIG_HANDLERS s) (delete pid (SIG_CONTEXTS s)))
  | None => (None, s)
  end.

(** ** Queues deliver in order *)

Inductive sig_op := Send (threads : list Z) (tid : Z) (sig : Signal) | Next (tid : Z) | Clear (tid : Z).

(** The signals [tid] is sent, and those it takes, by a run. *)
Definition sig_apply (op : sig_op) (q : SignalQueues) : option (Z * Signal) * SignalQueues :=
  match op with
  | Send threads tid sig => (None, (send_signal threads tid sig q).2)
  | Next tid => let '(o, q') := pending_signal tid q in ((λ s, (tid, s)) <$> o, q')
  | Clear tid => (None, clear_signals tid q)
  end.

(** Reference: one list of undelivered signals per thread. *)
Definition spec_sig (op : sig_op) (m : Z → list Signal) : option (Z * Signal) * (Z → list Signal) :=
  match op with
  | Send threads tid sig =>
      (None, λ t, if bool_decide (t = tid) && existsb (λ id, id =? tid) threads then m t ++ [sig] else m t)
  | Next tid => match m tid with
                | s :: rest => (Some (tid, s), λ t, if bool_decide (t = tid) then rest else m t)
                | [] => (None, m)
                end
  | Clear tid => (None, λ t, if bool_decide (t = tid) then [] else m t)
  end.

Definition pending_of (q : SignalQueues) (t : Z) : list Signal := default [] (q !! t).

Lemma sig_apply_spec op q : (sig_apply op q).1 = (spec_sig op (pending_of q)).1
  ∧ ∀ t, pending_of (sig_apply op q).2 t = (spec_sig op (pending_of q)).2 t.
Proof.
  destruct op as [threads tid sig|tid|tid]; simpl.
  - split; [done|]. intros t. unfold send_signal, push_signal, pending_of.
    destruct (existsb _ threads); simpl; [|by rewrite andb_false_r].
    rewrite andb_true_r. destruct (bool_decide (sig = Kill)); cbn [snd]; (destruct (decide (t = tid)) as [->|Hne];
      [by rewrite lookup_insert_eq, bool_decide_eq_true_2|by rewrite lookup_insert_ne, bool_decide_eq_false_2]).
  - unfold pending_signal, pending_of. destruct (q !! tid) as [[|s rest]|] eqn:E; simpl; try done.
    split; [done|]. intros t. destruct (decide (t = tid)) as [->|Hne];
      [by rewrite lookup_insert_eq, bool_decide_eq_true_2|by rewrite lookup_insert_ne, bool_decide_eq_false_2].
  - split; [done|]. intros t. unfold clear_signals, pending_of.
    destruct (decide (t = tid)) as [->|Hne];
      [by rewrite lookup_delete_eq, bool_decide_eq_true_2|by rewrite lookup_delete_ne, bool_decide_eq_false_2].
Qed.

(** ** Uncatchable signals *)

Definition handlers_ok (s : SigState) : Prop :=
  map_Forall (λ _ t, length t = MAX_SIGNALS ∧ nth 1 t 0 = 0 ∧ nth 2 t 0 = 0) (SIG_HANDLERS s).

Inductive handler_op :=
| OpInit (pid : Z) | OpDestroy (pid : Z) | OpClone (src dst : Z) | OpRegister (pid : Z) (signum : nat) (addr : Z)
| OpSave (pid rip rflags rsp : Z) | OpReturn (pid : Z).
Definition handler_apply (op : handler_op) (s : SigState) : SigState :=
  match op with
  | OpInit pid => init_handlers pid s
  | OpDestroy pid => destroy_handlers pid s
  | OpClone src dst => clone_handlers src dst s
  | OpRegister pid n a => (register_handler pid n a s).2
  | OpSave pid a b c => save_context pid a b c s
  | OpReturn pid => (handle_sigreturn pid s).2
  end.

Lemma handlers_ok_step op s : handlers_ok s → handlers_ok (handler_apply op s).
Proof.
  intros Hs. destruct op as [pid|pid|src dst|pid n a|pid a b c|pid]; cbn [handler_apply].
  - apply map_Forall_insert_2; [done|exact Hs].
  - apply map_Forall_delete, Hs.
  - unfold clone_handlers. destruct (SIG_HANDLERS s !! src) as [t|] eqn:E; [|done].
    apply map_Forall_insert_2; [exact (Hs src t E)|exact Hs].
  - unfold register_handler. destruct (MAX_SIGNALS <=? n)%nat; [done|].
    destruct ((n =? 1)%nat || (n =? 2)%nat) eqn:En; [done|]. apply orb_false_iff in En as [N1%Nat.eqb_neq N2%Nat.eqb_neq].
    destruct (SIG_HANDLERS s !! pid) as [t|] eqn:E; [|done]. destruct (Hs pid t E) as (L & H1 & H2).
    apply map_Forall_insert_2; [|exact Hs]. rewrite length_insert. split; [done|].
    rewrite !nth_lookup in *. by rewrite !list_lookup_insert_ne.
  - exact Hs.
  - unfold handle_sigreturn. by destruct (SIG_CONTEXTS s !! pid).
Qed.

(** Signals are queued per thread and delivered in order, and SIGKILL and
    SIGSTOP cannot be caught: for every sequence of sends, fetches and clears,
    each fetch returns what one list of undelivered signals per thread would
    return; and for every sequence of handler operations (new process, exit,
    fork, registration, delivery and return) no process has a handler for
    either signal. *)
Theorem signals_correct (qops : list sig_op) (hops : list handler_op) :
  (∀ q, (foldl (λ '(out, q) op, let '(o, q') := sig_apply op q in (out ++ option_list o, q')) ([], q) qops).1
     = (foldl (λ '(out, m) op, let '(o, m') := spec_sig op m in (out ++ option_list o, m')) ([], pending_of q) qops).1)
  ∧ (let s := foldl (λ s op, handler_apply op s) (mkSig ∅ ∅) hops in
     ∀ pid, has_handler pid Kill s = false ∧ has_handler pid Stop s = false).
Proof.
  split.
  - assert (Hext : ∀ op m m', (∀ t, m t = m' t) → (spec_sig op m).1 = (spec_sig op m').1 ∧ ∀ t, (spec_sig op m).2 t = (spec_sig op m').2 t).
    { intros op m m' H. destruct op as [threads tid sig|tid|tid]; simpl; [by split; [|intros t; rewrite H]| |].
      - rewrite H. destruct (m' tid); simpl; [by split|]. split; [done|]. intros t. by rewrite H.
      - split; [done|]. intros t. by rewrite H. }
    assert (H : ∀ q m out, (∀ t, pending_of q t = m t) →
      (foldl (λ '(out, q) op, let '(o, q') := sig_apply op q in (out ++ option_list o, q')) (out, q) qops).1
      = (foldl (λ '(out, m) op, let '(o, m') := spec_sig op m in (out ++ option_list o, m')) (out, m) qops).1); [|by intros q; apply H].
    induction qops as [|op qops IH]; intros q m out Hq; [done|]. cbn [foldl].
    destruct (sig_apply_spec op q) as [H1 H2]. destruct (Hext op (pending_of q) m Hq) as [H3 H4].
    destruct (sig_apply op q) as [o q'], (spec_sig op m) as [o' m']. simpl in *. rewrite H1, H3.
    apply IH. intros t. by rewrite H2, H4.
  - assert (H : handlers_ok (foldl (λ s op, handler_apply op s) (mkSig ∅ ∅) hops)).
    { assert (H0 : handlers_ok (mkSig ∅ ∅)) by apply map_Forall_empty. revert H0. generalize (mkSig ∅ ∅).
      induction hops as [|op hops IH]; intros s Hs; [done|]. cbn [foldl]. by apply IH, handlers_ok_step. }
    cbv zeta. intros pid. unfold has_handler. destruct (SIG_HANDLERS _ !! pid) as [t|] eqn:E; [|done].
    destruct (H pid t E) as (_ & H1 & H2). simpl. by rewrite H1, H2.
Qed.
