(* ===== verification/Process.v ===== *)
(** The process table and the end of processes
    ([kernel/src/process/process.rs]), with the bookkeeping of spawn, fork and
    waitpid ([arch/x86_64/syscall_entry.rs], [process/scheduler.rs]) and the
    choice of an out-of-memory victim ([kernel/src/memory/oom.rs]).

    The tables a process owns elsewhere are the models of their components:
    descriptors ([FdTable]), handlers and signal queues ([Signals]), Linux
    capabilities ([LinuxCaps]) and threads ([Sched]).  A page table is the
    address of its root frame; the ones handed to [free_user_page_table] are
    recorded in [freed].  Windows of the display server, audit text and console
    output are left out. *)

From S2P Require Import Prelude FdTable Sched Signals AuditLog LinuxCaps.

Inductive ProcessState := ProcRunning | Zombie.
#[export] Instance ProcessState_eq : EqDecision ProcessState.
Proof. solve_decision. Defined.

Record Process := mkProc {
  p_pid : Z;
  p_name : string;
  page_table : option Z;
  threads : list Z;
  p_state : ProcessState;
  parent_pid : Z;
  exit_code : option Z;
  children : list Z;
  is_linux : bool;
  uid : Z;
  gid : Z;
}.

Record t := mkT {
  PROCESS_TABLE : gmap Z Process;
  NEXT_PID : Z;
  PROC_FD_TABLES : gmap Z ProcessFdTable;
  CWD_TABLE : gmap Z string;
  sig : SigState;
  SIGNAL_QUEUES : gmap Z (list Signal);
  lcaps : LinuxCaps.t;
  sched : Sched.t;
  freed : list Z;
}.

Definition set_table (m : gmap Z Process) (s : t) : t :=
  mkT m (NEXT_PID s) (PROC_FD_TABLES s) (CWD_TABLE s) (sig s) (SIGNAL_QUEUES s) (lcaps s) (sched s) (freed s).
Definition set_children (ch : list Z) (p : Process) : Process :=
  mkProc (p_pid p) (p_name p) (page_table p) (threads p) (p_state p) (parent_pid p) (exit_code p) ch (is_linux p) (uid p) (gid p).
Definition set_parent (q : Z) (p : Process) : Process :=
  mkProc (p_pid p) (p_name p) (page_table p) (threads p) (p_state p) q (exit_code p) (children p) (is_linux p) (uid p) (gid p).
Definition add_thread (tid : Z) (p : Process) : Process :=
  mkProc (p_pid p) (p_name p) (page_table p) (threads p ++ [tid]) (p_state p) (parent_pid p) (exit_code p) (children p)
    (is_linux p) (uid p) (gid p).
Definition make_zombie (code : Z) (p : Process) : Process :=
  mkProc (p_pid p) (p_name p) None (threads p) Zombie (parent_pid p) (Some code) [] (is_linux p) (uid p) (gid p).

(** ** Creation *)

Definition new_kernel (nm : string) : Process := mkProc 0 nm None [] ProcRunning 0 None [] false 0 0.

Definition alloc_pid (s : t) : Z * t :=
  (NEXT_PID s, mkT (PROCESS_TABLE s) (wrap 64 (NEXT_PID s + 1)) (PROC_FD_TABLES s) (CWD_TABLE s) (sig s) (SIGNAL_QUEUES s)
                 (lcaps s) (sched s) (freed s)).

(** [session] is the user id of the current session. *)
Definition new_user (session : option Z) (nm : string) (pml4 : Z) (linux : bool) (s : t) : Process * t :=
  let '(pid, s1) := alloc_pid s in
  let uid := default 1000 session in
  (mkProc pid nm (Some pml4) [] ProcRunning 0 None [] linux uid uid,
   mkT (PROCESS_TABLE s1) (NEXT_PID s1) (create_fd_table pid (PROC_FD_TABLES s1)) (<[pid := "/"%string]> (CWD_TABLE s1))
     (init_handlers pid (sig s1)) (SIGNAL_QUEUES s1)
     (LinuxCaps.assign pid (if uid =? 0 then capset_all else non_root_default) (lcaps s1)) (sched s1) (freed s1)).

Definition init (s : t) : t := set_table (<[0 := new_kernel "kernel"]> (PROCESS_TABLE s)) s.

(** The registration at the end of [spawn_user_process]; [tid] is its thread. *)
Definition spawn_process (session : option Z) (nm : string) (pml4 : Z) (linux : bool) (tid : Z) (s : t) : Z * t :=
  let '(p, s1) := new_user session nm pml4 linux s in
  (p_pid p, set_table (<[p_pid p := add_thread tid p]> (PROCESS_TABLE s1)) s1).

(** [SYS_SPAWN]: the child is entered under its parent. *)
Definition adopt (parent child : Z) (s : t) : t :=
  set_table (alter (λ p, set_children (children p ++ [child]) p) parent
    (alter (set_parent parent) child (PROCESS_TABLE s))) s.

(** [handle_fork], with the thread and the page table the child was given;
    [None] where the source panics or refuses. *)
Definition fork_process (session : option Z) (pid child_pml4 tid : Z) (s : t) : option (Z * t) :=
  if pid =? 0 then None
  else match PROCESS_TABLE s !! pid with
  | None => None
  | Some parent =>
      match page_table parent with
      | None => None
      | Some _ =>
          let '(p, s1) := new_user session "forked" child_pml4 (is_linux parent) s in
          let child_pid := p_pid p in
          let s2 := mkT (PROCESS_TABLE s1) (NEXT_PID s1) (clone_fd_table pid child_pid (PROC_FD_TABLES s1)) (CWD_TABLE s1) (sig s1)
                      (SIGNAL_QUEUES s1) (lcaps s1) (sched s1) (freed s1) in
          Some (child_pid, set_table (alter (λ q, set_children (children q ++ [child_pid]) q) pid
                  (<[child_pid := add_thread tid (set_parent pid p)]> (PROCESS_TABLE s2))) s2)
      end
  end.

(** ** The end of a process *)

Definition exit_process (pid code : Z) (s : t) : t :=
  match PROCESS_TABLE s !! pid with
  | None => s
  | Some p =>
      let p' := mkProc (p_pid p) (p_name p) None (threads p) Zombie (parent_pid p) (Some code) (children p) (is_linux p) (uid p) (gid p) in
      mkT (<[pid := p']> (PROCESS_TABLE s)) (NEXT_PID s) (PROC_FD_TABLES s) (CWD_TABLE s) (sig s) (SIGNAL_QUEUES s) (lcaps s)
        (sched s) (freed s ++ option_list (page_table p))
  end.

(** [list_threads]: the running thread, the ready queue and the blocked ones. *)
Definition thread_ids (s : Sched.t) : list Z :=
  (tid <$> Sched.active_threads s) ++ (tid <$> (map_to_list (Sched.blocked_threads s)).*2).

(** Children of an exiting process go to the kernel. *)
Definition reparent (ch : list Z) (m : gmap Z Process) : gmap Z Process :=
  alter (λ k, set_children (children k ++ ch) k) 0 (foldl (λ m c, alter (set_parent 0) c m) m ch).

(** [locked]: whether the scheduler lock is taken when a waiter is woken. *)
Definition exit_process_full (locked : bool) (pid code : Z) (s : t) : t :=
  let fd' := destroy_fd_table pid (PROC_FD_TABLES s) in
  let cwd' := delete pid (CWD_TABLE s) in
  let sig' := destroy_handlers pid (sig s) in
  match PROCESS_TABLE s !! pid with
  | None => mkT (PROCESS_TABLE s) (NEXT_PID s) fd' cwd' sig' (SIGNAL_QUEUES s) (lcaps s) (sched s) (freed s)
  | Some p =>
      let m := reparent (children p) (<[pid := make_zombie code p]> (PROCESS_TABLE s)) in
      let sched' := exit_wakeups locked pid (sched s) in
      let q := if negb (parent_pid p =? 0) then (send_signal (thread_ids sched') (parent_pid p) Child (SIGNAL_QUEUES s)).2
               else SIGNAL_QUEUES s in
      mkT m (NEXT_PID s) fd' cwd' sig' q (lcaps s) sched' (freed s ++ option_list (page_table p))
  end.

Definition reap_zombie (pid : Z) (s : t) : option Z * t :=
  match PROCESS_TABLE s !! pid with
  | Some p =>
      if bool_decide (p_state p = Zombie) then
        (exit_code p, set_table (alter (λ q, set_children (filter (λ c, c ≠ pid) (children q)) q) (parent_pid p)
                        (delete pid (PROCESS_TABLE s))) s)
      else (None, s)
  | None => (None, s)
  end.

(** [handle_waitpid] blocks the caller whatever the state of the target. *)
Definition handle_waitpid (target : Z) (s : t) : t :=
  mkT (PROCESS_TABLE s) (NEXT_PID s) (PROC_FD_TABLES s) (CWD_TABLE s) (sig s) (SIGNAL_QUEUES s) (lcaps s)
    (block_current_thread (WaitPid target) (sched s)).2 (freed s).

(** ** Out of memory *)

Definition frame_pages_per_thread : Z := 64.

(** [total] is the number of frames of the allocator. *)
Definition oom_score (total pid : Z) (s : t) : Z :=
  if pid =? 0 then -1000
  else match PROCESS_TABLE s !! pid with
  | None => -1
  | Some p =>
      if (uid p =? 0) && (pid <=? 2) then -500
      else
        let thread_pages := Z.of_nat (length (threads p)) * frame_pages_per_thread in
        let base := if 0 <? total then thread_pages * 1000 / total else 0 in
        let score := if negb (parent_pid p =? 0) && negb (bool_decide (is_Some (PROCESS_TABLE s !! parent_pid p)))
                     then base + 200 else base in
        let score := if uid p =? 0 then score - 500 else score in
        let score := if (8 <? length (children p))%nat then score + (Z.of_nat (length (children p)) - 8) * 10 else score in
        Z.max 0 (Z.min 1000 score)
  end.

(** A stable sort by descending score. *)
Fixpoint insert_score (x : Z * Z) (l : list (Z * Z)) : list (Z * Z) :=
  match l with
  | [] => [x]
  | y :: l' => if y.2 <? x.2 then x :: l else y :: insert_score x l'
  end.
Definition sort_scores (l : list (Z * Z)) : list (Z * Z) := foldl (λ acc x, insert_score x acc) [] l.

Definition score_all (total : Z) (s : t) : list (Z * Z) :=
  sort_scores (List.filter (λ x, 0 <=? x.2)
    (map (λ p, (p, oom_score total p s)) (List.filter (λ p, negb (p =? 0)) (sorted_keys (PROCESS_TABLE s))))).

(** [enabled] is [OOM_SCORE_ENABLED]. *)
Definition oom_kill (enabled locked : bool) (total : Z) (s : t) : option Z * t :=
  if negb enabled then (None, s)
  else match score_all total s with
  | [] => (None, s)
  | (victim, _) :: _ =>
      if bool_decide (is_Some (PROCESS_TABLE s !! victim)) then (Some victim, exit_process_full locked victim (-1) s)
      else (None, s)
  end.

Inductive PressureLevel := PNormal | PLow | PCritical.
#[export] Instance PressureLevel_eq : EqDecision PressureLevel.
Proof. solve_decision. Defined.

Definition WATERMARK_LOW_PAGES : Z := 128.
Definition WATERMARK_CRIT_PAGES : Z := 32.
Definition RECLAIM_PAGES_LOW : nat := 16.
Definition RECLAIM_PAGES_CRIT : nat := 64.

Definition pressure_level (free : Z) : PressureLevel :=
  if free <? WATERMARK_CRIT_PAGES then PCritical else if free <? WATERMARK_LOW_PAGES then PLow else PNormal.

Fixpoint reclaim_loop (target : nat) (pids : list Z) (m : gmap Z Process) (freed : nat) : nat :=
  match pids with
  | [] => freed
  | pid :: pids' =>
      if (target <=? freed)%nat then freed
      else match m !! pid with
      | Some p => if (pid =? 0) || bool_decide (p_state p = Zombie) then reclaim_loop target pids' m freed
                  else reclaim_loop target pids' m (S freed)
      | None => reclaim_loop target pids' m freed
      end
  end.

Record OomState := mkOom { PAGES_RECLAIMED : Z; RECLAIM_PASSES : Z; OOM_KILLS : Z; PRESSURE_TICKS : Z }.

Definition try_reclaim (target : nat) (s : t) (o : OomState) : nat * OomState :=
  let freed := reclaim_loop target (sorted_keys (PROCESS_TABLE s)) (PROCESS_TABLE s) 0 in
  (freed, mkOom (wrap 64 (PAGES_RECLAIMED o + Z.of_nat freed)) (wrap 64 (RECLAIM_PASSES o + 1)) (OOM_KILLS o) (PRESSURE_TICKS o)).

(** [free] is read once before and once after the reclaim pass; the pass
    itself frees nothing, so both readings are the argument. *)
Definition check_and_act (enabled locked : bool) (free total : Z) (s : t) (o : OomState) : option Z * t * OomState :=
  match pressure_level free with
  | PNormal => (None, s, mkOom (PAGES_RECLAIMED o) (RECLAIM_PASSES o) (OOM_KILLS o) 0)
  | PLow =>
      let o1 := mkOom (PAGES_RECLAIMED o) (RECLAIM_PASSES o) (OOM_KILLS o) (wrap 64 (PRESSURE_TICKS o + 1)) in
      (None, s, (try_reclaim RECLAIM_PAGES_LOW s o1).2)
  | PCritical =>
      let ticks := PRESSURE_TICKS o in
      let o1 := mkOom (PAGES_RECLAIMED o) (RECLAIM_PASSES o) (OOM_KILLS o) (wrap 64 (ticks + 1)) in
      let '(reclaimed, o2) := try_reclaim RECLAIM_PAGES_CRIT s o1 in
      if (2 <=? ticks) || (reclaimed =? 0)%nat then
        match oom_kill enabled locked total s with
        | (Some v, s') => (Some v, s', mkOom (PAGES_RECLAIMED o2) (RECLAIM_PASSES o2) (wrap 64 (OOM_KILLS o2 + 1)) (PRESSURE_TICKS o2))
        | (None, s') => (None, s', o2)
        end
      else (None, s, o2)
  end.

(** ** The process tree *)

Record tree_ok (m : gmap Z Process) (next : Z) : Prop := {
  tr_child p q c : m !! p = Some q → c ∈ children q → ∃ r, m !! c = Some r ∧ parent_pid r = p;
  tr_parent c r : m !! c = Some r → parent_pid r ≠ 0 → ∃ q, m !! parent_pid r = Some q ∧ c ∈ children q;
  tr_nodup p q : m !! p = Some q → NoDup (children q);
  tr_zombie p q : m !! p = Some q → p_state q = Zombie → children q = [];
  tr_kernel : ∃ k, m !! 0 = Some k ∧ p_state k = ProcRunning;
  tr_fresh p q : m !! p = Some q → 0 ≤ p < next;
}.

(** A new process under a running parent. *)
Lemma tree_add m next par q n p : tree_ok m next → m !! par = Some q → p_state q = ProcRunning → next ≤ n →
  parent_pid p = par → children p = [] →
  tree_ok (alter (λ q, set_children (children q ++ [n]) q) par (<[n := p]> m)) (n + 1).
Proof.
  intros H Hq Hrun Hn Hpar Hch. set (m' := alter _ par _).
  assert (Hfresh : m !! n = None).
  { destruct (m !! n) as [x|] eqn:E; [|done]. apply (tr_fresh _ _ H) in E. lia. }
  assert (Hne : par ≠ n) by (intros ->; congruence).
  assert (Hm : ∀ x, m' !! x = if decide (x = par) then Some (set_children (children q ++ [n]) q)
                              else if decide (x = n) then Some p else m !! x).
  { intros x. unfold m'. destruct (decide (x = par)) as [->|Hx].
    - by rewrite lookup_alter_eq, lookup_insert_ne, Hq.
    - rewrite lookup_alter_ne by done. destruct (decide (x = n)) as [->|]; [by rewrite lookup_insert_eq|by rewrite lookup_insert_ne]. }
  assert (Hkeep : ∀ c r, m !! c = Some r → ∃ r', m' !! c = Some r' ∧ parent_pid r' = parent_pid r ∧ p_state r' = p_state r
    ∧ (∀ x, x ∈ children r → x ∈ children r')).
  { intros c r Hc. rewrite Hm. destruct (decide (c = par)) as [->|].
    - assert (r = q) as -> by congruence. eexists. split; [done|]. split_and!; try done. intros x Hx. apply elem_of_app. by left.
    - destruct (decide (c = n)) as [->|]; [congruence|]. exists r. done. }
  split.
  - intros x y c. rewrite Hm. destruct (decide (x = par)) as [->|Hx].
    + intros [= <-]. cbn [children set_children]. rewrite elem_of_app, list_elem_of_singleton. intros [Hc| ->].
      * destruct (tr_child _ _ H par q c Hq Hc) as (r & Hr & Hp). destruct (Hkeep c r Hr) as (r' & ? & E & _). exists r'. by rewrite E.
      * exists p. rewrite Hm, decide_False, decide_True by done. done.
    + destruct (decide (x = n)) as [->|]; [intros [= <-]; rewrite Hch; by intros ?%elem_of_nil|].
      intros Hy Hc. destruct (tr_child _ _ H x y c Hy Hc) as (r & Hr & Hp). destruct (Hkeep c r Hr) as (r' & ? & E & _). exists r'. by rewrite E.
  - assert (Hold : ∀ c r, m !! c = Some r → parent_pid r ≠ 0 → ∃ q', m' !! parent_pid r = Some q' ∧ c ∈ children q').
    { intros c r Hc Hp. destruct (tr_parent _ _ H c r Hc Hp) as (q0 & Hq0 & Hin).
      destruct (Hkeep _ _ Hq0) as (q' & ? & _ & _ & Hsub). exists q'. auto. }
    intros c r. rewrite Hm. destruct (decide (c = par)) as [->|]; [intros [= <-]; exact (Hold par q Hq)|].
    destruct (decide (c = n)) as [->|]; [|by apply Hold]. intros [= <-] _. rewrite Hpar, Hm, decide_True by done.
    eexists. split; [done|]. cbn. apply elem_of_app. right. by apply list_elem_of_singleton.
  - intros x y. rewrite Hm. destruct (decide (x = par)) as [->|].
    + intros [= <-]. cbn. apply NoDup_app. split_and!; [by apply (tr_nodup _ _ H par)| |apply NoDup_singleton].
      intros c Hc ->%list_elem_of_singleton. destruct (tr_child _ _ H par q n Hq Hc) as (r & Hr & _). congruence.
    + destruct (decide (x = n)); [intros [= <-]; rewrite Hch; constructor|apply (tr_nodup _ _ H)].
  - intros x y. rewrite Hm. destruct (decide (x = par)) as [->|]; [intros [= <-]; cbn; congruence|].
    destruct (decide (x = n)); [by intros [= <-]|apply (tr_zombie _ _ H)].
  - destruct (tr_kernel _ _ H) as (k & Hk & Hs). destruct (Hkeep 0 k Hk) as (k' & ? & _ & E & _). exists k'. by rewrite E.
  - intros x y. rewrite Hm. destruct (tr_fresh _ _ H par q Hq).
    destruct (decide (x = par)) as [->|]; [intros _; lia|]. destruct (decide (x = n)) as [->|]; [intros _; lia|].
    intros Hy. apply (tr_fresh _ _ H) in Hy. lia.
Qed.

Lemma lookup_reparent ch m x :
  reparent ch m !! x = (λ p, let p := if bool_decide (x ∈ ch) then set_parent 0 p else p in
                             if bool_decide (x = 0) then set_children (children p ++ ch) p else p) <$> m !! x.
Proof.
  assert (Hf : ∀ l (m : gmap Z Process), foldl (λ m c, alter (set_parent 0) c m) m l !! x
    = (λ p, if bool_decide (x ∈ l) then set_parent 0 p else p) <$> m !! x).
  { induction l as [|c l IH]; intros m0; [by rewrite bool_decide_eq_false_2, option_fmap_id by apply not_elem_of_nil|].
    cbn [foldl]. rewrite IH. destruct (decide (x = c)) as [->|Hne].
    - rewrite lookup_alter_eq. rewrite (bool_decide_eq_true_2 (c ∈ c :: l)) by apply list_elem_of_here.
      destruct (m0 !! c); [|done]. cbn. by destruct (bool_decide (c ∈ l)).
    - rewrite lookup_alter_ne by done. destruct (m0 !! x); [|done]. cbn.
      assert (E : bool_decide (x ∈ c :: l) = bool_decide (x ∈ l)); [|by rewrite E].
      apply bool_decide_ext. rewrite elem_of_cons. split; [intros [|]; done|by right]. }
  unfold reparent. destruct (decide (x = 0)) as [->|Hne].
  - rewrite lookup_alter_eq, Hf. destruct (m !! 0); [|done]. cbn. by rewrite (bool_decide_eq_true_2 (0 = 0)).
  - rewrite lookup_alter_ne, Hf by done. destruct (m !! x); [|done]. cbn. by rewrite (bool_decide_eq_false_2 (x = 0)).
Qed.

(** An exit moves the children to the kernel. *)
Lemma tree_exit m next pid code p : tree_ok m next → m !! pid = Some p → pid ≠ 0 →
  tree_ok (reparent (children p) (<[pid := make_zombie code p]> m)) next.
Proof.
  intros H Hp Hpid. set (ch := children p). set (m1 := <[pid := make_zombie code p]> m). set (m' := reparent ch m1).
  assert (Hin : ∀ c, c ∈ ch ↔ ∃ r, m !! c = Some r ∧ parent_pid r = pid).
  { intros c. split; [apply (tr_child _ _ H pid p c Hp)|]. intros (r & Hr & Hpar).
    destruct (tr_parent _ _ H c r Hr ltac:(congruence)) as (q & Hq & Hc). rewrite Hpar, Hp in Hq. by injection Hq as <-. }
  assert (Hm : ∀ x y, m' !! x = Some y → ∃ z, m !! x = Some z
    ∧ parent_pid y = (if bool_decide (x ∈ ch) then 0 else parent_pid z)
    ∧ children y = (if bool_decide (x = pid) then [] else children z) ++ (if bool_decide (x = 0) then ch else [])
    ∧ p_state y = (if bool_decide (x = pid) then Zombie else p_state z)).
  { intros x y. unfold m'. rewrite lookup_reparent. destruct (decide (x = pid)) as [->|Hx].
    - unfold m1. rewrite lookup_insert_eq. cbn. intros [= <-]. exists p. split; [done|].
      rewrite (bool_decide_eq_false_2 (pid = 0)), (bool_decide_eq_true_2 (pid = pid)) by done.
      destruct (bool_decide (pid ∈ ch)); done.
    - unfold m1. rewrite lookup_insert_ne by done. destruct (m !! x) as [z|]; [|done]. cbn. intros [= <-]. exists z. split; [done|].
      rewrite (bool_decide_eq_false_2 (x = pid)) by done.
      destruct (bool_decide (x ∈ ch)), (bool_decide (x = 0)); cbn; rewrite ?app_nil_r; done. }
  assert (Hex : ∀ x z, m !! x = Some z → is_Some (m' !! x)).
  { intros x z Hx. unfold m'. rewrite lookup_reparent. apply fmap_is_Some. unfold m1.
    destruct (decide (x = pid)) as [->|]; [rewrite lookup_insert_eq; eauto|rewrite lookup_insert_ne; eauto]. }
  split.
  - intros x y c Hx Hc. destruct (Hm x y Hx) as (z & Hz & _ & Hch & _). rewrite Hch in Hc. apply elem_of_app in Hc as [Hc|Hc].
    + destruct (bool_decide (x = pid)) eqn:E; [by apply elem_of_nil in Hc|]. apply bool_decide_eq_false in E.
      destruct (tr_child _ _ H x z c Hz Hc) as (r & Hr & Hpar). destruct (Hex c r Hr) as [r' Hr'].
      exists r'. split; [done|]. destruct (Hm c r' Hr') as (z' & Hz' & -> & _ & _). assert (z' = r) as -> by congruence.
      destruct (bool_decide (c ∈ ch)) eqn:Hcc; [|done]. apply bool_decide_eq_true, Hin in Hcc as (r2 & ? & ?). congruence.
    + destruct (bool_decide (x = 0)) eqn:E; [|by apply elem_of_nil in Hc]. apply bool_decide_eq_true in E as ->. apply Hin in Hc as Hc2. destruct Hc2 as (r & Hr & _).
      destruct (Hex c r Hr) as [r' Hr']. exists r'. split; [done|]. destruct (Hm c r' Hr') as (z' & Hz' & -> & _ & _).
      by rewrite bool_decide_eq_true_2.
  - intros c r Hc Hpar. destruct (Hm c r Hc) as (z & Hz & Hpz & _ & _). rewrite Hpz in Hpar |- *.
    destruct (bool_decide (c ∈ ch)) eqn:E; [done|]. apply bool_decide_eq_false in E.
    destruct (tr_parent _ _ H c z Hz Hpar) as (q & Hq & Hcq). destruct (Hex _ _ Hq) as [q' Hq']. exists q'. split; [done|].
    destruct (Hm _ _ Hq') as (z' & Hz' & _ & -> & _). assert (z' = q) as -> by congruence. apply elem_of_app. left.
    rewrite bool_decide_eq_false_2; [done|]. intros Heq. apply E, Hin. eauto.
  - intros x y Hx. destruct (Hm x y Hx) as (z & Hz & _ & -> & _). pose proof (tr_nodup _ _ H x z Hz) as Hnd.
    case_bool_decide as E1; case_bool_decide as E2; rewrite ?app_nil_r; try done; [by apply (tr_nodup _ _ H pid p)|constructor|].
    apply NoDup_app. split_and!; [done| |by apply (tr_nodup _ _ H pid p)]. intros c H1 H2. subst x.
    destruct (tr_child _ _ H 0 z c Hz H1) as (r1 & ? & ?). apply Hin in H2 as (r2 & ? & ?). congruence.
  - intros x y Hx Hs. destruct (Hm x y Hx) as (z & Hz & _ & -> & Hst). rewrite Hst in Hs.
    destruct (tr_kernel _ _ H) as (k & Hk & Hks).
    destruct (bool_decide (x = pid)) eqn:E.
    + apply bool_decide_eq_true in E as ->. by rewrite bool_decide_eq_false_2.
    + rewrite (tr_zombie _ _ H x z Hz Hs). destruct (decide (x = 0)) as [->|]; [congruence|by rewrite bool_decide_eq_false_2].
  - destruct (tr_kernel _ _ H) as (k & Hk & Hs). destruct (Hex 0 k Hk) as [k' Hk']. exists k'. split; [done|].
    destruct (Hm 0 k' Hk') as (z & Hz & _ & _ & ->). rewrite bool_decide_eq_false_2 by done. congruence.
  - intros x y Hx. destruct (Hm x y Hx) as (z & Hz & _). by apply (tr_fresh _ _ H x z).
Qed.

(** Reaping takes a zombie out of its parent's list. *)
Lemma tree_reap m next pid p : tree_ok m next → m !! pid = Some p → p_state p = Zombie →
  tree_ok (alter (λ q, set_children (filter (λ c, c ≠ pid) (children q)) q) (parent_pid p) (delete pid m)) next.
Proof.
  intros H Hp Hz. set (par := parent_pid p). set (m' := alter _ par _).
  assert (Hk0 : pid ≠ 0) by (intros ->; destruct (tr_kernel _ _ H) as (k & ? & ?); congruence).
  assert (Hm : ∀ x y, m' !! x = Some y → x ≠ pid ∧ ∃ z, m !! x = Some z ∧ parent_pid y = parent_pid z ∧ p_state y = p_state z
    ∧ children y = if bool_decide (x = par) then filter (λ c, c ≠ pid) (children z) else children z).
  { intros x y. unfold m'. destruct (decide (x = par)) as [->|Hx].
    - rewrite lookup_alter_eq. destruct (delete pid m !! par) as [z|] eqn:E; [|done]. apply lookup_delete_Some in E as [? Hz'].
      cbn. intros [= <-]. split; [done|]. exists z. rewrite bool_decide_eq_true_2 by done. done.
    - rewrite lookup_alter_ne by done. intros [? Hy]%lookup_delete_Some. split; [done|]. exists y.
      rewrite bool_decide_eq_false_2 by done. done. }
  assert (Hex : ∀ x z, m !! x = Some z → x ≠ pid → is_Some (m' !! x)).
  { intros x z Hx Hne. unfold m'. destruct (decide (x = par)) as [->|].
    - rewrite lookup_alter_eq, lookup_delete_ne, Hx by done. eauto.
    - rewrite lookup_alter_ne, lookup_delete_ne, Hx by done. eauto. }
  assert (Hsub : ∀ x y z c, m' !! x = Some y → m !! x = Some z → c ∈ children y → c ∈ children z ∧ c ≠ pid).
  { intros x y z c Hy Hz' Hc. destruct (Hm x y Hy) as (_ & z' & Hz2 & _ & _ & Hch). assert (z' = z) as -> by congruence.
    rewrite Hch in Hc. case_bool_decide as E; [by apply list_elem_of_filter in Hc as [? ?]|]. split; [done|]. intros ->.
    destruct (tr_child _ _ H x z pid Hz' Hc) as (r & Hr & Hpar). assert (r = p) as -> by congruence. done. }
  split.
  - intros x y c Hx Hc. destruct (Hm x y Hx) as (_ & z & Hz' & _). destruct (Hsub x y z c Hx Hz' Hc) as [Hc' Hne].
    destruct (tr_child _ _ H x z c Hz' Hc') as (r & Hr & Hpar). destruct (Hex c r Hr Hne) as [r' Hr']. exists r'. split; [done|].
    destruct (Hm c r' Hr') as (_ & z2 & ? & -> & _). congruence.
  - intros c r Hc Hpar. destruct (Hm c r Hc) as (Hne & z & Hz' & Hpz & _). rewrite Hpz in Hpar |- *.
    destruct (tr_parent _ _ H c z Hz' Hpar) as (q & Hq & Hcq).
    assert (Hqp : parent_pid z ≠ pid).
    { intros E. rewrite E, Hp in Hq. injection Hq as <-. rewrite (tr_zombie _ _ H pid p Hp Hz) in Hcq. by apply elem_of_nil in Hcq. }
    destruct (Hex _ _ Hq Hqp) as [q' Hq']. exists q'. split; [done|]. destruct (Hm _ _ Hq') as (_ & z2 & ? & _ & _ & ->).
    assert (z2 = q) as -> by congruence. case_bool_decide; [|done]. by apply list_elem_of_filter.
  - intros x y Hx. destruct (Hm x y Hx) as (_ & z & Hz' & _ & _ & ->). pose proof (tr_nodup _ _ H x z Hz').
    case_bool_decide; [by apply NoDup_filter|done].
  - intros x y Hx Hs. destruct (Hm x y Hx) as (_ & z & Hz' & _ & Hst & ->). rewrite Hst in Hs.
    rewrite (tr_zombie _ _ H x z Hz' Hs). by case_bool_decide.
  - destruct (tr_kernel _ _ H) as (k & Hk & Hs). destruct (Hex 0 k Hk ltac:(done)) as [k' Hk']. exists k'. split; [done|].
    destruct (Hm 0 k' Hk') as (_ & z & ? & _ & -> & _). congruence.
  - intros x y Hx. destruct (Hm x y Hx) as (_ & z & Hz' & _). by apply (tr_fresh _ _ H x z).
Qed.

(** ** Histories *)

(** What the kernel does to the table: a running process spawns or forks, a
    process other than the kernel ends, a zombie is reaped, a thread waits. *)
Inductive proc_step : t → t → Prop :=
| StepSpawn session nm pml4 linux tid parent q pid s s1 :
    PROCESS_TABLE s !! parent = Some q → p_state q = ProcRunning → NEXT_PID s + 1 < 2 ^ 64 →
    spawn_process session nm pml4 linux tid s = (pid, s1) → proc_step s (adopt parent pid s1)
| StepFork session pid q pml4 tid c s s1 :
    PROCESS_TABLE s !! pid = Some q → p_state q = ProcRunning → NEXT_PID s + 1 < 2 ^ 64 →
    fork_process session pid pml4 tid s = Some (c, s1) → proc_step s s1
| StepExit locked pid code p s :
    PROCESS_TABLE s !! pid = Some p → pid ≠ 0 → proc_step s (exit_process_full locked pid code s)
| StepReap pid s : proc_step s (reap_zombie pid s).2
| StepWait target s : proc_step s (handle_waitpid target s).

Definition boot (sc : Sched.t) : t :=
  init (mkT ∅ 1 ∅ ∅ (mkSig ∅ ∅) ∅ (mkLinuxCaps ∅ AuditLog.LOG) sc []).

Lemma boot_tree sc : tree_ok (PROCESS_TABLE (boot sc)) (NEXT_PID (boot sc)).
Proof.
  unfold boot, init. cbn [PROCESS_TABLE set_table NEXT_PID].
  assert (H : ∀ p q, <[0 := new_kernel "kernel"]> (∅ : gmap Z Process) !! p = Some q → p = 0 ∧ q = new_kernel "kernel").
  { intros p q [[<- <-]|[_ ?]]%lookup_insert_Some; [done|]. by rewrite lookup_empty in *. }
  split.
  - intros p q c [-> ->]%H. by intros ?%elem_of_nil.
  - by intros c r [-> ->]%H.
  - intros p q [-> ->]%H. constructor.
  - by intros p q [-> ->]%H.
  - eexists. by rewrite lookup_insert_eq.
  - intros p q [-> ->]%H. lia.
Qed.

Lemma proc_step_tree s s' : proc_step s s' → 0 ≤ NEXT_PID s → tree_ok (PROCESS_TABLE s) (NEXT_PID s) →
  tree_ok (PROCESS_TABLE s') (NEXT_PID s') ∧ 0 ≤ NEXT_PID s'.
Proof.
  destruct 1 as [session nm pml4 linux tid parent q pid s s1 Hq Hrun Hroom Hsp
                |session pid q pml4 tid c s s1 Hq Hrun Hroom Hf|locked pid code p s Hp Hpid|pid s|target s]; intros H0 H.
  - unfold spawn_process, new_user, alloc_pid in Hsp. injection Hsp as <- <-. unfold adopt.
    cbn [PROCESS_TABLE NEXT_PID set_table p_pid]. rewrite wrap_id by (split; lia). split; [|lia].
    rewrite alter_insert_eq. by apply (tree_add _ (NEXT_PID s) parent q).
  - unfold fork_process in Hf. destruct (pid =? 0); [done|]. rewrite Hq in Hf. destruct (page_table q); [|done].
    unfold new_user, alloc_pid in Hf. injection Hf as <- <-. cbn [PROCESS_TABLE NEXT_PID set_table p_pid].
    rewrite wrap_id by (split; lia). split; [|lia]. by apply (tree_add _ (NEXT_PID s) pid q).
  - unfold exit_process_full. rewrite Hp. cbn. split; [|done]. by apply tree_exit.
  - unfold reap_zombie. destruct (PROCESS_TABLE s !! pid) as [p|] eqn:Hp; [|done].
    destruct (bool_decide (p_state p = Zombie)) eqn:Hz; [|done]. apply bool_decide_eq_true in Hz. cbn. split; [|done].
    by apply tree_reap.
  - done.
Qed.


Definition demo_boot : t := boot Sched.boot_state.
Definition demo_spawned : t :=
  let '(pid, s1) := spawn_process (Some 1000) "sh" 0x5000 true 7 demo_boot in adopt 0 pid s1.

(** The end of a process is complete: after [exit_process_full] the
    process is a zombie with its exit code and without address space, its page
    table is handed back once, its descriptors, directory and handlers are
    gone, no process has it as parent; reaping it returns the code and leaves
    no trace of it in the table. *)
Theorem process_exit_complete locked pid code p s :
  tree_ok (PROCESS_TABLE s) (NEXT_PID s) → PROCESS_TABLE s !! pid = Some p → pid ≠ 0 →
  let s' := exit_process_full locked pid code s in
  (∃ z, PROCESS_TABLE s' !! pid = Some z ∧ p_state z = Zombie ∧ exit_code z = Some code ∧ page_table z = None)
  ∧ PROC_FD_TABLES s' !! pid = None ∧ CWD_TABLE s' !! pid = None ∧ SIG_HANDLERS (sig s') !! pid = None
  ∧ freed s' = freed s ++ option_list (page_table p)
  ∧ (∀ c r, PROCESS_TABLE s' !! c = Some r → parent_pid r ≠ pid)
  ∧ ∃ s2, reap_zombie pid s' = (Some code, s2) ∧ PROCESS_TABLE s2 !! pid = None
      ∧ ∀ c r, PROCESS_TABLE s2 !! c = Some r → parent_pid r ≠ pid ∧ pid ∉ children r.
Proof.
  intros H Hp Hpid s'. assert (Ht : PROCESS_TABLE s' = reparent (children p) (<[pid := make_zombie code p]> (PROCESS_TABLE s)))
    by (unfold s', exit_process_full; by rewrite Hp).
  pose proof (tree_exit _ _ pid code p H Hp Hpid) as H'. rewrite <- Ht in H'.
  assert (Hz : ∃ z, PROCESS_TABLE s' !! pid = Some z ∧ p_state z = Zombie ∧ exit_code z = Some code ∧ page_table z = None).
  { rewrite Ht, lookup_reparent, lookup_insert_eq. cbn. rewrite (bool_decide_eq_false_2 (pid = 0)) by done.
    eexists. split; [done|]. by destruct (bool_decide _). }
  assert (Hno : ∀ c r, PROCESS_TABLE s' !! c = Some r → parent_pid r ≠ pid).
  { intros c r Hr Hpar. destruct (tr_parent _ _ H' c r Hr ltac:(congruence)) as (q & Hq & Hin). destruct Hz as (z & Hz & Hst & _).
    rewrite Hpar, Hz in Hq. injection Hq as <-. rewrite (tr_zombie _ _ H' pid z Hz Hst) in Hin. by apply elem_of_nil in Hin. }
  split; [done|].
  assert (Hfields : PROC_FD_TABLES s' = destroy_fd_table pid (PROC_FD_TABLES s) ∧ CWD_TABLE s' = delete pid (CWD_TABLE s)
    ∧ sig s' = destroy_handlers pid (sig s) ∧ freed s' = freed s ++ option_list (page_table p))
    by (unfold s', exit_process_full; by rewrite Hp).
  destruct Hfields as (-> & -> & -> & ->). unfold destroy_fd_table, destroy_handlers. cbn [SIG_HANDLERS].
  rewrite !lookup_delete_eq. split_and!; try done.
  destruct Hz as (z & Hz & Hst & Hcode & _). unfold reap_zombie. rewrite Hz, bool_decide_eq_true_2 by done. rewrite Hcode.
  eexists. split; [done|]. cbn [PROCESS_TABLE set_table]. pose proof (tree_reap _ _ pid z H' Hz Hst) as H2. set (m2 := alter _ _ _) in *.
  assert (Hgone : m2 !! pid = None).
  { unfold m2. rewrite lookup_alter_ne, lookup_delete_eq; [done|]. by apply (Hno pid z). }
  split; [done|]. intros c r Hr. split.
  - intros Hpar. destruct (tr_parent _ _ H2 c r Hr ltac:(congruence)) as (q & Hq & _). congruence.
  - intros Hin. destruct (tr_child _ _ H2 c r pid Hr Hin) as (x & Hx & _). congruence.
Qed.

Lemma process_exit_complete_witness :
  let s' := exit_process_full false 1 9 demo_spawned in
  (∃ z, PROCESS_TABLE s' !! 1 = Some z ∧ p_state z = Zombie ∧ exit_code z = Some 9 ∧ page_table z = None)
  ∧ PROC_FD_TABLES s' !! 1 = None ∧ CWD_TABLE s' !! 1 = None ∧ SIG_HANDLERS (sig s') !! 1 = None
  ∧ freed s' = freed demo_spawned ++ option_list (Some 0x5000)
  ∧ (∀ c r, PROCESS_TABLE s' !! c = Some r → parent_pid r ≠ 1)
  ∧ ∃ s2, reap_zombie 1 s' = (Some 9, s2) ∧ PROCESS_TABLE s2 !! 1 = None
      ∧ ∀ c r, PROCESS_TABLE s2 !! c = Some r → parent_pid r ≠ 1 ∧ 1 ∉ children r.
Proof.
  apply (process_exit_complete false 1 9 (mkProc 1 "sh" (Some 0x5000) [7] ProcRunning 0 None [] true 1000 1000) demo_spawned);
    [|reflexivity|discriminate].
  apply (proc_step_tree demo_boot demo_spawned); [|discriminate|apply boot_tree].
  eapply (StepSpawn (Some 1000) "sh" 0x5000 true 7 0); [reflexivity|reflexivity|reflexivity|reflexivity].
Defined.

(** ** The victim of the out-of-memory killer *)

(** The first of the best scores. *)
Definition best (o : option (Z * Z)) (x : Z * Z) : option (Z * Z) :=
  match o with None => Some x | Some h => if h.2 <? x.2 then Some x else Some h end.

Lemma head_sort_scores l : head (sort_scores l) = foldl best None l.
Proof.
  assert (H : ∀ acc, head (foldl (λ acc x, insert_score x acc) acc l) = foldl best (head acc) l).
  { induction l as [|x l IH]; intros acc; [done|]. cbn [foldl]. rewrite IH. f_equal.
    destruct acc as [|y acc]; [done|]. cbn [insert_score head best]. by destruct (y.2 <? x.2). }
  apply H.
Qed.

Lemma best_is_Some l o : is_Some o → is_Some (foldl best o l).
Proof. revert o. induction l as [|z l IH]; intros o [w ->]; [eauto|]. cbn [foldl best]. apply IH. destruct (w.2 <? z.2); eauto. Qed.

Lemma best_None l : foldl best None l = None → l = [].
Proof. destruct l as [|x l]; [done|]. cbn [foldl best]. intros E. destruct (best_is_Some l (Some x)) as [w Hw]; [eauto|]. congruence. Qed.

Lemma best_first l h : foldl best None l = Some h →
  ∃ l1 l2, l = l1 ++ h :: l2 ∧ Forall (λ x, x.2 < h.2) l1 ∧ Forall (λ x, x.2 ≤ h.2) l2.
Proof.
  revert h. induction l as [|x l IH] using rev_ind; intros h; [done|]. rewrite foldl_snoc.
  destruct (foldl best None l) as [h0|] eqn:E; cbn [best].
  - destruct (IH h0 eq_refl) as (l1 & l2 & -> & H1 & H2). destruct (Z.ltb_spec h0.2 x.2) as [Hlt|Hge]; intros [= <-].
    + exists (l1 ++ h0 :: l2), []. split; [done|]. split; [|constructor]. apply Forall_app. split.
      * eapply Forall_impl; [exact H1|]. simpl. lia.
      * constructor; [done|]. eapply Forall_impl; [exact H2|]. simpl. lia.
    + exists l1, (l2 ++ [x]). rewrite <- app_assoc. split_and!; try done. apply Forall_app. split; [done|]. by constructor.
  - apply best_None in E as ->. intros [= <-]. exists [], []. done.
Qed.

Lemma filter_strongly_sorted (f : Z → bool) l : StronglySorted Z.le l → StronglySorted Z.le (List.filter f l).
Proof.
  induction 1 as [|a l _ IH Ha]; [constructor|]. cbn. destruct (f a); [|done]. constructor; [done|].
  apply Forall_forall. intros x Hx. rewrite Forall_forall in Ha. apply Ha. rewrite list_elem_of_In in *. by apply filter_In in Hx as [? _].
Qed.

Lemma strongly_sorted_after l1 (v x : Z) l2 : StronglySorted Z.le (l1 ++ v :: l2) → x ∈ l2 → v ≤ x.
Proof.
  intros Hs Hx. induction l1 as [|a l1 IH]; cbn in Hs; apply StronglySorted_inv in Hs as [Hs Hf]; [|by apply IH].
  rewrite Forall_forall in Hf. by apply Hf.
Qed.

(** The candidates, in table order, before they are sorted. *)
Definition candidates (total : Z) (s : t) : list (Z * Z) :=
  List.filter (λ x, 0 <=? x.2)
    (map (λ p, (p, oom_score total p s)) (List.filter (λ p, negb (p =? 0)) (sorted_keys (PROCESS_TABLE s)))).

Lemma elem_candidates total s p sc :
  (p, sc) ∈ candidates total s ↔ sc = oom_score total p s ∧ 0 ≤ sc ∧ p ≠ 0 ∧ is_Some (PROCESS_TABLE s !! p).
Proof.
  unfold candidates. rewrite list_elem_of_In, filter_In, in_map_iff. cbn [snd]. rewrite Z.leb_le.
  assert (Hk : In p (List.filter (λ p, negb (p =? 0)) (sorted_keys (PROCESS_TABLE s))) ↔ p ≠ 0 ∧ is_Some (PROCESS_TABLE s !! p))
    by (rewrite filter_In, <- list_elem_of_In, elem_of_sorted_keys, negb_true_iff, Z.eqb_neq; tauto).
  rewrite <- Hk. split.
  - intros [(q & [= -> <-] & Hq) H0]. auto.
  - intros (-> & H0 & Hq). eauto.
Qed.

Lemma candidates_sorted total s : StronglySorted Z.le (candidates total s).*1.
Proof.
  assert (Hfst : ∀ ks, (List.filter (λ x : Z * Z, 0 <=? x.2) (map (λ p, (p, oom_score total p s)) ks)).*1
    = List.filter (λ p, 0 <=? oom_score total p s) ks).
  { induction ks as [|k ks IH]; [done|]. cbn. destruct (0 <=? oom_score total k s); cbn; [by f_equal|done]. }
  unfold candidates. rewrite Hfst. apply filter_strongly_sorted, filter_strongly_sorted, sorted_keys_sorted.
Qed.

Lemma oom_score_max total p s : oom_score total p s ≤ 1000.
Proof. unfold oom_score. destruct (p =? 0); [lia|]. destruct (PROCESS_TABLE s !! p); [|lia]. destruct (_ && _); lia. Qed.

(** The out-of-memory killer takes a right victim: when it kills, the
    victim is an existing process other than the kernel and the protected
    ones, no other process has a higher score, processes with the same score
    have larger ids, and the victim is ended with code -1; it kills nothing
    exactly when it is disabled or no process is eligible. *)
Theorem oom_kill_victim enabled locked total s :
  let '(r, s') := oom_kill enabled locked total s in
  match r with
  | Some v =>
      enabled = true ∧ v ≠ 0 ∧ is_Some (PROCESS_TABLE s !! v) ∧ 0 ≤ oom_score total v s ≤ 1000
      ∧ (∀ p, p ≠ 0 → is_Some (PROCESS_TABLE s !! p) →
           oom_score total p s < oom_score total v s ∨ (oom_score total p s = oom_score total v s ∧ v ≤ p))
      ∧ s' = exit_process_full locked v (-1) s
  | None => s' = s ∧ (enabled = false ∨ ∀ p, p ≠ 0 → is_Some (PROCESS_TABLE s !! p) → oom_score total p s < 0)
  end.
Proof.
  unfold oom_kill. destruct enabled; cbn [negb]; [|by auto].
  change (score_all total s) with (sort_scores (candidates total s)). pose proof (head_sort_scores (candidates total s)) as Hh.
  assert (Hin : ∀ p, p ≠ 0 → is_Some (PROCESS_TABLE s !! p) → 0 ≤ oom_score total p s → (p, oom_score total p s) ∈ candidates total s)
    by (intros; by apply elem_candidates).
  destruct (sort_scores _) as [|[v sc] rest]; cbn [head] in Hh; symmetry in Hh.
  - split; [done|]. right. intros p Hp0 Hp. destruct (decide (oom_score total p s < 0)); [done|].
    specialize (Hin p Hp0 Hp ltac:(lia)). rewrite (best_None _ Hh) in Hin. by apply elem_of_nil in Hin.
  - apply best_first in Hh as (l1 & l2 & El & H1 & H2). pose proof (candidates_sorted total s) as Hs.
    assert (Hv : (v, sc) ∈ candidates total s) by (rewrite El; apply elem_of_app; right; left).
    apply elem_candidates in Hv as (-> & H0 & Hv0 & Hv). rewrite bool_decide_eq_true_2 by done.
    split_and!; try done; [apply oom_score_max|].
    intros p Hp0 Hp. destruct (decide (oom_score total p s < 0)) as [|Hpos]; [lia|]. specialize (Hin p Hp0 Hp ltac:(lia)).
    rewrite El, fmap_app, fmap_cons in *. rewrite Forall_forall in H1, H2. apply elem_of_app in Hin as [Hin|Hin].
    + left. exact (H1 _ Hin).
    + apply elem_of_cons in Hin as [[= -> _]|Hin]; [auto with lia|]. specialize (H2 _ Hin). cbn [snd] in H2.
      destruct (Z.eq_dec (oom_score total p s) (oom_score total v s)) as [E|]; [|left; lia]. right. split; [done|].
      eapply (strongly_sorted_after _ _ p); [exact Hs|]. apply list_elem_of_fmap. by exists (p, oom_score total p s).
Qed.

(** ** Where the code falls short *)

(** A zombie is a candidate like any other: the killer takes the one it killed
    again, and the second kill frees nothing. *)
Example oom_kills_zombie_again :
  let '(r1, s1) := oom_kill true false 1000 demo_spawned in
  let '(r2, s2) := oom_kill true false 1000 s1 in
  r1 = Some 1 ∧ r2 = Some 1 ∧ freed s1 = [0x5000] ∧ freed s2 = [0x5000].
Proof. vm_compute. repeat split. Qed.

(** Ending a process takes no running or ready thread out of the scheduler,
    its own included, though its page table has been handed back. *)
Lemma wake_keeps_active locked id s th : th ∈ Sched.active_threads s → th ∈ Sched.active_threads (wake_thread locked id s).
Proof.
  unfold wake_thread. destruct locked; [done|]. destruct (blocked_threads s !! id); [|done].
  unfold Sched.active_threads. cbn. rewrite !elem_of_app. tauto.
Qed.

Lemma exit_keeps_threads locked pid code s th :
  th ∈ Sched.active_threads (sched s) → th ∈ Sched.active_threads (sched (exit_process_full locked pid code s)).
Proof.
  intros H. unfold exit_process_full. destruct (PROCESS_TABLE s !! pid); [|done]. cbn [sched]. unfold exit_wakeups.
  destruct (wake_waiters_for_pid pid (WAIT_QUEUE (sched s))) as [ids kept].
  assert (Hs : th ∈ Sched.active_threads (set_wait (blocked_threads (sched s)) kept (sched s))) by done. revert Hs.
  generalize (set_wait (blocked_threads (sched s)) kept (sched s)). induction ids as [|id ids IH]; intros s0 Hs; [done|].
  cbn [foldl]. by apply IH, wake_keeps_active.
Qed.

(** Waiting for a child that has already ended blocks the caller for good: the
    wake-up was spent when the child ended, and nothing is reaped. *)
Example waitpid_after_exit :
  let s1 := exit_process_full false 1 0 demo_spawned in
  let s2 := handle_waitpid 1 s1 in
  p_state <$> (PROCESS_TABLE s1 !! 1) = Some Zombie ∧ PROCESS_TABLE s2 = PROCESS_TABLE s1
  ∧ Sched.current (sched s2) = None ∧ is_Some (blocked_threads (sched s2) !! 0).
Proof. vm_compute. repeat split. eexists. reflexivity. Qed.

(** The critical branch never gets memory back from a reclaim pass: below the
    critical mark the third check in a row kills, or finds nobody to kill. *)
Lemma check_and_act_critical enabled locked free total s o :
  free < WATERMARK_CRIT_PAGES → 2 ≤ PRESSURE_TICKS o →
  (check_and_act enabled locked free total s o).1 = oom_kill enabled locked total s.
Proof.
  intros Hf Ht. unfold check_and_act, pressure_level. rewrite (proj2 (Z.ltb_lt _ _) Hf), (proj2 (Z.leb_le _ _) Ht). cbn [orb].
  unfold try_reclaim. destruct (oom_kill enabled locked total s) as [[v|] s']; done.
Qed.
