(* ===== verification/Sandbox.v ===== *)
(** Sandbox profiles and the system-call gates that consult them:
    [kernel/src/security/sandbox.rs], the entry of
    [kernel/src/syscall/linux.rs] ([linux_syscall_handler]) and of
    [kernel/src/arch/x86_64/syscall_entry.rs].

    [check_syscall] looks up in the process table whether a process is a Linux
    one; here that table is the argument [is_linux]. *)

From S2P Require Import Prelude Bits AuditLog Seccomp.

Definition CAP_PROCESS : Z := Z.shiftl 1 0.
Definition CAP_IPC : Z := Z.shiftl 1 1.
Definition CAP_FILESYSTEM : Z := Z.shiftl 1 2.
Definition CAP_NETWORK : Z := Z.shiftl 1 3.
Definition CAP_MEMORY : Z := Z.shiftl 1 4.
Definition CAP_DEVICE : Z := Z.shiftl 1 5.
Definition CAP_KNOWLEDGE : Z := Z.shiftl 1 6.
Definition CAP_SYSTEM : Z := Z.shiftl 1 7.
Definition CAP_ALL : Z := 0xFF.
Definition CAP_MINIMAL : Z := Z.lor CAP_PROCESS CAP_SYSTEM.

Record SandboxProfile := mkProfile {
  capabilities : Z;
  denied_syscalls : list Z;
  profile_name : string;
  deny_count : Z;
}.

Definition new_profile (name : string) (caps : Z) : SandboxProfile := mkProfile caps [] name 0.

Definition has_capability (p : SandboxProfile) (cap : Z) : bool := negb (Z.land (capabilities p) cap =? 0).

Definition deny_syscall (nr : Z) (p : SandboxProfile) : SandboxProfile :=
  if bool_decide (nr ∈ denied_syscalls p) then p
  else mkProfile (capabilities p) (denied_syscalls p ++ [nr]) (profile_name p) (deny_count p).

Definition count_denial (p : SandboxProfile) : SandboxProfile :=
  mkProfile (capabilities p) (denied_syscalls p) (profile_name p) (wrap 64 (deny_count p + 1)).

Notation SANDBOXES := (gmap Z SandboxProfile).

Definition create_sandbox (pid : Z) (name : string) (caps : Z) (m : SANDBOXES) : SANDBOXES :=
  <[pid := new_profile name caps]> m.

Definition remove_sandbox (pid : Z) (m : SANDBOXES) : SANDBOXES := delete pid m.

Definition linux_syscall_to_capability (nr : Z) : Z :=
  let among l := bool_decide (nr ∈ l) in
  if among [60; 231; 57; 58; 56; 59; 61; 62; 234; 39; 110; 186] then CAP_PROCESS
  else if among [24; 35; 99] then CAP_SYSTEM
  else if among [22; 293] then CAP_IPC
  else if among [9; 11; 10; 25; 12; 319] then CAP_MEMORY
  else if among [41; 42; 43; 44; 45; 46; 47; 48; 49; 50; 51; 52; 54; 55; 288] then CAP_NETWORK
  else if among [0; 1; 2; 3; 4; 5; 6; 17; 18; 19; 20; 21; 32; 33; 83; 84; 85; 87; 89; 78; 217; 257; 258; 262; 263;
                 267; 269; 292] then CAP_FILESYSTEM
  else CAP_ALL.

(** The numbers are those of [syscall/table.rs]. *)
Definition syscall_to_capability (nr : Z) : Z :=
  let among l := bool_decide (nr ∈ l) in
  if among [0; 2; 5; 6; 7; 3] then CAP_PROCESS
  else if among [1; 4] then CAP_SYSTEM
  else if among [10; 11; 12; 13; 9] then CAP_IPC
  else if among [20; 21; 22; 23; 24; 25; 26] then CAP_FILESYSTEM
  else if among [8] then CAP_MEMORY
  else if among [30; 31; 32; 33; 34; 35; 36; 37; 38; 39; 84; 85; 86; 87] then CAP_NETWORK
  else if among [40; 41; 42; 43] then CAP_KNOWLEDGE
  else if among [50; 51; 52; 53; 54; 55] then CAP_DEVICE
  else CAP_ALL.

Definition required_cap (linux : bool) (nr : Z) : Z :=
  if linux then linux_syscall_to_capability nr else syscall_to_capability nr.

Definition check_syscall (is_linux : gmap Z bool) (pid nr : Z) (m : SANDBOXES) : bool * SANDBOXES :=
  match m !! pid with
  | None => (true, m)
  | Some p =>
      if bool_decide (nr ∈ denied_syscalls p) then (false, <[pid := count_denial p]> m)
      else
        let linux := if negb (pid =? 0) then default false (is_linux !! pid) else false in
        let req := required_cap linux nr in
        if (req =? 0) || has_capability p req then (true, m) else (false, <[pid := count_denial p]> m)
  end.

Definition get_sandbox_info (pid : Z) (m : SANDBOXES) : option (string * Z * Z) :=
  (λ p, (profile_name p, capabilities p, deny_count p)) <$> m !! pid.

Definition list_sandboxes (m : SANDBOXES) : list (Z * string * Z * Z) :=
  omap (λ pid, (λ p, (pid, profile_name p, capabilities p, deny_count p)) <$> m !! pid) (sorted_keys m).

Definition set_capabilities (pid caps : Z) (m : SANDBOXES) : bool * SANDBOXES :=
  match m !! pid with
  | Some p => (true, <[pid := mkProfile caps (denied_syscalls p) (profile_name p) (deny_count p)]> m)
  | None => (false, m)
  end.

Definition sandbox_count (m : SANDBOXES) : nat := size m.

Definition format_caps (caps : Z) : string :=
  let on c n := if negb (Z.land caps c =? 0) then [n] else [] in
  let parts := on CAP_PROCESS "PROC" ++ on CAP_IPC "IPC" ++ on CAP_FILESYSTEM "FS" ++ on CAP_NETWORK "NET"
               ++ on CAP_MEMORY "MEM" ++ on CAP_DEVICE "DEV" ++ on CAP_KNOWLEDGE "KG" ++ on CAP_SYSTEM "SYS" in
  match parts with [] => "NONE" | _ => String.concat "|" parts end%string.

(** ** The gates *)

Record gates := mkGates { filters : Seccomp.t; boxes : SANDBOXES }.

(** The head of [linux_syscall_handler]: [false] returns [u64::MAX]. *)
Definition linux_gate (is_linux : gmap Z bool) (pid nr : Z) (g : gates) : bool * gates :=
  let '(ok, sc) := Seccomp.check pid nr (filters g) in
  if negb ok then (false, mkGates sc (boxes g))
  else
    let '(ok', m) := check_syscall is_linux pid nr (boxes g) in
    if negb ok' then (false, mkGates (mkSeccomp (STATES sc) (log_denied_syscall pid nr "sandbox" (Seccomp.audit sc))) m)
    else (true, mkGates sc m).

(** The check before the dispatch of native system calls. *)
Definition native_gate (is_linux : gmap Z bool) (pid nr : Z) (g : gates) : bool * gates :=
  if pid =? 0 then (true, g)
  else
    let '(ok, m) := check_syscall is_linux pid nr (boxes g) in
    if negb ok then (false, mkGates (mkSeccomp (STATES (filters g)) (log_denied_syscall pid nr "sandbox" (Seccomp.audit (filters g)))) m)
    else (true, mkGates (filters g) m).

(** ** Properties *)

Lemma required_nonzero linux nr : required_cap linux nr =? 0 = false.
Proof.
  unfold required_cap, linux_syscall_to_capability, syscall_to_capability.
  by destruct linux; cbv zeta; repeat case_bool_decide.
Qed.

(** What a profile says of a call. *)
Definition admits (linux : bool) (p : SandboxProfile) (nr : Z) : bool :=
  negb (bool_decide (nr ∈ denied_syscalls p)) && has_capability p (required_cap linux nr).

(** A process's own rights: the denial counter apart. *)
Definition rights (p : SandboxProfile) : Z * list Z := (capabilities p, denied_syscalls p).

Lemma check_syscall_exact is_linux pid nr m :
  check_syscall is_linux pid nr m
  = match m !! pid with
    | None => (true, m)
    | Some p => if admits (negb (pid =? 0) && default false (is_linux !! pid)) p nr then (true, m)
                else (false, <[pid := count_denial p]> m)
    end.
Proof.
  unfold check_syscall, admits. destruct (m !! pid) as [p|]; [|done]. case_bool_decide; [done|]. cbv zeta.
  replace (if negb (pid =? 0) then default false (is_linux !! pid) else false)
    with (negb (pid =? 0) && default false (is_linux !! pid)) by (by destruct (pid =? 0)).
  by rewrite required_nonzero.
Qed.

(** The gate of Linux system calls.  A call passes exactly when the seccomp
    filter admits its number and the process has no sandbox profile or one whose
    denylist omits the number and whose capabilities meet the one required; then
    nothing changes.  A refused call adds exactly one audit entry naming the
    refusing layer; a sandbox refusal also counts in the profile.  Filters,
    capabilities and denylists of all processes are never changed by the gate. *)
Theorem linux_gate_exact is_linux pid nr g :
  let linux := negb (pid =? 0) && default false (is_linux !! pid) in
  let seccomp_ok := (Seccomp.check pid nr (filters g)).1 in
  let box_ok := match boxes g !! pid with None => true | Some p => admits linux p nr end in
  let '(ok, g') := linux_gate is_linux pid nr g in
  ok = seccomp_ok && box_ok
  ∧ (if ok then g' = g
     else Seccomp.audit (filters g')
          = log_denied_syscall pid nr (if seccomp_ok then "sandbox" else "seccomp") (Seccomp.audit (filters g)))
  ∧ STATES (filters g') = STATES (filters g)
  ∧ ∀ q, rights <$> boxes g' !! q = rights <$> boxes g !! q.
Proof.
  cbv zeta. unfold linux_gate. rewrite check_syscall_exact. set (linux := negb (pid =? 0) && _).
  assert (Hc : Seccomp.check pid nr (filters g) = (true, filters g)
     ∨ Seccomp.check pid nr (filters g)
       = (false, mkSeccomp (STATES (filters g)) (log_denied_syscall pid nr "seccomp" (Seccomp.audit (filters g))))).
  { unfold Seccomp.check. destruct (pid =? 0); [by left|]. destruct (STATES (filters g) !! pid) as [st|]; [|by left].
    destruct (st_mode st); [by left|..]; (destruct (is_allowed _ nr); [by left|by right]). }
  destruct Hc as [->| ->]; cbn [fst negb andb]; [|done].
  destruct (boxes g !! pid) as [p|] eqn:Ep; [|by destruct g].
  destruct (admits linux p nr); cbn [negb]; [by destruct g|]. split_and!; try done.
  intros q. cbn [boxes]. destruct (decide (q = pid)) as [->|Hne].
  - by rewrite lookup_insert_eq, Ep.
  - by rewrite lookup_insert_ne.
Qed.

(** Findings.  A number no arm lists needs "all caps", but [has_capability] tests
    for a common bit: one capability of any kind is enough. *)
Lemma unknown_syscall_any_cap p nr : syscall_to_capability nr = CAP_ALL → bool_decide (nr ∈ denied_syscalls p) = false →
  capabilities p = CAP_SYSTEM → admits false p nr = true.
Proof. intros Hn Hd Hc. unfold admits, required_cap, has_capability. by rewrite Hd, Hn, Hc. Qed.

(** Loading a kernel module (71) with the capability to sleep. *)
Lemma kmod_load_with_cap_system :
  admits false (new_profile "timer" CAP_SYSTEM) 71 = true ∧ admits false (new_profile "timer" CAP_SYSTEM) 20 = false.
Proof. vm_compute. done. Qed.

(** Yield and sleep are described as always allowed; a profile without
    CAP_SYSTEM refuses them. *)
Lemma yield_refused : admits false (new_profile "io" CAP_FILESYSTEM) 1 = false.
Proof. vm_compute. done. Qed.

(** A seccomp filter does not concern native processes: only the Linux handler
    consults it. *)
Lemma native_ignores_seccomp is_linux pid nr g sc : (native_gate is_linux pid nr (mkGates sc (boxes g))).1
  = (native_gate is_linux pid nr g).1.
Proof. unfold native_gate. destruct (pid =? 0); [done|]. simpl. destruct (check_syscall _ _ _ _) as [[] ?]; done. Qed.
