(* ===== verification/TcpWire.v ===== *)
(** TCP segments on the wire: parsing, building and the checksum
    ([kernel/src/net/tcp.rs], first part). *)

From S2P Require Import Prelude Bits Words.

Definition TCP_HEADER_MIN : nat := 20.
Definition PROTO_TCP : Z := 6.

Definition FIN : Z := 0x01.
Definition SYN : Z := 0x02.
Definition RST : Z := 0x04.
Definition PSH : Z := 0x08.
Definition ACK : Z := 0x10.

Record TcpHeader := mkHeader {
  src_port : Z;
  dst_port : Z;
  seq_num : Z;
  ack_num : Z;
  data_offset : Z;
  flags : Z;
  window_size : Z;
  checksum : Z;
  urgent_ptr : Z;
}.

(** [n] bytes at [i], big endian. *)
Definition be_at (data : list Z) (i n : nat) : Z := from_be_bytes (take n (drop i data)).

Definition parse (data : list Z) : option (TcpHeader * list Z) :=
  if (length data <? TCP_HEADER_MIN)%nat then None
  else
    let off := Z.to_nat (Z.shiftr (nth 12 data 0) 4 * 4) in
    if (off <? TCP_HEADER_MIN)%nat || (length data <? off)%nat then None
    else
      Some (mkHeader (be_at data 0 2) (be_at data 2 2) (be_at data 4 4) (be_at data 8 4)
              (Z.shiftr (nth 12 data 0) 4) (nth 13 data 0) (be_at data 14 2) (be_at data 16 2) (be_at data 18 2),
            drop off data).

(** The 16-bit words of the segment; an odd last byte is the high half. *)
Fixpoint sum_words (bs : list Z) : Z :=
  match bs with
  | a :: b :: bs' => Z.lor (Z.shiftl a 8) b + sum_words bs'
  | [a] => Z.shiftl a 8
  | [] => 0
  end.

(** [while sum > 0xFFFF { sum = (sum & 0xFFFF) + (sum >> 16) }] *)
Fixpoint fold_carries (fuel : nat) (sum : Z) : Z :=
  match fuel with
  | O => sum
  | S fuel' => if 0xFFFF <? sum then fold_carries fuel' (Z.land sum 0xFFFF + Z.shiftr sum 16) else sum
  end.

(** [sum] is a u32; three rounds reduce any u32 to 16 bits ([fold_small]). *)
Definition tcp_checksum (src_ip dst_ip : list Z) (tcp_segment : list Z) : Z :=
  let sum := sum_words src_ip + sum_words dst_ip + PROTO_TCP + wrap 32 (Z.of_nat (length tcp_segment))
             + sum_words tcp_segment in
  wrap 16 (Z.lxor (fold_carries 4 (wrap 32 sum)) (Z.ones 32)).

Definition segment_with (ck : list Z) (src_port dst_port seq ack flags window : Z) (payload : list Z) : list Z :=
  to_be_bytes 2 src_port ++ to_be_bytes 2 dst_port ++ to_be_bytes 4 seq ++ to_be_bytes 4 ack
  ++ [0x50; flags] ++ to_be_bytes 2 window ++ ck ++ [0; 0] ++ payload.

(** The checksum placeholder is overwritten at bytes 16 and 17. *)
Definition build_segment (src_port dst_port seq ack flags window : Z) (payload : list Z) (src_ip dst_ip : list Z) : list Z :=
  let segment := segment_with [0; 0] src_port dst_port seq ack flags window payload in
  let cksum := tcp_checksum src_ip dst_ip segment in
  <[17%nat := Z.land cksum 0xFF]> (<[16%nat := Z.shiftr cksum 8]> segment).

(** ** Big-endian fields *)

(** A field that starts at the end of a prefix of known length. *)
Lemma be_at_app pre n v rest : uN (8 * Z.of_nat n) v →
  be_at (pre ++ to_be_bytes n v ++ rest) (length pre) n = v.
Proof.
  intros Hv. unfold be_at. rewrite drop_app_length, take_app_length' by (by rewrite length_to_be_bytes).
  by apply from_to_be_bytes.
Qed.

Lemma length_segment_with c1 c2 sp dp seq ack fl w payload :
  length (segment_with [c1; c2] sp dp seq ack fl w payload) = (20 + length payload)%nat.
Proof. unfold segment_with. rewrite !length_app, !length_to_be_bytes. simpl. lia. Qed.

(** Overwriting the placeholder. *)
Lemma insert_checksum sp dp seq ack fl w payload a b :
  <[17%nat := b]> (<[16%nat := a]> (segment_with [0; 0] sp dp seq ack fl w payload))
  = segment_with [a; b] sp dp seq ack fl w payload.
Proof.
  assert (Hs : ∀ c : list Z, segment_with c sp dp seq ack fl w payload
    = (to_be_bytes 2 sp ++ to_be_bytes 2 dp ++ to_be_bytes 4 seq ++ to_be_bytes 4 ack ++ [0x50; fl] ++ to_be_bytes 2 w)
      ++ c ++ [0; 0] ++ payload) by (intros; unfold segment_with; by rewrite <- !app_assoc).
  rewrite !Hs. set (pre := to_be_bytes 2 sp ++ _).
  assert (Hp : length pre = 16%nat) by (unfold pre; rewrite !length_app, !length_to_be_bytes; done).
  rewrite !insert_app_r_alt, Hp by (rewrite Hp; lia). done.
Qed.

(** ** The checksum *)

Lemma fold_round x : 0xFFFF < x < 2 ^ 32 →
  let y := Z.land x 0xFFFF + Z.shiftr x 16 in
  (y < x ∧ 0 < y ≤ 0xFFFF + x `div` 65536) ∧ y `mod` 65535 = x `mod` 65535.
Proof.
  intros Hx. cbv zeta. change 0xFFFF with (Z.ones 16). rewrite Z.land_ones, Z.shiftr_div_pow2 by lia.
  change (2 ^ 16) with 65536. pose proof (Z.div_mod x 65536). pose proof (Z.mod_pos_bound x 65536).
  assert (1 ≤ x `div` 65536) by (apply Z.div_le_lower_bound; lia). change (Z.ones 16) with 65535.
  split; [lia|]. replace x with (x `mod` 65536 + x `div` 65536 + x `div` 65536 * 65535) at 3 by lia.
  by rewrite Z.mod_add.
Qed.

(** Three rounds suffice for a u32, and the residue modulo 65535 is kept. *)
Lemma fold_carries_spec x : 0 < x < 2 ^ 32 →
  0 < fold_carries 4 x ≤ 0xFFFF ∧ fold_carries 4 x `mod` 65535 = x `mod` 65535.
Proof.
  intros Hx. assert (Hstep : ∀ n y, 0 < y < 2 ^ 32 → (y ≤ 0xFFFF → 0 < fold_carries n y ≤ 0xFFFF ∧ fold_carries n y `mod` 65535 = y `mod` 65535)).
  { intros n y Hy Hle. destruct n; simpl; zbool; lia. }
  assert (Hround : ∀ n y b, 0xFFFF < y < 2 ^ 32 → fold_carries (S n) y = fold_carries n (Z.land y 0xFFFF + Z.shiftr y 16))
    by (intros; simpl; by zbool).
  destruct (Z_le_gt_dec x 0xFFFF); [by apply Hstep|].
  rewrite Hround by (done || lia). destruct (fold_round x ltac:(lia)) as [H1 <-].
  set (y := Z.land x 0xFFFF + Z.shiftr x 16) in *.
  assert (x `div` 65536 ≤ 65535) by (apply Z.lt_succ_r, Z.div_lt_upper_bound; lia).
  destruct (Z_le_gt_dec y 0xFFFF); [apply Hstep; lia|].
  rewrite Hround by (done || lia). destruct (fold_round y ltac:(lia)) as [H2 <-].
  set (z := Z.land y 0xFFFF + Z.shiftr y 16) in *.
  assert (y `div` 65536 ≤ 1) by (apply Z.lt_succ_r, Z.div_lt_upper_bound; lia).
  destruct (Z_le_gt_dec z 0xFFFF); [apply Hstep; lia|].
  rewrite Hround by (done || lia). destruct (fold_round z ltac:(lia)) as [H3 <-].
  assert (Ez : z = 65536) by lia. rewrite Ez in *. apply Hstep; vm_compute; (discriminate || split; reflexivity).
Qed.

Lemma sum_words_app n pre rest : length pre = (2 * n)%nat →
  sum_words (pre ++ rest) = sum_words pre + sum_words rest.
Proof.
  revert pre. induction n as [|n IH]; intros [|a [|b pre]] Hl; simpl in Hl; try lia; [done|].
  cbn [app sum_words]. rewrite IH by lia. lia.
Qed.

Lemma word_range a b : is_byte a → is_byte b → 0 ≤ Z.lor (Z.shiftl a 8) b ≤ 65535.
Proof.
  intros [Ha1 Ha2] [Hb1 Hb2]. assert (uN 16 (Z.lor (Z.shiftl a 8) b)) as [? ?]; [|lia].
  apply testbit_uN; [lia| |].
  - apply Z.lor_nonneg. split; [by apply Z.shiftl_nonneg|done].
  - intros j Hj. rewrite Z.lor_spec, Z.shiftl_spec by lia.
    rewrite (uN_testbit_high 8 a), (uN_testbit_high 8 b) by (first [lia|split; lia]). done.
Qed.

Lemma sum_words_range bs : bytes_ok bs → 0 ≤ sum_words bs ∧ 2 * sum_words bs ≤ 65535 * (Z.of_nat (length bs) + 1).
Proof.
  remember (length bs) as n eqn:En. assert (Hn : (length bs ≤ n)%nat) by lia. rewrite En. clear En. revert bs Hn.
  induction n as [|n IH]; intros [|a [|b bs]] Hn Hb; simpl length in *; try lia; cbn [sum_words]; try lia.
  - apply Forall_cons in Hb as [Hb _]. pose proof (word_range a 0 Hb ltac:(split; lia)) as Hw. rewrite Z.lor_0_r in Hw. lia.
  - apply Forall_cons in Hb as [Ha Hb]. apply Forall_cons in Hb as [Hb Hbs].
    pose proof (word_range a b Ha Hb). destruct (IH bs ltac:(lia) Hbs). lia.
Qed.

(** The sum before folding. *)
Definition raw_sum (src_ip dst_ip seg : list Z) : Z :=
  sum_words src_ip + sum_words dst_ip + PROTO_TCP + wrap 32 (Z.of_nat (length seg)) + sum_words seg.

Lemma raw_sum_range src dst seg :
  bytes_ok src → bytes_ok dst → bytes_ok seg → length src = 4%nat → length dst = 4%nat → (length seg ≤ Z.to_nat 65535)%nat →
  0 < raw_sum src dst seg < 2 ^ 31 + 2 ^ 20.
Proof.
  intros Hs Hd Hg Ls Ld Lg. unfold raw_sum, PROTO_TCP. rewrite wrap_id by (split; lia).
  pose proof (sum_words_range _ Hs). pose proof (sum_words_range _ Hd). pose proof (sum_words_range _ Hg).
  rewrite Ls in *. rewrite Ld in *. lia.
Qed.

Lemma checksum_value src dst seg :
  bytes_ok src → bytes_ok dst → bytes_ok seg → length src = 4%nat → length dst = 4%nat → (length seg ≤ Z.to_nat 65535)%nat →
  tcp_checksum src dst seg = 65535 - fold_carries 4 (raw_sum src dst seg).
Proof.
  intros Hs Hd Hg Ls Ld Lg. pose proof (raw_sum_range src dst seg Hs Hd Hg Ls Ld Lg) as Hr.
  unfold tcp_checksum. cbv zeta. fold (raw_sum src dst seg). rewrite (wrap_id 32) by (split; lia).
  destruct (fold_carries_spec (raw_sum src dst seg) ltac:(lia)) as [Hf _]. rewrite lxor_ones by (first [lia|split; lia]).
  unfold wrap. change (Z.ones 32) with (65535 + 65535 * 65536).
  replace (65535 + 65535 * 65536 - fold_carries 4 (raw_sum src dst seg))
    with (65535 - fold_carries 4 (raw_sum src dst seg) + 65535 * 2 ^ 16) by lia.
  rewrite Z.mod_add, Z.mod_small by lia. done.
Qed.

(** ** Theorems *)

Record fields_ok (sp dp seq ack fl w : Z) (payload : list Z) : Prop := {
  fo_sp : uN 16 sp; fo_dp : uN 16 dp; fo_seq : uN 32 seq; fo_ack : uN 32 ack;
  fo_fl : uN 8 fl; fo_w : uN 16 w; fo_payload : bytes_ok payload;
  fo_len : (length payload ≤ Z.to_nat 65515)%nat;
}.

Lemma segment_bytes_ok c sp dp seq ack fl w payload :
  fields_ok sp dp seq ack fl w payload → bytes_ok c → bytes_ok (segment_with c sp dp seq ack fl w payload).
Proof.
  intros [? ? ? ? Hfl ? Hp _] Hc. unfold segment_with.
  repeat (apply Forall_app; split); try apply to_be_bytes_ok; try done;
    repeat (apply Forall_cons_2; [first [done|split; lia]|]); apply Forall_nil_2.
Qed.

Lemma segment_sum a b sp dp seq ack fl w payload :
  sum_words (segment_with [a; b] sp dp seq ack fl w payload)
  = sum_words (segment_with [0; 0] sp dp seq ack fl w payload) + Z.lor (Z.shiftl a 8) b.
Proof.
  assert (Hs : ∀ c : list Z, segment_with c sp dp seq ack fl w payload
    = (to_be_bytes 2 sp ++ to_be_bytes 2 dp ++ to_be_bytes 4 seq ++ to_be_bytes 4 ack ++ [0x50; fl] ++ to_be_bytes 2 w)
      ++ c ++ [0; 0] ++ payload) by (intros; unfold segment_with; by rewrite <- !app_assoc).
  rewrite !Hs. set (pre := to_be_bytes 2 sp ++ _).
  assert (Hp : length pre = (2 * 8)%nat) by (unfold pre; rewrite !length_app, !length_to_be_bytes; done).
  rewrite !(sum_words_app 8 pre _ Hp). cbn [app sum_words]. change (Z.lor (Z.shiftl 0 8) 0) with 0. lia.
Qed.

Lemma build_is_segment sp dp seq ack fl w payload src dst :
  ∃ c, build_segment sp dp seq ack fl w payload src dst
       = segment_with [Z.shiftr c 8; Z.land c 0xFF] sp dp seq ack fl w payload
     ∧ c = tcp_checksum src dst (segment_with [0; 0] sp dp seq ack fl w payload).
Proof. eexists. split; [|done]. unfold build_segment. by rewrite insert_checksum. Qed.

(** Every segment the stack builds passes the Internet checksum: the
    receiver's sum over the pseudo-header and the segment, checksum field
    included, comes out as zero. *)
Theorem tcp_checksum_verifies sp dp seq ack fl w payload src dst :
  fields_ok sp dp seq ack fl w payload →
  bytes_ok src → bytes_ok dst → length src = 4%nat → length dst = 4%nat →
  tcp_checksum src dst (build_segment sp dp seq ack fl w payload src dst) = 0.
Proof.
  intros Hf Hs Hd Ls Ld. destruct (build_is_segment sp dp seq ack fl w payload src dst) as (c & -> & Hc).
  set (seg0 := segment_with [0; 0] sp dp seq ack fl w payload) in *.
  assert (Hl : ∀ x y, (length (segment_with [x; y] sp dp seq ack fl w payload) ≤ Z.to_nat 65535)%nat)
    by (intros; rewrite length_segment_with; destruct Hf; lia).
  assert (H0 : bytes_ok seg0) by (apply segment_bytes_ok; [done|repeat constructor; lia]).
  pose proof (raw_sum_range src dst seg0 Hs Hd H0 Ls Ld (Hl 0 0)) as Hr.
  destruct (fold_carries_spec (raw_sum src dst seg0) ltac:(lia)) as [F1 F2].
  rewrite checksum_value in Hc by (done || apply Hl). assert (Hcr : 0 ≤ c < 65536) by lia.
  assert (Hb : bytes_ok (segment_with [Z.shiftr c 8; Z.land c 0xFF] sp dp seq ack fl w payload)).
  { apply segment_bytes_ok; [done|]. repeat constructor; first [apply (shiftr8_byte c Hcr)|apply land255_byte; lia]. }
  rewrite checksum_value by (done || apply Hl).
  assert (Hsum : raw_sum src dst (segment_with [Z.shiftr c 8; Z.land c 0xFF] sp dp seq ack fl w payload)
    = raw_sum src dst seg0 + c).
  { unfold raw_sum, seg0. rewrite segment_sum, !length_segment_with, split16 by done. lia. }
  rewrite Hsum. destruct (fold_carries_spec (raw_sum src dst seg0 + c) ltac:(lia)) as [G1 G2].
  assert (Hz : (raw_sum src dst seg0 + c) `mod` 65535 = 0).
  { rewrite Hc. replace (raw_sum src dst seg0 + (65535 - fold_carries 4 (raw_sum src dst seg0)))
      with (raw_sum src dst seg0 - fold_carries 4 (raw_sum src dst seg0) + 1 * 65535) by lia.
    rewrite Z.mod_add, Zminus_mod, F2, Z.sub_diag by lia. done. }
  rewrite Hz in G2. apply Z.mod_divide in G2 as [q Hq]; lia.
Qed.

Lemma tcp_checksum_verifies_witness :
  tcp_checksum [10; 0; 2; 15] [1; 1; 1; 1] (build_segment 80 4000 1 2 18 8192 [104; 105; 33] [10; 0; 2; 15] [1; 1; 1; 1]) = 0.
Proof.
  apply (tcp_checksum_verifies 80 4000 1 2 18 8192 [104; 105; 33] [10; 0; 2; 15] [1; 1; 1; 1]);
    [|repeat constructor; lia..|reflexivity|reflexivity].
  split; try (split; lia); [repeat constructor; lia|cbn [length]; lia].
Defined.

Lemma checksum_field c : uN 16 c → to_be_bytes 2 c = [Z.shiftr c 8; Z.land c 0xFF].
Proof.
  intros [H1 H2]. change (to_be_bytes 2 c) with [(c `div` 256) `mod` 256; c `mod` 256].
  change 0xFF with (Z.ones 8). rewrite Z.land_ones, Z.shiftr_div_pow2 by lia. change (2 ^ 8) with 256.
  rewrite (Z.mod_small (c `div` 256)); [done|]. split; [apply Z.div_pos; lia|apply Z.div_lt_upper_bound; lia].
Qed.

Lemma parse_segment sp dp seq ack fl w c payload :
  uN 16 sp → uN 16 dp → uN 32 seq → uN 32 ack → uN 16 w → uN 16 c →
  parse (segment_with (to_be_bytes 2 c) sp dp seq ack fl w payload)
  = Some (mkHeader sp dp seq ack 5 fl w c 0, payload).
Proof.
  intros Hsp Hdp Hseq Hack Hw Hc. unfold parse, segment_with.
  set (A := to_be_bytes 2 sp). set (B := to_be_bytes 2 dp). set (C := to_be_bytes 4 seq). set (E := to_be_bytes 4 ack).
  set (W := to_be_bytes 2 w). set (K := to_be_bytes 2 c).
  assert (L : length A = 2%nat ∧ length B = 2%nat ∧ length C = 4%nat ∧ length E = 4%nat ∧ length W = 2%nat ∧ length K = 2%nat)
    by (split_and!; apply length_to_be_bytes).
  destruct L as (LA & LB & LC & LE & LW & LK).
  assert (HA : from_be_bytes A = sp) by (by apply from_to_be_bytes).
  assert (HB : from_be_bytes B = dp) by (by apply from_to_be_bytes).
  assert (HC : from_be_bytes C = seq) by (by apply from_to_be_bytes).
  assert (HE : from_be_bytes E = ack) by (by apply from_to_be_bytes).
  assert (HW : from_be_bytes W = w) by (by apply from_to_be_bytes).
  assert (HK : from_be_bytes K = c) by (by apply from_to_be_bytes).
  clearbody A B C E W K.
  destruct A as [|a0 [|a1 [|]]]; try done. destruct B as [|b0 [|b1 [|]]]; try done.
  destruct C as [|c0 [|c1 [|c2 [|c3 [|]]]]]; try done. destruct E as [|e0 [|e1 [|e2 [|e3 [|]]]]]; try done.
  destruct W as [|w0 [|w1 [|]]]; try done. destruct K as [|k0 [|k1 [|]]]; try done.
  unfold be_at. cbn [app length take drop nth]. change (Z.to_nat (Z.shiftr 0x50 4 * 4)) with 20%nat.
  cbn [Nat.ltb Nat.leb orb TCP_HEADER_MIN drop]. change (from_be_bytes [0; 0]) with 0.
  change (Z.shiftr 80 4) with 5. by rewrite HA, HB, HC, HE, HW, HK.
Qed.

Lemma parse_built sp dp seq ack fl w payload src dst :
  fields_ok sp dp seq ack fl w payload →
  bytes_ok src → bytes_ok dst → length src = 4%nat → length dst = 4%nat →
  ∃ c, uN 16 c ∧ parse (build_segment sp dp seq ack fl w payload src dst)
    = Some (mkHeader sp dp seq ack 5 fl w c 0, payload).
Proof.
  intros Hf Hs Hd Ls Ld. destruct (build_is_segment sp dp seq ack fl w payload src dst) as (c & -> & Hc).
  assert (Hl0 : (length (segment_with [0%Z; 0%Z] sp dp seq ack fl w payload) ≤ Z.to_nat 65535)%nat)
    by (rewrite length_segment_with; destruct Hf; lia).
  assert (H0 : bytes_ok (segment_with [0; 0] sp dp seq ack fl w payload)) by (apply segment_bytes_ok; [done|repeat constructor; lia]).
  rewrite checksum_value in Hc by done.
  destruct (fold_carries_spec (raw_sum src dst (segment_with [0; 0] sp dp seq ack fl w payload))
    ltac:(pose proof (raw_sum_range src dst _ Hs Hd H0 Ls Ld Hl0); lia)) as [F1 _].
  assert (Hcr : uN 16 c) by (split; lia). exists c. split; [done|].
  rewrite <- (checksum_field c Hcr). destruct Hf. by apply parse_segment.
Qed.

(** Parsing a segment built by the stack gives back every field and the
    payload: ports, sequence and acknowledgement numbers, flags, window, the
    computed checksum and a 20-byte header. *)
Theorem tcp_parse_build sp dp seq ack fl w payload src dst :
  fields_ok sp dp seq ack fl w payload →
  bytes_ok src → bytes_ok dst → length src = 4%nat → length dst = 4%nat →
  ∃ c, uN 16 c ∧ parse (build_segment sp dp seq ack fl w payload src dst)
    = Some (mkHeader sp dp seq ack 5 fl w c 0, payload).
Proof. apply parse_built. Qed.

Lemma tcp_parse_build_witness :
  ∃ c, uN 16 c ∧ parse (build_segment 80 4000 1 2 18 8192 [104; 105] [10; 0; 2; 15] [1; 1; 1; 1])
    = Some (mkHeader 80 4000 1 2 5 18 8192 c 0, [104; 105]).
Proof.
  apply (tcp_parse_build 80 4000 1 2 18 8192 [104; 105] [10; 0; 2; 15] [1; 1; 1; 1]);
    [|repeat constructor; lia..|reflexivity|reflexivity].
  split; try (split; lia); [repeat constructor; lia|cbn [length]; lia].
Defined.
