(* ===== verification/Tcp.v ===== *)
(** The TCP state machine: [kernel/src/net/tcp.rs].

    The connection and listener tables and the counters form the state [t].
    [send_tcp_raw] hands a segment to IPv4/Ethernet; here a call is a value [Seg]
    with its arguments, and every operation returns the segments it sends in
    order ([TcpWire.build_segment] turns one into bytes).  The clock
    ([uptime_secs]) is an argument where the code reads it. *)

From S2P Require Import Prelude Bits TcpWire.

Definition RECV_BUF_MAX : nat := Z.to_nat 16384.
Definition SEND_BUF_MAX : nat := Z.to_nat 16384.
Definition WINDOW_SIZE : Z := 8192.
Definition RETRANSMIT_TIMEOUT : Z := 200.
Definition MAX_RETRANSMITS : Z := 5.

Inductive TcpState :=
| Closed | Listen | SynSent | SynReceived | Established
| FinWait1 | FinWait2 | CloseWait | LastAck | TimeWait.

#[export] Instance TcpState_eq : EqDecision TcpState.
Proof. solve_decision. Defined.

Record Tcb := mkTcb {
  state : TcpState;
  local_port : Z;
  remote_port : Z;
  remote_ip : list Z;
  snd_una : Z;
  snd_nxt : Z;
  rcv_nxt : Z;
  snd_wnd : Z;
  rcv_wnd : Z;
  recv_buf : list Z;
  send_buf : list Z;
  retransmit_seg : list Z;
  retransmit_tick : Z;
  retransmit_count : Z;
  time_wait_tick : Z;
}.

Definition new_tcb (lport : Z) (rip : list Z) (rport : Z) : Tcb :=
  mkTcb Closed lport rport rip 0 0 0 WINDOW_SIZE WINDOW_SIZE [] [] [] 0 0 0.

(** Field updates. *)
Definition set_state (st : TcpState) (c : Tcb) : Tcb :=
  mkTcb st (local_port c) (remote_port c) (remote_ip c) (snd_una c) (snd_nxt c) (rcv_nxt c) (snd_wnd c) (rcv_wnd c)
    (recv_buf c) (send_buf c) (retransmit_seg c) (retransmit_tick c) (retransmit_count c) (time_wait_tick c).
Definition set_snd (una nxt : Z) (c : Tcb) : Tcb :=
  mkTcb (state c) (local_port c) (remote_port c) (remote_ip c) una nxt (rcv_nxt c) (snd_wnd c) (rcv_wnd c)
    (recv_buf c) (send_buf c) (retransmit_seg c) (retransmit_tick c) (retransmit_count c) (time_wait_tick c).
Definition set_rcv (nxt : Z) (buf : list Z) (c : Tcb) : Tcb :=
  mkTcb (state c) (local_port c) (remote_port c) (remote_ip c) (snd_una c) (snd_nxt c) nxt (snd_wnd c) (rcv_wnd c)
    buf (send_buf c) (retransmit_seg c) (retransmit_tick c) (retransmit_count c) (time_wait_tick c).
Definition set_wnd (w : Z) (c : Tcb) : Tcb :=
  mkTcb (state c) (local_port c) (remote_port c) (remote_ip c) (snd_una c) (snd_nxt c) (rcv_nxt c) w (rcv_wnd c)
    (recv_buf c) (send_buf c) (retransmit_seg c) (retransmit_tick c) (retransmit_count c) (time_wait_tick c).
Definition set_send_buf (buf : list Z) (c : Tcb) : Tcb :=
  mkTcb (state c) (local_port c) (remote_port c) (remote_ip c) (snd_una c) (snd_nxt c) (rcv_nxt c) (snd_wnd c) (rcv_wnd c)
    (recv_buf c) buf (retransmit_seg c) (retransmit_tick c) (retransmit_count c) (time_wait_tick c).
Definition set_rtx (seg : list Z) (tick count : Z) (c : Tcb) : Tcb :=
  mkTcb (state c) (local_port c) (remote_port c) (remote_ip c) (snd_una c) (snd_nxt c) (rcv_nxt c) (snd_wnd c) (rcv_wnd c)
    (recv_buf c) (send_buf c) seg tick count (time_wait_tick c).
Definition set_time_wait (tick : Z) (c : Tcb) : Tcb :=
  mkTcb (state c) (local_port c) (remote_port c) (remote_ip c) (snd_una c) (snd_nxt c) (rcv_nxt c) (snd_wnd c) (rcv_wnd c)
    (recv_buf c) (send_buf c) (retransmit_seg c) (retransmit_tick c) (retransmit_count c) tick.

(** A call of [send_tcp_raw]. *)
Record Seg := mkSeg {
  sg_src : Z; sg_dst : Z; sg_seq : Z; sg_ack : Z; sg_flags : Z; sg_window : Z; sg_payload : list Z; sg_ip : list Z;
}.

(** The usual reply of a connection: its own ports and numbers. *)
Definition reply (c : Tcb) (fl : Z) (payload : list Z) : Seg :=
  mkSeg (local_port c) (remote_port c) (snd_nxt c) (rcv_nxt c) fl WINDOW_SIZE payload (remote_ip c).

Record t := mkT {
  TCP_CONNECTIONS : gmap Z Tcb;
  TCP_LISTENERS : gmap Z (list Z);
  NEXT_SOCKET_ID : Z;
  TICK_COUNTER : Z;
  NEXT_EPHEMERAL : Z;
  ISN_COUNTER : Z;
}.

Definition set_conns (m : gmap Z Tcb) (s : t) : t :=
  mkT m (TCP_LISTENERS s) (NEXT_SOCKET_ID s) (TICK_COUNTER s) (NEXT_EPHEMERAL s) (ISN_COUNTER s).
Definition set_listeners (m : gmap Z (list Z)) (s : t) : t :=
  mkT (TCP_CONNECTIONS s) m (NEXT_SOCKET_ID s) (TICK_COUNTER s) (NEXT_EPHEMERAL s) (ISN_COUNTER s).

Definition alloc_socket_id (s : t) : Z * t :=
  (NEXT_SOCKET_ID s, mkT (TCP_CONNECTIONS s) (TCP_LISTENERS s) (wrap 64 (NEXT_SOCKET_ID s + 1)) (TICK_COUNTER s)
                         (NEXT_EPHEMERAL s) (ISN_COUNTER s)).

Definition generate_isn (uptime : Z) (s : t) : Z * t :=
  (wrap 32 (wrap 64 (wrap 64 (uptime * 250000) + ISN_COUNTER s)),
   mkT (TCP_CONNECTIONS s) (TCP_LISTENERS s) (NEXT_SOCKET_ID s) (TICK_COUNTER s) (NEXT_EPHEMERAL s)
       (wrap 64 (ISN_COUNTER s + 1))).

Definition alloc_ephemeral_port (s : t) : Z * t :=
  (NEXT_EPHEMERAL s `mod` 16384 + 49152,
   mkT (TCP_CONNECTIONS s) (TCP_LISTENERS s) (NEXT_SOCKET_ID s) (TICK_COUNTER s) (wrap 64 (NEXT_EPHEMERAL s + 1)) (ISN_COUNTER s)).

Definition seq_after (a b : Z) : bool := 0 <? to_signed 32 (wrap 32 (a - b)).

Definition has_flag (fl f : Z) : bool := negb (Z.land fl f =? 0).

(** ** Public operations *)

Definition connect (uptime : Z) (rip : list Z) (rport lport : Z) (s : t) : Z * list Seg * t :=
  let '(sock_id, s1) := alloc_socket_id s in
  let '(isn, s2) := generate_isn uptime s1 in
  let tcb := set_rtx [] (TICK_COUNTER s2) 0
               (set_state SynSent (set_snd isn (wrap 32 (isn + 1)) (new_tcb lport rip rport))) in
  (sock_id, [mkSeg lport rport isn 0 SYN WINDOW_SIZE [] rip], set_conns (<[sock_id := tcb]> (TCP_CONNECTIONS s2)) s2).

Definition listen (port : Z) (s : t) : result string unit * t :=
  match TCP_LISTENERS s !! port with
  | Some _ => (Err "Port already listening"%string, s)
  | None => (Ok tt, set_listeners (<[port := []]> (TCP_LISTENERS s)) s)
  end.

Definition accept (port : Z) (s : t) : option Z * t :=
  match TCP_LISTENERS s !! port with
  | Some (id :: queue) => (Some id, set_listeners (<[port := queue]> (TCP_LISTENERS s)) s)
  | _ => (None, s)
  end.

(** [while !send_buf.is_empty() { .. }]; every round takes at least one byte. *)
Fixpoint flush_send_buf (fuel : nat) (now : Z) (c : Tcb) : Tcb * list Seg :=
  match fuel with
  | O => (c, [])
  | S fuel' =>
      match send_buf c with
      | [] => (c, [])
      | _ =>
          let max_seg := Nat.min (Z.to_nat (snd_wnd c)) (Z.to_nat 1460) in
          let to_send := Nat.min (length (send_buf c)) max_seg in
          if (to_send =? 0)%nat then (c, [])
          else
            let payload := take to_send (send_buf c) in
            let seg := reply c (Z.lor ACK PSH) payload in
            let c1 := set_rtx payload now (retransmit_count c) (set_send_buf (drop to_send (send_buf c)) c) in
            let c2 := set_snd (snd_una c1) (wrap 32 (snd_nxt c1 + Z.of_nat to_send)) c1 in
            let '(c3, segs) := flush_send_buf fuel' now c2 in
            (c3, seg :: segs)
      end
  end.

Definition send (sock_id : Z) (data : list Z) (s : t) : result string nat * list Seg * t :=
  match TCP_CONNECTIONS s !! sock_id with
  | None => (Err "Invalid socket"%string, [], s)
  | Some c =>
      if negb (bool_decide (state c = Established)) && negb (bool_decide (state c = CloseWait))
      then (Err "Connection not established"%string, [], s)
      else
        let space := (SEND_BUF_MAX - length (send_buf c))%nat in
        let to_send := Nat.min (length data) space in
        if (to_send =? 0)%nat then (Err "Send buffer full"%string, [], s)
        else
          let c1 := set_send_buf (send_buf c ++ take to_send data) c in
          let '(c2, segs) := flush_send_buf (length (send_buf c1)) (TICK_COUNTER s) c1 in
          (Ok to_send, segs, set_conns (<[sock_id := c2]> (TCP_CONNECTIONS s)) s)
  end.

(** Returns the caller's buffer after the call as well. *)
Definition recv (sock_id : Z) (buf : list Z) (s : t) : result string nat * list Z * t :=
  match TCP_CONNECTIONS s !! sock_id with
  | None => (Err "Invalid socket"%string, buf, s)
  | Some c =>
      match recv_buf c with
      | [] =>
          if bool_decide (state c = CloseWait) || bool_decide (state c = Closed) || bool_decide (state c = TimeWait)
          then (Err "Connection closed by peer"%string, buf, s) else (Ok 0%nat, buf, s)
      | _ =>
          let n := Nat.min (length buf) (length (recv_buf c)) in
          (Ok n, take n (recv_buf c) ++ drop n buf,
           set_conns (<[sock_id := set_rcv (rcv_nxt c) (drop n (recv_buf c)) c]> (TCP_CONNECTIONS s)) s)
      end
  end.

Definition close (sock_id : Z) (s : t) : result string unit * list Seg * t :=
  match TCP_CONNECTIONS s !! sock_id with
  | None => (Err "Invalid socket"%string, [], s)
  | Some c =>
      let fin := [reply c (Z.lor FIN ACK) []] in
      let c1 := set_snd (snd_una c) (wrap 32 (snd_nxt c + 1)) c in
      let remove := set_conns (delete sock_id (TCP_CONNECTIONS s)) s in
      match state c with
      | Established =>
          (Ok tt, fin, set_conns (<[sock_id := set_state FinWait1 (set_rtx (retransmit_seg c1) (TICK_COUNTER s)
                                                  (retransmit_count c1) c1)]> (TCP_CONNECTIONS s)) s)
      | CloseWait => (Ok tt, fin, set_conns (<[sock_id := set_state LastAck c1]> (TCP_CONNECTIONS s)) s)
      | SynSent | SynReceived =>
          (Ok tt, [mkSeg (local_port c) (remote_port c) (snd_nxt c) 0 RST 0 [] (remote_ip c)], remove)
      | _ => (Ok tt, [], remove)
      end
  end.

(** ** Incoming segments *)

(** In-order data only; the reply is sent in any case. *)
Definition accept_data (c : Tcb) (seq : Z) (data : list Z) : Tcb * list Seg :=
  let c' :=
    if (seq =? rcv_nxt c) && (length (recv_buf c) + length data <=? RECV_BUF_MAX)%nat
    then set_rcv (wrap 32 (rcv_nxt c + Z.of_nat (length data))) (recv_buf c ++ data) c
    else c in
  (c', [reply c' ACK []]).

Definition accept_if_data (c : Tcb) (seq : Z) (data : list Z) : Tcb * list Seg :=
  match data with [] => (c, []) | _ => accept_data c seq data end.

(** A FIN from the peer: the next expected number, the new state, and an ACK. *)
Definition take_fin (nxt : Z) (st : TcpState) (c : Tcb) : Tcb * list Seg :=
  let c' := set_state st (set_rcv nxt (recv_buf c) c) in (c', [reply c' ACK []]).

Definition process_segment (now : Z) (c : Tcb) (hdr : TcpHeader) (data : list Z) : Tcb * list Seg :=
  let fin := has_flag (flags hdr) FIN in
  let ack := has_flag (flags hdr) ACK in
  if has_flag (flags hdr) RST then (set_state Closed c, [])
  else
    match state c with
    | SynSent =>
        if has_flag (flags hdr) SYN && ack then
          let c1 := set_rtx [] (retransmit_tick c) 0 (set_state Established (set_wnd (window_size hdr)
                      (set_rcv (wrap 32 (seq_num hdr + 1)) (recv_buf c) (set_snd (ack_num hdr) (snd_nxt c) c)))) in
          (c1, [reply c1 ACK []])
        else (c, [])
    | SynReceived =>
        if ack then
          let c1 := set_rtx [] (retransmit_tick c) 0 (set_state Established (set_wnd (window_size hdr)
                      (set_snd (ack_num hdr) (snd_nxt c) c))) in
          accept_if_data c1 (seq_num hdr) data
        else (c, [])
    | Established =>
        let c1 :=
          if ack then
            let c0 := if seq_after (ack_num hdr) (snd_una c)
                      then set_rtx [] (retransmit_tick c) 0 (set_snd (ack_num hdr) (snd_nxt c) c) else c in
            set_wnd (window_size hdr) c0
          else c in
        let '(c2, segs) := accept_if_data c1 (seq_num hdr) data in
        if fin then
          let '(c3, segs') := take_fin (wrap 32 (wrap 32 (seq_num hdr + Z.of_nat (length data)) + 1)) CloseWait c2 in
          (c3, segs ++ segs')
        else (c2, segs)
    | FinWait1 =>
        if ack then
          let c1 := set_snd (ack_num hdr) (snd_nxt c) c in
          if fin then take_fin (wrap 32 (seq_num hdr + 1)) TimeWait (set_time_wait now c1)
          else (set_state FinWait2 c1, [])
        else (c, [])
    | FinWait2 =>
        let '(c1, segs) :=
          if fin then take_fin (wrap 32 (seq_num hdr + 1)) TimeWait (set_time_wait now c) else (c, []) in
        let '(c2, segs') := accept_if_data c1 (seq_num hdr) data in
        (c2, segs ++ segs')
    | LastAck => if ack then (set_state Closed c, []) else (c, [])
    | TimeWait | Closed | Listen | CloseWait => (c, [])
    end.

(** The first connection, by socket id, from that address and port pair. *)
Definition find_conn (src_ip : list Z) (hdr : TcpHeader) (conns : gmap Z Tcb) : option Z :=
  List.find (λ id, match conns !! id with
                   | Some c => bool_decide (remote_ip c = src_ip) && (remote_port c =? src_port hdr)
                               && (local_port c =? dst_port hdr)
                   | None => false
                   end) (sorted_keys conns).

Definition reject (src_ip : list Z) (hdr : TcpHeader) (data : list Z) : list Seg :=
  if has_flag (flags hdr) RST then []
  else if has_flag (flags hdr) ACK then [mkSeg (dst_port hdr) (src_port hdr) (ack_num hdr) 0 RST 0 [] src_ip]
  else [mkSeg (dst_port hdr) (src_port hdr) 0 (wrap 32 (seq_num hdr + Z.of_nat (length data))) (Z.lor RST ACK) 0 [] src_ip].

Definition handle_segment (uptime : Z) (src_ip : list Z) (hdr : TcpHeader) (data : list Z) (s : t) : list Seg * t :=
  match find_conn src_ip hdr (TCP_CONNECTIONS s) with
  | Some sock_id =>
      match TCP_CONNECTIONS s !! sock_id with
      | Some c => let '(c', segs) := process_segment (TICK_COUNTER s) c hdr data in
                  (segs, set_conns (<[sock_id := c']> (TCP_CONNECTIONS s)) s)
      | None => ([], s)
      end
  | None =>
      if has_flag (flags hdr) SYN && negb (has_flag (flags hdr) ACK) then
        match TCP_LISTENERS s !! dst_port hdr with
        | Some accept_queue =>
            let '(sock_id, s1) := alloc_socket_id s in
            let '(isn, s2) := generate_isn uptime s1 in
            let c := set_rtx [] (TICK_COUNTER s2) 0 (set_state SynReceived (set_wnd (window_size hdr)
                       (set_snd isn (wrap 32 (isn + 1)) (set_rcv (wrap 32 (seq_num hdr + 1)) []
                         (new_tcb (dst_port hdr) src_ip (src_port hdr)))))) in
            let q := if (length accept_queue <? 16)%nat then accept_queue ++ [sock_id] else accept_queue in
            ([mkSeg (dst_port hdr) (src_port hdr) isn (rcv_nxt c) (Z.lor SYN ACK) WINDOW_SIZE [] src_ip],
             set_conns (<[sock_id := c]> (TCP_CONNECTIONS s2)) (set_listeners (<[dst_port hdr := q]> (TCP_LISTENERS s2)) s2))
        | None => (reject src_ip hdr data, s)
        end
      else (reject src_ip hdr data, s)
  end.

Definition handle_tcp (uptime : Z) (src_ip payload : list Z) (s : t) : list Seg * t :=
  match parse payload with
  | None => ([], s)
  | Some (hdr, data) => handle_segment uptime src_ip hdr data s
  end.

(** ** Timer *)

(** The retransmissions of one connection that is neither closed nor in
    TIME_WAIT: [None] when it is given up and removed. *)
Definition retransmit_conn (now : Z) (c : Tcb) : option Tcb * list Seg :=
  let due := negb (bool_decide (retransmit_seg c = [])) && (RETRANSMIT_TIMEOUT <? wrap 64 (now - retransmit_tick c)) in
  if due && (MAX_RETRANSMITS <=? retransmit_count c)
  then (None, [mkSeg (local_port c) (remote_port c) (snd_nxt c) 0 RST 0 [] (remote_ip c)])
  else
    let c1 := if due then set_rtx (retransmit_seg c) now (wrap 8 (retransmit_count c + 1)) c else c in
    let out1 := if due then [mkSeg (local_port c) (remote_port c) (snd_una c) (rcv_nxt c) (Z.lor ACK PSH) WINDOW_SIZE
                               (retransmit_seg c) (remote_ip c)] else [] in
    if bool_decide (state c = SynSent) && (RETRANSMIT_TIMEOUT <? wrap 64 (now - retransmit_tick c1)) then
      if MAX_RETRANSMITS <=? retransmit_count c1 then (None, out1)
      else (Some (set_rtx (retransmit_seg c1) now (wrap 8 (retransmit_count c1 + 1)) c1),
            out1 ++ [mkSeg (local_port c) (remote_port c) (snd_una c) 0 SYN WINDOW_SIZE [] (remote_ip c)])
    else (Some c1, out1).

(** One connection in the timer's loop. *)
Definition tick_conn (now : Z) (c : Tcb) : option Tcb * list Seg :=
  match state c with
  | TimeWait => (if 400 <? wrap 64 (now - time_wait_tick c) then None else Some c, [])
  | Closed => (None, [])
  | _ => retransmit_conn now c
  end.

Definition tcp_timer_tick (s : t) : list Seg * t :=
  let now := TICK_COUNTER s in
  let s1 := mkT (TCP_CONNECTIONS s) (TCP_LISTENERS s) (NEXT_SOCKET_ID s) (wrap 64 (now + 1)) (NEXT_EPHEMERAL s) (ISN_COUNTER s) in
  (sorted_keys (TCP_CONNECTIONS s) ≫= λ id, match TCP_CONNECTIONS s !! id with Some c => (tick_conn now c).2 | None => [] end,
   set_conns (omap (λ c, (tick_conn now c).1) (TCP_CONNECTIONS s)) s1).

(** ** Queries *)
Definition connection_count (s : t) : Z := Z.of_nat (size (TCP_CONNECTIONS s)).
Definition listener_count (s : t) : Z := Z.of_nat (size (TCP_LISTENERS s)).
Definition has_recv_data (id : Z) (s : t) : bool :=
  match TCP_CONNECTIONS s !! id with Some c => negb (bool_decide (recv_buf c = [])) | None => false end.
Definition is_established (id : Z) (s : t) : bool :=
  match TCP_CONNECTIONS s !! id with Some c => bool_decide (state c = Established) | None => false end.
Definition is_gone (id : Z) (s : t) : bool :=
  match TCP_CONNECTIONS s !! id with Some c => bool_decide (state c = Closed) | None => true end.
