(* ===== verification/TcpProofs.v ===== *)
(** Correctness of the TCP state machine ([Tcp.v]). *)

From S2P Require Import Prelude Bits TcpWire Tcp.

(** ** Bounds *)

(** The largest payload: [.min(1460)] in [flush_send_buf]. *)
Definition MSS : nat := Z.to_nat 1460.

Record tcb_ok (c : Tcb) : Prop := {
  ok_recv : (length (recv_buf c) ≤ RECV_BUF_MAX)%nat;
  ok_send : (length (send_buf c) ≤ SEND_BUF_MAX)%nat;
  ok_count : 0 ≤ retransmit_count c ≤ MAX_RETRANSMITS;
  ok_una : uN 32 (snd_una c);
  ok_nxt : uN 32 (snd_nxt c);
  ok_rcv : uN 32 (rcv_nxt c);
  ok_rtx : (length (retransmit_seg c) ≤ MSS)%nat;
}.

Definition hdr_ok (h : TcpHeader) : Prop := uN 32 (seq_num h) ∧ uN 32 (ack_num h).

Create HintDb tcp.

Lemma wrap32 v : uN 32 (wrap 32 v).
Proof. by apply wrap_range. Qed.

Lemma set_state_ok st c : tcb_ok c → tcb_ok (set_state st c).
Proof. intros []. by split. Qed.
Lemma set_wnd_ok w c : tcb_ok c → tcb_ok (set_wnd w c).
Proof. intros []. by split. Qed.
Lemma set_snd_ok u n c : tcb_ok c → uN 32 u → uN 32 n → tcb_ok (set_snd u n c).
Proof. intros [] ? ?. by split. Qed.
Lemma set_rcv_ok n b c : tcb_ok c → uN 32 n → (length b ≤ RECV_BUF_MAX)%nat → tcb_ok (set_rcv n b c).
Proof. intros [] ? ?. by split. Qed.
Lemma set_rtx_ok g k n c : tcb_ok c → (length g ≤ MSS)%nat → 0 ≤ n ≤ MAX_RETRANSMITS → tcb_ok (set_rtx g k n c).
Proof. intros [] ? ?. by split. Qed.
Lemma set_time_wait_ok k c : tcb_ok c → tcb_ok (set_time_wait k c).
Proof. intros []. by split. Qed.
Lemma set_send_buf_ok b c : tcb_ok c → (length b ≤ SEND_BUF_MAX)%nat → tcb_ok (set_send_buf b c).
Proof. intros [] ?. by split. Qed.

Lemma count_zero_ok : 0 ≤ 0 ≤ MAX_RETRANSMITS.
Proof. unfold MAX_RETRANSMITS. lia. Qed.

Lemma nil_seg_ok : (length (@nil Z) ≤ MSS)%nat.
Proof. simpl. lia. Qed.

#[export] Hint Resolve wrap32 set_state_ok set_wnd_ok set_snd_ok set_rcv_ok set_rtx_ok set_time_wait_ok
  set_send_buf_ok count_zero_ok nil_seg_ok ok_rtx ok_recv ok_send ok_count ok_una ok_nxt ok_rcv : tcp.

Lemma new_tcb_ok l ip r : tcb_ok (new_tcb l ip r).
Proof. split; simpl; unfold RECV_BUF_MAX, SEND_BUF_MAX, MAX_RETRANSMITS, MSS, uN; lia. Qed.

Lemma accept_data_ok c seq data : tcb_ok c → tcb_ok (accept_data c seq data).1.
Proof.
  intros Hc. unfold accept_data. destruct (_ && _) eqn:E; simpl; [|done].
  apply andb_true_iff in E as [_ E%Nat.leb_le]. apply set_rcv_ok; [done|apply wrap32|].
  rewrite length_app. lia.
Qed.

Lemma accept_if_data_ok c seq data : tcb_ok c → tcb_ok (accept_if_data c seq data).1.
Proof. destruct data; [done|]. apply accept_data_ok. Qed.

Lemma take_fin_ok n st c : tcb_ok c → uN 32 n → tcb_ok (take_fin n st c).1.
Proof. intros. unfold take_fin. simpl. eauto with tcp. Qed.

Lemma process_segment_ok now c h data : tcb_ok c → hdr_ok h → tcb_ok (process_segment now c h data).1.
Proof.
  intros Hc [Hs Ha]. unfold process_segment. destruct (has_flag _ RST); [simpl; eauto with tcp|].
  destruct (state c); try done.
  - destruct (_ && _); simpl; eauto 10 with tcp.
  - destruct (has_flag _ ACK); [|done]. apply accept_if_data_ok. eauto 10 with tcp.
  - match goal with |- context [accept_if_data ?x _ _] => set (c1 := x) end.
    assert (Hc1 : tcb_ok c1).
    { unfold c1. destruct (has_flag _ ACK); [|done]. destruct (seq_after _ _); eauto 10 with tcp. }
    pose proof (accept_if_data_ok c1 (seq_num h) data Hc1) as H2. destruct (accept_if_data _ _ _) as [c2 segs]. simpl in H2.
    destruct (has_flag _ FIN); [|done]. simpl. eauto 10 with tcp.
  - destruct (has_flag _ ACK); [|done]. destruct (has_flag _ FIN); simpl; eauto 10 with tcp.
  - destruct (has_flag _ FIN).
    + unfold take_fin. match goal with |- context [accept_if_data ?x _ _] => set (c1 := x) end.
      assert (Hc1 : tcb_ok c1) by (unfold c1; eauto 10 with tcp).
      pose proof (accept_if_data_ok c1 (seq_num h) data Hc1). by destruct (accept_if_data _ _ _).
    + pose proof (accept_if_data_ok c (seq_num h) data Hc). by destruct (accept_if_data _ _ _).
  - destruct (has_flag _ ACK); simpl; eauto with tcp.
Qed.

Lemma flush_ok fuel now c : tcb_ok c → tcb_ok (flush_send_buf fuel now c).1.
Proof.
  revert c. induction fuel as [|fuel IH]; intros c Hc; cbn [flush_send_buf]; [done|].
  destruct (send_buf c) as [|b bs] eqn:E; [done|]. rewrite <- E. cbv zeta.
  set (n := Nat.min (length (send_buf c)) _). destruct (n =? 0)%nat; [done|].
  set (c2 := set_snd _ _ _). assert (Hc2 : tcb_ok c2).
  { unfold c2. apply set_snd_ok; [apply set_rtx_ok; [apply set_send_buf_ok; [done|]|..]|..]; simpl; eauto with tcp.
    - rewrite length_drop. pose proof (ok_send _ Hc). lia.
    - rewrite length_take. unfold MSS. lia. }
  pose proof (IH c2 Hc2). by destruct (flush_send_buf fuel now c2).
Qed.

Lemma bump_ok g k c : tcb_ok c → (length g ≤ MSS)%nat → retransmit_count c < MAX_RETRANSMITS →
  tcb_ok (set_rtx g k (wrap 8 (retransmit_count c + 1)) c).
Proof.
  intros Hc Hg Hlt. pose proof (ok_count _ Hc). unfold MAX_RETRANSMITS in *. apply set_rtx_ok; [done..|].
  rewrite wrap_id by (split; lia). unfold MAX_RETRANSMITS. lia.
Qed.

Lemma retransmit_ok now c c' : tcb_ok c → (retransmit_conn now c).1 = Some c' → tcb_ok c'.
Proof.
  intros Hc. unfold retransmit_conn. cbv zeta. set (due := negb _ && _). destruct (due && _) eqn:E1; [done|].
  match goal with |- context [retransmit_tick ?x] => set (c1 := x) end.
  assert (Hc1 : tcb_ok c1).
  { unfold c1. destruct due; [|done]. apply Z.leb_gt in E1. apply bump_ok; eauto with tcp. }
  clear E1. clearbody c1 due. destruct (_ && _); cbn [fst].
  2: { intros [= <-]. done. }
  destruct (_ <=? _) eqn:E2; [done|]. apply Z.leb_gt in E2.
  cbn [fst]. intros [= <-]. apply bump_ok; eauto with tcp.
Qed.

Lemma tick_ok now c c' : tcb_ok c → (tick_conn now c).1 = Some c' → tcb_ok c'.
Proof.
  intros Hc. unfold tick_conn. destruct (state c); try done; try by apply retransmit_ok.
  simpl. destruct (_ <? _); [done|by intros [= <-]].
Qed.

(** ** Histories *)

Inductive event :=
| EConnect (uptime : Z) (rip : list Z) (rport lport : Z)
| EListen (port : Z)
| EAccept (port : Z)
| ESend (id : Z) (data : list Z)
| ERecv (id : Z) (buf : list Z)
| EClose (id : Z)
| ERx (uptime : Z) (src_ip payload : list Z)
| ETick.

(** One call into the stack: the segments sent and the state after it. *)
Definition step (e : event) (s : t) : list Seg * t :=
  match e with
  | EConnect up rip rp lp => let '(_, out, s') := connect up rip rp lp s in (out, s')
  | EListen p => ([], (listen p s).2)
  | EAccept p => ([], (accept p s).2)
  | ESend id data => let '(_, out, s') := send id data s in (out, s')
  | ERecv id buf => ([], (recv id buf s).2)
  | EClose id => let '(_, out, s') := close id s in (out, s')
  | ERx up ip payload => handle_tcp up ip payload s
  | ETick => tcp_timer_tick s
  end.

Fixpoint run (evs : list event) (s : t) : list Seg * t :=
  match evs with
  | [] => ([], s)
  | e :: evs' => let '(out, s1) := step e s in let '(out', s2) := run evs' s1 in (out ++ out', s2)
  end.

(** The statics at boot. *)
Definition boot : t := mkT ∅ ∅ 1 0 49152 1000.

(** What arrives from the network is bytes; nothing else is assumed of it. *)
Definition event_ok (e : event) : Prop :=
  match e with ERx _ _ payload => bytes_ok payload | _ => True end.

Definition ACCEPT_QUEUE_MAX : nat := 16.

Record stack_ok (s : t) : Prop := {
  so_conns : map_Forall (λ _, tcb_ok) (TCP_CONNECTIONS s);
  so_queues : map_Forall (λ _ q, (length q ≤ ACCEPT_QUEUE_MAX)%nat) (TCP_LISTENERS s);
}.

Definition out_ok : list Seg → Prop := Forall (λ g, (length (sg_payload g) ≤ MSS)%nat).

Lemma be_at_range data i n : bytes_ok data → (i + n ≤ length data)%nat → uN (8 * Z.of_nat n) (be_at data i n).
Proof.
  intros Hb Hl. unfold be_at, from_be_bytes. set (bs := take n (drop i data)).
  assert (Hn : length (reverse bs) = n) by (unfold bs; rewrite length_reverse, length_take, length_drop; lia).
  rewrite <- Hn at 1. apply from_le_bytes_range, Forall_reverse. unfold bs. by apply Forall_take, Forall_drop.
Qed.

Lemma parse_hdr_ok payload h data : bytes_ok payload → parse payload = Some (h, data) → hdr_ok h.
Proof.
  intros Hb. unfold parse. destruct (_ <? _)%nat eqn:E1; [done|]. apply Nat.ltb_ge in E1. unfold TCP_HEADER_MIN in E1.
  destruct (_ || _)%bool; [done|]. intros [= <- _]. split; apply (be_at_range _ _ 4); (done || simpl; lia).
Qed.

Lemma set_conns_ok m s : stack_ok s → map_Forall (λ _, tcb_ok) m → stack_ok (set_conns m s).
Proof. intros [_ Hq] Hm. by split. Qed.

Lemma insert_conn_ok id c (m : gmap Z Tcb) : map_Forall (λ _, tcb_ok) m → tcb_ok c → map_Forall (λ _, tcb_ok) (<[id := c]> m).
Proof. intros. by apply map_Forall_insert_2. Qed.

Lemma set_listeners_ok m s : stack_ok s → map_Forall (λ _ q, (length q ≤ ACCEPT_QUEUE_MAX)%nat) m → stack_ok (set_listeners m s).
Proof. intros [Hc _] Hm. by split. Qed.

Lemma conn_ok s id c : stack_ok s → TCP_CONNECTIONS s !! id = Some c → tcb_ok c.
Proof. intros [Hc _] E. exact (Hc id c E). Qed.

Lemma accept_if_data_out c seq data : out_ok (accept_if_data c seq data).2.
Proof. destruct data; repeat constructor. Qed.

Lemma process_segment_out now c h data : out_ok (process_segment now c h data).2.
Proof.
  assert (Hr : ∀ c' fl, out_ok [reply c' fl []]) by (intros; repeat constructor; simpl; lia).
  unfold process_segment, take_fin. destruct (has_flag _ RST); [constructor|].
  destruct (state c); try constructor; repeat match goal with
    | |- context [accept_if_data ?x ?y ?z] => pose proof (accept_if_data_out x y z); destruct (accept_if_data x y z)
    | |- context [if ?b then _ else _] => destruct b
    end; simpl in *; try apply Hr; try constructor; try (apply Forall_app; split); (done || apply Hr || simpl; lia || constructor).
Qed.

Lemma flush_out fuel now c : out_ok (flush_send_buf fuel now c).2.
Proof.
  revert c. induction fuel as [|fuel IH]; intros c; cbn [flush_send_buf]; [constructor|].
  destruct (send_buf c) as [|b bs] eqn:E; [constructor|]. rewrite <- E. cbv zeta.
  destruct (_ =? 0)%nat; [constructor|]. set (c2 := set_snd _ _ _). specialize (IH c2).
  destruct (flush_send_buf fuel now c2). constructor; [|done]. simpl. rewrite length_take. unfold MSS. lia.
Qed.

Lemma tick_out now c : tcb_ok c → out_ok (tick_conn now c).2.
Proof.
  intros Hc. pose proof (ok_rtx _ Hc). assert (0 ≤ MSS)%nat by lia. unfold tick_conn, retransmit_conn. cbv zeta.
  destruct (state c); try apply Forall_nil_2;
    repeat match goal with |- context [if ?b then _ else _] => destruct b end; cbn [snd app];
    repeat (apply Forall_cons_2; [cbn [sg_payload length]; lia|]); apply Forall_nil_2.
Qed.

Definition safe (r : list Seg * t) : Prop := stack_ok r.2 ∧ out_ok r.1.

Lemma quiet s : stack_ok s → safe ([], s).
Proof. intros. split; [done|apply Forall_nil_2]. Qed.

(** Control segments carry no payload. *)
Lemma control_out g : sg_payload g = [] → out_ok [g].
Proof. intros E. apply Forall_singleton. rewrite E. simpl. lia. Qed.

Lemma connect_ok up rip rp lp s : stack_ok s → safe (step (EConnect up rip rp lp) s).
Proof.
  intros Hs. split; [|by apply control_out]. simpl. apply set_conns_ok; [by split; apply Hs|].
  apply insert_conn_ok; [apply Hs|]. pose proof (new_tcb_ok lp rip rp). eauto 10 with tcp.
Qed.

Lemma listen_ok p s : stack_ok s → safe (step (EListen p) s).
Proof.
  intros Hs. simpl. unfold listen. destruct (TCP_LISTENERS s !! p); [by apply quiet|]. apply quiet, set_listeners_ok; [done|].
  apply map_Forall_insert_2; [simpl; lia|apply Hs].
Qed.

Lemma accept_ok p s : stack_ok s → safe (step (EAccept p) s).
Proof.
  intros Hs. simpl. unfold accept. destruct (TCP_LISTENERS s !! p) as [[|id q]|] eqn:E; try by apply quiet.
  apply quiet, set_listeners_ok; [done|]. apply map_Forall_insert_2; [|apply Hs].
  pose proof (so_queues _ Hs p _ E) as Hq. simpl in Hq. lia.
Qed.

Lemma send_ok id data s : stack_ok s → safe (step (ESend id data) s).
Proof.
  intros Hs. simpl. unfold send. destruct (_ !! id) as [c|] eqn:E; [|by apply quiet].
  pose proof (conn_ok s id c Hs E) as Hc. destruct (_ && _)%bool; [by apply quiet|].
  destruct (_ =? 0)%nat; [by apply quiet|]. set (c1 := set_send_buf _ c).
  assert (Hc1 : tcb_ok c1).
  { apply set_send_buf_ok; [done|]. pose proof (ok_send _ Hc). rewrite length_app, length_take. lia. }
  pose proof (flush_ok (length (send_buf c1)) (TICK_COUNTER s) c1 Hc1) as Hf.
  pose proof (flush_out (length (send_buf c1)) (TICK_COUNTER s) c1) as Ho.
  destruct (flush_send_buf _ _ c1) as [c2 segs]. split; [|done]. apply set_conns_ok; [done|].
  apply insert_conn_ok; [apply Hs|done].
Qed.

Lemma recv_ok id buf s : stack_ok s → safe (step (ERecv id buf) s).
Proof.
  intros Hs. simpl. unfold recv. destruct (_ !! id) as [c|] eqn:E; [|by apply quiet].
  pose proof (conn_ok s id c Hs E) as Hc. destruct (recv_buf c) as [|b bs] eqn:Eb.
  - destruct (_ || _)%bool; by apply quiet.
  - rewrite <- Eb. apply quiet, set_conns_ok, insert_conn_ok; [done|apply Hs|]. apply set_rcv_ok; eauto with tcp.
    rewrite length_drop. pose proof (ok_recv _ Hc). lia.
Qed.

Lemma close_ok id s : stack_ok s → safe (step (EClose id) s).
Proof.
  intros Hs. simpl. unfold close. destruct (_ !! id) as [c|] eqn:E; [|by apply quiet].
  pose proof (conn_ok s id c Hs E) as Hc.
  assert (Hdel : stack_ok (set_conns (delete id (TCP_CONNECTIONS s)) s))
    by (apply set_conns_ok; [done|apply map_Forall_delete, Hs]).
  destruct (state c); (split; cbn [fst snd]; [first [exact Hdel|apply set_conns_ok, insert_conn_ok; [done|apply Hs|]]
                                            |first [apply control_out; reflexivity|apply Forall_nil_2]]); eauto 10 with tcp.
  assert (Hc1 : tcb_ok (set_snd (snd_una c) (wrap 32 (snd_nxt c + 1)) c)) by eauto with tcp.
  apply set_state_ok, set_rtx_ok; [done|by apply ok_rtx|by apply ok_count].
Qed.

Lemma rx_ok up ip payload s : stack_ok s → bytes_ok payload → safe (step (ERx up ip payload) s).
Proof.
  intros Hs Hb. simpl. unfold handle_tcp. destruct (parse payload) as [[h data]|] eqn:Ep; [|by apply quiet].
  apply parse_hdr_ok in Ep; [|done]. unfold handle_segment.
  assert (Hrej : safe (reject ip h data, s)).
  { split; [done|]. unfold reject. repeat case_match; try apply Forall_nil_2; by apply control_out. }
  destruct (find_conn ip h _) as [id|].
  - destruct (_ !! id) as [c|] eqn:E; [|by apply quiet]. pose proof (conn_ok s id c Hs E) as Hc.
    pose proof (process_segment_ok (TICK_COUNTER s) c h data Hc Ep). pose proof (process_segment_out (TICK_COUNTER s) c h data).
    destruct (process_segment _ c h data). split; [|done]. apply set_conns_ok, insert_conn_ok; (done || apply Hs).
  - destruct (_ && _)%bool; [|done]. destruct (TCP_LISTENERS s !! _) as [q|] eqn:Eq; [|done]. simpl.
    split; [|by apply control_out]. apply set_conns_ok, insert_conn_ok; [|apply Hs|].
    + apply set_listeners_ok; [by split; apply Hs|]. apply map_Forall_insert_2; [|apply Hs].
      pose proof (so_queues _ Hs _ _ Eq) as Hq. unfold ACCEPT_QUEUE_MAX in *. simpl in Hq.
      destruct (length q <? 16)%nat eqn:El; [|done]. apply Nat.ltb_lt in El. rewrite length_app. simpl. lia.
    + pose proof (new_tcb_ok (dst_port h) ip (src_port h)).
      assert (length (@nil Z) ≤ RECV_BUF_MAX)%nat by (simpl; lia). eauto 12 with tcp.
Qed.

Lemma tick_all_ok s : stack_ok s → safe (step ETick s).
Proof.
  intros Hs. split; simpl.
  - apply set_conns_ok; [by split; apply Hs|]. intros id c. rewrite lookup_omap.
    destruct (_ !! id) as [c0|] eqn:E; [|done]. simpl. apply tick_ok. by apply (conn_ok s id).
  - apply Forall_flat_map, Forall_forall. intros id _. destruct (_ !! id) as [c|] eqn:E; [|apply Forall_nil_2].
    apply tick_out. by apply (conn_ok s id).
Qed.

Lemma step_ok e s : stack_ok s → event_ok e → safe (step e s).
Proof.
  destruct e; intros Hs He;
    auto using connect_ok, listen_ok, accept_ok, send_ok, recv_ok, close_ok, rx_ok, tick_all_ok.
Qed.

(** C34: the stack's bounds hold after any history of calls, timer ticks and
    received packets, whatever bytes the network delivers: each connection's
    receive and send buffers hold at most 16384 bytes, the retransmission counter
    never passes 5, the sequence variables are 32-bit, each accept queue holds at
    most 16 ids, and no segment sent carries more than 1460 bytes. *)
Theorem tcp_bounds evs : Forall event_ok evs → stack_ok (run evs boot).2 ∧ out_ok (run evs boot).1.
Proof.
  assert (Hb : stack_ok boot) by (split; apply map_Forall_empty). revert Hb. generalize boot.
  induction evs as [|e evs IH]; intros s Hs Hev; simpl; [by apply quiet|].
  apply Forall_cons in Hev as [He Hev]. destruct (step_ok e s Hs He) as [H1 H2].
  destruct (step e s) as [out s1]. simpl in *. destruct (IH s1 H1 Hev) as [H3 H4]. destruct (run evs s1).
  split; [done|]. apply Forall_app. done.
Qed.

(** A SYN to a listener, bytes that are no segment, and a run of the timer. *)
Definition demo_history : list event :=
  [EListen 80; ERx 7 [10; 0; 2; 2] (build_segment 5000 80 99 0 SYN 1024 [] [10; 0; 2; 2] [10; 0; 2; 15]);
   ERx 7 [10; 0; 2; 2] [1; 2; 3]; EConnect 7 [10; 0; 2; 9] 443 50000; ETick; EAccept 80].

Lemma tcp_bounds_witness :
  stack_ok (run demo_history boot).2 ∧ out_ok (run demo_history boot).1.
Proof.
  apply (tcp_bounds demo_history).
  repeat (apply Forall_cons_2; [try exact I; vm_compute; repeat constructor; discriminate|]). apply Forall_nil_2.
Defined.

(** ** The state diagram *)

(** The transitions of RFC 793's diagram the stack implements; a reset closes
    any connection, and a closed connection stays closed. *)
Definition allowed (a b : TcpState) : bool :=
  bool_decide (a = b) ||
  match a, b with
  | SynSent, Established | SynReceived, Established
  | Established, FinWait1 | Established, CloseWait
  | FinWait1, FinWait2 | FinWait1, TimeWait | FinWait2, TimeWait
  | CloseWait, LastAck => true
  | _, Closed => true
  | _, _ => false
  end.

Lemma allowed_refl a : allowed a a = true.
Proof. by destruct a. Qed.

Lemma accept_if_data_state c seq data : state (accept_if_data c seq data).1 = state c.
Proof. destruct data; [done|]. unfold accept_if_data, accept_data. simpl. by destruct (_ && _). Qed.

Lemma process_segment_edge now c h data : allowed (state c) (state (process_segment now c h data).1) = true.
Proof.
  unfold process_segment, take_fin. destruct (has_flag _ RST); [by destruct c as [[]]|].
  destruct (state c) eqn:Es; repeat match goal with
    | |- context [accept_if_data ?x ?y ?z] => pose proof (accept_if_data_state x y z); destruct (accept_if_data x y z)
    | |- context [if ?b then _ else _] => destruct b
    end; simpl in *; simplify_eq; rewrite ?Es in *; repeat match goal with H : state _ = _ |- _ => rewrite H end; try done.
  destruct (has_flag _ ACK); simpl; [destruct (seq_after _ _); simpl|]; by rewrite Es.
Qed.

Lemma flush_state fuel now c : state (flush_send_buf fuel now c).1 = state c.
Proof.
  revert c. induction fuel as [|fuel IH]; intros c; cbn [flush_send_buf]; [done|].
  destruct (send_buf c) as [|b bs]; [done|]. cbv zeta. destruct (_ =? 0)%nat; [done|].
  match goal with |- context [flush_send_buf fuel now ?x] => specialize (IH x); destruct (flush_send_buf fuel now x) end. done.
Qed.

Lemma retransmit_state now c c' : (retransmit_conn now c).1 = Some c' → state c' = state c.
Proof.
  unfold retransmit_conn. cbv zeta.
  repeat match goal with |- context [if ?b then _ else _] => destruct b end; cbn [fst]; by intros [= <-].
Qed.

Lemma tick_state now c c' : (tick_conn now c).1 = Some c' → state c' = state c.
Proof.
  unfold tick_conn. destruct (state c) eqn:Es; simpl; try done; try (rewrite <- Es; apply retransmit_state).
  destruct (_ <? _); [done|by intros [= <-]].
Qed.

(** The connection table changes at one id at most, along the diagram. *)
Definition diagram (s s' : t) : Prop := ∀ id,
  match TCP_CONNECTIONS s !! id, TCP_CONNECTIONS s' !! id with
  | Some c, Some c' => allowed (state c) (state c') = true
  | None, Some c' => id = NEXT_SOCKET_ID s ∧ (state c' = SynSent ∨ state c' = SynReceived)
  | _, None => True
  end.

Lemma diagram_same s s' : TCP_CONNECTIONS s' = TCP_CONNECTIONS s → diagram s s'.
Proof. intros E id. rewrite E. destruct (_ !! id); [apply allowed_refl|done]. Qed.

Lemma diagram_update s s' id c c' :
  TCP_CONNECTIONS s !! id = Some c → TCP_CONNECTIONS s' = <[id := c']> (TCP_CONNECTIONS s) →
  allowed (state c) (state c') = true → diagram s s'.
Proof.
  intros E E' Ha i. rewrite E'. destruct (decide (i = id)) as [->|Hne].
  - by rewrite lookup_insert_eq, E.
  - rewrite lookup_insert_ne by done. destruct (_ !! i); [apply allowed_refl|done].
Qed.

Lemma diagram_new s s' c' :
  TCP_CONNECTIONS s !! NEXT_SOCKET_ID s = None → TCP_CONNECTIONS s' = <[NEXT_SOCKET_ID s := c']> (TCP_CONNECTIONS s) →
  state c' = SynSent ∨ state c' = SynReceived → diagram s s'.
Proof.
  intros E E' Hst i. rewrite E'. destruct (decide (i = NEXT_SOCKET_ID s)) as [->|Hne].
  - by rewrite lookup_insert_eq, E.
  - rewrite lookup_insert_ne by done. destruct (_ !! i); [apply allowed_refl|done].
Qed.

Lemma diagram_delete s s' id : TCP_CONNECTIONS s' = delete id (TCP_CONNECTIONS s) → diagram s s'.
Proof.
  intros E' i. rewrite E'. destruct (decide (i = id)) as [->|Hne].
  - rewrite lookup_delete_eq. by destruct (_ !! id).
  - rewrite lookup_delete_ne by done. destruct (_ !! i); [apply allowed_refl|done].
Qed.

(** Every call, packet and timer tick moves each connection along the TCP
    state diagram (or leaves its state alone): no closed connection comes back,
    none skips the handshake, none leaves TIME_WAIT other than to close, and a new
    entry appears only under the fresh id, in SYN_SENT or SYN_RECEIVED. *)
Theorem tcp_state_diagram e s :
  TCP_CONNECTIONS s !! NEXT_SOCKET_ID s = None → diagram s (step e s).2.
Proof.
  intros Hfresh. destruct e as [up rip rp lp|p|p|id data|id buf|id|up ip payload|]; simpl.
  - eapply diagram_new; [done|reflexivity|by left].
  - apply diagram_same. unfold listen. by destruct (_ !! p).
  - apply diagram_same. unfold accept. by destruct (_ !! p) as [[]|].
  - unfold send. destruct (_ !! id) as [c|] eqn:E; [|by apply diagram_same].
    destruct (_ && _)%bool; [by apply diagram_same|]. destruct (_ =? 0)%nat; [by apply diagram_same|].
    set (c1 := set_send_buf _ c). pose proof (flush_state (length (send_buf c1)) (TICK_COUNTER s) c1) as Hf.
    destruct (flush_send_buf _ _ c1) as [c2 segs]. eapply diagram_update; [done|reflexivity|].
    simpl in Hf. rewrite Hf. apply allowed_refl.
  - unfold recv. destruct (_ !! id) as [c|] eqn:E; [|by apply diagram_same]. destruct (recv_buf c).
    + apply diagram_same. by destruct (_ || _)%bool.
    + eapply diagram_update; [done|reflexivity|apply allowed_refl].
  - unfold close. destruct (_ !! id) as [c|] eqn:E; [|by apply diagram_same].
    destruct (state c) eqn:Es;
      first [by eapply diagram_delete|eapply diagram_update; [done|reflexivity|by rewrite Es]].
  - unfold handle_tcp. destruct (parse payload) as [[h data]|]; [|by apply diagram_same]. unfold handle_segment.
    destruct (find_conn ip h _) as [id|].
    + destruct (_ !! id) as [c|] eqn:E; [|by apply diagram_same].
      pose proof (process_segment_edge (TICK_COUNTER s) c h data). destruct (process_segment _ c h data).
      by eapply diagram_update.
    + destruct (_ && _)%bool; [|by apply diagram_same]. destruct (TCP_LISTENERS s !! _); [|by apply diagram_same].
      eapply diagram_new; [done|reflexivity|by right].
  - intros i. simpl. rewrite lookup_omap. destruct (_ !! i) as [c|]; [|done]. simpl.
    destruct (tick_conn _ c).1 as [c'|] eqn:Et; [|done]. apply tick_state in Et. rewrite Et. apply allowed_refl.
Qed.

Lemma tcp_state_diagram_witness : diagram (run demo_history boot).2 (step (EClose 2) (run demo_history boot).2).2.
Proof. apply (tcp_state_diagram (EClose 2) (run demo_history boot).2). vm_compute. reflexivity. Defined.

(** ** Sending: the segments tile the buffer *)

(** Consecutive segments, from sequence number [seq] on. *)
Fixpoint tiles (seq : Z) (segs : list Seg) : Prop :=
  match segs with
  | [] => True
  | g :: segs' => sg_seq g = seq ∧ sg_payload g ≠ [] ∧ tiles (wrap 32 (seq + Z.of_nat (length (sg_payload g)))) segs'
  end.

Lemma flush_tiles fuel now c : uN 32 (snd_nxt c) → let '(c', segs) := flush_send_buf fuel now c in
  tiles (snd_nxt c) segs ∧ (segs ≫= sg_payload) ++ send_buf c' = send_buf c
  ∧ snd_nxt c' = wrap 32 (snd_nxt c + Z.of_nat (length (segs ≫= sg_payload)))
  ∧ snd_wnd c' = snd_wnd c ∧ snd_una c' = snd_una c.
Proof.
  revert c. induction fuel as [|fuel IH]; intros c Hc; cbn [flush_send_buf].
  { simpl. rewrite Z.add_0_r, wrap_id by done. done. }
  assert (Hstop : tiles (snd_nxt c) [] ∧ ([] ≫= sg_payload) ++ send_buf c = send_buf c
    ∧ snd_nxt c = wrap 32 (snd_nxt c + Z.of_nat (length ([] ≫= sg_payload))) ∧ snd_wnd c = snd_wnd c ∧ snd_una c = snd_una c).
  { simpl. rewrite Z.add_0_r, wrap_id by done. done. }
  destruct (send_buf c) as [|b bs] eqn:E; [by rewrite E|]. rewrite <- E in Hstop |- *. cbv zeta.
  set (n := Nat.min (length (send_buf c)) _). destruct (n =? 0)%nat eqn:En; [done|]. apply Nat.eqb_neq in En.
  match goal with |- context [flush_send_buf fuel now ?x] => set (c2 := x) end.
  specialize (IH c2 ltac:(apply wrap32)). destruct (flush_send_buf fuel now c2) as [c' segs].
  destruct IH as (H1 & H2 & H3 & H4 & H5).
  assert (Hlen : length (take n (send_buf c)) = n) by (rewrite length_take; lia).
  change ((?g :: segs) ≫= sg_payload) with (sg_payload g ++ (segs ≫= sg_payload)). cbn [tiles reply sg_payload sg_seq].
  rewrite Hlen. split_and!; try done.
  - intros Hnil. rewrite Hnil in Hlen. simpl in Hlen. lia.
  - rewrite <- app_assoc, H2. unfold c2. simpl. apply take_drop.
  - rewrite H3. unfold c2. simpl. rewrite length_app, Hlen. unfold wrap. rewrite Zplus_mod_idemp_l. f_equal. lia.
Qed.

Lemma flush_empties fuel now c : 0 < snd_wnd c → (length (send_buf c) ≤ fuel)%nat →
  send_buf (flush_send_buf fuel now c).1 = [].
Proof.
  revert c. induction fuel as [|fuel IH]; intros c Hw Hl; cbn [flush_send_buf].
  { simpl. destruct (send_buf c); [done|simpl in Hl; lia]. }
  destruct (send_buf c) as [|b bs] eqn:E; [done|]. rewrite <- E in Hl |- *. cbv zeta.
  assert (Hpos : (0 < length (send_buf c))%nat) by (rewrite E; simpl; lia).
  set (n := Nat.min (length (send_buf c)) _). destruct (n =? 0)%nat eqn:En; [apply Nat.eqb_eq in En; lia|].
  apply Nat.eqb_neq in En. match goal with |- context [flush_send_buf fuel now ?x] => set (c2 := x) end.
  specialize (IH c2 Hw). destruct (flush_send_buf fuel now c2). apply IH. unfold c2. simpl. rewrite length_drop. lia.
Qed.

(** On an open connection with a non-zero peer window, [send] takes as much
    of the data as the 16 KiB buffer has room for, reports that count, and sends
    the whole buffer at once: the segments' payloads, in order, are exactly the
    buffered bytes followed by the accepted data, their sequence numbers are
    consecutive from [snd_nxt] (modulo 2^32), none is empty, the buffer is left
    empty and [snd_nxt] is past the last byte. *)
Theorem tcp_send_tiles id c data s :
  TCP_CONNECTIONS s !! id = Some c → state c = Established ∨ state c = CloseWait →
  uN 32 (snd_nxt c) → 0 < snd_wnd c → (length (send_buf c) < SEND_BUF_MAX)%nat → data ≠ [] →
  let n := Nat.min (length data) (SEND_BUF_MAX - length (send_buf c)) in
  ∃ segs s' c', send id data s = (Ok n, segs, s') ∧ TCP_CONNECTIONS s' !! id = Some c'
    ∧ (segs ≫= sg_payload) = send_buf c ++ take n data ∧ tiles (snd_nxt c) segs
    ∧ send_buf c' = [] ∧ state c' = state c
    ∧ snd_nxt c' = wrap 32 (snd_nxt c + Z.of_nat (length (send_buf c) + n)).
Proof.
  intros E Hst Hn Hw Hroom Hd n. unfold send. rewrite E.
  replace (_ && _)%bool with false by (destruct Hst as [->| ->]; done). fold n.
  assert (Hd' : (0 < length data)%nat) by (destruct data; [done|cbn [length]; lia]).
  assert (Hn0 : n ≠ 0%nat) by (unfold n; lia).
  apply Nat.eqb_neq in Hn0 as ->. set (c1 := set_send_buf _ c).
  pose proof (flush_tiles (length (send_buf c1)) (TICK_COUNTER s) c1 Hn) as Ht.
  pose proof (flush_empties (length (send_buf c1)) (TICK_COUNTER s) c1 Hw ltac:(done)) as He.
  pose proof (flush_state (length (send_buf c1)) (TICK_COUNTER s) c1) as Hs.
  destruct (flush_send_buf _ _ c1) as [c2 segs]. simpl in He, Hs. destruct Ht as (H1 & H2 & H3 & _).
  rewrite He, app_nil_r in H2. exists segs. eexists. exists c2. split; [reflexivity|].
  split; [apply lookup_insert_eq|]. split_and!; try done. rewrite H3, H2. simpl.
  by rewrite length_app, length_take_le by (unfold n; lia).
Qed.

Definition demo_conn (wnd : Z) : Tcb :=
  set_state Established (set_wnd wnd (set_rcv 500 [] (set_snd 4294967290 4294967290 (new_tcb 50000 [10; 0; 2; 9] 80)))).
Definition demo_stack (wnd : Z) : t := set_conns {[7 := demo_conn wnd]} boot.

Lemma tcp_send_tiles_witness :
  ∃ segs s' c', send 7 [1; 2; 3; 4; 5; 6; 7; 8; 9; 10] (demo_stack 4) = (Ok 10%nat, segs, s')
    ∧ TCP_CONNECTIONS s' !! 7 = Some c' ∧ (segs ≫= sg_payload) = [1; 2; 3; 4; 5; 6; 7; 8; 9; 10]
    ∧ tiles 4294967290 segs ∧ send_buf c' = [] ∧ state c' = Established ∧ snd_nxt c' = 4.
Proof.
  destruct (tcp_send_tiles 7 (demo_conn 4) [1; 2; 3; 4; 5; 6; 7; 8; 9; 10] (demo_stack 4)) as (segs & s' & c' & H);
    [reflexivity|by left|split; simpl; lia|simpl; lia|unfold SEND_BUF_MAX; simpl; lia|done|].
  exists segs, s', c'. destruct H as (H1 & H2 & H3 & H4 & H5 & H6 & H7).
  replace (Nat.min _ _) with 10%nat in * by (unfold SEND_BUF_MAX; simpl length; lia).
  split_and!; done.
Defined.

(** The peer's window bounds each segment, not the data in flight: with a window
    of 4, ten bytes are sent in one call. *)
Lemma send_exceeds_window :
  sum_list (length ∘ sg_payload <$> (send 7 [1; 2; 3; 4; 5; 6; 7; 8; 9; 10] (demo_stack 4)).1.2) = 10%nat.
Proof. reflexivity. Qed.

(** With a closed window the bytes are accepted and kept; no segment that opens
    the window again sends them, only a later call of [send] does. *)
Lemma zero_window_stalls :
  let '(r, out, s1) := send 7 [1; 2; 3] (demo_stack 0) in
  let '(out', s2) := handle_segment 0 [10; 0; 2; 9] (mkHeader 80 50000 500 4294967290 5 ACK 8192 0 0) [] s1 in
  r = Ok 3%nat ∧ out = [] ∧ out' = [] ∧ (send_buf <$> TCP_CONNECTIONS s2 !! 7) = Some [1; 2; 3]
  ∧ (snd_wnd <$> TCP_CONNECTIONS s2 !! 7) = Some 8192 ∧ (tcp_timer_tick s2).1 = [].
Proof. vm_compute. done. Qed.

(** Two segments in flight, none acknowledged: the timer sends the second one's
    bytes again, at the first one's sequence number. *)
Lemma retransmit_wrong_bytes :
  let '(_, out, s1) := send 7 [1; 2; 3; 4; 5; 6] (demo_stack 4) in
  let s2 := mkT (TCP_CONNECTIONS s1) (TCP_LISTENERS s1) (NEXT_SOCKET_ID s1) 300 0 0 in
  (λ g, (sg_seq g, sg_payload g)) <$> out = [(4294967290, [1; 2; 3; 4]); (4294967294, [5; 6])]
  ∧ (λ g, (sg_seq g, sg_payload g)) <$> (tcp_timer_tick s2).1 = [(4294967290, [5; 6])].
Proof. vm_compute. done. Qed.
