(* ===== verification/TcpStream.v ===== *)
(** End-to-end properties of the TCP stack: in-order delivery of the peer's
    stream, and the three-way handshake between two stacks over the wire format
    ([kernel/src/net/tcp.rs]). *)

From S2P Require Import Prelude Bits TcpWire Tcp TcpProofs.

(** ** Routing a segment to its connection *)

Definition addr (c : Tcb) : list Z * Z * Z := (remote_ip c, remote_port c, local_port c).

Definition hdr_addr (ip : list Z) (h : TcpHeader) : list Z * Z * Z := (ip, src_port h, dst_port h).

(** [id] is the connection with address [a], and the only one. *)
Record sole (s : t) (id : Z) (a : list Z * Z * Z) : Prop := {
  sole_here : ∃ c, TCP_CONNECTIONS s !! id = Some c ∧ addr c = a;
  sole_only : ∀ id' c', TCP_CONNECTIONS s !! id' = Some c' → addr c' = a → id' = id;
}.

Lemma match_addr ip h c :
  bool_decide (remote_ip c = ip) && (remote_port c =? src_port h) && (local_port c =? dst_port h) = true
  ↔ addr c = hdr_addr ip h.
Proof.
  unfold addr, hdr_addr. rewrite !andb_true_iff, bool_decide_eq_true, !Z.eqb_eq.
  split; [intros [[-> ->] ->]; done|by intros [= -> -> ->]].
Qed.

Lemma find_conn_sole s id ip h : sole s id (hdr_addr ip h) → find_conn ip h (TCP_CONNECTIONS s) = Some id.
Proof.
  intros [(c & Hc & Ha) Honly]. unfold find_conn.
  destruct (List.find _ _) as [id'|] eqn:Ef.
  - apply List.find_some in Ef as [_ Ef]. destruct (_ !! id') as [c'|] eqn:E'; [|done].
    apply match_addr in Ef. f_equal. by apply (Honly id' c').
  - apply (List.find_none _ _) with (x := id) in Ef; [|apply list_elem_of_In, elem_of_sorted_keys; by eexists].
    rewrite Hc in Ef. by rewrite (proj2 (match_addr ip h c) Ha) in Ef.
Qed.

Lemma find_conn_none s ip h :
  (∀ id c, TCP_CONNECTIONS s !! id = Some c → addr c ≠ hdr_addr ip h) → find_conn ip h (TCP_CONNECTIONS s) = None.
Proof.
  intros Hno. unfold find_conn. destruct (List.find _ _) as [id|] eqn:Ef; [|done]. exfalso.
  apply List.find_some in Ef as [_ Ef]. destruct (_ !! id) as [c|] eqn:E; [|done].
  apply match_addr in Ef. by apply (Hno id c).
Qed.

Lemma sole_update s s' id a c :
  sole s id a → addr c = a → TCP_CONNECTIONS s' = <[id := c]> (TCP_CONNECTIONS s) → sole s' id a.
Proof.
  intros [_ Ho] Ha E'. split.
  - exists c. by rewrite E', lookup_insert_eq.
  - intros id' c'. rewrite E'. intros [[<- _]|[_ Hl]]%lookup_insert_Some; [done|by apply (Ho id' c')].
Qed.

Lemma accept_if_data_addr c seq data : addr (accept_if_data c seq data).1 = addr c.
Proof. destruct data; [done|]. unfold accept_if_data, accept_data. simpl. by destruct (_ && _). Qed.

Lemma process_segment_addr now c h data : addr (process_segment now c h data).1 = addr c.
Proof.
  unfold process_segment, take_fin. destruct (has_flag _ RST); [done|].
  destruct (state c); try done; repeat match goal with
    | |- context [if ?b then _ else _] => destruct b
    | |- context [accept_if_data ?x ?y ?z] => pose proof (accept_if_data_addr x y z) as Ha; destruct (accept_if_data x y z)
    end; try done; simpl in *; unfold addr in *; simpl in *; congruence.
Qed.

(** ** In-order delivery *)

Section Stream.
(** The bytes the peer sends, and the sequence number of the first. *)
Context (stream : list Z) (irs : Z).

Definition seq_of (k : nat) : Z := wrap 32 (irs + Z.of_nat k).

(** A segment of the peer's stream: any range of it, old, new, duplicate or
    ahead of what was received. *)
Definition from_stream (h : TcpHeader) (data : list Z) : Prop :=
  ∃ k, (k ≤ length stream)%nat ∧ seq_num h = seq_of k ∧ data `prefix_of` drop k stream.

(** The first [m] bytes have been accepted; [got] of them were read. *)
Definition received (got : list Z) (c : Tcb) (m : nat) : Prop :=
  (m ≤ length stream)%nat ∧ got ++ recv_buf c = take m stream ∧ rcv_nxt c = seq_of m.

Lemma seq_of_inj j k : (j ≤ length stream)%nat → (k ≤ length stream)%nat → Z.of_nat (length stream) < 2 ^ 32 →
  seq_of j = seq_of k → j = k.
Proof.
  unfold seq_of, wrap. intros Hj Hk Hlen E.
  assert (Hd : (Z.of_nat j - Z.of_nat k) `mod` 2 ^ 32 = 0).
  { replace (Z.of_nat j - Z.of_nat k) with (irs + Z.of_nat j - (irs + Z.of_nat k)) by lia.
    rewrite Zminus_mod, E, Z.sub_diag. done. }
  apply Z.mod_divide in Hd as [q Hq]; [|done]. assert (q = 0) by nia. nia.
Qed.

Lemma seq_of_add m n : wrap 32 (seq_of m + Z.of_nat n) = seq_of (m + n).
Proof. unfold seq_of, wrap. rewrite Zplus_mod_idemp_l. f_equal. lia. Qed.

Lemma accept_received got c h data m :
  Z.of_nat (length stream) < 2 ^ 32 → received got c m → from_stream h data →
  ∃ m', (m ≤ m')%nat ∧ received got (accept_if_data c (seq_num h) data).1 m'
    ∧ (seq_num h = seq_of m → (length (recv_buf c) + length data ≤ RECV_BUF_MAX)%nat → m' = (m + length data)%nat).
Proof.
  intros Hlen (Hm & Hgot & Hnxt) (k & Hk & Hseq & Hpre). destruct data as [|b bs] eqn:Ed.
  { exists m. split; [lia|]. split; [by split|]. simpl. lia. }
  rewrite <- Ed in *. assert (Hne : accept_if_data c (seq_num h) data = accept_data c (seq_num h) data) by (by rewrite Ed).
  rewrite Hne. unfold accept_data. cbn [fst]. clear Ed Hne.
  destruct (_ && _)%bool eqn:E.
  - apply andb_true_iff in E as [E1%Z.eqb_eq E2%Nat.leb_le].
    assert (k = m) as -> by (apply seq_of_inj; [done..|congruence]).
    exists (m + length data)%nat. split; [lia|]. split; [|done]. unfold received. simpl.
    assert (Hd : (length data ≤ length stream - m)%nat) by (apply prefix_length in Hpre; rewrite length_drop in Hpre; lia).
    split; [lia|]. split; [|rewrite Hnxt; apply seq_of_add].
    rewrite app_assoc, Hgot, <- take_take_drop. f_equal. destruct Hpre as [r ->]. by rewrite take_app_length.
  - exists m. split; [lia|]. split; [by split|]. intros Es Hfit. apply andb_false_iff in E as [E|E].
    + apply Z.eqb_neq in E. congruence.
    + apply Nat.leb_gt in E. lia.
Qed.

(** What happens on one open connection: segments arrive from the peer, and the
    program reads; [net_step] gives the bytes read. *)
Inductive net_event :=
| Arrive (uptime : Z) (h : TcpHeader) (data : list Z)
| Read (buf : list Z).

Definition net_step (id : Z) (ip : list Z) (e : net_event) (s : t) : list Z * t :=
  match e with
  | Arrive up h data => ([], (handle_segment up ip h data s).2)
  | Read buf => let '(r, buf', s') := recv id buf s in
                (match r with Ok n => take n buf' | Err _ => [] end, s')
  end.

Fixpoint net_run (id : Z) (ip : list Z) (evs : list net_event) (s : t) : list Z * t :=
  match evs with
  | [] => ([], s)
  | e :: evs' => let '(got, s1) := net_step id ip e s in let '(got', s2) := net_run id ip evs' s1 in (got ++ got', s2)
  end.

(** The network may lose, repeat and reorder the peer's segments; it does not
    end or reset the connection. *)
Definition net_ok (ip : list Z) (a : list Z * Z * Z) (e : net_event) : Prop :=
  match e with
  | Arrive _ h data => hdr_addr ip h = a ∧ has_flag (flags h) RST = false ∧ has_flag (flags h) FIN = false ∧ from_stream h data
  | Read _ => True
  end.

Record open_conn (s : t) (id : Z) (a : list Z * Z * Z) (c : Tcb) : Prop := {
  oc_sole : sole s id a;
  oc_here : TCP_CONNECTIONS s !! id = Some c;
  oc_state : state c = Established;
}.

Lemma process_established now c h data :
  state c = Established → has_flag (flags h) RST = false → has_flag (flags h) FIN = false →
  ∃ c1, process_segment now c h data = accept_if_data c1 (seq_num h) data
    ∧ state c1 = Established ∧ recv_buf c1 = recv_buf c ∧ rcv_nxt c1 = rcv_nxt c.
Proof.
  intros Hs Hr Hf. unfold process_segment. rewrite Hr, Hf, Hs. cbv zeta.
  match goal with |- context [let '(_, _) := accept_if_data ?x _ _ in _] => exists x end.
  split; [by destruct (accept_if_data _ _ _)|]. destruct (has_flag _ ACK); [|done]. by destruct (seq_after _ _).
Qed.

Lemma arrive_received got s id ip a c up h data m :
  Z.of_nat (length stream) < 2 ^ 32 → open_conn s id a c → received got c m → net_ok ip a (Arrive up h data) →
  ∃ c' m', open_conn (handle_segment up ip h data s).2 id a c' ∧ received got c' m' ∧ (m ≤ m')%nat
    ∧ (seq_num h = seq_of m → (length (recv_buf c) + length data ≤ RECV_BUF_MAX)%nat → m' = (m + length data)%nat).
Proof.
  intros Hlen [Hsole Hc Hst] Hrec (<- & Hr & Hf & Hfs). unfold handle_segment.
  rewrite (find_conn_sole s id ip h Hsole), Hc.
  destruct (process_established (TICK_COUNTER s) c h data Hst Hr Hf) as (c1 & Hp & Hs1 & Hb1 & Hn1).
  pose proof (process_segment_addr (TICK_COUNTER s) c h data) as Ha. rewrite Hp in Ha |- *.
  assert (Hrec1 : received got c1 m) by (unfold received; by rewrite Hb1, Hn1).
  destruct (accept_received got c1 h data m Hlen Hrec1 Hfs) as (m' & Hle & Hrec' & Hgrow).
  pose proof (accept_if_data_state c1 (seq_num h) data) as Hs'.
  destruct (accept_if_data c1 (seq_num h) data) as [c' segs]. simpl in *.
  assert (Hac : addr c = hdr_addr ip h) by (destruct Hsole as [(c0 & Hc0 & Ha0) _]; congruence).
  exists c', m'. split_and!; [|done|done|by rewrite <- Hb1].
  split; [|apply lookup_insert_eq|congruence]. eapply sole_update; [done| |reflexivity]. congruence.
Qed.

Lemma read_received got s id a c buf m :
  open_conn s id a c → received got c m →
  let '(r, buf', s') := recv id buf s in
  ∃ c' n, r = Ok n ∧ open_conn s' id a c' ∧ received (got ++ take n buf') c' m
    ∧ take n buf' = take (length buf) (recv_buf c).
Proof.
  intros [Hsole Hc Hst] (Hm & Hg & Hn). unfold recv. rewrite Hc. destruct (recv_buf c) as [|b bs] eqn:Eb.
  { rewrite Hst. simpl. exists c, 0%nat. split; [done|]. split; [done|]. rewrite take_0, take_nil, app_nil_r.
    split; [by unfold received; rewrite Eb|done]. }
  rewrite <- Eb in *. set (n := Nat.min (length buf) (length (recv_buf c))). eexists _, n. split; [done|].
  assert (Hr : take n (take n (recv_buf c) ++ drop n buf) = take n (recv_buf c)).
  { rewrite take_app_le by (rewrite length_take; lia). by rewrite take_take, Nat.min_id. }
  rewrite Hr. split; [|split].
  - split; [eapply sole_update; [done| |reflexivity]|apply lookup_insert_eq|done].
    destruct Hsole as [(c0 & Hc0 & Ha0) _]. replace c0 with c in Ha0 by congruence. done.
  - unfold received. simpl. by rewrite <- app_assoc, take_drop.
  - unfold n. destruct (Nat.min_spec (length buf) (length (recv_buf c))) as [[? ->]|[? ->]]; [done|].
    by rewrite !take_ge by lia.
Qed.

Lemma net_run_received got s id ip a c m evs :
  Z.of_nat (length stream) < 2 ^ 32 → open_conn s id a c → received got c m → Forall (net_ok ip a) evs →
  ∃ c' m', open_conn (net_run id ip evs s).2 id a c' ∧ received (got ++ (net_run id ip evs s).1) c' m' ∧ (m ≤ m')%nat.
Proof.
  intros Hlen. revert got s c m. induction evs as [|e evs IH]; intros got s c m Ho Hr Hev; simpl.
  { exists c, m. rewrite app_nil_r. done. }
  apply Forall_cons in Hev as [He Hev]. destruct e as [up h data|buf]; simpl.
  - destruct (arrive_received got s id ip a c up h data m Hlen Ho Hr He) as (c1 & m1 & Ho1 & Hr1 & Hle & _).
    destruct (IH got _ c1 m1 Ho1 Hr1 Hev) as (c' & m' & ? & ? & ?).
    destruct (net_run id ip evs _) as [got' s2]. exists c', m'. split_and!; [done..|lia].
  - pose proof (read_received got s id a c buf m Ho Hr) as Hrd. destruct (recv id buf s) as [[r buf'] s'].
    destruct Hrd as (c1 & n & -> & Ho1 & Hr1 & _). destruct (IH _ _ c1 m Ho1 Hr1 Hev) as (c' & m' & ? & Hr' & ?).
    destruct (net_run id ip evs s') as [got' s2]. exists c', m'. simpl in *. by rewrite app_assoc.
Qed.
End Stream.

(** C2: on an established connection the program reads exactly a prefix of the
    peer's stream, in order, without gaps or repetitions, however the network
    loses, duplicates or reorders the peer's segments and however the reads are
    interleaved with them (streams below 4 GiB, connection neither ended nor
    reset); what was accepted but not yet read is the continuation of that prefix
    in the receive buffer, and [rcv_nxt] is the number of the next byte. *)
Theorem tcp_in_order_delivery stream irs s id ip a c evs :
  Z.of_nat (length stream) < 2 ^ 32 → open_conn s id a c → recv_buf c = [] → rcv_nxt c = wrap 32 irs →
  Forall (net_ok stream irs ip a) evs →
  ∃ c' m, open_conn (net_run id ip evs s).2 id a c' ∧ (m ≤ length stream)%nat
    ∧ (net_run id ip evs s).1 ++ recv_buf c' = take m stream ∧ rcv_nxt c' = wrap 32 (irs + Z.of_nat m).
Proof.
  intros Hlen Ho Hb Hn Hev.
  assert (Hr : received stream irs [] c 0).
  { unfold received, seq_of. rewrite Hb, Z.add_0_r. split_and!; (done || lia). }
  destruct (net_run_received stream irs [] s id ip a c 0 evs Hlen Ho Hr Hev) as (c' & m & Ho' & (? & ? & ?) & _).
  exists c', m. done.
Qed.

Definition demo_hdr (seq : Z) : TcpHeader := mkHeader 80 50000 seq 4294967290 5 ACK 8192 0 0.
Definition demo_addr : list Z * Z * Z := ([10; 0; 2; 9], 80, 50000).

Lemma demo_open : open_conn (demo_stack 4) 7 demo_addr (demo_conn 4).
Proof.
  split; [|reflexivity|reflexivity]. split; [by exists (demo_conn 4)|].
  intros id' c' H _. change (({[7 := demo_conn 4]} : gmap Z Tcb) !! id' = Some c') in H. by apply lookup_singleton_Some in H as [<- _].
Qed.

(** The second segment first, then the first, the second again and a repeat. *)
Lemma tcp_in_order_delivery_witness :
  ∃ c' m, let r := net_run 7 [10; 0; 2; 9]
                     [Arrive 0 (demo_hdr 503) [4; 5]; Arrive 0 (demo_hdr 500) [1; 2; 3]; Read [0; 0];
                      Arrive 0 (demo_hdr 503) [4; 5]; Arrive 0 (demo_hdr 500) [1; 2; 3]] (demo_stack 4) in
    open_conn r.2 7 demo_addr c' ∧ (m ≤ 6)%nat ∧ r.1 ++ recv_buf c' = take m [1; 2; 3; 4; 5; 6]
    ∧ rcv_nxt c' = wrap 32 (500 + Z.of_nat m).
Proof.
  apply (tcp_in_order_delivery [1; 2; 3; 4; 5; 6] 500 (demo_stack 4) 7 [10; 0; 2; 9] demo_addr (demo_conn 4));
    [simpl; lia|apply demo_open|reflexivity|reflexivity|].
  repeat (apply Forall_cons_2; [|]); try exact I; try apply Forall_nil_2;
    (split; [reflexivity|split; [reflexivity|split; [reflexivity|]]]).
  all: first [exists 0%nat; split; [simpl; lia|split; [reflexivity|by exists [4; 5; 6]]]
             |exists 3%nat; split; [simpl; lia|split; [reflexivity|by exists [6]]]].
Defined.

(** The peer's segments in order, the program reading after each. *)
Fixpoint in_order (mk : nat → TcpHeader) (k : nat) (chunks : list (list Z)) : list net_event :=
  match chunks with
  | [] => []
  | d :: chunks' => Arrive 0 (mk k) d :: Read (replicate RECV_BUF_MAX 0) :: in_order mk (k + length d) chunks'
  end.

Lemma in_order_delivered stream irs id ip a (mk : nat → TcpHeader) chunks : ∀ got s c m,
  Z.of_nat (length stream) < 2 ^ 32 →
  (∀ k, hdr_addr ip (mk k) = a ∧ has_flag (flags (mk k)) RST = false ∧ has_flag (flags (mk k)) FIN = false
        ∧ seq_num (mk k) = seq_of irs k) →
  Forall (λ d, (length d ≤ RECV_BUF_MAX)%nat) chunks → drop m stream = concat chunks →
  open_conn s id a c → received stream irs got c m → recv_buf c = [] →
  got ++ (net_run id ip (in_order mk m chunks) s).1 = stream.
Proof.
  induction chunks as [|d chunks IH]; intros got s c m Hlen Hmk Hd Hrest Ho Hr Hb; simpl.
  { destruct Hr as (Hm & Hg & _). rewrite Hb in Hg. simpl in Hrest. apply (f_equal length) in Hrest.
    rewrite length_drop in Hrest. simpl in Hrest. rewrite Hg. apply take_ge. lia. }
  apply Forall_cons in Hd as [Hd Hds]. destruct (Hmk m) as (M1 & M2 & M3 & M4). pose proof (proj1 Hr) as Hm.
  assert (Hfs : from_stream stream irs (mk m) d).
  { exists m. split_and!; [done..|]. rewrite Hrest. simpl. by exists (concat chunks). }
  destruct (arrive_received stream irs got s id ip a c 0 (mk m) d m Hlen Ho Hr) as (c1 & m1 & Ho1 & Hr1 & _ & Hg1); [done|].
  rewrite Hb in Hg1. specialize (Hg1 M4 Hd). subst m1.
  destruct (handle_segment 0 ip (mk m) d s) as [out s1]. simpl in Ho1 |- *.
  pose proof (read_received stream irs got s1 id a c1 (replicate RECV_BUF_MAX 0) _ Ho1 Hr1) as Hrd.
  destruct (recv id _ s1) as [[r buf'] s']. destruct Hrd as (c2 & n & -> & Ho2 & Hr2 & Hread).
  assert (Hc1 : got ++ recv_buf c1 = got ++ d).
  { destruct Hr as (_ & Hg & _). rewrite Hb, app_nil_r in Hg. rewrite (proj1 (proj2 Hr1)), Hg, <- take_take_drop, Hrest. f_equal.
    simpl. by rewrite take_app_length. }
  apply app_inv_head in Hc1. rewrite Hc1, length_replicate in Hread. rewrite (take_ge d) in Hread by done.
  assert (Hb2 : recv_buf c2 = []).
  { pose proof (proj1 (proj2 Hr2)) as E. rewrite <- (proj1 (proj2 Hr1)), Hread, Hc1 in E.
    rewrite <- app_assoc in E. apply app_inv_head in E. rewrite <- (app_nil_r d) in E at 2. by apply app_inv_head in E. }
  specialize (IH (got ++ d) s' c2 (m + length d)%nat Hlen Hmk Hds).
  rewrite <- Hread in IH at 2 3. rewrite <- drop_drop, Hrest in IH. simpl in IH. rewrite drop_app_length in IH.
  rewrite Hread in *. specialize (IH eq_refl Ho2 Hr2 Hb2).
  destruct (net_run id ip _ s') as [got' s2]. simpl in *. by rewrite app_assoc.
Qed.

(** C32: delivery is complete: when the peer's segments arrive in order, each at
    most as large as the receive buffer, and the program reads after each, it
    reads the whole stream. *)
Theorem tcp_delivers_stream stream irs s id ip a c (mk : nat → TcpHeader) chunks :
  Z.of_nat (length stream) < 2 ^ 32 → open_conn s id a c → recv_buf c = [] → rcv_nxt c = wrap 32 irs →
  (∀ k, hdr_addr ip (mk k) = a ∧ has_flag (flags (mk k)) RST = false ∧ has_flag (flags (mk k)) FIN = false
        ∧ seq_num (mk k) = seq_of irs k) →
  Forall (λ d, (length d ≤ RECV_BUF_MAX)%nat) chunks → stream = concat chunks →
  (net_run id ip (in_order mk 0 chunks) s).1 = stream.
Proof.
  intros Hlen Ho Hb Hn Hmk Hd Hs. apply (in_order_delivered stream irs id ip a mk chunks [] s c 0); try done.
  unfold received, seq_of. rewrite Hb, Z.add_0_r. split_and!; (done || lia).
Qed.

Lemma tcp_delivers_stream_witness :
  (net_run 7 [10; 0; 2; 9] (in_order (λ k, demo_hdr (seq_of 500 k)) 0 [[1; 2; 3]; [4]; [5; 6]]) (demo_stack 4)).1
  = [1; 2; 3; 4; 5; 6].
Proof.
  apply (tcp_delivers_stream [1; 2; 3; 4; 5; 6] 500 (demo_stack 4) 7 [10; 0; 2; 9] demo_addr (demo_conn 4));
    [simpl; lia|apply demo_open|reflexivity|reflexivity| | |reflexivity].
  - intros k. split_and!; reflexivity.
  - repeat (apply Forall_cons_2; [unfold RECV_BUF_MAX; cbn [length]; lia|]). apply Forall_nil_2.
Defined.

(** ** The three-way handshake *)

(** The bytes [send_tcp_raw] hands to IPv4 for a segment, from the local address. *)
Definition on_wire (lip : list Z) (g : Seg) : list Z :=
  build_segment (sg_src g) (sg_dst g) (sg_seq g) (sg_ack g) (sg_flags g) (sg_window g) (sg_payload g) lip (sg_ip g).

Definition ip_ok (ip : list Z) : Prop := bytes_ok ip ∧ length ip = 4%nat.

(** A segment without payload arrives as it was sent. *)
Lemma receive_control up lip g s :
  ip_ok lip → ip_ok (sg_ip g) → uN 16 (sg_src g) → uN 16 (sg_dst g) → uN 32 (sg_seq g) → uN 32 (sg_ack g) →
  uN 8 (sg_flags g) → uN 16 (sg_window g) → sg_payload g = [] →
  ∃ ck, handle_tcp up lip (on_wire lip g) s
    = handle_segment up lip (mkHeader (sg_src g) (sg_dst g) (sg_seq g) (sg_ack g) 5 (sg_flags g) (sg_window g) ck 0) [] s.
Proof.
  intros [Hl1 Hl2] [Hi1 Hi2] ? ? ? ? ? ? Hp.
  destruct (parse_built (sg_src g) (sg_dst g) (sg_seq g) (sg_ack g) (sg_flags g) (sg_window g) (sg_payload g) lip (sg_ip g))
    as (ck & _ & E); [split; try done; rewrite Hp; [constructor|simpl; lia]|done..|].
  exists ck. unfold handle_tcp, on_wire. by rewrite E, Hp.
Qed.

Section Handshake.
Context (ipA ipB : list Z) (pA pB : Z) (upA upB upA' upB' : Z) (sA sB : t) (q : list Z).
Hypothesis HipA : ip_ok ipA.
Hypothesis HipB : ip_ok ipB.
Hypothesis HpA : uN 16 pA.
Hypothesis HpB : uN 16 pB.
(** Neither side has a connection between these ends, ids are fresh, and B
    listens with room in its queue. *)
Hypothesis HA : ∀ id c, TCP_CONNECTIONS sA !! id = Some c → addr c ≠ (ipB, pB, pA).
Hypothesis HB : ∀ id c, TCP_CONNECTIONS sB !! id = Some c → addr c ≠ (ipA, pA, pB).
Hypothesis HL : TCP_LISTENERS sB !! pB = Some q.
Hypothesis Hq : (length q < 16)%nat.

Let idA := NEXT_SOCKET_ID sA.
Let idB := NEXT_SOCKET_ID sB.
Let isnA := (generate_isn upA sA).1.
Let isnB := (generate_isn upB sB).1.
Let syn := mkSeg pA pB isnA 0 SYN WINDOW_SIZE [] ipB.
Let synack := mkSeg pB pA isnB (wrap 32 (isnA + 1)) (Z.lor SYN ACK) WINDOW_SIZE [] ipA.
Let ack := mkSeg pA pB (wrap 32 (isnA + 1)) (wrap 32 (isnB + 1)) ACK WINDOW_SIZE [] ipB.

Lemma isn_range up s : uN 32 (generate_isn up s).1.
Proof. apply wrap32. Qed.

Let sA1 := (connect upA ipB pB pA sA).2.
Let sB1 := (handle_tcp upB ipA (on_wire ipA syn) sB).2.
Let sA2 := (handle_tcp upA' ipB (on_wire ipB synack) sA1).2.
Let sB2 := (handle_tcp upB' ipA (on_wire ipA ack) sB1).2.

Lemma hs_connect : connect upA ipB pB pA sA = (idA, [syn], sA1).
Proof. reflexivity. Qed.

(** The new entry is the only one with its address. *)
Lemma sole_new s s' id c : (∀ i c', TCP_CONNECTIONS s !! i = Some c' → addr c' ≠ addr c) →
  TCP_CONNECTIONS s' = <[id := c]> (TCP_CONNECTIONS s) → sole s' id (addr c).
Proof.
  intros Hno E. split.
  - exists c. by rewrite E, lookup_insert_eq.
  - intros i c'. rewrite E. intros [[<- _]|[_ Hl]]%lookup_insert_Some Ha; [done|]. by destruct (Hno i c' Hl).
Qed.

Lemma hs_syn : ∃ cB, handle_tcp upB ipA (on_wire ipA syn) sB = ([synack], sB1)
  ∧ TCP_CONNECTIONS sB1 = <[idB := cB]> (TCP_CONNECTIONS sB) ∧ addr cB = (ipA, pA, pB) ∧ state cB = SynReceived
  ∧ rcv_nxt cB = wrap 32 (isnA + 1) ∧ snd_nxt cB = wrap 32 (isnB + 1)
  ∧ TCP_LISTENERS sB1 = <[pB := q ++ [idB]]> (TCP_LISTENERS sB).
Proof.
  unfold sB1. destruct (receive_control upB ipA syn sB) as [ck ->];
    try done; try (split; simpl; lia); try apply isn_range; [].
  unfold handle_segment. rewrite find_conn_none by (intros id c; apply HB). simpl. rewrite HL.
  apply Nat.ltb_lt in Hq as ->. eexists. split_and!; reflexivity.
Qed.

Lemma hs_synack : ∃ cA, handle_tcp upA' ipB (on_wire ipB synack) sA1 = ([ack], sA2)
  ∧ TCP_CONNECTIONS sA2 !! idA = Some cA ∧ state cA = Established
  ∧ rcv_nxt cA = wrap 32 (isnB + 1) ∧ snd_nxt cA = wrap 32 (isnA + 1) ∧ snd_una cA = snd_nxt cA.
Proof.
  unfold sA2. destruct (receive_control upA' ipB synack sA1) as [ck ->];
    try done; try (split; simpl; lia); try apply isn_range; try apply wrap32; [].
  set (c0 := set_rtx [] (TICK_COUNTER sA) 0 (set_state SynSent (set_snd isnA (wrap 32 (isnA + 1)) (new_tcb pA ipB pB)))).
  assert (Hs : sole sA1 idA (addr c0)) by (by apply (sole_new sA)).
  unfold handle_segment. rewrite (find_conn_sole sA1 idA) by exact Hs.
  replace (TCP_CONNECTIONS sA1 !! idA) with (Some c0) by (symmetry; apply lookup_insert_eq).
  simpl. eexists. split_and!; [reflexivity|apply lookup_insert_eq|reflexivity..].
Qed.

Lemma hs_ack : ∃ cB, handle_tcp upB' ipA (on_wire ipA ack) sB1 = ([], sB2)
  ∧ TCP_CONNECTIONS sB2 !! idB = Some cB ∧ state cB = Established
  ∧ rcv_nxt cB = wrap 32 (isnA + 1) ∧ snd_nxt cB = wrap 32 (isnB + 1) ∧ snd_una cB = snd_nxt cB
  ∧ TCP_LISTENERS sB2 !! pB = Some (q ++ [idB]).
Proof.
  destruct hs_syn as (cB & _ & Ec & Ea & Es & Er & En & El).
  unfold sB2. destruct (receive_control upB' ipA ack sB1) as [ck ->];
    try done; try (split; simpl; lia); try apply isn_range; try apply wrap32; [].
  unfold handle_segment.
  rewrite (find_conn_sole sB1 idB) by (unfold hdr_addr; simpl; rewrite <- Ea; eapply (sole_new sB); [by rewrite Ea|done]).
  rewrite Ec, lookup_insert_eq. unfold process_segment. simpl. rewrite Es. simpl.
  eexists. split_and!; [reflexivity|apply lookup_insert_eq|reflexivity|done..|done|]. simpl. by rewrite El, lookup_insert_eq.
Qed.
End Handshake.

(** C10: the three-way handshake between two stacks, over the bytes they put on
    the wire: A's [connect] sends one SYN, B answers one SYN+ACK, A one ACK, B
    nothing; after that both connections are established, each side's next send
    number is the other's next expected one, everything sent is acknowledged, and
    B's connection waits at the end of the port's accept queue.  The other
    connections of both stacks are arbitrary. *)
Theorem tcp_handshake ipA ipB pA pB upA upB upA' upB' sA sB q :
  ip_ok ipA → ip_ok ipB → uN 16 pA → uN 16 pB →
  (∀ id c, TCP_CONNECTIONS sA !! id = Some c → addr c ≠ (ipB, pB, pA)) →
  (∀ id c, TCP_CONNECTIONS sB !! id = Some c → addr c ≠ (ipA, pA, pB)) →
  TCP_LISTENERS sB !! pB = Some q → (length q < 16)%nat →
  ∃ syn synack ack sA1 sB1 sA2 sB2 cA cB,
    connect upA ipB pB pA sA = (NEXT_SOCKET_ID sA, [syn], sA1)
    ∧ handle_tcp upB ipA (on_wire ipA syn) sB = ([synack], sB1)
    ∧ handle_tcp upA' ipB (on_wire ipB synack) sA1 = ([ack], sA2)
    ∧ handle_tcp upB' ipA (on_wire ipA ack) sB1 = ([], sB2)
    ∧ TCP_CONNECTIONS sA2 !! NEXT_SOCKET_ID sA = Some cA ∧ TCP_CONNECTIONS sB2 !! NEXT_SOCKET_ID sB = Some cB
    ∧ state cA = Established ∧ state cB = Established
    ∧ snd_nxt cA = rcv_nxt cB ∧ snd_nxt cB = rcv_nxt cA ∧ snd_una cA = snd_nxt cA ∧ snd_una cB = snd_nxt cB
    ∧ TCP_LISTENERS sB2 !! pB = Some (q ++ [NEXT_SOCKET_ID sB]).
Proof.
  intros HipA HipB HpA HpB HA HB HL Hq.
  destruct (hs_syn ipA ipB pA pB upA upB sA sB q) as (c0 & E2 & _); [done..|].
  destruct (hs_synack ipA ipB pA pB upA upB upA' sA sB) as (cA & E3 & A1 & A2 & A3 & A4 & A5); [done..|].
  destruct (hs_ack ipA ipB pA pB upA upB upB' sA sB q) as (cB & E4 & B1 & B2 & B3 & B4 & B5 & B6); [done..|].
  do 7 eexists. exists cA, cB. split; [reflexivity|]. split; [exact E2|]. split; [exact E3|]. split; [exact E4|].
  split_and!; congruence.
Qed.

Lemma tcp_handshake_witness :
  ∃ syn synack ack sA1 sB1 sA2 sB2 cA cB,
    let sB := (listen 80 boot).2 in
    connect 3 [10; 0; 2; 9] 80 50000 boot = (1, [syn], sA1)
    ∧ handle_tcp 5 [10; 0; 2; 15] (on_wire [10; 0; 2; 15] syn) sB = ([synack], sB1)
    ∧ handle_tcp 3 [10; 0; 2; 9] (on_wire [10; 0; 2; 9] synack) sA1 = ([ack], sA2)
    ∧ handle_tcp 5 [10; 0; 2; 15] (on_wire [10; 0; 2; 15] ack) sB1 = ([], sB2)
    ∧ TCP_CONNECTIONS sA2 !! 1 = Some cA ∧ TCP_CONNECTIONS sB2 !! 1 = Some cB
    ∧ state cA = Established ∧ state cB = Established
    ∧ snd_nxt cA = rcv_nxt cB ∧ snd_nxt cB = rcv_nxt cA ∧ snd_una cA = snd_nxt cA ∧ snd_una cB = snd_nxt cB
    ∧ TCP_LISTENERS sB2 !! 80 = Some [1].
Proof.
  apply (tcp_handshake [10; 0; 2; 15] [10; 0; 2; 9] 50000 80 3 5 3 5 boot (listen 80 boot).2 []);
    [split; [repeat constructor; lia|reflexivity]..|split; lia|split; lia| | |reflexivity|simpl; lia];
    intros id c H; vm_compute in H; discriminate H.
Defined.

(** Findings.  A FIN ahead of lost data ends the stream: with 500 expected, a FIN
    at 503 moves [rcv_nxt] past the three missing bytes, and their retransmission
    is refused. *)
Lemma fin_skips_lost_data :
  let '(c1, _) := process_segment 0 (demo_conn 4) (mkHeader 80 50000 503 0 5 (Z.lor FIN ACK) 8192 0 0) [] in
  let '(c2, _) := process_segment 0 c1 (mkHeader 80 50000 500 0 5 ACK 8192 0 0) [1; 2; 3] in
  state c1 = CloseWait ∧ rcv_nxt c1 = 504 ∧ recv_buf c2 = [].
Proof. vm_compute. done. Qed.

(** A reset is taken whatever its sequence number. *)
Lemma rst_without_sequence now c h data : has_flag (flags h) RST = true → state (process_segment now c h data).1 = Closed.
Proof. intros H. unfold process_segment. by rewrite H. Qed.

(** In SYN_RECEIVED any ACK opens the connection: the number it acknowledges is
    not compared with the SYN that was sent. *)
Lemma syn_received_any_ack now c h :
  state c = SynReceived → has_flag (flags h) RST = false → has_flag (flags h) ACK = true →
  state (process_segment now c h []).1 = Established ∧ snd_una (process_segment now c h []).1 = ack_num h.
Proof. intros Hs Hr Ha. unfold process_segment. by rewrite Hr, Ha, Hs. Qed.

(** Data that arrives in FIN_WAIT_1 is dropped, and the peer's FIN carried with it
    is counted as if the data had not been there. *)
Lemma fin_wait1_drops_data :
  let '(c1, _) := process_segment 0 (set_state FinWait1 (demo_conn 4)) (mkHeader 80 50000 500 0 5 (Z.lor FIN ACK) 8192 0 0) [1; 2; 3] in
  state c1 = TimeWait ∧ recv_buf c1 = [] ∧ rcv_nxt c1 = 501.
Proof. vm_compute. done. Qed.

(** The comment says data is accepted before the FIN; the FIN's update of
    [rcv_nxt] comes first, so data that carries a FIN in FIN_WAIT_2 is refused. *)
Lemma fin_wait2_drops_data :
  let '(c1, _) := process_segment 0 (set_state FinWait2 (demo_conn 4)) (mkHeader 80 50000 500 0 5 (Z.lor FIN ACK) 8192 0 0) [1; 2; 3] in
  state c1 = TimeWait ∧ recv_buf c1 = [] ∧ rcv_nxt c1 = 501.
Proof. vm_compute. done. Qed.

(** The checksum field is read and never compared: a segment with a damaged
    payload byte is accepted as data. *)
Lemma checksum_not_verified :
  let good := build_segment 80 50000 500 4294967290 ACK 8192 [1; 2; 3] [10; 0; 2; 9] [10; 0; 2; 15] in
  let bad := <[20%nat := 77]> good in
  tcp_checksum [10; 0; 2; 9] [10; 0; 2; 15] bad ≠ 0
  ∧ (recv_buf <$> TCP_CONNECTIONS (handle_tcp 0 [10; 0; 2; 9] bad (demo_stack 4)).2 !! 7) = Some [77; 2; 3].
Proof. split; [vm_compute; discriminate|vm_compute; reflexivity]. Qed.
