(* ===== verification/Ip.v ===== *)
(** Frames and packets below the transport protocols: Ethernet, IPv4, IPv6
    and ICMP echo ([kernel/src/net/ethernet.rs], [ipv4.rs], [ipv6.rs],
    [icmp.rs]).

    A byte string is a list of byte values.  [ipv4_parse] slices the packet
    with a length taken from the packet, so its result is an [outcome]: the
    slice is out of order, and the kernel panics, for the packets
    [ipv4_parse_panics] describes. *)

From S2P Require Import Prelude Bits Words TcpWire.

(** ** Ethernet *)

Definition ETHERTYPE_ARP : Z := 0x0806.
Definition ETHERTYPE_IPV4 : Z := 0x0800.
Definition ETHERTYPE_IPV6 : Z := 0x86DD.
Definition ETH_HEADER_LEN : nat := 14.

Record EthernetHeader := mkEth {
  dst_mac : list Z;
  src_mac : list Z;
  ethertype : list Z;
}.

Definition eth_parse (frame : list Z) : option (EthernetHeader * list Z) :=
  if (length frame <? ETH_HEADER_LEN)%nat then None
  else Some (mkEth (take 6 frame) (take 6 (drop 6 frame)) [nth 12 frame 0; nth 13 frame 0],
             drop ETH_HEADER_LEN frame).

(** [while frame.len() < 60 { frame.push(0) }] *)
Definition pad60 (frame : list Z) : list Z := frame ++ replicate (60 - length frame) 0.

Definition eth_build (dst src : list Z) (ethertype : Z) (payload : list Z) : list Z :=
  pad60 (dst ++ src ++ to_be_bytes 2 ethertype ++ payload).

(** ** IPv4 *)

Definition PROTO_UDP : Z := 17.
Definition IPV4_HEADER_LEN : nat := 20.

Record Ipv4Header := mkIpv4 {
  version_ihl : Z;
  dscp_ecn : Z;
  total_length : Z;
  identification : Z;
  flags_fragment : Z;
  ttl : Z;
  protocol : Z;
  ip_checksum : Z;
  src_ip : list Z;
  dst_ip : list Z;
}.

Definition ipv4_parse (data : list Z) : outcome (option (Ipv4Header * list Z)) :=
  if (length data <? IPV4_HEADER_LEN)%nat then Returned None
  else if negb (Z.shiftr (nth 0 data 0) 4 =? 4) then Returned None
  else
    let ihl := Z.to_nat (Z.land (nth 0 data 0) 0x0F * 4) in
    if (ihl <? IPV4_HEADER_LEN)%nat || (length data <? ihl)%nat then Returned None
    else
      let total := be_at data 2 2 in
      let actual_len := min (Z.to_nat total) (length data) in
      let header := mkIpv4 (nth 0 data 0) (nth 1 data 0) total (be_at data 4 2) (be_at data 6 2)
                      (nth 8 data 0) (nth 9 data 0) (be_at data 10 2) (take 4 (drop 12 data)) (take 4 (drop 16 data)) in
      if (actual_len <? ihl)%nat then Panicked
      else Returned (Some (header, take (actual_len - ihl) (drop ihl data))).

(** [sum] is a u32, and [!sum as u16] the low half of its complement. *)
Definition compute_checksum (header : list Z) : Z :=
  wrap 16 (wnot 32 (fold_carries 4 (wrap 32 (sum_words header)))).

(** The header with the bytes [ck] in the checksum field. *)
Definition ipv4_header_with (ck : list Z) (id : Z) (src dst : list Z) (proto : Z) (total : Z) : list Z :=
  [0x45; 0x00] ++ to_be_bytes 2 total ++ to_be_bytes 2 id ++ to_be_bytes 2 0x4000 ++ [64; proto] ++ ck ++ src ++ dst.

(** [id] is the value of [ID_COUNTER] taken by this call. *)
Definition ipv4_build (id : Z) (src dst : list Z) (proto : Z) (payload : list Z) : list Z :=
  let total := wrap 16 (Z.of_nat (IPV4_HEADER_LEN + length payload)) in
  let packet := ipv4_header_with [0; 0] id src dst proto total in
  let cksum := compute_checksum (take IPV4_HEADER_LEN packet) in
  <[11%nat := Z.land cksum 0xFF]> (<[10%nat := Z.shiftr cksum 8]> packet) ++ payload.

(** ** IPv6 *)

Definition NEXT_HEADER_TCP : Z := 6.
Definition NEXT_HEADER_UDP : Z := 17.
Definition NEXT_HEADER_ICMPV6 : Z := 58.

Record Ipv6Header := mkIpv6 {
  version_tc_fl : Z;
  payload_length : Z;
  next_header : Z;
  hop_limit : Z;
  src_addr : list Z;
  dst_addr : list Z;
}.

Definition generate_link_local (mac : list Z) : list Z :=
  [0xfe; 0x80; 0; 0; 0; 0; 0; 0; Z.lxor (nth 0 mac 0) 0x02; nth 1 mac 0; nth 2 mac 0; 0xFF;
   0xFE; nth 3 mac 0; nth 4 mac 0; nth 5 mac 0].

Definition ipv6_parse (data : list Z) : option (Ipv6Header * list Z) :=
  if (length data <? 40)%nat then None
  else if negb (Z.land (Z.shiftr (nth 0 data 0) 4) 0xF =? 6) then None
  else
    let plen := be_at data 4 2 in
    let header := mkIpv6 (be_at data 0 4) plen (nth 6 data 0) (nth 7 data 0)
                    (take 16 (drop 8 data)) (take 16 (drop 24 data)) in
    let payload_end := (40 + Z.to_nat plen)%nat in
    Some (header, if (payload_end <=? length data)%nat then take (payload_end - 40) (drop 40 data) else drop 40 data).

Definition ipv6_build (src dst : list Z) (next hop : Z) (payload : list Z) : list Z :=
  to_be_bytes 4 0x60000000 ++ to_be_bytes 2 (wrap 16 (Z.of_nat (length payload))) ++ [next; hop] ++ src ++ dst ++ payload.

Definition build_neighbor_solicitation (target : list Z) : list Z := [135; 0; 0; 0] ++ replicate 4 0 ++ target.

(** ** ICMP echo *)

Definition ICMP_ECHO_REQUEST : Z := 8.
Definition ECHO_DATA_SIZE : nat := 56.

(** [while sum >> 16 != 0 { sum = (sum & 0xFFFF) + (sum >> 16) }] *)
Fixpoint fold_shift (fuel : nat) (sum : Z) : Z :=
  match fuel with
  | O => sum
  | S fuel' => if negb (Z.shiftr sum 16 =? 0) then fold_shift fuel' (Z.land sum 0xFFFF + Z.shiftr sum 16) else sum
  end.
Definition icmp_checksum (data : list Z) : Z := wnot 16 (wrap 16 (fold_shift 4 (wrap 32 (sum_words data)))).

Definition echo_with (ck : list Z) (seq : Z) : list Z :=
  let seq16 := wrap 16 seq in
  [ICMP_ECHO_REQUEST; 0] ++ ck ++ [0x13; 0x37; wrap 8 (Z.shiftr seq16 8); wrap 8 seq16]
    ++ map (λ i, wrap 8 (Z.of_nat i)) (List.seq 0 ECHO_DATA_SIZE).
Definition build_echo_request (seq : Z) : list Z :=
  let pkt := echo_with [0; 0] seq in
  let cksum := icmp_checksum pkt in
  <[3%nat := wrap 8 cksum]> (<[2%nat := wrap 8 (Z.shiftr cksum 8)]> pkt).

(** ** Lemmas on frames and headers *)

Lemma eth_parse_build d s ty payload :
  length d = 6%nat → length s = 6%nat →
  eth_parse (eth_build d s ty payload)
  = Some (mkEth d s (to_be_bytes 2 ty), payload ++ replicate (60 - (14 + length payload)) 0).
Proof.
  intros Ld Ls. unfold eth_parse, eth_build, pad60, ETH_HEADER_LEN.
  assert (Lt : length (to_be_bytes 2 ty) = 2%nat) by apply length_to_be_bytes.
  destruct (to_be_bytes 2 ty) as [|t0 [|t1 [|]]]; try done.
  destruct d as [|d0 [|d1 [|d2 [|d3 [|d4 [|d5 [|]]]]]]]; try done.
  destruct s as [|s0 [|s1 [|s2 [|s3 [|s4 [|s5 [|]]]]]]]; try done.
Qed.

Lemma length_eth_build d s ty payload :
  length d = 6%nat → length s = 6%nat → length (eth_build d s ty payload) = max 60 (14 + length payload).
Proof.
  intros Ld Ls. unfold eth_build, pad60. rewrite !length_app, length_replicate, length_to_be_bytes, Ld, Ls. lia.
Qed.

(** The sum of a header whose checksum field, at an even offset, is filled
    in: the field is added to the sum of the header with a zero field. *)
Lemma sum_fill n pre a b post : length pre = (2 * n)%nat →
  sum_words (pre ++ [a; b] ++ post) = sum_words (pre ++ [0; 0] ++ post) + Z.lor (Z.shiftl a 8) b.
Proof.
  intros Hp. rewrite !(sum_words_app n pre _ Hp). cbn [app sum_words]. change (Z.lor (Z.shiftl 0 8) 0) with 0. lia.
Qed.

Lemma compute_checksum_value bs : bytes_ok bs → (length bs ≤ Z.to_nat 65535)%nat → 0 < sum_words bs →
  compute_checksum bs = 65535 - fold_carries 4 (sum_words bs).
Proof.
  intros Hb Hl Hs. destruct (sum_words_range bs Hb) as [_ Hr]. unfold compute_checksum, wnot.
  rewrite (wrap_id 32) by (split; lia). destruct (fold_carries_spec (sum_words bs) ltac:(lia)) as [Hf _].
  rewrite lxor_ones by (first [lia|split; lia]). unfold wrap. change (Z.ones 32) with (65535 + 65535 * 65536).
  replace (65535 + 65535 * 65536 - fold_carries 4 (sum_words bs))
    with (65535 - fold_carries 4 (sum_words bs) + 65535 * 2 ^ 16) by lia.
  rewrite Z.mod_add, Z.mod_small by lia. done.
Qed.

Lemma compute_checksum_range bs : uN 16 (compute_checksum bs).
Proof. apply wrap_range. lia. Qed.

(** Filling the computed value in makes the sum come out as zero. *)
Lemma checksum_fill n pre post :
  bytes_ok pre → bytes_ok post → length pre = (2 * n)%nat → (length pre + 2 + length post ≤ Z.to_nat 65535)%nat →
  0 < sum_words (pre ++ [0; 0] ++ post) →
  let c := compute_checksum (pre ++ [0; 0] ++ post) in
  compute_checksum (pre ++ [Z.shiftr c 8; Z.land c 0xFF] ++ post) = 0.
Proof.
  intros Hpre Hpost Hn Hl Hs c. set (z := pre ++ [0; 0] ++ post) in *.
  assert (Hz : bytes_ok z) by (unfold z; repeat (apply Forall_app; split); try done; repeat constructor; lia).
  assert (Lz : ∀ a b : Z, (length (pre ++ [a; b] ++ post) ≤ Z.to_nat 65535)%nat) by (intros; rewrite !length_app; simpl; lia).
  destruct (sum_words_range z Hz) as [_ Hr]. assert (length z ≤ Z.to_nat 65535)%nat by (unfold z; apply Lz).
  destruct (fold_carries_spec (sum_words z) ltac:(lia)) as [F1 F2].
  assert (Hc : c = 65535 - fold_carries 4 (sum_words z)) by (by apply compute_checksum_value).
  assert (Hcr : 0 ≤ c < 65536) by lia.
  assert (Hsum : sum_words (pre ++ [Z.shiftr c 8; Z.land c 0xFF] ++ post) = sum_words z + c)
    by (rewrite (sum_fill n) by done; by rewrite split16).
  rewrite compute_checksum_value; [|..|apply Lz|rewrite Hsum; lia].
  2: { repeat (apply Forall_app; split); try done. repeat constructor; first [apply (shiftr8_byte c Hcr)|apply land255_byte; lia]. }
  rewrite Hsum. destruct (fold_carries_spec (sum_words z + c) ltac:(lia)) as [G1 G2].
  assert (Hm : (sum_words z + c) `mod` 65535 = 0).
  { rewrite Hc. replace (sum_words z + (65535 - fold_carries 4 (sum_words z)))
      with (sum_words z - fold_carries 4 (sum_words z) + 1 * 65535) by lia.
    rewrite Z.mod_add, Zminus_mod, F2, Z.sub_diag by lia. done. }
  rewrite Hm in G2. apply Z.mod_divide in G2 as [q Hq]; lia.
Qed.

(** *** IPv4 *)

(** What every address and port of a call satisfies. *)
Definition ip_ok (ip : list Z) : Prop := length ip = 4%nat ∧ bytes_ok ip.
Definition mac_ok (mac : list Z) : Prop := length mac = 6%nat ∧ bytes_ok mac.

Lemma length_ipv4_header ck id src dst proto total :
  length ck = 2%nat → length src = 4%nat → length dst = 4%nat →
  length (ipv4_header_with ck id src dst proto total) = 20%nat.
Proof. intros. unfold ipv4_header_with. rewrite !length_app, !length_to_be_bytes. simpl. lia. Qed.

Lemma ipv4_header_split ck id src dst proto total :
  ipv4_header_with ck id src dst proto total
  = ([0x45; 0x00] ++ to_be_bytes 2 total ++ to_be_bytes 2 id ++ to_be_bytes 2 0x4000 ++ [64; proto]) ++ ck ++ src ++ dst.
Proof. unfold ipv4_header_with. by rewrite <- !app_assoc. Qed.

Lemma ipv4_build_eq id src dst proto payload :
  length src = 4%nat → length dst = 4%nat →
  let total := wrap 16 (Z.of_nat (20 + length payload)) in
  let c := compute_checksum (ipv4_header_with [0; 0] id src dst proto total) in
  ipv4_build id src dst proto payload = ipv4_header_with [Z.shiftr c 8; Z.land c 0xFF] id src dst proto total ++ payload.
Proof.
  intros Ls Ld total c. unfold ipv4_build. change (wrap 16 (Z.of_nat (IPV4_HEADER_LEN + length payload))) with total. cbv zeta.
  rewrite (take_ge (ipv4_header_with [0; 0] id src dst proto total) IPV4_HEADER_LEN)
    by (by rewrite length_ipv4_header).
  fold c. by f_equal.
Qed.

Lemma length_ipv4_build id src dst proto payload :
  length src = 4%nat → length dst = 4%nat → length (ipv4_build id src dst proto payload) = (20 + length payload)%nat.
Proof. intros. rewrite ipv4_build_eq by done. by rewrite length_app, length_ipv4_header. Qed.

Lemma ipv4_header_bytes ck id src dst proto total :
  bytes_ok ck → ip_ok src → ip_ok dst → is_byte proto → bytes_ok (ipv4_header_with ck id src dst proto total).
Proof.
  intros Hk [_ Hs] [_ Hd] Hp. unfold ipv4_header_with.
  repeat (apply Forall_app; split); try apply to_be_bytes_ok; try done; repeat constructor; try lia; apply Hp.
Qed.

Lemma ipv4_parse_header ck id src dst proto total payload :
  length ck = 2%nat → length src = 4%nat → length dst = 4%nat → uN 16 total → uN 16 id →
  (Z.to_nat total = 20 + length payload)%nat → ∀ pad,
  ipv4_parse (ipv4_header_with ck id src dst proto total ++ payload ++ pad)
  = Returned (Some (mkIpv4 0x45 0 total id 0x4000 64 proto (from_be_bytes ck) src dst, payload)).
Proof.
  intros Lk Ls Ld Ht Hi Hl pad. unfold ipv4_parse, ipv4_header_with, IPV4_HEADER_LEN.
  assert (HT : from_be_bytes (to_be_bytes 2 total) = total) by (by apply from_to_be_bytes).
  assert (HI : from_be_bytes (to_be_bytes 2 id) = id) by (by apply from_to_be_bytes).
  assert (LT : length (to_be_bytes 2 total) = 2%nat) by apply length_to_be_bytes.
  assert (LI : length (to_be_bytes 2 id) = 2%nat) by apply length_to_be_bytes.
  change (to_be_bytes 2 0x4000) with [0x40; 0].
  set (T := to_be_bytes 2 total) in *. set (I := to_be_bytes 2 id) in *. clearbody T I.
  destruct T as [|t0 [|t1 [|]]]; try done. destruct I as [|i0 [|i1 [|]]]; try done.
  destruct ck as [|k0 [|k1 [|]]]; try done.
  destruct src as [|s0 [|s1 [|s2 [|s3 [|]]]]]; try done. destruct dst as [|d0 [|d1 [|d2 [|d3 [|]]]]]; try done.
  unfold be_at. cbn [app length take drop nth]. rewrite !take_0, HT, HI.
  change (Z.to_nat (Z.land 69 15 * 4)) with 20%nat.
  change (negb (Z.shiftr 69 4 =? 4)) with false. change (from_be_bytes [64; 0]) with 0x4000.
  assert (Hge : ∀ n : nat, (S (S (S (S (S (S (S (S (S (S (S (S (S (S (S (S (S (S (S (S n))))))))))))))))))) <? 20)%nat = false)
    by (intros; apply Nat.ltb_ge; lia).
  rewrite !Hge. cbn [orb]. rewrite length_app.
  replace (min (Z.to_nat total) _) with (20 + length payload)%nat by lia.
  change (20 <? 20)%nat with false. cbn [orb]. rewrite (proj2 (Nat.ltb_ge (20 + length payload) 20)) by lia.
  replace (20 + length payload - 20)%nat with (length payload) by lia.
  match goal with |- context [drop 20 ?l] => change (drop 20 l) with (payload ++ pad) end. by rewrite take_app_length.
Qed.

Lemma ipv4_parse_build id src dst proto payload pad :
  ip_ok src → ip_ok dst → uN 16 id → (length payload ≤ Z.to_nat 65515)%nat →
  ∃ ck, ipv4_parse (ipv4_build id src dst proto payload ++ pad)
  = Returned (Some (mkIpv4 0x45 0 (Z.of_nat (20 + length payload)) id 0x4000 64 proto ck src dst, payload)).
Proof.
  intros [Ls _] [Ld _] Hi Hl. rewrite ipv4_build_eq by done. cbv zeta. rewrite <- app_assoc. eexists.
  rewrite wrap_id by (split; lia). apply ipv4_parse_header; try done; [split; lia|lia].
Qed.

(** The packets the parser panics on: a valid version and header length, but
    a total length shorter than the header.  The packet may be of any size. *)
Definition ipv4_bad_length (data : list Z) : Prop :=
  let ihl := Z.to_nat (Z.land (nth 0 data 0) 0x0F * 4) in
  (20 ≤ length data)%nat ∧ Z.shiftr (nth 0 data 0) 4 = 4
  ∧ (20 ≤ ihl ≤ length data)%nat ∧ (Z.to_nat (be_at data 2 2) < ihl)%nat.

Lemma ipv4_parse_panics data : ipv4_parse data = Panicked ↔ ipv4_bad_length data.
Proof.
  unfold ipv4_parse, ipv4_bad_length, IPV4_HEADER_LEN. cbv zeta.
  set (ihl := Z.to_nat (Z.land (nth 0 data 0) 15 * 4)). set (total := Z.to_nat (be_at data 2 2)).
  destruct (Nat.ltb_spec (length data) 20); [split; [done|lia]|].
  destruct (Z.eqb_spec (Z.shiftr (nth 0 data 0) 4) 4); simpl; [|split; [done|tauto]].
  destruct (Nat.ltb_spec ihl 20); simpl; [split; [done|lia]|].
  destruct (Nat.ltb_spec (length data) ihl); simpl; [split; [done|lia]|].
  destruct (Nat.ltb_spec (min total (length data)) ihl); (split; [|]); (done || lia || (intros; split_and!; (done || lia))).
Qed.

Lemma ipv4_parse_payload data h p : ipv4_parse data = Returned (Some (h, p)) → bytes_ok data →
  bytes_ok p ∧ (length p + 20 ≤ length data)%nat ∧ bytes_ok (src_ip h) ∧ length (src_ip h) = 4%nat.
Proof.
  unfold ipv4_parse, IPV4_HEADER_LEN. cbv zeta. intros H Hb. repeat case_match; simplify_eq/=.
  match goal with H : _ || _ = false |- _ => apply orb_false_iff in H as [?%Nat.ltb_ge ?] end.
  repeat match goal with H : (_ <? _)%nat = false |- _ => apply Nat.ltb_ge in H end.
  rewrite length_take, length_drop, !length_take, length_drop.
  split_and!; [by apply Forall_take, Forall_drop|lia|by apply Forall_take, Forall_drop|lia].
Qed.

(** Every packet the stack builds carries a header that verifies, whatever
    the addresses, the protocol and the payload. *)
Lemma ipv4_build_checksum id src dst proto payload :
  ip_ok src → ip_ok dst → is_byte proto → compute_checksum (take 20 (ipv4_build id src dst proto payload)) = 0.
Proof.
  intros [Ls Hs] [Ld Hd] Hp. rewrite ipv4_build_eq by done. cbv zeta. set (total := wrap 16 _).
  rewrite take_app_le by (rewrite length_ipv4_header; done). rewrite take_ge by (rewrite length_ipv4_header; done).
  rewrite !ipv4_header_split. set (pre := [0x45; 0x00] ++ _).
  assert (Hpl : length pre = 10%nat) by (unfold pre; rewrite !length_app, !length_to_be_bytes; done).
  assert (Hpre : bytes_ok pre).
  { unfold pre. repeat (apply Forall_app; split); try apply to_be_bytes_ok; repeat constructor; try lia; apply Hp. }
  apply (checksum_fill 5); try done.
  - by apply Forall_app.
  - rewrite length_app. lia.
  - assert (H0 : sum_words (pre ++ [0; 0] ++ src ++ dst)
      = 0x4500 + (sum_words (drop 2 pre) + sum_words ([0; 0] ++ src ++ dst))).
    { rewrite (sum_words_app 5 pre) by done. rewrite <- Z.add_assoc || idtac.
      change (sum_words pre) with (Z.lor (Z.shiftl 0x45 8) 0 + sum_words (drop 2 pre)).
      change (Z.lor (Z.shiftl 69 8) 0) with 0x4500. lia. }
    rewrite H0. assert (bytes_ok (drop 2 pre)) as [? _]%sum_words_range by (by apply Forall_drop).
    assert (bytes_ok ([0; 0] ++ src ++ dst)) as [? _]%sum_words_range
      by (repeat (apply Forall_app; split); try done; repeat constructor; lia). lia.
Qed.

(** *** IPv6 *)

Lemma ipv6_parse_build src dst next hop payload pad :
  length src = 16%nat → length dst = 16%nat → (length payload ≤ Z.to_nat 65535)%nat →
  ipv6_parse (ipv6_build src dst next hop payload ++ pad)
  = Some (mkIpv6 0x60000000 (Z.of_nat (length payload)) next hop src dst, payload).
Proof.
  intros Ls Ld Hl. unfold ipv6_parse, ipv6_build. rewrite wrap_id by (split; lia).
  set (n := Z.of_nat (length payload)).
  assert (HN : from_be_bytes (to_be_bytes 2 n) = n) by (apply from_to_be_bytes; split; lia).
  assert (LN : length (to_be_bytes 2 n) = 2%nat) by apply length_to_be_bytes.
  set (N := to_be_bytes 2 n) in *. clearbody N. destruct N as [|n0 [|n1 [|]]]; try done.
  change (to_be_bytes 4 0x60000000) with [0x60; 0; 0; 0]. unfold be_at.
  assert (Hlen : length ((([96; 0; 0; 0] ++ [n0; n1] ++ [next; hop] ++ src ++ dst ++ payload) ++ pad))
    = (40 + (length payload + length pad))%nat) by (rewrite !length_app, Ls, Ld; simpl; lia).
  rewrite Hlen, (proj2 (Nat.ltb_ge _ _)) by lia. cbn [app nth take drop]. rewrite ?drop_0, HN.
  change (negb (Z.land (Z.shiftr 96 4) 15 =? 6)) with false. change (from_be_bytes [96; 0; 0; 0]) with 0x60000000.
  rewrite (proj2 (Nat.leb_le _ _)) by lia. do 2 f_equal.
  - f_equal; [by rewrite <- !app_assoc, take_app_le, take_ge by lia|].
    rewrite <- !app_assoc, drop_app_ge, Ls by lia. cbn [Nat.sub]. by rewrite drop_0, take_app_le, take_ge by lia.
  - replace (40 + Z.to_nat n - 40)%nat with (length payload) by lia.
    rewrite <- !app_assoc, drop_app_ge, Ls by lia. cbn [Nat.sub]. rewrite drop_app_ge, Ld by lia. cbn [Nat.sub].
    by rewrite drop_0, take_app_length.
Qed.

(** *** ICMP *)

Lemma fold_shift_carries n x : 0 ≤ x < 2 ^ 32 → fold_shift n x = fold_carries n x.
Proof.
  revert x. induction n as [|n IH]; intros x Hx; [done|]. cbn [fold_shift fold_carries].
  rewrite Z.shiftr_div_pow2 by lia. change (2 ^ 16) with 65536.
  destruct (Z.ltb_spec 0xFFFF x) as [Hlt|Hle].
  - assert (1 ≤ x `div` 65536) by (apply Z.div_le_lower_bound; lia). zbool.
    destruct (fold_round x ltac:(lia)) as [[H1 H2] _]. rewrite Z.shiftr_div_pow2 in H1, H2 by lia.
    change (2 ^ 16) with 65536 in *. apply IH. lia.
  - rewrite Z.div_small by lia. done.
Qed.

(** The two checksum routines compute the same function. *)
Lemma icmp_checksum_eq data : icmp_checksum data = compute_checksum data.
Proof.
  unfold icmp_checksum, compute_checksum. set (s := wrap 32 (sum_words data)).
  assert (Hs : 0 ≤ s < 2 ^ 32) by (apply wrap_range; lia). rewrite fold_shift_carries by done.
  set (f := fold_carries 4 s). unfold wnot, wrap. change (Z.ones 16) with (Z.ones 16).
  rewrite <- !Z.land_ones by lia. apply Z.bits_inj'. intros i Hi.
  rewrite !Z.lxor_spec, !Z.land_spec, Z.lxor_spec. destruct (decide (i < 16)).
  - rewrite !Z.ones_spec_low by lia. by rewrite !andb_true_r.
  - rewrite !(Z.ones_spec_high 16) by lia. by rewrite !andb_false_r.
Qed.

Lemma echo_request_checksum s : icmp_checksum (build_echo_request s) = 0 ∧ length (build_echo_request s) = 64%nat.
Proof.
  unfold build_echo_request. rewrite !icmp_checksum_eq. set (c := compute_checksum (echo_with [0; 0] s)).
  assert (Hc : uN 16 c) by apply compute_checksum_range.
  assert (Hsplit : ∀ ck, echo_with ck s = [8; 0] ++ ck ++ drop 2 (echo_with [] s)) by (intros; reflexivity).
  assert (Hins : <[3%nat := wrap 8 c]> (<[2%nat := wrap 8 (Z.shiftr c 8)]> (echo_with [0; 0] s))
    = echo_with [Z.shiftr c 8; Z.land c 0xFF] s).
  { rewrite (Hsplit [0; 0]), (Hsplit [Z.shiftr c 8; Z.land c 0xFF]). cbn [app insert list_insert]. rewrite (wrap_id 8 (Z.shiftr c 8)) by (by apply shiftr8_byte).
    change 0xFF with (Z.ones 8). by rewrite Z.land_ones by lia. }
  rewrite Hins. split; [|reflexivity]. subst c. rewrite (Hsplit [0; 0]), (Hsplit [Z.shiftr _ _; _]).
  assert (Hpost : bytes_ok (drop 2 (echo_with [] s))).
  { apply Forall_drop. unfold echo_with, ICMP_ECHO_REQUEST. repeat (apply Forall_app; split).
    - repeat constructor; lia.
    - constructor.
    - repeat constructor; first [lia|apply wrap_range; lia].
    - apply Forall_map, Forall_true. intros. apply wrap_range. lia. }
  apply (checksum_fill 1); try done; [repeat constructor; lia| |].
  - change (length (drop 2 (echo_with [] s))) with 60%nat. simpl. lia.
  - change (0 < 0x800 + sum_words ([0; 0] ++ drop 2 (echo_with [] s))).
    assert (bytes_ok ([0; 0] ++ drop 2 (echo_with [] s))) as [? _]%sum_words_range by (apply Forall_app; split; [repeat constructor; lia|done]). lia.
Qed.
