(* ===== verification/NetStack.v ===== *)
(** The network stack between the device and the transport protocols:
    configuration, device selection, ARP, UDP, the transmission of TCP
    segments, ping and the receive dispatcher ([kernel/src/net/mod.rs],
    [arp.rs], [udp.rs], [icmp.rs] and [send_tcp_raw] of [tcp.rs]).

    The globals behind locks and the atomic packet counter are one record.
    The two device drivers are a parameter: whether each is present, its
    address and the answer of its transmit routine; the frames a driver
    accepted are recorded in [wire], oldest first. *)

From S2P Require Import Prelude Bits Words TcpWire Tcp Ip.

(** ** State *)

Definition BROADCAST_MAC : list Z := [0xFF; 0xFF; 0xFF; 0xFF; 0xFF; 0xFF].
Definition LOCAL_IP_DEFAULT : list Z := [10; 0; 2; 15].
Definition GATEWAY_IP_DEFAULT : list Z := [10; 0; 2; 2].
Definition SUBNET_MASK_DEFAULT : list Z := [255; 255; 255; 0].
Definition DNS_DEFAULT : list Z := [8; 8; 8; 8].

Record NetConfig := mkConfig {
  local_ip : list Z;
  gateway : list Z;
  subnet : list Z;
  dns : list Z;
  lease_secs : Z;
  dhcp_server : list Z;
  acquired_time_s : Z;
  dhcp_configured : bool;
}.

Definition default_config : NetConfig :=
  mkConfig LOCAL_IP_DEFAULT GATEWAY_IP_DEFAULT SUBNET_MASK_DEFAULT DNS_DEFAULT 0 [0; 0; 0; 0] 0 false.

(** Source address, source port, data. *)
Notation UdpDatagram := (list Z * Z * list Z)%type.

Record Net := mkNet {
  ARP_CACHE : gmap (list Z) (list Z);
  UDP_SOCKETS : gmap Z (list UdpDatagram);
  TCP : Tcp.t;
  NET_CONFIG : NetConfig;
  ID_COUNTER : Z;
  wire : list (list Z);
}.

Definition set_arp (m : gmap (list Z) (list Z)) (s : Net) : Net :=
  mkNet m (UDP_SOCKETS s) (TCP s) (NET_CONFIG s) (ID_COUNTER s) (wire s).
Definition set_udp (m : gmap Z (list UdpDatagram)) (s : Net) : Net :=
  mkNet (ARP_CACHE s) m (TCP s) (NET_CONFIG s) (ID_COUNTER s) (wire s).
Definition set_tcp (x : Tcp.t) (s : Net) : Net :=
  mkNet (ARP_CACHE s) (UDP_SOCKETS s) x (NET_CONFIG s) (ID_COUNTER s) (wire s).
Definition set_config (c : NetConfig) (s : Net) : Net :=
  mkNet (ARP_CACHE s) (UDP_SOCKETS s) (TCP s) c (ID_COUNTER s) (wire s).
Definition set_wire (w : list (list Z)) (s : Net) : Net :=
  mkNet (ARP_CACHE s) (UDP_SOCKETS s) (TCP s) (NET_CONFIG s) (ID_COUNTER s) w.

(** ** Devices *)

Record Driver := mkDriver {
  is_available : bool;
  driver_mac : option (list Z);
  driver_send : list Z → result string unit;
}.
Record Nics := mkNics { virtio_net : Driver; e1000 : Driver }.

(** [ID_COUNTER.fetch_add(1)] *)
Definition next_id (s : Net) : Z * Net :=
  (ID_COUNTER s, mkNet (ARP_CACHE s) (UDP_SOCKETS s) (TCP s) (NET_CONFIG s) (wrap 16 (ID_COUNTER s + 1)) (wire s)).

Section Stack.
  Context (N : Nics).

Definition mac_address : option (list Z) :=
  if is_available (virtio_net N) then driver_mac (virtio_net N)
  else if is_available (e1000 N) then driver_mac (e1000 N)
  else None.

Definition device_send (d : Driver) (frame : list Z) (s : Net) : result string unit * Net :=
  match driver_send d frame with
  | Ok _ => (Ok tt, set_wire (wire s ++ [frame]) s)
  | Err e => (Err e, s)
  end.
Definition send_frame (frame : list Z) (s : Net) : result string unit * Net :=
  if is_available (virtio_net N) then device_send (virtio_net N) frame s
  else if is_available (e1000 N) then device_send (e1000 N) frame s
  else (Err "No network device available"%string, s).

(** ** ARP *)

Definition ARP_HW_ETHERNET : Z := 1.
Definition ARP_PROTO_IPV4 : Z := 0x0800.
Definition ARP_OP_REQUEST : Z := 1.
Definition ARP_OP_REPLY : Z := 2.
Definition ARP_PACKET_LEN : nat := 28.

Definition arp_packet (op : Z) (our_mac our_ip target_mac target_ip : list Z) : list Z :=
  to_be_bytes 2 ARP_HW_ETHERNET ++ to_be_bytes 2 ARP_PROTO_IPV4 ++ [6; 4] ++ to_be_bytes 2 op
    ++ our_mac ++ our_ip ++ target_mac ++ target_ip.

Definition send_arp_reply (target_mac target_ip : list Z) (s : Net) : Net :=
  match mac_address with
  | None => s
  | Some our_mac =>
      let arp := arp_packet ARP_OP_REPLY our_mac (local_ip (NET_CONFIG s)) target_mac target_ip in
      (send_frame (eth_build target_mac our_mac ETHERTYPE_ARP arp) s).2
  end.

Definition send_arp_request (target_ip : list Z) (s : Net) : Net :=
  match mac_address with
  | None => s
  | Some our_mac =>
      let arp := arp_packet ARP_OP_REQUEST our_mac (local_ip (NET_CONFIG s)) (replicate 6 0) target_ip in
      (send_frame (eth_build BROADCAST_MAC our_mac ETHERTYPE_ARP arp) s).2
  end.

Definition handle_arp (payload : list Z) (s : Net) : Net :=
  if (length payload <? ARP_PACKET_LEN)%nat then s
  else
    let operation := be_at payload 6 2 in
    let sender_mac := take 6 (drop 8 payload) in
    let sender_ip := take 4 (drop 14 payload) in
    let target_ip := take 4 (drop 24 payload) in
    let s1 := set_arp (<[sender_ip := sender_mac]> (ARP_CACHE s)) s in
    if operation =? ARP_OP_REQUEST then
      if bool_decide (target_ip = local_ip (NET_CONFIG s1)) then send_arp_reply sender_mac sender_ip s1 else s1
    else s1.

Definition arp_resolve (ip : list Z) (s : Net) : option (list Z) := ARP_CACHE s !! ip.
Definition cache_size (s : Net) : nat := size (ARP_CACHE s).

(** ** The next hop *)

Definition is_local (ip : list Z) (s : Net) : bool :=
  let local := local_ip (NET_CONFIG s) in
  let mask := subnet (NET_CONFIG s) in
  forallb (λ i, Z.land (nth i ip 0) (nth i mask 0) =? Z.land (nth i local 0) (nth i mask 0)) [0; 1; 2; 3]%nat.

Definition resolve_or_broadcast (ip : list Z) (s : Net) : list Z * Net :=
  match arp_resolve ip s with
  | Some mac => (mac, s)
  | None => (BROADCAST_MAC, send_arp_request ip s)
  end.

(** [if is_local(dst) { resolve(dst) } else { resolve(gateway) }] *)
Definition next_hop (dst : list Z) (s : Net) : list Z * Net :=
  if is_local dst s then resolve_or_broadcast dst s else resolve_or_broadcast (gateway (NET_CONFIG s)) s.

(** ** UDP *)

Definition UDP_HEADER_LEN : nat := 8.

Definition udp_packet (src_port dst_port : Z) (data : list Z) : list Z :=
  to_be_bytes 2 src_port ++ to_be_bytes 2 dst_port ++ to_be_bytes 2 (wrap 16 (Z.of_nat (UDP_HEADER_LEN + length data)))
    ++ [0; 0] ++ data.

Definition udp_bind (port : Z) (s : Net) : result string unit * Net :=
  match UDP_SOCKETS s !! port with
  | Some _ => (Err "Port already bound"%string, s)
  | None => (Ok tt, set_udp (<[port := []]> (UDP_SOCKETS s)) s)
  end.

Definition udp_send (dst : list Z) (dst_port src_port : Z) (data : list Z) (s : Net) : result string unit * Net :=
  match mac_address with
  | None => (Err "No network device"%string, s)
  | Some our_mac =>
      let '(id, s1) := next_id s in
      let packet := ipv4_build id (local_ip (NET_CONFIG s1)) dst PROTO_UDP (udp_packet src_port dst_port data) in
      let '(dst_mac, s2) := next_hop dst s1 in
      send_frame (eth_build dst_mac our_mac ETHERTYPE_IPV4 packet) s2
  end.

Definition udp_send_raw (src dst : list Z) (dst_port src_port : Z) (data : list Z) (s : Net) : result string unit * Net :=
  match mac_address with
  | None => (Err "No network device"%string, s)
  | Some our_mac =>
      let '(id, s1) := next_id s in
      let packet := ipv4_build id src dst PROTO_UDP (udp_packet src_port dst_port data) in
      send_frame (eth_build BROADCAST_MAC our_mac ETHERTYPE_IPV4 packet) s1
  end.

Definition udp_recv (port : Z) (s : Net) : option UdpDatagram * Net :=
  match UDP_SOCKETS s !! port with
  | Some (d :: q) => (Some d, set_udp (<[port := q]> (UDP_SOCKETS s)) s)
  | Some [] => (None, s)
  | None => (None, s)
  end.

Definition handle_udp (src payload : list Z) (s : Net) : Net :=
  if (length payload <? UDP_HEADER_LEN)%nat then s
  else
    let src_port := be_at payload 0 2 in
    let dst_port := be_at payload 2 2 in
    let udp_length := Z.to_nat (be_at payload 4 2) in
    if (udp_length <? UDP_HEADER_LEN)%nat || (length payload <? udp_length)%nat then s
    else
      let data := take (udp_length - UDP_HEADER_LEN) (drop UDP_HEADER_LEN payload) in
      match UDP_SOCKETS s !! dst_port with
      | Some q => if (length q <? 64)%nat then set_udp (<[dst_port := q ++ [(src, src_port, data)]]> (UDP_SOCKETS s)) s else s
      | None => s
      end.

Definition socket_count (s : Net) : nat := size (UDP_SOCKETS s).
Definition pending_count (port : Z) (s : Net) : nat := default O (length <$> UDP_SOCKETS s !! port).

(** ** Transmission of TCP segments *)

Definition send_tcp_raw (g : Seg) (s : Net) : Net :=
  let lip := local_ip (NET_CONFIG s) in
  let segment := build_segment (sg_src g) (sg_dst g) (sg_seq g) (sg_ack g) (sg_flags g) (sg_window g) (sg_payload g) lip (sg_ip g) in
  let '(id, s1) := next_id s in
  let packet := ipv4_build id lip (sg_ip g) PROTO_TCP segment in
  match mac_address with
  | None => s1
  | Some our_mac =>
      let '(dst_mac, s2) := next_hop (sg_ip g) s1 in
      (send_frame (eth_build dst_mac our_mac ETHERTYPE_IPV4 packet) s2).2
  end.

(** An operation of the TCP layer, its segments sent in order. *)
Definition run_tcp (out : list Seg * Tcp.t) (s : Net) : Net :=
  fold_left (λ s g, send_tcp_raw g s) out.1 (set_tcp out.2 s).

(** ** Reception *)

(** The IPv6 handler of [ipv6.rs] only prints: it leaves the state alone. *)
Definition handle_ipv6 (data : list Z) (s : Net) : Net := s.

Definition handle_ipv4 (uptime : Z) (payload : list Z) (s : Net) : outcome Net :=
  match ipv4_parse payload with
  | Panicked => Panicked
  | Returned None => Returned s
  | Returned (Some (h, p)) =>
      Returned (if protocol h =? PROTO_UDP then handle_udp (src_ip h) p s
                else if protocol h =? PROTO_TCP then run_tcp (handle_tcp uptime (src_ip h) p (TCP s)) s
                else s)
  end.

Definition handle_rx_frame (uptime : Z) (frame : list Z) (s : Net) : outcome Net :=
  match eth_parse frame with
  | None => Returned s
  | Some (h, payload) =>
      let ty := from_be_bytes [nth 0 (ethertype h) 0; nth 1 (ethertype h) 0] in
      if ty =? ETHERTYPE_ARP then Returned (handle_arp payload s)
      else if ty =? ETHERTYPE_IPV4 then handle_ipv4 uptime payload s
      else if ty =? ETHERTYPE_IPV6 then Returned (handle_ipv6 payload s)
      else Returned s
  end.

(** A run of frames taken from the device. *)
Fixpoint rx_all (uptime : Z) (frames : list (list Z)) (s : Net) : outcome Net :=
  match frames with
  | [] => Returned s
  | f :: fs => match handle_rx_frame uptime f s with
               | Returned s' => rx_all uptime fs s'
               | Panicked => Panicked
               end
  end.

(** ** Ping *)

Definition poll_icmp_reply (src : list Z) (seq : Z) : option (list Z) := None.

(** The wait loop, over the successive readings of the clock: [None] while
    the last reading leaves it still spinning. *)
Fixpoint ping_wait (t_start deadline : Z) (dest : list Z) (seq : Z) (clock : list Z) : option (result string Z) :=
  match clock with
  | [] => None
  | now :: clock' =>
      if deadline <=? now then Some (Err "timeout"%string)
      else match poll_icmp_reply dest seq with
           | Some _ => match clock' with [] => None | t :: _ => Some (Ok (wrap 64 ((t - t_start) * 10000))) end
           | None => ping_wait t_start deadline dest seq clock'
           end
  end.

(** The first reading of the clock is [t_start]. *)
Definition send_ping (dest : list Z) (seq t_start : Z) (clock : list Z) (s : Net) : option (result string Z) * Net :=
  let '(id, s1) := next_id s in
  let packet := ipv4_build id (local_ip (NET_CONFIG s1)) dest 1 (build_echo_request seq) in
  let dst_mac := default BROADCAST_MAC (arp_resolve dest s1) in
  let src_mac := default (replicate 6 0) mac_address in
  match send_frame (eth_build dst_mac src_mac 0x0800 packet) s1 with
  | (Err e, s2) => (Some (Err e), s2)
  | (Ok _, s2) => (ping_wait t_start (wrap 64 (t_start + 20)) dest seq clock, s2)
  end.
End Stack.

(** ** Invariant *)

Record net_ok (s : Net) : Prop := {
  no_ip : ip_ok (local_ip (NET_CONFIG s));
  no_gw : ip_ok (gateway (NET_CONFIG s));
  no_id : uN 16 (ID_COUNTER s);
  no_arp : map_Forall (λ ip mac, length ip = 4%nat ∧ length mac = 6%nat) (ARP_CACHE s);
  no_udp : map_Forall (λ _ q, length q ≤ 64)%nat (UDP_SOCKETS s);
}.

Definition nic_ok (N : Nics) : Prop := ∀ mac, mac_address N = Some mac → mac_ok mac.

(** What transmitting may change: the wire and the packet counter. *)
Record sent (s s' : Net) (new : list (list Z)) : Prop := {
  se_arp : ARP_CACHE s' = ARP_CACHE s;
  se_udp : UDP_SOCKETS s' = UDP_SOCKETS s;
  se_tcp : TCP s' = TCP s;
  se_cfg : NET_CONFIG s' = NET_CONFIG s;
  se_wire : wire s' = wire s ++ new;
  se_id : uN 16 (ID_COUNTER s) → uN 16 (ID_COUNTER s');
}.

Lemma sent_refl s : sent s s [].
Proof. split; try done. by rewrite app_nil_r. Qed.

Lemma sent_trans s1 s2 s3 n1 n2 : sent s1 s2 n1 → sent s2 s3 n2 → sent s1 s3 (n1 ++ n2).
Proof.
  intros [] []. split; [congruence..| |tauto].
  repeat match goal with H : wire _ = _ |- _ => rewrite H end. by rewrite app_assoc.
Qed.

Lemma sent_ok s s' new : sent s s' new → net_ok s → net_ok s'.
Proof. intros [Ea Eu _ Ec _ Ei] []. split; rewrite ?Ec, ?Ea, ?Eu; auto. Qed.

Lemma next_id_sent s : sent s (next_id s).2 [].
Proof. unfold next_id. split; simpl; try done; [by rewrite app_nil_r|intros _; apply wrap_range; lia]. Qed.

(** The device accepts every frame. *)
Definition accepting (N : Nics) : Prop := ∀ f s, (send_frame N f s).1 = Ok tt.

Lemma send_frame_sent N f s r s' : send_frame N f s = (r, s') →
  sent s s' (if is_ok r then [f] else []).
Proof.
  assert (Hd : ∀ d, device_send d f s = (r, s') → sent s s' (if is_ok r then [f] else [])).
  { intros d. unfold device_send. destruct (driver_send d f); intros [= <- <-]; [split; done|apply sent_refl]. }
  unfold send_frame. destruct (is_available (virtio_net N)); [apply Hd|]. destruct (is_available (e1000 N)); [apply Hd|].
  intros [= <- <-]. apply sent_refl.
Qed.

Definition arp_frame (f : list Z) : Prop :=
  ∃ d s p, length d = 6%nat ∧ length s = 6%nat ∧ f = eth_build d s ETHERTYPE_ARP p.

Lemma send_arp_request_sent N ip s : nic_ok N →
  ∃ new, sent s (send_arp_request N ip s) new ∧ Forall arp_frame new.
Proof.
  intros Hn. unfold send_arp_request. destruct (mac_address N) as [mac|] eqn:Hm; [|by eexists; split; [apply sent_refl|]].
  destruct (send_frame N _ s) as [r s'] eqn:Hs. apply send_frame_sent in Hs. eexists. split; [exact Hs|].
  destruct (is_ok r); repeat constructor. exists BROADCAST_MAC, mac. eexists. split; [done|]. split; [|done]. by apply Hn.
Qed.

Lemma next_hop_sent N dst s : nic_ok N → net_ok s →
  ∃ mac s' new, next_hop N dst s = (mac, s') ∧ length mac = 6%nat ∧ sent s s' new ∧ Forall arp_frame new.
Proof.
  intros Hn Hs. assert (H : ∀ ip, ∃ mac s' new, resolve_or_broadcast N ip s = (mac, s')
    ∧ length mac = 6%nat ∧ sent s s' new ∧ Forall arp_frame new).
  { intros ip. unfold resolve_or_broadcast, arp_resolve. destruct (ARP_CACHE s !! ip) as [mac|] eqn:Ha.
    - exists mac, s, []. split_and!; [done| |apply sent_refl|done]. by apply (no_arp s Hs) in Ha as [_ ?].
    - destruct (send_arp_request_sent N ip s Hn) as (new & ? & ?). by exists BROADCAST_MAC, (send_arp_request N ip s), new. }
  unfold next_hop. destruct (is_local dst s); apply H.
Qed.

(** ** Receiving frames *)

Lemma rx_eth N up d m ty p s : length d = 6%nat → length m = 6%nat → uN 16 ty →
  handle_rx_frame N up (eth_build d m ty p) s
  = let payload := p ++ replicate (60 - (14 + length p)) 0 in
    if ty =? ETHERTYPE_ARP then Returned (handle_arp N payload s)
    else if ty =? ETHERTYPE_IPV4 then handle_ipv4 N up payload s
    else if ty =? ETHERTYPE_IPV6 then Returned (handle_ipv6 payload s)
    else Returned s.
Proof.
  intros Hd Hm Hty. unfold handle_rx_frame. rewrite eth_parse_build by done. cbv zeta. cbn [ethertype].
  assert (Ht : from_be_bytes [nth 0 (to_be_bytes 2 ty) 0; nth 1 (to_be_bytes 2 ty) 0] = ty).
  { etransitivity; [|by apply (from_to_be_bytes 2)]. reflexivity. }
  by rewrite Ht.
Qed.

Lemma send_arp_reply_sent N mac ip s : ∃ new, sent s (send_arp_reply N mac ip s) new.
Proof.
  unfold send_arp_reply. destruct (mac_address N); [|by eexists; apply sent_refl].
  destruct (send_frame N _ s) as [r s'] eqn:Hs. eexists. by apply send_frame_sent in Hs.
Qed.

(** ARP packets touch the cache and the wire only. *)
Lemma handle_arp_frame N p s :
  let s' := handle_arp N p s in
  UDP_SOCKETS s' = UDP_SOCKETS s ∧ TCP s' = TCP s ∧ NET_CONFIG s' = NET_CONFIG s ∧ (net_ok s → net_ok s').
Proof.
  unfold handle_arp. cbv zeta. destruct (Nat.ltb_spec (length p) ARP_PACKET_LEN) as [|Hl]; [done|].
  set (s1 := set_arp _ s). unfold ARP_PACKET_LEN in Hl.
  assert (H1 : net_ok s → net_ok s1).
  { intros []. split; try done. cbn. apply map_Forall_insert_2; [|done].
    rewrite !length_take, !length_drop. lia. }
  destruct (be_at p 6 2 =? ARP_OP_REQUEST); [|done]. case_bool_decide; [|done].
  destruct (send_arp_reply_sent N (take 6 (drop 8 p)) (take 4 (drop 14 p)) s1) as [new [Ea Eu Et Ec Ew Ei]].
  rewrite Eu, Et, Ec. split_and!; try done. intros Hs. destruct (H1 Hs). split; rewrite ?Ec, ?Ea, ?Eu; auto.
Qed.

Definition udp_push (src : list Z) (sp dp : Z) (data : list Z) (s : Net) : Net :=
  match UDP_SOCKETS s !! dp with
  | Some q => if (length q <? 64)%nat then set_udp (<[dp := q ++ [(src, sp, data)]]> (UDP_SOCKETS s)) s else s
  | None => s
  end.

Lemma length_udp_packet sp dp data : length (udp_packet sp dp data) = (8 + length data)%nat.
Proof. unfold udp_packet. rewrite !length_app, !length_to_be_bytes. simpl. lia. Qed.

Lemma handle_udp_packet src sp dp data s :
  uN 16 sp → uN 16 dp → (length data ≤ Z.to_nat 65507)%nat →
  handle_udp src (udp_packet sp dp data) s = udp_push src sp dp data s.
Proof.
  intros Hsp Hdp Hl. unfold handle_udp, udp_push. rewrite length_udp_packet. unfold udp_packet, UDP_HEADER_LEN.
  rewrite wrap_id by (split; lia). set (n := Z.of_nat (8 + length data)).
  assert (HA : from_be_bytes (to_be_bytes 2 sp) = sp) by (by apply from_to_be_bytes).
  assert (HB : from_be_bytes (to_be_bytes 2 dp) = dp) by (by apply from_to_be_bytes).
  assert (HN : from_be_bytes (to_be_bytes 2 n) = n) by (apply from_to_be_bytes; split; lia).
  assert (LA : length (to_be_bytes 2 sp) = 2%nat) by apply length_to_be_bytes.
  assert (LB : length (to_be_bytes 2 dp) = 2%nat) by apply length_to_be_bytes.
  assert (LN : length (to_be_bytes 2 n) = 2%nat) by apply length_to_be_bytes.
  set (P := to_be_bytes 2 sp) in *. set (Q := to_be_bytes 2 dp) in *. set (L := to_be_bytes 2 n) in *. clearbody P Q L.
  destruct P as [|p0 [|p1 [|]]]; try done. destruct Q as [|q0 [|q1 [|]]]; try done. destruct L as [|l0 [|l1 [|]]]; try done.
  unfold be_at. cbn [app take drop]. rewrite HA, HB, HN, (proj2 (Nat.ltb_ge (8 + length data) 8)) by lia.
  replace (Z.to_nat n) with (8 + length data)%nat by lia.
  rewrite (proj2 (Nat.ltb_ge (8 + length data) 8)), Nat.ltb_irrefl by lia. cbn [orb].
  replace (8 + length data - 8)%nat with (length data) by lia. by rewrite firstn_all.
Qed.

(** A frame carrying a datagram, padding included, queues exactly that
    datagram. *)
Lemma rx_udp_frame N up d m id src dst sp dp data s :
  length d = 6%nat → length m = 6%nat → uN 16 id → ip_ok src → ip_ok dst → uN 16 sp → uN 16 dp →
  (length data ≤ Z.to_nat 65507)%nat →
  handle_rx_frame N up (eth_build d m ETHERTYPE_IPV4 (ipv4_build id src dst PROTO_UDP (udp_packet sp dp data))) s
  = Returned (udp_push src sp dp data s).
Proof.
  intros Hd Hm Hi Hs Hdst Hsp Hdp Hl. rewrite rx_eth; [|done..|split; done]. cbv zeta.
  change (ETHERTYPE_IPV4 =? ETHERTYPE_ARP) with false. change (ETHERTYPE_IPV4 =? ETHERTYPE_IPV4) with true. cbv iota.
  unfold handle_ipv4. edestruct ipv4_parse_build as [ck ->]; [done..|rewrite length_udp_packet; lia|]. cbn [protocol src_ip].
  change (PROTO_UDP =? PROTO_UDP) with true. cbv iota. by rewrite handle_udp_packet.
Qed.

(** ** UDP from one host to another *)

(** Destination, destination port, source port, data. *)
Notation Outgoing := (list Z * Z * Z * list Z)%type.
Definition outgoing_ok (d : Outgoing) : Prop :=
  let '(dst, dp, sp, data) := d in ip_ok dst ∧ uN 16 dp ∧ uN 16 sp ∧ (length data ≤ Z.to_nat 65507)%nat.

(** A sequence of sends; those the call accepted are returned. *)
Fixpoint udp_send_all (N : Nics) (ds : list Outgoing) (s : Net) : list Outgoing * Net :=
  match ds with
  | [] => ([], s)
  | (dst, dp, sp, data) :: ds' =>
      let '(r, s1) := udp_send N dst dp sp data s in
      let '(acc, s2) := udp_send_all N ds' s1 in
      (if is_ok r then (dst, dp, sp, data) :: acc else acc, s2)
  end.

(** What a socket on [port] sees of them. *)
Definition for_port (port : Z) (src : list Z) (ds : list Outgoing) : list UdpDatagram :=
  omap (λ d : Outgoing, let '(_, dp, sp, data) := d in if dp =? port then Some (src, sp, data) else None) ds.

(** The queue of a socket is cut at 64 entries. *)
Definition enqueue (ds : list UdpDatagram) (q : list UdpDatagram) : list UdpDatagram :=
  q ++ take (64 - length q) ds.

Lemma enqueue_app ds ds' q : enqueue ds' (enqueue ds q) = enqueue (ds ++ ds') q.
Proof.
  unfold enqueue. rewrite <- app_assoc. f_equal. rewrite length_app, length_take.
  destruct (decide (length ds ≤ 64 - length q)%nat).
  - rewrite (take_ge ds), take_app_ge by lia. do 2 f_equal. lia.
  - rewrite take_app_le by lia. replace (64 - (length q + _))%nat with O by lia. by rewrite take_0, app_nil_r.
Qed.

Lemma udp_push_lookup src sp dp data s p :
  UDP_SOCKETS (udp_push src sp dp data s) !! p
  = enqueue (if dp =? p then [(src, sp, data)] else []) <$> UDP_SOCKETS s !! p.
Proof.
  assert (Hnil : ∀ o : option (list UdpDatagram), enqueue [] <$> o = o)
    by (intros [q|]; [|done]; simpl; unfold enqueue; by rewrite take_nil, app_nil_r).
  unfold udp_push. destruct (Z.eqb_spec dp p) as [->|Hne].
  - destruct (UDP_SOCKETS s !! p) as [q|] eqn:Hq; [|done].
    destruct (Nat.ltb_spec (length q) 64) as [Hlt|Hge]; cbn [UDP_SOCKETS set_udp fmap option_fmap option_map].
    + rewrite lookup_insert. destruct (decide (p = p)); [|done]. unfold enqueue. by rewrite take_ge by (cbn [length]; lia).
    + rewrite Hq. unfold enqueue. replace (64 - length q)%nat with O by lia. by rewrite take_0, app_nil_r.
  - rewrite Hnil. destruct (UDP_SOCKETS s !! dp) as [q|] eqn:Hq; [|done]. destruct (length q <? 64)%nat; [|done]. cbn.
    by rewrite lookup_insert_ne.
Qed.

Lemma udp_push_rest src sp dp data s :
  let s' := udp_push src sp dp data s in
  ARP_CACHE s' = ARP_CACHE s ∧ TCP s' = TCP s ∧ NET_CONFIG s' = NET_CONFIG s ∧ ID_COUNTER s' = ID_COUNTER s ∧ wire s' = wire s.
Proof. unfold udp_push. by repeat case_match. Qed.

(** One send: ARP requests, then the datagram's frame when it is accepted. *)
Lemma udp_send_sent N dst dp sp data s r s' : nic_ok N → net_ok s → outgoing_ok (dst, dp, sp, data) →
  udp_send N dst dp sp data s = (r, s') →
  ∃ arps fs, sent s s' (arps ++ fs) ∧ Forall arp_frame arps
  ∧ ∀ NB up b, rx_all NB up fs b = Returned (if is_ok r then udp_push (local_ip (NET_CONFIG s)) sp dp data b else b).
Proof.
  intros Hn Hs (Hdst & Hdp & Hsp & Hl). unfold udp_send. destruct (mac_address N) as [mac|] eqn:Hm.
  2: { intros [= <- <-]. exists [], []. split_and!; [apply sent_refl|done|done]. }
  pose proof (next_id_sent s) as H1. destruct (next_id s) as [id s1] eqn:Hid. simpl in H1.
  destruct (next_hop_sent N dst s1 Hn (sent_ok _ _ _ H1 Hs)) as (hop & s2 & arps & -> & Hhop & H2 & Harps).
  destruct (Hn mac Hm) as [Lm _]. destruct (send_frame N _ s2) as [r' s3] eqn:Hf. intros [= <- <-].
  pose proof (send_frame_sent _ _ _ _ _ Hf) as H3.
  exists arps. eexists. split_and!; [exact (sent_trans _ _ _ _ _ (sent_trans _ _ _ _ _ H1 H2) H3)|done|].
  intros NB up b. destruct (is_ok r'); [|done]. cbn [rx_all]. rewrite (se_cfg _ _ _ H1), rx_udp_frame; try done.
  - unfold next_id in Hid. injection Hid as <- _. apply Hs.
  - apply Hs.
Qed.

Lemma rx_all_app N up f1 f2 s s1 : rx_all N up f1 s = Returned s1 → rx_all N up (f1 ++ f2) s = rx_all N up f2 s1.
Proof.
  revert s. induction f1 as [|f f1 IH]; intros s; cbn [rx_all app]; [by intros [= ->]|].
  destruct (handle_rx_frame N up f s); [apply IH|done].
Qed.

(** ARP frames leave the transport layers alone. *)
Lemma rx_arp_frames N up fs : ∀ s, Forall arp_frame fs →
  ∃ s', rx_all N up fs s = Returned s'
  ∧ UDP_SOCKETS s' = UDP_SOCKETS s ∧ TCP s' = TCP s ∧ NET_CONFIG s' = NET_CONFIG s ∧ (net_ok s → net_ok s').
Proof.
  induction fs as [|f fs IH]; intros s Hfs; [by exists s|]. apply Forall_cons in Hfs as [(d & m & p & Hd & Hm & ->) Hfs].
  cbn [rx_all]. rewrite rx_eth; [|done..|split; done]. cbv zeta. change (ETHERTYPE_ARP =? ETHERTYPE_ARP) with true. cbv iota.
  set (payload := p ++ _). destruct (handle_arp_frame N payload s) as (Eu & Et & Ec & Ho).
  destruct (IH (handle_arp N payload s) Hfs) as (s' & -> & Eu' & Et' & Ec' & Ho'). exists s'. split_and!; [done|congruence..|tauto].
Qed.

(** Datagrams cross the wire intact: after any sequence of sends, the
    frames the sender's device accepted, ARP requests and minimum-size padding
    included, are received without a panic, and every bound socket of the
    receiver holds exactly the datagrams accepted for its port, with the
    sender's address and port, in order after what it held before and up to
    64 entries; unbound ports, TCP and the configuration are untouched. *)
Theorem udp_end_to_end NA NB up ds acc A A' B : nic_ok NA → net_ok A → Forall outgoing_ok ds →
  udp_send_all NA ds A = (acc, A') →
  ∃ frames B', wire A' = wire A ++ frames ∧ rx_all NB up frames B = Returned B'
  ∧ (∀ p, UDP_SOCKETS B' !! p = enqueue (for_port p (local_ip (NET_CONFIG A)) acc) <$> UDP_SOCKETS B !! p)
  ∧ TCP B' = TCP B ∧ NET_CONFIG B' = NET_CONFIG B.
Proof.
  intros Hn. revert acc A A' B. induction ds as [|[[[dst dp] sp] data] ds IH]; intros acc A A' B Hs Hds; cbn [udp_send_all].
  - intros [= <- <-]. exists [], B. split_and!; [by rewrite app_nil_r|done| |done|done].
    intros p. simpl. destruct (UDP_SOCKETS B !! p); [|done]. simpl. unfold enqueue. by rewrite take_nil, app_nil_r.
  - apply Forall_cons in Hds as [Hd Hds]. destruct (udp_send NA dst dp sp data A) as [r A1] eqn:H1.
    destruct (udp_send_all NA ds A1) as [acc1 A2] eqn:H2. intros [= <- <-].
    destruct (udp_send_sent _ _ _ _ _ _ _ _ Hn Hs Hd H1) as (arps & fs & Hsent & Harps & Hfs).
    destruct (rx_arp_frames NB up arps B Harps) as (B1 & R1 & Eu1 & Et1 & Ec1 & _).
    set (B2 := if is_ok r then udp_push (local_ip (NET_CONFIG A)) sp dp data B1 else B1).
    destruct (IH acc1 A1 A2 B2 (sent_ok _ _ _ Hsent Hs) Hds H2) as (frames & B' & Hw & R2 & Hq & Et & Ec).
    exists ((arps ++ fs) ++ frames), B'. split_and!.
    + by rewrite Hw, (se_wire _ _ _ Hsent), <- app_assoc.
    + rewrite <- app_assoc, (rx_all_app _ _ _ _ _ _ R1), (rx_all_app _ _ _ _ _ B2); [done|apply Hfs].
    + intros p. rewrite Hq, (se_cfg _ _ _ Hsent). subst B2. destruct (is_ok r); [|by rewrite Eu1].
      rewrite udp_push_lookup, Eu1. destruct (UDP_SOCKETS B !! p) as [q|]; [|done]. cbn [fmap option_fmap option_map].
      rewrite enqueue_app. do 2 f_equal. unfold for_port. cbn [omap list_omap]. by destruct (dp =? p).
    + rewrite Et, <- Et1. subst B2. destruct (is_ok r); [|done]. apply udp_push_rest.
    + rewrite Ec, <- Ec1. subst B2. destruct (is_ok r); [|done]. apply udp_push_rest.
Qed.

Definition demo_driver (mac : list Z) : Driver := mkDriver true (Some mac) (λ f, if (1514 <? Z.of_nat (length f)) then Err "Frame too large"%string else Ok tt).
Definition no_driver : Driver := mkDriver false None (λ _, Err "absent"%string).
Definition demo_nics : Nics := mkNics no_driver (demo_driver [2; 0; 0; 0; 0; 1]).
Definition empty_tcp : Tcp.t := mkT ∅ ∅ 1 0 0 1000.
Definition demo_net (ports : list Z) : Net :=
  mkNet ∅ (list_to_map (map (λ p, (p, [])) ports)) empty_tcp default_config 1 [].

Lemma nic_ok_demo : nic_ok demo_nics.
Proof. intros mac [= <-]. split; [done|]. repeat constructor; lia. Qed.
Lemma net_ok_demo ports : net_ok (demo_net ports).
Proof.
  split.
  - split; [done|]. repeat constructor; lia.
  - split; [done|]. repeat constructor; lia.
  - split; done.
  - apply map_Forall_empty.
  - cbn [UDP_SOCKETS demo_net]. induction ports as [|p ports IH]; [apply map_Forall_empty|].
    apply map_Forall_insert_2; [simpl; lia|done].
Qed.

Definition demo_sends : list Outgoing := [([10; 0; 2; 9], 53, 10053, [1; 2; 3]); ([8; 8; 8; 8], 53, 68, [4])].
Lemma demo_sends_ok : Forall outgoing_ok demo_sends.
Proof.
  apply Forall_cons; split; [|apply Forall_singleton]; unfold outgoing_ok, ip_ok; cbn [length];
    (split; [split; [done|repeat constructor; lia]|]); split; [split; lia| |split; lia|]; (split; [split; lia|lia]).
Qed.

Lemma udp_end_to_end_witness :
  ∃ frames B', wire (udp_send_all demo_nics demo_sends (demo_net [])).2 = wire (demo_net []) ++ frames
  ∧ rx_all demo_nics 0 frames (demo_net [53; 67]) = Returned B'
  ∧ (∀ p, UDP_SOCKETS B' !! p
       = enqueue (for_port p (local_ip (NET_CONFIG (demo_net []))) (udp_send_all demo_nics demo_sends (demo_net [])).1)
         <$> UDP_SOCKETS (demo_net [53; 67]) !! p)
  ∧ TCP B' = TCP (demo_net [53; 67]) ∧ NET_CONFIG B' = NET_CONFIG (demo_net [53; 67]).
Proof.
  apply (udp_end_to_end demo_nics demo_nics 0 demo_sends _ (demo_net []) _ (demo_net [53; 67])
    nic_ok_demo (net_ok_demo []) demo_sends_ok). apply surjective_pairing.
Defined.

(** The two datagrams of the witness arrive: the second one is 43 bytes of
    packet, padded to a 60-byte frame. *)
Example udp_demo_delivered :
  (let '(acc, A') := udp_send_all demo_nics demo_sends (demo_net []) in
   match rx_all demo_nics 0 (wire A') (demo_net [53; 67]) with
   | Returned B' => (length (wire A'), UDP_SOCKETS B' !! 53, UDP_SOCKETS B' !! 67)
   | Panicked => (O, None, None)
   end) = (4%nat, Some [([10; 0; 2; 15], 10053, [1; 2; 3]); ([10; 0; 2; 15], 68, [4])], Some []).
Proof. vm_compute. reflexivity. Qed.

(** ** TCP segments over frames *)

Definition seg_header (g : Seg) (ck : Z) : TcpHeader :=
  mkHeader (sg_src g) (sg_dst g) (sg_seq g) (sg_ack g) 5 (sg_flags g) (sg_window g) ck 0.

Record seg_ok (g : Seg) : Prop := {
  so_fields : fields_ok (sg_src g) (sg_dst g) (sg_seq g) (sg_ack g) (sg_flags g) (sg_window g) (sg_payload g);
  so_ip : ip_ok (sg_ip g);
  so_len : (length (sg_payload g) ≤ Z.to_nat 65495)%nat;
}.

(** The layer above never looks at the checksum field. *)
Lemma handle_segment_checksum up src g ck data x :
  handle_segment up src (seg_header g ck) data x = handle_segment up src (seg_header g 0) data x.
Proof. reflexivity. Qed.

Lemma length_build_segment sp dp seq ack fl w payload src dst :
  length (build_segment sp dp seq ack fl w payload src dst) = (20 + length payload)%nat.
Proof. destruct (build_is_segment sp dp seq ack fl w payload src dst) as (c & -> & _). apply length_segment_with. Qed.

Lemma send_tcp_raw_sent N g s : nic_ok N → net_ok s → seg_ok g →
  ∃ arps fs, sent s (send_tcp_raw N g s) (arps ++ fs) ∧ Forall arp_frame arps
  ∧ (accepting N → mac_address N ≠ None → ∀ NB up b, rx_all NB up fs b
      = Returned (run_tcp NB (handle_segment up (local_ip (NET_CONFIG s)) (seg_header g 0) (sg_payload g) (TCP b)) b)).
Proof.
  intros Hn Hs Hg. unfold send_tcp_raw.
  pose proof (next_id_sent s) as H1. destruct (next_id s) as [id s1] eqn:Hid. simpl in H1.
  destruct (mac_address N) as [mac|] eqn:Hm.
  2: { exists [], []. split_and!; [exact H1|done|done]. }
  destruct (next_hop_sent N (sg_ip g) s1 Hn (sent_ok _ _ _ H1 Hs)) as (hop & s2 & arps & -> & Hhop & H2 & Harps).
  destruct (Hn mac Hm) as [Lm _]. destruct (send_frame N _ s2) as [r' s3] eqn:Hf.
  pose proof (send_frame_sent _ _ _ _ _ Hf) as H3. exists arps. eexists.
  split_and!; [exact (sent_trans _ _ _ _ _ (sent_trans _ _ _ _ _ H1 H2) H3)|done|].
  intros Hacc _ NB up b. match type of Hf with send_frame _ ?f _ = _ => pose proof (Hacc f s2) as Ha end.
  rewrite Hf in Ha. simpl in Ha. subst r'. cbn [is_ok rx_all].
  rewrite rx_eth; [|done..|split; done]. cbv zeta. change (ETHERTYPE_IPV4 =? ETHERTYPE_ARP) with false.
  change (ETHERTYPE_IPV4 =? ETHERTYPE_IPV4) with true. cbv iota. unfold handle_ipv4.
  destruct Hg as [Hfields Hip Hlen].
  edestruct ipv4_parse_build as [ck ->]; [apply Hs|done| |rewrite length_build_segment; lia|].
  { unfold next_id in Hid. injection Hid as <- _. apply Hs. }
  cbn [protocol src_ip]. change (PROTO_TCP =? PROTO_UDP) with false. change (PROTO_TCP =? PROTO_TCP) with true. cbv iota.
  unfold handle_tcp. edestruct parse_built as (c & _ & ->); [exact Hfields|apply Hs|apply Hip|apply Hs|apply Hip|]. done.
Qed.

(** Answers of the TCP layer change the wire only. *)
Lemma send_tcp_raw_rest N g s :
  let s' := send_tcp_raw N g s in
  ARP_CACHE s' = ARP_CACHE s ∧ UDP_SOCKETS s' = UDP_SOCKETS s ∧ TCP s' = TCP s ∧ NET_CONFIG s' = NET_CONFIG s
  ∧ (uN 16 (ID_COUNTER s) → uN 16 (ID_COUNTER s')).
Proof.
  assert (Hf : ∀ f x, ∃ new, sent x (send_frame N f x).2 new).
  { intros f x. destruct (send_frame N f x) as [r x'] eqn:E. apply send_frame_sent in E. eauto. }
  assert (Hr : ∀ ip x, ∃ new, sent x (resolve_or_broadcast N ip x).2 new).
  { intros ip x. unfold resolve_or_broadcast, send_arp_request. destruct (arp_resolve ip x); [eexists; apply sent_refl|].
    simpl. destruct (mac_address N); [apply Hf|eexists; apply sent_refl]. }
  unfold send_tcp_raw. pose proof (next_id_sent s) as H1. destruct (next_id s) as [id s1]. simpl in H1. destruct (mac_address N).
  2: { by destruct H1. }
  assert (∃ new, sent s1 (next_hop N (sg_ip g) s1).2 new) as [n2 H2] by (unfold next_hop; destruct (is_local _ _); apply Hr).
  destruct (next_hop N (sg_ip g) s1) as [hop s2]. simpl in H2. cbv zeta.
  match goal with |- context [send_frame N ?f s2] => destruct (Hf f s2) as [n3 H3] end.
  pose proof (sent_trans _ _ _ _ _ (sent_trans _ _ _ _ _ H1 H2) H3) as H. by destruct H.
Qed.

Lemma run_tcp_rest N out s :
  let s' := run_tcp N out s in
  ARP_CACHE s' = ARP_CACHE s ∧ UDP_SOCKETS s' = UDP_SOCKETS s ∧ TCP s' = out.2 ∧ NET_CONFIG s' = NET_CONFIG s
  ∧ (uN 16 (ID_COUNTER s) → uN 16 (ID_COUNTER s')).
Proof.
  destruct out as [segs x]. unfold run_tcp. cbn [fst snd].
  assert (H : ∀ y, let s' := fold_left (λ s g, send_tcp_raw N g s) segs y in
    ARP_CACHE s' = ARP_CACHE y ∧ UDP_SOCKETS s' = UDP_SOCKETS y ∧ TCP s' = TCP y ∧ NET_CONFIG s' = NET_CONFIG y
    ∧ (uN 16 (ID_COUNTER y) → uN 16 (ID_COUNTER s'))).
  { induction segs as [|g segs IH]; intros y; [done|]. cbn [fold_left].
    destruct (send_tcp_raw_rest N g y) as (? & ? & ? & ? & ?). destruct (IH (send_tcp_raw N g y)) as (? & ? & ? & ? & ?).
    split_and!; [congruence..|tauto]. }
  apply (H (set_tcp x s)).
Qed.

(** C36: the receiver's TCP layer sees exactly the segments the sender's layer
    handed down: the frames of any sequence of segments, built by the stack,
    crossing the wire and dispatched by the receiver, run [handle_segment] on
    each segment's ports, numbers, flags, window and payload with the sender's
    address, in order; sockets of UDP and the configuration are untouched. *)
Theorem tcp_over_frames NA NB up segs A B :
  nic_ok NA → accepting NA → mac_address NA ≠ None → net_ok A → Forall seg_ok segs →
  ∃ frames B', wire (fold_left (λ s g, send_tcp_raw NA g s) segs A) = wire A ++ frames
  ∧ rx_all NB up frames B = Returned B'
  ∧ TCP B' = fold_left (λ x g, (handle_segment up (local_ip (NET_CONFIG A)) (seg_header g 0) (sg_payload g) x).2) segs (TCP B)
  ∧ UDP_SOCKETS B' = UDP_SOCKETS B ∧ NET_CONFIG B' = NET_CONFIG B.
Proof.
  intros Hn Hacc Hmac. revert A B. induction segs as [|g segs IH]; intros A B Hs Hg; cbn [fold_left].
  - exists [], B. split_and!; [by rewrite app_nil_r|done..].
  - apply Forall_cons in Hg as [Hg Hgs].
    destruct (send_tcp_raw_sent NA g A Hn Hs Hg) as (arps & fs & Hsent & Harps & Hfs).
    destruct (rx_arp_frames NB up arps B Harps) as (B1 & R1 & Eu1 & Et1 & Ec1 & _).
    specialize (Hfs Hacc Hmac NB up B1).
    destruct (run_tcp_rest NB (handle_segment up (local_ip (NET_CONFIG A)) (seg_header g 0) (sg_payload g) (TCP B1)) B1)
      as (_ & Eu2 & Et2 & Ec2 & _).
    match type of Hfs with _ = Returned ?x => set (B2 := x) in * end.
    destruct (IH (send_tcp_raw NA g A) B2 (sent_ok _ _ _ Hsent Hs) Hgs) as (frames & B' & Hw & R2 & Et & Eu & Ec).
    exists ((arps ++ fs) ++ frames), B'. split_and!; [| |rewrite Et, (se_cfg _ _ _ Hsent), Et2, Et1; done|congruence..].
    + by rewrite Hw, (se_wire _ _ _ Hsent), <- app_assoc.
    + by rewrite <- app_assoc, (rx_all_app _ _ _ _ _ _ R1), (rx_all_app _ _ _ _ _ _ Hfs).
Qed.

Definition free_nics : Nics := mkNics (mkDriver true (Some [2; 0; 0; 0; 0; 7]) (λ _, Ok tt)) no_driver.
Lemma free_nics_ok : nic_ok free_nics ∧ accepting free_nics ∧ mac_address free_nics ≠ None.
Proof. split_and!; [|by intros f s|done]. intros mac [= <-]. split; [done|]. repeat constructor; lia. Qed.

Definition demo_seg : Seg := mkSeg 50000 80 4294967295 0 SYN 8192 [104; 105] [10; 0; 2; 9].
Lemma demo_seg_ok : seg_ok demo_seg.
Proof.
  split; cbn [demo_seg sg_src sg_dst sg_seq sg_ack sg_flags sg_window sg_payload sg_ip length].
  - split; try (split; unfold SYN; lia); [repeat constructor; lia|cbn [length]; lia].
  - split; [done|]. repeat constructor; lia.
  - lia.
Qed.

Lemma tcp_over_frames_witness :
  ∃ frames B', wire (fold_left (λ s g, send_tcp_raw free_nics g s) [demo_seg; demo_seg] (demo_net [])) = wire (demo_net []) ++ frames
  ∧ rx_all free_nics 7 frames (demo_net [53]) = Returned B'
  ∧ TCP B' = fold_left (λ x g, (handle_segment 7 (local_ip (NET_CONFIG (demo_net []))) (seg_header g 0) (sg_payload g) x).2)
               [demo_seg; demo_seg] (TCP (demo_net [53]))
  ∧ UDP_SOCKETS B' = UDP_SOCKETS (demo_net [53]) ∧ NET_CONFIG B' = NET_CONFIG (demo_net [53]).
Proof.
  destruct free_nics_ok as (H1 & H2 & H3).
  apply (tcp_over_frames free_nics free_nics 7 [demo_seg; demo_seg] (demo_net []) (demo_net [53]) H1 H2 H3 (net_ok_demo [])).
  repeat (apply Forall_cons; split); try apply demo_seg_ok. apply Forall_nil_2.
Defined.

(** ** Address resolution *)

Lemma handle_arp_packet N op m ip tm tip pad s : mac_ok m → ip_ok ip → length tm = 6%nat → length tip = 4%nat → uN 16 op →
  handle_arp N (arp_packet op m ip tm tip ++ pad) s
  = let s1 := set_arp (<[ip := m]> (ARP_CACHE s)) s in
    if op =? ARP_OP_REQUEST then
      if bool_decide (tip = local_ip (NET_CONFIG s)) then send_arp_reply N m ip s1 else s1
    else s1.
Proof.
  intros [Lm _] [Li _] Ltm Lti Hop. unfold handle_arp, arp_packet, ARP_PACKET_LEN, be_at.
  assert (HO : from_be_bytes (to_be_bytes 2 op) = op) by (by apply from_to_be_bytes).
  assert (LO : length (to_be_bytes 2 op) = 2%nat) by apply length_to_be_bytes.
  set (O := to_be_bytes 2 op) in *. clearbody O. destruct O as [|o0 [|o1 [|]]]; try done.
  change (to_be_bytes 2 ARP_HW_ETHERNET) with [0; 1]. change (to_be_bytes 2 ARP_PROTO_IPV4) with [8; 0].
  destruct m as [|m0 [|m1 [|m2 [|m3 [|m4 [|m5 [|]]]]]]]; try done. destruct ip as [|i0 [|i1 [|i2 [|i3 [|]]]]]; try done.
  destruct tm as [|n0 [|n1 [|n2 [|n3 [|n4 [|n5 [|]]]]]]]; try done. destruct tip as [|j0 [|j1 [|j2 [|j3 [|]]]]]; try done.
  cbn [app take drop length]. rewrite ?take_0, HO. rewrite (proj2 (Nat.ltb_ge _ _)) by lia. done.
Qed.

(** The frame a request puts on the wire, and the one a reply does. *)
Lemma send_arp_request_wire N mac ip s : accepting N → mac_address N = Some mac →
  send_arp_request N ip s = set_wire (wire s ++ [eth_build BROADCAST_MAC mac ETHERTYPE_ARP
    (arp_packet ARP_OP_REQUEST mac (local_ip (NET_CONFIG s)) (replicate 6 0) ip)]) s.
Proof.
  intros Hacc Hm. unfold send_arp_request. rewrite Hm. cbv zeta. set (f := eth_build _ _ _ _).
  pose proof (Hacc f s) as Ha. revert Ha. unfold send_frame, device_send. repeat case_match; done.
Qed.
Lemma send_arp_reply_wire N mac tm tip s : accepting N → mac_address N = Some mac →
  send_arp_reply N tm tip s = set_wire (wire s ++ [eth_build tm mac ETHERTYPE_ARP
    (arp_packet ARP_OP_REPLY mac (local_ip (NET_CONFIG s)) tm tip)]) s.
Proof.
  intros Hacc Hm. unfold send_arp_reply. rewrite Hm. cbv zeta. set (f := eth_build _ _ _ _).
  pose proof (Hacc f s) as Ha. revert Ha. unfold send_frame, device_send. repeat case_match; done.
Qed.

(** Address resolution works: the request of a host, delivered to the
    host that has the address, makes it answer with one frame, and that
    frame, delivered back, puts the owner's hardware address in the requester's
    cache; the owner has learnt the requester's. *)
Theorem arp_resolves NA NB up A B ma mb ip :
  accepting NA → accepting NB → mac_address NA = Some ma → mac_address NB = Some mb → mac_ok ma → mac_ok mb →
  net_ok A → net_ok B → local_ip (NET_CONFIG B) = ip →
  ∃ request reply B' A',
    wire (send_arp_request NA ip A) = wire A ++ [request]
    ∧ handle_rx_frame NB up request B = Returned B' ∧ wire B' = wire B ++ [reply]
    ∧ handle_rx_frame NA up reply A = Returned A'
    ∧ arp_resolve ip A' = Some mb ∧ arp_resolve (local_ip (NET_CONFIG A)) B' = Some ma
    ∧ (∀ x, x ≠ ip → arp_resolve x A' = arp_resolve x A).
Proof.
  intros HaccA HaccB Hma Hmb Ma Mb HA HB Hip.
  assert (Hrx : ∀ N d m p s, length d = 6%nat → length m = 6%nat →
    handle_rx_frame N up (eth_build d m ETHERTYPE_ARP p) s
    = Returned (handle_arp N (p ++ replicate (60 - (14 + length p)) 0) s))
    by (intros; rewrite rx_eth; [done|done..|split; done]).
  rewrite (send_arp_request_wire NA ma) by done. do 2 eexists.
  eexists (send_arp_reply NB ma (local_ip (NET_CONFIG A)) (set_arp (<[local_ip (NET_CONFIG A) := ma]> (ARP_CACHE B)) B)).
  eexists (set_arp (<[ip := mb]> (ARP_CACHE A)) A). split; [reflexivity|]. split.
  { rewrite Hrx by (done || apply Ma). f_equal.
    rewrite handle_arp_packet; [|done|apply HA|done|subst ip; apply HB|split; done].
    cbv zeta. change (ARP_OP_REQUEST =? ARP_OP_REQUEST) with true. cbv iota. by rewrite bool_decide_eq_true_2. }
  rewrite (send_arp_reply_wire NB mb) by done. split; [reflexivity|]. split.
  { rewrite Hrx by (apply Ma || apply Mb). f_equal. cbn [NET_CONFIG set_arp]. rewrite Hip.
    rewrite handle_arp_packet; [done|done| |apply Ma|apply HA|split; done]. subst ip. apply HB. }
  unfold arp_resolve. cbn [ARP_CACHE set_arp set_wire]. split_and!; [by rewrite lookup_insert_eq..|].
  intros x Hx. by rewrite lookup_insert_ne.
Qed.

Definition other_net : Net := mkNet ∅ ∅ empty_tcp (mkConfig [10; 0; 2; 9] [10; 0; 2; 2] [255; 255; 255; 0] DNS_DEFAULT 0 [0; 0; 0; 0] 0 false) 1 [].
Lemma other_net_ok : net_ok other_net.
Proof.
  split; [split; [done|]; repeat constructor; lia..|split; done|apply map_Forall_empty|apply map_Forall_empty].
Qed.

Lemma arp_resolves_witness :
  ∃ request reply B' A',
    wire (send_arp_request free_nics [10; 0; 2; 9] (demo_net [])) = wire (demo_net []) ++ [request]
    ∧ handle_rx_frame free_nics 3 request other_net = Returned B' ∧ wire B' = wire other_net ++ [reply]
    ∧ handle_rx_frame free_nics 3 reply (demo_net []) = Returned A'
    ∧ arp_resolve [10; 0; 2; 9] A' = Some [2; 0; 0; 0; 0; 7]
    ∧ arp_resolve (local_ip (NET_CONFIG (demo_net []))) B' = Some [2; 0; 0; 0; 0; 7]
    ∧ (∀ x, x ≠ [10; 0; 2; 9] → arp_resolve x A' = arp_resolve x (demo_net [])).
Proof.
  destruct free_nics_ok as (H1 & H2 & _).
  apply (arp_resolves free_nics free_nics 3 (demo_net []) other_net [2; 0; 0; 0; 0; 7] [2; 0; 0; 0; 0; 7] [10; 0; 2; 9] H2 H2);
    [reflexivity|reflexivity|by apply H1|by apply H1|apply net_ok_demo|apply other_net_ok|reflexivity].
Defined.

(** ** Safety of reception *)

(** An IPv4 frame whose total length is smaller than its header. *)
Definition bad_frame (frame : list Z) : Prop :=
  (14 ≤ length frame)%nat ∧ from_be_bytes [nth 12 frame 0; nth 13 frame 0] = ETHERTYPE_IPV4 ∧ ipv4_bad_length (drop 14 frame).

Lemma handle_udp_ok src p s : net_ok s → net_ok (handle_udp src p s).
Proof.
  intros Hs. unfold handle_udp. cbv zeta. case_match; [done|]. case_match; [done|]. case_match eqn:Hq; [|done].
  destruct (Nat.ltb_spec (length l) 64); [|done]. destruct Hs. split; try done. cbn. apply map_Forall_insert_2; [|done].
  rewrite length_app. simpl. lia.
Qed.

(** C37: whatever bytes arrive, reception either panics or keeps the stack's
    invariant (addresses of the right size, bounded queues), and it panics
    for exactly one kind of frame: IPv4 with a valid version and header length
    but a total length smaller than the header. *)
Theorem rx_frame_safe N up frame s : net_ok s →
  (handle_rx_frame N up frame s = Panicked ↔ bad_frame frame)
  ∧ (∀ s', handle_rx_frame N up frame s = Returned s' → net_ok s').
Proof.
  intros Hs. unfold handle_rx_frame, eth_parse, bad_frame. unfold ETH_HEADER_LEN.
  destruct (Nat.ltb_spec (length frame) 14) as [Hl|Hl].
  { split; [split; [done|lia]|]. by intros s' [= <-]. }
  cbn [ethertype nth]. set (ty := from_be_bytes _). set (p := drop 14 frame).
  destruct (Z.eqb_spec ty ETHERTYPE_ARP) as [Ea|_].
  { split; [split; [done|intros (_ & E & _); rewrite Ea in E; done]|]. intros s' [= <-]. by apply handle_arp_frame. }
  destruct (Z.eqb_spec ty ETHERTYPE_IPV4) as [Ei|Ni].
  2: { destruct (ty =? ETHERTYPE_IPV6); (split; [split; [done|tauto]|by intros s' [= <-]]). }
  unfold handle_ipv4. pose proof (ipv4_parse_panics p) as Hp. destruct (ipv4_parse p) as [[[h q]|]|].
  - split; [split; [done|]|].
    + intros (_ & _ & Hb). by apply Hp in Hb.
    + intros s' [= <-]. destruct (protocol h =? PROTO_UDP); [by apply handle_udp_ok|].
      destruct (protocol h =? PROTO_TCP); [|done].
      destruct (run_tcp_rest N (handle_tcp up (src_ip h) q (TCP s)) s) as (Ea & Eu & _ & Ec & Eid).
      destruct Hs. split; rewrite ?Ea, ?Eu, ?Ec; auto.
  - split; [split; [done|]|by intros s' [= <-]]. intros (_ & _ & Hb). by apply Hp in Hb.
  - split; [|done]. split; [intros _; split_and!; try done; by apply Hp|done].
Qed.

Lemma rx_frame_safe_witness :
  (handle_rx_frame demo_nics 0 (replicate 60 69) (demo_net []) = Panicked ↔ bad_frame (replicate 60 69))
  ∧ (∀ s', handle_rx_frame demo_nics 0 (replicate 60 69) (demo_net []) = Returned s' → net_ok s').
Proof. exact (rx_frame_safe demo_nics 0 (replicate 60 69) (demo_net []) (net_ok_demo [])). Defined.

(** A 34-byte frame that stops the kernel: IPv4, total length 0. *)
Example rx_panic_frame N up s :
  handle_rx_frame N up (replicate 12 0 ++ [0x08; 0x00; 0x45] ++ replicate 19 0) s = Panicked.
Proof. reflexivity. Qed.

(** Reception ignores the destination address and the header checksum: a
    frame for another host, with any bytes in the checksum field, is taken. *)
Lemma rx_ignores_destination N up d m ck id src dst sp dp data s :
  length d = 6%nat → length m = 6%nat → length ck = 2%nat → length src = 4%nat → length dst = 4%nat → uN 16 id →
  uN 16 sp → uN 16 dp → (length data ≤ Z.to_nat 65507)%nat →
  handle_rx_frame N up (eth_build d m ETHERTYPE_IPV4
    (ipv4_header_with ck id src dst PROTO_UDP (Z.of_nat (28 + length data)) ++ udp_packet sp dp data)) s
  = Returned (udp_push src sp dp data s).
Proof.
  intros Hd Hm Hk Hs Ht Hi Hsp Hdp Hl. rewrite rx_eth; [|done..|split; done]. cbv zeta.
  change (ETHERTYPE_IPV4 =? ETHERTYPE_ARP) with false. change (ETHERTYPE_IPV4 =? ETHERTYPE_IPV4) with true. cbv iota.
  unfold handle_ipv4. rewrite <- app_assoc, ipv4_parse_header; [|done..|split; lia|done|rewrite length_udp_packet; lia].
  cbn [protocol src_ip]. change (PROTO_UDP =? PROTO_UDP) with true. cbv iota. by rewrite handle_udp_packet.
Qed.

(** Ping never succeeds: it waits for its deadline, whatever arrives. *)
Lemma ping_never_ok N dest seq t0 clock s r s' :
  send_ping N dest seq t0 clock s = (Some r, s') → is_ok r = false.
Proof.
  unfold send_ping. destruct (next_id s) as [id s1]. cbv zeta. destruct (send_frame N _ s1) as [[u|e] s2].
  2: { by intros [= <- <-]. }
  intros [= Hw _]. revert Hw. generalize (wrap 64 (t0 + 20)). intros dl.
  induction clock as [|now clock IH]; cbn [ping_wait poll_icmp_reply]; [done|].
  destruct (dl <=? now); [by intros [= <-]|done].
Qed.
