(* ===== verification/Dhcp.v ===== *)
(** The DHCP client ([kernel/src/net/dhcp.rs]): packets, options, the
    DISCOVER / OFFER / REQUEST / ACK exchange, renewal and one turn of the
    renewal worker.

    The device's receive routine is an input: the list of what successive
    polls return, the empty string when no frame is there.  The clock is an
    argument.  Frames polled run through the dispatcher of [NetStack], which
    may panic.  While the client waits, the other threads that [yield_now]
    lets run are taken to leave the network state alone; the worker's sleep
    is not modelled. *)

From S2P Require Import Prelude Bits Words TcpWire Tcp Ip NetStack.

Definition CLIENT_PORT : Z := 68.
Definition SERVER_PORT : Z := 67.
Definition DHCP_MAGIC : list Z := [0x63; 0x82; 0x53; 0x63].
Definition BROADCAST_IP : list Z := [255; 255; 255; 255].
Definition ZERO_IP : list Z := [0; 0; 0; 0].
Definition DHCPDISCOVER : Z := 1.
Definition DHCPOFFER : Z := 2.
Definition DHCPREQUEST : Z := 3.
Definition DHCPACK : Z := 5.
Definition OPT_SUBNET_MASK : Z := 1.
Definition OPT_ROUTER : Z := 3.
Definition OPT_DNS : Z := 6.
Definition OPT_REQUESTED_IP : Z := 50.
Definition OPT_LEASE_TIME : Z := 51.
Definition OPT_MSG_TYPE : Z := 53.
Definition OPT_SERVER_ID : Z := 54.
Definition OPT_PARAM_REQUEST : Z := 55.
Definition OPT_END : Z := 255.

Definition build_packet (xid : Z) (chaddr ciaddr options : list Z) : list Z :=
  [1; 1; 6; 0] ++ to_be_bytes 4 xid ++ [0; 0] ++ [0x80; 0x00] ++ ciaddr ++ ZERO_IP ++ ZERO_IP ++ ZERO_IP
    ++ chaddr ++ replicate 10 0 ++ replicate 64 0 ++ replicate 128 0 ++ DHCP_MAGIC ++ options.

(** The scan of [get_opt], on the options from position [i] on. *)
Fixpoint get_opt_from (fuel : nat) (opts : list Z) (code : Z) : option (list Z) :=
  match fuel, opts with
  | S fuel', c :: rest =>
      if c =? OPT_END then None
      else if c =? 0 then get_opt_from fuel' rest code
      else match rest with
           | [] => None
           | len :: body =>
               if (length body <? Z.to_nat len)%nat then None
               else if c =? code then Some (take (Z.to_nat len) body)
               else get_opt_from fuel' (drop (Z.to_nat len) body) code
           end
  | _, _ => None
  end.
Definition get_opt (opts : list Z) (code : Z) : option (list Z) := get_opt_from (length opts) opts code.

Definition ip4 (v : list Z) : option (list Z) := if (4 <=? length v)%nat then Some (take 4 v) else None.

Definition parse_response (data : list Z) (xid : Z) : option (list Z * list Z) :=
  if (length data <? 240)%nat then None
  else if negb (nth 0 data 0 =? 2) then None
  else if negb (be_at data 4 4 =? xid) then None
  else if bool_decide (take 4 (drop 236 data) ≠ DHCP_MAGIC) then None
  else Some (take 4 (drop 16 data), drop 240 data).

Section Client.
  Context (N : Nics) (up : Z).

(** Polled frames still to come. *)
Notation Rx := (list (list Z)).

Definition poll_nic_once (rx : Rx) (s : Net) : outcome (Net * Rx) :=
  if is_available (virtio_net N) || is_available (e1000 N) then
    match rx with
    | [] => Returned (s, [])
    | f :: rx' =>
        if (0 <? length f)%nat then
          match handle_rx_frame N up f s with
          | Returned s' => Returned (s', rx')
          | Panicked => Panicked
          end
        else Returned (s, rx')
    end
  else Returned (s, rx).

(** [get_opt(..).map(|v| v.first().copied()) == Some(Some(t))] *)
Definition msg_type_is (opts : list Z) (t : Z) : bool :=
  match get_opt opts OPT_MSG_TYPE with
  | Some (x :: _) => x =? t
  | _ => false
  end.

Fixpoint wait_loop (n : nat) (xid expected : Z) (rx : Rx) (s : Net) : outcome (option (list Z * list Z) * Net * Rx) :=
  match n with
  | O => Returned (None, s, rx)
  | S n' =>
      match poll_nic_once rx s with
      | Panicked => Panicked
      | Returned (s1, rx1) =>
          match udp_recv CLIENT_PORT s1 with
          | (Some (_, _, data), s2) =>
              match parse_response data xid with
              | Some (yiaddr, opts) =>
                  if msg_type_is opts expected then Returned (Some (data, yiaddr), s2, rx1)
                  else wait_loop n' xid expected rx1 s2
              | None => wait_loop n' xid expected rx1 s2
              end
          | (None, s2) => wait_loop n' xid expected rx1 s2
          end
      end
  end.
Definition wait_for (xid expected : Z) (rx : Rx) (s : Net) : outcome (option (list Z * list Z) * Net * Rx) :=
  wait_loop (Z.to_nat 8000) xid expected rx s.

Definition be32 (v : list Z) : option Z := if (4 <=? length v)%nat then Some (from_be_bytes (take 4 v)) else None.

(** The configuration an ACK stands for; [server] is the identifier used when
    the ACK carries none. *)
Definition lease_config (ack : list Z) (acked_ip server : list Z) (now : Z) : NetConfig :=
  let opts := drop (min 240 (length ack)) ack in
  mkConfig acked_ip
    (default (take 3 acked_ip ++ [1]) (get_opt opts OPT_ROUTER ≫= ip4))
    (default [255; 255; 255; 0] (get_opt opts OPT_SUBNET_MASK ≫= ip4))
    (default [8; 8; 8; 8] (get_opt opts OPT_DNS ≫= ip4))
    (default 86400 (get_opt opts OPT_LEASE_TIME ≫= be32))
    (default server (get_opt opts OPT_SERVER_ID ≫= ip4))
    now true.

Definition disc_opts : list Z :=
  [OPT_MSG_TYPE; 1; DHCPDISCOVER; OPT_PARAM_REQUEST; 4; OPT_SUBNET_MASK; OPT_ROUTER; OPT_DNS; OPT_LEASE_TIME; OPT_END].
Definition req_opts (server_id offered : list Z) : list Z :=
  [OPT_MSG_TYPE; 1; DHCPREQUEST] ++ [OPT_SERVER_ID; 4] ++ server_id ++ [OPT_REQUESTED_IP; 4] ++ offered
    ++ [OPT_PARAM_REQUEST; 4; OPT_SUBNET_MASK; OPT_ROUTER; OPT_DNS; OPT_LEASE_TIME] ++ [OPT_END].
Definition renew_opts : list Z :=
  [OPT_MSG_TYPE; 1; DHCPREQUEST] ++ [OPT_PARAM_REQUEST; 4; OPT_SUBNET_MASK; OPT_ROUTER; OPT_DNS; OPT_LEASE_TIME] ++ [OPT_END].

Definition discover_xid (ticks : Z) : Z := Z.lor (Z.land ticks 0xFFFFFFFF) 0xDC000000.
Definition renew_xid (ticks : Z) : Z := Z.lor (Z.land ticks 0xFFFFFFFF) 0xDD000000.

(** [ticks] is the clock at the start, [now] the uptime when the lease is
    applied. *)
Definition discover (ticks now : Z) (rx : Rx) (s : Net) : outcome (result string unit * Net * Rx) :=
  match mac_address N with
  | None => Returned (Err "DHCP: no network device"%string, s, rx)
  | Some mac =>
      let s1 := (udp_bind CLIENT_PORT s).2 in
      let xid := discover_xid ticks in
      match udp_send_raw N ZERO_IP BROADCAST_IP SERVER_PORT CLIENT_PORT (build_packet xid mac ZERO_IP disc_opts) s1 with
      | (Err e, s2) => Returned (Err e, s2, rx)
      | (Ok _, s2) =>
          match wait_for xid DHCPOFFER rx s2 with
          | Panicked => Panicked
          | Returned (None, s3, rx3) => Returned (Err "DHCP: no OFFER received (timeout)"%string, s3, rx3)
          | Returned (Some (offer, offered_ip), s3, rx3) =>
              let opts := drop (min 240 (length offer)) offer in
              let server_id := default ZERO_IP (get_opt opts OPT_SERVER_ID ≫= ip4) in
              match udp_send_raw N ZERO_IP BROADCAST_IP SERVER_PORT CLIENT_PORT
                      (build_packet xid mac ZERO_IP (req_opts server_id offered_ip)) s3 with
              | (Err e, s4) => Returned (Err e, s4, rx3)
              | (Ok _, s4) =>
                  match wait_for xid DHCPACK rx3 s4 with
                  | Panicked => Panicked
                  | Returned (None, s5, rx5) => Returned (Err "DHCP: no ACK received (timeout)"%string, s5, rx5)
                  | Returned (Some (ack, acked_ip), s5, rx5) =>
                      Returned (Ok tt, set_config (lease_config ack acked_ip server_id now) s5, rx5)
                  end
              end
          end
      end
  end.

Definition renew (server_ip client_ip : list Z) (broadcast : bool) (ticks now : Z) (rx : Rx) (s : Net)
    : outcome (result string unit * Net * Rx) :=
  match mac_address N with
  | None => Returned (Err "DHCP: no network device"%string, s, rx)
  | Some mac =>
      let s1 := (udp_bind CLIENT_PORT s).2 in
      let xid := renew_xid ticks in
      let dest_ip := if broadcast then BROADCAST_IP else server_ip in
      match udp_send_raw N client_ip dest_ip SERVER_PORT CLIENT_PORT (build_packet xid mac client_ip renew_opts) s1 with
      | (Err e, s2) => Returned (Err e, s2, rx)
      | (Ok _, s2) =>
          match wait_for xid DHCPACK rx s2 with
          | Panicked => Panicked
          | Returned (None, s3, rx3) => Returned (Err "DHCP: no ACK received during renewal (timeout)"%string, s3, rx3)
          | Returned (Some (ack, acked_ip), s3, rx3) =>
              Returned (Ok tt, set_config (lease_config ack acked_ip server_ip now) s3, rx3)
          end
      end
  end.

(** One turn of [renewal_worker] after its sleep; [now] is read at its start. *)
Definition renewal_turn (ticks now : Z) (rx : Rx) (s : Net) : outcome (Net * Rx) :=
  let cfg := NET_CONFIG s in
  let drop_result (o : outcome (result string unit * Net * Rx)) :=
    match o with Returned (_, s', rx') => Returned (s', rx') | Panicked => Panicked end in
  if dhcp_configured cfg && (0 <? lease_secs cfg) then
    let elapsed := saturating_sub now (acquired_time_s cfg) in
    if lease_secs cfg <=? elapsed then drop_result (discover ticks now rx (set_config default_config s))
    else if lease_secs cfg * 7 / 8 <=? elapsed then drop_result (renew (dhcp_server cfg) (local_ip cfg) true ticks now rx s)
    else if lease_secs cfg / 2 <=? elapsed then drop_result (renew (dhcp_server cfg) (local_ip cfg) false ticks now rx s)
    else Returned (s, rx)
  else Returned (s, rx).
End Client.

(** The lease shown to the user is the configuration itself. *)
Definition lease_info (s : Net) : NetConfig := NET_CONFIG s.

(** ** Options *)

Definition opt_ok (o : Z * list Z) : Prop := 0 < o.1 < 255 ∧ (length o.2 ≤ 255)%nat.
Definition encode_opts (os : list (Z * list Z)) : list Z :=
  (os ≫= λ o, o.1 :: Z.of_nat (length o.2) :: o.2) ++ [OPT_END].

Lemma get_opt_from_encode os code junk n : Forall opt_ok os → (length (encode_opts os ++ junk) ≤ n)%nat →
  get_opt_from n (encode_opts os ++ junk) code = snd <$> find (λ o, o.1 =? code) os.
Proof.
  unfold encode_opts. revert n. induction os as [|[c v] os IH]; intros n Hos Hn.
  { destruct n as [|n]; [simpl in Hn; lia|]. done. }
  apply Forall_cons in Hos as [[Hc Hv] Hos]. cbn [fst snd] in Hc, Hv.
  destruct n as [|n]; [simpl in Hn; lia|]. cbn [mbind list_bind fst snd app] in Hn |- *.
  cbn [length] in Hn. cbn [get_opt_from find fst snd]. unfold OPT_END at 1.
  rewrite !length_app in Hn. cbn [length] in Hn.
  rewrite (proj2 (Z.eqb_neq c 255)), (proj2 (Z.eqb_neq c 0)), Nat2Z.id by lia. rewrite <- !app_assoc.
  rewrite (proj2 (Nat.ltb_ge (length (v ++ _)) (length v))) by (rewrite length_app; lia).
  destruct (Z.eqb_spec c code); [by rewrite take_app_length|]. rewrite drop_app_length, app_assoc. apply IH; [done|].
  rewrite !length_app. cbn [length]. lia.
Qed.

Lemma get_opt_encode os code junk : Forall opt_ok os →
  get_opt (encode_opts os ++ junk) code = snd <$> find (λ o, o.1 =? code) os.
Proof. intros. by apply get_opt_from_encode. Qed.

(** ** What a run changes *)

Lemma wait_loop_config N up n xid ty rx s o s' rx' : wait_loop N up n xid ty rx s = Returned (o, s', rx') →
  NET_CONFIG s' = NET_CONFIG s
  ∧ (∀ data ip, o = Some (data, ip) → ∃ opts, parse_response data xid = Some (ip, opts) ∧ msg_type_is opts ty = true).
Proof.
  assert (Hrx : ∀ f x x', handle_rx_frame N up f x = Returned x' → NET_CONFIG x' = NET_CONFIG x).
  { intros f x x'. unfold handle_rx_frame, handle_ipv4, handle_ipv6, handle_udp. cbv zeta.
    repeat case_match; intros; simplify_eq; try done; first [apply handle_arp_frame|apply run_tcp_rest]. }
  assert (Hpoll : ∀ r x x' r', poll_nic_once N up r x = Returned (x', r') → NET_CONFIG x' = NET_CONFIG x).
  { intros r x x' r'. unfold poll_nic_once. repeat case_match; intros; simplify_eq; eauto. }
  assert (Hrecv : ∀ x, NET_CONFIG (udp_recv CLIENT_PORT x).2 = NET_CONFIG x).
  { intros x. unfold udp_recv. by repeat case_match. }
  revert rx s. induction n as [|n IH]; intros rx s; cbn [wait_loop]; [by intros [= <- <- <-]|].
  destruct (poll_nic_once N up rx s) as [[s1 rx1]|] eqn:Hp; [|done]. apply Hpoll in Hp. rewrite <- Hp.
  specialize (Hrecv s1). destruct (udp_recv CLIENT_PORT s1) as [[[[src sp] data]|] s2]; simpl in Hrecv; rewrite <- Hrecv; [|apply IH].
  destruct (parse_response data xid) as [[ip opts]|] eqn:Hr; [|apply IH].
  destruct (msg_type_is opts ty) eqn:Ht; [|apply IH]. intros [= <- <- <-]. split; [done|]. intros ? ? [= <- <-]. eauto.
Qed.

Lemma udp_send_raw_config N src dst dp sp data s : NET_CONFIG (udp_send_raw N src dst dp sp data s).2 = NET_CONFIG s.
Proof.
  unfold udp_send_raw. destruct (mac_address N); [|done]. unfold next_id. cbv zeta.
  match goal with |- context [send_frame N ?f ?x] => destruct (send_frame N f x) as [r x'] eqn:E end.
  by apply send_frame_sent, se_cfg in E.
Qed.

Lemma udp_bind_config p s : NET_CONFIG (udp_bind p s).2 = NET_CONFIG s.
Proof. unfold udp_bind. by case_match. Qed.

(** An acknowledged lease: the packet is an ACK to this exchange. *)
Definition acknowledges (xid : Z) (ack ip : list Z) : Prop :=
  ∃ opts, parse_response ack xid = Some (ip, opts) ∧ msg_type_is opts DHCPACK = true.

Lemma discover_config N up ticks now rx s r s' rx' : discover N up ticks now rx s = Returned (r, s', rx') →
  match r with
  | Err _ => NET_CONFIG s' = NET_CONFIG s
  | Ok _ => ∃ ack ip server, acknowledges (discover_xid ticks) ack ip ∧ NET_CONFIG s' = lease_config ack ip server now
  end.
Proof.
  unfold discover, wait_for. generalize (Z.to_nat 8000). intros n.
  destruct (mac_address N) as [mac|]; [|by intros [= <- <- <-]]. cbv zeta.
  set (s1 := (udp_bind CLIENT_PORT s).2). assert (E1 : NET_CONFIG s1 = NET_CONFIG s) by apply udp_bind_config.
  match goal with |- context [udp_send_raw ?a ?b ?c ?d ?e ?f ?x] =>
    pose proof (udp_send_raw_config a b c d e f x) as E2; destruct (udp_send_raw a b c d e f x) as [[u|e'] s2] end.
  2: { intros [= <- <- <-]. simpl in E2. congruence. }
  simpl in E2. destruct (wait_loop N up n _ DHCPOFFER rx s2) as [[[[[offer oip]|] s3] rx3]|] eqn:H3; [| |done].
  2: { intros [= <- <- <-]. apply wait_loop_config in H3 as [E3 _]. congruence. }
  apply wait_loop_config in H3 as [E3 _].
  match goal with |- context [udp_send_raw ?a ?b ?c ?d ?e ?f s3] =>
    pose proof (udp_send_raw_config a b c d e f s3) as E4; destruct (udp_send_raw a b c d e f s3) as [[u'|e'] s4] end.
  2: { intros [= <- <- <-]. simpl in E4. congruence. }
  simpl in E4. destruct (wait_loop N up n _ DHCPACK rx3 s4) as [[[[[ack aip]|] s5] rx5]|] eqn:H5; [| |done].
  2: { intros [= <- <- <-]. apply wait_loop_config in H5 as [E5 _]. congruence. }
  intros [= <- <- <-]. apply wait_loop_config in H5 as [_ Hack]. exists ack, aip. eexists. split; [by apply Hack|reflexivity].
Qed.

Lemma renew_config N up srv ip b ticks now rx s r s' rx' : renew N up srv ip b ticks now rx s = Returned (r, s', rx') →
  match r with
  | Err _ => NET_CONFIG s' = NET_CONFIG s
  | Ok _ => ∃ ack aip server, acknowledges (renew_xid ticks) ack aip ∧ NET_CONFIG s' = lease_config ack aip server now
  end.
Proof.
  unfold renew, wait_for. generalize (Z.to_nat 8000). intros n.
  destruct (mac_address N) as [mac|]; [|by intros [= <- <- <-]]. cbv zeta.
  set (s1 := (udp_bind CLIENT_PORT s).2). assert (E1 : NET_CONFIG s1 = NET_CONFIG s) by apply udp_bind_config.
  match goal with |- context [udp_send_raw ?a ?b ?c ?d ?e ?f ?x] =>
    pose proof (udp_send_raw_config a b c d e f x) as E2; destruct (udp_send_raw a b c d e f x) as [[u|e'] s2] end.
  2: { intros [= <- <- <-]. simpl in E2. congruence. }
  simpl in E2. destruct (wait_loop N up n _ DHCPACK rx s2) as [[[[[ack aip]|] s3] rx3]|] eqn:H3; [| |done].
  2: { intros [= <- <- <-]. apply wait_loop_config in H3 as [E3 _]. congruence. }
  intros [= <- <- <-]. apply wait_loop_config in H3 as [_ Hack]. exists ack, aip. eexists. split; [by apply Hack|reflexivity].
Qed.

(** The lease is safe: whatever frames arrive, one turn of the renewal
    worker leaves the configuration alone before half of the lease, and
    afterwards leaves it as it was, resets it to the defaults when the lease
    has run out, or sets it from an acknowledgement that answers this very
    exchange. *)
Theorem dhcp_renewal_safe N up ticks now rx s s' rx' :
  renewal_turn N up ticks now rx s = Returned (s', rx') →
  let cfg := NET_CONFIG s in
  let elapsed := saturating_sub now (acquired_time_s cfg) in
  (elapsed < lease_secs cfg / 2 ∧ 0 < lease_secs cfg → s' = s ∧ rx' = rx)
  ∧ (NET_CONFIG s' = cfg
     ∨ (NET_CONFIG s' = default_config ∧ 0 < lease_secs cfg ≤ elapsed)
     ∨ ∃ ack ip server, (acknowledges (discover_xid ticks) ack ip ∨ acknowledges (renew_xid ticks) ack ip)
         ∧ NET_CONFIG s' = lease_config ack ip server now).
Proof.
  unfold renewal_turn. cbv zeta. set (cfg := NET_CONFIG s). set (el := saturating_sub now _). set (L := lease_secs cfg).
  intros H. assert (Hdiv : 0 < L → L / 2 ≤ L * 7 / 8 ≤ L).
  { intros. split; [apply Z.div_le_lower_bound; [lia|]; pose proof (Z.mul_div_le L 2); lia|apply Z.div_le_upper_bound; lia]. }
  destruct (dhcp_configured cfg && (0 <? L)) eqn:Hc.
  2: { injection H as <- <-. split; [done|by left]. }
  apply andb_true_iff in Hc as [_ HL%Z.ltb_lt]. specialize (Hdiv HL).
  destruct (Z.leb_spec L el) as [He|He].
  { split; [lia|]. destruct (discover N up ticks now rx _) as [[[r s1] rx1]|] eqn:Hd; [|done]. injection H as <- <-.
    apply discover_config in Hd. destruct r.
    - destruct Hd as (ack & ip & srv & ? & ?). right. right. exists ack, ip, srv. auto.
    - right. left. auto. }
  destruct (Z.leb_spec (L * 7 / 8) el); [|destruct (Z.leb_spec (L / 2) el)].
  3: { injection H as <- <-. split; [done|by left]. }
  all: split; [lia|]; destruct (renew N up _ _ _ ticks now rx s) as [[[r s1] rx1]|] eqn:Hd; [|done]; injection H as <- <-;
    apply renew_config in Hd; destruct r; [|by left].
  all: destruct Hd as (ack & ip & srv & ? & ?); right; right; exists ack, ip, srv; auto.
Qed.

Definition leased : NetConfig :=
  mkConfig [10; 0; 2; 20] [10; 0; 2; 2] [255; 255; 255; 0] [8; 8; 8; 8] 3600 [10; 0; 2; 2] 100 true.
Definition leased_net : Net := set_config leased (demo_net []).

Lemma dhcp_renewal_safe_witness :
  (saturating_sub 200 100 < 3600 / 2 ∧ 0 < 3600 → leased_net = leased_net ∧ ([] : list (list Z)) = [])
  ∧ (leased = leased ∨ (leased = default_config ∧ 0 < 3600 ≤ saturating_sub 200 100)
     ∨ ∃ ack ip server, (acknowledges (discover_xid 5) ack ip ∨ acknowledges (renew_xid 5) ack ip)
         ∧ leased = lease_config ack ip server 200).
Proof. exact (dhcp_renewal_safe demo_nics 0 5 200 [] leased_net leased_net [] eq_refl). Defined.

(** ** A successful exchange *)

(** A frame from a DHCP server that carries [data]. *)
Definition server_frame (f data : list Z) : Prop :=
  ∃ d m id src dst, length d = 6%nat ∧ length m = 6%nat ∧ uN 16 id ∧ ip_ok src ∧ ip_ok dst
  ∧ (length data ≤ Z.to_nat 65507)%nat
  ∧ f = eth_build d m ETHERTYPE_IPV4 (ipv4_build id src dst PROTO_UDP (udp_packet SERVER_PORT CLIENT_PORT data)).

Definition available (N : Nics) : Prop := is_available (virtio_net N) || is_available (e1000 N) = true.

(** Polls without a frame pass time only. *)
Lemma wait_loop_idle N up k n xid ty rx s : available N → UDP_SOCKETS s !! CLIENT_PORT = Some [] →
  wait_loop N up (k + n) xid ty (replicate k [] ++ rx) s = wait_loop N up n xid ty rx s.
Proof.
  intros Ha Hq. induction k as [|k IH]; [done|]. cbn [Nat.add replicate app wait_loop].
  unfold poll_nic_once at 1. unfold available in Ha. rewrite Ha. cbn [length Nat.ltb Nat.leb].
  unfold udp_recv at 1. rewrite Hq. apply IH.
Qed.

(** The awaited answer ends the wait and leaves the stack as it was. *)
Lemma wait_loop_hit N up n xid ty f data ip opts rx s : available N → UDP_SOCKETS s !! CLIENT_PORT = Some [] →
  server_frame f data → parse_response data xid = Some (ip, opts) → msg_type_is opts ty = true →
  wait_loop N up (S n) xid ty (f :: rx) s = Returned (Some (data, ip), s, rx).
Proof.
  intros Ha Hq (d & m & id & src & dst & Hd & Hm & Hi & Hs & Ht & Hl & ->) Hr Hty. cbn [wait_loop].
  unfold poll_nic_once. unfold available in Ha. rewrite Ha. rewrite length_eth_build by done.
  rewrite (proj2 (Nat.ltb_lt _ _)) by lia. rewrite rx_udp_frame by (done || (split; done)).
  unfold udp_push. rewrite Hq. cbn [length Nat.ltb Nat.leb]. unfold udp_recv. cbn [UDP_SOCKETS set_udp].
  rewrite lookup_insert_eq. cbn [app]. rewrite Hr, Hty. do 2 f_equal. f_equal.
  unfold set_udp. cbn [ARP_CACHE UDP_SOCKETS TCP NET_CONFIG ID_COUNTER wire].
  rewrite insert_insert_eq, insert_id by done. by destruct s.
Qed.

Lemma wait_for_hit N up k xid ty f data ip opts rx s : available N → UDP_SOCKETS s !! CLIENT_PORT = Some [] →
  (k < Z.to_nat 8000)%nat → server_frame f data → parse_response data xid = Some (ip, opts) → msg_type_is opts ty = true →
  wait_for N up xid ty (replicate k [] ++ f :: rx) s = Returned (Some (data, ip), s, rx).
Proof.
  intros Ha Hq Hk Hf Hr Hty. unfold wait_for.
  replace (Z.to_nat 8000) with (k + S (Z.to_nat 8000 - k - 1))%nat by lia.
  rewrite wait_loop_idle by done. by eapply wait_loop_hit.
Qed.

Lemma udp_send_raw_wire N mac src dst dp sp data s : accepting N → mac_address N = Some mac →
  ∃ s', udp_send_raw N src dst dp sp data s = (Ok tt, s')
  ∧ sent s s' [eth_build BROADCAST_MAC mac ETHERTYPE_IPV4 (ipv4_build (ID_COUNTER s) src dst PROTO_UDP (udp_packet sp dp data))].
Proof.
  intros Hacc Hm. unfold udp_send_raw. rewrite Hm. pose proof (next_id_sent s) as H1. unfold next_id in *. cbn [snd] in H1.
  match goal with |- context [send_frame N ?f ?x] => pose proof (Hacc f x) as Ha; destruct (send_frame N f x) as [r s'] eqn:E end.
  simpl in Ha. subst r. apply send_frame_sent in E. exists s'. split; [done|]. exact (sent_trans _ _ _ _ _ H1 E).
Qed.

Lemma accepting_available N : accepting N → available N.
Proof.
  intros H. specialize (H [] (mkNet ∅ ∅ (mkT ∅ ∅ 1 0 0 0) default_config 0 [])). unfold available, send_frame in *.
  destruct (is_available (virtio_net N)); [done|]. by destruct (is_available (e1000 N)).
Qed.


(** A server's answer of type [ty] for the address [ip]. *)
Definition demo_reply (xid ty : Z) (ip : list Z) (os : list (Z * list Z)) : list Z :=
  [2; 1; 6; 0] ++ to_be_bytes 4 xid ++ replicate 8 0 ++ ip ++ replicate 216 0 ++ DHCP_MAGIC
    ++ encode_opts ((OPT_MSG_TYPE, [ty]) :: (OPT_SERVER_ID, [10; 0; 2; 2]) :: os).
Definition demo_frame (data : list Z) : list Z :=
  eth_build BROADCAST_MAC [2; 0; 0; 0; 0; 2] ETHERTYPE_IPV4
    (ipv4_build 9 [10; 0; 2; 2] BROADCAST_IP PROTO_UDP (udp_packet SERVER_PORT CLIENT_PORT data)).
Definition demo_offer : list Z := demo_reply (discover_xid 77) DHCPOFFER [10; 0; 2; 20] [].
Definition demo_ack : list Z := demo_reply (discover_xid 77) DHCPACK [10; 0; 2; 20] [(OPT_LEASE_TIME, [0; 0; 14; 16])].
Definition opts_of (data : list Z) : list Z := drop 240 data.

Lemma demo_frame_ok data : (length data ≤ 1000)%nat → server_frame (demo_frame data) data.
Proof.
  intros. exists BROADCAST_MAC, [2; 0; 0; 0; 0; 2], 9, [10; 0; 2; 2], BROADCAST_IP.
  split_and!; [done|done|split; lia| | |lia|done]; split; [done|repeat constructor; lia|done|repeat constructor; lia].
Qed.

