(* ===== verification/Dns.v ===== *)
(** The name resolver ([kernel/src/net/dns.rs]): queries, the response
    parser with compressed names, the cache and [resolve].

    [skip_name] is a loop over attacker-controlled pointers and need not end;
    it is modelled by its single turns ([skip_step]) and a fuelled loop, and
    [skip_name] itself gives the loop one turn more than the packet has bytes:
    [dns_skip_name_decides] shows that a loop still running then never ends.
    A call thus ends, panics (the frames that arrive while it waits go through
    the dispatcher of [NetStack]) or hangs.

    DNS over TLS is an argument: the answer of [resolve_dot_query], which the
    unmodelled TLS client gives.  Names are byte strings. *)

From Stdlib Require ListDec.
From S2P Require Import Prelude Bits Words TcpWire Tcp Ip NetStack.

Definition DNS_SERVER : list Z := [10; 0; 2; 3].
Definition DNS_PORT : Z := 53.
Definition DNS_LOCAL_PORT : Z := 10053.
Definition RECV_TIMEOUT_ITERS : nat := Z.to_nat 10000.
Definition QTYPE_A : Z := 1.
Definition QCLASS_IN : Z := 1.

Inductive call (A : Type) : Type :=
| Done (a : A)
| Panic
| Hang.
Arguments Done {A} a.
Arguments Panic {A}.
Arguments Hang {A}.

(** ** Names *)

(** [name.split('.')] *)
Fixpoint split_dot (bs : list Z) : list (list Z) :=
  match bs with
  | [] => [[]]
  | b :: bs' =>
      if b =? 46 then [] :: split_dot bs'
      else match split_dot bs' with
           | l :: ls => (b :: l) :: ls
           | [] => [[b]]
           end
  end.

(** [str::parse::<u8>] *)
Fixpoint parse_digits (acc : Z) (bs : list Z) : option Z :=
  match bs with
  | [] => Some acc
  | b :: bs' =>
      if (48 <=? b) && (b <=? 57) then
        let acc' := acc * 10 + (b - 48) in
        if acc' <=? 255 then parse_digits acc' bs' else None
      else None
  end.
Definition parse_u8 (bs : list Z) : option Z :=
  match bs with
  | [] => None
  | c :: rest =>
      if c =? 43 then match rest with [] => None | _ => parse_digits 0 rest end
      else parse_digits 0 bs
  end.

Definition parse_ipv4 (s : list Z) : option (list Z) :=
  match split_dot s with
  | pa :: parts =>
      a ← parse_u8 pa;
      match parts with
      | pb :: parts =>
          b ← parse_u8 pb;
          match parts with
          | pc :: parts =>
              c ← parse_u8 pc;
              match parts with
              | pd :: parts => d ← parse_u8 pd; match parts with [] => Some [a; b; c; d] | _ => None end
              | [] => None
              end
          | [] => None
          end
      | [] => None
      end
  | [] => None
  end.

(** ** Queries *)

Definition push_label (pkt label : list Z) : list Z :=
  let len := length label in
  if (0 <? len)%nat && (len <=? 63)%nat then pkt ++ [Z.of_nat len] ++ label else pkt.

Definition build_query (name : list Z) (tx_id : Z) : list Z :=
  let header := to_be_bytes 2 tx_id ++ to_be_bytes 2 0x0100 ++ to_be_bytes 2 1 ++ to_be_bytes 2 0 ++ to_be_bytes 2 0 ++ to_be_bytes 2 0 in
  fold_left push_label (split_dot name) header ++ [0x00] ++ to_be_bytes 2 QTYPE_A ++ to_be_bytes 2 QCLASS_IN.

(** ** Responses *)

(** One turn of the loop of [skip_name] at [pos]. *)
Inductive Step :=
| Fail
| Root (after : nat)
| Pointer (offset : nat)
| Label (next : nat).

Definition skip_step (data : list Z) (pos : nat) : Step :=
  if (length data <=? pos)%nat then Fail
  else
    let len := nth pos data 0 in
    if len =? 0 then Root (pos + 1)
    else if Z.land len 0xC0 =? 0xC0 then
      if (length data <=? pos + 1)%nat then Fail
      else Pointer (Z.to_nat (Z.lor (Z.shiftl (Z.land len 0x3F) 8) (nth (pos + 1) data 0)))
    else Label (pos + 1 + Z.to_nat len).

(** [None] when the fuel runs out. *)
Fixpoint skip_loop (fuel : nat) (data : list Z) (pos : nat) (jumped : bool) (end_pos : nat) : option (option nat) :=
  match fuel with
  | O => None
  | S fuel' =>
      match skip_step data pos with
      | Fail => Some None
      | Root p => Some (Some (if jumped then end_pos else p))
      | Pointer o => skip_loop fuel' data o true (if jumped then end_pos else pos + 2)
      | Label p => skip_loop fuel' data p jumped end_pos
      end
  end.
Definition skip_name (data : list Z) (pos : nat) : call (option nat) :=
  match skip_loop (S (length data)) data pos false 0 with
  | Some r => Done r
  | None => Hang
  end.

Fixpoint answer_loop (n : nat) (data : list Z) (pos : nat) : call (option (list Z * Z)) :=
  match n with
  | O => Done None
  | S n' =>
      if (length data <=? pos)%nat then Done None
      else match skip_name data pos with
      | Hang => Hang
      | Panic => Panic
      | Done None => Done None
      | Done (Some pos) =>
          if (length data <? pos + 10)%nat then Done None
          else
            let rtype := be_at data pos 2 in
            let ttl := be_at data (pos + 4) 4 in
            let rdlength := Z.to_nat (be_at data (pos + 8) 2) in
            let pos := (pos + 10)%nat in
            if (length data <? pos + rdlength)%nat then Done None
            else if (rtype =? QTYPE_A) && (rdlength =? 4)%nat then Done (Some (take 4 (drop pos data), ttl))
            else answer_loop n' data (pos + rdlength)
      end
  end.

Definition parse_response (data : list Z) : call (option (list Z * Z)) :=
  if (length data <? 12)%nat then Done None
  else
    let ancount := be_at data 4 2 in
    if ancount =? 0 then Done None
    else match skip_name data 12 with
    | Hang => Hang
    | Panic => Panic
    | Done None => Done None
    | Done (Some pos) =>
        let pos := (pos + 4)%nat in
        if (length data <? pos)%nat then Done None
        else answer_loop (Z.to_nat ancount) data pos
    end.

(** ** Cache *)

Notation Cache := (gmap (list Z) (list Z * Z)).

(** The order of [BTreeMap<String, _>]: bytes, lexicographically. *)
Fixpoint name_le (a b : list Z) : bool :=
  match a, b with
  | [], _ => true
  | _ :: _, [] => false
  | x :: a', y :: b' => (x <? y) || ((x =? y) && name_le a' b')
  end.
Definition cache_keys (c : Cache) : list (list Z) := merge_sort name_le (elements (dom c)).

(** The oldest entry, the first one in key order among equals. *)
Definition min_entry (c : Cache) : option (list Z) :=
  (fold_left (λ '(min_key, min_val) k,
     match c !! k with
     | Some (_, exp) => if exp <? min_val then (Some k, exp) else (min_key, min_val)
     | None => (min_key, min_val)
     end) (cache_keys c) (None, 2 ^ 64 - 1)).1.

Definition insert_cache (name ip : list Z) (expire now_ms : Z) (c : Cache) : Cache :=
  let c1 := filter (λ e, now_ms < e.2.2) c in
  let c2 := if (512 <=? size c1)%nat then
              match min_entry c1 with Some k => delete k c1 | None => c1 end
            else c1 in
  <[name := (ip, expire)]> c2.

Definition cache_lookup (name : list Z) (now_ms : Z) (c : Cache) : option (list Z) :=
  match c !! name with
  | Some (ip, expire) => if now_ms <? expire then Some ip else None
  | None => None
  end.

Definition cache_count (c : Cache) : nat := size c.
Definition clear_cache (c : Cache) : Cache := ∅.

(** ** Resolution *)

Definition expiry (now_ms ttl : Z) : Z := wrap 64 (now_ms + Z.max (ttl * 1000) 5000).

Section Resolver.
  Context (N : Nics) (up : Z).

(** The wait for the answer: each turn takes one datagram, then yields; the
    receive thread dispatches the frames of that yield. *)
Fixpoint await (n : nat) (server : list Z) (tx_id : Z) (yields : list (list (list Z))) (s : Net)
    : call (result string (list Z * Z) * Net) :=
  match n with
  | O => Done (Err "DNS resolve timeout"%string, s)
  | S n' =>
      let '(d, s1) := udp_recv DNS_LOCAL_PORT s in
      let continue :=
        match rx_all N up (hd [] yields) s1 with
        | Returned s2 => await n' server tx_id (tl yields) s2
        | Panicked => Panic
        end in
      match d with
      | Some (src, _, data) =>
          if bool_decide (src = server) && (12 <=? length data)%nat then
            if be_at data 0 2 =? tx_id then
              match parse_response data with
              | Done (Some r) => Done (Ok r, s1)
              | Done None => Done (Err "DNS parse failed"%string, s1)
              | Panic => Panic
              | Hang => Hang
              end
            else continue
          else continue
      | None => continue
      end
  end.

Definition resolve (dot : result string (list Z * Z)) (now_ms ticks : Z) (name : list Z)
    (yields : list (list (list Z))) (c : Cache) (s : Net) : call (result string (list Z) * Cache * Net) :=
  match parse_ipv4 name with
  | Some ip => Done (Ok ip, c, s)
  | None =>
      match cache_lookup name now_ms c with
      | Some ip => Done (Ok ip, c, s)
      | None =>
          match dot with
          | Ok (ip, ttl) => Done (Ok ip, insert_cache name ip (expiry now_ms ttl) now_ms c, s)
          | Err _ =>
              let tx_id := wrap 16 (Z.land ticks 0xFFFF) in
              let query := build_query name tx_id in
              let s1 := (udp_bind DNS_LOCAL_PORT s).2 in
              let cfg := NET_CONFIG s1 in
              let server := if dhcp_configured cfg && bool_decide (dns cfg ≠ [0; 0; 0; 0]) then dns cfg else DNS_SERVER in
              match udp_send N server DNS_PORT DNS_LOCAL_PORT query s1 with
              | (Err _, s2) => Done (Err "DNS send failed"%string, c, s2)
              | (Ok _, s2) =>
                  match await RECV_TIMEOUT_ITERS server tx_id yields s2 with
                  | Done (Ok (ip, ttl), s3) => Done (Ok ip, insert_cache name ip (expiry now_ms ttl) now_ms c, s3)
                  | Done (Err e, s3) => Done (Err e, c, s3)
                  | Panic => Panic
                  | Hang => Hang
                  end
              end
          end
      end
  end.
End Resolver.

(** ** Termination of the name scan *)

Definition skip_next (data : list Z) (pos : nat) : option nat :=
  match skip_step data pos with
  | Fail | Root _ => None
  | Pointer o => Some o
  | Label p => Some p
  end.
Fixpoint skip_iter (n : nat) (data : list Z) (pos : nat) : option nat :=
  match n with
  | O => Some pos
  | S n' => skip_next data pos ≫= skip_iter n' data
  end.

Lemma skip_loop_iter n data : ∀ pos j e, skip_loop n data pos j e = None ↔ is_Some (skip_iter n data pos).
Proof.
  induction n as [|n IH]; intros pos j e; cbn [skip_loop skip_iter]; [split; [eauto|done]|].
  unfold skip_next. destruct (skip_step data pos); cbn; [split; [done|by intros []]..|apply IH|apply IH].
Qed.

Lemma skip_iter_add a b data pos : skip_iter (a + b) data pos = skip_iter a data pos ≫= skip_iter b data.
Proof.
  revert pos. induction a as [|a IH]; intros pos; [done|]. cbn [Nat.add skip_iter].
  destruct (skip_next data pos); [apply IH|done].
Qed.

Lemma skip_iter_prefix a b data pos : (a ≤ b)%nat → is_Some (skip_iter b data pos) → is_Some (skip_iter a data pos).
Proof.
  intros Hab. replace b with (a + (b - a))%nat by lia. rewrite skip_iter_add. intros [x Hx].
  destruct (skip_iter a data pos); [eauto|done].
Qed.

Lemma skip_next_inside data pos p : skip_next data pos = Some p → (pos < length data)%nat.
Proof. unfold skip_next, skip_step. destruct (Nat.leb_spec (length data) pos); [done|]. intros. lia. Qed.

(** A scan longer than the packet has visited a position twice. *)
Lemma skip_iter_repeats data pos : is_Some (skip_iter (S (length data)) data pos) →
  ∃ i j x, (i < j ≤ length data)%nat ∧ skip_iter i data pos = Some x ∧ skip_iter j data pos = Some x.
Proof.
  intros H. set (L := length data) in *.
  assert (Hpos : ∀ i, (i ≤ L)%nat → ∃ x, skip_iter i data pos = Some x ∧ (x < L)%nat).
  { intros i Hi. destruct (skip_iter_prefix (i + 1) (S L) data pos ltac:(lia) H) as [y Hy]. rewrite skip_iter_add in Hy.
    destruct (skip_iter i data pos) as [x|]; [|done]. exists x. split; [done|]. cbn in Hy.
    destruct (skip_next data x) eqn:E; [|done]. by apply skip_next_inside in E. }
  set (visited := map (λ i, default O (skip_iter i data pos)) (seq 0 (S L))).
  assert (Hnd : ¬ NoDup visited).
  { intros Hnd. assert (Hsub : visited ⊆+ seq 0 L).
    { apply NoDup_submseteq; [done|]. intros x. rewrite list_elem_of_In. intros (i & <- & Hi)%in_map_iff.
      apply in_seq in Hi. destruct (Hpos i ltac:(lia)) as (x & -> & Hx). apply elem_of_seq. simpl. lia. }
    apply submseteq_length in Hsub. unfold visited in Hsub. rewrite length_map, !length_seq in Hsub. lia. }
  rewrite NoDup_ListNoDup in Hnd. apply (ListDec.not_NoDup (λ a b, Nat.eq_decidable a b)) in Hnd.
  destruct Hnd as (x & l1 & l2 & l3 & Hv). set (i := length l1). set (j := (length l1 + S (length l2))%nat).
  assert (Hlen : length visited = S L) by (unfold visited; by rewrite length_map, length_seq).
  rewrite Hv, !length_app in Hlen. cbn [length] in Hlen. rewrite length_app in Hlen. cbn [length] in Hlen.
  assert (Hat : ∀ k, (k ≤ L)%nat → visited !! k = Some x → skip_iter k data pos = Some x).
  { intros k Hk Hvk. destruct (Hpos k Hk) as (y & Hy & _). rewrite Hy. unfold visited in Hvk.
    rewrite list_lookup_fmap in Hvk. rewrite lookup_seq_lt in Hvk by lia. cbn in Hvk. rewrite Hy in Hvk. done. }
  exists i, j, x. split; [lia|]. split.
  - apply Hat; [lia|]. rewrite Hv. by apply list_lookup_middle.
  - apply Hat; [lia|]. rewrite Hv. unfold j. rewrite lookup_app_r by lia.
    replace (length l1 + S (length l2) - length l1)%nat with (S (length l2)) by lia. cbn. by apply list_lookup_middle.
Qed.

(** The scan of a name is decided by the packet's size: [skip_name]
    returns if and only if the loop of the source ends, and it then takes at
    most one turn more than the packet has bytes; a loop still running after
    that many turns has come back to a position it has been at, and runs for
    ever. *)
Theorem dns_skip_name_decides data pos :
  (skip_name data pos = Hang ↔ ∀ fuel, skip_loop fuel data pos false 0 = None)
  ∧ (∀ r, skip_name data pos = Done r ↔ ∃ fuel, skip_loop fuel data pos false 0 = Some r)
  ∧ skip_name data pos ≠ Panic.
Proof.
  assert (Hinf : skip_loop (S (length data)) data pos false 0 = None → ∀ fuel, skip_loop fuel data pos false 0 = None).
  { intros H%skip_loop_iter fuel. apply skip_loop_iter. destruct (skip_iter_repeats data pos H) as (i & j & x & Hij & Hi & Hj).
    induction (lt_wf fuel) as [n _ IH]. destruct (decide (n ≤ j)%nat) as [Hle|Hgt].
    { eapply skip_iter_prefix; [exact Hle|]. by rewrite Hj. }
    specialize (IH (n - (j - i))%nat ltac:(lia)). replace (n - (j - i))%nat with (i + (n - j))%nat in IH by lia.
    replace n with (j + (n - j))%nat by lia. rewrite skip_iter_add in IH |- *. rewrite Hi in IH. by rewrite Hj. }
  assert (Hmono : ∀ f r n, skip_loop f data pos false 0 = Some r → skip_loop (f + n) data pos false 0 = Some r).
  { intros f. generalize pos, false, O. clear. induction f as [|f IH]; intros pos j e r n; [done|]. cbn [Nat.add skip_loop].
    destruct (skip_step data pos); auto. }
  unfold skip_name. destruct (skip_loop (S (length data)) data pos false 0) as [r0|] eqn:E.
  - split_and!; [split; [done|]| |done].
    + intros H. rewrite H in E. done.
    + intros r. split; [intros [= <-]; eauto|]. intros [f Hf].
      apply (Hmono _ _ (S (length data))) in Hf. apply (Hmono _ _ f) in E. rewrite Nat.add_comm in E. congruence.
  - split_and!; [split; [by intros _; apply Hinf|done]| |done]. intros r. split; [done|]. intros [f Hf]. by rewrite Hinf in Hf.
Qed.

(** A packet whose name points at itself: the resolver never comes back. *)
Definition loop_packet : list Z := [0; 0; 0; 0; 0; 1; 0; 1; 0; 0; 0; 0; 0xC0; 12].
Lemma self_pointer_hangs : ∀ fuel, skip_loop fuel loop_packet 12 false 0 = None.
Proof.
  assert (H : ∀ fuel j e, skip_loop fuel loop_packet 12 j e = None) by (induction fuel; intros; [done|apply IHfuel]).
  intros. apply H.
Qed.
Lemma response_hangs : parse_response loop_packet = Hang.
Proof. vm_compute. reflexivity. Qed.

(** ** Well-formed responses *)

Definition label_ok (l : list Z) : Prop := (0 < length l ≤ 63)%nat.
Definition enc_name (ls : list (list Z)) : list Z := (ls ≫= λ l, Z.of_nat (length l) :: l) ++ [0].

Lemma small_label n : (0 < n ≤ 63)%nat → (Z.land (Z.of_nat n) 0xC0 =? 0xC0) = false.
Proof.
  intros Hn. pose proof (forall_byte (λ b, (63 <? b) || negb (Z.land b 0xC0 =? 0xC0)) eq_refl (Z.of_nat n) ltac:(split; lia)) as H.
  simpl in H. rewrite (proj2 (Z.ltb_ge 63 (Z.of_nat n))) in H by lia. simpl in H. by apply negb_true_iff in H.
Qed.

(** Labels are scanned one per turn. *)
Lemma skip_labels ls : Forall label_ok ls → ∀ pre post fuel j e, (length ls < fuel)%nat →
  skip_loop fuel (pre ++ enc_name ls ++ post) (length pre) j e
  = Some (Some (if j then e else length pre + length (enc_name ls))%nat).
Proof.
  unfold enc_name. induction ls as [|l ls IH]; intros Hls pre post fuel j e Hf; (destruct fuel as [|fuel]; [lia|]).
  - cbn [mbind list_bind app skip_loop]. unfold skip_step. rewrite length_app, (proj2 (Nat.leb_gt _ _)) by (cbn; lia).
    rewrite app_nth2, Nat.sub_diag by lia. done.
  - apply Forall_cons in Hls as [Hl Hls]. cbn [length] in Hf. cbn [mbind list_bind app skip_loop]. unfold label_ok in Hl.
    unfold skip_step at 1. rewrite length_app, (proj2 (Nat.leb_gt _ _)) by (cbn; lia).
    rewrite app_nth2, Nat.sub_diag by lia. cbn [nth]. rewrite (proj2 (Z.eqb_neq _ _)), small_label by lia. cbv iota.
    rewrite Nat2Z.id. specialize (IH Hls (pre ++ Z.of_nat (length l) :: l) post fuel j e ltac:(lia)).
    rewrite length_app in IH. cbn [length] in IH.
    replace (length pre + S (length l))%nat with (length pre + 1 + length l)%nat in IH by lia.
    rewrite <- !app_assoc in IH |- *. cbn [app] in IH |- *. rewrite IH. do 2 f_equal. destruct j; [done|].
    cbn [length]. rewrite !length_app. unfold mbind. lia.
Qed.

Lemma length_labels ls : Forall label_ok ls → (length ls < length (enc_name ls))%nat.
Proof.
  unfold enc_name. rewrite length_app. cbn [length]. induction ls as [|l ls IH]; intros H; [simpl; lia|].
  apply Forall_cons in H as [Hl H]. cbn [mbind list_bind app length]. rewrite length_app. specialize (IH H). cbn [mbind list_bind] in IH. lia.
Qed.

Lemma skip_name_labels ls pre post : Forall label_ok ls →
  skip_name (pre ++ enc_name ls ++ post) (length pre) = Done (Some (length pre + length (enc_name ls))%nat).
Proof.
  intros H. unfold skip_name. rewrite skip_labels; [done|done|].
  pose proof (length_labels ls H). rewrite !length_app. lia.
Qed.

(** The owner of a record: spelt out, or a pointer to the question's name. *)
Inductive owner : list Z → Prop :=
| owner_labels ls : Forall label_ok ls → owner (enc_name ls)
| owner_question : owner [0xC0; 12].

Lemma skip_owner hdr q mid nm post : Forall label_ok q → length hdr = 12%nat → owner nm →
  skip_name (hdr ++ enc_name q ++ mid ++ nm ++ post) (length (hdr ++ enc_name q ++ mid))
  = Done (Some (length (hdr ++ enc_name q ++ mid) + length nm)%nat).
Proof.
  intros Hq Hh [ls Hls|].
  - rewrite !app_assoc. rewrite <- (app_assoc _ (enc_name ls) post). by apply skip_name_labels.
  - unfold skip_name. set (pre := hdr ++ enc_name q ++ mid).
    assert (Hd : hdr ++ enc_name q ++ mid ++ [192; 12] ++ post = pre ++ [192; 12] ++ post) by (unfold pre; by rewrite <- !app_assoc).
    assert (H0 : nth (length pre) (pre ++ [192; 12] ++ post) 0 = 192) by (by rewrite app_nth2, Nat.sub_diag by lia).
    assert (H1 : nth (length pre + 1) (pre ++ [192; 12] ++ post) 0 = 12)
      by (rewrite app_nth2 by lia; by replace (length pre + 1 - length pre)%nat with 1%nat by lia).
    assert (Hlen : length (pre ++ [192; 12] ++ post) = (length pre + 2 + length post)%nat)
      by (rewrite !length_app; cbn [length]; lia).
    rewrite Hd. cbn [skip_loop]. unfold skip_step at 1. rewrite H0, H1, Hlen, (proj2 (Nat.leb_gt _ _)) by lia.
    change (192 =? 0) with false. change (Z.land 192 192 =? 192) with true. cbv iota.
    rewrite (proj2 (Nat.leb_gt _ _)) by lia. change (Z.to_nat (Z.lor (Z.shiftl (Z.land 192 63) 8) 12)) with 12%nat.
    rewrite <- Hh at 1. unfold pre. rewrite <- !app_assoc. rewrite skip_labels; [done|done|].
    pose proof (length_labels q Hq). rewrite !length_app. lia.
Qed.

(** A resource record after its owner name. *)
Definition rr (ty cls ttl : Z) (rd : list Z) : list Z :=
  to_be_bytes 2 ty ++ to_be_bytes 2 cls ++ to_be_bytes 4 ttl ++ to_be_bytes 2 (Z.of_nat (length rd)) ++ rd.
Definition response_header (id flags an ns ar : Z) : list Z :=
  to_be_bytes 2 id ++ to_be_bytes 2 flags ++ to_be_bytes 2 1 ++ to_be_bytes 2 an ++ to_be_bytes 2 ns ++ to_be_bytes 2 ar.

Lemma be_at_drop pre data i n : be_at (pre ++ data) (length pre + i) n = be_at data i n.
Proof. unfold be_at. by rewrite drop_app_add'. Qed.

Lemma rr_fields ty cls ttl rd post : uN 16 ty → uN 32 ttl → (length rd ≤ Z.to_nat 65535)%nat →
  let r := rr ty cls ttl rd ++ post in
  be_at r 0 2 = ty ∧ be_at r 4 4 = ttl ∧ be_at r 8 2 = Z.of_nat (length rd) ∧ drop 10 r = rd ++ post.
Proof.
  intros Hty Httl Hl. unfold rr, be_at. cbv zeta.
  set (n := Z.of_nat (length rd)).
  assert (HA : from_be_bytes (to_be_bytes 2 ty) = ty) by (by apply from_to_be_bytes).
  assert (HB : from_be_bytes (to_be_bytes 4 ttl) = ttl) by (by apply from_to_be_bytes).
  assert (HN : from_be_bytes (to_be_bytes 2 n) = n) by (apply from_to_be_bytes; split; lia).
  assert (LA : length (to_be_bytes 2 ty) = 2%nat) by apply length_to_be_bytes.
  assert (LC : length (to_be_bytes 2 cls) = 2%nat) by apply length_to_be_bytes.
  assert (LB : length (to_be_bytes 4 ttl) = 4%nat) by apply length_to_be_bytes.
  assert (LN : length (to_be_bytes 2 n) = 2%nat) by apply length_to_be_bytes.
  set (A := to_be_bytes 2 ty) in *. set (C := to_be_bytes 2 cls) in *. set (B := to_be_bytes 4 ttl) in *. set (L := to_be_bytes 2 n) in *.
  clearbody A C B L. destruct A as [|a0 [|a1 [|]]]; try done. destruct C as [|c0 [|c1 [|]]]; try done.
  destruct B as [|b0 [|b1 [|b2 [|b3 [|]]]]]; try done. destruct L as [|l0 [|l1 [|]]]; try done.
Qed.

(** The response parser on well-formed answers: with one question, the
    result is the address and time to live of the first record when that is
    an A record, whether its owner is spelt out or a pointer to the question;
    otherwise there is no result, whatever records follow and however many the
    header announces. *)
Theorem dns_first_record id flags an ns ar q qtail nm ty cls ttl rd post :
  Forall label_ok q → length qtail = 4%nat → owner nm → uN 16 ty → uN 32 ttl → (length rd ≤ Z.to_nat 65535)%nat →
  parse_response (response_header id flags an ns ar ++ enc_name q ++ qtail ++ nm ++ rr ty cls ttl rd ++ post)
  = Done (if (ty =? 1) && (length rd =? 4)%nat then Some (rd, ttl) else None).
Proof.
  intros Hq Hqt Hnm Hty Httl Hl. set (hdr := response_header id flags an ns ar).
  assert (Hh : length hdr = 12%nat) by (unfold hdr, response_header; by rewrite !length_app, !length_to_be_bytes).
  assert (Hcount : ∀ x, be_at (hdr ++ x) 4 2 = 1).
  { intros x. unfold hdr, response_header, be_at.
    assert (L1 : length (to_be_bytes 2 id) = 2%nat) by apply length_to_be_bytes.
    assert (L2 : length (to_be_bytes 2 flags) = 2%nat) by apply length_to_be_bytes.
    by destruct (to_be_bytes 2 id) as [|i0 [|i1 [|]]]. }
  set (tail := nm ++ rr ty cls ttl rd ++ post). set (pre := hdr ++ enc_name q ++ qtail).
  assert (Hpre : (12 + length (enc_name q) + 4)%nat = length pre) by (unfold pre; rewrite !length_app, Hh, Hqt; lia).
  assert (Hdata : hdr ++ enc_name q ++ qtail ++ tail = pre ++ tail) by (unfold pre; by rewrite <- !app_assoc).
  assert (Hlr : length (rr ty cls ttl rd) = (10 + length rd)%nat)
    by (unfold rr; rewrite !length_app, !length_to_be_bytes; lia).
  assert (Hlen : length (hdr ++ enc_name q ++ qtail ++ tail) = (length pre + length nm + 10 + length rd + length post)%nat).
  { rewrite Hdata. unfold tail. rewrite !length_app, Hlr. lia. }
  assert (Hn : (0 < length nm)%nat) by (destruct Hnm as [ls Hls|]; [pose proof (length_labels ls Hls); lia|simpl; lia]).
  unfold parse_response. rewrite Hcount, Hlen, (proj2 (Nat.ltb_ge _ _)) by lia. change (1 =? 0) with false. cbv iota.
  rewrite <- Hh at 1. rewrite skip_name_labels by done. rewrite Hh, Hpre.
  rewrite (proj2 (Nat.ltb_ge _ _)) by lia. change (Z.to_nat 1) with 1%nat. cbn [answer_loop].
  rewrite Hlen, (proj2 (Nat.leb_gt _ _)) by lia.
  unfold tail at 1. unfold pre at 1. rewrite skip_owner by done. fold pre.
  rewrite (proj2 (Nat.ltb_ge _ _)) by lia.
  destruct (rr_fields ty cls ttl rd post Hty Httl Hl) as (F0 & F4 & F8 & F10).
  assert (Hat : ∀ i n, be_at (hdr ++ enc_name q ++ qtail ++ tail) (length pre + length nm + i) n = be_at (rr ty cls ttl rd ++ post) i n).
  { intros i n. rewrite Hdata, <- Nat.add_assoc, be_at_drop. unfold tail. by rewrite be_at_drop. }
  assert (Hdrop : drop (length pre + length nm + 10) (hdr ++ enc_name q ++ qtail ++ tail) = rd ++ post).
  { rewrite Hdata, <- Nat.add_assoc. unfold tail. rewrite drop_app_add', drop_app_add' by done. exact F10. }
  pose proof (Hat O 2%nat) as Hat0. rewrite Nat.add_0_r in Hat0. rewrite Hat0, !Hat, F0, F4, F8, Nat2Z.id.
  rewrite (proj2 (Nat.ltb_ge _ _)) by lia. unfold QTYPE_A. rewrite Hdrop.
  destruct ((ty =? 1) && (length rd =? 4)%nat) eqn:Ha; [|done].
  apply andb_true_iff in Ha as [_ H4%Nat.eqb_eq]. by rewrite take_app_le, take_ge by lia.
Qed.

Lemma dns_first_record_witness :
  parse_response (response_header 7 0x8180 1 0 0 ++ enc_name [[97; 98]; [99]] ++ [0; 1; 0; 1] ++ [0xC0; 12]
    ++ rr 1 1 300 [93; 184; 216; 34] ++ []) = Done (if (1 =? 1) && (4 =? 4)%nat then Some ([93; 184; 216; 34], 300) else None).
Proof.
  apply (dns_first_record 7 0x8180 1 0 0 [[97; 98]; [99]] [0; 1; 0; 1] [0xC0; 12] 1 1 300 [93; 184; 216; 34] []);
    [|reflexivity|constructor|split; lia|split; lia|cbn [length]; lia].
  repeat constructor; cbn [length]; lia.
Defined.

(** The number of answers is taken from the question count: an alias record
    (CNAME, type 5) followed by the address is refused. *)
Example cname_answer_refused :
  parse_response (response_header 7 0x8180 2 0 0 ++ enc_name [[97]] ++ [0; 1; 0; 1] ++ [0xC0; 12] ++ rr 5 1 300 (enc_name [[98]])
    ++ enc_name [[98]] ++ rr 1 1 300 [93; 184; 216; 34]) = Done None.
Proof. vm_compute. reflexivity. Qed.

(** ** Queries *)

(** The question names the labels of the right size only. *)
Definition sized (l : list Z) : bool := (0 <? length l)%nat && (length l <=? 63)%nat.
Lemma build_query_labels name tx :
  build_query name tx = (to_be_bytes 2 tx ++ [1; 0; 0; 1; 0; 0; 0; 0; 0; 0])
    ++ enc_name (List.filter sized (split_dot name)) ++ [0; 1; 0; 1]
  ∧ Forall label_ok (List.filter sized (split_dot name)).
Proof.
  assert (H : ∀ ls pkt, fold_left push_label ls pkt = pkt ++ (List.filter sized ls ≫= λ l, Z.of_nat (length l) :: l)).
  { induction ls as [|l ls IH]; intros pkt; [by rewrite app_nil_r|]. cbn [fold_left List.filter]. rewrite IH.
    unfold push_label. fold (sized l). destruct (sized l); [|done]. by rewrite <- app_assoc. }
  split.
  - unfold build_query, enc_name. rewrite H, <- !app_assoc. done.
  - apply Forall_forall. intros l Hl. apply list_elem_of_In, filter_In in Hl as [_ Hs]. unfold sized in Hs. unfold label_ok.
    apply andb_true_iff in Hs as [?%Nat.ltb_lt ?%Nat.leb_le]. lia.
Qed.

(** A label of 64 bytes is left out: another name is asked for. *)
Example long_label_dropped tx :
  build_query ([97; 46] ++ replicate 64 120 ++ [46; 98]) tx = build_query [97; 46; 98] tx.
Proof. reflexivity. Qed.

(** ** The cache *)

Record cache_ok (c : Cache) : Prop := {
  co_size : (size c ≤ 512)%nat;
  co_exp : map_Forall (λ _ e, e.2 < 2 ^ 64 - 1) c;
}.

Lemma cache_keys_dom c k : k ∈ cache_keys c ↔ is_Some (c !! k).
Proof. unfold cache_keys. by rewrite merge_sort_Permutation, elem_of_elements, elem_of_dom. Qed.

(** Some entry is found, and it is one of the oldest. *)
Lemma min_entry_oldest c : c ≠ ∅ → map_Forall (λ _ e, e.2 < 2 ^ 64 - 1) c →
  ∃ k e, min_entry c = Some k ∧ c !! k = Some e ∧ ∀ k' e', c !! k' = Some e' → e.2 ≤ e'.2.
Proof.
  intros Hne Hexp. unfold min_entry.
  set (f := λ '((min_key, min_val) : option (list Z) * Z) (k : list Z),
     match c !! k with
     | Some (_, exp) => if exp <? min_val then (Some k, exp) else (min_key, min_val)
     | None => (min_key, min_val)
     end).
  assert (H : ∀ ks acc, (∀ k, k ∈ ks → is_Some (c !! k)) →
    (acc.1 = None ∧ acc.2 = 2 ^ 64 - 1 ∨ ∃ k e, acc.1 = Some k ∧ c !! k = Some e ∧ e.2 = acc.2) →
    let r := fold_left f ks acc in
    (r.1 = None ∧ r.2 = 2 ^ 64 - 1 ∨ ∃ k e, r.1 = Some k ∧ c !! k = Some e ∧ e.2 = r.2)
    ∧ r.2 ≤ acc.2 ∧ (∀ k e, k ∈ ks → c !! k = Some e → r.2 ≤ e.2)).
  { induction ks as [|k ks IH]; intros [mk mv] Hks Hacc.
    { simpl in *. split_and!; [done|lia|]. intros k e Hk. by apply not_elem_of_nil in Hk. }
    cbn [fold_left]. destruct (Hks k ltac:(left)) as [[ip exp] Hk]. cbn [f]. rewrite Hk.
    destruct (Z.ltb_spec exp mv) as [Hlt|Hge].
    - destruct (IH (Some k, exp)) as (I1 & I2 & I3); [intros; apply Hks; by right|right; exists k, (ip, exp); done|].
      split_and!; [done|cbn [snd] in *; lia|]. intros k' e' [->|Hin]%elem_of_cons He'; [|by apply (I3 k')].
      rewrite Hk in He'. injection He' as <-. done.
    - destruct (IH (mk, mv)) as (I1 & I2 & I3); [intros; apply Hks; by right|done|].
      split_and!; [done|done|]. intros k' e' [->|Hin]%elem_of_cons He'; [|by apply (I3 k')].
      rewrite Hk in He'. injection He' as <-. cbn [snd] in *. lia. }
  destruct (H (cache_keys c) (None, 2 ^ 64 - 1)) as (H1 & H2 & H3); [intros k; apply cache_keys_dom|by left|].
  cbv zeta in *. destruct H1 as [[_ Hv]|(k & e & Hk & Hce & Hv)].
  - exfalso. apply map_choose in Hne as (k & e & Hke). assert (Hin : k ∈ cache_keys c) by (apply cache_keys_dom; eauto).
    specialize (H3 k e Hin Hke). rewrite Hv in H3. pose proof (Hexp k e Hke) as Hlt. simpl in Hlt. lia.
  - exists k, e. split_and!; [done|done|]. intros k' e' Hk'. rewrite Hv. apply (H3 k'); [|done]. apply cache_keys_dom. eauto.
Qed.

(** The cache stays bounded and only forgets: inserting keeps at most 512
    entries, makes the new name resolve to its address until it expires, and
    every other name either resolves as before or not at all; when an
    unexpired entry has to go, it is one that expires first. *)
Theorem dns_cache_insert name ip expire now c :
  cache_ok c → expire < 2 ^ 64 - 1 →
  let c' := insert_cache name ip expire now c in
  cache_ok c' ∧ (∀ t, cache_lookup name t c' = if t <? expire then Some ip else None)
  ∧ ∀ other, other ≠ name →
      c' !! other = c !! other
      ∨ (c' !! other = None ∧ ∀ e, c !! other = Some e → e.2 ≤ now
           ∨ ∀ k e', c' !! k = Some e' → k ≠ name → e.2 ≤ e'.2).
Proof.
  intros [Hs He] Hexp. unfold insert_cache. cbv zeta. set (c1 := filter _ c).
  assert (Hsub : c1 ⊆ c) by apply map_filter_subseteq.
  assert (S1 : (size c1 ≤ 512)%nat) by (pose proof (map_subseteq_size c1 c Hsub); lia).
  assert (E1 : map_Forall (λ _ e, e.2 < 2 ^ 64 - 1) c1).
  { intros k e Hk. apply (He k). by apply (lookup_weaken c1 c). }
  assert (H1 : ∀ k, c1 !! k = c !! k ∨ (c1 !! k = None ∧ ∀ e, c !! k = Some e → e.2 ≤ now)).
  { intros k. destruct (c1 !! k) as [e|] eqn:Hk; [left; symmetry; by apply (lookup_weaken c1 c)|]. right. split; [done|].
    intros e Hke. destruct (decide (e.2 ≤ now)); [done|]. exfalso.
    destruct (map_lookup_filter_None_1 _ _ _ Hk) as [E|Hn]; [congruence|]. specialize (Hn e Hke). simpl in Hn. lia. }
  set (c2 := if (512 <=? size c1)%nat then _ else c1).
  assert (H2 : (size c2 < 512)%nat ∧ c2 ⊆ c1 ∧ ∀ k, c2 !! k = c1 !! k ∨ (c2 !! k = None ∧ ∀ e, c1 !! k = Some e → ∀ k' e', c2 !! k' = Some e' → e.2 ≤ e'.2)).
  { subst c2. destruct (Nat.leb_spec 512 (size c1)) as [Hge|Hlt]; [|split_and!; [lia|done|by left]].
    destruct (min_entry_oldest c1) as (k & e & -> & Hk & Hmin); [intros E; rewrite E, map_size_empty in Hge; lia|done|].
    split_and!.
    - rewrite map_size_delete, Hk. lia.
    - apply delete_subseteq.
    - intros k0. destruct (decide (k0 = k)) as [->|Hne]; [right|left; by apply lookup_delete_ne].
      split; [by apply lookup_delete_eq|]. intros e0 He0 k' e' Hk'. rewrite Hk in He0. injection He0 as <-.
      apply (Hmin k'). by apply lookup_delete_Some in Hk' as [_ ?]. }
  destruct H2 as (S2 & Sub2 & H2). split_and!.
  - split.
    + rewrite map_size_insert. destruct (c2 !! name); unfold id; lia.
    + apply map_Forall_insert_2; [done|]. intros k e Hk. apply (E1 k). by apply (lookup_weaken c2 c1).
  - intros t. unfold cache_lookup. by rewrite lookup_insert_eq.
  - intros other Hne. rewrite lookup_insert_ne by done. destruct (H2 other) as [Eq|[En Ho]].
    + rewrite Eq. destruct (H1 other) as [|[? Hold]]; [by left|]. right. split; [done|]. intros e Hoe. left. by apply Hold.
    + destruct (H1 other) as [E|[? Hold]].
      * right. split; [done|]. intros e Hoe. right. intros k e' Hk Hkn. rewrite lookup_insert_ne in Hk by done.
        apply (Ho e) with k; [by rewrite E|done].
      * right. split; [done|]. intros e Hoe. left. by apply Hold.
Qed.

Lemma dns_cache_insert_witness :
  let c' := insert_cache [97] [1; 2; 3; 4] 9000 1000 ∅ in
  cache_ok c' ∧ (∀ t, cache_lookup [97] t c' = if t <? 9000 then Some [1; 2; 3; 4] else None)
  ∧ ∀ other, other ≠ [97] →
      c' !! other = (∅ : Cache) !! other
      ∨ (c' !! other = None ∧ ∀ e, (∅ : Cache) !! other = Some e → e.2 ≤ 1000
           ∨ ∀ k e', c' !! k = Some e' → k ≠ [97] → e.2 ≤ e'.2).
Proof.
  apply (dns_cache_insert [97] [1; 2; 3; 4] 9000 1000 ∅); [|lia].
  split; [rewrite map_size_empty; lia|apply map_Forall_empty].
Defined.
