(* ===== verification/Sha2.v ===== *)
(** SHA-256, SHA-384 and SHA-512 ([crypto/sha2.rs]).

    The two hashers of the source are the same program at two word sizes: a
    [Hasher] is [Sha256] or [Sha512] ([state], [buf], [len], [idx]) and the
    operations take an [Algo], the constants and widths that tell them apart.
    [compress] follows the loops of the source on a message schedule and eight
    working registers; [update] writes byte by byte into the buffer and
    compresses when it is full; [finalize] pads in place.

    The theorems: the streaming hasher fed with any sequence of pieces computes
    the reference function that pads the whole message and folds [compress]
    over its blocks; the digest length; and the published test vectors. *)

From S2P Require Import Prelude Bits Words.

(** ** Data *)

(** The eight chaining words, and the registers [a]..[h] of a round. *)
Record Regs := mkRegs { ra : Z; rb : Z; rc : Z; rd : Z; re : Z; rf : Z; rg : Z; rh : Z }.

Record Algo := mkAlgo {
  word_bytes : nat;            (* 4 or 8 *)
  len_bytes : nat;             (* width of the length field *)
  K_table : list Z;            (* one constant per round *)
  sig0 : Z * Z * Z;            (* schedule: two rotations, one shift *)
  sig1 : Z * Z * Z;
  Sig0 : Z * Z * Z;            (* round: three rotations *)
  Sig1 : Z * Z * Z;
}.

Definition word_bits (A : Algo) : Z := 8 * Z.of_nat (word_bytes A).
Definition block_bytes (A : Algo) : nat := (16 * word_bytes A)%nat.

Record Hasher := mkHasher {
  state : Regs;
  buf : list Z;
  len : Z;
  idx : nat;
}.

(** ** Constants *)

(** The rows of [K256], four 32-bit words each, most significant first. *)
Definition row_words (row : Z) : list Z :=
  map (λ i, wrap 32 (Z.shiftr row (32 * (3 - i)))) [0; 1; 2; 3].
Definition K256 : list Z := Eval vm_compute in concat (map row_words
  [0x428a2f9871374491b5c0fbcfe9b5dba5;
   0x3956c25b59f111f1923f82a4ab1c5ed5;
   0xd807aa9812835b01243185be550c7dc3;
   0x72be5d7480deb1fe9bdc06a7c19bf174;
   0xe49b69c1efbe47860fc19dc6240ca1cc;
   0x2de92c6f4a7484aa5cb0a9dc76f988da;
   0x983e5152a831c66db00327c8bf597fc7;
   0xc6e00bf3d5a7914706ca635114292967;
   0x27b70a852e1b21384d2c6dfc53380d13;
   0x650a7354766a0abb81c2c92e92722c85;
   0xa2bfe8a1a81a664bc24b8b70c76c51a3;
   0xd192e819d6990624f40e3585106aa070;
   0x19a4c1161e376c082748774c34b0bcb5;
   0x391c0cb34ed8aa4a5b9cca4f682e6ff3;
   0x748f82ee78a5636f84c878148cc70208;
   0x90befffaa4506cebbef9a3f7c67178f2]).

Definition H256_INIT : Regs :=
  mkRegs 0x6a09e667 0xbb67ae85 0x3c6ef372 0xa54ff53a
         0x510e527f 0x9b05688c 0x1f83d9ab 0x5be0cd19.

Definition K512 : list Z :=
  [0x428a2f98d728ae22; 0x7137449123ef65cd; 0xb5c0fbcfec4d3b2f; 0xe9b5dba58189dbbc;
   0x3956c25bf348b538; 0x59f111f1b605d019; 0x923f82a4af194f9b; 0xab1c5ed5da6d8118;
   0xd807aa98a3030242; 0x12835b0145706fbe; 0x243185be4ee4b28c; 0x550c7dc3d5ffb4e2;
   0x72be5d74f27b896f; 0x80deb1fe3b1696b1; 0x9bdc06a725c71235; 0xc19bf174cf692694;
   0xe49b69c19ef14ad2; 0xefbe4786384f25e3; 0x0fc19dc68b8cd5b5; 0x240ca1cc77ac9c65;
   0x2de92c6f592b0275; 0x4a7484aa6ea6e483; 0x5cb0a9dcbd41fbd4; 0x76f988da831153b5;
   0x983e5152ee66dfab; 0xa831c66d2db43210; 0xb00327c898fb213f; 0xbf597fc7beef0ee4;
   0xc6e00bf33da88fc2; 0xd5a79147930aa725; 0x06ca6351e003826f; 0x142929670a0e6e70;
   0x27b70a8546d22ffc; 0x2e1b21385c26c926; 0x4d2c6dfc5ac42aed; 0x53380d139d95b3df;
   0x650a73548baf63de; 0x766a0abb3c77b2a8; 0x81c2c92e47edaee6; 0x92722c851482353b;
   0xa2bfe8a14cf10364; 0xa81a664bbc423001; 0xc24b8b70d0f89791; 0xc76c51a30654be30;
   0xd192e819d6ef5218; 0xd69906245565a910; 0xf40e35855771202a; 0x106aa07032bbd1b8;
   0x19a4c116b8d2d0c8; 0x1e376c085141ab53; 0x2748774cdf8eeb99; 0x34b0bcb5e19b48a8;
   0x391c0cb3c5c95a63; 0x4ed8aa4ae3418acb; 0x5b9cca4f7763e373; 0x682e6ff3d6b2b8a3;
   0x748f82ee5defb2fc; 0x78a5636f43172f60; 0x84c87814a1f0ab72; 0x8cc702081a6439ec;
   0x90befffa23631e28; 0xa4506cebde82bde9; 0xbef9a3f7b2c67915; 0xc67178f2e372532b;
   0xca273eceea26619c; 0xd186b8c721c0c207; 0xeada7dd6cde0eb1e; 0xf57d4f7fee6ed178;
   0x06f067aa72176fba; 0x0a637dc5a2c898a6; 0x113f9804bef90dae; 0x1b710b35131c471b;
   0x28db77f523047d84; 0x32caab7b40c72493; 0x3c9ebe0a15c9bebc; 0x431d67c49c100d4c;
   0x4cc5d4becb3e42b6; 0x597f299cfc657e2a; 0x5fcb6fab3ad6faec; 0x6c44198c4a475817].

Definition H512_INIT : Regs :=
  mkRegs 0x6a09e667f3bcc908 0xbb67ae8584caa73b
         0x3c6ef372fe94f82b 0xa54ff53a5f1d36f1
         0x510e527fade682d1 0x9b05688c2b3e6c1f
         0x1f83d9abfb41bd6b 0x5be0cd19137e2179.

Definition H384_INIT : Regs :=
  mkRegs 0xcbbb9d5dc1059ed8 0x629a292a367cd507
         0x9159015a3070dd17 0x152fecd8f70e5939
         0x67332667ffc00b31 0x8eb44a8768581511
         0xdb0c2e0d64f98fa7 0x47b5481dbefa4fa4.

Definition SHA256 : Algo :=
  mkAlgo 4 8 K256 (7, 18, 3) (17, 19, 10) (2, 13, 22) (6, 11, 25).
Definition SHA512 : Algo :=
  mkAlgo 8 16 K512 (1, 8, 7) (19, 61, 6) (28, 34, 39) (14, 18, 41).

Section Hashing.
  Context (A : Algo).
  Notation W := (word_bits A).

(** ** The compression function *)

Definition rot2shr (r : Z * Z * Z) (x : Z) : Z :=
  let '(p, q, s) := r in Z.lxor (Z.lxor (rotr W p x) (rotr W q x)) (Z.shiftr x s).
Definition rot3 (r : Z * Z * Z) (x : Z) : Z :=
  let '(p, q, s) := r in Z.lxor (Z.lxor (rotr W p x) (rotr W q x)) (rotr W s x).

(** [for i in 16.. { w[i] = .. }]: the array is grown by one word per turn. *)
Fixpoint schedule (n : nat) (w : list Z) : list Z :=
  match n with
  | O => w
  | S n' =>
      let i := length w in
      let s0 := rot2shr (sig0 A) (nth (i - 15) w 0) in
      let s1 := rot2shr (sig1 A) (nth (i - 2) w 0) in
      schedule n' (w ++ [wadd W (wadd W (wadd W (nth (i - 16) w 0) s0) (nth (i - 7) w 0)) s1])
  end.

Definition round (r : Regs) (kw : Z * Z) : Regs :=
  let (k, w) := kw in
  let s1 := rot3 (Sig1 A) (re r) in
  let ch := Z.lxor (Z.land (re r) (rf r)) (Z.land (wnot W (re r)) (rg r)) in
  let t1 := wadd W (wadd W (wadd W (wadd W (rh r) s1) ch) k) w in
  let s0 := rot3 (Sig0 A) (ra r) in
  let maj := Z.lxor (Z.lxor (Z.land (ra r) (rb r)) (Z.land (ra r) (rc r))) (Z.land (rb r) (rc r)) in
  let t2 := wadd W s0 maj in
  mkRegs (wadd W t1 t2) (ra r) (rb r) (rc r) (wadd W (rd r) t1) (re r) (rf r) (rg r).

Definition add_regs (s r : Regs) : Regs :=
  mkRegs (wadd W (ra s) (ra r)) (wadd W (rb s) (rb r)) (wadd W (rc s) (rc r)) (wadd W (rd s) (rd r))
         (wadd W (re s) (re r)) (wadd W (rf s) (rf r)) (wadd W (rg s) (rg r)) (wadd W (rh s) (rh r)).

Definition compress_block (s : Regs) (b : list Z) : Regs :=
  let w := schedule (length (K_table A) - 16) (from_be_bytes <$> chunks (word_bytes A) b) in
  add_regs s (foldl round s (zip (K_table A) w)).

Definition compress (h : Hasher) : Hasher :=
  mkHasher (compress_block (state h) (buf h)) (buf h) (len h) (idx h).

(** ** Streaming *)

Definition init (iv : Regs) : Hasher := mkHasher iv (replicate (block_bytes A) 0) 0 0.

(** Body of the loop of [update]. *)
Definition update_byte (h : Hasher) (b : Z) : Hasher :=
  let h1 := mkHasher (state h) (<[idx h := b]> (buf h))
                     (wadd (8 * Z.of_nat (len_bytes A)) (len h) 1) (S (idx h)) in
  if (idx h1 =? block_bytes A)%nat
  then let h2 := compress h1 in mkHasher (state h2) (buf h2) (len h2) 0
  else h1.

Definition update (h : Hasher) (data : list Z) : Hasher := foldl update_byte h data.

Definition words_of (r : Regs) : list Z := [ra r; rb r; rc r; rd r; re r; rf r; rg r; rh r].

Definition output (r : Regs) : list Z := words_of r ≫= to_be_bytes (word_bytes A).

(** [while self.idx < lim { self.buf[self.idx] = 0; self.idx += 1; }] *)
Definition zero_to (lim : nat) (h : Hasher) : Hasher :=
  mkHasher (state h) (fill_from (lim - idx h) 0 (idx h) (buf h)) (len h) (max (idx h) lim).

Definition finalize (h : Hasher) : list Z :=
  let lim := (block_bytes A - len_bytes A)%nat in
  let h1 := mkHasher (state h) (<[idx h := 0x80]> (buf h)) (len h) (S (idx h)) in
  let h2 := if (lim <? idx h1)%nat
            then let h' := compress (zero_to (block_bytes A) h1) in
                 mkHasher (state h') (buf h') (len h') 0
            else h1 in
  let h3 := zero_to lim h2 in
  let bit_len := wrap (8 * Z.of_nat (len_bytes A)) (len h3 * 8) in
  let h4 := compress (mkHasher (state h3) (copy_at lim (to_be_bytes (len_bytes A) bit_len) (buf h3))
                               (len h3) (idx h3)) in
  output (state h4).

(** ** Reference: pad the whole message, then fold over its blocks *)

Definition pad_zeros (n : nat) : nat :=
  let lim := (block_bytes A - len_bytes A)%nat in
  let r := S (n mod block_bytes A)%nat in
  if (r <=? lim)%nat then (lim - r)%nat else (block_bytes A - r + lim)%nat.

Definition pad (m : list Z) : list Z :=
  m ++ [0x80] ++ replicate (pad_zeros (length m)) 0
    ++ to_be_bytes (len_bytes A) (8 * Z.of_nat (length m)).

Definition hash_ref (iv : Regs) (m : list Z) : list Z :=
  output (foldl compress_block iv (chunks (block_bytes A) (pad m))).

End Hashing.

(** ** The entry points *)

Definition Sha256_new : Hasher := init SHA256 H256_INIT.
Definition Sha256_update : Hasher → list Z → Hasher := update SHA256.
Definition Sha256_finalize : Hasher → list Z := finalize SHA256.
Definition sha256 (data : list Z) : list Z := Sha256_finalize (Sha256_update Sha256_new data).

Definition Sha512_new : Hasher := init SHA512 H512_INIT.
Definition Sha512_update : Hasher → list Z → Hasher := update SHA512.
Definition Sha512_finalize : Hasher → list Z := finalize SHA512.
Definition Sha512_compress : Hasher → Hasher := compress SHA512.
Definition sha512 (data : list Z) : list Z := Sha512_finalize (Sha512_update Sha512_new data).
Definition sha384 (data : list Z) : list Z :=
  take 48 (Sha512_finalize (Sha512_update (init SHA512 H384_INIT) data)).


(** ** Streaming is the reference function *)

Definition algo_ok (A : Algo) : Prop :=
  (0 < word_bytes A)%nat ∧ (len_bytes A < block_bytes A)%nat.

Section Correctness.
  Context (A : Algo) (HA : algo_ok A).
  Notation B := (block_bytes A).

(** The hasher has absorbed [m]: whole blocks are compressed into the state,
    the tail sits at the front of the buffer, the length is that of [m]. *)
Definition absorbed (iv : Regs) (m : list Z) (h : Hasher) : Prop :=
  ∃ bs r post,
    m = concat bs ++ r ∧ Forall (λ b, length b = B) bs
    ∧ buf h = r ++ post ∧ length (buf h) = B
    ∧ length r = idx h ∧ (idx h < B)%nat
    ∧ state h = foldl (compress_block A) iv bs
    ∧ len h = wrap (8 * Z.of_nat (len_bytes A)) (Z.of_nat (length m)).

Lemma block_pos : (0 < B)%nat.
Proof. unfold block_bytes. destruct HA. lia. Qed.

Lemma absorbed_init iv : absorbed iv [] (init A iv).
Proof.
  exists [], [], (replicate B 0). pose proof block_pos. split_and!; try done; simpl.
  by rewrite length_replicate.
Qed.

Lemma length_wrap_S (w : Z) (m : list Z) b :
  wadd w (wrap w (Z.of_nat (length m))) 1 = wrap w (Z.of_nat (length (m ++ [b]))).
Proof.
  unfold wadd, wrap. rewrite Zplus_mod_idemp_l, length_app. f_equal. cbn [length]. lia.
Qed.

(** Writing the next byte of the buffer extends the tail. *)
Lemma write_next h r (x b : Z) post :
  buf h = r ++ x :: post → length r = idx h →
  <[idx h := b]> (buf h) = (r ++ [b]) ++ post ∧ length (r ++ [b]) = S (idx h).
Proof.
  intros Hb Hr. rewrite Hb, insert_app_r_alt, <- Hr, Nat.sub_diag, length_app by lia.
  split; [by rewrite <- app_assoc|cbn [length]; lia].
Qed.

(** The length field: the bit count modulo the width of the field. *)
Lemma length_field n v k :
  v = wrap (8 * Z.of_nat n) k →
  to_be_bytes n (wrap (8 * Z.of_nat n) (v * 8)) = to_be_bytes n (8 * k).
Proof.
  intros ->. rewrite <- (to_be_bytes_wrap _ (8 * _)). f_equal. unfold wrap.
  rewrite Zmult_mod_idemp_l. f_equal. lia.
Qed.

Lemma length_blocks_mod bs (r : list Z) :
  Forall (λ b, length b = B) bs → (length r < B)%nat →
  (length (concat bs ++ r) `mod` B)%nat = length r.
Proof.
  intros Hbs Hr. rewrite length_app.
  assert (∃ k, length (concat bs) = (k * B)%nat) as [k ->].
  { induction Hbs as [|b bs Hb _ [k IH]]; [by exists 0%nat|].
    exists (S k). cbn [concat]. rewrite length_app. lia. }
  rewrite Nat.add_comm, Nat.Div0.mod_add. by apply Nat.mod_small.
Qed.

Lemma update_byte_absorbed iv m h b :
  absorbed iv m h → absorbed iv (m ++ [b]) (update_byte A h b).
Proof.
  intros (bs & r & post & -> & Hbs & Hbuf & Hlb & Hr & Hi & Hst & Hlen).
  rewrite Hbuf, length_app in Hlb. destruct post as [|x post]; [cbn [length] in Hlb; lia|].
  destruct (write_next h r x b post) as [Hnew Hl]; [done..|].
  unfold update_byte. cbn [idx]. rewrite Hlen, (length_wrap_S _ _ b), Hnew.
  destruct (Nat.eqb_spec (S (idx h)) B) as [E|E]; unfold absorbed, compress; cbn [state buf len idx].
  - assert (post = []) as -> by (apply nil_length_inv; cbn [length] in Hlb; lia).
    rewrite app_nil_r. exists (bs ++ [r ++ [b]]), [], (r ++ [b]).
    rewrite concat_app, foldl_app. cbn [concat foldl]. rewrite !app_nil_r, app_assoc.
    split_and!; try done; try lia; [|by rewrite Hst].
    apply Forall_app_2; [done|]. constructor; [lia|done].
  - exists bs, (r ++ [b]), post. rewrite app_assoc.
    split_and!; try done; try lia. rewrite length_app. cbn [length] in Hlb. lia.
Qed.

Lemma update_absorbed iv m h data :
  absorbed iv m h → absorbed iv (m ++ data) (update A h data).
Proof.
  revert m h. induction data as [|b data IH]; intros m h H; [by rewrite app_nil_r|].
  rewrite cons_middle, app_assoc. by apply IH, update_byte_absorbed.
Qed.

(** The zeroing loop writes from [idx] up to the limit. *)
Lemma zero_to_buf lim h pre post :
  buf h = pre ++ post → length pre = idx h → (idx h ≤ lim ≤ length (pre ++ post))%nat →
  buf (zero_to lim h) = pre ++ replicate (lim - idx h) 0 ++ drop (lim - idx h) post.
Proof.
  rewrite length_app. intros Hb Hp Hl. unfold zero_to. cbn [buf]. rewrite Hb, <- Hp.
  rewrite <- (take_drop (lim - length pre) post) at 1.
  apply fill_from_app. rewrite length_take. lia.
Qed.

Lemma finalize_absorbed iv m h :
  absorbed iv m h → finalize A h = hash_ref A iv m.
Proof.
  intros (bs & r & post & Hm & Hbs & Hbuf & Hlb & Hr & Hi & Hst & Hlen).
  destruct HA as [_ HL]. pose proof block_pos as HB.
  rewrite Hbuf, length_app in Hlb. destruct post as [|x post]; [cbn [length] in Hlb; lia|].
  cbn [length] in Hlb.
  destruct (write_next h r x 0x80 post) as [Hnew Hl]; [done..|].
  set (L := to_be_bytes (len_bytes A) (8 * Z.of_nat (length m))).
  assert (HLl : length L = len_bytes A) by apply length_to_be_bytes.
  pose proof (length_field (len_bytes A) _ _ Hlen) as Hbits. fold L in Hbits.
  pose proof (length_blocks_mod bs r Hbs ltac:(lia)) as Hmod. rewrite <- Hm, Hr in Hmod.
  unfold finalize, hash_ref. cbn [idx]. rewrite Hnew.
  unfold pad, pad_zeros. fold L. rewrite Hmod. set (lim := (B - len_bytes A)%nat).
  destruct (Nat.ltb_spec lim (S (idx h))) as [Hc|Hc].
  - rewrite (proj2 (Nat.leb_gt _ _)) by lia. unfold compress; cbn [state buf len idx].
    set (h1 := mkHasher (state h) _ _ (S (idx h))). set (b1 := r ++ [0x80] ++ replicate (B - S (idx h)) 0).
    assert (E1 : buf (zero_to B h1) = b1).
    { rewrite (zero_to_buf B h1 (r ++ [0x80]) post); subst h1; cbn [buf idx];
        [|done|lia|rewrite length_app; lia].
      rewrite drop_ge, app_nil_r by lia. unfold b1. by rewrite <- app_assoc. }
    rewrite E1. set (h2 := mkHasher (compress_block A _ b1) _ _ _).
    assert (Hb1 : length b1 = B).
    { unfold b1. rewrite !length_app, length_replicate. cbn [length]. lia. }
    rewrite (zero_to_buf lim h2 [] b1) by (subst h2; cbn [buf idx app]; try done; lia).
    subst h2. unfold zero_to. subst h1. cbn [state buf len idx]. rewrite Nat.sub_0_r, Hbits. rewrite app_nil_l.
    replace (copy_at lim L _) with (replicate lim 0 ++ L).
    2: { rewrite <- (length_replicate lim 0) at 2. symmetry. apply copy_at_app.
         rewrite length_drop. lia. }
    rewrite replicate_add, Hm.
    replace ((concat bs ++ r) ++ [0x80] ++ (replicate (B - S (idx h)) 0 ++ replicate lim 0) ++ L)
      with (concat bs ++ (b1 ++ (replicate lim 0 ++ L))) by (unfold b1; by rewrite <- !app_assoc).
    rewrite chunks_concat, chunks_app, chunks_short by
      (done || (rewrite length_app, length_replicate; lia)).
    rewrite foldl_app. cbn [foldl]. by rewrite <- Hst.
  - rewrite (proj2 (Nat.leb_le _ _)) by lia.
    rewrite (zero_to_buf lim _ (r ++ [0x80]) post); cbn [buf idx];
      [|done|lia|rewrite length_app; lia].
    unfold compress, zero_to; cbn [state buf len idx]. rewrite Hbits, app_assoc. set (b1 := (r ++ [0x80]) ++ replicate (lim - S (idx h)) 0).
    assert (Hb1 : length b1 = lim).
    { unfold b1. rewrite length_app, length_replicate. lia. }
    rewrite <- Hb1 at 1. rewrite copy_at_app by (rewrite length_drop; lia).
    replace (m ++ [0x80] ++ replicate (lim - S (idx h)) 0 ++ L) with (concat bs ++ (b1 ++ L))
      by (rewrite Hm; unfold b1; by rewrite <- !app_assoc).
    rewrite chunks_concat, chunks_short by (done || (rewrite length_app; lia)).
    rewrite foldl_app. cbn [foldl]. by rewrite Hst.
Qed.

(** Any way of cutting the message into pieces gives the same digest. *)
Lemma streaming_ref iv pieces :
  finalize A (foldl (update A) (init A iv) pieces) = hash_ref A iv (concat pieces).
Proof.
  apply finalize_absorbed. rewrite <- (app_nil_l (concat pieces)).
  generalize (absorbed_init iv). generalize (init A iv) as h. generalize (@nil Z) as m.
  induction pieces as [|p ps IH]; intros m h H; cbn [foldl concat]; [by rewrite app_nil_r|].
  rewrite app_assoc. by apply IH, update_absorbed.
Qed.

Lemma length_output r : length (output A r) = (8 * word_bytes A)%nat.
Proof.
  unfold output, words_of. cbn [mbind list_bind]. rewrite !length_app, !length_to_be_bytes.
  cbn [length]. lia.
Qed.

Lemma output_ok r : bytes_ok (output A r).
Proof. unfold output, words_of. cbn [mbind list_bind]. rewrite !Forall_app. eauto 20 with smartos. Qed.

End Correctness.

Lemma SHA256_ok : algo_ok SHA256.
Proof. split; vm_compute; lia. Qed.
Lemma SHA512_ok : algo_ok SHA512.
Proof. split; vm_compute; lia. Qed.
#[export] Hint Resolve SHA256_ok SHA512_ok : smartos.

Lemma sha256_ref m : sha256 m = hash_ref SHA256 H256_INIT m.
Proof.
  pose proof (streaming_ref SHA256 SHA256_ok H256_INIT [m]) as H. cbn [foldl concat] in H.
  by rewrite app_nil_r in H.
Qed.

Lemma sha512_ref m : sha512 m = hash_ref SHA512 H512_INIT m.
Proof.
  pose proof (streaming_ref SHA512 SHA512_ok H512_INIT [m]) as H. cbn [foldl concat] in H.
  by rewrite app_nil_r in H.
Qed.

Lemma length_sha256 m : length (sha256 m) = 32%nat.
Proof. rewrite sha256_ref. apply (length_output SHA256). Qed.
Lemma length_sha512 m : length (sha512 m) = 64%nat.
Proof. rewrite sha512_ref. apply (length_output SHA512). Qed.
Lemma sha256_bytes_ok m : bytes_ok (sha256 m).
Proof. rewrite sha256_ref. apply output_ok. Qed.
Lemma sha512_bytes_ok m : bytes_ok (sha512 m).
Proof. rewrite sha512_ref. apply output_ok. Qed.
#[export] Hint Resolve sha256_bytes_ok sha512_bytes_ok : smartos.

(** C39: The streaming hashers compute SHA-2 independently of how the message
    is cut into [update] calls: for every list of pieces, the digest is the
    reference function (pad the whole message with [0x80], zeros and the
    bit length, split into blocks, fold the compression function) of the
    concatenation, for SHA-256, SHA-512 and, truncated to 48 bytes, SHA-384. *)
Theorem sha2_streaming_equivalence pieces :
  Sha256_finalize (foldl Sha256_update Sha256_new pieces)
    = hash_ref SHA256 H256_INIT (concat pieces)
  ∧ Sha512_finalize (foldl Sha512_update Sha512_new pieces)
    = hash_ref SHA512 H512_INIT (concat pieces)
  ∧ sha384 (concat pieces) = take 48 (hash_ref SHA512 H384_INIT (concat pieces)).
Proof.
  split_and!; [apply streaming_ref; eauto with smartos..|].
  unfold sha384, Sha512_finalize, Sha512_update. f_equal.
  pose proof (streaming_ref SHA512 SHA512_ok H384_INIT [concat pieces]) as H.
  cbn [foldl] in H. rewrite H. cbn [concat]. by rewrite app_nil_r.
Qed.

(** The test vectors of FIPS 180. *)
Example sha256_abc : from_be_bytes (sha256 [97; 98; 99])
  = 0xba7816bf8f01cfea414140de5dae2223b00361a396177a9cb410ff61f20015ad.
Proof. vm_compute. reflexivity. Qed.
Example sha512_abc : from_be_bytes (sha512 [97; 98; 99])
  = 0xddaf35a193617abacc417349ae20413112e6fa4e89a97ea20a9eeee64b55d39a2192992a274fc1a836ba3c23a3feebbd454d4423643ce80e2a9ac94fa54ca49f.
Proof. vm_compute. reflexivity. Qed.
Example sha384_abc : from_be_bytes (sha384 [97; 98; 99])
  = 0xcb00753f45a35e8bb5a03d699ac65007272c32ab0eded1631a8b605a43ff5bed8086072ba1e7cc2358baeca134c825a7.
Proof. vm_compute. reflexivity. Qed.
