(* ===== verification/Hmac.v ===== *)
(** HMAC and the key derivation functions ([crypto/hmac.rs], [crypto/kdf.rs]).

    The one-shot [hmac_sha256] and [hmac_sha512], the streaming [HmacSha256],
    HKDF (extract and expand) and PBKDF2 as the source runs them.  The theorems:
    the one-shot functions are the nested hash of RFC 2104; HKDF and PBKDF2
    return exactly the requested number of bytes and shorter requests are
    prefixes of longer ones; the streaming type returns the inner hash. *)

From S2P Require Import Prelude Bits Words Sha2.

(** ** HMAC *)

(** [let mut k = [0; B]; k[..len].copy_from_slice(..)]: the key, hashed when it
    is longer than a block, then zero-padded. *)
Definition block_key (B : nat) (H : list Z → list Z) (key : list Z) : list Z :=
  let k := if (B <? length key)%nat then H key else key in
  k ++ replicate (B - length k) 0.

Definition xor_pad (v : Z) (k : list Z) : list Z := (λ b, Z.lxor b v) <$> k.

Definition hmac_sha256 (key data : list Z) : list Z :=
  let k := block_key 64 sha256 key in
  let inner := Sha256_update (Sha256_update Sha256_new (xor_pad 0x36 k)) data in
  let inner_hash := Sha256_finalize inner in
  let outer := Sha256_update (Sha256_update Sha256_new (xor_pad 0x5C k)) inner_hash in
  Sha256_finalize outer.

Definition hmac_sha512 (key data : list Z) : list Z :=
  let k := block_key 128 sha512 key in
  let inner := Sha512_update (Sha512_update Sha512_new (xor_pad 0x36 k)) data in
  let inner_hash := Sha512_finalize inner in
  let outer := Sha512_update (Sha512_update Sha512_new (xor_pad 0x5C k)) inner_hash in
  Sha512_finalize outer.

(** The streaming type: [opad_state] is left zero by [new] and never read. *)
Record HmacSha256 := mkHmac { inner : Hasher; opad_state : list Z }.

Definition HmacSha256_new (key : list Z) : HmacSha256 :=
  let k := block_key 64 sha256 key in
  mkHmac (Sha256_update Sha256_new (xor_pad 0x36 k)) (replicate 8 0).

Definition HmacSha256_update (h : HmacSha256) (data : list Z) : HmacSha256 :=
  mkHmac (Sha256_update (inner h) data) (opad_state h).

Definition HmacSha256_finalize (h : HmacSha256) : list Z := Sha256_finalize (inner h).

(** ** HKDF *)

(** The loop of [hkdf_expand], from counter [i] with the previous block [t]. *)
Fixpoint expand_loop (mac : list Z → list Z → list Z) (prk info : list Z)
    (n : nat) (i : Z) (t okm : list Z) : list Z :=
  match n with
  | O => okm
  | S n' =>
      let input := (if 1 <? i then t else []) ++ info ++ [wrap 8 i] in
      let t' := mac prk input in
      expand_loop mac prk info n' (i + 1) t' (okm ++ t')
  end.

Definition hkdf_extract (salt ikm : list Z) : list Z :=
  hmac_sha256 (match salt with [] => replicate 32 0 | _ => salt end) ikm.
Definition hkdf_expand (prk info : list Z) (length : nat) : list Z :=
  take length (expand_loop hmac_sha256 prk info ((length + 31) `div` 32)%nat 1 (replicate 32 0) []).
Definition hkdf_sha256 (salt ikm info : list Z) (length : nat) : list Z :=
  hkdf_expand (hkdf_extract salt ikm) info length.

Definition hkdf_extract_sha512 (salt ikm : list Z) : list Z :=
  hmac_sha512 (match salt with [] => replicate 64 0 | _ => salt end) ikm.
Definition hkdf_expand_sha512 (prk info : list Z) (length : nat) : list Z :=
  take length (expand_loop hmac_sha512 prk info ((length + 63) `div` 64)%nat 1 (replicate 64 0) []).

(** ** PBKDF2 *)

(** [for _ in 1..iterations { u = ..; xor ^= u }] *)
Fixpoint pbkdf2_iter (password : list Z) (n : nat) (u xor : list Z) : list Z :=
  match n with
  | O => xor
  | S n' => let u' := hmac_sha256 password u in pbkdf2_iter password n' u' (xor_bytes xor u')
  end.

Definition pbkdf2_block (password salt : list Z) (iterations : Z) (block_idx : Z) : list Z :=
  let u := hmac_sha256 password (salt ++ to_be_bytes 4 (wrap 32 block_idx)) in
  pbkdf2_iter password (Z.to_nat (iterations - 1)) u u.

Definition pbkdf2_hmac_sha256 (password salt : list Z) (iterations : Z) (dk_len : nat) : list Z :=
  let num_blocks := ((dk_len + 32 - 1) `div` 32)%nat in
  take dk_len (seqZ 1 (Z.of_nat num_blocks) ≫= pbkdf2_block password salt iterations).

Definition scrypt_simple (password salt : list Z) (dk_len : nat) : list Z :=
  pbkdf2_hmac_sha256 password salt 65536 dk_len.

(** ** HMAC is the nested hash *)

Lemma length_block_key B H key :
  (∀ k, length (H k) ≤ B)%nat → length (block_key B H key) = B.
Proof.
  intros HH. unfold block_key. rewrite length_app, length_replicate.
  destruct (Nat.ltb_spec B (length key)); [specialize (HH key)|]; lia.
Qed.

Lemma sha256_two a b : Sha256_finalize (Sha256_update (Sha256_update Sha256_new a) b) = sha256 (a ++ b).
Proof.
  rewrite sha256_ref. pose proof (streaming_ref SHA256 SHA256_ok H256_INIT [a; b]) as H.
  cbn [foldl concat] in H. by rewrite app_nil_r in H.
Qed.

Lemma sha512_two a b : Sha512_finalize (Sha512_update (Sha512_update Sha512_new a) b) = sha512 (a ++ b).
Proof.
  rewrite sha512_ref. pose proof (streaming_ref SHA512 SHA512_ok H512_INIT [a; b]) as H.
  cbn [foldl concat] in H. by rewrite app_nil_r in H.
Qed.

Lemma hmac_sha256_nested key data :
  hmac_sha256 key data =
  sha256 (xor_pad 0x5C (block_key 64 sha256 key)
          ++ sha256 (xor_pad 0x36 (block_key 64 sha256 key) ++ data)).
Proof. unfold hmac_sha256. by rewrite !sha256_two. Qed.

Lemma hmac_sha512_nested key data :
  hmac_sha512 key data =
  sha512 (xor_pad 0x5C (block_key 128 sha512 key)
          ++ sha512 (xor_pad 0x36 (block_key 128 sha512 key) ++ data)).
Proof. unfold hmac_sha512. by rewrite !sha512_two. Qed.

Lemma length_hmac_sha256 key data : length (hmac_sha256 key data) = 32%nat.
Proof. rewrite hmac_sha256_nested. apply length_sha256. Qed.
Lemma length_hmac_sha512 key data : length (hmac_sha512 key data) = 64%nat.
Proof. rewrite hmac_sha512_nested. apply length_sha512. Qed.

(** ** Expansion: RFC 5869's [T(i)] *)

(** [T(0)] is empty; [T(i) = HMAC(prk, T(i-1) ++ info ++ i)]. *)
Fixpoint T_block (mac : list Z → list Z → list Z) (prk info : list Z) (i : nat) : list Z :=
  match i with
  | O => []
  | S i' => mac prk (T_block mac prk info i' ++ info ++ [wrap 8 (Z.of_nat i)])
  end.

Definition T_blocks mac prk info (n : nat) : list Z := seq 1 n ≫= T_block mac prk info.

Lemma expand_loop_ref mac prk info n i t okm :
  (0 < i)%nat → (t = T_block mac prk info (i - 1) ∨ i = 1%nat) →
  expand_loop mac prk info n (Z.of_nat i) t okm
  = okm ++ (seq i n ≫= T_block mac prk info).
Proof.
  revert i t okm. induction n as [|n IH]; intros i t okm Hi Ht; cbn [expand_loop seq mbind list_bind].
  { by rewrite app_nil_r. }
  replace ((if 1 <? Z.of_nat i then t else []) ++ info ++ [wrap 8 (Z.of_nat i)])
    with (T_block mac prk info (i - 1) ++ info ++ [wrap 8 (Z.of_nat i)]).
  2: { f_equal. case_bool; destruct Ht as [->| ->]; try done; try lia.
       by replace i with 1%nat by lia. }
  destruct i as [|i]; [lia|]. replace (S i - 1)%nat with i by lia.
  replace (Z.of_nat (S i) + 1) with (Z.of_nat (S (S i))) by lia.
  rewrite (IH (S (S i))); [|lia|]; [by rewrite <- app_assoc|].
  left. by replace (S (S i) - 1)%nat with (S i) by lia.
Qed.

Lemma T_blocks_S mac prk info n :
  T_blocks mac prk info (S n) = T_blocks mac prk info n ++ T_block mac prk info (S n).
Proof.
  unfold T_blocks. rewrite seq_S, bind_app. cbn [mbind list_bind]. by rewrite app_nil_r.
Qed.

Lemma length_T_blocks (L : nat) mac prk info n :
  (∀ k d, length (mac k d) = L) → length (T_blocks mac prk info n) = (n * L)%nat.
Proof.
  intros HL. induction n as [|n IH]; [done|].
  rewrite T_blocks_S, length_app, IH. cbn [T_block]. rewrite HL. lia.
Qed.

Lemma T_blocks_prefix mac prk info n m :
  (n ≤ m)%nat → T_blocks mac prk info n `prefix_of` T_blocks mac prk info m.
Proof.
  induction 1 as [|m _ IH]; [done|]. rewrite T_blocks_S. by apply prefix_app_r.
Qed.

Lemma hkdf_expand_ref prk info n :
  hkdf_expand prk info n = take n (T_blocks hmac_sha256 prk info ((n + 31) / 32)).
Proof. unfold hkdf_expand. by rewrite (expand_loop_ref _ _ _ _ 1) by auto with lia. Qed.

Lemma hkdf_expand_sha512_ref prk info n :
  hkdf_expand_sha512 prk info n = take n (T_blocks hmac_sha512 prk info ((n + 63) / 64)).
Proof. unfold hkdf_expand_sha512. by rewrite (expand_loop_ref _ _ _ _ 1) by auto with lia. Qed.

Lemma ceil_div_ge n L : (0 < L)%nat → (n ≤ (n + (L - 1)) / L * L)%nat.
Proof.
  intros. pose proof (Nat.div_mod_eq (n + (L - 1)) L).
  pose proof (Nat.mod_upper_bound (n + (L - 1)) L). nia.
Qed.

Lemma take_of_prefix {A} n (l k : list A) :
  l `prefix_of` k → (n ≤ length l)%nat → take n k = take n l.
Proof. intros [x ->] H. by rewrite take_app_le. Qed.

(** The one-shot HMACs are RFC 2104's nested hash: with [k] the key
    (hashed when longer than a block) zero-padded to a block,
    [hmac = H(k xor opad, H(k xor ipad, data))], for SHA-256 with 64-byte and
    SHA-512 with 128-byte blocks. *)
Theorem hmac_is_nested_hash key data :
  hmac_sha256 key data =
    sha256 (xor_pad 0x5C (block_key 64 sha256 key)
            ++ sha256 (xor_pad 0x36 (block_key 64 sha256 key) ++ data))
  ∧ hmac_sha512 key data =
    sha512 (xor_pad 0x5C (block_key 128 sha512 key)
            ++ sha512 (xor_pad 0x36 (block_key 128 sha512 key) ++ data))
  ∧ length (block_key 64 sha256 key) = 64%nat ∧ length (block_key 128 sha512 key) = 128%nat.
Proof.
  split_and!; [apply hmac_sha256_nested|apply hmac_sha512_nested|..];
    apply length_block_key; intros k; rewrite ?length_sha256, ?length_sha512; lia.
Qed.

(** HKDF-Expand returns the first [n] bytes of RFC 5869's
    [T(1) ++ T(2) ++ ..] (with a counter byte that wraps past 255 blocks),
    always exactly [n] bytes, and a shorter request is a prefix of a longer
    one. *)
Theorem hkdf_expand_correct prk info n m :
  hkdf_expand prk info n = take n (T_blocks hmac_sha256 prk info ((n + 31) / 32))
  ∧ length (hkdf_expand prk info n) = n
  ∧ hkdf_expand prk info (n `min` m) = take (n `min` m) (hkdf_expand prk info m).
Proof.
  assert (Hlen : ∀ k, (k ≤ length (T_blocks hmac_sha256 prk info ((k + 31) / 32)))%nat).
  { intros k. rewrite (length_T_blocks 32) by apply length_hmac_sha256.
    apply (ceil_div_ge k 32). lia. }
  rewrite !hkdf_expand_ref. split_and!; [done|rewrite length_take; specialize (Hlen n); lia|].
  rewrite take_take, (Nat.min_l (n `min` m)) by lia. symmetry. apply take_of_prefix; [|apply Hlen].
  apply T_blocks_prefix, Nat.Div0.div_le_mono. lia.
Qed.

Lemma length_pbkdf2_iter pw n u x :
  length x = 32%nat → length (pbkdf2_iter pw n u x) = 32%nat.
Proof.
  revert u x. induction n as [|n IH]; intros u x Hx; [done|]. cbn [pbkdf2_iter].
  apply IH. rewrite length_xor_bytes, length_hmac_sha256, Hx. done.
Qed.

Lemma length_pbkdf2_blocks pw salt it l :
  length (l ≫= pbkdf2_block pw salt it) = (length l * 32)%nat.
Proof.
  induction l as [|i l IH]; [done|]. cbn [mbind list_bind length]. rewrite length_app, IH.
  unfold pbkdf2_block. rewrite length_pbkdf2_iter by apply length_hmac_sha256. lia.
Qed.

(** PBKDF2 returns the requested number of bytes, and 0 iterations count as 1. *)
Lemma pbkdf2_length pw salt it n : length (pbkdf2_hmac_sha256 pw salt it n) = n.
Proof.
  unfold pbkdf2_hmac_sha256. rewrite length_take, length_pbkdf2_blocks, length_seqZ, Nat2Z.id.
  replace (n + 32 - 1)%nat with (n + (32 - 1))%nat by lia.
  pose proof (ceil_div_ge n 32 ltac:(lia)). lia.
Qed.

Lemma pbkdf2_zero_iterations pw salt n :
  pbkdf2_hmac_sha256 pw salt 0 n = pbkdf2_hmac_sha256 pw salt 1 n.
Proof. done. Qed.

(** The streaming type computes [H(k xor ipad, data)] without the outer
    hash. *)
Lemma hmac_streaming_inner key data :
  HmacSha256_finalize (HmacSha256_update (HmacSha256_new key) data)
  = sha256 (xor_pad 0x36 (block_key 64 sha256 key) ++ data).
Proof. unfold HmacSha256_finalize, HmacSha256_update, HmacSha256_new. cbn [inner]. apply sha256_two. Qed.

Example hmac_streaming_differs :
  HmacSha256_finalize (HmacSha256_update (HmacSha256_new [1]) [2]) ≠ hmac_sha256 [1] [2].
Proof. vm_compute. discriminate. Qed.

(** RFC 4231 test case 1 and RFC 5869 test case 1. *)
Example hmac_sha256_rfc4231 :
  from_be_bytes (hmac_sha256 (replicate 20 0x0b) [72; 105; 32; 84; 104; 101; 114; 101])
  = 0xb0344c61d8db38535ca8afceaf0bf12b881dc200c9833da726e9376c2e32cff7.
Proof. vm_compute. reflexivity. Qed.

Example hkdf_rfc5869 :
  from_be_bytes (hkdf_sha256 (seqZ 0 13) (replicate 22 0x0b) (seqZ 0xf0 10) 42)
  = 0x3cb25f25faacd57a90434f64d0362f2a2d2d0a90cf1a5a4c5db02d56ecc4c5bf34007208d5b887185865.
Proof. vm_compute. reflexivity. Qed.
