(* ===== verification/Aead.v ===== *)
(** What the authenticated ciphers share, and the interface they offer to the
    record layer.

    The cipher loops of [crypto/chacha20.rs] and [crypto/aes_gcm.rs] have one
    shape: a block of key stream per turn, xored into up to a block of data,
    then the counter steps ([stream_xor]).  The tag comparison is the
    accumulated xor of both files ([tags_differ]).  [Aead] is the contract the
    TLS record layer relies on: what is sealed opens to the plaintext, and
    anything whose tag is not the expected one is refused. *)

From S2P Require Import Prelude Bits Words.

(** ** Key stream loop *)

Section Stream.
  Context {C : Type} (n : nat) (block : C → list Z) (next : C → C).

(** [while pos < data.len() { ks = block(c); data[pos..pos+n] ^= ks; pos += n; step(c); }]
    on the bytes from [pos] on; each turn consumes at least one byte. *)
Fixpoint stream_loop (fuel : nat) (c : C) (data : list Z) : list Z :=
  match fuel, data with
  | O, _ | _, [] => []
  | S f, _ => xor_bytes (take n data) (block c) ++ stream_loop f (next c) (drop n data)
  end.
Definition stream_xor (c : C) (data : list Z) : list Z := stream_loop (length data) c data.

(** The key stream itself. *)
Fixpoint keystream (k : nat) (c : C) : list Z :=
  match k with
  | O => []
  | S k' => block c ++ keystream k' (next c)
  end.

(** Counters satisfying [P] have full blocks; [P] is kept by the step. *)
Context (P : C → Prop) (Hn : (0 < n)%nat).
Context (Hblock : ∀ c, P c → length (block c) = n) (Hnext : ∀ c, P c → P (next c)).

Lemma length_keystream k c : P c → length (keystream k c) = (k * n)%nat.
Proof.
  revert c. induction k as [|k IH]; intros c Hc; [done|]. cbn [keystream].
  rewrite length_app, IH, Hblock by auto. lia.
Qed.

Lemma stream_loop_keystream fuel c data :
  P c → (length data ≤ fuel)%nat → stream_loop fuel c data = xor_bytes data (keystream fuel c).
Proof.
  revert c data. induction fuel as [|f IH]; intros c data Hc Hf.
  { destruct data; [done|]. cbn [length] in Hf. lia. }
  destruct data as [|x data]; [done|]. cbn [stream_loop keystream].
  set (d := x :: data) in *.
  rewrite IH by (auto || (subst d; rewrite length_drop; cbn [length] in *; lia)).
  destruct (decide (n ≤ length d)%nat) as [Hl|Hl].
  - rewrite <- (take_drop n d) at 3. rewrite xor_bytes_app; [done|]. rewrite length_take, Hblock by done. lia.
  - rewrite take_ge, drop_ge by lia. rewrite app_nil_r, xor_bytes_prefix; [done|].
    rewrite Hblock by done. lia.
Qed.

Lemma keystream_add j k c : keystream (j + k) c = keystream j c ++ keystream k (Nat.iter j next c).
Proof.
  revert c. induction j as [|j IH]; intros c; [done|]. cbn [Nat.add keystream].
  by rewrite IH, <- app_assoc, <- Nat.iter_succ_r.
Qed.

Lemma iter_next j c : P c → P (Nat.iter j next c).
Proof. intros Hc. induction j as [|j IH]; [done|]. rewrite Nat.iter_succ. auto. Qed.

(** One long xor with the key stream, of which any sufficient length will do. *)
Lemma stream_xor_keystream k c data :
  P c → (length data ≤ k * n)%nat → stream_xor c data = xor_bytes data (keystream k c).
Proof.
  intros Hc Hk. unfold stream_xor. rewrite stream_loop_keystream by done.
  destruct (decide (length data ≤ k)%nat) as [H|H].
  - replace k with (length data + (k - length data))%nat by lia.
    rewrite keystream_add, xor_bytes_prefix; [done|]. rewrite length_keystream by done. nia.
  - replace (length data) with (k + (length data - k))%nat at 1 by lia.
    rewrite keystream_add, xor_bytes_prefix; [done|]. rewrite length_keystream by done. lia.
Qed.

Lemma stream_xor_len c data : P c → length (stream_xor c data) = length data.
Proof.
  intros Hc. rewrite (stream_xor_keystream (length data)) by (done || nia).
  rewrite length_xor_bytes, length_keystream by done. nia.
Qed.

(** Encryption and decryption are the same operation. *)
Lemma stream_xor_involutive c data : P c → stream_xor c (stream_xor c data) = data.
Proof.
  intros Hc. rewrite (stream_xor_keystream (length data) c (stream_xor c data))
    by (done || (rewrite stream_xor_len by done; nia)).
  rewrite (stream_xor_keystream (length data) c data) by (done || nia).
  apply xor_bytes_cancel. rewrite length_keystream by done. nia.
Qed.

(** Cutting the data at a block boundary: the second part continues with the
    advanced counter. *)
Lemma stream_xor_app k c d1 d2 :
  P c → length d1 = (k * n)%nat →
  stream_xor c (d1 ++ d2) = stream_xor c d1 ++ stream_xor (Nat.iter k next c) d2.
Proof.
  intros Hc Hd.
  rewrite (stream_xor_keystream (k + length d2) c (d1 ++ d2)) by (done || (rewrite length_app; nia)).
  rewrite (stream_xor_keystream k c d1), (stream_xor_keystream (length d2) _ d2)
    by (done || nia || by apply iter_next).
  rewrite keystream_add, xor_bytes_app; [done|]. rewrite length_keystream by done. lia.
Qed.

End Stream.

(** ** Comparison of tags *)

(** [let mut diff = 0; for i in 0..n { diff |= a[i] ^ b[i]; } diff != 0] *)
Definition tags_differ (a b : list Z) : bool := negb (foldl Z.lor 0 (xor_bytes a b) =? 0).

Lemma foldl_lor_0 l x : foldl Z.lor x l = 0 ↔ x = 0 ∧ Forall (λ z, z = 0) l.
Proof.
  revert x. induction l as [|y l IH]; intros x; cbn [foldl]; [rewrite Forall_nil; tauto|].
  rewrite IH, Z.lor_eq_0_iff, Forall_cons. tauto.
Qed.

Lemma xor_bytes_0 a b : length a = length b → Forall (λ z, z = 0) (xor_bytes a b) ↔ a = b.
Proof.
  revert b. induction a as [|x a IH]; intros [|y b] Hl; simpl in *; try done.
  rewrite Forall_cons, Z.lxor_eq_0_iff. injection Hl as Hl. specialize (IH b Hl).
  unfold xor_bytes in IH. rewrite IH. naive_solver.
Qed.

(** The accumulated xor is zero exactly when the tags are equal. *)
Lemma tags_differ_spec a b : length a = length b → tags_differ a b = false ↔ a = b.
Proof.
  intros Hl. unfold tags_differ. rewrite negb_false_iff, Z.eqb_eq, foldl_lor_0, xor_bytes_0 by done.
  naive_solver.
Qed.

Lemma tags_differ_refl a : tags_differ a a = false.
Proof. by apply tags_differ_spec. Qed.

(** ** The contract of an authenticated cipher

    [seal key nonce aad pt] gives the ciphertext and a 16-byte tag and [open]
    undoes it, for keys of [klen] bytes and 12-byte nonces; for a given
    ciphertext one tag is accepted, and every other is refused with the
    cipher's error. *)
Definition key_ok (klen : nat) (key nonce : list Z) : Prop :=
  length key = klen ∧ bytes_ok key ∧ length nonce = 12%nat ∧ bytes_ok nonce.

Class Aead (klen : nat) (err : string)
    (seal : list Z → list Z → list Z → list Z → list Z * list Z)
    (open : list Z → list Z → list Z → list Z → list Z → result string (list Z)) := {
  aead_len key nonce aad pt :
    key_ok klen key nonce → length (fst (seal key nonce aad pt)) = length pt;
  aead_tag_len key nonce aad pt : length (snd (seal key nonce aad pt)) = 16%nat;
  aead_roundtrip key nonce aad pt :
    key_ok klen key nonce →
    open key nonce aad (fst (seal key nonce aad pt)) (snd (seal key nonce aad pt)) = Ok pt;
  aead_wrong_tag key nonce aad pt tag :
    key_ok klen key nonce → length tag = 16%nat → tag ≠ snd (seal key nonce aad pt) →
    open key nonce aad (fst (seal key nonce aad pt)) tag = Err err;
}.
