(* ===== verification/ChaCha.v ===== *)
(** ChaCha20 and its authenticated mode ([crypto/chacha20.rs]).

    [chacha20_block] runs the ten double rounds on sixteen words;
    [chacha20_encrypt] is the shared key stream loop at 64-byte blocks;
    [poly1305_tag] is the accumulator of the source, which multiplies modulo
    [2^128] and keeps five 26-bit limbs, not RFC 8439's arithmetic modulo
    [2^130 - 5].  The theorems: the cipher is an involution and can be resumed
    at any block, sealing and opening are inverse, a wrong tag is refused; and
    what the missing reduction costs. *)

From S2P Require Import Prelude Bits Words Aead.

(** ** The block function *)

Definition word_at (i : nat) (w : list Z) : Z := nth i w 0.

(** [quarter_round!(w[a], w[b], w[c], w[d])] *)
Definition quarter_round (a b c d : nat) (w : list Z) : list Z :=
  let w := <[a := wadd 32 (word_at a w) (word_at b w)]> w in
  let w := <[d := rotl 32 16 (Z.lxor (word_at d w) (word_at a w))]> w in
  let w := <[c := wadd 32 (word_at c w) (word_at d w)]> w in
  let w := <[b := rotl 32 12 (Z.lxor (word_at b w) (word_at c w))]> w in
  let w := <[a := wadd 32 (word_at a w) (word_at b w)]> w in
  let w := <[d := rotl 32 8 (Z.lxor (word_at d w) (word_at a w))]> w in
  let w := <[c := wadd 32 (word_at c w) (word_at d w)]> w in
  <[b := rotl 32 7 (Z.lxor (word_at b w) (word_at c w))]> w.

Definition double_round (w : list Z) : list Z :=
  let w := quarter_round 0 4 8 12 w in
  let w := quarter_round 1 5 9 13 w in
  let w := quarter_round 2 6 10 14 w in
  let w := quarter_round 3 7 11 15 w in
  let w := quarter_round 0 5 10 15 w in
  let w := quarter_round 1 6 11 12 w in
  let w := quarter_round 2 7 8 13 w in
  quarter_round 3 4 9 14 w.

Definition chacha20_state (key : list Z) (counter : Z) (nonce : list Z) : list Z :=
  [0x61707865; 0x3320646e; 0x79622d32; 0x6b206574]
  ++ (from_le_bytes <$> chunks 4 (take 32 key)) ++ [counter]
  ++ (from_le_bytes <$> chunks 4 (take 12 nonce)).

Definition chacha20_block (key : list Z) (counter : Z) (nonce : list Z) : list Z :=
  let state := chacha20_state key counter nonce in
  let working := Nat.iter 10 double_round state in
  zip_with (wadd 32) working state ≫= to_le_bytes 4.

(** [ctr += 1] on a [u32]. *)
Definition chacha20_encrypt (key : list Z) (counter : Z) (nonce data : list Z) : list Z :=
  stream_xor 64 (λ ctr, chacha20_block key ctr nonce) (λ ctr, wadd 32 ctr 1) counter data.

(** ** Poly1305 as coded *)

Definition MASK26 : Z := 0x3ffffff.

(** The five 26-bit limbs of a [u128]. *)
Definition limbs26 (v : Z) : list Z :=
  (λ s, Z.land (Z.shiftr v s) MASK26) <$> [0; 26; 52; 78; 104].

(** [(l[0] as u128) | (l[1] << 26) | .. | (l[4] << 104)] *)
Definition join26 (l : list Z) : Z :=
  foldl Z.lor 0 (zip_with (λ v s, wrap 128 (Z.shiftl v s)) l [0; 26; 52; 78; 104]).

(** Body of the loop of [poly1305_tag] for the block [b] at offset [i]. *)
Definition poly1305_step (r : list Z) (i : nat) (acc b : list Z) : list Z :=
  let n := length b in
  let block := b ++ (if (n =? 16)%nat then [] else 1 :: replicate (15 - n) 0) in
  let num := from_le_bytes block in
  let acc := zip_with (wadd 64) acc (limbs26 num) in
  let acc := if ((i <=? 15) && (n =? 16))%nat
             then <[4%nat := wadd 64 (word_at 4 acc) (Z.shiftl 1 24)]> acc else acc in
  limbs26 (wrap 128 (join26 acc * join26 r)).

Fixpoint poly1305_loop (r : list Z) (i : nat) (acc : list Z) (bs : list (list Z)) : list Z :=
  match bs with
  | [] => acc
  | b :: bs' => poly1305_loop r (i + length b) (poly1305_step r i acc b) bs'
  end.

Definition poly1305_r (key : list Z) : Z :=
  Z.land (from_le_bytes (take 16 key)) 0x0ffffffc0ffffffc0ffffffc0fffffff.

Definition poly1305_tag (key msg : list Z) : list Z :=
  let r := limbs26 (poly1305_r key) in
  let s := from_le_bytes <$> chunks 4 (take 16 (drop 16 key)) in
  let acc := poly1305_loop r 0 [0; 0; 0; 0; 0] (chunks 16 msg) in
  let s_num := foldl Z.lor 0 (zip_with (λ v sh, wrap 128 (Z.shiftl v sh)) s [0; 32; 64; 96]) in
  to_le_bytes 16 (wadd 128 (join26 acc) s_num).

(** ** The authenticated mode *)

Definition chacha20_block_pub : list Z → Z → list Z → list Z := chacha20_block.

Definition poly_key (key nonce : list Z) : list Z := take 32 (chacha20_block_pub key 0 nonce).

Definition build_mac_input (aad ct : list Z) : list Z :=
  aad ++ replicate ((16 - length aad mod 16) mod 16)%nat 0
  ++ ct ++ replicate ((16 - length ct mod 16) mod 16)%nat 0
  ++ to_le_bytes 8 (Z.of_nat (length aad)) ++ to_le_bytes 8 (Z.of_nat (length ct)).

Definition chacha20_poly1305_seal (key nonce aad plaintext : list Z) : list Z * list Z :=
  let ct := chacha20_encrypt key 1 nonce plaintext in
  (ct, poly1305_tag (poly_key key nonce) (build_mac_input aad ct)).

Definition chacha20_poly1305_open (key nonce aad ciphertext tag : list Z) : result string (list Z) :=
  let expected := poly1305_tag (poly_key key nonce) (build_mac_input aad ciphertext) in
  if tags_differ expected tag then Err "chacha20-poly1305: tag mismatch"
  else Ok (chacha20_encrypt key 1 nonce ciphertext).

(** ** Lengths *)

Lemma length_quarter_round a b c d w : length (quarter_round a b c d w) = length w.
Proof. unfold quarter_round. by rewrite !length_insert. Qed.

Lemma length_double_round w : length (double_round w) = length w.
Proof. unfold double_round. by rewrite !length_quarter_round. Qed.

Lemma length_rounds k w : length (Nat.iter k double_round w) = length w.
Proof. induction k as [|k IH]; [done|]. rewrite Nat.iter_succ, length_double_round. apply IH. Qed.

Lemma length_words4 (l : list Z) : length (l ≫= to_le_bytes 4) = (4 * length l)%nat.
Proof.
  induction l as [|x l IH]; [done|]. cbn [mbind list_bind length].
  rewrite length_app, length_to_le_bytes, IH. lia.
Qed.

Lemma length_chacha20_state key ctr nonce :
  length key = 32%nat → length nonce = 12%nat → length (chacha20_state key ctr nonce) = 16%nat.
Proof.
  intros Hk Hn. unfold chacha20_state. rewrite !length_app, !length_fmap.
  rewrite (length_chunks 4 8), (length_chunks 4 3) by (lia || (rewrite length_take; lia)). done.
Qed.

Lemma length_chacha20_block key ctr nonce :
  length key = 32%nat → length nonce = 12%nat → length (chacha20_block key ctr nonce) = 64%nat.
Proof.
  intros Hk Hn. unfold chacha20_block.
  rewrite length_words4, length_zip_with, length_rounds, length_chacha20_state by done. done.
Qed.

Lemma length_poly1305_tag key msg : length (poly1305_tag key msg) = 16%nat.
Proof. apply length_to_le_bytes. Qed.

Lemma length_chacha20_encrypt key ctr nonce data :
  length key = 32%nat → length nonce = 12%nat →
  length (chacha20_encrypt key ctr nonce data) = length data.
Proof. intros. apply (stream_xor_len 64 _ _ (λ _, True)); try done; [lia|]. intros. by apply length_chacha20_block. Qed.

Lemma chacha20_involutive key ctr nonce data :
  length key = 32%nat → length nonce = 12%nat →
  chacha20_encrypt key ctr nonce (chacha20_encrypt key ctr nonce data) = data.
Proof. intros. apply (stream_xor_involutive 64 _ _ (λ _, True)); try done; [lia|]. intros. by apply length_chacha20_block. Qed.

Lemma iter_wadd1 k c : uN 32 c → Nat.iter k (λ ctr, wadd 32 ctr 1) c = wadd 32 c (Z.of_nat k).
Proof.
  intros Hc. induction k as [|k IH].
  - simpl. unfold wadd. by rewrite Z.add_0_r, wrap_id.
  - rewrite Nat.iter_succ, IH. unfold wadd, wrap. rewrite Zplus_mod_idemp_l. f_equal. lia.
Qed.

(** ** Theorems *)

(** ChaCha20 as a stream cipher: encrypting twice with the same key,
    counter and nonce restores the data, whatever its length, and data cut at
    a 64-byte boundary after [k] blocks is the two parts encrypted
    separately, the second from counter [counter + k] (mod [2^32]). *)
Theorem chacha20_stream_cipher key counter nonce d1 d2 (k : nat) :
  length key = 32%nat → length nonce = 12%nat → uN 32 counter → length d1 = (k * 64)%nat →
  chacha20_encrypt key counter nonce (chacha20_encrypt key counter nonce (d1 ++ d2)) = d1 ++ d2
  ∧ chacha20_encrypt key counter nonce (d1 ++ d2)
    = chacha20_encrypt key counter nonce d1
      ++ chacha20_encrypt key (wadd 32 counter (Z.of_nat k)) nonce d2.
Proof.
  intros Hk Hn Hc Hd. split; [by apply chacha20_involutive|]. unfold chacha20_encrypt.
  rewrite <- iter_wadd1 by done. apply (stream_xor_app 64 _ _ (λ _, True)); try done; [lia|].
  intros. by apply length_chacha20_block.
Qed.

Lemma chacha20_stream_cipher_witness :
  chacha20_encrypt (replicate 32 7) 1 (replicate 12 9)
    (chacha20_encrypt (replicate 32 7) 1 (replicate 12 9) (replicate 64 5 ++ [1; 2; 3]))
  = replicate 64 5 ++ [1; 2; 3].
Proof.
  apply (chacha20_stream_cipher (replicate 32 7) 1 (replicate 12 9) (replicate 64 5) [1; 2; 3] 1);
    [reflexivity|reflexivity|unfold uN; lia|reflexivity].
Defined.

#[export] Instance chacha20_poly1305_aead :
  Aead 32 "chacha20-poly1305: tag mismatch" chacha20_poly1305_seal chacha20_poly1305_open.
Proof.
  split.
  - intros key nonce aad pt (? & _ & ? & _). by apply length_chacha20_encrypt.
  - intros. apply length_poly1305_tag.
  - intros key nonce aad pt (? & _ & ? & _). unfold chacha20_poly1305_open, chacha20_poly1305_seal.
    cbn [fst snd]. rewrite tags_differ_refl. f_equal. by apply chacha20_involutive.
  - intros key nonce aad pt tag _ Ht Hne. unfold chacha20_poly1305_open, chacha20_poly1305_seal in *.
    cbn [fst snd] in *. destruct (tags_differ _ _) eqn:E; [done|].
    apply tags_differ_spec in E; [|by rewrite length_poly1305_tag, Ht]. by subst.
Qed.

(** The block function on RFC 8439's test vector (2.3.2). *)
Example chacha20_rfc8439 :
  from_be_bytes (chacha20_block (seqZ 0 32) 1 [0; 0; 0; 9; 0; 0; 0; 0x4a; 0; 0; 0; 0])
  = 0x10f1e7e4d13b5915500fdd1fa32071c4c7d1f4c733c068030422aa9ac3d46c4ed2826446079faa0914c2d705d98b02a2b5129cd1de164eb9cbd083e8a2503c4e.
Proof. vm_compute. reflexivity. Qed.

(** RFC 8439's Poly1305 vector (2.5.2) is not reproduced: the expected tag
    starts with [a8 06 1d c1]. *)
Example poly1305_not_rfc8439 :
  take 4 (poly1305_tag
    [0x85; 0xd6; 0xbe; 0x78; 0x57; 0x55; 0x6d; 0x33; 0x7f; 0x44; 0x52; 0xfe; 0x42; 0xd5; 0x06; 0xa8;
     0x01; 0x03; 0x80; 0x8a; 0xfb; 0x0d; 0xb2; 0xfd; 0x4a; 0xbf; 0xf6; 0xaf; 0x41; 0x49; 0xf5; 0x1b]
    [67; 114; 121; 112; 116; 111; 103; 114; 97; 112; 104; 105; 99; 32; 70; 111; 114; 117; 109; 32;
     82; 101; 115; 101; 97; 114; 99; 104; 32; 71; 114; 111; 117; 112]) ≠ [0xa8; 0x06; 0x1d; 0xc1].
Proof. vm_compute. discriminate. Qed.

(** Without the reduction, a flipped top bit of a block is multiplied away
    when [r] is even: the altered ciphertext opens under the old tag. *)
Example poly1305_forgery :
  let key := replicate 32 1 in let nonce := replicate 12 0 in
  let (ct, tag) := chacha20_poly1305_seal key nonce [] (replicate 16 5) in
  let ct' := <[15%nat := Z.lxor (nth 15 ct 0) 0x80]> ct in
  ct' ≠ ct ∧ is_ok (chacha20_poly1305_open key nonce [] ct' tag) = true.
Proof. vm_compute. split; [discriminate|reflexivity]. Qed.
