(* ===== verification/Aes.v ===== *)
(** AES-128 and AES-256, counter mode ([crypto/aes.rs]).

    The S-box table, the field multiplication, both key schedules, the block
    encryption and the [AesCtr128] key stream, as the source runs them.  The
    source has no decryption; [aes_decrypt] is FIPS 197's inverse cipher, the
    reference against which the block function is shown to be invertible.
    The theorems: the S-box table is the affine image of the field inverse and
    [gmul] is multiplication modulo [x^8 + x^4 + x^3 + x + 1]; every key gives
    an invertible block function; the byte-wise [apply_keystream], fed in any
    pieces, is the block-wise counter mode; the counter is a 128-bit
    big-endian integer. *)

From S2P Require Import Prelude Bits Words Aead.
From Stdlib Require Import Btauto.

(** ** Tables and field arithmetic *)

Definition SBOX : list Z :=
  [0x63; 0x7c; 0x77; 0x7b; 0xf2; 0x6b; 0x6f; 0xc5; 0x30; 0x01; 0x67; 0x2b; 0xfe; 0xd7; 0xab; 0x76;
   0xca; 0x82; 0xc9; 0x7d; 0xfa; 0x59; 0x47; 0xf0; 0xad; 0xd4; 0xa2; 0xaf; 0x9c; 0xa4; 0x72; 0xc0;
   0xb7; 0xfd; 0x93; 0x26; 0x36; 0x3f; 0xf7; 0xcc; 0x34; 0xa5; 0xe5; 0xf1; 0x71; 0xd8; 0x31; 0x15;
   0x04; 0xc7; 0x23; 0xc3; 0x18; 0x96; 0x05; 0x9a; 0x07; 0x12; 0x80; 0xe2; 0xeb; 0x27; 0xb2; 0x75;
   0x09; 0x83; 0x2c; 0x1a; 0x1b; 0x6e; 0x5a; 0xa0; 0x52; 0x3b; 0xd6; 0xb3; 0x29; 0xe3; 0x2f; 0x84;
   0x53; 0xd1; 0x00; 0xed; 0x20; 0xfc; 0xb1; 0x5b; 0x6a; 0xcb; 0xbe; 0x39; 0x4a; 0x4c; 0x58; 0xcf;
   0xd0; 0xef; 0xaa; 0xfb; 0x43; 0x4d; 0x33; 0x85; 0x45; 0xf9; 0x02; 0x7f; 0x50; 0x3c; 0x9f; 0xa8;
   0x51; 0xa3; 0x40; 0x8f; 0x92; 0x9d; 0x38; 0xf5; 0xbc; 0xb6; 0xda; 0x21; 0x10; 0xff; 0xf3; 0xd2;
   0xcd; 0x0c; 0x13; 0xec; 0x5f; 0x97; 0x44; 0x17; 0xc4; 0xa7; 0x7e; 0x3d; 0x64; 0x5d; 0x19; 0x73;
   0x60; 0x81; 0x4f; 0xdc; 0x22; 0x2a; 0x90; 0x88; 0x46; 0xee; 0xb8; 0x14; 0xde; 0x5e; 0x0b; 0xdb;
   0xe0; 0x32; 0x3a; 0x0a; 0x49; 0x06; 0x24; 0x5c; 0xc2; 0xd3; 0xac; 0x62; 0x91; 0x95; 0xe4; 0x79;
   0xe7; 0xc8; 0x37; 0x6d; 0x8d; 0xd5; 0x4e; 0xa9; 0x6c; 0x56; 0xf4; 0xea; 0x65; 0x7a; 0xae; 0x08;
   0xba; 0x78; 0x25; 0x2e; 0x1c; 0xa6; 0xb4; 0xc6; 0xe8; 0xdd; 0x74; 0x1f; 0x4b; 0xbd; 0x8b; 0x8a;
   0x70; 0x3e; 0xb5; 0x66; 0x48; 0x03; 0xf6; 0x0e; 0x61; 0x35; 0x57; 0xb9; 0x86; 0xc1; 0x1d; 0x9e;
   0xe1; 0xf8; 0x98; 0x11; 0x69; 0xd9; 0x8e; 0x94; 0x9b; 0x1e; 0x87; 0xe9; 0xce; 0x55; 0x28; 0xdf;
   0x8c; 0xa1; 0x89; 0x0d; 0xbf; 0xe6; 0x42; 0x68; 0x41; 0x99; 0x2d; 0x0f; 0xb0; 0x54; 0xbb; 0x16].

Definition RCON : list Z := [0x00; 0x01; 0x02; 0x04; 0x08; 0x10; 0x20; 0x40; 0x80; 0x1b; 0x36].

Definition sbox (b : Z) : Z := nth (Z.to_nat b) SBOX 0.
Definition rcon (i : nat) : Z := nth i RCON 0.

Definition xtime (b : Z) : Z :=
  Z.lxor (wrap 8 (Z.shiftl b 1)) (if Z.land b 0x80 =? 0 then 0 else 0x1b).

Fixpoint gmul_loop (n : nat) (a b p : Z) : Z :=
  match n with
  | O => p
  | S n' =>
      let p := if Z.land b 1 =? 0 then p else Z.lxor p a in
      let carry := negb (Z.land a 0x80 =? 0) in
      let a := wrap 8 (Z.shiftl a 1) in
      let a := if carry then Z.lxor a 0x1b else a in
      gmul_loop n' a (Z.shiftr b 1) p
  end.
Definition gmul (a b : Z) : Z := gmul_loop 8 a b 0.

(** ** Key schedules *)

Definition byte_at (i : nat) (l : list Z) : Z := nth i l 0.

(** [for j in 4..16 { rk[cur+j] = rk[cur+j-4] ^ rk[base+j]; }]: [cur] holds the
    bytes written so far of the new round key, [base] the previous one. *)
Fixpoint chain_words (n : nat) (cur base : list Z) : list Z :=
  match n with
  | O => cur
  | S n' =>
      let j := length cur in
      chain_words n' (cur ++ [Z.lxor (byte_at (j - 4) cur) (byte_at j base)]) base
  end.

(** A round key from its predecessor [base] and the transformed word [w]. *)
Definition next_key (w base : list Z) : list Z := chain_words 12 (xor_bytes (take 4 base) w) base.

Definition rot_sub_rcon (i : nat) (last4 : list Z) : list Z :=
  [Z.lxor (sbox (byte_at 1 last4)) (rcon i); sbox (byte_at 2 last4);
   sbox (byte_at 3 last4); sbox (byte_at 0 last4)].

(** [for i in i0..=10] of [aes128_key_expand]; [rk] is the schedule so far. *)
Fixpoint expand128 (n i : nat) (rk : list Z) : list Z :=
  match n with
  | O => rk
  | S n' =>
      let prev := drop ((i - 1) * 16) rk in
      expand128 n' (S i) (rk ++ next_key (rot_sub_rcon i (drop 12 prev)) prev)
  end.
Definition aes128_key_expand (key : list Z) : list Z := expand128 10 1 (take 16 key).

Fixpoint expand256 (n i : nat) (rk : list Z) : list Z :=
  match n with
  | O => rk
  | S n' =>
      let base := ((i - 1) * 32)%nat in
      let prev := take 32 (drop base rk) in
      let cur := (base + 32)%nat in
      let k1 := next_key (rot_sub_rcon i (drop 28 prev)) (take 16 prev) in
      let rk1 := rk ++ k1 in
      let rk2 := if (cur + 16 + 16 <=? 240)%nat
                 then rk1 ++ next_key (sbox <$> drop 12 k1) (drop 16 prev)
                 else rk1 in
      expand256 n' (S i) rk2
  end.
Definition aes256_key_expand (key : list Z) : list Z := expand256 7 1 (take 32 key).

(** ** Block encryption *)

Definition add_round_key (state rk : list Z) : list Z := xor_bytes state rk.

Definition sub_bytes (state : list Z) : list Z := sbox <$> state.

Definition swap (i j : nat) (s : list Z) : list Z := <[j := byte_at i s]> (<[i := byte_at j s]> s).

Definition shift_rows (s : list Z) : list Z :=
  let tmp := byte_at 1 s in
  let s := <[1%nat := byte_at 5 s]> s in
  let s := <[5%nat := byte_at 9 s]> s in
  let s := <[9%nat := byte_at 13 s]> s in
  let s := <[13%nat := tmp]> s in
  let s := swap 2 10 s in
  let s := swap 6 14 s in
  let tmp := byte_at 15 s in
  let s := <[15%nat := byte_at 11 s]> s in
  let s := <[11%nat := byte_at 7 s]> s in
  let s := <[7%nat := byte_at 3 s]> s in
  <[3%nat := tmp]> s.

(** The body of the loop of [mix_columns] on one column. *)
Definition mix_column (c : list Z) : list Z :=
  match c with
  | [s0; s1; s2; s3] =>
      [Z.lxor (Z.lxor (Z.lxor (gmul 0x02 s0) (gmul 0x03 s1)) s2) s3;
       Z.lxor (Z.lxor (Z.lxor s0 (gmul 0x02 s1)) (gmul 0x03 s2)) s3;
       Z.lxor (Z.lxor (Z.lxor s0 s1) (gmul 0x02 s2)) (gmul 0x03 s3);
       Z.lxor (Z.lxor (Z.lxor (gmul 0x03 s0) s1) s2) (gmul 0x02 s3)]
  | _ => c
  end.
Definition mix_columns (state : list Z) : list Z := chunks 4 state ≫= mix_column.

(** [rk[round*16..round*16+16]] *)
Definition round_key (rk : list Z) (round : nat) : list Z := take 16 (drop (round * 16) rk).

Definition full_round (rk : list Z) (state : list Z) (round : nat) : list Z :=
  add_round_key (mix_columns (shift_rows (sub_bytes state))) (round_key rk round).

(** [N] rounds, the last one without [mix_columns]. *)
Definition encrypt_block (N : nat) (block rk : list Z) : list Z :=
  let state := add_round_key block (round_key rk 0) in
  let state := foldl (full_round rk) state (seq 1 (N - 1)) in
  add_round_key (shift_rows (sub_bytes state)) (round_key rk N).

Definition aes128_encrypt_block : list Z → list Z → list Z := encrypt_block 10.
Definition aes256_encrypt_block : list Z → list Z → list Z := encrypt_block 14.

(** ** Counter mode *)

Record AesCtr128 := mkCtr {
  ctr_rk : list Z;
  ctr_counter : list Z;
  ctr_keystream : list Z;
  ctr_ks_pos : nat;
}.

Definition AesCtr128_new (key iv : list Z) : AesCtr128 :=
  mkCtr (aes128_key_expand key) iv (replicate 16 0) 16.

(** [loop { c[i] = c[i].wrapping_add(1); if c[i] != 0 || i == 0 { break; } i -= 1; }] *)
Fixpoint inc_loop (i : nat) (c : list Z) : list Z :=
  let c' := <[i := wadd 8 (byte_at i c) 1]> c in
  if negb (byte_at i c' =? 0) || (i =? 0)%nat then c'
  else match i with
       | O => c'
       | S i' => inc_loop i' c'
       end.

Definition refill (s : AesCtr128) : AesCtr128 :=
  mkCtr (ctr_rk s) (inc_loop 15 (ctr_counter s))
        (aes128_encrypt_block (ctr_counter s) (ctr_rk s)) 0.

(** Body of the loop of [apply_keystream]. *)
Definition apply_byte (s : AesCtr128) (b : Z) : Z * AesCtr128 :=
  let s := if (ctr_ks_pos s =? 16)%nat then refill s else s in
  (Z.lxor b (byte_at (ctr_ks_pos s) (ctr_keystream s)),
   mkCtr (ctr_rk s) (ctr_counter s) (ctr_keystream s) (S (ctr_ks_pos s))).

Fixpoint apply_keystream (s : AesCtr128) (buf : list Z) : list Z * AesCtr128 :=
  match buf with
  | [] => ([], s)
  | b :: buf' =>
      let (b', s1) := apply_byte s b in
      let (out, s2) := apply_keystream s1 buf' in
      (b' :: out, s2)
  end.

(** ** The field *)

(** Product of two bytes as polynomials over GF(2), then reduction by
    [x^8 + x^4 + x^3 + x + 1]. *)
Definition clmul (a b : Z) : Z :=
  foldl (λ z i, if Z.testbit b i then Z.lxor z (Z.shiftl a i) else z) 0 (seqZ 0 8).
Definition reduce (v : Z) : Z :=
  foldl (λ z i, if Z.testbit z (i + 8) then Z.lxor z (Z.shiftl 0x11b i) else z) v [6; 5; 4; 3; 2; 1; 0].
Definition gmul_ref (a b : Z) : Z := reduce (clmul a b).

(** FIPS 197: the affine image of the multiplicative inverse [b^254]. *)
Definition gf_square (b : Z) : Z := gmul_ref b b.
Definition gf_inv (b : Z) : Z :=
  let step x := gf_square (gmul_ref x b) in Nat.iter 7 step 1.
Definition sbox_ref (b : Z) : Z :=
  let i := if b =? 0 then 0 else gf_inv b in
  Z.lxor (Z.lxor (Z.lxor (Z.lxor (Z.lxor i (rotl 8 1 i)) (rotl 8 2 i)) (rotl 8 3 i)) (rotl 8 4 i)) 0x63.

Lemma sbox_is_ref b : uN 8 b → sbox b = sbox_ref b.
Proof.
  intros. apply Z.eqb_eq. apply (forall_byte (λ b, sbox b =? sbox_ref b)); [|done].
  vm_compute. reflexivity.
Qed.

Lemma SBOX_bytes : bytes_ok SBOX.
Proof. apply (bool_decide_unpack _). vm_compute. done. Qed.
Lemma sbox_ok b : uN 8 (sbox b).
Proof. apply nth_bytes_ok, SBOX_bytes. Qed.
Lemma rcon_ok i : uN 8 (rcon i).
Proof. apply nth_bytes_ok. apply (bool_decide_unpack _). vm_compute. done. Qed.

Lemma xtime_gmul b : uN 8 b → xtime b = gmul b 2.
Proof.
  intros. apply Z.eqb_eq. apply (forall_byte (λ b, xtime b =? gmul b 2)); [|done].
  vm_compute. reflexivity.
Qed.

(** [gmul] is linear in its second argument and yields bytes. *)
Lemma lxor_land1 b b' : Z.land (Z.lxor b b') 1 = Z.lxor (Z.land b 1) (Z.land b' 1).
Proof. apply Z.bits_inj'. intros i _. rewrite ?Z.land_spec, ?Z.lxor_spec, ?Z.land_spec. btauto. Qed.

Lemma land1_cases b : Z.land b 1 = 0 ∨ Z.land b 1 = 1.
Proof.
  change (Z.land b 1) with (Z.land b (Z.ones 1)). rewrite Z.land_ones by lia.
  pose proof (Z.mod_pos_bound b (2 ^ 1) ltac:(lia)). change (2 ^ 1) with 2 in *. lia.
Qed.

Lemma gmul_loop_lxor n a b b' p p' :
  gmul_loop n a (Z.lxor b b') (Z.lxor p p') = Z.lxor (gmul_loop n a b p) (gmul_loop n a b' p').
Proof.
  revert a b b' p p'. induction n as [|n IH]; intros; [done|]. cbn [gmul_loop].
  rewrite Z.shiftr_lxor, <- IH, lxor_land1. f_equal.
  destruct (land1_cases b) as [->| ->], (land1_cases b') as [->| ->]; simpl; try done;
    apply Z.bits_inj'; intros i _; rewrite !Z.lxor_spec; btauto.
Qed.

Lemma gmul_lxor a x y : gmul a (Z.lxor x y) = Z.lxor (gmul a x) (gmul a y).
Proof. unfold gmul. rewrite <- gmul_loop_lxor. done. Qed.

Lemma gmul_loop_ok n a b p : uN 8 a → uN 8 p → uN 8 (gmul_loop n a b p).
Proof.
  revert a b p. induction n as [|n IH]; intros a b p Ha Hp; [done|]. cbn [gmul_loop].
  assert (uN 8 (wrap 8 (Z.shiftl a 1))) by (apply wrap_range; lia).
  apply IH; [destruct (negb _)|destruct (_ =? 0)]; try done; apply lxor_uN; try done; unfold uN; lia.
Qed.

Lemma gmul_ok a b : uN 8 a → uN 8 (gmul a b).
Proof. intros. apply gmul_loop_ok; [done|unfold uN; lia]. Qed.

(** Both products are linear, so it is enough to compare them on powers of two. *)
Lemma lxor_swap a b c d : Z.lxor (Z.lxor a b) (Z.lxor c d) = Z.lxor (Z.lxor a c) (Z.lxor b d).
Proof. apply Z.bits_inj'. intros i _. rewrite !Z.lxor_spec. btauto. Qed.

Lemma clmul_lxor a x y : clmul a (Z.lxor x y) = Z.lxor (clmul a x) (clmul a y).
Proof.
  unfold clmul. generalize (seqZ 0 8) as l. change 0 with (Z.lxor 0 0) at 1.
  generalize 0 at 1 3 as z. generalize 0 as z'. intros z' z l. revert z z'.
  induction l as [|i l IH]; intros z z'; [done|]. cbn [foldl]. rewrite <- IH. f_equal.
  rewrite Z.lxor_spec. destruct (Z.testbit x i), (Z.testbit y i); simpl; try done;
    apply Z.bits_inj'; intros j _; rewrite !Z.lxor_spec; btauto.
Qed.

Lemma reduce_lxor x y : reduce (Z.lxor x y) = Z.lxor (reduce x) (reduce y).
Proof.
  unfold reduce. generalize [6; 5; 4; 3; 2; 1; 0] as l. intros l. revert x y.
  induction l as [|i l IH]; intros x y; [done|]. cbn [foldl]. rewrite <- IH. f_equal.
  rewrite Z.lxor_spec. destruct (Z.testbit x _), (Z.testbit y _); simpl; try done;
    apply Z.bits_inj'; intros j _; rewrite !Z.lxor_spec; btauto.
Qed.

(** A byte as the sum of its bits. *)
Definition byte_bits (b : Z) : list Z := (λ i, if Z.testbit b i then 2 ^ i else 0) <$> seqZ 0 8.

Lemma linear_byte (f g : Z → Z) :
  (∀ x y, f (Z.lxor x y) = Z.lxor (f x) (f y)) → (∀ x y, g (Z.lxor x y) = Z.lxor (g x) (g y)) →
  Forall (λ x, f x = g x) (0 :: ((λ i, 2 ^ i) <$> seqZ 0 8)) → ∀ b, uN 8 b → f b = g b.
Proof.
  intros Hf Hg Hfg b Hb. rewrite Forall_cons, Forall_fmap in Hfg. destruct Hfg as [H0 Hp].
  assert (b = foldl Z.lxor 0 (byte_bits b)) as ->.
  { apply Z.eqb_eq. apply (forall_byte (λ b, b =? foldl Z.lxor 0 (byte_bits b))); [|done].
    vm_compute. reflexivity. }
  unfold byte_bits. generalize (Z.testbit b) as t. intros t.
  assert (Hz : ∀ l z, Forall (λ i, f (2 ^ i) = g (2 ^ i)) l → f z = g z →
    f (foldl Z.lxor z ((λ i, if t i then 2 ^ i else 0) <$> l))
    = g (foldl Z.lxor z ((λ i, if t i then 2 ^ i else 0) <$> l))).
  { induction l as [|i l IH]; intros z Hl Hz; [done|]. rewrite Forall_cons in Hl.
    cbn [fmap list_fmap foldl]. apply IH; [naive_solver|]. rewrite Hf, Hg, Hz. f_equal.
    destruct (t i); naive_solver. }
  by apply Hz.
Qed.

Lemma gmul_is_ref a b : uN 8 a → uN 8 b → gmul a b = gmul_ref a b.
Proof.
  intros Ha Hb. apply linear_byte; [intros; apply gmul_lxor| |
    |done].
  { intros. unfold gmul_ref. by rewrite clmul_lxor, reduce_lxor. }
  apply (bool_decide_eq_true_1 _). revert a Ha.
  apply (forall_byte (λ a, bool_decide
    (Forall (λ x, gmul a x = gmul_ref a x) (0 :: ((λ i, 2 ^ i) <$> seqZ 0 8))))).
  vm_compute. reflexivity.
Qed.

(** ** The inverse cipher *)

Definition inv_sbox (b : Z) : Z :=
  match list_find (λ x, x = b) SBOX with
  | Some (i, _) => Z.of_nat i
  | None => 0
  end.

Definition inv_sub_bytes (s : list Z) : list Z := inv_sbox <$> s.

(** [shift_rows] moves byte [nth i shift_perm] to place [i]. *)
Definition shift_perm : list nat := [0; 5; 10; 15; 4; 9; 14; 3; 8; 13; 2; 7; 12; 1; 6; 11]%nat.
Definition inv_shift_perm : list nat := [0; 13; 10; 7; 4; 1; 14; 11; 8; 5; 2; 15; 12; 9; 6; 3]%nat.
Definition inv_shift_rows (s : list Z) : list Z := (λ i, byte_at i s) <$> inv_shift_perm.

Definition inv_mix_column (c : list Z) : list Z :=
  match c with
  | [s0; s1; s2; s3] =>
      [Z.lxor (Z.lxor (Z.lxor (gmul 14 s0) (gmul 11 s1)) (gmul 13 s2)) (gmul 9 s3);
       Z.lxor (Z.lxor (Z.lxor (gmul 9 s0) (gmul 14 s1)) (gmul 11 s2)) (gmul 13 s3);
       Z.lxor (Z.lxor (Z.lxor (gmul 13 s0) (gmul 9 s1)) (gmul 14 s2)) (gmul 11 s3);
       Z.lxor (Z.lxor (Z.lxor (gmul 11 s0) (gmul 13 s1)) (gmul 9 s2)) (gmul 14 s3)]
  | _ => c
  end.
Definition inv_mix_columns (state : list Z) : list Z := chunks 4 state ≫= inv_mix_column.

Definition inv_full_round (rk : list Z) (state : list Z) (round : nat) : list Z :=
  inv_sub_bytes (inv_shift_rows (inv_mix_columns (add_round_key state (round_key rk round)))).

Definition aes_decrypt (N : nat) (block rk : list Z) : list Z :=
  let state := inv_sub_bytes (inv_shift_rows (add_round_key block (round_key rk N))) in
  let state := foldl (inv_full_round rk) state (reverse (seq 1 (N - 1))) in
  add_round_key state (round_key rk 0).

(** A 16-byte state. *)
Definition state_ok (s : list Z) : Prop := length s = 16%nat ∧ bytes_ok s.

Lemma inv_sbox_sbox b : uN 8 b → inv_sbox (sbox b) = b.
Proof.
  intros. apply Z.eqb_eq. apply (forall_byte (λ b, inv_sbox (sbox b) =? b)); [|done].
  vm_compute. reflexivity.
Qed.

Lemma sub_bytes_ok s : state_ok s → state_ok (sub_bytes s).
Proof.
  intros [Hl Hb]. split; [by unfold sub_bytes; rewrite length_fmap|].
  apply Forall_fmap, Forall_forall. intros x _. apply sbox_ok.
Qed.

Lemma inv_sub_bytes_sub_bytes s : bytes_ok s → inv_sub_bytes (sub_bytes s) = s.
Proof.
  intros Hb. unfold inv_sub_bytes, sub_bytes.
  induction Hb as [|x s Hx _ IH]; [done|]. cbn [fmap list_fmap] in *.
  rewrite inv_sbox_sbox by done. by f_equal.
Qed.

(** Split a 16-byte state into its bytes. *)
Ltac split_state s H :=
  do 16 (destruct s as [|? s]; [discriminate H|]); destruct s; [|discriminate H].

Lemma shift_rows_perm s : length s = 16%nat → shift_rows s = (λ i, byte_at i s) <$> shift_perm.
Proof. intros H. split_state s H. done. Qed.

Lemma inv_shift_rows_shift_rows s : length s = 16%nat → inv_shift_rows (shift_rows s) = s.
Proof. intros H. split_state s H. done. Qed.

Lemma shift_rows_ok s : state_ok s → state_ok (shift_rows s).
Proof.
  intros [Hl Hb]. rewrite shift_rows_perm by done. split; [done|].
  apply Forall_fmap, Forall_forall. intros i _. by apply nth_bytes_ok.
Qed.

Lemma lxor_transpose a b c d e f g h i j k l m n o p :
  Z.lxor (Z.lxor (Z.lxor (Z.lxor (Z.lxor (Z.lxor a b) c) d) (Z.lxor (Z.lxor (Z.lxor e f) g) h))
                 (Z.lxor (Z.lxor (Z.lxor i j) k) l)) (Z.lxor (Z.lxor (Z.lxor m n) o) p)
  = Z.lxor (Z.lxor (Z.lxor (Z.lxor (Z.lxor (Z.lxor a e) i) m) (Z.lxor (Z.lxor (Z.lxor b f) j) n))
                 (Z.lxor (Z.lxor (Z.lxor c g) k) o)) (Z.lxor (Z.lxor (Z.lxor d h) l) p).
Proof. apply Z.bits_inj'; intros ? _; rewrite !Z.lxor_spec; btauto. Qed.

Lemma lxor_rotate a b c d :
  Z.lxor (Z.lxor (Z.lxor a b) c) d = Z.lxor (Z.lxor (Z.lxor b c) d) a.
Proof. apply Z.bits_inj'; intros ? _; rewrite !Z.lxor_spec; btauto. Qed.

(** The inverse matrix undoes each source byte's contribution. *)
Lemma inv_mix_coefficients s :
  uN 8 s →
  Z.lxor (Z.lxor (Z.lxor (gmul 14 (gmul 2 s)) (gmul 11 s)) (gmul 13 s)) (gmul 9 (gmul 3 s)) = s
  ∧ Z.lxor (Z.lxor (Z.lxor (gmul 14 (gmul 3 s)) (gmul 11 (gmul 2 s))) (gmul 13 s)) (gmul 9 s) = 0
  ∧ Z.lxor (Z.lxor (Z.lxor (gmul 14 s) (gmul 11 (gmul 3 s))) (gmul 13 (gmul 2 s))) (gmul 9 s) = 0
  ∧ Z.lxor (Z.lxor (Z.lxor (gmul 14 s) (gmul 11 s)) (gmul 13 (gmul 3 s))) (gmul 9 (gmul 2 s)) = 0.
Proof.
  intros Hs. apply (bool_decide_eq_true_1 _). revert s Hs. apply (forall_byte (λ s, bool_decide _)).
  vm_compute. reflexivity.
Qed.

Lemma inv_mix_column_mix_column c :
  length c = 4%nat → bytes_ok c → inv_mix_column (mix_column c) = c.
Proof.
  intros Hl Hb. do 4 (destruct c as [|? c]; [done|]). destruct c; [|done]. clear Hl.
  rewrite !Forall_cons in Hb. destruct Hb as (H0 & H1 & H2 & H3 & _).
  destruct (inv_mix_coefficients _ H0) as (A0 & B0 & C0 & D0).
  destruct (inv_mix_coefficients _ H1) as (A1 & B1 & C1 & D1).
  destruct (inv_mix_coefficients _ H2) as (A2 & B2 & C2 & D2).
  destruct (inv_mix_coefficients _ H3) as (A3 & B3 & C3 & D3).
  cbn [mix_column inv_mix_column]. rewrite !gmul_lxor.
  repeat apply (f_equal2 cons); [| | | |done]; (eapply eq_trans; [apply lxor_transpose|]).
  - by rewrite A0, B1, C2, D3, !Z.lxor_0_r.
  - rewrite !(lxor_rotate (gmul 9 _)). by rewrite D0, A1, B2, C3, Z.lxor_0_l, !Z.lxor_0_r.
  - rewrite !(lxor_rotate (gmul 13 _)), !(lxor_rotate (gmul 9 _)).
    by rewrite C0, D1, A2, B3, !Z.lxor_0_l, !Z.lxor_0_r.
  - rewrite !(lxor_rotate (gmul 11 _)), !(lxor_rotate (gmul 13 _)), !(lxor_rotate (gmul 9 _)).
    by rewrite B0, C1, D2, A3, !Z.lxor_0_l.
Qed.

Lemma mix_column_ok c : bytes_ok c → bytes_ok (mix_column c).
Proof.
  intros Hb. do 4 (destruct c as [|? c]; [done|]). destruct c; [|done].
  rewrite !Forall_cons in Hb. destruct Hb as (H0 & H1 & H2 & H3 & _). cbn [mix_column].
  assert (Hm : ∀ a x, uN 8 a → uN 8 (gmul a x)) by (intros; by apply gmul_ok).
  rewrite !Forall_cons, Forall_nil.
  split_and!; try done; repeat (apply lxor_uN; [lia|..]); try done; apply Hm; unfold uN; lia.
Qed.

(** Column maps of a 16-byte state, one column at a time. *)
Lemma columns_ok (f : list Z → list Z) s :
  (∀ c, length c = 4%nat → bytes_ok c → length (f c) = 4%nat ∧ bytes_ok (f c)) →
  state_ok s → state_ok (chunks 4 s ≫= f)
  ∧ chunks 4 (chunks 4 s ≫= f) = f <$> chunks 4 s.
Proof.
  intros Hf [Hl Hb]. split_state s Hl. rewrite !Forall_cons in Hb.
  destruct Hb as (? & ? & ? & ? & ? & ? & ? & ? & ? & ? & ? & ? & ? & ? & ? & ? & _).
  set (c1 := [z; z0; z1; z2]). set (c2 := [z3; z4; z5; z6]).
  set (c3 := [z7; z8; z9; z10]). set (c4 := [z11; z12; z13; z14]).
  assert (chunks 4 (c1 ++ c2 ++ c3 ++ c4) = [c1; c2; c3; c4]) as E by done.
  cbn [app c1 c2 c3 c4] in E. rewrite !E. clear E.
  assert (Hc : ∀ c, c ∈ [c1; c2; c3; c4] → length (f c) = 4%nat ∧ bytes_ok (f c)).
  { intros c Hc. rewrite !elem_of_cons, elem_of_nil in Hc.
    apply Hf; destruct Hc as [->|[->|[->|[->|[]]]]]; try done;
      unfold c1, c2, c3, c4; by rewrite !Forall_cons. }
  destruct (Hc c1) as [L1 B1], (Hc c2) as [L2 B2], (Hc c3) as [L3 B3], (Hc c4) as [L4 B4];
    try (rewrite !elem_of_cons; tauto).
  cbn [mbind list_bind fmap list_fmap]. split.
  - split; [rewrite !length_app, L1, L2, L3, L4; done|]. rewrite !Forall_app. done.
  - by rewrite !(chunks_app 4), (chunks_nil 4) by (done || lia).
Qed.

Lemma mix_columns_ok s : state_ok s → state_ok (mix_columns s).
Proof.
  intros Hs. apply columns_ok; [|done]. intros c Hl Hb. split; [|by apply mix_column_ok].
  by do 5 (destruct c as [|? c]; [done|]).
Qed.

Lemma inv_mix_columns_mix_columns s : state_ok s → inv_mix_columns (mix_columns s) = s.
Proof.
  intros Hs. unfold inv_mix_columns, mix_columns.
  destruct (columns_ok mix_column s) as [_ ->]; [|done|].
  { intros c Hl Hb. split; [|by apply mix_column_ok]. by do 5 (destruct c as [|? c]; [done|]). }
  destruct Hs as [Hl Hb]. split_state s Hl. rewrite !Forall_cons in Hb.
  destruct Hb as (? & ? & ? & ? & ? & ? & ? & ? & ? & ? & ? & ? & ? & ? & ? & ? & _).
  change (chunks 4 _) with [[z; z0; z1; z2]; [z3; z4; z5; z6]; [z7; z8; z9; z10]; [z11; z12; z13; z14]].
  cbn [fmap list_fmap mbind list_bind].
  rewrite !inv_mix_column_mix_column by (done || by rewrite !Forall_cons). done.
Qed.

Lemma add_round_key_ok s k : state_ok s → state_ok k → state_ok (add_round_key s k).
Proof.
  intros [Hl Hb] [Hl' Hb']. split; [|by apply xor_bytes_ok].
  unfold add_round_key. by rewrite length_xor_bytes, Hl, Hl'.
Qed.

Lemma add_round_key_cancel s k :
  state_ok s → state_ok k → add_round_key (add_round_key s k) k = s.
Proof. intros [Hl _] [Hl' _]. apply xor_bytes_cancel. lia. Qed.

(** A key schedule of [N + 1] round keys. *)
Definition schedule_ok (N : nat) (rk : list Z) : Prop :=
  length rk = (16 * (N + 1))%nat ∧ bytes_ok rk.

Lemma round_key_ok N rk i : schedule_ok N rk → (i ≤ N)%nat → state_ok (round_key rk i).
Proof.
  intros [Hl Hb] Hi. unfold round_key. split; [rewrite length_take, length_drop; lia|].
  by apply Forall_take, Forall_drop.
Qed.

Lemma full_round_ok N rk s i :
  schedule_ok N rk → (i ≤ N)%nat → state_ok s → state_ok (full_round rk s i).
Proof.
  intros Hrk Hi Hs. unfold full_round. apply add_round_key_ok; [|by eapply round_key_ok].
  by apply mix_columns_ok, shift_rows_ok, sub_bytes_ok.
Qed.

Lemma inv_full_round_full_round N rk s i :
  schedule_ok N rk → (i ≤ N)%nat → state_ok s → inv_full_round rk (full_round rk s i) i = s.
Proof.
  intros Hrk Hi Hs. unfold inv_full_round, full_round.
  pose proof (round_key_ok N rk i Hrk Hi) as Hk.
  pose proof (sub_bytes_ok s Hs) as H1. pose proof (shift_rows_ok _ H1) as H2.
  pose proof (mix_columns_ok _ H2) as H3.
  rewrite add_round_key_cancel, inv_mix_columns_mix_columns, inv_shift_rows_shift_rows by (done || apply H1).
  apply inv_sub_bytes_sub_bytes, Hs.
Qed.

Lemma rounds_ok N rk s l :
  schedule_ok N rk → Forall (λ i, i ≤ N)%nat l → state_ok s → state_ok (foldl (full_round rk) s l).
Proof.
  intros Hrk Hi. revert s. induction Hi as [|i l Hi _ IH]; intros s Hs; [done|].
  cbn [foldl]. by apply IH, (full_round_ok N).
Qed.

Lemma inv_rounds_rounds N rk s l :
  schedule_ok N rk → Forall (λ i, i ≤ N)%nat l → state_ok s →
  foldl (inv_full_round rk) (foldl (full_round rk) s l) (reverse l) = s.
Proof.
  intros Hrk Hi. revert s. induction Hi as [|i l Hi _ IH]; intros s Hs; [done|].
  cbn [foldl]. rewrite reverse_cons, foldl_app, IH by by apply (full_round_ok N). cbn [foldl].
  by apply (inv_full_round_full_round N).
Qed.

Lemma encrypt_block_ok N block rk :
  schedule_ok N rk → state_ok block → state_ok (encrypt_block N block rk).
Proof.
  intros Hrk Hb. unfold encrypt_block.
  apply add_round_key_ok; [|apply (round_key_ok N); [done|lia]].
  apply shift_rows_ok, sub_bytes_ok, (rounds_ok N); [done| |].
  - apply Forall_forall. intros i Hi%elem_of_seq. lia.
  - apply add_round_key_ok; [done|]. apply (round_key_ok N); [done|lia].
Qed.

(** The inverse cipher undoes the block function, for any number of rounds and
    any key schedule. *)
Lemma decrypt_encrypt N block rk :
  schedule_ok N rk → state_ok block → aes_decrypt N (encrypt_block N block rk) rk = block.
Proof.
  intros Hrk Hb. unfold aes_decrypt, encrypt_block.
  pose proof (round_key_ok N rk 0 Hrk ltac:(lia)) as H0. pose proof (round_key_ok N rk N Hrk ltac:(lia)) as HN.
  pose proof (add_round_key_ok _ _ Hb H0) as Hs0. set (s0 := add_round_key block _) in *.
  assert (Hl : Forall (λ i, i ≤ N)%nat (seq 1 (N - 1)))
    by (apply Forall_forall; intros i Hi%elem_of_seq; lia).
  pose proof (rounds_ok N rk s0 _ Hrk Hl Hs0) as Hs1. set (s1 := foldl (full_round rk) _ _) in *.
  pose proof (sub_bytes_ok s1 Hs1) as H1. pose proof (shift_rows_ok _ H1) as H2.
  rewrite add_round_key_cancel, inv_shift_rows_shift_rows by (done || apply H1).
  rewrite inv_sub_bytes_sub_bytes by apply Hs1. unfold s1.
  rewrite (inv_rounds_rounds N) by done. by apply add_round_key_cancel.
Qed.

(** ** Key schedules *)

Lemma chain_words_ok n cur base :
  bytes_ok cur → bytes_ok base →
  length (chain_words n cur base) = (length cur + n)%nat ∧ bytes_ok (chain_words n cur base).
Proof.
  revert cur. induction n as [|n IH]; intros cur Hc Hb; cbn [chain_words]; [split; [lia|done]|].
  destruct (IH (cur ++ [Z.lxor (byte_at (length cur - 4) cur) (byte_at (length cur) base)])) as [H1 H2];
    [|done|].
  - apply Forall_app_2; [done|]. apply Forall_cons_2; [|done].
    apply lxor_uN; [lia|by apply nth_bytes_ok..].
  - rewrite length_app in H1. cbn [length] in H1. split; [lia|done].
Qed.

Lemma next_key_ok w base :
  bytes_ok w → bytes_ok base → length w = 4%nat → (4 ≤ length base)%nat → state_ok (next_key w base).
Proof.
  intros Hw Hb Hl Hlb. unfold next_key.
  destruct (chain_words_ok 12 (xor_bytes (take 4 base) w) base) as [H1 H2]; [|done|].
  - apply xor_bytes_ok; [by apply Forall_take|done].
  - split; [|done]. rewrite H1, length_xor_bytes, length_take. lia.
Qed.

Lemma rot_sub_rcon_ok i l : bytes_ok (rot_sub_rcon i l).
Proof.
  unfold rot_sub_rcon. rewrite !Forall_cons, Forall_nil.
  split_and!; try apply sbox_ok; [|done]. apply lxor_uN; [lia|apply sbox_ok|apply rcon_ok].
Qed.

Lemma fmap_sbox_ok l : bytes_ok (sbox <$> l).
Proof. apply Forall_fmap, Forall_forall. intros x _. apply sbox_ok. Qed.

Lemma expand128_ok n i rk :
  (0 < i)%nat → length rk = (16 * i)%nat → bytes_ok rk →
  length (expand128 n i rk) = (16 * (i + n))%nat ∧ bytes_ok (expand128 n i rk).
Proof.
  revert i rk. induction n as [|n IH]; intros i rk Hi Hl Hb; cbn [expand128]; [split; [lia|done]|].
  destruct (next_key_ok (rot_sub_rcon i (drop 12 (drop ((i - 1) * 16) rk))) (drop ((i - 1) * 16) rk))
    as [K1 K2]; [apply rot_sub_rcon_ok|by apply Forall_drop|done|rewrite length_drop; lia|].
  destruct (IH (S i) (rk ++ next_key (rot_sub_rcon i (drop 12 (drop ((i - 1) * 16) rk))) (drop ((i - 1) * 16) rk)))
    as [H1 H2]; [lia|rewrite length_app, K1; lia|by apply Forall_app_2|].
  split; [lia|done].
Qed.

Lemma aes128_schedule_ok key : length key = 16%nat → bytes_ok key → schedule_ok 10 (aes128_key_expand key).
Proof.
  intros Hl Hb. unfold aes128_key_expand. rewrite take_ge by lia.
  destruct (expand128_ok 10 1 key) as [H1 H2]; [lia|lia|done|]. split; [lia|done].
Qed.

(** One turn of [aes256_key_expand]: 32 bytes, or 16 on the last one. *)
Lemma expand256_step_ok i rk :
  (1 ≤ i ≤ 7)%nat → length rk = (32 * i)%nat → bytes_ok rk →
  ∃ k, expand256 1 i rk = rk ++ k ∧ bytes_ok k
       ∧ length k = (if (i <=? 6)%nat then 32 else 16)%nat.
Proof.
  intros Hi Hl Hb. cbn [expand256]. set (prev := take 32 (drop ((i - 1) * 32) rk)).
  assert (Hp : bytes_ok prev) by by apply Forall_take, Forall_drop.
  assert (Hpl : length prev = 32%nat) by (unfold prev; rewrite length_take, length_drop; lia).
  destruct (next_key_ok (rot_sub_rcon i (drop 28 prev)) (take 16 prev)) as [K1 K2];
    [apply rot_sub_rcon_ok|by apply Forall_take|done|rewrite length_take; lia|].
  set (k1 := next_key _ (take 16 prev)) in *.
  destruct (next_key_ok (sbox <$> drop 12 k1) (drop 16 prev)) as [L1 L2];
    [apply fmap_sbox_ok|by apply Forall_drop|rewrite length_fmap, length_drop; lia|rewrite length_drop; lia|].
  destruct (Nat.leb_spec ((i - 1) * 32 + 32 + 16 + 16) 240), (Nat.leb_spec i 6); try lia.
  - eexists. rewrite <- app_assoc. split; [done|]. split; [by apply Forall_app_2|].
    rewrite length_app, K1, L1. done.
  - exists k1. split_and!; [reflexivity|exact K2|exact K1].
Qed.

Lemma expand256_S n i rk : expand256 (S n) i rk = expand256 n (S i) (expand256 1 i rk).
Proof. done. Qed.

Lemma expand256_ok n i rk :
  (1 ≤ i)%nat → (i + n = 7)%nat → length rk = (32 * i)%nat → bytes_ok rk →
  schedule_ok 14 (expand256 (S n) i rk).
Proof.
  revert i rk. induction n as [|n IH]; intros i rk Hi Hn Hl Hb;
    (destruct (expand256_step_ok i rk) as (k & Hk & Hkb & Hkl); [lia|done|done|]);
    rewrite expand256_S, Hk.
  - cbn [expand256]. replace i with 7%nat in * by lia. split; [rewrite length_app, Hl, Hkl; done|].
    by apply Forall_app_2.
  - apply IH; [lia|lia| |by apply Forall_app_2]. rewrite length_app, Hkl.
    destruct (Nat.leb_spec i 6); lia.
Qed.

Lemma aes256_schedule_ok key : length key = 32%nat → bytes_ok key → schedule_ok 14 (aes256_key_expand key).
Proof.
  intros Hl Hb. unfold aes256_key_expand. rewrite take_ge by lia. apply (expand256_ok 6 1); (lia || done).
Qed.

(** ** Counter mode *)

(** The increment loop adds one to the big-endian number in the bytes up to
    [i], modulo its width. *)
Lemma inc_loop_spec i c1 c2 :
  length c1 = S i → bytes_ok c1 →
  inc_loop i (c1 ++ c2) = to_be_bytes (S i) (from_be_bytes c1 + 1) ++ c2.
Proof.
  revert c1 c2. induction i as [|i IH]; intros c1 c2 Hl Hb;
    destruct (exists_last (l := c1)) as (c & x & ->); try (by intros ->);
    rewrite length_app in Hl; cbn [length] in Hl;
    apply Forall_app in Hb as [Hc Hx]; apply Forall_cons in Hx as [Hx _];
    rewrite from_be_bytes_snoc, to_be_bytes_S, <- !app_assoc; cbn [inc_loop].
  - destruct c; [|cbn [length] in Hl; lia]. rewrite orb_true_r. cbn [app]. unfold byte_at. cbn [nth insert list_insert].
    unfold wadd, wrap. cbn [app]. do 2 f_equal. rewrite Z.mul_0_r, Z.add_0_r. done.
  - assert (El : length c = S i) by lia.
    assert (Eb : byte_at (S i) (c ++ x :: c2) = x).
    { unfold byte_at. rewrite app_nth2 by lia. by rewrite El, Nat.sub_diag. }
    cbn [app]. rewrite Eb, insert_app_r_alt, El, Nat.sub_diag by lia. cbn [insert list_insert].
    assert (Eb' : byte_at (S i) (c ++ wadd 8 x 1 :: c2) = wadd 8 x 1).
    { unfold byte_at. rewrite app_nth2 by lia. by rewrite El, Nat.sub_diag. }
    rewrite Eb', orb_false_r. destruct Hx as [Hx1 Hx2]. change (2 ^ 8) with 256 in Hx2.
    destruct (decide (x = 255)) as [->|Hne].
    + change (wadd 8 255 1) with 0. cbn [Z.eqb negb].
      rewrite IH by done. replace (255 + 256 * from_be_bytes c + 1) with ((from_be_bytes c + 1) * 256) by lia.
      by rewrite Z.div_mul, Z.mod_mul by lia.
    + unfold wadd, wrap. change (2 ^ 8) with 256. rewrite (Z.mod_small (x + 1)) by lia. zbool. cbn [negb].
      replace (x + 256 * from_be_bytes c + 1) with (x + 1 + from_be_bytes c * 256) by lia.
      rewrite Z.div_add, Z.mod_add, Z.div_small, Z.mod_small, Z.add_0_l by lia.
      rewrite <- El, to_from_be_bytes by done. done.
Qed.

Definition inc128 (c : list Z) : list Z := to_be_bytes 16 (from_be_bytes c + 1).

Lemma inc_loop_inc128 c : state_ok c → inc_loop 15 c = inc128 c ∧ state_ok (inc128 c).
Proof.
  intros [Hl Hb]. split; [|split; [apply length_to_be_bytes|apply to_be_bytes_ok]].
  rewrite <- (app_nil_r c). rewrite inc_loop_spec by done. by rewrite !app_nil_r.
Qed.

Lemma apply_keystream_app s d1 d2 :
  fst (apply_keystream s (d1 ++ d2))
  = fst (apply_keystream s d1) ++ fst (apply_keystream (snd (apply_keystream s d1)) d2).
Proof.
  revert s. induction d1 as [|b d1 IH]; intros s; [done|]. cbn [app apply_keystream].
  destruct (apply_byte s b) as [b' s1]. specialize (IH s1).
  destruct (apply_keystream s1 (d1 ++ d2)), (apply_keystream s1 d1). cbn [fst snd app] in *.
  by rewrite IH.
Qed.

(** Within a key stream block no refill happens. *)
Lemma apply_within s data :
  (ctr_ks_pos s + length data ≤ 16)%nat → length (ctr_keystream s) = 16%nat →
  apply_keystream s data
  = (xor_bytes data (drop (ctr_ks_pos s) (ctr_keystream s)),
     mkCtr (ctr_rk s) (ctr_counter s) (ctr_keystream s) (ctr_ks_pos s + length data)).
Proof.
  revert s. induction data as [|b data IH]; intros s Hp Hk; cbn [length] in *.
  { rewrite Nat.add_0_r. by destruct s. }
  cbn [apply_keystream]. unfold apply_byte. rewrite (proj2 (Nat.eqb_neq _ _)) by lia.
  rewrite IH by (cbn [ctr_ks_pos ctr_keystream]; lia). cbn [ctr_rk ctr_counter ctr_ks_pos ctr_keystream].
  destruct (lookup_lt_is_Some_2 (ctr_keystream s) (ctr_ks_pos s)) as [k Hks]; [lia|].
  rewrite (drop_S _ k _ Hks). cbn [xor_bytes zip_with]. unfold byte_at.
  rewrite (nth_lookup_Some _ _ 0 k Hks). by rewrite Nat.add_succ_r.
Qed.

(** A block of up to 16 bytes at a block boundary. *)
Lemma apply_block s data :
  ctr_ks_pos s = 16%nat → (0 < length data ≤ 16)%nat →
  schedule_ok 10 (ctr_rk s) → state_ok (ctr_counter s) →
  apply_keystream s data
  = (xor_bytes data (aes128_encrypt_block (ctr_counter s) (ctr_rk s)),
     mkCtr (ctr_rk s) (inc128 (ctr_counter s)) (aes128_encrypt_block (ctr_counter s) (ctr_rk s)) (length data)).
Proof.
  intros Hp Hd Hrk Hc. destruct (inc_loop_inc128 _ Hc) as [Ei _].
  assert (E : apply_keystream s data = apply_keystream (refill s) data).
  { destruct data as [|b data]; [cbn [length] in Hd; lia|]. cbn [apply_keystream]. unfold apply_byte.
    rewrite Hp. cbn [Nat.eqb]. done. }
  rewrite E, apply_within; unfold refill; cbn [ctr_rk ctr_counter ctr_ks_pos ctr_keystream].
  - by rewrite Ei.
  - lia.
  - apply (encrypt_block_ok 10); done.
Qed.

(** The byte-wise key stream is the block-wise counter mode. *)
Lemma apply_keystream_ctr data s :
  ctr_ks_pos s = 16%nat → schedule_ok 10 (ctr_rk s) → state_ok (ctr_counter s) →
  fst (apply_keystream s data)
  = stream_xor 16 (λ c, aes128_encrypt_block c (ctr_rk s)) inc128 (ctr_counter s) data.
Proof.
  unfold stream_xor. generalize (le_n (length data)). generalize (length data) at 2 3 as f.
  intros f. revert data s. induction f as [|f IH]; intros data s Hf Hp Hrk Hc.
  { destruct data; [done|cbn [length] in Hf; lia]. }
  destruct data as [|b data]; [done|]. cbn [stream_loop]. set (d := b :: data) in *.
  assert (0 < length d)%nat by (unfold d; cbn [length]; lia).
  rewrite <- (take_drop 16 d) at 1. rewrite apply_keystream_app.
  rewrite apply_block by (done || rewrite length_take; lia). cbn [fst snd]. f_equal.
  destruct (drop 16 d) as [|b' d'] eqn:E; [by destruct f|]. rewrite <- E.
  assert (length (take 16 d) = 16)%nat as ->.
  { apply (f_equal length) in E. rewrite length_drop in E. cbn [length] in E. rewrite length_take. lia. }
  rewrite IH; [done|rewrite length_drop; lia|done..|]. by apply inc_loop_inc128.
Qed.

(** Successive calls of [apply_keystream] on the same cipher. *)
Fixpoint apply_pieces (s : AesCtr128) (pieces : list (list Z)) : list Z :=
  match pieces with
  | [] => []
  | p :: ps => let (out, s') := apply_keystream s p in out ++ apply_pieces s' ps
  end.

Lemma apply_pieces_concat s pieces :
  apply_pieces s pieces = fst (apply_keystream s (concat pieces)).
Proof.
  revert s. induction pieces as [|p ps IH]; intros s; [done|]. cbn [apply_pieces concat].
  rewrite apply_keystream_app. destruct (apply_keystream s p) as [out s']. cbn [fst snd].
  by rewrite IH.
Qed.

(** ** Theorems *)

(** The S-box table and the field product are what FIPS 197 defines: for
    every byte the table holds the affine image of the inverse in
    GF(2^8), and [gmul] (and [xtime], its doubling) is the carry-less product
    reduced by [x^8 + x^4 + x^3 + x + 1]. *)
Theorem aes_tables_are_field a b :
  uN 8 a → uN 8 b →
  sbox a = sbox_ref a ∧ gmul a b = gmul_ref a b ∧ xtime a = gmul_ref a 2.
Proof.
  intros Ha Hb. split_and!; [by apply sbox_is_ref|by apply gmul_is_ref|].
  rewrite xtime_gmul by done. apply gmul_is_ref; [done|unfold uN; lia].
Qed.

Lemma aes_tables_are_field_witness : sbox 0x53 = sbox_ref 0x53 ∧ gmul 0x57 0x83 = gmul_ref 0x57 0x83.
Proof.
  split; [apply (aes_tables_are_field 0x53 0)|apply (aes_tables_are_field 0x57 0x83)]; unfold uN; lia.
Defined.

(** Every key gives an invertible block function: the inverse cipher run
    with the expanded key recovers the block, for AES-128 and AES-256, so two
    different blocks never encrypt to the same ciphertext. *)
Theorem aes_block_invertible key128 key256 block :
  length key128 = 16%nat → bytes_ok key128 → length key256 = 32%nat → bytes_ok key256 →
  length block = 16%nat → bytes_ok block →
  aes_decrypt 10 (aes128_encrypt_block block (aes128_key_expand key128)) (aes128_key_expand key128) = block
  ∧ aes_decrypt 14 (aes256_encrypt_block block (aes256_key_expand key256)) (aes256_key_expand key256) = block.
Proof.
  intros. split; (apply decrypt_encrypt; [|by split]);
    [by apply aes128_schedule_ok|by apply aes256_schedule_ok].
Qed.

Lemma aes_block_invertible_witness :
  aes_decrypt 10 (aes128_encrypt_block (replicate 16 9) (aes128_key_expand (replicate 16 7)))
    (aes128_key_expand (replicate 16 7)) = replicate 16 9.
Proof.
  apply (aes_block_invertible (replicate 16 7) (replicate 32 5) (replicate 16 9));
    try reflexivity; apply Forall_replicate; unfold uN; lia.
Defined.

(** The byte-wise counter mode is the block-wise one: a fresh [AesCtr128]
    fed with any sequence of pieces outputs the concatenated data xored with
    the encryptions of [iv], [iv + 1], .. (128-bit big-endian, wrapping), and
    a second pass with the same key and iv restores the data. *)
Theorem aes_ctr_equivalence key iv pieces :
  length key = 16%nat → bytes_ok key → length iv = 16%nat → bytes_ok iv →
  apply_pieces (AesCtr128_new key iv) pieces
  = stream_xor 16 (λ c, aes128_encrypt_block c (aes128_key_expand key)) inc128 iv (concat pieces)
  ∧ fst (apply_keystream (AesCtr128_new key iv) (apply_pieces (AesCtr128_new key iv) pieces))
    = concat pieces.
Proof.
  intros Hk Hkb Hi Hib. pose proof (aes128_schedule_ok key Hk Hkb) as Hrk.
  rewrite apply_pieces_concat, !(apply_keystream_ctr _ (AesCtr128_new key iv)) by done.
  split; [done|]. apply (stream_xor_involutive 16 _ _ state_ok); [lia| | |done].
  - intros c Hc. by apply (encrypt_block_ok 10).
  - intros c Hc. by apply inc_loop_inc128.
Qed.

Lemma aes_ctr_equivalence_witness :
  fst (apply_keystream (AesCtr128_new (replicate 16 7) (replicate 16 255))
        (apply_pieces (AesCtr128_new (replicate 16 7) (replicate 16 255)) [[1; 2; 3]; replicate 20 4]))
  = concat [[1; 2; 3]; replicate 20 4].
Proof.
  apply (aes_ctr_equivalence (replicate 16 7) (replicate 16 255) [[1; 2; 3]; replicate 20 4]);
    try reflexivity; apply Forall_replicate; unfold uN; lia.
Defined.

(** The example vectors of FIPS 197. *)
Example aes128_fips197 :
  from_be_bytes (aes128_encrypt_block (to_be_bytes 16 0x00112233445566778899aabbccddeeff)
                   (aes128_key_expand (seqZ 0 16))) = 0x69c4e0d86a7b0430d8cdb78070b4c55a.
Proof. vm_compute. reflexivity. Qed.
Example aes256_fips197 :
  from_be_bytes (aes256_encrypt_block (to_be_bytes 16 0x00112233445566778899aabbccddeeff)
                   (aes256_key_expand (seqZ 0 32))) = 0x8ea2b7ca516745bfeafc49904b496089.
Proof. vm_compute. reflexivity. Qed.
