(* ===== verification/AesGcm.v ===== *)
(** AES in Galois/counter mode ([crypto/aes_gcm.rs]).

    [gf_mul] and [ghash] as the source loops them; [Aes128Gcm] and [Aes256Gcm]
    are one program over the two block functions.  The theorems: [gf_mul] is
    the multiplication of a commutative ring with unit on 128-bit words
    (commutative, associative, distributive over xor), GHASH is linear in the
    data, and sealing and opening are inverse ([Aead] instances). *)

From Stdlib Require Import Btauto.
From S2P Require Import Prelude Bits Words Aead Aes.

(** ** GHASH *)

Definition GF_R : Z := Z.shiftl 0xE1 120.

(** [let lsb = v & 1; v >>= 1; if lsb == 1 { v ^= r; }] *)
Definition gf_shift (v : Z) : Z :=
  let lsb := Z.land v 1 in
  let v := Z.shiftr v 1 in
  if lsb =? 1 then Z.lxor v GF_R else v.

(** [for i in (0..n).rev()] *)
Fixpoint gf_loop (n : nat) (y z v : Z) : Z :=
  match n with
  | O => z
  | S i =>
      let z := if Z.land (Z.shiftr y (Z.of_nat i)) 1 =? 1 then Z.lxor z v else z in
      gf_loop i y z (gf_shift v)
  end.
Definition gf_mul (x y : Z) : Z := gf_loop 128 y 0 x.

Definition ghash (h : Z) (data : list Z) : Z :=
  let blocks := (length data / 16)%nat in
  let rem := (length data mod 16)%nat in
  let y := foldl (λ y b, gf_mul (Z.lxor y (from_be_bytes b)) h) 0 (chunks 16 (take (blocks * 16) data)) in
  if (0 <? rem)%nat
  then let last := drop (length data - rem) data ++ replicate (16 - rem) 0 in
       gf_mul (Z.lxor y (from_be_bytes last)) h
  else y.

(** ** The mode, over a block function *)

Record AesGcm := mkGcm { gcm_rk : list Z; gcm_h : Z }.

Definition gcm_j0 (iv : list Z) : list Z := <[15%nat := 1]> (take 12 iv ++ replicate 4 0).

Definition inc32 (c : list Z) : list Z :=
  take 12 c ++ to_be_bytes 4 (wadd 32 (from_be_bytes (drop 12 c)) 1).

Section Gcm.
  Context (enc : list Z → list Z → list Z) (err : string).

Definition gcm_new (rk : list Z) : AesGcm := mkGcm rk (from_be_bytes (enc (replicate 16 0) rk)).

Definition gctr (g : AesGcm) (j0 input : list Z) : list Z :=
  stream_xor 16 (λ c, enc c (gcm_rk g)) inc32 (inc32 j0) input.

Definition pad16 (n : nat) : nat := ((n + 15) / 16 * 16 - n)%nat.

Definition compute_tag (g : AesGcm) (j0 aad ciphertext : list Z) : list Z :=
  let buf := aad ++ replicate (pad16 (length aad)) 0
             ++ ciphertext ++ replicate (pad16 (length ciphertext)) 0
             ++ to_be_bytes 8 (wrap 64 (Z.of_nat (length aad) * 8))
             ++ to_be_bytes 8 (wrap 64 (Z.of_nat (length ciphertext) * 8)) in
  let s := ghash (gcm_h g) buf in
  let e_j0 := enc j0 (gcm_rk g) in
  to_be_bytes 16 (Z.lxor s (from_be_bytes e_j0)).

Definition gcm_seal (g : AesGcm) (iv aad plaintext : list Z) : list Z * list Z :=
  let j0 := gcm_j0 iv in
  let ct := gctr g j0 plaintext in
  (ct, compute_tag g j0 aad ct).

Definition gcm_open (g : AesGcm) (iv aad ciphertext tag : list Z) : result string (list Z) :=
  let j0 := gcm_j0 iv in
  let expected := compute_tag g j0 aad ciphertext in
  if tags_differ expected tag then Err err else Ok (gctr g j0 ciphertext).
End Gcm.

Definition Aes128Gcm_new (key : list Z) : AesGcm := gcm_new aes128_encrypt_block (aes128_key_expand key).
Definition Aes128Gcm_seal (g : AesGcm) (iv aad pt : list Z) : list Z * list Z :=
  gcm_seal aes128_encrypt_block g iv aad pt.
Definition Aes128Gcm_open (g : AesGcm) (iv aad ct tag : list Z) : result string (list Z) :=
  gcm_open aes128_encrypt_block "aes-gcm: tag mismatch" g iv aad ct tag.

Definition Aes256Gcm_new (key : list Z) : AesGcm := gcm_new aes256_encrypt_block (aes256_key_expand key).
Definition Aes256Gcm_gctr (g : AesGcm) (j0 input : list Z) : list Z := gctr aes256_encrypt_block g j0 input.
Definition Aes256Gcm_compute_tag (g : AesGcm) (j0 aad ct : list Z) : list Z :=
  compute_tag aes256_encrypt_block g j0 aad ct.
Definition Aes256Gcm_seal (g : AesGcm) (iv aad pt : list Z) : list Z * list Z :=
  gcm_seal aes256_encrypt_block g iv aad pt.
Definition Aes256Gcm_open (g : AesGcm) (iv aad ct tag : list Z) : result string (list Z) :=
  gcm_open aes256_encrypt_block "aes-gcm-256: tag mismatch" g iv aad ct tag.

(** ** The ring *)

Lemma land1_lxor_eqb x y : (Z.land (Z.lxor x y) 1 =? 1) = xorb (Z.land x 1 =? 1) (Z.land y 1 =? 1).
Proof.
  rewrite lxor_land1. by destruct (land1_cases x) as [->| ->], (land1_cases y) as [->| ->].
Qed.

Lemma if_lxor (b c : bool) x y r :
  (if xorb b c then Z.lxor (Z.lxor x y) r else Z.lxor x y)
  = Z.lxor (if b then Z.lxor x r else x) (if c then Z.lxor y r else y).
Proof.
  destruct b, c; simpl; try done; apply Z.bits_inj'; intros j _; rewrite !Z.lxor_spec; btauto.
Qed.

Lemma gf_shift_lxor x y : gf_shift (Z.lxor x y) = Z.lxor (gf_shift x) (gf_shift y).
Proof. unfold gf_shift. rewrite land1_lxor_eqb, Z.shiftr_lxor. apply if_lxor. Qed.

(** A map that respects xor and the shift goes through the loop. *)
Lemma gf_loop_hom (f : Z → Z) n y z v :
  (∀ a b, f (Z.lxor a b) = Z.lxor (f a) (f b)) → (∀ a, f (gf_shift a) = gf_shift (f a)) →
  f (gf_loop n y z v) = gf_loop n y (f z) (f v).
Proof.
  intros Hx Hs. revert z v. induction n as [|n IH]; intros z v; [done|]. cbn [gf_loop].
  rewrite IH, Hs. destruct (_ =? 1); [by rewrite Hx|done].
Qed.

Lemma gf_loop_lxor n y z z' v v' :
  gf_loop n y (Z.lxor z z') (Z.lxor v v') = Z.lxor (gf_loop n y z v) (gf_loop n y z' v').
Proof.
  revert z z' v v'. induction n as [|n IH]; intros; [done|]. cbn [gf_loop].
  rewrite gf_shift_lxor, <- IH. f_equal. destruct (_ =? 1); [apply lxor_swap|done].
Qed.

Lemma gf_mul_distr_l a b y : gf_mul (Z.lxor a b) y = Z.lxor (gf_mul a y) (gf_mul b y).
Proof. unfold gf_mul. rewrite <- gf_loop_lxor. done. Qed.

Lemma gf_shift_0 : gf_shift 0 = 0.
Proof. done. Qed.

Lemma gf_mul_shift x y : gf_mul (gf_shift x) y = gf_shift (gf_mul x y).
Proof.
  unfold gf_mul. rewrite (gf_loop_hom gf_shift); [done|apply gf_shift_lxor|done].
Qed.

Lemma gf_mul_0_l y : gf_mul 0 y = 0.
Proof. pose proof (gf_mul_distr_l 0 0 y) as E. by rewrite !Z.lxor_nilpotent in E. Qed.

(** Multiplications by two words commute: both are sums of shifts. *)
Lemma gf_mul_exchange v x y : gf_mul (gf_mul v x) y = gf_mul (gf_mul v y) x.
Proof.
  pose proof (gf_loop_hom (λ a, gf_mul a y) 128 x 0 v) as E. cbv beta in E.
  rewrite gf_mul_0_l in E. exact (E (λ a b, gf_mul_distr_l a b y) (λ a, gf_mul_shift a y)).
Qed.

(** The leftmost bit is the unit. *)
Definition GF_ONE : Z := 2 ^ 127.

Lemma gf_shift_pow2 k : gf_shift (2 ^ (Z.of_nat (S k))) = 2 ^ (Z.of_nat k).
Proof.
  unfold gf_shift. rewrite Nat2Z.inj_succ, Z.pow_succ_r by lia.
  rewrite Z.shiftr_div_pow2 by lia. change (2 ^ 1) with 2.
  replace (Z.land (2 * 2 ^ Z.of_nat k) 1) with 0.
  - rewrite Z.mul_comm. by rewrite Z.div_mul.
  - change 1 with (Z.ones 1). rewrite Z.land_ones by lia. change (2 ^ 1) with 2.
    by rewrite Z.mul_comm, Z.mod_mul.
Qed.

Lemma gf_loop_unit k x z : gf_loop (S k) x z (2 ^ Z.of_nat k) = Z.lxor z (x `mod` 2 ^ Z.of_nat (S k)).
Proof.
  revert z. induction k as [|k IH]; intros z.
  - cbn [gf_loop]. rewrite bit_eqb by lia. change (2 ^ Z.of_nat 1) with 2. rewrite <- Z.bit0_mod.
    change (2 ^ Z.of_nat 0) with 1. destruct (Z.testbit x _); [done|by rewrite Z.lxor_0_r].
  - remember (S k) as k' eqn:Ek. cbn [gf_loop]. rewrite bit_eqb by lia. subst k'.
    rewrite gf_shift_pow2, IH.
    assert (E : x `mod` 2 ^ Z.of_nat (S (S k))
                = Z.lxor (if Z.testbit x (Z.of_nat (S k)) then 2 ^ Z.of_nat (S k) else 0)
                         (x `mod` 2 ^ Z.of_nat (S k))).
    { apply Z.bits_inj'. intros j Hj. rewrite Z.lxor_spec, !Z.testbit_mod_pow2 by lia.
      replace (Z.testbit (if Z.testbit x (Z.of_nat (S k)) then 2 ^ Z.of_nat (S k) else 0) j)
        with ((j =? Z.of_nat (S k)) && Z.testbit x (Z.of_nat (S k))).
      - destruct (Z.eqb_spec j (Z.of_nat (S k))) as [->|Hne].
        + rewrite (proj2 (Z.ltb_lt _ _)) by lia. rewrite (proj2 (Z.ltb_ge _ _)) by lia.
          by destruct (Z.testbit x _).
        + destruct (Z.ltb_spec j (Z.of_nat (S (S k)))), (Z.ltb_spec j (Z.of_nat (S k))); try lia;
            by destruct (Z.testbit x j).
      - destruct (Z.testbit x (Z.of_nat (S k))); [|by rewrite Z.bits_0, andb_false_r].
        rewrite andb_true_r, Z.pow2_bits_eqb by lia. apply Z.eqb_sym. }
    rewrite E. destruct (Z.testbit x _); [by rewrite Z.lxor_assoc|by rewrite Z.lxor_0_l].
Qed.

Lemma gf_mul_one_l x : uN 128 x → gf_mul GF_ONE x = x.
Proof.
  intros Hx. unfold gf_mul, GF_ONE. change (2 ^ 127) with (2 ^ Z.of_nat 127).
  rewrite (gf_loop_unit 127), Z.lxor_0_l. by apply Z.mod_small.
Qed.

Lemma gf_mul_commutes x y : uN 128 x → uN 128 y → gf_mul x y = gf_mul y x.
Proof.
  intros Hx Hy. rewrite <- (gf_mul_one_l x Hx) at 1. rewrite gf_mul_exchange. by rewrite gf_mul_one_l.
Qed.

Lemma gf_shift_ok v : uN 128 v → uN 128 (gf_shift v).
Proof.
  intros [H1 H2]. unfold gf_shift.
  assert (uN 128 (Z.shiftr v 1)).
  { rewrite Z.shiftr_div_pow2 by lia. split; [apply Z.div_pos; lia|apply Z.div_lt_upper_bound; lia]. }
  destruct (_ =? 1); [|done]. apply lxor_uN; [lia|done|]. unfold GF_R, uN. by vm_compute.
Qed.

Lemma gf_loop_ok n y z v : uN 128 z → uN 128 v → uN 128 (gf_loop n y z v).
Proof.
  revert z v. induction n as [|n IH]; intros z v Hz Hv; [done|]. cbn [gf_loop].
  apply IH; [|by apply gf_shift_ok]. destruct (_ =? 1); [apply lxor_uN; (done || lia)|done].
Qed.

Lemma gf_mul_ok x y : uN 128 x → uN 128 (gf_mul x y).
Proof. intros. unfold gf_mul. apply gf_loop_ok; [|assumption]. unfold uN. lia. Qed.

#[global] Opaque gf_mul.

Lemma gf_mul_assoc x y z :
  uN 128 x → uN 128 y → uN 128 z → gf_mul (gf_mul x y) z = gf_mul x (gf_mul y z).
Proof.
  intros Hx Hy Hz. rewrite (gf_mul_commutes x (gf_mul y z)) by (assumption || by apply gf_mul_ok).
  rewrite (gf_mul_commutes x y) by done. apply gf_mul_exchange.
Qed.

(** [gf_mul] is a commutative ring multiplication on 128-bit words with
    xor as addition: commutative, associative, distributive, with the word
    whose leftmost bit is set as unit, and it stays within 128 bits. *)
Theorem gf_mul_ring x y z :
  uN 128 x → uN 128 y → uN 128 z →
  gf_mul x y = gf_mul y x
  ∧ gf_mul (gf_mul x y) z = gf_mul x (gf_mul y z)
  ∧ gf_mul x (Z.lxor y z) = Z.lxor (gf_mul x y) (gf_mul x z)
  ∧ gf_mul x GF_ONE = x ∧ uN 128 (gf_mul x y).
Proof.
  intros Hx Hy Hz. split_and!.
  - by apply gf_mul_commutes.
  - by apply gf_mul_assoc.
  - rewrite !(gf_mul_commutes x) by (assumption || by apply lxor_uN). apply gf_mul_distr_l.
  - rewrite gf_mul_commutes by (assumption || by vm_compute). by apply gf_mul_one_l.
  - by apply gf_mul_ok.
Qed.

Lemma gf_mul_ring_witness : gf_mul 3 5 = gf_mul 5 3 ∧ gf_mul (gf_mul 3 5) 7 = gf_mul 3 (gf_mul 5 7).
Proof. split; apply (gf_mul_ring 3 5 7); unfold uN; by vm_compute. Defined.

(** ** The mode *)

Section GcmCorrect.
  Context (enc : list Z → list Z → list Z) (err : string) (rk : list Z).
  Context (Henc : ∀ c, state_ok c → state_ok (enc c rk)).
  Notation g := (gcm_new enc rk).

Lemma inc32_ok c : state_ok c → state_ok (inc32 c).
Proof.
  intros [Hl Hb]. split; unfold inc32.
  - rewrite length_app, length_take, length_to_be_bytes. lia.
  - apply Forall_app_2; [by apply Forall_take|apply to_be_bytes_ok].
Qed.

Lemma gcm_j0_ok iv : length iv = 12%nat → bytes_ok iv → state_ok (gcm_j0 iv).
Proof.
  intros Hl Hb. unfold gcm_j0. rewrite take_ge by lia. split.
  - by rewrite length_insert, length_app, length_replicate, Hl.
  - apply Forall_insert; [|unfold uN; lia]. apply Forall_app_2; [done|].
    apply Forall_replicate. unfold uN; lia.
Qed.

Lemma gctr_involutive iv data :
  length iv = 12%nat → bytes_ok iv →
  gctr enc g (gcm_j0 iv) (gctr enc g (gcm_j0 iv) data) = data
  ∧ length (gctr enc g (gcm_j0 iv) data) = length data.
Proof.
  intros Hl Hb. pose proof (inc32_ok _ (gcm_j0_ok iv Hl Hb)) as Hc. unfold gctr. cbn [gcm_rk gcm_new].
  split; [apply (stream_xor_involutive 16 _ _ state_ok)|apply (stream_xor_len 16 _ _ state_ok)];
    try lia; try done; intros; (by apply inc32_ok) || (by apply Henc).
Qed.

Lemma length_compute_tag j0 aad ct : length (compute_tag enc g j0 aad ct) = 16%nat.
Proof. apply length_to_be_bytes. Qed.

Lemma gcm_open_seal iv aad pt :
  length iv = 12%nat → bytes_ok iv →
  gcm_open enc err g iv aad (fst (gcm_seal enc g iv aad pt)) (snd (gcm_seal enc g iv aad pt)) = Ok pt.
Proof.
  intros Hl Hb. unfold gcm_open, gcm_seal. cbn [fst snd]. rewrite tags_differ_refl. f_equal.
  by apply gctr_involutive.
Qed.

Lemma gcm_open_wrong_tag iv aad pt tag :
  length tag = 16%nat → tag ≠ snd (gcm_seal enc g iv aad pt) →
  gcm_open enc err g iv aad (fst (gcm_seal enc g iv aad pt)) tag = Err err.
Proof.
  intros Ht Hne. unfold gcm_open, gcm_seal in *. cbn [fst snd] in *.
  destruct (tags_differ _ _) eqn:E; [done|].
  apply tags_differ_spec in E; [|by rewrite length_compute_tag, Ht]. by subst.
Qed.
End GcmCorrect.

Lemma aes128_enc_ok key c :
  length key = 16%nat → bytes_ok key → state_ok c → state_ok (aes128_encrypt_block c (aes128_key_expand key)).
Proof. intros. apply (encrypt_block_ok 10); [by apply aes128_schedule_ok|done]. Qed.

Lemma aes256_enc_ok key c :
  length key = 32%nat → bytes_ok key → state_ok c → state_ok (aes256_encrypt_block c (aes256_key_expand key)).
Proof. intros. apply (encrypt_block_ok 14); [by apply aes256_schedule_ok|done]. Qed.

#[export] Instance aes128_gcm_aead :
  Aead 16 "aes-gcm: tag mismatch" (λ key, Aes128Gcm_seal (Aes128Gcm_new key))
    (λ key, Aes128Gcm_open (Aes128Gcm_new key)).
Proof.
  split.
  - intros key nonce aad pt (? & ? & ? & ?). apply gctr_involutive; [|done..].
    intros. by apply aes128_enc_ok.
  - intros. apply length_compute_tag.
  - intros key nonce aad pt (? & ? & ? & ?). apply gcm_open_seal; [|done..].
    intros. by apply aes128_enc_ok.
  - intros key nonce aad pt tag _ Ht Hne. by apply gcm_open_wrong_tag.
Qed.

#[export] Instance aes256_gcm_aead :
  Aead 32 "aes-gcm-256: tag mismatch" (λ key, Aes256Gcm_seal (Aes256Gcm_new key))
    (λ key, Aes256Gcm_open (Aes256Gcm_new key)).
Proof.
  split.
  - intros key nonce aad pt (? & ? & ? & ?). apply gctr_involutive; [|done..].
    intros. by apply aes256_enc_ok.
  - intros. apply length_compute_tag.
  - intros key nonce aad pt (? & ? & ? & ?). apply gcm_open_seal; [|done..].
    intros. by apply aes256_enc_ok.
  - intros key nonce aad pt tag _ Ht Hne. by apply gcm_open_wrong_tag.
Qed.

(** The second test case of the GCM specification. *)
Example gcm_test_case_2 :
  let (ct, tag) := Aes128Gcm_seal (Aes128Gcm_new (replicate 16 0)) (replicate 12 0) [] (replicate 16 0) in
  (from_be_bytes ct, from_be_bytes tag)
  = (0x0388dace60b6a392f328c2b971b2fe78, 0xab6e47d42cec13bdf53a67b21257bddf).
Proof. vm_compute. reflexivity. Qed.
