(* ===== verification/X25519.v ===== *)
(** X25519 key exchange ([crypto/x25519.rs]).

    The field arithmetic on four 64-bit limbs, the inversion chain, the
    Montgomery ladder and the two entry points, with the machine arithmetic of
    a release build (additions and products of [u128] wrap).  The theorems: the
    conditional swap and the clamping do what RFC 7748 asks, encoding and
    decoding are inverse, and where the file departs from the curve: the
    constant [P] is not [2^255 - 19], the inversion chain raises to
    [2^255 - 1], and two parties derive different secrets. *)

From S2P Require Import Prelude Bits Words.

(** ** Field elements *)

Record Fe := mkFe { l0 : Z; l1 : Z; l2 : Z; l3 : Z }.

Definition P : Fe := mkFe 0xFFFFFFFFFFFFED 0xFFFFFFFFFFFFFF 0xFFFFFFFFFFFFFF 0x7FFFFFFFFFFFFFFF.
Definition A24 : Z := 121665.

Definition fe_zero : Fe := mkFe 0 0 0 0.
Definition fe_one : Fe := mkFe 1 0 0 0.

(** The value of the limbs. *)
Definition fe_val (a : Fe) : Z := l0 a + 2 ^ 64 * (l1 a + 2 ^ 64 * (l2 a + 2 ^ 64 * l3 a)).

(** [a.overflowing_add(b)] and [a.overflowing_sub(b)] on [u64], the flag as
    [0] or [1]. *)
Definition overflowing_add (a b : Z) : Z * Z := (wrap 64 (a + b), if 2 ^ 64 <=? a + b then 1 else 0).
Definition overflowing_sub (a b : Z) : Z * Z := (wrap 64 (a - b), if a <? b then 1 else 0).

Definition ge_p (v : Fe) : bool :=
  if l3 P <? l3 v then true else
  if l3 v <? l3 P then false else
  if l2 P <? l2 v then true else
  if l2 v <? l2 P then false else
  if l1 P <? l1 v then true else
  if l1 v <? l1 P then false else
  l0 P <=? l0 v.

(** The limb-wise subtraction with borrow of [fe_reduce] and [fe_sub]. *)
Definition sub_limbs (v p : Fe) : Fe :=
  let (s0, b) := overflowing_sub (l0 v) (l0 p) in
  let (s1, b) := overflowing_sub (l1 v) (wadd 64 (l1 p) b) in
  let (s2, b) := overflowing_sub (l2 v) (wadd 64 (l2 p) b) in
  let (s3, _) := overflowing_sub (l3 v) (wadd 64 (l3 p) b) in
  mkFe s0 s1 s2 s3.

(** The first half of the source only computes values it does not use. *)
Definition fe_reduce (v : Fe) : Fe := if ge_p v then sub_limbs v P else v.

Definition fe_add (a b : Fe) : Fe :=
  let (r0, c) := overflowing_add (l0 a) (l0 b) in
  let (r1, c) := overflowing_add (l1 a) (wadd 64 (l1 b) c) in
  let (r2, c) := overflowing_add (l2 a) (wadd 64 (l2 b) c) in
  let (r3, _) := overflowing_add (l3 a) (wadd 64 (l3 b) c) in
  fe_reduce (mkFe r0 r1 r2 r3).

Definition fe_sub (a b : Fe) : Fe := fe_reduce (sub_limbs (fe_add a P) b).

(** [r += extra] with the carry run through, then the reduction: the tail of
    [fe_mul] and [fe_mul_small]. *)
Definition add_extra (r : Fe) (extra : Z) : Fe :=
  let (r0, ec) := overflowing_add (l0 r) extra in
  let (r1, ec) := overflowing_add (l1 r) ec in
  let (r2, ec) := overflowing_add (l2 r) ec in
  let (r3, _) := overflowing_add (l3 r) ec in
  fe_reduce (mkFe r0 r1 r2 r3).

Definition fe_limbs (a : Fe) : list Z := [l0 a; l1 a; l2 a; l3 a].

(** [t[i+j] += (a[i] as u128) * (b[j] as u128)] *)
Definition mul_step (t : list Z) (i j : nat) (a b : Z) : list Z :=
  <[(i + j)%nat := wadd 128 (nth (i + j) t 0) (a * b)]> t.

Definition schoolbook (a b : Fe) : list Z :=
  foldl (λ t ij, mul_step t (fst ij) (snd ij) (nth (fst ij) (fe_limbs a) 0) (nth (snd ij) (fe_limbs b) 0))
        (replicate 8 0) (i ← seq 0 4; j ← seq 0 4; [(i, j)]).

(** [for k in 4..8 { t[k-4] += t[k] * 38; t[k] = 0; }] *)
Definition fold_high (t : list Z) : list Z :=
  foldl (λ t k, <[k := 0]> (<[(k - 4)%nat := wadd 128 (nth (k - 4) t 0) (wrap 128 (nth k t 0 * 38))]> t))
        t (seq 4 4).

Definition fe_mul (a b : Fe) : Fe :=
  let t := fold_high (schoolbook a b) in
  let r0 := wadd 128 (nth 0 t 0) (wrap 128 (nth 4 t 0 * 38)) in
  let c0 := Z.shiftr r0 64 in
  let r1 := wadd 128 (nth 1 t 0) c0 in
  let c1 := Z.shiftr r1 64 in
  let r2 := wadd 128 (nth 2 t 0) c1 in
  let c2 := Z.shiftr r2 64 in
  let r3 := wadd 128 (nth 3 t 0) c2 in
  let c3 := Z.shiftr r3 64 in
  let extra := wrap 64 (wrap 64 c3 * 38) in
  add_extra (mkFe (wrap 64 r0) (wrap 64 r1) (wrap 64 r2) (wrap 64 r3)) extra.

Definition fe_sq (a : Fe) : Fe := fe_mul a a.

Definition fe_mul_small (a : Fe) (b : Z) : Fe :=
  let t0 := l0 a * b in
  let c := Z.shiftr t0 64 in
  let t1 := wadd 128 (l1 a * b) c in
  let c := Z.shiftr t1 64 in
  let t2 := wadd 128 (l2 a * b) c in
  let c := Z.shiftr t2 64 in
  let t3 := wadd 128 (l3 a * b) c in
  let c := Z.shiftr t3 64 in
  add_extra (mkFe (wrap 64 t0) (wrap 64 t1) (wrap 64 t2) (wrap 64 t3)) (wrap 64 (wrap 64 c * 38)).

(** ** Inversion: the chain of squarings and products, over any product *)

Section Chain.
  Context {T : Type} (mul : T → T → T).
  Notation sq := (λ x, mul x x).

Definition inv_chain (a1 : T) : T :=
  let a2 := sq a1 in
  let a4 := sq a2 in
  let a8 := sq a4 in
  let a9 := mul a8 a1 in
  let a11 := mul a9 a2 in
  let a22 := sq a11 in
  let a_5_0 := mul a22 a9 in
  let t10 := mul (Nat.iter 5 sq a_5_0) a_5_0 in
  let t20 := mul (Nat.iter 10 sq t10) t10 in
  let t := mul (Nat.iter 20 sq t20) t20 in
  let t50 := mul (Nat.iter 10 sq t) t10 in
  let t100 := mul (Nat.iter 50 sq t50) t50 in
  let t := mul (Nat.iter 100 sq t100) t100 in
  let t := mul (Nat.iter 50 sq t) t50 in
  mul (Nat.iter 5 sq t) a_5_0.
End Chain.

Definition fe_inv (a : Fe) : Fe := inv_chain fe_mul a.

(** ** The ladder *)

Definition cswap (swap : Z) (a b : Fe) : Fe * Fe :=
  let mask := wrap 64 (0 - swap) in
  let t0 := Z.land mask (Z.lxor (l0 a) (l0 b)) in
  let t1 := Z.land mask (Z.lxor (l1 a) (l1 b)) in
  let t2 := Z.land mask (Z.lxor (l2 a) (l2 b)) in
  let t3 := Z.land mask (Z.lxor (l3 a) (l3 b)) in
  (mkFe (Z.lxor (l0 a) t0) (Z.lxor (l1 a) t1) (Z.lxor (l2 a) t2) (Z.lxor (l3 a) t3),
   mkFe (Z.lxor (l0 b) t0) (Z.lxor (l1 b) t1) (Z.lxor (l2 b) t2) (Z.lxor (l3 b) t3)).

Definition clamp_scalar (s : list Z) : list Z :=
  let k := <[0%nat := Z.land (nth 0 s 0) 248]> s in
  let k := <[31%nat := Z.land (nth 31 k 0) 127]> k in
  <[31%nat := Z.lor (nth 31 k 0) 64]> k.

Definition decode_u (u : list Z) : Fe :=
  let limb i := from_le_bytes (take 8 (drop (i * 8) u)) in
  mkFe (limb 0%nat) (limb 1%nat) (limb 2%nat) (Z.land (limb 3%nat) (Z.shiftl 1 63 - 1)).

Definition encode_fe (fe : Fe) : list Z := fe_limbs fe ≫= to_le_bytes 8.

Record Ladder := mkLadder { x2 : Fe; z2 : Fe; x3 : Fe; z3 : Fe; lswap : Z }.

(** Body of the loop of [ladder] for bit [t]. *)
Definition ladder_step (k : list Z) (x1 : Fe) (s : Ladder) (t : nat) : Ladder :=
  let k_t := Z.land (Z.shiftr (nth (t / 8) k 0) (Z.of_nat (t mod 8))) 1 in
  let swap := Z.lxor (lswap s) k_t in
  let (x2, x3) := cswap swap (x2 s) (x3 s) in
  let (z2, z3) := cswap swap (z2 s) (z3 s) in
  let a := fe_add x2 z2 in
  let aa := fe_sq a in
  let b := fe_sub x2 z2 in
  let bb := fe_sq b in
  let e := fe_sub aa bb in
  let c := fe_add x3 z3 in
  let d := fe_sub x3 z3 in
  let da := fe_mul d a in
  let cb := fe_mul c b in
  let x3' := fe_sq (fe_add da cb) in
  let z3' := fe_mul (fe_sq (fe_sub da cb)) x1 in
  let x2' := fe_mul aa bb in
  let z2' := fe_mul e (fe_add aa (fe_mul_small e A24)) in
  mkLadder x2' z2' x3' z3' k_t.

Definition ladder (k : list Z) (u : Fe) : Fe :=
  let s := foldl (ladder_step k u) (mkLadder fe_one fe_zero u fe_one 0) (reverse (seq 0 255)) in
  let (x2, _) := cswap (lswap s) (x2 s) (x3 s) in
  let (z2, _) := cswap (lswap s) (z2 s) (z3 s) in
  fe_mul x2 (fe_inv z2).

(** ** Entry points *)

Definition BASE_U : Fe := mkFe 9 0 0 0.

Definition x25519_public_key (private_key : list Z) : list Z :=
  encode_fe (ladder (clamp_scalar private_key) BASE_U).

Definition x25519_diffie_hellman (our_private their_public : list Z) : list Z :=
  encode_fe (ladder (clamp_scalar our_private) (decode_u their_public)).

(** ** Swap, clamping and encoding *)

Definition fe_ok (a : Fe) : Prop := uN 64 (l0 a) ∧ uN 64 (l1 a) ∧ uN 64 (l2 a) ∧ uN 64 (l3 a).

Lemma mask_lxor x y :
  uN 64 x → uN 64 y →
  Z.lxor x (Z.land (Z.ones 64) (Z.lxor x y)) = y ∧ Z.lxor y (Z.land (Z.ones 64) (Z.lxor x y)) = x.
Proof.
  intros Hx Hy. rewrite Z.land_comm, Z.land_ones, Z.mod_small by (lia || by apply lxor_uN).
  split; [|rewrite (Z.lxor_comm x y)]; by rewrite <- Z.lxor_assoc, Z.lxor_nilpotent, Z.lxor_0_l.
Qed.

(** [cswap] exchanges its operands when the flag is one and keeps them when it
    is zero. *)
Lemma cswap_spec a b :
  fe_ok a → fe_ok b → cswap 1 a b = (b, a) ∧ cswap 0 a b = (a, b).
Proof.
  destruct a as [a0 a1 a2 a3], b as [b0 b1 b2 b3]. intros (H0 & H1 & H2 & H3) (K0 & K1 & K2 & K3).
  cbn [l0 l1 l2 l3] in *. split; unfold cswap; cbn [l0 l1 l2 l3].
  - change (wrap 64 (0 - 1)) with (Z.ones 64).
    destruct (mask_lxor _ _ H0 K0) as [-> ->], (mask_lxor _ _ H1 K1) as [-> ->],
      (mask_lxor _ _ H2 K2) as [-> ->], (mask_lxor _ _ H3 K3) as [-> ->]. reflexivity.
  - change (wrap 64 (0 - 0)) with 0. rewrite !Z.land_0_l, !Z.lxor_0_r. reflexivity.
Qed.

Lemma take_drop_limb (a b c d : list Z) (i : nat) (x : list Z) :
  length a = 8%nat → length b = 8%nat → length c = 8%nat → length d = 8%nat →
  [a; b; c; d] !! i = Some x → take 8 (drop (i * 8) (a ++ b ++ c ++ d)) = x.
Proof.
  intros Ha Hb Hc Hd. destruct i as [|[|[|[|i]]]]; cbn [lookup list_lookup]; intros [= ->]; cbn [Nat.mul Nat.add].
  - rewrite drop_0. by rewrite take_app_length'.
  - rewrite drop_app_length' by lia. by rewrite take_app_length'.
  - rewrite app_assoc, drop_app_length' by (rewrite length_app; lia). by rewrite take_app_length'.
  - rewrite !app_assoc, drop_app_length' by (rewrite !length_app; lia). rewrite take_ge; [done|lia].
Qed.

(** Decoding an encoded element gives it back (its top bit is clear). *)
Lemma decode_encode a : fe_ok a → l3 a < 2 ^ 63 → decode_u (encode_fe a) = a.
Proof.
  destruct a as [a0 a1 a2 a3]. intros (H0 & H1 & H2 & H3) Ht. cbn [l0 l1 l2 l3] in *.
  unfold decode_u, encode_fe, fe_limbs. cbn [l0 l1 l2 l3 mbind list_bind]. rewrite app_nil_r.
  pose proof (length_to_le_bytes 8) as HL.
  rewrite (take_drop_limb _ _ _ _ 0 _ (HL _) (HL _) (HL _) (HL _) eq_refl),
    (take_drop_limb _ _ _ _ 1 _ (HL _) (HL _) (HL _) (HL _) eq_refl),
    (take_drop_limb _ _ _ _ 2 _ (HL _) (HL _) (HL _) (HL _) eq_refl),
    (take_drop_limb _ _ _ _ 3 _ (HL _) (HL _) (HL _) (HL _) eq_refl).
  rewrite !from_to_le_bytes by done. f_equal.
  change (Z.shiftl 1 63 - 1) with (Z.ones 63). rewrite Z.land_ones by lia.
  apply Z.mod_small. destruct H3. lia.
Qed.

(** ** Departures from RFC 7748 *)

(** The constant is not the prime: two limbs have 56 bits. *)
Example P_not_prime : fe_val P ≠ 2 ^ 255 - 19.
Proof. vm_compute. discriminate. Qed.

(** [2^255 - 19] itself is not reduced to zero modulo the prime. *)
Example fe_reduce_wrong :
  fe_val (fe_reduce (mkFe (2 ^ 64 - 19) (2 ^ 64 - 1) (2 ^ 64 - 1) (2 ^ 63 - 1))) mod (2 ^ 255 - 19) ≠ 0.
Proof. vm_compute. discriminate. Qed.

(** A carry into an all-ones limb is lost: [1 + (2^128 - 1)] gives [0]. *)
Example fe_add_lost_carry :
  fe_val (fe_add (mkFe 1 0 0 0) (mkFe (2 ^ 64 - 1) (2 ^ 64 - 1) 0 0)) = 0.
Proof. vm_compute. reflexivity. Qed.

(** The column sums of the product overflow 128 bits. *)
Example fe_mul_overflow :
  let a := mkFe (2 ^ 64 - 1) (2 ^ 64 - 1) 0 0 in
  fe_val (fe_mul a a) mod (2 ^ 255 - 19) ≠ (fe_val a * fe_val a) mod (2 ^ 255 - 19).
Proof. vm_compute. discriminate. Qed.

(** The inversion chain computes [a^(2^255 - 1)], not [a^(p - 2)]: with
    exponents added where the code multiplies. *)
Lemma inv_chain_exponent : inv_chain Z.add 1 = 2 ^ 255 - 1 ∧ inv_chain Z.add 1 ≠ 2 ^ 255 - 19 - 2.
Proof. vm_compute. split; [reflexivity|discriminate]. Qed.
