(* ===== verification/Tls13.v ===== *)
(** TLS 1.3: record layer, key schedule and handshake messages
    ([crypto/tls13.rs]).

    [RecordLayer] with [encrypt] and [decrypt] over the authenticated ciphers,
    [KeySchedule] over HKDF, [Transcript], and the operations of
    [TlsConnection].  A [copy_from_slice] between slices of different length
    panics: [encrypt] and [decrypt] return an [outcome].

    The theorems: a stream of records sent by one side is read back by a peer
    with the same keys; nonces do not repeat; the Finished check accepts
    exactly the expected MAC; and the handshake cannot be completed, because
    the ServerHello parser never yields a key share. *)

From S2P Require Import Prelude Bits Words Sha2 Hmac Aead ChaCha Aes AesGcm X25519.

(** [b"..."] *)
Definition ascii_bytes (s : string) : list Z :=
  (λ c, Z.of_N (Ascii.N_of_ascii c)) <$> String.list_ascii_of_string s.

(** ** Constants *)

Definition TLS_VERSION_1_3 : Z := 0x0304.
Definition TLS_VERSION_1_2 : Z := 0x0303.
Definition CS_AES_128_GCM_SHA256 : Z := 0x1301.
Definition CS_AES_256_GCM_SHA384 : Z := 0x1302.
Definition CS_CHACHA20_POLY1305 : Z := 0x1303.
Definition EXT_SERVER_NAME : Z := 0x0000.
Definition EXT_SUPPORTED_VERSIONS : Z := 0x002B.
Definition EXT_SUPPORTED_GROUPS : Z := 0x000A.
Definition EXT_KEY_SHARE : Z := 0x0033.
Definition EXT_SIGNATURE_ALGS : Z := 0x000D.
Definition GROUP_X25519 : Z := 0x001D.
Definition RECORD_ALERT : Z := 21.
Definition RECORD_HANDSHAKE : Z := 22.
Definition RECORD_APPLICATION : Z := 23.
Definition HS_CLIENT_HELLO : Z := 1.

(** ** Record layer *)

Record RecordLayer := mkRL {
  client_key : list Z;
  client_iv : list Z;
  server_key : list Z;
  server_iv : list Z;
  client_seq : Z;
  server_seq : Z;
  rl_cipher : Z;
}.

Definition RecordLayer_new : RecordLayer := mkRL [] [] [] [] 0 0 CS_AES_128_GCM_SHA256.

(** [for i in 0..8 { if n >= 8 { nonce[n - 8 + i] ^= seq_bytes[i]; } }] *)
Definition make_nonce (iv : list Z) (seq : Z) : list Z :=
  let n := length iv in
  if (8 <=? n)%nat
  then take (n - 8) iv ++ xor_bytes (drop (n - 8) iv) (to_be_bytes 8 seq)
  else iv.

(** [let mut k = [0; n]; k.copy_from_slice(&v[..n.min(v.len())])]: panics when
    the vector is shorter than [n]. *)
Definition fixed_slice (n : nat) (v : list Z) : outcome (list Z) :=
  if (length v <? n)%nat then Panicked else Returned (take n v).

Definition outcome_bind {A B} (m : outcome A) (k : A → outcome B) : outcome B :=
  match m with Returned a => k a | Panicked => Panicked end.
#[local] Notation "x ⇐ m ; k" := (outcome_bind m (λ x, k)) (at level 100, m at level 90, k at level 200).

(** The two length bytes of a record header. *)
Definition len16 (n : nat) : list Z :=
  [wrap 8 (Z.shiftr (Z.of_nat n) 8); wrap 8 (Z.of_nat n)].

(** The [match self.cipher] of [encrypt]: ciphertext and tag, or the error. *)
Definition seal_with (cipher : Z) (key nonce aad pt : list Z) : outcome (result string (list Z)) :=
  if cipher =? CS_AES_128_GCM_SHA256 then
    k ⇐ fixed_slice 16 key; iv ⇐ fixed_slice 12 nonce;
    let (ct, tag) := Aes128Gcm_seal (Aes128Gcm_new k) iv aad pt in Returned (Ok (ct ++ tag))
  else if cipher =? CS_CHACHA20_POLY1305 then
    k ⇐ fixed_slice 32 key; iv ⇐ fixed_slice 12 nonce;
    let (ct, tag) := chacha20_poly1305_seal k iv aad pt in Returned (Ok (ct ++ tag))
  else Returned (Err "tls: unsupported cipher").

Definition open_with (cipher : Z) (key nonce aad ct tag : list Z) : outcome (result string (list Z)) :=
  if cipher =? CS_AES_128_GCM_SHA256 then
    k ⇐ fixed_slice 16 key; iv ⇐ fixed_slice 12 nonce;
    Returned (Aes128Gcm_open (Aes128Gcm_new k) iv aad ct tag)
  else if cipher =? CS_CHACHA20_POLY1305 then
    k ⇐ fixed_slice 32 key; iv ⇐ fixed_slice 12 nonce;
    Returned (chacha20_poly1305_open k iv aad ct tag)
  else Returned (Err "tls: unsupported cipher").

Definition set_client_seq (r : RecordLayer) (v : Z) : RecordLayer :=
  mkRL (client_key r) (client_iv r) (server_key r) (server_iv r) v (server_seq r) (rl_cipher r).
Definition set_server_seq (r : RecordLayer) (v : Z) : RecordLayer :=
  mkRL (client_key r) (client_iv r) (server_key r) (server_iv r) (client_seq r) v (rl_cipher r).

Definition encrypt (r : RecordLayer) (plaintext : list Z) (record_type : Z)
    : outcome (result string (list Z) * RecordLayer) :=
  let pt := plaintext ++ [record_type] in
  let aad := [0x17; 0x03; 0x03] ++ len16 (length pt + 16) in
  let nonce := make_nonce (client_iv r) (client_seq r) in
  let r' := set_client_seq r (wadd 64 (client_seq r) 1) in
  res ⇐ seal_with (rl_cipher r) (client_key r) nonce aad pt;
  Returned (match res with
            | Err e => Err e
            | Ok body => Ok ([0x17; 0x03; 0x03] ++ len16 (length body) ++ body)
            end, r').

(** [pt.pop().unwrap_or(RECORD_APPLICATION)] *)
Definition strip_type (pt : list Z) : list Z * Z :=
  match reverse pt with
  | [] => ([], RECORD_APPLICATION)
  | t :: rest => (reverse rest, t)
  end.

Definition decrypt (r : RecordLayer) (record_type : Z) (ciphertext : list Z)
    : outcome (result string (list Z * Z) * RecordLayer) :=
  if (length ciphertext <? 16)%nat then Returned (Err "tls: record too short", r) else
  let aad := [record_type; 0x03; 0x03] ++ len16 (length ciphertext) in
  let nonce := make_nonce (server_iv r) (server_seq r) in
  let r' := set_server_seq r (wadd 64 (server_seq r) 1) in
  let ct := take (length ciphertext - 16) ciphertext in
  let tag := drop (length ciphertext - 16) ciphertext in
  res ⇐ open_with (rl_cipher r) (server_key r) nonce aad ct tag;
  Returned (match res with
            | Err e => Err e
            | Ok pt => Ok (strip_type pt)
            end, r').

(** ** Key schedule *)

Record KeySchedule := mkKS {
  hash_len : nat;
  early_secret : list Z;
  hs_secret : list Z;
  master_secret : list Z;
  client_hs_ts : list Z;
  server_hs_ts : list Z;
  client_app_ts : list Z;
  server_app_ts : list Z;
  ks_cipher : Z;
}.

Definition KeySchedule_new (cipher : Z) : KeySchedule :=
  mkKS (if cipher =? CS_AES_256_GCM_SHA384 then 48 else 32) [] [] [] [] [] [] [] cipher.

Definition ks_hmac (k : KeySchedule) (key data : list Z) : list Z :=
  if (hash_len k =? 48)%nat then hmac_sha512 key data else hmac_sha256 key data.

Definition ks_hash (k : KeySchedule) (data : list Z) : list Z :=
  if (hash_len k =? 48)%nat then sha384 data else sha256 data.

Definition hkdf_extract_v (k : KeySchedule) (salt ikm : list Z) : list Z :=
  if (hash_len k =? 48)%nat then hkdf_extract_sha512 salt ikm else hkdf_extract salt ikm.

(** [let mut prk = [0; n]; prk[..m].copy_from_slice(&secret[..m])], [m = min] *)
Definition fit (n : nat) (secret : list Z) : list Z :=
  take n secret ++ replicate (n - length secret) 0.

Definition hkdf_label (label context : list Z) (length_ : nat) : list Z :=
  let full_label := ascii_bytes "tls13 " ++ label in
  len16 length_ ++ [wrap 8 (Z.of_nat (length full_label))] ++ full_label
  ++ [wrap 8 (Z.of_nat (length context))] ++ context.

Definition hkdf_expand_label (k : KeySchedule) (secret label context : list Z) (length_ : nat) : list Z :=
  if (hash_len k =? 48)%nat
  then hkdf_expand_sha512 (fit 64 secret) (hkdf_label label context length_) length_
  else hkdf_expand (fit 32 secret) (hkdf_label label context length_) length_.

Definition derive_secret (k : KeySchedule) (secret label transcript_hash : list Z) : list Z :=
  hkdf_expand_label k secret label transcript_hash (hash_len k).

Definition compute_early_secret (k : KeySchedule) : KeySchedule :=
  let zeros := replicate (hash_len k) 0 in
  mkKS (hash_len k) (hkdf_extract_v k zeros zeros) (hs_secret k) (master_secret k)
       (client_hs_ts k) (server_hs_ts k) (client_app_ts k) (server_app_ts k) (ks_cipher k).

Definition compute_hs_secret (k : KeySchedule) (ecdh_shared hello_hash : list Z) : KeySchedule :=
  let empty_hash := ks_hash k [] in
  let derived := derive_secret k (early_secret k) (ascii_bytes "derived") empty_hash in
  let hs := hkdf_extract_v k derived ecdh_shared in
  mkKS (hash_len k) (early_secret k) hs (master_secret k)
       (derive_secret k hs (ascii_bytes "c hs traffic") hello_hash)
       (derive_secret k hs (ascii_bytes "s hs traffic") hello_hash)
       (client_app_ts k) (server_app_ts k) (ks_cipher k).

Definition compute_master_secret (k : KeySchedule) (server_finished_hash : list Z) : KeySchedule :=
  let empty_hash := ks_hash k [] in
  let derived := derive_secret k (hs_secret k) (ascii_bytes "derived") empty_hash in
  let ms := hkdf_extract_v k derived (replicate (hash_len k) 0) in
  mkKS (hash_len k) (early_secret k) (hs_secret k) ms (client_hs_ts k) (server_hs_ts k)
       (derive_secret k ms (ascii_bytes "c ap traffic") server_finished_hash)
       (derive_secret k ms (ascii_bytes "s ap traffic") server_finished_hash) (ks_cipher k).

Definition traffic_keys (k : KeySchedule) (ts : list Z) (key_len iv_len : nat) : list Z * list Z :=
  (hkdf_expand_label k ts (ascii_bytes "key") [] key_len,
   hkdf_expand_label k ts (ascii_bytes "iv") [] iv_len).

Definition finished_mac (k : KeySchedule) (ts transcript_hash : list Z) : list Z :=
  let finished_key := hkdf_expand_label k ts (ascii_bytes "finished") [] (hash_len k) in
  ks_hmac k finished_key transcript_hash.

(** ** Transcript *)

Inductive TranscriptHasher :=
| TSha256 (h : Hasher)
| TSha512 (h : Hasher).

Definition Transcript_new (cipher : Z) : TranscriptHasher :=
  if cipher =? CS_AES_256_GCM_SHA384 then TSha512 Sha512_new else TSha256 Sha256_new.
Definition Transcript_update (t : TranscriptHasher) (data : list Z) : TranscriptHasher :=
  match t with
  | TSha256 h => TSha256 (Sha256_update h data)
  | TSha512 h => TSha512 (Sha512_update h data)
  end.
(** The source returns zeros here. *)
Definition Transcript_current_hash (t : TranscriptHasher) : list Z :=
  match t with
  | TSha256 _ => replicate 32 0
  | TSha512 _ => replicate 64 0
  end.
Definition Transcript_finalize (t : TranscriptHasher) : list Z :=
  match t with
  | TSha256 h => Sha256_finalize h
  | TSha512 h => Sha512_finalize h
  end.

(** ** Connection *)

Inductive HandshakeState :=
| Idle | WaitServerHello | WaitEncryptedExts | WaitCertificate | WaitCertVerify
| WaitFinished | Connected | Closed | HsError.

#[export] Instance HandshakeState_eq_dec : EqDecision HandshakeState.
Proof. solve_decision. Defined.

Record TlsConnection := mkConn {
  tls_state : HandshakeState;
  server_name : list Z;
  tls_cipher : Z;
  record : RecordLayer;
  schedule : KeySchedule;
  our_private : list Z;
  our_public : list Z;
  transcript_buf : list Z;
  session_ticket : list Z;
  client_auth : bool;
}.

Definition TlsConnection_new (name private_key : list Z) : TlsConnection :=
  let cipher := CS_AES_128_GCM_SHA256 in
  mkConn Idle name cipher RecordLayer_new (KeySchedule_new cipher) private_key
         (x25519_public_key private_key) [] [] false.

Definition encode_u16 (v : Z) : list Z := [wrap 8 (Z.shiftr v 8); wrap 8 v].
Definition encode_u24 (v : Z) : list Z := [wrap 8 (Z.shiftr v 16); wrap 8 (Z.shiftr v 8); wrap 8 v].

Definition ext_server_name (sni : list Z) : list Z :=
  let inner_len := 2 + 1 + 2 + Z.of_nat (length sni) in
  encode_u16 EXT_SERVER_NAME ++ encode_u16 (wrap 16 (inner_len + 2)) ++ encode_u16 (wrap 16 inner_len)
  ++ [0x00] ++ encode_u16 (wrap 16 (Z.of_nat (length sni))) ++ sni.

Definition ext_supported_versions : list Z :=
  encode_u16 EXT_SUPPORTED_VERSIONS ++ encode_u16 3 ++ [2] ++ encode_u16 TLS_VERSION_1_3.

Definition ext_supported_groups : list Z :=
  encode_u16 EXT_SUPPORTED_GROUPS ++ encode_u16 4 ++ encode_u16 2 ++ encode_u16 GROUP_X25519.

Definition ext_signature_algs : list Z :=
  let algs := [0x0403; 0x0503; 0x0804; 0x0401] in
  let list_len := Z.of_nat (length algs) * 2 in
  encode_u16 EXT_SIGNATURE_ALGS ++ encode_u16 (list_len + 2) ++ encode_u16 list_len
  ++ (algs ≫= encode_u16).

Definition ext_key_share (public : list Z) : list Z :=
  let ks_len := 2 + 2 + 32 in
  encode_u16 EXT_KEY_SHARE ++ encode_u16 (ks_len + 2) ++ encode_u16 ks_len
  ++ encode_u16 GROUP_X25519 ++ encode_u16 32 ++ public.

Definition client_exts (c : TlsConnection) : list Z :=
  ext_server_name (server_name c) ++ ext_supported_versions ++ ext_supported_groups
  ++ ext_signature_algs ++ ext_key_share (our_public c).

Definition build_client_hello (c : TlsConnection) (random : list Z) : list Z :=
  let exts := client_exts c in
  let suites := [CS_AES_128_GCM_SHA256; CS_CHACHA20_POLY1305] in
  let body := encode_u16 TLS_VERSION_1_2 ++ random ++ [0]
              ++ encode_u16 (Z.of_nat (length suites) * 2) ++ (suites ≫= encode_u16)
              ++ [1; 0]
              ++ encode_u16 (wrap 16 (Z.of_nat (length exts))) ++ exts in
  let hs := [HS_CLIENT_HELLO] ++ encode_u24 (wrap 32 (Z.of_nat (length body))) ++ body in
  [RECORD_HANDSHAKE] ++ encode_u16 TLS_VERSION_1_2 ++ encode_u16 (wrap 16 (Z.of_nat (length hs))) ++ hs.

(** [u16::from_be_bytes([data[pos], data[pos+1]])] *)
Definition be16_at (data : list Z) (pos : nat) : Z := from_be_bytes (take 2 (drop pos data)).

(** [&data[a..b]] *)
Definition slice (data : list Z) (a b : nat) : list Z := take (b - a) (drop a data).

(** The extension loop of [parse_server_hello] from [pos]; each turn moves
    [pos] on by at least four. *)
Fixpoint ext_loop (fuel : nat) (data : list Z) (pos exts_end : nat) (share : option (list Z)) : option (list Z) :=
  match fuel with
  | O => share
  | S f =>
      if ((pos + 4 <=? exts_end) && (pos + 4 <=? length data))%nat then
        let ext_type := be16_at data pos in
        let ext_len := Z.to_nat (be16_at data (pos + 2)) in
        let pos := (pos + 4)%nat in
        let ext_data := slice data pos (pos `min` (pos + ext_len)) in
        let pos := (pos + ext_len)%nat in
        let share :=
          if (ext_type =? EXT_KEY_SHARE) && (36 <=? length ext_data)%nat then
            let group := be16_at ext_data 0 in
            if (group =? GROUP_X25519) && bool_decide (slice ext_data 2 4 = [0; 32])
            then Some (slice ext_data 4 36) else share
          else share in
        ext_loop f data pos exts_end share
      else share
  end.

Definition parse_server_hello (c : TlsConnection) (data : list Z) : option (list Z) * TlsConnection :=
  if (length data <? 38)%nat then (None, c) else
  let session_id_len := Z.to_nat (nth 34 data 0) in
  let pos := (35 + session_id_len)%nat in
  if (length data <? pos + 2)%nat then (None, c) else
  let cs := be16_at data pos in
  let r := record c in
  let c' := mkConn (tls_state c) (server_name c) cs
              (mkRL (client_key r) (client_iv r) (server_key r) (server_iv r) (client_seq r) (server_seq r) cs)
              (KeySchedule_new cs) (our_private c) (our_public c) (transcript_buf c)
              (session_ticket c) (client_auth c) in
  let pos := (pos + 2 + 1)%nat in
  if (length data <? pos + 2)%nat then (None, c') else
  let exts_len := Z.to_nat (be16_at data pos) in
  let pos := (pos + 2)%nat in
  (ext_loop (length data) data pos (pos + exts_len) None, c').

(** [match self.cipher { CS_CHACHA20_POLY1305 => (32, 12), _ => (16, 12) }] *)
Definition key_lens (cipher : Z) : nat * nat :=
  if cipher =? CS_CHACHA20_POLY1305 then (32, 12)%nat else (16, 12)%nat.

(** Keys for both directions, and the sequence numbers back to zero. *)
Definition install_keys (k : KeySchedule) (cipher : Z) (client_ts server_ts : list Z) (r : RecordLayer) : RecordLayer :=
  let (key_len, iv_len) := key_lens cipher in
  let (ck, ci) := traffic_keys k client_ts key_len iv_len in
  let (sk, si) := traffic_keys k server_ts key_len iv_len in
  mkRL ck ci sk si 0 0 (rl_cipher r).

Definition derive_handshake_keys (c : TlsConnection) (server_pub hello_hash : list Z) : TlsConnection :=
  let shared := x25519_diffie_hellman (our_private c) server_pub in
  let k := compute_hs_secret (compute_early_secret (schedule c)) shared hello_hash in
  mkConn (tls_state c) (server_name c) (tls_cipher c)
         (install_keys k (tls_cipher c) (client_hs_ts k) (server_hs_ts k) (record c)) k
         (our_private c) (our_public c) (transcript_buf c) (session_ticket c) (client_auth c).

Definition derive_application_keys (c : TlsConnection) (finished_hash : list Z) : TlsConnection :=
  let k := compute_master_secret (schedule c) finished_hash in
  mkConn Connected (server_name c) (tls_cipher c)
         (install_keys k (tls_cipher c) (client_app_ts k) (server_app_ts k) (record c)) k
         (our_private c) (our_public c) (transcript_buf c) (session_ticket c) (client_auth c).

Definition verify_finished (c : TlsConnection) (finished_data transcript_hash : list Z) : bool :=
  let expected := finished_mac (schedule c) (server_hs_ts (schedule c)) transcript_hash in
  if negb (length expected =? length finished_data)%nat then false
  else negb (tags_differ expected finished_data).

Definition build_finished (c : TlsConnection) (transcript_hash : list Z) : list Z :=
  finished_mac (schedule c) (client_hs_ts (schedule c)) transcript_hash.

Definition set_record (c : TlsConnection) (s : HandshakeState) (r : RecordLayer) : TlsConnection :=
  mkConn s (server_name c) (tls_cipher c) r (schedule c) (our_private c) (our_public c)
         (transcript_buf c) (session_ticket c) (client_auth c).

Definition encrypt_app_data (c : TlsConnection) (data : list Z) : outcome (result string (list Z) * TlsConnection) :=
  res ⇐ encrypt (record c) data RECORD_APPLICATION;
  Returned (fst res, set_record c (tls_state c) (snd res)).

Definition decrypt_app_data (c : TlsConnection) (record_type : Z) (ciphertext : list Z)
    : outcome (result string (list Z * Z) * TlsConnection) :=
  res ⇐ decrypt (record c) record_type ciphertext;
  Returned (fst res, set_record c (tls_state c) (snd res)).

Definition build_alert (c : TlsConnection) (level desc : Z) : outcome (list (list Z) * TlsConnection) :=
  res ⇐ encrypt (record c) [level; desc] RECORD_ALERT;
  Returned (match fst res with
            | Ok r => ([r], set_record c Closed (snd res))
            | Err _ => ([], set_record c (tls_state c) (snd res))
            end).

Definition is_connected (c : TlsConnection) : bool := bool_decide (tls_state c = Connected).

(** ** Nonces *)

Lemma length_make_nonce iv seq : length (make_nonce iv seq) = length iv.
Proof.
  unfold make_nonce. destruct (Nat.leb_spec 8 (length iv)); [|done].
  rewrite length_app, length_take, length_xor_bytes, length_drop, length_to_be_bytes. lia.
Qed.

Lemma make_nonce_bytes iv seq : bytes_ok iv → bytes_ok (make_nonce iv seq).
Proof.
  intros H. unfold make_nonce. destruct (Nat.leb_spec 8 (length iv)); [|done].
  apply Forall_app_2; [by apply Forall_take|]. apply xor_bytes_ok; [by apply Forall_drop|apply to_be_bytes_ok].
Qed.

Lemma make_nonce_inj iv s s' :
  (8 ≤ length iv)%nat → uN 64 s → uN 64 s' → make_nonce iv s = make_nonce iv s' → s = s'.
Proof.
  intros Hl Hs Hs'. unfold make_nonce. rewrite (proj2 (Nat.leb_le _ _)) by done.
  intros E. apply app_inv_head, xor_bytes_inj_r in E;
    [|rewrite length_drop, length_to_be_bytes; lia..].
  by apply (to_be_bytes_inj 8) in E.
Qed.

(** ** Records *)

(** The cipher is one of the two implemented ones, with a key and an iv of its
    size. *)
Definition keys_ready (cipher : Z) (key iv : list Z) : Prop :=
  bytes_ok key ∧ bytes_ok iv ∧ length iv = 12%nat
  ∧ ((cipher = CS_AES_128_GCM_SHA256 ∧ length key = 16%nat)
     ∨ (cipher = CS_CHACHA20_POLY1305 ∧ length key = 32%nat)).

Lemma fixed_slice_exact n v : length v = n → fixed_slice n v = Returned v.
Proof.
  intros <-. unfold fixed_slice. rewrite (proj2 (Nat.ltb_ge _ _)) by lia. by rewrite take_ge by lia.
Qed.

(** What a cipher of the [Aead] class seals, concatenated and split again,
    opens to the plaintext. *)
Lemma aead_split {klen err seal open} {HA : Aead klen err seal open} key nonce aad pt :
  key_ok klen key nonce →
  let body := fst (seal key nonce aad pt) ++ snd (seal key nonce aad pt) in
  length body = (length pt + 16)%nat
  ∧ open key nonce aad (take (length body - 16) body) (drop (length body - 16) body) = Ok pt.
Proof.
  intros Hk body. pose proof (aead_len key nonce aad pt Hk) as Hl.
  pose proof (aead_tag_len key nonce aad pt) as Ht.
  assert (length body = (length pt + 16)%nat) as Hb by (unfold body; rewrite length_app; lia).
  split; [done|]. rewrite Hb. replace (length pt + 16 - 16)%nat with (length pt) by lia. unfold body.
  rewrite take_app_length', drop_app_length' by done. by apply aead_roundtrip.
Qed.

Lemma seal_open_with cipher key iv seq aad pt :
  keys_ready cipher key iv →
  ∃ body, seal_with cipher key (make_nonce iv seq) aad pt = Returned (Ok body)
    ∧ length body = (length pt + 16)%nat
    ∧ open_with cipher key (make_nonce iv seq) aad (take (length body - 16) body)
        (drop (length body - 16) body) = Returned (Ok pt).
Proof.
  intros (Hk & Hi & Hil & Hc). pose proof (make_nonce_bytes iv seq Hi) as Hn.
  pose proof (length_make_nonce iv seq) as Hnl. rewrite Hil in Hnl.
  unfold seal_with, open_with. destruct Hc as [[-> Hl]|[-> Hl]]; cbn [Z.eqb Pos.eqb CS_AES_128_GCM_SHA256 CS_CHACHA20_POLY1305];
    rewrite !fixed_slice_exact by done; cbn [outcome_bind].
  - destruct (aead_split (HA := aes128_gcm_aead) key (make_nonce iv seq) aad pt) as [H1 H2]; [done|].
    rewrite (surjective_pairing (Aes128Gcm_seal _ _ _ _)). eexists. split; [done|]. by rewrite H2.
  - destruct (aead_split (HA := chacha20_poly1305_aead) key (make_nonce iv seq) aad pt) as [H1 H2]; [done|].
    rewrite (surjective_pairing (chacha20_poly1305_seal _ _ _ _)). eexists. split; [done|]. by rewrite H2.
Qed.

Lemma strip_type_snoc pt t : strip_type (pt ++ [t]) = (pt, t).
Proof. unfold strip_type. rewrite reverse_snoc. by rewrite reverse_involutive. Qed.

(** The receiving side of [c]: its read keys and counter are [c]'s write keys
    and counter. *)
Definition peers (c s : RecordLayer) : Prop :=
  rl_cipher s = rl_cipher c ∧ server_key s = client_key c ∧ server_iv s = client_iv c
  ∧ server_seq s = client_seq c.

(** One record across the wire; both counters step. *)
Lemma record_roundtrip c s pt t :
  keys_ready (rl_cipher c) (client_key c) (client_iv c) → peers c s →
  ∃ rec c' s', encrypt c pt t = Returned (Ok rec, c')
    ∧ decrypt s 0x17 (drop 5 rec) = Returned (Ok (pt, t), s')
    ∧ rl_cipher c' = rl_cipher c ∧ client_key c' = client_key c ∧ client_iv c' = client_iv c
    ∧ peers c' s'.
Proof.
  intros Hk (P1 & P2 & P3 & P4). unfold encrypt, decrypt.
  destruct (seal_open_with (rl_cipher c) (client_key c) (client_iv c) (client_seq c)
    ([0x17; 0x03; 0x03] ++ len16 (length (pt ++ [t]) + 16)) (pt ++ [t]) Hk) as (body & E1 & E2 & E3).
  rewrite E1. cbn [outcome_bind]. eexists _, _, _. split; [done|].
  change (drop 5 _) with body. rewrite (proj2 (Nat.ltb_ge _ _)) by lia.
  rewrite P1, P2, P3, P4, E2. rewrite E2 in E3. rewrite E3. cbn [outcome_bind]. rewrite strip_type_snoc.
  by split_and!.
Qed.

(** Sending and receiving whole sequences, the 5-byte headers taken off. *)
Fixpoint send_all (c : RecordLayer) (msgs : list (list Z * Z)) : outcome (list (result string (list Z))) :=
  match msgs with
  | [] => Returned []
  | (pt, t) :: rest =>
      res ⇐ encrypt c pt t; recs ⇐ send_all (snd res) rest; Returned (fst res :: recs)
  end.

Fixpoint receive_all (s : RecordLayer) (recs : list (result string (list Z)))
    : outcome (list (result string (list Z * Z))) :=
  match recs with
  | [] => Returned []
  | Err e :: rest => Returned [Err e]
  | Ok rec :: rest =>
      res ⇐ decrypt s 0x17 (drop 5 rec); out ⇐ receive_all (snd res) rest; Returned (fst res :: out)
  end.

Lemma session_roundtrip msgs c s :
  keys_ready (rl_cipher c) (client_key c) (client_iv c) → peers c s →
  ∃ recs, send_all c msgs = Returned recs ∧ receive_all s recs = Returned (Ok <$> msgs).
Proof.
  revert c s. induction msgs as [|[pt t] msgs IH]; intros c s Hk Hp; [by exists []|].
  destruct (record_roundtrip c s pt t Hk Hp) as (rec & c' & s' & E1 & E2 & K1 & K2 & K3 & Hp').
  assert (Hk' : keys_ready (rl_cipher c') (client_key c') (client_iv c')) by by rewrite K1, K2, K3.
  destruct (IH c' s' Hk' Hp') as (recs & E3 & E4).
  exists (Ok rec :: recs). cbn [send_all receive_all]. rewrite E1. cbn [outcome_bind fst snd].
  rewrite E3. cbn [outcome_bind]. split; [done|]. rewrite E2. cbn [outcome_bind fst snd]. by rewrite E4.
Qed.

(** ** Theorems *)

(** C40: A TLS 1.3 record stream is read back: for a sender whose cipher is
    implemented and whose key and iv have its sizes, and a receiver with the
    same cipher, keys and counter, any sequence of payloads with their content
    types encrypts without error and decrypts, in order, to exactly that
    sequence. *)
Theorem tls13_session_roundtrip msgs c s :
  keys_ready (rl_cipher c) (client_key c) (client_iv c) → peers c s →
  ∃ recs, send_all c msgs = Returned recs ∧ receive_all s recs = Returned (Ok <$> msgs).
Proof. apply session_roundtrip. Qed.

Lemma tls13_session_roundtrip_witness :
  ∃ recs,
    send_all (mkRL (replicate 16 1) (replicate 12 2) [] [] 0 0 CS_AES_128_GCM_SHA256)
      [([104; 105], 23); ([1; 0], 21)] = Returned recs
    ∧ receive_all (mkRL [] [] (replicate 16 1) (replicate 12 2) 0 0 CS_AES_128_GCM_SHA256) recs
      = Returned [Ok ([104; 105], 23); Ok ([1; 0], 21)].
Proof.
  apply (tls13_session_roundtrip [([104; 105], 23); ([1; 0], 21)]
    (mkRL (replicate 16 1) (replicate 12 2) [] [] 0 0 CS_AES_128_GCM_SHA256)
    (mkRL [] [] (replicate 16 1) (replicate 12 2) 0 0 CS_AES_128_GCM_SHA256)).
  - split_and!; [apply Forall_replicate; unfold uN; lia..|reflexivity|left; split; reflexivity].
  - split_and!; reflexivity.
Defined.

(** No nonce is used twice under one key: two records of a stream with
    different sequence numbers have different nonces, for every iv of at
    least eight bytes. *)
Theorem tls13_nonces_distinct iv s s' :
  (8 ≤ length iv)%nat → uN 64 s → uN 64 s' → s ≠ s' → make_nonce iv s ≠ make_nonce iv s'.
Proof. intros Hl Hs Hs' Hne E. by apply Hne, (make_nonce_inj iv). Qed.

Lemma tls13_nonces_distinct_witness : make_nonce (replicate 12 7) 1 ≠ make_nonce (replicate 12 7) 2.
Proof. apply tls13_nonces_distinct; [simpl; lia|unfold uN; lia..|lia]. Defined.

Lemma ext_loop_none fuel data pos e : ext_loop fuel data pos e None = None.
Proof.
  revert pos. induction fuel as [|f IH]; intros pos; [done|]. cbn [ext_loop].
  destruct ((pos + 4 <=? e)%nat && (pos + 4 <=? length data)%nat); [|done].
  replace (slice data (pos + 4) _) with (@nil Z).
  - cbn [length Nat.leb]. rewrite andb_false_r. apply IH.
  - unfold slice. rewrite Nat.min_l, Nat.sub_diag by lia. done.
Qed.

(** The ServerHello parser never returns a key share: the slice it takes
    for an extension's data, [data[pos..pos.min(pos + ext_len)]], is empty, so
    every ServerHello is refused and the 1.3 handshake cannot complete. *)
Theorem tls13_server_hello_refused c data : fst (parse_server_hello c data) = None.
Proof.
  unfold parse_server_hello. repeat case_match; try done. cbn [fst]. apply ext_loop_none.
Qed.

(** The Finished check accepts exactly the MAC of the transcript. *)
Lemma verify_finished_spec c d h :
  verify_finished c d h = true ↔ d = finished_mac (schedule c) (server_hs_ts (schedule c)) h.
Proof.
  unfold verify_finished. set (e := finished_mac _ _ _).
  destruct (Nat.eqb_spec (length e) (length d)) as [Hl|Hl]; cbn [negb].
  - rewrite negb_true_iff, tags_differ_spec by done. naive_solver.
  - split; [done|]. intros ->. done.
Qed.

(** A sequence of extensions: type, length, data, to the end of the block. *)
Fixpoint exts_wf (fuel : nat) (b : list Z) : bool :=
  match fuel with
  | O => false
  | S f =>
      match b with
      | [] => true
      | _ => let n := Z.to_nat (be16_at b 2) in
             (4 + n <=? length b)%nat && exts_wf f (drop (4 + n) b)
      end
  end.

(** The server_name extension announces two bytes more than it has, so the
    extension block of a ClientHello does not split into extensions. *)
Example client_hello_malformed :
  exts_wf 100 (client_exts (mkConn Idle [97] CS_AES_128_GCM_SHA256 RecordLayer_new
    (KeySchedule_new CS_AES_128_GCM_SHA256) [] (replicate 32 0) [] [] false)) = false.
Proof. vm_compute. reflexivity. Qed.
