(* ===== verification/BigInt.v ===== *)
(** Big integers for public-key cryptography ([crypto/bigint.rs]).

    A [BigInt] is the source's array of [MAX_LIMBS] limbs with the number [bn]
    of active ones.  Operations that fill a fresh [ZERO] from limb 0 upwards
    are recursions over the operands' limbs ([limb] reads [0] past the active
    ones, as the source's guards do); those that update in place ([mul],
    [shl_n]) update the array by index in the order of the source's loops. *)

From S2P Require Import Prelude Bits Words.

Definition MAX_LIMBS : nat := 64.

Record BigInt := mkBig { limbs : list Z; bn : nat }.

Definition ZERO : BigInt := mkBig (replicate MAX_LIMBS 0) 1.

Definition from_u64 (v : Z) : BigInt := mkBig (<[0%nat := v]> (limbs ZERO)) 1.

(** [if i < self.n { self.limbs[i] } else { 0 }] *)
Definition limb (b : BigInt) (i : nat) : Z := if (i <? bn b)%nat then nth i (limbs b) 0 else 0.

(** A fresh [ZERO] with its first limbs written. *)
Definition fill (ds : list Z) (n : nat) : BigInt := mkBig (ds ++ replicate (MAX_LIMBS - length ds) 0) n.

(** [while self.n > 1 && self.limbs[self.n - 1] == 0 { self.n -= 1; }] *)
Fixpoint norm_len (l : list Z) (n : nat) : nat :=
  match n with
  | O => O
  | S n' => if (1 <? n)%nat && (nth n' l 0 =? 0) then norm_len l n' else n
  end.
Definition normalize (b : BigInt) : BigInt := mkBig (limbs b) (norm_len (limbs b) (bn b)).

(** ** Bytes *)

(** [val |= (byte as u64) << ((chunk.len() - 1 - k) * 8)] over the chunk *)
Definition chunk_limb (chunk : list Z) : Z :=
  foldl (λ v kb, Z.lor v (wrap 64 (Z.shiftl (snd kb) (8 * Z.of_nat (length chunk - 1 - fst kb)))))
        0 (zip (seq 0 (length chunk)) chunk).

Definition from_be_bytes_limb (bytes : list Z) (i : nat) : Z :=
  let byte_idx := (length bytes - (i + 1) * 8)%nat in
  let end_ := (length bytes - i * 8)%nat in
  chunk_limb (take (end_ - byte_idx) (drop byte_idx bytes)).

Definition Big_from_be_bytes (bytes : list Z) : BigInt :=
  let limb_count := ((length bytes + 7) / 8)%nat in
  let n := (limb_count `min` MAX_LIMBS)%nat in
  normalize (fill (from_be_bytes_limb bytes <$> seq 0 n) (n `max` 1)).

(** [let byte_pos = len.saturating_sub(i*8+k+1); if byte_pos < len { out[byte_pos] = .. }] *)
Definition write_byte (len : nat) (v : Z) (i : nat) (out : list Z) (k : nat) : list Z :=
  let byte_pos := (len - (i * 8 + k + 1))%nat in
  if (byte_pos <? len)%nat then <[byte_pos := wrap 8 (Z.shiftr v (Z.of_nat k * 8))]> out else out.

Definition Big_to_be_bytes (b : BigInt) (len : nat) : list Z :=
  foldl (λ out i, foldl (write_byte len (nth i (limbs b) 0) i) out (seq 0 8))
        (replicate len 0) (seq 0 (bn b)).

(** ** Queries *)

Definition is_zero (b : BigInt) : bool := forallb (λ l, l =? 0) (take (bn b) (limbs b)).

(** [u64::leading_zeros] *)
Definition leading_zeros (v : Z) : Z := if v =? 0 then 64 else 63 - Z.log2 v.

Fixpoint bit_len_from (l : list Z) (n : nat) : Z :=
  match n with
  | O => 0
  | S i => if nth i l 0 =? 0 then bit_len_from l i
           else Z.of_nat i * 64 + (64 - leading_zeros (nth i l 0))
  end.
Definition bit_len (b : BigInt) : Z := bit_len_from (limbs b) (bn b).

Definition bit (b : BigInt) (i : Z) : bool :=
  let limb_ := Z.to_nat (i `div` 64) in
  if (bn b <=? limb_)%nat then false
  else Z.land (Z.shiftr (nth limb_ (limbs b) 0) (i `mod` 64)) 1 =? 1.

(** [for i in (0..n).rev()]: the first differing limb decides. *)
Fixpoint cmp_from (a b : BigInt) (n : nat) : comparison :=
  match n with
  | O => Eq
  | S i => match limb a i ?= limb b i with
           | Eq => cmp_from a b i
           | o => o
           end
  end.
Definition cmp (a b : BigInt) : comparison := cmp_from a b (bn a `max` bn b).

Definition eq_const (a b : BigInt) : bool :=
  let n := ((bn a `max` bn b) `max` 1)%nat in
  foldl (λ diff i, Z.lor diff (Z.lxor (limb a i) (limb b i))) 0 (seq 0 n) =? 0.

(** ** Addition and subtraction *)

Fixpoint add_limbs (ds : list (Z * Z)) (carry : Z) : list Z * Z :=
  match ds with
  | [] => ([], carry)
  | (a, b) :: ds' =>
      let sum1 := wrap 64 (a + b) in
      let c1 := if 2 ^ 64 <=? a + b then 1 else 0 in
      let sum := wrap 64 (sum1 + carry) in
      let c2 := if 2 ^ 64 <=? sum1 + carry then 1 else 0 in
      let (out, c) := add_limbs ds' (c1 + c2) in
      (sum :: out, c)
  end.

(** The operands' limbs side by side, [0..n]. *)
Definition limb_pairs (a b : BigInt) (n : nat) : list (Z * Z) := (λ i, (limb a i, limb b i)) <$> seq 0 n.

Definition add (a b : BigInt) : BigInt :=
  let n := (bn a `max` bn b)%nat in
  let (out, carry) := add_limbs (limb_pairs a b n) 0 in
  if (0 <? carry) && (n <? MAX_LIMBS)%nat
  then normalize (fill (out ++ [carry]) (n + 1))
  else normalize (fill out (n `max` 1)).

Fixpoint sub_limbs (ds : list (Z * Z)) (borrow : Z) : list Z :=
  match ds with
  | [] => []
  | (a, b) :: ds' =>
      let diff1 := wrap 64 (a - b) in
      let b1 := if a <? b then 1 else 0 in
      let diff := wrap 64 (diff1 - borrow) in
      let b2 := if diff1 <? borrow then 1 else 0 in
      diff :: sub_limbs ds' (b1 + b2)
  end.

Definition sub (a b : BigInt) : BigInt :=
  let n := (bn a `max` bn b)%nat in
  normalize (fill (sub_limbs (limb_pairs a b n) 0) (n `max` 1)).

(** ** Multiplication *)

(** The inner loop: [rhs]'s limbs [bs] from position [pos] of [out]. *)
Fixpoint mul_inner (a : Z) (bs : list Z) (pos : nat) (carry : Z) (out : list Z) : list Z * Z :=
  match bs with
  | [] => (out, carry)
  | b :: bs' =>
      if (MAX_LIMBS <=? pos)%nat then (out, carry) else
      let prod := a * b + nth pos out 0 + carry in
      mul_inner a bs' (S pos) (Z.shiftr prod 64) (<[pos := wrap 64 prod]> out)
  end.

(** Body of the outer loop for limb [i]. *)
Definition mul_row (a b : BigInt) (out : list Z) (i : nat) : list Z :=
  let (out', carry) := mul_inner (nth i (limbs a) 0) (take (bn b) (limbs b)) i 0 out in
  let k := (i + bn b)%nat in
  if (k <? MAX_LIMBS)%nat then <[k := wadd 64 (nth k out' 0) (wrap 64 carry)]> out' else out'.

Definition mul (a b : BigInt) : BigInt :=
  let n := ((bn a + bn b) `min` MAX_LIMBS)%nat in
  normalize (mkBig (foldl (mul_row a b) (limbs ZERO) (seq 0 (bn a))) n).

(** ** Shifts *)

Fixpoint shl1_limbs (l : list Z) (carry : Z) : list Z * Z :=
  match l with
  | [] => ([], carry)
  | x :: l' =>
      let (out, c) := shl1_limbs l' (Z.shiftr x 63) in
      (Z.lor (wrap 64 (Z.shiftl x 1)) carry :: out, c)
  end.

Definition shl1 (b : BigInt) : BigInt :=
  let (lo, carry) := shl1_limbs (take (bn b) (limbs b)) 0 in
  let l := lo ++ drop (bn b) (limbs b) in
  if negb (carry =? 0) && (bn b <? MAX_LIMBS)%nat
  then mkBig (<[bn b := carry]> l) (bn b + 1)
  else mkBig l (bn b).

(** From the top limb down, the bit shifted out goes to the next lower limb. *)
Fixpoint shr1_limbs (l : list Z) : list Z * Z :=
  match l with
  | [] => ([], 0)
  | x :: l' =>
      let (out, carry) := shr1_limbs l' in
      (Z.lor (Z.shiftr x 1) (wrap 64 (Z.shiftl carry 63)) :: out, Z.land x 1)
  end.

Definition shr1 (b : BigInt) : BigInt :=
  normalize (mkBig (fst (shr1_limbs (take (bn b) (limbs b))) ++ drop (bn b) (limbs b)) (bn b)).

(** Body of the loop of [shl_n]. *)
Definition shl_step (b : BigInt) (word_shift : nat) (bit_shift : Z) (out : list Z) (i : nat) : list Z :=
  let dst := (i + word_shift)%nat in
  let x := nth i (limbs b) 0 in
  let out := if (dst <? MAX_LIMBS)%nat
             then <[dst := Z.lor (nth dst out 0) (wrap 64 (Z.shiftl x bit_shift))]> out else out in
  if (0 <? bit_shift) && (dst + 1 <? MAX_LIMBS)%nat
  then <[(dst + 1)%nat := Z.lor (nth (dst + 1) out 0) (Z.shiftr x (64 - bit_shift))]> out
  else out.

Definition shl_n (b : BigInt) (n : Z) : BigInt :=
  let word_shift := Z.to_nat (n `div` 64) in
  let bit_shift := n `mod` 64 in
  if (MAX_LIMBS <=? word_shift)%nat then ZERO
  else normalize (mkBig (foldl (shl_step b word_shift bit_shift) (limbs ZERO) (seq 0 (bn b)))
                        ((bn b + word_shift + 1) `min` MAX_LIMBS)%nat).

(** ** Modular arithmetic *)

(** [for shift in (0..=bits).rev() { .. }], [n] turns left *)
Fixpoint mod_loop (m : BigInt) (n : nat) (r : BigInt) : BigInt :=
  match n with
  | O => r
  | S shift =>
      let ms := shl_n m (Z.of_nat shift) in
      mod_loop m shift (match cmp r ms with Lt => r | _ => sub r ms end)
  end.

Definition modulo (a m : BigInt) : BigInt :=
  match cmp a m with
  | Lt => a
  | _ => let bits := saturating_sub (bit_len a) (bit_len m) in mod_loop m (S (Z.to_nat bits)) a
  end.

Definition mod_add (a b m : BigInt) : BigInt :=
  let sum := add a b in
  match cmp sum m with Lt => sum | _ => sub sum m end.

Definition mod_mul (a b m : BigInt) : BigInt := modulo (mul a b) m.

(** Body of the loop of [mod_exp] on [(result, base)]. *)
Definition exp_step (exp m : BigInt) (rb : BigInt * BigInt) (i : nat) : BigInt * BigInt :=
  let (result, base) := rb in
  (if bit exp (Z.of_nat i) then mod_mul result base m else result, mod_mul base base m).

Definition mod_exp (a exp m : BigInt) : BigInt :=
  if is_zero m then ZERO
  else fst (foldl (exp_step exp m) (from_u64 1, modulo a m) (seq 0 (Z.to_nat (bit_len exp)))).

Definition mod_inv (a m : BigInt) : option BigInt := Some (mod_exp a (sub m (from_u64 2)) m).
