(* ===== verification/BigIntProofs.v ===== *)
(** Big integers refine [Z]: every operation of [BigInt] computes the
    corresponding operation on the value of the limbs, and keeps numbers
    well formed. *)

From S2P Require Import Prelude Bits Words BigInt.

(** ** Values *)

Fixpoint eval (l : list Z) : Z :=
  match l with
  | [] => 0
  | x :: l' => x + 2 ^ 64 * eval l'
  end.
#[global] Arguments eval : simpl never.

Definition val (b : BigInt) : Z := eval (take (bn b) (limbs b)).

Abbreviation limbs_ok := (Forall (uN 64)).

(** Well formed: a full array of limbs, at least one active, no leading zero
    limb. *)
Definition normal (l : list Z) (n : nat) : Prop := n = 1%nat ∨ nth (n - 1) l 0 ≠ 0.
Record wf (b : BigInt) : Prop := mkWf {
  wf_len : length (limbs b) = MAX_LIMBS;
  wf_limbs : limbs_ok (limbs b);
  wf_n : (1 ≤ bn b ≤ MAX_LIMBS)%nat;
  wf_normal : normal (limbs b) (bn b);
}.

Definition W (n : nat) : Z := 2 ^ (64 * Z.of_nat n).

Lemma W_0 : W 0 = 1.
Proof. done. Qed.
Lemma W_S n : W (S n) = 2 ^ 64 * W n.
Proof. unfold W. rewrite <- Z.pow_add_r by lia. f_equal. lia. Qed.
Lemma W_add m n : W (m + n) = W m * W n.
Proof. unfold W. rewrite <- Z.pow_add_r by lia. f_equal. lia. Qed.
Lemma W_pos n : 0 < W n.
Proof. apply Z.pow_pos_nonneg; lia. Qed.
Lemma W_mono m n : (m ≤ n)%nat → W m ≤ W n.
Proof. intros. apply Z.pow_le_mono_r; lia. Qed.

Lemma eval_nil : eval [] = 0.
Proof. done. Qed.
Lemma eval_cons x l : eval (x :: l) = x + 2 ^ 64 * eval l.
Proof. done. Qed.

Lemma eval_app a b : eval (a ++ b) = eval a + W (length a) * eval b.
Proof.
  induction a as [|x a IH]; cbn [app length].
  - rewrite W_0, eval_nil. lia.
  - rewrite !eval_cons, IH, W_S. lia.
Qed.

Lemma eval_replicate_0 n : eval (replicate n 0) = 0.
Proof. induction n as [|n IH]; [done|]. cbn [replicate]. rewrite eval_cons, IH. lia. Qed.

Lemma eval_bound l : limbs_ok l → 0 ≤ eval l < W (length l).
Proof.
  induction 1 as [|x l [Hx1 Hx2] _ IH]; [cbn [length]; rewrite eval_nil, W_0; lia|].
  rewrite eval_cons. cbn [length]. rewrite W_S. lia.
Qed.

Lemma eval_0 l : limbs_ok l → eval l = 0 → Forall (λ x, x = 0) l.
Proof.
  induction 1 as [|x l [Hx1 Hx2] Hl IH]; [done|]. rewrite eval_cons. intros E.
  pose proof (eval_bound l Hl). constructor; [lia|]. apply IH. lia.
Qed.

(** Insertion at a position changes the value by the difference at its weight. *)
Lemma eval_insert l i x :
  (i < length l)%nat → eval (<[i := x]> l) = eval l + W i * (x - nth i l 0).
Proof.
  revert i. induction l as [|y l IH]; intros [|i] Hi; cbn [length] in Hi; try lia.
  - cbn [insert list_insert nth]. rewrite !eval_cons, W_0. lia.
  - change (<[S i := x]> (y :: l)) with (y :: <[i := x]> l). cbn [nth].
    rewrite !eval_cons, IH, W_S by lia. lia.
Qed.

Lemma limbs_ok_insert l i x : limbs_ok l → uN 64 x → limbs_ok (<[i := x]> l).
Proof. intros. by apply Forall_insert. Qed.

Lemma nth_limbs_ok n l : limbs_ok l → uN 64 (nth n l 0).
Proof.
  intros H. revert n. induction H as [|x l Hx _ IH]; intros [|n]; cbn [nth]; try done; unfold uN; lia.
Qed.

(** ** Reading limbs *)

Lemma limb_ok b i : wf b → uN 64 (limb b i).
Proof. intros [_ H _ _]. unfold limb. case_match; [by apply nth_limbs_ok|unfold uN; lia]. Qed.

Lemma fmap_nth_seq (l : list Z) n : (n ≤ length l)%nat → ((λ i, nth i l 0) <$> seq 0 n) = take n l.
Proof.
  intros Hn. revert l Hn. induction n as [|n IH]; intros l Hn; [done|].
  destruct l as [|x l]; [cbn [length] in Hn; lia|]. cbn [seq fmap list_fmap take nth]. f_equal.
  rewrite <- fmap_S_seq, <- list_fmap_compose. cbn [length] in Hn. rewrite <- (IH l) by lia.
  by apply list_fmap_ext.
Qed.

Lemma fmap_const_0 {A} (f : A → Z) l : (∀ x, x ∈ l → f x = 0) → (f <$> l) = replicate (length l) 0.
Proof.
  induction l as [|x l IH]; intros H; [done|]. cbn [fmap list_fmap length replicate].
  rewrite H by set_solver. f_equal. apply IH. set_solver.
Qed.

(** The active limbs, padded with zeros to [n]. *)
Lemma limbs_padded b n :
  wf b → (bn b ≤ n)%nat →
  (limb b <$> seq 0 n) = take (bn b) (limbs b) ++ replicate (n - bn b) 0.
Proof.
  intros [Hl _ Hn _] Hb. replace n with (bn b + (n - bn b))%nat at 1 by lia.
  rewrite seq_app, fmap_app. f_equal.
  - rewrite <- fmap_nth_seq by lia. apply list_fmap_ext. intros i x Hi. apply lookup_seq in Hi as [-> Hi].
    unfold limb. by rewrite (proj2 (Nat.ltb_lt _ _)) by lia.
  - rewrite (fmap_const_0 (limb b)), length_seq; [done|]. intros i Hi%elem_of_seq.
    unfold limb. by rewrite (proj2 (Nat.ltb_ge _ _)) by lia.
Qed.

Lemma eval_limbs b n : wf b → (bn b ≤ n)%nat → eval (limb b <$> seq 0 n) = val b.
Proof. intros Hw Hn. rewrite limbs_padded, eval_app, eval_replicate_0 by done. unfold val. lia. Qed.

Lemma val_bound b : wf b → 0 ≤ val b < W (bn b).
Proof.
  intros [Hl Hok Hn _]. unfold val.
  pose proof (eval_bound (take (bn b) (limbs b)) ltac:(by apply Forall_take)) as H.
  by rewrite length_take, Nat.min_l in H by lia.
Qed.

(** A normal number fills its limbs. *)
Lemma val_lower b : wf b → bn b ≠ 1%nat → W (bn b - 1) ≤ val b.
Proof.
  intros [Hl Hok Hn [|Hnz]] H1; [done|]. unfold val.
  destruct (bn b) as [|n] eqn:En; [lia|]. replace (S n - 1)%nat with n in * by lia.
  destruct (lookup_lt_is_Some_2 (limbs b) n) as [x Hx]; [lia|].
  rewrite (take_S_r _ _ _ Hx), eval_app, length_take, Nat.min_l by lia.
  rewrite (nth_lookup_Some _ _ 0 _ Hx) in Hnz. rewrite eval_cons, eval_nil.
  pose proof (eval_bound (take n (limbs b)) ltac:(by apply Forall_take)).
  assert (uN 64 x) as [? ?] by (eapply Forall_lookup_1; [exact Hok|exact Hx]).
  pose proof (W_pos n). nia.
Qed.

Lemma bn_mono a b : wf a → wf b → val a ≤ val b → (bn a ≤ bn b)%nat.
Proof.
  intros Ha Hb Hle. destruct (decide (bn a ≤ bn b)%nat) as [|H]; [done|].
  pose proof (val_bound b Hb). destruct (wf_n b Hb).
  pose proof (val_lower a Ha ltac:(lia)). pose proof (W_mono (bn b) (bn a - 1) ltac:(lia)). lia.
Qed.

(** ** Normalisation *)

Lemma norm_len_spec l n :
  (1 ≤ n ≤ length l)%nat →
  (1 ≤ norm_len l n ≤ n)%nat ∧ normal l (norm_len l n)
  ∧ eval (take (norm_len l n) l) = eval (take n l).
Proof.
  induction n as [|n IH]; intros Hn; [lia|]. cbn [norm_len].
  destruct (Nat.ltb_spec 1 (S n)) as [H1|H1]; cbn [andb].
  - destruct (Z.eqb_spec (nth n l 0) 0) as [E|E].
    + destruct IH as (IH1 & IH2 & IH3); [lia|]. split_and!; [lia|lia|done|].
      rewrite IH3. destruct (lookup_lt_is_Some_2 l n) as [x Hx]; [lia|].
      rewrite (take_S_r _ _ _ Hx), eval_app. rewrite (nth_lookup_Some _ _ 0 _ Hx) in E. subst.
      rewrite eval_cons, eval_nil. lia.
    + split_and!; [lia|lia| |done]. right. by replace (S n - 1)%nat with n by lia.
  - split_and!; [lia|lia| |done]. left. lia.
Qed.

(** Normalising an array of limbs: well formed, same value. *)
Lemma normalize_wf l n :
  length l = MAX_LIMBS → limbs_ok l → (1 ≤ n ≤ MAX_LIMBS)%nat →
  wf (normalize (mkBig l n)) ∧ val (normalize (mkBig l n)) = eval (take n l).
Proof.
  intros Hl Hok Hn. destruct (norm_len_spec l n) as (H1 & H2 & H3); [lia|].
  split; [|exact H3]. split; cbn [limbs bn normalize]; (done || lia).
Qed.

Lemma fill_wf ds n :
  (length ds ≤ MAX_LIMBS)%nat → limbs_ok ds → (1 ≤ n ≤ MAX_LIMBS)%nat → (length ds ≤ n)%nat →
  wf (normalize (fill ds n)) ∧ val (normalize (fill ds n)) = eval ds.
Proof.
  intros Hl Hok Hn Hle. destruct (normalize_wf (ds ++ replicate (MAX_LIMBS - length ds) 0) n) as [H1 H2].
  - rewrite length_app, length_replicate. lia.
  - apply Forall_app_2; [done|]. apply Forall_replicate. unfold uN; lia.
  - done.
  - split; [done|]. unfold fill. rewrite H2, take_app_ge by lia.
    rewrite take_replicate, eval_app, eval_replicate_0. lia.
Qed.

Lemma ZERO_wf : wf ZERO ∧ val ZERO = 0.
Proof.
  split; [|done]. split; [done| |unfold MAX_LIMBS; cbn; lia|by left].
  apply Forall_replicate. unfold uN; lia.
Qed.

Lemma from_u64_wf v : uN 64 v → wf (from_u64 v) ∧ val (from_u64 v) = v.
Proof.
  intros Hv. split.
  - split; cbn [limbs bn from_u64]; [by rewrite length_insert| |unfold MAX_LIMBS; lia|by left].
    apply limbs_ok_insert; [apply ZERO_wf|done].
  - change (val (from_u64 v)) with (v + 2 ^ 64 * 0). lia.
Qed.

(** ** Addition *)

Lemma add_limbs_spec ds c :
  Forall (λ ab, uN 64 (fst ab) ∧ uN 64 (snd ab)) ds → 0 ≤ c ≤ 1 →
  let '(out, c') := add_limbs ds c in
  length out = length ds ∧ limbs_ok out ∧ 0 ≤ c' ≤ 1
  ∧ eval out + W (length ds) * c' = eval (fst <$> ds) + eval (snd <$> ds) + c.
Proof.
  intros H. revert c. induction H as [|[a b] ds [[Ha1 Ha2] [Hb1 Hb2]] _ IH]; intros c Hc; cbn [add_limbs].
  { cbn [length fmap list_fmap]. rewrite W_0, eval_nil. split_and!; (done || lia). }
  cbn [fst snd] in *.
  set (c1 := if 2 ^ 64 <=? a + b then 1 else 0). set (s1 := wrap 64 (a + b)).
  assert (E1 : s1 + 2 ^ 64 * c1 = a + b ∧ 0 ≤ s1 < 2 ^ 64 ∧ 0 ≤ c1 ≤ 1).
  { unfold s1, c1, wrap. destruct (Z.leb_spec (2 ^ 64) (a + b)).
    - rewrite <- (Z.mod_add _ (-1)), Z.mod_small by lia. lia.
    - rewrite Z.mod_small by lia. lia. }
  set (c2 := if 2 ^ 64 <=? s1 + c then 1 else 0). set (s2 := wrap 64 (s1 + c)).
  assert (E2 : s2 + 2 ^ 64 * c2 = s1 + c ∧ 0 ≤ s2 < 2 ^ 64 ∧ 0 ≤ c2 ≤ 1).
  { unfold s2, c2, wrap. destruct (Z.leb_spec (2 ^ 64) (s1 + c)).
    - rewrite <- (Z.mod_add _ (-1)), Z.mod_small by lia. lia.
    - rewrite Z.mod_small by lia. lia. }
  clearbody c1 s1 c2 s2. specialize (IH (c1 + c2) ltac:(lia)).
  destruct (add_limbs ds (c1 + c2)) as [out c']. destruct IH as (I1 & I2 & I3 & I4).
  cbn [length fmap list_fmap fst snd]. rewrite W_S, !eval_cons.
  split_and!; [lia|constructor; [split; lia|done]|lia|lia|]. lia.
Qed.

Lemma limb_pairs_ok a b n : wf a → wf b → Forall (λ ab, uN 64 (fst ab) ∧ uN 64 (snd ab)) (limb_pairs a b n).
Proof.
  intros Ha Hb. apply Forall_fmap, Forall_forall. intros i _. cbn [fst snd].
  split; by apply limb_ok.
Qed.

Lemma limb_pairs_val a b n :
  wf a → wf b → (bn a `max` bn b ≤ n)%nat →
  eval (fst <$> limb_pairs a b n) = val a ∧ eval (snd <$> limb_pairs a b n) = val b.
Proof.
  intros Ha Hb Hn. unfold limb_pairs. rewrite <- !list_fmap_compose.
  split; (etrans; [|apply eval_limbs; [|]]); try done; lia.
Qed.

Lemma length_limb_pairs a b n : length (limb_pairs a b n) = n.
Proof. unfold limb_pairs. by rewrite length_fmap, length_seq. Qed.

Lemma add_spec a b : wf a → wf b → wf (add a b) ∧ val (add a b) = (val a + val b) `mod` W MAX_LIMBS.
Proof.
  intros Ha Hb. unfold add. set (n := (bn a `max` bn b)%nat).
  pose proof (add_limbs_spec (limb_pairs a b n) 0 (limb_pairs_ok a b n Ha Hb) ltac:(lia)) as H.
  destruct (limb_pairs_val a b n Ha Hb ltac:(lia)) as [Va Vb]. rewrite Va, Vb, length_limb_pairs in H.
  destruct (add_limbs _ _) as [out c]. destruct H as (H1 & H2 & H3 & H4).
  destruct (wf_n a Ha), (wf_n b Hb). pose proof (eval_bound out H2) as Hob. rewrite H1 in Hob.
  destruct (Z.ltb_spec 0 c); cbn [andb]; [destruct (Nat.ltb_spec n MAX_LIMBS)|].
  - assert (c = 1) as -> by lia.
    destruct (fill_wf (out ++ [1]) (n + 1)) as [F1 F2];
      rewrite ?length_app; cbn [length]; try lia.
    { apply Forall_app_2; [done|]. constructor; [unfold uN; lia|done]. }
    split; [done|]. rewrite F2, eval_app, H1, eval_cons, eval_nil, Z.mod_small; [lia|].
    pose proof (W_mono (S n) MAX_LIMBS ltac:(lia)). pose proof (W_S n). pose proof (W_pos n). nia.
  - destruct (fill_wf out (n `max` 1)) as [F1 F2]; [lia|done|lia|lia|]. split; [done|].
    replace n with MAX_LIMBS in * by lia. rewrite F2.
    replace (val a + val b) with (eval out + c * W MAX_LIMBS) by lia.
    rewrite Z.mod_add, Z.mod_small by lia. done.
  - destruct (fill_wf out (n `max` 1)) as [F1 F2]; [lia|done|lia|lia|]. split; [done|].
    assert (c = 0) as -> by lia. pose proof (W_mono n MAX_LIMBS ltac:(lia)).
    rewrite F2, Z.mod_small; lia.
Qed.

(** ** Subtraction *)

Lemma sub_limbs_spec ds c :
  Forall (λ ab, uN 64 (fst ab) ∧ uN 64 (snd ab)) ds → 0 ≤ c ≤ 1 →
  length (sub_limbs ds c) = length ds ∧ limbs_ok (sub_limbs ds c)
  ∧ ∃ c', 0 ≤ c' ≤ 1
     ∧ eval (sub_limbs ds c) = eval (fst <$> ds) - eval (snd <$> ds) - c + W (length ds) * c'.
Proof.
  intros H. revert c. induction H as [|[a b] ds [[Ha1 Ha2] [Hb1 Hb2]] _ IH]; intros c Hc; cbn [sub_limbs].
  { cbn [length fmap list_fmap]. rewrite W_0, eval_nil. split_and!; try done. exists c. lia. }
  cbn [fst snd] in *.
  set (c1 := if a <? b then 1 else 0). set (s1 := wrap 64 (a - b)).
  assert (E1 : s1 = a - b + 2 ^ 64 * c1 ∧ 0 ≤ s1 < 2 ^ 64 ∧ 0 ≤ c1 ≤ 1).
  { unfold s1, c1, wrap. destruct (Z.ltb_spec a b).
    - rewrite <- (Z.mod_add _ 1), Z.mod_small by lia. lia.
    - rewrite Z.mod_small by lia. lia. }
  set (c2 := if s1 <? c then 1 else 0). set (s2 := wrap 64 (s1 - c)).
  assert (E2 : s2 = s1 - c + 2 ^ 64 * c2 ∧ 0 ≤ s2 < 2 ^ 64 ∧ 0 ≤ c2 ≤ 1).
  { unfold s2, c2, wrap. destruct (Z.ltb_spec s1 c).
    - rewrite <- (Z.mod_add _ 1), Z.mod_small by lia. lia.
    - rewrite Z.mod_small by lia. lia. }
  clearbody c1 s1 c2 s2. destruct (IH (c1 + c2) ltac:(lia)) as (I1 & I2 & c' & I3 & I4).
  cbn [length fmap list_fmap fst snd]. rewrite W_S, !eval_cons.
  split_and!; [lia|constructor; [split; lia|done]|]. exists c'. lia.
Qed.

Lemma sub_spec a b :
  wf a → wf b → val b ≤ val a → wf (sub a b) ∧ val (sub a b) = val a - val b.
Proof.
  intros Ha Hb Hle. unfold sub. set (n := (bn a `max` bn b)%nat).
  destruct (sub_limbs_spec (limb_pairs a b n) 0 (limb_pairs_ok a b n Ha Hb) ltac:(lia)) as (H1 & H2 & c & H3 & H4).
  destruct (limb_pairs_val a b n Ha Hb ltac:(lia)) as [Va Vb]. rewrite Va, Vb, length_limb_pairs in *.
  destruct (wf_n a Ha), (wf_n b Hb). pose proof (eval_bound _ H2) as Hob. rewrite H1 in Hob.
  destruct (fill_wf (sub_limbs (limb_pairs a b n) 0) (n `max` 1)) as [F1 F2]; [lia|done|lia|lia|].
  split; [done|]. rewrite F2, H4. pose proof (val_bound a Ha). pose proof (val_bound b Hb).
  pose proof (W_mono (bn a) n ltac:(lia)). assert (c = 0) by nia. subst. lia.
Qed.

(** ** Comparison *)

Lemma cmp_from_spec a b n :
  wf a → wf b → cmp_from a b n = (eval (limb a <$> seq 0 n) ?= eval (limb b <$> seq 0 n)).
Proof.
  intros Ha Hb. induction n as [|n IH]; [done|]. cbn [cmp_from].
  rewrite seq_S, !fmap_app, !eval_app, !length_fmap, length_seq. cbn [fmap list_fmap Nat.add].
  rewrite !eval_cons, eval_nil.
  assert (Hok : ∀ x, wf x → limbs_ok (limb x <$> seq 0 n)).
  { intros x Hx. apply Forall_fmap, Forall_forall. intros i _. by apply limb_ok. }
  pose proof (eval_bound _ (Hok a Ha)) as Ba. pose proof (eval_bound _ (Hok b Hb)) as Bb.
  rewrite length_fmap, length_seq in Ba, Bb. pose proof (W_pos n).
  destruct (Z.compare_spec (limb a n) (limb b n)) as [E|E|E].
  - rewrite IH, E, !(Z.add_comm (eval _)). symmetry. apply Z.add_compare_mono_l.
  - symmetry. apply Z.compare_lt_iff. nia.
  - symmetry. apply Z.compare_gt_iff. nia.
Qed.

Lemma cmp_spec a b : wf a → wf b → cmp a b = (val a ?= val b).
Proof. intros Ha Hb. unfold cmp. rewrite cmp_from_spec, !eval_limbs by (done || lia). done. Qed.

Lemma eq_const_spec a b : wf a → wf b → eq_const a b = true ↔ val a = val b.
Proof.
  intros Ha Hb. unfold eq_const. set (n := ((bn a `max` bn b) `max` 1)%nat).
  rewrite <- (eval_limbs a n), <- (eval_limbs b n) by (done || lia).
  rewrite Z.eqb_eq. generalize (seq 0 n) as l. intros l.
  assert (∀ z, foldl (λ diff i, Z.lor diff (Z.lxor (limb a i) (limb b i))) z l = 0
               ↔ z = 0 ∧ Forall (λ i, limb a i = limb b i) l) as ->.
  { induction l as [|i l IH]; intros z; cbn [foldl]; [rewrite Forall_nil; tauto|].
    rewrite IH, Z.lor_eq_0_iff, Forall_cons, Z.lxor_eq_0_iff. tauto. }
  induction l as [|i l IH]; cbn [fmap list_fmap]; [by rewrite Forall_nil|].
  rewrite Forall_cons, !eval_cons. pose proof (limb_ok a i Ha) as [? ?]. pose proof (limb_ok b i Hb) as [? ?].
  split.
  - intros (_ & -> & Hl). f_equal. f_equal. by apply IH.
  - intros E. assert (limb a i = limb b i ∧ eval (limb a <$> l) = eval (limb b <$> l)) as [Ei El] by lia.
    split_and!; [done|done|]. by apply IH.
Qed.

(** ** Multiplication *)

Lemma nth_app_head pre (y : Z) suf : nth (length pre) (pre ++ y :: suf) 0 = y.
Proof. rewrite app_nth2 by lia. by rewrite Nat.sub_diag. Qed.

Lemma insert_app_head {A} pre (x y : A) suf : <[length pre := x]> (pre ++ y :: suf) = pre ++ x :: suf.
Proof. rewrite insert_app_r_alt by lia. by rewrite Nat.sub_diag. Qed.

Lemma wide_split p : 0 ≤ p → p = wrap 64 p + 2 ^ 64 * Z.shiftr p 64.
Proof.
  intros. unfold wrap. rewrite Z.shiftr_div_pow2 by lia.
  pose proof (Z.div_mod p (2 ^ 64)). lia.
Qed.

(** The inner loop adds [a * bs + carry] into the limbs from [pos] on; the
    carry out is the weight past the last limb written. *)
Lemma mul_inner_spec a bs pre suf c :
  uN 64 a → limbs_ok bs → limbs_ok suf → uN 64 c →
  (length bs ≤ length suf)%nat → length (pre ++ suf) = MAX_LIMBS →
  ∃ suf1 c', mul_inner a bs (length pre) c (pre ++ suf) = (pre ++ suf1 ++ drop (length bs) suf, c')
    ∧ length suf1 = length bs ∧ limbs_ok suf1 ∧ uN 64 c'
    ∧ eval suf1 + W (length bs) * c' = eval (take (length bs) suf) + a * eval bs + c.
Proof.
  intros [Ha1 Ha2] Hbs. revert pre suf c.
  induction Hbs as [|b bs [Hb1 Hb2] _ IH]; intros pre suf c Hs [Hc1 Hc2] Hl HL.
  { exists [], c. cbn [length drop take app mul_inner]. rewrite W_0, take_0, !eval_nil.
    split_and!; try done. lia. }
  destruct suf as [|y suf]; [cbn [length] in Hl; lia|]. cbn [length] in Hl.
  apply Forall_cons in Hs as [[Hy1 Hy2] Hs]. cbn [mul_inner].
  rewrite length_app in HL. cbn [length] in HL.
  rewrite (proj2 (Nat.leb_gt _ _)), nth_app_head, insert_app_head by lia.
  set (p := a * b + y + c).
  assert (0 ≤ a * b ≤ (2 ^ 64 - 1) * (2 ^ 64 - 1)) by (split; [nia|apply Z.mul_le_mono_nonneg; lia]).
  assert (Hp : 0 ≤ p < 2 ^ 128) by (unfold p; lia).
  assert (Hc' : uN 64 (Z.shiftr p 64)).
  { rewrite Z.shiftr_div_pow2 by lia. split; [apply Z.div_pos; lia|apply Z.div_lt_upper_bound; lia]. }
  pose proof (wide_split p ltac:(lia)) as Ep.
  rewrite cons_middle, app_assoc. replace (S (length pre)) with (length (pre ++ [wrap 64 p])) by (rewrite length_app; cbn [length]; lia).
  destruct (IH (pre ++ [wrap 64 p]) suf (Z.shiftr p 64)) as (suf1 & c' & E & L1 & L2 & L3 & L4);
    [done|done|lia|rewrite !length_app; cbn [length]; lia|].
  exists (wrap 64 p :: suf1), c'. cbn [length drop take]. rewrite E. split_and!.
  - by rewrite <- app_assoc.
  - lia.
  - constructor; [apply wrap_range; lia|done].
  - done.
  - rewrite !eval_cons, W_S. unfold p in Ep at 1. lia.
Qed.

(** One row of the schoolbook product, with room for its carry. *)
Lemma mul_row_spec a b out i :
  wf a → wf b → length out = MAX_LIMBS → limbs_ok out → (i + bn b < MAX_LIMBS)%nat →
  eval (drop (i + bn b) out) = 0 →
  length (mul_row a b out i) = MAX_LIMBS ∧ limbs_ok (mul_row a b out i)
  ∧ eval (mul_row a b out i) = eval out + W i * (nth i (limbs a) 0 * val b)
  ∧ eval (drop (S i + bn b) (mul_row a b out i)) = 0.
Proof.
  intros Ha Hb Hl Hok Hi H0. pose proof (wf_n b Hb) as Hn. pose proof (wf_len b Hb) as Hbl.
  set (bs := take (bn b) (limbs b)).
  assert (Hbs : length bs = bn b) by (unfold bs; rewrite length_take; lia).
  destruct (mul_inner_spec (nth i (limbs a) 0) bs (take i out) (drop i out) 0)
    as (suf1 & c & E & L1 & L2 & [L3 L3'] & L4).
  { apply nth_limbs_ok, Ha. } { by apply Forall_take, Hb. } { by apply Forall_drop. }
  { unfold uN; lia. } { rewrite length_drop. lia. } { by rewrite take_drop. }
  rewrite take_drop, length_take, Nat.min_l in E by lia.
  rewrite Hbs, drop_drop in E. rewrite Hbs in *.
  assert (Hz : Forall (λ x, x = 0) (drop (i + bn b) out))
    by (apply eval_0; [by apply Forall_drop|done]).
  unfold mul_row. fold bs. rewrite E. rewrite (proj2 (Nat.ltb_lt _ _)) by done.
  destruct (drop (i + bn b) out) as [|z tl] eqn:Etl.
  { apply (f_equal length) in Etl. rewrite length_drop in Etl. cbn [length] in Etl. lia. }
  apply Forall_cons in Hz as [-> Hz].
  assert (Hpl : length (take i out ++ suf1) = (i + bn b)%nat) by (rewrite length_app, length_take; lia).
  rewrite app_assoc, <- Hpl, nth_app_head, insert_app_head.
  assert (wadd 64 0 (wrap 64 c) = c) as ->.
  { unfold wadd. rewrite (wrap_id 64 c), Z.add_0_l by by split. apply wrap_id. by split. }
  assert (Eo : out = take i out ++ take (bn b) (drop i out) ++ 0 :: tl).
  { rewrite <- Etl, <- drop_drop, take_drop. by rewrite take_drop. }
  assert (Htl : eval tl = 0).
  { apply (f_equal length) in Etl. rewrite eval_cons in H0. lia. }
  assert (Hlo : length (take (bn b) (drop i out)) = bn b) by (rewrite length_take, length_drop; lia).
  split_and!.
  - rewrite Eo in Hl. rewrite !length_app, Hlo in Hl. rewrite !length_app, L1. cbn [length] in *. lia.
  - apply Forall_app_2; [apply Forall_app_2; [by apply Forall_take|done]|].
    constructor; [by split|]. eapply Forall_impl; [exact Hz|]. intros ? ->. unfold uN; lia.
  - rewrite Eo at 2. rewrite !eval_app, Hlo, Hpl, !eval_cons, Htl, W_add, length_take, Nat.min_l by lia.
    unfold val. fold bs. lia.
  - replace (S i + bn b)%nat with (length (take i out ++ suf1) + 1)%nat by lia.
    by rewrite drop_app_add'.
Qed.

Lemma mul_rows_spec a b n out i :
  wf a → wf b → length out = MAX_LIMBS → limbs_ok out → (i + n ≤ bn a)%nat → (bn a + bn b ≤ MAX_LIMBS)%nat →
  eval out = eval (take i (limbs a)) * val b → eval (drop (i + bn b) out) = 0 →
  let out' := foldl (mul_row a b) out (seq i n) in
  length out' = MAX_LIMBS ∧ limbs_ok out' ∧ eval out' = eval (take (i + n) (limbs a)) * val b
  ∧ eval (drop (i + n + bn b) out') = 0.
Proof.
  intros Ha Hb. revert out i. induction n as [|n IH]; intros out i Hl Hok Hi Hn Ho Hz; cbn [seq foldl].
  { rewrite Nat.add_0_r. done. }
  destruct (mul_row_spec a b out i Ha Hb Hl Hok ltac:(lia) Hz) as (R1 & R2 & R3 & R4).
  replace (i + S n)%nat with (S i + n)%nat by lia. apply IH; [done|done|lia|lia| |done].
  pose proof (wf_len a Ha). destruct (lookup_lt_is_Some_2 (limbs a) i) as [x Hx]; [lia|].
  rewrite (take_S_r _ _ _ Hx), eval_app, eval_cons, eval_nil, length_take, Nat.min_l by lia.
  rewrite (nth_lookup_Some _ _ 0 _ Hx) in R3. lia.
Qed.

Lemma take_all_but_zeros l n : limbs_ok l → eval (drop n l) = 0 → eval (take n l) = eval l.
Proof.
  intros _ Hz. rewrite <- (take_drop n l) at 2. rewrite eval_app, Hz. lia.
Qed.

Lemma mul_spec a b :
  wf a → wf b → (bn a + bn b ≤ MAX_LIMBS)%nat → wf (mul a b) ∧ val (mul a b) = val a * val b.
Proof.
  intros Ha Hb Hn. destruct ZERO_wf as [[Z1 Z2 _ _] _].
  destruct (mul_rows_spec a b (bn a) (limbs ZERO) 0) as (R1 & R2 & R3 & R4);
    [done|done|done|done|lia|done| | |].
  { cbn [limbs ZERO]. rewrite eval_replicate_0, take_0, eval_nil. lia. }
  { cbn [limbs ZERO]. rewrite drop_replicate. apply eval_replicate_0. }
  unfold mul. rewrite Nat.min_l by done. cbn [Nat.add] in *.
  destruct (wf_n a Ha), (wf_n b Hb).
  destruct (normalize_wf (foldl (mul_row a b) (limbs ZERO) (seq 0 (bn a))) (bn a + bn b)) as [N1 N2];
    [done|done|lia|].
  split; [done|]. rewrite N2, take_all_but_zeros, R3 by done. done.
Qed.

(** ** Shift left *)

(** A limb shifted by less than a word: the part that stays and the part that
    moves to the next limb. *)
Lemma shift_split x s :
  uN 64 x → 0 ≤ s < 64 →
  let lo := wrap 64 (Z.shiftl x s) in
  let hi := if 0 <? s then Z.shiftr x (64 - s) else 0 in
  lo + 2 ^ 64 * hi = x * 2 ^ s ∧ 0 ≤ lo < 2 ^ 64 ∧ 0 ≤ hi < 2 ^ s ∧ (∃ q, lo = q * 2 ^ s ∧ 0 ≤ q < 2 ^ (64 - s)).
Proof.
  intros [Hx1 Hx2] Hs. unfold wrap. rewrite Z.shiftl_mul_pow2 by lia.
  assert (E64 : 2 ^ 64 = 2 ^ (64 - s) * 2 ^ s) by (rewrite <- Z.pow_add_r by lia; f_equal; lia).
  assert (Hp : 0 < 2 ^ s) by lia. assert (Hp' : 0 < 2 ^ (64 - s)) by lia.
  assert (Elo : (x * 2 ^ s) `mod` 2 ^ 64 = (x `mod` 2 ^ (64 - s)) * 2 ^ s)
    by (rewrite E64; apply Z.mul_mod_distr_r; lia).
  pose proof (Z.mod_pos_bound (x * 2 ^ s) (2 ^ 64) ltac:(lia)) as Hlo.
  pose proof (Z.mod_pos_bound x (2 ^ (64 - s)) Hp') as Hq.
  pose proof (Z.div_mod x (2 ^ (64 - s)) ltac:(lia)) as Hdm.
  assert (Hhi : (if 0 <? s then Z.shiftr x (64 - s) else 0) = x `div` 2 ^ (64 - s)).
  { destruct (Z.ltb_spec 0 s); [by rewrite Z.shiftr_div_pow2 by lia|].
    replace (64 - s) with 64 by lia. rewrite Z.div_small; lia. }
  rewrite Hhi, Elo. cbv zeta. split_and!.
  - rewrite E64. nia.
  - lia.
  - lia.
  - apply Z.div_pos; lia.
  - apply Z.div_lt_upper_bound; [lia|]. rewrite <- E64. lia.
  - exists (x `mod` 2 ^ (64 - s)). lia.
Qed.

(** Body of the loop of [shl_n] when the destination limb holds the carry [c]
    of the previous one and the limbs above it are zero. *)
Lemma shl_step_spec b ws s pre c k i :
  wf b → 0 ≤ s < 64 → length pre = (i + ws)%nat → 0 ≤ c < 2 ^ s →
  length (pre ++ c :: replicate k 0) = MAX_LIMBS →
  let x := nth i (limbs b) 0 in
  ∃ d hi, uN 64 d ∧ 0 ≤ hi < 2 ^ s ∧ d + 2 ^ 64 * hi = c + x * 2 ^ s
    ∧ shl_step b ws s (pre ++ c :: replicate k 0) i
      = pre ++ d :: (match k with O => [] | S k' => hi :: replicate k' 0 end).
Proof.
  intros Hb Hs Hp Hc Hl x. pose proof (nth_limbs_ok i _ (wf_limbs b Hb)) as Hx. fold x in Hx.
  destruct (shift_split x s Hx Hs) as (S1 & S2 & S3 & q & S4 & S5).
  set (lo := wrap 64 (Z.shiftl x s)) in *. set (hi := if 0 <? s then _ else 0) in *.
  rewrite length_app in Hl. cbn [length] in Hl. rewrite length_replicate in Hl.
  exists (c + lo), hi. split_and!; [|lia|lia|lia|].
  { assert (2 ^ 64 = 2 ^ (64 - s) * 2 ^ s) by (rewrite <- Z.pow_add_r by lia; f_equal; lia).
    split; [lia|nia]. }
  unfold shl_step. rewrite <- Hp, (proj2 (Nat.ltb_lt (length pre) MAX_LIMBS)) by lia.
  rewrite nth_app_head, insert_app_head. fold x lo.
  rewrite S4, lor_disjoint by lia. rewrite <- S4.
  destruct k as [|k].
  - rewrite (proj2 (Nat.ltb_ge (length pre + 1) MAX_LIMBS)), andb_false_r by lia. done.
  - rewrite (proj2 (Nat.ltb_lt (length pre + 1) MAX_LIMBS)), andb_true_r by lia.
    cbn [replicate]. destruct (Z.ltb_spec 0 s) as [H0|H0]; subst hi.
    + rewrite cons_middle, app_assoc. replace (length pre + 1)%nat with (length (pre ++ [c + lo]))
        by (rewrite length_app; done).
      rewrite nth_app_head, insert_app_head, Z.lor_0_l, <- app_assoc. done.
    + done.
Qed.

Lemma shl_steps_spec b ws s n pre c k i :
  wf b → 0 ≤ s < 64 → length pre = (i + ws)%nat → 0 ≤ c < 2 ^ s → limbs_ok pre →
  length (pre ++ c :: replicate k 0) = MAX_LIMBS → (n ≤ k)%nat → (i + n ≤ bn b)%nat →
  eval (pre ++ [c]) = W ws * (eval (take i (limbs b)) * 2 ^ s) →
  ∃ pre' c', foldl (shl_step b ws s) (pre ++ c :: replicate k 0) (seq i n) = pre' ++ c' :: replicate (k - n) 0
    ∧ length pre' = (i + n + ws)%nat ∧ 0 ≤ c' < 2 ^ s ∧ limbs_ok pre'
    ∧ eval (pre' ++ [c']) = W ws * (eval (take (i + n) (limbs b)) * 2 ^ s).
Proof.
  intros Hb Hs. revert pre c k i. induction n as [|n IH]; intros pre c k i Hp Hc Hok Hl Hk Hn He.
  { exists pre, c. rewrite Nat.sub_0_r, Nat.add_0_r. done. }
  destruct k as [|k]; [lia|].
  destruct (shl_step_spec b ws s pre c (S k) i Hb Hs Hp Hc Hl) as (d & hi & D1 & D2 & D3 & D4).
  cbn [seq foldl]. rewrite D4, cons_middle, app_assoc.
  destruct (IH (pre ++ [d]) hi k (S i)) as (pre' & c' & R1 & R2 & R3 & R4 & R5).
  - rewrite length_app. cbn [length]. lia.
  - done.
  - apply Forall_app_2; [done|by constructor].
  - rewrite !length_app in *. cbn [length] in *. rewrite length_replicate in *. lia.
  - lia.
  - lia.
  - pose proof (wf_len b Hb). destruct (wf_n b Hb).
    destruct (lookup_lt_is_Some_2 (limbs b) i) as [x Hx]; [lia|].
    rewrite (take_S_r _ _ _ Hx), !eval_app, length_app, length_take, Nat.min_l by lia.
    rewrite (nth_lookup_Some _ _ 0 _ Hx) in D3. cbn [length]. rewrite !eval_cons, eval_nil.
    rewrite eval_app, eval_cons, eval_nil in He. replace (length pre + 1)%nat with (S (length pre)) by lia.
    rewrite W_S, Hp, W_add in *. nia.
  - exists pre', c'. replace (S k - S n)%nat with (k - n)%nat by lia.
    replace (i + S n)%nat with (S i + n)%nat by lia. done.
Qed.

(** A shifted number that fits has room for its limbs. *)
Lemma shl_room b ws :
  wf b → (ws < MAX_LIMBS)%nat → val b * W ws < W MAX_LIMBS → (bn b + ws ≤ MAX_LIMBS)%nat.
Proof.
  intros Hb Hws Hv. destruct (decide (bn b = 1%nat)) as [|H1]; [lia|].
  pose proof (val_lower b Hb H1) as Hl. destruct (wf_n b Hb).
  destruct (decide (bn b + ws ≤ MAX_LIMBS)%nat) as [|H2]; [done|].
  pose proof (W_mono MAX_LIMBS (bn b - 1 + ws) ltac:(lia)) as Hm. rewrite W_add in Hm.
  pose proof (W_pos ws). nia.
Qed.

Lemma shl_limbs_spec b ws s :
  wf b → 0 ≤ s < 64 → (ws < MAX_LIMBS)%nat → val b * 2 ^ s * W ws < W MAX_LIMBS →
  let out := foldl (shl_step b ws s) (limbs ZERO) (seq 0 (bn b)) in
  length out = MAX_LIMBS ∧ limbs_ok out ∧ eval out = val b * 2 ^ s * W ws
  ∧ eval (drop ((bn b + ws + 1) `min` MAX_LIMBS) out) = 0.
Proof.
  intros Hb Hs Hws Hv. pose proof (val_bound b Hb) as [Hv0 _]. pose proof (W_pos ws) as HW.
  assert (Hp : 0 < 2 ^ s) by lia.
  pose proof (shl_room b ws Hb Hws ltac:(nia)) as Hroom. destruct (wf_n b Hb) as [Hn1 Hn2].
  destruct (bn b) as [|m] eqn:Em; [lia|].
  assert (EZ : limbs ZERO = replicate ws 0 ++ 0 :: replicate (MAX_LIMBS - ws - 1) 0).
  { cbn [limbs ZERO]. change (0 :: replicate (MAX_LIMBS - ws - 1) 0) with (replicate (S (MAX_LIMBS - ws - 1)) 0).
    rewrite <- replicate_add. f_equal. lia. }
  destruct (shl_steps_spec b ws s m (replicate ws 0) 0 (MAX_LIMBS - ws - 1) 0) as (pre & c & R1 & R2 & R3 & R4 & R5);
    [done|done|by rewrite length_replicate|lia|apply Forall_replicate; unfold uN; lia
    |by rewrite <- EZ|lia|lia| |].
  { rewrite eval_app, eval_replicate_0, take_0, !eval_cons, !eval_nil. lia. }
  cbn [Nat.add] in *. rewrite EZ, seq_S, foldl_app, R1. cbn [foldl Nat.add].
  destruct (shl_step_spec b ws s pre c (MAX_LIMBS - ws - 1 - m) m Hb Hs R2 R3) as (d & hi & D1 & D2 & D3 & D4).
  { rewrite length_app. cbn [length]. rewrite length_replicate. lia. }
  assert (Hval : val b * 2 ^ s * W ws = eval pre + W (m + ws) * (d + 2 ^ 64 * hi)).
  { pose proof (wf_len b Hb). destruct (lookup_lt_is_Some_2 (limbs b) m) as [x Hx]; [lia|].
    unfold val. rewrite Em, (take_S_r _ _ _ Hx), eval_app, length_take, Nat.min_l, eval_cons, eval_nil by lia.
    rewrite (nth_lookup_Some _ _ 0 _ Hx) in D3. rewrite eval_app, eval_cons, eval_nil, R2 in R5.
    rewrite D3, W_add in *. nia. }
  rewrite D4. destruct (MAX_LIMBS - ws - 1 - m)%nat as [|k] eqn:Ek; cbv zeta.
  - assert (m + ws = 63)%nat as E63 by (unfold MAX_LIMBS in *; lia). pose proof (eval_bound pre R4) as [Hpre _].
    assert (hi = 0).
    { assert (EW : W MAX_LIMBS = 2 ^ 64 * W (m + ws)) by (rewrite <- W_S; f_equal; unfold MAX_LIMBS; lia).
      destruct D1. pose proof (W_pos (m + ws)). nia. }
    subst hi. split_and!.
    + rewrite length_app. cbn [length]. unfold MAX_LIMBS in *. lia.
    + apply Forall_app_2; [done|by constructor].
    + rewrite eval_app, eval_cons, eval_nil, R2. lia.
    + rewrite drop_ge; [done|]. rewrite length_app. cbn [length]. unfold MAX_LIMBS in *. lia.
  - split_and!.
    + rewrite length_app. cbn [length]. rewrite length_replicate. lia.
    + apply Forall_app_2; [done|]. constructor; [done|]. constructor.
      * split; [lia|]. assert (2 ^ s ≤ 2 ^ 64) by (apply Z.pow_le_mono_r; lia). lia.
      * apply Forall_replicate. unfold uN; lia.
    + rewrite eval_app, !eval_cons, eval_replicate_0, R2. lia.
    + replace (S (m + ws + 1) `min` MAX_LIMBS)%nat with (length pre + 2)%nat by lia.
      rewrite drop_app_add' by done. cbn [drop]. apply eval_replicate_0.
Qed.

Lemma shl_n_spec b n :
  wf b → 0 ≤ n < 64 * Z.of_nat MAX_LIMBS → val b * 2 ^ n < W MAX_LIMBS →
  wf (shl_n b n) ∧ val (shl_n b n) = val b * 2 ^ n.
Proof.
  intros Hb Hn Hv. unfold shl_n. pose proof (Z.div_mod n 64 ltac:(lia)) as Hdm.
  pose proof (Z.mod_pos_bound n 64 ltac:(lia)) as Hmod. set (s := n `mod` 64) in *.
  set (ws := Z.to_nat (n `div` 64)).
  assert (Hq : 0 ≤ n `div` 64) by (apply Z.div_pos; lia).
  assert (Ews : n `div` 64 = Z.of_nat ws) by (unfold ws; lia).
  assert (Hws : (ws < MAX_LIMBS)%nat) by lia.
  assert (Epow : val b * 2 ^ n = val b * 2 ^ s * W ws).
  { unfold W. rewrite <- Z.mul_assoc, <- Z.pow_add_r by lia. do 2 f_equal. lia. }
  rewrite (proj2 (Nat.leb_gt _ _)) by done. rewrite Epow in Hv.
  destruct (shl_limbs_spec b ws s Hb Hmod Hws Hv) as (R1 & R2 & R3 & R4).
  destruct (normalize_wf (foldl (shl_step b ws s) (limbs ZERO) (seq 0 (bn b))) ((bn b + ws + 1) `min` MAX_LIMBS))
    as [N1 N2]; [done|done|destruct (wf_n b Hb); unfold MAX_LIMBS; lia|].
  split; [done|]. rewrite N2, take_all_but_zeros, R3 by done. done.
Qed.

(** ** Bits *)

Lemma bit_len_from_spec l n :
  limbs_ok l → (n ≤ length l)%nat →
  bit_len_from l n = (if eval (take n l) =? 0 then 0 else Z.log2 (eval (take n l)) + 1).
Proof.
  intros Hok. induction n as [|n IH]; intros Hn; [done|]. cbn [bit_len_from].
  destruct (lookup_lt_is_Some_2 l n) as [x Hx]; [lia|]. rewrite (nth_lookup_Some _ _ 0 _ Hx).
  rewrite (take_S_r _ _ _ Hx), eval_app, eval_cons, eval_nil, length_take, Nat.min_l, Z.mul_0_r, Z.add_0_r by lia.
  assert (uN 64 x) as [Hx1 Hx2] by (eapply Forall_lookup_1; [exact Hok|exact Hx]).
  pose proof (eval_bound (take n l) ltac:(by apply Forall_take)) as Hb. rewrite length_take, Nat.min_l in Hb by lia.
  pose proof (W_pos n) as HW. destruct (Z.eqb_spec x 0) as [->|Hx0].
  - rewrite IH, Z.mul_0_r, Z.add_0_r by lia. done.
  - rewrite (proj2 (Z.eqb_neq _ _)) by nia. unfold leading_zeros. rewrite (proj2 (Z.eqb_neq x 0)) by done.
    assert (E : Z.log2 (eval (take n l) + W n * x) = 64 * Z.of_nat n + Z.log2 x); [|lia].
    apply Z.log2_unique; [pose proof (Z.log2_nonneg x); lia|].
    pose proof (Z.log2_spec x ltac:(lia)) as Hlog. pose proof (Z.log2_nonneg x).
    replace (Z.succ (64 * Z.of_nat n + Z.log2 x)) with (64 * Z.of_nat n + Z.succ (Z.log2 x)) by lia.
    rewrite !Z.pow_add_r by lia. fold (W n). nia.
Qed.

Lemma bit_len_spec b : wf b → bit_len b = (if val b =? 0 then 0 else Z.log2 (val b) + 1).
Proof. intros [Hl Hok Hn _]. apply bit_len_from_spec; [done|lia]. Qed.

Lemma eval_testbit l i :
  limbs_ok l → 0 ≤ i →
  Z.testbit (eval l) i = Z.testbit (nth (Z.to_nat (i `div` 64)) l 0) (i `mod` 64).
Proof.
  intros Hok. revert i. induction Hok as [|x l [Hx1 Hx2] Hl IH]; intros i Hi.
  { rewrite eval_nil, Z.bits_0. by destruct (Z.to_nat _); rewrite ?Z.bits_0. }
  rewrite eval_cons. destruct (Z_lt_le_dec i 64) as [Hlt|Hge].
  - rewrite Z.div_small, Z.mod_small by lia. cbn [Z.to_nat nth].
    rewrite <- (Z.mod_pow2_bits_low _ 64) by lia. rewrite Z.mul_comm, Z.mod_add by lia.
    by rewrite Z.mod_small by lia.
  - assert (Ei : i = (i - 64) + 1 * 64) by lia. rewrite Ei at 2 3. rewrite Z.div_add, Z.mod_add by lia.
    pose proof (Z.div_pos (i - 64) 64 ltac:(lia) ltac:(lia)).
    replace (Z.to_nat ((i - 64) `div` 64 + 1)) with (S (Z.to_nat ((i - 64) `div` 64))) by lia. cbn [nth].
    rewrite <- IH by lia. replace (x + 2 ^ 64 * eval l) with (Z.lor x (Z.shiftl (eval l) 64)).
    + rewrite Z.lor_spec, Z.shiftl_spec by lia. by rewrite (uN_testbit_high 64) by (done || lia).
    + rewrite Z.shiftl_mul_pow2, lor_disjoint by lia. lia.
Qed.

Lemma bit_spec b i : wf b → 0 ≤ i → bit b i = Z.testbit (val b) i.
Proof.
  intros [Hl Hok Hn _] Hi. unfold bit, val. rewrite eval_testbit by (done || by apply Forall_take).
  destruct (Nat.leb_spec (bn b) (Z.to_nat (i `div` 64))) as [H|H].
  - rewrite nth_overflow by (rewrite length_take; lia). by rewrite Z.bits_0.
  - pose proof (Z.mod_pos_bound i 64 ltac:(lia)). rewrite bit_eqb by lia.
    by rewrite !nth_lookup, lookup_take_lt by done.
Qed.

Lemma is_zero_spec b : wf b → is_zero b = true ↔ val b = 0.
Proof.
  intros [Hl Hok Hn _]. unfold is_zero, val. rewrite forallb_forall. split.
  - intros H. assert (take (bn b) (limbs b) = replicate (length (take (bn b) (limbs b))) 0) as ->.
    { rewrite <- (fmap_const_0 id) by (intros x Hx%list_elem_of_In%H; by apply Z.eqb_eq in Hx).
      by rewrite list_fmap_id. }
    apply eval_replicate_0.
  - intros H x Hx%list_elem_of_In. apply eval_0 in H; [|by apply Forall_take].
    rewrite Forall_forall in H. apply Z.eqb_eq. by apply H.
Qed.

(** ** Reduction *)

Lemma mod_loop_spec m n r :
  wf m → wf r → 0 < val m → Z.of_nat n ≤ 64 * Z.of_nat MAX_LIMBS →
  (n ≠ 0%nat → val m * 2 ^ (Z.of_nat n - 1) < W MAX_LIMBS) → val r < val m * 2 ^ Z.of_nat n →
  wf (mod_loop m n r) ∧ val (mod_loop m n r) = val r `mod` val m.
Proof.
  intros Hm Hr Hpos. revert r Hr. induction n as [|n IH]; intros r Hr Hn Hfit Hlt; cbn [mod_loop].
  { rewrite Z.pow_0_r, Z.mul_1_r in Hlt. pose proof (val_bound r Hr). by rewrite Z.mod_small by lia. }
  assert (H2 : 2 ^ Z.of_nat (S n) = 2 * 2 ^ Z.of_nat n) by (rewrite Nat2Z.inj_succ, Z.pow_succ_r by lia; done).
  assert (Hfit' : val m * 2 ^ Z.of_nat n < W MAX_LIMBS)
    by (specialize (Hfit ltac:(lia)); by replace (Z.of_nat (S n) - 1) with (Z.of_nat n) in Hfit by lia).
  destruct (shl_n_spec m (Z.of_nat n) Hm ltac:(lia) Hfit') as [S1 S2].
  assert (Hnext : n ≠ 0%nat → val m * 2 ^ (Z.of_nat n - 1) < W MAX_LIMBS).
  { intros Hn0. assert (2 ^ Z.of_nat n = 2 * 2 ^ (Z.of_nat n - 1))
      by (rewrite <- Z.pow_succ_r by lia; f_equal; lia). assert (0 < 2 ^ (Z.of_nat n - 1)) by lia. nia. }
  rewrite cmp_spec, S2 by done. destruct (Z.compare_spec (val r) (val m * 2 ^ Z.of_nat n)) as [E|E|E].
  - destruct (sub_spec r (shl_n m (Z.of_nat n)) Hr S1 ltac:(lia)) as [T1 T2].
    destruct (IH (sub r (shl_n m (Z.of_nat n))) T1) as [U1 U2]; [lia|done|rewrite T2, S2; nia|].
    split; [done|]. rewrite U2, T2, S2, E, Z.sub_diag, Z.mod_0_l by lia.
    by rewrite Z.mul_comm, Z.mod_mul by lia.
  - apply IH; (done || lia).
  - destruct (sub_spec r (shl_n m (Z.of_nat n)) Hr S1 ltac:(lia)) as [T1 T2].
    destruct (IH (sub r (shl_n m (Z.of_nat n))) T1) as [U1 U2]; [lia|done|rewrite T2, S2; nia|].
    split; [done|]. rewrite U2, T2, S2. replace (val r - val m * 2 ^ Z.of_nat n) with (val r + - 2 ^ Z.of_nat n * val m) by lia.
    by rewrite Z.mod_add by lia.
Qed.

Lemma modulo_spec a m :
  wf a → wf m → 0 < val m → wf (modulo a m) ∧ val (modulo a m) = val a `mod` val m.
Proof.
  intros Ha Hm Hpos. unfold modulo. rewrite cmp_spec by done.
  pose proof (val_bound a Ha) as [Ha0 Ha1]. pose proof (val_bound m Hm) as [_ Hm1].
  assert (Hmain : val m ≤ val a → let n := S (Z.to_nat (saturating_sub (bit_len a) (bit_len m))) in
    wf (mod_loop m n a) ∧ val (mod_loop m n a) = val a `mod` val m).
  { intros Hle n. pose proof (W_mono (bn a) MAX_LIMBS (proj2 (wf_n a Ha))) as HW.
    pose proof (Z.log2_spec (val a) ltac:(lia)) as [La1 La2]. pose proof (Z.log2_spec (val m) Hpos) as [Lm1 Lm2].
    pose proof (Z.log2_le_mono (val m) (val a) Hle) as Hlog. pose proof (Z.log2_nonneg (val m)).
    assert (Hla : Z.log2 (val a) < 64 * Z.of_nat MAX_LIMBS) by (apply Z.log2_lt_pow2; [lia|]; fold (W MAX_LIMBS); lia).
    assert (En : Z.of_nat n = Z.log2 (val a) - Z.log2 (val m) + 1).
    { unfold n, saturating_sub. rewrite !bit_len_spec, !(proj2 (Z.eqb_neq _ _)) by (done || lia). lia. }
    clearbody n.
    set (k := Z.log2 (val a) - Z.log2 (val m)) in *.
    assert (Ek : 2 ^ Z.succ (Z.log2 (val m)) * 2 ^ k = 2 ^ Z.succ (Z.log2 (val a))) by (rewrite <- Z.pow_add_r by lia; f_equal; lia).
    assert (Ek' : 2 ^ Z.log2 (val m) * 2 ^ Z.of_nat n = 2 ^ Z.succ (Z.log2 (val a))) by (rewrite <- Z.pow_add_r by lia; f_equal; lia).
    assert (2 ^ Z.succ (Z.log2 (val a)) ≤ W MAX_LIMBS) by (apply Z.pow_le_mono_r; lia).
    assert (0 < 2 ^ k) by lia. assert (0 < 2 ^ Z.of_nat n) by lia.
    apply mod_loop_spec; try done; [lia| |nia].
    intros _. replace (Z.of_nat n - 1) with k by lia. nia. }
  destruct (Z.compare_spec (val a) (val m)) as [E|E|E]; [apply Hmain; lia| |apply Hmain; lia].
  split; [done|]. by rewrite Z.mod_small by lia.
Qed.

(** ** Modular arithmetic *)

Lemma mod_add_spec a b m :
  wf a → wf b → wf m → val a < val m → val b < val m → val a + val b < W MAX_LIMBS →
  wf (mod_add a b m) ∧ val (mod_add a b m) = (val a + val b) `mod` val m.
Proof.
  intros Ha Hb Hm Hla Hlb Hs. pose proof (val_bound a Ha). pose proof (val_bound b Hb).
  destruct (add_spec a b Ha Hb) as [A1 A2]. rewrite Z.mod_small in A2 by lia.
  unfold mod_add. rewrite cmp_spec, A2 by done.
  assert (Hge : val m ≤ val a + val b → wf (sub (add a b) m) ∧ val (sub (add a b) m) = (val a + val b) `mod` val m).
  { intros Hle. destruct (sub_spec (add a b) m A1 Hm ltac:(lia)) as [S1 S2]. split; [done|].
    rewrite S2, A2. symmetry. rewrite <- (Z.mod_add _ (-1)), Z.mod_small by lia. lia. }
  destruct (Z.compare_spec (val a + val b) (val m)); [apply Hge; lia| |apply Hge; lia].
  split; [done|]. rewrite A2, Z.mod_small by lia. done.
Qed.

Lemma mod_mul_spec a b m :
  wf a → wf b → wf m → 0 < val m → (bn a + bn b ≤ MAX_LIMBS)%nat →
  wf (mod_mul a b m) ∧ val (mod_mul a b m) = (val a * val b) `mod` val m.
Proof.
  intros Ha Hb Hm Hpos Hn. destruct (mul_spec a b Ha Hb Hn) as [M1 M2].
  unfold mod_mul. rewrite <- M2. by apply modulo_spec.
Qed.

Lemma mod_pow2_S e i :
  0 ≤ i → e `mod` 2 ^ (i + 1) = e `mod` 2 ^ i + (if Z.testbit e i then 2 ^ i else 0).
Proof.
  intros Hi. rewrite Z.pow_add_r, Z.rem_mul_r by lia.
  rewrite (Z.testbit_odd e i), Z.shiftr_div_pow2, Zmod_odd by lia.
  destruct (Z.odd (e `div` 2 ^ i)); lia.
Qed.

Lemma mod_exp_loop a e m n i result base :
  wf e → wf m → (bn m + bn m ≤ MAX_LIMBS)%nat → 1 < val m →
  wf result → wf base → val result < val m →
  val result = a ^ (val e `mod` 2 ^ Z.of_nat i) `mod` val m →
  val base = a ^ (2 ^ Z.of_nat i) `mod` val m →
  let r := fst (foldl (exp_step e m) (result, base) (seq i n)) in
  wf r ∧ val r = a ^ (val e `mod` 2 ^ Z.of_nat (i + n)) `mod` val m.
Proof.
  intros He Hm Hn H1. revert i result base.
  induction n as [|n IH]; intros i result base Hr Hb Hlt Er Eb; cbn [seq foldl].
  { by rewrite Nat.add_0_r. }
  replace (i + S n)%nat with (S i + n)%nat by lia.
  assert (Hbm : val base < val m) by (rewrite Eb; apply Z.mod_pos_bound; lia).
  pose proof (bn_mono result m Hr Hm ltac:(lia)). pose proof (bn_mono base m Hb Hm ltac:(lia)).
  destruct (mod_mul_spec base base m Hb Hb Hm ltac:(lia) ltac:(lia)) as [B1 B2].
  assert (E2 : 2 ^ Z.of_nat (S i) = 2 ^ Z.of_nat i + 2 ^ Z.of_nat i)
    by (rewrite Nat2Z.inj_succ, Z.pow_succ_r by lia; lia).
  assert (Hpow : 0 ≤ 2 ^ Z.of_nat i) by lia.
  assert (Ebase : val (mod_mul base base m) = a ^ (2 ^ Z.of_nat (S i)) `mod` val m).
  { rewrite B2, Eb, E2, Z.pow_add_r by lia. symmetry. apply Z.mul_mod. lia. }
  assert (Emod := mod_pow2_S (val e) (Z.of_nat i) ltac:(lia)).
  replace (Z.of_nat i + 1) with (Z.of_nat (S i)) in Emod by lia.
  pose proof (Z.mod_pos_bound (val e) (2 ^ Z.of_nat i) ltac:(lia)) as Hme.
  assert (Es : exp_step e m (result, base) i
    = (if Z.testbit (val e) (Z.of_nat i) then mod_mul result base m else result, mod_mul base base m))
    by (unfold exp_step; by rewrite bit_spec by (done || lia)).
  rewrite Es. destruct (Z.testbit (val e) (Z.of_nat i)).
  - destruct (mod_mul_spec result base m Hr Hb Hm ltac:(lia) ltac:(lia)) as [R1 R2].
    apply IH; try done; [rewrite R2; apply Z.mod_pos_bound; lia|].
    rewrite R2, Er, Eb, Emod, Z.pow_add_r by lia. symmetry. apply Z.mul_mod. lia.
  - apply IH; try done. by rewrite Er, Emod, Z.add_0_r.
Qed.

Lemma mod_exp_spec a e m :
  wf a → wf e → wf m → (bn m + bn m ≤ MAX_LIMBS)%nat → 1 < val m →
  wf (mod_exp a e m) ∧ val (mod_exp a e m) = val a ^ val e `mod` val m.
Proof.
  intros Ha He Hm Hn H1. unfold mod_exp.
  destruct (is_zero m) eqn:Ez; [apply is_zero_spec in Ez; [lia|done]|].
  destruct (from_u64_wf 1 ltac:(unfold uN; lia)) as [O1 O2].
  destruct (modulo_spec a m Ha Hm ltac:(lia)) as [A1 A2].
  destruct (mod_exp_loop (val a) e m (Z.to_nat (bit_len e)) 0 (from_u64 1) (modulo a m) He Hm Hn H1 O1 A1)
    as [R1 R2]; [lia| | |].
  - rewrite O2. change (2 ^ Z.of_nat 0) with 1. rewrite Z.mod_1_r, Z.pow_0_r, Z.mod_small by lia. done.
  - rewrite A2. change (2 ^ Z.of_nat 0) with 1. by rewrite Z.pow_1_r.
  - split; [done|]. rewrite R2. do 2 f_equal. cbn [Nat.add]. apply Z.mod_small.
    pose proof (val_bound e He). split; [lia|]. rewrite bit_len_spec by done.
    destruct (Z.eqb_spec (val e) 0) as [->|]; [lia|].
    pose proof (Z.log2_spec (val e) ltac:(lia)). pose proof (Z.log2_nonneg (val e)).
    rewrite Z2Nat.id by lia. replace (Z.log2 (val e) + 1) with (Z.succ (Z.log2 (val e))) by lia. lia.
Qed.

(** ** Bytes *)

Lemma to_le_bytes_app m n v :
  to_le_bytes (m + n) v = to_le_bytes m v ++ to_le_bytes n (v `div` 2 ^ (8 * Z.of_nat m)).
Proof.
  revert v. induction m as [|m IH]; intros v.
  - cbn [Nat.add app to_le_bytes]. by rewrite Z.mul_0_r, Z.pow_0_r, Z.div_1_r.
  - change (to_le_bytes (S m + n) v) with (v `mod` 256 :: to_le_bytes (m + n) (v `div` 256)).
    change (to_le_bytes (S m) v) with (v `mod` 256 :: to_le_bytes m (v `div` 256)).
    rewrite IH, pow256_S, Z.div_div by lia. done.
Qed.

Lemma to_be_bytes_app m n v :
  to_be_bytes (n + m) v = to_be_bytes n (v `div` 2 ^ (8 * Z.of_nat m)) ++ to_be_bytes m v.
Proof. unfold to_be_bytes. by rewrite Nat.add_comm, to_le_bytes_app, reverse_app. Qed.

(** Writing the bytes of one limb, from its low byte, in front of those
    written before. *)
Lemma write_limb len v i out n :
  (i * 8 + n ≤ len)%nat → length out = (i * 8)%nat →
  foldl (write_byte len v i) (replicate (len - i * 8) 0 ++ out) (seq 0 n)
  = replicate (len - i * 8 - n) 0 ++ to_be_bytes n v ++ out.
Proof.
  intros Hn Ho. induction n as [|n IH]; [by rewrite Nat.sub_0_r|].
  rewrite seq_S, foldl_app, IH by lia. cbn [foldl Nat.add]. unfold write_byte.
  rewrite (proj2 (Nat.ltb_lt _ _)) by lia.
  replace (len - i * 8 - n)%nat with ((len - (i * 8 + n + 1)) + 1)%nat by lia.
  rewrite replicate_add, <- app_assoc.
  replace (len - (i * 8 + n + 1))%nat with (length (replicate (len - (i * 8 + n + 1)) 0)) at 1
    by apply length_replicate.
  cbn [replicate app]. rewrite insert_app_head. f_equal; [f_equal; lia|].
  replace (S n) with (1 + n)%nat by lia. rewrite to_be_bytes_app.
  change (to_be_bytes 1 (v `div` 2 ^ (8 * Z.of_nat n))) with [(v `div` 2 ^ (8 * Z.of_nat n)) `mod` 256].
  cbn [app]. f_equal. unfold wrap. rewrite Z.shiftr_div_pow2 by lia. do 2 f_equal. f_equal. lia.
Qed.

Lemma W_pow8 i : W i = 2 ^ (8 * Z.of_nat (i * 8)).
Proof. unfold W. f_equal. lia. Qed.

Lemma Big_to_be_bytes_spec b len :
  wf b → (bn b * 8 ≤ len)%nat → Big_to_be_bytes b len = to_be_bytes len (val b).
Proof.
  intros Hb Hlen. unfold Big_to_be_bytes, val. pose proof (wf_len b Hb). pose proof (wf_n b Hb).
  assert (Hloop : ∀ n, (n ≤ bn b)%nat →
    foldl (λ out i, foldl (write_byte len (nth i (limbs b) 0) i) out (seq 0 8)) (replicate len 0) (seq 0 n)
    = replicate (len - n * 8) 0 ++ to_be_bytes (n * 8) (eval (take n (limbs b)))).
  { induction n as [|n IH]; intros Hn; [by rewrite Nat.mul_0_l, Nat.sub_0_r, app_nil_r|].
    rewrite (seq_S n 0), foldl_app, IH by lia. cbn [foldl Nat.add].
    rewrite write_limb by (lia || apply length_to_be_bytes).
    destruct (lookup_lt_is_Some_2 (limbs b) n) as [x Hx]; [lia|].
    assert (uN 64 x) as [Hx1 Hx2] by (eapply Forall_lookup_1; [exact (wf_limbs b Hb)|exact Hx]).
    rewrite (nth_lookup_Some _ _ 0 _ Hx), (take_S_r _ _ _ Hx), eval_app, length_take, Nat.min_l by lia.
    rewrite eval_cons, eval_nil, Z.mul_0_r, Z.add_0_r.
    pose proof (eval_bound (take n (limbs b)) ltac:(apply Forall_take, Hb)) as Hev.
    rewrite length_take, Nat.min_l in Hev by lia. pose proof (W_pos n).
    replace (S n * 8)%nat with (8 + n * 8)%nat by lia. f_equal; [f_equal; lia|].
    rewrite to_be_bytes_app, <- W_pow8, (Z.mul_comm (W n)), Z.div_add, Z.div_small, Z.add_0_l by lia. f_equal.
    rewrite <- (to_be_bytes_wrap (n * 8) (_ + _)). unfold wrap.
    rewrite <- W_pow8, Z.mod_add, Z.mod_small by lia. done. }
  rewrite Hloop by lia.
  pose proof (val_bound b Hb) as Hv. unfold val in Hv. rewrite W_pow8 in Hv.
  replace len with ((len - bn b * 8) + bn b * 8)%nat at 2 by lia.
  rewrite to_be_bytes_app, Z.div_small by lia. f_equal.
  generalize (len - bn b * 8)%nat as k. induction k as [|k IH]; [done|].
  by rewrite to_be_bytes_S, Z.div_0_l, <- IH, replicate_S_end by lia.
Qed.

Lemma pow8_S n : 2 ^ (8 * Z.of_nat (S n)) = 2 ^ 8 * 2 ^ (8 * Z.of_nat n).
Proof. rewrite <- Z.pow_add_r by lia. f_equal. lia. Qed.

(** The loop over a chunk is big-endian evaluation. *)
Lemma chunk_limb_loop (len : nat) pre rest :
  bytes_ok pre → bytes_ok rest → (length pre + length rest = len ∧ len ≤ 8)%nat →
  foldl (λ v kb, Z.lor v (wrap 64 (Z.shiftl (snd kb) (8 * Z.of_nat (len - 1 - fst kb)))))
        (from_be_bytes pre * 2 ^ (8 * Z.of_nat (length rest)))
        (zip (seq (length pre) (length rest)) rest)
  = from_be_bytes (pre ++ rest).
Proof.
  intros Hp Hr [Hl H8]. revert pre Hp Hl. induction Hr as [|b rest [Hb1 Hb2] _ IH]; intros pre Hp Hl.
  { cbn [length zip zip_with seq foldl]. rewrite app_nil_r. lia. }
  cbn [length seq zip zip_with foldl fst snd] in *.
  replace (len - 1 - length pre)%nat with (length rest) by lia.
  pose proof (from_be_bytes_range pre Hp) as [Hq1 _].
  assert (E : Z.lor (from_be_bytes pre * 2 ^ (8 * Z.of_nat (S (length rest))))
      (wrap 64 (Z.shiftl b (8 * Z.of_nat (length rest))))
    = from_be_bytes (pre ++ [b]) * 2 ^ (8 * Z.of_nat (length rest))).
  { rewrite Z.shiftl_mul_pow2, wrap_id by (lia || (split; [lia|];
      assert (2 ^ 8 * 2 ^ (8 * Z.of_nat (length rest)) ≤ 2 ^ 64)
        by (rewrite <- Z.pow_add_r by lia; apply Z.pow_le_mono_r; lia);
      assert (0 < 2 ^ (8 * Z.of_nat (length rest))) by lia; nia)).
    rewrite Z.lor_comm, lor_disjoint.
    - rewrite from_be_bytes_snoc, pow8_S. lia.
    - lia.
    - rewrite pow8_S. assert (0 < 2 ^ (8 * Z.of_nat (length rest))) by lia. nia. }
  rewrite E. replace (S (length pre)) with (length (pre ++ [b])) by (rewrite length_app; cbn [length]; lia).
  replace (pre ++ b :: rest) with ((pre ++ [b]) ++ rest) by (by rewrite <- app_assoc).
  apply IH; [|rewrite length_app; cbn [length]; lia].
  apply Forall_app_2; [done|]. by constructor.
Qed.

Lemma chunk_limb_spec chunk : bytes_ok chunk → (length chunk ≤ 8)%nat → chunk_limb chunk = from_be_bytes chunk.
Proof.
  intros Hok Hl. by apply (chunk_limb_loop (length chunk) [] chunk).
Qed.

Lemma from_be_bytes_app a b :
  from_be_bytes (a ++ b) = from_be_bytes a * 2 ^ (8 * Z.of_nat (length b)) + from_be_bytes b.
Proof.
  induction b as [|x b IH] using rev_ind.
  - rewrite app_nil_r. cbn [length]. change (from_be_bytes []) with 0. lia.
  - rewrite app_assoc, !from_be_bytes_snoc, IH, length_app. cbn [length].
    rewrite Nat.add_1_r, pow8_S. lia.
Qed.

(** The limbs of a byte string, eight bytes at a time from its end. *)
Lemma be_limbs_spec bytes n :
  bytes_ok bytes → (length bytes ≤ n * 8)%nat →
  limbs_ok (from_be_bytes_limb bytes <$> seq 0 n)
  ∧ eval (from_be_bytes_limb bytes <$> seq 0 n) = from_be_bytes bytes.
Proof.
  revert bytes. induction n as [|n IH]; intros bytes Hok Hl.
  { rewrite (nil_length_inv bytes) by lia. split; [constructor|done]. }
  set (k := (length bytes - 8)%nat). set (hi := take k bytes). set (lo := drop k bytes).
  assert (Hlo : (length lo ≤ 8)%nat) by (unfold lo; rewrite length_drop; lia).
  assert (Hhi : length hi = k) by (unfold hi; rewrite length_take; lia).
  assert (E0 : from_be_bytes_limb bytes 0 = from_be_bytes lo).
  { unfold from_be_bytes_limb. rewrite Nat.mul_0_l, Nat.sub_0_r. cbn [Nat.add Nat.mul].
    rewrite take_ge by (rewrite length_drop; lia). apply chunk_limb_spec; [by apply Forall_drop|done]. }
  assert (ES : ∀ i, from_be_bytes_limb bytes (S i) = from_be_bytes_limb hi i).
  { intros i. unfold from_be_bytes_limb. rewrite Hhi. f_equal.
    replace (length bytes - (S i + 1) * 8)%nat with (k - (i + 1) * 8)%nat by lia.
    replace (length bytes - S i * 8)%nat with (k - i * 8)%nat by lia. unfold hi.
    set (p := (k - (i + 1) * 8)%nat). set (q := (k - i * 8)%nat).
    rewrite <- (take_drop k bytes) at 1. rewrite drop_app_le by (rewrite length_take; lia).
    rewrite take_app_le; [done|]. rewrite length_drop, length_take. lia. }
  destruct (IH hi) as [I1 I2]; [by apply Forall_take|lia|].
  change (seq 0 (S n)) with (0%nat :: seq 1 n). cbn [fmap list_fmap]. rewrite E0.
  rewrite <- fmap_S_seq, <- list_fmap_compose.
  rewrite (list_fmap_ext _ (from_be_bytes_limb hi)) by (intros; apply ES).
  assert (Hlob : bytes_ok lo) by by apply Forall_drop. pose proof (from_be_bytes_range lo Hlob) as [R1 R2].
  assert (2 ^ (8 * Z.of_nat (length lo)) ≤ 2 ^ 64) by (apply Z.pow_le_mono_r; lia).
  split; [constructor; [split; lia|done]|]. rewrite eval_cons, I2.
  rewrite <- (take_drop k bytes) at 1. fold hi lo. rewrite from_be_bytes_app.
  destruct (decide (8 ≤ length bytes)%nat) as [H8|H8].
  - replace (length lo) with 8%nat by (unfold lo; rewrite length_drop; lia). lia.
  - assert (hi = []) as -> by (apply nil_length_inv; lia). change (from_be_bytes []) with 0. lia.
Qed.

Lemma Big_from_be_bytes_spec bytes :
  bytes_ok bytes → (length bytes ≤ MAX_LIMBS * 8)%nat →
  wf (Big_from_be_bytes bytes) ∧ val (Big_from_be_bytes bytes) = from_be_bytes bytes.
Proof.
  intros Hok Hl. unfold Big_from_be_bytes. set (n := (((length bytes + 7) / 8) `min` MAX_LIMBS)%nat).
  assert (Hn : (length bytes ≤ n * 8 ∧ n ≤ MAX_LIMBS)%nat).
  { unfold n. pose proof (Nat.div_mod_eq (length bytes + 7) 8).
    pose proof (Nat.mod_upper_bound (length bytes + 7) 8). lia. }
  destruct (be_limbs_spec bytes n Hok) as [L1 L2]; [lia|].
  rewrite <- L2. apply fill_wf; rewrite ?length_fmap, ?length_seq; (done || (unfold MAX_LIMBS in *; lia)).
Qed.

(** ** Theorems *)

(** Big-integer arithmetic refines integer arithmetic: on well-formed
    numbers, [add] is addition modulo [2^4096], [sub] subtracts when the
    result is not negative, [cmp] compares, and, whenever the limbs of both
    factors fit in the array, [mul] is the exact product; results are well
    formed. *)
Theorem bigint_arith_refines a b :
  wf a → wf b →
  (wf (add a b) ∧ val (add a b) = (val a + val b) `mod` 2 ^ 4096)
  ∧ (val b ≤ val a → wf (sub a b) ∧ val (sub a b) = val a - val b)
  ∧ cmp a b = (val a ?= val b)
  ∧ ((bn a + bn b ≤ MAX_LIMBS)%nat → wf (mul a b) ∧ val (mul a b) = val a * val b).
Proof.
  intros Ha Hb. change (2 ^ 4096) with (W MAX_LIMBS).
  split_and!; [by apply add_spec|by apply add_spec|by apply sub_spec|by apply cmp_spec|by apply mul_spec].
Qed.

Lemma bigint_arith_refines_witness :
  val (add (from_u64 (2 ^ 64 - 1)) (from_u64 5)) = (val (from_u64 (2 ^ 64 - 1)) + val (from_u64 5)) `mod` 2 ^ 4096.
Proof.
  apply (bigint_arith_refines (from_u64 (2 ^ 64 - 1)) (from_u64 5)); apply from_u64_wf; unfold uN; lia.
Defined.

(** Modular exponentiation is correct for moduli of up to 2048 bits (32
    limbs): for any base and exponent, square-and-multiply with reduction by
    shifted subtraction returns [base^exp mod m]. *)
Theorem bigint_mod_exp_correct a e m :
  wf a → wf e → wf m → (bn m ≤ 32)%nat → 1 < val m →
  wf (mod_exp a e m) ∧ val (mod_exp a e m) = val a ^ val e `mod` val m.
Proof. intros. apply mod_exp_spec; try done. unfold MAX_LIMBS. lia. Qed.

Lemma bigint_mod_exp_correct_witness : val (mod_exp (from_u64 7) (from_u64 10) (from_u64 1009)) = 7 ^ 10 `mod` 1009.
Proof.
  apply (bigint_mod_exp_correct (from_u64 7) (from_u64 10) (from_u64 1009));
    [apply from_u64_wf; unfold uN; lia..|simpl; lia|vm_compute; reflexivity].
Defined.

(** Big-endian bytes: reading a byte string of up to 512 bytes gives its
    value, and writing it into a buffer of at least eight bytes per active
    limb gives the value back, left-padded with zeros. *)
Theorem bigint_bytes_roundtrip bytes len :
  bytes_ok bytes → (length bytes ≤ 512)%nat →
  (bn (Big_from_be_bytes bytes) * 8 ≤ len)%nat →
  val (Big_from_be_bytes bytes) = from_be_bytes bytes
  ∧ Big_to_be_bytes (Big_from_be_bytes bytes) len = to_be_bytes len (from_be_bytes bytes).
Proof.
  intros Hok Hl Hlen. destruct (Big_from_be_bytes_spec bytes Hok) as [H1 H2]; [unfold MAX_LIMBS; lia|].
  split; [done|]. by rewrite Big_to_be_bytes_spec, H2.
Qed.

Lemma bigint_bytes_roundtrip_witness :
  val (Big_from_be_bytes [1; 2; 3]) = from_be_bytes [1; 2; 3]
  ∧ Big_to_be_bytes (Big_from_be_bytes [1; 2; 3]) 8 = to_be_bytes 8 (from_be_bytes [1; 2; 3]).
Proof.
  apply (bigint_bytes_roundtrip [1; 2; 3] 8); [|vm_compute; lia..].
  repeat (apply Forall_cons_2; [unfold uN; lia|]). apply Forall_nil_2.
Defined.

(** ** Departures *)

(** A buffer shorter than the limbs: the bytes that do not fit are written over
    the first one, so the top byte of a 20-byte number is lost. *)
Example to_be_bytes_clobbers :
  nth 0 (Big_to_be_bytes (Big_from_be_bytes (to_be_bytes 20 (2 ^ 159 + 3))) 20) 0 = 0
  ∧ nth 0 (to_be_bytes 20 (2 ^ 159 + 3)) 0 = 128.
Proof. vm_compute. done. Qed.

(** Above 2048 bits the product is truncated to 4096 bits before it is
    reduced: [(2^2112)^2 mod (2^2112 + 1)] is [1], the code answers otherwise. *)
Example mod_mul_truncates :
  let x := Big_from_be_bytes (to_be_bytes 272 (2 ^ 2112)) in
  let m := Big_from_be_bytes (to_be_bytes 272 (2 ^ 2112 + 1)) in
  val (mod_mul x x m) = 0 ∧ (2 ^ 2112 * 2 ^ 2112) `mod` (2 ^ 2112 + 1) = 1.
Proof. vm_compute. done. Qed.

(** [mod_inv] answers for every modulus, with a wrong inverse when it is not
    prime. *)
Example mod_inv_composite :
  ∃ r, mod_inv (from_u64 3) (from_u64 8) = Some r ∧ (3 * val r) `mod` 8 ≠ 1.
Proof. eexists. split; [reflexivity|]. vm_compute. discriminate. Qed.
