(* ===== verification/Inflate.v ===== *)
(** * DEFLATE decompression ([kernel/src/net/inflate.rs])

    The decompressor of the PNG decoder and the HTTP client: the bit reader,
    canonical Huffman tables, stored, fixed and dynamic blocks, and the zlib and
    gzip wrappers.  A failed index of the code is [Panic] and a loop that runs out
    of fuel [OutOfFuel]; [InflateProofs] shows that neither ever happens.  Code
    lengths, which the code uses to index tables, are [nat]s. *)

From S2P Require Import Prelude.

Inductive InflateError :=
| Truncated
| BadHeader (s : string)
| BadBlock (s : string)
| EmptyHuffman
| SymbolNotInTree
| BadBackref.

(** Why a call does not return a value. *)
Inductive stop :=
| Error (e : InflateError)
| Panic
| OutOfFuel.

(** ** The bit reader *)
Record BitReader := mkBitReader {
  src : list Z;
  pos : nat;
  buf : Z;
  bits : Z
}.

Abbreviation R := (M BitReader stop).

Definition new (src : list Z) : BitReader := mkBitReader src 0 0 0.

(** The loop of [read_bits]: bytes are added until [n] bits are there. *)
Fixpoint refill (fuel : nat) (n : Z) : R unit := λ br,
  match fuel with
  | O => (Err OutOfFuel, br)
  | S fuel' =>
      if bits br <? n then
        match src br !! pos br with
        | None => (Err (Error Truncated), br)
        | Some b =>
            refill fuel' n
              (mkBitReader (src br) (S (pos br))
                 (Z.lor (buf br) (wrap 32 (Z.shiftl b (bits br)))) (bits br + 8))
        end
      else (Ok tt, br)
  end.

Definition take_bits (n : Z) : R Z := λ br,
  (Ok (Z.land (buf br) (Z.shiftl 1 n - 1)),
   mkBitReader (src br) (pos br) (Z.shiftr (buf br) n) (bits br - n)).

Definition read_bits (n : Z) : R Z :=
  refill (S (Z.to_nat n)) n ≫= λ _, take_bits n.

Definition align_to_byte : R unit := λ br,
  let extra := Z.land (bits br) 7 in
  (Ok tt,
   if 0 <? extra
   then mkBitReader (src br) (pos br) (Z.shiftr (buf br) extra) (bits br - extra)
   else br).

Definition read_byte : R Z := read_bits 8 ≫= λ v, mret (wrap 8 v).

Definition read_u16_le : R Z :=
  read_byte ≫= λ lo, read_byte ≫= λ hi, mret (Z.lor lo (Z.shiftl hi 8)).

(** [l[i]]: a bounds-checked index. *)
Definition at_index {A} (l : list A) (i : nat) : R A :=
  match l !! i with Some a => mret a | None => throw Panic end.

(** ** Huffman tables *)
Record HuffTable := mkHuffTable {
  max_len : nat;
  first_code : list Z;
  sym_offset : list nat;
  syms : list Z
}.

Definition count_length (c : list Z) (l : nat) : list Z :=
  if (0 <? l)%nat && (l <? 16)%nat then alter (Z.add 1) l c else c.

Definition bl_count (lengths : list nat) : list Z :=
  foldl count_length (replicate 16 0) lengths.

(** [for bits in 1..16]: the first code of every length. *)
Definition next_code_step (count : list Z) (st : Z * list Z) (bits : nat) : Z * list Z :=
  let code := wrap 32 (Z.shiftl (st.1 + nth (bits - 1) count 0) 1) in
  (code, <[bits := code]> st.2).

Definition next_code (count : list Z) : list Z :=
  (foldl (next_code_step count) (0, replicate 16 0) (seq 1 15)).2.

(** The pairs of code length and symbol, symbols without a code left out. *)
Definition huff_entries (lengths : list nat) : list (nat * nat) :=
  filter (λ e : nat * nat, 0 < e.1)%nat (imap (λ i l, (l, i)) lengths).

Definition entry_le (a b : nat * nat) : Prop := (a.1 < b.1 ∨ a.1 = b.1 ∧ a.2 ≤ b.2)%nat.

#[export] Instance entry_le_dec a b : Decision (entry_le a b).
Proof. unfold entry_le. apply _. Defined.

Definition sorted_entries (lengths : list nat) : list (nat * nat) :=
  merge_sort entry_le (huff_entries lengths).

(** The state of the table loop: length of the last entry, entries seen, the
    two tables. *)
Record table_state := mkTableState {
  ts_prev : nat;
  ts_idx : nat;
  ts_first : list Z;
  ts_offset : list nat
}.

Definition fill_tables (next : list Z) (l : nat) (st : table_state) : table_state :=
  let fills := seq (S (ts_prev st)) (l - ts_prev st) in
  mkTableState l (ts_idx st)
    (foldl (λ f k, <[k := nth k next 0]> f) (ts_first st) fills)
    (foldl (λ o k, <[k := ts_idx st]> o) (ts_offset st) fills).

(** The loop over the entries; a length above 15 indexes past the tables. *)
Fixpoint table_loop (next : list Z) (es : list (nat * nat)) (st : table_state)
    : outcome table_state :=
  match es with
  | [] => Returned st
  | (l, _) :: es' =>
      if bool_decide (l = ts_prev st) then
        table_loop next es' (mkTableState l (S (ts_idx st)) (ts_first st) (ts_offset st))
      else if (15 <? l)%nat then Panicked
      else
        let st := fill_tables next l st in
        table_loop next es' (mkTableState l (S (ts_idx st)) (ts_first st) (ts_offset st))
  end.

Definition build_huff (lengths : list nat) : outcome HuffTable :=
  let next := next_code (bl_count lengths) in
  let entries := sorted_entries lengths in
  match table_loop next entries (mkTableState 0 0 (replicate 16 0) (replicate 16 0%nat)) with
  | Panicked => Panicked
  | Returned st =>
      Returned (mkHuffTable (default 0%nat (fst <$> last entries)) (ts_first st) (ts_offset st)
                  (map (λ e, Z.of_nat e.2) entries))
  end.

Definition build (lengths : list nat) : R HuffTable :=
  match build_huff lengths with Returned t => mret t | Panicked => throw Panic end.

(** How many codes of a length the table holds, as [decode_symbol] computes it. *)
Definition code_count (table : HuffTable) (length_ : nat) : R nat :=
  at_index (sym_offset table) length_ ≫= λ off,
  if (length_ <? 15)%nat
  then at_index (sym_offset table) (S length_) ≫= λ off', mret (off' - off)%nat
  else mret (length (syms table) - off)%nat.

Fixpoint decode_loop (table : HuffTable) (ls : list nat) (code : Z) : R Z :=
  match ls with
  | [] => throw (Error SymbolNotInTree)
  | length_ :: ls' =>
      read_bits 1 ≫= λ bit,
      let code := Z.lor (wrap 32 (Z.shiftl code 1)) bit in
      at_index (first_code table) length_ ≫= λ first,
      code_count table length_ ≫= λ count,
      if (first <=? code) && (code <? first + Z.of_nat count) then
        at_index (sym_offset table) length_ ≫= λ off,
        at_index (syms table) (off + Z.to_nat (code - first))%nat
      else decode_loop table ls' code
  end.

Definition decode_symbol (table : HuffTable) : R Z :=
  if (max_len table =? 0)%nat then throw (Error EmptyHuffman)
  else decode_loop table (seq 1 (max_len table)) 0.

(** ** Blocks *)
Definition LEN_BASE : list Z :=
  [3; 4; 5; 6; 7; 8; 9; 10; 11; 13; 15; 17; 19; 23; 27; 31;
   35; 43; 51; 59; 67; 83; 99; 115; 131; 163; 195; 227; 258].
Definition LEN_EXTRA : list Z :=
  [0; 0; 0; 0; 0; 0; 0; 0; 1; 1; 1; 1; 2; 2; 2; 2;
   3; 3; 3; 3; 4; 4; 4; 4; 5; 5; 5; 5; 0].
Definition DIST_BASE : list Z :=
  [1; 2; 3; 4; 5; 7; 9; 13; 17; 25; 33; 49; 65; 97; 129; 193;
   257; 385; 513; 769; 1025; 1537; 2049; 3073; 4097; 6145;
   8193; 12289; 16385; 24577].
Definition DIST_EXTRA : list Z :=
  [0; 0; 0; 0; 1; 1; 2; 2; 3; 3; 4; 4; 5; 5; 6; 6;
   7; 7; 8; 8; 9; 9; 10; 10; 11; 11; 12; 12; 13; 13].

Definition read_extra (base extra : Z) : R nat :=
  (if 0 <? extra then read_bits extra else mret 0) ≫= λ v, mret (Z.to_nat (base + v)).

Definition read_length (sym : Z) : R nat :=
  let i := Z.to_nat (sym - 257) in
  if (29 <=? i)%nat then throw (Error (BadBlock "bad length symbol")) else
  at_index LEN_EXTRA i ≫= λ extra, at_index LEN_BASE i ≫= λ base, read_extra base extra.

Definition read_distance (sym : Z) : R nat :=
  let i := Z.to_nat sym in
  if (30 <=? i)%nat then throw (Error (BadBlock "bad distance symbol")) else
  at_index DIST_EXTRA i ≫= λ extra, at_index DIST_BASE i ≫= λ base, read_extra base extra.

Definition fixed_litlen : R HuffTable :=
  build (replicate 144 8 ++ replicate 112 9 ++ replicate 24 7 ++ replicate 8 8)%nat.

Definition fixed_dist : R HuffTable := build (replicate 30 5%nat).

(** [for i in 0..length { out.push(out[start + i]) }] *)
Fixpoint copy_back (n start : nat) (out : list Z) : R (list Z) :=
  match n with
  | O => mret out
  | S n' => at_index out start ≫= λ b, copy_back n' (S start) (out ++ [b])
  end.

Fixpoint huff_loop (fuel : nat) (litlen dist : HuffTable) (out : list Z) : R (list Z) :=
  match fuel with
  | O => throw OutOfFuel
  | S fuel' =>
      decode_symbol litlen ≫= λ sym,
      if sym <? 256 then huff_loop fuel' litlen dist (out ++ [wrap 8 sym])
      else if sym =? 256 then mret out
      else
        read_length sym ≫= λ length_,
        decode_symbol dist ≫= λ dsym,
        read_distance dsym ≫= λ backd,
        if (backd =? 0)%nat || (length out <? backd)%nat then throw (Error BadBackref)
        else copy_back length_ (length out - backd) out ≫= huff_loop fuel' litlen dist
  end.

(** How many bits are left, which bounds the rounds of the loops. *)
Definition bits_left (br : BitReader) : nat :=
  (Z.to_nat (bits br) + 8 * (length (src br) - pos br))%nat.

Definition inflate_huff (out : list Z) (litlen dist : HuffTable) : R (list Z) := λ br,
  huff_loop (S (bits_left br)) litlen dist out br.

Fixpoint read_many (n : nat) (out : list Z) : R (list Z) :=
  match n with
  | O => mret out
  | S n' => read_byte ≫= λ b, read_many n' (out ++ [b])
  end.

Definition inflate_stored (out : list Z) : R (list Z) :=
  align_to_byte ≫= λ _,
  read_u16_le ≫= λ len,
  read_u16_le ≫= λ nlen,
  if Z.lxor len 0xFFFF =? nlen then read_many (Z.to_nat len) out
  else throw (Error (BadBlock "stored LEN/NLEN mismatch")).

(** ** Dynamic tables *)
Definition CL_ORDER : list nat :=
  [16; 17; 18; 0; 8; 7; 9; 6; 10; 5; 11; 4; 12; 3; 13; 2; 14; 1; 15]%nat.

Fixpoint read_cl (order : list nat) (cl : list nat) : R (list nat) :=
  match order with
  | [] => mret cl
  | k :: order' => read_bits 3 ≫= λ v, read_cl order' (<[k := Z.to_nat v]> cl)
  end.

(** [for _ in 0..n { if i >= total { return Err } lengths[i] = v; i += 1; }] *)
Fixpoint repeat_len (n v total i : nat) (lengths : list nat) : R (nat * list nat) :=
  match n with
  | O => mret (i, lengths)
  | S n' =>
      if (total <=? i)%nat then throw (Error (BadBlock "CL overflow"))
      else repeat_len n' v total (S i) (<[i := v]> lengths)
  end.

Fixpoint lengths_loop (fuel : nat) (cl : HuffTable) (total i : nat) (lengths : list nat)
    : R (list nat) :=
  if (total <=? i)%nat then mret lengths else
  match fuel with
  | O => throw OutOfFuel
  | S fuel' =>
      decode_symbol cl ≫= λ sym,
      if sym <=? 15 then lengths_loop fuel' cl total (S i) (<[i := Z.to_nat sym]> lengths)
      else if sym =? 16 then
        if (i =? 0)%nat then throw (Error (BadBlock "CL repeat with no prior")) else
        read_bits 2 ≫= λ v,
        at_index lengths (i - 1)%nat ≫= λ prev,
        repeat_len (Z.to_nat (v + 3)) prev total i lengths ≫= λ '(i, lengths),
        lengths_loop fuel' cl total i lengths
      else if sym =? 17 then
        read_bits 3 ≫= λ v,
        repeat_len (Z.to_nat (v + 3)) 0 total i lengths ≫= λ '(i, lengths),
        lengths_loop fuel' cl total i lengths
      else if sym =? 18 then
        read_bits 7 ≫= λ v,
        repeat_len (Z.to_nat (v + 11)) 0 total i lengths ≫= λ '(i, lengths),
        lengths_loop fuel' cl total i lengths
      else throw (Error (BadBlock "bad CL symbol"))
  end.

Definition read_dynamic_codes : R (HuffTable * HuffTable) :=
  read_bits 5 ≫= λ v1, let hlit := Z.to_nat (v1 + 257) in
  read_bits 5 ≫= λ v2, let hdist := Z.to_nat (v2 + 1) in
  read_bits 4 ≫= λ v3, let hclen := Z.to_nat (v3 + 4) in
  read_cl (take hclen CL_ORDER) (replicate 19 0%nat) ≫= λ cl_lengths,
  build cl_lengths ≫= λ cl_table,
  let total := (hlit + hdist)%nat in
  lengths_loop total cl_table total 0 (replicate total 0%nat) ≫= λ lengths,
  build (take hlit lengths) ≫= λ lit,
  build (drop hlit lengths) ≫= λ dist,
  mret (lit, dist).

(** ** The driver and the wrappers *)
Definition inflate_block (btype : Z) (out : list Z) : R (list Z) :=
  if btype =? 0 then inflate_stored out
  else if btype =? 1 then
    fixed_litlen ≫= λ lit, fixed_dist ≫= λ dist, inflate_huff out lit dist
  else if btype =? 2 then
    read_dynamic_codes ≫= λ '(lit, dist), inflate_huff out lit dist
  else throw (Error (BadBlock "reserved type")).

Fixpoint blocks_loop (fuel : nat) (out : list Z) : R (list Z) :=
  match fuel with
  | O => throw OutOfFuel
  | S fuel' =>
      read_bits 1 ≫= λ bfinal,
      read_bits 2 ≫= λ btype,
      inflate_block btype out ≫= λ out,
      if bfinal =? 1 then mret out else blocks_loop fuel' out
  end.

Definition inflate_blocks (out : list Z) : R (list Z) := λ br,
  blocks_loop (S (bits_left br)) out br.

Definition inflate (data : list Z) : result stop (list Z) := (inflate_blocks [] (new data)).1.

Definition inflate_zlib (data : list Z) : result stop (list Z) :=
  if (length data <? 6)%nat then Err (Error Truncated) else
  let cmf := nth 0 data 0 in
  let flg := nth 1 data 0 in
  if negb (Z.land cmf 0x0F =? 8) then Err (Error (BadHeader "zlib: not deflate"))
  else if negb ((cmf * 256 + flg) `mod` 31 =? 0) then
    Err (Error (BadHeader "zlib: bad FCHECK"))
  else if negb (Z.land flg 0x20 =? 0) then
    Err (Error (BadHeader "zlib: FDICT not supported"))
  else inflate (take (length data - 6) (drop 2 data)).

(** [while pos < data.len() && data[pos] != 0 { pos += 1; }] and the check after
    it; [rest] is the input from [pos] on. *)
Fixpoint skip_string (rest : list Z) (pos : nat) : result stop nat :=
  match rest with
  | [] => Err (Error Truncated)
  | b :: rest' => if b =? 0 then Ok (S pos) else skip_string rest' (S pos)
  end.

Definition gzip_extra (data : list Z) (flg : Z) (pos : nat) : result stop nat :=
  if Z.land flg 0x04 =? 0 then Ok pos else
  if (length data <? pos + 2)%nat then Err (Error Truncated) else
  let xlen := Z.to_nat (from_le_bytes [nth pos data 0; nth (S pos) data 0]) in
  if (length data <? pos + 2 + xlen)%nat then Err (Error Truncated)
  else Ok (pos + 2 + xlen)%nat.

Definition gzip_string (data : list Z) (flg mask : Z) (pos : nat) : result stop nat :=
  if Z.land flg mask =? 0 then Ok pos else skip_string (drop pos data) pos.

Definition gzip_hcrc (data : list Z) (flg : Z) (pos : nat) : result stop nat :=
  if Z.land flg 0x02 =? 0 then Ok pos else
  if (length data <? pos + 2)%nat then Err (Error Truncated) else Ok (pos + 2)%nat.

Definition and_then {A B} (r : result stop A) (k : A → result stop B) : result stop B :=
  match r with Ok a => k a | Err e => Err e end.

Definition inflate_gzip (data : list Z) : result stop (list Z) :=
  if (length data <? 18)%nat then Err (Error Truncated) else
  if negb (nth 0 data 0 =? 0x1F) || negb (nth 1 data 0 =? 0x8B) then
    Err (Error (BadHeader "gzip: bad magic"))
  else if negb (nth 2 data 0 =? 8) then Err (Error (BadHeader "gzip: not deflate"))
  else
    let flg := nth 3 data 0 in
    and_then (gzip_extra data flg 10) (λ pos,
    and_then (gzip_string data flg 0x08 pos) (λ pos,
    and_then (gzip_string data flg 0x10 pos) (λ pos,
    and_then (gzip_hcrc data flg pos) (λ pos,
    if (length data <? pos + 8)%nat then Err (Error Truncated)
    else inflate (take (length data - 8 - pos) (drop pos data)))))).
