(* ===== verification/InflateProofs.v ===== *)
(** * What the decompressor reads and produces

    The bit reader refines a list of bits; canonical codes decode to their
    symbols; every call returns; a stream written block by block comes back. *)

From S2P Require Import Prelude Bits Inflate.

(** ** Bits of numbers, least significant first *)
Fixpoint to_bits (n : nat) (v : Z) : list bool :=
  match n with O => [] | S n' => Z.odd v :: to_bits n' (v `div` 2) end.

Fixpoint of_bits (bs : list bool) : Z :=
  match bs with [] => 0 | b :: bs' => Z.b2z b + 2 * of_bits bs' end.

Lemma length_to_bits n v : length (to_bits n v) = n.
Proof. revert v. induction n; intros; simpl; auto. Qed.

Lemma to_bits_app m n v : to_bits (m + n) v = to_bits m v ++ to_bits n (v `div` 2 ^ Z.of_nat m).
Proof.
  revert v. induction m as [|m IH]; intros v; [cbn; by rewrite Z.div_1_r|].
  cbn [plus to_bits app]. f_equal. rewrite IH, Nat2Z.inj_succ, Z.pow_succ_r by lia.
  by rewrite Z.div_div by lia.
Qed.

Lemma to_bits_add m v k : to_bits m (v + 2 ^ Z.of_nat m * k) = to_bits m v.
Proof.
  revert v. induction m as [|m IH]; intros v; [done|].
  cbn [to_bits]. rewrite Nat2Z.inj_succ, Z.pow_succ_r by lia.
  replace (v + 2 * 2 ^ Z.of_nat m * k) with (v + (2 ^ Z.of_nat m * k) * 2) by lia.
  rewrite Z.div_add, IH by lia. f_equal.
  rewrite Z.odd_add, Z.odd_mul, andb_false_r. by destruct (Z.odd v).
Qed.

Lemma of_to_bits n v : of_bits (to_bits n v) = v `mod` 2 ^ Z.of_nat n.
Proof.
  revert v. induction n as [|n IH]; intros v; [cbn; by rewrite Z.mod_1_r|].
  cbn [to_bits of_bits]. rewrite IH, Nat2Z.inj_succ, Z.pow_succ_r by lia.
  rewrite Z.rem_mul_r by lia. f_equal. symmetry. apply Zmod_odd.
Qed.

Lemma of_bits_range bs : 0 ≤ of_bits bs < 2 ^ Z.of_nat (length bs).
Proof.
  induction bs as [|b bs IH]; [cbn; lia|].
  cbn [of_bits length]. rewrite Nat2Z.inj_succ, Z.pow_succ_r by lia. destruct b; cbn; lia.
Qed.

Lemma to_of_bits bs : to_bits (length bs) (of_bits bs) = bs.
Proof.
  induction bs as [|b bs IH]; [done|]. cbn [length of_bits to_bits].
  rewrite Z.odd_add, Z.odd_mul. f_equal; [by destruct b|].
  rewrite (Z.mul_comm 2), Z.div_add by lia.
  replace (Z.b2z b `div` 2) with 0 by (by destruct b). done.
Qed.

(** ** The reader refines a list of bits *)
Definition byte_bits (b : Z) : list bool := to_bits 8 b.

Definition unpack (data : list Z) : list bool := data ≫= byte_bits.

(** The bits still to come. *)
Definition stream (br : BitReader) : list bool :=
  to_bits (Z.to_nat (bits br)) (buf br) ++ unpack (drop (pos br) (src br)).

Record reader_ok (br : BitReader) : Prop := {
  rd_bytes : bytes_ok (src br);
  rd_pos : (pos br ≤ length (src br))%nat;
  rd_bits : 0 ≤ bits br < 8;
  rd_buf : 0 ≤ buf br < 2 ^ bits br
}.

Lemma length_unpack data : length (unpack data) = (8 * length data)%nat.
Proof.
  induction data as [|b data IH]; [done|].
  unfold unpack in *. cbn [mbind list_bind]. rewrite length_app, IH. unfold byte_bits.
  rewrite length_to_bits. cbn [length]. lia.
Qed.

Lemma length_stream br : length (stream br) = bits_left br.
Proof. unfold stream, bits_left. by rewrite length_app, length_to_bits, length_unpack, length_drop. Qed.

Lemma unpack_app a b : unpack (a ++ b) = unpack a ++ unpack b.
Proof. apply bind_app. Qed.

Lemma new_ok data : bytes_ok data → reader_ok (new data).
Proof. intros H. split; cbn; [done|lia..]. Qed.

Lemma stream_new data : stream (new data) = unpack data.
Proof. done. Qed.

Lemma unpack_drop data i b :
  data !! i = Some b → unpack (drop i data) = byte_bits b ++ unpack (drop (S i) data).
Proof. intros H. by rewrite (drop_S _ b) by done. Qed.

(** Filling the buffer moves bits from the input to the buffer. *)
Lemma refill_spec fuel n br :
  bytes_ok (src br) → (pos br ≤ length (src br))%nat → 0 ≤ n ≤ 24 →
  0 ≤ bits br → 0 ≤ buf br < 2 ^ bits br →
  (0 < fuel)%nat → n - bits br < Z.of_nat fuel → bits br < n + 8 →
  match refill fuel n br with
  | (Ok _, br') =>
      src br' = src br ∧ (pos br' ≤ length (src br))%nat ∧ n ≤ bits br' < n + 8
      ∧ 0 ≤ buf br' < 2 ^ bits br' ∧ stream br' = stream br
  | (Err e, br') => e = Error Truncated ∧ (length (stream br) < Z.to_nat n)%nat
  end.
Proof.
  revert br. induction fuel as [|fuel IH]; intros br Hs Hp Hn Hb Hbuf Hf0 Hf Hlt; [lia|].
  cbn [refill]. destruct (Z.ltb_spec (bits br) n); [|repeat split; try done; lia].
  destruct (src br !! pos br) as [b|] eqn:E.
  2:{ apply lookup_ge_None in E. split; [done|]. rewrite length_stream. unfold bits_left. lia. }
  pose proof (lookup_lt_Some _ _ _ E) as Hlen.
  assert (Hb8 : 0 ≤ b < 2 ^ 8) by (eapply (Forall_lookup_1 _ _ _ _ Hs E)).
  assert (Hp24 : 2 ^ bits br ≤ 2 ^ 24) by (apply Z.pow_le_mono_r; lia).
  assert (E' : Z.lor (buf br) (wrap 32 (Z.shiftl b (bits br))) = buf br + 2 ^ bits br * b).
  { rewrite Z.shiftl_mul_pow2 by lia. change (2 ^ 8) with 256 in Hb8.
    rewrite wrap_id by (unfold uN; nia). rewrite lor_disjoint by lia. lia. }
  rewrite E'.
  assert (Hpow : 2 ^ (bits br + 8) = 2 ^ bits br * 256) by (by rewrite Z.pow_add_r by lia).
  change (2 ^ 8) with 256 in Hb8.
  set (br1 := mkBitReader _ _ _ _).
  assert (Hst : stream br1 = stream br).
  { unfold stream, br1; cbn [src pos buf bits]. rewrite (unpack_drop _ (pos br) b) by done.
    rewrite app_assoc. f_equal.
    replace (Z.to_nat (bits br + 8)) with (Z.to_nat (bits br) + 8)%nat by lia.
    rewrite to_bits_app, Z2Nat.id, (Z.mul_comm (2 ^ _) b), Z.div_add, Z.div_small, Z.add_0_l by lia.
    f_equal. rewrite (Z.mul_comm b). rewrite <- (Z2Nat.id (bits br)) at 2 by lia. apply to_bits_add. }
  specialize (IH br1). cbn in IH. rewrite <- Hst. apply IH; try done; try lia; nia.
Qed.

Lemma land_mask v n : 0 ≤ n → Z.land v (Z.shiftl 1 n - 1) = v `mod` 2 ^ n.
Proof. intros. by rewrite Z.shiftl_1_l, Z.sub_1_r, <- Z.ones_equiv, Z.land_ones by lia. Qed.

(** [read_bits n] returns the first [n] bits, or fails if there are fewer. *)
Lemma read_bits_spec n br :
  reader_ok br → 0 ≤ n ≤ 24 →
  match read_bits n br with
  | (Ok v, br') =>
      reader_ok br' ∧ ∃ bs, stream br = bs ++ stream br' ∧ length bs = Z.to_nat n ∧ v = of_bits bs
  | (Err e, br') => e = Error Truncated ∧ (length (stream br) < Z.to_nat n)%nat
  end.
Proof.
  intros [Hs Hp Hb Hbuf] Hn. unfold read_bits, mbind, M_bind.
  pose proof (refill_spec (S (Z.to_nat n)) n br Hs Hp Hn ltac:(lia) Hbuf ltac:(lia) ltac:(lia)) as Hr.
  destruct (refill _ _ br) as [[u|e] br1]; [|apply Hr; lia].
  destruct Hr as (E & Hp1 & Hb1 & Hbuf1 & Hst); [lia|].
  cbn [take_bits]. rewrite Z.shiftr_div_pow2, land_mask by lia. split.
  - split; cbn [src pos buf bits]; [by rewrite E|by rewrite E|lia|].
    split; [apply Z.div_pos; lia|]. apply Z.div_lt_upper_bound; [lia|].
    rewrite <- Z.pow_add_r by lia. replace (n + (bits br1 - n)) with (bits br1) by lia. lia.
  - exists (to_bits (Z.to_nat n) (buf br1)). rewrite length_to_bits, of_to_bits, Z2Nat.id by lia.
    split; [|done]. rewrite <- Hst. unfold stream. cbn [src pos buf bits]. rewrite app_assoc. f_equal.
    replace (Z.to_nat (bits br1)) with (Z.to_nat n + Z.to_nat (bits br1 - n))%nat by lia.
    by rewrite to_bits_app, Z2Nat.id by lia.
Qed.

(** The reader at the front of a known bit string. *)
Lemma read_bits_app n br bs rest :
  reader_ok br → 0 ≤ n ≤ 24 → length bs = Z.to_nat n → stream br = bs ++ rest →
  ∃ br', read_bits n br = (Ok (of_bits bs), br') ∧ reader_ok br' ∧ stream br' = rest.
Proof.
  intros Hok Hn Hl Hst. pose proof (read_bits_spec n br Hok Hn) as Hr.
  destruct (read_bits n br) as [[v|e] br'].
  - destruct Hr as (Hok' & bs' & E & Hl' & ->). exists br'.
    rewrite Hst in E. apply app_inj_1 in E as [-> ->]; [done|lia].
  - destruct Hr as [_ Hr]. rewrite Hst, length_app in Hr. lia.
Qed.

(** ** Canonical codes

    The code of RFC 1951: symbols are ordered by code length and index, the first
    code of a length follows the last one of the shorter lengths. *)
Definition cnt (lengths : list nat) (l : nat) : nat :=
  length (filter (λ e : nat * nat, e.1 = l) (huff_entries lengths)).

Definition below (lengths : list nat) (l : nat) : nat :=
  length (filter (λ e : nat * nat, e.1 < l)%nat (huff_entries lengths)).

Definition rank (lengths : list nat) (l s : nat) : nat :=
  length (filter (λ e : nat * nat, e.1 = l ∧ e.2 < s)%nat (huff_entries lengths)).

Fixpoint first_of (lengths : list nat) (l : nat) : Z :=
  match l with
  | O => 0
  | S k => 2 * (first_of lengths k + Z.of_nat (cnt lengths k))
  end.

(** The code of symbol [s], most significant bit first. *)
Definition code_bits (lengths : list nat) (s : nat) : list bool :=
  match lengths !! s with
  | Some l => reverse (to_bits l (first_of lengths l + Z.of_nat (rank lengths l s)))
  | None => []
  end.

(** The codes of all lengths fit: the Kraft inequality. *)
Definition prefix_free (lengths : list nat) : Prop := first_of lengths 16 ≤ 2 ^ 16.

Definition lengths_ok (lengths : list nat) : Prop :=
  Forall (λ l, l ≤ 15)%nat lengths ∧ (length lengths ≤ 4096)%nat.

Lemma elem_of_huff_entries lengths l s :
  (l, s) ∈ huff_entries lengths ↔ lengths !! s = Some l ∧ (0 < l)%nat.
Proof.
  unfold huff_entries. rewrite list_elem_of_filter, elem_of_lookup_imap. cbn [fst]. naive_solver.
Qed.

Lemma huff_entries_NoDup lengths : NoDup (huff_entries lengths).
Proof.
  apply NoDup_filter, NoDup_alt. intros i j [l s]. rewrite !list_lookup_imap.
  destruct (lengths !! i), (lengths !! j); naive_solver.
Qed.

Lemma huff_entries_snoc lengths l :
  huff_entries (lengths ++ [l])
  = huff_entries lengths ++ (if bool_decide (0 < l)%nat then [(l, length lengths)] else []).
Proof.
  unfold huff_entries. rewrite imap_app, filter_app. f_equal. cbn [imap].
  rewrite filter_cons, Nat.add_0_r. cbn [fst]. case_bool_decide; by repeat case_decide.
Qed.

Lemma cnt_snoc lengths l k :
  cnt (lengths ++ [l]) k = (cnt lengths k + if bool_decide (0 < l ∧ l = k)%nat then 1 else 0)%nat.
Proof.
  unfold cnt. rewrite huff_entries_snoc, filter_app, length_app. f_equal.
  repeat case_bool_decide; try rewrite filter_cons; try case_decide; cbn in *; lia.
Qed.

Lemma cnt_le lengths l : (cnt lengths l ≤ length lengths)%nat.
Proof.
  unfold cnt, huff_entries. etrans; [apply length_filter|]. etrans; [apply length_filter|].
  by rewrite length_imap.
Qed.

Lemma below_S lengths l : below lengths (S l) = (below lengths l + cnt lengths l)%nat.
Proof.
  unfold below, cnt. induction (huff_entries lengths) as [|e es IH]; [done|].
  rewrite !filter_cons. repeat case_decide; cbn [length]; lia.
Qed.

Lemma bl_count_spec lengths l :
  (l < 16)%nat → length (bl_count lengths) = 16%nat ∧ bl_count lengths !! l = Some (Z.of_nat (cnt lengths l)).
Proof.
  intros Hl. unfold bl_count. induction lengths as [|x lengths [IH1 IH2]] using rev_ind.
  { split; [done|]. cbn -[replicate]. by apply lookup_replicate_2. }
  rewrite foldl_app. cbn [foldl]. rewrite cnt_snoc. set (c := foldl _ _ lengths) in *. unfold count_length.
  destruct (Nat.ltb_spec 0 x); cbn [andb].
  2:{ rewrite bool_decide_false by lia. by rewrite Nat.add_0_r. }
  destruct (Nat.ltb_spec x 16).
  2:{ rewrite bool_decide_false by lia. by rewrite Nat.add_0_r. }
  rewrite length_alter. split; [done|]. destruct (decide (x = l)) as [->|Hne].
  - rewrite list_lookup_alter_eq, IH2, bool_decide_true by lia. cbn. f_equal. lia.
  - rewrite list_lookup_alter_ne, IH2, bool_decide_false by lia. f_equal. lia.
Qed.

Lemma first_of_bound lengths l :
  0 ≤ first_of lengths l ≤ 2 ^ Z.of_nat l * Z.of_nat l * Z.of_nat (length lengths).
Proof.
  induction l as [|l IH]; [cbn; lia|].
  cbn [first_of]. pose proof (cnt_le lengths l). rewrite Nat2Z.inj_succ, Z.pow_succ_r by lia.
  assert (0 < 2 ^ Z.of_nat l) by lia. nia.
Qed.

Lemma next_code_spec lengths l :
  (length lengths ≤ 4096)%nat → (1 ≤ l ≤ 15)%nat →
  nth l (next_code (bl_count lengths)) 0 = first_of lengths l.
Proof.
  intros Hn Hl. unfold next_code.
  assert (H : ∀ k, (k ≤ 15)%nat →
    let st := foldl (next_code_step (bl_count lengths)) (0, replicate 16 0) (seq 1 k) in
    st.1 = first_of lengths k ∧ length st.2 = 16%nat
    ∧ ∀ j, (1 ≤ j ≤ k)%nat → st.2 !! j = Some (first_of lengths j)).
  { induction k as [|k IH]; intros Hk; [split; [done|split; [done|intros; lia]]|].
    destruct IH as (E1 & E2 & E3); [lia|]. rewrite seq_S, foldl_app. cbn [foldl].
    unfold next_code_step at 1 3 5. rewrite E1. cbn [fst snd].
    replace (1 + k - 1)%nat with k by lia.
    destruct (bl_count_spec lengths k) as [_ Ec]; [lia|]. rewrite (nth_lookup_Some _ _ _ _ Ec).
    rewrite Z.shiftl_mul_pow2, (Z.mul_comm _ (2 ^ 1)) by lia. change (2 ^ 1) with 2.
    pose proof (first_of_bound lengths (S k)) as Hb. cbn [first_of] in Hb.
    rewrite wrap_id.
    2:{ split; [lia|]. eapply Z.le_lt_trans; [apply Hb|].
        apply (Z.le_lt_trans _ (2 ^ 15 * 15 * 4096)); [|done].
        pose proof (Z.pow_le_mono_r 2 (Z.of_nat (S k)) 15 ltac:(lia) ltac:(lia)).
        apply Z.mul_le_mono_nonneg; [|nia|lia|lia]. lia. }
    split; [done|]. rewrite length_insert. split; [done|].
    intros j Hj. destruct (decide (j = S k)) as [->|].
    - by rewrite list_lookup_insert_eq by lia.
    - rewrite list_lookup_insert_ne by lia. apply E3. lia. }
  destruct (H 15%nat) as (_ & _ & E); [lia|]. apply nth_lookup_Some, E. lia.
Qed.

(** ** The decoding tables *)
#[export] Instance entry_le_total : Total entry_le.
Proof. intros [a b] [c d]. unfold entry_le. cbn. lia. Qed.

#[export] Instance entry_le_trans : Transitive entry_le.
Proof. intros [a b] [c d] [e f]. unfold entry_le. cbn. lia. Qed.

Lemma sorted_entries_perm lengths : sorted_entries lengths ≡ₚ huff_entries lengths.
Proof. apply merge_sort_Permutation. Qed.

Lemma sorted_entries_sorted lengths : StronglySorted entry_le (sorted_entries lengths).
Proof. apply (StronglySorted_merge_sort entry_le). Qed.

Lemma filter_none {A} (P : A → Prop) `{!∀ x, Decision (P x)} (l : list A) :
  (∀ x, x ∈ l → ¬ P x) → filter P l = [].
Proof.
  induction l as [|x l IH]; intros Hn; [done|].
  rewrite filter_cons, decide_False by (apply Hn; set_solver). apply IH. set_solver.
Qed.

(** In a sorted list without duplicates an element stands after those below it. *)
Lemma sorted_position (es : list (nat * nat)) x :
  StronglySorted entry_le es → NoDup es → x ∈ es →
  es !! length (filter (λ e : nat * nat, e.1 < x.1 ∨ e.1 = x.1 ∧ e.2 < x.2)%nat es) = Some x.
Proof.
  induction 1 as [|y es Hs IH Hy]; intros Hnd Hx; [by apply elem_of_nil in Hx|].
  rewrite Forall_forall in Hy. apply NoDup_cons in Hnd as [Hny Hnd].
  rewrite filter_cons. apply elem_of_cons in Hx as [->|Hx].
  - rewrite decide_False by lia.
    assert (E : filter (λ e : nat * nat, e.1 < y.1 ∨ e.1 = y.1 ∧ e.2 < y.2)%nat es = []).
    { apply filter_none. intros z Hz Hlt. specialize (Hy z Hz). unfold entry_le in Hy. lia. }
    by rewrite E.
  - specialize (Hy x Hx) as Hyx. rewrite decide_True; [cbn [length]; by apply IH|].
    unfold entry_le in Hyx. destruct (decide (x.1 = y.1 ∧ x.2 = y.2)); [|lia].
    exfalso. apply Hny. destruct x, y; naive_solver.
Qed.

Lemma filter_split_rank lengths l s :
  length (filter (λ e : nat * nat, e.1 < l ∨ e.1 = l ∧ e.2 < s)%nat (huff_entries lengths))
  = (below lengths l + rank lengths l s)%nat.
Proof.
  unfold below, rank. induction (huff_entries lengths) as [|e es IH]; [done|].
  rewrite !filter_cons. repeat case_decide; cbn [length]; lia.
Qed.

Lemma sorted_entries_lookup lengths l s :
  lengths !! s = Some l → (0 < l)%nat →
  sorted_entries lengths !! (below lengths l + rank lengths l s)%nat = Some (l, s).
Proof.
  intros Hs Hl. rewrite <- filter_split_rank.
  rewrite <- (sorted_entries_perm lengths) at 1.
  apply (sorted_position _ (l, s)); [apply sorted_entries_sorted|..];
    rewrite sorted_entries_perm; [apply huff_entries_NoDup|by apply elem_of_huff_entries].
Qed.

Lemma rank_lt lengths l s :
  lengths !! s = Some l → (0 < l)%nat → (rank lengths l s < cnt lengths l)%nat.
Proof.
  intros Hs Hl. assert (Hin : (l, s) ∈ huff_entries lengths) by by apply elem_of_huff_entries.
  unfold rank, cnt. revert Hin. generalize (huff_entries lengths). intros es Hin.
  assert (Hle : ∀ es' : list (nat * nat),
    (length (filter (λ e : nat * nat, e.1 = l ∧ e.2 < s)%nat es')
     ≤ length (filter (λ e : nat * nat, e.1 = l) es'))%nat).
  { induction es' as [|e es' IH]; [done|]. rewrite !filter_cons. repeat case_decide; cbn [length]; lia. }
  induction es as [|e es IH]; [by apply elem_of_nil in Hin|].
  rewrite !filter_cons. specialize (Hle es). apply elem_of_cons in Hin as [<-|Hin].
  - rewrite decide_False, decide_True by (cbn; lia). cbn [length]. lia.
  - specialize (IH Hin). repeat case_decide; cbn [length]; lia.
Qed.

(** The greatest length among [es], or [prev]. *)
Definition top (prev : nat) (es : list (nat * nat)) : nat := default prev (fst <$> last es).

Lemma top_cons prev e es : top prev (e :: es) = top e.1 es.
Proof. unfold top. rewrite last_cons. by destruct (last es). Qed.

Lemma top_ge prev es :
  StronglySorted entry_le es → Forall (λ e : nat * nat, prev ≤ e.1)%nat es →
  (prev ≤ top prev es)%nat ∧ Forall (λ e : nat * nat, e.1 ≤ top prev es)%nat es.
Proof.
  intros Hs. revert prev. induction Hs as [|e es Hs IH He]; intros prev Hp; [done|].
  rewrite top_cons. inv Hp. destruct (IH e.1) as [H1' H2'].
  { eapply Forall_impl; [apply He|]. unfold entry_le. cbn. lia. }
  split; [lia|]. by constructor.
Qed.

Lemma foldl_insert {A} (f : nat → A) m n (t : list A) j :
  (m + n ≤ length t)%nat →
  length (foldl (λ t k, <[k := f k]> t) t (seq m n)) = length t ∧
  foldl (λ t k, <[k := f k]> t) t (seq m n) !! j
  = if bool_decide (m ≤ j < m + n)%nat then Some (f j) else t !! j.
Proof.
  revert m t. induction n as [|n IH]; intros m t Hl.
  { cbn [seq foldl]. rewrite bool_decide_false by lia. done. }
  cbn [seq foldl]. destruct (IH (S m) (<[m := f m]> t)) as [E1 E2]; [rewrite length_insert; lia|].
  rewrite E1, E2, length_insert. split; [done|].
  destruct (decide (j = m)) as [->|].
  - rewrite bool_decide_false, bool_decide_true by lia. apply list_lookup_insert_eq. lia.
  - rewrite list_lookup_insert_ne by lia. repeat case_bool_decide; try done; lia.
Qed.

Definition count_below (l : nat) (es : list (nat * nat)) : nat :=
  length (filter (λ e : nat * nat, e.1 < l)%nat es).

(** The table loop gives every length up to the greatest one its first code and
    the position of its first symbol, and leaves the rest alone. *)
Lemma table_loop_spec next es st :
  StronglySorted entry_le es → Forall (λ e : nat * nat, ts_prev st ≤ e.1 ≤ 15)%nat es →
  length (ts_first st) = 16%nat → length (ts_offset st) = 16%nat →
  ∃ st', table_loop next es st = Returned st'
    ∧ length (ts_first st') = 16%nat ∧ length (ts_offset st') = 16%nat
    ∧ ∀ l, (ts_first st' !! l, ts_offset st' !! l)
           = if bool_decide (ts_prev st < l ≤ top (ts_prev st) es)%nat
             then (Some (nth l next 0), Some (ts_idx st + count_below l es)%nat)
             else (ts_first st !! l, ts_offset st !! l).
Proof.
  intros Hs. revert st. induction Hs as [|[l0 s0] es Hs IH He]; intros st Hp Hf Ho.
  { exists st. repeat split; try done. intros l. cbn. rewrite bool_decide_false by lia. done. }
  cbn [table_loop]. rewrite top_cons. cbn [fst]. inv Hp. cbn [fst] in *.
  assert (He' : Forall (λ e : nat * nat, l0 ≤ e.1 ≤ 15)%nat es).
  { rewrite Forall_forall in *. intros e Hin. specialize (He e Hin). unfold entry_le in He. cbn in He.
    specialize (H2 e Hin). lia. }
  assert (Hcb : ∀ l, (l ≤ l0)%nat → count_below l es = 0%nat).
  { intros l Hl. unfold count_below. rewrite filter_none; [done|].
    rewrite Forall_forall in He'. intros e Hin Hlt. specialize (He' e Hin). lia. }
  pose proof (top_ge l0 es Hs ltac:(eapply Forall_impl; [apply He'|]; cbn; lia)) as [Ht _].
  case_bool_decide as Hl0; [subst l0|].
  - destruct (IH (mkTableState (ts_prev st) (S (ts_idx st)) (ts_first st) (ts_offset st)))
      as (st' & E & E1 & E2 & E3); [done..|]. exists st'. repeat split; try done.
    intros l. rewrite E3. cbn [ts_prev ts_idx ts_first ts_offset].
    case_bool_decide; [|done]. unfold count_below. rewrite filter_cons, decide_True by (cbn; lia).
    cbn [length]. do 2 f_equal. lia.
  - rewrite (proj2 (Nat.ltb_ge 15 l0)) by lia. set (st0 := fill_tables next l0 st).
    destruct (foldl_insert (λ k, nth k next 0) (S (ts_prev st)) (l0 - ts_prev st) (ts_first st) 0) as [F1 _]; [lia|].
    destruct (foldl_insert (λ _, ts_idx st) (S (ts_prev st)) (l0 - ts_prev st) (ts_offset st) 0) as [G1 _]; [lia|].
    destruct (IH (mkTableState l0 (S (ts_idx st0)) (ts_first st0) (ts_offset st0)))
      as (st' & E & E1 & E2 & E3); [done|cbn; congruence|cbn; congruence|]. exists st'. repeat split; try done.
    intros l. rewrite E3. unfold st0, fill_tables. cbn [ts_prev ts_idx ts_first ts_offset].
    rewrite (proj2 (foldl_insert (λ k, nth k next 0) (S (ts_prev st)) (l0 - ts_prev st) (ts_first st) l ltac:(lia))).
    rewrite (proj2 (foldl_insert (λ _, ts_idx st) (S (ts_prev st)) (l0 - ts_prev st) (ts_offset st) l ltac:(lia))).
    destruct (decide (l ≤ ts_prev st ∨ top l0 es < l)%nat).
    { rewrite !bool_decide_false by lia. done. }
    rewrite (bool_decide_true (ts_prev st < l ≤ top l0 es)%nat) by lia.
    assert (Ec : (count_below l ((l0, s0) :: es)
      = (if decide (l0 < l)%nat then 1 else 0) + count_below l es)%nat).
    { unfold count_below. rewrite filter_cons. cbn [fst]. by case_decide. }
    rewrite Ec. destruct (decide (l ≤ l0)%nat).
    + rewrite (bool_decide_false (l0 < l ≤ _)%nat), bool_decide_true, decide_False, (Hcb l) by lia.
      do 2 f_equal. lia.
    + rewrite (bool_decide_true (l0 < l ≤ _)%nat), decide_True by lia. do 2 f_equal. lia.
Qed.

(** What [build_huff] computes. *)
Record table_ok (lengths : list nat) (t : HuffTable) : Prop := {
  tb_top : (max_len t ≤ 15)%nat;
  tb_max s l : lengths !! s = Some l → (l ≤ max_len t)%nat;
  tb_reached : (0 < max_len t)%nat → ∃ s, lengths !! s = Some (max_len t);
  tb_first l : (1 ≤ l ≤ max_len t)%nat → first_code t !! l = Some (first_of lengths l);
  tb_offset l : (1 ≤ l ≤ max_len t)%nat → sym_offset t !! l = Some (below lengths l);
  tb_beyond l : (max_len t < l ≤ 15)%nat → sym_offset t !! l = Some 0%nat;
  tb_syms : syms t = map (λ e, Z.of_nat e.2) (sorted_entries lengths)
}.

Lemma build_huff_spec lengths :
  lengths_ok lengths → ∃ t, build_huff lengths = Returned t ∧ table_ok lengths t.
Proof.
  intros [Hl Hn]. unfold build_huff.
  assert (Hle : Forall (λ e : nat * nat, 0 ≤ e.1 ≤ 15)%nat (sorted_entries lengths)).
  { apply Forall_forall. intros [l s]. rewrite sorted_entries_perm, elem_of_huff_entries.
    intros [Hs _]. apply (Forall_lookup_1 _ _ _ _ Hl) in Hs. cbn. lia. }
  pose proof (sorted_entries_sorted lengths) as Hsort.
  destruct (table_loop_spec (next_code (bl_count lengths)) (sorted_entries lengths)
    (mkTableState 0 0 (replicate 16 0) (replicate 16 0%nat))) as (st & -> & _ & _ & Hst); [done..|].
  eexists; split; [done|]. cbn [ts_prev ts_idx ts_first ts_offset] in Hst.
  fold (top 0 (sorted_entries lengths)).
  destruct (top_ge 0 (sorted_entries lengths)) as [_ Htop]; [done|eapply Forall_impl; [apply Hle|cbn; lia]|].
  rewrite Forall_forall in Htop, Hle.
  assert (Hlow : ∀ l, (1 ≤ l ≤ top 0 (sorted_entries lengths))%nat →
    ts_first st !! l = Some (nth l (next_code (bl_count lengths)) 0) ∧ ts_offset st !! l = Some (below lengths l)).
  { intros l Hb. specialize (Hst l). rewrite bool_decide_true in Hst by lia. simplify_eq. split; [done|].
    rewrite H0. cbn. unfold count_below, below. by rewrite sorted_entries_perm. }
  assert (Hreach : (0 < top 0 (sorted_entries lengths))%nat →
    ∃ s, (top 0 (sorted_entries lengths), s) ∈ sorted_entries lengths).
  { unfold top. destruct (last _) as [[l s]|] eqn:E; [|cbn; lia]. intros _. exists s.
    by apply last_Some_elem_of in E. }
  assert (H15 : (top 0 (sorted_entries lengths) ≤ 15)%nat).
  { destruct (decide (0 < top 0 (sorted_entries lengths))%nat) as [Hp|]; [|lia].
    destruct (Hreach Hp) as [s Hin]. apply Hle in Hin. cbn in Hin. lia. }
  split; cbn [max_len first_code sym_offset syms]; try done.
  - intros s l Hs. destruct (decide (l = 0)%nat); [lia|].
    apply (Htop (l, s)). rewrite sorted_entries_perm. apply elem_of_huff_entries. split; [done|lia].
  - intros Hp. destruct (Hreach Hp) as [s Hin]. exists s.
    apply (elem_of_Permutation_proper _ _ _ (sorted_entries_perm lengths)) in Hin.
    by apply elem_of_huff_entries in Hin as [? _].
  - intros l Hb. destruct (Hlow l Hb) as [-> _]. by rewrite next_code_spec by lia.
  - intros l Hb. apply (Hlow l Hb).
  - intros l Hb. specialize (Hst l). rewrite bool_decide_false in Hst by lia. simplify_eq.
    rewrite H0. apply lookup_replicate_2. lia.
Qed.

Lemma build_spec lengths br :
  lengths_ok lengths → ∃ t, build lengths br = (Ok t, br) ∧ table_ok lengths t.
Proof. intros H. unfold build. destruct (build_huff_spec lengths H) as (t & -> & Ht). by exists t. Qed.

(** ** Decoding a symbol *)

(** The number of codes of a length the decoder sees: none at the greatest
    length, unless that is 15. *)
Definition seen (lengths : list nat) (t : HuffTable) (l : nat) : nat :=
  if bool_decide (l < max_len t ∨ l = 15)%nat then cnt lengths l else 0%nat.

Lemma below_total lengths t :
  table_ok lengths t → below lengths (S (max_len t)) = length (syms t).
Proof.
  intros Ht. rewrite (tb_syms _ _ Ht), length_map, sorted_entries_perm. unfold below. f_equal.
  assert (H : Forall (λ e : nat * nat, e.1 < S (max_len t))%nat (huff_entries lengths)).
  { apply Forall_forall. intros [l s] [Hs _]%elem_of_huff_entries. apply (tb_max _ _ Ht) in Hs. cbn. lia. }
  induction H as [|e es He _ IH]; [done|]. rewrite filter_cons, decide_True by done. by rewrite IH.
Qed.

Lemma at_index_Some {A} (l : list A) i a br : l !! i = Some a → at_index l i br = (Ok a, br).
Proof. unfold at_index. by intros ->. Qed.

Lemma bind_ok {A B} (m : R A) (k : A → R B) br a br' :
  m br = (Ok a, br') → (m ≫= k) br = k a br'.
Proof. unfold mbind, M_bind. by intros ->. Qed.

Lemma code_count_spec lengths t l br :
  table_ok lengths t → (1 ≤ l ≤ max_len t)%nat →
  code_count t l br = (Ok (seen lengths t l), br).
Proof.
  intros Ht Hl. pose proof (tb_top _ _ Ht). unfold code_count.
  rewrite (bind_ok _ _ _ _ _ (at_index_Some _ _ _ _ (tb_offset _ _ Ht l Hl))). unfold seen.
  destruct (Nat.ltb_spec l 15).
  - destruct (decide (l = max_len t)) as [->|].
    + rewrite (bind_ok _ _ _ _ _ (at_index_Some _ _ _ _ (tb_beyond _ _ Ht (S (max_len t)) ltac:(lia)))).
      by rewrite bool_decide_false by lia.
    + rewrite (bind_ok _ _ _ _ _ (at_index_Some _ _ _ _ (tb_offset _ _ Ht (S l) ltac:(lia)))).
      rewrite bool_decide_true, below_S by lia. unfold mret, M_ret. do 2 f_equal. lia.
  - rewrite <- (below_total _ _ Ht), bool_decide_true by lia. unfold mret, M_ret.
    replace (max_len t) with l by lia. rewrite below_S. do 2 f_equal. lia.
Qed.

(** One round of the loop, on a bit that is there. *)
Lemma decode_step lengths t l ls code bit br br' :
  table_ok lengths t → (1 ≤ l ≤ max_len t)%nat → read_bits 1 br = (Ok bit, br') →
  let code' := Z.lor (wrap 32 (Z.shiftl code 1)) bit in
  decode_loop t (l :: ls) code br
  = if (first_of lengths l <=? code') && (code' <? first_of lengths l + Z.of_nat (seen lengths t l))
    then at_index (syms t) (below lengths l + Z.to_nat (code' - first_of lengths l))%nat br'
    else decode_loop t ls code' br'.
Proof.
  intros Ht Hl Hr code'. cbn [decode_loop]. rewrite (bind_ok _ _ _ _ _ Hr). fold code'.
  rewrite (bind_ok _ _ _ _ _ (at_index_Some _ _ _ _ (tb_first _ _ Ht l Hl))).
  rewrite (bind_ok _ _ _ _ _ (code_count_spec _ _ _ _ Ht Hl)).
  destruct (_ && _); [|done].
  by rewrite (bind_ok _ _ _ _ _ (at_index_Some _ _ _ _ (tb_offset _ _ Ht l Hl))).
Qed.

Lemma first_of_later lengths k d :
  2 ^ Z.of_nat d * (2 * (first_of lengths k + Z.of_nat (cnt lengths k))) ≤ first_of lengths (S d + k).
Proof.
  induction d as [|d IH]; [cbn [first_of plus]; lia|].
  rewrite Nat2Z.inj_succ, Z.pow_succ_r by lia. change (S (S d) + k)%nat with (S (S d + k)).
  cbn [first_of plus] in *. lia.
Qed.

(** Codes fit in their length. *)
Lemma prefix_free_fits lengths l :
  prefix_free lengths → (l ≤ 15)%nat → first_of lengths l + Z.of_nat (cnt lengths l) ≤ 2 ^ Z.of_nat l.
Proof.
  unfold prefix_free. intros Hp Hl. pose proof (first_of_later lengths l (15 - l)) as H.
  replace (S (15 - l) + l)%nat with 16%nat in H by lia.
  replace (2 ^ 16) with (2 ^ Z.of_nat (15 - l) * (2 * 2 ^ Z.of_nat l)) in Hp.
  2:{ rewrite <- Z.pow_succ_r, <- Z.pow_add_r by lia. f_equal. lia. }
  assert (0 < 2 ^ Z.of_nat (15 - l)) by lia. nia.
Qed.

Lemma seen_le lengths t l : (seen lengths t l ≤ cnt lengths l)%nat.
Proof. unfold seen. case_bool_decide; lia. Qed.

Lemma shift_in c b : 0 ≤ c < 2 ^ 31 → Z.lor (wrap 32 (Z.shiftl c 1)) (Z.b2z b) = 2 * c + Z.b2z b.
Proof.
  intros Hc. rewrite Z.shiftl_mul_pow2, wrap_id by (try split; lia).
  rewrite Z.lor_comm, lor_disjoint by (destruct b; cbn; lia). lia.
Qed.

Lemma half_odd c : 2 * (c `div` 2) + Z.b2z (Z.odd c) = c.
Proof. pose proof (Zmod_odd c). pose proof (Z.div_mod c 2). destruct (Z.odd c); cbn; lia. Qed.

Lemma decode_loop_code lengths t s l rest j br :
  table_ok lengths t → prefix_free lengths → lengths !! s = Some l → (0 < l)%nat →
  (l < max_len t ∨ l = 15)%nat → (S j ≤ l)%nat → reader_ok br →
  let C := first_of lengths l + Z.of_nat (rank lengths l s) in
  stream br = reverse (to_bits (S j) C) ++ rest →
  ∃ br', decode_loop t (seq (l - j) (max_len t - (l - S j))) (C `div` 2 ^ Z.of_nat (S j)) br
         = (Ok (Z.of_nat s), br') ∧ reader_ok br' ∧ stream br' = rest.
Proof.
  intros Ht Hpf Hs Hl Huse Hj Hok C. pose proof (tb_max _ _ Ht s l Hs) as Hmax. pose proof (tb_top _ _ Ht) as H15.
  pose proof (rank_lt _ _ _ Hs Hl) as Hr. pose proof (prefix_free_fits lengths l Hpf ltac:(lia)) as Hfit.
  pose proof (first_of_bound lengths l) as [Hfo _].
  assert (HC : 0 ≤ C < 2 ^ 15).
  { pose proof (Z.pow_le_mono_r 2 (Z.of_nat l) 15 ltac:(lia) ltac:(lia)). unfold C. lia. }
  revert br Hok Hj. induction j as [|j IH]; intros br Hok Hj Hst.
  all: rewrite <- Nat.add_1_r, to_bits_app, reverse_app in Hst; cbn [to_bits] in Hst.
  all: change (reverse [?b]) with [b] in Hst; rewrite <- app_assoc in Hst; cbn [app] in Hst.
  all: destruct (read_bits_app 1 br [Z.odd (C `div` 2 ^ Z.of_nat _)] _ Hok ltac:(lia) eq_refl Hst)
    as (br1 & E1 & Hok1 & Hst1).
  all: cbn [of_bits] in E1; rewrite Z.mul_0_r, Z.add_0_r in E1.
  - replace (max_len t - (l - 1))%nat with (S (max_len t - l)) by lia. cbn [seq].
    rewrite (decode_step _ _ (l - 0) _ _ _ _ _ Ht ltac:(lia) E1).
    rewrite shift_in by (split; [apply Z.div_pos|apply Z.div_lt_upper_bound]; cbn; lia).
    assert (Ec : 2 * (C `div` 2 ^ Z.of_nat 1) + Z.b2z (Z.odd (C `div` 2 ^ Z.of_nat 0)) = C).
    { change (2 ^ Z.of_nat 1) with 2. change (2 ^ Z.of_nat 0) with 1. rewrite Z.div_1_r. apply half_odd. }
    rewrite Ec, Nat.sub_0_r. unfold seen. rewrite bool_decide_true by lia. unfold C in *. zbool. cbn [andb].
    exists br1. split; [|by split].
    apply at_index_Some. rewrite (tb_syms _ _ Ht), list_lookup_fmap.
    replace (Z.to_nat _) with (rank lengths l s) by lia. by rewrite sorted_entries_lookup.
  - replace (max_len t - (l - S (S j)))%nat with (S (max_len t - (l - S j))) by lia. cbn [seq].
    rewrite (decode_step _ _ (l - S j) _ _ _ _ _ Ht ltac:(lia) E1).
    assert (Hdiv : C `div` 2 ^ Z.of_nat (S (S j)) = C `div` 2 ^ Z.of_nat (S j) `div` 2).
    { rewrite Z.div_div by lia. f_equal. rewrite (Nat2Z.inj_succ (S j)), Z.pow_succ_r by lia. lia. }
    set (c := C `div` 2 ^ Z.of_nat (S j)) in *.
    assert (Hc : 0 ≤ c ≤ C) by (split; [apply Z.div_pos|apply Z.div_le_upper_bound]; nia).
    rewrite Hdiv, shift_in by (Z.to_euclidean_division_equations; lia).
    rewrite half_odd.
    assert (Hge : first_of lengths (l - S j) + Z.of_nat (cnt lengths (l - S j)) ≤ c).
    { apply Z.div_le_lower_bound; [lia|]. pose proof (first_of_later lengths (l - S j) j) as Hlat.
      replace (S j + (l - S j))%nat with l in Hlat by lia.
      rewrite Nat2Z.inj_succ, Z.pow_succ_r by lia. unfold C. lia. }
    pose proof (seen_le lengths t (l - S j)).
    rewrite (proj2 (Z.ltb_ge c _)), andb_false_r by lia.
    replace (S (l - S j)) with (l - j)%nat by lia. apply IH; [done|lia|].
    exact Hst1.
Qed.

Lemma decode_symbol_code lengths t s l rest br :
  table_ok lengths t → prefix_free lengths → lengths !! s = Some l → (0 < l)%nat →
  (l < max_len t ∨ l = 15)%nat → reader_ok br → stream br = code_bits lengths s ++ rest →
  ∃ br', decode_symbol t br = (Ok (Z.of_nat s), br') ∧ reader_ok br' ∧ stream br' = rest.
Proof.
  intros Ht Hpf Hs Hl Huse Hok Hst. pose proof (tb_max _ _ Ht s l Hs) as Hmax.
  pose proof (tb_top _ _ Ht) as H15. unfold code_bits in Hst. rewrite Hs in Hst.
  pose proof (rank_lt _ _ _ Hs Hl) as Hr. pose proof (prefix_free_fits lengths l Hpf ltac:(lia)) as Hfit.
  pose proof (first_of_bound lengths l) as [Hfo _].
  unfold decode_symbol. rewrite (proj2 (Nat.eqb_neq _ _)) by lia.
  destruct l as [|j]; [lia|].
  destruct (decode_loop_code lengths t s (S j) rest j br) as (br' & E & H); try done.
  exists br'. split; [|done]. rewrite <- E. rewrite Z.div_small by lia.
  by replace (S j - j)%nat with 1%nat by lia; rewrite Nat.sub_diag, Nat.sub_0_r.
Qed.
