(* ===== verification/InflateSafety.v ===== *)
(** * The decompressor always returns

    Whatever the input bytes, [inflate] and its wrappers return a result or one of
    the errors of the code: no index fails, no loop runs out of fuel, and the
    output is at most 1032 times as long as the input. *)

From S2P Require Import Prelude Bits Inflate InflateProofs.

(** ** A logic for calls that may return an error but neither panic nor loop *)
Definition safe {A} (m : R A) (br : BitReader) (Q : A → BitReader → Prop) : Prop :=
  match m br with
  | (Ok a, br') => Q a br'
  | (Err (Error _), _) => True
  | (Err _, _) => False
  end.

Lemma safe_then {A B} (m : R A) (k : A → R B) br Q :
  safe m br (λ a br', safe (k a) br' Q) → safe (m ≫= k) br Q.
Proof. unfold safe, mbind, M_bind. destruct (m br) as [[a|[]] br']; done. Qed.

Lemma safe_return {A} (a : A) br (Q : A → BitReader → Prop) : Q a br → safe (mret a) br Q.
Proof. done. Qed.

Lemma safe_error {A} e br (Q : A → BitReader → Prop) : safe (throw (Error e)) br Q.
Proof. done. Qed.

Lemma safe_weaken {A} (m : R A) br (P Q : A → BitReader → Prop) :
  safe m br P → (∀ a br', P a br' → Q a br') → safe m br Q.
Proof. unfold safe. destruct (m br) as [[a|[]] br']; naive_solver. Qed.

Lemma safe_index {A} (l : list A) i br (Q : A → BitReader → Prop) :
  (i < length l)%nat → (∀ a, l !! i = Some a → Q a br) → safe (at_index l i) br Q.
Proof.
  intros Hi HQ. destruct (lookup_lt_is_Some_2 l i Hi) as [a Ha].
  unfold safe. rewrite (at_index_Some _ _ _ _ Ha). by apply HQ.
Qed.

#[export] Hint Resolve safe_return safe_error : smartos.

(** [br'] is a later state of the reader [br], at least [n] bits ahead. *)
Definition ahead (n : nat) (br br' : BitReader) : Prop :=
  reader_ok br' ∧ (bits_left br' + n ≤ bits_left br)%nat.

Lemma ahead_0 br : reader_ok br → ahead 0 br br.
Proof. intros H. split; [done|lia]. Qed.

Lemma ahead_trans m n k br br1 br2 :
  ahead m br br1 → ahead n br1 br2 → (k ≤ m + n)%nat → ahead k br br2.
Proof. intros [_ H1] [H2 H3] Hk. split; [done|lia]. Qed.

Lemma safe_read_bits n br :
  reader_ok br → 0 ≤ n ≤ 24 →
  safe (read_bits n) br (λ v br', ahead (Z.to_nat n) br br' ∧ 0 ≤ v < 2 ^ n).
Proof.
  intros Hok Hn. pose proof (read_bits_spec n br Hok Hn) as H. unfold safe.
  destruct (read_bits n br) as [[v|e] br']; [|by destruct H as [-> _]].
  destruct H as (Hok' & bs & E & Hl & ->). pose proof (of_bits_range bs) as Hv.
  rewrite Hl, Z2Nat.id in Hv by lia. split; [|done]. split; [done|].
  rewrite <- !length_stream, E, length_app. lia.
Qed.

Lemma safe_byte br :
  reader_ok br → safe read_byte br (λ v br', ahead 8 br br' ∧ is_byte v).
Proof.
  intros Hok. apply safe_then. eapply safe_weaken; [apply safe_read_bits; [done|lia]|].
  intros v br' [Ha Hv]. apply safe_return. split; [done|]. by apply wrap_range.
Qed.

Lemma safe_read_u16 br :
  reader_ok br → safe read_u16_le br (λ v br', ahead 16 br br').
Proof.
  intros Hok. apply safe_then. eapply safe_weaken; [by apply safe_byte|].
  intros lo br1 [H1 _]. apply safe_then. eapply safe_weaken; [apply safe_byte, H1|].
  intros hi br2 [H2 _]. apply safe_return. eapply ahead_trans; [done..|lia].
Qed.

Lemma safe_align br : reader_ok br → safe align_to_byte br (λ _ br', ahead 0 br br').
Proof.
  intros [Hs Hp Hb Hbuf]. unfold align_to_byte, safe.
  change 7 with (Z.ones 3). rewrite Z.land_ones, Z.mod_small by (cbn; lia).
  destruct (Z.ltb_spec 0 (bits br)); [|split; [by split|lia]].
  split.
  - split; cbn [src pos buf bits]; [done..|lia|]. rewrite Z.sub_diag, Z.shiftr_div_pow2 by lia.
    rewrite Z.div_small by lia. lia.
  - unfold bits_left. cbn [src pos buf bits]. lia.
Qed.

(** ** Symbols *)
Lemma below_le lengths t l : table_ok lengths t → (below lengths l ≤ length (syms t))%nat.
Proof.
  intros Ht. rewrite (tb_syms _ _ Ht), length_map, sorted_entries_perm. apply length_filter.
Qed.

Lemma syms_lookup lengths t i v :
  table_ok lengths t → syms t !! i = Some v →
  ∃ s l, v = Z.of_nat s ∧ lengths !! s = Some l ∧ (0 < l)%nat.
Proof.
  intros Ht. rewrite (tb_syms _ _ Ht), list_lookup_fmap. intros ([l s] & E & ->)%fmap_Some.
  exists s, l. split; [done|]. apply list_elem_of_lookup_2 in E.
  apply (elem_of_Permutation_proper _ _ _ (sorted_entries_perm lengths)) in E.
  by apply elem_of_huff_entries.
Qed.

Lemma safe_decode_loop lengths t k i code br :
  table_ok lengths t → (1 ≤ i)%nat → (i + k ≤ S (max_len t))%nat → reader_ok br → 
  safe (decode_loop t (seq i k) code) br
    (λ v br', ahead 1 br br' ∧ ∃ s l, v = Z.of_nat s ∧ lengths !! s = Some l ∧ (0 < l)%nat).
Proof.
  intros Ht. revert i code br. induction k as [|k IH]; intros i code br Hi Hk Hok; [done|].
  cbn [seq]. pose proof (safe_read_bits 1 br Hok ltac:(lia)) as Hr. unfold safe in Hr |- *.
  destruct (read_bits 1 br) as [[bit|[]] br1] eqn:E1; try done.
  - destruct Hr as [[Hok1 Hb1] _].
    rewrite (decode_step _ _ i _ _ _ _ _ Ht ltac:(lia) E1). set (code' := Z.lor _ bit).
    destruct (Z.leb_spec (first_of lengths i) code'); cbn [andb]; [destruct (Z.ltb_spec code' (first_of lengths i + Z.of_nat (seen lengths t i)))|].
    2,3: apply (safe_weaken _ br1 _ _ (IH (S i) code' br1 ltac:(lia) ltac:(lia) Hok1));
      intros v br' [H1 H2]; split; [eapply ahead_trans; [by split|done|lia]|done].
    pose proof (below_le lengths t (S i) Ht) as Hle. rewrite below_S in Hle. pose proof (seen_le lengths t i).
    apply safe_index; [lia|]. intros v Hv. split; [by split|]. by eapply syms_lookup.
  - cbn [decode_loop]. unfold mbind, M_bind. by rewrite E1.
Qed.

Lemma safe_decode_symbol lengths t br :
  table_ok lengths t → reader_ok br →
  safe (decode_symbol t) br
    (λ v br', ahead 1 br br' ∧ ∃ s l, v = Z.of_nat s ∧ lengths !! s = Some l ∧ (0 < l)%nat).
Proof.
  intros Ht Hok. unfold decode_symbol. destruct (_ =? _)%nat; [done|].
  apply safe_decode_loop; [done|lia..|done].
Qed.

Lemma safe_build lengths br :
  lengths_ok lengths → reader_ok br → safe (build lengths) br (λ t br', br' = br ∧ table_ok lengths t).
Proof. intros H Hok. unfold safe. destruct (build_spec lengths br H) as (t & -> & Ht). done. Qed.

(** ** Blocks *)

(** Reading from [br] to [br'] turns the output [out] into [out'], with at most
    129 bytes for every bit read. *)
Record produced (out : list Z) (br : BitReader) (out' : list Z) (br' : BitReader) : Prop := {
  pr_reader : reader_ok br';
  pr_bytes : bytes_ok out';
  pr_bits : (bits_left br' ≤ bits_left br)%nat;
  pr_length : (length out' + 129 * bits_left br' ≤ length out + 129 * bits_left br)%nat
}.

Lemma produced_trans out br out1 br1 out2 br2 :
  produced out br out1 br1 → produced out1 br1 out2 br2 → produced out br out2 br2.
Proof. intros [? ? ? ?] [? ? ? ?]. split; (done || lia). Qed.

Lemma produced_ahead n out br br1 out' br' :
  ahead n br br1 → produced out br1 out' br' → produced out br out' br'.
Proof. intros [? ?] [? ? ? ?]. split; (done || lia). Qed.

Lemma extra_table (bases extras : list Z) m :
  forallb (λ p : Z * Z, (0 <=? p.2) && (p.2 <=? 13) && (0 <=? p.1) && (p.1 + 2 ^ p.2 - 1 <=? m))
    (zip bases extras) = true →
  ∀ i b e, bases !! i = Some b → extras !! i = Some e →
  0 ≤ e ≤ 13 ∧ 0 ≤ b ∧ b + 2 ^ e - 1 ≤ m.
Proof.
  rewrite List.forallb_forall. intros H i b e Hb He.
  assert (Hz : In (b, e) (zip bases extras)).
  { apply list_elem_of_In, (list_elem_of_lookup_2 _ i), lookup_zip_with_Some. eauto. }
  specialize (H _ Hz). cbn [fst snd] in H. rewrite !andb_true_iff, !Z.leb_le in H. lia.
Qed.

Lemma safe_read_extra b e m br :
  reader_ok br → 0 ≤ e ≤ 13 → 0 ≤ b → b + 2 ^ e - 1 ≤ m →
  safe (read_extra b e) br (λ n br', ahead 0 br br' ∧ Z.of_nat n ≤ m).
Proof.
  intros Hok He Hb Hm. apply safe_then. destruct (Z.ltb_spec 0 e).
  - eapply safe_weaken; [apply safe_read_bits; [done|lia]|]. intros v br' [[Hok' Hl] Hv].
    apply safe_return. split; [split; [done|lia]|lia].
  - assert (e = 0) as -> by lia. apply safe_return, safe_return. split; [by apply ahead_0|lia].
Qed.

Lemma safe_read_length sym br :
  reader_ok br → safe (read_length sym) br (λ n br', ahead 0 br br' ∧ (n ≤ 258)%nat).
Proof.
  intros Hok. unfold read_length. destruct (Nat.leb_spec 29 (Z.to_nat (sym - 257))); [done|].
  apply safe_then, safe_index; [cbn; lia|]. intros e He.
  apply safe_then, safe_index; [cbn; lia|]. intros b Hb.
  destruct (extra_table LEN_BASE LEN_EXTRA 258 eq_refl _ b e Hb He) as (H1 & H2 & H3).
  eapply safe_weaken; [by apply (safe_read_extra b e 258)|]. intros n br' [Ha Hn]. split; [done|lia].
Qed.

Lemma safe_read_distance sym br :
  reader_ok br → safe (read_distance sym) br (λ _ br', ahead 0 br br').
Proof.
  intros Hok. unfold read_distance. destruct (Nat.leb_spec 30 (Z.to_nat sym)); [done|].
  apply safe_then, safe_index; [cbn; lia|]. intros e He.
  apply safe_then, safe_index; [cbn; lia|]. intros b Hb.
  destruct (extra_table DIST_BASE DIST_EXTRA 32768 eq_refl _ b e Hb He) as (H1 & H2 & H3).
  eapply safe_weaken; [by apply (safe_read_extra b e 32768)|]. by intros n br' [Ha _].
Qed.

Lemma safe_copy_back n start out br :
  (start < length out)%nat → bytes_ok out →
  safe (copy_back n start out) br
    (λ out' br', br' = br ∧ bytes_ok out' ∧ length out' = (length out + n)%nat).
Proof.
  revert start out. induction n as [|n IH]; intros start out Hs Hok.
  { apply safe_return. by rewrite Nat.add_0_r. }
  cbn [copy_back]. apply safe_then, safe_index; [done|]. intros b Hb.
  eapply safe_weaken; [apply IH|].
  - rewrite length_app. cbn. lia.
  - apply Forall_app. split; [done|]. constructor; [by apply (Forall_lookup_1 _ _ _ _ Hok Hb)|done].
  - cbn beta. intros out' br' (-> & H1 & H2). rewrite length_app in H2. cbn in H2. split; [done|].
    split; [done|lia].
Qed.

Lemma safe_huff_loop lengths dlengths lit dist fuel out br :
  table_ok lengths lit → table_ok dlengths dist →
  reader_ok br → bytes_ok out → (bits_left br < fuel)%nat →
  safe (huff_loop fuel lit dist out) br (produced out br).
Proof.
  intros Hl Hd. revert out br. induction fuel as [|fuel IH]; intros out br Hok Ho Hf; [lia|].
  cbn [huff_loop]. apply safe_then. eapply safe_weaken; [by apply (safe_decode_symbol lengths)|].
  intros sym br1 [[Hok1 Hb1] _]. destruct (Z.ltb_spec sym 256).
  { eapply safe_weaken; [apply IH; [done| |lia]|].
    - apply Forall_app. split; [done|]. constructor; [by apply wrap_range|done].
    - intros out' br' [H1 H2 H3 H4]. rewrite length_app in H4. cbn in H4. split; (done || lia). }
  destruct (Z.eqb_spec sym 256); [apply safe_return; split; (done || lia)|].
  apply safe_then. eapply safe_weaken; [by apply safe_read_length|]. intros len br2 [[Hok2 Hb2] Hlen].
  apply safe_then. eapply safe_weaken; [by apply (safe_decode_symbol dlengths)|].
  intros dsym br3 [[Hok3 Hb3] _].
  apply safe_then. eapply safe_weaken; [by apply safe_read_distance|]. intros backd br4 [Hok4 Hb4].
  destruct (Nat.eqb_spec backd 0); [done|]. destruct (Nat.ltb_spec (length out) backd); [done|]. cbn [orb].
  apply safe_then. eapply safe_weaken; [apply safe_copy_back; [lia|done]|].
  intros out5 br5 (-> & Ho5 & Hlen5).
  eapply safe_weaken; [apply IH; [done|done|lia]|].
  intros out' br' [H1 H2 H3 H4]. split; (done || lia).
Qed.

Lemma safe_inflate_huff lengths dlengths lit dist out br :
  table_ok lengths lit → table_ok dlengths dist → reader_ok br → bytes_ok out →
  safe (inflate_huff out lit dist) br (produced out br).
Proof. intros. unfold inflate_huff, safe. by apply (safe_huff_loop lengths dlengths); [..|lia]. Qed.

Lemma safe_read_many n out br :
  reader_ok br → bytes_ok out → safe (read_many n out) br (produced out br).
Proof.
  revert out br. induction n as [|n IH]; intros out br Hok Ho; [apply safe_return; by split|].
  cbn [read_many]. apply safe_then. eapply safe_weaken; [by apply safe_byte|].
  intros b br1 [[Hok1 Hb1] Hb]. eapply safe_weaken; [apply IH; [done|apply Forall_app; split; [done|by constructor]]|].
  intros out' br' [H1 H2 H3 H4]. rewrite length_app in H4. cbn in H4. split; (done || lia).
Qed.

Lemma safe_inflate_stored out br :
  reader_ok br → bytes_ok out → safe (inflate_stored out) br (produced out br).
Proof.
  intros Hok Ho. apply safe_then. eapply safe_weaken; [by apply safe_align|]. intros u br1 Ha1.
  apply safe_then. eapply safe_weaken; [apply safe_read_u16, Ha1|]. intros len br2 Ha2.
  apply safe_then. eapply safe_weaken; [apply safe_read_u16, Ha2|]. intros nlen br3 Ha3.
  destruct (_ =? _); [|done]. eapply safe_weaken; [apply safe_read_many; [apply Ha3|done]|].
  intros out' br' Hp. eapply produced_ahead; [exact Ha1|]. eapply produced_ahead; [exact Ha2|].
  eapply produced_ahead; [exact Ha3|exact Hp].
Qed.

(** ** Dynamic tables *)
Lemma safe_read_cl order cl br :
  reader_ok br → Forall (λ l, l ≤ 15)%nat cl →
  safe (read_cl order cl) br
    (λ cl' br', ahead 0 br br' ∧ Forall (λ l, l ≤ 15)%nat cl' ∧ length cl' = length cl).
Proof.
  revert cl br. induction order as [|k order IH]; intros cl br Hok Hcl.
  { apply safe_return. split; [by apply ahead_0|done]. }
  cbn [read_cl]. apply safe_then. eapply safe_weaken; [apply safe_read_bits; [done|lia]|].
  intros v br1 [Ha Hv]. eapply safe_weaken; [apply IH; [apply Ha|]|].
  - apply Forall_insert; [done|]. change (2 ^ 3) with 8 in Hv. lia.
  - cbn beta. intros cl' br' (H1 & H2 & H3). rewrite length_insert in H3.
    split; [eapply ahead_trans; [done..|lia]|done].
Qed.

Lemma safe_repeat_len n v total i lengths br :
  (v ≤ 15)%nat → Forall (λ l, l ≤ 15)%nat lengths → length lengths = total →
  safe (repeat_len n v total i lengths) br
    (λ r br', br' = br ∧ r.1 = (i + n)%nat ∧ Forall (λ l, l ≤ 15)%nat r.2 ∧ length r.2 = total).
Proof.
  intros Hv. revert i lengths. induction n as [|n IH]; intros i lengths Hl Ht.
  { apply safe_return. by rewrite Nat.add_0_r. }
  cbn [repeat_len]. destruct (total <=? i)%nat; [done|].
  eapply safe_weaken; [apply IH; [by apply Forall_insert|by rewrite length_insert]|].
  cbn beta. intros r br' (-> & H1 & H2). split; [done|]. split; [lia|done].
Qed.

Lemma safe_lengths_loop clens cl fuel total i lengths br :
  table_ok clens cl → reader_ok br →
  Forall (λ l, l ≤ 15)%nat lengths → length lengths = total → (total ≤ i + fuel)%nat →
  safe (lengths_loop fuel cl total i lengths) br
    (λ ls br', ahead 0 br br' ∧ Forall (λ l, l ≤ 15)%nat ls ∧ length ls = total).
Proof.
  intros Hc. revert i lengths br. induction fuel as [|fuel IH]; intros i lengths br Hok Hl Ht Hf.
  all: cbn [lengths_loop]; destruct (Nat.leb_spec total i);
    [apply safe_return; split; [by apply ahead_0|done]|].
  { lia. }
  assert (Hrep : ∀ n v br1, (0 < n)%nat → (v ≤ 15)%nat → ahead 0 br br1 →
    safe (repeat_len n v total i lengths ≫= λ '(i, lengths), lengths_loop fuel cl total i lengths) br1
      (λ ls br', ahead 0 br br' ∧ Forall (λ l, l ≤ 15)%nat ls ∧ length ls = total)).
  { intros n v br1 Hn Hv Ha. apply safe_then. eapply safe_weaken; [by apply safe_repeat_len|].
    intros [i' ls] br' (-> & E & H1 & H2). cbn [fst snd] in *.
    eapply safe_weaken; [apply IH; [apply Ha|done|done|lia]|].
    cbn beta. intros ls' br' (H3 & H4). split; [eapply ahead_trans; [done..|lia]|done]. }
  apply safe_then. eapply safe_weaken; [by apply (safe_decode_symbol clens)|].
  intros sym br1 [Ha1 (s & l & -> & Hs & _)].
  destruct (Z.leb_spec (Z.of_nat s) 15).
  { eapply safe_weaken; [apply IH; [apply Ha1|apply Forall_insert; [done|lia]|by rewrite length_insert|lia]|].
    cbn beta. intros ls br' (H1 & H2). split; [eapply ahead_trans; [done..|lia]|done]. }
  assert (Hrb : ∀ w, 0 ≤ w ≤ 24 → safe (read_bits w) br1 (λ v br2, ahead 0 br br2 ∧ 0 ≤ v)).
  { intros w Hw. eapply safe_weaken; [apply safe_read_bits; [apply Ha1|done]|].
    cbn beta. intros v br2 [Ha2 Hv]. split; [eapply ahead_trans; [done..|lia]|lia]. }
  destruct (Z.eqb_spec (Z.of_nat s) 16).
  { destruct (Nat.eqb_spec i 0); [done|]. apply safe_then. eapply safe_weaken; [apply Hrb; lia|].
    intros v br2 [Ha2 Hv]. apply safe_then, safe_index; [lia|]. intros prev Hprev.
    apply Hrep; [lia| |done]. by apply (Forall_lookup_1 _ _ _ _ Hl Hprev). }
  destruct (Z.eqb_spec (Z.of_nat s) 17); [|destruct (Z.eqb_spec (Z.of_nat s) 18); [|done]].
  all: apply safe_then; eapply safe_weaken; [apply Hrb; lia|]; intros v br2 [Ha2 Hv]; apply Hrep; [lia|lia|done].
Qed.

Lemma safe_read_dynamic br :
  reader_ok br →
  safe read_dynamic_codes br (λ p br', ahead 0 br br' ∧ ∃ ll dl, table_ok ll p.1 ∧ table_ok dl p.2).
Proof.
  intros Hok. unfold read_dynamic_codes.
  apply safe_then. eapply safe_weaken; [by apply safe_read_bits|]. intros v1 br1 [[Hok1 Hb1] Hv1].
  apply safe_then. eapply safe_weaken; [by apply safe_read_bits|]. intros v2 br2 [[Hok2 Hb2] Hv2].
  apply safe_then. eapply safe_weaken; [by apply safe_read_bits|]. intros v3 br3 [[Hok3 Hb3] Hv3].
  change (2 ^ 5) with 32 in *. change (2 ^ 4) with 16 in *.
  set (hlit := Z.to_nat (v1 + 257)). set (total := (hlit + Z.to_nat (v2 + 1))%nat).
  assert (Ht : (total ≤ 320)%nat) by (unfold total, hlit; lia).
  apply safe_then. eapply safe_weaken; [apply safe_read_cl; [done|by apply Forall_replicate, Nat.le_0_l]|].
  intros cl br4 ([Hok4 Hb4] & Hcl & Hcll). rewrite length_replicate in Hcll.
  apply safe_then. eapply safe_weaken; [apply safe_build; [split; [done|lia]|done]|]. intros clt br5 [-> Hclt].
  apply safe_then. eapply safe_weaken.
  { apply (safe_lengths_loop cl); [done..|by apply Forall_replicate, Nat.le_0_l|by rewrite length_replicate|lia]. }
  intros ls br6 ([Hok6 Hb6] & Hls & Hlsl).
  apply safe_then. eapply safe_weaken; [apply safe_build; [split; [by apply Forall_take|rewrite length_take; lia]|done]|].
  intros lit br7 [-> Hlit].
  apply safe_then. eapply safe_weaken; [apply safe_build; [split; [by apply Forall_drop|rewrite length_drop; lia]|done]|].
  intros dist br8 [-> Hdist]. apply safe_return. split; [split; [done|lia]|by eexists _, _].
Qed.

Lemma fixed_ok :
  lengths_ok (replicate 144 8 ++ replicate 112 9 ++ replicate 24 7 ++ replicate 8 8)%nat
  ∧ lengths_ok (replicate 30 5%nat).
Proof.
  unfold lengths_ok. rewrite !Forall_app, !length_app, !length_replicate.
  repeat split; try apply Forall_replicate; lia.
Qed.

Lemma safe_inflate_block btype out br :
  reader_ok br → bytes_ok out → safe (inflate_block btype out) br (produced out br).
Proof.
  intros Hok Ho. unfold inflate_block. destruct fixed_ok as [F1 F2].
  destruct (btype =? 0); [by apply safe_inflate_stored|]. destruct (btype =? 1).
  { apply safe_then. eapply safe_weaken; [by apply safe_build|]. intros lit br1 [-> Hlit].
    apply safe_then. eapply safe_weaken; [by apply safe_build|]. intros dist br2 [-> Hdist].
    by eapply safe_inflate_huff. }
  destruct (btype =? 2); [|done].
  apply safe_then. eapply safe_weaken; [by apply safe_read_dynamic|].
  intros [lit dist] br1 (Ha & ll & dl & Hlit & Hdist). cbn [fst snd] in *.
  eapply safe_weaken; [by eapply safe_inflate_huff; [..|apply Ha|]|].
  intros out' br'. by apply produced_ahead with 0%nat.
Qed.

Lemma safe_blocks_loop fuel out br :
  reader_ok br → bytes_ok out → (bits_left br < fuel)%nat →
  safe (blocks_loop fuel out) br (produced out br).
Proof.
  revert out br. induction fuel as [|fuel IH]; intros out br Hok Ho Hf; [lia|].
  cbn [blocks_loop]. apply safe_then. eapply safe_weaken; [by apply safe_read_bits|]. intros fin br1 [Ha1 _].
  apply safe_then. eapply safe_weaken; [apply safe_read_bits; [apply Ha1|done]|]. intros ty br2 [Ha2 _].
  apply safe_then. eapply safe_weaken; [apply safe_inflate_block; [apply Ha2|done]|]. intros out3 br3 H3.
  assert (H03 : produced out br out3 br3) by (do 2 (eapply produced_ahead; [eassumption|]); done).
  destruct (fin =? 1); [by apply safe_return|].
  assert (bits_left br3 < bits_left br)%nat.
  { destruct Ha1 as [_ H1]. destruct Ha2 as [_ H2]. destruct H3 as [_ _ H3 _]. cbn in H1, H2. lia. }
  eapply safe_weaken; [apply IH; [apply H03|apply H03|lia]|]. intros out' br'. by apply produced_trans.
Qed.

(** A wrapper's answer is fine when it is an error of the code or bytes of bounded
    number. *)
Definition answer_ok (n : nat) (r : result stop (list Z)) : Prop :=
  match r with
  | Ok out => bytes_ok out ∧ (length out ≤ 1032 * n)%nat
  | Err (Error _) => True
  | Err _ => False
  end.

Lemma inflate_answer data : bytes_ok data → answer_ok (length data) (inflate data).
Proof.
  intros Hd. unfold inflate, inflate_blocks.
  pose proof (safe_blocks_loop (S (bits_left (new data))) [] (new data) (new_ok _ Hd) ltac:(done) ltac:(lia)) as H.
  unfold safe in H. destruct (blocks_loop _ _ _) as [[out|[]] br]; try done.
  destruct H as [_ Ho _ Hl]. split; [done|]. unfold bits_left at 2 in Hl. cbn in Hl. lia.
Qed.

Lemma inflate_part data n m : bytes_ok data → answer_ok (length data) (inflate (take n (drop m data))).
Proof.
  intros Hd. pose proof (inflate_answer (take n (drop m data)) ltac:(by apply Forall_take, Forall_drop)) as H.
  unfold answer_ok in *. destruct (inflate _) as [out|]; [|done]. destruct H as [H1 H2]. split; [done|].
  rewrite length_take, length_drop in H2. lia.
Qed.

Lemma and_then_ok {A} n (r : result stop A) k :
  (∀ e, r = Err e → ∃ e', e = Error e') → (∀ a, answer_ok n (k a)) → answer_ok n (and_then r k).
Proof. destruct r as [a|e]; intros He Hk; [apply Hk|]. destruct (He e eq_refl) as [e' ->]. done. Qed.

Lemma skip_string_error rest pos e : skip_string rest pos = Err e → ∃ e', e = Error e'.
Proof.
  revert pos. induction rest as [|b rest IH]; cbn; intros pos; [intros [= <-]; eauto|].
  case_bool; [done|apply IH].
Qed.

Lemma gzip_field_error data flg mask pos e :
  gzip_extra data flg pos = Err e ∨ gzip_string data flg mask pos = Err e
  ∨ gzip_hcrc data flg pos = Err e → ∃ e', e = Error e'.
Proof.
  unfold gzip_extra, gzip_string, gzip_hcrc. intros [H|[H|H]].
  - repeat case_match; simplify_eq; eauto.
  - case_match; [done|]. by eapply skip_string_error.
  - repeat case_match; simplify_eq; eauto.
Qed.

(** C35: whatever bytes it is given, the decompressor returns: a raw DEFLATE, zlib or
    gzip stream gives either one of the errors of the code or a byte string at most
    1032 times as long as the input; no table or buffer is indexed out of range and
    no loop runs on. *)
Theorem inflate_terminates data :
  bytes_ok data →
  answer_ok (length data) (inflate data)
  ∧ answer_ok (length data) (inflate_zlib data)
  ∧ answer_ok (length data) (inflate_gzip data).
Proof.
  intros Hd. split; [by apply inflate_answer|split].
  - unfold inflate_zlib. repeat (destruct (_ : bool); [done|]). by apply inflate_part.
  - unfold inflate_gzip. repeat (destruct (_ : bool); [done|]).
    repeat (apply and_then_ok; [intros e He; eapply (gzip_field_error data _ _ _ e); eauto|intros ?]).
    destruct (_ <? _)%nat; [done|]. by apply inflate_part.
  Unshelve. all: exact 0.
Qed.

Lemma inflate_terminates_witness :
  answer_ok 3 (inflate [203; 72; 205]) ∧ inflate [203; 72; 205] = Err (Error Truncated).
Proof.
  split; [|vm_compute; reflexivity].
  apply (inflate_terminates [203; 72; 205]). repeat constructor; done.
Defined.
