(* ===== verification/InflateTheorems.v ===== *)
(** * DEFLATE streams come back

    A reference writer of DEFLATE streams (RFC 1951): stored blocks, blocks of
    literals and matches in the fixed code, and blocks with their own code and a
    run-length coded header.  [inflate] returns what the blocks stand for. *)

From S2P Require Import Prelude Bits Words Inflate InflateProofs.

(** ** The reference writer *)

(** A literal byte, or a match: length symbol and extra bits, distance symbol and
    extra bits. *)
Inductive token :=
| Lit (b : Z)
| Match (ls : nat) (lx : Z) (ds : nat) (dx : Z).

(** An item of the code-length header: a length, 3 to 6 repetitions of the last
    one, 3 to 10 zeros, 11 to 138 zeros. *)
Inductive cl_item :=
| CLen (l : nat)
| CRep (n : nat)
| CZero (n : nat)
| CZeros (n : nat).

Inductive block :=
| Stored (data : list Z)
| Fixed (ts : list token)
| Dynamic (hlit : nat) (cl : list nat) (items : list cl_item) (ts : list token).

Definition fixed_lengths : list nat :=
  (replicate 144 8 ++ replicate 112 9 ++ replicate 24 7 ++ replicate 8 8)%nat.
Definition fixed_dlengths : list nat := replicate 30 5%nat.

Definition match_length (ls : nat) (lx : Z) : nat := Z.to_nat (nth ls LEN_BASE 0 + lx).
Definition match_distance (ds : nat) (dx : Z) : nat := Z.to_nat (nth ds DIST_BASE 0 + dx).

Definition token_bits (ll dl : list nat) (t : token) : list bool :=
  match t with
  | Lit b => code_bits ll (Z.to_nat b)
  | Match ls lx ds dx =>
      code_bits ll (257 + ls) ++ to_bits (Z.to_nat (nth ls LEN_EXTRA 0)) lx
      ++ code_bits dl ds ++ to_bits (Z.to_nat (nth ds DIST_EXTRA 0)) dx
  end.

Definition tokens_bits (ll dl : list nat) (ts : list token) : list bool :=
  (ts ≫= token_bits ll dl) ++ code_bits ll 256.

(** Copying one byte at a time from [d] bytes back. *)
Fixpoint lz_copy (n d : nat) (out : list Z) : list Z :=
  match n with
  | O => out
  | S n' => lz_copy n' d (out ++ [nth (length out - d) out 0])
  end.

Definition expand_token (out : list Z) (t : token) : list Z :=
  match t with
  | Lit b => out ++ [b]
  | Match ls lx ds dx => lz_copy (match_length ls lx) (match_distance ds dx) out
  end.

Definition item_bits (cl : list nat) (it : cl_item) : list bool :=
  match it with
  | CLen l => code_bits cl l
  | CRep n => code_bits cl 16 ++ to_bits 2 (Z.of_nat n - 3)
  | CZero n => code_bits cl 17 ++ to_bits 3 (Z.of_nat n - 3)
  | CZeros n => code_bits cl 18 ++ to_bits 7 (Z.of_nat n - 11)
  end.

Definition expand_item (acc : list nat) (it : cl_item) : list nat :=
  match it with
  | CLen l => acc ++ [l]
  | CRep n => acc ++ replicate n (default 0%nat (last acc))
  | CZero n | CZeros n => acc ++ replicate n 0%nat
  end.

Definition all_lengths (items : list cl_item) : list nat := foldl expand_item [] items.

Definition header_bits (hlit : nat) (cl : list nat) (items : list cl_item) : list bool :=
  to_bits 5 (Z.of_nat hlit - 257)
  ++ to_bits 5 (Z.of_nat (length (all_lengths items) - hlit) - 1)
  ++ to_bits 4 15
  ++ (CL_ORDER ≫= λ k, to_bits 3 (Z.of_nat (nth k cl 0%nat)))
  ++ (items ≫= item_bits cl).

(** Bits up to the next byte boundary from position [p]. *)
Definition padding (p : nat) : nat := ((8 - p `mod` 8) `mod` 8)%nat.

Definition block_bits (p : nat) (b : block) : list bool :=
  match b with
  | Stored data =>
      to_bits 2 0 ++ replicate (padding (p + 2)) false
      ++ to_bits 16 (Z.of_nat (length data)) ++ to_bits 16 (0xFFFF - Z.of_nat (length data))
      ++ unpack data
  | Fixed ts => to_bits 2 1 ++ tokens_bits fixed_lengths fixed_dlengths ts
  | Dynamic hlit cl items ts =>
      to_bits 2 2 ++ header_bits hlit cl items
      ++ tokens_bits (take hlit (all_lengths items)) (drop hlit (all_lengths items)) ts
  end.

Definition expand_block (out : list Z) (b : block) : list Z :=
  match b with
  | Stored data => out ++ data
  | Fixed ts | Dynamic _ _ _ ts => foldl expand_token out ts
  end.

(** The blocks from bit position [p] on; the last one is marked final. *)
Fixpoint blocks_bits (p : nat) (bs : list block) : list bool :=
  match bs with
  | [] => []
  | b :: bs' =>
      let w := bool_decide (bs' = []) :: block_bits (p + 1) b in
      w ++ blocks_bits (p + length w) bs'
  end.

Definition pack (bs : list bool) : list Z :=
  map of_bits (chunks 8 (bs ++ replicate (padding (length bs)) false)).

Definition deflate (bs : list block) : list Z := pack (blocks_bits 0 bs).

(** ** Streams the decoder can read *)

(** The symbol has a code that the decoder's tables see: one of length 15, or one
    shorter than the longest code. *)
Definition usable (lengths : list nat) (s : nat) : bool :=
  match lengths !! s with
  | Some l => (0 <? l)%nat && ((l =? 15)%nat || existsb (λ l', (l <? l')%nat) lengths)
  | None => false
  end.

Definition code_okb (lengths : list nat) : bool :=
  forallb (λ l, (l <=? 15)%nat) lengths && (length lengths <=? 4096)%nat
  && (first_of lengths 16 <=? 2 ^ 16).

Definition token_okb (ll dl : list nat) (out : list Z) (t : token) : bool :=
  match t with
  | Lit b => (0 <=? b) && (b <? 256) && usable ll (Z.to_nat b)
  | Match ls lx ds dx =>
      (ls <? 29)%nat && (ds <? 30)%nat && usable ll (257 + ls) && usable dl ds
      && (0 <=? lx) && (lx <? 2 ^ nth ls LEN_EXTRA 0) && (0 <=? dx) && (dx <? 2 ^ nth ds DIST_EXTRA 0)
      && (match_distance ds dx <=? length out)%nat
  end.

Fixpoint tokens_okb (ll dl : list nat) (out : list Z) (ts : list token) : bool :=
  match ts with
  | [] => usable ll 256
  | t :: ts' => token_okb ll dl out t && tokens_okb ll dl (expand_token out t) ts'
  end.

Definition item_okb (cl acc : list nat) (it : cl_item) : bool :=
  match it with
  | CLen l => (l <=? 15)%nat && usable cl l
  | CRep n => (3 <=? n)%nat && (n <=? 6)%nat && usable cl 16 && negb (length acc =? 0)%nat
  | CZero n => (3 <=? n)%nat && (n <=? 10)%nat && usable cl 17
  | CZeros n => (11 <=? n)%nat && (n <=? 138)%nat && usable cl 18
  end.

Fixpoint items_okb (cl acc : list nat) (items : list cl_item) : bool :=
  match items with
  | [] => true
  | it :: items' => item_okb cl acc it && items_okb cl (expand_item acc it) items'
  end.

Definition header_okb (hlit : nat) (cl : list nat) (items : list cl_item) : bool :=
  let all := all_lengths items in
  (257 <=? hlit)%nat && (hlit <=? 288)%nat && (hlit + 1 <=? length all)%nat && (length all <=? hlit + 32)%nat
  && (length cl =? 19)%nat && forallb (λ l, (l <=? 7)%nat) cl && code_okb cl && items_okb cl [] items
  && code_okb (take hlit all) && code_okb (drop hlit all).

Definition block_okb (out : list Z) (b : block) : bool :=
  match b with
  | Stored data => (Z.of_nat (length data) <? 65536) && forallb (λ b, (0 <=? b) && (b <? 256)) data
  | Fixed ts => tokens_okb fixed_lengths fixed_dlengths out ts
  | Dynamic hlit cl items ts =>
      header_okb hlit cl items
      && tokens_okb (take hlit (all_lengths items)) (drop hlit (all_lengths items)) out ts
  end.

Fixpoint blocks_okb (out : list Z) (bs : list block) : bool :=
  match bs with
  | [] => true
  | b :: bs' => block_okb out b && blocks_okb (expand_block out b) bs'
  end.

(** ** Reading what was written *)

(** From bit position [p] on, [m] reads [bs] and returns [a]. *)
Definition reads {A} (p : nat) (m : R A) (bs : list bool) (a : A) : Prop :=
  ∀ br rest, reader_ok br → ((p + length (stream br)) `mod` 8 = 0)%nat → stream br = bs ++ rest →
  ∃ br', m br = (Ok a, br') ∧ reader_ok br' ∧ stream br' = rest.

Lemma reads_ret {A} p (a : A) : reads p (mret a) [] a.
Proof. intros br rest Hok _ Hst. by exists br. Qed.

Lemma reads_bind {A B} p (m : R A) (k : A → R B) bs bs' a b :
  reads p m bs a → reads (p + length bs) (k a) bs' b → reads p (m ≫= k) (bs ++ bs') b.
Proof.
  intros Hm Hk br rest Hok Hp Hst. rewrite <- app_assoc in Hst.
  destruct (Hm br _ Hok Hp Hst) as (br1 & E1 & Hok1 & Hst1). rewrite (bind_ok _ _ _ _ _ E1).
  apply Hk; [done| |done]. rewrite Hst1. rewrite Hst, !length_app in Hp. rewrite length_app.
  by rewrite Nat.add_assoc in Hp.
Qed.

(** A step that consumes nothing. *)
Lemma reads_pure {A B} p (m : R A) (k : A → R B) bs a b :
  (∀ br, m br = (Ok a, br)) → reads p (k a) bs b → reads p (m ≫= k) bs b.
Proof. intros Hm Hk br rest Hok Hp Hst. rewrite (bind_ok _ _ _ _ _ (Hm br)). by apply Hk. Qed.

Lemma reads_read_bits p n v :
  0 ≤ n ≤ 24 → 0 ≤ v < 2 ^ n → reads p (read_bits n) (to_bits (Z.to_nat n) v) v.
Proof.
  intros Hn Hv br rest Hok _ Hst.
  destruct (read_bits_app n br _ rest Hok Hn (length_to_bits _ _) Hst) as (br' & E & H).
  exists br'. split; [|done]. by rewrite E, of_to_bits, Z2Nat.id, Z.mod_small by lia.
Qed.

(** ** Symbols, literals and matches *)
Lemma usable_spec lengths t s :
  usable lengths s = true → table_ok lengths t →
  ∃ l, lengths !! s = Some l ∧ (0 < l)%nat ∧ (l < max_len t ∨ l = 15)%nat.
Proof.
  unfold usable. intros Hu Ht. destruct (lengths !! s) as [l|]; [|done]. exists l.
  apply andb_true_iff in Hu as [Hl Hu]. apply Nat.ltb_lt in Hl. split; [done|]. split; [done|].
  apply orb_true_iff in Hu as [Hu|Hu]; [right; by apply Nat.eqb_eq|left].
  apply existsb_exists in Hu as (l' & Hin & Hlt). apply Nat.ltb_lt in Hlt.
  apply list_elem_of_In, list_elem_of_lookup in Hin as [s' Hs']. apply (tb_max _ _ Ht) in Hs'. lia.
Qed.

Lemma reads_decode p lengths t s :
  table_ok lengths t → prefix_free lengths → usable lengths s = true →
  reads p (decode_symbol t) (code_bits lengths s) (Z.of_nat s).
Proof.
  intros Ht Hp Hu br rest Hok _ Hst. destruct (usable_spec _ _ _ Hu Ht) as (l & Hs & Hl & Hlt).
  by apply (decode_symbol_code lengths t s l).
Qed.

Lemma code_bits_pos lengths s : usable lengths s = true → (0 < length (code_bits lengths s))%nat.
Proof.
  unfold usable, code_bits. destruct (lengths !! s); [|done]. rewrite length_reverse, length_to_bits.
  intros [H _]%andb_true_iff. by apply Nat.ltb_lt.
Qed.

Lemma reads_extra p b e v :
  0 ≤ e ≤ 13 → 0 ≤ v < 2 ^ e → reads p (read_extra b e) (to_bits (Z.to_nat e) v) (Z.to_nat (b + v)).
Proof.
  intros He Hv. unfold read_extra. rewrite <- (app_nil_r (to_bits _ _)).
  apply (reads_bind _ _ _ _ _ v); [|apply reads_ret].
  destruct (Z.ltb_spec 0 e); [apply reads_read_bits; lia|].
  assert (e = 0) as -> by lia. assert (v = 0) as -> by (change (2 ^ 0) with 1 in Hv; lia). apply reads_ret.
Qed.

Lemma table_entry (l : list Z) i br : (i < length l)%nat → at_index l i br = (Ok (nth i l 0), br).
Proof.
  intros Hi. apply at_index_Some. destruct (lookup_lt_is_Some_2 l i Hi) as [a Ha].
  by rewrite Ha, (nth_lookup_Some _ _ _ _ Ha).
Qed.

Lemma extra_small (extras : list Z) i :
  forallb (λ e, (0 <=? e) && (e <=? 13)) extras = true → 0 ≤ nth i extras 0 ≤ 13.
Proof.
  rewrite List.forallb_forall. intros H. destruct (nth_in_or_default i extras 0) as [Hin| ->]; [|lia].
  specialize (H _ Hin). rewrite andb_true_iff, !Z.leb_le in H. lia.
Qed.

Lemma reads_length p ls lx :
  (ls < 29)%nat → 0 ≤ lx < 2 ^ nth ls LEN_EXTRA 0 →
  reads p (read_length (Z.of_nat (257 + ls))) (to_bits (Z.to_nat (nth ls LEN_EXTRA 0)) lx) (match_length ls lx).
Proof.
  intros Hl Hx. unfold read_length. replace (Z.to_nat (Z.of_nat (257 + ls) - 257)) with ls by lia.
  rewrite (proj2 (Nat.leb_gt 29 ls)) by lia.
  eapply reads_pure; [intros; apply table_entry; exact Hl|].
  eapply reads_pure; [intros; apply table_entry; exact Hl|].
  apply reads_extra; [by apply extra_small|done].
Qed.

Lemma reads_distance p ds dx :
  (ds < 30)%nat → 0 ≤ dx < 2 ^ nth ds DIST_EXTRA 0 →
  reads p (read_distance (Z.of_nat ds)) (to_bits (Z.to_nat (nth ds DIST_EXTRA 0)) dx) (match_distance ds dx).
Proof.
  intros Hl Hx. unfold read_distance. rewrite Nat2Z.id.
  rewrite (proj2 (Nat.leb_gt 30 ds)) by lia.
  eapply reads_pure; [intros; apply table_entry; exact Hl|].
  eapply reads_pure; [intros; apply table_entry; exact Hl|].
  apply reads_extra; [by apply extra_small|done].
Qed.

Lemma copy_back_lz n d out br :
  (0 < d ≤ length out)%nat → copy_back n (length out - d) out br = (Ok (lz_copy n d out), br).
Proof.
  revert out. induction n as [|n IH]; intros out Hd; [done|].
  cbn [copy_back lz_copy]. rewrite (bind_ok _ _ _ _ _ (table_entry out (length out - d) br ltac:(lia))).
  rewrite <- IH by (rewrite length_app; cbn; lia). f_equal. rewrite length_app. cbn. lia.
Qed.

Lemma match_distance_pos ds dx : (ds < 30)%nat → 0 ≤ dx → (0 < match_distance ds dx)%nat.
Proof.
  intros Hd Hx. unfold match_distance. assert (1 ≤ nth ds DIST_BASE 0); [|lia].
  assert (H : Forall (λ b, 1 ≤ b) DIST_BASE) by (repeat constructor; lia).
  apply (proj1 (List.Forall_nth _ _) H). exact Hd.
Qed.

(** The loop of a block reads its tokens and the end mark. *)
Lemma reads_tokens p ll dl lit dist fuel ts out :
  table_ok ll lit → table_ok dl dist → prefix_free ll → prefix_free dl →
  tokens_okb ll dl out ts = true → (length ts < fuel)%nat →
  reads p (huff_loop fuel lit dist out) (tokens_bits ll dl ts) (foldl expand_token out ts).
Proof.
  intros Hll Hdl Hpl Hpd. unfold tokens_bits.
  revert p ts out. induction fuel as [|fuel IH]; intros p ts out Hok Hf; [lia|].
  cbn [huff_loop]. destruct ts as [|t ts]; cbn [tokens_okb foldl] in *.
  { cbn [mbind list_bind app]. rewrite <- (app_nil_r (code_bits ll 256)).
    eapply reads_bind; [by apply reads_decode|]. cbn -[reads]. apply reads_ret. }
  cbn [mbind list_bind]. rewrite <- app_assoc. apply andb_true_iff in Hok as [Ht Hts]. cbn [length] in Hf.
  destruct t as [b|ls lx ds dx]; cbn [token_okb token_bits] in Ht |- *.
  - rewrite !andb_true_iff, Z.leb_le, Z.ltb_lt in Ht. destruct Ht as [Hb Hu].
    eapply reads_bind; [by apply reads_decode|]. rewrite Z2Nat.id by lia. zbool.
    rewrite wrap_id by (split; [lia|change (2 ^ 8) with 256; lia]). apply IH; [done|lia].
  - rewrite !andb_true_iff, !Z.leb_le, !Z.ltb_lt, !Nat.ltb_lt, Nat.leb_le in Ht.
    destruct Ht as [[[[[[[[H1' H2'] H3] H4] H5] H6] H7] H8] H9]. rewrite <- !app_assoc.
    eapply reads_bind; [by apply reads_decode|].
    rewrite (proj2 (Z.ltb_ge (Z.of_nat (257 + ls)) 256)), (proj2 (Z.eqb_neq (Z.of_nat (257 + ls)) 256)) by lia.
    eapply reads_bind; [by apply reads_length|].
    eapply reads_bind; [by apply reads_decode|].
    eapply reads_bind; [by apply reads_distance|].
    pose proof (match_distance_pos ds dx H2' ltac:(lia)) as Hpos.
    rewrite (proj2 (Nat.eqb_neq _ _)), (proj2 (Nat.ltb_ge _ _)) by lia. cbn [orb].
    eapply reads_pure; [intros; apply copy_back_lz; lia|]. apply IH; [done|lia].
Qed.

Lemma tokens_bits_length ll dl out ts :
  tokens_okb ll dl out ts = true → (length ts < length (tokens_bits ll dl ts))%nat.
Proof.
  unfold tokens_bits. revert out. induction ts as [|t ts IH]; intros out Hok; cbn [tokens_okb] in Hok.
  { cbn. by apply code_bits_pos. }
  apply andb_true_iff in Hok as [Ht Hts]. apply IH in Hts. cbn [mbind list_bind length].
  rewrite !length_app in *. assert (0 < length (token_bits ll dl t))%nat; [|lia].
  destruct t; cbn [token_okb token_bits] in *; rewrite ?length_app; rewrite !andb_true_iff in Ht.
  - apply code_bits_pos. tauto.
  - pose proof (code_bits_pos ll (257 + ls) ltac:(tauto)). lia.
Qed.

Lemma reads_huff p ll dl lit dist ts out :
  table_ok ll lit → table_ok dl dist → prefix_free ll → prefix_free dl →
  tokens_okb ll dl out ts = true →
  reads p (inflate_huff out lit dist) (tokens_bits ll dl ts) (foldl expand_token out ts).
Proof.
  intros Hll Hdl Hpl Hpd Hok br rest Hr Hp Hst. unfold inflate_huff.
  eapply (reads_tokens p ll dl); try done.
  pose proof (tokens_bits_length _ _ _ _ Hok). rewrite <- length_stream, Hst, length_app. lia.
Qed.

(** ** Stored blocks *)
Lemma reads_align p bs : length bs = padding p → reads p align_to_byte bs tt.
Proof.
  intros Hl br rest Hok Hp Hst. destruct Hok as [Hs Hpos Hb Hbuf].
  assert (Hbits : Z.to_nat (bits br) = padding p).
  { rewrite length_stream in Hp. unfold bits_left in Hp. unfold padding.
    set (k := (length (src br) - pos br)%nat) in *.
    rewrite Nat.add_assoc, (Nat.mul_comm 8 k), Nat.Div0.mod_add in Hp.
    pose proof (Nat.div_mod_eq p 8). pose proof (Nat.mod_upper_bound p 8 ltac:(lia)).
    pose proof (Nat.div_mod_eq (p + Z.to_nat (bits br)) 8).
    destruct (decide (p `mod` 8 = 0)%nat) as [E|].
    - rewrite E. cbn. lia.
    - rewrite (Nat.mod_small (8 - p `mod` 8)%nat) by lia. lia. }
  unfold align_to_byte. change 7 with (Z.ones 3). rewrite Z.land_ones, Z.mod_small by (cbn; lia).
  unfold stream in Hst. apply app_inj_1 in Hst as [_ Hst]; [|by rewrite length_to_bits, Hl].
  eexists; split; [done|].
  destruct (Z.ltb_spec 0 (bits br)).
  - rewrite Z.sub_diag. split; [|by unfold stream; cbn].
    split; cbn [src pos buf bits]; [done..|].
    rewrite Z.shiftr_div_pow2, Z.div_small by lia. done.
  - split; [by split|]. unfold stream. by replace (Z.to_nat (bits br)) with 0%nat by lia.
Qed.

Lemma to_bits_mod n v : to_bits n (v `mod` 2 ^ Z.of_nat n) = to_bits n v.
Proof. rewrite <- (of_to_bits n v), <- (length_to_bits n v) at 1. by rewrite to_of_bits. Qed.

Lemma reads_byte p b : is_byte b → reads p read_byte (byte_bits b) b.
Proof.
  intros Hb. unfold read_byte, byte_bits. rewrite <- (app_nil_r (to_bits 8 b)).
  apply (reads_bind _ _ _ _ _ b); [by apply (reads_read_bits _ 8)|].
  rewrite wrap_id by done. apply reads_ret.
Qed.

Lemma reads_u16 p v : 0 ≤ v < 65536 → reads p read_u16_le (to_bits 16 v) v.
Proof.
  intros Hv. unfold read_u16_le. rewrite (to_bits_app 8 8). change (2 ^ Z.of_nat 8) with 256.
  rewrite <- (to_bits_mod 8 v). change (2 ^ Z.of_nat 8) with 256.
  eapply reads_bind; [apply (reads_byte _ (v `mod` 256)); by apply (Z.mod_pos_bound v 256)|].
  rewrite <- (app_nil_r (to_bits 8 (v `div` 256))).
  eapply reads_bind; [apply (reads_byte _ (v `div` 256)); split;
    [apply Z.div_pos; lia|apply Z.div_lt_upper_bound; lia]|].
  rewrite Z.shiftl_mul_pow2, lor_disjoint by (try apply (Z.mod_pos_bound v 256); lia).
  replace (_ + _) with v; [apply reads_ret|]. change (2 ^ 8) with 256. pose proof (Z.div_mod v 256). lia.
Qed.

Lemma reads_many p data out :
  bytes_ok data → reads p (read_many (length data) out) (unpack data) (out ++ data).
Proof.
  intros Hd. revert p out. induction Hd as [|b data Hb _ IH]; intros p out.
  { rewrite app_nil_r. apply reads_ret. }
  cbn [length read_many]. change (unpack (b :: data)) with (byte_bits b ++ unpack data).
  eapply reads_bind; [by apply reads_byte|]. change (out ++ b :: data) with (out ++ [b] ++ data); rewrite app_assoc. apply IH.
Qed.

Lemma reads_stored p data out :
  bytes_ok data → Z.of_nat (length data) < 65536 →
  reads p (inflate_stored out)
    (replicate (padding p) false ++ to_bits 16 (Z.of_nat (length data))
     ++ to_bits 16 (0xFFFF - Z.of_nat (length data)) ++ unpack data) (out ++ data).
Proof.
  intros Hd Hl. eapply reads_bind; [apply reads_align, length_replicate|].
  eapply reads_bind; [apply reads_u16; lia|]. eapply reads_bind; [apply reads_u16; lia|].
  change 0xFFFF with (Z.ones 16). rewrite lxor_ones by (unfold uN; lia). rewrite Z.eqb_refl, Nat2Z.id.
  by apply reads_many.
Qed.

(** ** Headers of dynamic blocks *)
Lemma reads_cl p order cl acc :
  Forall (λ l, l ≤ 7)%nat cl →
  reads p (read_cl order acc) (order ≫= λ k, to_bits 3 (Z.of_nat (nth k cl 0%nat)))
    (foldl (λ c k, <[k := nth k cl 0%nat]> c) acc order).
Proof.
  intros Hcl. revert p acc. induction order as [|k order IH]; intros p acc; [apply reads_ret|].
  cbn [read_cl foldl mbind list_bind].
  assert (nth k cl 0 ≤ 7)%nat.
  { destruct (nth_in_or_default k cl 0%nat) as [Hin| ->]; [|lia].
    rewrite Forall_forall in Hcl. by apply Hcl, list_elem_of_In. }
  eapply reads_bind; [apply (reads_read_bits _ 3); [lia|change (2 ^ 3) with 8; lia]|].
  rewrite Nat2Z.id. apply IH.
Qed.

Lemma cl_order_fills cl :
  length cl = 19%nat →
  foldl (λ c k, <[k := nth k cl 0%nat]> c) (replicate 19 0%nat) CL_ORDER = cl.
Proof.
  intros Hl. do 19 (destruct cl as [|? cl]; [done|]). destruct cl; [|done]. reflexivity.
Qed.

Lemma repeat_len_spec n v acc k br :
  (n ≤ k)%nat →
  repeat_len n v (length acc + k) (length acc) (acc ++ replicate k 0%nat) br
  = (Ok ((length acc + n)%nat, acc ++ replicate n v ++ replicate (k - n) 0%nat), br).
Proof.
  revert acc k. induction n as [|n IH]; intros acc k Hk.
  { rewrite Nat.sub_0_r, Nat.add_0_r. done. }
  destruct k as [|k]; [lia|]. cbn [repeat_len].
  rewrite (proj2 (Nat.leb_gt _ _)) by lia.
  rewrite insert_app_r_alt, Nat.sub_diag by lia. cbn [replicate list_insert].
  specialize (IH (acc ++ [v]) k ltac:(lia)). rewrite length_app in IH. cbn [length] in IH.
  rewrite <- !app_assoc in IH. cbn [app] in IH.
  replace (length acc + S k)%nat with (length acc + 1 + k)%nat by lia.
  replace (S (length acc)) with (length acc + 1)%nat by lia.
  change (<[0%nat := v]> (0%nat :: replicate k 0%nat)) with (v :: replicate k 0%nat).
  rewrite IH. cbn [replicate app Nat.sub].
  by replace (length acc + 1 + n)%nat with (length acc + S n)%nat by lia.
Qed.

Definition item_length (it : cl_item) : nat :=
  match it with CLen _ => 1%nat | CRep n | CZero n | CZeros n => n end.

Lemma length_expand_item acc it : length (expand_item acc it) = (length acc + item_length it)%nat.
Proof. destruct it; cbn [expand_item]; rewrite length_app, ?length_replicate; done. Qed.

Lemma length_expand_items items acc :
  (length acc ≤ length (foldl expand_item acc items))%nat.
Proof.
  revert acc. induction items as [|it items IH]; intros acc; [done|].
  cbn [foldl]. etrans; [|apply IH]. rewrite length_expand_item. lia.
Qed.

(** Repetitions in the header. *)
Lemma reads_repeat {B} p n v acc k (K : nat * list nat → R B) bs b :
  (n ≤ k)%nat →
  reads p (K ((length acc + n)%nat, (acc ++ replicate n v) ++ replicate (k - n) 0%nat)) bs b →
  reads p (repeat_len n v (length acc + k) (length acc) (acc ++ replicate k 0%nat) ≫= K) bs b.
Proof.
  intros Hk HK. eapply reads_pure; [intros; by apply repeat_len_spec|]. by rewrite app_assoc.
Qed.

Lemma reads_items p cl t fuel items acc k :
  table_ok cl t → prefix_free cl → items_okb cl acc items = true →
  length (foldl expand_item acc items) = (length acc + k)%nat → (k ≤ fuel)%nat →
  reads p (lengths_loop fuel t (length acc + k) (length acc) (acc ++ replicate k 0%nat))
    (items ≫= item_bits cl) (foldl expand_item acc items).
Proof.
  intros Ht Hpf. revert p items acc k. induction fuel as [|fuel IH]; intros p items acc k Hok Hlen Hf.
  all: destruct items as [|it items]; cbn [foldl items_okb mbind list_bind] in *.
  1,3: assert (k = 0)%nat as -> by lia; cbn [lengths_loop]; rewrite Nat.add_0_r, Nat.leb_refl, app_nil_r;
    apply reads_ret.
  all: apply andb_true_iff in Hok as [Hit Hits]; pose proof (length_expand_items items (expand_item acc it)) as Hge;
    rewrite length_expand_item in Hge.
  1: destruct it; cbn [item_okb item_length] in *; rewrite !andb_true_iff, ?Nat.leb_le in Hit; lia.
  assert (Hn : (0 < item_length it ≤ k)%nat).
  { split; [|lia]. destruct it; cbn [item_okb item_length] in *; rewrite !andb_true_iff, ?Nat.leb_le in Hit; lia. }
  assert (IH' : ∀ p, reads p (lengths_loop fuel t (length acc + k) (length acc + item_length it)
     (expand_item acc it ++ replicate (k - item_length it) 0%nat)) (items ≫= item_bits cl)
     (foldl expand_item (expand_item acc it) items)).
  { intros p'. specialize (IH p' items (expand_item acc it) (k - item_length it)%nat Hits).
    rewrite length_expand_item in IH. 
    replace (length acc + item_length it + (k - item_length it))%nat with (length acc + k)%nat in IH by lia.
    apply IH; lia. }
  clear IH. cbn [lengths_loop]. rewrite (proj2 (Nat.leb_gt (length acc + k) (length acc))) by lia.
  destruct it as [l|n|n|n]; cbn [item_okb item_bits item_length expand_item] in *;
    rewrite !andb_true_iff, ?Nat.leb_le in Hit; rewrite <- ?app_assoc.
  - eapply reads_bind; [apply reads_decode; tauto|].
    rewrite (proj2 (Z.leb_le (Z.of_nat l) 15)), Nat2Z.id by lia.
    rewrite insert_app_r_alt, Nat.sub_diag by lia. destruct k as [|k]; [lia|]. cbn [replicate].
    change (<[0%nat := l]> (0%nat :: replicate k 0%nat)) with ([l] ++ replicate k 0%nat).
    rewrite app_assoc, <- (Nat.add_1_r (length acc)). cbn [Nat.sub] in IH'. rewrite Nat.sub_0_r in IH'. apply IH'.
  - eapply reads_bind; [apply reads_decode; tauto|]. cbn -[reads replicate read_bits lengths_loop to_bits Nat.eqb Nat.sub].
    destruct Hit as [[[Hn1 Hn2] Hu] Hne]. destruct (Nat.eqb_spec (length acc) 0); [done|].
    eapply reads_bind; [apply (reads_read_bits _ 2); [lia|change (2 ^ 2) with 4; lia]|].
    destruct (last acc) as [v|] eqn:Ev; [|apply last_None in Ev; by subst].
    eapply reads_pure.
    { intros br. apply at_index_Some. rewrite lookup_app_l by lia. rewrite <- Ev, last_lookup. f_equal. lia. }
    replace (Z.to_nat (Z.of_nat n - 3 + 3)) with n by lia. apply reads_repeat; [lia|]. apply IH'.
  - eapply reads_bind; [apply reads_decode; tauto|]. cbn -[reads replicate read_bits lengths_loop to_bits Nat.eqb Nat.sub].
    eapply reads_bind; [apply (reads_read_bits _ 3); [lia|change (2 ^ 3) with 8; lia]|].
    replace (Z.to_nat (Z.of_nat n - 3 + 3)) with n by lia. apply reads_repeat; [lia|]. apply IH'.
  - eapply reads_bind; [apply reads_decode; tauto|]. cbn -[reads replicate read_bits lengths_loop to_bits Nat.eqb Nat.sub].
    eapply reads_bind; [apply (reads_read_bits _ 7); [lia|change (2 ^ 7) with 128; lia]|].
    replace (Z.to_nat (Z.of_nat n - 11 + 11)) with n by lia. apply reads_repeat; [lia|]. apply IH'.
Qed.

Lemma code_okb_spec lengths : code_okb lengths = true → lengths_ok lengths ∧ prefix_free lengths.
Proof.
  unfold code_okb. rewrite !andb_true_iff, Nat.leb_le, Z.leb_le, List.forallb_forall.
  intros [[H1' H2'] H3]. split; [split; [|done]|done].
  apply Forall_forall. intros l Hl. apply Nat.leb_le, H1', list_elem_of_In, Hl.
Qed.

Lemma built lengths :
  lengths_ok lengths → ∃ t, table_ok lengths t ∧ ∀ br, build lengths br = (Ok t, br).
Proof.
  intros H. destruct (build_huff_spec lengths H) as (t & E & Ht). exists t. split; [done|].
  intros br. unfold build. by rewrite E.
Qed.

(** The header gives the two tables of the block. *)
Lemma reads_header p hlit cl items :
  header_okb hlit cl items = true →
  let ll := take hlit (all_lengths items) in
  let dl := drop hlit (all_lengths items) in
  ∃ lit dist, table_ok ll lit ∧ table_ok dl dist ∧ prefix_free ll ∧ prefix_free dl
    ∧ reads p read_dynamic_codes (header_bits hlit cl items) (lit, dist).
Proof.
  unfold header_okb. rewrite !andb_true_iff, !Nat.leb_le, Nat.eqb_eq, List.forallb_forall.
  intros [[[[[[[[[H1' H2'] H3] H4] Hc19] Hc7] Hcl] Hit] Hlit] Hdist].
  apply code_okb_spec in Hcl as [Hcl Hclp], Hlit as [Hlit Hlp], Hdist as [Hdist Hdp].
  destruct (built _ Hcl) as (t & Ht & Et), (built _ Hlit) as (lit & Hl & El), (built _ Hdist) as (dist & Hd & Ed).
  exists lit, dist. do 4 (split; [done|]).
  assert (Hc7' : Forall (λ l, l ≤ 7)%nat cl).
  { apply Forall_forall. intros l Hin. apply Nat.leb_le, Hc7, list_elem_of_In, Hin. }
  unfold read_dynamic_codes, header_bits. set (all := all_lengths items) in *.
  eapply reads_bind; [apply (reads_read_bits _ 5); [lia|change (2 ^ 5) with 32; lia]|].
  eapply reads_bind; [apply (reads_read_bits _ 5); [lia|change (2 ^ 5) with 32; lia]|].
  eapply reads_bind; [apply (reads_read_bits _ 4); [lia|done]|].
  change (take _ CL_ORDER) with CL_ORDER.
  eapply reads_bind; [by apply reads_cl|]. rewrite cl_order_fills by done.
  eapply reads_pure; [exact Et|]. cbv zeta.
  replace (Z.to_nat (Z.of_nat hlit - 257 + 257)) with hlit by lia.
  replace (hlit + Z.to_nat (Z.of_nat (length all - hlit) - 1 + 1))%nat with (length all) by lia.
  rewrite <- (app_nil_r (items ≫= _)).
  eapply reads_bind; [by apply (reads_items _ cl t _ items [] (length all))|].
  eapply reads_pure; [exact El|]. eapply reads_pure; [exact Ed|]. apply reads_ret.
Qed.

(** ** Whole streams *)
Lemma fixed_codes_ok : code_okb fixed_lengths = true ∧ code_okb fixed_dlengths = true.
Proof. vm_compute. done. Qed.

Definition block_type (b : block) : Z :=
  match b with Stored _ => 0 | Fixed _ => 1 | Dynamic _ _ _ _ => 2 end.

Definition block_body (p : nat) (b : block) : list bool := drop 2 (block_bits p b).

Lemma block_bits_split p b : block_bits p b = to_bits 2 (block_type b) ++ block_body p b.
Proof. by destruct b. Qed.

Lemma reads_block p b out :
  block_okb out b = true →
  reads (p + 2) (inflate_block (block_type b) out) (block_body p b) (expand_block out b).
Proof.
  unfold inflate_block, block_body. destruct b as [data|ts|hlit cl items ts]; cbn [block_okb block_type block_bits expand_block].
  - rewrite andb_true_iff, Z.ltb_lt, List.forallb_forall. intros [Hl Hb].
    cbn [to_bits app drop Z.eqb]. apply reads_stored; [|done].
    apply Forall_forall. intros b Hin. apply list_elem_of_In, Hb, andb_true_iff in Hin as [H1' H2'].
    apply Z.leb_le in H1'. apply Z.ltb_lt in H2'. split; [done|]. by change (2 ^ 8) with 256.
  - intros Hok. cbn [to_bits app drop Z.eqb Pos.eqb]. destruct fixed_codes_ok as [F1 F2].
    apply code_okb_spec in F1 as [F1 F1'], F2 as [F2 F2'].
    destruct (built _ F1) as (lit & Hl & El), (built _ F2) as (dist & Hd & Ed).
    eapply reads_pure; [exact El|]. eapply reads_pure; [exact Ed|].
    by apply reads_huff.
  - intros [Hh Hok]%andb_true_iff. cbn [to_bits app drop Z.eqb Pos.eqb].
    destruct (reads_header (p + 2) _ _ _ Hh) as (lit & dist & Hl & Hd & Hpl & Hpd & Hr).
    eapply reads_bind; [exact Hr|]. by apply reads_huff.
Qed.

Lemma blocks_bits_length p bs : (length bs ≤ length (blocks_bits p bs))%nat.
Proof.
  revert p. induction bs as [|b bs IH]; intros p; [done|].
  cbn [blocks_bits length]. rewrite length_app. specialize (IH (p + length (bool_decide (bs = []) :: block_bits (p + 1) b))%nat).
  cbn [length] in *. lia.
Qed.

Lemma reads_blocks p fuel bs out :
  bs ≠ [] → blocks_okb out bs = true → (length bs < fuel)%nat →
  reads p (blocks_loop fuel out) (blocks_bits p bs) (foldl expand_block out bs).
Proof.
  revert p bs out. induction fuel as [|fuel IH]; intros p bs out Hne Hok Hf; [lia|].
  destruct bs as [|b bs]; [done|]. cbn [blocks_okb blocks_bits foldl blocks_loop length] in *.
  apply andb_true_iff in Hok as [Hb Hbs]. rewrite block_bits_split.
  set (fin := bool_decide (bs = [])). rewrite app_comm_cons, <- app_assoc.
  change (fin :: to_bits 2 (block_type b)) with ([fin] ++ to_bits 2 (block_type b)). rewrite <- app_assoc.
  eapply (reads_bind _ _ _ [fin] _ (Z.b2z fin)).
  { replace [fin] with (to_bits (Z.to_nat 1) (Z.b2z fin)) by (by destruct fin).
    apply reads_read_bits; destruct fin; done. }
  eapply reads_bind; [apply (reads_read_bits _ 2); [lia|destruct b; done]|].
  rewrite length_to_bits. cbn [length].
  eapply reads_bind; [by apply reads_block|].
  unfold fin. case_bool_decide as Hnil; cbn [Z.b2z Z.eqb Pos.eqb].
  - subst bs. apply reads_ret.
  - match goal with |- reads ?q _ (blocks_bits ?q' _) _ => replace q with q' end.
    + apply IH; [done..|lia].
    + cbn [length]. rewrite length_app, length_to_bits. cbn [length]. lia.
Qed.

Lemma unpack_pack bs : unpack (pack bs) = bs ++ replicate (padding (length bs)) false.
Proof.
  unfold pack. set (l := bs ++ _).
  assert (Hl : ∃ k, length l = (k * 8)%nat).
  { unfold l. rewrite length_app, length_replicate. unfold padding.
    pose proof (Nat.div_mod_eq (length bs) 8). pose proof (Nat.mod_upper_bound (length bs) 8 ltac:(lia)).
    destruct (decide (length bs `mod` 8 = 0)%nat) as [E|].
    - rewrite E. exists (length bs `div` 8)%nat. change ((8 - 0) `mod` 8)%nat with 0%nat. lia.
    - rewrite (Nat.mod_small (8 - _)%nat) by lia. exists (S (length bs `div` 8)). lia. }
  clearbody l. destruct Hl as [k Hk]. revert l Hk. induction k as [|k IH]; intros l Hk.
  { by rewrite (nil_length_inv l). }
  rewrite <- (take_drop 8 l) at 1. rewrite chunks_app by (rewrite ?length_take; lia).
  cbn [map]. change (unpack (?b :: ?d)) with (byte_bits b ++ unpack d).
  rewrite IH by (rewrite length_drop; lia). unfold byte_bits.
  replace 8%nat with (length (take 8 l)) at 1 by (rewrite length_take; lia).
  rewrite to_of_bits. apply take_drop.
Qed.

Lemma pack_ok bs : bytes_ok (pack bs).
Proof.
  unfold pack. apply Forall_map. eapply Forall_impl; [apply (chunks_length_le 8); lia|].
  cbn beta. intros c Hc. pose proof (of_bits_range c) as Hr. split; [lia|].
  eapply Z.lt_le_trans; [apply Hr|]. apply Z.pow_le_mono_r; lia.
Qed.

Lemma inflate_deflate bs :
  bs ≠ [] → blocks_okb [] bs = true → inflate (deflate bs) = Ok (foldl expand_block [] bs).
Proof.
  intros Hne Hok. unfold inflate, inflate_blocks, deflate.
  set (br := new (pack (blocks_bits 0 bs))).
  assert (Hst : stream br = blocks_bits 0 bs ++ replicate (padding (length (blocks_bits 0 bs))) false)
    by apply unpack_pack.
  destruct (reads_blocks 0 (S (bits_left br)) bs [] Hne Hok) with (br := br)
    (rest := replicate (padding (length (blocks_bits 0 bs))) false) as (br' & E & _).
  - rewrite <- length_stream, Hst, length_app. pose proof (blocks_bits_length 0 bs). lia.
  - apply new_ok, pack_ok.
  - unfold br. rewrite stream_new, length_unpack, Nat.add_0_l, Nat.mul_comm. apply Nat.Div0.mod_mul.
  - done.
  - by rewrite E.
Qed.

(** ** The wrappers *)

(** The optional fields of a gzip header. *)
Definition gzip_xfield (x : option (list Z)) : list Z :=
  match x with Some d => to_le_bytes 2 (Z.of_nat (length d)) ++ d | None => [] end.
Definition gzip_sfield (x : option (list Z)) : list Z :=
  match x with Some d => d ++ [0] | None => [] end.
Definition gzip_flags (x n c : option (list Z)) (h : option (Z * Z)) : Z :=
  (if x then 4 else 0) + (if n then 8 else 0) + (if c then 16 else 0) + (if h then 2 else 0).
Definition gzip_hfield (h : option (Z * Z)) : list Z :=
  match h with Some (a, b) => [a; b] | None => [] end.

Definition gzip_file (meta : list Z) (x n c : option (list Z)) (h : option (Z * Z)) (body trailer : list Z) : list Z :=
  [0x1F; 0x8B; 8; gzip_flags x n c h] ++ meta
  ++ gzip_xfield x ++ gzip_sfield n ++ gzip_sfield c ++ gzip_hfield h ++ body ++ trailer.

Definition zlib_file (cmf flg : Z) (body trailer : list Z) : list Z := [cmf; flg] ++ body ++ trailer.

(** A name is free of zero bytes; an extra field has a 16-bit length. *)
Definition name_ok (n : option (list Z)) : Prop :=
  match n with Some d => Forall (λ b, b ≠ 0) d | None => True end.
Definition extra_ok (x : option (list Z)) : Prop :=
  match x with Some d => Z.of_nat (length d) < 65536 | None => True end.

Lemma gzip_extra_field pre x suf flg :
  extra_ok x → Z.land flg 4 = (if x then 4 else 0) →
  gzip_extra (pre ++ gzip_xfield x ++ suf) flg (length pre) = Ok (length (pre ++ gzip_xfield x)).
Proof.
  intros Hx Hf. unfold gzip_extra. rewrite Hf. destruct x as [d|]; cbn [Z.eqb gzip_xfield].
  2: by rewrite app_nil_r.
  cbn [extra_ok] in Hx. set (b := to_le_bytes 2 _).
  assert (Hlen : length b = 2%nat) by apply length_to_le_bytes.
  rewrite <- !app_assoc, !length_app, (proj2 (Nat.ltb_ge _ _)) by lia.
  destruct b as [|b0 [|b1 [|]]] eqn:Eb; try done.
  rewrite !(app_nth2 pre) by lia. rewrite Nat.sub_diag. replace (S (length pre) - length pre)%nat with 1%nat by lia.
  cbn [nth app length]. rewrite <- Eb. unfold b. rewrite from_to_le_bytes by (unfold uN; cbn; lia). rewrite Nat2Z.id.
  rewrite (proj2 (Nat.ltb_ge _ _)) by lia. f_equal. lia.
Qed.

Lemma skip_string_field d suf pos :
  Forall (λ b, b ≠ 0) d → skip_string (d ++ 0 :: suf) pos = Ok (pos + S (length d))%nat.
Proof.
  intros Hd. revert pos. induction Hd as [|b d Hb _ IH]; intros pos; cbn [app skip_string length].
  - f_equal. cbn. lia.
  - rewrite (proj2 (Z.eqb_neq b 0)) by done. rewrite IH. f_equal. lia.
Qed.

Lemma gzip_string_field pre n suf flg mask :
  name_ok n → 0 < mask → Z.land flg mask = (if n then mask else 0) →
  gzip_string (pre ++ gzip_sfield n ++ suf) flg mask (length pre) = Ok (length (pre ++ gzip_sfield n)).
Proof.
  intros Hn Hm Hf. unfold gzip_string. rewrite Hf. destruct n as [d|]; cbn [gzip_sfield].
  2: by rewrite app_nil_r.
  rewrite (proj2 (Z.eqb_neq mask 0)) by lia. rewrite drop_app_length, <- app_assoc. cbn [app].
  rewrite skip_string_field by done. rewrite !length_app. cbn. f_equal. lia.
Qed.

Lemma gzip_hcrc_field pre (h : option (Z * Z)) suf flg :
  Z.land flg 2 = (if h then 2 else 0) →
  gzip_hcrc (pre ++ gzip_hfield h ++ suf) flg (length pre) = Ok (length (pre ++ gzip_hfield h)).
Proof.
  intros Hf. unfold gzip_hcrc. rewrite Hf. destruct h as [[a b]|]; cbn [Z.eqb gzip_hfield].
  - rewrite (proj2 (Nat.ltb_ge _ _)); [|rewrite !length_app; cbn; lia]. by rewrite length_app.
  - by rewrite app_nil_r.
Qed.

Lemma inflate_gzip_file meta x n c h body trailer :
  length meta = 6%nat → length trailer = 8%nat → extra_ok x → name_ok n → name_ok c →
  inflate_gzip (gzip_file meta x n c h body trailer) = inflate body.
Proof.
  intros Hm Ht Hx Hn Hc. unfold inflate_gzip, gzip_file.
  set (flg := gzip_flags x n c h). set (pre := [0x1F; 0x8B; 8; flg] ++ meta).
  assert (Hpre : length pre = 10%nat) by (unfold pre; rewrite length_app, Hm; done).
  assert (Hflg : Z.land flg 4 = (if x then 4 else 0) ∧ Z.land flg 8 = (if n then 8 else 0)
    ∧ Z.land flg 16 = (if c then 16 else 0) ∧ Z.land flg 2 = (if h then 2 else 0)).
  { unfold flg, gzip_flags. by destruct x, n, c, h as [[]|]. }
  destruct Hflg as (F1 & F2 & F3 & F4).
  rewrite (proj2 (Nat.ltb_ge _ _)) by (rewrite !length_app, Hm, Ht; cbn; lia).
  cbn [app nth]. cbn -[Nat.ltb gzip_extra gzip_string gzip_hcrc inflate length Nat.sub Nat.add].
  change (31 :: 139 :: 8 :: flg :: meta ++ ?l) with (pre ++ l). rewrite <- Hpre at 1.
  rewrite gzip_extra_field by done. cbn [and_then]. rewrite (app_assoc pre).
  rewrite gzip_string_field by (done || lia). cbn [and_then]. rewrite (app_assoc (pre ++ _)).
  rewrite gzip_string_field by (done || lia). cbn [and_then]. rewrite (app_assoc ((pre ++ _) ++ _)).
  rewrite gzip_hcrc_field by done. cbn [and_then]. rewrite (app_assoc (((pre ++ _) ++ _) ++ _)).
  set (front := (((pre ++ _) ++ _) ++ _) ++ _).
  rewrite !(length_app front), length_app, Ht, (proj2 (Nat.ltb_ge _ _)) by lia.
  rewrite drop_app_length. f_equal. replace (_ - 8 - _)%nat with (length body) by lia. apply take_app_length.
Qed.

Lemma inflate_zlib_file cmf flg body trailer :
  length trailer = 4%nat → Z.land cmf 15 = 8 → (cmf * 256 + flg) `mod` 31 = 0 → Z.land flg 32 = 0 →
  inflate_zlib (zlib_file cmf flg body trailer) = inflate body.
Proof.
  intros Ht H1' H2' H3. unfold inflate_zlib, zlib_file.
  rewrite !length_app, Ht, (proj2 (Nat.ltb_ge _ _)) by (cbn; lia).
  cbn [app nth]. rewrite H1', H2', H3. cbn [negb Z.eqb Pos.eqb drop length].
  f_equal. replace (2 + (length body + 4) - 6)%nat with (length body) by lia. apply take_app_length.
Qed.

(** ** What the tables leave out *)

Lemma below_mono lengths l l' : (l ≤ l')%nat → (below lengths l ≤ below lengths l')%nat.
Proof. induction 1; [done|]. rewrite below_S. lia. Qed.

(** The symbols of length [i] are those from position [below i] on. *)
Lemma sorted_entries_class lengths i r l s :
  sorted_entries lengths !! (below lengths i + r)%nat = Some (l, s) → (r < cnt lengths i)%nat → l = i.
Proof.
  intros E Hr.
  assert (Hin : (l, s) ∈ huff_entries lengths).
  { rewrite <- sorted_entries_perm. by eapply list_elem_of_lookup_2. }
  apply elem_of_huff_entries in Hin as [Hs Hl].
  pose proof (sorted_entries_lookup _ _ _ Hs Hl) as E'. pose proof (rank_lt _ _ _ Hs Hl) as Hr'.
  assert (Hnd : NoDup (sorted_entries lengths)) by (rewrite sorted_entries_perm; apply huff_entries_NoDup).
  pose proof (NoDup_lookup _ _ _ _ Hnd E E') as Eq.
  pose proof (below_S lengths i). pose proof (below_S lengths l).
  destruct (Nat.lt_trichotomy l i) as [Hlt|[Heq|Hlt]]; [|done|].
  - pose proof (below_mono lengths (S l) i Hlt). lia.
  - pose proof (below_mono lengths (S i) l Hlt). lia.
Qed.

(** A decoded symbol has a code shorter than the longest one, or of length 15. *)
Lemma decoded_symbol_short lengths t k i code br v br' :
  table_ok lengths t → (1 ≤ i)%nat → (i + k ≤ S (max_len t))%nat → 
  decode_loop t (seq i k) code br = (Ok v, br') →
  ∃ s l, v = Z.of_nat s ∧ lengths !! s = Some l ∧ (l < max_len t ∨ l = 15)%nat.
Proof.
  intros Ht. revert i code br. induction k as [|k IH]; intros i code br Hi Hk; [done|]. cbn [seq].
  destruct (read_bits 1 br) as [[bit|e] br1] eqn:E1.
  2:{ cbn [decode_loop]. unfold mbind, M_bind. by rewrite E1. }
  rewrite (decode_step _ _ i _ _ _ _ _ Ht ltac:(lia) E1). set (code' := Z.lor _ bit).
  destruct (Z.leb_spec (first_of lengths i) code'); cbn [andb]; [|apply IH; lia].
  destruct (Z.ltb_spec code' (first_of lengths i + Z.of_nat (seen lengths t i))) as [Hlt|]; [|apply IH; lia].
  unfold at_index. rewrite (tb_syms _ _ Ht), list_lookup_fmap.
  destruct (sorted_entries lengths !! _) as [[l s]|] eqn:E; [|done]. cbn. intros [= <- _].
  unfold seen in Hlt. case_bool_decide as Hseen; [|lia].
  apply sorted_entries_class in E as E'; [|lia]. subst l. exists s, i. split; [done|]. split; [|done].
  assert (Hin : (i, s) ∈ huff_entries lengths).
  { rewrite <- sorted_entries_perm. by eapply list_elem_of_lookup_2. }
  by apply elem_of_huff_entries in Hin as [? _].
Qed.

(** Finding: the decoder never returns a symbol whose code is the longest of its
    table, unless that length is 15: [sym_offset] holds 0 beyond the longest
    length, and [decode_symbol] takes the difference of two offsets as the number
    of codes. *)
Lemma longest_codes_undecodable lengths t br v br' :
  table_ok lengths t → (max_len t < 15)%nat → decode_symbol t br = (Ok v, br') →
  ∃ s l, v = Z.of_nat s ∧ lengths !! s = Some l ∧ (l < max_len t)%nat.
Proof.
  intros Ht Hm. unfold decode_symbol. destruct (_ =? _)%nat; [done|]. intros E.
  destruct (decoded_symbol_short lengths t (max_len t) 1 0 br v br' Ht ltac:(lia) ltac:(lia) E) as (s & l & H1' & H2' & H3).
  exists s, l. split; [done|]. split; [done|]. pose proof (tb_max _ _ Ht s l H2'). lia.
Qed.

(** All fixed distance codes have length 5: no match in the fixed code decodes. *)
Lemma fixed_table_max t : table_ok fixed_dlengths t → max_len t = 5%nat.
Proof.
  intros Ht. pose proof (tb_max _ _ Ht 0 5 eq_refl).
  destruct (tb_reached _ _ Ht ltac:(lia)) as [s Hs]. by apply lookup_replicate in Hs as [-> _].
Qed.

Lemma fixed_matches_undecodable br : ∀ v br', (fixed_dist ≫= decode_symbol) br ≠ (Ok v, br').
Proof.
  intros v br' E. destruct (built fixed_dlengths) as (t & Ht & Et); [apply code_okb_spec, fixed_codes_ok|].
  assert (Ef : fixed_dist br = (Ok t, br)) by exact (Et br). clear Et.
  rewrite (bind_ok _ _ _ _ _ Ef) in E. clear Ef. pose proof (fixed_table_max t Ht) as Hm.
  destruct (longest_codes_undecodable _ _ _ _ _ Ht ltac:(lia) E) as (s & l & _ & Hs & Hl).
  apply lookup_replicate in Hs as [-> _]. lia.
Qed.

(** What a standard compressor makes of a short repetitive text and of bytes above
    143 is refused. *)
Example fixed_streams_refused :
  inflate [203; 72; 205; 201; 201; 87; 200; 64; 39; 1] = Err (Error SymbolNotInTree)
  ∧ inflate [251; 255; 15; 0] = Err (Error SymbolNotInTree).
Proof. split; vm_compute; reflexivity. Qed.

(** C18: a DEFLATE stream written by the reference writer, any mix of stored blocks,
    fixed-code blocks and blocks with their own code and run-length coded header,
    decompresses to what its literals and matches stand for, also inside a zlib
    file and a gzip file with any optional header fields, provided the codes used
    are visible to the decoder ([usable]: of length 15 or shorter than the longest
    code of their table).  The trailing checksums may be anything. *)
Theorem inflate_roundtrip bs meta x n c h trailer cmf flg adler :
  bs ≠ [] → blocks_okb [] bs = true →
  length meta = 6%nat → length trailer = 8%nat → extra_ok x → name_ok n → name_ok c →
  length adler = 4%nat → Z.land cmf 15 = 8 → (cmf * 256 + flg) `mod` 31 = 0 → Z.land flg 32 = 0 →
  let out := foldl expand_block [] bs in
  inflate (deflate bs) = Ok out
  ∧ inflate_gzip (gzip_file meta x n c h (deflate bs) trailer) = Ok out
  ∧ inflate_zlib (zlib_file cmf flg (deflate bs) adler) = Ok out.
Proof.
  intros Hne Hok. intros. pose proof (inflate_deflate bs Hne Hok) as E.
  by rewrite inflate_gzip_file, inflate_zlib_file.
Qed.

(** A stream with a block of each kind.  The dynamic block codes the bytes 97 and 98,
    the end mark, matches of length 3 and the distance 1; the other codes of its
    tables only make them longer. *)
Definition demo_stream : list block :=
  [Stored [1; 2; 3];
   Fixed [Lit 72; Lit 105];
   Dynamic 286 [4; 3; 3; 3; 3; 4; 0; 0; 0; 0; 0; 0; 0; 0; 0; 0; 3; 3; 3]%nat
     [CZeros 97; CLen 2; CLen 2; CZeros 138; CZeros 19; CLen 3; CLen 3; CZeros 25; CLen 4; CLen 3; CLen 4;
      CLen 1; CLen 3; CRep 3]
     [Lit 97; Lit 98; Match 0 0 0 0]].

Lemma inflate_roundtrip_witness :
  inflate (deflate demo_stream) = Ok [1; 2; 3; 72; 105; 97; 98; 98; 98; 98]
  ∧ inflate_gzip (gzip_file [0; 0; 0; 0; 0; 3] None (Some [97]) None None (deflate demo_stream) (replicate 8 0))
    = Ok [1; 2; 3; 72; 105; 97; 98; 98; 98; 98].
Proof.
  assert (Hok : blocks_okb [] demo_stream = true) by (vm_compute; reflexivity).
  assert (Hn : name_ok (Some [97])) by (constructor; [discriminate|constructor]).
  assert (Hout : foldl expand_block [] demo_stream = [1; 2; 3; 72; 105; 97; 98; 98; 98; 98])
    by (vm_compute; reflexivity).
  rewrite <- Hout. split.
  - exact (proj1 (inflate_roundtrip demo_stream [0; 0; 0; 0; 0; 3] None (Some [97]) None None (replicate 8 0)
      0x78 0x9C (replicate 4 0) ltac:(discriminate) Hok eq_refl eq_refl I Hn I eq_refl eq_refl eq_refl eq_refl)).
  - exact (proj1 (proj2 (inflate_roundtrip demo_stream [0; 0; 0; 0; 0; 3] None (Some [97]) None None (replicate 8 0)
      0x78 0x9C (replicate 4 0) ltac:(discriminate) Hok eq_refl eq_refl I Hn I eq_refl eq_refl eq_refl eq_refl))).
Defined.
