(* ===== verification/DiskFs.v ===== *)
(** * The persistent file system ([kernel/src/drivers/diskfs.rs])

    A flat file system of at most 64 files on a block device: superblock in sector
    0, allocation bitmap in sectors 1-4, one sector per file entry from sector 5,
    data from sector 69, every sector optionally encrypted under its number.  The
    drivers are devices of class [BlockDev] ([Swap]); [ENCRYPTION], fixed after
    boot, is an argument.  A panic is [Crash].  The four bytes of padding in the
    on-disk entry are written as zeros. *)

From S2P Require Import Prelude Bits Words SmartPack Swap.

Definition DISKFS_MAGIC : Z := 0x534D4654.
Definition DISKFS_VERSION : Z := 1.
Definition MAX_FILES : nat := 64.
Definition BITMAP_START : Z := 1.
Definition BITMAP_SECTORS : nat := 4.
Definition ENTRY_START : Z := 5.
Definition DATA_START : Z := 69.
Definition MAX_NAME_LEN : nat := 120.
Definition SECTOR_SIZE : nat := 512.

(** ** Encryption *)
Record EncryptionEngine := mkEngine { key : list Z; enabled : bool }.

Definition crypt_byte (eng : EncryptionEngine) (lba : Z) (i : nat) (b : Z) : Z :=
  Z.lxor b (Z.lxor (nth (i `mod` 32)%nat (key eng) 0) (wrap 8 (wrap 8 lba + wrap 8 (Z.of_nat i)))).

Definition encrypt (eng : EncryptionEngine) (lba : Z) (data : list Z) : list Z :=
  if enabled eng then imap (crypt_byte eng lba) data else data.

Definition decrypt (eng : EncryptionEngine) (lba : Z) (data : list Z) : list Z :=
  if enabled eng then imap (crypt_byte eng lba) data else data.

(** [init_encryption]: the licence check and the random bytes of the security
    module, if there is one and it answers, are arguments. *)
Definition init_encryption (is_pro : bool) (tpm : option (list Z)) (eng : EncryptionEngine)
    : EncryptionEngine :=
  if negb is_pro then eng
  else mkEngine (match tpm with Some k => k | None => replicate 32 0xAC end) true.

(** ** Devices *)
Record Disks (D : Type) := mkDisks {
  nvme : option D;
  ahci : option D;
  ide : option D;
  virtio : D
}.
Arguments mkDisks {D} _ _ _ _.
Arguments nvme {D} _.
Arguments ahci {D} _.
Arguments ide {D} _.
Arguments virtio {D} _.

Inductive fs_stop := Fail (s : string) | Crash.

(** ** On-disk structures *)
Record FileEntry := mkEntry {
  name : list Z;
  flags : Z;
  size : Z;
  start_sector : Z;
  sector_count : Z;
  reserved : list Z
}.

Definition zeroed : FileEntry := mkEntry (replicate 120 0) 0 0 0 0 (replicate 360 0).

Definition is_active (e : FileEntry) : bool := flags e =? 1.

Fixpoint until_zero (bs : list Z) : list Z :=
  match bs with
  | [] => []
  | b :: bs' => if b =? 0 then [] else b :: until_zero bs'
  end.

Definition name_str (e : FileEntry) : list Z :=
  let s := until_zero (name e) in if utf8_valid s then s else [].

Definition set_name (nm : list Z) (e : FileEntry) : FileEntry :=
  let len := Nat.min (length nm) (MAX_NAME_LEN - 1) in
  mkEntry (take len nm ++ replicate (MAX_NAME_LEN - len) 0)
    (flags e) (size e) (start_sector e) (sector_count e) (reserved e).

Definition entry_bytes (e : FileEntry) : list Z :=
  name e ++ to_le_bytes 4 (flags e) ++ replicate 4 0 ++ to_le_bytes 8 (size e)
  ++ to_le_bytes 8 (start_sector e) ++ to_le_bytes 8 (sector_count e) ++ reserved e.

Definition field_at (off len : nat) (buf : list Z) : list Z := take len (drop off buf).

Definition parse_entry (buf : list Z) : FileEntry :=
  mkEntry (field_at 0 120 buf) (from_le_bytes (field_at 120 4 buf))
    (from_le_bytes (field_at 128 8 buf)) (from_le_bytes (field_at 136 8 buf))
    (from_le_bytes (field_at 144 8 buf)) (field_at 152 360 buf).

Definition superblock_bytes (file_count total : Z) : list Z :=
  to_le_bytes 4 DISKFS_MAGIC ++ to_le_bytes 4 DISKFS_VERSION
  ++ to_le_bytes 4 file_count ++ to_le_bytes 4 total ++ replicate 496 0.

Record DiskFs := mkDiskFs { entries : list FileEntry; bitmap : list Z; total_sectors : Z }.

(** ** The allocation bitmap *)

(** The bit of a sector; indexing past the bitmap is a failed bounds check. *)
Definition sector_used (bm : list Z) (s : Z) : option bool :=
  byte ← bm !! Z.to_nat (s `div` 8);
  Some (negb (Z.land byte (Z.shiftl 1 (s `mod` 8)) =? 0)).

Fixpoint set_sectors (n : nat) (s : Z) (bm : list Z) : option (list Z) :=
  match n with
  | O => Some bm
  | S n' =>
      byte ← bm !! Z.to_nat (s `div` 8);
      set_sectors n' (s + 1)
        (<[Z.to_nat (s `div` 8) := Z.lor byte (Z.shiftl 1 (s `mod` 8))]> bm)
  end.

Fixpoint clear_sectors (n : nat) (s : Z) (bm : list Z) : option (list Z) :=
  match n with
  | O => Some bm
  | S n' =>
      byte ← bm !! Z.to_nat (s `div` 8);
      clear_sectors n' (s + 1)
        (<[Z.to_nat (s `div` 8) := Z.land byte (Z.lxor (Z.shiftl 1 (s `mod` 8)) 0xFF)]> bm)
  end.

(** The loop of [alloc_sectors] over [n] sectors from [sector] on; [None] is a
    panic, [Some None] no run found. *)
Fixpoint alloc_loop (n : nat) (sector run_start run_len count : Z) (bm : list Z)
    : option (option (Z * list Z)) :=
  match n with
  | O => Some None
  | S n' =>
      used ← sector_used bm sector;
      if negb used then
        let run_start := if run_len =? 0 then sector else run_start in
        let run_len := run_len + 1 in
        if count <=? run_len then
          bm' ← set_sectors (Z.to_nat count) run_start bm;
          Some (Some (run_start, bm'))
        else alloc_loop n' (sector + 1) run_start run_len count bm
      else alloc_loop n' (sector + 1) run_start 0 count bm
  end.

Definition alloc_sectors (count : Z) (fs : DiskFs) : option (option (Z * list Z)) :=
  alloc_loop (Z.to_nat (total_sectors fs - DATA_START)) DATA_START DATA_START 0 count (bitmap fs).

Definition free_sectors (start count : Z) (bm : list Z) : option (list Z) :=
  clear_sectors (Z.to_nat count) start bm.

Section diskfs.
Context {D : Type} `{BlockDev D} (eng : EncryptionEngine).

(** ** Sectors *)
Definition read_dev (d : option D) (lba : Z) : option (list Z) * option D :=
  match d with
  | None => (None, None)
  | Some d =>
      match read_sector lba d with
      | (Ok b, d') => (Some b, Some d')
      | (Err _, d') => (None, Some d')
      end
  end.

(** Devices are tried in turn until one answers. *)
Definition read_sector_internal (lba : Z) : M (Disks D) fs_stop (list Z) := λ ds,
  let '(r, n') := read_dev (nvme ds) lba in
  let ds := mkDisks n' (ahci ds) (ide ds) (virtio ds) in
  match r with
  | Some b => (Ok (decrypt eng lba b), ds)
  | None =>
      let '(r, a') := read_dev (ahci ds) lba in
      let ds := mkDisks (nvme ds) a' (ide ds) (virtio ds) in
      match r with
      | Some b => (Ok (decrypt eng lba b), ds)
      | None =>
          let '(r, i') := read_dev (ide ds) lba in
          let ds := mkDisks (nvme ds) (ahci ds) i' (virtio ds) in
          match r with
          | Some b => (Ok (decrypt eng lba b), ds)
          | None =>
              let '(r, v') := read_sector lba (virtio ds) in
              let ds := mkDisks (nvme ds) (ahci ds) (ide ds) v' in
              match r with
              | Ok b => (Ok (decrypt eng lba b), ds)
              | Err e => (Err (Fail e), ds)
              end
          end
      end
  end.

Definition fail_with (r : result string unit) : result fs_stop unit :=
  match r with Ok u => Ok u | Err e => Err (Fail e) end.

(** The first device that exists takes the write. *)
Definition write_sector_internal (lba : Z) (buf : list Z) : M (Disks D) fs_stop unit := λ ds,
  let buf := encrypt eng lba buf in
  match nvme ds, ahci ds, ide ds with
  | Some d, _, _ =>
      let '(r, d') := write_sector lba buf d in
      (fail_with r, mkDisks (Some d') (ahci ds) (ide ds) (virtio ds))
  | None, Some d, _ =>
      let '(r, d') := write_sector lba buf d in
      (fail_with r, mkDisks None (Some d') (ide ds) (virtio ds))
  | None, None, Some d =>
      let '(r, d') := write_sector lba buf d in
      (fail_with r, mkDisks None None (Some d') (virtio ds))
  | None, None, None =>
      let '(r, d') := write_sector lba buf (virtio ds) in
      (fail_with r, mkDisks None None None d')
  end.

(** ** Formatting and mounting *)
Definition bitmap_sector (i : nat) (bm : list Z) : list Z := field_at (i * SECTOR_SIZE) SECTOR_SIZE bm.

Definition write_bitmap (bm : list Z) : M (Disks D) fs_stop unit :=
  for_each (λ i, write_sector_internal (BITMAP_START + Z.of_nat i) (bitmap_sector i bm))
    (seq 0 BITMAP_SECTORS).

(** Sectors below [DATA_START] are taken. *)
Definition initial_bitmap : list Z :=
  default [] (set_sectors (Z.to_nat DATA_START) 0 (replicate (BITMAP_SECTORS * SECTOR_SIZE) 0)).

Definition format (total : Z) : M (Disks D) fs_stop DiskFs :=
  write_sector_internal 0 (superblock_bytes 0 (wrap 32 total)) ≫= λ _,
  for_each (λ i, write_sector_internal (BITMAP_START + Z.of_nat i) (replicate SECTOR_SIZE 0))
    (seq 0 BITMAP_SECTORS) ≫= λ _,
  for_each (λ i, write_sector_internal (ENTRY_START + Z.of_nat i) (replicate SECTOR_SIZE 0))
    (seq 0 MAX_FILES) ≫= λ _,
  write_bitmap initial_bitmap ≫= λ _,
  mret (mkDiskFs (replicate MAX_FILES zeroed) initial_bitmap total).

Fixpoint read_sectors (n : nat) (lba : Z) : M (Disks D) fs_stop (list (list Z)) :=
  match n with
  | O => mret []
  | S n' => read_sector_internal lba ≫= λ b, read_sectors n' (lba + 1) ≫= λ bs, mret (b :: bs)
  end.

Definition mount : M (Disks D) fs_stop DiskFs :=
  read_sector_internal 0 ≫= λ sb,
  if negb (from_le_bytes (field_at 0 4 sb) =? DISKFS_MAGIC) then throw (Fail "No filesystem found") else
  let total := from_le_bytes (field_at 12 4 sb) in
  read_sectors BITMAP_SECTORS BITMAP_START ≫= λ bms,
  read_sectors MAX_FILES ENTRY_START ≫= λ es,
  mret (mkDiskFs (map parse_entry es) (concat bms) total).

(** ** Files *)
Definition matches (nm : list Z) (e : FileEntry) : bool :=
  is_active e && bool_decide (name_str e = nm).

Fixpoint position {A} (f : A → bool) (l : list A) : option nat :=
  match l with
  | [] => None
  | x :: l' => if f x then Some O else S <$> position f l'
  end.

Definition list_files (fs : DiskFs) : list (list Z) :=
  map name_str (List.filter is_active (entries fs)).

(** The loop of [read_file] from sector [i] on. *)
Fixpoint read_loop (n : nat) (i : nat) (e : FileEntry) (data : list Z) : M (Disks D) fs_stop (list Z) :=
  match n with
  | O => mret data
  | S n' =>
      read_sector_internal (start_sector e + Z.of_nat i) ≫= λ buf,
      let offset := (i * SECTOR_SIZE)%nat in
      if (Z.to_nat (size e) <? offset)%nat then throw Crash else
      let copy_len := Nat.min (Z.to_nat (size e) - offset) SECTOR_SIZE in
      read_loop n' (S i) e (copy_at offset (take copy_len buf) data)
  end.

Definition read_file (fs : DiskFs) (nm : list Z) : M (Disks D) fs_stop (list Z) :=
  match List.find (matches nm) (entries fs) with
  | None => throw (Fail "File not found")
  | Some e => read_loop (Z.to_nat (sector_count e)) 0 e (replicate (Z.to_nat (size e)) 0)
  end.

(** A method on [&mut self] works on the file system and the devices. *)
Record st := mkSt { fs : DiskFs; disks : Disks D }.

Definition on_disk {A} (m : M (Disks D) fs_stop A) : M st fs_stop A := λ s,
  let '(r, ds) := m (disks s) in (r, mkSt (fs s) ds).

Definition set_entry (slot : nat) (e : FileEntry) (f : DiskFs) : DiskFs :=
  mkDiskFs (<[slot := e]> (entries f)) (bitmap f) (total_sectors f).
Definition set_bitmap (bm : list Z) (f : DiskFs) : DiskFs := mkDiskFs (entries f) bm (total_sectors f).

Definition update_fs (g : DiskFs → DiskFs) : M st fs_stop unit := modify (λ s, mkSt (g (fs s)) (disks s)).

Definition sync_entry (slot : nat) : M st fs_stop unit := λ s,
  match entries (fs s) !! slot with
  | None => (Err Crash, s)
  | Some e => on_disk (write_sector_internal (ENTRY_START + Z.of_nat slot) (entry_bytes e)) s
  end.

Definition sync_bitmap : M st fs_stop unit := λ s, on_disk (write_bitmap (bitmap (fs s))) s.

Definition sync_superblock : M st fs_stop unit := λ s,
  on_disk (write_sector_internal 0
    (superblock_bytes (wrap 32 (Z.of_nat (length (List.filter is_active (entries (fs s))))))
       (wrap 32 (total_sectors (fs s))))) s.

Definition sync (slot : nat) : M st fs_stop unit :=
  sync_entry slot ≫= λ _, sync_bitmap ≫= λ _, sync_superblock.

Definition delete_file (nm : list Z) : M st fs_stop unit :=
  gets (λ s, position (matches nm) (entries (fs s))) ≫= λ slot : option nat,
  match slot with
  | None => throw (Fail "File not found")
  | Some slot =>
      gets (λ s, e ← entries (fs s) !! slot; free_sectors (start_sector e) (sector_count e) (bitmap (fs s))) ≫= λ bm : option (list Z),
      match bm with
      | None => throw Crash
      | Some bm =>
          update_fs (set_bitmap bm) ≫= λ _,
          update_fs (set_entry slot zeroed) ≫= λ _,
          sync slot
      end
  end.

(** [for i in 0..sectors_needed]: the last sector is filled up with zeros. *)
Definition write_data (start : Z) (data : list Z) (i : nat) : M (Disks D) fs_stop unit :=
  let offset := (i * SECTOR_SIZE)%nat in
  let copy_len := Nat.min (length data - offset) SECTOR_SIZE in
  write_sector_internal (start + Z.of_nat i)
    (field_at offset copy_len data ++ replicate (SECTOR_SIZE - copy_len) 0).

(** [write_file] once no file of this name is left. *)
Definition write_new (nm data : list Z) : M st fs_stop unit :=
  gets (λ s, position (λ e, negb (is_active e)) (entries (fs s))) ≫= λ slot : option nat,
  match slot with
  | None => throw (Fail "No free file entries")
  | Some slot =>
      let sectors_needed := ((length data + SECTOR_SIZE - 1) / SECTOR_SIZE)%nat in
      let count := Nat.max sectors_needed 1 in
      gets (λ s, alloc_sectors (Z.of_nat count) (fs s)) ≫= λ r : option (option (Z * list Z)),
      match r with
      | None => throw Crash
      | Some None => throw (Fail "No free sectors")
      | Some (Some (start, bm)) =>
          update_fs (set_bitmap bm) ≫= λ _,
          on_disk (for_each (write_data start data) (seq 0 sectors_needed)) ≫= λ _,
          update_fs (λ f, set_entry slot
            (set_name nm (mkEntry [] 1 (Z.of_nat (length data)) start (Z.of_nat count)
               (reserved (nth slot (entries f) zeroed)))) f) ≫= λ _,
          sync slot
      end
  end.

Definition write_file (nm data : list Z) : M st fs_stop unit :=
  gets (λ s, existsb (matches nm) (entries (fs s))) ≫= λ old : bool,
  (if old then delete_file nm else mret tt) ≫= λ _, write_new nm data.

(** [init]: the file system found on the disk, or a new one of the capacity the
    drivers report. *)
Definition init (total : Z) : M (Disks D) fs_stop (option DiskFs) := λ ds,
  match mount ds with
  | (Ok f, ds') => (Ok (Some f), ds')
  | (Err Crash, ds') => (Err Crash, ds')
  | (Err (Fail _), ds') =>
      if total =? 0 then (Ok None, ds') else
      match format total ds' with
      | (Ok f, ds2) => (Ok (Some f), ds2)
      | (Err Crash, ds2) => (Err Crash, ds2)
      | (Err (Fail _), ds2) => (Ok None, ds2)
      end
  end.
End diskfs.
