(* ===== verification/DiskFsProofs.v ===== *)
(** * The persistent file system keeps files

    On a device that answers, the file system refines a map from names to byte
    strings, across any history of writes, deletions and remounts. *)

From S2P Require Import Prelude Bits Words SmartPack Swap DiskFs.

(** A device that answers every request. *)
Class Reliable (D : Type) `{BlockDev D} : Prop := {
  write_total x b (d : D) : ∃ d', write_sector x b d = (Ok tt, d');
  read_total x (d : D) : ∃ d', read_sector x d = (Ok (contents d x), d')
}.

(** ** Encryption undoes itself *)
Lemma sector_decrypt_encrypt eng lba data : decrypt eng lba (encrypt eng lba data) = data.
Proof.
  unfold decrypt, encrypt. destruct (enabled eng); [|done]. apply list_eq. intros i.
  rewrite !list_lookup_imap. destruct (data !! i) as [b|]; [|done]. cbn. f_equal. unfold crypt_byte.
  by rewrite Z.lxor_assoc, Z.lxor_nilpotent, Z.lxor_0_r.
Qed.

Lemma length_encrypt eng lba data : length (encrypt eng lba data) = length data.
Proof. unfold encrypt. destruct (enabled eng); [apply length_imap|done]. Qed.

Lemma length_decrypt eng lba data : length (decrypt eng lba data) = length data.
Proof. apply length_encrypt. Qed.

(** ** The bitmap *)
Definition ubit (bm : list Z) (s : Z) : bool := Z.testbit (nth (Z.to_nat (s `div` 8)) bm 0) (s `mod` 8).

(** The sectors the bitmap covers. *)
Abbreviation covered bm s := (0 ≤ s < 8 * Z.of_nat (length bm)).

Lemma sector_used_ubit bm s : covered bm s → sector_used bm s = Some (ubit bm s).
Proof.
  intros Hs. unfold sector_used, ubit.
  destruct (lookup_lt_is_Some_2 bm (Z.to_nat (s `div` 8))) as [b Hb].
  { Z.to_euclidean_division_equations. lia. }
  rewrite Hb, (nth_lookup_Some _ _ _ _ Hb). cbn. rewrite land_bit by (Z.to_euclidean_division_equations; lia).
  by rewrite negb_involutive.
Qed.

Lemma div_mod_eq8 x s : x `div` 8 = s `div` 8 → x `mod` 8 = s `mod` 8 → x = s.
Proof. intros H1 H2. rewrite (Z.div_mod x 8), (Z.div_mod s 8) by lia. congruence. Qed.

(** A byte of the bitmap is changed at one bit. *)
Lemma ubit_insert bm s b' x (v : bool) :
  covered bm s → 0 ≤ x →
  (∀ j, 0 ≤ j < 8 → Z.testbit b' j = if j =? s `mod` 8 then v else Z.testbit (nth (Z.to_nat (s `div` 8)) bm 0) j) →
  ubit (<[Z.to_nat (s `div` 8) := b']> bm) x = if x =? s then v else ubit bm x.
Proof.
  intros Hs Hx Hb. unfold ubit.
  assert (Hmod : 0 ≤ x `mod` 8 < 8) by (apply Z.mod_pos_bound; lia).
  assert (0 ≤ x `div` 8) by (apply Z.div_pos; lia). assert (0 ≤ s `div` 8) by (apply Z.div_pos; lia).
  assert (Hlt : (Z.to_nat (s `div` 8) < length bm)%nat) by (Z.to_euclidean_division_equations; lia).
  destruct (decide (x `div` 8 = s `div` 8)) as [E|E].
  - rewrite E. erewrite nth_lookup_Some by (by apply list_lookup_insert_eq). rewrite Hb by done.
    destruct (Z.eqb_spec x s) as [->|Hne]; [by rewrite Z.eqb_refl|].
    rewrite (proj2 (Z.eqb_neq _ _)); [done|]. intros Em. apply Hne. by apply div_mod_eq8.
  - rewrite (proj2 (Z.eqb_neq x s)) by (intros ->; done). f_equal. 
    rewrite !nth_lookup. by rewrite list_lookup_insert_ne by lia.
Qed.

Lemma set_sectors_spec n s bm :
  0 ≤ s → s + Z.of_nat n ≤ 8 * Z.of_nat (length bm) → bytes_ok bm →
  ∃ bm', set_sectors n s bm = Some bm' ∧ length bm' = length bm ∧ bytes_ok bm'
    ∧ ∀ x, 0 ≤ x → ubit bm' x = (s <=? x) && (x <? s + Z.of_nat n) || ubit bm x.
Proof.
  revert s bm. induction n as [|n IH]; intros s bm Hs Hn Hok.
  { exists bm. split; [done|]. split; [done|]. split; [done|]. intros x Hx.
    destruct (Z.leb_spec s x), (Z.ltb_spec x (s + Z.of_nat 0)); (done || lia). }
  cbn [set_sectors].
  destruct (lookup_lt_is_Some_2 bm (Z.to_nat (s `div` 8))) as [b Hb].
  { Z.to_euclidean_division_equations. lia. }
  rewrite Hb. cbn [mbind option_bind].
  assert (Hm : 0 ≤ s `mod` 8 < 8) by (apply Z.mod_pos_bound; lia).
  pose proof (Forall_lookup_1 _ _ _ _ Hok Hb) as Hb8.
  set (b' := Z.lor b (Z.shiftl 1 (s `mod` 8))).
  destruct (IH (s + 1) (<[Z.to_nat (s `div` 8) := b']> bm)) as (bm' & E & H1 & H2 & H3).
  - lia.
  - rewrite length_insert. lia.
  - apply Forall_insert; [done|]. apply testbit_uN; [lia|apply Z.lor_nonneg; split; [apply Hb8|apply Z.shiftl_nonneg; lia]|].
    intros j Hj. unfold b'. rewrite testbit_set, (uN_testbit_high 8 b j) by (done || lia).
    destruct (Z.eqb_spec j (s `mod` 8)); [lia|done].
  - exists bm'. split; [done|]. rewrite length_insert in H1. split; [done|]. split; [done|].
    intros x Hx. rewrite H3 by done. rewrite (ubit_insert bm s b' x true); [|lia|done|].
    + destruct (Z.eqb_spec x s), (Z.leb_spec (s + 1) x), (Z.ltb_spec x (s + 1 + Z.of_nat n)),
        (Z.leb_spec s x), (Z.ltb_spec x (s + Z.of_nat (S n))); try lia; cbn; by rewrite ?orb_true_r.
    + intros j Hj. unfold b'. rewrite testbit_set, (nth_lookup_Some _ _ _ _ Hb) by lia.
      destruct (j =? s `mod` 8); [by rewrite orb_true_r|by rewrite orb_false_r].
Qed.

Lemma clear_sectors_spec n s bm :
  0 ≤ s → s + Z.of_nat n ≤ 8 * Z.of_nat (length bm) → bytes_ok bm →
  ∃ bm', clear_sectors n s bm = Some bm' ∧ length bm' = length bm ∧ bytes_ok bm'
    ∧ ∀ x, 0 ≤ x → ubit bm' x = negb ((s <=? x) && (x <? s + Z.of_nat n)) && ubit bm x.
Proof.
  revert s bm. induction n as [|n IH]; intros s bm Hs Hn Hok.
  { exists bm. split; [done|]. split; [done|]. split; [done|]. intros x Hx.
    destruct (Z.leb_spec s x), (Z.ltb_spec x (s + Z.of_nat 0)); (done || lia). }
  cbn [clear_sectors].
  destruct (lookup_lt_is_Some_2 bm (Z.to_nat (s `div` 8))) as [b Hb].
  { Z.to_euclidean_division_equations. lia. }
  rewrite Hb. cbn [mbind option_bind].
  assert (Hm : 0 ≤ s `mod` 8 < 8) by (apply Z.mod_pos_bound; lia).
  pose proof (Forall_lookup_1 _ _ _ _ Hok Hb) as Hb8.
  set (b' := Z.land b (Z.lxor (Z.shiftl 1 (s `mod` 8)) 0xFF)).
  assert (Hbit : ∀ j, 0 ≤ j → Z.testbit b' j = Z.testbit b j && xorb (j =? s `mod` 8) (j <? 8)).
  { intros j Hj. unfold b'. change 0xFF with (Z.ones 8).
    by rewrite Z.land_spec, Z.lxor_spec, testbit_shiftl1, Z.testbit_ones_nonneg by lia. }
  destruct (IH (s + 1) (<[Z.to_nat (s `div` 8) := b']> bm)) as (bm' & E & H1 & H2 & H3).
  - lia.
  - rewrite length_insert. lia.
  - apply Forall_insert; [done|]. apply testbit_uN; [lia|apply Z.land_nonneg; left; apply Hb8|].
    intros j Hj. by rewrite Hbit, (uN_testbit_high 8 b j) by (done || lia).
  - exists bm'. split; [done|]. rewrite length_insert in H1. split; [done|]. split; [done|].
    intros x Hx. rewrite H3 by done. rewrite (ubit_insert bm s b' x false); [|lia|done|].
    + destruct (Z.eqb_spec x s), (Z.leb_spec (s + 1) x), (Z.ltb_spec x (s + 1 + Z.of_nat n)),
        (Z.leb_spec s x), (Z.ltb_spec x (s + Z.of_nat (S n))); try lia; cbn; done.
    + intros j Hj. rewrite Hbit, (nth_lookup_Some _ _ _ _ Hb), (proj2 (Z.ltb_lt j 8)) by lia.
      destruct (j =? s `mod` 8); [apply andb_false_r|apply andb_true_r].
Qed.

(** [count] free sectors from [s] on. *)
Definition free_run (bm : list Z) (s count : Z) : Prop := ∀ x, s ≤ x < s + count → ubit bm x = false.

Lemma alloc_loop_spec n sector rs rl count bm :
  0 ≤ rl < count → rl ≤ sector → sector + Z.of_nat n ≤ 8 * Z.of_nat (length bm) → bytes_ok bm →
  (rl > 0 → rs = sector - rl) → free_run bm (sector - rl) rl →
  match alloc_loop n sector rs rl count bm with
  | None => False
  | Some None =>
      ∀ s, sector - rl ≤ s → s + count ≤ sector + Z.of_nat n → ¬ free_run bm s count
  | Some (Some (s, bm')) =>
      sector - rl ≤ s ∧ s + count ≤ sector + Z.of_nat n ∧ free_run bm s count
      ∧ length bm' = length bm ∧ bytes_ok bm'
      ∧ ∀ x, 0 ≤ x → ubit bm' x = (s <=? x) && (x <? s + count) || ubit bm x
  end.
Proof.
  revert sector rs rl. induction n as [|n IH]; intros sector rs rl Hrl Hsec Hn Hok Hrs Hfree.
  { cbn. intros s Hs1 Hs2. lia. }
  cbn [alloc_loop]. rewrite sector_used_ubit by lia. cbn [mbind option_bind].
  destruct (ubit bm sector) eqn:Eu; cbn [negb].
  - specialize (IH (sector + 1) rs 0 ltac:(lia) ltac:(lia) ltac:(lia) Hok ltac:(lia)).
    assert (Hz : free_run bm (sector + 1 - 0) 0) by (intros x Hx; lia). specialize (IH Hz).
    destruct (alloc_loop n (sector + 1) rs 0 count bm) as [[[s bm']|]|]; [|intros s Hs1 Hs2 Hr|done].
    + destruct IH as (A1 & A2 & A3). split; [lia|]. split; [lia|done].
    + destruct (Z_le_gt_dec s sector) as [Hle|].
      * destruct (Z_lt_le_dec sector (s + count)) as [Hlt|]; [|lia].
        specialize (Hr sector ltac:(lia)). congruence.
      * apply (IH s ltac:(lia) ltac:(lia) Hr).
  - set (rs' := if rl =? 0 then sector else rs).
    assert (Hrs' : rs' = sector - rl).
    { unfold rs'. destruct (Z.eqb_spec rl 0); [lia|apply Hrs; lia]. }
    assert (Hfree' : free_run bm rs' (rl + 1)).
    { intros x Hx. destruct (decide (x = sector)) as [->|]; [done|]. apply Hfree. lia. }
    destruct (Z.leb_spec count (rl + 1)).
    + assert (count = rl + 1) as -> by lia.
      destruct (set_sectors_spec (Z.to_nat (rl + 1)) rs' bm) as (bm' & -> & A1 & A2 & A3); [lia|lia|done|].
      cbn [mbind option_bind]. split; [lia|]. split; [lia|]. split; [done|]. split; [done|]. split; [done|].
      intros x Hx. rewrite A3 by done. by rewrite Z2Nat.id by lia.
    + specialize (IH (sector + 1) rs' (rl + 1) ltac:(lia) ltac:(lia) ltac:(lia) Hok ltac:(lia)).
      replace (sector + 1 - (rl + 1)) with (sector - rl) in IH by lia. rewrite <- Hrs' in IH.
      specialize (IH Hfree'). rewrite <- Hrs'.
      destruct (alloc_loop n (sector + 1) rs' (rl + 1) count bm) as [[[s bm']|]|]; [|intros s Hs1 Hs2|done].
      * destruct IH as (A1 & A2 & A3). split; [lia|]. split; [lia|done].
      * apply IH; lia.
Qed.

(** ** Sectors of the primary device *)
Section disk.
Context {D : Type} `{Reliable D} (eng : EncryptionEngine).

Definition primary (ds : Disks D) : D :=
  match nvme ds, ahci ds, ide ds with
  | Some d, _, _ | None, Some d, _ | None, None, Some d => d
  | None, None, None => virtio ds
  end.

(** What the file system sees on the disk. *)
Definition image (ds : Disks D) (x : Z) : list Z := decrypt eng x (contents (primary ds) x).

Lemma length_image ds x : length (image ds x) = 512%nat.
Proof. unfold image. rewrite length_decrypt. apply contents_len. Qed.

Lemma read_internal_ok lba ds :
  ∃ ds', read_sector_internal eng lba ds = (Ok (image ds lba), ds') ∧ ∀ x, image ds' x = image ds x.
Proof.
  unfold read_sector_internal, image, primary, read_dev. destruct ds as [[d|] a i v]; cbn [nvme ahci ide virtio].
  { destruct (read_total lba d) as [d' E]. rewrite E. eexists; split; [done|].
    intros x. cbn. by rewrite (read_same _ _ _ _ x E). }
  destruct a as [d|].
  { destruct (read_total lba d) as [d' E]. cbn. rewrite E. eexists; split; [done|].
    intros x. cbn. by rewrite (read_same _ _ _ _ x E). }
  destruct i as [d|].
  { destruct (read_total lba d) as [d' E]. cbn. rewrite E. eexists; split; [done|].
    intros x. cbn. by rewrite (read_same _ _ _ _ x E). }
  destruct (read_total lba v) as [d' E]. cbn. rewrite E. eexists; split; [done|].
  intros x. cbn. by rewrite (read_same _ _ _ _ x E).
Qed.

Definition upd (lba : Z) (b : list Z) (img : Z → list Z) (x : Z) : list Z := if x =? lba then b else img x.

Lemma write_internal_ok lba b ds :
  length b = 512%nat →
  ∃ ds', write_sector_internal eng lba b ds = (Ok tt, ds') ∧ ∀ x, image ds' x = upd lba b (image ds) x.
Proof.
  intros Hb.
  assert (Hw : ∀ d, ∃ d', write_sector lba (encrypt eng lba b) d = (Ok tt, d') ∧
    ∀ x, decrypt eng x (contents d' x) = upd lba b (λ x, decrypt eng x (contents d x)) x).
  { intros d. destruct (write_total lba (encrypt eng lba b) d) as [d' E]. exists d'. split; [done|].
    intros x. unfold upd. destruct (Z.eqb_spec x lba) as [->|Hne].
    - rewrite (write_ok _ _ _ _ E) by (by rewrite length_encrypt). apply sector_decrypt_encrypt.
    - by rewrite (write_other _ _ _ _ _ _ E). }
  unfold write_sector_internal, image, primary.
  destruct ds as [[d|] [a|] [i|] v]; cbn [nvme ahci ide virtio].
  all: match goal with |- context [write_sector _ _ ?d] => destruct (Hw d) as (d' & -> & Hx) end.
  all: eexists; split; [done|]; exact Hx.
Qed.
End disk.

(** ** Runs of sectors *)
Section runs.
Context {D : Type} `{Reliable D} (eng : EncryptionEngine).

Lemma write_run (f : nat → list Z) base k n ds :
  (∀ i, (k ≤ i < k + n)%nat → length (f i) = 512%nat) →
  ∃ ds', for_each (λ i, write_sector_internal eng (base + Z.of_nat i) (f i)) (seq k n) ds = (Ok tt, ds')
    ∧ ∀ x, image eng ds' x
           = if (base + Z.of_nat k <=? x) && (x <? base + Z.of_nat (k + n))
             then f (Z.to_nat (x - base)) else image eng ds x.
Proof.
  revert k ds. induction n as [|n IH]; intros k ds Hf.
  { exists ds. split; [done|]. intros x.
    destruct (Z.leb_spec (base + Z.of_nat k) x), (Z.ltb_spec x (base + Z.of_nat (k + 0))); (done || lia). }
  cbn [seq]. destruct (write_internal_ok eng (base + Z.of_nat k) (f k) ds) as (ds1 & E1 & Hi1); [apply Hf; lia|].
  destruct (IH (S k) ds1) as (ds2 & E2 & Hi2); [intros; apply Hf; lia|].
  exists ds2. cbn [for_each]. unfold mbind, M_bind. rewrite E1. split; [exact E2|].
  intros x. rewrite Hi2, Hi1. unfold upd. destruct (Z.eqb_spec x (base + Z.of_nat k)) as [->|].
  - rewrite (proj2 (Z.leb_gt _ _)) by lia. cbn [andb]. zbool. cbn [andb]. f_equal. lia.
  - destruct (Z.leb_spec (base + Z.of_nat (S k)) x), (Z.ltb_spec x (base + Z.of_nat (S k + n))),
      (Z.leb_spec (base + Z.of_nat k) x), (Z.ltb_spec x (base + Z.of_nat (k + S n))); (done || lia).
Qed.

Lemma read_run n lba ds :
  ∃ ds', read_sectors eng n lba ds = (Ok (map (image eng ds) (seqZ lba (Z.of_nat n))), ds')
    ∧ ∀ x, image eng ds' x = image eng ds x.
Proof.
  revert lba ds. induction n as [|n IH]; intros lba ds; [by exists ds|].
  cbn [read_sectors]. destruct (read_internal_ok eng lba ds) as (ds1 & E1 & Hi1).
  destruct (IH (lba + 1) ds1) as (ds2 & E2 & Hi2). exists ds2.
  unfold mbind, M_bind. rewrite E1, E2. rewrite (seqZ_cons lba) by lia. cbn [map].
  rewrite <- Z.add_1_r. replace (Z.pred (Z.of_nat (S n))) with (Z.of_nat n) by lia.
  split.
  - unfold mret, M_ret. do 3 f_equal. apply map_ext. intros x. apply Hi1.
  - intros x. by rewrite Hi2, Hi1.
Qed.

(** ** Reading a file *)
Definition file_data (img : Z → list Z) (e : FileEntry) : list Z :=
  take (Z.to_nat (size e)) (concat (map img (seqZ (start_sector e) (sector_count e)))).

Lemma file_read_loop_spec n i e data ds :
  length data = Z.to_nat (size e) → (Z.to_nat (size e) ≤ (i + n) * 512)%nat →
  ((i + n - 1) * 512 ≤ Z.to_nat (size e))%nat →
  ∃ ds', read_loop eng n i e data ds
         = (Ok (take (i * 512) data
                ++ take (Z.to_nat (size e) - i * 512)
                     (concat (map (image eng ds) (seqZ (start_sector e + Z.of_nat i) (Z.of_nat n))))), ds')
    ∧ ∀ x, image eng ds' x = image eng ds x.
Proof.
  revert i data ds. induction n as [|n IH]; intros i data ds Hd Hn Hlast.
  { exists ds. split; [|done]. cbn [read_loop]. rewrite seqZ_nil by lia. cbn [map concat].
    by rewrite take_nil, app_nil_r, take_ge by lia. }
  cbn [read_loop]. destruct (read_internal_ok eng (start_sector e + Z.of_nat i) ds) as (ds1 & E1 & Hi1).
  unfold mbind, M_bind. rewrite E1. change SECTOR_SIZE with 512%nat.
  pose proof (length_image eng ds (start_sector e + Z.of_nat i)) as Hlb.
  set (b := image eng ds (start_sector e + Z.of_nat i)) in *.
  set (sz := Z.to_nat (size e)) in *. rewrite (proj2 (Nat.ltb_ge sz (i * 512))) by lia.
  set (cl := Nat.min (sz - i * 512) 512).
  assert (Hc : length (take cl b) = cl) by (rewrite length_take; lia).
  set (data' := copy_at (i * 512) (take cl b) data).
  assert (Hd' : data' = take (i * 512) data ++ take cl b ++ drop (i * 512 + cl) data)
    by (unfold data', copy_at; by rewrite Hc).
  destruct (IH (S i) data' ds1) as (ds2 & E2 & Hi2).
  - rewrite Hd', !length_app, Hc, length_take, length_drop. lia.
  - lia.
  - lia.
  - exists ds2. split; [|intros x; by rewrite Hi2, Hi1]. rewrite E2. do 2 f_equal.
    rewrite (seqZ_cons (start_sector e + Z.of_nat i)) by lia.
    replace (Z.pred (Z.of_nat (S n))) with (Z.of_nat n) by lia. cbn [map concat]. fold b.
    replace (Z.succ (start_sector e + Z.of_nat i)) with (start_sector e + Z.of_nat (S i)) by lia.
    rewrite (map_ext (image eng ds1) (image eng ds)) by done.
    set (rest := concat _). rewrite Hd', app_assoc.
    destruct (decide (512 ≤ sz - i * 512)%nat).
    + assert (cl = 512)%nat as Ecl by lia. rewrite Ecl.
      rewrite (take_ge b) by lia. rewrite (take_app_length' _ _ (S i * 512)); [|rewrite length_app, length_take, Hlb; lia].
      rewrite <- app_assoc. f_equal. rewrite (take_app_ge b) by lia. f_equal. f_equal. lia.
    + assert (n = 0)%nat as -> by lia. assert (cl = sz - i * 512)%nat as Ecl by lia.
      rewrite (drop_ge data) by lia. rewrite app_nil_r.
      rewrite (take_ge (_ ++ _)) by (rewrite length_app, Hc, length_take; lia).
      replace (sz - S i * 512)%nat with 0%nat by lia. rewrite take_0, app_nil_r, Ecl.
      by rewrite take_app_le by lia.
Qed.

(** ** Writing the data of a file *)
Definition piece (data : list Z) (i : nat) : list Z :=
  let cl := Nat.min (length data - i * 512) 512 in
  field_at (i * 512) cl data ++ replicate (512 - cl) 0.

Lemma length_piece data i : length (piece data i) = 512%nat.
Proof.
  unfold piece, field_at. rewrite length_app, length_replicate, length_take, length_drop. lia.
Qed.

Lemma pieces_concat data n k :
  (length data ≤ (k + n) * 512)%nat →
  take (length data - k * 512) (concat (map (piece data) (seq k n))) = drop (k * 512) data.
Proof.
  revert k. induction n as [|n IH]; intros k Hn.
  { rewrite drop_ge by lia. cbn [seq map concat]; by rewrite take_nil. }
  cbn [seq map concat]. destruct (decide (512 ≤ length data - k * 512)%nat).
  - rewrite take_app_ge by (rewrite length_piece; lia). rewrite length_piece.
    replace (length data - k * 512 - 512)%nat with (length data - S k * 512)%nat by lia. rewrite IH by lia.
    unfold piece, field_at. replace (Nat.min _ 512) with 512%nat by lia. cbn [Nat.sub replicate]. rewrite app_nil_r.
    replace (S k * 512)%nat with (k * 512 + 512)%nat by lia. rewrite <- drop_drop. apply take_drop.
  - rewrite take_app_le by (rewrite length_piece; lia).
    unfold piece, field_at. replace (Nat.min _ 512) with (length data - k * 512)%nat by lia.
    rewrite take_app_le by (rewrite length_take, length_drop; lia).
    rewrite !take_ge; [done|rewrite length_drop; lia|rewrite length_take; lia].
Qed.
End runs.

(** ** Entries on disk *)
Record entry_shape (e : FileEntry) : Prop := {
  es_name : length (name e) = 120%nat;
  es_flags : uN 32 (flags e);
  es_size : uN 64 (size e);
  es_start : uN 64 (start_sector e);
  es_count : uN 64 (sector_count e);
  es_reserved : length (reserved e) = 360%nat
}.

Lemma length_entry_bytes e : entry_shape e → length (entry_bytes e) = 512%nat.
Proof.
  intros [? _ _ _ _ ?]. unfold entry_bytes. rewrite !length_app, !length_to_le_bytes, length_replicate. lia.
Qed.

Lemma field_at_app pre f suf off len :
  length pre = off → length f = len → field_at off len (pre ++ f ++ suf) = f.
Proof. intros <- <-. unfold field_at. by rewrite drop_app_length, take_app_length. Qed.

Lemma parse_entry_bytes e : entry_shape e → parse_entry (entry_bytes e) = e.
Proof.
  intros [Hn Hf Hs Hst Hc Hr]. unfold parse_entry, entry_bytes.
  set (fl := to_le_bytes 4 (flags e)). set (sz := to_le_bytes 8 (size e)).
  set (ss := to_le_bytes 8 (start_sector e)). set (sc := to_le_bytes 8 (sector_count e)).
  assert (L : length fl = 4%nat ∧ length sz = 8%nat ∧ length ss = 8%nat ∧ length sc = 8%nat)
    by (repeat split; apply length_to_le_bytes).
  destruct L as (L1 & L2 & L3 & L4).
  assert (E0 : field_at 0 120 (name e ++ fl ++ replicate 4 0 ++ sz ++ ss ++ sc ++ reserved e) = name e)
    by (apply (field_at_app []); done).
  assert (E1 : field_at 120 4 (name e ++ fl ++ replicate 4 0 ++ sz ++ ss ++ sc ++ reserved e) = fl)
    by (apply (field_at_app (name e)); done).
  assert (E2 : field_at 128 8 (name e ++ fl ++ replicate 4 0 ++ sz ++ ss ++ sc ++ reserved e) = sz).
  { rewrite !(app_assoc (name e)), !(app_assoc (_ ++ fl)). apply field_at_app; [|done].
    rewrite !length_app, Hn, L1. done. }
  assert (E3 : field_at 136 8 (name e ++ fl ++ replicate 4 0 ++ sz ++ ss ++ sc ++ reserved e) = ss).
  { rewrite !(app_assoc (name e)), !(app_assoc (_ ++ fl)), (app_assoc (_ ++ replicate 4 0)).
    apply field_at_app; [|done]. rewrite !length_app, Hn, L1, L2. done. }
  assert (E4 : field_at 144 8 (name e ++ fl ++ replicate 4 0 ++ sz ++ ss ++ sc ++ reserved e) = sc).
  { rewrite !(app_assoc (name e)), !(app_assoc (_ ++ fl)), (app_assoc (_ ++ replicate 4 0)), (app_assoc (_ ++ sz)).
    apply field_at_app; [|done]. rewrite !length_app, Hn, L1, L2, L3. done. }
  assert (E5 : field_at 152 360 (name e ++ fl ++ replicate 4 0 ++ sz ++ ss ++ sc ++ reserved e) = reserved e).
  { rewrite !(app_assoc (name e)), !(app_assoc (_ ++ fl)), (app_assoc (_ ++ replicate 4 0)), (app_assoc (_ ++ sz)),
      (app_assoc (_ ++ ss)). rewrite <- (app_nil_r (reserved e)) at 1.
    apply field_at_app; [|done]. rewrite !length_app, Hn, L1, L2, L3, L4. done. }
  rewrite E0, E1, E2, E3, E4, E5. unfold fl, sz, ss, sc.
  rewrite !from_to_le_bytes by done. by destruct e.
Qed.

Lemma zeroed_shape : entry_shape zeroed.
Proof. split; done. Qed.

(** ** Names *)
Record name_fits (nm : list Z) : Prop := {
  nf_utf8 : utf8_valid nm = true;
  nf_length : (length nm ≤ 119)%nat;
  nf_nonzero : Forall (λ b, b ≠ 0) nm
}.

Lemma until_zero_app nm rest : Forall (λ b, b ≠ 0) nm → until_zero (nm ++ 0 :: rest) = nm.
Proof.
  induction 1 as [|b nm Hb _ IH]; [done|]. cbn [app until_zero].
  rewrite (proj2 (Z.eqb_neq b 0)) by done. by rewrite IH.
Qed.

Lemma name_str_set nm e : name_fits nm → name_str (set_name nm e) = nm.
Proof.
  intros [Hu Hl Hz]. unfold name_str, set_name. cbn [name].
  change (MAX_NAME_LEN - 1)%nat with 119%nat. rewrite Nat.min_l by lia. rewrite take_ge by lia.
  change MAX_NAME_LEN with 120%nat. destruct (120 - length nm)%nat as [|k] eqn:E; [lia|].
  cbn [replicate]. rewrite until_zero_app by done. by rewrite Hu.
Qed.

Lemma set_name_shape nm e :
  uN 32 (flags e) → uN 64 (size e) → uN 64 (start_sector e) → uN 64 (sector_count e) →
  length (reserved e) = 360%nat → entry_shape (set_name nm e).
Proof.
  intros. unfold set_name. split; cbn [name flags size start_sector sector_count reserved]; try done.
  change MAX_NAME_LEN with 120%nat. rewrite length_app, length_take, length_replicate. lia.
Qed.

(** ** The file system and its image *)
Record shaped (f : DiskFs) : Prop := {
  sh_entries : length (entries f) = 64%nat;
  sh_entry : Forall entry_shape (entries f);
  sh_bitmap : length (bitmap f) = 2048%nat;
  sh_bytes : bytes_ok (bitmap f);
  sh_total : 69 ≤ total_sectors f ≤ 16384
}.

Definition active_count (f : DiskFs) : Z := Z.of_nat (length (List.filter is_active (entries f))).

(** The metadata on the disk is that of [f]. *)
Record synced (f : DiskFs) (img : Z → list Z) : Prop := {
  sy_super : img 0 = superblock_bytes (wrap 32 (active_count f)) (wrap 32 (total_sectors f));
  sy_bitmap i : (i < 4)%nat → img (1 + Z.of_nat i) = bitmap_sector i (bitmap f);
  sy_entry i e : entries f !! i = Some e → img (5 + Z.of_nat i) = entry_bytes e
}.

Lemma synced_ext f img img' : (∀ x, img' x = img x) → synced f img → synced f img'.
Proof. intros Hx [H1 H2 H3]. split; intros; rewrite Hx; auto. Qed.

Lemma length_bitmap_sector bm i : length bm = 2048%nat → (i < 4)%nat → length (bitmap_sector i bm) = 512%nat.
Proof.
  intros Hl Hi. unfold bitmap_sector, field_at. change SECTOR_SIZE with 512%nat.
  rewrite length_take, length_drop. lia.
Qed.

Lemma length_superblock c t : length (superblock_bytes c t) = 512%nat.
Proof. unfold superblock_bytes. by rewrite !length_app, !length_to_le_bytes, length_replicate. Qed.

Lemma bitmap_sectors_concat bm :
  length bm = 2048%nat → concat (map (λ i, bitmap_sector i bm) (seq 0 4)) = bm.
Proof.
  intros Hl. cbn [seq map concat]. unfold bitmap_sector, field_at. change SECTOR_SIZE with 512%nat.
  cbn [Nat.mul Nat.add]. rewrite app_nil_r. rewrite drop_0.
  rewrite (take_ge (drop 1536 bm)) by (rewrite length_drop; lia).
  change 1536%nat with (1024 + 512)%nat at 1. rewrite <- (drop_drop bm 512 1024), take_drop.
  change 1024%nat with (512 + 512)%nat at 1. rewrite <- (drop_drop bm 512 512), take_drop. apply take_drop.
Qed.

Section metadata.
Context {D : Type} `{Reliable D} (eng : EncryptionEngine).

Lemma on_disk_ok {A} (m : M (Disks D) fs_stop A) s r ds :
  m (disks s) = (r, ds) → on_disk m s = (r, mkSt (fs s) ds).
Proof. intros E. unfold on_disk. by rewrite E. Qed.

Lemma bind_run {S A B} (m : M S fs_stop A) (k : A → M S fs_stop B) s a s' :
  m s = (Ok a, s') → (m ≫= k) s = k a s'.
Proof. unfold mbind, M_bind. by intros ->. Qed.

Lemma write_bitmap_ok bm ds :
  length bm = 2048%nat →
  ∃ ds', write_bitmap eng bm ds = (Ok tt, ds')
    ∧ (∀ i, (i < 4)%nat → image eng ds' (1 + Z.of_nat i) = bitmap_sector i bm)
    ∧ ∀ x, x < 1 ∨ 5 ≤ x → image eng ds' x = image eng ds x.
Proof.
  intros Hl. destruct (write_run eng (λ i, bitmap_sector i bm) 1 0 4 ds) as (ds' & E & Hi).
  { intros i Hi. apply length_bitmap_sector; [done|lia]. }
  exists ds'. split; [exact E|]. split.
  - intros i Hlt. rewrite Hi. zbool. cbn [andb]. f_equal. lia.
  - intros x Hx. rewrite Hi. 
    destruct (Z.leb_spec (1 + Z.of_nat 0) x), (Z.ltb_spec x (1 + Z.of_nat (0 + 4))); (done || lia).
Qed.

(** After [sync] the disk holds the metadata of the file system, if only one entry
    had changed; file data stay. *)
Lemma sync_ok slot s :
  shaped (fs s) → (slot < 64)%nat →
  (∀ i e, i ≠ slot → entries (fs s) !! i = Some e → image eng (disks s) (5 + Z.of_nat i) = entry_bytes e) →
  ∃ ds', sync eng slot s = (Ok tt, mkSt (fs s) ds') ∧ synced (fs s) (image eng ds')
    ∧ ∀ x, 69 ≤ x → image eng ds' x = image eng (disks s) x.
Proof.
  intros Hsh Hslot Hothers. destruct (lookup_lt_is_Some_2 (entries (fs s)) slot) as [e He].
  { rewrite (sh_entries _ Hsh). lia. }
  pose proof (Forall_lookup_1 _ _ _ _ (sh_entry _ Hsh) He) as Hes.
  destruct (write_internal_ok eng (5 + Z.of_nat slot) (entry_bytes e) (disks s)) as (ds1 & E1 & I1).
  { by apply length_entry_bytes. }
  destruct (write_bitmap_ok (bitmap (fs s)) ds1) as (ds2 & E2 & I2 & I2'); [apply sh_bitmap, Hsh|].
  destruct (write_internal_ok eng 0 (superblock_bytes (wrap 32 (active_count (fs s))) (wrap 32 (total_sectors (fs s)))) ds2)
    as (ds3 & E3 & I3); [apply length_superblock|].
  exists ds3. split.
  { unfold sync. assert (Es : sync_entry eng slot s = (Ok tt, mkSt (fs s) ds1)).
    { unfold sync_entry. rewrite He. by apply on_disk_ok. }
    rewrite (bind_run _ _ _ _ _ Es).
    assert (Eb : sync_bitmap eng (mkSt (fs s) ds1) = (Ok tt, mkSt (fs s) ds2))
      by (unfold sync_bitmap, on_disk; cbn [fs disks]; by rewrite E2).
    rewrite (bind_run _ _ _ _ _ Eb). unfold sync_superblock, on_disk. cbn [fs disks].
    fold (active_count (fs s)). by rewrite E3. }
  split; [split|].
  - by rewrite I3.
  - intros i Hi. rewrite I3. unfold upd. zbool. by apply I2.
  - intros i e' He'. rewrite I3. unfold upd. zbool. rewrite I2' by lia. rewrite I1. unfold upd.
    destruct (Z.eqb_spec (5 + Z.of_nat i) (5 + Z.of_nat slot)).
    + assert (i = slot) as -> by lia. congruence.
    + apply Hothers; [|done]. intros ->. lia.
  - intros x Hx. rewrite I3. unfold upd. zbool. rewrite I2' by lia. rewrite I1. unfold upd. by zbool.
Qed.

Lemma superblock_fields c t :
  uN 32 t → from_le_bytes (field_at 0 4 (superblock_bytes c t)) = DISKFS_MAGIC
  ∧ from_le_bytes (field_at 12 4 (superblock_bytes c t)) = t.
Proof.
  intros Ht. unfold superblock_bytes. split.
  - transitivity (from_le_bytes (to_le_bytes 4 DISKFS_MAGIC)); [|by apply from_to_le_bytes].
    done.
  - rewrite !(app_assoc (to_le_bytes 4 DISKFS_MAGIC)), (app_assoc (_ ++ to_le_bytes 4 DISKFS_VERSION)).
    rewrite field_at_app; [by apply from_to_le_bytes| |apply length_to_le_bytes].
    by rewrite !length_app, !length_to_le_bytes.
Qed.

(** Mounting gives the file system whose metadata is on the disk. *)
Lemma mount_ok f ds :
  shaped f → synced f (image eng ds) →
  ∃ ds', mount eng ds = (Ok f, ds') ∧ ∀ x, image eng ds' x = image eng ds x.
Proof.
  intros Hsh [Hsb Hbm Hen]. unfold mount.
  assert (Ht : wrap 32 (total_sectors f) = total_sectors f).
  { apply wrap_id. pose proof (sh_total _ Hsh). unfold uN. lia. }
  rewrite Ht in Hsb.
  destruct (superblock_fields (wrap 32 (active_count f)) (total_sectors f)) as [F1 F2].
  { pose proof (sh_total _ Hsh). unfold uN. lia. }
  destruct (read_internal_ok eng 0 ds) as (ds1 & E1 & I1). rewrite (bind_run _ _ _ _ _ E1).
  rewrite Hsb, F1, F2, Z.eqb_refl. cbn [negb].
  destruct (read_run eng BITMAP_SECTORS BITMAP_START ds1) as (ds2 & E2 & I2). rewrite (bind_run _ _ _ _ _ E2).
  destruct (read_run eng MAX_FILES ENTRY_START ds2) as (ds3 & E3 & I3). rewrite (bind_run _ _ _ _ _ E3).
  exists ds3. split; [|intros x; by rewrite I3, I2, I1]. unfold mret, M_ret. do 2 f_equal.
  destruct f as [es bm tot]. cbn [entries bitmap total_sectors] in *. f_equal.
  - rewrite map_map. apply list_eq. intros i. rewrite list_lookup_fmap. change (Z.of_nat MAX_FILES) with 64.
    destruct (decide (i < 64)%nat) as [Hi|Hi].
    + destruct (lookup_lt_is_Some_2 es i) as [e He]; [pose proof (sh_entries _ Hsh); cbn in *; lia|].
      rewrite He. rewrite (proj2 (lookup_seqZ _ _ _ (ENTRY_START + Z.of_nat i))) by (split; lia).
      cbn [fmap option_fmap option_map]. f_equal. change ENTRY_START with 5. rewrite I2, I1, (Hen i e He).
      apply parse_entry_bytes. apply (Forall_lookup_1 _ _ _ _ (sh_entry _ Hsh) He).
    + rewrite (lookup_ge_None_2 es) by (pose proof (sh_entries _ Hsh); cbn in *; lia).
      rewrite (lookup_ge_None_2 (seqZ _ _)) by (rewrite length_seqZ; lia). done.
  - rewrite <- (bitmap_sectors_concat bm) by apply (sh_bitmap _ Hsh).
    change (seqZ BITMAP_START (Z.of_nat BITMAP_SECTORS)) with [1; 2; 3; 4]. cbn [seq map].
    rewrite !I1. by rewrite <- (Hbm 0%nat), <- (Hbm 1%nat), <- (Hbm 2%nat), <- (Hbm 3%nat) by lia.
Qed.
End metadata.
