(* ===== verification/DiskFsTheorems.v ===== *)
(** * The persistent file system refines a map of files

    Also through the VFS front end ([vfs/mod.rs] over [drivers/diskfs.rs]): what is
    written under [/disk] is read back, also after the disk has been mounted again. *)

From S2P Require Import Prelude Bits Words SmartPack Swap RamFs Vfs DiskFs DiskFsProofs.

(** ** The invariant *)
Definition in_extent (e : FileEntry) (x : Z) : Prop :=
  start_sector e ≤ x < start_sector e + sector_count e.

(** Sectors of a file of [n] bytes; an empty file has one. *)
Definition sectors_of (n : nat) : nat := Nat.max ((n + 511) / 512) 1.

Record fs_ok (f : DiskFs) : Prop := {
  ok_shaped : shaped f;
  ok_extent i e : entries f !! i = Some e → is_active e = true →
    69 ≤ start_sector e ∧ start_sector e + sector_count e ≤ total_sectors f
    ∧ sector_count e = Z.of_nat (sectors_of (Z.to_nat (size e)));
  ok_used i e x : entries f !! i = Some e → is_active e = true → in_extent e x → ubit (bitmap f) x = true;
  ok_disjoint i j e e' x : entries f !! i = Some e → entries f !! j = Some e' →
    is_active e = true → is_active e' = true → in_extent e x → in_extent e' x → i = j;
  ok_names i j e e' : entries f !! i = Some e → entries f !! j = Some e' →
    is_active e = true → is_active e' = true → name_str e = name_str e' → i = j
}.

Lemma sectors_of_bounds n :
  (n ≤ sectors_of n * 512)%nat ∧ ((sectors_of n - 1) * 512 ≤ n)%nat ∧ (1 ≤ sectors_of n)%nat.
Proof.
  unfold sectors_of. pose proof (Nat.div_mod_eq (n + 511) 512). pose proof (Nat.mod_upper_bound (n + 511) 512).
  lia.
Qed.

(** ** Finding entries *)
Lemma matches_true nm e : matches nm e = true ↔ is_active e = true ∧ name_str e = nm.
Proof. unfold matches. rewrite andb_true_iff, bool_decide_eq_true. done. Qed.

Lemma find_lookup {A} (p : A → bool) l x : List.find p l = Some x → ∃ i, l !! i = Some x ∧ p x = true.
Proof.
  intros Hf. apply List.find_some in Hf as [Hin Hp]. apply list_elem_of_In, list_elem_of_lookup in Hin as [i Hi].
  by exists i.
Qed.

Lemma find_None {A} (p : A → bool) l i x : List.find p l = None → l !! i = Some x → p x = false.
Proof.
  intros Hf Hi. apply (List.find_none _ _ Hf). apply list_elem_of_In. by eapply list_elem_of_lookup_2.
Qed.

Lemma find_unique f nm i e :
  fs_ok f → entries f !! i = Some e → matches nm e = true → List.find (matches nm) (entries f) = Some e.
Proof.
  intros Hok Hi Hm. destruct (List.find _ _) as [e'|] eqn:Ef; [|by rewrite (find_None _ _ _ _ Ef Hi) in Hm].
  apply find_lookup in Ef as (j & Hj & Hm'). apply matches_true in Hm as [Ha Hn], Hm' as [Ha' Hn'].
  assert (i = j) as <- by (eapply (ok_names _ Hok); eauto; congruence). congruence.
Qed.

Lemma position_Some {A} (p : A → bool) l i :
  position p l = Some i → ∃ x, l !! i = Some x ∧ p x = true.
Proof.
  revert i. induction l as [|y l IH]; intros i; cbn [position]; [done|].
  destruct (p y) eqn:E; [intros [= <-]; by exists y|].
  destruct (position p l) as [k|]; [|done]. cbn. intros [= <-]. apply (IH k eq_refl).
Qed.

Lemma position_None {A} (p : A → bool) l : position p l = None → Forall (λ x, p x = false) l.
Proof.
  induction l as [|y l IH]; cbn [position]; [constructor|].
  destruct (p y) eqn:E; [done|]. destruct (position p l); [done|]. intros _. constructor; auto.
Qed.

Lemma position_find {A} (p : A → bool) l : position p l = None ↔ List.find p l = None.
Proof.
  induction l as [|y l IH]; cbn [position List.find]; [done|]. destruct (p y); [done|].
  destruct (position p l), (List.find p l); cbn; naive_solver.
Qed.

Lemma existsb_find {A} (p : A → bool) l : existsb p l = bool_decide (is_Some (List.find p l)).
Proof.
  induction l as [|y l IH]; [done|]. cbn [existsb List.find]. by destruct (p y).
Qed.

(** ** Files *)
Definition content (f : DiskFs) (img : Z → list Z) (nm : list Z) : option (list Z) :=
  file_data img <$> List.find (matches nm) (entries f).

(** Data stay where no sector of the file changes. *)
Lemma file_data_same img img' e :
  (∀ x, in_extent e x → img' x = img x) → file_data img' e = file_data img e.
Proof.
  intros Hx. unfold file_data. f_equal. f_equal. apply map_ext_in. intros x Hin.
  apply list_elem_of_In, elem_of_seqZ in Hin. apply Hx. unfold in_extent. lia.
Qed.

(** The contents are those of [m] when every entry has its file and every file an
    entry. *)
Lemma content_intro (f : DiskFs) (img : Z → list Z) (m : gmap (list Z) (list Z)) :
  fs_ok f →
  (∀ i e, entries f !! i = Some e → is_active e = true → m !! name_str e = Some (file_data img e)) →
  (∀ nm d, m !! nm = Some d → ∃ i e, entries f !! i = Some e ∧ matches nm e = true) →
  ∀ nm, content f img nm = m !! nm.
Proof.
  intros Hok He Hm nm. unfold content. destruct (List.find _ _) as [e|] eqn:Ef; cbn.
  - apply find_lookup in Ef as (i & Hi & Hma). apply matches_true in Hma as [Ha <-]. by rewrite (He i e).
  - destruct (m !! nm) as [d|] eqn:Em; [|done]. destruct (Hm nm d Em) as (i & e & Hi & Hma).
    by rewrite (find_None _ _ _ _ Ef Hi) in Hma.
Qed.

Lemma content_elim (f : DiskFs) (img : Z → list Z) (m : gmap (list Z) (list Z)) :
  fs_ok f → (∀ nm, content f img nm = m !! nm) →
  (∀ i e, entries f !! i = Some e → is_active e = true → m !! name_str e = Some (file_data img e))
  ∧ ∀ nm d, m !! nm = Some d → ∃ i e, entries f !! i = Some e ∧ matches nm e = true.
Proof.
  intros Hok Hc. split.
  - intros i e Hi Ha. rewrite <- Hc. unfold content.
    by rewrite (find_unique f (name_str e) i e Hok Hi (proj2 (matches_true _ _) (conj Ha eq_refl))).
  - intros nm d Hm. rewrite <- Hc in Hm. unfold content in Hm. destruct (List.find _ _) as [e|] eqn:Ef; [|done].
    apply find_lookup in Ef as (i & Hi & Hma). by exists i, e.
Qed.

(** ** One entry replaced *)
Lemma set_entry_lookup slot e f i e' :
  (slot < length (entries f))%nat → entries (set_entry slot e f) !! i = Some e' →
  i = slot ∧ e' = e ∨ i ≠ slot ∧ entries f !! i = Some e'.
Proof.
  intros Hs. cbn [set_entry entries]. destruct (decide (i = slot)) as [->|Hne].
  - rewrite list_lookup_insert_eq by done. intros [= <-]. by left.
  - rewrite list_lookup_insert_ne by done. by right.
Qed.

(** A new entry in a free slot adds its file. *)
Lemma content_added (f f' : DiskFs) (img img' : Z → list Z) (m : gmap (list Z) (list Z)) slot e0 e :
  fs_ok f → (∀ nm, content f img nm = m !! nm) → fs_ok f' → entries f' = entries (set_entry slot e f) →
  entries f !! slot = Some e0 → is_active e0 = false → is_active e = true → m !! name_str e = None →
  (∀ i e', entries f !! i = Some e' → is_active e' = true → file_data img' e' = file_data img e') →
  ∀ nm, content f' img' nm = <[name_str e := file_data img' e]> m !! nm.
Proof.
  intros Hok Hc Hok' Es He0 Ha0 Ha Hm Hsame. pose proof (lookup_lt_Some _ _ _ He0) as Hlt.
  destruct (content_elim _ _ m Hok Hc) as [C1 C2]. apply content_intro; [done|..]; rewrite Es.
  - intros i e' Hi Hact. apply set_entry_lookup in Hi as [[-> ->]|[_ Hi]]; [by rewrite lookup_insert_eq| |done].
    rewrite lookup_insert_ne; [by rewrite (C1 i e' Hi Hact), (Hsame i e')|]. intros E. by rewrite E, (C1 i e' Hi Hact) in Hm.
  - intros nm' d' Hd'. apply lookup_insert_Some in Hd' as [[<- _]|[_ Hd']].
    + exists slot, e. split; [cbn; by rewrite list_lookup_insert_eq|]. by apply matches_true.
    + destruct (C2 nm' d' Hd') as (i & e' & Hi & Hma). exists i, e'. split; [|done]. cbn.
      rewrite list_lookup_insert_ne; [done|]. intros <-. apply matches_true in Hma as [Hact _]. congruence.
Qed.

(** An active entry is cleared and its sectors freed. *)
Lemma fs_ok_remove f slot e bm :
  fs_ok f → entries f !! slot = Some e → is_active e = true →
  length bm = 2048%nat → bytes_ok bm →
  (∀ x, 0 ≤ x → ubit bm x = negb ((start_sector e <=? x) && (x <? start_sector e + sector_count e)) && ubit (bitmap f) x) →
  fs_ok (set_entry slot zeroed (set_bitmap bm f)).
Proof.
  intros Hok He Ha Hl Hb Hu. pose proof (ok_shaped _ Hok) as Hsh.
  pose proof (lookup_lt_Some _ _ _ He) as Hlt.
  assert (Hz : ∀ i e', entries (set_entry slot zeroed (set_bitmap bm f)) !! i = Some e' → is_active e' = true →
    i ≠ slot ∧ entries f !! i = Some e').
  { intros i e' Hi Hact. apply set_entry_lookup in Hi as [[-> ->]|?]; [done|done|done]. }
  split.
  - split; cbn; try done; [rewrite length_insert; apply Hsh|apply Forall_insert; [apply Hsh|apply zeroed_shape]|apply Hsh].
  - intros i e' Hi Hact. destruct (Hz i e' Hi Hact) as [_ Hi']. apply (ok_extent _ Hok i e' Hi' Hact).
  - intros i e' x Hi Hact Hx. destruct (Hz i e' Hi Hact) as [Hne Hi'].
    destruct (ok_extent _ Hok i e' Hi' Hact) as (Hst & _). cbn [set_entry set_bitmap bitmap].
    rewrite Hu by (unfold in_extent in Hx; lia). rewrite (ok_used _ Hok i e' x Hi' Hact Hx), andb_true_r.
    destruct (Z.leb_spec (start_sector e) x), (Z.ltb_spec x (start_sector e + sector_count e)); try done.
    exfalso. apply Hne. eapply (ok_disjoint _ Hok i slot e' e x); eauto. split; lia.
  - intros i j e1 e2 x Hi Hj A1 A2 X1 X2. destruct (Hz i e1 Hi A1) as [_ Hi'], (Hz j e2 Hj A2) as [_ Hj'].
    by eapply (ok_disjoint _ Hok i j e1 e2 x).
  - intros i j e1 e2 Hi Hj A1 A2 X. destruct (Hz i e1 Hi A1) as [_ Hi'], (Hz j e2 Hj A2) as [_ Hj'].
    by eapply (ok_names _ Hok i j e1 e2).
Qed.

(** A free slot takes a file on free sectors. *)
Lemma fs_ok_add f slot e0 e bm :
  fs_ok f → entries f !! slot = Some e0 → is_active e0 = false →
  entry_shape e → is_active e = true → 69 ≤ start_sector e →
  start_sector e + sector_count e ≤ total_sectors f →
  sector_count e = Z.of_nat (sectors_of (Z.to_nat (size e))) →
  free_run (bitmap f) (start_sector e) (sector_count e) →
  (∀ i e', entries f !! i = Some e' → is_active e' = true → name_str e' ≠ name_str e) →
  length bm = 2048%nat → bytes_ok bm →
  (∀ x, 0 ≤ x → ubit bm x = (start_sector e <=? x) && (x <? start_sector e + sector_count e) || ubit (bitmap f) x) →
  fs_ok (set_entry slot e (set_bitmap bm f)).
Proof.
  intros Hok He0 Ha0 Hes Ha Hst Hend Hcnt Hfree Hnew Hl Hb Hu. pose proof (ok_shaped _ Hok) as Hsh.
  pose proof (lookup_lt_Some _ _ _ He0) as Hlt.
  assert (Hz : ∀ i e', entries (set_entry slot e (set_bitmap bm f)) !! i = Some e' →
    i = slot ∧ e' = e ∨ i ≠ slot ∧ entries f !! i = Some e').
  { intros i e' Hi. by apply set_entry_lookup in Hi. }
  assert (Hsep : ∀ i e' x, entries f !! i = Some e' → is_active e' = true → in_extent e' x → in_extent e x → False).
  { intros i e' x Hi Hact X1 X2. pose proof (ok_used _ Hok i e' x Hi Hact X1). rewrite (Hfree x X2) in *. done. }
  split.
  - split; cbn; try done; [rewrite length_insert; apply Hsh|by apply Forall_insert; [apply Hsh|]|apply Hsh].
  - intros i e' Hi Hact. destruct (Hz i e' Hi) as [[-> ->]|[_ Hi']]; [done|]. apply (ok_extent _ Hok i e' Hi' Hact).
  - intros i e' x Hi Hact Hx. cbn [set_entry set_bitmap bitmap].
    destruct (Hz i e' Hi) as [[-> ->]|[_ Hi']].
    + unfold in_extent in Hx. rewrite Hu by lia. zbool. done.
    + destruct (ok_extent _ Hok i e' Hi' Hact) as (Hst' & _).
      rewrite Hu by (unfold in_extent in Hx; lia). by rewrite (ok_used _ Hok i e' x Hi' Hact Hx), orb_true_r.
  - intros i j e1 e2 x Hi Hj A1 A2 X1 X2.
    destruct (Hz i e1 Hi) as [[-> ->]|[? Hi']], (Hz j e2 Hj) as [[-> ->]|[? Hj']]; [done|exfalso; eauto..|].
    by eapply (ok_disjoint _ Hok i j e1 e2 x).
  - intros i j e1 e2 Hi Hj A1 A2 X.
    destruct (Hz i e1 Hi) as [[-> ->]|[? Hi']], (Hz j e2 Hj) as [[-> ->]|[? Hj']]; [done| | |].
    + by destruct (Hnew j e2 Hj' A2).
    + by destruct (Hnew i e1 Hi' A1).
    + by eapply (ok_names _ Hok i j e1 e2).
Qed.

(** ** The operations *)
Section operations.
Context {D : Type} `{Reliable D} (eng : EncryptionEngine).
Implicit Types (m : gmap (list Z) (list Z)) (s : @st D).

(** The state stands for the map [m] of files. *)
Record holds s m : Prop := {
  h_ok : fs_ok (fs s);
  h_synced : synced (fs s) (image eng (disks s));
  h_content nm : content (fs s) (image eng (disks s)) nm = m !! nm
}.

Lemma holds_same_image s m ds' :
  holds s m → (∀ x, image eng ds' x = image eng (disks s) x) → holds (mkSt (fs s) ds') m.
Proof.
  intros [H1 H2 H3] Hx. split; cbn [fs disks]; [done|by eapply synced_ext|].
  intros nm. rewrite <- H3. unfold content. destruct (List.find _ _) as [e|]; [|done]. cbn. f_equal.
  by apply file_data_same.
Qed.

Lemma find_content s m nm e :
  holds s m → List.find (matches nm) (entries (fs s)) = Some e →
  m !! nm = Some (file_data (image eng (disks s)) e).
Proof. intros Hh Ef. rewrite <- (h_content _ _ Hh). unfold content. by rewrite Ef. Qed.

Lemma read_file_ok s m nm :
  holds s m →
  ∃ ds', (∀ x, image eng ds' x = image eng (disks s) x)
    ∧ read_file eng (fs s) nm (disks s)
      = (match m !! nm with Some d => Ok d | None => Err (Fail "File not found") end, ds').
Proof.
  intros Hh. unfold read_file. destruct (List.find _ _) as [e|] eqn:Ef.
  - rewrite (find_content _ _ _ _ Hh Ef). apply find_lookup in Ef as (i & Hi & [Ha _]%matches_true).
    destruct (ok_extent _ (h_ok _ _ Hh) i e Hi Ha) as (_ & _ & Hcnt).
    pose proof (sectors_of_bounds (Z.to_nat (size e))) as (B1 & B2 & B3).
    destruct (file_read_loop_spec eng (Z.to_nat (sector_count e)) 0 e (replicate (Z.to_nat (size e)) 0) (disks s))
      as (ds' & E & Hx).
    { by rewrite length_replicate. }
    { rewrite Hcnt, Nat2Z.id. lia. }
    { rewrite Hcnt, Nat2Z.id. lia. }
    exists ds'. split; [done|]. rewrite E. cbn [Nat.mul take app]. rewrite Nat.sub_0_r, Z.add_0_r.
    unfold file_data. by rewrite Z2Nat.id by lia.
  - exists (disks s). split; [done|]. rewrite <- (h_content _ _ Hh). unfold content. by rewrite Ef.
Qed.

(** Deleting. *)
Lemma delete_file_ok s m nm d :
  holds s m → m !! nm = Some d →
  ∃ s', delete_file eng nm s = (Ok tt, s') ∧ holds s' (delete nm m).
Proof.
  intros Hh Hm. pose proof (h_ok _ _ Hh) as Hok. pose proof (ok_shaped _ Hok) as Hsh.
  destruct (content_elim _ _ m Hok (h_content _ _ Hh)) as [C1 C2]. destruct (C2 nm d Hm) as (i0 & e0 & Hi0 & Hm0).
  unfold delete_file, gets. unfold mbind at 1, M_bind at 1.
  destruct (position (matches nm) (entries (fs s))) as [slot|] eqn:Ep.
  2:{ apply position_find in Ep. by rewrite (find_None _ _ _ _ Ep Hi0) in Hm0. }
  apply position_Some in Ep as (e & He & [Ha Hn]%matches_true).
  destruct (ok_extent _ Hok slot e He Ha) as (X1 & X2 & X3).
  pose proof (lookup_lt_Some _ _ _ He) as Hlt. pose proof (sh_total _ Hsh) as Htot.
  destruct (clear_sectors_spec (Z.to_nat (sector_count e)) (start_sector e) (bitmap (fs s))) as (bm & Eb & B1 & B2 & B3).
  { lia. } { rewrite (sh_bitmap _ Hsh). lia. } { apply Hsh. }
  unfold mbind at 1, M_bind at 1. rewrite He. cbn [mbind option_bind]. unfold free_sectors. rewrite Eb.
  rewrite Z2Nat.id in B3 by lia. rewrite (sh_bitmap _ Hsh) in B1.
  set (f' := set_entry slot zeroed (set_bitmap bm (fs s))).
  assert (Hok' : fs_ok f') by (by apply (fs_ok_remove (fs s) slot e bm)).
  assert (Hothers : ∀ i e', i ≠ slot → entries f' !! i = Some e' → entries (fs s) !! i = Some e').
  { intros i e' Hne Hi. apply set_entry_lookup in Hi as [[-> _]|[_ Hi]]; done. }
  destruct (sync_ok eng slot (mkSt f' (disks s))) as (ds' & Es & Hsy & Hx).
  { apply Hok'. } { rewrite <- (sh_entries _ Hsh). exact Hlt. }
  { intros i e' Hne Hi. apply (sy_entry _ _ (h_synced _ _ Hh)). by apply Hothers. }
  exists (mkSt f' ds'). split; [exact Es|]. split; cbn [fs disks]; [done|done|].
  apply content_intro; [done|..].
  - intros i e' Hi Hact.
    assert (Hne : i ≠ slot).
    { intros ->. cbn in Hi. rewrite list_lookup_insert_eq in Hi by done. injection Hi as <-. done. }
    pose proof (Hothers i e' Hne Hi) as Hi'.
    assert (name_str e' ≠ nm). { rewrite <- Hn. intros En. by apply Hne, (ok_names _ Hok i slot e' e). }
    rewrite lookup_delete_ne by done. rewrite (C1 i e' Hi' Hact). f_equal. symmetry. apply file_data_same.
    intros x Hxx. apply Hx. destruct (ok_extent _ Hok i e' Hi' Hact). unfold in_extent in Hxx. lia.
  - intros nm' d' Hd'. apply lookup_delete_Some in Hd' as [Hne Hd'].
    destruct (C2 nm' d' Hd') as (i & e' & Hi & Hma). exists i, e'. split; [|done]. cbn.
    rewrite list_lookup_insert_ne; [done|]. intros <-. apply matches_true in Hma as [_ <-]. congruence.
Qed.

Lemma delete_file_none s m nm :
  holds s m → m !! nm = None → delete_file eng nm s = (Err (Fail "File not found"), s).
Proof.
  intros Hh Hm. unfold delete_file, gets, mbind, M_bind.
  destruct (position _ _) as [slot|] eqn:Ep; [|done].
  apply position_Some in Ep as (e & He & Hma).
  pose proof (find_unique _ _ _ _ (h_ok _ _ Hh) He Hma) as Ef. by rewrite (find_content _ _ _ _ Hh Ef) in Hm.
Qed.
End operations.

(** No room: all entries taken, or no run of [n] free sectors. *)
Definition no_entry (f : DiskFs) : Prop := Forall (λ e, is_active e = true) (entries f).
Definition no_run (f : DiskFs) (n : Z) : Prop :=
  ∀ start, 69 ≤ start → start + n ≤ total_sectors f → ¬ free_run (bitmap f) start n.

Lemma alloc_sectors_ok f n :
  fs_ok f → 0 < n →
  match alloc_sectors n f with
  | None => False
  | Some None => no_run f n
  | Some (Some (start, bm)) =>
      69 ≤ start ∧ start + n ≤ total_sectors f ∧ free_run (bitmap f) start n
      ∧ length bm = 2048%nat ∧ bytes_ok bm
      ∧ ∀ x, 0 ≤ x → ubit bm x = (start <=? x) && (x <? start + n) || ubit (bitmap f) x
  end.
Proof.
  intros Hok Hn. pose proof (ok_shaped _ Hok) as Hsh. pose proof (sh_total _ Hsh) as Ht.
  pose proof (alloc_loop_spec (Z.to_nat (total_sectors f - 69)) 69 69 0 n (bitmap f)) as Ha.
  unfold alloc_sectors. change DATA_START with 69.
  assert (Hpre : free_run (bitmap f) (69 - 0) 0) by (intros x Hx; lia).
  specialize (Ha ltac:(lia) ltac:(lia)). rewrite (sh_bitmap _ Hsh) in Ha.
  specialize (Ha ltac:(lia) (sh_bytes _ Hsh) ltac:(lia) Hpre).
  destruct (alloc_loop _ _ _ _ _ _) as [[[start bm]|]|]; [|intros s Hs1 Hs2|done].
  - destruct Ha as (A1 & A2 & A3). split; [lia|]. split; [lia|exact A3].
  - apply Ha; lia.
Qed.

Section writing.
Context {D : Type} `{Reliable D} (eng : EncryptionEngine).
Implicit Types (m : gmap (list Z) (list Z)) (s : @st D).

(** The data sectors of a new file. *)
Lemma write_data_ok data start ds :
  let n := ((length data + 512 - 1) / 512)%nat in
  ∃ ds', for_each (write_data eng start data) (seq 0 n) ds = (Ok tt, ds')
    ∧ (∀ x, ¬ start ≤ x < start + Z.of_nat (sectors_of (length data)) → image eng ds' x = image eng ds x)
    ∧ take (length data) (concat (map (image eng ds') (seqZ start (Z.of_nat (sectors_of (length data)))))) = data.
Proof.
  intros n. destruct (write_run eng (piece data) start 0 n ds) as (ds' & E & Hi).
  { intros i _. apply length_piece. }
  exists ds'. split; [exact E|]. assert (Hn : n = ((length data + 511) / 512)%nat) by (unfold n; f_equal; lia).
  split.
  - intros x Hx. rewrite Hi. unfold sectors_of in Hx.
    destruct (Z.leb_spec (start + Z.of_nat 0) x), (Z.ltb_spec x (start + Z.of_nat (0 + n))); (done || lia).
  - destruct (decide (length data = 0)%nat) as [E0|E0].
    { rewrite E0, take_0. by apply nil_length_inv in E0. }
    pose proof (Nat.div_mod_eq (length data + 511) 512). pose proof (Nat.mod_upper_bound (length data + 511) 512 ltac:(lia)).
    assert (Hs : sectors_of (length data) = n) by (unfold sectors_of; lia). rewrite Hs.
    pose proof (pieces_concat data n 0 ltac:(lia)) as Hp. rewrite Nat.sub_0_r in Hp. cbn [Nat.mul] in Hp.
    rewrite drop_0 in Hp. etransitivity; [|exact Hp]. f_equal. f_equal. unfold seqZ. rewrite Nat2Z.id, map_map.
    apply map_ext_in. intros i Hin. apply in_seq in Hin. rewrite Hi. zbool. cbn [andb]. f_equal. lia.
Qed.

Lemma write_new_ok s m nm data :
  holds eng s m → m !! nm = None → name_fits nm →
  match write_new eng nm data s with
  | (Ok _, s') => holds eng s' (<[nm := data]> m)
  | (Err (Fail _), s') => s' = s ∧ (no_entry (fs s) ∨ no_run (fs s) (Z.of_nat (sectors_of (length data))))
  | (Err Crash, _) => False
  end.
Proof.
  intros Hh Hm Hnm. pose proof (h_ok _ _ _ Hh) as Hok. pose proof (ok_shaped _ Hok) as Hsh.
  destruct (content_elim _ _ m Hok (h_content _ _ _ Hh)) as [C1 C2].
  unfold write_new, gets. unfold mbind at 1, M_bind at 1.
  destruct (position _ (entries (fs s))) as [slot|] eqn:Ep.
  2:{ split; [done|]. left. apply position_None in Ep. eapply Forall_impl; [exact Ep|]. cbn.
      intros e. by destruct (is_active e). }
  apply position_Some in Ep as (e0 & He0 & Ha0). apply negb_true_iff in Ha0.
  pose proof (lookup_lt_Some _ _ _ He0) as Hlt. change SECTOR_SIZE with 512%nat.
  replace (Nat.max ((length data + 512 - 1) / 512) 1) with (sectors_of (length data))
    by (unfold sectors_of; f_equal; f_equal; lia).
  pose proof (sectors_of_bounds (length data)) as (B1 & _ & B3).
  unfold mbind at 1, M_bind at 1.
  pose proof (alloc_sectors_ok (fs s) (Z.of_nat (sectors_of (length data))) Hok ltac:(lia)) as Hal.
  destruct (alloc_sectors _ (fs s)) as [[[start bm]|]|]; [|by split; [|right]|done].
  destruct Hal as (A1 & A2 & A3 & A4 & A5 & A6). pose proof (sh_total _ Hsh) as Htot.
  destruct (write_data_ok data start (disks s)) as (ds1 & E1 & I1 & D1).
  set (e := set_name nm (mkEntry [] 1 (Z.of_nat (length data)) start (Z.of_nat (sectors_of (length data)))
               (reserved (nth slot (entries (set_bitmap bm (fs s))) zeroed)))).
  set (f' := set_entry slot e (set_bitmap bm (fs s))).
  assert (Hes : entry_shape e).
  { apply set_name_shape; cbn [flags size start_sector sector_count reserved]; try (unfold uN; lia).
    cbn [set_bitmap entries]. rewrite (nth_lookup_Some _ _ _ _ He0).
    apply (Forall_lookup_1 _ _ _ _ (sh_entry _ Hsh) He0). }
  assert (Hname : name_str e = nm) by by apply name_str_set.
  assert (Hnew : ∀ i e', entries (fs s) !! i = Some e' → is_active e' = true → name_str e' ≠ nm).
  { intros i e' Hi Hact <-. by rewrite (C1 i e' Hi Hact) in Hm. }
  assert (Hok' : fs_ok f').
  { apply (fs_ok_add (fs s) slot e0 e bm); try done; cbn [e set_name start_sector sector_count size]; try done.
    - by rewrite Nat2Z.id.
    - by rewrite Hname. }
  assert (Hsep : ∀ i e' x, entries (fs s) !! i = Some e' → is_active e' = true → in_extent e' x →
    image eng ds1 x = image eng (disks s) x).
  { intros i e' x Hi Hact Hx. apply I1. intros Hin. pose proof (ok_used _ Hok i e' x Hi Hact Hx).
    rewrite (A3 x Hin) in *. done. }
  destruct (sync_ok eng slot (mkSt f' ds1)) as (ds2 & E2 & Hsy & I2).
  { apply Hok'. } { rewrite <- (sh_entries _ Hsh). exact Hlt. }
  { intros i e' Hne Hi. cbn [fs disks] in *. apply set_entry_lookup in Hi as [[-> _]|[_ Hi]]; [done| |done].
    assert (i < 64)%nat by (rewrite <- (sh_entries _ Hsh); exact (lookup_lt_Some _ _ _ Hi)).
    rewrite I1 by lia.
    apply (sy_entry _ _ (h_synced _ _ _ Hh)). exact Hi. }
  cbn [fs disks] in *.
  assert (Erun : (update_fs (set_bitmap bm) ≫= λ _,
     on_disk (for_each (write_data eng start data) (seq 0 ((length data + 512 - 1) / 512))) ≫= λ _,
     update_fs (λ f, set_entry slot (set_name nm (mkEntry [] 1 (Z.of_nat (length data)) start
       (Z.of_nat (sectors_of (length data))) (reserved (nth slot (entries f) zeroed)))) f) ≫= λ _,
     sync eng slot) s = (Ok tt, mkSt f' ds2)).
  { unfold update_fs, modify, on_disk. unfold mbind, M_bind. cbn [fs disks]. rewrite E1. exact E2. }
  assert (Hdata : file_data (image eng ds2) e = data).
  { unfold file_data. cbn [e set_name start_sector sector_count size]. rewrite Nat2Z.id. etransitivity; [|exact D1].
    f_equal. f_equal. apply map_ext_in. intros x Hx. apply list_elem_of_In, elem_of_seqZ in Hx. apply I2. lia. }
  rewrite Erun. split; cbn [fs disks]; [done|done|]. rewrite <- Hdata, <- Hname.
  apply (content_added (fs s) f' (image eng (disks s)) _ m slot e0 e); try done; [apply Hh|by rewrite Hname|].
  intros i e' Hi Hact. apply file_data_same. intros x Hx. destruct (ok_extent _ Hok i e' Hi Hact) as [? _].
  rewrite I2 by (unfold in_extent in Hx; lia). by apply (Hsep i e').
Qed.

Lemma write_file_ok s m nm data :
  holds eng s m → name_fits nm →
  match write_file eng nm data s with
  | (Ok _, s') => holds eng s' (<[nm := data]> m)
  | (Err (Fail _), s') => holds eng s' (delete nm m)
      ∧ (no_entry (fs s') ∨ no_run (fs s') (Z.of_nat (sectors_of (length data))))
  | (Err Crash, _) => False
  end.
Proof.
  intros Hh Hnm. unfold write_file, gets. unfold mbind at 1, M_bind at 1. rewrite existsb_find.
  case_bool_decide as Hold.
  - destruct Hold as [e Ef]. pose proof (find_content _ _ _ _ _ Hh Ef) as Hm.
    destruct (delete_file_ok _ _ _ _ _ Hh Hm) as (s1 & E1 & Hh1). unfold mbind, M_bind. rewrite E1.
    pose proof (write_new_ok s1 (delete nm m) nm data Hh1 ltac:(apply lookup_delete_eq) Hnm) as Hw.
    destruct (write_new eng nm data s1) as [[u|[e'|]] s2]; [|destruct Hw as [-> Hw]; by split|done].
    by rewrite insert_delete_eq in Hw.
  - unfold mbind, M_bind. cbn [mret M_ret].
    assert (Hm : m !! nm = None).
    { rewrite <- (h_content _ _ _ Hh). unfold content. destruct (List.find _ _) as [e|]; [|done].
      exfalso. apply Hold. by exists e. }
    pose proof (write_new_ok s m nm data Hh Hm Hnm) as Hw.
    unfold mret, M_ret.
    destruct (write_new eng nm data s) as [[u|[e'|]] s2]; [done|destruct Hw as [-> Hw]|done].
    split; [|done]. by rewrite delete_id.
Qed.
End writing.

(** ** Formatting and remounting *)
Section mounting.
Context {D : Type} `{Reliable D} (eng : EncryptionEngine).
Implicit Types (m : gmap (list Z) (list Z)) (s : @st D).

Lemma initial_bitmap_ok : length initial_bitmap = 2048%nat ∧ bytes_ok initial_bitmap.
Proof.
  unfold initial_bitmap.
  destruct (set_sectors_spec (Z.to_nat DATA_START) 0 (replicate (BITMAP_SECTORS * SECTOR_SIZE) 0))
    as (bm & -> & H1 & H2 & _).
  - done.
  - rewrite length_replicate. done.
  - by apply Forall_replicate.
  - change (default [] (Some bm)) with bm. rewrite H1, length_replicate. done.
Qed.

Lemma zero_entry : replicate SECTOR_SIZE 0 = entry_bytes zeroed.
Proof. reflexivity. Qed.

Lemma format_ok total ds :
  69 ≤ total ≤ 16384 →
  ∃ f ds', format eng total ds = (Ok f, ds') ∧ holds eng (mkSt f ds') ∅.
Proof.
  intros Ht. destruct initial_bitmap_ok as [L1 L2].
  destruct (write_internal_ok eng 0 (superblock_bytes 0 (wrap 32 total)) ds) as (ds1 & E1 & I1);
    [apply length_superblock|].
  destruct (write_run eng (λ _, replicate SECTOR_SIZE 0) BITMAP_START 0 BITMAP_SECTORS ds1) as (ds2 & E2 & I2); [done|].
  destruct (write_run eng (λ _, replicate SECTOR_SIZE 0) ENTRY_START 0 MAX_FILES ds2) as (ds3 & E3 & I3); [done|].
  destruct (write_bitmap_ok eng initial_bitmap ds3 L1) as (ds4 & E4 & I4 & I4').
  set (f := mkDiskFs (replicate MAX_FILES zeroed) initial_bitmap total).
  exists f, ds4. split.
  { unfold format. rewrite (bind_run _ _ _ _ _ E1), (bind_run _ _ _ _ _ E2), (bind_run _ _ _ _ _ E3).
    by rewrite (bind_run _ _ _ _ _ E4). }
  assert (Hnone : ∀ i e, entries f !! i = Some e → e = zeroed) by (intros i e [-> _]%lookup_replicate; done).
  assert (Hok : fs_ok f).
  { split; [split; [reflexivity|by apply Forall_replicate, zeroed_shape|exact L1|exact L2|exact Ht]| | | |].
    - intros i e ->%Hnone. done.
    - intros i e x ->%Hnone. done.
    - intros i j e e' x ->%Hnone _. done.
    - intros i j e e' ->%Hnone _. done. }
  split; [done|split|]; cbn [fs disks].
  - rewrite I4' by lia. rewrite I3. cbn -[image superblock_bytes wrap]. rewrite I2. cbn -[image superblock_bytes wrap].
    rewrite I1. done.
  - intros i Hi. by apply I4.
  - intros i e He. rewrite (Hnone i e He). apply lookup_lt_Some in He. cbn [f entries] in He. rewrite length_replicate in He.
    rewrite I4' by lia. rewrite I3. change ENTRY_START with 5. change MAX_FILES with 64%nat in *. zbool. apply zero_entry.
  - apply content_intro; [done|..]; [intros i e ->%Hnone; done|]. intros nm d Hd. by rewrite lookup_empty in Hd.
Qed.

Lemma remount_ok s m :
  holds eng s m → ∃ ds', mount eng (disks s) = (Ok (fs s), ds') ∧ holds eng (mkSt (fs s) ds') m.
Proof.
  intros Hh. destruct (mount_ok eng (fs s) (disks s)) as (ds' & E & Hx).
  - apply (ok_shaped _ (h_ok _ _ _ Hh)).
  - apply Hh.
  - exists ds'. split; [done|]. by apply holds_same_image.
Qed.

(** ** Histories *)
Inductive op := OWrite (nm data : list Z) | ODelete (nm : list Z) | ORead (nm : list Z) | ORemount.

Inductive answer := Done | Data (d : list Z) | Refused | Dead.

Definition answer_of {A} (k : A → answer) (r : result fs_stop A) : answer :=
  match r with Ok a => k a | Err (Fail _) => Refused | Err Crash => Dead end.

Definition exec (o : op) (s : @st D) : answer * @st D :=
  match o with
  | OWrite nm data => let '(r, s') := write_file eng nm data s in (answer_of (λ _, Done) r, s')
  | ODelete nm => let '(r, s') := delete_file eng nm s in (answer_of (λ _, Done) r, s')
  | ORead nm => let '(r, ds') := read_file eng (fs s) nm (disks s) in (answer_of Data r, mkSt (fs s) ds')
  | ORemount =>
      let '(r, ds') := mount eng (disks s) in
      match r with
      | Ok f => (Done, mkSt f ds')
      | Err (Fail _) => (Refused, mkSt (fs s) ds')
      | Err Crash => (Dead, mkSt (fs s) ds')
      end
  end.

Fixpoint exec_all (ops : list op) (s : @st D) : list answer * @st D :=
  match ops with
  | [] => ([], s)
  | o :: ops' => let '(a, s1) := exec o s in let '(l, s2) := exec_all ops' s1 in (a :: l, s2)
  end.

(** What a map of files answers; a write may be refused for lack of room and then
    the old file of that name is gone. *)
Inductive spec : op → gmap (list Z) (list Z) → answer → gmap (list Z) (list Z) → Prop :=
| spec_write nm data m : spec (OWrite nm data) m Done (<[nm := data]> m)
| spec_write_refused nm data m : spec (OWrite nm data) m Refused (delete nm m)
| spec_delete nm m : is_Some (m !! nm) → spec (ODelete nm) m Done (delete nm m)
| spec_delete_none nm m : m !! nm = None → spec (ODelete nm) m Refused m
| spec_read nm m d : m !! nm = Some d → spec (ORead nm) m (Data d) m
| spec_read_none nm m : m !! nm = None → spec (ORead nm) m Refused m
| spec_remount m : spec ORemount m Done m.

Inductive spec_all : list op → gmap (list Z) (list Z) → list answer → gmap (list Z) (list Z) → Prop :=
| spec_nil m : spec_all [] m [] m
| spec_cons o ops m a m1 l m2 : spec o m a m1 → spec_all ops m1 l m2 → spec_all (o :: ops) m (a :: l) m2.

Definition op_ok (o : op) : Prop := match o with OWrite nm _ => name_fits nm | _ => True end.

Lemma fs_exec_spec o s m :
  holds eng s m → op_ok o → ∃ m', spec o m (exec o s).1 m' ∧ holds eng (exec o s).2 m'.
Proof.
  intros Hh Ho. destruct o as [nm data|nm|nm|]; cbn [exec op_ok] in *.
  - pose proof (write_file_ok eng s m nm data Hh Ho) as Hw.
    destruct (write_file eng nm data s) as [[u|[e|]] s']; cbn [answer_of fst snd]; [| |done].
    + eexists; split; [constructor|done].
    + destruct Hw as [Hw _]. eexists; split; [constructor|done].
  - destruct (m !! nm) as [d|] eqn:Em.
    + destruct (delete_file_ok eng s m nm d Hh Em) as (s' & -> & Hh'). eexists; split; [by constructor; eexists|done].
    + rewrite (delete_file_none eng s m nm Hh Em). eexists; split; [by constructor|done].
  - destruct (read_file_ok eng s m nm Hh) as (ds' & Hx & ->). exists m.
    split; [|by apply holds_same_image]. destruct (m !! nm) as [d|] eqn:Em; by constructor.
  - destruct (remount_ok s m Hh) as (ds' & -> & Hh'). exists m. split; [constructor|done].
Qed.

Lemma exec_all_spec ops s m :
  holds eng s m → Forall op_ok ops →
  ∃ m', spec_all ops m (exec_all ops s).1 m' ∧ holds eng (exec_all ops s).2 m'.
Proof.
  revert s m. induction ops as [|o ops IH]; intros s m Hh Hok; [exists m; split; [constructor|done]|].
  inv Hok. destruct (fs_exec_spec o s m Hh) as (m1 & S1 & Hh1); [done|]. cbn [exec_all].
  destruct (exec o s) as [a s1]. cbn [fst snd] in *. destruct (IH s1 m1 Hh1) as (m2 & S2 & Hh2); [done|].
  destruct (exec_all ops s1) as [l s2]. cbn [fst snd] in *. exists m2. split; [by econstructor|done].
Qed.
End mounting.


#[export] Instance ram_disk_reliable : Reliable (gmap Z (list Z)).
Proof. split; intros; by eexists. Qed.

Definition demo_disks : Disks (gmap Z (list Z)) := mkDisks None (Some ∅) None ∅.
Definition demo_engine : EncryptionEngine := mkEngine (replicate 32 0xAC) true.
Definition demo_ops : list op :=
  [OWrite [97] [1; 2; 3]; ORemount; OWrite [98] (replicate 600 7); OWrite [97] [4]; ODelete [98];
   ORemount; ORead [97]; ORead [98]].


(** ** Findings *)

Lemma crypt_other_key eng1 eng2 lba data :
  enabled eng1 = true → enabled eng2 = true →
  decrypt eng2 lba (encrypt eng1 lba data)
  = imap (λ i b, Z.lxor b (Z.lxor (nth (i `mod` 32)%nat (key eng1) 0) (nth (i `mod` 32)%nat (key eng2) 0))) data.
Proof.
  intros E1 E2. unfold decrypt, encrypt. rewrite E1, E2. apply list_eq. intros i. rewrite !list_lookup_imap.
  destruct (data !! i) as [b|]; [|done]. cbn. f_equal. unfold crypt_byte. set (w := wrap 8 _).
  set (a := nth _ (key eng1) 0). set (c := nth _ (key eng2) 0).
  rewrite (Z.lxor_comm a w), !Z.lxor_assoc. f_equal. rewrite <- (Z.lxor_assoc a c w), (Z.lxor_comm _ w).
  by rewrite <- (Z.lxor_assoc w w), Z.lxor_nilpotent, Z.lxor_0_l.
Qed.

Lemma encrypt_decrypt eng lba data : encrypt eng lba (decrypt eng lba data) = data.
Proof. apply sector_decrypt_encrypt. Qed.

Lemma from_le_bytes_inj a b :
  bytes_ok a → bytes_ok b → length a = length b → from_le_bytes a = from_le_bytes b → a = b.
Proof.
  intros Ha Hb Hl E. rewrite <- (to_from_le_bytes a Ha), <- (to_from_le_bytes b Hb). by rewrite E, Hl.
Qed.

(** Finding: with full-disk encryption the key is drawn from the security module
    anew at every boot.  Under another key the superblock is not recognised, and
    [init] formats the disk: every file is lost. *)
Lemma new_key_loses_files {D : Type} `{Reliable D} eng eng' (s : @st D) m total :
  holds eng s m → enabled eng = true → enabled eng' = true →
  bytes_ok (key eng) → bytes_ok (key eng') → nth 0 (key eng) 0 ≠ nth 0 (key eng') 0 →
  69 ≤ total ≤ 16384 →
  ∃ f ds', init eng' total (disks s) = (Ok (Some f), ds') ∧ holds eng' (mkSt f ds') ∅.
Proof.
  intros Hh E1 E2 K1 K2 Hk Ht. set (sb := superblock_bytes (wrap 32 (active_count (fs s))) (wrap 32 (total_sectors (fs s)))).
  assert (Hsb : image eng (disks s) 0 = sb) by apply (sy_super _ _ (h_synced _ _ _ Hh)).
  assert (Himg : image eng' (disks s) 0
    = imap (λ i b, Z.lxor b (Z.lxor (nth (i `mod` 32)%nat (key eng) 0) (nth (i `mod` 32)%nat (key eng') 0))) sb).
  { rewrite <- Hsb. unfold image. rewrite <- (crypt_other_key eng eng' 0) by done. by rewrite encrypt_decrypt. }
  assert (Hmag : from_le_bytes (field_at 0 4 (image eng' (disks s) 0)) ≠ DISKFS_MAGIC).
  { rewrite Himg. intros E. change DISKFS_MAGIC with (from_le_bytes [0x54; 0x46; 0x4D; 0x53]) in E.
    change sb with ([0x54; 0x46; 0x4D; 0x53] ++ drop 4 sb) in E. rewrite imap_app in E. unfold field_at in E.
    rewrite drop_0, take_app_le in E by done. cbn [imap] in E. rewrite take_ge in E by done. 
    assert (Hb : ∀ i b, is_byte b → is_byte (Z.lxor b (Z.lxor (nth i (key eng) 0) (nth i (key eng') 0)))).
    { intros i b Hb. apply lxor_uN; [lia|done|]. apply lxor_uN; [lia|by apply nth_bytes_ok|by apply nth_bytes_ok]. }
    apply from_le_bytes_inj in E; [|repeat (constructor; [by apply Hb|]); constructor|repeat constructor; done|done].
    injection E as E _ _ _. apply Hk. change (0 `mod` 32)%nat with 0%nat in E.
    assert (E' : Z.lxor 84 (Z.lxor 84 (Z.lxor (nth 0 (key eng) 0) (nth 0 (key eng') 0))) = Z.lxor 84 84) by by rewrite E.
    rewrite <- Z.lxor_assoc, Z.lxor_nilpotent, Z.lxor_0_l in E'. by apply Z.lxor_eq. }
  unfold init. assert (Em : ∃ ds1, mount eng' (disks s) = (Err (Fail "No filesystem found"), ds1)).
  { unfold mount. destruct (read_internal_ok eng' 0 (disks s)) as (ds1 & Er & _).
    rewrite (bind_run _ _ _ _ _ Er). rewrite (proj2 (Z.eqb_neq _ _) Hmag). cbn [negb]. by exists ds1. }
  destruct Em as [ds1 ->]. rewrite (proj2 (Z.eqb_neq total 0)) by lia.
  destruct (format_ok eng' total ds1 Ht) as (f & ds2 & -> & Hh'). by exists f, ds2.
Qed.

(** Finding: the bitmap covers 16384 sectors.  On a larger disk whose covered
    sectors are taken, [alloc_sectors] indexes past the bitmap and panics. *)
Lemma large_disk_panics f n :
  length (bitmap f) = 2048%nat → (∀ x, 69 ≤ x < 16384 → ubit (bitmap f) x = true) →
  16384 < total_sectors f → alloc_sectors n f = None.
Proof.
  intros Hl Hu Ht. unfold alloc_sectors. change DATA_START with 69.
  assert (Hloop : ∀ k sector rs rl, 69 ≤ sector ≤ 16384 → 16384 < sector + Z.of_nat k →
    alloc_loop k sector rs rl n (bitmap f) = None).
  { induction k as [|k IH]; intros sector rs rl Hs Hk; [lia|]. cbn [alloc_loop].
    destruct (decide (sector = 16384)) as [->|].
    - unfold sector_used. rewrite lookup_ge_None_2; [done|]. rewrite Hl. change (16384 `div` 8) with 2048. lia.
    - rewrite sector_used_ubit by (rewrite Hl; lia). cbn [mbind option_bind]. rewrite Hu by lia. apply IH; lia. }
  apply Hloop; lia.
Qed.

(** Finding: names are cut to 119 bytes when stored; a longer one is never found
    again. *)
Lemma long_name_unreachable nm e : (119 < length nm)%nat → matches nm (set_name nm e) = false.
Proof.
  intros Hl. destruct (matches nm (set_name nm e)) eqn:E; [|done]. apply matches_true in E as [_ E].
  assert (Hz : ∀ (a : list Z) k, (length (until_zero (a ++ replicate (S k) 0%Z)) ≤ length a)%nat).
  { intros a k. induction a as [|b a IH]; [done|]. cbn [app until_zero length].
    destruct (b =? 0); cbn [length]; lia. }
  assert (length (name_str (set_name nm e)) ≤ 119)%nat; [|rewrite E in *; lia].
  unfold name_str, set_name. cbn [name]. change (MAX_NAME_LEN - 1)%nat with 119%nat. rewrite Nat.min_r by lia.
  change (MAX_NAME_LEN - 119)%nat with 1%nat. specialize (Hz (take 119 nm) 0%nat). rewrite length_take in Hz.
  destruct (utf8_valid _); [lia|cbn; lia].
Qed.

Section disk_mount.
Context {D : Type} `{Reliable D} (eng : EncryptionEngine).

(** The errors of the file system as the front end passes them on; a panic, which
    [DiskFsTheorems] excludes, is shown as an error. *)
Definition front {A} (r : result fs_stop A) : result string A :=
  match r with Ok a => Ok a | Err (Fail e) => Err e | Err Crash => Err "panic"%string end.

(** [DISK_FS], with no other file system mounted. *)
#[export] Instance disk_backends : Backends (option (@st D)) := {|
  ntfs_available _ := false;
  ntfs_read _ _ := Err "NTFS not mounted"%string;
  fat_available _ := false;
  fat_read _ _ := Err "FAT32 not mounted"%string;
  fat_write _ _ b := (Err "FAT32 not mounted"%string, b);
  fat_list _ _ := Err "FAT32 not mounted"%string;
  disk_mounted b := bool_decide (is_Some b);
  disk_list b := match b with Some s => list_files (fs s) | None => [] end;
  disk_read p b :=
    match b with
    | Some s => front (read_file eng (fs s) p (disks s)).1
    | None => Err "Disk not mounted"%string
    end;
  disk_write p data b :=
    match b with
    | Some s => let '(r, s') := write_file eng p data s in (front r, Some s')
    | None => (Err "Disk not mounted"%string, None)
    end;
  ext4_handles _ _ := false;
  ext4_readdir _ _ := None;
  ext4_stat _ _ := None;
  ext4_read _ _ := None;
  device_write _ _ b := (Err "no device"%string, b)
|}.

Definition disk_path (nm : list Z) : path := text "/disk/" ++ nm.

Lemma disk_path_routes nm :
  is_fat_path (disk_path nm) = false ∧ is_disk_path (disk_path nm) = true ∧ disk_filename (disk_path nm) = nm.
Proof. done. Qed.

(** Reading under [/disk] gives the files of the map. *)
Lemma read_disk_file (v : Vfs (option (@st D))) s m nm :
  backend v = Some s → holds eng s m →
  read_file_full (disk_path nm) v = match m !! nm with Some d => Ok d | None => Err "File not found"%string end.
Proof.
  intros Hb Hh. unfold read_file_full. destruct (disk_path_routes nm) as (-> & -> & ->). rewrite Hb.
  cbn [ext4_handles disk_backends disk_mounted disk_read]. rewrite bool_decide_true by by eexists.
  destruct (read_file_ok eng s m nm Hh) as (ds' & _ & ->). by destruct (m !! nm).
Qed.
End disk_mount.

(** A file written under [/disk] through the front end is there: on a device
    that answers, if the write is accepted then the same path reads back the data,
    every other path under [/disk] reads as before, and both stay true when the
    disk is mounted afresh. *)
Theorem vfs_disk_persistent {D : Type} `{Reliable D} eng now nm data (v : Vfs (option (@st D))) s m v' :
  backend v = Some s → holds eng s m → name_fits nm →
  create_and_write (H := disk_backends eng) now (disk_path nm) data v = (Ok tt, v') →
  ∃ s', backend v' = Some s' ∧ holds eng s' (<[nm := data]> m)
    ∧ read_file_full (H := disk_backends eng) (disk_path nm) v' = Ok data
    ∧ (∀ nm', nm' ≠ nm →
         read_file_full (H := disk_backends eng) (disk_path nm') v'
         = read_file_full (H := disk_backends eng) (disk_path nm') v)
    ∧ ∃ f ds', mount eng (disks s') = (Ok f, ds')
        ∧ ∀ nm', read_file_full (H := disk_backends eng) (disk_path nm') (set_backend (Some (mkSt f ds')) v')
                 = read_file_full (H := disk_backends eng) (disk_path nm') v'.
Proof.
  intros Hb Hh Hnm Hc. unfold create_and_write in Hc. destruct (check_write _ _) as [u|]; [|done].
  destruct (disk_path_routes nm) as (E1 & E2 & E3). rewrite E1, E2, E3, Hb in Hc.
  cbn [disk_mounted disk_write disk_backends] in Hc. rewrite bool_decide_true in Hc by by eexists. cbn [negb] in Hc.
  pose proof (write_file_ok eng s m nm data Hh Hnm) as Hw.
  destruct (write_file eng nm data s) as [[[]|[e|]] s']; [|done..]. injection Hc as <-.
  exists s'. split; [done|]. split; [done|]. split; [|split].
  - rewrite (read_disk_file eng (set_backend (Some s') v) s' _ nm eq_refl Hw). by rewrite lookup_insert_eq.
  - intros nm' Hne. rewrite (read_disk_file eng (set_backend (Some s') v) s' _ nm' eq_refl Hw).
    rewrite (read_disk_file eng v s m nm' Hb Hh).
    by rewrite lookup_insert_ne by done.
  - destruct (remount_ok eng s' _ Hw) as (ds' & Em & Hh'). exists (fs s'), ds'. split; [done|]. intros nm'.
    rewrite (read_disk_file eng (set_backend (Some s') v) s' _ nm' eq_refl Hw).
    by rewrite (read_disk_file eng (set_backend (Some (mkSt (fs s') ds')) (set_backend (Some s') v)) _ _ nm' eq_refl Hh').
Qed.

(** A freshly formatted disk of 80 sectors. *)
Definition plain_engine : EncryptionEngine := mkEngine [] false.
Definition demo_format := format plain_engine 80 (mkDisks None None None (∅ : gmap Z (list Z))).
Definition demo_disk : @st (gmap Z (list Z)) :=
  mkSt (match demo_format.1 with Ok f => f | Err _ => mkDiskFs [] [] 0 end) demo_format.2.
Definition demo_mount : Vfs (option (@st (gmap Z (list Z)))) :=
  mkVfs None None [] (mkProtection [] false) (Some demo_disk).
Definition demo_create := create_and_write (H := disk_backends plain_engine) 0 (disk_path [97]) [5; 6] demo_mount.

Lemma demo_disk_holds : holds plain_engine demo_disk ∅.
Proof.
  destruct (format_ok plain_engine 80 (mkDisks None None None (∅ : gmap Z (list Z)))) as (f & ds & Ef & Hh); [lia|].
  unfold demo_disk, demo_format. rewrite Ef. exact Hh.
Qed.

Lemma vfs_disk_persistent_witness :
  demo_create.1 = Ok tt
  ∧ read_file_full (H := disk_backends plain_engine) (disk_path [97]) demo_create.2 = Ok [5; 6].
Proof.
  assert (Hnm : name_fits [97]) by (split; [done|cbn; lia|constructor; [lia|constructor]]).
  assert (Hr : demo_create.1 = Ok tt) by (vm_compute; reflexivity).
  split; [exact Hr|].
  assert (Ec : demo_create = (Ok tt, demo_create.2)) by (rewrite <- Hr; apply surjective_pairing).
  destruct (vfs_disk_persistent plain_engine 0 [97] [5; 6] demo_mount demo_disk ∅ demo_create.2
    eq_refl demo_disk_holds Hnm Ec) as (s' & _ & _ & Hread & _).
  exact Hread.
Defined.
