(* ===== verification/TextBytes.v ===== *)
(** * Text as bytes

    Rust strings as the lists of their UTF-8 bytes, with what the network modules use of
    the standard library on them: searching, splitting, trimming, letter case, numbers
    and the lossy conversion of arbitrary bytes. *)

From S2P Require Import Prelude Bits Words SmartPack.

(** Text constants. *)
Definition text (s : string) : list Z := map (λ a, Z.of_N (Ascii.N_of_ascii a)) (String.list_ascii_of_string s).

Definition starts_with (prefix s : list Z) : bool := bool_decide (take (length prefix) s = prefix).

Fixpoint find_byte (c : Z) (s : list Z) : option nat :=
  match s with
  | [] => None
  | b :: s' => if b =? c then Some O else S <$> find_byte c s'
  end.

(** [str::parse::<u16>]: an optional plus sign and decimal digits. *)
Definition is_digit (c : Z) : bool := (48 <=? c) && (c <=? 57).
Definition parse_u16 (s : list Z) : option Z :=
  let ds := match s with 43 :: r => r | _ => s end in
  match ds with
  | [] => None
  | _ =>
      if forallb is_digit ds then
        let v := foldl (λ a c, a * 10 + (c - 48)) 0 ds in
        if v <? 65536 then Some v else None
      else None
  end.

Fixpoint contains (pat s : list Z) : bool :=
  starts_with pat s || match s with [] => false | _ :: s' => contains pat s' end.

(** [to_string] of an unsigned number, at most [fuel] digits. *)
Fixpoint decimal (fuel : nat) (v : Z) : list Z :=
  match fuel with
  | O => []
  | S fuel' => (if v <? 10 then [] else decimal fuel' (v `div` 10)) ++ [48 + v `mod` 10]
  end.

(** [to_ascii_lowercase]. *)
Definition lower_byte (b : Z) : Z := if (65 <=? b) && (b <=? 90) then b + 32 else b.
Definition to_ascii_lowercase (s : list Z) : list Z := map lower_byte s.

(** [String::from_utf8_lossy]: every maximal ill-formed piece becomes U+FFFD. *)
Definition FFFD : list Z := [0xEF; 0xBF; 0xBD].

Fixpoint from_utf8_lossy (bs : list Z) : list Z :=
  match bs with
  | [] => []
  | b0 :: r0 =>
      if b0 <? 0x80 then b0 :: from_utf8_lossy r0
      else if in_range 0xC2 0xDF b0 then
        match r0 with
        | b1 :: r1 => if is_cont b1 then b0 :: b1 :: from_utf8_lossy r1 else FFFD ++ from_utf8_lossy r0
        | [] => FFFD
        end
      else if in_range 0xE0 0xEF b0 then
        match r0 with
        | b1 :: r1 =>
            if (if b0 =? 0xE0 then in_range 0xA0 0xBF b1
                else if b0 =? 0xED then in_range 0x80 0x9F b1 else is_cont b1) then
              match r1 with
              | b2 :: r2 => if is_cont b2 then b0 :: b1 :: b2 :: from_utf8_lossy r2 else FFFD ++ from_utf8_lossy r1
              | [] => FFFD
              end
            else FFFD ++ from_utf8_lossy r0
        | [] => FFFD
        end
      else if in_range 0xF0 0xF4 b0 then
        match r0 with
        | b1 :: r1 =>
            if (if b0 =? 0xF0 then in_range 0x90 0xBF b1
                else if b0 =? 0xF4 then in_range 0x80 0x8F b1 else is_cont b1) then
              match r1 with
              | b2 :: r2 =>
                  if is_cont b2 then
                    match r2 with
                    | b3 :: r3 =>
                        if is_cont b3 then b0 :: b1 :: b2 :: b3 :: from_utf8_lossy r3 else FFFD ++ from_utf8_lossy r2
                    | [] => FFFD
                    end
                  else FFFD ++ from_utf8_lossy r1
              | [] => FFFD
              end
            else FFFD ++ from_utf8_lossy r0
        | [] => FFFD
        end
      else FFFD ++ from_utf8_lossy r0
  end.

(** Valid text is kept as it is. *)
Lemma from_utf8_lossy_valid s : utf8_valid s = true → from_utf8_lossy s = s.
Proof.
  remember (length s) as k eqn:Ek. revert s Ek. induction (lt_wf k) as [k _ IH]. intros s -> Hv.
  destruct s as [|b0 r0]; [done|]. cbn [from_utf8_lossy utf8_valid] in *.
  assert (IH' : ∀ r, (length r < length (b0 :: r0))%nat → utf8_valid r = true → from_utf8_lossy r = r).
  { intros r Hr. by apply (IH (length r) Hr). }
  destruct (b0 <? 0x80); [rewrite IH'; [done|cbn; lia|done]|].
  destruct (in_range 0xC2 0xDF b0).
  { destruct r0 as [|b1 r1]; [done|]. apply andb_true_iff in Hv as [-> Hv]. rewrite IH'; [done|cbn; lia|done]. }
  destruct (in_range 0xE0 0xEF b0).
  { destruct r0 as [|b1 [|b2 r2]]; [done..|]. rewrite !andb_true_iff in Hv. destruct Hv as [[-> ->] Hv].
    rewrite IH'; [done|cbn; lia|done]. }
  destruct (in_range 0xF0 0xF4 b0); [|done].
  destruct r0 as [|b1 [|b2 [|b3 r3]]]; [done..|]. rewrite !andb_true_iff in Hv. destruct Hv as [[[-> ->] ->] Hv].
  rewrite IH'; [done|cbn; lia|done].
Qed.

(** ** Searching and splitting *)

(** [s.find(pat)]. *)
Fixpoint find_text (pat s : list Z) : option nat :=
  if starts_with pat s then Some O
  else match s with [] => None | _ :: s' => S <$> find_text pat s' end.

(** [s.rfind(c)]. *)
Fixpoint rfind_byte (c : Z) (s : list Z) : option nat :=
  match s with
  | [] => None
  | b :: s' =>
      match rfind_byte c s' with
      | Some i => Some (S i)
      | None => if b =? c then Some O else None
      end
  end.

(** [s.split(c)]. *)
Fixpoint split_byte (c : Z) (s : list Z) : list (list Z) :=
  match s with
  | [] => [[]]
  | b :: s' =>
      if b =? c then [] :: split_byte c s'
      else match split_byte c s' with p :: ps => (b :: p) :: ps | [] => [[b]] end
  end.

(** [s.lines()]. *)
Definition strip_cr (l : list Z) : list Z := if bool_decide (last l = Some 13) then removelast l else l.

Fixpoint cut_lines (pieces : list (list Z)) : list (list Z) :=
  match pieces with
  | [] => []
  | [last_piece] => match last_piece with [] => [] | _ => [last_piece] end
  | p :: rest => strip_cr p :: cut_lines rest
  end.

Definition lines (s : list Z) : list (list Z) := cut_lines (split_byte 10 s).

(** [s.splitn(n, c)]. *)
Fixpoint splitn (n : nat) (c : Z) (s : list Z) : list (list Z) :=
  match n with
  | O => []
  | S O => [s]
  | S n' => match find_byte c s with Some i => take i s :: splitn n' c (drop (S i) s) | None => [s] end
  end.

Definition ends_with (suffix s : list Z) : bool :=
  (length suffix <=? length s)%nat && bool_decide (drop (length s - length suffix) s = suffix).

(** ** White space *)
Definition ascii_space (b : Z) : bool := (b =? 32) || ((9 <=? b) && (b <=? 13)).

(** White-space characters of two and three bytes, as Unicode has them. *)
Definition space2 (b0 b1 : Z) : bool := (b0 =? 0xC2) && ((b1 =? 0x85) || (b1 =? 0xA0)).
Definition space3 (b0 b1 b2 : Z) : bool :=
  ((b0 =? 0xE1) && (b1 =? 0x9A) && (b2 =? 0x80))
  || ((b0 =? 0xE2) && (b1 =? 0x80)
      && (((0x80 <=? b2) && (b2 <=? 0x8A)) || (b2 =? 0xA8) || (b2 =? 0xA9) || (b2 =? 0xAF)))
  || ((b0 =? 0xE2) && (b1 =? 0x81) && (b2 =? 0x9F))
  || ((b0 =? 0xE3) && (b1 =? 0x80) && (b2 =? 0x80)).

(** The length of the white-space character [s] starts with. *)
Definition space_at_start (s : list Z) : nat :=
  match s with
  | [] => 0
  | b0 :: r => if ascii_space b0 then 1 else
      match r with
      | [] => 0
      | b1 :: r' => if space2 b0 b1 then 2 else
          match r' with [] => 0 | b2 :: _ => if space3 b0 b1 b2 then 3 else 0 end
      end
  end.

(** The same at the end of a text, given in reverse. *)
Definition space_at_end (r : list Z) : nat :=
  match r with
  | [] => 0
  | b0 :: r => if ascii_space b0 then 1 else
      match r with
      | [] => 0
      | b1 :: r' => if space2 b1 b0 then 2 else
          match r' with [] => 0 | b2 :: _ => if space3 b2 b1 b0 then 3 else 0 end
      end
  end.

Fixpoint strip (space : list Z → nat) (fuel : nat) (s : list Z) : list Z :=
  match fuel with
  | O => s
  | S fuel' => match space s with O => s | S n => strip space fuel' (drop (S n) s) end
  end.

Definition trim_start (s : list Z) : list Z := strip space_at_start (length s) s.
Definition trim_end (s : list Z) : list Z := reverse (strip space_at_end (length s) (reverse s)).
Definition trim (s : list Z) : list Z := trim_end (trim_start s).

(** [s.trim_end_matches(c)]. *)
Fixpoint drop_leading (c : Z) (s : list Z) : list Z :=
  match s with b :: s' => if b =? c then drop_leading c s' else s | [] => [] end.
Definition trim_end_matches (c : Z) (s : list Z) : list Z := reverse (drop_leading c (reverse s)).

(** ** Numbers *)
Definition digit_value (c : Z) : Z :=
  if (48 <=? c) && (c <=? 57) then c - 48
  else if (97 <=? c) && (c <=? 122) then c - 87
  else if (65 <=? c) && (c <=? 90) then c - 55
  else 99.

(** [from_str_radix] for a [w]-bit unsigned type: an optional plus sign and at
    least one digit; a value out of range is refused. *)
Definition parse_radix (radix w : Z) (s : list Z) : option Z :=
  let ds := match s with 43 :: r => r | _ => s end in
  match ds with
  | [] => None
  | _ =>
      if forallb (λ c, digit_value c <? radix) ds then
        let v := foldl (λ a c, a * radix + digit_value c) 0 ds in
        if v <? 2 ^ w then Some v else None
      else None
  end.

(** ** Lemmas *)
Lemma starts_with_spec p s : starts_with p s = true ↔ ∃ r, s = p ++ r.
Proof.
  unfold starts_with. rewrite bool_decide_eq_true. split.
  - intros E. exists (drop (length p) s). by rewrite <- E at 1; rewrite take_drop.
  - intros [r ->]. apply take_app_length.
Qed.

Lemma find_byte_none c s : Forall (λ b, b ≠ c) s → find_byte c s = None.
Proof. induction 1 as [|b s Hb _ IH]; [done|]. cbn. by rewrite (proj2 (Z.eqb_neq _ _) Hb), IH. Qed.

Lemma find_byte_app c s rest : Forall (λ b, b ≠ c) s → find_byte c (s ++ c :: rest) = Some (length s).
Proof.
  induction 1 as [|b s Hb _ IH]; cbn; [by rewrite Z.eqb_refl|]. by rewrite (proj2 (Z.eqb_neq _ _) Hb), IH.
Qed.

Lemma split_byte_none c s : Forall (λ b, b ≠ c) s → split_byte c s = [s].
Proof. induction 1 as [|b s Hb _ IH]; [done|]. cbn. by rewrite (proj2 (Z.eqb_neq _ _) Hb), IH. Qed.

Lemma split_byte_app c s rest : Forall (λ b, b ≠ c) s → split_byte c (s ++ c :: rest) = s :: split_byte c rest.
Proof. induction 1 as [|b s Hb _ IH]; cbn; [by rewrite Z.eqb_refl|]. by rewrite (proj2 (Z.eqb_neq _ _) Hb), IH. Qed.

(** Text without white space at its ends is kept. *)
Lemma trim_id s : space_at_start s = O → space_at_end (reverse s) = O → trim s = s.
Proof.
  intros Hs He. unfold trim, trim_end, trim_start. destruct s as [|b s]; [done|].
  assert (E : strip space_at_start (length (b :: s)) (b :: s) = b :: s) by (cbn [strip length]; by rewrite Hs).
  rewrite E. cbn [length strip]. rewrite He. apply reverse_involutive.
Qed.

Lemma space2_space b : space2 b 32 = false.
Proof. unfold space2. by rewrite andb_false_r. Qed.
Lemma space3_space a b : space3 a b 32 = false.
Proof. unfold space3. by rewrite !andb_false_r. Qed.

Lemma space_at_start_app s n : s ≠ [] → space_at_start s = O → space_at_start (s ++ replicate n 32) = O.
Proof.
  intros Hne Hs. destruct s as [|b0 [|b1 [|b2 s]]]; [done|..|done]; destruct n as [|[|n]]; cbn [app replicate space_at_start] in *;
    rewrite ?space2_space, ?space3_space; try done; repeat (case_match; try done).
Qed.

(** Spaces around it are removed. *)
Lemma trim_spaces m s n :
  s ≠ [] → space_at_start s = O → space_at_end (reverse s) = O → trim (replicate m 32 ++ s ++ replicate n 32) = s.
Proof.
  intros Hne Hs He.
  assert (G1 : ∀ m fuel, (m + 0 < fuel)%nat → strip space_at_start fuel (replicate m 32 ++ s ++ replicate n 32) = s ++ replicate n 32).
  { clear m. induction m as [|m IH]; intros fuel Hf; (destruct fuel as [|fuel]; [lia|]).
    - cbn [replicate app strip]. by rewrite space_at_start_app.
    - cbn [replicate app strip]. change (space_at_start (32 :: _)) with 1%nat. cbn [drop]. apply IH. lia. }
  assert (G2 : ∀ n fuel, (n < fuel)%nat → strip space_at_end fuel (replicate n 32 ++ reverse s) = reverse s).
  { clear n G1. induction n as [|n IH]; intros fuel Hf; (destruct fuel as [|fuel]; [lia|]).
    - cbn [replicate app strip]. by rewrite He.
    - cbn [replicate app strip].
      assert (E : space_at_end (32 :: replicate n 32 ++ reverse s) = 1%nat).
      { done. }
      rewrite E. cbn [drop]. apply IH. lia. }
  unfold trim, trim_start, trim_end. rewrite G1.
  - rewrite reverse_app, reverse_replicate, G2; [apply reverse_involutive|].
    rewrite length_app, length_replicate. destruct s; [done|cbn; lia].
  - rewrite !length_app, !length_replicate. destruct s; [done|cbn; lia].
Qed.

(** ** Lines of ASCII text *)
Definition plain (l : list Z) : Prop := Forall (λ b, 0 ≤ b < 128 ∧ b ≠ 13) l.
Definition one_line (l : list Z) : Prop := plain l ∧ Forall (λ b, b ≠ 10) l.

Lemma split_byte_cons c s : ∃ p ps, split_byte c s = p :: ps.
Proof. induction s as [|b s (p & ps & E)]; cbn; [eauto|]. destruct (b =? c); [eauto|]. rewrite E. eauto. Qed.

Lemma split_byte_Forall c (P : Z → Prop) s : Forall P s → Forall (λ p, Forall P p ∧ Forall (λ b, b ≠ c) p) (split_byte c s).
Proof.
  induction 1 as [|b s Hb _ IH]; cbn; [by repeat constructor|]. destruct (Z.eqb_spec b c) as [->|Hne].
  - constructor; [by repeat constructor|done].
  - destruct (split_byte_cons c s) as (p & ps & E). rewrite E in *. apply Forall_cons in IH as [[H1 H2] IH].
    constructor; [|done]. split; by constructor.
Qed.

Lemma strip_cr_plain l : plain l → strip_cr l = l.
Proof.
  intros Hl. unfold strip_cr. case_bool_decide as E; [|done]. apply last_Some in E as [f ->]. apply Forall_app in Hl as [_ Hl].
  apply Forall_cons in Hl as [[_ ?] _]. done.
Qed.

Lemma cut_lines_Forall P ps : Forall P ps → (∀ p, P p → P (strip_cr p)) → Forall P (cut_lines ps).
Proof.
  intros H Hs. induction H as [|p ps Hp H IH]; [constructor|]. destruct ps as [|q ps]; cbn [cut_lines].
  - destruct p; by repeat constructor.
  - constructor; [by apply Hs|exact IH].
Qed.

Lemma lines_ok s : plain s → Forall one_line (lines s).
Proof.
  intros Hs. apply cut_lines_Forall; [by apply split_byte_Forall|]. intros p [Hp Hn]. rewrite strip_cr_plain by done. by split.
Qed.

Lemma lines_concat ls : Forall one_line ls → lines (concat (map (λ l, l ++ [10]) ls)) = ls.
Proof.
  intros Hls. unfold lines. assert (E : split_byte 10 (concat (map (λ l, l ++ [10]) ls)) = ls ++ [[]]).
  { induction Hls as [|l ls [_ Hl] _ IH]; [done|]. cbn [map concat]. rewrite <- app_assoc. cbn [app]. by rewrite split_byte_app, IH. }
  rewrite E. clear E. induction Hls as [|l ls [Hl _] _ IH]; [done|]. cbn [app cut_lines].
  destruct ls as [|l' ls]; cbn [app] in *; [cbn; by rewrite strip_cr_plain|]. by rewrite strip_cr_plain, IH.
Qed.

Lemma utf8_plain s : plain s → utf8_valid s = true.
Proof.
  induction 1 as [|b s [[_ Hb] _] _ IH]; [done|]. cbn [utf8_valid]. rewrite (proj2 (Z.ltb_lt _ _)) by lia. exact IH.
Qed.
