(* ===== verification/WebSocket.v ===== *)
(** * WebSocket client ([kernel/src/net/websocket.rs])

    The frame codec, the opening handshake with its SHA-1 and base64, sending,
    fragmentation, and the receiving state machine.  The TCP connection below is
    an interface ([TcpEndpoint]); the name lookup and the opening of the connection
    come before [handshake], and the subprotocol header is not read.  Strings are
    their UTF-8 bytes. *)

From S2P Require Import Prelude Bits Words SmartPack TextBytes.

(** ** Frames *)
Inductive Opcode :=
| Continuation
| Text
| Binary
| Close
| Ping
| Pong
| Reserved (n : Z).

#[export] Instance Opcode_eq_dec : EqDecision Opcode.
Proof. solve_decision. Defined.

Definition from_u8 (v : Z) : Opcode :=
  let n := Z.land v 0x0F in
  if n =? 0x0 then Continuation
  else if n =? 0x1 then Text
  else if n =? 0x2 then Binary
  else if n =? 0x8 then Close
  else if n =? 0x9 then Ping
  else if n =? 0xA then Pong
  else Reserved n.

Definition to_u8 (o : Opcode) : Z :=
  match o with
  | Continuation => 0x0 | Text => 0x1 | Binary => 0x2
  | Close => 0x8 | Ping => 0x9 | Pong => 0xA | Reserved n => n
  end.

Record WsFrame := mkFrame { fin : bool; opcode : Opcode; payload : list Z }.

Definition mask_key (seed : Z) : list Z :=
  let v := wrap 32 (wrap 32 (seed * 1664525) + 1013904223) in
  [wrap 8 (Z.shiftr v 24); wrap 8 (Z.shiftr v 16); wrap 8 (Z.shiftr v 8); wrap 8 v].

(** [b ^ mk[i & 3]] for every byte. *)
Definition apply_mask (mk data : list Z) : list Z :=
  imap (λ i b, Z.lxor b (nth (i `mod` 4)%nat mk 0)) data.

Definition encode (f : WsFrame) (mask : bool) : list Z :=
  let fin_bit := if fin f then 0x80 else 0x00 in
  let mask_bit := if mask then 0x80 else 0x00 in
  let len := Z.of_nat (length (payload f)) in
  [Z.lor fin_bit (to_u8 (opcode f))]
  ++ (if len <? 126 then [Z.lor mask_bit (wrap 8 len)]
      else if len <? 65536 then [Z.lor mask_bit 126; wrap 8 (Z.shiftr len 8); wrap 8 len]
      else Z.lor mask_bit 127 :: to_be_bytes 8 len)
  ++ (if mask then mask_key (wrap 32 len) ++ apply_mask (mask_key (wrap 32 len)) (payload f)
      else payload f).

(** The payload length and the position after it; [None] if bytes are missing. *)
Definition decode_len (data : list Z) (raw_len : Z) : option (Z * nat) :=
  if raw_len =? 126 then
    if (length data <? 4)%nat then None
    else Some (from_be_bytes (take 2 (drop 2 data)), 4%nat)
  else if raw_len =? 127 then
    if (length data <? 10)%nat then None
    else Some (from_be_bytes (take 8 (drop 2 data)), 10%nat)
  else Some (raw_len, 2%nat).

(** [Panicked] where [pos + payload_len] leaves the machine word: the sum wraps
    below [pos] and the slice that follows is refused. *)
Definition decode (data : list Z) : outcome (option (WsFrame * nat)) :=
  match data with
  | b0 :: b1 :: _ =>
      let fin := negb (Z.land b0 0x80 =? 0) in
      let opcode := from_u8 b0 in
      let masked := negb (Z.land b1 0x80 =? 0) in
      match decode_len data (Z.land b1 0x7F) with
      | None => Returned None
      | Some (payload_len, pos) =>
          if masked && (length data <? pos + 4)%nat then Returned None else
          let mk := if masked then Some (take 4 (drop pos data)) else None in
          let pos := if masked then (pos + 4)%nat else pos in
          if 2 ^ 64 <=? Z.of_nat pos + payload_len then Panicked
          else if Z.of_nat (length data) <? Z.of_nat pos + payload_len then Returned None
          else
            let raw := take (Z.to_nat payload_len) (drop pos data) in
            Returned (Some (mkFrame fin opcode (match mk with Some k => apply_mask k raw | None => raw end),
                            (pos + Z.to_nat payload_len)%nat))
      end
  | _ => Returned None
  end.

(** ** Handshake *)
Definition generate_ws_key_bytes (nonce : Z) : list Z :=
  map (λ i, Z.land (wrap 32 (wrap 32 (nonce * (Z.of_nat i + 1)) + 0xDEAD)) 0xFF) (seq 0 16).

Definition B64_TABLE : list Z := text "ABCDEFGHIJKLMNOPQRSTUVWXYZabcdefghijklmnopqrstuvwxyz0123456789+/".

Definition b64_char (v : Z) : Z := nth (Z.to_nat (Z.land v 63)) B64_TABLE 0.

Definition b64_chunk (chunk : list Z) : list Z :=
  let b0 := nth 0 chunk 0 in
  let b1 := nth 1 chunk 0 in
  let b2 := nth 2 chunk 0 in
  let combined := Z.lor (Z.lor (Z.shiftl b0 16) (Z.shiftl b1 8)) b2 in
  [b64_char (Z.shiftr combined 18); b64_char (Z.shiftr combined 12);
   if (1 <? length chunk)%nat then b64_char (Z.shiftr combined 6) else 61;
   if (2 <? length chunk)%nat then b64_char combined else 61].

Definition base64_encode (data : list Z) : list Z := concat (map b64_chunk (chunks 3 data)).

Definition generate_ws_key (nonce : Z) : list Z := base64_encode (generate_ws_key_bytes nonce).

(** SHA-1: the message schedule, the rounds and the padding loop. *)
Definition sha1_w (chunk : list Z) : list Z :=
  foldl (λ w i, w ++ [rotl 32 1 (Z.lxor (Z.lxor (Z.lxor (nth (i - 3) w 0) (nth (i - 8) w 0)) (nth (i - 14) w 0)) (nth (i - 16) w 0))])
    (map from_be_bytes (chunks 4 chunk)) (seq 16 64).

Definition sha1_fk (i : nat) (b c d : Z) : Z * Z :=
  if (i <? 20)%nat then (Z.lor (Z.land b c) (Z.land (wnot 32 b) d), 0x5A827999)
  else if (i <? 40)%nat then (Z.lxor (Z.lxor b c) d, 0x6ED9EBA1)
  else if (i <? 60)%nat then (Z.lor (Z.lor (Z.land b c) (Z.land b d)) (Z.land c d), 0x8F1BBCDC)
  else (Z.lxor (Z.lxor b c) d, 0xCA62C1D6).

Definition sha1_state : Type := (Z * Z * Z * Z * Z)%type.

Definition sha1_round (w : list Z) (s : sha1_state) (i : nat) : sha1_state :=
  let '(a, b, c, d, e) := s in
  let '(f, k) := sha1_fk i b c d in
  let temp := wadd 32 (wadd 32 (wadd 32 (wadd 32 (rotl 32 5 a) f) e) k) (nth i w 0) in
  (temp, a, rotl 32 30 b, c, d).

Definition sha1_block (h : sha1_state) (chunk : list Z) : sha1_state :=
  let '(a, b, c, d, e) := foldl (sha1_round (sha1_w chunk)) h (seq 0 80) in
  let '(h0, h1, h2, h3, h4) := h in
  (wadd 32 h0 a, wadd 32 h1 b, wadd 32 h2 c, wadd 32 h3 d, wadd 32 h4 e).

(** [while msg.len() % 64 != 56 { msg.push(0); }], at most 63 rounds. *)
Fixpoint sha1_fill (fuel : nat) (msg : list Z) : list Z :=
  match fuel with
  | O => msg
  | S fuel' => if (length msg `mod` 64 =? 56)%nat then msg else sha1_fill fuel' (msg ++ [0])
  end.

Definition sha1_pad (data : list Z) : list Z :=
  sha1_fill 64 (data ++ [0x80]) ++ to_be_bytes 8 (wrap 64 (Z.of_nat (length data) * 8)).

Definition sha1 (data : list Z) : list Z :=
  let '(h0, h1, h2, h3, h4) :=
    foldl sha1_block (0x67452301, 0xEFCDAB89, 0x98BADCFE, 0x10325476, 0xC3D2E1F0) (chunks 64 (sha1_pad data)) in
  to_be_bytes 4 h0 ++ to_be_bytes 4 h1 ++ to_be_bytes 4 h2 ++ to_be_bytes 4 h3 ++ to_be_bytes 4 h4.

Definition ws_accept (key : list Z) : list Z :=
  base64_encode (sha1 (key ++ text "258EAFA5-E914-47DA-95CA-C5AB0DC85B11")).

(** ** Messages *)
Inductive CloseCode :=
| Normal | GoingAway | ProtocolError | UnsupportedData | NoStatus | AbnormalClose | InvalidData
| PolicyViolation | MessageTooBig | MandatoryExt | InternalError | TlsHandshake.

Definition code_from_u16 (v : Z) : CloseCode :=
  if v =? 1000 then Normal else if v =? 1001 then GoingAway
  else if v =? 1002 then ProtocolError else if v =? 1003 then UnsupportedData
  else if v =? 1007 then InvalidData else if v =? 1008 then PolicyViolation
  else if v =? 1009 then MessageTooBig else if v =? 1011 then InternalError
  else ProtocolError.

Definition to_u16 (c : CloseCode) : Z :=
  match c with
  | Normal => 1000 | GoingAway => 1001 | ProtocolError => 1002 | UnsupportedData => 1003
  | NoStatus => 1005 | AbnormalClose => 1006 | InvalidData => 1007 | PolicyViolation => 1008
  | MessageTooBig => 1009 | MandatoryExt => 1010 | InternalError => 1011 | TlsHandshake => 1015
  end.

Inductive WsMessage :=
| MText (s : list Z)
| MBinary (b : list Z)
| MPing (b : list Z)
| MPong (b : list Z)
| MClose (code : CloseCode) (reason : list Z).

Definition parse_close_payload (data : list Z) : CloseCode * list Z :=
  match data with
  | a :: b :: rest => (code_from_u16 (from_be_bytes [a; b]), from_utf8_lossy rest)
  | _ => (NoStatus, [])
  end.

(** ** The connection *)
Inductive WsState := Connecting | Open | Closing | Closed.

#[export] Instance WsState_eq_dec : EqDecision WsState.
Proof. solve_decision. Defined.

(** What the client uses of a TCP connection: [tcp::send] with its success, and
    [tcp::recv] into a buffer of [n] bytes, where nothing stands for 0 or an
    error. *)
Class TcpEndpoint (T : Type) := {
  tcp_send : list Z → T → bool * T;
  tcp_recv : nat → T → list Z * T;
  inbox : T → list Z;
  outbox : T → list Z;
  send_ok b t t' : tcp_send b t = (true, t') → outbox t' = outbox t ++ b ∧ inbox t' = inbox t;
  send_failed b t t' : tcp_send b t = (false, t') → outbox t' = outbox t ∧ inbox t' = inbox t;
  recv_spec n t b t' : tcp_recv n t = (b, t') →
    b = take n (inbox t) ∧ inbox t' = drop n (inbox t) ∧ outbox t' = outbox t
}.

Record WebSocket (T : Type) := mkWs {
  state : WsState;
  conn : T;
  recv_buf : list Z;
  frag_buf : list Z;
  frag_opcode : Opcode;
  messages : list WsMessage;
  send_seq : Z
}.
Arguments mkWs {T} _ _ _ _ _ _ _.
Arguments state {T} _.
Arguments conn {T} _.
Arguments recv_buf {T} _.
Arguments frag_buf {T} _.
Arguments frag_opcode {T} _.
Arguments messages {T} _.
Arguments send_seq {T} _.

Section client.
Context {T : Type} `{TcpEndpoint T}.
Implicit Types w : WebSocket T.

Definition set_state (s : WsState) w := mkWs s (conn w) (recv_buf w) (frag_buf w) (frag_opcode w) (messages w) (send_seq w).
Definition set_conn (t : T) w := mkWs (state w) t (recv_buf w) (frag_buf w) (frag_opcode w) (messages w) (send_seq w).
Definition set_recv_buf (b : list Z) w := mkWs (state w) (conn w) b (frag_buf w) (frag_opcode w) (messages w) (send_seq w).
Definition set_frag (o : Opcode) (b : list Z) w := mkWs (state w) (conn w) (recv_buf w) b o (messages w) (send_seq w).
Definition push_back (m : WsMessage) w := mkWs (state w) (conn w) (recv_buf w) (frag_buf w) (frag_opcode w) (messages w ++ [m]) (send_seq w).
Definition bump_seq w := mkWs (state w) (conn w) (recv_buf w) (frag_buf w) (frag_opcode w) (messages w) (wrap 32 (send_seq w + 1)).

(** ** Sending *)
Definition send_frame (f : WsFrame) (e : string) w : result string unit * WebSocket T :=
  let '(ok, t) := tcp_send (encode f true) (conn w) in
  (if ok then Ok tt else Err e, set_conn t w).

Definition send_msg (o : Opcode) (data : list Z) w : result string unit * WebSocket T :=
  if bool_decide (state w ≠ Open) && bool_decide (o ≠ Close) then (Err "Not open"%string, w)
  else send_frame (mkFrame true o data) "TCP send failed" (bump_seq w).

Definition send_text (s : list Z) := send_msg Text s.
Definition send_binary (b : list Z) := send_msg Binary b.
Definition send_ping (b : list Z) := send_msg Ping b.
Definition send_pong (b : list Z) := send_msg Pong b.

Definition close (code : CloseCode) (reason : list Z) w : result string unit * WebSocket T :=
  if bool_decide (state w ≠ Open) then (Ok tt, w)
  else
    let c := to_u16 code in
    send_msg Close ([wrap 8 (Z.shiftr c 8); wrap 8 c] ++ reason) (set_state Closing w).

(** The loop over the chunks; [first] is [i == 0]. *)
Fixpoint send_chunks (o : Opcode) (first : bool) (cs : list (list Z)) w : result string unit * WebSocket T :=
  match cs with
  | [] => (Ok tt, w)
  | c :: cs' =>
      let f := mkFrame (match cs' with [] => true | _ => false end) (if first then o else Continuation) c in
      match send_frame f "TCP send" w with
      | (Err e, w') => (Err e, w')
      | (Ok _, w') => send_chunks o false cs' w'
      end
  end.

(** [data.chunks(0)] panics. *)
Definition send_fragmented (o : Opcode) (data : list Z) (chunk_size : nat) w
    : outcome (result string unit * WebSocket T) :=
  match data with
  | [] => Returned (send_msg o data w)
  | _ => if (chunk_size =? 0)%nat then Panicked else Returned (send_chunks o true (chunks chunk_size data) w)
  end.

(** ** Receiving *)
Definition whole_message (o : Opcode) (data : list Z) : WsMessage :=
  if bool_decide (o = Text) then MText (from_utf8_lossy data) else MBinary data.

Definition handle_frame (f : WsFrame) w : WebSocket T :=
  match opcode f with
  | Ping => push_back (MPing (payload f)) (send_pong (payload f) w).2
  | Pong => push_back (MPong (payload f)) w
  | Close =>
      let '(code, reason) := parse_close_payload (payload f) in
      let w := if bool_decide (state w = Open) then (send_msg Close (payload f) w).2 else w in
      push_back (MClose code reason) (set_state Closed w)
  | Text | Binary =>
      if fin f then push_back (whole_message (opcode f) (payload f)) w
      else set_frag (opcode f) (payload f) w
  | Continuation =>
      let w := set_frag (frag_opcode w) (frag_buf w ++ payload f) w in
      if fin f then
        push_back (whole_message (frag_opcode w) (frag_buf w)) (set_frag (frag_opcode w) [] w)
      else w
  | Reserved _ => w
  end.

(** Draining the connection: every turn takes a byte or more. *)
Fixpoint drain (fuel : nat) w : WebSocket T :=
  match fuel with
  | O => w
  | S fuel' =>
      match tcp_recv 4096 (conn w) with
      | ([], t) => set_conn t w
      | (b, t) => drain fuel' (set_recv_buf (recv_buf w ++ b) (set_conn t w))
      end
  end.

(** Frames are taken off the buffer while there are complete ones. *)
Fixpoint parse_loop (fuel : nat) w : outcome (WebSocket T) :=
  match fuel with
  | O => Returned w
  | S fuel' =>
      match decode (recv_buf w) with
      | Panicked => Panicked
      | Returned None => Returned w
      | Returned (Some (f, consumed)) =>
          parse_loop fuel' (handle_frame f (set_recv_buf (drop consumed (recv_buf w)) w))
      end
  end.

Definition poll w : outcome (WebSocket T) :=
  if bool_decide (state w = Closed) then Returned w
  else
    let w := drain (S (length (inbox (conn w)))) w in
    parse_loop (S (length (recv_buf w))) w.

Definition recv w : outcome (option WsMessage * WebSocket T) :=
  match poll w with
  | Panicked => Panicked
  | Returned w =>
      Returned (match messages w with
                | [] => (None, w)
                | m :: ms => (Some m, mkWs (state w) (conn w) (recv_buf w) (frag_buf w) (frag_opcode w) ms (send_seq w))
                end)
  end.
End client.

(** ** URLs *)
Definition parse_ws_url (url : list Z) : result string (list Z * Z * list Z * bool) :=
  match (if starts_with (text "wss://") url then Some (true, drop 6 url)
         else if starts_with (text "ws://") url then Some (false, drop 5 url) else None) with
  | None => Err "Not a ws:// or wss:// URL"%string
  | Some (secure, rest) =>
      let '(host_port, path) :=
        match find_byte 47 rest with
        | Some i => (take i rest, drop i rest)
        | None => (rest, [47])
        end in
      let dflt := if secure then 443 else 80 in
      let '(host, port) :=
        match find_byte 58 host_port with
        | Some i => (take i host_port, default dflt (parse_u16 (drop (S i) host_port)))
        | None => (host_port, dflt)
        end in
      Ok (host, port, path, secure)
  end.

(** ** Opening handshake *)
Definition crlf : list Z := [13; 10].

Definition upgrade_request (path host key : list Z) : list Z :=
  text "GET " ++ path ++ text " HTTP/1.1" ++ crlf ++ text "Host: " ++ host ++ crlf
  ++ text "Upgrade: websocket" ++ crlf ++ text "Connection: Upgrade" ++ crlf
  ++ text "Sec-WebSocket-Key: " ++ key ++ crlf ++ text "Sec-WebSocket-Version: 13" ++ crlf ++ crlf.

Section handshake.
Context {T : Type} `{TcpEndpoint T}.

(** At most [n] reads of 1024 bytes, until the end of the header is seen. *)
Fixpoint read_response (n : nat) (buf : list Z) (t : T) : list Z * T :=
  match n with
  | O => (buf, t)
  | S n' =>
      match tcp_recv 1024 t with
      | ([], t') => read_response n' buf t'
      | (b, t') =>
          let buf := buf ++ b in
          if contains (crlf ++ crlf) buf then (buf, t') else read_response n' buf t'
      end
  end.

(** [connect] from the open TCP connection [conn_id] on. *)
Definition handshake (conn_id : Z) (host path : list Z) (t : T) : result string (WebSocket T) :=
  let nonce := Z.lxor (wrap 32 conn_id) 0xBEEFCAFE in
  let ws_key := generate_ws_key nonce in
  match tcp_send (upgrade_request path host ws_key) t with
  | (false, _) => Err "HTTP upgrade send failed"%string
  | (true, t) =>
      let '(resp_buf, t) := read_response 200 [] t in
      let resp_str := if utf8_valid resp_buf then resp_buf else [] in
      if negb (contains (text "101") resp_str) then Err "WebSocket upgrade rejected"%string
      else if negb (contains (ws_accept ws_key) resp_str) then Err "Sec-WebSocket-Accept mismatch"%string
      else Ok (mkWs Open t [] [] Continuation [] 0)
  end.
End handshake.
