(* ===== verification/WebSocketTheorems.v ===== *)
(** * WebSocket messages end to end *)

From S2P Require Import Prelude Bits Words SmartPack TextBytes WebSocket.

(** ** The frame codec *)
Record frame_ok (f : WsFrame) : Prop := {
  fr_payload : bytes_ok (payload f);
  fr_opcode : uN 4 (to_u8 (opcode f)) ∧ from_u8 (to_u8 (opcode f)) = opcode f;
  fr_length : Z.of_nat (length (payload f)) + 14 < 2 ^ 64
}.

(** The first byte carries the final bit and the opcode. *)
Lemma byte0_spec (fin : bool) o :
  uN 4 (to_u8 o) → from_u8 (to_u8 o) = o →
  let b0 := Z.lor (if fin then 0x80 else 0x00) (to_u8 o) in
  negb (Z.land b0 0x80 =? 0) = fin ∧ from_u8 b0 = o.
Proof.
  intros Hn Ho b0. unfold b0.
  set (n := to_u8 o) in *. clearbody n.
  pose (P := λ n, implb (bool_decide (uN 4 n))
    (Bool.eqb (negb (Z.land (Z.lor (if fin then 0x80 else 0x00) n) 0x80 =? 0)) fin
     && (Z.land (Z.lor (if fin then 0x80 else 0x00) n) 0x0F =? Z.land n 0x0F))).
  assert (Hb : P n = true).
  { apply (forall_byte P); [destruct fin; vm_compute; reflexivity|].
    unfold uN in *. change (2 ^ 4) with 16 in Hn. change (2 ^ 8) with 256. lia. }
  unfold P in Hb. rewrite bool_decide_true in Hb by done. cbn [implb] in Hb.
  apply andb_true_iff in Hb as [H1 H2]. apply Bool.eqb_prop in H1. apply Z.eqb_eq in H2.
  split; [exact H1|]. rewrite <- Ho. unfold from_u8. by rewrite H2.
Qed.

(** The second byte carries the mask bit and seven bits of length. *)
Lemma byte1_spec (mask : bool) v :
  0 ≤ v < 128 →
  let b1 := Z.lor (if mask then 0x80 else 0x00) v in
  negb (Z.land b1 0x80 =? 0) = mask ∧ Z.land b1 0x7F = v.
Proof.
  intros Hv b1. pose (P := λ v, implb (v <? 128)
    (Bool.eqb (negb (Z.land (Z.lor (if mask then 0x80 else 0x00) v) 0x80 =? 0)) mask
     && (Z.land (Z.lor (if mask then 0x80 else 0x00) v) 0x7F =? v))).
  assert (Hb : P v = true).
  { apply (forall_byte P); [destruct mask; vm_compute; reflexivity|]. unfold uN. change (2 ^ 8) with 256. lia. }
  unfold P in Hb. rewrite (proj2 (Z.ltb_lt v 128)) in Hb by lia. cbn [implb] in Hb.
  apply andb_true_iff in Hb as [H1 H2]. apply Bool.eqb_prop in H1. apply Z.eqb_eq in H2. by split.
Qed.

Lemma apply_mask_twice mk data : apply_mask mk (apply_mask mk data) = data.
Proof.
  apply list_eq. intros i. unfold apply_mask. rewrite !list_lookup_imap. destruct (data !! i); [|done]. cbn.
  by rewrite Z.lxor_assoc, Z.lxor_nilpotent, Z.lxor_0_r.
Qed.

Lemma length_apply_mask mk data : length (apply_mask mk data) = length data.
Proof. apply length_imap. Qed.

(** The bytes after the length: the mask, if any, and the payload. *)
Definition body (f : WsFrame) (mask : bool) : list Z :=
  let mk := mask_key (wrap 32 (Z.of_nat (length (payload f)))) in
  if mask then mk ++ apply_mask mk (payload f) else payload f.

Lemma length_body f mask :
  length (body f mask) = ((if mask then 4 else 0) + length (payload f))%nat.
Proof. unfold body. destruct mask; [|done]. rewrite length_app, length_apply_mask. done. Qed.

(** Decoding past a header whose length field gives the payload's length. *)
Lemma decode_body hdr rest f mask b0 b1 hdr' :
  hdr = b0 :: b1 :: hdr' → frame_ok f →
  negb (Z.land b0 0x80 =? 0) = fin f → from_u8 b0 = opcode f →
  negb (Z.land b1 0x80 =? 0) = mask →
  decode_len (hdr ++ body f mask ++ rest) (Z.land b1 0x7F)
    = Some (Z.of_nat (length (payload f)), length hdr) →
  (length hdr ≤ 10)%nat →
  decode (hdr ++ body f mask ++ rest) = Returned (Some (f, length (hdr ++ body f mask))).
Proof.
  intros Eh [Hp Ho Hlen] H0 H1 H2 Hd Hh. unfold decode. rewrite Eh at 1. cbn [app]. rewrite H0, H1, H2, Hd.
  pose proof (length_body f mask) as Hb.
  destruct mask; cbn [andb] in *.
  - rewrite (proj2 (Nat.ltb_ge _ _)) by (rewrite !length_app, Hb; lia).
    rewrite (proj2 (Z.leb_gt _ _)) by lia. rewrite (proj2 (Z.ltb_ge _ _)) by (rewrite !length_app, Hb; lia).
    rewrite Nat2Z.id. unfold body in *. set (mk := mask_key _) in *.
    replace (length hdr + 4)%nat with (length (hdr ++ mk)) by (rewrite length_app; done).
    rewrite drop_app_length. rewrite <- (app_assoc mk).
    change 4%nat with (length mk). rewrite take_app_length.
    rewrite (app_assoc hdr), drop_app_length.
    rewrite <- (length_apply_mask mk (payload f)), take_app_length, apply_mask_twice.
    do 3 f_equal; [by destruct f|]. rewrite !length_app. lia.
  - rewrite (proj2 (Z.leb_gt _ _)) by lia. rewrite (proj2 (Z.ltb_ge _ _)) by (rewrite !length_app, Hb; lia).
    rewrite Nat2Z.id, drop_app_length. unfold body. rewrite take_app_length.
    do 3 f_equal; [by destruct f|]. rewrite !length_app. done.
Qed.

Lemma from_be_be16 len :
  0 ≤ len < 65536 → [wrap 8 (Z.shiftr len 8); wrap 8 len] = to_be_bytes 2 len.
Proof.
  intros Hl. rewrite !to_be_bytes_S. cbn [to_be_bytes]. unfold wrap. rewrite Z.shiftr_div_pow2 by lia. done.
Qed.

Lemma frame_decode_encode f mask rest :
  frame_ok f → decode (encode f mask ++ rest) = Returned (Some (f, length (encode f mask))).
Proof.
  intros Hf. pose proof Hf as [_ [Ho1 Ho2] Hlen]. unfold encode. fold (body f mask).
  set (len := Z.of_nat (length (payload f))) in *.
  destruct (byte0_spec (fin f) (opcode f) Ho1 Ho2) as [B1 B2]. set (b0 := Z.lor _ (to_u8 (opcode f))) in *.
  destruct (Z.ltb_spec len 126).
  { rewrite wrap_id by (unfold uN, len; lia).
    destruct (byte1_spec mask len) as [M1 M2]; [lia|]. set (b1 := Z.lor _ len) in *.
    change ([b0] ++ [b1] ++ body f mask) with ([b0; b1] ++ body f mask). rewrite <- app_assoc.
    apply (decode_body _ _ _ _ b0 b1 []); try done; [|cbn; lia].
    unfold decode_len. rewrite M2. by rewrite (proj2 (Z.eqb_neq len 126)), (proj2 (Z.eqb_neq len 127)) by lia. }
  destruct (Z.ltb_spec len 65536).
  { destruct (byte1_spec mask 126) as [M1 M2]; [lia|]. set (b1 := Z.lor _ 126) in *.
    change ([b0] ++ [b1; ?x; ?y] ++ body f mask) with ((b0 :: b1 :: [x; y]) ++ body f mask).
    rewrite from_be_be16, <- app_assoc by lia.
    apply (decode_body _ _ _ _ b0 b1 (to_be_bytes 2 len)); try done; [|cbn [length]; rewrite length_to_be_bytes; lia].
    unfold decode_len. rewrite M2. cbn [Z.eqb Pos.eqb].
    rewrite (proj2 (Nat.ltb_ge _ _)) by (rewrite length_app; cbn [length]; rewrite length_to_be_bytes; lia).
    cbn [app drop length]. rewrite drop_0, take_app_length' by (symmetry; apply length_to_be_bytes). rewrite length_to_be_bytes.
    rewrite from_to_be_bytes by (unfold uN; change (8 * Z.of_nat 2) with 16; lia). done. }
  destruct (byte1_spec mask 127) as [M1 M2]; [lia|]. set (b1 := Z.lor _ 127) in *.
  change ([b0] ++ (b1 :: to_be_bytes 8 len) ++ body f mask) with ((b0 :: b1 :: to_be_bytes 8 len) ++ body f mask).
  rewrite <- app_assoc.
  apply (decode_body _ _ _ _ b0 b1 (to_be_bytes 8 len)); [done..| |cbn [length]; rewrite length_to_be_bytes; lia].
  unfold decode_len. rewrite M2. cbn [Z.eqb Pos.eqb].
  rewrite (proj2 (Nat.ltb_ge _ _)) by (rewrite length_app; cbn [length]; rewrite length_to_be_bytes; lia).
  cbn [app drop length]. rewrite drop_0, take_app_length' by (symmetry; apply length_to_be_bytes). rewrite length_to_be_bytes.
  rewrite from_to_be_bytes by (unfold uN, len; change (8 * Z.of_nat 8) with 64; lia). done.
Qed.

Lemma encode_bytes f mask : frame_ok f → bytes_ok (encode f mask).
Proof.
  intros [Hp [Ho _] Hl]. unfold encode. set (len := Z.of_nat _) in *.
  assert (Hb : ∀ (m : bool) v, 0 ≤ v < 128 → is_byte (Z.lor (if m then 0x80 else 0) v)).
  { intros m v Hv. pose (P := λ v, implb (v <? 128) (bool_decide (is_byte (Z.lor (if m then 0x80 else 0) v)))).
    assert (HP : P v = true).
    { apply (forall_byte P); [destruct m; vm_compute; reflexivity|]. unfold uN. change (2 ^ 8) with 256. lia. }
    unfold P in HP. rewrite (proj2 (Z.ltb_lt v 128)) in HP by lia. cbn [implb] in HP. by apply bool_decide_eq_true in HP. }
  assert (Hmk : bytes_ok (mask_key (wrap 32 len))) by (repeat (constructor; [by apply wrap_range|]); constructor).
  repeat apply Forall_app_2.
  - constructor; [|constructor]. apply Hb. unfold uN in Ho. change (2 ^ 4) with 16 in Ho. lia.
  - destruct (Z.ltb_spec len 126); [|destruct (len <? 65536)].
    + constructor; [|constructor]. apply Hb. rewrite wrap_id by (unfold uN, len; lia). unfold len. lia.
    + repeat constructor; try (apply Hb; lia); by apply wrap_range.
    + constructor; [apply Hb; lia|apply to_be_bytes_ok].
  - destruct mask; [|done]. apply Forall_app_2; [done|].
    apply Forall_lookup_2. intros i x Hx. unfold apply_mask in Hx. rewrite list_lookup_imap in Hx.
    destruct (payload f !! i) as [b|] eqn:E; [|done].
    cbn [fmap option_fmap option_map] in Hx. apply (inj Some) in Hx. subst x.
    apply lxor_uN; [lia|by apply (Forall_lookup_1 _ _ _ _ Hp E)|by apply nth_bytes_ok].
Qed.

(** ** Frames of a byte stream *)
Lemma decode_len_pos data r v p :
  decode_len data r = Some (v, p) → (2 ≤ length data)%nat →
  (2 ≤ p ≤ length data)%nat ∧ (0 ≤ r → bytes_ok data → 0 ≤ v).
Proof.
  unfold decode_len. intros E Hl. destruct (r =? 126); [|destruct (r =? 127)].
  - destruct (Nat.ltb_spec (length data) 4); simplify_eq. split; [lia|]. intros Hr Hb.
    apply from_be_bytes_range. by apply Forall_take, Forall_drop.
  - destruct (Nat.ltb_spec (length data) 10); simplify_eq. split; [lia|]. intros Hr Hb.
    apply from_be_bytes_range. by apply Forall_take, Forall_drop.
  - simplify_eq. split; [lia|done].
Qed.

Lemma decode_len_app a b r x : decode_len a r = Some x → decode_len (a ++ b) r = Some x.
Proof.
  unfold decode_len. intros E. destruct (r =? 126); [|destruct (r =? 127); [|done]].
  - destruct (Nat.ltb_spec (length a) 4); [done|]. rewrite (proj2 (Nat.ltb_ge _ _)) by (rewrite length_app; lia).
    rewrite drop_app_le, take_app_le by (rewrite ?length_drop; lia). done.
  - destruct (Nat.ltb_spec (length a) 10); [done|]. rewrite (proj2 (Nat.ltb_ge _ _)) by (rewrite length_app; lia).
    rewrite drop_app_le, take_app_le by (rewrite ?length_drop; lia). done.
Qed.

(** A complete frame is decoded the same with more bytes behind it. *)
Lemma decode_app a b :
  match decode a with
  | Panicked => decode (a ++ b) = Panicked
  | Returned (Some (f, n)) =>
      (2 ≤ n ≤ length a)%nat ∧ (bytes_ok a → decode (a ++ b) = Returned (Some (f, n)))
  | Returned None => True
  end.
Proof.
  destruct a as [|b0 [|b1 a]]; [done..|]. set (d := b0 :: b1 :: a). unfold decode at 1. unfold d at 1.
  set (masked := negb (Z.land b1 128 =? 0)).
  destruct (decode_len d (Z.land b1 127)) as [[v p]|] eqn:El; [|done].
  pose proof (decode_len_app d b _ _ El) as El'. destruct (decode_len_pos _ _ _ _ El ltac:(cbn; lia)) as [Hp Hv].
  assert (Hd : decode (d ++ b) = 
    if masked && (length (d ++ b) <? p + 4)%nat then Returned None else
    let mk := if masked then Some (take 4 (drop p (d ++ b))) else None in
    let pos := if masked then (p + 4)%nat else p in
    if 2 ^ 64 <=? Z.of_nat pos + v then Panicked
    else if Z.of_nat (length (d ++ b)) <? Z.of_nat pos + v then Returned None
    else let raw := take (Z.to_nat v) (drop pos (d ++ b)) in
      Returned (Some (mkFrame (negb (Z.land b0 128 =? 0)) (from_u8 b0) (match mk with Some k => apply_mask k raw | None => raw end),
                      (pos + Z.to_nat v)%nat))).
  { unfold decode. unfold d at 1. cbn [app]. fold masked. change (b0 :: b1 :: a ++ b) with (d ++ b). by rewrite El'. }
  rewrite Hd. destruct (masked && (length d <? p + 4)%nat) eqn:Em; [done|].
  assert (Em' : masked && (length (d ++ b) <? p + 4)%nat = false).
  { destruct masked; [|done]. cbn [andb] in *. apply Nat.ltb_ge in Em. apply Nat.ltb_ge. rewrite length_app. lia. }
  rewrite Em'. cbv zeta. set (pos := if masked then (p + 4)%nat else p).
  destruct (2 ^ 64 <=? Z.of_nat pos + v); [done|].
  destruct (Z.ltb_spec (Z.of_nat (length d)) (Z.of_nat pos + v)); [done|].
  assert (Hpos : (p ≤ pos ≤ length d)%nat).
  { unfold pos. destruct masked; [|lia]. cbn [andb] in Em. apply Nat.ltb_ge in Em. lia. }
  split; [lia|].
  intros Hb. assert (0 ≤ v) by (apply Hv; [|done]; apply Z.land_nonneg; lia).
  rewrite (proj2 (Z.ltb_ge _ _)) by (rewrite length_app; lia).
  rewrite (drop_app_le d b pos), take_app_le by (rewrite ?length_drop; lia).
  do 4 f_equal. destruct masked; [|done]. cbn [andb] in Em. apply Nat.ltb_ge in Em.
  rewrite (drop_app_le d b p), take_app_le by (rewrite ?length_drop; lia). done.
Qed.

(** The complete frames at the front of a buffer and what is left. *)
Fixpoint frames (fuel : nat) (buf : list Z) : outcome (list WsFrame * list Z) :=
  match fuel with
  | O => Returned ([], buf)
  | S fuel' =>
      match decode buf with
      | Panicked => Panicked
      | Returned None => Returned ([], buf)
      | Returned (Some (f, n)) =>
          match frames fuel' (drop n buf) with
          | Panicked => Panicked
          | Returned (fs, r) => Returned (f :: fs, r)
          end
      end
  end.

Definition all_frames (buf : list Z) : outcome (list WsFrame * list Z) := frames (S (length buf)) buf.

Lemma frames_fuel k k' buf : (length buf < k)%nat → (length buf < k')%nat → frames k buf = frames k' buf.
Proof.
  revert k' buf. induction k as [|k IH]; intros [|k'] buf Hk Hk'; [lia..|]. cbn [frames].
  pose proof (decode_app buf []) as Hd. destruct (decode buf) as [[[f n]|]|]; [|done..].
  destruct Hd as [Hn _]. rewrite (IH k' (drop n buf)) by (rewrite length_drop; lia). done.
Qed.

Lemma frames_step buf f n :
  decode buf = Returned (Some (f, n)) →
  all_frames buf = match all_frames (drop n buf) with Panicked => Panicked | Returned (fs, r) => Returned (f :: fs, r) end.
Proof.
  intros E. unfold all_frames at 1. cbn [frames]. rewrite E.
  pose proof (decode_app buf []) as Hd. rewrite E in Hd. destruct Hd as [Hn _].
  by rewrite (frames_fuel _ (S (length (drop n buf)))) by (rewrite ?length_drop; lia).
Qed.

Lemma frames_stop buf : decode buf = Returned None → all_frames buf = Returned ([], buf).
Proof. intros E. unfold all_frames. cbn [frames]. by rewrite E. Qed.

(** Bytes that arrive later do not change the frames already complete. *)
Lemma frames_app a b fs r :
  bytes_ok a → all_frames a = Returned (fs, r) →
  all_frames (a ++ b)
  = match all_frames (r ++ b) with Panicked => Panicked | Returned (fs', r') => Returned (fs ++ fs', r') end.
Proof.
  remember (length a) as k eqn:Ek. revert a fs Ek. induction (lt_wf k) as [k _ IH]. intros a fs -> Hb E.
  pose proof (decode_app a b) as Hd. destruct (decode a) as [[[f n]|]|] eqn:Ed.
  - destruct Hd as [Hn Hd]. specialize (Hd Hb). rewrite (frames_step _ _ _ Ed) in E.
    destruct (all_frames (drop n a)) as [[fs1 r1]|] eqn:E1; [|done]. injection E as <- <-.
    rewrite (frames_step _ _ _ Hd), drop_app_le by lia.
    rewrite (IH (length (drop n a)) ltac:(rewrite length_drop; lia) (drop n a) fs1 eq_refl ltac:(by apply Forall_drop) E1).
    by destruct (all_frames (r1 ++ b)) as [[fs' r']|].
  - rewrite (frames_stop _ Ed) in E. injection E as <- <-. by destruct (all_frames (a ++ b)) as [[fs' r']|].
  - unfold all_frames in E. cbn [frames] in E. by rewrite Ed in E.
Qed.

Lemma frames_rest_bytes a fs r : bytes_ok a → all_frames a = Returned (fs, r) → bytes_ok r.
Proof.
  remember (length a) as k eqn:Ek. revert a fs Ek. induction (lt_wf k) as [k _ IH]. intros a fs -> Hb E.
  pose proof (decode_app a []) as Hd. destruct (decode a) as [[[f n]|]|] eqn:Ed.
  - destruct Hd as [Hn _]. rewrite (frames_step _ _ _ Ed) in E.
    destruct (all_frames (drop n a)) as [[fs1 r1]|] eqn:E1; [|done]. injection E as <- <-.
    eapply (IH (length (drop n a)) ltac:(rewrite length_drop; lia) (drop n a)); [done|by apply Forall_drop|done].
  - rewrite (frames_stop _ Ed) in E. by injection E as <- <-.
  - unfold all_frames in E. cbn [frames] in E. by rewrite Ed in E.
Qed.

(** What is left holds no complete frame. *)
Lemma frames_rest_done a fs r : bytes_ok a → all_frames a = Returned (fs, r) → all_frames r = Returned ([], r).
Proof.
  remember (length a) as k eqn:Ek. revert a fs Ek. induction (lt_wf k) as [k _ IH]. intros a fs -> Hb E.
  pose proof (decode_app a []) as Hd. destruct (decode a) as [[[f n]|]|] eqn:Ed.
  - destruct Hd as [Hn _]. rewrite (frames_step _ _ _ Ed) in E.
    destruct (all_frames (drop n a)) as [[fs1 r1]|] eqn:E1; [|done]. injection E as <- <-.
    eapply (IH (length (drop n a)) ltac:(rewrite length_drop; lia) (drop n a)); [done|by apply Forall_drop|done].
  - rewrite (frames_stop _ Ed) in E. injection E as <- <-. by apply frames_stop.
  - unfold all_frames in E. cbn [frames] in E. by rewrite Ed in E.
Qed.

Lemma frames_panic a b : bytes_ok a → all_frames a = Panicked → all_frames (a ++ b) = Panicked.
Proof.
  remember (length a) as k eqn:Ek. revert a Ek. induction (lt_wf k) as [k _ IH]. intros a -> Hb E.
  pose proof (decode_app a b) as Hd. destruct (decode a) as [[[f n]|]|] eqn:Ed.
  - destruct Hd as [Hn Hd]. specialize (Hd Hb). rewrite (frames_step _ _ _ Ed) in E.
    destruct (all_frames (drop n a)) as [[fs1 r1]|] eqn:E1; [done|].
    rewrite (frames_step _ _ _ Hd), drop_app_le by lia.
    by rewrite (IH (length (drop n a)) ltac:(rewrite length_drop; lia) (drop n a) eq_refl ltac:(by apply Forall_drop) E1).
  - by rewrite (frames_stop _ Ed) in E.
  - unfold all_frames. cbn [frames]. by rewrite Hd.
Qed.

(** Encoded frames come back in order. *)
Lemma frames_encoded mask fs rest :
  Forall frame_ok fs →
  all_frames (concat (map (λ f, encode f mask) fs) ++ rest)
  = match all_frames rest with Panicked => Panicked | Returned (fs', r) => Returned (fs ++ fs', r) end.
Proof.
  induction 1 as [|f fs Hf _ IH]; cbn [map concat app]; [by destruct (all_frames rest) as [[]|]|].
  rewrite <- app_assoc, (frames_step _ _ _ (frame_decode_encode f mask _ Hf)), drop_app_length, IH.
  by destruct (all_frames rest) as [[]|].
Qed.

Lemma all_frames_nil : all_frames [] = Returned ([], []).
Proof. done. Qed.

(** ** Messages of a sequence of frames *)

(** One frame in front of an unfinished message: what is delivered and what is
    unfinished then. *)
Definition assemble1 (frag : Opcode * list Z) (f : WsFrame) : list WsMessage * (Opcode * list Z) :=
  match opcode f with
  | Ping => ([MPing (payload f)], frag)
  | Pong => ([MPong (payload f)], frag)
  | Close => let '(c, r) := parse_close_payload (payload f) in ([MClose c r], frag)
  | Text | Binary =>
      if fin f then ([whole_message (opcode f) (payload f)], frag) else ([], (opcode f, payload f))
  | Continuation =>
      if fin f then ([whole_message frag.1 (frag.2 ++ payload f)], (frag.1, []))
      else ([], (frag.1, frag.2 ++ payload f))
  | Reserved _ => ([], frag)
  end.

Fixpoint assemble (frag : Opcode * list Z) (fs : list WsFrame) : list WsMessage * (Opcode * list Z) :=
  match fs with
  | [] => ([], frag)
  | f :: fs' =>
      let '(m, frag1) := assemble1 frag f in
      let '(ms, frag2) := assemble frag1 fs' in (m ++ ms, frag2)
  end.

Lemma assemble_app frag fs fs' :
  assemble frag (fs ++ fs')
  = ((assemble frag fs).1 ++ (assemble (assemble frag fs).2 fs').1, (assemble (assemble frag fs).2 fs').2).
Proof.
  revert frag. induction fs as [|f fs IH]; intros frag; cbn [app assemble].
  { cbn. by destruct (assemble frag fs'). }
  destruct (assemble1 frag f) as [m frag1]. rewrite IH. destruct (assemble frag1 fs) as [ms frag2]. cbn [fst snd].
  by rewrite app_assoc.
Qed.

Definition is_close (f : WsFrame) : bool := bool_decide (opcode f = Close).

(** The replies to pings. *)
Definition replies (fs : list WsFrame) : list Z :=
  concat (map (λ f, if bool_decide (opcode f = Ping) then encode (mkFrame true Pong (payload f)) true else []) fs).

(** The frames of a fragmented message. *)
Fixpoint fragment (o : Opcode) (first : bool) (cs : list (list Z)) : list WsFrame :=
  match cs with
  | [] => []
  | c :: cs' => mkFrame (match cs' with [] => true | _ => false end) (if first then o else Continuation) c
                :: fragment o false cs'
  end.

Lemma assemble_rest o frag cs :
  cs ≠ [] → frag.1 = o →
  assemble frag (fragment o false cs) = ([whole_message o (frag.2 ++ concat cs)], (o, [])).
Proof.
  revert frag. induction cs as [|c cs IH]; intros frag Hne Ho; [done|]. cbn [fragment assemble].
  destruct cs as [|c' cs]; unfold assemble1; cbn [opcode fin payload].
  - cbn [fragment assemble concat]. by rewrite Ho, !app_nil_r.
  - rewrite IH by done. cbn [fst snd app]. by rewrite <- app_assoc.
Qed.

(** A fragmented text or binary message is delivered once, whole. *)
Lemma assemble_fragments o frag cs :
  cs ≠ [] → o = Text ∨ o = Binary →
  (assemble frag (fragment o true cs)).1 = [whole_message o (concat cs)].
Proof.
  intros Hne Ho. destruct cs as [|c cs]; [done|]. cbn [fragment assemble].
  assert (E : assemble1 frag (mkFrame (match cs with [] => true | _ => false end) o c)
    = if (match cs with [] => true | _ => false end) then ([whole_message o c], frag) else ([], (o, c))).
  { unfold assemble1. cbn [opcode fin payload]. by destruct Ho as [-> | ->]. }
  rewrite E. destruct cs as [|c' cs].
  - cbn [fragment assemble fst concat app]. by rewrite app_nil_r.
  - rewrite (assemble_rest o (o, c)) by done. done.
Qed.

(** A connection that takes what is sent and on which bytes arrive. *)
Class TcpLink (T : Type) `{TcpEndpoint T} := {
  arrive : list Z → T → T;
  send_total b t : ∃ t', tcp_send b t = (true, t');
  arrive_inbox b t : inbox (arrive b t) = inbox t ++ b;
  arrive_outbox b t : outbox (arrive b t) = outbox t
}.

Section client.
Context {T : Type} `{TcpLink T}.
Implicit Types w : WebSocket T.

Definition frag w : Opcode * list Z := (frag_opcode w, frag_buf w).

(** Sending puts one masked frame behind what was sent before. *)
Lemma send_frame_ok f e w :
  ∃ t, send_frame f e w = (Ok tt, set_conn t w) ∧ inbox t = inbox (conn w)
       ∧ outbox t = outbox (conn w) ++ encode f true.
Proof.
  unfold send_frame. destruct (send_total (encode f true) (conn w)) as [t E]. rewrite E.
  destruct (send_ok _ _ _ E) as [E1 E2]. by exists t.
Qed.

Lemma send_msg_ok o data w :
  state w = Open →
  ∃ t, send_msg o data w = (Ok tt, set_conn t (bump_seq w)) ∧ inbox t = inbox (conn w)
       ∧ outbox t = outbox (conn w) ++ encode (mkFrame true o data) true.
Proof.
  intros Hs. unfold send_msg. rewrite Hs, bool_decide_false by (intros Hn; by apply Hn). cbn [andb].
  destruct (send_frame_ok (mkFrame true o data) "TCP send failed" (bump_seq w)) as (t & E & E1 & E2).
  exists t. done.
Qed.

(** A frame other than Close, on an open connection. *)
Lemma handle_frame_ok f w :
  state w = Open → is_close f = false →
  let w' := handle_frame f w in
  messages w' = messages w ++ (assemble1 (frag w) f).1 ∧ frag w' = (assemble1 (frag w) f).2
  ∧ state w' = Open ∧ recv_buf w' = recv_buf w ∧ inbox (conn w') = inbox (conn w)
  ∧ outbox (conn w') = outbox (conn w) ++ replies [f].
Proof.
  intros Hs Hc w'. unfold w', handle_frame, replies. cbn [map concat]. rewrite app_nil_r. unfold assemble1, is_close in *.
  destruct (opcode f) eqn:Eo.
  - rewrite bool_decide_false by done. destruct (fin f); cbn; rewrite !app_nil_r; done.
  - rewrite bool_decide_false by done. destruct (fin f); cbn; rewrite !app_nil_r; done.
  - rewrite bool_decide_false by done. destruct (fin f); cbn; rewrite !app_nil_r; done.
  - done.
  - rewrite bool_decide_true by done. unfold send_pong.
    destruct (send_msg_ok Pong (payload f) w Hs) as (t & -> & E1 & E2). cbn. done.
  - rewrite bool_decide_false by done. cbn. rewrite !app_nil_r. done.
  - rewrite bool_decide_false by done. cbn. rewrite !app_nil_r. done.
Qed.

(** The parse loop handles the frames of the buffer in order. *)
Lemma parse_loop_ok k w fs r :
  state w = Open → frames k (recv_buf w) = Returned (fs, r) → Forall (λ f, is_close f = false) fs →
  ∃ w', parse_loop k w = Returned w'
    ∧ messages w' = messages w ++ (assemble (frag w) fs).1 ∧ frag w' = (assemble (frag w) fs).2
    ∧ state w' = Open ∧ recv_buf w' = r ∧ inbox (conn w') = inbox (conn w)
    ∧ outbox (conn w') = outbox (conn w) ++ replies fs.
Proof.
  revert w fs. induction k as [|k IH]; intros w fs Hs Hf Hc; cbn [frames parse_loop] in *.
  { injection Hf as <- <-. exists w. cbn. rewrite !app_nil_r. done. }
  destruct (decode (recv_buf w)) as [[[f n]|]|]; [| |done].
  2:{ injection Hf as <- <-. exists w. cbn. rewrite !app_nil_r. done. }
  destruct (frames k (drop n (recv_buf w))) as [[fs1 r1]|] eqn:E1; [|done]. injection Hf as <- <-. inv Hc.
  set (w0 := set_recv_buf (drop n (recv_buf w)) w).
  destruct (handle_frame_ok f w0) as (A1 & A2 & A3 & A4 & A5 & A6); [done|done|].
  destruct (IH (handle_frame f w0) fs1) as (w' & E & B1 & B2 & B3 & B4 & B5 & B6); [done|by rewrite A4|done|].
  exists w'. split; [done|]. rewrite A2 in B1, B2. cbn [assemble].
  change (frag w0) with (frag w) in *. destruct (assemble1 (frag w) f) as [m frag1]. cbn [fst snd] in *.
  destruct (assemble frag1 fs1) as [ms frag2]. cbn [fst snd] in *.
  rewrite B1, A1, B5, A5, B6, A6. cbn [messages conn w0 set_recv_buf]. rewrite <- !app_assoc.
  unfold replies. cbn [map concat]. rewrite app_nil_r. done.
Qed.

Lemma drain_ok k w :
  (length (inbox (conn w)) < k)%nat →
  ∃ t, drain k w = set_recv_buf (recv_buf w ++ inbox (conn w)) (set_conn t w)
    ∧ inbox t = [] ∧ outbox t = outbox (conn w).
Proof.
  revert w. induction k as [|k IH]; intros w Hk; [lia|]. cbn [drain].
  destruct (tcp_recv 4096 (conn w)) as [b t] eqn:E. destruct (recv_spec _ _ _ _ E) as (-> & E1 & E2).
  destruct (take 4096 (inbox (conn w))) as [|b0 b1] eqn:Et.
  - assert (En : inbox (conn w) = []) by (destruct (inbox (conn w)); [done|cbn in Et; done]).
    exists t. rewrite E1, E2, En, app_nil_r. by destruct w.
  - rewrite <- Et. destruct (IH (set_recv_buf (recv_buf w ++ take 4096 (inbox (conn w))) (set_conn t w))) as (t' & E' & A1 & A2).
    { cbn [conn set_recv_buf set_conn]. rewrite E1, length_drop. destruct (inbox (conn w)); [done|cbn [length] in *; lia]. }
    exists t'. rewrite E', A2. cbn [conn recv_buf set_recv_buf set_conn]. rewrite E1, E2, <- app_assoc, take_drop. done.
Qed.

(** ** Polling over time *)

(** [cs] are the pieces in which bytes arrive, with a poll after each. *)
Fixpoint polls (cs : list (list Z)) w : outcome (WebSocket T) :=
  match cs with
  | [] => Returned w
  | c :: cs' =>
      match poll (set_conn (arrive c (conn w)) w) with
      | Panicked => Panicked
      | Returned w1 => polls cs' w1
      end
  end.

Lemma poll_ok c w fs r :
  state w = Open → inbox (conn w) = [] →
  all_frames (recv_buf w ++ c) = Returned (fs, r) → Forall (λ f, is_close f = false) fs →
  ∃ w', poll (set_conn (arrive c (conn w)) w) = Returned w'
    ∧ messages w' = messages w ++ (assemble (frag w) fs).1 ∧ frag w' = (assemble (frag w) fs).2
    ∧ state w' = Open ∧ recv_buf w' = r ∧ inbox (conn w') = []
    ∧ outbox (conn w') = outbox (conn w) ++ replies fs.
Proof.
  intros Hs Hi Hf Hc. unfold poll. cbn [state set_conn]. rewrite Hs, bool_decide_false by done.
  destruct (drain_ok (S (length (inbox (conn (set_conn (arrive c (conn w)) w))))) (set_conn (arrive c (conn w)) w))
    as (t & -> & A1 & A2); [lia|].
  cbn [conn set_conn recv_buf set_recv_buf] in *. rewrite arrive_inbox, Hi, arrive_outbox in *. cbn [app] in *.
  set (w1 := set_recv_buf (recv_buf w ++ c) (set_conn t (set_conn (arrive c (conn w)) w))).
  destruct (parse_loop_ok (S (length (recv_buf w ++ c))) w1 fs r) as (w' & E & B1 & B2 & B3 & B4 & B5 & B6); try done.
  exists w'. rewrite B1, B2, B3, B4, B5, B6. cbn [w1 conn set_recv_buf set_conn]. rewrite A1, A2. done.
Qed.

(** Frames complete in the pieces so far, in a buffer that held none. *)
Lemma polls_ok cs w fs r :
  state w = Open → inbox (conn w) = [] → bytes_ok (recv_buf w) → Forall bytes_ok cs →
  all_frames (recv_buf w) = Returned ([], recv_buf w) →
  all_frames (recv_buf w ++ concat cs) = Returned (fs, r) → Forall (λ f, is_close f = false) fs →
  ∃ w', polls cs w = Returned w' ∧ messages w' = messages w ++ (assemble (frag w) fs).1
    ∧ state w' = Open ∧ recv_buf w' = r ∧ outbox (conn w') = outbox (conn w) ++ replies fs.
Proof.
  revert w fs. induction cs as [|c cs IH]; intros w fs Hs Hi Hb Hcs Hempty Hf Hc; cbn [polls concat] in *.
  { rewrite app_nil_r, Hempty in Hf. injection Hf as <- <-. exists w. cbn. rewrite !app_nil_r. done. }
  inv Hcs. rewrite app_assoc in Hf.
  assert (Hbc : bytes_ok (recv_buf w ++ c)) by (by apply Forall_app).
  destruct (all_frames (recv_buf w ++ c)) as [[fs1 r1]|] eqn:E1.
  2:{ pose proof (frames_panic _ (concat cs) Hbc E1). congruence. }
  rewrite (frames_app _ _ _ _ Hbc E1) in Hf.
  destruct (all_frames (r1 ++ concat cs)) as [[fs2 r2]|] eqn:E2; [|done]. injection Hf as <- <-.
  apply Forall_app in Hc as [Hc1 Hc2].
  destruct (poll_ok c w fs1 r1 Hs Hi E1 Hc1) as (w1 & -> & A1 & A2 & A3 & A4 & A5 & A6).
  pose proof (frames_rest_bytes _ _ _ Hbc E1) as Hbr. pose proof (frames_rest_done _ _ _ Hbc E1) as Hr.
  destruct (IH w1 fs2) as (w' & E & B1 & B2 & B3 & B4); try (by rewrite A4); try done.
  exists w'. split; [done|]. rewrite B1, A1, A2, B2, B3, B4, A6, <- !app_assoc. unfold replies.
  rewrite assemble_app, map_app, concat_app. done.
Qed.

(** ** Sending *)
Lemma send_chunks_ok o first cs w :
  ∃ t, send_chunks o first cs w = (Ok tt, set_conn t w)
    ∧ outbox t = outbox (conn w) ++ concat (map (λ f, encode f true) (fragment o first cs)).
Proof.
  revert first w. induction cs as [|c cs IH]; intros first w; cbn [send_chunks fragment map concat].
  { exists (conn w). rewrite app_nil_r. by destruct w. }
  set (f := mkFrame _ _ c). destruct (send_frame_ok f "TCP send" w) as (t & -> & _ & E2).
  destruct (IH false (set_conn t w)) as (t' & -> & E'). exists t'. split; [done|].
  rewrite E'. cbn [conn set_conn]. by rewrite E2, <- app_assoc.
Qed.

(** The pieces in which a message is sent. *)
Definition pieces (data : list Z) (n : nat) : list (list Z) :=
  match data with [] => [[]] | _ => chunks n data end.

Lemma send_fragmented_ok o data n w :
  state w = Open → (0 < n)%nat →
  ∃ w', send_fragmented o data n w = Returned (Ok tt, w') ∧ state w' = Open
    ∧ outbox (conn w') = outbox (conn w) ++ concat (map (λ f, encode f true) (fragment o true (pieces data n))).
Proof.
  intros Hs Hn. destruct data as [|b data]; cbn [send_fragmented pieces].
  - destruct (send_msg_ok o [] w Hs) as (t & -> & _ & E). eexists; split; [done|]. split; [done|].
    cbn [conn set_conn fragment map concat]. by rewrite app_nil_r.
  - rewrite (proj2 (Nat.eqb_neq n 0)) by lia.
    destruct (send_chunks_ok o true (chunks n (b :: data)) w) as (t & -> & E). eexists; split; [done|]. done.
Qed.

(** Messages: opcode, data and the size of fragments. *)
Definition outgoing : Type := Opcode * list Z * nat.

Fixpoint send_all (ms : list outgoing) w : outcome (result string unit * WebSocket T) :=
  match ms with
  | [] => Returned (Ok tt, w)
  | (o, data, n) :: ms' =>
      match send_fragmented o data n w with
      | Returned (Ok _, w') => send_all ms' w'
      | r => r
      end
  end.

Definition outgoing_frames (ms : list outgoing) : list WsFrame :=
  concat (map (λ '(o, data, n), fragment o true (pieces data n)) ms).

Definition outgoing_ok (m : outgoing) : Prop :=
  let '(o, data, n) := m in
  (o = Text ∨ o = Binary) ∧ bytes_ok data ∧ (0 < n)%nat ∧ Z.of_nat (length data) + 14 < 2 ^ 64.

Lemma send_all_ok ms w :
  state w = Open → Forall outgoing_ok ms →
  ∃ w', send_all ms w = Returned (Ok tt, w')
    ∧ outbox (conn w') = outbox (conn w) ++ concat (map (λ f, encode f true) (outgoing_frames ms)).
Proof.
  intros Hs Hms. revert w Hs. induction Hms as [|[[o data] n] ms (Ho & Hb & Hn & Hl) _ IH]; intros w Hs.
  { exists w. cbn. by rewrite app_nil_r. }
  cbn [send_all]. destruct (send_fragmented_ok o data n w Hs Hn) as (w1 & -> & Hs1 & E1).
  destruct (IH w1 Hs1) as (w' & -> & E'). exists w'. split; [done|]. rewrite E', E1. unfold outgoing_frames.
  cbn [map concat]. by rewrite map_app, concat_app, <- app_assoc.
Qed.

Lemma pieces_spec data n :
  (0 < n)%nat → pieces data n ≠ [] ∧ concat (pieces data n) = data
    ∧ Forall (λ c, bytes_ok data → bytes_ok c ∧ (length c ≤ length data)%nat) (pieces data n).
Proof.
  intros Hn. destruct data as [|b data]; cbn [pieces].
  { split; [done|]. split; [done|]. constructor; [done|constructor]. }
  pose proof (concat_chunks n (b :: data) Hn) as Ec. split; [intros E; by rewrite E in Ec|]. split; [done|].
  apply Forall_forall. intros c Hc Hb. rewrite <- Ec in Hb |- *.
  apply list_elem_of_split in Hc as (l1 & l2 & E). rewrite E in *. rewrite concat_app in *. cbn [concat] in *.
  apply Forall_app in Hb as [_ Hb]. apply Forall_app in Hb as [Hb _]. split; [done|]. rewrite !length_app. lia.
Qed.

Lemma fragment_ok o first cs :
  (o = Text ∨ o = Binary) →
  Forall (λ c, bytes_ok c ∧ Z.of_nat (length c) + 14 < 2 ^ 64) cs →
  Forall (λ f, frame_ok f ∧ is_close f = false ∧ bool_decide (opcode f = Ping) = false) (fragment o first cs).
Proof.
  intros Ho Hcs. revert first. induction Hcs as [|c cs [Hb Hl] _ IH]; intros first; cbn [fragment]; [constructor|].
  constructor; [|apply IH]. destruct first, Ho as [-> | ->]; (split; [split; done|done]).
Qed.

Lemma outgoing_frames_ok ms :
  Forall outgoing_ok ms →
  Forall (λ f, frame_ok f ∧ is_close f = false ∧ bool_decide (opcode f = Ping) = false) (outgoing_frames ms)
  ∧ ∀ fr, (assemble fr (outgoing_frames ms)).1 = map (λ '(o, data, _), whole_message o data) ms.
Proof.
  induction 1 as [|[[o data] n] ms (Ho & Hb & Hn & Hl) _ [IH1 IH2]]; [split; [constructor|done]|].
  destruct (pieces_spec data n Hn) as (P1 & P2 & P3). unfold outgoing_frames in *. cbn [map concat]. split.
  - apply Forall_app. split; [|done]. apply fragment_ok; [done|]. eapply Forall_impl; [exact P3|].
    cbn. intros c Hc. destruct (Hc Hb). split; [done|lia].
  - intros fr. rewrite assemble_app. cbn [fst]. by rewrite (assemble_fragments o fr _ P1 Ho), P2, IH2.
Qed.
End client.


(** ** A connection of two queues *)
Record queues := mkQueues { q_in : list Z; q_out : list Z }.

#[export] Instance queue_endpoint : TcpEndpoint queues.
Proof.
  refine {| tcp_send b t := (true, mkQueues (q_in t) (q_out t ++ b));
            tcp_recv n t := (take n (q_in t), mkQueues (drop n (q_in t)) (q_out t));
            inbox := q_in; outbox := q_out |}.
  - by intros b t t' [= <-].
  - by intros b t t' E.
  - by intros n t b t' [= <- <-].
Defined.

#[export] Instance queue_link : TcpLink queues.
Proof.
  refine {| arrive b t := mkQueues (q_in t ++ b) (q_out t) |}.
  - intros b t. by eexists.
  - done.
  - done.
Defined.

Definition fresh_ws : WebSocket queues := mkWs Open (mkQueues [] []) [] [] Continuation [] 0.

Definition demo_messages : list outgoing := [(Text, [72; 105; 33], 2%nat); (Binary, [], 1%nat); (Binary, [255; 0], 9%nat)].
Definition demo_bytes : list Z :=
  match send_all demo_messages fresh_ws with Returned (_, w) => q_out (conn w) | Panicked => [] end.


(** ** Base64 *)
Fixpoint index_of (c : Z) (l : list Z) : nat :=
  match l with [] => O | x :: l' => if x =? c then O else S (index_of c l') end.

Definition b64_val (c : Z) : Z := Z.of_nat (index_of c B64_TABLE).

Fixpoint base64_decode (s : list Z) : list Z :=
  match s with
  | a :: b :: c :: d :: rest =>
      let v := b64_val a * 2 ^ 18 + b64_val b * 2 ^ 12 + b64_val c * 2 ^ 6 + b64_val d in
      (if c =? 61 then [(b64_val a * 2 ^ 18 + b64_val b * 2 ^ 12) `div` 2 ^ 16]
       else if d =? 61 then [(b64_val a * 2 ^ 18 + b64_val b * 2 ^ 12 + b64_val c * 2 ^ 6) `div` 2 ^ 16;
                             (b64_val a * 2 ^ 18 + b64_val b * 2 ^ 12 + b64_val c * 2 ^ 6) `div` 2 ^ 8 `mod` 256]
       else [v `div` 2 ^ 16; v `div` 2 ^ 8 `mod` 256; v `mod` 256]) ++ base64_decode rest
  | _ => []
  end.

Lemma b64_char_val v : 0 ≤ v → b64_val (b64_char v) = v `mod` 64 ∧ b64_char v ≠ 61.
Proof.
  intros Hv. unfold b64_char. change 63 with (Z.ones 6). rewrite Z.land_ones by lia. change (2 ^ 6) with 64.
  pose (P := λ k, implb (k <? 64) ((b64_val (nth (Z.to_nat k) B64_TABLE 0) =? k) && negb (nth (Z.to_nat k) B64_TABLE 0 =? 61))).
  pose proof (Z.mod_pos_bound v 64 ltac:(lia)) as Hm.
  assert (HP : P (v `mod` 64) = true).
  { apply (forall_byte P); [vm_compute; reflexivity|]. unfold uN. change (2 ^ 8) with 256. lia. }
  unfold P in HP. rewrite (proj2 (Z.ltb_lt (v `mod` 64) 64)) in HP by lia. cbn [implb] in HP.
  apply andb_true_iff in HP as [H1 H2]. apply Z.eqb_eq in H1. apply negb_true_iff, Z.eqb_neq in H2. by split.
Qed.

Lemma b64_combined b0 b1 b2 :
  is_byte b0 → is_byte b1 → is_byte b2 →
  Z.lor (Z.lor (Z.shiftl b0 16) (Z.shiftl b1 8)) b2 = b0 * 2 ^ 16 + b1 * 2 ^ 8 + b2.
Proof.
  unfold uN. change (2 ^ 8) with 256. intros H0 H1 H2. rewrite !Z.shiftl_mul_pow2 by lia.
  assert (E : Z.lor (b0 * 2 ^ 16) (b1 * 2 ^ 8) = b1 * 2 ^ 8 + b0 * 2 ^ 16).
  { rewrite Z.lor_comm. apply lor_disjoint; [lia|]. change (2 ^ 16) with 65536. change (2 ^ 8) with 256. lia. }
  rewrite E. replace (b1 * 2 ^ 8 + b0 * 2 ^ 16) with ((b1 + b0 * 2 ^ 8) * 2 ^ 8) by lia.
  rewrite Z.lor_comm, lor_disjoint by (change (2 ^ 8) with 256; lia). lia.
Qed.

Lemma decode_chunk c rest :
  (0 < length c ≤ 3)%nat → bytes_ok c → base64_decode (b64_chunk c ++ rest) = c ++ base64_decode rest.
Proof.
  intros Hl Hb.
  assert (Hd : ∀ k b0 b1 b2, 0 ≤ k → is_byte b0 → is_byte b1 → is_byte b2 →
    let v := Z.shiftr (Z.lor (Z.lor (Z.shiftl b0 16) (Z.shiftl b1 8)) b2) k in
    b64_val (b64_char v) = (b0 * 2 ^ 16 + b1 * 2 ^ 8 + b2) `div` 2 ^ k `mod` 64 ∧ (b64_char v =? 61) = false).
  { intros k b0 b1 b2 Hk H0 H1 H2 v.
    assert (Hv : v = (b0 * 2 ^ 16 + b1 * 2 ^ 8 + b2) `div` 2 ^ k)
      by (unfold v; by rewrite Z.shiftr_div_pow2, b64_combined by done).
    destruct (b64_char_val v) as [E1 E2].
    { rewrite Hv. apply Z.div_pos; [unfold uN in *; lia|lia]. }
    split; [by rewrite E1, Hv|by apply Z.eqb_neq]. }
  assert (Hz : is_byte 0) by done.
  destruct c as [|a [|b [|d [|e c]]]]; cbn [length] in Hl; try lia.
  all: repeat match goal with H : bytes_ok (_ :: _) |- _ => inv H end.
  all: unfold b64_chunk; cbn [nth length Nat.ltb Nat.leb app base64_decode].
  - destruct (Hd 18 a 0 0 ltac:(lia) ltac:(done) ltac:(done) ltac:(done)) as [-> _], (Hd 12 a 0 0 ltac:(lia) ltac:(done) ltac:(done) ltac:(done)) as [-> _].
    rewrite Z.eqb_refl. cbn [app]. f_equal. unfold uN in *. change (2 ^ 8) with 256 in *.
    change (2 ^ 16) with 65536. change (2 ^ 18) with 262144. change (2 ^ 12) with 4096.
    Z.to_euclidean_division_equations. lia.
  - destruct (Hd 18 a b 0 ltac:(lia) ltac:(done) ltac:(done) ltac:(done)) as [-> _], (Hd 12 a b 0 ltac:(lia) ltac:(done) ltac:(done) ltac:(done)) as [-> _], (Hd 6 a b 0 ltac:(lia) ltac:(done) ltac:(done) ltac:(done)) as [-> ->].
    rewrite Z.eqb_refl. cbn [app]. unfold uN in *. change (2 ^ 8) with 256 in *.
    change (2 ^ 16) with 65536. change (2 ^ 18) with 262144. change (2 ^ 12) with 4096. change (2 ^ 6) with 64.
    f_equal; [|f_equal]; Z.to_euclidean_division_equations; lia.
  - change (b64_char (Z.lor (Z.lor (Z.shiftl a 16) (Z.shiftl b 8)) d))
      with (b64_char (Z.shiftr (Z.lor (Z.lor (Z.shiftl a 16) (Z.shiftl b 8)) d) 0)).
    destruct (Hd 18 a b d ltac:(lia) ltac:(done) ltac:(done) ltac:(done)) as [-> _], (Hd 12 a b d ltac:(lia) ltac:(done) ltac:(done) ltac:(done)) as [-> _], (Hd 6 a b d ltac:(lia) ltac:(done) ltac:(done) ltac:(done)) as [-> ->], (Hd 0 a b d ltac:(lia) ltac:(done) ltac:(done) ltac:(done)) as [-> ->].
    cbn [app]. unfold uN in *. change (2 ^ 8) with 256 in *.
    change (2 ^ 16) with 65536. change (2 ^ 18) with 262144. change (2 ^ 12) with 4096. change (2 ^ 6) with 64.
    change (2 ^ 0) with 1. f_equal; [|f_equal; [|f_equal]]; Z.to_euclidean_division_equations; lia.
Qed.

(** The base64 text of a key determines the key. *)
Theorem base64_roundtrip data : bytes_ok data → base64_decode (base64_encode data) = data.
Proof.
  intros Hb. unfold base64_encode.
  assert (Hc : ∀ cs, Forall (λ c : list Z, 0 < length c ≤ 3)%nat cs → bytes_ok (concat cs) →
    base64_decode (concat (map b64_chunk cs)) = concat cs).
  { induction 1 as [|c cs Hl _ IH]; [done|]. cbn [map concat]. intros [H1 H2]%Forall_app.
    by rewrite decode_chunk, IH. }
  pose proof (concat_chunks 3 data ltac:(lia)) as E. rewrite <- E at 2. apply Hc; [|by rewrite E].
  apply chunks_length_le. lia.
Qed.

(** ** Findings *)

(** Finding: a frame header that announces a length near 2^64 makes the bounds check
    wrap around; the slice that follows panics, so a server can stop the kernel. *)
Lemma huge_length_panics rest :
  decode ([0x82; 0x7F; 255; 255; 255; 255; 255; 255; 255; 255] ++ rest) = Panicked.
Proof.
  assert (E : decode [0x82; 0x7F; 255; 255; 255; 255; 255; 255; 255; 255] = Panicked) by (vm_compute; reflexivity).
  pose proof (decode_app [0x82; 0x7F; 255; 255; 255; 255; 255; 255; 255; 255] rest) as Hd. by rewrite E in Hd.
Qed.

(** Finding: a message behind a Close frame is delivered when both arrive together
    and dropped when they arrive one after the other. *)
Definition close_then_text : list (list Z) :=
  [encode (mkFrame true Close [3; 232]) false; encode (mkFrame true Text [104; 105]) false].

Definition messages_of (o : outcome (WebSocket queues)) : option (list WsMessage) :=
  match o with Returned w => Some (messages w) | Panicked => None end.

Lemma data_after_close :
  messages_of (polls [concat close_then_text] fresh_ws) = Some [MClose Normal []; MText [104; 105]]
  ∧ messages_of (polls close_then_text fresh_ws) = Some [MClose Normal []].
Proof. split; vm_compute; reflexivity. Qed.

(** Finding: a continuation frame that continues nothing is delivered as a binary
    message. *)
Lemma lone_continuation :
  messages_of (polls [encode (mkFrame true Continuation [1; 2]) false] fresh_ws) = Some [MBinary [1; 2]].
Proof. vm_compute. reflexivity. Qed.

(** Finding: when the server's first frame arrives in the same segment as its
    response, the response is no longer UTF-8 (a final frame starts with a byte
    from 0x80 on) and the connection is refused; without the frame it opens. *)
Definition upgrade_response (conn_id : Z) : list Z :=
  text "HTTP/1.1 101 Switching Protocols" ++ crlf ++ text "Sec-WebSocket-Accept: "
  ++ ws_accept (generate_ws_key (Z.lxor (wrap 32 conn_id) 0xBEEFCAFE)) ++ crlf ++ crlf.

Lemma handshake_refuses_early_frames :
  handshake 7 (text "host") (text "/")
    (mkQueues (upgrade_response 7 ++ encode (mkFrame true Text [104; 105]) false) [])
  = Err "WebSocket upgrade rejected"%string
  ∧ is_ok (handshake 7 (text "host") (text "/") (mkQueues (upgrade_response 7) [])) = true.
Proof. split; vm_compute; reflexivity. Qed.

(** The accept value of RFC 6455, section 1.3. *)
Example ws_accept_rfc :
  ws_accept (text "dGhlIHNhbXBsZSBub25jZQ==") = text "s3pPLMBiTxaQ9kYGzzhZRbK+xOo=".
Proof. vm_compute. reflexivity. Qed.
