(* ===== verification/Hpack.v ===== *)
(** * HPACK header compression ([kernel/src/net/http2.rs])

    The header codec of the HTTP/2 client: prefixed integers, strings, the
    Huffman decoder, the encoder and the decoder with its dynamic table.  A
    position in the input is the rest of the input from there on; [Panic] is a
    failed overflow check or a slice out of range. *)

From S2P Require Import Prelude Bits Words SmartPack TextBytes.

Inductive H2Error :=
| Io
| Protocol (s : string)
| GoAway (code : Z)
| StreamError (id code : Z)
| HpackError
| ConnClosed.

(** Why a call does not return a value. *)
Inductive fault :=
| Failed (e : H2Error)
| Panic
| OutOfFuel.

Definition lift {S A} (r : result fault A) : M S fault A := λ s, (r, s).

Abbreviation header := (list Z * list Z)%type.

Definition HPACK_STATIC_text : list (string * string) :=
  [(":authority", "");
   (":method", "GET");
   (":method", "POST");
   (":path", "/");
   (":path", "/index.html");
   (":scheme", "http");
   (":scheme", "https");
   (":status", "200");
   (":status", "204");
   (":status", "206");
   (":status", "304");
   (":status", "400");
   (":status", "404");
   (":status", "500");
   ("accept-charset", "");
   ("accept-encoding", "gzip, deflate");
   ("accept-language", "");
   ("accept-ranges", "");
   ("accept", "");
   ("access-control-allow-origin", "");
   ("age", "");
   ("allow", "");
   ("authorization", "");
   ("cache-control", "");
   ("content-disposition", "");
   ("content-encoding", "");
   ("content-language", "");
   ("content-length", "");
   ("content-location", "");
   ("content-range", "");
   ("content-type", "");
   ("cookie", "");
   ("date", "");
   ("etag", "");
   ("expect", "");
   ("expires", "");
   ("from", "");
   ("host", "");
   ("if-match", "");
   ("if-modified-since", "");
   ("if-none-match", "");
   ("if-range", "");
   ("if-unmodified-since", "");
   ("last-modified", "");
   ("link", "");
   ("location", "");
   ("max-forwards", "");
   ("proxy-authenticate", "");
   ("proxy-authorization", "");
   ("range", "");
   ("referer", "");
   ("refresh", "");
   ("retry-after", "");
   ("server", "");
   ("set-cookie", "");
   ("strict-transport-security", "");
   ("transfer-encoding", "");
   ("user-agent", "");
   ("vary", "");
   ("via", "");
   ("www-authenticate", "")]%string.

Definition HPACK_STATIC : list header := map (λ '(n, v), (text n, text v)) HPACK_STATIC_text.

(** ** Huffman strings *)

(** Code, length and symbol, as the code lists them. *)
Definition HUFF_TABLE : list (Z * Z * Z) :=
  [(0x0, 5, 48); (0x1, 5, 49); (0x2, 5, 50); (0x5, 5, 97); (0x6, 5, 99); (0x7, 5, 101); (0x8, 5, 105);
   (0x9, 5, 111); (0xa, 5, 115); (0xb, 5, 116); (0x14, 6, 32); (0x15, 6, 37); (0x16, 6, 45); (0x17, 6,
   46); (0x18, 6, 47); (0x19, 6, 51); (0x1a, 6, 52); (0x1b, 6, 53); (0x1c, 6, 54); (0x1d, 6, 55);
   (0x1e, 6, 56); (0x1f, 6, 57); (0x20, 6, 61); (0x21, 6, 65); (0x22, 6, 95); (0x23, 6, 98); (0x24, 6,
   100); (0x25, 6, 102); (0x26, 6, 103); (0x27, 6, 104); (0x28, 6, 108); (0x29, 6, 109); (0x2a, 6,
   110); (0x2b, 6, 112); (0x2c, 6, 114); (0x2d, 6, 117)].

Definition huff_match (bits nbits : Z) (e : Z * Z * Z) : bool :=
  let '(code, code_len, _) := e in
  negb (nbits <? code_len)
  && (Z.land (wrap 32 (Z.shiftr bits (nbits - code_len))) (Z.shiftl 1 code_len - 1) =? code).

Definition huffman_lookup (bits nbits : Z) : option (Z * Z) :=
  match filter (λ e, huff_match bits nbits e = true) HUFF_TABLE with
  | (_, code_len, sym) :: _ => Some (sym, code_len)
  | [] => if 8 <=? nbits then Some (wrap 8 (Z.shiftr bits (nbits - 8)), 8) else None
  end.

(** The inner loop: symbols are taken off while one is there. *)
Fixpoint huff_drain (fuel : nat) (out : list Z) (bits nbits : Z) : list Z * Z * Z :=
  match fuel with
  | O => (out, bits, nbits)
  | S fuel' =>
      match huffman_lookup bits nbits with
      | Some (sym, len) =>
          let shift := nbits - len in
          huff_drain fuel' (out ++ [sym]) (Z.land bits (if 64 <=? shift then 0 else Z.shiftl 1 shift - 1)) shift
      | None => (out, bits, nbits)
      end
  end.

Definition huff_byte (st : list Z * Z * Z) (byte : Z) : list Z * Z * Z :=
  let '(out, bits, nbits) := st in
  let nbits := nbits + 8 in
  huff_drain (Z.to_nat nbits) out (Z.lor (wrap 64 (Z.shiftl bits 8)) byte) nbits.

Definition huffman_decode (src : list Z) : option (list Z) :=
  let '(out, bits, nbits) := foldl huff_byte ([], 0, 0) src in
  if 7 <? nbits then None
  else
    let mask := Z.shiftl 1 nbits - 1 in
    if (0 <? nbits) && negb (Z.land bits mask =? mask) then None else Some out.

(** ** Encoding *)

(** [while v >= 128 { .. }]: a 64-bit number takes ten bytes at most. *)
Fixpoint encode_rest (fuel : nat) (v : Z) : list Z :=
  match fuel with
  | O => []
  | S fuel' =>
      if 128 <=? v then Z.lor 0x80 (Z.land v 0x7F) :: encode_rest fuel' (Z.shiftr v 7) else [wrap 8 v]
  end.

Definition encode_integer (prefix_bits prefix_n value : Z) : list Z :=
  let max_prefix := Z.shiftl 1 prefix_n - 1 in
  if value <? max_prefix then [Z.lor prefix_bits (wrap 8 value)]
  else Z.lor prefix_bits (wrap 8 max_prefix) :: encode_rest 10 (value - max_prefix).

Definition encode_string (s : list Z) : list Z :=
  encode_integer 0x00 7 (Z.of_nat (length s)) ++ s.

(** The place of the first entry that satisfies [p]. *)
Fixpoint position (p : header → bool) (t : list header) : option nat :=
  match t with
  | [] => None
  | e :: t' => if p e then Some O else S <$> position p t'
  end.

Definition exact_match (name value : list Z) (e : header) : bool :=
  bool_decide (e.1 = name) && bool_decide (e.2 = value).
Definition name_match (name : list Z) (e : header) : bool := bool_decide (e.1 = name).

(** The 61 places of the table stay below 128. *)
Definition hpack_encode_header (name value : list Z) : list Z :=
  match position (exact_match name value) HPACK_STATIC with
  | Some idx => [Z.lor 0x80 (wrap 8 (Z.of_nat idx + 1))]
  | None =>
      match position (name_match name) HPACK_STATIC with
      | Some idx => Z.land (wrap 8 (Z.of_nat idx + 1)) 0x0F :: encode_string value
      | None => 0x00 :: encode_string name ++ encode_string value
      end
  end.

(** ** Decoding *)
Record HpackDecoder := mkDec {
  dynamic_table : list header;
  max_size : Z;
  current_size : Z
}.

Definition new_decoder : HpackDecoder := mkDec [] 4096 0.

Definition lookup_header (d : HpackDecoder) (index : Z) : option header :=
  if index =? 0 then None
  else if index <=? Z.of_nat (length HPACK_STATIC) then HPACK_STATIC !! Z.to_nat (index - 1)
  else
    let dyn_idx := index - Z.of_nat (length HPACK_STATIC) - 1 in
    if dyn_idx <? Z.of_nat (length (dynamic_table d)) then dynamic_table d !! Z.to_nat dyn_idx else None.

Definition entry_size (e : header) : Z := Z.of_nat (length e.1) + Z.of_nat (length e.2) + 32.

(** Entries are dropped from the end while the table and [extra] bytes do not fit. *)
Fixpoint evict (fuel : nat) (extra : Z) (d : HpackDecoder) : HpackDecoder :=
  match fuel with
  | O => d
  | S fuel' =>
      match last (dynamic_table d) with
      | Some e =>
          if max_size d <? current_size d + extra then
            evict fuel' extra (mkDec (removelast (dynamic_table d)) (max_size d) (current_size d - entry_size e))
          else d
      | None => d
      end
  end.

Definition evict_all (extra : Z) (d : HpackDecoder) : HpackDecoder := evict (length (dynamic_table d)) extra d.

Definition add_to_table (e : header) (d : HpackDecoder) : HpackDecoder :=
  let d := evict_all (entry_size e) d in
  if entry_size e <=? max_size d then
    mkDec (e :: dynamic_table d) (max_size d) (current_size d + entry_size e)
  else d.

(** The bytes behind a full prefix. *)
Fixpoint decode_int_loop (src : list Z) (value shift : Z) (consumed : nat) : result fault (Z * nat) :=
  match src with
  | [] => Err (Failed HpackError)
  | b :: src' =>
      let value := value + wrap 64 (Z.shiftl (Z.land b 0x7F) shift) in
      if 2 ^ 64 <=? value then Err Panic
      else if Z.land b 0x80 =? 0 then Ok (value, S consumed)
      else if 63 <? shift + 7 then Err (Failed HpackError)
      else decode_int_loop src' value (shift + 7) (S consumed)
  end.

Definition decode_integer (src : list Z) (n : Z) : result fault (Z * nat) :=
  match src with
  | [] => Err (Failed HpackError)
  | b :: src' =>
      let mask := Z.shiftl 1 n - 1 in
      let first := Z.land b mask in
      if first <? mask then Ok (first, 1%nat) else decode_int_loop src' mask 0 1
  end.

(** [src] is the input from [pos] on; the end of the string may leave the machine
    word. *)
Definition decode_string (pos : nat) (src : list Z) : result fault (list Z * nat) :=
  match src with
  | [] => Err (Failed HpackError)
  | b :: _ =>
      match decode_integer src 7 with
      | Err e => Err e
      | Ok (len, n) =>
          if 2 ^ 64 <=? Z.of_nat pos + Z.of_nat n + len then Err Panic
          else if Z.of_nat (length src) <? Z.of_nat n + len then Err (Failed HpackError)
          else
            let raw := take (Z.to_nat len) (drop n src) in
            match (if negb (Z.land b 0x80 =? 0) then huffman_decode raw else Some raw) with
            | None => Err (Failed HpackError)
            | Some bytes =>
                if utf8_valid bytes then Ok (bytes, (n + Z.to_nat len)%nat) else Err (Failed HpackError)
            end
      end
  end.

(** The name of a literal: a reference, or a string for index 0. *)
Definition decode_name (pos : nat) (src : list Z) (idx : Z) : M HpackDecoder fault (list Z * nat) := λ d,
  if idx =? 0 then (decode_string pos src, d)
  else
    match lookup_header d idx with
    | Some e => (Ok (e.1, O), d)
    | None => (Err (Failed HpackError), d)
    end.

(** A literal with a prefix of [n] bits, added to the table if [indexing]. *)
Definition decode_literal (indexing : bool) (n : Z) (pos : nat) (src : list Z) : M HpackDecoder fault (list header * nat) :=
  lift (decode_integer src n) ≫= λ '(idx, n1),
  decode_name (pos + n1) (drop n1 src) idx ≫= λ '(name, n2),
  lift (decode_string (pos + n1 + n2) (drop (n1 + n2) src)) ≫= λ '(value, n3),
  modify (if indexing then add_to_table (name, value) else id) ≫= λ _,
  mret ([(name, value)], (n1 + n2 + n3)%nat).

(** One turn of the decoding loop: the headers found and the bytes taken. *)
Definition decode_step (b : Z) (pos : nat) (src : list Z) : M HpackDecoder fault (list header * nat) :=
  if negb (Z.land b 0x80 =? 0) then
    lift (decode_integer src 7) ≫= λ '(idx, n),
    gets (λ d, lookup_header d idx) ≫= λ h,
    match h with Some e => mret ([e], n) | None => throw (Failed HpackError) end
  else if Z.land b 0xC0 =? 0x40 then decode_literal true 6 pos src
  else if (Z.land b 0xF0 =? 0x00) || (Z.land b 0xF0 =? 0x10) then decode_literal false 4 pos src
  else if Z.land b 0xE0 =? 0x20 then
    lift (decode_integer src 5) ≫= λ '(new_size, n),
    modify (λ d, evict_all 0 (mkDec (dynamic_table d) new_size (current_size d))) ≫= λ _,
    mret ([], n)
  else mret ([], 1%nat).

Fixpoint decode_loop (fuel pos : nat) (src : list Z) : M HpackDecoder fault (list header) :=
  match fuel, src with
  | S fuel', b :: _ =>
      decode_step b pos src ≫= λ '(hs, n),
      decode_loop fuel' (pos + n) (drop n src) ≫= λ rest,
      mret (hs ++ rest)
  | _, _ => mret []
  end.

(** Every turn takes a byte or more. *)
Definition decode_headers (src : list Z) : M HpackDecoder fault (list header) :=
  decode_loop (length src) 0 src.
