(* ===== verification/HpackProofs.v ===== *)
(** * HPACK: the decoder follows RFC 7541

    Prefixed integers and strings read back, the dynamic table is the longest run of
    newest entries that fits, and header blocks mean what the format says.  On the
    symbols whose Huffman codes are not hidden by a shorter entry of the table, the
    decoder inverts the prefix code of the table. *)

From S2P Require Import Prelude Bits Words SmartPack TextBytes Hpack.

(** ** Integers *)

(** A byte made of a prefix pattern and a value of [n] bits. *)
Lemma land_prefix n q x : 0 ≤ n → 0 ≤ x < 2 ^ n → Z.land (Z.lor (q * 2 ^ n) x) (Z.shiftl 1 n - 1) = x.
Proof.
  intros Hn Hx. rewrite Z.lor_comm, lor_disjoint, Z.shiftl_1_l by lia.
  rewrite <- Z.sub_1_r, <- Z.ones_equiv || replace (2 ^ n - 1) with (Z.ones n) by (rewrite Z.ones_equiv; lia).
  rewrite Z.land_ones, Z.mod_add, Z.mod_small by lia. done.
Qed.

Lemma encode_rest_step fuel v :
  encode_rest (S fuel) v =
  if 128 <=? v then Z.lor 0x80 (Z.land v 0x7F) :: encode_rest fuel (Z.shiftr v 7) else [wrap 8 v].
Proof. done. Qed.

Lemma continuation_byte v :
  0 ≤ v → Z.land (Z.lor 0x80 (Z.land v 0x7F)) 0x7F = v `mod` 128 ∧ Z.land (Z.lor 0x80 (Z.land v 0x7F)) 0x80 ≠ 0.
Proof.
  intros Hv. change 0x7F with (Z.ones 7) at 1 3. rewrite Z.land_ones by lia. change (2 ^ 7) with 128.
  pose proof (Z.mod_pos_bound v 128 ltac:(lia)) as Hm. revert Hm. generalize (v `mod` 128). intros m Hm. split.
  - change 0x80 with (1 * 2 ^ 7). change 0x7F with (Z.shiftl 1 7 - 1). apply land_prefix; lia.
  - intros E. apply (f_equal (λ z, Z.testbit z 7)) in E. by rewrite Z.land_spec, Z.lor_spec in E.
Qed.

Lemma shiftl_fits v shift : 0 ≤ v → 0 ≤ shift → v * 2 ^ shift < 2 ^ 64 → wrap 64 (Z.shiftl v shift) = v * 2 ^ shift.
Proof. intros. rewrite Z.shiftl_mul_pow2 by lia. apply wrap_id. split; [|done]. apply Z.mul_nonneg_nonneg; lia. Qed.

Lemma decode_int_loop_encode fuel v value shift consumed rest :
  (0 < fuel)%nat → 0 ≤ v < 2 ^ (7 * Z.of_nat fuel) → 0 ≤ shift → 0 ≤ value → value + v * 2 ^ shift < 2 ^ 64 →
  decode_int_loop (encode_rest fuel v ++ rest) value shift consumed
  = Ok (value + v * 2 ^ shift, (consumed + length (encode_rest fuel v))%nat).
Proof.
  revert v value shift consumed. induction fuel as [|fuel IH]; intros v value shift consumed Hf Hv Hs Hval Hb;
    [lia|].
  assert (H2 : 0 < 2 ^ shift) by (apply Z.pow_pos_nonneg; lia).
  rewrite encode_rest_step. destruct (Z.leb_spec 128 v) as [Hl|Hl].
  - destruct (continuation_byte v ltac:(lia)) as [E1 E2].
    pose proof (Z.div_mod v 128 ltac:(lia)) as Hd. pose proof (Z.mod_pos_bound v 128 ltac:(lia)).
    assert (Hp : 0 ≤ v `div` 128) by (apply Z.div_pos; lia).
    assert (E7 : 2 ^ (shift + 7) = 128 * 2 ^ shift) by (rewrite Z.pow_add_r; lia).
    assert (Hsh : shift + 7 ≤ 63).
    { destruct (Z.le_gt_cases (shift + 7) 63); [done|]. assert (2 ^ 64 ≤ 2 ^ (shift + 7)) by (apply Z.pow_le_mono_r; lia). nia. }
    cbn [app decode_int_loop length]. rewrite E1, (proj2 (Z.eqb_neq _ _) E2), shiftl_fits by nia.
    rewrite (proj2 (Z.leb_gt _ _)), (proj2 (Z.ltb_ge _ _)) by nia. rewrite Z.shiftr_div_pow2 by lia. change (2 ^ 7) with 128.
    rewrite IH; [| |split; [done|]|lia|nia|rewrite E7; nia].
    + rewrite E7. f_equal. f_equal; [|lia]. nia.
    + destruct fuel; [|lia]. change (2 ^ (7 * Z.of_nat 1)) with 128 in Hv. lia.
    + apply Z.div_lt_upper_bound; [lia|]. replace (7 * Z.of_nat (S fuel)) with (7 + 7 * Z.of_nat fuel) in Hv by lia.
      rewrite Z.pow_add_r in Hv by lia. lia.
  - assert (E : wrap 8 v = v) by (apply wrap_id; split; lia). cbn [app decode_int_loop length]. rewrite E.
    assert (E1 : Z.land v 0x7F = v) by (change 0x7F with (Z.ones 7); rewrite Z.land_ones, Z.mod_small by lia; done).
    assert (E2 : Z.land v 0x80 = 0).
    { rewrite <- E1, <- Z.land_assoc. change (Z.land 0x7F 0x80) with 0. apply Z.land_0_r. }
    rewrite E1, E2, shiftl_fits by nia. rewrite (proj2 (Z.leb_gt _ _)) by lia. cbn. f_equal. f_equal. lia.
Qed.

Lemma decode_integer_encode q n v rest :
  1 ≤ n ≤ 8 → uN 64 v →
  decode_integer (encode_integer (q * 2 ^ n) n v ++ rest) n = Ok (v, length (encode_integer (q * 2 ^ n) n v)).
Proof.
  intros Hn [Hv0 Hv]. assert (H2 : 1 < 2 ^ n ≤ 256).
  { split; [apply Z.pow_gt_1; lia|]. change 256 with (2 ^ 8). apply Z.pow_le_mono_r; lia. }
  assert (Em : Z.shiftl 1 n - 1 = 2 ^ n - 1) by (rewrite Z.shiftl_1_l; done).
  unfold encode_integer. rewrite Em. destruct (Z.ltb_spec v (2 ^ n - 1)) as [Hl|Hl].
  - cbn [app decode_integer length]. rewrite wrap_id by (split; lia). rewrite land_prefix by lia.
    rewrite Em, (proj2 (Z.ltb_lt _ _) Hl). done.
  - cbn [app decode_integer length]. rewrite wrap_id by (split; lia). rewrite land_prefix by lia.
    rewrite Em, Z.ltb_irrefl, decode_int_loop_encode; [|lia|split; [lia|]|lia|lia|lia].
    + f_equal. f_equal; lia.
    + change (2 ^ (7 * Z.of_nat 10)) with (64 * 2 ^ 64). lia.
Qed.

(** The first byte of an integer keeps the pattern of its prefix. *)
Lemma encode_integer_head q n v :
  1 ≤ n ≤ 8 → uN 64 v → ∃ x tl, encode_integer (q * 2 ^ n) n v = (q * 2 ^ n + x) :: tl ∧ 0 ≤ x < 2 ^ n.
Proof.
  intros Hn [Hv0 Hv]. assert (H2 : 1 < 2 ^ n ≤ 256).
  { split; [apply Z.pow_gt_1; lia|]. change 256 with (2 ^ 8). apply Z.pow_le_mono_r; lia. }
  unfold encode_integer. rewrite Z.shiftl_1_l.
  destruct (Z.ltb_spec v (2 ^ n - 1)); rewrite wrap_id by (split; lia); rewrite Z.lor_comm, lor_disjoint by lia;
    [exists v|exists (2 ^ n - 1)]; eexists; (split; [f_equal; lia|lia]).
Qed.

(** ** The dynamic table *)
Definition total (t : list header) : Z := foldr (λ e s, entry_size e + s) 0 t.

(** The newest entries that fit. *)
Fixpoint fit (room : Z) (t : list header) : list header :=
  match t with
  | [] => []
  | e :: t' => if entry_size e <=? room then e :: fit (room - entry_size e) t' else []
  end.

Record table_ok (d : HpackDecoder) : Prop := {
  size_exact : current_size d = total (dynamic_table d);
  size_bound : current_size d ≤ max_size d
}.

Lemma entry_size_pos e : 32 ≤ entry_size e.
Proof. unfold entry_size. lia. Qed.

Lemma total_app a b : total (a ++ b) = total a + total b.
Proof. unfold total. induction a as [|e a IH]; cbn; lia. Qed.

Lemma total_nonneg t : 0 ≤ total t.
Proof. induction t as [|e t IH]; cbn; [lia|]. pose proof (entry_size_pos e). unfold total in IH. lia. Qed.

Lemma fit_all room t : total t ≤ room → fit room t = t.
Proof.
  revert room. induction t as [|e t IH]; intros room Ht; [done|]. cbn in *.
  pose proof (total_nonneg t). unfold total in *. rewrite (proj2 (Z.leb_le _ _)), IH by lia. done.
Qed.

Lemma fit_total room t : total (fit room t) ≤ Z.max room 0.
Proof.
  revert room. induction t as [|e t IH]; intros room; cbn; [lia|]. pose proof (entry_size_pos e).
  destruct (Z.leb_spec (entry_size e) room); cbn; [|lia]. specialize (IH (room - entry_size e)). unfold total in IH. lia.
Qed.

Lemma fit_snoc room t e : room < total (t ++ [e]) → fit room (t ++ [e]) = fit room t.
Proof.
  revert room. induction t as [|a t IH]; intros room Ht; cbn in *.
  - unfold total in Ht. cbn in Ht. rewrite (proj2 (Z.leb_gt _ _)) by lia. done.
  - case_bool; [|done]. f_equal. apply IH. unfold total in *. lia.
Qed.

Lemma evict_spec extra t m k :
  (length t ≤ k)%nat →
  evict k extra (mkDec t m (total t)) = mkDec (fit (m - extra) t) m (total (fit (m - extra) t)).
Proof.
  revert k. induction t as [|e t IH] using rev_ind; intros k Hk.
  { by destruct k. }
  rewrite length_app in Hk. cbn in Hk. destruct k as [|k]; [lia|]. cbn [evict dynamic_table max_size current_size].
  rewrite last_snoc. destruct (Z.ltb_spec m (total (t ++ [e]) + extra)).
  - rewrite removelast_last, total_app. replace (total t + total [e] - entry_size e) with (total t) by (unfold total; cbn; lia).
    rewrite IH, fit_snoc by lia. done.
  - rewrite fit_all by lia. done.
Qed.

Lemma evict_all_spec extra d :
  current_size d = total (dynamic_table d) →
  evict_all extra d = mkDec (fit (max_size d - extra) (dynamic_table d)) (max_size d)
                        (total (fit (max_size d - extra) (dynamic_table d))).
Proof. destruct d as [t m c]. cbn. intros ->. unfold evict_all. cbn. by apply evict_spec. Qed.

(** Adding an entry keeps the newest entries that fit, the new one first. *)
Lemma add_to_table_spec e d :
  current_size d = total (dynamic_table d) →
  add_to_table e d = mkDec (fit (max_size d) (e :: dynamic_table d)) (max_size d)
                       (total (fit (max_size d) (e :: dynamic_table d))).
Proof.
  intros Hd. unfold add_to_table. rewrite evict_all_spec by done. cbn [fit max_size dynamic_table current_size].
  destruct (Z.leb_spec (entry_size e) (max_size d)).
  - f_equal. cbn. unfold total. lia.
  - destruct (dynamic_table d) as [|a t]; [done|]. cbn. pose proof (entry_size_pos a).
    rewrite (proj2 (Z.leb_gt _ _)) by lia. done.
Qed.

(** Static and dynamic entries form one numbering. *)
Lemma lookup_header_spec d i :
  0 ≤ i → lookup_header d i = if i =? 0 then None else (HPACK_STATIC ++ dynamic_table d) !! Z.to_nat (i - 1).
Proof.
  intros Hi. unfold lookup_header. destruct (Z.eqb_spec i 0); [done|].
  destruct (Z.leb_spec i (Z.of_nat (length HPACK_STATIC))).
  - rewrite lookup_app_l by lia. done.
  - rewrite lookup_app_r by lia. replace (Z.to_nat (i - 1) - length HPACK_STATIC)%nat
      with (Z.to_nat (i - Z.of_nat (length HPACK_STATIC) - 1)) by lia.
    case_bool; [done|]. symmetry. apply lookup_ge_None. lia.
Qed.

(** Bits, most significant first. *)
Definition of_bits (l : list bool) : Z := foldl (λ a b, 2 * a + Z.b2z b) 0 l.
Definition bits_of (n : nat) (v : Z) : list bool := map (λ i, Z.testbit v (Z.of_nat (n - 1 - i))) (seq 0 n).

Lemma of_bits_app a b : of_bits (a ++ b) = of_bits a * 2 ^ Z.of_nat (length b) + of_bits b.
Proof.
  unfold of_bits. rewrite foldl_app. generalize (foldl (λ a b, 2 * a + Z.b2z b) 0 a). clear a.
  induction b as [|x b IH]; intros a; [cbn; lia|]. cbn [foldl length].
  rewrite IH, (IH (2 * 0 + Z.b2z x)). rewrite Nat2Z.inj_succ, Z.pow_succ_r by lia. lia.
Qed.

Lemma msb_bits_range l : 0 ≤ of_bits l < 2 ^ Z.of_nat (length l).
Proof.
  induction l as [|x l IH] using rev_ind; [cbn; lia|]. rewrite of_bits_app, length_app. cbn [length].
  rewrite Nat2Z.inj_add, Z.pow_add_r by lia. change (2 ^ Z.of_nat 1) with 2. destruct x; cbn; lia.
Qed.

Lemma of_bits_high a b : Z.shiftr (of_bits (a ++ b)) (Z.of_nat (length b)) = of_bits a.
Proof.
  pose proof (msb_bits_range b). rewrite of_bits_app, Z.shiftr_div_pow2, Z.div_add_l, Z.div_small by lia. lia.
Qed.

Lemma of_bits_low a b :
  Z.land (of_bits (a ++ b)) (Z.shiftl 1 (Z.of_nat (length b)) - 1) = of_bits b.
Proof.
  pose proof (msb_bits_range b). rewrite of_bits_app, Z.shiftl_1_l. rewrite <- Z.sub_1_r || idtac.
  replace (2 ^ Z.of_nat (length b) - 1) with (Z.ones (Z.of_nat (length b))) by (rewrite Z.ones_equiv; lia).
  rewrite Z.land_ones, Z.add_comm, Z.mod_add, Z.mod_small by lia. done.
Qed.

(** ** The table as a code *)
Fixpoint first_match (t : list (Z * Z * Z)) (pb : list bool) : option (Z * Z) :=
  match t with
  | [] => if (8 <=? length pb)%nat then Some (of_bits (take 8 pb), 8) else None
  | (code, len, sym) :: t' =>
      if (Z.to_nat len <=? length pb)%nat && (of_bits (take (Z.to_nat len) pb) =? code)
      then Some (sym, len) else first_match t' pb
  end.

Definition entry_ok (e : Z * Z * Z) : bool := let '(_, len, _) := e in (0 <? len) && (len <=? 30).

Lemma huff_match_bits code len sym pb :
  entry_ok (code, len, sym) = true →
  huff_match (of_bits pb) (Z.of_nat (length pb)) (code, len, sym)
  = (Z.to_nat len <=? length pb)%nat && (of_bits (take (Z.to_nat len) pb) =? code).
Proof.
  intros He. cbn in He. apply andb_true_iff in He as [Hl%Z.ltb_lt Hu%Z.leb_le]. unfold huff_match.
  destruct (Nat.leb_spec (Z.to_nat len) (length pb)) as [Hp|Hp]; [|rewrite (proj2 (Z.ltb_lt _ _)) by lia; done].
  rewrite (proj2 (Z.ltb_ge _ _)) by lia. cbn [negb andb]. f_equal.
  assert (Ed : length (drop (Z.to_nat len) pb) = (length pb - Z.to_nat len)%nat) by apply length_drop.
  assert (Et : length (take (Z.to_nat len) pb) = Z.to_nat len) by (rewrite length_take; lia).
  replace (Z.of_nat (length pb) - len) with (Z.of_nat (length (drop (Z.to_nat len) pb))) by lia.
  rewrite <- (take_drop (Z.to_nat len) pb) at 1. rewrite of_bits_high.
  pose proof (msb_bits_range (take (Z.to_nat len) pb)) as Hr. rewrite Et, Z2Nat.id in Hr by lia.
  assert (2 ^ len ≤ 2 ^ 30) by (apply Z.pow_le_mono_r; lia).
  rewrite wrap_id by (split; lia). rewrite Z.shiftl_1_l.
  replace (2 ^ len - 1) with (Z.ones len) by (rewrite Z.ones_equiv; lia).
  rewrite Z.land_ones, Z.mod_small by lia. done.
Qed.

Lemma first_match_spec t pb :
  forallb entry_ok t = true →
  first_match t pb =
  match filter (λ e, huff_match (of_bits pb) (Z.of_nat (length pb)) e = true) t with
  | (_, code_len, sym) :: _ => Some (sym, code_len)
  | [] => if 8 <=? Z.of_nat (length pb)
          then Some (wrap 8 (Z.shiftr (of_bits pb) (Z.of_nat (length pb) - 8)), 8) else None
  end.
Proof.
  induction t as [|[[code len] sym] t IH]; intros Ht.
  - cbn [first_match]. rewrite filter_nil. destruct (Nat.leb_spec 8 (length pb)) as [Hp|Hp].
    + rewrite (proj2 (Z.leb_le _ _)) by lia. f_equal. f_equal.
      replace (Z.of_nat (length pb) - 8) with (Z.of_nat (length (drop 8 pb))) by (rewrite length_drop; lia).
      rewrite <- (take_drop 8 pb) at 2. rewrite of_bits_high. symmetry. apply wrap_id.
      pose proof (msb_bits_range (take 8 pb)) as Hr. rewrite length_take, Nat.min_l in Hr by lia. exact Hr.
    + rewrite (proj2 (Z.leb_gt _ _)) by lia. done.
  - apply andb_true_iff in Ht as [He Ht]. cbn [first_match]. rewrite filter_cons, <- (huff_match_bits code len sym) by done.
    destruct (huff_match _ _ _); [rewrite decide_True by done; done|]. rewrite decide_False by done. by apply IH.
Qed.

Definition lookup_bits : list bool → option (Z * Z) := first_match HUFF_TABLE.

Lemma huffman_lookup_bits pb : huffman_lookup (of_bits pb) (Z.of_nat (length pb)) = lookup_bits pb.
Proof. symmetry. apply first_match_spec. vm_compute. reflexivity. Qed.

(** The symbols with a code that no entry before it begins. *)
Definition code_of (sym : Z) : list bool :=
  match filter (λ '(_, _, s), s = sym) HUFF_TABLE with
  | (code, len, _) :: _ => bits_of (Z.to_nat len) code
  | [] => []
  end.

Definition decodable (sym : Z) : bool :=
  negb (bool_decide (code_of sym = []))
  && bool_decide (lookup_bits (code_of sym) = Some (sym, Z.of_nat (length (code_of sym)))).

Definition SYMBOLS : list Z := filter (λ s, decodable s = true) (seqZ 0 256).

Lemma symbols_are : SYMBOLS = text "/0123456789=A_abcdefghilmnoprstu".
Proof. vm_compute. reflexivity. Qed.

Lemma lookup_code s more :
  s ∈ SYMBOLS → lookup_bits (code_of s ++ more) = Some (s, Z.of_nat (length (code_of s))).
Proof.
  rewrite symbols_are. intros Hs. unfold text in Hs. cbn in Hs.
  repeat (apply elem_of_cons in Hs as [->|Hs]; [vm_compute; reflexivity|]). by apply elem_of_nil in Hs.
Qed.

Lemma lookup_short s k : s ∈ SYMBOLS → (k < length (code_of s))%nat → lookup_bits (take k (code_of s)) = None.
Proof.
  intros Hs Hk.
  assert (Hall : forallb (λ s, forallb (λ k, match lookup_bits (take k (code_of s)) with None => true | Some _ => false end)
                                 (seq 0 (length (code_of s)))) SYMBOLS = true) by (vm_compute; reflexivity).
  rewrite forallb_forall in Hall. specialize (Hall s (proj1 (list_elem_of_In _ _) Hs)). cbv beta in Hall.
  rewrite forallb_forall in Hall. specialize (Hall k (proj2 (in_seq (length (code_of s)) 0 k) ltac:(lia))).
  destruct (lookup_bits (take k (code_of s))); [discriminate Hall|reflexivity].
Qed.

Lemma lookup_padding k : (k < 8)%nat → lookup_bits (replicate k true) = None.
Proof. intros Hk. do 8 (destruct k as [|k]; [vm_compute; reflexivity|]). lia. Qed.

Lemma code_length s : s ∈ SYMBOLS → (0 < length (code_of s) ≤ 6)%nat.
Proof.
  intros Hs.
  assert (Hall : forallb (λ s, (0 <? length (code_of s)) && (length (code_of s) <=? 6))%nat SYMBOLS = true)
    by (vm_compute; reflexivity).
  rewrite forallb_forall in Hall. specialize (Hall s (proj1 (list_elem_of_In _ _) Hs)). cbv beta in Hall.
  apply andb_true_iff in Hall as [?%Nat.ltb_lt ?%Nat.leb_le]. lia.
Qed.

(** ** Decoding *)
Definition codes (syms : list Z) : list bool := concat (map code_of syms).

(** The inner loop takes off every symbol that is complete. *)
Lemma huff_drain_codes k rest syms pb fuel out :
  (k < 8)%nat → Forall (λ s, s ∈ SYMBOLS) syms → pb ++ rest = codes syms ++ replicate k true →
  (length pb ≤ fuel)%nat → (length pb ≤ 15)%nat →
  ∃ s1 s2 pb',
    syms = s1 ++ s2
    ∧ huff_drain fuel out (of_bits pb) (Z.of_nat (length pb)) = (out ++ s1, of_bits pb', Z.of_nat (length pb'))
    ∧ pb' ++ rest = codes s2 ++ replicate k true
    ∧ (length pb' ≤ 7)%nat
    ∧ (∀ s s2', s2 = s :: s2' → (length pb' < length (code_of s))%nat).
Proof.
  intros Hk Hs. revert pb fuel out. induction Hs as [|s syms Hs Hsyms IH]; intros pb fuel out Hpb Hf Hl.
  - cbn [codes map concat app] in Hpb. exists [], [], pb.
    assert (Hr : pb = replicate (length pb) true ∧ (length pb ≤ k)%nat).
    { pose proof (f_equal length Hpb) as E. rewrite length_app, length_replicate in E. split; [|lia].
      apply (f_equal (take (length pb))) in Hpb. rewrite take_app_length, take_replicate in Hpb.
      rewrite Hpb at 1. f_equal. lia. }
    destruct Hr as [Hr Hlk]. split; [done|]. split; [|split; [done|split; [lia|done]]]. rewrite app_nil_r.
    destruct fuel; [done|]. cbn [huff_drain]. rewrite huffman_lookup_bits, Hr, lookup_padding by lia. done.
  - pose proof (code_length s Hs) as Hc. unfold codes in Hpb. cbn [map concat] in Hpb. rewrite <- app_assoc in Hpb.
    destruct (le_lt_dec (length (code_of s)) (length pb)) as [Hge|Hlt].
    + assert (Ep : pb = code_of s ++ drop (length (code_of s)) pb).
      { apply (f_equal (take (length (code_of s)))) in Hpb. rewrite take_app_le, take_app_length in Hpb by lia.
        rewrite <- Hpb at 1. by rewrite take_drop. }
      set (pb2 := drop (length (code_of s)) pb) in *. clearbody pb2. subst pb. rewrite length_app in *.
      rewrite <- app_assoc in Hpb. apply app_inv_head in Hpb. destruct fuel as [|fuel]; [lia|].
      destruct (IH pb2 fuel (out ++ [s]) Hpb ltac:(lia) ltac:(lia)) as (s1 & s2 & pb' & E1 & E2 & E3 & E4 & E5).
      exists (s :: s1), s2, pb'. split; [by rewrite E1|]. split; [|done]. cbn [huff_drain].
      rewrite <- length_app, huffman_lookup_bits, lookup_code, length_app by done.
      replace (Z.of_nat (length (code_of s) + length pb2) - Z.of_nat (length (code_of s)))
        with (Z.of_nat (length pb2)) by lia.
      rewrite (proj2 (Z.leb_gt _ _)), of_bits_low, E2, <- app_assoc by lia. done.
    + exists [], (s :: syms), pb. rewrite app_nil_r. split; [done|]. split; [|split; [|split; [lia|]]].
      * destruct fuel; [done|]. cbn [huff_drain]. rewrite huffman_lookup_bits.
        replace (lookup_bits pb) with (@None (Z * Z)); [done|]. symmetry.
        apply (f_equal (take (length pb))) in Hpb. rewrite take_app_length, take_app_le in Hpb by lia.
        rewrite Hpb. by apply lookup_short.
      * rewrite Hpb. unfold codes. cbn [map concat]. by rewrite app_assoc.
      * intros s' s2' [= <- <-]. lia.
Qed.

Definition byte_bits (bs : list Z) : list bool := concat (map (bits_of 8) bs).

Lemma of_bits_byte b : uN 8 b → of_bits (bits_of 8 b) = b.
Proof.
  intros Hb. apply Z.eqb_eq. revert b Hb. apply (forall_byte (λ b, of_bits (bits_of 8 b) =? b)). vm_compute. reflexivity.
Qed.

Lemma huff_bytes_codes k bs syms pb out :
  (k < 8)%nat → bytes_ok bs → Forall (λ s, s ∈ SYMBOLS) syms →
  pb ++ byte_bits bs = codes syms ++ replicate k true → (length pb ≤ 7)%nat →
  (∀ s syms', syms = s :: syms' → (length pb < length (code_of s))%nat) →
  foldl huff_byte (out, of_bits pb, Z.of_nat (length pb)) bs
  = (out ++ syms, of_bits (replicate k true), Z.of_nat k).
Proof.
  intros Hk Hb. revert syms pb out. induction Hb as [|b bs Hb _ IH]; intros syms pb out Hs Hpb Hl Hh.
  - unfold byte_bits in Hpb. cbn in Hpb. rewrite app_nil_r in Hpb. destruct syms as [|s syms].
    + cbn in Hpb. subst pb. cbn. by rewrite length_replicate, app_nil_r.
    + specialize (Hh _ _ eq_refl). subst pb. unfold codes in Hh. cbn [map concat] in Hh. rewrite !length_app in Hh. lia.
  - cbn [foldl]. unfold huff_byte at 2.
    assert (El : length (bits_of 8 b) = 8%nat) by done.
    replace (Z.lor (wrap 64 (Z.shiftl (of_bits pb) 8)) b) with (of_bits (pb ++ bits_of 8 b)).
    2:{ pose proof (msb_bits_range pb). assert (2 ^ Z.of_nat (length pb) ≤ 2 ^ 7) by (apply Z.pow_le_mono_r; lia).
        rewrite of_bits_app, El, of_bits_byte, Z.shiftl_mul_pow2 by (done || lia). change (2 ^ Z.of_nat 8) with (2 ^ 8).
        rewrite wrap_id by (split; lia). destruct Hb. rewrite Z.lor_comm, lor_disjoint by lia. lia. }
    replace (Z.of_nat (length pb) + 8) with (Z.of_nat (length (pb ++ bits_of 8 b))) by (rewrite length_app; lia).
    unfold byte_bits in Hpb. cbn [map concat] in Hpb. rewrite app_assoc in Hpb.
    destruct (huff_drain_codes k _ syms _ (Z.to_nat (Z.of_nat (length (pb ++ bits_of 8 b)))) out Hk Hs Hpb)
      as (s1 & s2 & pb' & -> & -> & E3 & E4 & E5); [lia|rewrite length_app; lia|].
    apply Forall_app in Hs as [_ Hs2]. rewrite (IH s2 pb' (out ++ s1)) by done. by rewrite app_assoc.
Qed.

(** [bs] is a Huffman string for [syms]: the codes, then ones up to a byte. *)
Definition huffman_string (bs syms : list Z) : Prop :=
  bytes_ok bs ∧ Forall (λ s, s ∈ SYMBOLS) syms
  ∧ ∃ k, (k < 8)%nat ∧ byte_bits bs = codes syms ++ replicate k true.

Lemma huffman_decode_string bs syms : huffman_string bs syms → huffman_decode bs = Some syms.
Proof.
  intros (Hb & Hs & k & Hk & E). unfold huffman_decode.
  pose proof (huff_bytes_codes k bs syms [] [] Hk Hb Hs E ltac:(cbn; lia)) as Hd. cbn [app length] in Hd.
  change (of_bits []) with 0 in Hd. change (Z.of_nat 0) with 0 in Hd. rewrite Hd.
  - rewrite (proj2 (Z.ltb_ge _ _)) by lia. do 8 (destruct k as [|k]; [done|]). lia.
  - intros s syms' ->. apply Forall_cons in Hs as [Hs _]. by apply code_length.
Qed.

(** Those symbols are plain ASCII. *)
Lemma symbols_utf8 syms : Forall (λ s, s ∈ SYMBOLS) syms → utf8_valid syms = true.
Proof.
  induction 1 as [|s syms Hs _ IH]; [done|]. cbn [utf8_valid].
  assert (Hall : forallb (λ s, s <? 0x80) SYMBOLS = true) by (vm_compute; reflexivity).
  rewrite forallb_forall in Hall. by rewrite (Hall s (proj1 (list_elem_of_In _ _) Hs)).
Qed.
