(* ===== verification/HpackTheorems.v ===== *)
(** * HPACK header blocks

    The header-field representations of RFC 7541 with their wire form and their
    meaning on the table, and the decoder and encoder against them. *)

From S2P Require Import Prelude Bits Words SmartPack TextBytes Hpack HpackProofs.

(** ** The format *)

(** A string on the wire, plain or Huffman coded, with the text it stands for. *)
Inductive hstring :=
| Plain (s : list Z)
| Coded (bs s : list Z).

Definition string_text (h : hstring) : list Z := match h with Plain s | Coded _ s => s end.
Definition string_wire (h : hstring) : list Z :=
  match h with
  | Plain s => encode_string s
  | Coded bs _ => encode_integer 0x80 7 (Z.of_nat (length bs)) ++ bs
  end.
Definition string_ok (h : hstring) : Prop :=
  match h with
  | Plain s => utf8_valid s = true
  | Coded bs s => huffman_string bs s
  end.

Inductive name_ref := NewName (h : hstring) | NameOf (idx : Z).
Inductive indexing := Incremental | NotIndexed | NeverIndexed.

Inductive field :=
| Indexed (idx : Z)
| Literal (k : indexing) (name : name_ref) (value : hstring)
| SizeUpdate (n : Z).

(** The prefix pattern, as a multiple of the value's place, and its width. *)
Definition pattern (k : indexing) : Z := match k with Incremental => 1 | NotIndexed => 0 | NeverIndexed => 1 end.
Definition width (k : indexing) : Z := match k with Incremental => 6 | _ => 4 end.

Definition name_wire (k : indexing) (n : name_ref) : list Z :=
  match n with
  | NewName h => encode_integer (pattern k * 2 ^ width k) (width k) 0 ++ string_wire h
  | NameOf i => encode_integer (pattern k * 2 ^ width k) (width k) i
  end.

Definition wire (f : field) : list Z :=
  match f with
  | Indexed i => encode_integer 0x80 7 i
  | Literal k n v => name_wire k n ++ string_wire v
  | SizeUpdate n => encode_integer 0x20 5 n
  end.

Definition field_ok (f : field) : Prop :=
  match f with
  | Indexed i => uN 64 i
  | Literal k (NewName h) v => string_ok h ∧ string_ok v
  | Literal k (NameOf i) v => uN 64 i ∧ i ≠ 0 ∧ string_ok v
  | SizeUpdate n => uN 64 n
  end.

(** What a field means: the headers it stands for and the table it leaves. *)
Definition entry (t : list header) (i : Z) : option header :=
  if i =? 0 then None else (HPACK_STATIC ++ t) !! Z.to_nat (i - 1).

Definition name_text (t : list header) (n : name_ref) : option (list Z) :=
  match n with NewName h => Some (string_text h) | NameOf i => fst <$> entry t i end.

Definition meaning (f : field) (t : list header) (m : Z) : option (list header * (list header * Z)) :=
  match f with
  | Indexed i => e ← entry t i; Some ([e], (t, m))
  | Literal k n v =>
      name ← name_text t n;
      let e := (name, string_text v) in
      Some ([e], (match k with Incremental => fit m (e :: t) | _ => t end, m))
  | SizeUpdate n => Some ([], (fit n t, n))
  end.

Fixpoint block (fs : list field) (t : list header) (m : Z) : option (list header * (list header * Z)) :=
  match fs with
  | [] => Some ([], (t, m))
  | f :: fs' =>
      '(hs, (t, m)) ← meaning f t m;
      '(hs', tm) ← block fs' t m;
      Some (hs ++ hs', tm)
  end.

Definition decoder (t : list header) (m : Z) : HpackDecoder := mkDec t m (total t).

(** ** Decoding one field *)

(** The first byte of each kind of field. *)
Lemma head_classes b :
  uN 8 b →
  (0x80 ≤ b → Z.land b 0x80 =? 0 = false)
  ∧ (b < 0x80 → Z.land b 0x80 =? 0 = true)
  ∧ (Z.land b 0xC0 =? 0x40) = ((0x40 <=? b) && (b <? 0x80))
  ∧ ((Z.land b 0xF0 =? 0x00) || (Z.land b 0xF0 =? 0x10)) = (b <? 0x20)
  ∧ (Z.land b 0xE0 =? 0x20) = ((0x20 <=? b) && (b <? 0x40)).
Proof.
  intros Hb.
  assert (H : (eqb (Z.land b 0x80 =? 0) (b <? 0x80) && eqb (Z.land b 0xC0 =? 0x40) ((0x40 <=? b) && (b <? 0x80))
    && eqb ((Z.land b 0xF0 =? 0x00) || (Z.land b 0xF0 =? 0x10)) (b <? 0x20)
    && eqb (Z.land b 0xE0 =? 0x20) ((0x20 <=? b) && (b <? 0x40)))%bool = true).
  { revert b Hb. apply (forall_byte (λ b, _)). vm_compute. reflexivity. }
  apply andb_true_iff in H as [H H4%eqb_prop]. apply andb_true_iff in H as [H H3%eqb_prop].
  apply andb_true_iff in H as [H1%eqb_prop H2%eqb_prop]. rewrite H1, H2, H3, H4.
  split; [intros; by apply Z.ltb_ge|]. split; [intros; by apply Z.ltb_lt|done].
Qed.

Lemma decode_string_wire pos h rest :
  string_ok h → Z.of_nat pos + Z.of_nat (length (string_wire h)) < 2 ^ 64 →
  decode_string pos (string_wire h ++ rest) = Ok (string_text h, length (string_wire h)).
Proof.
  intros Hok Hl.
  assert (G : ∀ q s, (q = 0 ∨ q = 1) → string_wire h = encode_integer (q * 2 ^ 7) 7 (Z.of_nat (length s)) ++ s →
    (if q =? 1 then huffman_decode s else Some s) = Some (string_text h) → utf8_valid (string_text h) = true →
    decode_string pos (string_wire h ++ rest) = Ok (string_text h, length (string_wire h))).
  { intros q s Hq E Hd Hu. rewrite E in *. rewrite length_app in Hl.
    assert (Hs : uN 64 (Z.of_nat (length s))) by (split; lia).
    pose proof (decode_integer_encode q 7 _ (s ++ rest) ltac:(lia) Hs) as Hi.
    destruct (encode_integer_head q 7 _ ltac:(lia) Hs) as (x & tl & Eh & Hx). change (2 ^ 7) with 128 in Hx.
    rewrite <- app_assoc. set (w := encode_integer (q * 2 ^ 7) 7 (Z.of_nat (length s))) in *. clearbody w. unfold decode_string.
    assert (Ew : ∃ tl', w ++ s ++ rest = (q * 2 ^ 7 + x) :: tl') by (rewrite Eh; by eexists).
    destruct Ew as [tl' Ew]. rewrite Ew. rewrite <- Ew, Hi.
    rewrite (proj2 (Z.leb_gt _ _)), (proj2 (Z.ltb_ge _ _)) by (rewrite ?length_app; lia).
    rewrite Nat2Z.id, drop_app_length, take_app_length.
    assert (Eb : negb (Z.land (q * 2 ^ 7 + x) 0x80 =? 0) = (q =? 1)).
    { destruct (head_classes (q * 2 ^ 7 + x)) as (H1 & H2 & _); [split; lia|].
      destruct Hq as [->| ->]; [rewrite H2 by lia|rewrite H1 by lia]; done. }
    rewrite Eb, Hd, Hu. by rewrite length_app. }
  destruct h as [s|bs s]; cbn [string_ok string_text string_wire] in *.
  - by apply (G 0 s); [left| | |].
  - destruct Hok as (Hb & Hs & Hk). apply (G 1 bs); [by right|done| |by apply symbols_utf8].
    by apply huffman_decode_string.
Qed.

Lemma string_wire_length h : string_ok h → (0 < length (string_wire h))%nat.
Proof.
  intros _. destruct h; cbn; unfold encode_string, encode_integer; case_match; rewrite length_app; cbn; lia.
Qed.

Lemma lookup_entry d i : 0 ≤ i → lookup_header d i = entry (dynamic_table d) i.
Proof. apply lookup_header_spec. Qed.

(** A literal field, whatever its indexing. *)
Lemma decode_literal_wire k n v pos rest t m :
  field_ok (Literal k n v) → Z.of_nat pos + Z.of_nat (length (wire (Literal k n v))) < 2 ^ 64 →
  decode_literal (match k with Incremental => true | _ => false end) (width k) pos (wire (Literal k n v) ++ rest) (decoder t m)
  = match meaning (Literal k n v) t m with
    | Some (hs, (t', m')) => (Ok (hs, length (wire (Literal k n v))), decoder t' m')
    | None => (Err (Failed HpackError), decoder t m)
    end.
Proof.
  intros Hok Hl. cbn [wire] in *. unfold decode_literal. cbn [meaning].
  set (idx := match n with NewName _ => 0 | NameOf i => i end).
  set (tl := match n with NewName h => string_wire h | NameOf _ => [] end).
  assert (Hw : name_wire k n = encode_integer (pattern k * 2 ^ width k) (width k) idx ++ tl)
    by (destruct n; cbn; by rewrite ?app_nil_r).
  assert (Hidx : uN 64 idx) by (destruct n; [done|apply Hok]).
  assert (Hv : string_ok v) by (destruct n; apply Hok).
  rewrite Hw in *. set (w := encode_integer (pattern k * 2 ^ width k) (width k) idx) in *.
  assert (Hi : ∀ r, decode_integer (w ++ r) (width k) = Ok (idx, length w))
    by (intros r; apply decode_integer_encode; [by destruct k|done]).
  clearbody w. rewrite !length_app in Hl. unfold mbind, M_bind, lift. rewrite <- !app_assoc, Hi, drop_app_length.
  assert (Hn : decode_name (pos + length w) (tl ++ string_wire v ++ rest) idx (decoder t m)
    = (match name_text t n with Some s => Ok (s, length tl) | None => Err (Failed HpackError) end, decoder t m)).
  { unfold decode_name, idx, tl. destruct n as [h|i]; cbn [name_text].
    - cbn [Z.eqb]. unfold tl in Hl. rewrite decode_string_wire; [done|apply Hok|lia].
    - destruct Hok as (Hi' & Hi0 & _). rewrite (proj2 (Z.eqb_neq _ _) Hi0), lookup_entry by apply Hi'.
      cbn [dynamic_table decoder app]. by destruct (entry t i). }
  rewrite Hn. destruct (name_text t n) as [name|]; [|done]. cbn [option_bind mbind].
  rewrite drop_app_add, drop_app_length || (rewrite <- drop_drop, drop_app_length, drop_app_length).
  rewrite decode_string_wire by (done || lia). unfold mret, M_ret, modify.
  rewrite !length_app, <- Nat.add_assoc. destruct k; [|done..]. rewrite add_to_table_spec by done. done.
Qed.

Lemma decode_step_wire f pos rest t m :
  field_ok f → Z.of_nat pos + Z.of_nat (length (wire f)) < 2 ^ 64 →
  ∃ b tl, wire f = b :: tl ∧
  decode_step b pos (wire f ++ rest) (decoder t m)
  = match meaning f t m with
    | Some (hs, (t', m')) => (Ok (hs, length (wire f)), decoder t' m')
    | None => (Err (Failed HpackError), decoder t m)
    end.
Proof.
  intros Hok Hl. destruct f as [i|k n v|sz].
  - destruct (encode_integer_head 1 7 i ltac:(lia) Hok) as (x & tl & E & Hx). change (2 ^ 7) with 128 in Hx.
    exists (1 * 2 ^ 7 + x), tl. split; [exact E|].
    destruct (head_classes (1 * 2 ^ 7 + x)) as (H1 & _); [split; lia|].
    unfold decode_step. rewrite H1 by lia. cbn [negb]. unfold mbind, M_bind, lift, gets.
    cbn [wire]. change 0x80 with (1 * 2 ^ 7). rewrite decode_integer_encode by (lia || done).
    rewrite lookup_entry by apply Hok. cbn [dynamic_table decoder meaning]. by destruct (entry t i).
  - set (idx := match n with NewName _ => 0 | NameOf i => i end).
    assert (Hidx : uN 64 idx) by (destruct n; [done|apply Hok]).
    destruct (encode_integer_head (pattern k) (width k) idx ltac:(by destruct k) Hidx) as (x & tl & E & Hx).
    exists (pattern k * 2 ^ width k + x).
    assert (Ew : ∃ tl', wire (Literal k n v) = (pattern k * 2 ^ width k + x) :: tl').
    { destruct n; cbn [wire name_wire]; unfold idx in E; rewrite E; by eexists. }
    destruct Ew as [tl' Ew]. exists tl'. split; [exact Ew|]. rewrite <- (decode_literal_wire k n v pos rest t m) by done.
    assert (Hb : uN 8 (pattern k * 2 ^ width k + x)) by (destruct k; cbn in Hx |- *; split; lia).
    destruct (head_classes _ Hb) as (_ & H2 & H3 & H4 & _). unfold decode_step.
    rewrite H2, H3, H4 by (destruct k; cbn in Hx |- *; lia). cbn [negb].
    destruct k; cbn in Hx |- *; [rewrite (proj2 (Z.leb_le _ _)), (proj2 (Z.ltb_lt _ _)) by lia; done|..];
      rewrite (proj2 (Z.leb_gt _ _)), (proj2 (Z.ltb_lt (_ + _) 32)) by lia; done.
  - destruct (encode_integer_head 1 5 sz ltac:(lia) Hok) as (x & tl & E & Hx). change (2 ^ 5) with 32 in Hx.
    exists (1 * 2 ^ 5 + x), tl. split; [exact E|].
    destruct (head_classes (1 * 2 ^ 5 + x)) as (_ & H2 & H3 & H4 & H5); [split; lia|].
    unfold decode_step. rewrite H2, H3, H4, H5 by lia. cbn [negb].
    rewrite (proj2 (Z.leb_gt 64 _)), (proj2 (Z.ltb_ge _ 32)), (proj2 (Z.leb_le 32 _)), (proj2 (Z.ltb_lt _ 64)) by lia.
    cbn [andb]. unfold mbind, M_bind, lift, modify, mret, M_ret.
    cbn [wire]. change 0x20 with (1 * 2 ^ 5). rewrite decode_integer_encode by (lia || done).
    rewrite evict_all_spec by done. cbn [max_size dynamic_table decoder meaning]. rewrite Z.sub_0_r. done.
Qed.

(** ** Header blocks *)
Lemma decode_loop_block fs fuel pos t m :
  Forall field_ok fs → (length (concat (map wire fs)) ≤ fuel)%nat →
  Z.of_nat pos + Z.of_nat (length (concat (map wire fs))) < 2 ^ 64 →
  match block fs t m with
  | Some (hs, (t', m')) => decode_loop fuel pos (concat (map wire fs)) (decoder t m) = (Ok hs, decoder t' m')
  | None => (decode_loop fuel pos (concat (map wire fs)) (decoder t m)).1 = Err (Failed HpackError)
  end.
Proof.
  intros Hfs. revert fuel pos t m. induction Hfs as [|f fs Hf Hfs IH]; intros fuel pos t m Hfuel Hl.
  { by destruct fuel. }
  cbn [map concat block] in *. rewrite length_app in *.
  destruct (decode_step_wire f pos (concat (map wire fs)) t m Hf ltac:(lia)) as (b & tl & Ew & Hd).
  assert (Hw : (0 < length (wire f))%nat) by (rewrite Ew; cbn; lia). destruct fuel as [|fuel]; [lia|].
  set (rest := concat (map wire fs)) in *.
  assert (Eu : decode_loop (S fuel) pos (wire f ++ rest) (decoder t m) =
    (decode_step b pos (wire f ++ rest) ≫= λ '(hs, n), decode_loop fuel (pos + n) (drop n (wire f ++ rest)) ≫= λ rest',
      mret (hs ++ rest')) (decoder t m)) by (rewrite Ew; done).
  rewrite Eu. clear Eu. unfold mbind, M_bind. rewrite Hd. clear Hd Ew.
  destruct (meaning f t m) as [[hs [t1 m1]]|]; [|done]. cbn [mbind option_bind].
  rewrite drop_app_length. specialize (IH fuel (pos + length (wire f))%nat t1 m1 ltac:(lia) ltac:(lia)).
  destruct (block fs t1 m1) as [[hs' [t' m']]|]; cbn [mbind option_bind].
  - by rewrite IH.
  - by destruct (decode_loop fuel _ rest _) as [[] ?].
Qed.

Lemma meaning_bound f t m hs t' m' :
  field_ok f → 0 ≤ m → total t ≤ m → meaning f t m = Some (hs, (t', m')) → 0 ≤ m' ∧ total t' ≤ m'.
Proof.
  intros Hf Hm Ht E. destruct f as [i|k n v|sz]; cbn [meaning] in E.
  - destruct (entry t i); [|done]. by injection E as <- <- <-.
  - destruct (name_text t n) as [s|]; [|done]. injection E as <- <- <-. split; [done|]. destruct k; [|done..].
    pose proof (fit_total m ((s, string_text v) :: t)). cbn [fit] in *. lia.
  - injection E as <- <- <-. destruct Hf. pose proof (fit_total sz t). lia.
Qed.

Lemma block_bound fs t m hs t' m' :
  Forall field_ok fs → 0 ≤ m → total t ≤ m → block fs t m = Some (hs, (t', m')) → 0 ≤ m' ∧ total t' ≤ m'.
Proof.
  intros Hfs. revert t m hs. induction Hfs as [|f fs Hf _ IH]; intros t m hs Hm Ht E; cbn [block] in E.
  - by injection E as <- <- <-.
  - destruct (meaning f t m) as [[hs1 [t1 m1]]|] eqn:E1; [|done]. cbn [mbind option_bind] in E.
    destruct (block fs t1 m1) as [[hs2 tm]|] eqn:E2; [|done]. cbn [mbind option_bind] in E. injection E as <- ->.
    destruct (meaning_bound f t m hs1 t1 m1 Hf Hm Ht E1). by apply (IH t1 m1 hs2).
Qed.


(** "custom-key: no-cache" added to the table, used by its index, then a Huffman
    coded ":status: 302" and the table emptied. *)
Definition demo_fields : list field :=
  [Literal Incremental (NewName (Plain (text "custom-key"))) (Plain (text "no-cache")); Indexed 62;
   Literal NotIndexed (NameOf 8) (Coded [0x64; 0x02] (text "302")); SizeUpdate 0].


(** ** The encoder *)
Lemma header_position p t i : position p t = Some i → ∃ e, t !! i = Some e ∧ p e = true.
Proof.
  revert i. induction t as [|e t IH]; intros i; [done|]. cbn. destruct (p e) eqn:E.
  - intros [= <-]. eauto.
  - destruct (position p t) as [j|]; [|done]. intros [= <-]. by apply IH.
Qed.

(** The headers whose encoding the format reads back: a name of the static table
    must stand there before place 15, or with the value. *)
Definition encodable (h : header) : Prop :=
  utf8_valid h.1 = true ∧ utf8_valid h.2 = true
  ∧ match position (exact_match h.1 h.2) HPACK_STATIC, position (name_match h.1) HPACK_STATIC with
    | None, Some i => (i < 14)%nat
    | _, _ => True
    end.

Definition field_of (h : header) : field :=
  match position (exact_match h.1 h.2) HPACK_STATIC with
  | Some i => Indexed (Z.of_nat i + 1)
  | None =>
      match position (name_match h.1) HPACK_STATIC with
      | Some i => Literal NotIndexed (NameOf (Z.of_nat i + 1)) (Plain h.2)
      | None => Literal NotIndexed (NewName (Plain h.1)) (Plain h.2)
      end
  end.

Lemma static_place p i :
  position p HPACK_STATIC = Some i → (i < 61)%nat ∧ ∃ e, p e = true ∧ ∀ t, entry t (Z.of_nat i + 1) = Some e.
Proof.
  intros E. apply header_position in E as (e & E & Hp).
  assert (Hi : (i < 61)%nat) by (by apply lookup_lt_Some in E). split; [done|]. exists e. split; [done|].
  intros t. unfold entry. rewrite (proj2 (Z.eqb_neq _ _)) by lia.
  replace (Z.to_nat (Z.of_nat i + 1 - 1)) with i by lia. by rewrite lookup_app_l by exact Hi.
Qed.

Lemma encode_small q n v : 1 ≤ n ≤ 8 → 0 ≤ v < 2 ^ n - 1 → encode_integer (q * 2 ^ n) n v = [Z.lor (q * 2 ^ n) (wrap 8 v)].
Proof. intros Hn Hv. unfold encode_integer. rewrite Z.shiftl_1_l, (proj2 (Z.ltb_lt _ _)) by lia. done. Qed.

Lemma encode_header_field h t m :
  encodable h →
  hpack_encode_header h.1 h.2 = wire (field_of h) ∧ field_ok (field_of h) ∧ meaning (field_of h) t m = Some ([h], (t, m)).
Proof.
  destruct h as [name value]. intros (Hn & Hv & Hp). unfold hpack_encode_header, field_of. cbn [fst snd] in *.
  destruct (position (exact_match name value) HPACK_STATIC) as [i|] eqn:E1.
  - destruct (static_place _ _ E1) as (Hi & e & He & Hent). unfold exact_match in He.
    apply andb_true_iff in He as [?%bool_decide_eq_true ?%bool_decide_eq_true].
    split; [|split; [split; lia|]].
    + cbn [wire]. change 0x80 with (1 * 2 ^ 7). rewrite encode_small by lia. done.
    + cbn [meaning]. rewrite Hent. destruct e. by simplify_eq/=.
  - destruct (position (name_match name) HPACK_STATIC) as [i|] eqn:E2.
    + destruct (static_place _ _ E2) as (Hi & e & He%bool_decide_eq_true & Hent). split; [|split; [split; [split; lia|split; [lia|done]]|]].
      * cbn [wire name_wire pattern width]. rewrite encode_small by lia. cbn [app string_wire].
        f_equal. rewrite wrap_id by (split; lia). change (0 * 2 ^ 4) with 0. rewrite Z.lor_0_l.
        change 0x0F with (Z.ones 4). rewrite Z.land_ones, Z.mod_small by lia. done.
      * cbn [meaning name_text]. rewrite Hent. cbn. by rewrite He.
    + split; [done|]. split; [done|]. done.
Qed.

(** A header list whose names the encoder can refer to reads back: the
    decoder, in any state, returns exactly the headers that were encoded and leaves
    its table alone. *)
Theorem hpack_roundtrip hs t m :
  Forall encodable hs → 0 ≤ m → total t ≤ m →
  Z.of_nat (length (concat (map (λ h, hpack_encode_header h.1 h.2) hs))) < 2 ^ 64 →
  decode_headers (concat (map (λ h, hpack_encode_header h.1 h.2) hs)) (decoder t m) = (Ok hs, decoder t m).
Proof.
  intros Hhs Hm Ht.
  assert (E : concat (map (λ h, hpack_encode_header h.1 h.2) hs) = concat (map wire (map field_of hs))
    ∧ Forall field_ok (map field_of hs) ∧ block (map field_of hs) t m = Some (hs, (t, m))).
  { clear Hm Ht. induction Hhs as [|h hs Hh _ (IH1 & IH2 & IH3)]; [done|]. cbn [map concat block].
    destruct (encode_header_field h t m Hh) as (-> & ? & ->). rewrite IH1. split; [done|]. split; [by constructor|].
    cbn [mbind option_bind]. by rewrite IH3. }
  destruct E as (-> & Hok & Hb). intros Hl.
  pose proof (decode_loop_block _ (length (concat (map wire (map field_of hs)))) 0 t m Hok ltac:(lia) ltac:(lia)) as H.
  by rewrite Hb in H.
Qed.

Definition demo_request : list header :=
  [(text ":method", text "GET"); (text ":path", text "/a"); (text ":scheme", text "https");
   (text ":authority", text "host"); (text "x-y", text "1")].

Lemma hpack_roundtrip_witness :
  decode_headers (concat (map (λ h, hpack_encode_header h.1 h.2) demo_request)) new_decoder
  = (Ok demo_request, new_decoder).
Proof.
  apply (hpack_roundtrip demo_request [] 4096); [|lia|vm_compute; discriminate|vm_compute; reflexivity].
  repeat constructor; vm_compute; done || lia.
Defined.

(** ** The table under arbitrary input *)
Lemma decode_int_loop_nonneg src v s c r n : 0 ≤ v → decode_int_loop src v s c = Ok (r, n) → 0 ≤ r.
Proof.
  revert v s c. induction src as [|b src IH]; intros v s c Hv E; [done|]. cbn [decode_int_loop] in E.
  assert (0 ≤ wrap 64 (Z.shiftl (Z.land b 127) s)) by (apply wrap_range; lia).
  case_match; [done|]. case_match; [injection E as <- _; lia|]. case_match; [done|].
  eapply IH; [|exact E]. lia.
Qed.

Lemma decode_integer_nonneg src n r k : 0 ≤ n → decode_integer src n = Ok (r, k) → 0 ≤ r.
Proof.
  intros Hn E. destruct src as [|b src]; [done|]. cbn [decode_integer] in E.
  assert (0 ≤ Z.shiftl 1 n - 1) by (rewrite Z.shiftl_1_l; pose proof (Z.pow_pos_nonneg 2 n); lia).
  case_match; [injection E as <- _; apply Z.land_nonneg; lia|]. by eapply decode_int_loop_nonneg.
Qed.

Lemma table_ok_decoder t m : total t ≤ m → table_ok (decoder t m).
Proof. done. Qed.

Lemma add_to_table_ok e d : 0 ≤ max_size d → table_ok d → table_ok (add_to_table e d) ∧ max_size (add_to_table e d) = max_size d.
Proof.
  intros Hm [E _]. rewrite add_to_table_spec by done. split; [|done]. apply table_ok_decoder.
  pose proof (fit_total (max_size d) (e :: dynamic_table d)). lia.
Qed.

Definition table_inv (d : HpackDecoder) : Prop := table_ok d ∧ 0 ≤ max_size d.

Lemma decode_literal_inv ix n pos src d : table_inv d → table_inv (decode_literal ix n pos src d).2.
Proof.
  intros [Hd Hm]. unfold decode_literal, mbind, M_bind, lift. destruct (decode_integer src n) as [[idx n1]|]; [|done].
  assert (E : ∃ r, decode_name (pos + n1) (drop n1 src) idx d = (r, d)).
  { unfold decode_name. case_match; [eauto|]. case_match; eauto. }
  destruct E as [r ->]. destruct r as [[name n2]|]; [|done].
  destruct (decode_string _ _) as [[value n3]|]; [|done]. cbn. destruct ix; [|done].
  destruct (add_to_table_ok (name, value) d Hm Hd) as [? E]. split; [done|]. by rewrite E.
Qed.

Lemma decode_step_inv b pos src d : table_inv d → table_inv (decode_step b pos src d).2.
Proof.
  intros Hd. unfold decode_step. case_match; [|case_match; [by apply decode_literal_inv|case_match; [by apply decode_literal_inv|]]].
  - unfold mbind, M_bind, lift, gets. destruct (decode_integer src 7) as [[idx n]|]; [|done].
    by destruct (lookup_header d idx).
  - case_match; [|done]. unfold mbind, M_bind, lift, modify. destruct (decode_integer src 5) as [[sz n]|] eqn:E; [|done].
    apply decode_integer_nonneg in E; [|lia]. destruct Hd as [[Hs _] _]. rewrite evict_all_spec by done. cbn.
    split; [|done]. apply table_ok_decoder. pose proof (fit_total (sz - 0) (dynamic_table d)). lia.
Qed.

(** Whatever bytes a server sends as header blocks, the size the decoder keeps
    of its dynamic table is exact and within the table's limit, so the size never
    runs below zero and evictions stop. *)
Theorem hpack_table_invariant src d : table_inv d → table_inv (decode_headers src d).2.
Proof.
  unfold decode_headers. generalize 0%nat as pos. generalize (length src) as fuel. intros fuel. revert src d.
  induction fuel as [|fuel IH]; intros src d pos Hd; [done|]. destruct src as [|b src]; [done|].
  cbn [decode_loop]. unfold mbind, M_bind. pose proof (decode_step_inv b pos (b :: src) d Hd) as Hs.
  destruct (decode_step b pos (b :: src) d) as [[[hs n]|e] d']; [|done]. cbn [snd] in Hs.
  specialize (IH (drop n (b :: src)) d' (pos + n)%nat Hs). by destruct (decode_loop fuel _ _ d') as [[]].
Qed.

Lemma hpack_table_invariant_witness : table_inv (decode_headers [0x40; 1; 97; 1; 98; 0x20] new_decoder).2.
Proof. apply (hpack_table_invariant [0x40; 1; 97; 1; 98; 0x20]). split; [|vm_compute; discriminate]. split; vm_compute; [reflexivity|discriminate]. Defined.

(** Every turn of the loop takes a byte or more, so the length of the input is
    always fuel enough. *)
Lemma decode_int_loop_consumed src v s c r n : decode_int_loop src v s c = Ok (r, n) → (c < n)%nat.
Proof.
  revert v s c. induction src as [|b src IH]; intros v s c E; [done|]. cbn [decode_int_loop] in E.
  case_match; [done|]. case_match; [injection E as _ <-; lia|]. case_match; [done|]. apply IH in E. lia.
Qed.

Lemma decode_integer_consumed src n r k : decode_integer src n = Ok (r, k) → (0 < k)%nat.
Proof.
  intros E. destruct src as [|b src]; [done|]. cbn [decode_integer] in E. case_match; [injection E as _ <-; lia|].
  apply decode_int_loop_consumed in E. lia.
Qed.

Lemma decode_step_consumed b pos src d hs n d' : decode_step b pos src d = (Ok (hs, n), d') → (0 < n)%nat.
Proof.
  assert (Hlit : ∀ ix w, decode_literal ix w pos src d = (Ok (hs, n), d') → (0 < n)%nat).
  { intros ix w. unfold decode_literal, mbind, M_bind, lift. destruct (decode_integer src w) as [[idx n1]|] eqn:E; [|done].
    apply decode_integer_consumed in E. destruct (decode_name _ _ _ _) as [[[name n2]|] d1]; [|done].
    destruct (decode_string _ _) as [[value n3]|]; [|done]. cbn. intros [= <- <- <-]. lia. }
  unfold decode_step. case_match; [|case_match; [by apply Hlit|case_match; [by apply Hlit|]]].
  - unfold mbind, M_bind, lift, gets. destruct (decode_integer src 7) as [[idx k]|] eqn:E; [|done].
    apply decode_integer_consumed in E. destruct (lookup_header d idx); [|done]. by intros [= _ <- _].
  - case_match; [|intros [= _ <- _]; lia]. unfold mbind, M_bind, lift, modify.
    destruct (decode_integer src 5) as [[sz k]|] eqn:E; [|done]. apply decode_integer_consumed in E.
    cbn. by intros [= _ <- _].
Qed.

Lemma decode_loop_fuel k pos src d :
  (length src ≤ k)%nat → decode_loop k pos src d = decode_loop (length src) pos src d.
Proof.
  assert (G : ∀ f1 f2 pos src d, (length src ≤ f1)%nat → (length src ≤ f2)%nat →
    decode_loop f1 pos src d = decode_loop f2 pos src d).
  { clear. intros f1. induction f1 as [|f1 IH]; intros f2 pos src d H1 H2.
    - destruct src; [|cbn in H1; lia]. by destruct f2.
    - destruct src as [|b src]; [by destruct f2|]. destruct f2 as [|f2]; [cbn in H2; lia|].
      cbn [decode_loop]. unfold mbind, M_bind.
      destruct (decode_step b pos (b :: src) d) as [[[hs n]|e] d'] eqn:E; [|done]. apply decode_step_consumed in E.
      rewrite (IH f2); [done|rewrite length_drop; cbn in *; lia..]. }
  intros Hk. by apply G.
Qed.

(** ** Findings *)

(** Finding: a static name from place 15 on is encoded with the low four bits of
    its place, so the client's "user-agent" (place 58) goes out as ":status". *)
Lemma user_agent_sent_as_status :
  decode_headers (hpack_encode_header (text "user-agent") (text "SmartOS/0.12 http2")) new_decoder
  = (Ok [(text ":status", text "SmartOS/0.12 http2")], new_decoder).
Proof. vm_compute. reflexivity. Qed.

(** Finding: the five-bit codes of the table are not those of RFC 7541, Appendix B
    (where "a" is 3), codes longer than six bits are missing, and the entries of
    "s" and "t" hide those of " ", "%", "-" and ".": the strings "private" and
    "no-cache" of the RFC's examples (C.4 and C.6) decode to other text. *)
Lemma huffman_examples_wrong :
  huffman_decode [0xae; 0xc3; 0x77; 0x1a; 0x4b] ≠ Some (text "private")
  ∧ huffman_decode [0xa8; 0xeb; 0x10; 0x64; 0x9c; 0xbf] ≠ Some (text "no-cache")
  ∧ ¬ (33 ∈ SYMBOLS) ∧ ¬ (45 ∈ SYMBOLS).
Proof.
  split; [vm_compute; discriminate|]. split; [vm_compute; discriminate|].
  split; apply (bool_decide_eq_false _); vm_compute; reflexivity.
Qed.

(** Finding: a string length near 2^64 overflows the end of the string, so a server
    can stop the kernel with one header block. *)
Lemma huge_string_panics :
  (decode_headers [0x00; 0x7F; 0x80; 0xFF; 0xFF; 0xFF; 0xFF; 0xFF; 0xFF; 0xFF; 0xFF; 0x01] new_decoder).1 = Err Panic.
Proof. vm_compute. reflexivity. Qed.

(** Finding: a size update is obeyed without the default limit of 4096
    octets, so a server can make the table as large as it likes. *)
Lemma size_update_unbounded :
  max_size (decode_headers [0x3F; 0xE1; 0xFF; 0xFF; 0xFF; 0x0F] new_decoder).2 = 4294967296.
Proof. vm_compute. reflexivity. Qed.
