(* ===== verification/Http2.v ===== *)
(** * HTTP/2 connections ([kernel/src/net/http2.rs])

    Frames, the connection preface, requests, the processing of received frames,
    flow control and the reading of responses.  The channel below ([ClientIo] of
    [http_client.rs]) is an interface.  Checked 32-bit arithmetic that overflows
    is [Panic]. *)

From S2P Require Import Prelude Bits Words SmartPack TextBytes Hpack.

Definition FRAME_DATA := 0x0.
Definition FRAME_HEADERS := 0x1.
Definition FRAME_PRIORITY := 0x2.
Definition FRAME_RST_STREAM := 0x3.
Definition FRAME_SETTINGS := 0x4.
Definition FRAME_PUSH_PROMISE := 0x5.
Definition FRAME_PING := 0x6.
Definition FRAME_GOAWAY := 0x7.
Definition FRAME_WINDOW_UPDATE := 0x8.
Definition FRAME_CONTINUATION := 0x9.

Definition FLAG_END_STREAM := 0x01.
Definition FLAG_END_HEADERS := 0x04.
Definition FLAG_PADDED := 0x08.
Definition FLAG_PRIORITY := 0x20.
Definition FLAG_ACK := 0x01.

Definition SETTINGS_HEADER_TABLE_SIZE := 0x1.
Definition SETTINGS_INITIAL_WINDOW_SIZE := 0x4.
Definition SETTINGS_MAX_FRAME_SIZE := 0x5.

Definition ERR_NO_ERROR := 0x0.

Definition CLIENT_PREFACE : list Z :=
  text "PRI * HTTP/2.0" ++ [13; 10; 13; 10] ++ text "SM" ++ [13; 10; 13; 10].

Record Frame := mkFrame { length_ : Z; ftype : Z; flags : Z; stream_id : Z; payload : list Z }.

Definition encode_frame (ftype flags stream_id : Z) (payload : list Z) : list Z :=
  let len := wrap 32 (Z.of_nat (length payload)) in
  [wrap 8 (Z.shiftr len 16); wrap 8 (Z.shiftr len 8); wrap 8 len; ftype; flags;
   wrap 8 (Z.land (Z.shiftr stream_id 24) 0x7F); wrap 8 (Z.shiftr stream_id 16);
   wrap 8 (Z.shiftr stream_id 8); wrap 8 stream_id] ++ payload.

Definition push_setting (id val : Z) : list Z := to_be_bytes 2 id ++ to_be_bytes 4 val.

Definition has_flag (flags bit : Z) : bool := negb (Z.land flags bit =? 0).

Definition strip_padding (payload : list Z) (flags : Z) : list Z :=
  if negb (has_flag flags FLAG_PADDED) then payload
  else
    match payload with
    | [] => []
    | pad_len :: rest =>
        let data_end := saturating_sub (Z.of_nat (length payload)) pad_len in
        if data_end <? 1 then [] else take (Z.to_nat (data_end - 1)) rest
    end.

(** ** Streams and connections *)
Inductive StreamState := Idle | Open | HalfClosedLocal | HalfClosedRemote | Closed.

Record H2Stream := mkStream {
  id : Z;
  state : StreamState;
  response_headers : list header;
  response_body : list Z;
  end_stream : bool;
  s_local_window : Z;
  s_remote_window : Z;
  header_buf : list Z;
  headers_done : bool
}.

Definition new_stream (id initial_window : Z) : H2Stream :=
  mkStream id Idle [] [] false 65535 initial_window [] false.

Definition set_s_state st s := mkStream (id s) st (response_headers s) (response_body s) (end_stream s) (s_local_window s) (s_remote_window s) (header_buf s) (headers_done s).
Definition set_headers hs s := mkStream (id s) (state s) hs (response_body s) (end_stream s) (s_local_window s) (s_remote_window s) (header_buf s) true.
Definition add_body data s := mkStream (id s) (state s) (response_headers s) (response_body s ++ data) (end_stream s) (s_local_window s) (s_remote_window s) (header_buf s) (headers_done s).
Definition end_with st s := mkStream (id s) st (response_headers s) (response_body s) true (s_local_window s) (s_remote_window s) (header_buf s) (headers_done s).
Definition set_s_local w s := mkStream (id s) (state s) (response_headers s) (response_body s) (end_stream s) w (s_remote_window s) (header_buf s) (headers_done s).
Definition set_s_remote w s := mkStream (id s) (state s) (response_headers s) (response_body s) (end_stream s) (s_local_window s) w (header_buf s) (headers_done s).
Definition set_header_buf b s := mkStream (id s) (state s) (response_headers s) (response_body s) (end_stream s) (s_local_window s) (s_remote_window s) b (headers_done s).

(** The channel: [write_all] with its success, and [read_exact]. *)
Class ClientIo (T : Type) := {
  write_all : list Z → T → bool * T;
  read_exact : nat → T → option (list Z) * T;
  input : T → list Z;
  written : T → list Z;
  write_spec b t ok t' : write_all b t = (ok, t') →
    input t' = input t ∧ written t' = if ok then written t ++ b else written t;
  read_some n t : (n ≤ length (input t))%nat →
    ∃ t', read_exact n t = (Some (take n (input t)), t') ∧ input t' = drop n (input t) ∧ written t' = written t;
  read_none n t : (length (input t) < n)%nat →
    ∃ t', read_exact n t = (None, t') ∧ written t' = written t ∧ (length (input t') ≤ length (input t))%nat
}.

Record Http2Connection (T : Type) := mkConn {
  io : T;
  streams : gmap Z H2Stream;
  next_stream_id : Z;
  hpack_decoder : HpackDecoder;
  local_window : Z;
  remote_window : Z;
  peer_max_frame_size : Z;
  peer_header_table : Z;
  peer_initial_window : Z;
  our_initial_window : Z;
  connected : bool
}.
Arguments mkConn {T} _ _ _ _ _ _ _ _ _ _ _.
Arguments io {T} _.
Arguments streams {T} _.
Arguments next_stream_id {T} _.
Arguments hpack_decoder {T} _.
Arguments local_window {T} _.
Arguments remote_window {T} _.
Arguments peer_max_frame_size {T} _.
Arguments peer_header_table {T} _.
Arguments peer_initial_window {T} _.
Arguments our_initial_window {T} _.
Arguments connected {T} _.

Record H2Response := mkResponse { status : Z; headers : gmap (list Z) (list Z); body : list Z }.

Section connection.
Context {T : Type} `{ClientIo T}.
Implicit Types c : Http2Connection T.

Definition new (t : T) : Http2Connection T :=
  mkConn t ∅ 1 new_decoder 65535 65535 16384 4096 65535 65535 false.

Definition set_io (t : T) c := mkConn t (streams c) (next_stream_id c) (hpack_decoder c) (local_window c) (remote_window c) (peer_max_frame_size c) (peer_header_table c) (peer_initial_window c) (our_initial_window c) (connected c).
Definition set_streams (m : gmap Z H2Stream) c := mkConn (io c) m (next_stream_id c) (hpack_decoder c) (local_window c) (remote_window c) (peer_max_frame_size c) (peer_header_table c) (peer_initial_window c) (our_initial_window c) (connected c).
Definition set_next n c := mkConn (io c) (streams c) n (hpack_decoder c) (local_window c) (remote_window c) (peer_max_frame_size c) (peer_header_table c) (peer_initial_window c) (our_initial_window c) (connected c).
Definition set_decoder d c := mkConn (io c) (streams c) (next_stream_id c) d (local_window c) (remote_window c) (peer_max_frame_size c) (peer_header_table c) (peer_initial_window c) (our_initial_window c) (connected c).
Definition set_local w c := mkConn (io c) (streams c) (next_stream_id c) (hpack_decoder c) w (remote_window c) (peer_max_frame_size c) (peer_header_table c) (peer_initial_window c) (our_initial_window c) (connected c).
Definition set_remote w c := mkConn (io c) (streams c) (next_stream_id c) (hpack_decoder c) (local_window c) w (peer_max_frame_size c) (peer_header_table c) (peer_initial_window c) (our_initial_window c) (connected c).
Definition set_peer f h i c := mkConn (io c) (streams c) (next_stream_id c) (hpack_decoder c) (local_window c) (remote_window c) f h i (our_initial_window c) (connected c).
Definition set_connected b c := mkConn (io c) (streams c) (next_stream_id c) (hpack_decoder c) (local_window c) (remote_window c) (peer_max_frame_size c) (peer_header_table c) (peer_initial_window c) (our_initial_window c) b.

Definition with_stream (sid : Z) (f : H2Stream → H2Stream) c : Http2Connection T :=
  set_streams (alter f sid (streams c)) c.

Abbreviation C := (M (Http2Connection T) fault).

(** Checked 32-bit signed arithmetic. *)
Definition i32 (v : Z) : C Z := λ c, if bool_decide (iN 32 v) then (Ok v, c) else (Err Panic, c).

(** ** Frames on the channel *)
Definition send_frame (ftype flags stream_id : Z) (payload : list Z) : C unit := λ c,
  let '(ok, t) := write_all (encode_frame ftype flags stream_id payload) (io c) in
  (if ok then Ok tt else Err (Failed Io), set_io t c).

(** [let _ = ...]: a failure is ignored. *)
Definition ignore (m : C unit) : C unit := λ c, (Ok tt, (m c).2).

Definition recv_exact (n : nat) : C (list Z) := λ c,
  match read_exact n (io c) with
  | (Some b, t) => (Ok b, set_io t c)
  | (None, t) => (Err (Failed Io), set_io t c)
  end.

Definition recv_frame : C Frame :=
  recv_exact 9 ≫= λ header,
  let at_ i := nth i header 0 in
  let length := Z.lor (Z.lor (Z.shiftl (at_ 0%nat) 16) (Z.shiftl (at_ 1%nat) 8)) (at_ 2%nat) in
  let stream_id := from_be_bytes [Z.land (at_ 5%nat) 0x7F; at_ 6%nat; at_ 7%nat; at_ 8%nat] in
  gets peer_max_frame_size ≫= λ limit,
  if limit <? length then throw (Failed (Protocol "frame too large"))
  else
    (if 0 <? length then recv_exact (Z.to_nat length) else mret []) ≫= λ payload,
    mret (mkFrame length (at_ 3%nat) (at_ 4%nat) stream_id payload).

(** ** Settings and windows *)

(** One setting after the other, while six bytes are left. *)
Definition apply_setting (b : list Z) c : Http2Connection T :=
  let id := from_be_bytes (take 2 b) in
  let val := from_be_bytes (take 4 (drop 2 b)) in
  if id =? SETTINGS_HEADER_TABLE_SIZE then set_peer (peer_max_frame_size c) val (peer_initial_window c) c
  else if id =? SETTINGS_INITIAL_WINDOW_SIZE then set_peer (peer_max_frame_size c) (peer_header_table c) val c
  else if id =? SETTINGS_MAX_FRAME_SIZE then set_peer val (peer_header_table c) (peer_initial_window c) c
  else c.

Fixpoint apply_settings_loop (fuel : nat) (payload : list Z) c : Http2Connection T :=
  match fuel with
  | O => c
  | S fuel' =>
      if (6 <=? length payload)%nat then apply_settings_loop fuel' (drop 6 payload) (apply_setting (take 6 payload) c)
      else c
  end.

Definition apply_settings (payload : list Z) : Http2Connection T → Http2Connection T :=
  apply_settings_loop (length payload) payload.

Definition handle_window_update (frame : Frame) : C unit :=
  match payload frame with
  | b0 :: b1 :: b2 :: b3 :: _ =>
      let increment := to_signed 32 (from_be_bytes [Z.land b0 0x7F; b1; b2; b3]) in
      if stream_id frame =? 0 then
        gets remote_window ≫= λ w, i32 (w + increment) ≫= λ w', modify (set_remote w')
      else
        gets (λ c, streams c !! stream_id frame) ≫= λ s,
        match s with
        | Some s => i32 (s_remote_window s + increment) ≫= λ w', modify (with_stream (stream_id frame) (set_s_remote w'))
        | None => mret tt
        end
  | _ => throw (Failed (Protocol "short WINDOW_UPDATE"))
  end.

(** ** Received frames *)

Definition decode_block (sid : Z) (buf : list Z) : C unit := λ c,
  match decode_headers buf (hpack_decoder c) with
  | (Ok hs, d) => (Ok tt, with_stream sid (set_headers hs) (set_decoder d c))
  | (Err e, d) => (Err e, set_decoder d c)
  end.

(** The fragments of a header block are decoded when the last one is there. *)
Definition header_fragment (sid : Z) (fragment : list Z) (end_headers : bool) : C unit :=
  gets (λ c, streams c !! sid) ≫= λ s,
  match s with
  | None => mret tt
  | Some s =>
      let buf := header_buf s ++ fragment in
      if end_headers then
        modify (with_stream sid (set_header_buf [])) ≫= λ _,
        decode_block sid buf
      else modify (with_stream sid (set_header_buf buf))
  end.

Definition process_headers (frame : Frame) : C unit :=
  header_fragment (stream_id frame) (strip_padding (payload frame) (flags frame)) (has_flag (flags frame) FLAG_END_HEADERS)
  ≫= λ _,
  if has_flag (flags frame) FLAG_END_STREAM then modify (with_stream (stream_id frame) (end_with HalfClosedRemote))
  else mret tt.

Definition window_update (sid increment : Z) : C unit :=
  ignore (send_frame FRAME_WINDOW_UPDATE 0 sid (to_be_bytes 4 (wrap 32 increment))).

(** Crediting the connection, then the stream. *)
Definition refill_connection : C unit :=
  gets local_window ≫= λ w,
  if w <? 32768 then
    i32 (65535 - w) ≫= λ increment,
    i32 (w + increment) ≫= λ w', modify (set_local w') ≫= λ _,
    window_update 0 increment
  else mret tt.

Definition refill_stream (sid : Z) : C unit :=
  gets (λ c, streams c !! sid) ≫= λ s,
  match s with
  | None => mret tt
  | Some s =>
      if s_local_window s <? 32768 then
        i32 (65535 - s_local_window s) ≫= λ increment,
        window_update sid increment ≫= λ _,
        i32 (s_local_window s + increment) ≫= λ w', modify (with_stream sid (set_s_local w'))
      else mret tt
  end.

Definition process_data (frame : Frame) : C unit :=
  let data := strip_padding (payload frame) (flags frame) in
  let n := to_signed 32 (wrap 32 (Z.of_nat (length data))) in
  gets (λ c, streams c !! stream_id frame) ≫= λ s,
  match s with
  | None => mret tt
  | Some s =>
      modify (with_stream (stream_id frame) (add_body data)) ≫= λ _,
      i32 (s_local_window s - n) ≫= λ w,
      modify (with_stream (stream_id frame) (set_s_local w)) ≫= λ _,
      if has_flag (flags frame) FLAG_END_STREAM
      then modify (with_stream (stream_id frame) (end_with HalfClosedRemote)) else mret tt
  end ≫= λ _,
  gets local_window ≫= λ w, i32 (w - n) ≫= λ w', modify (set_local w') ≫= λ _,
  refill_connection ≫= λ _,
  refill_stream (stream_id frame).

Definition process_rst (frame : Frame) : C unit :=
  match payload frame with
  | b0 :: b1 :: b2 :: b3 :: _ =>
      let code := from_be_bytes [b0; b1; b2; b3] in
      modify (with_stream (stream_id frame) (end_with Closed)) ≫= λ _,
      if code =? ERR_NO_ERROR then mret tt else throw (Failed (StreamError (stream_id frame) code))
  | _ => mret tt
  end.

Definition process_frame (frame : Frame) : C unit :=
  let t := ftype frame in
  if t =? FRAME_HEADERS then process_headers frame
  else if t =? FRAME_CONTINUATION then
    header_fragment (stream_id frame) (payload frame) (has_flag (flags frame) FLAG_END_HEADERS)
  else if t =? FRAME_DATA then process_data frame
  else if t =? FRAME_RST_STREAM then process_rst frame
  else if t =? FRAME_SETTINGS then
    if negb (has_flag (flags frame) FLAG_ACK) then
      modify (apply_settings (payload frame)) ≫= λ _, ignore (send_frame FRAME_SETTINGS FLAG_ACK 0 [])
    else mret tt
  else if t =? FRAME_PING then
    if negb (has_flag (flags frame) FLAG_ACK) && (length (payload frame) =? 8)%nat then
      ignore (send_frame FRAME_PING FLAG_ACK 0 (payload frame))
    else mret tt
  else if t =? FRAME_GOAWAY then
    throw (Failed (GoAway (if (8 <=? length (payload frame))%nat then from_be_bytes (take 4 (drop 4 (payload frame))) else 0)))
  else if t =? FRAME_WINDOW_UPDATE then handle_window_update frame
  else mret tt.

(** ** Connecting *)

(** Frames are read until the server's settings and its acknowledgement came. *)
Fixpoint connect_loop (fuel : nat) (got_settings got_ack : bool) : C unit :=
  if got_settings && got_ack then mret tt
  else
    match fuel with
    | O => throw OutOfFuel
    | S fuel' =>
        recv_frame ≫= λ frame,
        if ftype frame =? FRAME_SETTINGS then
          if has_flag (flags frame) FLAG_ACK then connect_loop fuel' got_settings true
          else
            modify (apply_settings (payload frame)) ≫= λ _,
            send_frame FRAME_SETTINGS FLAG_ACK 0 [] ≫= λ _,
            connect_loop fuel' true got_ack
        else if ftype frame =? FRAME_WINDOW_UPDATE then
          handle_window_update frame ≫= λ _, connect_loop fuel' got_settings got_ack
        else connect_loop fuel' got_settings got_ack
    end.

Definition send_preface : C unit := λ c,
  let '(ok, t) := write_all CLIENT_PREFACE (io c) in
  (if ok then Ok tt else Err (Failed Io), set_io t c).

(** Every frame takes nine bytes of input or more. *)
Definition input_fuel : C nat := gets (λ c, S (length (input (io c)))).

Definition connect : C unit :=
  send_preface ≫= λ _,
  send_frame FRAME_SETTINGS 0 0
    (push_setting SETTINGS_INITIAL_WINDOW_SIZE 65535 ++ push_setting SETTINGS_MAX_FRAME_SIZE 16384) ≫= λ _,
  input_fuel ≫= λ fuel, connect_loop fuel false false ≫= λ _,
  modify (set_connected true).

(** ** Requests *)
Definition request_headers (method path authority scheme : list Z) (extra_headers : list header)
    (body : option (list Z)) : list header :=
  [(text ":method", method); (text ":path", path); (text ":scheme", scheme); (text ":authority", authority);
   (text "user-agent", text "SmartOS/0.12 http2")]
  ++ extra_headers
  ++ match body with Some b => [(text "content-length", decimal 20 (Z.of_nat (length b)))] | None => [] end.

Definition send_request (method path authority scheme : list Z) (extra_headers : list header)
    (body : option (list Z)) : C Z :=
  gets connected ≫= λ conn,
  if negb conn then throw (Failed ConnClosed)
  else
    gets next_stream_id ≫= λ sid,
    (if 2 ^ 32 <=? sid + 2 then throw Panic else modify (set_next (sid + 2))) ≫= λ _,
    let hpack := concat (map (λ h, hpack_encode_header h.1 h.2)
                           (request_headers method path authority scheme extra_headers body)) in
    let has_body := match body with Some (_ :: _) => true | _ => false end in
    let hs_flags := Z.lor FLAG_END_HEADERS (if has_body then 0 else FLAG_END_STREAM) in
    send_frame FRAME_HEADERS hs_flags sid hpack ≫= λ _,
    gets (λ c, to_signed 32 (peer_initial_window c)) ≫= λ w,
    let stream := set_s_state (if has_body then Open else HalfClosedLocal) (new_stream sid w) in
    modify (λ c, set_streams (<[sid := stream]> (streams c)) c) ≫= λ _,
    match body with
    | Some (b :: data) =>
        send_frame FRAME_DATA FLAG_END_STREAM sid (b :: data) ≫= λ _,
        modify (with_stream sid (set_s_state HalfClosedLocal))
    | _ => mret tt
    end ≫= λ _,
    mret sid.

(** ** Responses *)
Definition response_done c (sid : Z) : bool :=
  match streams c !! sid with Some s => end_stream s && headers_done s | None => false end.

Fixpoint response_loop (fuel : nat) (sid : Z) : C unit :=
  gets (λ c, response_done c sid) ≫= λ fin : bool,
  if fin then mret tt
  else
    match fuel with
    | O => throw OutOfFuel
    | S fuel' => recv_frame ≫= λ frame, process_frame frame ≫= λ _, response_loop fuel' sid
    end.

Definition add_header (r : Z * gmap (list Z) (list Z)) (h : header) : Z * gmap (list Z) (list Z) :=
  if bool_decide (h.1 = text ":status") then (default 0 (parse_u16 h.2), r.2)
  else (r.1, <[to_ascii_lowercase h.1 := h.2]> r.2).

Definition response_of (s : H2Stream) : H2Response :=
  let '(st, hs) := foldl add_header (0, ∅) (response_headers s) in mkResponse st hs (response_body s).

Definition recv_response (sid : Z) : C H2Response :=
  input_fuel ≫= λ fuel, response_loop fuel sid ≫= λ _,
  gets (λ c, streams c !! sid) ≫= λ s,
  match s with
  | Some s => modify (λ c, set_streams (delete sid (streams c)) c) ≫= λ _, mret (response_of s)
  | None => throw (Failed ConnClosed)
  end.

Definition shutdown : C unit :=
  gets next_stream_id ≫= λ n,
  ignore (send_frame FRAME_GOAWAY 0 0 (to_be_bytes 4 (saturating_sub n 2) ++ to_be_bytes 4 ERR_NO_ERROR)).

(** [https_h2_request] from the open channel on. *)
Definition https_h2_request (host method path : list Z) (extra_headers : list header) (body_ : list Z) : C (list Z) :=
  connect ≫= λ _,
  send_request method path host (text "https") extra_headers (match body_ with [] => None | _ => Some body_ end) ≫= λ sid,
  recv_response sid ≫= λ resp,
  shutdown ≫= λ _,
  mret (body resp).
End connection.
