(* ===== verification/Http2Theorems.v ===== *)
(** * HTTP/2 responses

    What a conforming server means by its frames, and that the client reads
    exactly that, whatever the interleaving of streams, the fragments of header
    blocks and the padding. *)

From S2P Require Import Prelude Bits Words SmartPack TextBytes Hpack HpackProofs HpackTheorems Http2.

(** ** Frame headers *)
Lemma land7F v : Z.land v 0x7F = v `mod` 128.
Proof. change 0x7F with (Z.ones 7). by rewrite Z.land_ones by lia. Qed.

Lemma length24 v :
  uN 24 v →
  Z.lor (Z.lor (Z.shiftl (wrap 8 (Z.shiftr v 16)) 16) (Z.shiftl (wrap 8 (Z.shiftr v 8)) 8)) (wrap 8 v) = v.
Proof.
  intros [H0 H1]. rewrite !Z.shiftr_div_pow2, !Z.shiftl_mul_pow2 by lia. unfold wrap.
  change (2 ^ 16) with 65536. change (2 ^ 8) with 256. change (2 ^ 24) with 16777216 in H1.
  rewrite (Z.lor_comm (_ * 65536)). change 65536 with (2 ^ 16) at 2. rewrite lor_disjoint
    by (change (2 ^ 16) with 65536; Z.to_euclidean_division_equations; lia).
  change (2 ^ 16) with (256 * 256). rewrite Z.mul_assoc, <- Z.mul_add_distr_r, Z.lor_comm.
  match goal with |- Z.lor ?c ?y = _ => assert (E : ∃ q, y = q * 2 ^ 8) by (eexists; reflexivity) end.
  destruct E as [q E]. rewrite E, lor_disjoint by (change (2 ^ 8) with 256 in *; Z.to_euclidean_division_equations; lia).
  rewrite <- E. Z.to_euclidean_division_equations. lia.
Qed.

Lemma stream_id31 v :
  uN 31 v →
  from_be_bytes [Z.land (wrap 8 (Z.land (Z.shiftr v 24) 0x7F)) 0x7F; wrap 8 (Z.shiftr v 16); wrap 8 (Z.shiftr v 8); wrap 8 v] = v.
Proof.
  intros [H0 H1]. rewrite !land7F, !Z.shiftr_div_pow2 by lia. unfold wrap, from_be_bytes, reverse, rev_append.
  unfold from_le_bytes.
  change (2 ^ 16) with 65536. change (2 ^ 24) with 16777216. change (2 ^ 8) with 256. change (2 ^ 31) with 2147483648 in H1.
  Z.to_euclidean_division_equations. lia.
Qed.

(** A frame the client accepts under the limit [l]. *)
Record frame_ok (l : Z) (f : Frame) : Prop := {
  fo_len : length_ f = Z.of_nat (length (payload f));
  fo_limit : length_ f ≤ l;
  fo_24 : uN 24 (length_ f);
  fo_id : uN 31 (stream_id f)
}.

Definition frame_wire (f : Frame) : list Z := encode_frame (ftype f) (flags f) (stream_id f) (payload f).

Lemma frame_wire_length f : length (frame_wire f) = (9 + length (payload f))%nat.
Proof. done. Qed.

Section connection.
Context {T : Type} `{ClientIo T}.
Implicit Types c : Http2Connection T.

Definition input_of c : list Z := input (io c).

Lemma recv_exact_ok n c b rest :
  input_of c = b ++ rest → length b = n →
  ∃ t, recv_exact n c = (Ok b, set_io t c) ∧ input t = rest ∧ written t = written (io c).
Proof.
  intros E El. unfold input_of in E.
  destruct (read_some n (io c)) as (t & E1 & E2 & E3); [rewrite E, length_app; lia|].
  rewrite E in E1, E2. subst n. rewrite take_app_length in E1. rewrite drop_app_length in E2.
  exists t. unfold recv_exact. by rewrite E1.
Qed.

Lemma set_io_io t t' c : set_io t (set_io t' c) = set_io t c.
Proof. done. Qed.

(** Reading the wire form of a frame gives the frame back. *)
Lemma recv_frame_ok f c rest :
  frame_ok (peer_max_frame_size c) f → input_of c = frame_wire f ++ rest →
  ∃ t, recv_frame c = (Ok f, set_io t c) ∧ input t = rest ∧ written t = written (io c).
Proof.
  intros [Hlen Hlim H24 Hid] E. unfold recv_frame, mbind, M_bind, gets, mret, M_ret, throw.
  set (hd := take 9 (frame_wire f)).
  assert (Ew : frame_wire f = hd ++ payload f) by done.
  rewrite Ew, <- app_assoc in E. destruct (recv_exact_ok 9 c hd (payload f ++ rest) E eq_refl) as (t & -> & Et & Ewr).
  cbn [peer_max_frame_size set_io]. cbv beta iota zeta.
  replace (nth 3 hd 0) with (ftype f) by done. replace (nth 4 hd 0) with (flags f) by done.
  replace (from_be_bytes _) with (stream_id f) by (symmetry; by apply stream_id31).
  assert (El : Z.lor (Z.lor (Z.shiftl (nth 0 hd 0) 16) (Z.shiftl (nth 1 hd 0) 8)) (nth 2 hd 0) = length_ f).
  { destruct H24. transitivity (wrap 32 (Z.of_nat (length (payload f)))).
    - apply length24. rewrite wrap_id; [split; lia|]. split; lia.
    - rewrite wrap_id; [lia|]. split; lia. }
  rewrite El, (proj2 (Z.ltb_ge _ _)) by lia. destruct (Z.ltb_spec 0 (length_ f)) as [Hp|Hp].
  - destruct (recv_exact_ok (Z.to_nat (length_ f)) (set_io t c) (payload f) rest) as (t' & -> & Et' & Ewr'); [done|lia|].
    exists t'. split; [by destruct f|]. split; [done|]. rewrite Ewr'. done.
  - assert (Ep : payload f = []) by (apply nil_length_inv; lia). exists t. rewrite Ep in Et. split; [|done].
    destruct f. cbn in *. by subst.
Qed.

(** ** Writing leaves the input alone *)
Lemma send_frame_io ty fl sid p c :
  ∃ t r, send_frame ty fl sid p c = (r, set_io t c) ∧ input t = input_of c.
Proof.
  unfold send_frame. destruct (write_all _ (io c)) as [ok t] eqn:E. apply write_spec in E as [E _]. eauto.
Qed.

Lemma ignore_send ty fl sid p c :
  ∃ t, ignore (send_frame ty fl sid p) c = (Ok tt, set_io t c) ∧ input t = input_of c.
Proof. destruct (send_frame_io ty fl sid p c) as (t & r & E & Et). exists t. unfold ignore. by rewrite E. Qed.

Lemma i32_ok v c : iN 32 v → i32 v c = (Ok v, c).
Proof. intros Hv. unfold i32. by rewrite bool_decide_eq_true_2. Qed.

(** ** Flow control *)
Lemma refill_connection_ok c :
  - 2 ^ 30 ≤ local_window c ≤ 65535 →
  ∃ t w, refill_connection c = (Ok tt, set_io t (set_local w c)) ∧ input t = input_of c ∧ 32768 ≤ w ≤ 65535.
Proof.
  intros Hw. unfold refill_connection, mbind, M_bind, gets, modify, window_update.
  destruct (Z.ltb_spec (local_window c) 32768).
  - rewrite i32_ok by (split; lia). rewrite i32_ok by (split; lia).
    destruct (ignore_send FRAME_WINDOW_UPDATE 0 0 (to_be_bytes 4 (wrap 32 (65535 - local_window c)))
                (set_local (local_window c + (65535 - local_window c)) c)) as (t & E & Et).
    rewrite E. exists t, (local_window c + (65535 - local_window c)). split; [done|]. split; [done|lia].
  - exists (io c), (local_window c). split; [by destruct c|]. split; [done|lia].
Qed.

Lemma with_stream_some sid f s c :
  streams c !! sid = Some s → with_stream sid f c = set_streams (<[sid := f s]> (streams c)) c.
Proof.
  intros Hs. unfold with_stream. f_equal. apply map_eq. intros i. destruct (decide (i = sid)) as [->|].
  - by rewrite lookup_alter_eq, lookup_insert_eq, Hs.
  - by rewrite lookup_alter_ne, lookup_insert_ne by done.
Qed.

Lemma refill_stream_ok sid s c :
  streams c !! sid = Some s → - 2 ^ 30 ≤ s_local_window s ≤ 65535 →
  ∃ t w, refill_stream sid c = (Ok tt, set_io t (with_stream sid (set_s_local w) c))
    ∧ input t = input_of c ∧ 32768 ≤ w ≤ 65535.
Proof.
  intros Hs Hw. unfold refill_stream, mbind, M_bind, gets, modify, window_update. rewrite Hs.
  destruct (Z.ltb_spec (s_local_window s) 32768).
  - rewrite i32_ok by (split; lia).
    destruct (ignore_send FRAME_WINDOW_UPDATE 0 sid (to_be_bytes 4 (wrap 32 (65535 - s_local_window s))) c) as (t & E & Et).
    rewrite E, i32_ok by (split; lia). exists t. eexists. split; [done|]. split; [done|lia].
  - exists (io c), (s_local_window s). rewrite (with_stream_some sid _ s c Hs).
    split; [|split; [done|lia]]. unfold mret, M_ret. rewrite insert_id; [by destruct c|]. by destruct s.
Qed.

Lemma refill_stream_none sid c : streams c !! sid = None → refill_stream sid c = (Ok tt, c).
Proof. intros Hs. unfold refill_stream, mbind, M_bind, gets. by rewrite Hs. Qed.
End connection.

(** ** The server's side *)
Inductive event :=
| EHeaders (sid : Z) (pad : option (list Z)) (fs : list field) (first : list Z) (more : list (list Z)) (fin : bool)
| EData (sid : Z) (pad : option (list Z)) (data : list Z) (fin : bool)
| EPing (p : list Z)
| EIgnored (ty fl sid : Z) (p : list Z).

Definition mkf (ty fl sid : Z) (p : list Z) : Frame := mkFrame (Z.of_nat (length p)) ty fl sid p.

Definition padded (pad : option (list Z)) (p : list Z) : list Z :=
  match pad with Some z => Z.of_nat (length z) :: p ++ z | None => p end.

Definition event_flags (pad : option (list Z)) (fin last : bool) : Z :=
  (if fin then FLAG_END_STREAM else 0) + (if last then FLAG_END_HEADERS else 0)
  + match pad with Some _ => FLAG_PADDED | None => 0 end.

Definition is_nil {A} (l : list A) : bool := match l with [] => true | _ => false end.

Fixpoint continuations (sid : Z) (more : list (list Z)) : list Frame :=
  match more with
  | [] => []
  | x :: more' => mkf FRAME_CONTINUATION (event_flags None false (is_nil more')) sid x :: continuations sid more'
  end.

Definition frames_of (ev : event) : list Frame :=
  match ev with
  | EHeaders sid pad _ first more fin =>
      mkf FRAME_HEADERS (event_flags pad fin (is_nil more)) sid (padded pad first) :: continuations sid more
  | EData sid pad data fin => [mkf FRAME_DATA (event_flags pad fin false) sid (padded pad data)]
  | EPing p => [mkf FRAME_PING 0 0 p]
  | EIgnored ty fl sid p => [mkf ty fl sid p]
  end.

(** What the client has to know of a stream, and of the connection. *)
Record astream := mkA { a_headers : option (list header); a_body : list Z; a_ended : bool }.
Record aconn := mkAConn { a_streams : gmap Z astream; a_table : list header; a_limit : Z }.

(** A server sends the header block first, then data, and nothing behind the end
    of the stream. *)
Definition step (ev : event) (a : aconn) : option aconn :=
  match ev with
  | EHeaders sid _ fs _ _ fin =>
      x ← a_streams a !! sid;
      match a_headers x, a_ended x, block fs (a_table a) (a_limit a) with
      | None, false, Some (hs, (t, m)) => Some (mkAConn (<[sid := mkA (Some hs) (a_body x) fin]> (a_streams a)) t m)
      | _, _, _ => None
      end
  | EData sid _ data fin =>
      x ← a_streams a !! sid;
      match a_headers x, a_ended x with
      | Some hs, false => Some (mkAConn (<[sid := mkA (Some hs) (a_body x ++ data) fin]> (a_streams a)) (a_table a) (a_limit a))
      | _, _ => None
      end
  | EPing _ | EIgnored _ _ _ _ => Some a
  end.

Definition a_done (a : aconn) (sid : Z) : bool :=
  match a_streams a !! sid with Some x => a_ended x && bool_decide (is_Some (a_headers x)) | None => false end.

Definition pad_ok (pad : option (list Z)) : Prop := match pad with Some z => (length z < 256)%nat | None => True end.

Definition event_ok (l : Z) (ev : event) : Prop :=
  Forall (frame_ok l) (frames_of ev) ∧
  match ev with
  | EHeaders _ pad fs first more _ =>
      pad_ok pad ∧ Forall field_ok fs ∧ first ++ concat more = concat (map wire fs)
      ∧ Z.of_nat (length (concat (map wire fs))) < 2 ^ 64
  | EData _ pad _ _ => pad_ok pad
  | EPing _ => True
  | EIgnored ty _ _ _ => ty = FRAME_PRIORITY ∨ FRAME_CONTINUATION < ty
  end.

(** ** Flags and padding *)
Lemma flags_spec pad fin last :
  has_flag (event_flags pad fin last) FLAG_END_STREAM = fin
  ∧ has_flag (event_flags pad fin last) FLAG_END_HEADERS = last
  ∧ has_flag (event_flags pad fin last) FLAG_PADDED = match pad with Some _ => true | None => false end.
Proof. by destruct pad, fin, last. Qed.

Lemma strip_padding_padded pad fin last p :
  strip_padding (padded pad p) (event_flags pad fin last) = p.
Proof.
  unfold strip_padding. rewrite (proj2 (proj2 (flags_spec pad fin last))). destruct pad as [z|]; [|done]. cbn [padded negb].
  unfold saturating_sub. cbn [length]. rewrite length_app.
  replace (Z.max _ 0) with (1 + Z.of_nat (length p)) by lia. rewrite (proj2 (Z.ltb_ge _ _)) by lia.
  replace (Z.to_nat _) with (length p) by lia. apply take_app_length.
Qed.

(** ** The client against the server's meaning *)
Section client.
Context {T : Type} `{ClientIo T}.
Implicit Types c : Http2Connection T.

Record stream_rel (s : H2Stream) (x : astream) : Prop := {
  sr_headers : response_headers s = default [] (a_headers x);
  sr_done : headers_done s = bool_decide (is_Some (a_headers x));
  sr_body : response_body s = a_body x;
  sr_ended : end_stream s = a_ended x;
  sr_buf : header_buf s = [];
  sr_window : 32768 ≤ s_local_window s ≤ 65535
}.

Record conn_rel (l : Z) c (a : aconn) : Prop := {
  cr_streams : ∀ sid, option_Forall2 stream_rel (streams c !! sid) (a_streams a !! sid);
  cr_decoder : hpack_decoder c = decoder (a_table a) (a_limit a);
  cr_window : 32768 ≤ local_window c ≤ 65535;
  cr_limit : peer_max_frame_size c = l
}.

Lemma conn_rel_io l c a t : conn_rel l c a → conn_rel l (set_io t c) a.
Proof. by intros []. Qed.

Lemma conn_rel_stream l c a sid x :
  conn_rel l c a → a_streams a !! sid = Some x → ∃ s, streams c !! sid = Some s ∧ stream_rel s x.
Proof.
  intros R Hx. pose proof (cr_streams _ _ _ R sid) as Hs. rewrite Hx in Hs. inversion Hs; subst. eauto.
Qed.

Lemma done_rel l c a sid : conn_rel l c a → response_done c sid = a_done a sid.
Proof.
  intros R. unfold response_done, a_done. pose proof (cr_streams _ _ _ R sid) as Hs.
  inversion Hs as [s x Hsx|]; [|done]. by rewrite (sr_ended _ _ Hsx), (sr_done _ _ Hsx).
Qed.

(** Replacing one stream on both sides. *)
Lemma conn_rel_insert l c a sid s x t m d w :
  conn_rel l c a → stream_rel s x → d = decoder t m → 32768 ≤ w ≤ 65535 →
  conn_rel l (set_streams (<[sid := s]> (streams c)) (set_local w (set_decoder d c)))
    (mkAConn (<[sid := x]> (a_streams a)) t m).
Proof.
  intros [R1 R2 R3 R4] Hsx -> Hw. split; [|done|done|done]. intros i. cbn. destruct (decide (i = sid)) as [->|].
  - rewrite !lookup_insert_eq. by constructor.
  - by rewrite !lookup_insert_ne by done.
Qed.

(** ** Header blocks in fragments *)

(** A stream in the middle of its header block. *)
Definition mid (buf : list Z) (fin : bool) (s : H2Stream) : H2Stream :=
  if fin then end_with HalfClosedRemote (set_header_buf buf s) else set_header_buf buf s.

Definition mid_conn sid buf fin c := with_stream sid (mid buf fin) c.

Lemma mid_conn_lookup sid buf fin s c :
  streams c !! sid = Some s → streams (mid_conn sid buf fin c) !! sid = Some (mid buf fin s).
Proof. intros Hs. unfold mid_conn, with_stream. cbn. by rewrite lookup_alter_eq, Hs. Qed.

Lemma with_stream_twice sid f g c : with_stream sid g (with_stream sid f c) = with_stream sid (g ∘ f) c.
Proof.
  unfold with_stream. cbn. unfold set_streams. cbn. f_equal. apply map_eq. intros i. destruct (decide (i = sid)) as [->|].
  - rewrite !lookup_alter_eq. by destruct (streams c !! sid).
  - by rewrite !lookup_alter_ne by done.
Qed.

Lemma header_fragment_mid sid s frag c :
  streams c !! sid = Some s →
  header_fragment sid frag false c = (Ok tt, with_stream sid (set_header_buf (header_buf s ++ frag)) c).
Proof. intros Hs. unfold header_fragment, mbind, M_bind, gets. by rewrite Hs. Qed.

Lemma header_fragment_last sid s frag hs d c :
  streams c !! sid = Some s → decode_headers (header_buf s ++ frag) (hpack_decoder c) = (Ok hs, d) →
  header_fragment sid frag true c
  = (Ok tt, set_decoder d (with_stream sid (set_headers hs ∘ set_header_buf []) c)).
Proof.
  intros Hs Hd. unfold header_fragment, mbind, M_bind, gets, modify. rewrite Hs. unfold decode_block.
  cbn [hpack_decoder with_stream set_streams]. rewrite Hd. by rewrite <- with_stream_twice.
Qed.

(** ** Reading one event *)

(** What is left of the loop when the frames of an event are read. *)
Lemma response_loop_frame f c rest sid :
  frame_ok (peer_max_frame_size c) f → response_done c sid = false → input_of c = frame_wire f ++ rest →
  ∃ t, input t = rest
    ∧ ∀ k, response_loop (S k) sid c
      = match process_frame f (set_io t c) with (Ok _, c') => response_loop k sid c' | (Err e, c') => (Err e, c') end.
Proof.
  intros Hf Hd Hi. destruct (recv_frame_ok f c rest Hf Hi) as (t & E & Et & _). exists t. split; [done|].
  intros k. cbn [response_loop]. unfold mbind, M_bind, gets. rewrite Hd, E. done.
Qed.

Lemma mid_not_done sid0 buf fin s x c a l sid :
  conn_rel l c a → streams c !! sid0 = Some s → stream_rel s x → a_headers x = None →
  a_done a sid = false → response_done (mid_conn sid0 buf fin c) sid = false.
Proof.
  intros R Hs Hsx Hh Hd. unfold response_done. destruct (decide (sid = sid0)) as [->|Hne].
  - rewrite (mid_conn_lookup sid0 buf fin s c Hs). pose proof (sr_done _ _ Hsx) as Hsd. rewrite Hh in Hsd.
    destruct fin; cbn; rewrite Hsd; [done|apply andb_false_r].
  - unfold mid_conn, with_stream. cbn. rewrite lookup_alter_ne by done. rewrite <- (done_rel l c a sid R) in Hd. exact Hd.
Qed.

Lemma mid_mid sid buf buf' fin c : with_stream sid (set_header_buf buf') (mid_conn sid buf fin c) = mid_conn sid buf' fin c.
Proof.
  unfold mid_conn. rewrite with_stream_twice. unfold with_stream. f_equal. by destruct fin.
Qed.

(** The finished stream. *)
Lemma mid_finish sid0 buf fin s x c a l hs t m :
  conn_rel l c a → streams c !! sid0 = Some s → stream_rel s x → a_headers x = None → a_ended x = false →
  conn_rel l (set_decoder (decoder t m) (with_stream sid0 (set_headers hs ∘ set_header_buf []) (mid_conn sid0 buf fin c)))
    (mkAConn (<[sid0 := mkA (Some hs) (a_body x) fin]> (a_streams a)) t m).
Proof.
  intros R Hs Hsx Hh He. unfold mid_conn. rewrite with_stream_twice, (with_stream_some sid0 _ s c Hs).
  pose proof (conn_rel_insert l c a sid0 (set_headers hs (set_header_buf [] (mid buf fin s))) (mkA (Some hs) (a_body x) fin)
    t m (decoder t m) (local_window c) R) as G. apply G; [|done|apply (cr_window _ _ _ R)].
  destruct Hsx. split; destruct fin; cbn in *; congruence.
Qed.

Lemma process_continuation sid fl p c :
  process_frame (mkf FRAME_CONTINUATION fl sid p) c = header_fragment sid p (has_flag fl FLAG_END_HEADERS) c.
Proof. done. Qed.

Lemma continuation_steps more : ∀ l c a sid0 s x buf fin fs hs t m sid rest,
  more ≠ [] → conn_rel l c a → streams c !! sid0 = Some s → stream_rel s x → a_headers x = None → a_ended x = false →
  Forall field_ok fs → Z.of_nat (length (concat (map wire fs))) < 2 ^ 64 →
  buf ++ concat more = concat (map wire fs) → block fs (a_table a) (a_limit a) = Some (hs, (t, m)) →
  a_done a sid = false → Forall (frame_ok l) (continuations sid0 more) →
  input_of c = concat (map frame_wire (continuations sid0 more)) ++ rest →
  ∃ c', conn_rel l c' (mkAConn (<[sid0 := mkA (Some hs) (a_body x) fin]> (a_streams a)) t m) ∧ input_of c' = rest
    ∧ ∀ k, response_loop (length more + k) sid (mid_conn sid0 buf fin c) = response_loop k sid c'.
Proof.
  induction more as [|p more IH]; intros l c a sid0 s x buf fin fs hs t m sid rest Hne R Hs Hsx Hh He Hfs Hlen Hcat Hb Hd Hok Hin;
    [done|]. cbn [continuations map concat] in *. apply Forall_cons in Hok as [Hf Hok]. rewrite <- app_assoc in Hin.
  assert (Hf' : frame_ok (peer_max_frame_size (mid_conn sid0 buf fin c)) (mkf FRAME_CONTINUATION (event_flags None false (is_nil more)) sid0 p)).
  { cbn. rewrite (cr_limit _ _ _ R). done. }
  assert (Hnd := mid_not_done sid0 buf fin s x c a l sid R Hs Hsx Hh Hd).
  destruct (response_loop_frame _ _ (concat (map frame_wire (continuations sid0 more)) ++ rest) sid Hf' Hnd Hin) as (u & Eu & El).
  set (c1 := set_io u c).
  assert (R1 : conn_rel l c1 a) by (by apply conn_rel_io).
  assert (Hs1 : streams (mid_conn sid0 buf fin c1) !! sid0 = Some (mid buf fin s)) by (by apply mid_conn_lookup).
  change (set_io u (mid_conn sid0 buf fin c)) with (mid_conn sid0 buf fin c1) in El.
  assert (Ebuf : header_buf (mid buf fin s) = buf) by (by destruct fin).
  destruct more as [|p' more'].
  - cbn [concat] in Hcat. rewrite app_nil_r in Hcat.
    assert (Hdec : decode_headers (header_buf (mid buf fin s) ++ p) (hpack_decoder (mid_conn sid0 buf fin c1)) = (Ok hs, decoder t m)).
    { rewrite Ebuf, Hcat. cbn. rewrite (cr_decoder _ _ _ R).
      pose proof (decode_loop_block fs (length (concat (map wire fs))) 0 (a_table a) (a_limit a) Hfs ltac:(lia) ltac:(lia)) as G.
      by rewrite Hb in G. }
    eexists. split; [by apply (mid_finish sid0 buf fin s x c1 a l hs t m)|]. split; [exact Eu|].
    intros k. cbn [length Nat.add]. rewrite El, process_continuation, (proj1 (proj2 (flags_spec _ _ _))).
    cbn [is_nil]. by rewrite (header_fragment_last _ _ _ _ _ _ Hs1 Hdec).
  - destruct (IH l c1 a sid0 s x (buf ++ p) fin fs hs t m sid rest) as (c' & R' & Hin' & Hl'); try done.
    { by rewrite <- app_assoc. }
    exists c'. split; [done|]. split; [done|]. intros k. cbn [length Nat.add] in *. rewrite El, process_continuation.
    rewrite (proj1 (proj2 (flags_spec _ _ _))). cbn [is_nil]. rewrite (header_fragment_mid _ _ _ _ Hs1), Ebuf, mid_mid. apply Hl'.
Qed.

Lemma process_headers_frame sid pad fin last p c :
  process_frame (mkf FRAME_HEADERS (event_flags pad fin last) sid (padded pad p)) c
  = (header_fragment sid p last ≫= λ _ : unit,
     if fin then modify (with_stream sid (end_with HalfClosedRemote)) else mret tt) c.
Proof.
  change (process_frame ?f c) with (process_headers f c). unfold process_headers. cbn [stream_id payload flags mkf].
  by rewrite strip_padding_padded, (proj1 (flags_spec pad fin last)), (proj1 (proj2 (flags_spec pad fin last))).
Qed.

Lemma end_mid sid buf (fin : bool) c :
  (if fin then with_stream sid (end_with HalfClosedRemote) (with_stream sid (set_header_buf buf) c)
   else with_stream sid (set_header_buf buf) c) = mid_conn sid buf fin c.
Proof. destruct fin; [|done]. by rewrite with_stream_twice. Qed.

Lemma event_headers_step l c a sid0 pad fs first more fin a' sid rest :
  conn_rel l c a → event_ok l (EHeaders sid0 pad fs first more fin) →
  step (EHeaders sid0 pad fs first more fin) a = Some a' → a_done a sid = false →
  input_of c = concat (map frame_wire (frames_of (EHeaders sid0 pad fs first more fin))) ++ rest →
  ∃ c', conn_rel l c' a' ∧ input_of c' = rest
    ∧ ∀ k, response_loop (length (frames_of (EHeaders sid0 pad fs first more fin)) + k) sid c = response_loop k sid c'.
Proof.
  intros R (Hok & Hpad & Hfs & Hcat & Hlen) Hst Hd Hin. cbn [step] in Hst. cbn [frames_of map concat] in *.
  destruct (a_streams a !! sid0) as [x|] eqn:Hx; [|done]. cbn [mbind option_bind] in Hst.
  destruct (a_headers x) eqn:Hh; [done|]. destruct (a_ended x) eqn:He; [done|].
  destruct (block fs (a_table a) (a_limit a)) as [[hs [t m]]|] eqn:Hb; [|done]. injection Hst as <-.
  destruct (conn_rel_stream l c a sid0 x R Hx) as (s & Hs & Hsx). apply Forall_cons in Hok as [Hf Hok].
  rewrite <- app_assoc in Hin. rewrite <- (cr_limit _ _ _ R) in Hf.
  destruct (response_loop_frame _ c _ sid Hf ltac:(by rewrite (done_rel l c a)) Hin) as (u & Eu & El).
  set (c1 := set_io u c) in *. assert (R1 : conn_rel l c1 a) by (by apply conn_rel_io).
  assert (Hs1 : streams c1 !! sid0 = Some s) by done.
  destruct more as [|p' more'].
  - cbn [concat] in Hcat. rewrite app_nil_r in Hcat.
    assert (Hdec : decode_headers (header_buf s ++ first) (hpack_decoder c1) = (Ok hs, decoder t m)).
    { rewrite (sr_buf _ _ Hsx), (cr_decoder _ _ _ R1). cbn [app]. rewrite Hcat.
      pose proof (decode_loop_block fs (length (concat (map wire fs))) 0 (a_table a) (a_limit a) Hfs ltac:(lia) ltac:(lia)) as G.
      by rewrite Hb in G. }
    exists (set_decoder (decoder t m) (with_stream sid0 (set_headers hs ∘ set_header_buf []) (mid_conn sid0 [] fin c1))).
    split; [by apply (mid_finish sid0 [] fin s x c1 a l hs t m)|]. split; [exact Eu|].
    intros k. cbn [length Nat.add continuations]. rewrite El, process_headers_frame. unfold mbind, M_bind.
    cbn [is_nil]. rewrite (header_fragment_last _ _ _ _ _ _ Hs1 Hdec). unfold mid_conn. rewrite with_stream_twice.
    destruct fin; [|done]. unfold modify.
    change (with_stream sid0 (end_with HalfClosedRemote) (set_decoder (decoder t m) ?d)) with
      (set_decoder (decoder t m) (with_stream sid0 (end_with HalfClosedRemote) d)). by rewrite with_stream_twice.
  - destruct (continuation_steps (p' :: more') l c1 a sid0 s x first fin fs hs t m sid rest) as (c' & R' & Hin' & Hl'); try done.
    exists c'. split; [done|]. split; [done|]. intros k. cbn [length Nat.add continuations] in *.
    rewrite El, process_headers_frame. unfold mbind, M_bind. cbn [is_nil].
    rewrite (header_fragment_mid _ _ _ _ Hs1), (sr_buf _ _ Hsx). cbn [app].
    rewrite <- (end_mid sid0 first fin c1) in Hl'.
    assert (Ecl : length (continuations sid0 more') = length more').
    { clear. induction more' as [|y ys IH]; [done|]. cbn. by rewrite IH. }
    rewrite Ecl. destruct fin; apply Hl'.
Qed.

(** Data: the body grows, and both windows stay topped up. *)
Lemma process_data_ok l c a sid pad data fin x :
  conn_rel l c a → a_streams a !! sid = Some x → a_ended x = false → Z.of_nat (length data) < 2 ^ 24 →
  ∃ c', process_frame (mkf FRAME_DATA (event_flags pad fin false) sid (padded pad data)) c = (Ok tt, c')
    ∧ conn_rel l c' (mkAConn (<[sid := mkA (a_headers x) (a_body x ++ data) fin]> (a_streams a)) (a_table a) (a_limit a))
    ∧ input_of c' = input_of c.
Proof.
  intros R Hx He Hlen. destruct (conn_rel_stream l c a sid x R Hx) as (s & Hs & Hsx).
  pose proof (sr_window _ _ Hsx) as Hw. pose proof (cr_window _ _ _ R) as Hcw. change (2 ^ 24) with 16777216 in Hlen.
  change (process_frame ?f c) with (process_data f c). unfold process_data. cbn [stream_id payload flags mkf].
  rewrite strip_padding_padded, (proj1 (flags_spec pad fin false)).
  assert (En : to_signed 32 (wrap 32 (Z.of_nat (length data))) = Z.of_nat (length data))
    by (apply to_signed_wrap; [lia|split; lia]).
  rewrite En. unfold mbind, M_bind, gets, modify. rewrite Hs, i32_ok by (split; lia).
  set (s1 := set_s_local (s_local_window s - Z.of_nat (length data)) (add_body data s)).
  set (s2 := if fin then end_with HalfClosedRemote s1 else s1).
  set (c1 := with_stream sid (set_s_local (s_local_window s - Z.of_nat (length data))) (with_stream sid (add_body data) c)).
  match goal with
  | |- context [?g c1] => match g with context [with_stream] => set (finish := g) end
  end.
  assert (Ec1 : finish c1 = (Ok tt, set_streams (<[sid := s2]> (streams c)) c)).
  { unfold finish, c1. rewrite with_stream_twice. destruct fin.
    - rewrite with_stream_twice. by rewrite (with_stream_some sid _ s c Hs).
    - unfold mret, M_ret. by rewrite (with_stream_some sid _ s c Hs). }
  rewrite Ec1. set (c2 := set_streams (<[sid := s2]> (streams c)) c). rewrite i32_ok by (cbn; split; lia).
  destruct (refill_connection_ok (set_local (local_window c2 - Z.of_nat (length data)) c2)) as (t & w & -> & Et & Hw'); [cbn; lia|].
  set (c3 := set_io t _).
  assert (Hs3 : streams c3 !! sid = Some s2) by (cbn; apply lookup_insert_eq).
  assert (Hw2 : s_local_window s2 = s_local_window s - Z.of_nat (length data)) by (unfold s2; by destruct fin).
  destruct (refill_stream_ok sid s2 c3 Hs3) as (t' & w' & -> & Et' & Hw''); [lia|].
  eexists. split; [done|]. split; [|exact (eq_trans Et' Et)].
  rewrite (with_stream_some sid _ s2 c3 Hs3). apply conn_rel_io.
  pose proof (conn_rel_insert l c a sid (set_s_local w' s2) (mkA (a_headers x) (a_body x ++ data) fin) (a_table a) (a_limit a)
    (hpack_decoder c) w R) as G.
  cbn in G |- *. rewrite insert_insert_eq.
  refine (conn_rel_io l _ _ t (G _ _ Hw')); [|by destruct R]. destruct Hsx. unfold s2, s1.
  split; destruct fin; cbn; congruence || done.
Qed.

Lemma event_step l c a ev a' sid rest :
  conn_rel l c a → event_ok l ev → step ev a = Some a' → a_done a sid = false →
  input_of c = concat (map frame_wire (frames_of ev)) ++ rest →
  ∃ c', conn_rel l c' a' ∧ input_of c' = rest
    ∧ ∀ k, response_loop (length (frames_of ev) + k) sid c = response_loop k sid c'.
Proof.
  intros R Hok Hst Hd Hin.
  assert (G : ∀ f, frames_of ev = [f] → frame_ok l f →
    (∀ c1, conn_rel l c1 a → ∃ c', process_frame f c1 = (Ok tt, c') ∧ conn_rel l c' a' ∧ input_of c' = input_of c1) →
    ∃ c', conn_rel l c' a' ∧ input_of c' = rest
      ∧ ∀ k, response_loop (length (frames_of ev) + k) sid c = response_loop k sid c').
  { intros f Ef Hf Hp. rewrite Ef in *. cbn [map concat] in Hin. rewrite app_nil_r in Hin. rewrite <- (cr_limit _ _ _ R) in Hf.
    destruct (response_loop_frame f c rest sid Hf ltac:(by rewrite (done_rel l c a)) Hin) as (u & Eu & El).
    destruct (Hp (set_io u c)) as (c' & Ep & R' & Hi'); [by apply conn_rel_io|].
    exists c'. split; [done|]. split; [rewrite Hi'; exact Eu|]. intros k. cbn [length Nat.add]. by rewrite El, Ep. }
  destruct ev as [sid0 pad fs first more fin|sid0 pad data fin|p|ty fl sid0 p].
  - by eapply event_headers_step.
  - destruct Hok as [Hf Hpad]. cbn [frames_of] in Hf. apply Forall_cons in Hf as [Hf _]. eapply G; [done|exact Hf|].
    intros c1 R1. cbn [step] in Hst. destruct (a_streams a !! sid0) as [x|] eqn:Hx; [|done]. cbn [mbind option_bind] in Hst.
    destruct (a_headers x) as [hs|] eqn:Hh; [|done]. destruct (a_ended x) eqn:He; [done|]. injection Hst as <-.
    rewrite <- Hh. apply process_data_ok; [done..|]. destruct Hf as [Hl _ [_ H24] _]. cbn [mkf length_ payload] in *.
    destruct pad; cbn [padded length] in H24; rewrite ?length_app in H24; lia.
  - destruct Hok as [Hf _]. apply Forall_cons in Hf as [Hf _]. injection Hst as <-. eapply G; [done|exact Hf|].
    intros c1 R1. change (process_frame (mkf FRAME_PING 0 0 p) c1) with
      ((if true && (length p =? 8)%nat then ignore (send_frame FRAME_PING FLAG_ACK 0 p) else mret tt) c1).
    destruct (true && _).
    + destruct (ignore_send FRAME_PING FLAG_ACK 0 p c1) as (t & -> & Et). eexists. split; [done|].
      split; [by apply conn_rel_io|done].
    + by exists c1.
  - destruct Hok as [Hf Hty]. apply Forall_cons in Hf as [Hf _]. injection Hst as <-. eapply G; [done|exact Hf|].
    intros c1 R1. exists c1. split; [|done]. unfold process_frame. cbn [ftype mkf].
    unfold FRAME_PRIORITY, FRAME_CONTINUATION in Hty. unfold FRAME_HEADERS, FRAME_CONTINUATION, FRAME_DATA, FRAME_RST_STREAM,
      FRAME_SETTINGS, FRAME_PING, FRAME_GOAWAY, FRAME_WINDOW_UPDATE.
    rewrite !(proj2 (Z.eqb_neq ty _)) by lia. done.
Qed.

(** A whole history up to the frame that completes the response. *)
Fixpoint history (evs : list event) (a : aconn) (sid : Z) : option aconn :=
  match evs with
  | [] => if a_done a sid then Some a else None
  | ev :: evs' => if a_done a sid then None else a' ← step ev a; history evs' a' sid
  end.

Definition server_wire (evs : list event) : list Z := concat (map (λ ev, concat (map frame_wire (frames_of ev))) evs).

Lemma response_loop_history evs : ∀ l c a a' sid rest k,
  conn_rel l c a → Forall (event_ok l) evs → history evs a sid = Some a' →
  input_of c = server_wire evs ++ rest → (length (server_wire evs) ≤ k)%nat →
  ∃ c', response_loop k sid c = (Ok tt, c') ∧ conn_rel l c' a' ∧ input_of c' = rest.
Proof.
  induction evs as [|ev evs IH]; intros l c a a' sid rest k R Hok Hh Hin Hk; cbn [history] in Hh.
  - destruct (a_done a sid) eqn:Hd; [|done]. injection Hh as <-. exists c. split; [|done].
    rewrite <- (done_rel l c a sid R) in Hd. destruct k; cbn [response_loop]; unfold mbind, M_bind, gets; by rewrite Hd.
  - destruct (a_done a sid) eqn:Hd; [done|]. destruct (step ev a) as [a1|] eqn:Hst; [|done]. cbn [mbind option_bind] in Hh.
    apply Forall_cons in Hok as [Hev Hok]. unfold server_wire in *. cbn [map concat] in *. rewrite <- app_assoc in Hin.
    destruct (event_step l c a ev a1 sid _ R Hev Hst Hd Hin) as (c1 & R1 & Hin1 & El).
    rewrite length_app in Hk.
    assert (Hfr : (length (frames_of ev) ≤ length (concat (map frame_wire (frames_of ev))))%nat).
    { clear. induction (frames_of ev) as [|f fs IHf]; [done|]. cbn [map concat length]. rewrite length_app, frame_wire_length. lia. }
    destruct (IH l c1 a1 a' sid rest (k - length (frames_of ev))%nat R1 Hok Hh Hin1 ltac:(lia)) as (c' & E & R' & Hin').
    exists c'. split; [|done]. rewrite <- E, <- El. f_equal. lia.
Qed.

Definition response_for (x : astream) : H2Response :=
  let '(st, hs) := foldl add_header (0, ∅) (default [] (a_headers x)) in mkResponse st hs (a_body x).

Lemma response_of_rel s x : stream_rel s x → response_of s = response_for x.
Proof. intros []. unfold response_of, response_for. by rewrite sr_headers0, sr_body0. Qed.

Lemma conn_rel_delete l c a sid :
  conn_rel l c a → conn_rel l (set_streams (delete sid (streams c)) c) (mkAConn (delete sid (a_streams a)) (a_table a) (a_limit a)).
Proof.
  intros [R1 R2 R3 R4]. split; [|done..]. intros i. cbn. destruct (decide (i = sid)) as [->|].
  - rewrite !lookup_delete_eq. constructor.
  - by rewrite !lookup_delete_ne by done.
Qed.

Lemma history_done evs a sid a' : history evs a sid = Some a' → ∃ x, a_streams a' !! sid = Some x.
Proof.
  revert a. induction evs as [|ev evs IH]; intros a Hh; cbn [history] in Hh.
  - destruct (a_done a sid) eqn:Hd; [|done]. injection Hh as <-. unfold a_done in Hd.
    destruct (a_streams a !! sid) as [x|] eqn:E; [|done]. by eexists.
  - destruct (a_done a sid); [done|]. destruct (step ev a) as [a1|]; [|done]. by apply (IH a1).
Qed.

(** Reading a response after any history that completes it. *)
Lemma recv_response_ok l c a evs sid a' x rest :
  conn_rel l c a → Forall (event_ok l) evs → history evs a sid = Some a' → a_streams a' !! sid = Some x →
  input_of c = server_wire evs ++ rest →
  ∃ c', recv_response sid c = (Ok (response_for x), c') ∧ input_of c' = rest
    ∧ conn_rel l c' (mkAConn (delete sid (a_streams a')) (a_table a') (a_limit a')).
Proof.
  intros R Hok Hh Hx Hin. unfold recv_response, mbind, M_bind, gets, modify, mret, M_ret. unfold input_fuel, gets.
  destruct (response_loop_history evs l c a a' sid rest (S (length (input (io c)))) R Hok Hh Hin) as (c1 & -> & R1 & Hin1).
  { unfold input_of in Hin. rewrite Hin, length_app. lia. }
  destruct (conn_rel_stream l c1 a' sid x R1 Hx) as (s & Hs & Hsx). rewrite Hs, (response_of_rel s x Hsx).
  eexists. split; [done|]. split; [done|]. by apply conn_rel_delete.
Qed.

(** An HTTP/2 response is read as the server meant it: whatever streams are
    interleaved, however header blocks are cut into HEADERS and CONTINUATION frames
    and whatever is padded, [recv_response] returns the status, the headers and the
    whole body of its stream as soon as it is complete, leaves what follows in the
    channel, keeps the other streams, and never stops on its flow-control windows. *)
Theorem h2_response_delivered l c a evs sid a' rest :
  conn_rel l c a → Forall (event_ok l) evs → history evs a sid = Some a' →
  input_of c = server_wire evs ++ rest →
  ∃ x c', a_streams a' !! sid = Some x ∧ recv_response sid c = (Ok (response_for x), c') ∧ input_of c' = rest
    ∧ conn_rel l c' (mkAConn (delete sid (a_streams a')) (a_table a') (a_limit a')).
Proof.
  intros R Hok Hh Hin. destruct (history_done _ _ _ _ Hh) as [x Hx].
  destruct (recv_response_ok l c a evs sid a' x rest R Hok Hh Hx Hin) as (c' & ? & ? & ?). eauto 10.
Qed.

(** ** A whole exchange *)
Lemma apply_settings_peer p f0 h0 i0 :
  ∃ f h i, ∀ c, apply_settings p (set_peer f0 h0 i0 c) = set_peer f h i c.
Proof.
  unfold apply_settings. generalize (length p) as k. intros k. revert p f0 h0 i0.
  induction k as [|k IH]; intros p f0 h0 i0; cbn [apply_settings_loop]; [by exists f0, h0, i0|].
  case_match; [|by exists f0, h0, i0].
  assert (E : ∃ f h i, ∀ c, apply_setting (take 6 p) (set_peer f0 h0 i0 c) = set_peer f h i c).
  { unfold apply_setting.
    repeat (match goal with |- context [if ?b then _ else _] => destruct b end); do 3 eexists; intros c;
      unfold set_peer; cbn; reflexivity. }
  destruct E as (f & h & i & E). destruct (IH (drop 6 p) f h i) as (f' & h' & i' & E'). exists f', h', i'.
  intros c. by rewrite E, E'.
Qed.
End client.

(** A channel that takes what is written. *)
Class ReliableIo (T : Type) `{ClientIo T} := write_total b t : ∃ t', write_all b t = (true, t').

Section exchange.
Context {T : Type} `{ReliableIo T}.
Implicit Types c : Http2Connection T.

Lemma h2_send_frame_ok ty fl sid p c :
  ∃ t, send_frame ty fl sid p c = (Ok tt, set_io t c) ∧ input t = input_of c
    ∧ written t = written (io c) ++ encode_frame ty fl sid p.
Proof.
  unfold send_frame. destruct (write_total (encode_frame ty fl sid p) (io c)) as [t E]. rewrite E.
  apply write_spec in E as [? ?]. eauto.
Qed.

Definition settings_frame (p : list Z) : Frame := mkf FRAME_SETTINGS 0 0 p.
Definition ack_frame : Frame := mkf FRAME_SETTINGS FLAG_ACK 0 [].

Lemma h2_connect_ok p (t : T) rest :
  frame_ok 16384 (settings_frame p) → 0 ≤ peer_max_frame_size (apply_settings p (new t)) →
  input t = frame_wire (settings_frame p) ++ frame_wire ack_frame ++ rest →
  ∃ t' f h i, connect (new t) = (Ok tt, set_connected true (set_io t' (set_peer f h i (new t)))) ∧ input t' = rest
    ∧ f = peer_max_frame_size (apply_settings p (new t)).
Proof.
  intros Hp Hl Hin. unfold connect, mbind, M_bind, modify, send_preface.
  destruct (write_total CLIENT_PREFACE (io (new t))) as [t1 E1]. rewrite E1. apply write_spec in E1 as [E1 _].
  match goal with |- context [send_frame ?a ?b ?d ?e ?c] => destruct (h2_send_frame_ok a b d e c) as (t2 & -> & E2 & _) end.
  cbn [io new set_io] in *. change (input_of (set_io t1 (new t))) with (input t1) in E2.
  set (c2 := set_io t2 (set_io t1 (new t))). change c2 with (set_io t2 (new t)) in *. clear c2. set (c2 := set_io t2 (new t)).
  destruct (recv_frame_ok (settings_frame p) c2 (frame_wire ack_frame ++ rest)) as (t3 & E3 & E3' & _);
    [done|unfold input_of; cbn; by rewrite E2, E1|].
  assert (Ek : ∃ k, (input_fuel : M (Http2Connection T) fault nat) c2 = (Ok (S (S k)), c2)).
  { exists (pred (length (input t))). unfold input_fuel, gets. change (input (io c2)) with (input t2).
    rewrite E2, E1, Hin, length_app, frame_wire_length. cbn. do 3 f_equal. }
  destruct Ek as [k ->]. cbn [connect_loop andb]. unfold mbind, M_bind. rewrite E3.
  change (ftype (settings_frame p) =? FRAME_SETTINGS) with true. change (has_flag (flags (settings_frame p)) FLAG_ACK) with false.
  cbv iota beta. unfold modify. change (payload (settings_frame p)) with p.
  destruct (apply_settings_peer (T := T) p 16384 4096 65535) as (f & h & i & Ep).
  change (set_io t3 c2) with (set_peer 16384 4096 65535 (set_io t3 (new t))). rewrite Ep.
  match goal with |- context [send_frame ?a ?b ?d ?e ?c] => destruct (h2_send_frame_ok a b d e c) as (t4 & -> & E4 & _) end.
  assert (Ef : f = peer_max_frame_size (apply_settings p (new t))).
  { change (new t) with (set_peer 16384 4096 65535 (new t)). by rewrite Ep. }
  set (c4 := set_io t4 _).
  destruct (recv_frame_ok ack_frame c4 rest) as (t5 & E5 & E5' & _).
  { split; [done|cbn; lia|done|done]. }
  { unfold input_of. cbn. rewrite E4. exact E3'. }
  cbn [connect_loop andb]. unfold mbind, M_bind. rewrite E5.
  change (ftype ack_frame =? FRAME_SETTINGS) with true. change (has_flag (flags ack_frame) FLAG_ACK) with true. cbv iota beta.
  exists t5, f, h, i. split; [|done]. by destruct k.
Qed.

Definition request_wire (method path authority scheme : list Z) (extra : list header) (body_ : option (list Z)) (sid : Z) : list Z :=
  let has_body := match body_ with Some (_ :: _) => true | _ => false end in
  encode_frame FRAME_HEADERS (Z.lor FLAG_END_HEADERS (if has_body then 0 else FLAG_END_STREAM)) sid
    (concat (map (λ h, hpack_encode_header h.1 h.2) (request_headers method path authority scheme extra body_)))
  ++ match body_ with Some (b :: data) => encode_frame FRAME_DATA FLAG_END_STREAM sid (b :: data) | _ => [] end.

(** A request takes the next odd number, is written as one HEADERS frame and one
    DATA frame if it has a body, and registers its stream. *)
Lemma send_request_ok method path authority scheme extra body_ c :
  connected c = true → next_stream_id c + 2 < 2 ^ 32 →
  ∃ t s, send_request method path authority scheme extra body_ c
    = (Ok (next_stream_id c),
       set_io t (set_streams (<[next_stream_id c := s]> (streams c)) (set_next (next_stream_id c + 2) c)))
    ∧ stream_rel s (mkA None [] false) ∧ input t = input_of c
    ∧ written t = written (io c) ++ request_wire method path authority scheme extra body_ (next_stream_id c).
Proof.
  intros Hc Hn. unfold send_request, mbind, M_bind, gets, modify, mret, M_ret, request_wire. rewrite Hc. cbn [negb].
  rewrite (proj2 (Z.leb_gt _ _)) by lia. set (sid := next_stream_id c).
  match goal with |- context [send_frame ?a ?b ?d ?e ?c] => destruct (h2_send_frame_ok a b d e c) as (t1 & -> & E1 & W1) end.
  cbn [streams set_io set_next]. destruct body_ as [[|b data]|].
  - exists t1. eexists. split; [done|]. split; [done|]. split; [done|]. by rewrite app_nil_r.
  - match goal with |- context [send_frame FRAME_DATA ?b ?d ?e ?c] => destruct (h2_send_frame_ok FRAME_DATA b d e c) as (t2 & -> & E2 & W2) end.
    rewrite (with_stream_some sid _ (set_s_state Open (new_stream sid (to_signed 32 (peer_initial_window c)))) _)
      by (cbn; apply lookup_insert_eq).
    exists t2. eexists. split; [cbn; by rewrite insert_insert_eq|]. split; [done|]. split; [rewrite E2; exact E1|].
    rewrite W2. cbn [io set_streams set_io]. rewrite W1, <- app_assoc. done.
  - exists t1. eexists. split; [done|]. split; [done|]. split; [done|]. by rewrite app_nil_r.
Qed.

Definition fresh : aconn := mkAConn {[1 := mkA None [] false]} [] 4096.

End exchange.

(** ** A channel of two queues *)
Record channel := mkChannel { ch_in : list Z; ch_out : list Z }.

#[export] Instance channel_io : ClientIo channel.
Proof.
  refine {| write_all b t := (true, mkChannel (ch_in t) (ch_out t ++ b));
            read_exact n t := if (n <=? length (ch_in t))%nat then (Some (take n (ch_in t)), mkChannel (drop n (ch_in t)) (ch_out t))
                              else (None, t);
            input := ch_in; written := ch_out |}.
  - by intros b t ok t' [= <- <-].
  - intros n t Hn. rewrite (proj2 (Nat.leb_le _ _)) by lia. by eexists.
  - intros n t Hn. rewrite (proj2 (Nat.leb_gt _ _)) by lia. exists t. split; [done|]. split; [done|lia].
Defined.

#[export] Instance channel_reliable : ReliableIo channel.
Proof. intros b t. by eexists. Defined.

(** A response in two header fragments and two padded pieces, with a ping between. *)
Definition demo_block : list field :=
  [Indexed 8; Literal Incremental (NameOf 31) (Plain (text "text/html"))].
Definition demo_events : list event :=
  [EHeaders 1 (Some [0; 0]) demo_block (take 4 (concat (map wire demo_block))) [drop 4 (concat (map wire demo_block))] false;
   EPing [1; 2; 3; 4; 5; 6; 7; 8]; EData 1 None (text "Hello, ") false; EData 1 (Some [0]) (text "world") true].
Definition demo_final : aconn :=
  mkAConn {[1 := mkA (Some [(text ":status", text "200"); (text "content-type", text "text/html")]) (text "Hello, world") true]}
    [(text "content-type", text "text/html")] 4096.

Lemma demo_events_ok : Forall (event_ok 16384) demo_events.
Proof.
  repeat match goal with
  | |- Forall _ _ => constructor
  | |- event_ok _ _ => split; [repeat (constructor; [constructor; vm_compute; repeat split; discriminate || reflexivity|]); constructor|]
  end; try done.
  - split; [vm_compute; lia|]. split; [|split; vm_compute; reflexivity]. repeat constructor; vm_compute; done.
  - vm_compute. lia.
Qed.

Definition demo_channel : channel :=
  mkChannel (frame_wire (settings_frame []) ++ frame_wire ack_frame ++ server_wire demo_events ++ [7]) [].

Lemma demo_history : history demo_events fresh 1 = Some demo_final.
Proof. vm_compute. reflexivity. Qed.


(** Streams 1 and 3 waiting, their frames interleaved. *)
Definition two_streams : Http2Connection channel :=
  set_streams {[1 := new_stream 1 65535; 3 := new_stream 3 65535]}
    (new (mkChannel (server_wire
      [EHeaders 3 None [Indexed 13] [0x8D] [] false; EHeaders 1 None [Indexed 8] [0x88] [] false;
       EData 3 None (text "no") true; EData 1 None (text "ok") true]) [])).

Lemma h2_response_delivered_witness :
  ∃ x c', recv_response 1 two_streams = (Ok (response_for x), c') ∧ a_body x = text "ok" ∧ input_of c' = [].
Proof.
  assert (R : conn_rel 16384 two_streams (mkAConn {[1 := mkA None [] false; 3 := mkA None [] false]} [] 4096)).
  { split; [|reflexivity|vm_compute; split; discriminate|reflexivity]. intros sid. cbn.
    destruct (decide (sid = 1)) as [->|H1]; [|destruct (decide (sid = 3)) as [->|H3]].
    - rewrite !lookup_insert_eq. constructor. constructor; vm_compute; reflexivity || (split; discriminate).
    - rewrite !lookup_insert_ne by done. rewrite !lookup_singleton_eq.
      constructor. constructor; vm_compute; reflexivity || (split; discriminate).
    - rewrite !lookup_insert_ne, !lookup_singleton_ne by done. constructor. }
  destruct (h2_response_delivered 16384 two_streams (mkAConn {[1 := mkA None [] false; 3 := mkA None [] false]} [] 4096)
    [EHeaders 3 None [Indexed 13] [0x8D] [] false; EHeaders 1 None [Indexed 8] [0x88] [] false;
     EData 3 None (text "no") true; EData 1 None (text "ok") true] 1
    (mkAConn {[1 := mkA (Some [(text ":status", text "200")]) (text "ok") true;
               3 := mkA (Some [(text ":status", text "404")]) (text "no") true]} [] 4096) []) as (x & c' & Hx & E & Hin & _).
  - exact R.
  - repeat (constructor; [split; [repeat (constructor; [constructor; vm_compute; repeat split; discriminate || reflexivity|]); constructor|
      try (split; [exact I|split; [repeat constructor; vm_compute; done|split; vm_compute; reflexivity]]); exact I]|]). constructor.
  - vm_compute. reflexivity.
  - reflexivity.
  - exists x, c'. split; [exact E|]. split; [|exact Hin]. vm_compute in Hx. injection Hx as <-. reflexivity.
Defined.

(** ** Findings *)
Definition waiting (fs : list Frame) : Http2Connection channel :=
  set_streams {[1 := new_stream 1 65535]} (new (mkChannel (concat (map frame_wire fs)) [])).

Definition status_of (r : result fault H2Response) : option Z := match r with Ok r => Some (status r) | Err _ => None end.

(** Finding: trailing headers replace the response headers, so the status of a
    response with trailers is lost. *)
Lemma trailers_lose_status :
  status_of (recv_response 1 (waiting [mkf FRAME_HEADERS 4 1 [0x88]; mkf FRAME_DATA 0 1 [1; 2]; mkf FRAME_HEADERS 5 1 [0xA2]])).1 = Some 0
  ∧ status_of (recv_response 1 (waiting [mkf FRAME_HEADERS 4 1 [0x88]; mkf FRAME_DATA 1 1 [1; 2]])).1 = Some 200.
Proof. split; vm_compute; reflexivity. Qed.

(** Finding: the five priority bytes of a HEADERS frame with the PRIORITY flag are
    decoded as headers. *)
Lemma priority_refused :
  (recv_response 1 (waiting [mkf FRAME_HEADERS 0x25 1 [0; 0; 0; 0; 15; 0x88]])).1 = Err (Failed HpackError).
Proof. vm_compute. reflexivity. Qed.

(** Finding: padding counts against the windows of the server but not of the client,
    which never gives it back. *)
Lemma padding_not_credited :
  local_window (process_frame (mkf FRAME_DATA 8 1 (3 :: 7 :: [0; 0; 0])) (waiting [])).2 = 65534.
Proof. vm_compute. reflexivity. Qed.

(** Finding: the header block of a frame for an unknown stream, or of a pushed one,
    is skipped although it may add to the table that later blocks refer to. *)
Lemma skipped_block_loses_entries :
  (recv_response 1 (waiting [mkf FRAME_HEADERS 4 3 [0x40; 1; 97; 1; 98]; mkf FRAME_HEADERS 5 1 [0x88; 0xBE]])).1
  = Err (Failed HpackError).
Proof. vm_compute. reflexivity. Qed.
