(* ===== verification/Http1.v ===== *)
(** * HTTP/1.1 client ([kernel/src/net/http_client.rs])

    URLs, requests, the response parser with its three ways of delimiting a body,
    content decoding, and the two channels it reads from.  The channel is
    an interface ([LineIo]) with an instance for each of the source's. *)

From S2P Require Import Prelude Bits Words SmartPack TextBytes Inflate WebSocket.

(** ** URLs *)
Record Url := mkUrl { scheme : list Z; host : list Z; port : Z; path : list Z; query : list Z }.

Definition default_port (scheme_lc : list Z) : Z := if bool_decide (scheme_lc = text "https") then 443 else 80.

Definition split_authority (authority scheme_lc : list Z) : list Z * Z :=
  match rfind_byte 58 authority with
  | Some cp =>
      match parse_u16 (drop (S cp) authority) with
      | Some p => (take cp authority, p)
      | None => (authority, default_port scheme_lc)
      end
  | None => (authority, default_port scheme_lc)
  end.

Definition parse_url (raw : list Z) : option Url :=
  match find_text (text "://") raw with
  | None => None
  | Some pos =>
      let rest := drop (pos + 3) raw in
      let scheme_lc := to_ascii_lowercase (take pos raw) in
      if bool_decide (scheme_lc ≠ text "http") && bool_decide (scheme_lc ≠ text "https") then None
      else
        let '(authority, path_query) :=
          match find_byte 47 rest with Some p => (take p rest, drop p rest) | None => (rest, [47]) end in
        let '(host, port) := split_authority authority scheme_lc in
        let '(path, query) :=
          match find_byte 63 path_query with
          | Some qp => (take qp path_query, drop (S qp) path_query)
          | None => (path_query, [])
          end in
        Some (mkUrl scheme_lc host port path query)
  end.

Definition request_target (u : Url) : list Z :=
  match query u with [] => path u | q => path u ++ [63] ++ q end.

(** ** Requests *)
Inductive Method := Get | Post | Put | Delete | Head | Options | Patch.

Definition method_str (m : Method) : list Z :=
  text match m with
       | Get => "GET" | Post => "POST" | Put => "PUT" | Delete => "DELETE"
       | Head => "HEAD" | Options => "OPTIONS" | Patch => "PATCH"
       end.

Record HttpRequest := mkReq {
  r_method : Method;
  r_target : list Z;
  r_headers : gmap (list Z) (list Z);
  r_body : list Z
}.

Definition new_request (m : Method) (target : list Z) : HttpRequest := mkReq m target ∅ [].
Definition with_header (r : HttpRequest) (name value : list Z) : HttpRequest :=
  mkReq (r_method r) (r_target r) (<[name := value]> (r_headers r)) (r_body r).
Definition with_body (r : HttpRequest) (data : list Z) : HttpRequest :=
  mkReq (r_method r) (r_target r) (r_headers r) data.

Definition crlf : list Z := [13; 10].

(** The order of a [BTreeMap<String, _>]. *)
Fixpoint bytes_le (a b : list Z) : bool :=
  match a, b with
  | [], _ => true
  | _ :: _, [] => false
  | x :: a', y :: b' => if x =? y then bytes_le a' b' else x <? y
  end.

Definition entry_le (a b : list Z * list Z) : Prop := bytes_le a.1 b.1 = true.
#[export] Instance entry_le_dec : RelDecision entry_le.
Proof. intros a b. unfold entry_le. apply _. Defined.

Definition in_order (m : gmap (list Z) (list Z)) : list (list Z * list Z) := merge_sort entry_le (map_to_list m).

Definition header_line (name value : list Z) : list Z := name ++ text ": " ++ value ++ crlf.

(** A header of the client's own, unless the caller gave one. *)
Definition unless (r : HttpRequest) (name : string) (value : list Z) : list Z :=
  if bool_decide (is_Some (r_headers r !! text name)) then [] else header_line (text name) value.

Definition serialize (r : HttpRequest) (host : list Z) : list Z :=
  method_str (r_method r) ++ [32] ++ r_target r ++ text " HTTP/1.1" ++ crlf
  ++ unless r "Host" host
  ++ match r_body r with [] => [] | b => unless r "Content-Length" (decimal 20 (Z.of_nat (length b))) end
  ++ unless r "Connection" (text "keep-alive")
  ++ unless r "User-Agent" (text "SmartOS/0.17 SmartBrowser")
  ++ unless r "Accept" (text "text/html,application/xhtml+xml,application/xml;q=0.9,image/png,image/jpeg,*/*;q=0.5")
  ++ unless r "Accept-Encoding" (text "identity")
  ++ unless r "Accept-Language" (text "en-US,en;q=0.9")
  ++ concat (map (λ '(n, v), header_line n v) (in_order (r_headers r)))
  ++ crlf ++ r_body r.

Definition get_request (u : Url) : HttpRequest := new_request Get (request_target u).

Definition post_json (u : Url) (json : list Z) : HttpRequest :=
  with_body (with_header (new_request Post (request_target u)) (text "Content-Type") (text "application/json")) json.

(** [http_client.rs] has a base64 encoder of its own, with the code of the
    WebSocket module's. *)
Definition base64_encode (data : list Z) : list Z := concat (map b64_chunk (chunks 3 data)).

Definition with_basic_auth (r : HttpRequest) (user pass : list Z) : HttpRequest :=
  with_header r (text "Authorization") (text "Basic " ++ base64_encode (user ++ [58] ++ pass)).

(** ** Responses *)
Record HttpResponse := mkResp {
  status : Z;
  reason : list Z;
  headers : gmap (list Z) (list Z);
  body : list Z
}.

Definition header (r : HttpResponse) (name : list Z) : option (list Z) := headers r !! to_ascii_lowercase name.
Definition is_success (r : HttpResponse) : bool := (200 <=? status r) && (status r <? 300).

Inductive HttpError :=
| InvalidUrl
| ConnectionFailed
| SendFailed
| RecvFailed
| ParseError (s : string)
| TooManyRedirects
| TlsError.

(** Why a call does not return a value. *)
Inductive trouble :=
| Http (e : HttpError)
| NoFuel.

(** The channel: what it will deliver, in a good state, is [stream].  A line that ends with CR LF and
    has no other LF is read as such, by either channel. *)
Class LineIo (T : Type) := {
  io_write : list Z → T → bool * T;
  io_read : nat → T → list Z * T;
  io_read_line : T → option (list Z) * T;
  io_read_exact : Z → T → option (list Z) * T;
  io_ok : T → Prop;
  stream : T → list Z;
  line_read line rest t :
    io_ok t → Forall (λ b, b ≠ 10) line → stream t = line ++ crlf ++ rest →
    ∃ t', io_read_line t = (Some (from_utf8_lossy (line ++ crlf)), t') ∧ io_ok t' ∧ stream t' = rest;
  line_missing t : io_ok t → Forall (λ b, b ≠ 10) (stream t) → (io_read_line t).1 = None;
  line_none t t' : io_ok t → io_read_line t = (None, t') → io_ok t' ∧ stream t' = stream t;
  line_shorter t l t' :
    io_ok t → io_read_line t = (Some l, t') → io_ok t' ∧ (length (stream t') < length (stream t))%nat;
  exact_read n t :
    io_ok t → 0 ≤ n ≤ Z.of_nat (length (stream t)) →
    ∃ t', io_read_exact n t = (Some (take (Z.to_nat n) (stream t)), t') ∧ io_ok t'
      ∧ stream t' = drop (Z.to_nat n) (stream t);
  exact_missing n t : io_ok t → Z.of_nat (length (stream t)) < n → (io_read_exact n t).1 = None;
  some_read n t b t' :
    io_ok t → (0 < n)%nat → io_read n t = (b, t') →
    io_ok t' ∧ ∃ k, (k ≤ n)%nat ∧ b = take k (stream t) ∧ stream t' = drop k (stream t) ∧ (stream t ≠ [] → (0 < k)%nat)
}.

Section client.
Context {T : Type} `{LineIo T}.

Abbreviation P := (M T trouble).

Definition fail {A} (e : HttpError) : P A := throw (Http e).

Definition read_line : P (list Z) := λ t,
  match io_read_line t with (Some l, t') => (Ok l, t') | (None, t') => (Err (Http RecvFailed), t') end.

Definition read_exact (n : Z) : P (list Z) := λ t,
  match io_read_exact n t with (Some b, t') => (Ok b, t') | (None, t') => (Err (Http RecvFailed), t') end.

(** [line.trim_end_matches('\n').trim_end_matches('\r')]. *)
Definition chomp (line : list Z) : list Z := trim_end_matches 13 (trim_end_matches 10 line).

(** [splitn(3, ' ')]: version, code and reason. *)
Definition parse_status_line (line : list Z) : result HttpError (Z * list Z) :=
  match find_byte 32 line with
  | None => Err (ParseError "no status code")
  | Some i =>
      let rest := drop (S i) line in
      let '(code_str, reason) :=
        match find_byte 32 rest with Some j => (take j rest, drop (S j) rest) | None => (rest, []) end in
      match parse_u16 code_str with
      | Some c => Ok (c, reason)
      | None => Err (ParseError "bad status code")
      end
  end.

Definition parse_header (trimmed : list Z) (hs : gmap (list Z) (list Z)) : gmap (list Z) (list Z) :=
  match find_byte 58 trimmed with
  | Some colon => <[to_ascii_lowercase (trim (take colon trimmed)) := trim (drop (S colon) trimmed)]> hs
  | None => hs
  end.

Fixpoint read_headers (fuel : nat) (hs : gmap (list Z) (list Z)) : P (gmap (list Z) (list Z)) :=
  match fuel with
  | O => throw NoFuel
  | S fuel' =>
      read_line ≫= λ line,
      match chomp line with
      | [] => mret hs
      | trimmed => read_headers fuel' (parse_header trimmed hs)
      end
  end.

(** Chunk after chunk up to the one of size 0. *)
Fixpoint read_chunks (fuel : nat) (body : list Z) : P (list Z) :=
  match fuel with
  | O => throw NoFuel
  | S fuel' =>
      read_line ≫= λ line,
      let hex := trim (hd [] (split_byte 59 (chomp line))) in
      match parse_radix 16 64 hex with
      | None => fail (ParseError "bad chunk size")
      | Some size =>
          if size =? 0 then mret body
          else
            read_exact size ≫= λ chunk,
            (λ t, (Ok tt, (io_read_line t).2)) ≫= λ _ : unit,
            read_chunks fuel' (body ++ chunk)
      end
  end.

(** Trailing headers up to an empty line or the end. *)
Fixpoint skip_trailers (fuel : nat) : P unit :=
  match fuel with
  | O => throw NoFuel
  | S fuel' => λ t,
      let '(l, t') := io_read_line t in
      match trim (default [] l) with [] => (Ok tt, t') | _ => skip_trailers fuel' t' end
  end.

Definition stream_fuel : P nat := gets (λ t, S (length (stream t))).

Definition read_chunked_body : P (list Z) :=
  stream_fuel ≫= λ fuel, read_chunks fuel [] ≫= λ body,
  stream_fuel ≫= λ fuel, skip_trailers fuel ≫= λ _,
  mret body.

(** Until the end of the stream, or 16 MiB. *)
Fixpoint read_to_end (fuel : nat) (body : list Z) : P (list Z) :=
  match fuel with
  | O => throw NoFuel
  | S fuel' => λ t,
      match io_read 4096 t with
      | ([], t') => (Ok body, t')
      | (b, t') =>
          let body := body ++ b in
          if 16 * 1024 * 1024 <? Z.of_nat (length body) then (Ok body, t') else read_to_end fuel' body t'
      end
  end.

Definition is_chunked (hs : gmap (list Z) (list Z)) : bool :=
  match hs !! text "transfer-encoding" with
  | Some v => contains (text "chunked") (to_ascii_lowercase v)
  | None => false
  end.

Definition read_body (hs : gmap (list Z) (list Z)) : P (list Z) :=
  if is_chunked hs then read_chunked_body
  else
    match hs !! text "content-length" with
    | Some cl =>
        match parse_radix 10 64 (trim cl) with
        | Some n => read_exact n
        | None => fail (ParseError "bad content-length")
        end
    | None => stream_fuel ≫= λ fuel, read_to_end fuel []
    end.

(** What the content encoding makes of the body; [None] keeps it. *)
Definition decode_content (enc body : list Z) : option (list Z) :=
  let enc_lc := trim (to_ascii_lowercase enc) in
  let ok r := match r : result stop (list Z) with Ok d => Some d | Err _ => None end in
  if contains (text "gzip") enc_lc || contains (text "x-gzip") enc_lc then ok (inflate_gzip body)
  else if contains (text "deflate") enc_lc then
    match inflate_zlib body with Ok d => Some d | Err _ => ok (inflate body) end
  else None.

Definition finish_response (status : Z) (reason : list Z) (hs : gmap (list Z) (list Z)) (body : list Z) : HttpResponse :=
  match hs !! text "content-encoding" with
  | None => mkResp status reason hs body
  | Some enc =>
      match decode_content enc body with
      | None => mkResp status reason hs body
      | Some d =>
          mkResp status reason
            (<[text "content-length" := decimal 20 (Z.of_nat (length d))]> (delete (text "content-encoding") hs)) d
      end
  end.

Definition parse_response : P HttpResponse :=
  read_line ≫= λ line,
  match parse_status_line (chomp line) with
  | Err e => fail e
  | Ok (status, reason) =>
      stream_fuel ≫= λ fuel, read_headers fuel ∅ ≫= λ hs,
      read_body hs ≫= λ body,
      mret (finish_response status reason hs body)
  end.
End client.

(** ** The channel over received bytes *)
Record SliceIo := mkSlice { data : list Z; pos : nat }.

Definition slice_rest (s : SliceIo) : list Z := drop (pos s) (data s).

Definition slice_read (n : nat) (s : SliceIo) : list Z * SliceIo :=
  let k := min (length (slice_rest s)) n in
  (take k (slice_rest s), mkSlice (data s) (pos s + k)).

Definition slice_read_line (s : SliceIo) : option (list Z) * SliceIo :=
  match find_text crlf (slice_rest s) with
  | Some end_ => (Some (from_utf8_lossy (take (end_ + 2) (slice_rest s))), mkSlice (data s) (pos s + (end_ + 2)))
  | None => (None, s)
  end.

Definition slice_read_exact (n : Z) (s : SliceIo) : option (list Z) * SliceIo :=
  if Z.of_nat (length (slice_rest s)) <? n then (None, s)
  else (Some (take (Z.to_nat n) (slice_rest s)), mkSlice (data s) (pos s + Z.to_nat n)).

(** ** The channel over a TCP connection *)
Record TcpClientIo (C : Type) := mkTcpIo { tc_conn : C; tc_buf : list Z; tc_pos : nat }.
Arguments mkTcpIo {C} _ _ _.
Arguments tc_conn {C} _.
Arguments tc_buf {C} _.
Arguments tc_pos {C} _.

Section tcp_io.
Context {C : Type} `{TcpEndpoint C}.
Implicit Types s : TcpClientIo C.

Definition fill s : bool * TcpClientIo C :=
  match tcp_recv 4096 (tc_conn s) with
  | ([], c) => (false, mkTcpIo c (tc_buf s) (tc_pos s))
  | (b, c) => (true, mkTcpIo c (tc_buf s ++ b) (tc_pos s))
  end.

(** Buffered bytes are dropped when all are used. *)
Definition advance (n : nat) s : TcpClientIo C :=
  if (tc_pos s + n =? length (tc_buf s))%nat then mkTcpIo (tc_conn s) [] 0
  else mkTcpIo (tc_conn s) (tc_buf s) (tc_pos s + n).

Definition tc_rest s : list Z := drop (tc_pos s) (tc_buf s).

Definition tcp_write (b : list Z) s : bool * TcpClientIo C :=
  let '(ok, c) := tcp_send b (tc_conn s) in (ok, mkTcpIo c (tc_buf s) (tc_pos s)).

Definition tcp_read (n : nat) s : list Z * TcpClientIo C :=
  let '(more, s) := match tc_rest s with [] => fill s | _ => (true, s) end in
  if more then
    let k := min (length (tc_rest s)) n in (take k (tc_rest s), advance k s)
  else ([], s).

Fixpoint tcp_line_loop (fuel : nat) s : option (list Z) * TcpClientIo C :=
  match find_byte 10 (tc_rest s) with
  | Some nl => (Some (from_utf8_lossy (take (S nl) (tc_rest s))), advance (S nl) s)
  | None =>
      match fuel with
      | O => (None, s)
      | S fuel' => match fill s with (true, s') => tcp_line_loop fuel' s' | (false, s') => (None, s') end
      end
  end.

Definition tcp_read_line s : option (list Z) * TcpClientIo C := tcp_line_loop (S (length (inbox (tc_conn s)))) s.

Fixpoint tcp_exact_loop (fuel : nat) (n : Z) s : option (list Z) * TcpClientIo C :=
  if Z.of_nat (length (tc_rest s)) <? n then
    match fuel with
    | O => (None, s)
    | S fuel' => match fill s with (true, s') => tcp_exact_loop fuel' n s' | (false, s') => (None, s') end
    end
  else (Some (take (Z.to_nat n) (tc_rest s)), advance (Z.to_nat n) s).

Definition tcp_read_exact (n : Z) s : option (list Z) * TcpClientIo C :=
  tcp_exact_loop (S (length (inbox (tc_conn s)))) n s.
End tcp_io.
