(* ===== verification/Http1Theorems.v ===== *)
(** * HTTP/1.1 responses

    A response as a server sends it is read as it was meant, over either channel,
    and a response cut short is refused. *)

From S2P Require Import Prelude Bits Words SmartPack Inflate InflateProofs.
From S2P Require Import InflateSafety InflateTheorems TextBytes WebSocket WebSocketTheorems Http1.

(** ** Received bytes as a channel *)
Lemma find_crlf line rest : Forall (λ b, b ≠ 10) line → find_text crlf (line ++ crlf ++ rest) = Some (length line).
Proof.
  induction 1 as [|b line Hb Hl IH]; [done|]. cbn [app find_text]. destruct (starts_with crlf (b :: line ++ crlf ++ rest)) eqn:E.
  - apply starts_with_spec in E as [r E]. destruct line as [|b' line]; cbn in E; [|by apply Forall_cons in Hl as [? _]; simplify_eq].
    injection E as _ E _. done.
  - by rewrite IH.
Qed.

Lemma find_text_bound p s i : find_text p s = Some i → (i + length p ≤ length s)%nat.
Proof.
  revert i. induction s as [|b s IH]; intros i; cbn [find_text].
  - destruct (starts_with p []) eqn:E; [|done]. apply starts_with_spec in E as [r E]. intros [= <-].
    symmetry in E. apply app_eq_nil in E as [-> _]. done.
  - destruct (starts_with p (b :: s)) eqn:E.
    + apply starts_with_spec in E as [r E]. intros [= <-]. apply (f_equal length) in E. rewrite length_app in E. lia.
    + destruct (find_text p s) as [j|]; [|done]. intros [= <-]. specialize (IH j eq_refl). cbn. lia.
Qed.

Lemma find_crlf_none s : Forall (λ b, b ≠ 10) s → find_text crlf s = None.
Proof.
  induction 1 as [|b s Hb Hs IH]; [done|]. cbn [find_text]. destruct (starts_with crlf (b :: s)) eqn:E; [|by rewrite IH].
  apply starts_with_spec in E as [r E]. destruct s as [|b' s]; [done|]. apply Forall_cons in Hs as [? _]. by simplify_eq/=.
Qed.

Lemma slice_advance s k : (k ≤ length (slice_rest s))%nat → slice_rest (mkSlice (data s) (pos s + k)) = drop k (slice_rest s).
Proof. intros _. unfold slice_rest. cbn. by rewrite drop_drop. Qed.

Lemma take_line line rest : take (length line + 2) (line ++ crlf ++ rest) = line ++ crlf.
Proof.
  rewrite app_assoc. replace (length line + 2)%nat with (length (line ++ crlf)) by (rewrite length_app; done).
  apply take_app_length.
Qed.

Lemma drop_line line rest : drop (length line + 2) (line ++ crlf ++ rest) = rest.
Proof. by rewrite <- drop_drop, drop_app_length. Qed.

#[export] Instance slice_io : LineIo SliceIo.
Proof.
  refine {| io_write _ s := (true, s); io_read := slice_read; io_read_line := slice_read_line;
            io_read_exact := slice_read_exact; io_ok _ := True; stream := slice_rest |}.
  - intros line rest s _ Hl E. unfold slice_read_line. rewrite E, find_crlf, take_line by done.
    eexists. split; [done|]. split; [done|]. rewrite slice_advance, E; [apply drop_line|]. rewrite E, !length_app. cbn. lia.
  - intros s _ Hs. unfold slice_read_line. by rewrite find_crlf_none.
  - intros s s' _. unfold slice_read_line. destruct (find_text crlf (slice_rest s)); [done|]. by intros [= <-].
  - intros s l s' _. unfold slice_read_line. destruct (find_text crlf (slice_rest s)) as [i|] eqn:E; [|done].
    apply find_text_bound in E. cbn in E. intros [= _ <-]. rewrite slice_advance by lia. rewrite length_drop. split; [done|lia].
  - intros n s _ Hn. unfold slice_read_exact. rewrite (proj2 (Z.ltb_ge _ _)) by lia. eexists. split; [done|]. split; [done|].
    apply slice_advance. lia.
  - intros n s _ Hn. unfold slice_read_exact. by rewrite (proj2 (Z.ltb_lt _ _)) by lia.
  - intros n s b s' _ Hn [= <- <-]. split; [done|]. exists (min (length (slice_rest s)) n). split; [lia|]. split; [done|].
    split; [apply slice_advance; lia|]. intros Hne. destruct (slice_rest s); [done|cbn [length]; lia].
Defined.

(** ** A TCP connection as a channel *)
Section tcp_io.
Context {C : Type} `{TcpEndpoint C}.
Implicit Types s : TcpClientIo C.

(** Buffered bytes, then those that have arrived. *)
Definition tc_stream s : list Z := tc_rest s ++ inbox (tc_conn s).

Definition tc_ok s : Prop := (tc_pos s ≤ length (tc_buf s))%nat.

Lemma fill_spec s :
  tc_ok s →
  match fill s with
  | (true, s') => tc_ok s' ∧ tc_stream s' = tc_stream s ∧ (length (inbox (tc_conn s')) < length (inbox (tc_conn s)))%nat
      ∧ ∃ b, tc_rest s' = tc_rest s ++ b ∧ b ≠ []
  | (false, s') => tc_ok s' ∧ tc_stream s' = tc_stream s ∧ inbox (tc_conn s) = [] ∧ tc_rest s' = tc_rest s
  end.
Proof.
  intros Hp. unfold tc_ok in *. unfold fill. destruct (tcp_recv 4096 (tc_conn s)) as [b c] eqn:E. apply recv_spec in E as (Eb & Ei & _).
  destruct b as [|x b].
  - assert (E0 : inbox (tc_conn s) = []).
    { destruct (inbox (tc_conn s)); [done|]. done. }
    rewrite E0 in Ei. cbn in Ei. unfold tc_stream, tc_rest, tc_ok. cbn. by rewrite Ei, E0.
  - assert (Er : tc_rest (mkTcpIo c (tc_buf s ++ x :: b) (tc_pos s)) = tc_rest s ++ x :: b)
      by (unfold tc_rest; cbn; by rewrite drop_app_le by lia).
    split; [unfold tc_ok; cbn; rewrite length_app; lia|]. split; [|split; [|by exists (x :: b)]].
    + unfold tc_stream. rewrite Er. cbn [tc_conn]. rewrite <- app_assoc. f_equal. rewrite Eb, Ei. apply take_drop.
    + cbn [tc_conn]. rewrite Ei, length_drop. destruct (inbox (tc_conn s)); [done|cbn [length]; lia].
Qed.

Lemma advance_rest n s : (n ≤ length (tc_rest s))%nat → tc_rest (advance n s) = drop n (tc_rest s).
Proof.
  unfold advance, tc_rest. rewrite length_drop. intros Hn. destruct (Nat.eqb_spec (tc_pos s + n) (length (tc_buf s))) as [E|E]; cbn.
  - rewrite drop_drop, drop_ge by lia. done.
  - by rewrite drop_drop.
Qed.

Lemma advance_conn n s : tc_conn (advance n s) = tc_conn s.
Proof. unfold advance. by case_match. Qed.

Lemma tc_advance_ok n s : tc_ok s → (n ≤ length (tc_rest s))%nat → tc_ok (advance n s).
Proof. unfold tc_ok, advance, tc_rest. rewrite length_drop. intros. case_match; cbn; lia. Qed.

Lemma advance_stream n s : (n ≤ length (tc_rest s))%nat → tc_stream (advance n s) = drop n (tc_stream s).
Proof. intros Hn. unfold tc_stream. rewrite advance_rest, advance_conn, drop_app_le by done. done. Qed.

Lemma find_byte_bound c l i : find_byte c l = Some i → (i < length l)%nat ∧ l !! i = Some c ∧ Forall (λ b, b ≠ c) (take i l).
Proof.
  revert i. induction l as [|b l IH]; intros i; [done|]. cbn [find_byte]. destruct (Z.eqb_spec b c) as [->|Hb].
  - intros [= <-]. cbn. split; [lia|]. split; [done|constructor].
  - destruct (find_byte c l) as [j|]; [|done]. intros [= <-]. destruct (IH j eq_refl) as (? & ? & ?).
    cbn. split; [lia|]. split; [done|by constructor].
Qed.

Lemma find_byte_prefix c l m i : find_byte c l = Some i → find_byte c (l ++ m) = Some i.
Proof.
  revert i. induction l as [|b l IH]; intros i; [done|]. cbn [find_byte app]. destruct (b =? c); [done|].
  destruct (find_byte c l) as [j|]; [|done]. intros [= <-]. by rewrite (IH j).
Qed.

(** The line loop finds the first LF of the stream, if there is one. *)
Lemma tcp_line_spec fuel s :
  tc_ok s → (length (inbox (tc_conn s)) < fuel)%nat →
  match find_byte 10 (tc_stream s) with
  | Some i => ∃ s', tcp_line_loop fuel s = (Some (from_utf8_lossy (take (S i) (tc_stream s))), s')
      ∧ tc_ok s' ∧ tc_stream s' = drop (S i) (tc_stream s)
  | None => ∃ s', tcp_line_loop fuel s = (None, s') ∧ tc_ok s' ∧ tc_stream s' = tc_stream s
  end.
Proof.
  revert s. induction fuel as [|fuel IH]; intros s Hs Hf; [lia|]. cbn [tcp_line_loop].
  destruct (find_byte 10 (tc_rest s)) as [nl|] eqn:E.
  - assert (E' : find_byte 10 (tc_stream s) = Some nl) by (by apply find_byte_prefix). rewrite E'.
    apply find_byte_bound in E as (Hn & _ & _). exists (advance (S nl) s). split; [|split; [apply tc_advance_ok; [done|lia]|apply advance_stream; lia]].
    unfold tc_stream. rewrite take_app_le by lia. done.
  - pose proof (fill_spec s Hs) as Hfill. destruct (fill s) as [[] s'].
    + destruct Hfill as (Hs' & Est & Hlen & _). specialize (IH s' Hs' ltac:(lia)). by rewrite Est in IH.
    + destruct Hfill as (Hs' & Est & E0 & _).
      assert (En : find_byte 10 (tc_stream s) = None) by (unfold tc_stream; by rewrite E0, app_nil_r). rewrite En. by exists s'.
Qed.

Lemma tcp_exact_spec fuel n s :
  tc_ok s → 0 ≤ n → (length (inbox (tc_conn s)) < fuel)%nat →
  if Z.of_nat (length (tc_stream s)) <? n then (tcp_exact_loop fuel n s).1 = None
  else ∃ s', tcp_exact_loop fuel n s = (Some (take (Z.to_nat n) (tc_stream s)), s')
    ∧ tc_ok s' ∧ tc_stream s' = drop (Z.to_nat n) (tc_stream s).
Proof.
  intros Hs Hn. revert s Hs. induction fuel as [|fuel IH]; intros s Hs Hf; [lia|]. cbn [tcp_exact_loop].
  destruct (Z.ltb_spec (Z.of_nat (length (tc_rest s))) n) as [Hl|Hl].
  - pose proof (fill_spec s Hs) as Hfill. destruct (fill s) as [[] s'].
    + destruct Hfill as (Hs' & Est & Hlen & _). specialize (IH s' Hs' ltac:(lia)). by rewrite Est in IH.
    + destruct Hfill as (_ & _ & E0 & _). unfold tc_stream. rewrite E0, app_nil_r, (proj2 (Z.ltb_lt _ _)) by lia. done.
  - rewrite (proj2 (Z.ltb_ge _ _)) by (unfold tc_stream; rewrite length_app; lia).
    exists (advance (Z.to_nat n) s). split; [|split; [apply tc_advance_ok; [done|lia]|apply advance_stream; lia]].
    unfold tc_stream. by rewrite take_app_le by lia.
Qed.

#[export] Instance tcp_io : LineIo (TcpClientIo C).
Proof.
  refine {| io_write := tcp_write; io_read := tcp_read; io_read_line := tcp_read_line;
            io_read_exact := tcp_read_exact; io_ok := tc_ok; stream := tc_stream |}.
  - intros line rest s Hs Hl E. pose proof (tcp_line_spec (S (length (inbox (tc_conn s)))) s Hs ltac:(lia)) as G.
    assert (E' : find_byte 10 (tc_stream s) = Some (length line + 1)%nat).
    { rewrite E. change (line ++ crlf ++ rest) with (line ++ [13] ++ 10 :: rest). rewrite app_assoc, find_byte_app, length_app; [done|].
      apply Forall_app. split; [done|]. by repeat constructor. }
    rewrite E' in G. destruct G as (s' & E1 & Hs' & E2). exists s'. unfold tcp_read_line. rewrite E1, E2, E.
    replace (S (length line + 1)) with (length line + 2)%nat by lia. by rewrite take_line, drop_line.
  - intros s Hs Hn. pose proof (tcp_line_spec (S (length (inbox (tc_conn s)))) s Hs ltac:(lia)) as G.
    rewrite (find_byte_none 10) in G by done. destruct G as (s' & E & _). unfold tcp_read_line. by rewrite E.
  - intros s s' Hs E. pose proof (tcp_line_spec (S (length (inbox (tc_conn s)))) s Hs ltac:(lia)) as G.
    unfold tcp_read_line in E. rewrite E in G. destruct (find_byte 10 (tc_stream s)); [by destruct G as (? & [=] & _)|].
    by destruct G as (s1 & [= <-] & ?).
  - intros s l s' Hs E. pose proof (tcp_line_spec (S (length (inbox (tc_conn s)))) s Hs ltac:(lia)) as G.
    unfold tcp_read_line in E. destruct (find_byte 10 (tc_stream s)) as [i|] eqn:Ei; [|rewrite E in G; by destruct G as (? & [=] & _)].
    destruct G as (s1 & E1 & Hs1 & E2). rewrite E1 in E. injection E as _ <-. split; [done|].
    apply find_byte_bound in Ei as (Hi & _). rewrite E2, length_drop. lia.
  - intros n s Hs Hn. pose proof (tcp_exact_spec (S (length (inbox (tc_conn s)))) n s Hs ltac:(lia) ltac:(lia)) as G.
    by rewrite (proj2 (Z.ltb_ge _ _)) in G by lia.
  - intros n s Hs Hn. pose proof (tcp_exact_spec (S (length (inbox (tc_conn s)))) n s Hs ltac:(lia) ltac:(lia)) as G.
    by rewrite (proj2 (Z.ltb_lt _ _)) in G by lia.
  - intros n s b s' Hs Hn. unfold tcp_read.
    assert (G : ∀ s1, tc_ok s1 → tc_stream s1 = tc_stream s → tc_rest s1 ≠ [] →
      (take (min (length (tc_rest s1)) n) (tc_rest s1), advance (min (length (tc_rest s1)) n) s1) = (b, s') →
      tc_ok s' ∧ ∃ k, (k ≤ n)%nat ∧ b = take k (tc_stream s) ∧ tc_stream s' = drop k (tc_stream s) ∧ (tc_stream s ≠ [] → (0 < k)%nat)).
    { intros s1 Hs1 E Hne [= <- <-]. split; [apply tc_advance_ok; [done|lia]|]. exists (min (length (tc_rest s1)) n). split; [lia|].
      rewrite advance_stream, <- E by lia. unfold tc_stream. rewrite take_app_le by lia. split; [done|]. split; [done|].
      intros _. destruct (tc_rest s1); [done|cbn [length]; lia]. }
    destruct (tc_rest s) as [|x r] eqn:Er.
    + pose proof (fill_spec s Hs) as Hfill. destruct (fill s) as [[] s1].
      * destruct Hfill as (Hs1 & Est & _ & b' & Er' & Hb'). rewrite Er in Er'. cbn in Er'. apply G; [done|done|]. by rewrite Er'.
      * destruct Hfill as (Hs1 & Est & E0 & Er'). intros [= <- <-]. split; [done|]. exists 0%nat. split; [lia|]. split; [done|].
        split; [done|]. unfold tc_stream. by rewrite Er, E0.
    + apply (G s); [done|done|by rewrite Er].
Defined.
End tcp_io.

(** ** The server's side *)
Definition line_ok (l : list Z) : Prop := Forall (λ b, b ≠ 10 ∧ b ≠ 13) l ∧ utf8_valid l = true.

(** A chunk with the spelling of its size and its extensions. *)
Record chunk := mkChunk { c_size : list Z; c_ext : list Z; c_data : list Z }.

Inductive framing :=
| Sized (body : list Z)
| Chunked (cs : list chunk) (last_size last_ext : list Z) (trailers : list (list Z))
| UntilClose (body : list Z).

Record reply := mkReply {
  version : list Z;
  code_text : list Z;
  code : Z;
  reason_text : list Z;
  fields : list (list Z * list Z);
  frame : framing
}.

Definition size_line (size ext : list Z) : list Z := size ++ ext.
Definition field_line (f : list Z * list Z) : list Z := f.1 ++ [58] ++ f.2.
Definition status_text (r : reply) : list Z := version r ++ [32] ++ code_text r ++ [32] ++ reason_text r.

Definition chunk_wire (c : chunk) : list Z := size_line (c_size c) (c_ext c) ++ crlf ++ c_data c ++ crlf.
Definition lines_wire (ls : list (list Z)) : list Z := concat (map (λ l, l ++ crlf) ls).

Definition body_wire (f : framing) : list Z :=
  match f with
  | Sized b | UntilClose b => b
  | Chunked cs s e ts => concat (map chunk_wire cs) ++ size_line s e ++ crlf ++ lines_wire ts ++ crlf
  end.

Definition head_wire (r : reply) : list Z := status_text r ++ crlf ++ lines_wire (map field_line (fields r)) ++ crlf.
Definition reply_wire (r : reply) : list Z := head_wire r ++ body_wire (frame r).

(** What the response means. *)
Definition field_map (fs : list (list Z * list Z)) : gmap (list Z) (list Z) :=
  foldl (λ m f, <[to_ascii_lowercase (trim f.1) := trim f.2]> m) ∅ fs.

Definition content (f : framing) : list Z :=
  match f with Sized b | UntilClose b => b | Chunked cs _ _ _ => concat (map c_data cs) end.

Definition size_ok (size ext : list Z) (n : Z) : Prop :=
  line_ok (size_line size ext) ∧ Forall (λ b, b ≠ 59) size ∧ (ext = [] ∨ hd 0 ext = 59)
  ∧ parse_radix 16 64 (trim size) = Some n.

Definition chunk_ok (c : chunk) : Prop := size_ok (c_size c) (c_ext c) (Z.of_nat (length (c_data c))) ∧ c_data c ≠ [].

(** The headers say how the body is delimited. *)
Definition frame_ok (f : framing) (hs : gmap (list Z) (list Z)) : Prop :=
  match f with
  | Sized b => is_chunked hs = false
      ∧ ∃ cl, hs !! text "content-length" = Some cl ∧ parse_radix 10 64 (trim cl) = Some (Z.of_nat (length b))
  | Chunked cs s e ts => is_chunked hs = true ∧ Forall chunk_ok cs ∧ size_ok s e 0
      ∧ Forall (λ l, line_ok l ∧ trim (l ++ crlf) ≠ []) ts
  | UntilClose b => is_chunked hs = false ∧ hs !! text "content-length" = None ∧ Z.of_nat (length b) ≤ 16 * 1024 * 1024
  end.

Record reply_ok (r : reply) : Prop := {
  ro_status : line_ok (status_text r);
  ro_version : Forall (λ b, b ≠ 32) (version r);
  ro_code : Forall (λ b, b ≠ 32) (code_text r) ∧ parse_u16 (code_text r) = Some (code r);
  ro_fields : Forall (λ f, line_ok (field_line f) ∧ Forall (λ b, b ≠ 58) f.1) (fields r);
  ro_frame : frame_ok (frame r) (field_map (fields r))
}.

(** ** Lines *)
Lemma utf8_valid_app a b : utf8_valid a = true → utf8_valid b = true → utf8_valid (a ++ b) = true.
Proof.
  remember (length a) as k eqn:Ek. revert a Ek. induction (lt_wf k) as [k _ IH]. intros a -> Ha Hb.
  destruct a as [|b0 r0]; [done|]. cbn [app utf8_valid] in *.
  assert (IH' : ∀ r, (length r < length (b0 :: r0))%nat → utf8_valid r = true → utf8_valid (r ++ b) = true).
  { intros r Hr Hv. by apply (IH (length r) Hr). }
  destruct (b0 <? 0x80); [apply IH'; [cbn; lia|done]|].
  destruct (in_range 0xC2 0xDF b0).
  { destruct r0 as [|b1 r1]; [done|]. cbn [app]. apply andb_true_iff in Ha as [-> Ha]. apply IH'; [cbn; lia|done]. }
  destruct (in_range 0xE0 0xEF b0).
  { destruct r0 as [|b1 [|b2 r2]]; [done..|]. cbn [app]. rewrite !andb_true_iff in Ha. destruct Ha as [[-> ->] Ha].
    apply IH'; [cbn; lia|done]. }
  destruct (in_range 0xF0 0xF4 b0); [|done].
  destruct r0 as [|b1 [|b2 [|b3 r3]]]; [done..|]. cbn [app]. rewrite !andb_true_iff in Ha. destruct Ha as [[[-> ->] ->] Ha].
  apply IH'; [cbn; lia|done].
Qed.

Lemma line_lossy l : line_ok l → from_utf8_lossy (l ++ crlf) = l ++ crlf.
Proof. intros [_ Hv]. apply from_utf8_lossy_valid, utf8_valid_app; done. Qed.

Lemma line_no_lf l : line_ok l → Forall (λ b, b ≠ 10) l.
Proof. intros [Hl _]. eapply Forall_impl; [exact Hl|]. by intros b []. Qed.

Lemma drop_leading_id c l : hd_error l ≠ Some c → drop_leading c l = l.
Proof. destruct l as [|b l]; [done|]. cbn. intros Hb. rewrite (proj2 (Z.eqb_neq _ _)); [done|]. by intros ->. Qed.

Lemma chomp_line l : line_ok l → chomp (l ++ crlf) = l.
Proof.
  intros [Hl _]. unfold chomp, trim_end_matches. rewrite (reverse_app l crlf). change (reverse crlf) with [10; 13].
  cbn [app]. change (drop_leading 10 (10 :: 13 :: reverse l)) with (drop_leading 10 (13 :: reverse l)).
  change (drop_leading 10 (13 :: reverse l)) with (13 :: reverse l). rewrite reverse_involutive.
  change (drop_leading 13 (13 :: reverse l)) with (drop_leading 13 (reverse l)).
  rewrite drop_leading_id; [apply reverse_involutive|]. intros E.
  destruct (reverse l) as [|b r] eqn:Er; [done|]. cbn in E. injection E as ->.
  assert (Hin : 13 ∈ l) by (apply elem_of_reverse; rewrite Er; constructor).
  rewrite Forall_forall in Hl. by destruct (Hl 13 Hin).
Qed.

Section client.
Context {T : Type} `{LineIo T}.
Implicit Types t : T.

Lemma read_line_ok l rest t :
  io_ok t → line_ok l → stream t = l ++ crlf ++ rest →
  ∃ t', read_line t = (Ok (l ++ crlf), t') ∧ io_ok t' ∧ stream t' = rest.
Proof.
  intros Ht Hl E. destruct (line_read l rest t Ht (line_no_lf l Hl) E) as (t' & E' & ? & ?). exists t'.
  unfold read_line. rewrite E', line_lossy by done. done.
Qed.

Lemma parse_header_line f hs :
  Forall (λ b, b ≠ 58) f.1 →
  parse_header (field_line f) hs = <[to_ascii_lowercase (trim f.1) := trim f.2]> hs.
Proof.
  intros Hf. unfold parse_header, field_line. cbn [app]. rewrite find_byte_app by done.
  rewrite take_app_length, drop_app_ge by lia. by replace (S (length f.1) - length f.1)%nat with 1%nat by lia.
Qed.

Lemma read_headers_ok fs : ∀ hs fuel t rest,
  io_ok t → Forall (λ f, line_ok (field_line f) ∧ Forall (λ b, b ≠ 58) f.1) fs →
  stream t = lines_wire (map field_line fs) ++ crlf ++ rest → (length fs < fuel)%nat →
  ∃ t', read_headers fuel hs t = (Ok (foldl (λ m f, <[to_ascii_lowercase (trim f.1) := trim f.2]> m) hs fs), t')
    ∧ io_ok t' ∧ stream t' = rest.
Proof.
  induction fs as [|f fs IH]; intros hs fuel t rest Ht Hfs E Hf; (destruct fuel as [|fuel]; [cbn in Hf; lia|]);
    cbn [read_headers]; unfold mbind, M_bind.
  - destruct (read_line_ok [] rest t Ht) as (t' & -> & ? & ?); [by split|done|]. exists t'. by rewrite (chomp_line []).
  - apply Forall_cons in Hfs as [[Hl Hc] Hfs]. unfold lines_wire in E. cbn [map concat] in E. rewrite <- !app_assoc in E.
    destruct (read_line_ok _ _ t Ht Hl E) as (t1 & -> & Ht1 & E1). rewrite chomp_line by done.
    destruct (field_line f) as [|b l] eqn:Efl; [by destruct f as [[] ?]|]. rewrite <- Efl, parse_header_line by done.
    cbn [foldl]. apply IH; [done..|cbn in Hf; lia].
Qed.

Lemma lines_wire_length ls : (length ls ≤ length (lines_wire ls))%nat.
Proof. unfold lines_wire. induction ls as [|l ls IH]; [done|]. cbn. rewrite !length_app. cbn. lia. Qed.

Lemma size_text_line s e n : size_ok s e n → trim (hd [] (split_byte 59 (size_line s e))) = trim s.
Proof.
  intros (_ & Hs & He & _). unfold size_line. destruct e as [|b e].
  - by rewrite app_nil_r, split_byte_none.
  - destruct He as [He|He]; [done|]. cbn in He. subst b. by rewrite split_byte_app.
Qed.

Lemma chunk_wire_app c r :
  chunk_wire c ++ r = size_line (c_size c) (c_ext c) ++ crlf ++ c_data c ++ crlf ++ r.
Proof. unfold chunk_wire. by rewrite <- !app_assoc. Qed.

Lemma read_chunks_ok cs : ∀ body fuel t s e rest,
  io_ok t → Forall chunk_ok cs → size_ok s e 0 →
  stream t = concat (map chunk_wire cs) ++ size_line s e ++ crlf ++ rest → (length cs < fuel)%nat →
  ∃ t', read_chunks fuel body t = (Ok (body ++ concat (map c_data cs)), t') ∧ io_ok t' ∧ stream t' = rest.
Proof.
  induction cs as [|c cs IH]; intros body fuel t s e rest Ht Hcs Hse E Hf; (destruct fuel as [|fuel]; [cbn in Hf; lia|]);
    cbn [read_chunks]; unfold mbind, M_bind.
  - cbn [map concat app] in *. destruct (read_line_ok _ _ t Ht (proj1 Hse) E) as (t' & -> & Ht' & E').
    rewrite chomp_line, (size_text_line s e 0 Hse), (proj2 (proj2 (proj2 Hse))) by apply Hse. cbn.
    exists t'. by rewrite app_nil_r.
  - apply Forall_cons in Hcs as [[Hc Hne] Hcs]. cbn [map concat] in *.
    rewrite <- app_assoc, chunk_wire_app in E. destruct (read_line_ok _ _ t Ht (proj1 Hc) E) as (t1 & -> & Ht1 & E1).
    rewrite chomp_line, (size_text_line _ _ _ Hc), (proj2 (proj2 (proj2 Hc))) by apply Hc.
    assert (Hpos : (0 < length (c_data c))%nat) by (destruct (c_data c); [done|cbn; lia]).
    rewrite (proj2 (Z.eqb_neq _ _)) by lia. unfold read_exact.
    destruct (exact_read (Z.of_nat (length (c_data c))) t1 Ht1) as (t2 & -> & Ht2 & E2); [rewrite E1, length_app; lia|].
    rewrite Nat2Z.id, E1, take_app_length. rewrite Nat2Z.id, E1, drop_app_length in E2.
    destruct (line_read [] _ t2 Ht2 ltac:(constructor) E2) as (t3 & -> & Ht3 & E3). cbn [snd].
    destruct (IH (body ++ c_data c) fuel t3 s e rest Ht3 Hcs Hse E3 ltac:(cbn in Hf; lia)) as (t' & -> & ? & ?).
    exists t'. by rewrite app_assoc.
Qed.

Lemma skip_trailers_ok ts : ∀ fuel t rest,
  io_ok t → Forall (λ l, line_ok l ∧ trim (l ++ crlf) ≠ []) ts →
  stream t = lines_wire ts ++ crlf ++ rest → (length ts < fuel)%nat →
  ∃ t', skip_trailers fuel t = (Ok tt, t') ∧ io_ok t' ∧ stream t' = rest.
Proof.
  induction ts as [|l ts IH]; intros fuel t rest Ht Hts E Hf; (destruct fuel as [|fuel]; [cbn in Hf; lia|]); cbn [skip_trailers].
  - destruct (line_read [] rest t Ht ltac:(constructor) E) as (t' & -> & ? & ?). exists t'. done.
  - apply Forall_cons in Hts as [[Hl Hne] Hts]. unfold lines_wire in E. cbn [map concat] in E. rewrite <- !app_assoc in E.
    destruct (line_read _ _ t Ht (line_no_lf l Hl) E) as (t1 & -> & Ht1 & E1). rewrite line_lossy by done.
    change (default [] (Some (l ++ crlf))) with (l ++ crlf). destruct (trim (l ++ crlf)) eqn:Et; [done|]. apply IH; [done..|cbn in Hf; lia].
Qed.

Lemma read_to_end_ok : ∀ fuel body t,
  io_ok t → Z.of_nat (length body + length (stream t)) ≤ 16 * 1024 * 1024 → (length (stream t) < fuel)%nat →
  ∃ t', read_to_end fuel body t = (Ok (body ++ stream t), t') ∧ io_ok t' ∧ stream t' = [].
Proof.
  induction fuel as [|fuel IH]; intros body t Ht Hl Hf; [lia|]. cbn [read_to_end].
  destruct (io_read 4096 t) as [b t'] eqn:E. apply some_read in E as (Ht' & k & Hk & Eb & Es & Hp); [|done|lia].
  destruct b as [|x b].
  - assert (E0 : stream t = []).
    { destruct (stream t) eqn:Est; [done|]. specialize (Hp ltac:(done)). destruct k; [lia|done]. }
    exists t'. rewrite E0, app_nil_r. split; [done|]. split; [done|]. by rewrite Es, E0, drop_nil.
  - assert (Hlen : length (stream t) = (length (x :: b) + length (stream t'))%nat).
    { rewrite Es, Eb, length_take, length_drop. destruct (le_lt_dec k (length (stream t))); lia. }
    rewrite (proj2 (Z.ltb_ge _ _)) by (rewrite length_app; lia).
    destruct (IH (body ++ x :: b) t' Ht') as (t2 & E2 & Ht2 & Es2); [rewrite length_app; lia|cbn [length] in Hlen; lia|].
    exists t2. split; [|done]. rewrite E2, <- app_assoc. f_equal. f_equal. f_equal. rewrite Es, Eb. apply take_drop.
Qed.

(** Where the framing itself ends the body, more may follow. *)
Definition delimited (f : framing) (rest : list Z) : Prop := match f with UntilClose _ => rest = [] | _ => True end.

Lemma read_body_ok f hs t rest :
  io_ok t → frame_ok f hs → delimited f rest → stream t = body_wire f ++ rest →
  ∃ t', read_body hs t = (Ok (content f), t') ∧ io_ok t' ∧ stream t' = rest.
Proof.
  intros Ht Hf Hd E. unfold read_body. destruct f as [b|cs s e ts|b]; cbn [body_wire content] in *.
  - destruct Hf as (-> & cl & -> & ->). unfold read_exact.
    destruct (exact_read (Z.of_nat (length b)) t Ht) as (t' & -> & ? & E'); [rewrite E, length_app; lia|].
    exists t'. rewrite Nat2Z.id, E in *. by rewrite take_app_length, drop_app_length in *.
  - destruct Hf as (-> & Hcs & Hse & Hts). unfold read_chunked_body, stream_fuel, mbind, M_bind, gets, mret, M_ret.
    rewrite <- (app_assoc (concat _)) in E. rewrite <- (app_assoc (size_line s e)) in E.
    change ((crlf ++ lines_wire ts ++ crlf) ++ rest) with (crlf ++ (lines_wire ts ++ crlf) ++ rest) in E.
    rewrite <- (app_assoc (lines_wire ts)) in E. destruct (read_chunks_ok cs [] (S (length (stream t))) t s e (lines_wire ts ++ crlf ++ rest) Ht Hcs Hse E) as (t1 & -> & Ht1 & E1).
    { rewrite E, length_app. assert (length cs ≤ length (concat (map chunk_wire cs)))%nat; [|lia].
      clear. induction cs as [|c cs IH]; [done|]. cbn [map concat length]. rewrite length_app.
      assert (2 ≤ length (chunk_wire c))%nat; [|lia]. unfold chunk_wire. rewrite !length_app. cbn. lia. }
    destruct (skip_trailers_ok ts (S (length (stream t1))) t1 rest Ht1 Hts E1) as (t2 & -> & Ht2 & E2).
    { rewrite E1, length_app. pose proof (lines_wire_length ts). lia. }
    by exists t2.
  - destruct Hf as (-> & -> & Hl). cbn in Hd. subst rest. rewrite app_nil_r in E. unfold stream_fuel, mbind, M_bind, gets.
    rewrite <- E. apply (read_to_end_ok _ []); [done|cbn; rewrite E; lia|lia].
Qed.

Lemma status_line_ok r : reply_ok r → parse_status_line (status_text r) = Ok (code r, reason_text r).
Proof.
  intros [_ Hv [Hc Hp] _ _]. unfold parse_status_line, status_text. cbn [app].
  assert (G : ∀ (a b : list Z) x, drop (S (length a)) (a ++ x :: b) = b).
  { intros a b x. rewrite drop_app_ge by lia. by replace (S (length a) - length a)%nat with 1%nat by lia. }
  rewrite find_byte_app, G by done. rewrite find_byte_app, G, take_app_length, Hp by done. done.
Qed.

Lemma parse_reply r t rest :
  io_ok t → reply_ok r → delimited (frame r) rest → stream t = reply_wire r ++ rest →
  ∃ t', parse_response t = (Ok (finish_response (code r) (reason_text r) (field_map (fields r)) (content (frame r))), t')
    ∧ io_ok t' ∧ stream t' = rest.
Proof.
  intros Ht Hr Hd E. unfold reply_wire, head_wire in E. rewrite <- !app_assoc in E.
  unfold parse_response, mbind, M_bind.
  destruct (read_line_ok _ _ t Ht (ro_status r Hr) E) as (t1 & -> & Ht1 & E1).
  rewrite chomp_line, status_line_ok by (done || apply Hr). unfold stream_fuel, gets.
  destruct (read_headers_ok (fields r) ∅ (S (length (stream t1))) t1 _ Ht1 (ro_fields r Hr) E1) as (t2 & -> & Ht2 & E2).
  { rewrite E1, length_app. pose proof (lines_wire_length (map field_line (fields r))) as Hl. rewrite length_map in Hl. lia. }
  fold (field_map (fields r)).
  destruct (read_body_ok (frame r) (field_map (fields r)) t2 rest Ht2 (ro_frame r Hr) Hd E2) as (t' & -> & ? & ?).
  by exists t'.
Qed.


(** ** Arbitrary bytes *)

(** A step that returns, with a value or an error of the parser, and whose channel
    has no more to deliver than before. *)
Definition settles {A} (x : result trouble A * T) (t : T) : Prop :=
  match x with
  | (Ok _, t') => io_ok t' ∧ (length (stream t') ≤ length (stream t))%nat
  | (Err (Http e), _) => e ≠ TooManyRedirects
  | (Err NoFuel, _) => False
  end.

Lemma settles_le {A} (x : result trouble A * T) t t1 :
  settles x t1 → (length (stream t1) ≤ length (stream t))%nat → settles x t.
Proof. destruct x as [[a|[]] t']; cbn; [intros []; split; [done|lia]|done..]. Qed.

Lemma read_line_settles t l t' : io_ok t → read_line t = (Ok l, t') → io_ok t' ∧ (length (stream t') < length (stream t))%nat.
Proof. intros Ht. unfold read_line. destruct (io_read_line t) as [[]] eqn:E; [|done]. intros [= <- <-]. by eapply line_shorter. Qed.

Lemma read_line_fails t t' e : read_line t = (Err e, t') → e = Http RecvFailed.
Proof. unfold read_line. destruct (io_read_line t) as [[]]; [done|]. by intros [= <- _]. Qed.

Lemma read_exact_settles n t : io_ok t → 0 ≤ n → settles (read_exact n t) t.
Proof.
  intros Ht Hn. unfold read_exact. destruct (Z.le_gt_cases n (Z.of_nat (length (stream t)))) as [Hl|Hl].
  - destruct (exact_read n t Ht ltac:(lia)) as (t' & -> & Ht' & Es). cbn. rewrite Es, length_drop. split; [done|lia].
  - pose proof (exact_missing n t Ht ltac:(lia)) as Hm. by destruct (io_read_exact n t) as [[] t'].
Qed.

Lemma read_headers_settles fuel : ∀ hs t, io_ok t → (length (stream t) < fuel)%nat → settles (read_headers fuel hs t) t.
Proof.
  induction fuel as [|fuel IH]; intros hs t Ht Hf; [lia|]. cbn [read_headers]. unfold mbind, M_bind.
  destruct (read_line t) as [[l|e] t1] eqn:E; [|by apply read_line_fails in E as ->].
  apply read_line_settles in E as [Ht1 Hl]; [|done]. destruct (chomp l); [cbn; split; [done|lia]|].
  eapply settles_le; [apply IH; [done|lia]|lia].
Qed.

Lemma parse_radix_nonneg r w s v : 0 < r → parse_radix r w s = Some v → 0 ≤ v.
Proof.
  intros Hr. unfold parse_radix. set (ds := match s with 43 :: r => r | _ => s end). destruct ds as [|d ds]; [done|].
  destruct (forallb _ _) eqn:Ef; [|done]. case_match; [|done]. intros [= <-].
  enough (G : ∀ l a, 0 ≤ a → 0 ≤ foldl (λ a c, a * r + digit_value c) a l) by (apply (G (d :: ds) 0); lia).
  induction l as [|x l IH]; intros a Ha; cbn; [done|]. apply IH. assert (0 ≤ digit_value x); [|nia].
  unfold digit_value. repeat case_match; lia.
Qed.

Lemma read_chunks_settles fuel : ∀ body t, io_ok t → (length (stream t) < fuel)%nat → settles (read_chunks fuel body t) t.
Proof.
  induction fuel as [|fuel IH]; intros body t Ht Hf; [lia|]. cbn [read_chunks]. unfold mbind, M_bind.
  destruct (read_line t) as [[l|e] t1] eqn:E; [|by apply read_line_fails in E as ->].
  apply read_line_settles in E as [Ht1 Hl]; [|done].
  destruct (parse_radix 16 64 _) as [size|] eqn:Es; [|done]. destruct (size =? 0); [cbn; split; [done|lia]|].
  pose proof (read_exact_settles size t1 Ht1 (parse_radix_nonneg 16 64 _ _ ltac:(lia) Es)) as Hx.
  destruct (read_exact size t1) as [[ch|[]] t2]; [|done..]. destruct Hx as [Ht2 Hl2].
  destruct (io_read_line t2) as [[x|] t3] eqn:E3; cbn [snd].
  - apply line_shorter in E3 as [Ht3 Hl3]; [|done]. eapply settles_le; [apply IH; [done|lia]|lia].
  - apply line_none in E3 as [Ht3 Hl3]; [|done]. eapply settles_le; [apply IH; [done|rewrite Hl3; lia]|rewrite Hl3; lia].
Qed.

Lemma skip_trailers_settles fuel : ∀ t, io_ok t → (length (stream t) < fuel)%nat → settles (skip_trailers fuel t) t.
Proof.
  induction fuel as [|fuel IH]; intros t Ht Hf; [lia|]. cbn [skip_trailers]. destruct (io_read_line t) as [[l|] t1] eqn:E.
  - apply line_shorter in E as [Ht1 Hl]; [|done]. change (default [] (Some l)) with l.
    destruct (trim l); [cbn; split; [done|lia]|]. eapply settles_le; [apply IH; [done|lia]|lia].
  - apply line_none in E as [Ht1 Hl]; [|done]. cbn. split; [done|]. by rewrite Hl.
Qed.

Lemma read_to_end_settles fuel : ∀ body t, io_ok t → (length (stream t) < fuel)%nat → settles (read_to_end fuel body t) t.
Proof.
  induction fuel as [|fuel IH]; intros body t Ht Hf; [lia|]. cbn [read_to_end].
  destruct (io_read 4096 t) as [b t'] eqn:E. apply some_read in E as (Ht' & k & Hk & Eb & Es & Hp); [|done|lia].
  assert (Hlen : (length (stream t') ≤ length (stream t))%nat) by (rewrite Es, length_drop; lia).
  destruct b as [|x b]; [by split|]. assert (Hlt : (length (stream t') < length (stream t))%nat).
  { rewrite Es, length_drop. destruct (stream t); [by rewrite take_nil in Eb|]. specialize (Hp ltac:(done)). cbn [length]. lia. }
  case_match; [by split|]. eapply settles_le; [apply IH; [done|lia]|done].
Qed.

Lemma read_body_settles hs t : io_ok t → settles (read_body hs t) t.
Proof.
  intros Ht. unfold read_body. destruct (is_chunked hs).
  - unfold read_chunked_body, stream_fuel, mbind, M_bind, gets.
    pose proof (read_chunks_settles (S (length (stream t))) [] t Ht ltac:(lia)) as Hc.
    destruct (read_chunks _ [] t) as [[b|[]] t1]; [|done..]. destruct Hc as [Ht1 Hl].
    pose proof (skip_trailers_settles (S (length (stream t1))) t1 Ht1 ltac:(lia)) as Hs.
    destruct (skip_trailers _ t1) as [[u|[]] t2]; [|done..]. destruct Hs as [Ht2 Hl2]. cbn. split; [done|lia].
  - destruct (hs !! text "content-length") as [cl|].
    + destruct (parse_radix 10 64 (trim cl)) as [n|] eqn:E; [|done].
      apply read_exact_settles; [done|]. by eapply parse_radix_nonneg; [|exact E].
    + unfold stream_fuel, mbind, M_bind, gets. apply read_to_end_settles; [done|lia].
Qed.

(** Whatever bytes arrive, the parser returns a response or an error of the code. *)
Lemma parse_response_settles t : io_ok t → settles (parse_response t) t.
Proof.
  intros Ht. unfold parse_response, mbind, M_bind. destruct (read_line t) as [[l|e] t1] eqn:E; [|by apply read_line_fails in E as ->].
  apply read_line_settles in E as [Ht1 Hl]; [|done]. destruct (parse_status_line (chomp l)) as [[st rs]|e] eqn:Es.
  2: { cbn. unfold parse_status_line in Es. by repeat case_match; simplify_eq. }
  unfold stream_fuel, gets. pose proof (read_headers_settles (S (length (stream t1))) ∅ t1 Ht1 ltac:(lia)) as Hh.
  destruct (read_headers _ ∅ t1) as [[hs|[]] t2]; [|done..]. destruct Hh as [Ht2 Hl2].
  pose proof (read_body_settles hs t2 Ht2) as Hb. destruct (read_body hs t2) as [[b|[]] t3]; [|done..].
  destruct Hb as [Ht3 Hl3]. cbn. split; [done|lia].
Qed.

(** ** Responses cut short *)
Lemma cut_line l rest k t :
  io_ok t → line_ok l → stream t = take k (l ++ crlf ++ rest) →
  (∃ t', read_line t = (Err (Http RecvFailed), t'))
  ∨ (length l + 2 ≤ k)%nat ∧ ∃ t', read_line t = (Ok (l ++ crlf), t') ∧ io_ok t' ∧ stream t' = take (k - (length l + 2)) rest.
Proof.
  intros Ht Hl E. destruct (le_lt_dec (length l + 2) k) as [Hk|Hk].
  - right. split; [done|]. apply read_line_ok; [done..|]. rewrite E, (app_assoc l), take_app_ge by (rewrite length_app; cbn; lia).
    rewrite length_app, <- app_assoc. done.
  - left. assert (Hno : Forall (λ b, b ≠ 10) (stream t)).
    { rewrite E. change (l ++ crlf ++ rest) with (l ++ [13] ++ 10 :: rest). rewrite app_assoc, take_app_le by (rewrite length_app; cbn; lia).
      apply Forall_take, Forall_app. split; [by apply line_no_lf|]. by repeat constructor. }
    pose proof (line_missing t Ht Hno) as Hm. unfold read_line. destruct (io_read_line t) as [o t']. cbn in Hm. subst o. by eexists.
Qed.

Lemma cut_headers fs : ∀ hs fuel k t rest,
  io_ok t → Forall (λ f, line_ok (field_line f) ∧ Forall (λ b, b ≠ 58) f.1) fs →
  stream t = take k (lines_wire (map field_line fs) ++ crlf ++ rest) → (length (stream t) < fuel)%nat →
  (∃ t', read_headers fuel hs t = (Err (Http RecvFailed), t'))
  ∨ (length (lines_wire (map field_line fs)) + 2 ≤ k)%nat
    ∧ ∃ t', read_headers fuel hs t = (Ok (foldl (λ m f, <[to_ascii_lowercase (trim f.1) := trim f.2]> m) hs fs), t')
      ∧ io_ok t' ∧ stream t' = take (k - (length (lines_wire (map field_line fs)) + 2)) rest.
Proof.
  induction fs as [|f fs IH]; intros hs fuel k t rest Ht Hfs E Hf; (destruct fuel as [|fuel]; [lia|]);
    cbn [read_headers]; unfold mbind, M_bind.
  - destruct (cut_line [] rest k t Ht) as [[t' ->]|(Hk & t' & -> & ? & ?)]; [by split|done|left; eauto|].
    right. split; [done|]. exists t'. by rewrite (chomp_line []).
  - apply Forall_cons in Hfs as [[Hl Hc] Hfs]. unfold lines_wire in *. cbn [map concat] in *. rewrite <- !app_assoc in E.
    destruct (cut_line _ _ k t Ht Hl E) as [[t' ->]|(Hk & t1 & -> & Ht1 & E1)]; [left; eauto|].
    rewrite chomp_line by done.
    destruct (field_line f) as [|b l] eqn:Efl; [by destruct f as [[] ?]|]. rewrite <- Efl in *. rewrite parse_header_line by done.
    cbn [foldl]. rewrite !length_app. change (length crlf) with 2%nat.
    assert (Hf1 : (length (stream t1) < fuel)%nat).
    { rewrite E, length_take, length_app, length_app in Hf. rewrite E1, length_take. change (length crlf) with 2%nat in Hf. lia. }
    destruct (IH (<[to_ascii_lowercase (trim f.1) := trim f.2]> hs) fuel _ t1 rest Ht1 Hfs E1 Hf1)
      as [?|(Hk1 & t' & ? & ? & E2)]; [by left|]. right. split; [lia|]. exists t'. split; [done|]. split; [done|].
    rewrite E2. f_equal. lia.
Qed.

(** C23: a response with a length that is cut short, wherever the connection ended, is
    refused with [RecvFailed]: neither channel makes the client take a part of it for
    the whole. *)
Theorem http1_truncation_refused r b t k :
  io_ok t → reply_ok r → frame r = Sized b → (k < length (reply_wire r))%nat → stream t = take k (reply_wire r) →
  (parse_response t).1 = Err (Http RecvFailed).
Proof.
  intros Ht Hr Hb Hk E. unfold reply_wire, head_wire in *. rewrite Hb in *. cbn [body_wire] in *. rewrite <- !app_assoc in *.
  unfold parse_response, mbind, M_bind.
  destruct (cut_line _ _ k t Ht (ro_status r Hr) E) as [[t' ->]|(Hk1 & t1 & -> & Ht1 & E1)]; [done|].
  rewrite chomp_line, status_line_ok by (done || apply Hr). unfold stream_fuel, gets.
  destruct (cut_headers (fields r) ∅ (S (length (stream t1))) _ t1 b Ht1 (ro_fields r Hr) E1 ltac:(lia))
    as [[t' ->]|(Hk2 & t2 & -> & Ht2 & E2)]; [done|]. fold (field_map (fields r)).
  pose proof (ro_frame r Hr) as Hf. rewrite Hb in Hf. destruct Hf as (Hc & cl & Hcl & Hn).
  unfold read_body. rewrite Hc, Hcl, Hn. unfold read_exact. rewrite !length_app in Hk. change (length crlf) with 2%nat in Hk.
  pose proof (exact_missing (Z.of_nat (length b)) t2 Ht2) as Hm. destruct (io_read_exact (Z.of_nat (length b)) t2) as [o t3].
  cbn [fst] in Hm. rewrite Hm; [done|]. rewrite E2, length_take. lia.
Qed.
End client.

(** A gzip file of stored, fixed and dynamic blocks is delivered decompressed. *)
Lemma gzip_body_decoded status reason hs bs meta x n c h trailer enc :
  bs ≠ [] → blocks_okb [] bs = true →
  length meta = 6%nat → length trailer = 8%nat → extra_ok x → name_ok n → name_ok c →
  hs !! text "content-encoding" = Some enc → contains (text "gzip") (trim (to_ascii_lowercase enc)) = true →
  body (finish_response status reason hs (gzip_file meta x n c h (deflate bs) trailer)) = foldl expand_block [] bs.
Proof.
  intros Hne Hok Hm Ht Hx Hn Hc Henc Hg. unfold finish_response, decode_content. rewrite Henc, Hg. cbn [orb].
  by rewrite inflate_gzip_file, (inflate_deflate bs Hne Hok).
Qed.

(** ** Witnesses *)
Definition demo_reply : reply :=
  mkReply (text "HTTP/1.1") (text "200") 200 (text "OK")
    [(text "Content-Type", text " text/plain"); (text "Transfer-Encoding", text " chunked ")]
    (Chunked [mkChunk (text "5") (text ";x=1") (text "Hello"); mkChunk (text "0B") [] (text ", world. 42")] (text "0") []
       [text "X-Sum: 7"]).

Lemma line_okb l : forallb (λ b, negb (b =? 10) && negb (b =? 13)) l && utf8_valid l = true → line_ok l.
Proof.
  intros [Hl Hv]%andb_true_iff. split; [|done]. apply Forall_forall. intros b Hb. rewrite forallb_forall in Hl.
  specialize (Hl b (proj1 (list_elem_of_In _ _) Hb)). apply andb_true_iff in Hl as [?%negb_true_iff ?%negb_true_iff]. split; lia.
Qed.

Lemma no_byte c l : forallb (λ b, negb (b =? c)) l = true → Forall (λ b, b ≠ c) l.
Proof.
  intros Hl. apply Forall_forall. intros b Hb. rewrite forallb_forall in Hl.
  specialize (Hl b (proj1 (list_elem_of_In _ _) Hb)). apply negb_true_iff in Hl. lia.
Qed.

Lemma demo_reply_ok : reply_ok demo_reply.
Proof.
  split.
  - apply line_okb. vm_compute. reflexivity.
  - apply no_byte. vm_compute. reflexivity.
  - split; [apply no_byte|]; vm_compute; reflexivity.
  - repeat constructor; try (apply no_byte; vm_compute; reflexivity); vm_compute; done.
  - split; [vm_compute; reflexivity|]. split; [|split].
    + repeat (constructor; [split; [split; [apply line_okb; vm_compute; reflexivity|split; [apply no_byte; vm_compute; reflexivity|
        split; [vm_compute; auto|vm_compute; reflexivity]]]|vm_compute; discriminate]|]). constructor.
    + split; [apply line_okb; vm_compute; reflexivity|]. split; [apply no_byte; vm_compute; reflexivity|].
      split; [by left|vm_compute; reflexivity].
    + constructor; [|constructor]. split; [apply line_okb|]; vm_compute; [reflexivity|discriminate].
Qed.

Definition tcp_after (buffered arrived : list Z) : TcpClientIo queues := mkTcpIo (mkQueues arrived []) buffered 0.


Definition sized_reply : reply :=
  mkReply (text "HTTP/1.1") (text "404") 404 (text "Not Found") [(text "Content-Length", text " 3")] (Sized [1; 2; 3]).

Lemma http1_truncation_refused_witness :
  (parse_response (mkSlice (take 46 (reply_wire sized_reply)) 0)).1 = Err (Http RecvFailed).
Proof.
  apply (http1_truncation_refused sized_reply [1; 2; 3] _ 46).
  - exact I.
  - split.
    + apply line_okb. vm_compute. reflexivity.
    + apply no_byte. vm_compute. reflexivity.
    + split; [apply no_byte|]; vm_compute; reflexivity.
    + repeat constructor; try (apply no_byte; vm_compute; reflexivity); vm_compute; done.
    + split; [vm_compute; reflexivity|]. exists (text "3"). split; vm_compute; reflexivity.
  - reflexivity.
  - vm_compute. lia.
  - reflexivity.
Defined.

(** ** Findings *)

(** Finding: a chunked body that ends with its last chunk but without the final empty
    line is accepted, and so is one whose data is not followed by CR LF: the byte after
    it, up to the next LF, is dropped unseen. *)
Lemma chunk_terminator_unchecked :
  (parse_response (mkSlice (text "HTTP/1.1 200 OK" ++ crlf ++ text "Transfer-Encoding: chunked" ++ crlf ++ crlf
     ++ text "3" ++ crlf ++ text "abcSMUGGLED" ++ crlf ++ text "0" ++ crlf) 0)).1
  = Ok (mkResp 200 (text "OK") {[text "transfer-encoding" := text "chunked"]} (text "abc")).
Proof. vm_compute. reflexivity. Qed.

(** Finding: only the last of several headers with the same name is kept, so all but
    one of the cookies of a response are lost. *)
Lemma repeated_header_lost :
  field_map [(text "Set-Cookie", text "a=1"); (text "Set-Cookie", text "b=2")] = {[text "set-cookie" := text "b=2"]}.
Proof. vm_compute. reflexivity. Qed.
