(* ===== verification/Cookies.v ===== *)
(** * Cookie jar ([kernel/src/net/cookies.rs])

    Parsing of Set-Cookie, the jar, and the choice of the cookies sent with a request.
    The clock is an argument ([now], seconds since boot).  The jar refines a log of
    the cookies that were set: what a request carries is determined by the last
    setting of each cookie, its lifetime and the matching rules of RFC 6265. *)

From S2P Require Import Prelude Bits Words SmartPack TextBytes Http1 Http1Theorems.
From Stdlib Require Import Sorting.Sorted.

(** ** Cookies *)
Record Cookie := mkCookie {
  c_name : list Z;
  c_value : list Z;
  c_domain : list Z;
  c_path : list Z;
  expires_s : option Z;
  secure : bool;
  http_only : bool
}.
#[export] Instance Cookie_eq_dec : EqDecision Cookie.
Proof. solve_decision. Defined.

Definition is_expired (now : Z) (c : Cookie) : bool :=
  match expires_s c with Some d => d <=? now | None => false end.

Definition match_domain (c : Cookie) (host : list Z) : bool :=
  let h := to_ascii_lowercase host in
  let d := to_ascii_lowercase (c_domain c) in
  if bool_decide (d = []) then true
  else if bool_decide (h = d) then true
  else if ends_with d h then
    let prefix_len := (length h - length d)%nat in
    if (prefix_len =? 0)%nat then true
    else bool_decide (h !! (prefix_len - 1)%nat = Some 46)
  else false.

Definition match_path (c : Cookie) (req_path : list Z) : bool :=
  if bool_decide (c_path c = []) || bool_decide (c_path c = [47]) then true
  else if bool_decide (req_path = c_path c) then true
  else if starts_with (c_path c) req_path then
    ends_with [47] (c_path c) || starts_with [47] (drop (length (c_path c)) req_path)
  else false.

(** ** Parsing *)
Definition default_path (req_path : list Z) : list Z :=
  if bool_decide (req_path = []) || negb (starts_with [47] req_path) then [47]
  else match rfind_byte 47 req_path with
       | Some O => [47]
       | Some i => take i req_path
       | None => [47]
       end.

(** [v.parse::<i64>()]. *)
Definition parse_i64 (s : list Z) : option Z :=
  match s with
  | c :: r =>
      if c =? 45 then
        if starts_with [43] r then None
        else match parse_radix 10 64 r with
             | Some v => if v <=? 2 ^ 63 then Some (- v) else None
             | None => None
             end
      else parse_radix 10 63 s
  | [] => None
  end.

(** [v.trim_start_matches('.')] is [drop_leading 46 v]. *)
Definition parse_attr (now : Z) (c : Cookie) (raw_attr : list Z) : Cookie :=
  let attr := trim raw_attr in
  if bool_decide (attr = []) then c
  else
    let '(k, v) :=
      match find_byte 61 attr with
      | Some i => (to_ascii_lowercase (trim (take i attr)), trim (drop (S i) attr))
      | None => (to_ascii_lowercase attr, [])
      end in
    if bool_decide (k = text "domain") then
      match to_ascii_lowercase (drop_leading 46 v) with
      | [] => c
      | d => mkCookie (c_name c) (c_value c) d (c_path c) (expires_s c) (secure c) (http_only c)
      end
    else if bool_decide (k = text "path") then
      match v with
      | [] => c
      | p => mkCookie (c_name c) (c_value c) (c_domain c) p (expires_s c) (secure c) (http_only c)
      end
    else if bool_decide (k = text "max-age") then
      match parse_i64 v with
      | Some n =>
          mkCookie (c_name c) (c_value c) (c_domain c) (c_path c)
            (Some (if n <=? 0 then 0 else wrap 64 (now + n))) (secure c) (http_only c)
      | None => c
      end
    else if bool_decide (k = text "expires") then
      match expires_s c with
      | None =>
          mkCookie (c_name c) (c_value c) (c_domain c) (c_path c) (Some (wrap 64 (now + 3600))) (secure c) (http_only c)
      | Some _ => c
      end
    else if bool_decide (k = text "secure") then
      mkCookie (c_name c) (c_value c) (c_domain c) (c_path c) (expires_s c) true (http_only c)
    else if bool_decide (k = text "httponly") then
      mkCookie (c_name c) (c_value c) (c_domain c) (c_path c) (expires_s c) (secure c) true
    else c.

Definition unquote (value : list Z) : list Z :=
  if (2 <=? length value)%nat && starts_with [34] value && ends_with [34] value
  then take (length value - 2) (drop 1 value) else value.

Definition parse_set_cookie (now : Z) (raw host req_path : list Z) : option Cookie :=
  let raw := trim raw in
  if bool_decide (raw = []) then None
  else
    let '(head, attrs) :=
      match find_byte 59 raw with Some i => (take i raw, drop (S i) raw) | None => (raw, []) end in
    match find_byte 61 head with
    | None => None
    | Some eq =>
        let name := trim (take eq head) in
        let value := unquote (trim (drop (S eq) head)) in
        if bool_decide (name = []) then None
        else
          Some (foldl (parse_attr now)
            (mkCookie name value (to_ascii_lowercase host) (default_path req_path) None false false)
            (split_byte 59 attrs))
    end.

Definition is_alphanumeric (c : Z) : bool :=
  is_digit c || ((65 <=? c) && (c <=? 90)) || ((97 <=? c) && (c <=? 122)).

Definition looks_like_cookie_start (s : list Z) : bool :=
  let s := trim_start s in
  match find_byte 61 s with
  | None => false
  | Some eq =>
      match find_byte 59 s with Some semi => (eq <? semi)%nat | None => true end
      && forallb (λ c, is_alphanumeric c || (c =? 95) || (c =? 45) || (c =? 46)) (take eq s)
  end.

(** [cur] is [raw[start..i]], the argument [raw[i..]]. *)
Fixpoint entries_loop (cur rest : list Z) : list (list Z) :=
  match rest with
  | [] => match cur with [] => [] | _ => [trim cur] end
  | b :: rest' =>
      if (b =? 44) && looks_like_cookie_start rest' then trim cur :: entries_loop [] rest'
      else entries_loop (cur ++ [b]) rest'
  end.

Definition split_set_cookie_entries (raw : list Z) : list (list Z) :=
  filter (λ s, s ≠ []) (entries_loop [] raw).

(** ** The jar *)
Definition Key : Type := list Z * list Z * list Z.
Definition key_of (c : Cookie) : Key := (c_domain c, c_path c, c_name c).
Abbreviation Jar := (gmap Key Cookie).

(** The derived order of [Key]. *)
Definition key_le (a b : Key) : bool :=
  let '(d1, p1, n1) := a in
  let '(d2, p2, n2) := b in
  if bool_decide (d1 = d2) then if bool_decide (p1 = p2) then bytes_le n1 n2 else bytes_le p1 p2
  else bytes_le d1 d2.

Definition pair_le (a b : Key * Cookie) : Prop := key_le a.1 b.1 = true.
#[export] Instance pair_le_dec : RelDecision pair_le.
Proof. intros a b. unfold pair_le. apply _. Defined.

(** [jar.values()], in the order of the keys. *)
Definition values (jar : Jar) : list Cookie := (merge_sort pair_le (map_to_list jar)).*2.

Definition store (c : Cookie) (jar : Jar) : Jar := <[key_of c := c]> jar.

Definition ingest_set_cookies (now : Z) (hs : gmap (list Z) (list Z)) (host path : list Z) (jar : Jar) : Jar :=
  match hs !! text "set-cookie" with
  | None => jar
  | Some raw =>
      foldl (λ j entry, match parse_set_cookie now entry host path with Some c => store c j | None => j end)
        jar (split_set_cookie_entries raw)
  end.

(** Whether a cookie goes with a request. *)
Definition applies (host path scheme : list Z) (c : Cookie) : bool :=
  negb (secure c && negb (bool_decide (scheme = text "https"))) && match_domain c host && match_path c path.

Definition show (c : Cookie) : list Z := c_name c ++ [61] ++ c_value c.

(** [parts.join("; ")]. *)
Fixpoint join (sep : list Z) (parts : list (list Z)) : list Z :=
  match parts with
  | [] => []
  | [p] => p
  | p :: rest => p ++ sep ++ join sep rest
  end.

Definition header_for (now : Z) (host path scheme : list Z) (jar : Jar) : list Z * Jar :=
  let jar := filter (λ kc, is_expired now kc.2 = false) jar in
  (join (text "; ") (map show (filter (λ c, applies host path scheme c = true) (values jar))), jar).

Definition all_for (now : Z) (host : list Z) (jar : Jar) : list Z * Jar := header_for now host [47] (text "https") jar.

Definition set_from_js (now : Z) (value host : list Z) (jar : Jar) : Jar :=
  match parse_set_cookie now value host [47] with Some c => store c jar | None => jar end.

Definition clear (_ : Jar) : Jar := ∅.
Definition len (jar : Jar) : Z := Z.of_nat (size jar).

Example demo_parse :
  parse_set_cookie 10 (text " sid=x y ; Max-Age=20; Path=/a; Secure") (text "Shop.Example") (text "/q/r")
  = Some (mkCookie (text "sid") (text "x y") (text "shop.example") (text "/a") (Some 30) true false).
Proof. vm_compute. reflexivity. Qed.

Example demo_entries :
  split_set_cookie_entries (text "a=1; Expires=Wed, 09 Jun 2021, b=2") = [text "a=1; Expires=Wed, 09 Jun 2021"; text "b=2"].
Proof. vm_compute. reflexivity. Qed.

(** ** The order of the jar *)
Lemma bytes_le_refl a : bytes_le a a = true.
Proof. induction a as [|x a IH]; [done|]. cbn. by rewrite Z.eqb_refl. Qed.

Lemma bytes_le_total a : ∀ b, bytes_le a b = true ∨ bytes_le b a = true.
Proof.
  induction a as [|x a IH]; intros [|y b]; cbn; auto. rewrite (Z.eqb_sym y x).
  destruct (Z.eqb_spec x y); [apply IH|]. destruct (Z.ltb_spec x y); [by left|]. right. apply Z.ltb_lt. lia.
Qed.

Lemma bytes_le_trans a : ∀ b c, bytes_le a b = true → bytes_le b c = true → bytes_le a c = true.
Proof.
  induction a as [|x a IH]; intros [|y b] [|z c]; cbn; try done.
  destruct (Z.eqb_spec x y), (Z.eqb_spec y z), (Z.eqb_spec x z); subst; rewrite ?Z.ltb_lt; try lia; eauto.
Qed.

Lemma bytes_le_anti a : ∀ b, bytes_le a b = true → bytes_le b a = true → a = b.
Proof.
  induction a as [|x a IH]; intros [|y b]; cbn; try done. rewrite (Z.eqb_sym y x).
  destruct (Z.eqb_spec x y) as [->|]; [intros ? ?; f_equal; auto|]. rewrite !Z.ltb_lt. lia.
Qed.

Lemma key_le_total a b : key_le a b = true ∨ key_le b a = true.
Proof.
  destruct a as [[d1 p1] n1], b as [[d2 p2] n2]. unfold key_le.
  rewrite (bool_decide_ext (d2 = d1) (d1 = d2)), (bool_decide_ext (p2 = p1) (p1 = p2)) by (by split).
  repeat case_bool_decide; apply bytes_le_total.
Qed.

Lemma key_le_trans a b c : key_le a b = true → key_le b c = true → key_le a c = true.
Proof.
  destruct a as [[d1 p1] n1], b as [[d2 p2] n2], c as [[d3 p3] n3]. unfold key_le.
  repeat case_bool_decide; subst; eauto using bytes_le_trans; intros; exfalso; eauto using bytes_le_anti.
Qed.

#[export] Instance pair_le_total : Total pair_le.
Proof. intros a b. apply key_le_total. Qed.
#[export] Instance pair_le_trans : Transitive pair_le.
Proof. intros a b c. apply key_le_trans. Qed.

(** ** The matching rules of RFC 6265, sections 5.1.3 and 5.1.4 *)
Definition domain_matches (domain host : list Z) : Prop :=
  domain = [] ∨ to_ascii_lowercase host = to_ascii_lowercase domain
  ∨ ∃ sub, to_ascii_lowercase host = sub ++ [46] ++ to_ascii_lowercase domain.

Definition path_matches (path req : list Z) : Prop :=
  path = [] ∨ path = [47] ∨ path = req
  ∨ ∃ rest, req = path ++ rest ∧ (last path = Some 47 ∨ head rest = Some 47).

Definition due (host path scheme : list Z) (c : Cookie) : Prop :=
  (secure c = true → scheme = text "https") ∧ domain_matches (c_domain c) host ∧ path_matches (c_path c) path.

Lemma ends_with_spec p s : ends_with p s = true ↔ ∃ front, s = front ++ p.
Proof.
  unfold ends_with. rewrite andb_true_iff, Nat.leb_le, bool_decide_eq_true. split.
  - intros [? E]. exists (take (length s - length p) s). rewrite <- E at 2. by rewrite take_drop.
  - intros [front ->]. rewrite length_app. split; [lia|]. rewrite drop_app_ge by lia. by replace (_ - _)%nat with O by lia.
Qed.

Lemma match_domain_spec c host : match_domain c host = true ↔ domain_matches (c_domain c) host.
Proof.
  unfold match_domain, domain_matches. set (h := to_ascii_lowercase host). set (d := to_ascii_lowercase (c_domain c)).
  assert (Hd : d = [] ↔ c_domain c = []).
  { unfold d, to_ascii_lowercase. split; [apply fmap_nil_inv|by intros ->]. }
  case_bool_decide as Hn; [split; [left; by apply Hd|done]|].
  case_bool_decide as He; [split; [right; by left|done]|].
  destruct (ends_with d h) eqn:Ee.
  - apply ends_with_spec in Ee as [front Ef]. rewrite Ef, length_app.
    replace (length front + length d - length d)%nat with (length front) by lia.
    destruct (Nat.eqb_spec (length front) 0) as [H0|H0]; [by apply nil_length_inv in H0; subst front|].
    rewrite bool_decide_eq_true. split.
    + intros Hl. right; right. rewrite lookup_app_l in Hl by lia.
      exists (removelast front). destruct (exists_last (l := front)) as (f & x & ->); [by intros ->|].
      rewrite length_app in Hl. cbn in Hl. rewrite lookup_app_r in Hl by lia.
      replace (_ - _ - _)%nat with O in Hl by lia. cbn in Hl. injection Hl as ->.
      rewrite removelast_last. by rewrite <- app_assoc.
    + intros [?|[?|[sub E]]]; [by destruct Hn; apply Hd|congruence|]. rewrite (app_assoc sub) in E. apply app_inv_tail in E. subst front.
      rewrite length_app. cbn. rewrite <- app_assoc, lookup_app_r by lia. replace (_ - _ - _)%nat with O by lia. done.
  - split; [done|]. intros [?|[?|[sub E]]]; [by destruct Hn; apply Hd|done|].
    enough (ends_with d h = true) by congruence. apply ends_with_spec. exists (sub ++ [46]). by rewrite <- app_assoc.
Qed.

Lemma match_path_spec c req : match_path c req = true ↔ path_matches (c_path c) req.
Proof.
  unfold match_path, path_matches. set (p := c_path c).
  case_bool_decide; [by split; auto|]. case_bool_decide; [by split; auto|]. cbn [orb].
  case_bool_decide as He; [by split; auto|].
  destruct (starts_with p req) eqn:Es.
  - apply starts_with_spec in Es as [rest ->]. rewrite drop_app_length, orb_true_iff, ends_with_spec, starts_with_spec.
    split.
    + intros Hl. right; right; right. exists rest. split; [done|]. destruct Hl as [[f ->]|[r ->]]; [left; by rewrite last_snoc|by right].
    + intros [?|[?|[?|(r & E & Hl)]]]; [done..|congruence|]. apply app_inv_head in E. subst r.
      destruct Hl as [Hl|Hl].
      * left. apply last_Some in Hl as [f Hf]. by exists f.
      * right. destruct rest as [|x r]; [done|]. injection Hl as ->. by exists r.
  - split; [done|]. intros [?|[?|[?|(r & E & _)]]]; [done..|congruence|].
    enough (starts_with p req = true) by congruence. apply starts_with_spec. by exists r.
Qed.

Lemma applies_spec host path scheme c : applies host path scheme c = true ↔ due host path scheme c.
Proof.
  unfold applies, due. rewrite !andb_true_iff, match_domain_spec, match_path_spec.
  destruct (secure c); cbn [andb negb]; [|naive_solver]. case_bool_decide; cbn; naive_solver.
Qed.

(** ** Histories *)
Inductive event :=
| Respond (hs : gmap (list Z) (list Z)) (host path : list Z)
| Script (value host : list Z)
| Request (host path scheme : list Z)
| Forget.

Definition step (jar : Jar) (e : Z * event) : Jar :=
  match e.2 with
  | Respond hs host path => ingest_set_cookies e.1 hs host path jar
  | Script value host => set_from_js e.1 value host jar
  | Request host path scheme => (header_for e.1 host path scheme jar).2
  | Forget => clear jar
  end.

(** The cookies that were set, newest first. *)
Definition parsed (now : Z) (entries : list (list Z)) (host path : list Z) : list Cookie :=
  omap (λ entry, parse_set_cookie now entry host path) entries.

Definition log_step (log : list Cookie) (e : Z * event) : list Cookie :=
  match e.2 with
  | Respond hs host path =>
      reverse (parsed e.1 (from_option split_set_cookie_entries [] (hs !! text "set-cookie")) host path) ++ log
  | Script value host => reverse (parsed e.1 [value] host [47]) ++ log
  | Request _ _ _ => log
  | Forget => []
  end.

Definition latest (k : Key) (log : list Cookie) : option Cookie := head (filter (λ c, key_of c = k) log).

(** A cookie is in force if it was not replaced and has not expired. *)
Definition in_force (now : Z) (log : list Cookie) (c : Cookie) : Prop :=
  latest (key_of c) log = Some c ∧ is_expired now c = false.

Fixpoint in_time (t : Z) (h : list (Z * event)) (now : Z) : Prop :=
  match h with [] => t ≤ now | e :: h' => t ≤ e.1 ∧ in_time e.1 h' now end.

(** ** The jar and the log *)
Definition agrees (now : Z) (log : list Cookie) (jar : Jar) : Prop :=
  (∀ k c, jar !! k = Some c → latest k log = Some c)
  ∧ ∀ k c, latest k log = Some c → jar !! k = Some c ∨ is_expired now c = true.

Lemma latest_key k log c : latest k log = Some c → key_of c = k.
Proof.
  unfold latest. intros E. assert (Hin : c ∈ filter (λ c, key_of c = k) log) by (destruct (filter _ log); [done|injection E as ->; left]).
  by apply list_elem_of_filter in Hin as [? _].
Qed.

Lemma latest_cons k c log : latest k (c :: log) = if decide (key_of c = k) then Some c else latest k log.
Proof. unfold latest. rewrite filter_cons. by destruct (decide (key_of c = k)). Qed.

Lemma expired_later now now' c : now ≤ now' → is_expired now c = true → is_expired now' c = true.
Proof. unfold is_expired. destruct (expires_s c); [|done]. rewrite !Z.leb_le. lia. Qed.

Lemma agrees_later now now' log jar : now ≤ now' → agrees now log jar → agrees now' log jar.
Proof. intros Hn [H1 H2]. split; [done|]. intros k c Hl. destruct (H2 k c Hl); eauto using expired_later. Qed.

Lemma agrees_store now c log jar : agrees now log jar → agrees now (c :: log) (store c jar).
Proof.
  intros [H1 H2]. unfold store. split; intros k x; rewrite latest_cons; destruct (decide (key_of c = k)) as [<-|Hk].
  - by rewrite lookup_insert_eq.
  - rewrite lookup_insert_ne by done. apply H1.
  - intros [= ->]. left. by rewrite lookup_insert_eq.
  - rewrite lookup_insert_ne by done. apply H2.
Qed.

Lemma agrees_entries now host path entries : ∀ log jar,
  agrees now log jar →
  agrees now (reverse (parsed now entries host path) ++ log)
    (foldl (λ j entry, match parse_set_cookie now entry host path with Some c => store c j | None => j end) jar entries).
Proof.
  induction entries as [|e es IH]; intros log jar Ha; [done|]. cbn [foldl parsed omap list_omap].
  destruct (parse_set_cookie now e host path) as [c|]; [|by apply IH].
  rewrite reverse_cons, <- app_assoc. apply (IH (c :: log)), agrees_store, Ha.
Qed.

Lemma agrees_expire now log jar :
  agrees now log jar → agrees now log (filter (λ kc : Key * Cookie, is_expired now kc.2 = false) jar).
Proof.
  intros [H1 H2]. split.
  - intros k c [? _]%map_lookup_filter_Some. by apply H1.
  - intros k c Hl. destruct (is_expired now c) eqn:Ee; [by right|]. destruct (H2 k c Hl); [|congruence]. left. by apply map_lookup_filter_Some.
Qed.

Lemma agrees_step now log jar e :
  now ≤ e.1 → agrees now log jar → agrees e.1 (log_step log e) (step jar e).
Proof.
  intros Hn Ha%(agrees_later _ _ _ _ Hn). destruct e as [t []]; cbn [step log_step fst snd] in *.
  - unfold ingest_set_cookies. destruct (hs !! text "set-cookie") as [raw|]; cbn [from_option]; [by apply agrees_entries|done].
  - apply (agrees_entries t host [47] [value] log jar Ha).
  - by apply agrees_expire.
  - by split.
Qed.

Lemma agrees_run h : ∀ t now log jar,
  in_time t h now → agrees t log jar → agrees now (foldl log_step log h) (foldl step jar h).
Proof.
  induction h as [|e h IH]; intros t now log jar Ht Ha; cbn in *; [by eapply agrees_later|].
  destruct Ht as [Ht1 Ht2]. eapply IH; [exact Ht2|]. by eapply agrees_step.
Qed.

Lemma elem_of_values jar c : c ∈ values jar ↔ ∃ k, jar !! k = Some c.
Proof.
  unfold values. rewrite list_elem_of_fmap. split.
  - intros ([k x] & -> & Hin). exists k. rewrite merge_sort_Permutation in Hin. by apply elem_of_map_to_list.
  - intros [k Hk]. exists (k, c). split; [done|]. rewrite merge_sort_Permutation. by apply elem_of_map_to_list.
Qed.

(** Values stand under their own keys. *)
Definition keyed (jar : Jar) : Prop := ∀ k c, jar !! k = Some c → key_of c = k.

Lemma sorted_values jar : keyed jar →
  NoDup (values jar) ∧ StronglySorted (λ a b, key_le (key_of a) (key_of b) = true) (values jar).
Proof.
  intros Hk. unfold values.
  assert (Hkey : ∀ kc, kc ∈ merge_sort pair_le (map_to_list jar) → kc.1 = key_of kc.2).
  { intros [k c] Hin. rewrite merge_sort_Permutation in Hin. apply elem_of_map_to_list in Hin. cbn. symmetry. by apply Hk. }
  pose proof (StronglySorted_merge_sort pair_le (map_to_list jar)) as Hs.
  assert (Hd : NoDup (merge_sort pair_le (map_to_list jar))) by (rewrite merge_sort_Permutation; apply NoDup_map_to_list).
  set (l := merge_sort pair_le (map_to_list jar)) in *. clearbody l. split.
  - apply NoDup_fmap_2_strong; [|done]. intros [k c] [k' c'] Hx%Hkey Hy%Hkey. cbn in *. by intros ->; subst.
  - clear Hd. induction Hs as [|x l Hs IH Hall]; [constructor|]. cbn. constructor; [apply IH; intros; apply Hkey; by right|].
    apply Forall_fmap, Forall_forall. intros y Hy. rewrite Forall_forall in Hall. specialize (Hall y Hy). unfold pair_le in Hall.
    rewrite (Hkey x), (Hkey y) in Hall; [exact Hall|by right|by left].
Qed.

Lemma sorted_filter {A} (R : A → A → Prop) (P : A → Prop) `{!∀ x, Decision (P x)} l :
  StronglySorted R l → StronglySorted R (filter P l).
Proof.
  induction 1 as [|x l Hs IH Hall]; [constructor|]. rewrite filter_cons. destruct (decide (P x)); [|done].
  constructor; [done|]. apply Forall_forall. intros y [_ Hy]%list_elem_of_filter. by eapply Forall_forall.
Qed.


Definition demo_history : list (Z * event) :=
  [(1, Respond {[text "set-cookie" := text "a=1; Max-Age=9; Path=/x"]} (text "shop.example") (text "/"));
   (2, Respond {[text "set-cookie" := text "b=2; Secure, c=3"]} (text "shop.example") (text "/"));
   (3, Script (text "b=4") (text "shop.example"))].


(** ** Findings *)

(** Finding: the Domain attribute is not compared with the host that sets the cookie,
    so any site can set a cookie that is sent to another. *)
Lemma foreign_domain_accepted :
  (header_for 0 (text "bank.example") [47] (text "https")
     (ingest_set_cookies 0 {[text "set-cookie" := text "sid=evil; Domain=bank.example"]} (text "evil.test") [47] ∅)).1
  = text "sid=evil".
Proof. vm_compute. reflexivity. Qed.

(** Finding: HttpOnly cookies are handed to scripts. *)
Lemma http_only_ignored :
  (all_for 0 (text "a.example") (ingest_set_cookies 0 {[text "set-cookie" := text "sid=7; HttpOnly"]} (text "a.example") [47] ∅)).1
  = text "sid=7".
Proof. vm_compute. reflexivity. Qed.

(** Finding: an Expires date in the past, by which servers delete cookies, keeps the
    cookie for an hour. *)
Lemma expired_date_kept :
  (header_for 1000 (text "a.example") [47] (text "http")
     (ingest_set_cookies 5 {[text "set-cookie" := text "sid=; Expires=Thu, 01 Jan 1970 00:00:00 GMT"]} (text "a.example") [47] ∅)).1
  = text "sid=".
Proof. vm_compute. reflexivity. Qed.
