(* ===== verification/HttpFetch.v ===== *)
(** * Fetching with redirects and cookies ([kernel/src/net/http_client.rs], [http_get])

    A request with the cookies of the jar, over TLS or plain TCP, the cookies of the
    response, and redirects up to five exchanges.  Name lookup, TCP and TLS are the
    interface [Net]. *)

From S2P Require Import Prelude Bits Words SmartPack TextBytes Inflate InflateProofs InflateSafety InflateTheorems.
From S2P Require Import WebSocket WebSocketTheorems Http1 Http1Theorems Cookies.

(** What the client uses of the rest of the network stack: [W] is its state and [C] a
    connection. *)
Class Net (W C : Type) := {
  uptime_secs : W → Z;
  https_request : list Z → Z → list Z → W → option (list Z) * W;
  resolve : list Z → W → option Z * W;
  connect : Z → Z → Z → W → option C * W;
  close : C → W → W
}.

Section fetch.
Context {W C : Type} `{TcpEndpoint C} `{!Net W C}.

Record Browser := mkBrowser { jar : Jar; net : W }.

Definition fetch_request (u : Url) (cookie_hdr : list Z) : HttpRequest :=
  let req := get_request u in
  let req := match cookie_hdr with [] => req | _ => with_header req (text "Cookie") cookie_hdr end in
  with_header req (text "Connection") (text "close").

(** Over TLS: the whole answer is there when the call returns. *)
Definition https_exchange (u : Url) (bytes : list Z) (w : W) : result trouble HttpResponse * W :=
  match https_request (host u) (port u) bytes w with
  | (None, w) => (Err (Http ConnectionFailed), w)
  | (Some raw, w) => ((parse_response (mkSlice raw 0)).1, w)
  end.

Definition http_exchange (u : Url) (bytes : list Z) (w : W) : result trouble HttpResponse * W :=
  match resolve (host u) w with
  | (None, w) => (Err (Http ConnectionFailed), w)
  | (Some ip, w) =>
      let local_port := 49152 + port u `mod` 1024 in
      match connect ip (port u) local_port w with
      | (None, w) => (Err (Http ConnectionFailed), w)
      | (Some conn, w) =>
          match tcp_write bytes (mkTcpIo conn [] 0) with
          | (false, io) => (Err (Http SendFailed), close (tc_conn io) w)
          | (true, io) =>
              match parse_response io with
              | (Ok r, io) => (Ok r, close (tc_conn io) w)
              | (Err e, io) => (Err e, w)
              end
          end
      end
  end.

Definition exchange (u : Url) (bytes : list Z) (w : W) : result trouble HttpResponse * W :=
  if bool_decide (scheme u = text "https") then https_exchange u bytes w
  else if bool_decide (scheme u = text "http") then http_exchange u bytes w
  else (Err (Http InvalidUrl), w).

Definition redirect_status (s : Z) : bool := (s =? 301) || (s =? 302) || (s =? 303) || (s =? 307) || (s =? 308).

Definition next_url (u : Url) (loc : list Z) : list Z :=
  let site := scheme u ++ text "://" ++ host u in
  if starts_with [47] loc then site ++ loc
  else if negb (contains (text "://") loc) then
    match rfind_byte 47 (path u) with
    | Some i => site ++ take i (path u) ++ [47] ++ loc
    | None => site ++ path u ++ [47] ++ loc
    end
  else loc.

(** One exchange: the response, with the jar after it. *)
Definition fetch_once (u : Url) (b : Browser) : result trouble HttpResponse * Browser :=
  let '(cookie_hdr, j) := header_for (uptime_secs (net b)) (host u) (path u) (scheme u) (jar b) in
  match exchange u (serialize (fetch_request u cookie_hdr) (host u)) (net b) with
  | (Err e, w) => (Err e, mkBrowser j w)
  | (Ok resp, w) => (Ok resp, mkBrowser (ingest_set_cookies (uptime_secs w) (headers resp) (host u) (path u) j) w)
  end.

(** [hops] is [5 - depth]. *)
Fixpoint http_get_recursive (hops : nat) (url_str : list Z) (b : Browser) : result trouble HttpResponse * Browser :=
  match hops with
  | O => (Err (Http TooManyRedirects), b)
  | S hops' =>
      match parse_url url_str with
      | None => (Err (Http InvalidUrl), b)
      | Some u =>
          match fetch_once u b with
          | (Err e, b') => (Err e, b')
          | (Ok resp, b') =>
              if redirect_status (status resp) then
                match header resp (text "location") with
                | Some loc => http_get_recursive hops' (next_url u loc) b'
                | None => (Ok resp, b')
                end
              else (Ok resp, b')
          end
      end
  end.

Definition http_get (url_str : list Z) (b : Browser) : result trouble HttpResponse * Browser := http_get_recursive 5 url_str b.

(** ** Any network *)
Lemma exchange_settles u bytes w e : (exchange u bytes w).1 = Err e → ∃ x, e = Http x ∧ x ≠ TooManyRedirects.
Proof.
  unfold exchange. case_bool_decide; [|case_bool_decide; [|intros [= <-]; by eexists]].
  - unfold https_exchange. destruct (https_request _ _ _ _) as [[raw|] w']; [|intros [= <-]; by eexists]. cbn [fst].
    pose proof (parse_response_settles (mkSlice raw 0) I) as Hs.
    destruct (parse_response (mkSlice raw 0)) as [[r|[]] t]; [done|intros [= <-]; by eexists|done].
  - unfold http_exchange. destruct (resolve _ w) as [[ip|] w1]; [|intros [= <-]; by eexists].
    destruct (connect _ _ _ w1) as [[conn|] w2]; [|intros [= <-]; by eexists].
    destruct (tcp_write bytes (mkTcpIo conn [] 0)) as [[] io] eqn:E; [|intros [= <-]; by eexists].
    assert (Hok : io_ok io).
    { unfold tcp_write in E. cbn in E. destruct (tcp_send bytes conn) as [ok c]. injection E as -> <-. cbn. unfold tc_ok. cbn. lia. }
    pose proof (parse_response_settles io Hok) as Hs.
    destruct (parse_response io) as [[r|[]] t]; [done|intros [= <-]; by eexists|done].
Qed.

Lemma fetch_once_settles u b e b' : fetch_once u b = (Err e, b') → ∃ x, e = Http x ∧ x ≠ TooManyRedirects.
Proof.
  unfold fetch_once. destruct (header_for _ _ _ _ _) as [c j]. pose proof (exchange_settles u (serialize (fetch_request u c) (host u)) (net b)) as Hx.
  destruct (exchange _ _ _) as [[r|x] w]; [done|]. intros [= <- _]. by apply Hx.
Qed.

(** The response asks to go on at [loc]. *)
Definition redirects (resp : HttpResponse) (loc : list Z) : Prop :=
  redirect_status (status resp) = true ∧ header resp (text "location") = Some loc.

(** A fetch that ends after [n] exchanges, each after the first at the place the
    response before it names. *)
Inductive visits : nat → list Z → Browser → result trouble HttpResponse * Browser → Prop :=
| visit_bad url b : parse_url url = None → visits 0 url b (Err (Http InvalidUrl), b)
| visit_error url u b e b' :
    parse_url url = Some u → fetch_once u b = (Err (Http e), b') → e ≠ TooManyRedirects → visits 1 url b (Err (Http e), b')
| visit_last url u b resp b' :
    parse_url url = Some u → fetch_once u b = (Ok resp, b') → (∀ loc, ¬ redirects resp loc) → visits 1 url b (Ok resp, b')
| visit_too_many url u b resp b' loc :
    parse_url url = Some u → fetch_once u b = (Ok resp, b') → redirects resp loc →
    visits 1 url b (Err (Http TooManyRedirects), b')
| visit_redirect n url u b resp b' loc r :
    parse_url url = Some u → fetch_once u b = (Ok resp, b') → redirects resp loc →
    visits n (next_url u loc) b' r → visits (S n) url b r.

Lemma recursive_visits hops : ∀ url b,
  ∃ n, (n ≤ S hops)%nat ∧ visits n url b (http_get_recursive (S hops) url b)
    ∧ ((http_get_recursive (S hops) url b).1 = Err (Http TooManyRedirects) → n = S hops).
Proof.
  induction hops as [|hops IH]; intros url b; set (hs := http_get_recursive) in *; unfold hs at 1 2; cbn [http_get_recursive];
    fold hs; (destruct (parse_url url) as [u|] eqn:Eu; [|exists 0%nat; split; [lia|]; split; [by constructor|done]]);
    (destruct (fetch_once u b) as [[resp|e] b'] eqn:Ef;
      [|apply fetch_once_settles in Ef as Hx; destruct Hx as (x & -> & Hx); exists 1%nat; split; [lia|]; split; [by econstructor|]; cbn; congruence]);
    (destruct (redirect_status (status resp)) eqn:Er;
      [|exists 1%nat; split; [lia|]; split; [|done]; econstructor; [done..|]; intros loc [? _]; congruence]);
    (destruct (header resp (text "location")) as [loc|] eqn:El;
      [|exists 1%nat; split; [lia|]; split; [|done]; econstructor; [done..|]; intros loc [_ ?]; congruence]).
  - exists 1%nat. split; [lia|]. split; [|done]. by eapply visit_too_many.
  - destruct (IH (next_url u loc) b') as (n & Hn & Hv & Ht). exists (S n). split; [lia|]. split; [by eapply visit_redirect|].
    intros E. f_equal. by apply Ht.
Qed.


(** ** A web served over TLS *)
Definition meaning (r : reply) : HttpResponse :=
  finish_response (code r) (reason_text r) (field_map (fields r)) (content (frame r)).

(** What fetching a page of the web comes to. *)
Fixpoint follow (web : Url → reply) (hops : nat) (url : list Z) : result HttpError HttpResponse :=
  match hops with
  | O => Err TooManyRedirects
  | S hops' =>
      match parse_url url with
      | None => Err InvalidUrl
      | Some u =>
          let resp := meaning (web u) in
          if redirect_status (status resp) then
            match header resp (text "location") with
            | Some loc => follow web hops' (next_url u loc)
            | None => Ok resp
            end
          else Ok resp
      end
  end.

Definition http_result (r : result HttpError HttpResponse) : result trouble HttpResponse :=
  match r with Ok x => Ok x | Err e => Err (Http e) end.

Section web.
Variable web : Url → reply.

(** Every request for a page, whatever its cookies, gets the page over TLS; the
    pages redirect to https only. *)
Hypothesis web_ok : ∀ u, reply_ok (web u).
Hypothesis web_served : ∀ u cookies w,
  (https_request (host u) (port u) (serialize (fetch_request u cookies) (host u)) w).1 = Some (reply_wire (web u)).
Hypothesis web_secure : ∀ u loc u', redirects (meaning (web u)) loc → scheme u = text "https" →
  parse_url (next_url u loc) = Some u' → scheme u' = text "https".

Lemma fetch_page u b : scheme u = text "https" → (fetch_once u b).1 = Ok (meaning (web u)).
Proof using web_ok web_served.
  intros Hu. unfold fetch_once. destruct (header_for _ _ _ _ _) as [c j]. unfold exchange. rewrite bool_decide_eq_true_2 by done.
  unfold https_exchange. pose proof (web_served u c (net b)) as Hw. destruct (https_request _ _ _ _) as [o w]. cbn [fst] in Hw. subst o.
  destruct (parse_reply (web u) (mkSlice (reply_wire (web u)) 0) []) as (t' & E & _); [exact I|apply web_ok|by destruct (frame (web u))|by rewrite app_nil_r|].
  by rewrite E.
Qed.

Lemma recursive_follows hops : ∀ url b,
  (∀ u, parse_url url = Some u → scheme u = text "https") →
  (http_get_recursive hops url b).1 = http_result (follow web hops url).
Proof using web_ok web_served web_secure.
  induction hops as [|hops IH]; intros url b Hs; [done|]. cbn [http_get_recursive follow].
  destruct (parse_url url) as [u|]; [|done]. specialize (Hs u eq_refl). pose proof (fetch_page u b Hs) as Hf.
  destruct (fetch_once u b) as [o b']. cbn [fst] in Hf. subst o.
  destruct (redirect_status (status (meaning (web u)))) eqn:Er; [|done].
  destruct (header (meaning (web u)) (text "location")) as [loc|] eqn:El; [|done].
  apply IH. intros u' Hu'. by apply (web_secure u loc u').
Qed.

End web.
End fetch.

(** ** Redirects within a site *)
Lemma rfind_byte_none c s : Forall (λ b, b ≠ c) s → rfind_byte c s = None.
Proof. induction 1 as [|b s Hb _ IH]; [done|]. cbn. by rewrite IH, (proj2 (Z.eqb_neq _ _) Hb). Qed.

Lemma parse_url_site s h p :
  s = text "http" ∨ s = text "https" → Forall (λ b, b ≠ 47) h → Forall (λ b, b ≠ 58) h →
  parse_url (s ++ text "://" ++ h ++ 47 :: p)
  = Some match find_byte 63 (47 :: p) with
         | Some q => mkUrl s h (default_port s) (take q (47 :: p)) (drop (S q) (47 :: p))
         | None => mkUrl s h (default_port s) (47 :: p) []
         end.
Proof.
  intros Hs Hh Hc. unfold parse_url.
  assert (Ef : find_text (text "://") (s ++ text "://" ++ h ++ 47 :: p) = Some (length s)).
  { destruct Hs as [-> | ->]; reflexivity. }
  rewrite Ef. rewrite <- drop_drop, drop_app_length. change (drop 3 (text "://" ++ h ++ 47 :: p)) with (h ++ 47 :: p).
  rewrite take_app_length, (find_byte_app 47) by done. rewrite take_app_length, drop_app_length.
  unfold split_authority. rewrite (rfind_byte_none 58) by done.
  assert (El : to_ascii_lowercase s = s) by (by destruct Hs as [-> | ->]).
  rewrite El. destruct Hs as [-> | ->]; cbn [bool_decide]; (destruct (find_byte 63 (47 :: p)); reflexivity).
Qed.

(** A redirect to a path of the site stays on it, when the port is the scheme's own. *)
Lemma redirect_keeps_site u p :
  scheme u = text "http" ∨ scheme u = text "https" → Forall (λ b, b ≠ 47) (host u) → Forall (λ b, b ≠ 58) (host u) →
  ∃ v, parse_url (next_url u (47 :: p)) = Some v ∧ scheme v = scheme u ∧ host v = host u
    ∧ port v = default_port (scheme u) ∧ (query v ≠ [] → request_target v = 47 :: p).
Proof.
  intros Hs Hh Hc. unfold next_url.
  assert (Hst : starts_with [47] (47 :: p) = true) by (apply starts_with_spec; by exists p). rewrite Hst.
  rewrite <- !app_assoc, parse_url_site by done. eexists. split; [done|].
  destruct (find_byte 63 (47 :: p)) as [q|] eqn:Eq; cbn [scheme host port query]; [|done]. do 3 (split; [done|]).
  intros Hq. unfold request_target. cbn [query path]. destruct (drop (S q) (47 :: p)) as [|x l] eqn:Ed; [done|].
  rewrite <- Ed. apply find_byte_bound in Eq as (Hl & Hx & _). cbn [app]. by apply take_drop_middle.
Qed.

(** ** Witness *)
Definition to_b : reply :=
  mkReply (text "HTTP/1.1") (text "302") 302 (text "Found") [(text "Location", text " https://b.example/x"); (text "Content-Length", text "0")] (Sized []).
Definition page_b : reply :=
  mkReply (text "HTTP/1.1") (text "200") 200 (text "OK") [(text "Set-Cookie", text "s=1")] (UntilClose (text "hello")).
Definition demo_site (h : list Z) : reply := if bool_decide (h = text "a.example") then to_b else page_b.
Definition demo_web (u : Url) : reply := demo_site (host u).

#[export] Instance demo_net : Net unit queues := {|
  uptime_secs _ := 7;
  https_request h _ _ w := (Some (reply_wire (demo_site h)), w);
  resolve _ w := (Some 0x0A000001, w);
  connect _ _ _ w := (Some (mkQueues [] []), w);
  close _ w := w
|}.

Lemma demo_web_ok u : reply_ok (demo_web u).
Proof.
  unfold demo_web, demo_site. case_bool_decide; (split; [apply line_okb; vm_compute; reflexivity|apply no_byte; vm_compute; reflexivity
    |split; [apply no_byte|]; vm_compute; reflexivity
    |repeat constructor; try (apply no_byte; vm_compute; reflexivity); vm_compute; done|]).
  - split; [vm_compute; reflexivity|]. exists (text "0"). split; vm_compute; reflexivity.
  - split; [vm_compute; reflexivity|]. split; [vm_compute; reflexivity|]. vm_compute. discriminate.
Qed.

Lemma demo_web_secure u loc u' :
  redirects (meaning (demo_web u)) loc → scheme u = text "https" → parse_url (next_url u loc) = Some u' → scheme u' = text "https".
Proof.
  unfold demo_web, demo_site. case_bool_decide.
  - intros [_ E] _. vm_compute in E. injection E as <-. vm_compute. by intros [= <-].
  - intros [E _]. vm_compute in E. discriminate.
Qed.

Lemma demo_web_served u cookies (w : unit) :
  (https_request (host u) (port u) (serialize (fetch_request u cookies) (host u)) w).1 = Some (reply_wire (demo_web u)).
Proof. reflexivity. Qed.


(** ** Findings *)

(** Finding: relative redirects drop the port of the page. *)
Lemma redirect_loses_port :
  parse_url (next_url (mkUrl (text "http") (text "a.example") 8080 (text "/x") []) (text "/y"))
  = Some (mkUrl (text "http") (text "a.example") 80 (text "/y") []).
Proof. vm_compute. reflexivity. Qed.

(** Finding: a location without a scheme ([//host/path]) is taken for a path of the
    same host. *)
Lemma scheme_relative_misread :
  parse_url (next_url (mkUrl (text "https") (text "a.example") 443 (text "/x") []) (text "//b.example/y"))
  = Some (mkUrl (text "https") (text "a.example") 443 (text "//b.example/y") []).
Proof. vm_compute. reflexivity. Qed.

(** Finding: over plain TCP the response must already be there when the request is
    sent: nothing waits for it. *)
Lemma plain_http_does_not_wait :
  (http_get (text "http://b.example/") (mkBrowser ∅ ())).1 = Err (Http RecvFailed).
Proof. vm_compute. reflexivity. Qed.
