(* ===== verification/Elf.v ===== *)
(** * ELF loader ([kernel/src/process/elf.rs]) and dynamic linker ([dynlink.rs])

    The headers as the loader reads them from the bytes of a file, the accesses to the
    memory of the new process that loading is made of, the trampoline page and the
    relocations of dynamic executables, and [load_elf]: the checks of the header, the
    segments mapped page by page into the address space of the new process, and the
    relocations.  The addresses of the kernel's own C library functions
    ([posix::linker::lookup_symbol]) are assigned when the kernel is linked:
    [lookup_symbol] is a parameter. *)

From S2P Require Import Prelude Bits Words TextBytes SmartPack Frame Paging PagingProofs Cow CowProofs.

(** Why loading does not go on: an error of the loader, a panic of the kernel, an
    access through a raw pointer outside the file or outside a user page, or a loop
    without end. *)
Inductive stop :=
| Fails (s : string)
| Panics
| Wild
| Hangs.

(** ** Structures *)
Record Elf64Header := mkHeader {
  e_ident : list Z;
  e_type : Z; e_machine : Z; e_version : Z;
  e_entry : Z; e_phoff : Z; e_shoff : Z;
  eh_flags : Z; e_ehsize : Z; e_phentsize : Z; e_phnum : Z;
  e_shentsize : Z; e_shnum : Z; e_shstrndx : Z
}.

Record Elf64ProgramHeader := mkPhdr {
  p_type : Z; p_flags : Z; p_offset : Z; p_vaddr : Z;
  p_paddr : Z; p_filesz : Z; p_memsz : Z; p_align : Z
}.

Record Elf64Dyn := mkDyn { d_tag : Z; d_val : Z }.
Record Elf64Rela := mkRela { r_offset : Z; r_info : Z; r_addend : Z }.
Record Elf64Sym := mkSym { st_name : Z; st_info : Z; st_other : Z; st_shndx : Z; st_value : Z; st_size : Z }.

Definition ELF_MAGIC : list Z := [0x7f; 69; 76; 70].
Definition PT_LOAD : Z := 1.
Definition PT_DYNAMIC : Z := 2.
Definition PF_X : Z := 1.
Definition PF_W : Z := 2.
Definition DT_NULL : Z := 0.
Definition DT_PLTRELSZ : Z := 2.
Definition DT_STRTAB : Z := 5.
Definition DT_SYMTAB : Z := 6.
Definition DT_RELA : Z := 7.
Definition DT_RELASZ : Z := 8.
Definition DT_RELAENT : Z := 9.
Definition DT_JMPREL : Z := 23.
Definition R_X86_64_64 : Z := 1.
Definition R_X86_64_GLOB_DAT : Z := 6.
Definition R_X86_64_JUMP_SLOT : Z := 7.
Definition R_X86_64_RELATIVE : Z := 8.

(** ** Reading *)

(** [read_unaligned] at an offset of the file. *)
Definition raw (data : list Z) (off : Z) (n : nat) : option (list Z) :=
  if off + Z.of_nat n <=? Z.of_nat (length data) then Some (take n (drop (Z.to_nat off) data)) else None.

Definition field (bs : list Z) (off n : nat) : Z := from_le_bytes (take n (drop off bs)).

Definition header_of (bs : list Z) : Elf64Header :=
  mkHeader (take 16 bs) (field bs 16 2) (field bs 18 2) (field bs 20 4) (field bs 24 8) (field bs 32 8) (field bs 40 8)
    (field bs 48 4) (field bs 52 2) (field bs 54 2) (field bs 56 2) (field bs 58 2) (field bs 60 2) (field bs 62 2).

Definition phdr_of (bs : list Z) : Elf64ProgramHeader :=
  mkPhdr (field bs 0 4) (field bs 4 4) (field bs 8 8) (field bs 16 8) (field bs 24 8) (field bs 32 8) (field bs 40 8) (field bs 48 8).

Definition dyn_of (bs : list Z) : Elf64Dyn := mkDyn (to_signed 64 (field bs 0 8)) (field bs 8 8).
Definition rela_of (bs : list Z) : Elf64Rela := mkRela (field bs 0 8) (field bs 8 8) (to_signed 64 (field bs 16 8)).
Definition sym_of (bs : list Z) : Elf64Sym :=
  mkSym (field bs 0 4) (field bs 4 1) (field bs 5 1) (field bs 6 2) (field bs 8 8) (field bs 16 8).

(** [elf_data[start..]] and a program header there. *)
Definition read_phdr (data : list Z) (start : Z) : result stop Elf64ProgramHeader :=
  if Z.of_nat (length data) <? start then Err Panics
  else match raw data start 56 with Some bs => Ok (phdr_of bs) | None => Err Wild end.

(** Whether an address belongs to a segment, with the wrap-around of the sum. *)
Definition covers (ph : Elf64ProgramHeader) (va : Z) : bool :=
  (p_type ph =? PT_LOAD) && (p_vaddr ph <=? va) && (va <? wrap 64 (p_vaddr ph + p_memsz ph)).

(** ** Memory *)
Section Memory.
Context `{PhysFrames} {A : Type} `{!FrameAlloc A} `{!Mapper A}.

Abbreviation L := (M (Mem A) stop).

(** [VirtAddr::new] accepts sign-extended 48-bit addresses. *)
Definition canonical (va : Z) : bool := (va <? 2 ^ 47) || (2 ^ 64 - 2 ^ 47 <=? va).

(** [translate_in_pml4] for an address of the user half. *)
Definition translate_in_pml4 (pml4 : PhysFrame) (va : Z) (s : Mem A) : option (PhysFrame * nat) :=
  match view s (start_address pml4) (page_base va) with
  | Some x => Some (e_frame x, Z.to_nat (va `mod` 4096))
  | None => None
  end.

(** [write_unaligned] of a word at the translation of an address.  The kernel half is
    translated like any other address, and a word at the end of a frame reaches into
    the next one: there the model stops. *)
Definition poke (pml4 : PhysFrame) (va value : Z) : L unit :=
  λ s,
    if negb (canonical va) then (Err Panics, s)
    else if 2 ^ 47 <=? va then (Err Wild, s)
    else match translate_in_pml4 pml4 va s with
         | None => (Ok tt, s)
         | Some (f, off) =>
             if (4096 <? off + 8)%nat then (Err Wild, s)
             else (Ok tt, set_contents (<[start_address f := copy_at off (to_le_bytes 8 value) (page_data s f)]> (contents s)) s)
         end.
End Memory.

Definition TRAMPOLINE_BASE : Z := 0x7FFFE000.
Definition STUB_SIZE : Z := 16.
Definition COMPLEX_BASE : Z := 0x800.

(** ** Trampolines *)
Definition SHIM_SYMBOLS : list (string * Z) :=
  [("malloc", 0 * STUB_SIZE); ("calloc", 1 * STUB_SIZE); ("realloc", 2 * STUB_SIZE); ("free", 3 * STUB_SIZE);
   ("memcpy", 4 * STUB_SIZE); ("memmove", 5 * STUB_SIZE); ("memset", 6 * STUB_SIZE); ("memcmp", 7 * STUB_SIZE);
   ("strlen", 8 * STUB_SIZE); ("strcpy", 9 * STUB_SIZE); ("strncpy", 10 * STUB_SIZE); ("strcmp", 11 * STUB_SIZE);
   ("strncmp", 12 * STUB_SIZE); ("strcat", 13 * STUB_SIZE); ("strncat", 14 * STUB_SIZE); ("strchr", 15 * STUB_SIZE);
   ("strrchr", 16 * STUB_SIZE); ("strstr", 17 * STUB_SIZE); ("strtol", 18 * STUB_SIZE); ("strtoul", 19 * STUB_SIZE);
   ("atoi", 20 * STUB_SIZE); ("atol", 21 * STUB_SIZE); ("printf", 22 * STUB_SIZE); ("fprintf", 23 * STUB_SIZE);
   ("sprintf", 24 * STUB_SIZE); ("snprintf", 25 * STUB_SIZE); ("puts", 26 * STUB_SIZE); ("fputs", 27 * STUB_SIZE);
   ("fwrite", 28 * STUB_SIZE); ("fread", 29 * STUB_SIZE); ("fopen", 30 * STUB_SIZE); ("fclose", 31 * STUB_SIZE);
   ("fflush", 32 * STUB_SIZE); ("getenv", 33 * STUB_SIZE); ("setenv", 34 * STUB_SIZE); ("unsetenv", 35 * STUB_SIZE);
   ("exit", 36 * STUB_SIZE); ("abort", 37 * STUB_SIZE); ("_exit", 38 * STUB_SIZE); ("pthread_create", 40 * STUB_SIZE);
   ("pthread_join", 41 * STUB_SIZE); ("pthread_exit", 42 * STUB_SIZE); ("pthread_mutex_lock", 43 * STUB_SIZE);
   ("pthread_mutex_unlock", 44 * STUB_SIZE); ("pthread_mutex_init", 45 * STUB_SIZE); ("pthread_mutex_destroy", 46 * STUB_SIZE);
   ("dlopen", 47 * STUB_SIZE); ("dlsym", 48 * STUB_SIZE); ("dlclose", 49 * STUB_SIZE); ("dlerror", 50 * STUB_SIZE);
   ("write", 51 * STUB_SIZE); ("read", 52 * STUB_SIZE); ("open", 53 * STUB_SIZE); ("close", 54 * STUB_SIZE);
   ("mmap", 55 * STUB_SIZE); ("munmap", 56 * STUB_SIZE); ("brk", 57 * STUB_SIZE); ("sbrk", 58 * STUB_SIZE);
   ("getpid", 59 * STUB_SIZE); ("gettid", 60 * STUB_SIZE); ("clock_gettime", 61 * STUB_SIZE); ("nanosleep", 62 * STUB_SIZE);
   ("raise", 63 * STUB_SIZE); ("signal", 64 * STUB_SIZE); ("sigaction", 65 * STUB_SIZE); ("__errno_location", 66 * STUB_SIZE);
   ("__cxa_finalize", 67 * STUB_SIZE); ("__cxa_atexit", 68 * STUB_SIZE);
   ("__libc_start_main", COMPLEX_BASE); ("__libc_start_main@GLIBC_2.34", COMPLEX_BASE)]%string.

(** [mov eax, 0x8000 + i; syscall; ret] and padding. *)
Definition stub (i : nat) : list Z := [0xB8] ++ to_le_bytes 4 (0x8000 + Z.of_nat i) ++ [0x0F; 0x05; 0xC3] ++ replicate 8 0x90.

Definition start_main_stub : list Z :=
  [0x49; 0x89; 0xFB; 0x48; 0x89; 0xF7; 0x48; 0x89; 0xD6; 0x31; 0xD2; 0x41; 0xFF; 0xD3; 0x48; 0x89; 0xC7;
   0xB8; 60; 0; 0; 0; 0x0F; 0x05; 0x0F; 0x0B].

Definition build_trampoline_page : list Z :=
  let p := concat (map stub (seq 0 128)) ++ start_main_stub in p ++ replicate (4096 - length p) 0x90.

(** The first entry of a name. *)
Fixpoint find_symbol (symbol : list Z) (l : list (string * Z)) : option Z :=
  match l with
  | [] => None
  | (name, off) :: l' => if bool_decide (text name = symbol) then Some off else find_symbol symbol l'
  end.

Definition trampoline_addr (symbol : list Z) : option Z :=
  match find_symbol symbol SHIM_SYMBOLS with Some off => Some (TRAMPOLINE_BASE + off) | None => None end.

Section Dynlink.
Context `{PhysFrames} {A : Type} `{!FrameAlloc A} `{!Mapper A}.
Variable lookup_symbol : list Z → option Z.

Abbreviation L := (M (Mem A) stop).

(** At boot: the frame of the trampolines, if there is one. *)
Definition init (s : Mem A) : option PhysFrame * Mem A :=
  match fa_alloc (falloc s) with
  | (None, a) => (None, set_alloc a s)
  | (Some f, a) => (Some f, set_contents (<[start_address f := build_trampoline_page]> (contents s)) (set_alloc a s))
  end.

Definition map_trampoline (tramp : option PhysFrame) (pml4 : PhysFrame) : L unit := λ s,
  match tramp with
  | None => (Ok tt, s)
  | Some f =>
      (Ok tt, (map_page pml4 TRAMPOLINE_BASE f (insert_flag (insert_flag 0 PRESENT) USER_ACCESSIBLE) s).2)
  end.

(** ** The file *)

(** The program header table. *)
Record phtab := mkPhtab { ph_offset : Z; ph_size : Z; ph_count : nat }.

Fixpoint file_off_loop (data : list Z) (t : phtab) (i : nat) (left : nat) (va : Z) : result stop (option Z) :=
  match left with
  | O => Ok None
  | S left' =>
      let start := wrap 64 (ph_offset t + Z.of_nat i * ph_size t) in
      if Z.of_nat (length data) <? wrap 64 (start + ph_size t) then Ok None
      else match read_phdr data start with
           | Err e => Err e
           | Ok ph =>
               if covers ph va then Ok (Some (wrap 64 (p_offset ph + (va - p_vaddr ph))))
               else file_off_loop data t (S i) left' va
           end
  end.

Definition vaddr_to_file_off (data : list Z) (t : phtab) (va : Z) : result stop (option Z) :=
  file_off_loop data t 0 (ph_count t) va.

(** Up to the next zero; without one, 256 bytes. *)
Definition read_strtab (data : list Z) (strtab_file_off name_off : Z) : list Z :=
  let start := wrap 64 (strtab_file_off + name_off) in
  if Z.of_nat (length data) <=? start then []
  else
    let slice := drop (Z.to_nat start) data in
    let end_ := match find_byte 0 slice with Some i => i | None => min (length slice) 256 end in
    let name := take end_ slice in
    if utf8_valid name then name else [].

(** The entries of the dynamic section the linker looks for. *)
Record dyn_info := mkDynInfo {
  dt_strtab : option Z; dt_symtab : option Z; dt_jmprel : option Z; dt_pltrelsz : option Z;
  dt_rela : option Z; dt_relasz : option Z; dt_relaent : option Z
}.

Definition note_dyn (d : Elf64Dyn) (i : dyn_info) : dyn_info :=
  let v := Some (d_val d) in
  if d_tag d =? DT_STRTAB then mkDynInfo v (dt_symtab i) (dt_jmprel i) (dt_pltrelsz i) (dt_rela i) (dt_relasz i) (dt_relaent i)
  else if d_tag d =? DT_SYMTAB then mkDynInfo (dt_strtab i) v (dt_jmprel i) (dt_pltrelsz i) (dt_rela i) (dt_relasz i) (dt_relaent i)
  else if d_tag d =? DT_JMPREL then mkDynInfo (dt_strtab i) (dt_symtab i) v (dt_pltrelsz i) (dt_rela i) (dt_relasz i) (dt_relaent i)
  else if d_tag d =? DT_PLTRELSZ then mkDynInfo (dt_strtab i) (dt_symtab i) (dt_jmprel i) v (dt_rela i) (dt_relasz i) (dt_relaent i)
  else if d_tag d =? DT_RELA then mkDynInfo (dt_strtab i) (dt_symtab i) (dt_jmprel i) (dt_pltrelsz i) v (dt_relasz i) (dt_relaent i)
  else if d_tag d =? DT_RELASZ then mkDynInfo (dt_strtab i) (dt_symtab i) (dt_jmprel i) (dt_pltrelsz i) (dt_rela i) v (dt_relaent i)
  else if d_tag d =? DT_RELAENT then mkDynInfo (dt_strtab i) (dt_symtab i) (dt_jmprel i) (dt_pltrelsz i) (dt_rela i) (dt_relasz i) v
  else i.

(** Sixteen bytes further each time, within the file. *)
Fixpoint dyn_loop (fuel : nat) (data : list Z) (dyn_file_off dyn_size off : Z) (i : dyn_info) : result stop dyn_info :=
  match fuel with
  | O => Err Hangs
  | S fuel' =>
      if dyn_size <? wrap 64 (off + 16) then Ok i
      else if Z.of_nat (length data) <? wrap 64 (dyn_file_off + off + 16) then Ok i
      else match raw data (wrap 64 (dyn_file_off + off)) 16 with
           | None => Err Wild
           | Some bs =>
               let d := dyn_of bs in
               if d_tag d =? DT_NULL then Ok i
               else dyn_loop fuel' data dyn_file_off dyn_size (off + 16) (note_dyn d i)
           end
  end.

(** ** Relocations *)

Definition sym_name (data : list Z) (sym_idx : Z) (strtab_off symtab_off : option Z) : result stop (list Z) :=
  match symtab_off, strtab_off with
  | Some st_off, Some str_off =>
      let sym_off := wrap 64 (st_off + sym_idx * 24) in
      if wrap 64 (sym_off + 24) <=? Z.of_nat (length data) then
        match raw data sym_off 24 with
        | Some bs => Ok (read_strtab data str_off (st_name (sym_of bs)))
        | None => Err Wild
        end
      else Ok []
  | _, _ => Ok []
  end.

Definition symbol_addr (name : list Z) : Z :=
  match trampoline_addr name with
  | Some a => a
  | None => match lookup_symbol name with Some a => a | None => 0 end
  end.

Definition resolve (data : list Z) (load_bias r_type sym_idx : Z) (rela : Elf64Rela) (strtab_off symtab_off : option Z)
    : result stop Z :=
  if r_type =? R_X86_64_RELATIVE then Ok (wrap 64 (load_bias + r_addend rela))
  else if sym_idx =? 0 then Ok 0
  else
    match sym_name data sym_idx strtab_off symtab_off with
    | Err e => Err e
    | Ok name =>
        Ok (if (r_type =? R_X86_64_JUMP_SLOT) || (r_type =? R_X86_64_GLOB_DAT) then symbol_addr name
            else if r_type =? R_X86_64_64 then wrap 64 (symbol_addr name + r_addend rela)
            else 0)
    end.

Definition lift {X} (r : result stop X) : L X := λ s, (r, s).

Fixpoint rela_loop (fuel : nat) (pml4 : PhysFrame) (data : list Z) (load_bias table_off table_sz entry_sz : Z)
    (strtab_off symtab_off : option Z) (off : Z) : L unit :=
  match fuel with
  | O => throw Hangs
  | S fuel' =>
      if wrap 64 (off + 24) <=? table_sz then
        if Z.of_nat (length data) <? wrap 64 (table_off + off + 24) then mret tt
        else match raw data (wrap 64 (table_off + off)) 24 with
             | None => throw Wild
             | Some bs =>
                 let rela := rela_of bs in
                 lift (resolve data load_bias (Z.land (r_info rela) 0xFFFFFFFF) (Z.shiftr (r_info rela) 32) rela strtab_off symtab_off)
                   ≫= λ value, poke pml4 (wrap 64 (r_offset rela + load_bias)) value
                   ≫= λ _, rela_loop fuel' pml4 data load_bias table_off table_sz entry_sz strtab_off symtab_off
                     (wrap 64 (off + Z.max entry_sz 24))
             end
      else mret tt
  end.

Definition maybe_off (data : list Z) (t : phtab) (va : option Z) : result stop (option Z) :=
  match va with None => Ok None | Some va => vaddr_to_file_off data t va end.

Definition apply_rela_table (pml4 : PhysFrame) (data : list Z) (load_bias : Z) (t : phtab) (table_va table_sz entry_sz : Z)
    (i : dyn_info) : L unit :=
  lift (vaddr_to_file_off data t table_va) ≫= λ o,
  match o with
  | None => mret tt
  | Some table_off =>
      lift (maybe_off data t (dt_strtab i)) ≫= λ strtab_off,
      lift (maybe_off data t (dt_symtab i)) ≫= λ symtab_off,
      rela_loop (S (length data)) pml4 data load_bias table_off table_sz entry_sz strtab_off symtab_off 0
  end.

Definition apply (tramp : option PhysFrame) (pml4 : PhysFrame) (data : list Z) (load_bias dyn_vaddr dyn_size : Z) (t : phtab)
    : L unit :=
  map_trampoline tramp pml4 ≫= λ _,
  lift (vaddr_to_file_off data t dyn_vaddr) ≫= λ o,
  match o with
  | None => mret tt
  | Some dyn_file_off =>
      lift (dyn_loop (S (length data)) data dyn_file_off dyn_size 0 (mkDynInfo None None None None None None None)) ≫= λ i,
      lift (maybe_off data t (dt_strtab i)) ≫= λ _,
      match dt_jmprel i, dt_pltrelsz i with
      | Some va, Some sz => apply_rela_table pml4 data load_bias t va sz 24 i
      | _, _ => mret tt
      end ≫= λ _,
      match dt_rela i, dt_relasz i, dt_relaent i with
      | Some va, Some sz, Some ent => apply_rela_table pml4 data load_bias t va sz ent i
      | _, _, _ => mret tt
      end
  end.
End Dynlink.

Definition NO_EXECUTE : Z := 63.

Record LoadedElf := mkLoaded { entry_point : Z; highest_addr : Z; is_linux : bool }.

Section Elf.
Context `{PhysFrames} {A : Type} `{!FrameAlloc A} `{!Mapper A}.
Variable lookup_symbol : list Z → option Z.

Abbreviation L := (M (Mem A) stop).

(** ** Segments *)
Definition seg_flags (ph : Elf64ProgramHeader) : Z :=
  let flags := insert_flag (insert_flag 0 PRESENT) USER_ACCESSIBLE in
  let flags := if Z.land (p_flags ph) PF_W =? 0 then flags else insert_flag flags WRITABLE in
  if Z.land (p_flags ph) PF_X =? 0 then insert_flag flags NO_EXECUTE else flags.

Definition seg_vaddr (bias : Z) (ph : Elf64ProgramHeader) : Z := wrap 64 (p_vaddr ph + bias).
Definition seg_end (bias : Z) (ph : Elf64ProgramHeader) : Z := wrap 64 (seg_vaddr bias ph + p_memsz ph).
Definition page_start (bias : Z) (ph : Elf64ProgramHeader) : Z := Z.land (seg_vaddr bias ph) (not64 0xFFF).
Definition page_end (bias : Z) (ph : Elf64ProgramHeader) : Z := Z.land (wrap 64 (seg_end bias ph + 0xFFF)) (not64 0xFFF).
Definition page_count (bias : Z) (ph : Elf64ProgramHeader) : Z := wrap 64 (page_end bias ph - page_start bias ph) `div` 4096.

(** The bytes of a page: zeroes, and what the file has for it. *)
Definition page_bytes (data : list Z) (bias : Z) (ph : Elf64ProgramHeader) (page : Z) : result stop (list Z) :=
  let vaddr := seg_vaddr bias ph in
  if 0 <? p_filesz ph then
    let copy_vstart := Z.max page vaddr in
    let copy_vend := Z.min (wrap 64 (page + 4096)) (wrap 64 (vaddr + p_filesz ph)) in
    if copy_vstart <? copy_vend then
      let dest_off := copy_vstart - page in
      let src_off := wrap 64 (p_offset ph + (copy_vstart - vaddr)) in
      let copy_len := copy_vend - copy_vstart in
      if wrap 64 (src_off + copy_len) <=? Z.of_nat (length data) then
        if src_off + copy_len <=? Z.of_nat (length data) then
          Ok (copy_at (Z.to_nat dest_off) (take (Z.to_nat copy_len) (drop (Z.to_nat src_off) data)) zero_page)
        else Err Panics
      else Ok zero_page
    else Ok zero_page
  else Ok zero_page.

Definition load_page (data : list Z) (bias : Z) (pml4 : PhysFrame) (ph : Elf64ProgramHeader) (page : Z) : L unit := λ s,
  if negb (canonical page) then (Err Panics, s)
  else match fa_alloc (falloc s) with
       | (None, a) => (Err (Fails "Out of frames for ELF segment"), set_alloc a s)
       | (Some f, a) =>
           match map_page pml4 page f (seg_flags ph) (set_alloc a s) with
           | (Err e, s') => (Err (Fails e), s')
           | (Ok _, s') =>
               match page_bytes data bias ph page with
               | Err e => (Err e, s')
               | Ok bytes => (Ok tt, set_contents (<[start_address f := bytes]> (contents s')) s')
               end
           end
       end.

Fixpoint load_pages (data : list Z) (bias : Z) (pml4 : PhysFrame) (ph : Elf64ProgramHeader) (page : Z) (n : nat) : L unit :=
  match n with
  | O => mret tt
  | S n' => load_page data bias pml4 ph page ≫= λ _, load_pages data bias pml4 ph (wrap 64 (page + 4096)) n'
  end.

(** What the loop over the headers carries. *)
Record progress := mkProgress { highest : Z; dynamic : option (Z * Z) }.

Definition load_segment (data : list Z) (bias : Z) (pml4 : PhysFrame) (ph : Elf64ProgramHeader) (p : progress) : L progress :=
  if p_type ph =? PT_DYNAMIC then mret (mkProgress (highest p) (Some (p_vaddr ph, p_memsz ph)))
  else if negb (p_type ph =? PT_LOAD) then mret p
  else
    load_pages data bias pml4 ph (page_start bias ph) (Z.to_nat (page_count bias ph)) ≫= λ _,
    mret (mkProgress (Z.max (highest p) (seg_end bias ph)) (dynamic p)).

Fixpoint segments_loop (data : list Z) (bias : Z) (pml4 : PhysFrame) (t : phtab) (i left : nat) (p : progress) : L progress :=
  match left with
  | O => mret p
  | S left' =>
      let ph_start := wrap 64 (ph_offset t + Z.of_nat i * ph_size t) in
      if Z.of_nat (length data) <? wrap 64 (ph_start + ph_size t) then throw (Fails "Program header out of bounds")
      else lift (read_phdr data ph_start) ≫= λ ph,
           load_segment data bias pml4 ph p ≫= λ p', segments_loop data bias pml4 t (S i) left' p'
  end.

(** ** Relocations of position-independent executables *)

(** The file offset of an address, 0 when no segment has it. *)
Fixpoint find_file_off (data : list Z) (t : phtab) (i left : nat) (va : Z) : result stop Z :=
  match left with
  | O => Ok 0
  | S left' =>
      match read_phdr data (wrap 64 (ph_offset t + Z.of_nat i * ph_size t)) with
      | Err e => Err e
      | Ok ph =>
          if covers ph va then Ok (wrap 64 (p_offset ph + (va - p_vaddr ph))) else find_file_off data t (S i) left' va
      end
  end.

Record rela_info := mkRelaInfo { rela_ptr : option Z; rela_size : option Z; rela_ent : option Z }.

Definition note_rela (d : Elf64Dyn) (i : rela_info) : rela_info :=
  if d_tag d =? DT_RELA then mkRelaInfo (Some (d_val d)) (rela_size i) (rela_ent i)
  else if d_tag d =? DT_RELASZ then mkRelaInfo (rela_ptr i) (Some (d_val d)) (rela_ent i)
  else if d_tag d =? DT_RELAENT then mkRelaInfo (rela_ptr i) (rela_size i) (Some (d_val d))
  else i.

Fixpoint dynamic_loop (fuel : nat) (data : list Z) (t : phtab) (dyn_vaddr size offset : Z) (i : rela_info) : result stop rela_info :=
  match fuel with
  | O => Err Hangs
  | S fuel' =>
      if size <=? offset then Ok i
      else match find_file_off data t 0 (ph_count t) dyn_vaddr with
           | Err e => Err e
           | Ok off =>
               match raw data (wrap 64 (off + offset)) 16 with
               | None => Err Wild
               | Some bs =>
                   let d := dyn_of bs in
                   if d_tag d =? DT_NULL then Ok i
                   else dynamic_loop fuel' data t dyn_vaddr size (wrap 64 (offset + 16)) (note_rela d i)
               end
           end
  end.

Fixpoint relocate_loop (fuel : nat) (data : list Z) (bias : Z) (pml4 : PhysFrame) (t : phtab) (r_ptr r_sz r_ent r_off : Z) : L unit :=
  match fuel with
  | O => throw Hangs
  | S fuel' =>
      if r_sz <=? r_off then mret tt
      else
        lift (find_file_off data t 0 (ph_count t) r_ptr) ≫= λ off,
        match raw data (wrap 64 (off + r_off)) 24 with
        | None => throw Wild
        | Some bs =>
            let rela := rela_of bs in
            (if Z.land (r_info rela) 0xFFFFFFFF =? R_X86_64_RELATIVE
             then poke pml4 (wrap 64 (r_offset rela + bias)) (wrap 64 (bias + r_addend rela)) else mret tt) ≫= λ _,
            relocate_loop fuel' data bias pml4 t r_ptr r_sz r_ent (wrap 64 (r_off + r_ent))
        end
  end.

Definition relocate (data : list Z) (bias : Z) (pml4 : PhysFrame) (t : phtab) (dyn_vaddr dyn_size : Z) : L unit :=
  lift (dynamic_loop (S (length data)) data t dyn_vaddr dyn_size 0 (mkRelaInfo None None None)) ≫= λ i,
  match rela_ptr i, rela_size i, rela_ent i with
  | Some r_ptr, Some r_sz, Some r_ent => relocate_loop (S (length data)) data bias pml4 t r_ptr r_sz r_ent 0
  | _, _, _ => mret tt
  end.

(** ** The loader *)

Definition check_header (data : list Z) : result stop Elf64Header :=
  if (length data <? 64)%nat then Err (Fails "ELF too small")
  else
    let h := header_of data in
    if negb (bool_decide (take 4 (e_ident h) = ELF_MAGIC)) then Err (Fails "Not an ELF file")
    else if negb (bool_decide (e_ident h !! 4%nat = Some 2)) then Err (Fails "Not ELF64")
    else if negb (e_machine h =? 0x3E) then Err (Fails "Not x86_64 ELF")
    else Ok h.

(** [rand] is what the TPM answers, if it is there and active. *)
Definition load_bias (rand : option Z) : Z :=
  match rand with Some r => Z.land r 0xFFFF000 + 0x100000 | None => 0 end.

Definition load_elf (tramp : option PhysFrame) (rand : option Z) (data : list Z) (pml4 : PhysFrame) : L LoadedElf :=
  lift (check_header data) ≫= λ h,
  let linux := bool_decide (e_ident h !! 7%nat = Some 0) || bool_decide (e_ident h !! 7%nat = Some 3) in
  let is_pie := e_type h =? 3 in
  let bias := if is_pie then load_bias rand else 0 in
  let t := mkPhtab (e_phoff h) (e_phentsize h) (Z.to_nat (e_phnum h)) in
  segments_loop data bias pml4 t 0 (ph_count t) (mkProgress 0 None) ≫= λ p,
  match dynamic p with
  | Some (va, sz) =>
      (if is_pie then relocate data bias pml4 t va sz else mret tt) ≫= λ _, apply lookup_symbol tramp pml4 data bias va sz t
  | None => mret tt
  end ≫= λ _,
  mret (mkLoaded (wrap 64 (e_entry h + bias)) (highest p) linux).
End Elf.
