(* ===== verification/ElfProofs.v ===== *)
(** * Loaded programs

    What a program sees in its address space after [load_elf]. *)

From S2P Require Import Prelude Bits Words SmartPack Frame Paging PagingProofs Cow CowProofs Elf.

(** ** Arithmetic *)
Lemma lookup_copy_at {X} (off k : nat) (src buf : list X) :
  (off + length src ≤ length buf)%nat →
  copy_at off src buf !! k = if bool_decide (off ≤ k < off + length src)%nat then src !! (k - off)%nat else buf !! k.
Proof.
  intros Hl. unfold copy_at. case_bool_decide as Hk.
  - rewrite lookup_app_r by (rewrite length_take; lia). rewrite length_take, Nat.min_l by lia. by rewrite lookup_app_l by lia.
  - destruct (le_lt_dec off k).
    + rewrite lookup_app_r by (rewrite length_take; lia). rewrite length_take, Nat.min_l by lia.
      rewrite lookup_app_r by lia. rewrite lookup_drop. f_equal. lia.
    + rewrite lookup_app_l by (rewrite length_take; lia). by rewrite lookup_take_lt by lia.
Qed.

Lemma align_page x : 0 ≤ x < 2 ^ 64 → Z.land x (not64 0xFFF) = x - x `mod` 4096.
Proof. intros Hx. change 0xFFF with (FRAME_SIZE - 1). rewrite align_down by done. unfold FRAME_SIZE. Z.to_euclidean_division_equations. lia. Qed.

Lemma wrap64 x : 0 ≤ x < 2 ^ 64 → wrap 64 x = x.
Proof. intros Hx. by apply wrap_id. Qed.

(** ** The image of a file *)

(** The byte of a segment at an address of the process. *)
Definition image_byte (data : list Z) (bias : Z) (ph : Elf64ProgramHeader) (a : Z) : Z :=
  let v := p_vaddr ph + bias in
  if (v <=? a) && (a <? v + p_filesz ph) then nth (Z.to_nat (p_offset ph + (a - v))) data 0 else 0.

Definition page_image (data : list Z) (bias : Z) (ph : Elf64ProgramHeader) (page : Z) : list Z :=
  map (λ k, image_byte data bias ph (page + Z.of_nat k)) (seq 0 4096).

(** A segment in the user half whose contents are in the file. *)
Record seg_ok (data : list Z) (bias : Z) (ph : Elf64ProgramHeader) : Prop := {
  so_bias : 0 ≤ bias;
  so_vaddr : 0 ≤ p_vaddr ph;
  so_user : p_vaddr ph + bias + p_memsz ph ≤ 2 ^ 47;
  so_filesz : 0 ≤ p_filesz ph ≤ p_memsz ph;
  so_file : 0 ≤ p_offset ph ∧ p_offset ph + p_filesz ph ≤ Z.of_nat (length data);
  so_length : Z.of_nat (length data) < 2 ^ 63
}.

Definition has_page (bias : Z) (ph : Elf64ProgramHeader) (w : Z) : bool :=
  (page_start bias ph <=? w) && (w <? page_end bias ph).

Section seg.
Context (data : list Z) (bias : Z) (ph : Elf64ProgramHeader).
Hypothesis Hok : seg_ok data bias ph.

Lemma seg_vaddr_eq : seg_vaddr bias ph = p_vaddr ph + bias.
Proof using Hok. destruct Hok. unfold seg_vaddr. apply wrap64. lia. Qed.

Lemma seg_end_eq : seg_end bias ph = p_vaddr ph + bias + p_memsz ph.
Proof using Hok. destruct Hok. unfold seg_end. rewrite seg_vaddr_eq. apply wrap64. lia. Qed.

Lemma page_start_eq : page_start bias ph = (p_vaddr ph + bias) - (p_vaddr ph + bias) `mod` 4096.
Proof using Hok. destruct Hok. unfold page_start. rewrite seg_vaddr_eq. apply align_page. lia. Qed.

Lemma page_end_eq : let e := p_vaddr ph + bias + p_memsz ph in page_end bias ph = (e + 4095) - (e + 4095) `mod` 4096.
Proof using Hok. destruct Hok. cbv zeta. unfold page_end. rewrite seg_end_eq, wrap64 by lia. apply align_page. lia. Qed.

(** The pages lie in the user half and cover the segment. *)
Lemma page_bounds :
  0 ≤ page_start bias ph ∧ page_start bias ph `mod` 4096 = 0 ∧ page_start bias ph ≤ page_end bias ph ≤ 2 ^ 47
  ∧ page_start bias ph ≤ p_vaddr ph + bias ∧ p_vaddr ph + bias + p_memsz ph ≤ page_end bias ph
  ∧ page_end bias ph = page_start bias ph + 4096 * page_count bias ph ∧ 0 ≤ page_count bias ph.
Proof using Hok.
  unfold page_count. pose proof page_start_eq as Es. pose proof page_end_eq as Ee. cbv zeta in Ee. destruct Hok.
  assert (G : ∀ x, 0 ≤ x → 0 ≤ x - x `mod` 4096 ∧ (x - x `mod` 4096) `mod` 4096 = 0 ∧ x - 4095 ≤ x - x `mod` 4096 ≤ x ∧ x - x `mod` 4096 = 4096 * (x `div` 4096)).
  { intros x Hx. Z.to_euclidean_division_equations. lia. }
  destruct (G (p_vaddr ph + bias)) as (S1 & S2 & S3 & S4); [lia|].
  destruct (G (p_vaddr ph + bias + p_memsz ph + 4095)) as (E1 & E2 & E3 & E4); [lia|].
  rewrite <- Es in *. rewrite <- Ee in *.
  generalize dependent (page_start bias ph). generalize dependent (page_end bias ph).
  generalize dependent ((p_vaddr ph + bias) `div` 4096). generalize dependent ((p_vaddr ph + bias + p_memsz ph + 4095) `div` 4096).
  intros r q pe Ee E1 E2 E3 E4 ps Es S1 S2 S3 S4.
  rewrite wrap64 by lia. replace (pe - ps) with ((r - q) * 4096) by lia. rewrite Z.div_mul by lia. split_and!; lia.
Qed.

Lemma page_bytes_ok w : w `mod` 4096 = 0 → has_page bias ph w = true → page_bytes data bias ph w = Ok (page_image data bias ph w).
Proof using Hok.
  intros Hm [H1%Z.leb_le H2%Z.ltb_lt]%andb_true_iff. destruct page_bounds as (B1 & B2 & B3 & B4 & B5 & B6 & B7).
  unfold page_bytes. rewrite seg_vaddr_eq. destruct Hok as [? ? Hu Hf [Ho Hd] Hlen]. set (v := p_vaddr ph + bias) in *.
  rewrite !(wrap64 (w + 4096)), !(wrap64 (v + p_filesz ph)) by lia.
  assert (Hz : (∀ k, (k < 4096)%nat → image_byte data bias ph (w + Z.of_nat k) = 0) → @Ok stop _ zero_page = Ok (page_image data bias ph w)).
  { intros Hk. f_equal. unfold zero_page, page_image. symmetry. apply list_eq. intros i.
    destruct (decide (i < 4096)%nat) as [Hi|Hi].
    - rewrite list_lookup_fmap, lookup_seq_lt, lookup_replicate_2 by done. cbn. by rewrite Hk.
    - rewrite !lookup_ge_None_2; [done|rewrite length_replicate; lia|rewrite length_map, length_seq; lia]. }
  assert (Hb : ∀ a, ¬ (v ≤ a < v + p_filesz ph) → image_byte data bias ph a = 0).
  { intros a Ha. unfold image_byte. fold v. destruct (Z.leb_spec v a), (Z.ltb_spec a (v + p_filesz ph)); cbn; [lia|done..]. }
  destruct (Z.ltb_spec 0 (p_filesz ph)) as [Hp|Hp]; [|apply Hz; intros; apply Hb; lia].
  destruct (Z.ltb_spec (Z.max w v) (Z.min (w + 4096) (v + p_filesz ph))) as [Hc|Hc];
    [|apply Hz; intros; apply Hb; lia].
  rewrite (wrap64 (p_offset ph + (Z.max w v - v))) by lia. rewrite wrap64 by lia. rewrite (proj2 (Z.leb_le _ _)) by lia.
  f_equal. unfold page_image. set (lo := Z.max w v) in *. set (hi := Z.min (w + 4096) (v + p_filesz ph)) in *.
  set (src := take _ _). assert (Hs : length src = Z.to_nat (hi - lo)) by (unfold src; rewrite length_take, length_drop; lia).
  apply list_eq. intros i. destruct (decide (i < 4096)%nat) as [Hi|Hi].
  2: { rewrite !lookup_ge_None_2; [done|rewrite length_map, length_seq; lia|].
       unfold copy_at. rewrite !length_app, length_take, length_drop, Hs. unfold zero_page. rewrite length_replicate. lia. }
  rewrite list_lookup_fmap, lookup_seq_lt by done. cbn [fmap option_fmap option_map].
  rewrite lookup_copy_at by (unfold zero_page; rewrite length_replicate, Hs; lia). rewrite Hs. case_bool_decide as Hk.
  - unfold src. rewrite lookup_take_lt, lookup_drop by lia. unfold image_byte. fold v.
    rewrite (proj2 (Z.leb_le _ _)), (proj2 (Z.ltb_lt _ _)) by lia. cbn [andb Nat.add].
    replace (Z.to_nat (p_offset ph + (lo - v)) + (i - Z.to_nat (lo - w)))%nat with (Z.to_nat (p_offset ph + (w + Z.of_nat i - v))) by lia.
    rewrite nth_lookup. destruct (lookup_lt_is_Some_2 data (Z.to_nat (p_offset ph + (w + Z.of_nat i - v))) ltac:(lia)) as [b ->]. done.
  - unfold zero_page. rewrite lookup_replicate_2 by done. rewrite Hb; [done|lia].
Qed.
End seg.

(** ** Pages *)
Section Load.
Context `{PhysFrames} {A : Type} `{!FrameAlloc A} `{!Mapper A}.
Implicit Types (s : Mem A) (P w : Z).

(** Pages added to an address space: their flags and bytes. *)
Abbreviation pages := (Z → option (Z * list Z)).

Definition unchanged s s' P w : Prop :=
  view s' P w = view s P w ∧ ∀ x, view s P w = Some x → page_data s' (e_frame x) = page_data s (e_frame x).

Definition holds s P w (flags : Z) (d : list Z) : Prop :=
  ∃ x, view s P w = Some x ∧ e_flags x = flags ∧ page_data s (e_frame x) = d.

(** A page can be mapped: nothing is there, and no huge page above it. *)
Definition vacant s P w : Prop := view s P w = None ∧ ∃ e, spaces s !! P = Some e ∧ clear 4 e w.

Record grown P (ps : pages) s s' : Prop := {
  gr_inv : cow_inv s';
  gr_new w flags d : user_page w → ps w = Some (flags, d) → holds s' P w flags d;
  gr_old Q w : user_page w → ¬ (Q = P ∧ is_Some (ps w)) → unchanged s s' Q w;
  gr_vacant w : user_page w → ps w = None → vacant s P w → vacant s' P w
}.

Definition frames_left s : nat := size (fa_free (falloc s)).

Lemma unchanged_trans s s1 s2 P w : unchanged s s1 P w → unchanged s1 s2 P w → unchanged s s2 P w.
Proof.
  intros [V1 D1] [V2 D2]. split; [congruence|]. intros x Hx. rewrite D2 by (by rewrite V1). by apply D1.
Qed.

Definition also (p1 p2 : pages) : pages := λ w, match p1 w with Some x => Some x | None => p2 w end.

Lemma grown_trans P p1 p2 s s1 s2 :
  grown P p1 s s1 → grown P p2 s1 s2 → (∀ w, is_Some (p1 w) → p2 w = None) → grown P (also p1 p2) s s2.
Proof.
  intros [I1 N1 O1 V1] [I2 N2 O2 V2] Hd. unfold also. split; [done| | |].
  - intros w flags d Hw. destruct (p1 w) as [[fl d']|] eqn:E; [|by apply N2]. intros [= -> ->].
    destruct (N1 w flags d Hw E) as (x & Hx & Hf & Hp).
    destruct (O2 P w Hw) as [Hv Hdt]; [rewrite (Hd w) by eauto; by intros [_ [? ?]]|].
    exists x. split; [congruence|]. split; [done|]. rewrite Hdt by done. done.
  - intros Q w Hw Hn. eapply unchanged_trans; [apply O1|apply O2]; [done| |done|].
    + intros [-> Hs]. apply Hn. split; [done|]. destruct Hs as [y Hy]. rewrite Hy. eauto.
    + intros [-> Hs]. apply Hn. split; [done|]. destruct (p1 w); eauto.
  - intros w Hw Hn Hv. destruct (p1 w) eqn:E; [done|]. apply V2; [done..|]. by apply V1.
Qed.

Lemma grown_ext P p1 p2 s s' : (∀ w, user_page w → p1 w = p2 w) → grown P p1 s s' → grown P p2 s s'.
Proof. intros He [I N O V]. split; [done| | |]; intros; [apply N|apply O|apply V]; by rewrite ?He. Qed.

Lemma grown_none P s : cow_inv s → grown P (λ _, None) s s.
Proof. intros Hi. split; [done|done| |done]. intros Q w _ _. by split. Qed.

Lemma seg_flags_link ph : contains (seg_flags ph) PRESENT = true ∧ contains (seg_flags ph) HUGE_PAGE = false.
Proof. unfold seg_flags. destruct (_ =? 0), (_ =? 0); split; reflexivity. Qed.

Variable pml4 : PhysFrame.
Abbreviation R := (start_address pml4).

Lemma load_page_ok data bias ph v d s :
  cow_inv s → user_page v → vacant s R v → (4 ≤ frames_left s)%nat → page_bytes data bias ph v = Ok d →
  ∃ s', load_page data bias pml4 ph v s = (Ok tt, s')
    ∧ grown R (λ w, if decide (w = v) then Some (seg_flags ph, d) else None) s s'
    ∧ (frames_left s ≤ frames_left s' + 4)%nat.
Proof.
  intros Hinv Hv (Hnone & e & He & Hclear) Hleft Hd. unfold load_page, frames_left in *.
  assert (Hcan : canonical v = true) by (unfold canonical; apply orb_true_iff; left; apply Z.ltb_lt; apply Hv). rewrite Hcan. cbn [negb].
  pose proof (fa_alloc_spec (falloc s) (mo_alloc _ (ci_ok _ Hinv))) as Hal. destruct (fa_alloc (falloc s)) as [[f|] a].
  2:{ destruct Hal as [_ E0]. rewrite E0, size_empty in Hleft. lia. }
  destruct Hal as (Hin & Hfree & _ & Ha'). set (s1 := set_alloc a s).
  assert (Hok1 : mem_ok s1) by (split; [exact Ha'|apply (ci_ok _ Hinv)]).
  destruct (seg_flags_link ph) as [Hp Hh]. pose proof (map_page_view pml4 v f (seg_flags ph) s1 e Hok1 He Hv Hp Hh) as Hmp.
  destruct (map_page pml4 v f (seg_flags ph) s1) as [r s2]. destruct Hmp as (V & M & D & C & Rf & F & Sz & Cl & Ok1).
  change (falloc s1) with a in *.
  assert (Hsz : size (fa_free (falloc s)) = S (size (fa_free a))).
  { rewrite Hfree, size_difference by (by apply singleton_subseteq_l). rewrite size_singleton. lia. }
  assert (Hr : is_ok r = true).
  { apply Ok1; [done| |lia]. unfold view in Hnone. by rewrite He in Hnone. }
  destruct r as [[]|]; [|done]. rewrite Hd. eexists. split; [done|]. set (s3 := set_contents _ s2).
  change (is_ok (Ok ())) with true in V.
  assert (V3 : ∀ Q w, user_page w → view s3 Q w = if bool_decide (Q = R ∧ w = v) then Some (mkEntry (A := Table 0) f (seg_flags ph) tt) else view s Q w).
  { intros Q w Hw. change (view s3 Q w) with (view s2 Q w). rewrite V by done. by rewrite andb_true_r. }
  assert (Hcase : ∀ Q w z, user_page w → view s3 Q w = Some z → (Q = R ∧ w = v ∧ e_frame z = f) ∨ view s Q w = Some z).
  { intros Q w z Hw. rewrite V3 by done. case_bool_decide as E; [|auto]. destruct E as [-> ->]. intros [= <-]. auto. }
  assert (Hrc : ∀ b, ref_count b s3 = ref_count b s) by (intros b; unfold ref_count; change (REFCOUNTS s3) with (REFCOUNTS s2); by rewrite Rf).
  assert (Hother : ∀ Q w x, user_page w → view s Q w = Some x → page_data s3 (e_frame x) = page_data s (e_frame x)).
  { intros Q w x Hw Hx. unfold page_data. cbn [contents s3 set_contents]. rewrite lookup_insert_ne.
    - by rewrite C.
    - intros Heq. apply (ci_used _ Hinv Q w x Hw Hx). unfold frame_no. rewrite <- Heq. exact Hin. }
  split; [split|].
  - apply (fresh_page_inv R v f s s3 Hinv Hin); [| |split; [apply (mo_alloc _ M)|apply (mo_tables _ M)]|exact D| |].
    + intros n Hn. apply F in Hn. rewrite Hfree, elem_of_difference, elem_of_singleton in Hn. done.
    + exact Hcase.
    + intros b. rewrite Hrc. apply (ci_nonneg _ Hinv).
    + intros b l Hb Hl Hml. rewrite Hrc. apply (ci_count _ Hinv); [done|]. eapply Forall_impl; [exact Hml|].
      intros [Q w] (Hw & z & Hz & Hzb). cbn [fst snd] in *. split; [done|].
      destruct (Hcase Q w z Hw Hz) as [(_ & _ & Ez)|Hz']; [by rewrite <- Hzb, Ez in Hb|eauto].
  - intros w flags d' Hw. case_decide as E; [subst w|done]. intros [= <- <-].
    exists (mkEntry (A := Table 0) f (seg_flags ph) tt). rewrite V3, bool_decide_eq_true_2 by done. split; [done|]. split; [done|].
    unfold page_data. cbn [contents s3 set_contents e_frame]. by rewrite lookup_insert_eq.
  - intros Q w Hw Hn. assert (Hne : ¬ (Q = R ∧ w = v)).
    { intros [-> ->]. apply Hn. split; [done|]. rewrite decide_True by done. eauto. }
    split; [rewrite V3, bool_decide_eq_false_2 by done; done|]. intros x. by apply Hother.
  - intros w Hw. case_decide as E; [done|]. intros _ (Hn & e1 & He1 & Hc1). destruct (Cl R e1 He1) as (e2 & He2 & Hc2).
    split; [rewrite V3, bool_decide_eq_false_2 by (done || tauto); done|]. exists e2. split; [exact He2|by apply Hc2].
  - change (falloc s3) with (falloc s2). lia.
Qed.

Lemma load_pages_ok data bias ph (img : Z → list Z) n : ∀ v s,
  cow_inv s → 0 ≤ v → v `mod` 4096 = 0 → v + 4096 * Z.of_nat n ≤ 2 ^ 47 →
  (∀ w, user_page w → v ≤ w < v + 4096 * Z.of_nat n → vacant s R w ∧ page_bytes data bias ph w = Ok (img w)) →
  (4 * n ≤ frames_left s)%nat →
  ∃ s', load_pages data bias pml4 ph v n s = (Ok tt, s')
    ∧ grown R (λ w, if (v <=? w) && (w <? v + 4096 * Z.of_nat n) then Some (seg_flags ph, img w) else None) s s'
    ∧ (frames_left s ≤ frames_left s' + 4 * n)%nat.
Proof.
  induction n as [|n IH]; intros v s Hinv Hv0 Hvm Hve Hall Hleft.
  - exists s. split; [done|]. split; [|lia]. eapply grown_ext; [|by apply grown_none]. intros w _. cbv beta.
    destruct (Z.leb_spec v w), (Z.ltb_spec w (v + 4096 * Z.of_nat 0)); cbn [andb]; [lia|done..].
  - assert (Hv : user_page v) by (split; [lia|done]). destruct (Hall v Hv) as [Hvac Hb]; [lia|].
    destruct (load_page_ok data bias ph v (img v) s Hinv Hv Hvac ltac:(lia) Hb) as (s1 & E1 & G1 & L1).
    cbn [load_pages]. unfold mbind, M_bind. rewrite E1.
    rewrite wrap64 by lia.
    assert (Hm' : (v + 4096) `mod` 4096 = 0) by (rewrite <- Zplus_mod_idemp_r, Z_mod_same_full, Z.add_0_r; done).
    destruct (IH (v + 4096) s1) as (s2 & E2 & G2 & L2); [apply G1|lia|done|lia| |lia|].
    { intros w Hw Hr. destruct (Hall w Hw) as [Hw1 Hw2]; [lia|]. split; [|done]. apply (gr_vacant _ _ _ _ G1); [done| |done].
      rewrite decide_False by lia. done. }
    exists s2. split; [exact E2|]. split; [|lia].
    eapply grown_ext; [|eapply grown_trans; [exact G1|exact G2|]].
    + intros w [_ Hwm]. unfold also. case_decide as Ew.
      * subst w. rewrite (proj2 (Z.leb_le v v)), (proj2 (Z.ltb_lt _ _)) by lia. done.
      * assert (Hbound : (v <=? w) && (w <? v + 4096 * Z.of_nat (S n)) = (v + 4096 <=? w) && (w <? v + 4096 + 4096 * Z.of_nat n)); [|by rewrite Hbound].
        assert (Hgap : v < w → v + 4096 ≤ w).
        { clear -Hwm Hvm. intros Hlt. Z.to_euclidean_division_equations. lia. }
        destruct (Z.leb_spec v w), (Z.leb_spec (v + 4096) w), (Z.ltb_spec w (v + 4096 * Z.of_nat (S n))), (Z.ltb_spec w (v + 4096 + 4096 * Z.of_nat n));
          cbn [andb]; first [done|lia].
    + intros w [x Hx]. case_decide; [subst w|done]. rewrite (proj2 (Z.leb_gt (v + 4096) v)) by lia. done.
Qed.

(** A new address space has room everywhere in its user half. *)
Lemma create_vacant cr3 s f s1 w :
  create_user_page_table cr3 s = (Some f, s1) → user_page w → vacant s1 (start_address f) w.
Proof.
  unfold create_user_page_table. destruct (fa_alloc (falloc s)) as [[g|] a]; [|done]. intros [= -> <-] Hw. set (upper := filter _ _).
  assert (Hno : upper !! index 4 w = None).
  { apply map_lookup_filter_None. right. intros x _. cbn. pose proof (index4_user w Hw). lia. }
  unfold vacant, view. cbn [spaces set_spaces]. rewrite lookup_insert_eq. cbn [mbind option_bind]. split.
  - unfold leaf. cbn [walk]. change (is_link (mkEntry (A := Table 4) f 1 upper)) with true. unfold entries. cbn [e_sub]. by rewrite Hno.
  - eexists. split; [done|]. cbn [clear]. split; [done|]. unfold entries. cbn [e_sub]. by rewrite Hno.
Qed.

(** ** Segments *)
Definition is_load (ph : Elf64ProgramHeader) : bool := p_type ph =? PT_LOAD.

Definition seg_pages data bias ph : pages := λ w,
  if is_load ph && has_page bias ph w then Some (seg_flags ph, page_image data bias ph w) else None.

(** The pages of the program, and how many there are. *)
Definition image data bias (phs : list Elf64ProgramHeader) : pages :=
  foldr (λ ph, also (seg_pages data bias ph)) (λ _, None) phs.

Definition seg_count (bias : Z) (ph : Elf64ProgramHeader) : nat := if is_load ph then Z.to_nat (page_count bias ph) else 0.
Definition pages_needed (bias : Z) (phs : list Elf64ProgramHeader) : nat := sum_list (map (seg_count bias) phs).

Definition seg_top (bias : Z) (h : Z) (ph : Elf64ProgramHeader) : Z := if is_load ph then Z.max h (seg_end bias ph) else h.

(** Segments share no page. *)
Definition apart (bias : Z) (a b : Elf64ProgramHeader) : Prop :=
  is_load a = true → is_load b = true → page_end bias a ≤ page_start bias b ∨ page_end bias b ≤ page_start bias a.

Definition phdr_ok data bias ph : Prop := p_type ph ≠ PT_DYNAMIC ∧ (is_load ph = true → seg_ok data bias ph).

Lemma load_segment_ok data bias ph p s :
  cow_inv s → phdr_ok data bias ph → (∀ w, user_page w → is_Some (seg_pages data bias ph w) → vacant s R w) →
  (4 * seg_count bias ph ≤ frames_left s)%nat →
  ∃ s', load_segment data bias pml4 ph p s = (Ok (mkProgress (seg_top bias (highest p) ph) (dynamic p)), s')
    ∧ grown R (seg_pages data bias ph) s s' ∧ (frames_left s ≤ frames_left s' + 4 * seg_count bias ph)%nat.
Proof.
  intros Hinv [Hd Hok] Hvac Hleft. unfold load_segment, seg_pages, seg_top, seg_count in *. rewrite (proj2 (Z.eqb_neq _ _) Hd).
  destruct (is_load ph) eqn:El; unfold is_load in El; rewrite El; cbn [negb andb].
  2:{ exists s. split; [by destruct p|]. split; [by apply grown_none|lia]. }
  specialize (Hok eq_refl). destruct (page_bounds data bias ph Hok) as (B1 & B2 & B3 & B4 & B5 & B6 & B7).
  destruct (load_pages_ok data bias ph (page_image data bias ph) (Z.to_nat (page_count bias ph)) (page_start bias ph) s)
    as (s' & E & G & L); [done..|lia| |done|].
  - intros w Hw Hr. assert (Hp : has_page bias ph w = true) by (apply andb_true_iff; rewrite Z.leb_le, Z.ltb_lt; lia).
    split; [apply Hvac; [done|]; rewrite Hp; eauto|]. apply page_bytes_ok; [done|apply Hw|done].
  - exists s'. unfold mbind, M_bind. rewrite E. split; [done|]. split; [|done]. eapply grown_ext; [|exact G]. intros w _. cbv beta.
    unfold has_page. replace (page_start bias ph + 4096 * Z.of_nat (Z.to_nat (page_count bias ph))) with (page_end bias ph) by lia. done.
Qed.

(** The headers of the file, from the [i]-th on. *)
Definition table_ok (data : list Z) (t : phtab) (i : nat) (phs : list Elf64ProgramHeader) : Prop :=
  0 ≤ ph_offset t ∧ 56 ≤ ph_size t ∧ Z.of_nat (length data) < 2 ^ 63 ∧
  ∀ k ph, phs !! k = Some ph →
    let start := ph_offset t + Z.of_nat (i + k) * ph_size t in
    start + ph_size t ≤ Z.of_nat (length data) ∧ ph = phdr_of (take 56 (drop (Z.to_nat start) data)).

Lemma table_ok_tail data t i ph phs : table_ok data t i (ph :: phs) → table_ok data t (S i) phs.
Proof.
  intros (H1 & H2 & H3 & Hall). split_and!; [done..|]. intros k q Hk. specialize (Hall (S k) q Hk).
  replace (S i + k)%nat with (i + S k)%nat by lia. exact Hall.
Qed.

Lemma table_ok_read data t i ph phs : table_ok data t i (ph :: phs) →
  let start := wrap 64 (ph_offset t + Z.of_nat i * ph_size t) in
  (Z.of_nat (length data) <? wrap 64 (start + ph_size t)) = false ∧ read_phdr data start = Ok ph.
Proof.
  intros (H1 & H2 & H3 & Hall). specialize (Hall O ph eq_refl). rewrite Nat.add_0_r in Hall. cbv zeta in *. destruct Hall as [Hl ->].
  assert (0 ≤ Z.of_nat i * ph_size t) by nia. rewrite (wrap64 (ph_offset t + _)) by lia. rewrite wrap64 by lia.
  split; [apply Z.ltb_ge; lia|]. unfold read_phdr, raw. rewrite (proj2 (Z.ltb_ge _ _)), (proj2 (Z.leb_le _ _)) by lia. done.
Qed.

Lemma apart_pages data bias ph phs w :
  Forall (apart bias ph) phs → is_Some (seg_pages data bias ph w) → image data bias phs w = None.
Proof.
  intros Hall [x Hx]. unfold seg_pages in Hx. destruct (is_load ph && has_page bias ph w) eqn:E; [|done].
  apply andb_true_iff in E as [El Ep]. apply andb_true_iff in Ep as [E1%Z.leb_le E2%Z.ltb_lt].
  induction Hall as [|q phs Hq Hall IH]; [done|]. unfold image. cbn [foldr]. unfold also at 1, seg_pages at 1.
  destruct (is_load q && has_page bias q w) eqn:Eq; [|exact IH].
  apply andb_true_iff in Eq as [Elq Eq]. apply andb_true_iff in Eq as [Q1%Z.leb_le Q2%Z.ltb_lt].
  destruct (Hq El Elq); lia.
Qed.

Lemma segments_ok data bias t phs : ∀ i p s,
  cow_inv s → table_ok data t i phs → Forall (phdr_ok data bias) phs → ForallOrdPairs (apart bias) phs →
  (∀ w, user_page w → is_Some (image data bias phs w) → vacant s R w) →
  (4 * pages_needed bias phs ≤ frames_left s)%nat →
  ∃ s', segments_loop data bias pml4 t i (length phs) p s
      = (Ok (mkProgress (foldl (seg_top bias) (highest p) phs) (dynamic p)), s')
    ∧ grown R (image data bias phs) s s'.
Proof.
  induction phs as [|ph phs IH]; intros i p s Hinv Ht Hok Hap Hvac Hleft.
  - exists s. split; [by destruct p|]. by apply grown_none.
  - apply Forall_cons in Hok as [Hph Hok]. inversion Hap as [|? ? Ha Hap']; subst.
    change (pages_needed bias (ph :: phs)) with (seg_count bias ph + pages_needed bias phs)%nat in Hleft.
    destruct (table_ok_read _ _ _ _ _ Ht) as [E1 E2]. cbv zeta in *. cbn [segments_loop length]. rewrite E1.
    unfold mbind, M_bind, lift. rewrite E2.
    destruct (load_segment_ok data bias ph p s Hinv Hph) as (s1 & Es & G & L); [|lia|].
    { intros w Hw [x Hx]. apply Hvac; [done|]. unfold image. cbn [foldr]. unfold also at 1. rewrite Hx. eauto. }
    rewrite Es. destruct (IH (S i) (mkProgress (seg_top bias (highest p) ph) (dynamic p)) s1) as (s2 & E3 & G2);
      [apply G|by eapply table_ok_tail|done|done| |lia|].
    { intros w Hw [x Hx]. destruct (seg_pages data bias ph w) eqn:Ep.
      - by rewrite (apart_pages data bias ph phs w Ha) in Hx by eauto.
      - apply (gr_vacant _ _ _ _ G); [done..|]. apply Hvac; [done|]. unfold image. cbn [foldr]. unfold also at 1. rewrite Ep. eauto. }
    exists s2. split; [exact E3|]. apply (grown_trans _ _ _ _ _ _ G G2). intros w Hw. by apply (apart_pages data bias ph phs w).
Qed.

(** ** Files *)
Variables (tramp : option PhysFrame) (rand : option Z) (lookup_symbol : list Z → option Z).

Definition bias_of (h : Elf64Header) : Z := if e_type h =? 3 then load_bias rand else 0.
Definition table_of (h : Elf64Header) : phtab := mkPhtab (e_phoff h) (e_phentsize h) (Z.to_nat (e_phnum h)).

(** A program without a dynamic section that can be loaded into an address space. *)
Record loadable (data : list Z) (h : Elf64Header) (phs : list Elf64ProgramHeader) s : Prop := {
  lo_header : check_header data = Ok h;
  lo_count : length phs = Z.to_nat (e_phnum h);
  lo_table : table_ok data (table_of h) 0 phs;
  lo_phdrs : Forall (phdr_ok data (bias_of h)) phs;
  lo_apart : ForallOrdPairs (apart (bias_of h)) phs;
  lo_vacant w : user_page w → is_Some (image data (bias_of h) phs w) → vacant s R w;
  lo_frames : (4 * pages_needed (bias_of h) phs ≤ frames_left s)%nat
}.

Lemma load_elf_grows data h phs s :
  cow_inv s → loadable data h phs s →
  ∃ s', load_elf lookup_symbol tramp rand data pml4 s
      = (Ok (mkLoaded (wrap 64 (e_entry h + bias_of h)) (foldl (seg_top (bias_of h)) 0 phs)
               (bool_decide (e_ident h !! 7%nat = Some 0) || bool_decide (e_ident h !! 7%nat = Some 3))), s')
    ∧ grown R (image data (bias_of h) phs) s s'.
Proof.
  intros Hinv [Hh Hc Ht Hp Ha Hv Hf]. unfold load_elf, mbind, M_bind, lift. rewrite Hh. fold (bias_of h). fold (table_of h).
  change (ph_count (table_of h)) with (Z.to_nat (e_phnum h)). rewrite <- Hc.
  destruct (segments_ok data (bias_of h) (table_of h) phs 0 (mkProgress 0 None) s Hinv Ht Hp Ha Hv Hf) as (s' & -> & G).
  exists s'. by split.
Qed.

Lemma image_page data bias phs ph w :
  ForallOrdPairs (apart bias) phs → ph ∈ phs → is_load ph = true → has_page bias ph w = true →
  image data bias phs w = Some (seg_flags ph, page_image data bias ph w).
Proof.
  intros Ha Hin Hl Hp. induction Ha as [|q phs Hq Ha IH]; [by apply not_elem_of_nil in Hin|].
  assert (E : seg_pages data bias ph w = Some (seg_flags ph, page_image data bias ph w)) by (unfold seg_pages; by rewrite Hl, Hp).
  unfold image. cbn [foldr]. fold (image data bias phs). unfold also.
  apply elem_of_cons in Hin as [->|Hin]; [by rewrite E|]. specialize (IH Hin).
  destruct (seg_pages data bias q w) as [y|] eqn:Eq; [|done].
  rewrite (apart_pages data bias q phs w Hq) in IH by eauto. done.
Qed.

Lemma image_none data bias phs w :
  (∀ ph, ph ∈ phs → is_load ph = true → has_page bias ph w = false) → image data bias phs w = None.
Proof.
  induction phs as [|q phs IH]; intros Hno; [done|]. unfold image. cbn [foldr]. fold (image data bias phs).
  unfold also, seg_pages. destruct (is_load q) eqn:E; cbn [andb]; [rewrite (Hno q (list_elem_of_here _ _) E)|];
    apply IH; intros ph Hin; apply Hno; by right.
Qed.

Lemma seg_flags_writable ph : contains (seg_flags ph) WRITABLE = negb (Z.land (p_flags ph) PF_W =? 0).
Proof. unfold seg_flags. destruct (Z.land (p_flags ph) PF_W =? 0), (Z.land (p_flags ph) PF_X =? 0); reflexivity. Qed.

Lemma seg_flags_nx ph : contains (seg_flags ph) NO_EXECUTE = (Z.land (p_flags ph) PF_X =? 0).
Proof. unfold seg_flags. destruct (Z.land (p_flags ph) PF_W =? 0), (Z.land (p_flags ph) PF_X =? 0); reflexivity. Qed.

(** C12: a well-formed program is loaded as its file describes it.  Every byte of every
    segment is in the address space at its address, from the file or zero, on a page
    that can be written or executed just as the segment says; the result names the
    entry point; no other page of any address space changes; and the invariants of
    the memory hold, so that the program can be forked and run. *)
Theorem elf_loaded data h phs s :
  cow_inv s → loadable data h phs s →
  ∃ s', load_elf lookup_symbol tramp rand data pml4 s
      = (Ok (mkLoaded (wrap 64 (e_entry h + bias_of h)) (foldl (seg_top (bias_of h)) 0 phs)
               (bool_decide (e_ident h !! 7%nat = Some 0) || bool_decide (e_ident h !! 7%nat = Some 3))), s')
    ∧ cow_inv s'
    ∧ (∀ ph a, ph ∈ phs → is_load ph = true → p_vaddr ph + bias_of h ≤ a < p_vaddr ph + bias_of h + p_memsz ph →
        ∃ x, view s' R (page_base a) = Some x
          ∧ page_data s' (e_frame x) !! Z.to_nat (a `mod` 4096) = Some (image_byte data (bias_of h) ph a)
          ∧ contains (e_flags x) USER_ACCESSIBLE = true
          ∧ contains (e_flags x) WRITABLE = negb (Z.land (p_flags ph) PF_W =? 0)
          ∧ contains (e_flags x) NO_EXECUTE = (Z.land (p_flags ph) PF_X =? 0))
    ∧ (∀ Q w, user_page w → (Q = R → ∀ ph, ph ∈ phs → is_load ph = true → has_page (bias_of h) ph w = false) →
        seen s' Q w = seen s Q w).
Proof.
  intros Hinv Hl. destruct (load_elf_grows data h phs s Hinv Hl) as (s' & E & [I N O V]). exists s'. split; [exact E|]. split; [exact I|]. split.
  - intros ph a Hin Hld Ha. pose proof (lo_phdrs _ _ _ _ Hl) as Hok. rewrite Forall_forall in Hok. destruct (Hok ph Hin) as [_ Hseg].
    specialize (Hseg Hld). destruct (page_bounds _ _ _ Hseg) as (B1 & B2 & B3 & B4 & B5 & _).
    assert (Ha0 : 0 ≤ a < 2 ^ 47) by lia.
    assert (Hpb : page_base a ≤ a < page_base a + 4096 ∧ page_base a `mod` 4096 = 0 ∧ 0 ≤ page_base a).
    { unfold page_base. Z.to_euclidean_division_equations. lia. }
    assert (Hpg : has_page (bias_of h) ph (page_base a) = true).
    { unfold has_page. apply andb_true_iff. rewrite Z.leb_le, Z.ltb_lt. split; [|lia].
      destruct Hpb as (Hp1 & Hp2 & Hp3). clear -B2 B4 Hp1 Hp2 Ha B1. Z.to_euclidean_division_equations. lia. }
    assert (Hup : user_page (page_base a)) by (split; [lia|tauto]).
    destruct (N _ _ _ Hup (image_page data _ _ ph _ (lo_apart _ _ _ _ Hl) Hin Hld Hpg)) as (x & Hx & Hf & Hd).
    exists x. split; [exact Hx|]. rewrite Hd, Hf, seg_flags_writable, seg_flags_nx. split; [|split; [|done]].
    + unfold page_image. rewrite list_lookup_fmap, lookup_seq_lt by (Z.to_euclidean_division_equations; lia).
      cbn [fmap option_fmap option_map]. do 2 f_equal. unfold page_base. pose proof (Z.mod_pos_bound a 4096). lia.
    + unfold seg_flags. destruct (_ =? 0), (_ =? 0); reflexivity.
  - intros Q w Hw Hno. destruct (O Q w Hw) as [Hv Hd].
    { intros [-> [x Hx]]. rewrite image_none in Hx; [done|]. by apply Hno. }
    unfold seen. rewrite Hv. destruct (view s Q w) as [x|]; [|done]. cbn. by rewrite Hd.
Qed.
End Load.

(** ** A program *)
Definition header_bytes (phnum : Z) : list Z :=
  ELF_MAGIC ++ [2; 1; 1; 0] ++ replicate 8 0 ++ to_le_bytes 2 2 ++ to_le_bytes 2 0x3E ++ to_le_bytes 4 1
  ++ to_le_bytes 8 0x4010B0 ++ to_le_bytes 8 64 ++ to_le_bytes 8 0 ++ to_le_bytes 4 0 ++ to_le_bytes 2 64
  ++ to_le_bytes 2 56 ++ to_le_bytes 2 phnum ++ to_le_bytes 2 64 ++ to_le_bytes 2 0 ++ to_le_bytes 2 0.

Definition phdr_bytes (ph : Elf64ProgramHeader) : list Z :=
  to_le_bytes 4 (p_type ph) ++ to_le_bytes 4 (p_flags ph) ++ to_le_bytes 8 (p_offset ph) ++ to_le_bytes 8 (p_vaddr ph)
  ++ to_le_bytes 8 (p_paddr ph) ++ to_le_bytes 8 (p_filesz ph) ++ to_le_bytes 8 (p_memsz ph) ++ to_le_bytes 8 (p_align ph).

(** Four bytes of code, and two bytes of data with room for more on the next page. *)
Definition text_seg : Elf64ProgramHeader := mkPhdr PT_LOAD 5 176 0x4010B0 0x4010B0 4 4 4096.
Definition data_seg : Elf64ProgramHeader := mkPhdr PT_LOAD 6 180 0x4020B4 0x4020B4 2 5000 4096.
Definition demo_elf : list Z :=
  header_bytes 2 ++ phdr_bytes text_seg ++ phdr_bytes data_seg ++ [0x90; 0x90; 0x0F; 0x05; 7; 8].

Lemma demo_elf_loadable rand : loadable proc rand demo_elf (header_of demo_elf) [text_seg; data_seg] new_space.2.
Proof.
  split.
  - vm_compute. reflexivity.
  - vm_compute. reflexivity.
  - split_and!; [vm_compute; discriminate|vm_compute; discriminate|vm_compute; reflexivity|].
    intros [|[|k]] ph; [intros [= <-]..|done]; (split; [vm_compute; discriminate|vm_compute; reflexivity]).
  - change (bias_of rand (header_of demo_elf)) with 0.
    apply Forall_cons. split; [|apply Forall_cons; split; [|constructor]];
      (split; [vm_compute; discriminate|]; intros _; split; [..|split|]; try split; vm_compute; (discriminate || reflexivity)).
  - change (bias_of rand (header_of demo_elf)) with 0.
    apply FOP_cons; [apply Forall_cons; split; [|constructor]|apply FOP_cons; [constructor|constructor]].
    intros _ _. left. vm_compute. discriminate.
  - intros w Hw _. apply (create_vacant (containing_address 0) boot_mem proc); [|done]. change (create_user_page_table _ boot_mem) with new_space.
    unfold proc. destruct new_space as [[f|] s1] eqn:E; [done|]. apply (f_equal fst) in E. vm_compute in E. discriminate.
  - change (bias_of rand (header_of demo_elf)) with 0. apply Nat.leb_le. vm_compute. reflexivity.
Qed.

Lemma elf_loaded_witness :
  ∃ s', load_elf (λ _, None) None None demo_elf proc new_space.2 = (Ok (mkLoaded 0x4010B0 0x40343C true), s')
    ∧ cow_inv s' ∧ ∃ x, view s' (start_address proc) 0x402000 = Some x
      ∧ page_data s' (e_frame x) !! 0xB5%nat = Some 8 ∧ contains (e_flags x) WRITABLE = true ∧ contains (e_flags x) NO_EXECUTE = true.
Proof.
  destruct (elf_loaded proc None None (λ _, None) demo_elf (header_of demo_elf) [text_seg; data_seg] new_space.2
    (proj1 new_space_inv) (demo_elf_loadable None)) as (s' & E & I & Hb & _).
  exists s'. split; [exact E|]. split; [exact I|].
  destruct (Hb data_seg 0x4020B5) as (x & Hx & Hd & _ & Hw & Hn).
  - right. left.
  - reflexivity.
  - split; vm_compute; [discriminate|reflexivity].
  - exists x. split; [exact Hx|]. split; [exact Hd|]. split; [exact Hw|exact Hn].
Defined.

(** ** Findings *)

(** Finding: a segment whose contents are not in the file is loaded as zeroes, without
    an error. *)
Lemma missing_contents_zero : page_bytes [] 0 (mkPhdr PT_LOAD 5 4096 0x400000 0x400000 100 100 4096) 0x400000 = Ok zero_page.
Proof. reflexivity. Qed.

(** Finding: a segment of the kernel half is mapped, accessible to the program. *)
Lemma kernel_half_mapped :
  (load_page [] 0 proc (mkPhdr PT_LOAD 7 0 0xFFFF800000000000 0 0 4096 4096) 0xFFFF800000000000 new_space.2).1 = Ok tt.
Proof. vm_compute. reflexivity. Qed.

(** Finding: program headers are read with their full size although the file may
    declare a smaller one, past the end of the file. *)
Definition short_table : list Z :=
  take 54 (header_bytes 1) ++ to_le_bytes 2 1 ++ to_le_bytes 2 1 ++ drop 58 (header_bytes 1) ++ [0].

Lemma short_headers_read_past_end : (load_elf (λ _, None) None None short_table proc new_space.2).1 = Err Wild.
Proof. vm_compute. reflexivity. Qed.

(** Finding: relocation entries of size 0 keep the kernel in the loop forever. *)
Lemma relaent_zero_hangs fuel (s : Machine) :
  relocate_loop fuel (replicate 24 0) 0 proc (mkPhtab 0 56 0) 0 24 0 0 s = (Err Hangs, s).
Proof.
  induction fuel as [|fuel IH]; [done|]. cbn [relocate_loop]. change (24 <=? 0) with false.
  unfold mbind, M_bind, lift. cbn [find_file_off ph_count].
  change (raw (replicate 24 0) (wrap 64 (0 + 0)) 24) with (Some (replicate 24 0)). cbv beta iota zeta.
  change (Z.land (r_info (rela_of (replicate 24 0))) 0xFFFFFFFF =? R_X86_64_RELATIVE) with false. cbv iota.
  change (wrap 64 (0 + 0)) with 0. exact IH.
Qed.

(** Finding: symbols are resolved by name only; one that the program defines itself
    ([st_value]) and the kernel does not know becomes 0. *)
Definition own_symbol : list Z :=
  [0; 120; 0] ++ replicate 21 0 ++ replicate 24 0 ++ to_le_bytes 4 1 ++ [0x12; 0; 1; 0] ++ to_le_bytes 8 0x401000 ++ to_le_bytes 8 8.

Lemma own_symbol_unresolved :
  sym_name own_symbol 1 (Some 0) (Some 24) = Ok [120]
  ∧ resolve (λ _, None) own_symbol 0 R_X86_64_GLOB_DAT 1 (mkRela 0 0 0) (Some 0) (Some 24) = Ok 0.
Proof. split; vm_compute; reflexivity. Qed.

(** Finding: a relocation of another type, such as IRELATIVE, sets its target to 0. *)
Lemma other_relocation_zeroes data bias sym rela so sy ty :
  ty ≠ R_X86_64_RELATIVE → ty ≠ R_X86_64_JUMP_SLOT → ty ≠ R_X86_64_GLOB_DAT → ty ≠ R_X86_64_64 →
  is_ok (sym_name data sym so sy) = true → resolve (λ _, None) data bias ty sym rela so sy = Ok 0.
Proof.
  intros H1%Z.eqb_neq H2%Z.eqb_neq H3%Z.eqb_neq H4%Z.eqb_neq Hs. unfold resolve. rewrite H1, H2, H3, H4.
  destruct (sym =? 0); [done|]. by destruct (sym_name data sym so sy).
Qed.

(** Finding: the comment on the load bias promises up to [0xFF000000]; it ends at
    [0x100FF000]. *)
Lemma load_bias_range r : 0x100000 ≤ load_bias (Some r) ≤ 0x100FF000.
Proof.
  unfold load_bias. assert (H : 0 ≤ Z.land r 0xFFFF000 ≤ 0xFFFF000); [|lia]. split; [by apply Z.land_nonneg; right|].
  apply (Z.ldiff_le _ 0xFFFF000); [done|]. apply Z.bits_inj'. intros i Hi. rewrite Z.ldiff_spec, Z.land_spec, Z.bits_0.
  by rewrite <- andb_assoc, andb_negb_r, andb_false_r.
Qed.
