(* ===== verification/Users.v ===== *)
(** * Accounts, sessions and permissions ([kernel/src/users/])

    The account files and passwords ([mod.rs], with its own SHA-256 of [sha256.rs]),
    groups, permissions, sessions, [su], [setuid] and [setgid] ([multiuser.rs]), and
    the process and mount namespaces ([security/namespace.rs]).  The virtual file system
    is the interface [FileStore]; audit lines are left out. *)

From S2P Require Import Prelude Bits Words SmartPack Sha2 TextBytes.

(** ** SHA-256 ([sha256.rs]) *)

(** [while padded.len() % 64 != 56 { padded.push(0); }] *)
Fixpoint pad_loop (fuel : nat) (l : list Z) : list Z :=
  match fuel with
  | O => l
  | S fuel' => if (length l mod 64 =? 56)%nat then l else pad_loop fuel' (l ++ [0])
  end.

(** The block function is that of [crypto/sha2.rs], word for word. *)
Definition sha256_block (s : Regs) (block : list Z) : Regs := compress_block SHA256 s block.

Definition users_sha256 (d : list Z) : list Z :=
  let padded := pad_loop 64 (d ++ [0x80]) ++ to_be_bytes 8 (wrap 64 (Z.of_nat (length d) * 8)) in
  words_of (foldl sha256_block H256_INIT (chunks 64 padded)) ≫= to_be_bytes 4.

(** ** Text *)

Definition from_utf8_or_empty (d : list Z) : list Z := if utf8_valid d then d else [].

(** ** Passwords ([mod.rs]) *)
Definition hex_digit (n : Z) : Z := if n <? 10 then 48 + n else 87 + n.
Definition hex (bs : list Z) : list Z := concat (map (λ b, [hex_digit (Z.shiftr b 4); hex_digit (Z.land b 0xf)]) bs).

Definition from_hex_nibble (b : Z) : Z :=
  if (48 <=? b) && (b <=? 57) then b - 48
  else if (97 <=? b) && (b <=? 102) then b - 97 + 10
  else if (65 <=? b) && (b <=? 70) then b - 65 + 10
  else 0.

Fixpoint unhex (s : list Z) : list Z :=
  match s with
  | hi :: lo :: s' => Z.lor (wrap 8 (Z.shiftl (from_hex_nibble hi) 4)) (from_hex_nibble lo) :: unhex s'
  | _ => []
  end.

Definition salt_for (username : list Z) : list Z := take 16 (users_sha256 (text "SmartOS" ++ username)).

Definition hash_password (password salt : list Z) : list Z :=
  let h := Nat.iter 4095 (λ h, users_sha256 (salt ++ h)) (users_sha256 (salt ++ password)) in
  text "$sha256$" ++ hex salt ++ [36] ++ hex h.

Definition make_hash (password : list Z) : list Z := hash_password password (salt_for password).

Definition verify_password (password stored : list Z) : bool :=
  match splitn 4 36 stored with
  | [_; alg; salt_hex; _] =>
      if negb (bool_decide (alg = text "sha256")) then false
      else
        let salt := unhex salt_hex in
        if negb (length salt =? 16)%nat then false
        else bool_decide (hash_password password salt = stored)
  | _ => false
  end.

(** ** Accounts *)
Record User := mkUser {
  username : list Z;
  uid : Z;
  gid : Z;
  home : list Z;
  shell : list Z;
  pw_hash : list Z
}.

(** What the module uses of the virtual file system. *)
Class FileStore (F : Type) := {
  fs_stat : list Z → F → bool;
  fs_read : list Z → F → option (list Z);
  fs_write : list Z → list Z → F → bool * F;
  fs_mkdir : list Z → F → F;
  written p d f f' : fs_write p d f = (true, f') → fs_read p f' = Some d ∧ ∀ q, q ≠ p → fs_read q f' = fs_read q f;
  mkdir_keeps p q f d : fs_read q f = Some d → fs_read q (fs_mkdir p f) = Some d
}.

Definition PASSWD : list Z := text "/etc/passwd".
Definition SHADOW : list Z := text "/etc/shadow".

Definition shadow_entry (shadow : list Z) (name : list Z) : list Z :=
  match List.find (starts_with (name ++ [58])) (lines shadow) with
  | Some l => nth 1 (splitn 2 58 l) []
  | None => []
  end.

Definition parse_account (shadow line : list Z) : option User :=
  match split_byte 58 line with
  | name :: _ :: u :: g :: h :: sh :: _ =>
      Some (mkUser name (default 0 (parse_radix 10 32 u)) (default 0 (parse_radix 10 32 g)) h sh (shadow_entry shadow name))
  | _ => None
  end.

Section accounts.
Context {F : Type} `{FileStore F}.

Record Accounts := mkAccounts { USERS : list User; files : F }.

Definition read_or_empty (p : list Z) (f : F) : list Z := default [] (fs_read p f).

Definition load_from_vfs (a : Accounts) : Accounts :=
  match fs_read PASSWD (files a) with
  | None => a
  | Some passwd =>
      let shadow := from_utf8_or_empty (read_or_empty SHADOW (files a)) in
      mkAccounts (omap (parse_account shadow) (lines (from_utf8_or_empty passwd))) (files a)
  end.

Definition find_user (name : list Z) (a : Accounts) : option User :=
  List.find (λ u, bool_decide (username u = name)) (USERS a).

Definition list_users (a : Accounts) : list (list Z) := map username (USERS a).

Definition authenticate (name password : list Z) (a : Accounts) : bool :=
  match find_user name a with
  | None => false
  | Some u =>
      match pw_hash u with
      | [] => bool_decide (password = [])
      | h => verify_password password h
      end
  end.

Definition append_to (path content : list Z) (f : F) : bool * F := fs_write path (read_or_empty path f ++ content) f.

Definition passwd_line (name : list Z) (u : Z) : list Z :=
  name ++ text ":x:" ++ decimal 10 u ++ [58] ++ decimal 10 u ++ text ":/home/" ++ name ++ text ":/bin/sh" ++ [10].

Definition add_user (name password : list Z) (a : Accounts) : result string unit * Accounts :=
  if existsb (λ u, bool_decide (username u = name)) (USERS a) then (Err "User already exists"%string, a)
  else
    let u := wrap 32 (1000 + Z.of_nat (length (USERS a))) in
    match append_to PASSWD (passwd_line name u) (files a) with
    | (false, f1) => (Err "write failed"%string, mkAccounts (USERS a) f1)
    | (true, f1) =>
        match append_to SHADOW (name ++ [58] ++ hash_password password (salt_for name) ++ [10]) f1 with
        | (false, f2) => (Err "write failed"%string, mkAccounts (USERS a) f2)
        | (true, f2) => (Ok tt, load_from_vfs (mkAccounts (USERS a) (fs_mkdir (text "/home/" ++ name) f2)))
        end
    end.

Definition new_shadow_line (name hash line : list Z) : list Z :=
  (if starts_with (name ++ [58]) line then name ++ [58] ++ hash else line) ++ [10].

Definition change_password (name new_password : list Z) (a : Accounts) : result string unit * Accounts :=
  let shadow := from_utf8_or_empty (read_or_empty SHADOW (files a)) in
  let new_shadow := concat (map (new_shadow_line name (hash_password new_password (salt_for name))) (lines shadow)) in
  match fs_write SHADOW new_shadow (files a) with
  | (false, f) => (Err "Failed to write /etc/shadow"%string, mkAccounts (USERS a) f)
  | (true, f) => (Ok tt, load_from_vfs (mkAccounts (USERS a) f))
  end.

Definition default_passwd : list Z :=
  text "root:x:0:0:/root:/bin/sh" ++ [10] ++ text "user:x:1000:1000:/home/user:/bin/sh" ++ [10].

Definition init (a : Accounts) : Accounts :=
  let shadow := text "root:" ++ make_hash (text "root") ++ [10] ++ text "user:" ++ make_hash (text "user") ++ [10] in
  let f := files a in
  let f := if fs_stat PASSWD f then f
           else (fs_write SHADOW shadow (fs_write PASSWD default_passwd (fs_mkdir (text "/etc") f)).2).2 in
  let f := fs_mkdir (text "/home/user") (fs_mkdir (text "/home") (fs_mkdir (text "/root") f)) in
  load_from_vfs (mkAccounts (USERS a) f).
End accounts.
Arguments Accounts F : clear implicits.

(** ** Groups ([multiuser.rs]) *)
Record Group := mkGroup { g_name : list Z; g_gid : Z; members : list (list Z) }.

Definition parse_group (line : list Z) : option Group :=
  match splitn 4 58 line with
  | name :: _ :: g :: rest =>
      Some (mkGroup name (default 0 (parse_radix 10 32 g))
        match rest with [m] => match m with [] => [] | _ => split_byte 44 m end | _ => [] end)
  | _ => None
  end.

Definition load_groups (d : list Z) : list Group := omap parse_group (lines (from_utf8_or_empty d)).

Definition supplementary_gids (groups : list Group) (name : list Z) : list Z :=
  map g_gid (List.filter (λ g, existsb (λ m, bool_decide (m = name)) (members g)) groups).

(** ** Permissions *)
Inductive AccessOp := Read | Write | Execute.
#[export] Instance AccessOp_eq_dec : EqDecision AccessOp.
Proof. solve_decision. Defined.
Definition op_bit (op : AccessOp) : Z := match op with Read => 4 | Write => 2 | Execute => 1 end.

Record FilePerm := mkPerm { mode : Z; owner : Z; group : Z }.

(** Octal modes. *)
Definition OWNER_ONLY : Z := 0x180.    (* 0o600 *)
Definition DEFAULT_FILE : Z := 0x1A4.  (* 0o644 *)
Definition DEFAULT_DIR : Z := 0x1ED.   (* 0o755 *)

(** [path.trim_start_matches("/home/")]. *)
Fixpoint trim_home (fuel : nat) (p : list Z) : list Z :=
  match fuel with
  | O => p
  | S fuel' => if starts_with (text "/home/") p then trim_home fuel' (drop 6 p) else p
  end.

Section sessions.
Context {F : Type} `{FileStore F}.

Record SessionInfo := mkSession {
  s_uid : Z;
  s_gid : Z;
  s_username : list Z;
  extra_gids : list Z;
  euid : Z;
  egid : Z
}.

Record System := mkSystem {
  accounts : Accounts F;
  GROUPS : list Group;
  PERM_TABLE : gmap (list Z) FilePerm;
  SESSIONS : gmap Z SessionInfo
}.

Definition set_sessions (m : gmap Z SessionInfo) (s : System) : System := mkSystem (accounts s) (GROUPS s) (PERM_TABLE s) m.
Definition set_accounts (a : Accounts F) (s : System) : System := mkSystem a (GROUPS s) (PERM_TABLE s) (SESSIONS s).

Definition set_perm (path : list Z) (u g m : Z) (s : System) : System :=
  mkSystem (accounts s) (GROUPS s) (<[path := mkPerm m u g]> (PERM_TABLE s)) (SESSIONS s).

Definition get_perm (path : list Z) (s : System) : FilePerm :=
  match PERM_TABLE s !! path with
  | Some p => p
  | None =>
      if starts_with (text "/etc/shadow") path then mkPerm OWNER_ONLY 0 0
      else if starts_with (text "/etc/") path then mkPerm DEFAULT_FILE 0 0
      else if starts_with (text "/system/") path || starts_with (text "/boot/") path then mkPerm 0x124 0 0
      else if starts_with (text "/root/") path then mkPerm 0x1C0 0 0
      else if starts_with (text "/home/") path then
        let name := hd [] (split_byte 47 (trim_home (length path) path)) in
        let u := match find_user name (accounts s) with Some u => uid u | None => 1000 end in
        mkPerm DEFAULT_DIR u u
      else mkPerm DEFAULT_FILE 0 0
  end.

Definition check_perm (path : list Z) (u g : Z) (extra : list Z) (op : AccessOp) (s : System) : result string unit :=
  if u =? 0 then
    if bool_decide (op = Execute) then
      if negb (Z.land (mode (get_perm path s)) 0x49 =? 0) then Ok tt else Err "EACCES: not executable"%string
    else Ok tt
  else
    let perm := get_perm path s in
    let bit := op_bit op in
    if u =? owner perm then
      if negb (Z.land (Z.shiftr (mode perm) 6) bit =? 0) then Ok tt else Err "EACCES: owner permission denied"%string
    else if (g =? group perm) || existsb (Z.eqb (group perm)) extra then
      if negb (Z.land (Z.shiftr (mode perm) 3) bit =? 0) then Ok tt else Err "EACCES: group permission denied"%string
    else if negb (Z.land (mode perm) bit =? 0) then Ok tt
    else Err "EACCES: permission denied"%string.

(** ** Sessions *)
Definition root_session : SessionInfo := mkSession 0 0 (text "root") [] 0 0.

Definition for_user (groups : list Group) (u : User) : SessionInfo :=
  mkSession (uid u) (gid u) (username u) (supplementary_gids groups (username u)) (uid u) (gid u).

Definition is_root (i : SessionInfo) : bool := euid i =? 0.

Definition set_session (pid : Z) (i : SessionInfo) (s : System) : System := set_sessions (<[pid := i]> (SESSIONS s)) s.
Definition get_session (pid : Z) (s : System) : SessionInfo := default root_session (SESSIONS s !! pid).
Definition remove_session (pid : Z) (s : System) : System := set_sessions (delete pid (SESSIONS s)) s.
Definition current_uid (pid : Z) (s : System) : Z := match SESSIONS s !! pid with Some i => euid i | None => 0 end.
Definition current_gid (pid : Z) (s : System) : Z := match SESSIONS s !! pid with Some i => egid i | None => 0 end.

Definition su (pid : Z) (target password : list Z) (s : System) : result string unit * System :=
  let current := get_session pid s in
  if (euid current =? 0) || authenticate target password (accounts s) then
    match find_user target (accounts s) with
    | None => (Err "ENOENT: user not found"%string, s)
    | Some u => (Ok tt, set_session pid (for_user (GROUPS s) u) s)
    end
  else (Err "EPERM: authentication failed"%string, s).

Definition login (name password : list Z) (s : System) : result string SessionInfo :=
  if authenticate name password (accounts s) then
    match find_user name (accounts s) with
    | None => Err "ENOENT"%string
    | Some u => Ok (for_user (GROUPS s) u)
    end
  else Err "EPERM: bad credentials"%string.

Definition setuid (pid new_uid : Z) (s : System) : result string unit * System :=
  match SESSIONS s !! pid with
  | None => (Err "ESRCH: no session"%string, s)
  | Some i =>
      if negb (euid i =? 0) && negb (new_uid =? s_uid i) then (Err "EPERM"%string, s)
      else (Ok tt, set_session pid (mkSession (s_uid i) (s_gid i) (s_username i) (extra_gids i) new_uid (egid i)) s)
  end.

Definition setgid (pid new_gid : Z) (s : System) : result string unit * System :=
  match SESSIONS s !! pid with
  | None => (Err "ESRCH: no session"%string, s)
  | Some i =>
      if negb (egid i =? 0) && negb (new_gid =? s_gid i) then (Err "EPERM"%string, s)
      else (Ok tt, set_session pid (mkSession (s_uid i) (s_gid i) (s_username i) (extra_gids i) (euid i) new_gid) s)
  end.

Definition is_member_of (name : list Z) (g : Z) (s : System) : bool :=
  match find_user name (accounts s) with Some u => gid u =? g | None => false end
  || existsb (λ gr, (g_gid gr =? g) && existsb (λ m, bool_decide (m = name)) (members gr)) (GROUPS s).

Definition find_group_by_gid (g : Z) (s : System) : option Group := List.find (λ gr, g_gid gr =? g) (GROUPS s).
Definition find_group_by_name (name : list Z) (s : System) : option Group :=
  List.find (λ gr, bool_decide (g_name gr = name)) (GROUPS s).

Definition DEFAULT_GROUP : list Z :=
  text "root:x:0:" ++ [10] ++ text "wheel:x:10:root,user" ++ [10] ++ text "users:x:100:user" ++ [10]
  ++ text "audio:x:29:user" ++ [10] ++ text "video:x:39:user" ++ [10].

Definition multiuser_init (s : System) : System :=
  let GROUP := text "/etc/group" in
  let f := files (accounts s) in
  let f := if fs_stat GROUP f then f else (fs_write GROUP DEFAULT_GROUP (fs_mkdir (text "/etc") f)).2 in
  let s := mkSystem (mkAccounts (USERS (accounts s)) f) (load_groups (read_or_empty GROUP f)) (PERM_TABLE s) (SESSIONS s) in
  let s := set_perm SHADOW 0 0 OWNER_ONLY s in
  let s := set_perm PASSWD 0 0 0x1A4 s in
  let s := set_perm GROUP 0 0 0x1A4 s in
  let s := set_perm (text "/system") 0 0 0x1ED s in
  let s := set_perm (text "/boot") 0 0 0x1C0 s in
  set_session 1 root_session s.
End sessions.
Arguments System F : clear implicits.

(** ** The two SHA-256 implementations agree *)
Lemma pad_loop_zeros n : ∀ fuel l,
  (n ≤ fuel)%nat → ((length l + n) mod 64 = 56)%nat → (∀ j, (j < n)%nat → (length l + j) mod 64 ≠ 56)%nat →
  pad_loop (S fuel) l = l ++ replicate n 0.
Proof.
  induction n as [|n IH]; intros fuel l Hf Hn Hj; cbn [pad_loop].
  - rewrite Nat.add_0_r in Hn. rewrite (proj2 (Nat.eqb_eq _ _) Hn). by rewrite app_nil_r.
  - pose proof (Hj O ltac:(lia)) as H0. rewrite Nat.add_0_r in H0. rewrite (proj2 (Nat.eqb_neq _ _) H0).
    destruct fuel as [|fuel]; [lia|]. rewrite (IH fuel (l ++ [0])).
    + by rewrite <- app_assoc.
    + lia.
    + rewrite length_app. cbn [length]. replace (length l + 1 + n)%nat with (length l + S n)%nat by lia. done.
    + intros j Hlt. rewrite length_app. cbn [length]. replace (length l + 1 + j)%nat with (length l + S j)%nat by lia. apply Hj. lia.
Qed.

Lemma users_sha256_agrees m : users_sha256 m = sha256 m.
Proof.
  rewrite sha256_ref. unfold users_sha256, hash_ref, output. change (word_bytes SHA256) with 4%nat. do 2 f_equal.
  change (block_bytes SHA256) with 64%nat. f_equal. unfold pad. change (len_bytes SHA256) with 8%nat.
  rewrite (pad_loop_zeros (pad_zeros SHA256 (length m)) 63).
  - rewrite <- !app_assoc. do 4 f_equal. change 64 with (8 * Z.of_nat 8). rewrite to_be_bytes_wrap. f_equal. lia.
  - unfold pad_zeros. change (block_bytes SHA256) with 64%nat. change (len_bytes SHA256) with 8%nat. cbn [Nat.sub].
    destruct (Nat.leb_spec (S (length m mod 64)) 56); lia.
  - rewrite length_app. cbn [length]. unfold pad_zeros. change (block_bytes SHA256) with 64%nat. change (len_bytes SHA256) with 8%nat.
    cbn [Nat.sub]. pose proof (Nat.div_mod_eq (length m) 64). pose proof (Nat.mod_upper_bound (length m) 64).
    set (q := (length m / 64)%nat) in *. set (r := (length m mod 64)%nat) in *.
    destruct (Nat.leb_spec (S r) 56).
    + symmetry. apply (Nat.mod_unique _ 64 q 56); lia.
    + symmetry. apply (Nat.mod_unique _ 64 (S q) 56); lia.
  - intros j. rewrite length_app. cbn [length]. unfold pad_zeros. change (block_bytes SHA256) with 64%nat. change (len_bytes SHA256) with 8%nat.
    cbn [Nat.sub]. intros Hj. pose proof (Nat.div_mod_eq (length m) 64). pose proof (Nat.mod_upper_bound (length m) 64).
    set (q := (length m / 64)%nat) in *. set (r := (length m mod 64)%nat) in *.
    pose proof (Nat.div_mod_eq (length m + 1 + j) 64). intros E. rewrite E in *.
    set (q' := ((length m + 1 + j) / 64)%nat) in *. destruct (Nat.leb_spec (S r) 56); lia.
Qed.

(** ** Password hashes *)
Lemma unhex_hex bs : bytes_ok bs → unhex (hex bs) = bs.
Proof.
  assert (G : ∀ b, uN 8 b → Z.lor (wrap 8 (Z.shiftl (from_hex_nibble (hex_digit (Z.shiftr b 4))) 4)) (from_hex_nibble (hex_digit (Z.land b 0xf))) = b).
  { intros b Hb. apply Z.eqb_eq. revert b Hb. apply forall_byte. vm_compute. reflexivity. }
  induction 1 as [|b bs Hb _ IH]; [done|]. unfold hex. cbn [map concat app unhex]. fold (hex bs). by rewrite G, IH.
Qed.

(** Letters and digits. *)
Lemma hex_plain bs : bytes_ok bs → Forall (λ b, 48 ≤ b < 128) (hex bs).
Proof.
  assert (G : ∀ b, uN 8 b → (48 <=? hex_digit (Z.shiftr b 4)) && (hex_digit (Z.shiftr b 4) <? 128)
    && (48 <=? hex_digit (Z.land b 0xf)) && (hex_digit (Z.land b 0xf) <? 128) = true).
  { apply forall_byte. vm_compute. reflexivity. }
  induction 1 as [|b bs Hb _ IH]; [constructor|]. unfold hex. cbn [map concat app]. fold (hex bs).
  specialize (G b Hb). rewrite !andb_true_iff, !Z.leb_le, !Z.ltb_lt in G. repeat constructor; try lia. done.
Qed.

Definition digest (password salt : list Z) : list Z :=
  Nat.iter 4095 (λ h, users_sha256 (salt ++ h)) (users_sha256 (salt ++ password)).

Lemma digest_ok password salt : bytes_ok (digest password salt).
Proof.
  assert (G : ∀ n m, bytes_ok (Nat.iter n (λ h, users_sha256 (salt ++ h)) (users_sha256 m))).
  { intros [|n] m; cbn [Nat.iter nat_rect]; rewrite users_sha256_agrees; apply sha256_bytes_ok. }
  apply G.
Qed.

Lemma hash_split password salt : bytes_ok salt →
  splitn 4 36 (hash_password password salt) = [[]; text "sha256"; hex salt; hex (digest password salt)].
Proof.
  intros Hs. assert (N : Forall (λ b, b ≠ 36) (hex salt)) by (eapply Forall_impl; [by apply hex_plain|]; cbn; lia).
  unfold hash_password. fold (digest password salt). generalize (hex (digest password salt)). intros d.
  change (splitn 4 36 (text "$sha256$" ++ hex salt ++ [36] ++ d)) with ([] :: text "sha256" :: splitn 2 36 (hex salt ++ 36 :: d)).
  cbn [splitn]. rewrite find_byte_app, take_app_length by done. do 3 f_equal.
  rewrite drop_app_ge by lia. by replace (S (length (hex salt)) - length (hex salt))%nat with 1%nat by lia.
Qed.

Lemma length_salt name : length (salt_for name) = 16%nat.
Proof. unfold salt_for. rewrite length_take, users_sha256_agrees, length_sha256. done. Qed.

Lemma salt_ok name : bytes_ok (salt_for name).
Proof. unfold salt_for. apply Forall_take. rewrite users_sha256_agrees. apply sha256_bytes_ok. Qed.

(** The stored hash accepts its password, and another password only if both have the
    same digest. *)
Lemma verify_hash password stored_pw name :
  verify_password password (hash_password stored_pw (salt_for name)) = true
  ↔ digest password (salt_for name) = digest stored_pw (salt_for name).
Proof.
  unfold verify_password. rewrite hash_split by apply salt_ok. rewrite bool_decide_eq_true_2, unhex_hex, length_salt by (done || apply salt_ok).
  cbn [negb Nat.eqb]. rewrite bool_decide_eq_true. unfold hash_password. fold (digest password (salt_for name)) (digest stored_pw (salt_for name)).
  split; [|by intros ->]. intros E. apply app_inv_head, app_inv_head, app_inv_head in E.
  by rewrite <- (unhex_hex (digest password (salt_for name))), E, unhex_hex by apply digest_ok.
Qed.

(** ** Account names *)
Definition name_ok (n : list Z) : Prop := one_line n ∧ Forall (λ b, b ≠ 58) n.

(** A line has one account. *)
Lemma line_account n m l : Forall (λ b, b ≠ 58) n → Forall (λ b, b ≠ 58) m →
  starts_with (n ++ [58]) l = true → starts_with (m ++ [58]) l = true → n = m.
Proof.
  rewrite !starts_with_spec. intros Hn Hm [r ->] [r' E]. rewrite <- !app_assoc in E. cbn [app] in E.
  apply (f_equal (find_byte 58)) in E as Ef. rewrite !find_byte_app in Ef by done. injection Ef as El.
  apply (f_equal (take (length n))) in E. rewrite take_app_length, El, take_app_length in E. done.
Qed.

(** ** Changing a password *)
Section passwords.
Context {F : Type} `{FileStore F}.
Implicit Types a : Accounts F.

Definition relabel (name hash line : list Z) : list Z := if starts_with (name ++ [58]) line then name ++ [58] ++ hash else line.

Lemma shadow_find name hash n ls :
  Forall (λ b, b ≠ 58) name → Forall (λ b, b ≠ 58) n →
  List.find (starts_with (n ++ [58])) (map (relabel name hash) ls)
  = option_map (relabel name hash) (List.find (starts_with (n ++ [58])) ls).
Proof.
  intros Hname Hn. induction ls as [|l ls IH]; [done|]. cbn [map List.find].
  assert (E : starts_with (n ++ [58]) (relabel name hash l) = starts_with (n ++ [58]) l).
  { unfold relabel. destruct (starts_with (name ++ [58]) l) eqn:El; [|done]. apply eq_true_iff_eq. split; intros Es.
    - assert (n = name) as ->; [|done]. apply (line_account n name (name ++ [58] ++ hash)); [done..|]. rewrite app_assoc.
      apply starts_with_spec. eauto.
    - assert (n = name) as -> by (by apply (line_account n name l)). rewrite app_assoc. apply starts_with_spec. eauto. }
  rewrite E. destruct (starts_with (n ++ [58]) l); [done|exact IH].
Qed.

Lemma entry_split name hash : Forall (λ b, b ≠ 58) name → nth 1 (splitn 2 58 (name ++ [58] ++ hash)) [] = hash.
Proof.
  intros Hn. cbn [splitn app]. rewrite find_byte_app by done. cbn [nth]. rewrite drop_app_ge by lia.
  by replace (S (length name) - length name)%nat with 1%nat by lia.
Qed.

Lemma hash_plain password name : one_line (hash_password password (salt_for name)).
Proof.
  unfold hash_password. fold (digest password (salt_for name)).
  assert (G : ∀ bs, bytes_ok bs → one_line (hex bs)).
  { intros bs Hb. apply hex_plain in Hb. split; (eapply Forall_impl; [exact Hb|]); cbn; lia. }
  pose proof (G _ (salt_ok name)) as [G1 G2]. pose proof (G _ (digest_ok password (salt_for name))) as [G3 G4].
  assert (T : one_line (text "$sha256$")) by (split; apply (bool_decide_unpack _); vm_compute; exact I). destruct T as [T1 T2].
  split; unfold plain in *; rewrite !Forall_app; split_and!; try done; (apply Forall_singleton; lia).
Qed.

(** The account of a line with another shadow file. *)
Definition with_shadow (shadow : list Z) (u : User) : User :=
  mkUser (username u) (uid u) (gid u) (home u) (shell u) (shadow_entry shadow (username u)).

Lemma parse_account_shadow sh sh' line : parse_account sh' line = with_shadow sh' <$> parse_account sh line.
Proof. unfold parse_account. by destruct (split_byte 58 line) as [|? [|? [|? [|? [|? [|? ?]]]]]]. Qed.

Lemma omap_shadow sh sh' ls : omap (parse_account sh') ls = map (with_shadow sh') (omap (parse_account sh) ls).
Proof.
  induction ls as [|l ls IH]; [done|]. cbn [omap list_omap]. rewrite (parse_account_shadow sh sh' l).
  destruct (parse_account sh l); cbn [fmap option_fmap option_map]; [cbn [map]; by f_equal|exact IH].
Qed.

Lemma find_with_shadow sh n us :
  List.find (λ u, bool_decide (username u = n)) (map (with_shadow sh) us)
  = with_shadow sh <$> List.find (λ u, bool_decide (username u = n)) us.
Proof. induction us as [|u us IH]; [done|]. cbn [map List.find with_shadow username]. by case_bool_decide. Qed.

(** The new shadow file has the lines of the old one, those of the account relabelled. *)
Lemma shadow_rewritten name hash sh : plain sh → one_line name → one_line hash →
  let sh' := concat (map (new_shadow_line name hash) (lines sh)) in
  plain sh' ∧ lines sh' = map (relabel name hash) (lines sh).
Proof.
  intros Hplain [N1 N2] [P1 P2] sh'.
  assert (Hsh' : sh' = concat (map (λ l, l ++ [10]) (map (relabel name hash) (lines sh)))) by (unfold sh'; by rewrite map_map).
  assert (Hls : Forall one_line (map (relabel name hash) (lines sh))).
  { apply Forall_fmap. eapply Forall_impl; [exact (lines_ok sh Hplain)|]. intros l Hl. unfold compose, relabel. case_match; [|done].
    split; unfold plain in *; rewrite !Forall_app; split_and!; try done; (apply Forall_singleton; lia). }
  rewrite Hsh'. split; [|by apply lines_concat].
  clear -Hls. induction Hls as [|l ls [Hl _] _ IH]; [constructor|]. cbn [map concat]. unfold plain in *.
  rewrite !Forall_app. split_and!; try done. apply Forall_singleton. lia.
Qed.

(** The entry of an account in the new file, and of the others. *)
Lemma entry_own name hash ls sh sh' : Forall (λ b, b ≠ 58) name → lines sh' = map (relabel name hash) ls → lines sh = ls →
  shadow_entry sh name ≠ [] → shadow_entry sh' name = hash.
Proof.
  intros Hn E' E. unfold shadow_entry. rewrite E', E, shadow_find by done.
  destruct (List.find _ ls) as [l|] eqn:El; [|done]. intros _. cbn [option_map]. apply List.find_some in El as [_ El].
  unfold relabel. rewrite El. by apply entry_split.
Qed.

Lemma entry_other name hash sh sh' n : Forall (λ b, b ≠ 58) name → Forall (λ b, b ≠ 58) n → n ≠ name →
  lines sh' = map (relabel name hash) (lines sh) → shadow_entry sh' n = shadow_entry sh n.
Proof.
  intros Hname Hn Hne E. unfold shadow_entry. rewrite E, shadow_find by done.
  destruct (List.find _ (lines sh)) as [l|] eqn:El; [|done]. cbn [option_map]. apply List.find_some in El as [_ El].
  unfold relabel. destruct (starts_with (name ++ [58]) l) eqn:En; [|done]. destruct Hne. by apply (line_account n name l).
Qed.

Lemma find_user_in n a w : find_user n a = Some w → w ∈ USERS a ∧ username w = n.
Proof.
  intros Hw. apply List.find_some in Hw as [Hi He]. apply bool_decide_eq_true in He. split; [by apply list_elem_of_In|done].
Qed.

(** What loading reads from plain files. *)
Lemma load_plain a passwd sh : fs_read PASSWD (files a) = Some passwd → fs_read SHADOW (files a) = Some sh → plain sh →
  load_from_vfs a = mkAccounts (omap (parse_account sh) (lines (from_utf8_or_empty passwd))) (files a).
Proof.
  intros Hp Hs Hplain. unfold load_from_vfs, read_or_empty. rewrite Hp, Hs. cbn [default].
  unfold from_utf8_or_empty at 1. by rewrite utf8_plain by done.
Qed.

Lemma loaded_hash a passwd sh u : load_from_vfs a = a → fs_read PASSWD (files a) = Some passwd →
  fs_read SHADOW (files a) = Some sh → plain sh → u ∈ USERS a → pw_hash u = shadow_entry sh (username u).
Proof.
  intros Hload Hp Hs Hplain. rewrite <- Hload, (load_plain a passwd sh) by done. cbn [USERS].
  rewrite list_elem_of_omap. intros (l & _ & Hl). unfold parse_account in Hl. repeat case_match; simplify_eq. done.
Qed.

(** The accounts after the change: the same, with their entries in the new file. *)
Lemma password_changed a a' name pw passwd sh :
  load_from_vfs a = a → fs_read PASSWD (files a) = Some passwd → fs_read SHADOW (files a) = Some sh → plain sh → one_line name →
  change_password name pw a = (Ok tt, a') →
  ∃ sh', a' = mkAccounts (map (with_shadow sh') (USERS a)) (files a') ∧ load_from_vfs a' = a'
    ∧ lines sh' = map (relabel name (hash_password pw (salt_for name))) (lines sh).
Proof.
  intros Hload Hpw Hsh Hplain Hname. unfold change_password, read_or_empty. rewrite Hsh.
  change (default [] (Some sh)) with sh. unfold from_utf8_or_empty at 1. rewrite utf8_plain by done.
  destruct (shadow_rewritten name (hash_password pw (salt_for name)) sh Hplain Hname (hash_plain pw name)) as [Hplain' Hlines].
  destruct (fs_write SHADOW _ (files a)) as [[] f] eqn:Ew; [|done]. intros [= <-]. apply written in Ew as [Enew Eold].
  assert (Epw : fs_read PASSWD f = Some passwd) by (rewrite Eold; [done|by vm_compute]).
  set (sh' := concat _) in *. exists sh'. rewrite !(load_plain (mkAccounts _ f) passwd sh') by done. cbn [files]. split_and!; [|done..].
  f_equal. rewrite (omap_shadow sh). f_equal. rewrite <- Hload at 1. by rewrite (load_plain a passwd sh).
Qed.

End passwords.

(** ** Privilege *)
Section privilege.
Context {F : Type} `{FileStore F}.
Implicit Types s : System F.

(** The calls a process can make, and changes of the accounts. *)
Inductive event :=
| Su (pid : Z) (target password : list Z)
| Setuid (pid new_uid : Z)
| Setgid (pid new_gid : Z)
| Passwd (name password : list Z)
| AddUser (name password : list Z).

Definition step s (e : event) : System F :=
  match e with
  | Su pid t pw => (su pid t pw s).2
  | Setuid pid n => (setuid pid n s).2
  | Setgid pid n => (setgid pid n s).2
  | Passwd n pw => set_accounts (change_password n pw (accounts s)).2 s
  | AddUser n pw => set_accounts (add_user n pw (accounts s)).2 s
  end.

(** A process of a user, without privilege. *)
Definition unprivileged (p : Z) s : Prop := ∃ i, SESSIONS s !! p = Some i ∧ s_uid i ≠ 0 ∧ euid i ≠ 0.

(** The process has given the password of an account with user id 0. *)
Definition proves_root (p : Z) (e : event) s : Prop :=
  ∃ t pw u, e = Su p t pw ∧ authenticate t pw (accounts s) = true ∧ find_user t (accounts s) = Some u ∧ uid u = 0.

Lemma session_other p q i s : p ≠ q → unprivileged p s → unprivileged p (set_session q i s).
Proof. intros Hne (x & Hx & ?). exists x. cbn. by rewrite lookup_insert_ne. Qed.

Lemma unprivileged_step p s e : unprivileged p s → unprivileged p (step s e) ∨ proves_root p e s.
Proof.
  intros Hu. destruct e as [q t pw|q n|q n|n pw|n pw]; cbn [step]; [| | |by left..].
  - unfold su. destruct (_ || _) eqn:Ea; [|by left]. destruct (find_user t (accounts s)) as [u|] eqn:Ef; [|by left].
    destruct (decide (q = p)) as [->|Hne]; [|left; by apply session_other].
    destruct (decide (uid u = 0)) as [E0|E0]; [right|left; exists (for_user (GROUPS s) u); cbn; by rewrite lookup_insert_eq].
    destruct Hu as (i & Hi & _ & He). unfold get_session in Ea. rewrite Hi in Ea. change (default root_session (Some i)) with i in Ea.
    rewrite (proj2 (Z.eqb_neq _ _) He) in Ea. by exists t, pw, u.
  - left. unfold setuid. destruct (SESSIONS s !! q) as [i|] eqn:Eq; [|done]. destruct (_ && _) eqn:Ec; [done|].
    destruct (decide (q = p)) as [->|Hne]; [|by apply session_other]. destruct Hu as (i' & Hi & Hs & He). assert (i' = i) as -> by congruence.
    eexists. cbn. rewrite lookup_insert_eq. split; [done|]. cbn. split; [done|].
    rewrite (proj2 (Z.eqb_neq _ _) He) in Ec. destruct (Z.eqb_spec n (s_uid i)); [by subst|done].
  - left. unfold setgid. destruct (SESSIONS s !! q) as [i|] eqn:Eq; [|done]. destruct (_ && _) eqn:Ec; [done|].
    destruct (decide (q = p)) as [->|Hne]; [|by apply session_other]. destruct Hu as (i' & Hi & Hs & He). assert (i' = i) as -> by congruence.
    eexists. cbn. rewrite lookup_insert_eq. split; [done|]. done.
Qed.

(** C14: a process without privilege gains it only by the password of an account with
    user id 0.  Whatever the processes of the system call, in whatever order, and
    whatever passwords and accounts change meanwhile: if the process ends up as root,
    then at some point it called [su] and gave that password. *)
Theorem no_escalation p s es :
  unprivileged p s → current_uid p (foldl step s es) = 0 →
  ∃ before e after, es = before ++ e :: after ∧ proves_root p e (foldl step s before).
Proof.
  revert s. induction es as [|e es IH]; intros s Hu Hc; cbn [foldl] in Hc.
  - destruct Hu as (i & Hi & _ & He). unfold current_uid in Hc. rewrite Hi in Hc. done.
  - destruct (unprivileged_step p s e Hu) as [Hu'|Hp]; [|by exists [], e, es].
    destruct (IH _ Hu' Hc) as (b & e' & a & -> & Hp). by exists (e :: b), e', a.
Qed.

(** The shadow file is closed to everybody else. *)
Lemma shadow_closed s u g extra op :
  PERM_TABLE s !! SHADOW = Some (mkPerm OWNER_ONLY 0 0) → u ≠ 0 → is_ok (check_perm SHADOW u g extra op s) = false.
Proof.
  intros Hp Hu. unfold check_perm, get_perm. rewrite Hp, (proj2 (Z.eqb_neq _ _) Hu). cbn [owner group mode].
  rewrite (proj2 (Z.eqb_neq _ _) Hu). destruct ((g =? 0) || _), op; reflexivity.
Qed.

(** ** Findings *)

(** Finding: a process without a session counts as root: it becomes any user without
    a password. *)
Lemma unregistered_is_root p s t u :
  SESSIONS s !! p = None → find_user t (accounts s) = Some u →
  current_uid p s = 0 ∧ su p t [] s = (Ok tt, set_session p (for_user (GROUPS s) u) s).
Proof. intros Hp Hu. unfold current_uid, su, get_session. by rewrite Hp, Hu. Qed.

(** Finding: dropping privilege is not permanent: the real user id stays 0 and lets the
    process return. *)
Lemma dropped_privilege_returns p s n :
  SESSIONS s !! p = Some root_session → n ≠ 0 → current_uid p (setuid p 0 (setuid p n s).2).2 = 0.
Proof.
  intros Hp Hn. assert (E : SESSIONS (setuid p n s).2 !! p = Some (mkSession 0 0 (text "root") [] n 0)).
  { unfold setuid. rewrite Hp. apply lookup_insert_eq. }
  set (s1 := (setuid p n s).2) in *. unfold setuid, current_uid. rewrite E.
  change (0 =? s_uid (mkSession 0 0 (text "root") [] n 0)) with true. rewrite andb_false_r. cbn [snd].
  unfold set_session, set_sessions. cbn [SESSIONS]. by rewrite lookup_insert_eq.
Qed.
End privilege.

(** Finding: a user id that is no number makes the account root. *)
Lemma malformed_uid_is_root : uid <$> parse_account [] (text "eve:x:1OOO:1000:/home/eve:/bin/sh") = Some 0.
Proof. vm_compute. reflexivity. Qed.

(** Finding: names are not checked: one with a line break adds an account with any
    user id. *)
Lemma name_injects_account :
  uid <$> omap (parse_account []) (lines (passwd_line (text "eve:x:0:0:/:/bin/sh" ++ [10] ++ text "z") 1002)) = [0; 1002].
Proof. vm_compute. reflexivity. Qed.

(** Finding: changing the password of an account without a line in the shadow file
    writes no hash and reports success. *)
Lemma password_not_stored name hash ls :
  Forall (λ l, starts_with (name ++ [58]) l = false) ls → map (new_shadow_line name hash) ls = map (λ l, l ++ [10]) ls.
Proof. induction 1 as [|l ls Hl _ IH]; [done|]. cbn [map]. unfold new_shadow_line at 1. by rewrite Hl, IH. Qed.

(** ** Witnesses *)
#[export] Instance map_files : FileStore (gmap (list Z) (list Z)).
Proof.
  refine {| fs_stat p f := bool_decide (is_Some (f !! p)); fs_read p f := f !! p; fs_write p d f := (true, <[p := d]> f); fs_mkdir _ f := f |}.
  - intros p d f f' [= <-]. split; [apply lookup_insert_eq|]. intros q Hq. by apply lookup_insert_ne.
  - done.
Defined.

Definition demo_shadow : list Z := text "root:$sha256$old" ++ [10] ++ text "user:x" ++ [10].
Definition demo_accounts : Accounts (gmap (list Z) (list Z)) :=
  load_from_vfs (mkAccounts [] (<[PASSWD := default_passwd]> {[SHADOW := demo_shadow]})).


(** Root without a password. *)
Definition open_system : System (gmap (list Z) (list Z)) :=
  mkSystem (load_from_vfs (mkAccounts [] {[PASSWD := default_passwd]})) [] ∅ {[7 := mkSession 1000 1000 (text "user") [] 1000 1000]}.

Lemma no_escalation_witness :
  ∃ before e after, [Setuid 7 0; Su 7 (text "root") []; Setgid 7 5] = before ++ e :: after
    ∧ proves_root 7 e (foldl step open_system before).
Proof.
  apply (no_escalation 7 open_system).
  - exists (mkSession 1000 1000 (text "user") [] 1000 1000). split; [reflexivity|]. split; discriminate.
  - vm_compute. reflexivity.
Defined.

(** ** Namespaces ([security/namespace.rs]) *)
Definition GLOBAL_NS : Z := 0.

Record PidNs := mkPidNs { next_local_pid : Z; global_to_local : gmap Z Z }.

Record Namespaces := mkNamespaces {
  NEXT_NS : Z;
  PID_NAMESPACES : gmap Z PidNs;
  PROC_NS : gmap Z Z;
  PROC_VFS_ROOT : gmap Z (list Z)
}.

Definition create_pid_namespace (n : Namespaces) : Z * Namespaces :=
  (NEXT_NS n, mkNamespaces (wrap 32 (NEXT_NS n + 1)) (<[NEXT_NS n := mkPidNs 1 ∅]> (PID_NAMESPACES n)) (PROC_NS n) (PROC_VFS_ROOT n)).

Definition assign_pid_namespace (global_pid ns_id : Z) (n : Namespaces) : Namespaces :=
  let ns := default (mkPidNs 2 ∅) (PID_NAMESPACES n !! ns_id) in
  let ns' := match global_to_local ns !! global_pid with
             | Some _ => ns
             | None => mkPidNs (wrap 32 (next_local_pid ns + 1)) (<[global_pid := next_local_pid ns]> (global_to_local ns))
             end in
  mkNamespaces (NEXT_NS n) (<[ns_id := ns']> (PID_NAMESPACES n)) (<[global_pid := ns_id]> (PROC_NS n)) (PROC_VFS_ROOT n).

Definition remove_from_namespace (global_pid : Z) (n : Namespaces) : Namespaces :=
  let nss := match PROC_NS n !! global_pid with
             | Some id => alter (λ ns, mkPidNs (next_local_pid ns) (delete global_pid (global_to_local ns))) id (PID_NAMESPACES n)
             | None => PID_NAMESPACES n
             end in
  mkNamespaces (NEXT_NS n) nss (delete global_pid (PROC_NS n)) (PROC_VFS_ROOT n).

Definition local_pid (global_pid : Z) (n : Namespaces) : Z :=
  match PROC_NS n !! global_pid with
  | Some id =>
      if id =? GLOBAL_NS then global_pid
      else default global_pid (PID_NAMESPACES n !! id ≫= λ ns, global_to_local ns !! global_pid)
  | None => global_pid
  end.

Definition process_namespace (pid : Z) (n : Namespaces) : Z := default GLOBAL_NS (PROC_NS n !! pid).

Definition set_vfs_root (pid : Z) (root : list Z) (n : Namespaces) : Namespaces :=
  mkNamespaces (NEXT_NS n) (PID_NAMESPACES n) (PROC_NS n) (<[pid := root]> (PROC_VFS_ROOT n)).
Definition vfs_root (pid : Z) (n : Namespaces) : list Z := default [47] (PROC_VFS_ROOT n !! pid).
Definition remove_vfs_root (pid : Z) (n : Namespaces) : Namespaces :=
  mkNamespaces (NEXT_NS n) (PID_NAMESPACES n) (PROC_NS n) (delete pid (PROC_VFS_ROOT n)).

Definition resolve_path (pid : Z) (path : list Z) (n : Namespaces) : list Z :=
  let root := vfs_root pid n in
  let root_trim := trim_end_matches 47 root in
  if bool_decide (root = [47]) || starts_with [47] path then
    match root_trim with
    | [] => path
    | _ => if starts_with root_trim path then path else root_trim ++ path
    end
  else root_trim ++ [47] ++ path.

(** Local numbers below the next one, each given once, and no process in a namespace
    without a number. *)
Record pid_ns_ok (ns : PidNs) : Prop := {
  pn_below p l : global_to_local ns !! p = Some l → 1 ≤ l < next_local_pid ns;
  pn_inj p q l : global_to_local ns !! p = Some l → global_to_local ns !! q = Some l → p = q;
  pn_next : 1 ≤ next_local_pid ns
}.

Record namespaces_ok (n : Namespaces) : Prop := {
  no_ns id ns : PID_NAMESPACES n !! id = Some ns → pid_ns_ok ns;
  no_member p id : PROC_NS n !! p = Some id → ∃ ns, PID_NAMESPACES n !! id = Some ns ∧ is_Some (global_to_local ns !! p)
}.

Inductive ns_call :=
| CreateNs
| AssignNs (pid id : Z)
| RemoveNs (pid : Z)
| SetRoot (pid : Z) (root : list Z)
| RemoveRoot (pid : Z).

Definition ns_step (n : Namespaces) (c : ns_call) : Namespaces :=
  match c with
  | CreateNs => (create_pid_namespace n).2
  | AssignNs pid id => assign_pid_namespace pid id n
  | RemoveNs pid => remove_from_namespace pid n
  | SetRoot pid root => set_vfs_root pid root n
  | RemoveRoot pid => remove_vfs_root pid n
  end.

(** Counters that do not wrap, and no process in the namespace to be created. *)
Definition ns_room (n : Namespaces) : Prop :=
  (∀ id ns, PID_NAMESPACES n !! id = Some ns → next_local_pid ns + 1 < 2 ^ 32)
  ∧ ∀ p id, PROC_NS n !! p = Some id → id ≠ NEXT_NS n.

Lemma assigned_ok pid ns : pid_ns_ok ns → next_local_pid ns + 1 < 2 ^ 32 →
  let ns' := match global_to_local ns !! pid with
             | Some _ => ns
             | None => mkPidNs (wrap 32 (next_local_pid ns + 1)) (<[pid := next_local_pid ns]> (global_to_local ns))
             end in
  pid_ns_ok ns' ∧ (∀ p, is_Some (global_to_local ns !! p) → is_Some (global_to_local ns' !! p)) ∧ is_Some (global_to_local ns' !! pid).
Proof.
  intros [Hb Hi Hn] Hw. cbv zeta. destruct (global_to_local ns !! pid) as [l|] eqn:E; [split; [done|]; rewrite E; eauto|].
  rewrite wrap_id by (split; lia). split; [|split].
  - split; cbn [global_to_local next_local_pid].
    + intros p l [[<- <-]|[_ H]]%lookup_insert_Some; [lia|]. apply Hb in H. lia.
    + intros p q l [[<- <-]|[Hp H]]%lookup_insert_Some [[<- E2]|[Hq H']]%lookup_insert_Some; try done.
      * apply Hb in H'. lia.
      * apply Hb in H. lia.
      * by apply (Hi p q l).
    + lia.
  - intros p Hp. cbn. destruct (decide (p = pid)) as [->|]; [rewrite lookup_insert_eq; eauto|by rewrite lookup_insert_ne].
  - cbn. rewrite lookup_insert_eq. eauto.
Qed.

Lemma ns_step_ok n c : namespaces_ok n → ns_room n → namespaces_ok (ns_step n c).
Proof.
  intros [Hn Hm] [Hw Hf]. destruct c as [|pid id|pid|pid root|pid]; cbn [ns_step].
  - split; cbn.
    + intros id ns [[<- <-]|[_ H]]%lookup_insert_Some; [|by apply (Hn id)]. split; cbn; [done..|lia].
    + intros p id Hp. destruct (Hm p id Hp) as (ns & ? & ?). exists ns. rewrite lookup_insert_ne; [done|]. intros E. by destruct (Hf p id Hp).
  - unfold assign_pid_namespace. set (ns := default _ _).
    assert (Hns : pid_ns_ok ns ∧ next_local_pid ns + 1 < 2 ^ 32).
    { unfold ns. destruct (PID_NAMESPACES n !! id) as [x|] eqn:E; [split; [by apply (Hn id)|by apply (Hw id)]|].
      split; [split; cbn; [done..|lia]|done]. }
    destruct (assigned_ok pid ns) as (H1 & H2 & H3); [apply Hns..|]. cbv zeta in *. set (ns' := match _ with Some _ => _ | None => _ end) in *.
    split; cbn.
    + intros i x [[<- <-]|[_ H]]%lookup_insert_Some; [done|by apply (Hn i)].
    + intros p i Hp. destruct (decide (i = id)) as [->|Hne]; [rewrite lookup_insert_eq; exists ns'; split; [done|]|].
      * destruct (decide (p = pid)) as [->|Hpp]; [done|]. rewrite lookup_insert_ne in Hp by done.
        destruct (Hm p id Hp) as (x & Hx & Hin). apply H2. unfold ns. by rewrite Hx.
      * rewrite lookup_insert_ne by done. apply lookup_insert_Some in Hp as [[? ?]|[_ Hp]]; [done|]. by apply Hm.
  - unfold remove_from_namespace. destruct (PROC_NS n !! pid) as [id|] eqn:E.
    + split; cbn.
      * intros i x Hx. destruct (decide (i = id)) as [->|Hne]; [|rewrite lookup_alter_ne in Hx by done; by apply (Hn i)].
        rewrite lookup_alter_eq in Hx. destruct (PID_NAMESPACES n !! id) as [y|] eqn:Ey; [|done]. injection Hx as <-.
        destruct (Hn id y Ey) as [Hb Hi Hp]. split; cbn; [| |done].
        -- intros p l [_ H]%lookup_delete_Some. by apply (Hb p).
        -- intros p q l [_ H]%lookup_delete_Some [_ H']%lookup_delete_Some. by apply (Hi p q l).
      * intros p i [Hp Hi]%lookup_delete_Some. destruct (Hm p i Hi) as (x & Hx & Hin).
        destruct (decide (i = id)) as [->|Hne]; [rewrite lookup_alter_eq, Hx; eexists; split; [done|]; cbn; by rewrite lookup_delete_ne|].
        exists x. by rewrite lookup_alter_ne.
    + split; cbn; [done|]. intros p i [_ Hi]%lookup_delete_Some. by apply Hm.
  - by split.
  - by split.
Qed.

(** Two processes of one namespace other than the global one have different local
    process ids. *)
Lemma local_pids_distinct n p q :
  namespaces_ok n → process_namespace p n = process_namespace q n → process_namespace p n ≠ GLOBAL_NS →
  local_pid p n = local_pid q n → p = q.
Proof.
  intros [Hn Hm]. unfold process_namespace, local_pid. destruct (PROC_NS n !! p) as [i|] eqn:Ep; [|done].
  destruct (PROC_NS n !! q) as [j|] eqn:Eq; cbn [default from_option id]; [|done]. intros -> Hg.
  rewrite (proj2 (Z.eqb_neq _ _) Hg). destruct (Hm p j Ep) as (x & Hx & [l Hl]), (Hm q j Eq) as (y & Hy & [k Hk]).
  rewrite Hx. cbn [mbind option_bind]. rewrite Hl. assert (y = x) as -> by congruence. rewrite Hk. cbn. intros ->.
  by apply (pn_inj x (Hn j x Hx) p q k).
Qed.

(** Paths below the root, and relative ones, are taken below it. *)
Lemma resolve_relative pid path n root :
  vfs_root pid n = root → root ≠ [47] → starts_with [47] path = false →
  resolve_path pid path n = trim_end_matches 47 root ++ [47] ++ path.
Proof. intros Hr Hne Hp. unfold resolve_path. rewrite Hr, bool_decide_eq_false_2, Hp by done. done. Qed.

(** Finding: the root is compared as text, so a path beside it is let through, and
    [..] is not looked at. *)
Lemma root_escaped :
  let n := set_vfs_root 5 (text "/jail") (mkNamespaces 1 ∅ ∅ ∅) in
  resolve_path 5 (text "/jail2/secret") n = text "/jail2/secret"
  ∧ resolve_path 5 (text "/../etc/shadow") n = text "/jail/../etc/shadow".
Proof. split; vm_compute; reflexivity. Qed.

(** Finding: a process that changes its namespace keeps its number in the old one. *)
Lemma old_namespace_keeps_pid :
  let n := assign_pid_namespace 9 2 (assign_pid_namespace 9 1 (mkNamespaces 1 ∅ ∅ ∅)) in
  process_namespace 9 n = 2 ∧ (PID_NAMESPACES n !! 1 ≫= λ ns, global_to_local ns !! 9) = Some 2.
Proof. split; vm_compute; reflexivity. Qed.
