(* ===== verification/P256.v ===== *)
(** * Signature verification ([crypto/p256.rs])

    The curve P-256 over the big integers of [BigInt] (points, addition, doubling and
    multiplication, key agreement, ECDSA) and RSA signatures with PKCS #1 v1.5 padding.
    The theorems: on a prime field the point operations are the chord-and-tangent law
    of the curve and never leave it; an RSA signature is accepted exactly when its
    power has the padding and the digest in front. *)

From Stdlib Require Import Zmod.
From S2P Require Import Prelude Bits Words Sha2 BigInt BigIntProofs.

(** ** Curve parameters *)
Definition P256_P : list Z :=
  [0xFF;0xFF;0xFF;0xFF;0x00;0x00;0x00;0x01; 0x00;0x00;0x00;0x00;0x00;0x00;0x00;0x00;
   0x00;0x00;0x00;0x00;0xFF;0xFF;0xFF;0xFF; 0xFF;0xFF;0xFF;0xFF;0xFF;0xFF;0xFF;0xFF].
Definition P256_N : list Z :=
  [0xFF;0xFF;0xFF;0xFF;0x00;0x00;0x00;0x00; 0xFF;0xFF;0xFF;0xFF;0xFF;0xFF;0xFF;0xFF;
   0xBC;0xE6;0xFA;0xAD;0xA7;0x17;0x9E;0x84; 0xF3;0xB9;0xCA;0xC2;0xFC;0x63;0x25;0x51].
Definition P256_GX : list Z :=
  [0x6B;0x17;0xD1;0xF2;0xE1;0x2C;0x42;0x47; 0xF8;0xBC;0xE6;0xE5;0x63;0xA4;0x40;0xF2;
   0x77;0x03;0x7D;0x81;0x2D;0xEB;0x33;0xA0; 0xF4;0xA1;0x39;0x45;0xD8;0x98;0xC2;0x96].
Definition P256_GY : list Z :=
  [0x4F;0xE3;0x42;0xE2;0xFE;0x1A;0x7F;0x9B; 0x8E;0xE7;0xEB;0x4A;0x7C;0x0F;0x9E;0x16;
   0x2B;0xCE;0x33;0x57;0x6B;0x31;0x5E;0xCE; 0xCB;0xB6;0x40;0x68;0x37;0xBF;0x51;0xF5].
Definition P256_A : list Z :=
  [0xFF;0xFF;0xFF;0xFF;0x00;0x00;0x00;0x01; 0x00;0x00;0x00;0x00;0x00;0x00;0x00;0x00;
   0x00;0x00;0x00;0x00;0xFF;0xFF;0xFF;0xFF; 0xFF;0xFF;0xFF;0xFF;0xFF;0xFF;0xFF;0xFC].
Definition P256_B : list Z :=
  [0x5A;0xC6;0x35;0xD8;0xAA;0x3A;0x93;0xE7; 0xB3;0xEB;0xBD;0x55;0x76;0x98;0x86;0xBC;
   0x65;0x1D;0x06;0xB0;0xCC;0x53;0xB0;0xF6; 0x3B;0xCE;0x3C;0x3E;0x27;0xD2;0x60;0x4B].

(** ** Points *)
Record AffinePoint := mkPoint { px : BigInt; py : BigInt; infinity : bool }.

Definition at_infinity : AffinePoint := mkPoint ZERO ZERO true.

Definition base_point : AffinePoint := mkPoint (Big_from_be_bytes P256_GX) (Big_from_be_bytes P256_GY) false.

Definition point_from_bytes (bytes : list Z) : option AffinePoint :=
  if (length bytes =? 65)%nat && (nth 0 bytes 0 =? 4)
  then Some (mkPoint (Big_from_be_bytes (take 32 (drop 1 bytes))) (Big_from_be_bytes (take 32 (drop 33 bytes))) false)
  else None.

(** [AffinePoint::double] *)
Definition double (s : AffinePoint) (p a : BigInt) : AffinePoint :=
  if infinity s || is_zero (py s) then at_infinity else
  let x2 := mod_mul (px s) (px s) p in
  let three_x2 := mod_add (mod_add x2 x2 p) x2 p in
  let numer := mod_add three_x2 a p in
  let denom := mod_add (py s) (py s) p in
  match mod_inv denom p with
  | None => at_infinity
  | Some denom_inv =>
      let lambda := mod_mul numer denom_inv p in
      let lam2 := mod_mul lambda lambda p in
      let x3 := mod_add (mod_add lam2 (sub p (px s)) p) (sub p (px s)) p in
      let dx := mod_add (px s) (sub p x3) p in
      let y3 := mod_add (mod_mul lambda dx p) (sub p (py s)) p in
      mkPoint x3 y3 false
  end.

(** [AffinePoint::add] *)
Definition point_add (s other : AffinePoint) (p a : BigInt) : AffinePoint :=
  if infinity s then other
  else if infinity other then s
  else if eq_const (px s) (px other) then
    (if eq_const (py s) (py other) then double s p a else at_infinity)
  else
    let dy := mod_add (py other) (sub p (py s)) p in
    let dx := mod_add (px other) (sub p (px s)) p in
    match mod_inv dx p with
    | None => at_infinity
    | Some dx_inv =>
        let lambda := mod_mul dy dx_inv p in
        let lam2 := mod_mul lambda lambda p in
        let x3 := mod_add (mod_add lam2 (sub p (px s)) p) (sub p (px other)) p in
        let dx1 := mod_add (px s) (sub p x3) p in
        let y3 := mod_add (mod_mul lambda dx1 p) (sub p (py s)) p in
        mkPoint x3 y3 false
    end.

(** Body of the loop of [scalar_mul] on [(result, addend)]. *)
Definition scalar_step (k p a : BigInt) (ra : AffinePoint * AffinePoint) (i : nat) : AffinePoint * AffinePoint :=
  let (result, addend) := ra in
  (if bit k (Z.of_nat i) then point_add result addend p a else result, double addend p a).

Definition scalar_mul (s : AffinePoint) (k p a : BigInt) : AffinePoint :=
  fst (foldl (scalar_step k p a) (at_infinity, s) (seq 0 (Z.to_nat (bit_len k)))).

Definition p256_ecdh (private_key public_key_bytes : list Z) : option (list Z) :=
  let p := Big_from_be_bytes P256_P in
  let a := Big_from_be_bytes P256_A in
  let k := Big_from_be_bytes private_key in
  match point_from_bytes public_key_bytes with
  | None => None
  | Some q =>
      let shared := scalar_mul q k p a in
      if infinity shared then None else Some (take 32 (Big_to_be_bytes (px shared) 32))
  end.

(** ** ECDSA *)
Definition ecdsa_verify_p256 (public_key_bytes msg r_bytes s_bytes : list Z) : bool :=
  let n := Big_from_be_bytes P256_N in
  let p := Big_from_be_bytes P256_P in
  let a := Big_from_be_bytes P256_A in
  let r := Big_from_be_bytes r_bytes in
  let s := Big_from_be_bytes s_bytes in
  if is_zero r || is_zero s then false else
  match point_from_bytes public_key_bytes with
  | None => false
  | Some q =>
      let e := Big_from_be_bytes (sha256 msg) in
      match mod_inv s n with
      | None => false
      | Some w =>
          let u1 := mod_mul e w n in
          let u2 := mod_mul r w n in
          let p1 := scalar_mul base_point u1 p a in
          let p2 := scalar_mul q u2 p a in
          let pt := point_add p1 p2 p a in
          if infinity pt then false else eq_const (modulo (px pt) n) r
      end
  end.

(** ** RSA *)
Definition SHA256_DER_PREFIX : list Z :=
  [0x30;0x31;0x30;0x0D;0x06;0x09;0x60;0x86;0x48;0x01;0x65;0x03;0x04;0x02;0x01;0x05;0x00;0x04;0x20].

(** [while i < 256 && em[i] == 0xFF { i += 1; }]: what is left of [em] *)
Fixpoint skip_ff (em : list Z) : list Z :=
  match em with
  | b :: em' => if b =? 0xFF then skip_ff em' else em
  | [] => []
  end.

(** The checks of the decoded block [em]. *)
Definition padding_ok (em msg : list Z) : bool :=
  if negb (nth 0 em 0 =? 0) || negb (nth 1 em 0 =? 1) then false else
  match skip_ff (drop 2 em) with
  | [] => false
  | b :: rem =>
      if negb (b =? 0) then false
      else if (length rem <? length SHA256_DER_PREFIX + 32)%nat then false
      else if negb (bool_decide (take (length SHA256_DER_PREFIX) rem = SHA256_DER_PREFIX)) then false
      else bool_decide (take 32 (drop (length SHA256_DER_PREFIX) rem) = sha256 msg)
  end.

Definition rsa2048_verify_pkcs1v15_sha256 (n_bytes e_bytes sig_bytes msg : list Z) : bool :=
  let n := Big_from_be_bytes n_bytes in
  let e := Big_from_be_bytes e_bytes in
  let sig := Big_from_be_bytes sig_bytes in
  let m := mod_exp sig e n in
  padding_ok (Big_to_be_bytes m 256) msg.

(** ** The field *)
Section field.
Context (p : BigInt) (Hp : wf p) (Hpr : Z.prime (val p)) (Hsmall : (bn p ≤ 32)%nat).
Abbreviation F := (Zmod (val p)).
Implicit Types x y : BigInt.

(** A reduced number and the element it stands for. *)
Definition reduced x : Prop := wf x ∧ val x < val p.
Definition elt x : F := Zmod.of_Z (val p) (val x).

Lemma p_ge_2 : 2 ≤ val p.
Proof. exact (Z.prime_ge_2 _ Hpr). Qed.

Lemma p_room : 2 * val p < W MAX_LIMBS.
Proof.
  pose proof (val_bound p Hp) as [_ H]. apply W_mono in Hsmall as Hm. assert (W MAX_LIMBS = W 32 * W 32) by reflexivity.
  assert (2 < W 32) by reflexivity. nia.
Qed.

Lemma val_nonneg x : wf x → 0 ≤ val x.
Proof. intros H. apply (val_bound x H). Qed.

Lemma reduced_small x : reduced x → (bn x ≤ 32)%nat.
Proof. intros [H1 H2]. pose proof (bn_mono x p H1 Hp). lia. Qed.

Lemma elt_mod x v : val x = v `mod` val p → elt x = Zmod.of_Z (val p) v.
Proof. intros E. unfold elt. rewrite E. apply Zmod.of_Z_mod. Qed.

Lemma elt_inj x y : reduced x → reduced y → elt x = elt y → val x = val y.
Proof.
  intros [Hx1 Hx2] [Hy1 Hy2] E. apply (f_equal Zmod.to_Z) in E. unfold elt in E. rewrite !Zmod.to_Z_of_Z in E.
  rewrite !Z.mod_small in E; [done|pose proof (val_nonneg y Hy1); lia|pose proof (val_nonneg x Hx1); lia].
Qed.

(** One subtraction reduces a sum of a reduced number and at most [p]. *)
Lemma mod_add_elt x y : reduced x → wf y → val y ≤ val p →
  reduced (mod_add x y p) ∧ elt (mod_add x y p) = (elt x + elt y)%Zmod.
Proof.
  intros [Hx Hxp] Hy Hyp. pose proof p_room. pose proof p_ge_2. pose proof (val_nonneg x Hx). pose proof (val_nonneg y Hy).
  destruct (add_spec x y Hx Hy) as [Ha Ea]. rewrite Z.mod_small in Ea by lia.
  assert (E : wf (mod_add x y p) ∧ val (mod_add x y p) = (val x + val y) `mod` val p).
  { unfold mod_add. rewrite cmp_spec, Ea by done. destruct (Z.compare_spec (val x + val y) (val p)) as [C|C|C].
    - destruct (sub_spec _ _ Ha Hp) as [S1 S2]; [lia|]. split; [done|]. rewrite S2, Ea, C, Z_mod_same_full. lia.
    - rewrite Ea, Z.mod_small by lia. done.
    - destruct (sub_spec _ _ Ha Hp) as [S1 S2]; [lia|]. split; [done|].
      rewrite S2, Ea. rewrite <- (Z_mod_plus_full (val x + val y) (-1)), Z.mod_small by lia. lia. }
  destruct E as [E1 E2]. split; [split; [done|rewrite E2; apply Z.mod_pos_bound; lia]|].
  rewrite (elt_mod _ _ E2). unfold elt. by rewrite Zmod.of_Z_add.
Qed.

Lemma sub_elt y : reduced y → wf (sub p y) ∧ val (sub p y) ≤ val p ∧ elt (sub p y) = (- elt y)%Zmod.
Proof.
  intros [Hy Hyp]. pose proof (val_nonneg y Hy). destruct (sub_spec p y Hp Hy) as [S1 S2]; [lia|].
  split; [done|]. split; [lia|]. unfold elt. rewrite S2, <- Zmod.of_Z_opp, <- (Zmod.of_Z_mod (val p - val y)), <- (Zmod.of_Z_mod (- val y)).
  f_equal. rewrite <- (Z_mod_plus_full (- val y) 1). f_equal. lia.
Qed.

Lemma mod_sub_elt x y : reduced x → reduced y →
  reduced (mod_add x (sub p y) p) ∧ elt (mod_add x (sub p y) p) = (elt x - elt y)%Zmod.
Proof.
  intros Hx Hy. destruct (sub_elt y Hy) as (S1 & S2 & S3). destruct (mod_add_elt x (sub p y) Hx S1 S2) as [R E].
  split; [done|]. rewrite E, S3. by rewrite Zmod.add_opp_r.
Qed.

Lemma mod_mul_elt x y : reduced x → reduced y →
  reduced (mod_mul x y p) ∧ elt (mod_mul x y p) = (elt x * elt y)%Zmod.
Proof.
  intros Hx Hy. pose proof p_ge_2. pose proof (reduced_small x Hx). pose proof (reduced_small y Hy).
  destruct (mod_mul_spec x y p (proj1 Hx) (proj1 Hy) Hp) as [M1 M2]; [lia|unfold MAX_LIMBS; lia|].
  split; [split; [done|rewrite M2; apply Z.mod_pos_bound; lia]|]. rewrite (elt_mod _ _ M2). unfold elt. by rewrite Zmod.of_Z_mul.
Qed.

(** Fermat: the inversion of the code is that of the field. *)
Lemma mod_inv_elt x : reduced x → elt x ≠ Zmod.zero → ∃ y, mod_inv x p = Some y ∧ reduced y ∧ elt y = Zmod.inv (elt x).
Proof.
  intros Hx Hnz. pose proof p_ge_2. eexists. split; [reflexivity|].
  destruct (from_u64_wf 2) as [T1 T2]; [by compute|]. destruct (sub_spec p (from_u64 2) Hp T1) as [S1 S2]; [lia|].
  destruct (mod_exp_spec x (sub p (from_u64 2)) p (proj1 Hx) S1 Hp) as [M1 M2]; [unfold MAX_LIMBS; lia|lia|].
  split; [split; [done|rewrite M2; apply Z.mod_pos_bound; lia]|]. rewrite (elt_mod _ _ M2), S2, T2, Zmod.of_Z_pow by lia.
  by apply Zmod.fermat_inv.
Qed.

(** ** The curve *)

(** Points of y^2 = x^3 + a x + b over the field, [None] at infinity, with the
    chord-and-tangent law. *)
Definition ec_point : Type := option (F * F).

Definition third (lam x1 y1 x2 : F) : ec_point :=
  let x3 := (lam * lam - x1 - x2)%Zmod in Some (x3, (lam * (x1 - x3) - y1)%Zmod).

Definition ec_double (a : F) (P : ec_point) : ec_point :=
  match P with
  | None => None
  | Some (x, y) =>
      if Zmod.eqb y Zmod.zero then None
      else third ((x * x + x * x + x * x + a) * Zmod.inv (y + y)) x y x
  end%Zmod.

Definition ec_add (a : F) (P Q : ec_point) : ec_point :=
  match P, Q with
  | None, _ => Q
  | _, None => P
  | Some (x1, y1), Some (x2, y2) =>
      if Zmod.eqb x1 x2 then (if Zmod.eqb y1 y2 then ec_double a P else None)
      else third ((y2 - y1) * Zmod.inv (x2 - x1)) x1 y1 x2
  end%Zmod.

Definition on_curve (a b : F) (P : ec_point) : Prop :=
  match P with None => True | Some (x, y) => (y * y = x * x * x + a * x + b)%Zmod end.

Add Field Zmod_p : (Zmod.field_theory (val p) Hpr).

(** The third point of a chord or a tangent, mirrored, is on the curve. *)
Lemma chord_on_curve (a b lam x1 y1 x2 y2 : F) :
  on_curve a b (Some (x1, y1)) → on_curve a b (Some (x2, y2)) → x1 ≠ x2 → (lam * (x2 - x1) = y2 - y1)%Zmod →
  on_curve a b (third lam x1 y1 x2).
Proof.
  intros H1 H2 Hne Hl. cbn [third on_curve] in *.
  assert (Hd : (x2 - x1)%Zmod ≠ Zmod.zero) by (intros E; apply Hne; symmetry; by apply Zmod.sub_eq_0_iff).
  apply (Zmod.mul_cancel_l_prime (x2 - x1)%Zmod); [done..|].
  assert (Hy : y2 = (lam * (x2 - x1) + y1)%Zmod) by (rewrite Hl; ring). rewrite Hy in H2. clear Hl Hy.
  apply Zmod.sub_eq_0_iff in H1, H2. apply Zmod.sub_eq_0_iff. set (x3 := (lam * lam - x1 - x2)%Zmod).
  transitivity ((x2 - x3) * (y1 * y1 - (x1 * x1 * x1 + a * x1 + b))
    + (x3 - x1) * ((lam * (x2 - x1) + y1) * (lam * (x2 - x1) + y1) - (x2 * x2 * x2 + a * x2 + b)))%Zmod.
  - unfold x3. ring.
  - rewrite H1, H2. ring.
Qed.

Lemma tangent_on_curve (a b lam x y : F) :
  on_curve a b (Some (x, y)) → (lam * (y + y) = x * x + x * x + x * x + a)%Zmod → on_curve a b (third lam x y x).
Proof.
  intros H Hl. cbn [third on_curve] in *. apply Zmod.sub_eq_0_iff in H, Hl. apply Zmod.sub_eq_0_iff.
  set (x3 := (lam * lam - x - x)%Zmod).
  transitivity ((y * y - (x * x * x + a * x + b))
    + (x3 - x) * (lam * (y + y) - (x * x + x * x + x * x + a)))%Zmod.
  - unfold x3. ring.
  - rewrite H, Hl. ring.
Qed.

Lemma inv_r (x : F) : x ≠ Zmod.zero → (Zmod.inv x * x = Zmod.one)%Zmod.
Proof. intros. by apply Zmod.mul_inv_same_l_prime. Qed.

Lemma twice_nz (y : F) : val p ≠ 2 → y ≠ Zmod.zero → (y + y)%Zmod ≠ Zmod.zero.
Proof.
  intros H2 Hy E. assert (E' : (Zmod.of_Z (val p) 2 * y)%Zmod = Zmod.zero).
  { rewrite <- E. change 2 with (1 + 1). rewrite Zmod.of_Z_add, Zmod.of_Z_1. ring. }
  apply Zmod.mul_0_iff_prime in E' as [E'|E']; [|done|done]. revert E'. apply Zmod.of_Z_nz.
  pose proof p_ge_2. rewrite Z.mod_small by lia. lia.
Qed.

Lemma ec_double_on_curve (a b : F) P : val p ≠ 2 → on_curve a b P → on_curve a b (ec_double a P).
Proof.
  intros H2 HP. destruct P as [[x y]|]; [|done]. unfold ec_double.
  destruct (Zmod.eqb_spec y Zmod.zero) as [E|E]; [done|]. apply tangent_on_curve; [done|].
  rewrite <- Zmod.mul_assoc, inv_r, Zmod.mul_1_r; [done|by apply twice_nz].
Qed.

Lemma ec_add_on_curve (a b : F) P Q : val p ≠ 2 → on_curve a b P → on_curve a b Q → on_curve a b (ec_add a P Q).
Proof.
  intros H2 HP HQ. destruct P as [[x1 y1]|]; [|done]. destruct Q as [[x2 y2]|]; [|done]. unfold ec_add.
  destruct (Zmod.eqb_spec x1 x2) as [E|E].
  - destruct (Zmod.eqb_spec y1 y2); [by apply ec_double_on_curve|done].
  - apply (chord_on_curve a b _ x1 y1 x2 y2); [done..|]. rewrite <- Zmod.mul_assoc, inv_r, Zmod.mul_1_r; [done|].
    intros E0. apply E. symmetry. by apply Zmod.sub_eq_0_iff.
Qed.

(** ** Points of the code *)
Definition point_ok (P : AffinePoint) : Prop := infinity P = true ∨ reduced (px P) ∧ reduced (py P).
Definition view (P : AffinePoint) : ec_point := if infinity P then None else Some (elt (px P), elt (py P)).

Lemma is_zero_elt x : reduced x → is_zero x = Zmod.eqb (elt x) Zmod.zero.
Proof.
  intros Hx. apply eq_true_iff_eq. rewrite is_zero_spec by apply Hx.
  destruct (Zmod.eqb_spec (elt x) Zmod.zero) as [E|E]; split; try done.
  - intros _. destruct ZERO_wf as [Z1 Z2]. rewrite <- Z2. apply elt_inj; [done|split; [done|pose proof p_ge_2; lia]|].
    rewrite E. unfold elt. by rewrite Z2, Zmod.of_Z_0.
  - intros E0. destruct E. unfold elt. by rewrite E0, Zmod.of_Z_0.
Qed.

Lemma eq_const_elt x y : reduced x → reduced y → eq_const x y = Zmod.eqb (elt x) (elt y).
Proof.
  intros Hx Hy. apply eq_true_iff_eq. rewrite eq_const_spec by (apply Hx || apply Hy).
  destruct (Zmod.eqb_spec (elt x) (elt y)) as [E|E]; split; try done; [intros _; by apply elt_inj|].
  intros E0. destruct E. unfold elt. by rewrite E0.
Qed.

Lemma third_ok lambda x1 y1 x2 : reduced lambda → reduced x1 → reduced y1 → reduced x2 →
  let x3 := mod_add (mod_add (mod_mul lambda lambda p) (sub p x1) p) (sub p x2) p in
  let P := mkPoint x3 (mod_add (mod_mul lambda (mod_add x1 (sub p x3) p) p) (sub p y1) p) false in
  point_ok P ∧ view P = third (elt lambda) (elt x1) (elt y1) (elt x2).
Proof.
  intros Hl H1 Hy H2 x3 P.
  destruct (mod_mul_elt lambda lambda) as [R1 E1]; [done..|].
  destruct (mod_sub_elt (mod_mul lambda lambda p) x1) as [R2 E2]; [done..|].
  destruct (mod_sub_elt _ x2 R2) as [R3 E3]; [done|]. fold x3 in R3, E3.
  destruct (mod_sub_elt x1 x3) as [R4 E4]; [done..|].
  destruct (mod_mul_elt lambda _ Hl R4) as [R5 E5].
  destruct (mod_sub_elt _ y1 R5) as [R6 E6]; [done|].
  split; [by right|]. unfold view, third, P. cbn [infinity px py]. by rewrite E6, E5, E4, E3, E2, E1.
Qed.

Lemma view_at_infinity : point_ok at_infinity ∧ view at_infinity = None.
Proof. split; [by left|done]. Qed.

Lemma double_ok a P : val p ≠ 2 → reduced a → point_ok P →
  point_ok (double P p a) ∧ view (double P p a) = ec_double (elt a) (view P).
Proof.
  intros H2 Ha HP. unfold double. unfold view at 2. destruct (infinity P) eqn:Hi; [apply view_at_infinity|].
  destruct HP as [HP|[Hx Hy]]; [congruence|]. cbn [orb ec_double]. rewrite is_zero_elt by done.
  destruct (Zmod.eqb_spec (elt (py P)) Zmod.zero) as [E0|E0]; [apply view_at_infinity|].
  destruct (mod_mul_elt (px P) (px P)) as [R1 E1]; [done..|].
  destruct (mod_add_elt _ _ R1 (proj1 R1)) as [R2 E2]; [destruct R1; lia|].
  destruct (mod_add_elt _ _ R2 (proj1 R1)) as [R3 E3]; [destruct R1; lia|].
  destruct (mod_add_elt _ a R3 (proj1 Ha)) as [R4 E4]; [destruct Ha; lia|].
  destruct (mod_add_elt (py P) (py P) Hy (proj1 Hy)) as [R5 E5]; [destruct Hy; lia|].
  destruct (mod_inv_elt _ R5) as (d & -> & R6 & E6); [rewrite E5; by apply twice_nz|].
  destruct (mod_mul_elt _ d R4 R6) as [R7 E7].
  destruct (third_ok _ (px P) (py P) (px P) R7) as [T1 T2]; [done..|]. split; [exact T1|]. etransitivity; [exact T2|].
  by rewrite E7, E6, E5, E4, E3, E2, E1.
Qed.

Lemma point_add_ok a P Q : val p ≠ 2 → reduced a → point_ok P → point_ok Q →
  point_ok (point_add P Q p a) ∧ view (point_add P Q p a) = ec_add (elt a) (view P) (view Q).
Proof.
  intros H2 Ha HP HQ. unfold point_add. unfold view at 2 3. destruct (infinity P) eqn:Hi; [by destruct (infinity Q) eqn:?; unfold view; rewrite ?Heqb|].
  destruct (infinity Q) eqn:Hj; [unfold view; by rewrite Hi|].
  destruct HP as [HP|[Hx Hy]]; [congruence|]. destruct HQ as [HQ|[Hx' Hy']]; [congruence|]. cbn [ec_add].
  rewrite !eq_const_elt by done. destruct (Zmod.eqb_spec (elt (px P)) (elt (px Q))) as [E|E].
  - destruct (Zmod.eqb_spec (elt (py P)) (elt (py Q))); [|apply view_at_infinity].
    destruct (double_ok a P) as [D1 D2]; [done|done|by right|]. split; [done|]. rewrite D2. unfold view. by rewrite Hi.
  - destruct (mod_sub_elt (py Q) (py P)) as [R1 E1]; [done..|].
    destruct (mod_sub_elt (px Q) (px P)) as [R2 E2]; [done..|].
    destruct (mod_inv_elt _ R2) as (d & -> & R3 & E3).
    { rewrite E2. intros E0. apply E. symmetry. by apply Zmod.sub_eq_0_iff. }
    destruct (mod_mul_elt _ d R1 R3) as [R4 E4].
    destruct (third_ok _ (px P) (py P) (px Q) R4) as [T1 T2]; [done..|]. split; [exact T1|]. etransitivity; [exact T2|].
    by rewrite E4, E3, E2, E1.
Qed.

(** Double and add, from the lowest bit up. *)
Definition ec_mul (a : F) (bits : list bool) (P : ec_point) : ec_point :=
  fst (foldl (λ (ra : ec_point * ec_point) (c : bool), (if c then ec_add a ra.1 ra.2 else ra.1, ec_double a ra.2)) (None, P) bits).

Definition bits_of (k : BigInt) : list bool := map (λ i, Z.testbit (val k) (Z.of_nat i)) (seq 0 (Z.to_nat (bit_len k))).

Lemma scalar_mul_ok a P k : val p ≠ 2 → reduced a → point_ok P → wf k →
  point_ok (scalar_mul P k p a) ∧ view (scalar_mul P k p a) = ec_mul (elt a) (bits_of k) (view P).
Proof.
  intros H2 Ha HP Hk. unfold scalar_mul, ec_mul, bits_of.
  assert (G : ∀ l R A, point_ok R → point_ok A →
    let ra := foldl (scalar_step k p a) (R, A) l in
    point_ok ra.1 ∧ point_ok ra.2 ∧ (view ra.1, view ra.2)
      = foldl (λ (ra : ec_point * ec_point) (c : bool), (if c then ec_add (elt a) ra.1 ra.2 else ra.1, ec_double (elt a) ra.2))
          (view R, view A) (map (λ i, Z.testbit (val k) (Z.of_nat i)) l)).
  { induction l as [|i l IH]; intros R A HR HA; [done|]. cbn [foldl map fst snd].
    destruct (double_ok a A H2 Ha HA) as [D1 D2]. rewrite <- D2.
    replace (scalar_step k p a (R, A) i)
      with (if Z.testbit (val k) (Z.of_nat i) then point_add R A p a else R, double A p a)
      by (unfold scalar_step; by rewrite bit_spec by (done || lia)).
    destruct (Z.testbit (val k) (Z.of_nat i)); [|by apply IH].
    destruct (point_add_ok a R A H2 Ha HR HA) as [A1 A2]. rewrite <- A2. by apply IH. }
  destruct (G (seq 0 (Z.to_nat (bit_len k))) at_infinity P) as (G1 & _ & G3); [by left|done|].
  split; [exact G1|]. exact (f_equal fst G3).
Qed.

Lemma ec_mul_on_curve (a b : F) bits P : val p ≠ 2 → on_curve a b P → on_curve a b (ec_mul a bits P).
Proof.
  intros H2 HP. unfold ec_mul.
  assert (G : ∀ R A, on_curve a b R → on_curve a b A →
    on_curve a b (fst (foldl (λ (ra : ec_point * ec_point) (c : bool), (if c then ec_add a ra.1 ra.2 else ra.1, ec_double a ra.2)) (R, A) bits))).
  { induction bits as [|c bits IH]; intros R A HR HA; [done|]. cbn [foldl fst snd].
    apply IH; [destruct c; [by apply ec_add_on_curve|done]|by apply ec_double_on_curve]. }
  by apply G.
Qed.
End field.

(** C26: the arithmetic on points over a prime field refines the chord-and-tangent law
    of the field, multiplication by a number being the double-and-add on its bits,
    and never leaves the curve. *)
Theorem point_arithmetic_refines p a P Q k :
  wf p → Z.prime (val p) → (bn p ≤ 32)%nat → val p ≠ 2 → reduced p a → point_ok p P → point_ok p Q → wf k →
  (point_ok p (point_add P Q p a) ∧ view p (point_add P Q p a) = ec_add p (elt p a) (view p P) (view p Q))
  ∧ (point_ok p (scalar_mul P k p a) ∧ view p (scalar_mul P k p a) = ec_mul p (elt p a) (bits_of k) (view p P))
  ∧ ∀ b, on_curve p (elt p a) b (view p P) → on_curve p (elt p a) b (view p Q) →
      on_curve p (elt p a) b (view p (point_add P Q p a)) ∧ on_curve p (elt p a) b (view p (scalar_mul P k p a)).
Proof.
  intros Hp Hpr Hs H2 Ha HP HQ Hk.
  destruct (point_add_ok p Hp Hpr Hs a P Q) as [A1 A2]; [done..|].
  destruct (scalar_mul_ok p Hp Hpr Hs a P k) as [M1 M2]; [done..|].
  split; [done|]. split; [done|]. intros b OP OQ. rewrite A2, M2.
  split; [by apply ec_add_on_curve|by apply ec_mul_on_curve].
Qed.

(** The base point of P-256 is on its curve. *)
Example base_point_on_curve :
  let p := from_be_bytes P256_P in let x := from_be_bytes P256_GX in let y := from_be_bytes P256_GY in
  (y * y) `mod` p = (x * x * x + from_be_bytes P256_A * x + from_be_bytes P256_B) `mod` p.
Proof. vm_compute. reflexivity. Qed.

(** ** RSA signatures *)
Lemma skip_ff_spec em b rem : skip_ff em = b :: rem → ∃ k, em = replicate k 0xFF ++ b :: rem.
Proof.
  induction em as [|c em IH]; [done|]. cbn [skip_ff]. destruct (Z.eqb_spec c 0xFF) as [->|Hc].
  - intros [k ->]%IH. by exists (S k).
  - intros [= -> ->]. by exists O.
Qed.

Lemma skip_ff_app k rem : skip_ff (replicate k 0xFF ++ 0 :: rem) = 0 :: rem.
Proof. by induction k. Qed.

(** The decoded block: padding of any length, the digest of the message, and whatever
    comes after it. *)
Definition padded (msg rest : list Z) (k : nat) : list Z :=
  [0; 1] ++ replicate k 0xFF ++ [0] ++ SHA256_DER_PREFIX ++ sha256 msg ++ rest.

Lemma padding_spec em msg : padding_ok em msg = true ↔ ∃ k rest, em = padded msg rest k.
Proof.
  unfold padding_ok, padded. split.
  - destruct em as [|b0 [|b1 em]]; [done|cbn [nth]; by destruct (b0 =? 0)|]. cbn [nth drop].
    destruct (Z.eqb_spec b0 0) as [->|]; cbn [negb orb]; [|done]. destruct (Z.eqb_spec b1 1) as [->|]; cbn [negb]; [|done].
    rewrite drop_0. destruct (skip_ff em) as [|b rem] eqn:E; [done|]. apply skip_ff_spec in E as [k ->].
    destruct (Z.eqb_spec b 0) as [->|]; cbn [negb]; [|done]. destruct (_ <? _)%nat; [done|].
    case_bool_decide as E1; cbn [negb]; [|done]. intros E2%bool_decide_eq_true.
    change (length SHA256_DER_PREFIX) with 19%nat in *. exists k, (drop 32 (drop 19 rem)).
    rewrite <- E2, take_drop. rewrite <- (take_drop 19 rem) at 1. by rewrite E1.
  - intros (k & rest & ->). cbn [app nth]. change (0 =? 0) with true. change (1 =? 1) with true. cbn [negb orb].
    change (drop 2 (0 :: 1 :: ?l)) with l.
    rewrite skip_ff_app. cbn [negb Z.eqb]. rewrite (proj2 (Nat.ltb_ge _ _)).
    + rewrite take_app_length, bool_decide_eq_true_2, drop_app_length by done. cbn [negb].
      apply bool_decide_eq_true. rewrite <- (length_sha256 msg). apply take_app_length.
    + rewrite !length_app, length_sha256. lia.
Qed.

(** A signature is accepted exactly when its power modulo the key is a block with the
    digest of the message; whatever comes behind the digest is not looked at. *)
Theorem rsa_verify_spec n e sig msg :
  bytes_ok n → length n = 256%nat → 1 < from_be_bytes n →
  bytes_ok e → (length e ≤ 512)%nat → bytes_ok sig → length sig = 256%nat →
  rsa2048_verify_pkcs1v15_sha256 n e sig msg = true
  ↔ ∃ k rest, to_be_bytes 256 (from_be_bytes sig ^ from_be_bytes e `mod` from_be_bytes n) = padded msg rest k.
Proof.
  intros Hn Ln Vn He Le Hs Ls. unfold rsa2048_verify_pkcs1v15_sha256.
  destruct (Big_from_be_bytes_spec n Hn) as [N1 N2]; [unfold MAX_LIMBS; lia|].
  destruct (Big_from_be_bytes_spec e He) as [E1 E2]; [unfold MAX_LIMBS; lia|].
  destruct (Big_from_be_bytes_spec sig Hs) as [S1 S2]; [unfold MAX_LIMBS; lia|].
  pose proof (from_be_bytes_range n Hn) as [_ Rn]. rewrite Ln in Rn.
  assert (Hb : (bn (Big_from_be_bytes n) ≤ 32)%nat).
  { destruct (decide (bn (Big_from_be_bytes n) ≤ 32)%nat) as [|Hgt]; [done|].
    pose proof (val_lower _ N1 ltac:(lia)) as Hl. pose proof (W_mono 32 (bn (Big_from_be_bytes n) - 1) ltac:(lia)) as Hw.
    change (W 32) with (2 ^ (8 * Z.of_nat 256)) in Hw. lia. }
  destruct (mod_exp_spec (Big_from_be_bytes sig) (Big_from_be_bytes e) (Big_from_be_bytes n)) as [M1 M2]; [done..|unfold MAX_LIMBS; lia|lia|].
  rewrite padding_spec, Big_to_be_bytes_spec, M2, N2, E2, S2; [done|done|].
  pose proof (bn_mono _ _ M1 N1) as Hm. rewrite M2 in Hm.
  pose proof (Z.mod_pos_bound (val (Big_from_be_bytes sig) ^ val (Big_from_be_bytes e)) (val (Big_from_be_bytes n)) ltac:(lia)). lia.
Qed.

(** Cube roots, rounded up. *)
Lemma cube_root x : 0 < x → ∃ t, 0 ≤ t ∧ t ^ 3 < x ≤ (t + 1) ^ 3.
Proof.
  intros Hx. assert (G : ∀ n, 0 ≤ n → x ≤ n ^ 3 → ∃ t, 0 ≤ t ∧ t ^ 3 < x ≤ (t + 1) ^ 3).
  { apply (natlike_ind (λ n, x ≤ n ^ 3 → ∃ t, 0 ≤ t ∧ t ^ 3 < x ≤ (t + 1) ^ 3)); [lia|].
    intros n Hn IH Hs. destruct (Z_lt_le_dec (n ^ 3) x); [|by apply IH]. exists n. unfold Z.succ in Hs. lia. }
  apply (G x); [lia|]. nia.
Qed.

(** Numbers with given leading bytes. *)
Lemma be_prefix h m v : bytes_ok h →
  from_be_bytes h * 2 ^ (8 * Z.of_nat m) ≤ v < from_be_bytes h * 2 ^ (8 * Z.of_nat m) + 2 ^ (8 * Z.of_nat m) →
  to_be_bytes (length h + m) v = h ++ to_be_bytes m v.
Proof.
  intros Hh Hv. rewrite to_be_bytes_app. f_equal. generalize dependent (2 ^ (8 * Z.of_nat m)). intros B Hv.
  rewrite <- (Z.div_unique v B (from_be_bytes h) (v - from_be_bytes h * B)); [by apply to_from_be_bytes|left; lia|ring].
Qed.

(** With the exponent 3, a signature for any message comes from a cube root: no
    private key is needed. *)
Theorem rsa_forgery n msg :
  bytes_ok n → length n = 256%nat → 2 ^ 2034 ≤ from_be_bytes n →
  ∃ sig, bytes_ok sig ∧ length sig = 256%nat ∧ rsa2048_verify_pkcs1v15_sha256 n [3] sig msg = true.
Proof.
  intros Hn Ln Vn. set (h := [0; 1; 0] ++ SHA256_DER_PREFIX ++ sha256 msg).
  assert (Hh : bytes_ok h).
  { apply Forall_app. split; [repeat constructor; by compute|]. apply Forall_app. split; [|apply sha256_bytes_ok].
    apply (bool_decide_unpack _). vm_compute. exact I. }
  assert (Lh : length h = 54%nat) by (unfold h; rewrite !length_app, length_sha256; done).
  assert (Bh : 0 < from_be_bytes h < 2 ^ (8 * Z.of_nat 52 + 1)).
  { unfold h. cbn [app]. change (0 :: 1 :: 0 :: ?l) with ([0; 1; 0] ++ l). rewrite from_be_bytes_app.
    assert (Hr : bytes_ok (SHA256_DER_PREFIX ++ sha256 msg)) by (apply (Forall_app (uN 8) [0; 1; 0]) in Hh; apply Hh).
    apply from_be_bytes_range in Hr. destruct Hr as [R1 R2]. rewrite !length_app, length_sha256 in *.
    change (from_be_bytes [0; 1; 0]) with 256. change (length SHA256_DER_PREFIX + 32)%nat with 51%nat in *. lia. }
  set (B := 2 ^ (8 * Z.of_nat 202)) in *. set (x := from_be_bytes h * B).
  assert (HB : 0 < B) by done.
  destruct (cube_root x) as (t & Ht & Ht1 & Ht2); [unfold x; nia|].
  assert (Hx : x < 2 ^ 2033) by (unfold x, B; lia).
  assert (Htt : t < 2 ^ 678).
  { destruct (Z_lt_le_dec t (2 ^ 678)); [done|]. assert ((2 ^ 678) ^ 3 ≤ t ^ 3) by (apply Z.pow_le_mono_l; lia).
    assert (2 ^ 2033 < (2 ^ 678) ^ 3) by done. lia. }
  assert (Hs : x ≤ (t + 1) ^ 3 < x + B).
  { split; [done|]. assert ((t + 1) ^ 3 = t ^ 3 + 3 * t * t + 3 * t + 1) as -> by ring.
    assert (3 * t * t + 3 * t ≤ 6 * (2 ^ 678 * 2 ^ 678)) by nia. assert (6 * (2 ^ 678 * 2 ^ 678) < B) by done. lia. }
  assert (Hfit : uN (8 * Z.of_nat 256) (t + 1)) by (split; [lia|]; assert (2 ^ 678 + 1 < 2 ^ (8 * Z.of_nat 256)) by done; lia).
  exists (to_be_bytes 256 (t + 1)). split; [apply to_be_bytes_ok|]. split; [apply length_to_be_bytes|].
  assert (H3 : bytes_ok [3]) by (repeat constructor; by compute).
  apply rsa_verify_spec; [done..|lia|done|cbn; lia|apply to_be_bytes_ok|apply length_to_be_bytes|].
  rewrite from_to_be_bytes by done. change (from_be_bytes [3]) with 3. rewrite Z.mod_small by (unfold B in *; lia).
  exists O, (to_be_bytes 202 ((t + 1) ^ 3)). unfold padded. cbn [replicate app].
  change (0 :: 1 :: 0 :: ?l) with ([0; 1; 0] ++ l). rewrite (app_assoc SHA256_DER_PREFIX), (app_assoc [0; 1; 0]). fold h.
  replace 256%nat with (length h + 202)%nat by (rewrite Lh; done). by apply be_prefix.
Qed.

(** ** Witnesses *)
Lemma prime_23 : Z.prime 23.
Proof.
  split; [lia|]. intros n Hn [q Hq]. assert (0 < q < 23) by nia.
  assert (n = 2 ∨ n = 3 ∨ n = 4 ∨ q = 1 ∨ q = 2 ∨ q = 3 ∨ q = 4) as Hc by nia. destruct Hc as [->|[->|[->|[->|[->|[->| ->]]]]]]; lia.
Qed.

(** The curve y^2 = x^3 + x + 1 over the field of 23 elements. *)
Lemma point_arithmetic_refines_witness :
  let p := from_u64 23 in let a := from_u64 1 in
  let P := mkPoint (from_u64 3) (from_u64 10) false in let Q := mkPoint (from_u64 9) (from_u64 7) false in
  let b := Zmod.of_Z (val p) 1 in
  on_curve p (elt p a) b (view p (point_add P Q p a)) ∧ on_curve p (elt p a) b (view p (scalar_mul P (from_u64 5) p a))
  ∧ val (px (point_add P Q p a)) = 17 ∧ val (py (point_add P Q p a)) = 20.
Proof.
  intros p a P Q b.
  assert (Hr : ∀ v, 0 ≤ v < 23 → reduced p (from_u64 v)).
  { intros v Hv. destruct (from_u64_wf v) as [W1 W2]; [unfold uN; lia|]. split; [exact W1|]. rewrite W2. vm_compute. by destruct Hv. }
  assert (Hv : val p = 23) by (vm_compute; reflexivity).
  destruct (point_arithmetic_refines p a P Q (from_u64 5)) as (_ & _ & H).
  - apply from_u64_wf. unfold uN. lia.
  - rewrite Hv. exact prime_23.
  - cbn. lia.
  - rewrite Hv. lia.
  - apply Hr. lia.
  - right. split; apply Hr; lia.
  - right. split; apply Hr; lia.
  - apply from_u64_wf. unfold uN. lia.
  - destruct (H b) as [H1 H2]; [vm_compute; reflexivity..|]. split; [exact H1|]. split; [exact H2|]. split; vm_compute; reflexivity.
Defined.
