(* ===== verification/X509.v ===== *)
(** * Certificates ([crypto/x509.rs])

    The DER reader, X.509 certificates, validity times, host names and the PEM
    decoder.  Text is the list of its bytes.  A failed slice or overflow check is
    [Panicked]; a position in the input is the rest of the input from there on.  The
    clock ([drivers::rtc::now]) is an argument. *)

From S2P Require Import Prelude Bits Words SmartPack TextBytes.

(** ** Calls that may panic *)
#[export] Instance outcome_ret : MRet outcome := @Returned.
#[export] Instance outcome_bind : MBind outcome := λ A B k m,
  match m with Returned a => k a | Panicked => Panicked end.

(** [for x in l { s = body(s, x) }] *)
Fixpoint fold_calls {S A} (body : S → A → outcome S) (s : S) (l : list A) : outcome S :=
  match l with
  | [] => mret s
  | x :: l' => body s x ≫= λ s', fold_calls body s' l'
  end.

(** ** DER *)
Record Tlv := mkTlv { tag : Z; class : Z; constructed : bool; content : list Z }.

(** The loop over the bytes of a long tag: the tag and what follows it. *)
Fixpoint long_tag (t : Z) (data : list Z) : Z * list Z :=
  match data with
  | [] => (t, [])
  | b :: data' =>
      let t := Z.land b 0x7F in
      if Z.land b 0x80 =? 0 then (t, data') else long_tag t data'
  end.

(** [l = (l << 8) | byte] over the length bytes *)
Definition read_length (bs : list Z) : Z := foldl (λ l b, Z.lor (wrap 64 (Z.shiftl l 8)) b) 0 bs.

Definition parse_tlv (data : list Z) : outcome (option (Tlv * list Z)) :=
  match data with
  | [] => mret None
  | tag_byte :: data1 =>
      let cls := Z.land (Z.shiftr tag_byte 6) 3 in
      let cons := negb (Z.land tag_byte 0x20 =? 0) in
      let tag_num := Z.land tag_byte 0x1F in
      let (tg, data2) := if tag_num =? 0x1F then long_tag 0 data1 else (tag_byte, data1) in
      match data2 with
      | [] => mret None
      | b :: data3 =>
          let finish len (body : list Z) :=
            let pos := Z.of_nat (length data - length body) in
            if 2 ^ 64 <=? pos + len then Panicked
            else if Z.of_nat (length data) <? pos + len then mret None
            else mret (Some (mkTlv tg cls cons (take (Z.to_nat len) body), drop (Z.to_nat len) body)) in
          if Z.land b 0x80 =? 0 then finish b data3
          else
            let num_bytes := Z.to_nat (Z.land b 0x7F) in
            if (length data3 <? num_bytes)%nat then mret None
            else finish (read_length (take num_bytes data3)) (drop num_bytes data3)
      end
  end.

(** The loop of [tlv_children]; every turn consumes a byte or more of [rest]. *)
Fixpoint children_loop (fuel : nat) (rest : list Z) : outcome (list Tlv) :=
  match fuel with
  | O => mret []
  | S fuel' =>
      match rest with
      | [] => mret []
      | _ => parse_tlv rest ≫= λ r,
          match r with
          | None => mret []
          | Some (child, rest') => children_loop fuel' rest' ≫= λ cs, mret (child :: cs)
          end
      end
  end.

Definition tlv_children (t : Tlv) : outcome (list Tlv) := children_loop (length (content t)) (content t).

Definition TAG_INT : Z := 0x02.
Definition TAG_SEQUENCE : Z := 0x30.

(** [while n > 0 { digits.push(n % 10); n /= 10; }] *)
Fixpoint rev_digits (fuel : nat) (n : Z) : list Z :=
  match fuel with
  | O => []
  | S fuel' => if 0 <? n then n `mod` 10 :: rev_digits fuel' (n `div` 10) else []
  end.

Definition val_to_str (v : Z) : list Z :=
  if v =? 0 then text "0" else map (λ d, 48 + d) (reverse (rev_digits 20 v)).

(** One byte of an object identifier on the text so far and the current arc. *)
Definition oid_byte (sv : list Z * Z) (b : Z) : list Z * Z :=
  let (s, v) := sv in
  let v := Z.lor (wrap 64 (Z.shiftl v 7)) (Z.land b 0x7F) in
  if Z.land b 0x80 =? 0 then (s ++ [46] ++ val_to_str v, 0) else (s, v).

Definition parse_oid (data : list Z) : list Z :=
  match data with
  | [] => []
  | first :: data' => fst (foldl oid_byte (decimal 3 (first `div` 40) ++ [46] ++ decimal 3 (first `mod` 40), 0) data')
  end.

Definition parse_string (t : Tlv) : list Z := if utf8_valid (content t) then content t else text "?".

(** ** Certificates *)
Inductive PublicKey :=
| Rsa (modulus exponent : list Z)
| Ec (curve_oid point : list Z)
| Unknown (alg : list Z).

Record Certificate := mkCert {
  tbs_raw : list Z; serial : list Z;
  issuer : list (list Z * list Z); subject : list (list Z * list Z);
  not_before : list Z; not_after : list Z;
  public_key : PublicKey;
  is_ca : bool; path_len : option Z; san : list (list Z);
  sig_alg : list Z; signature : list Z
}.

Definition first_oid (ts : list Tlv) : list Z := match ts with c :: _ => parse_oid (content c) | [] => [] end.

Definition parse_sig_alg (t : Tlv) : outcome (list Z) := tlv_children t ≫= λ cs, mret (first_oid cs).

Definition parse_attr (out : list (list Z * list Z)) (attr : Tlv) : outcome (list (list Z * list Z)) :=
  tlv_children attr ≫= λ parts,
  match parts with
  | p0 :: p1 :: _ => mret (out ++ [(parse_oid (content p0), parse_string p1)])
  | _ => mret out
  end.

Definition parse_name (t : Tlv) : outcome (list (list Z * list Z)) :=
  tlv_children t ≫= λ rdns,
  fold_calls (λ out rdn, tlv_children rdn ≫= λ attrs, fold_calls parse_attr out attrs) [] rdns.

Definition parse_time (t : Tlv) : list Z := if utf8_valid (content t) then content t else text "?".

Definition parse_validity (t : Tlv) : outcome (list Z * list Z) :=
  tlv_children t ≫= λ cs,
  mret (match cs with c :: _ => parse_time c | [] => [] end, match cs with _ :: c :: _ => parse_time c | _ => [] end).

Definition RSA_OID : list Z := text "1.2.840.113549.1.1.1".
Definition EC_OID : list Z := text "1.2.840.10045.2.1".

Definition parse_spki (t : Tlv) : outcome PublicKey :=
  tlv_children t ≫= λ cs,
  match cs with
  | alg_seq :: key_bits :: _ =>
      tlv_children alg_seq ≫= λ alg_children,
      let alg_oid := first_oid alg_children in
      let other :=
        if bool_decide (alg_oid = EC_OID) then
          Ec (match alg_children with _ :: c :: _ => parse_oid (content c) | _ => [] end) (drop 1 (content key_bits))
        else Unknown alg_oid in
      if bool_decide (alg_oid = RSA_OID) then
        parse_tlv (drop 1 (content key_bits)) ≫= λ r,
        match r with
        | Some (rsa_seq, _) =>
            tlv_children rsa_seq ≫= λ rsa_parts,
            mret (Rsa (match rsa_parts with q :: _ => content q | [] => [] end)
                      (match rsa_parts with _ :: q :: _ => content q | _ => [] end))
        | None => mret other
        end
      else mret other
  | _ => mret (Unknown (text "short"))
  end.

(** The values the extensions set. *)
Record Exts := mkExts { x_ca : bool; x_path : option Z; x_san : list (list Z) }.

Definition BASIC_CONSTRAINTS : list Z := text "2.5.29.19".
Definition SUBJECT_ALT_NAME : list Z := text "2.5.29.17".

(** BasicConstraints; [inner] is the content of the last child. *)
Definition basic_constraints (inner : list Z) (x : Exts) : outcome Exts :=
  match inner with
  | 0x04 :: inner' =>
      match inner' with
      | [] => Panicked
      | _ :: inner2 =>
          parse_tlv inner2 ≫= λ r,
          match r with
          | None => mret x
          | Some (seq, _) =>
              tlv_children seq ≫= λ bc,
              mret (mkExts (match bc with b :: _ => x_ca x || bool_decide (content b = [0xFF]) | [] => x_ca x end)
                           (match bc with _ :: b :: _ => head (content b) | _ => x_path x end)
                           (x_san x))
          end
      end
  | _ => mret x
  end.

(** SubjectAltName *)
Definition alt_names (inner : list Z) (x : Exts) : outcome Exts :=
  if (2 <? length inner)%nat then
    parse_tlv (drop 2 inner) ≫= λ r,
    match r with
    | None => mret x
    | Some (seq, _) =>
        tlv_children seq ≫= λ names,
        let found := List.filter (λ n, (class n =? 2) && (tag n =? 2) && utf8_valid (content n)) names in
        mret (mkExts (x_ca x) (x_path x) (x_san x ++ map content found))
    end
  else mret x.

Definition one_ext (x : Exts) (ext : Tlv) : outcome Exts :=
  tlv_children ext ≫= λ ext_children,
  match ext_children with
  | [] => mret x
  | oid_tlv :: _ =>
      let oid := parse_oid (content oid_tlv) in
      let inner := content (List.last ext_children oid_tlv) in
      (if bool_decide (oid = BASIC_CONSTRAINTS) then basic_constraints inner x else mret x) ≫= λ x,
      if bool_decide (oid = SUBJECT_ALT_NAME) then alt_names inner x else mret x
  end.

Definition ext_field (x : Exts) (f : Tlv) : outcome Exts :=
  if (class f =? 2) && (tag f =? 3) && constructed f then
    tlv_children f ≫= λ ext_seqs,
    fold_calls (λ x ext_seq, tlv_children ext_seq ≫= λ exts, fold_calls one_ext x exts) x ext_seqs
  else mret x.

(** [if idx < fields.len() { idx += 1; read(&fields[idx]) } else { none }] *)
Definition field {A} (read : Tlv → outcome A) (none : A) (fields : list Tlv) : outcome (A * list Tlv) :=
  match fields with
  | f :: fields' => read f ≫= λ a, mret (a, fields')
  | [] => mret (none, [])
  end.

Definition parse_tbs (t : Tlv) (tbs_raw sig_alg signature : list Z) : outcome Certificate :=
  tlv_children t ≫= λ fields,
  let fields := match fields with f :: r => if (class f =? 2) && (tag f =? 0) then r else fields | [] => [] end in
  let '(serial, fields) := match fields with f :: r => if tag f =? TAG_INT then (content f, r) else ([], fields) | [] => ([], []) end in
  let fields := drop 1 fields in
  field parse_name [] fields ≫= λ '(issuer, fields),
  field parse_validity ([], []) fields ≫= λ '((not_before, not_after), fields),
  field parse_name [] fields ≫= λ '(subject, fields),
  field parse_spki (Unknown (text "missing")) fields ≫= λ '(public_key, fields),
  fold_calls ext_field (mkExts false None []) fields ≫= λ x,
  mret (mkCert tbs_raw serial issuer subject not_before not_after public_key (x_ca x) (x_path x) (x_san x) sig_alg signature).

Definition from_der (der : list Z) : outcome (option Certificate) :=
  parse_tlv der ≫= λ r,
  match r with
  | None => mret None
  | Some (cert_seq, _) =>
      if negb (tag cert_seq =? TAG_SEQUENCE) then mret None else
      tlv_children cert_seq ≫= λ children,
      match children with
      | tbs_tlv :: sig_alg_tlv :: sig_tlv :: _ =>
          parse_tlv (content cert_seq) ≫= λ r,
          match r with
          | None => mret None
          | Some (_, tbs_rest) =>
              let tbs_raw := take (length (content cert_seq) - length tbs_rest) (content cert_seq) in
              parse_sig_alg sig_alg_tlv ≫= λ sig_alg,
              parse_tbs tbs_tlv tbs_raw sig_alg (drop 1 (content sig_tlv)) ≫= λ c, mret (Some c)
          end
      | _ => mret None
      end
  end.

(** ** Validity *)
Definition Time : Type := Z * Z * Z * Z * Z * Z.

(** [&s[a..b]]: the ends have to be character boundaries. *)
Definition boundary (s : list Z) (i : nat) : bool :=
  (i =? length s)%nat || ((i <? length s)%nat && negb (is_cont (nth i s 0))).
Definition slice (s : list Z) (a b : nat) : outcome (list Z) :=
  if boundary s a && boundary s b then mret (take (b - a) (drop a s)) else Panicked.

(** [s[a..b].parse::<u32>().ok()?], then the rest *)
Definition number {A} (s : list Z) (a b : nat) (k : Z → outcome (option A)) : outcome (option A) :=
  slice s a b ≫= λ d, match parse_radix 10 32 d with Some v => k v | None => mret None end.

Definition parse_cert_time (s : list Z) : outcome (option Time) :=
  let s := trim s in
  match s with
  | [] => mret None
  | _ =>
      let clean_s := if ends_with [90] s then take (length s - 1) s else s in
      if (length clean_s =? 12)%nat then
        number clean_s 0 2 (λ year_val,
        let year := if year_val <? 50 then 2000 + year_val else 1900 + year_val in
        number clean_s 2 4 (λ month, number clean_s 4 6 (λ day, number clean_s 6 8 (λ hour,
        number clean_s 8 10 (λ minute, number clean_s 10 12 (λ second,
        mret (Some (year, month, day, hour, minute, second))))))))
      else if (length clean_s =? 14)%nat then
        number clean_s 0 4 (λ year, number clean_s 4 6 (λ month, number clean_s 6 8 (λ day,
        number clean_s 8 10 (λ hour, number clean_s 10 12 (λ minute, number clean_s 12 14 (λ second,
        mret (Some (year, month, day, hour, minute, second))))))))
      else mret None
  end.

Definition is_before (a b : Time) : bool :=
  let '(a0, a1, a2, a3, a4, a5) := a in
  let '(b0, b1, b2, b3, b4, b5) := b in
  if negb (a0 =? b0) then a0 <? b0
  else if negb (a1 =? b1) then a1 <? b1
  else if negb (a2 =? b2) then a2 <? b2
  else if negb (a3 =? b3) then a3 <? b3
  else if negb (a4 =? b4) then a4 <? b4
  else a5 <? b5.

Definition is_expired (now : Time) (c : Certificate) : outcome bool :=
  parse_cert_time (not_before c) ≫= λ nb,
  match nb with
  | Some nb' => if is_before now nb' then mret true else mret false
  | None => mret false
  end ≫= λ early,
  if (early : bool) then mret true else
  parse_cert_time (not_after c) ≫= λ na,
  match na with
  | Some na' => if is_before na' now then mret true else mret false
  | None => mret false
  end.

(** ** Host names *)
Definition eq_ignore_ascii_case (a b : list Z) : bool := bool_decide (to_ascii_lowercase a = to_ascii_lowercase b).

Definition dns_match (pattern hostname : list Z) : bool :=
  if starts_with (text "*.") pattern then
    let suffix := drop 2 pattern in
    match hostname with
    | 42 :: rest => ends_with suffix rest
    | _ =>
        match find_byte 46 hostname with
        | Some pos => eq_ignore_ascii_case (drop (pos + 1) hostname) suffix
        | None => false
        end
    end
  else eq_ignore_ascii_case pattern hostname.

Definition CN_OID : list Z := text "2.5.4.3".

Definition matches_hostname (hostname : list Z) (c : Certificate) : bool :=
  existsb (λ s, dns_match s hostname) (san c)
  || existsb (λ nv, bool_decide (nv.1 = CN_OID) && dns_match nv.2 hostname) (subject c).

(** ** PEM *)
Definition B64 : list Z := text "ABCDEFGHIJKLMNOPQRSTUVWXYZabcdefghijklmnopqrstuvwxyz0123456789+/".

(** The table: [255] for a byte without a value, ['='] has the value 0. *)
Definition b64_value (c : Z) : Z :=
  if c =? 61 then 0 else match find_byte c B64 with Some i => Z.of_nat i | None => 255 end.

Fixpoint b64_loop (bytes : list Z) : option (list Z) :=
  match bytes with
  | c0 :: c1 :: c2 :: c3 :: bytes' =>
      let a := b64_value c0 in let b := b64_value c1 in let c := b64_value c2 in let d := b64_value c3 in
      if (a =? 255) || (b =? 255) then None
      else match b64_loop bytes' with
           | None => None
           | Some out =>
               Some ([Z.lor (wrap 8 (Z.shiftl a 2)) (Z.shiftr b 4)]
                     ++ (if c2 =? 61 then [] else [Z.lor (wrap 8 (Z.shiftl b 4)) (Z.shiftr c 2)])
                     ++ (if c3 =? 61 then [] else [Z.lor (wrap 8 (Z.shiftl c 6)) d]) ++ out)
           end
  | _ => Some []
  end.

Definition base64_decode (s : list Z) : option (list Z) :=
  b64_loop (List.filter (λ b, negb (b =? 10) && negb (b =? 13) && negb (b =? 32)) s).

(** The loop over the lines of [pem_to_der]. *)
Fixpoint pem_lines (in_cert : bool) (ls : list (list Z)) : list Z :=
  match ls with
  | [] => []
  | l :: ls' =>
      let t := trim l in
      if starts_with (text "-----BEGIN CERTIFICATE-----") t then pem_lines true ls'
      else if starts_with (text "-----END CERTIFICATE-----") t then []
      else (if in_cert then t else []) ++ pem_lines in_cert ls'
  end.

Definition pem_to_der (pem : list Z) : option (list Z) := base64_decode (pem_lines false (lines pem)).
