(* ===== verification/X509Proofs.v ===== *)
(** * Certificates mean what was written

    A reference writer of DER (X.690) and of certificates (RFC 5280), and that the
    reader gives back what was written. *)

From S2P Require Import Prelude Bits Words SmartPack TextBytes WebSocket WebSocketTheorems X509.

(** ** Bytes shifted in *)
Lemma shift_byte v b s : 0 < s < 64 → 0 ≤ v < 2 ^ (64 - s) → 0 ≤ b < 2 ^ s → Z.lor (wrap 64 (Z.shiftl v s)) b = v * 2 ^ s + b.
Proof.
  intros Hs Hv Hb. rewrite Z.shiftl_mul_pow2, wrap_id by (try split; try lia; replace 64 with ((64 - s) + s) by lia; rewrite Z.pow_add_r by lia; nia).
  rewrite Z.lor_comm, lor_disjoint by lia. lia.
Qed.

Lemma read_length_spec bs : bytes_ok bs → (length bs ≤ 8)%nat → read_length bs = from_be_bytes bs.
Proof.
  intros Hb. induction bs as [|b bs IH] using rev_ind; [done|]. apply Forall_app in Hb as [Hb Hb1].
  rewrite length_app. cbn [length]. intros Hl. unfold read_length in *. rewrite foldl_app. cbn [foldl]. rewrite IH by (done || lia).
  rewrite from_be_bytes_snoc. pose proof (from_be_bytes_range bs Hb) as [R1 R2]. apply Forall_inv in Hb1.
  assert (2 ^ (8 * Z.of_nat (length bs)) ≤ 2 ^ 56) by (apply Z.pow_le_mono_r; lia).
  rewrite shift_byte; [lia|lia| |exact Hb1]. split; [lia|]. change (64 - 8) with 56. lia.
Qed.

(** ** The writer *)
Definition der_len (n : nat) : list Z :=
  if (n <? 128)%nat then [Z.of_nat n]
  else let k := Z.to_nat (Z.log2 (Z.of_nat n) / 8 + 1) in 0x80 + Z.of_nat k :: to_be_bytes k (Z.of_nat n).

Definition der (t : Z) (c : list Z) : list Z := t :: der_len (length c) ++ c.

Definition tlv_of (tc : Z * list Z) : Tlv :=
  mkTlv tc.1 (Z.land (Z.shiftr tc.1 6) 3) (negb (Z.land tc.1 0x20 =? 0)) tc.2.

Definition short_tag (t : Z) : Prop := Z.land t 0x1F ≠ 0x1F.

(** A length the machine can hold. *)
Abbreviation fits l := (Z.of_nat (length l) < 2 ^ 64).

Lemma length_der t c : (length (der t c) = S (length (der_len (length c)) + length c))%nat.
Proof. unfold der. cbn [length]. by rewrite length_app. Qed.

Lemma length_der_len n : (1 ≤ length (der_len n))%nat.
Proof. unfold der_len. case_match; cbn [length]; lia. Qed.

(** Reading back one element. *)
Lemma parse_der t c rest : short_tag t → fits (der t c ++ rest) → parse_tlv (der t c ++ rest) = Returned (Some (tlv_of (t, c), rest)).
Proof.
  intros Ht Hf. unfold der in *. rewrite length_app in Hf. cbn [length app] in *. rewrite length_app in Hf.
  rewrite <- app_assoc. cbn [parse_tlv].
  rewrite (proj2 (Z.eqb_neq _ _) Ht). unfold der_len in *. destruct (Nat.ltb_spec (length c) 128) as [Hs|Hs].
  - cbn [app length] in *. assert (E : Z.land (Z.of_nat (length c)) 0x80 = 0).
    { change 0x80 with (Z.shiftl 1 7). apply Z.eqb_eq. rewrite land_bit by lia. apply negb_true_iff.
      destruct (decide (length c = 0)%nat) as [->|]; [done|]. apply Z.bits_above_log2; [lia|]. apply Z.log2_lt_pow2; lia. }
    rewrite E. cbn [Z.eqb]. rewrite length_app.
    replace (Z.of_nat (S (S (length c + length rest)) - (length c + length rest))) with 2 by lia.
    rewrite (proj2 (Z.leb_gt _ _)) by lia. rewrite (proj2 (Z.ltb_ge _ _)) by lia.
    by rewrite Nat2Z.id, take_app_length, drop_app_length.
  - set (n := Z.of_nat (length c)) in *. set (k := Z.to_nat (Z.log2 n / 8 + 1)) in *. cbn [app length] in *. rewrite length_to_be_bytes in Hf.
    pose proof (Z.log2_spec n ltac:(lia)) as Hlog. pose proof (Z.log2_lt_pow2 n 64 ltac:(lia)) as Hl64. pose proof (Z.log2_nonneg n).
    assert (Hk : (1 ≤ k ≤ 8)%nat) by (unfold k; Z.to_euclidean_division_equations; lia).
    assert (Hn : uN (8 * Z.of_nat k) n).
    { split; [lia|]. apply Z.lt_le_trans with (2 ^ Z.succ (Z.log2 n)); [lia|]. apply Z.pow_le_mono_r; [lia|].
      unfold k. Z.to_euclidean_division_equations; lia. }
    assert (E : Z.land (0x80 + Z.of_nat k) 0x80 = 0x80 ∧ Z.to_nat (Z.land (0x80 + Z.of_nat k) 0x7F) = k).
    { clear -Hk. do 9 (destruct k as [|k]; [first [lia|split; reflexivity]|]). lia. }
    destruct E as [-> ->]. cbn [Z.eqb]. rewrite !length_app, length_to_be_bytes.
    rewrite (proj2 (Nat.ltb_ge _ _)) by lia.
    rewrite (take_app_length' (to_be_bytes k n)), (drop_app_length' (to_be_bytes k n)) by (by rewrite length_to_be_bytes).
    rewrite read_length_spec, from_to_be_bytes by (try apply to_be_bytes_ok; try rewrite length_to_be_bytes; done || lia).
    rewrite !length_app. set (pos := Z.of_nat _). assert (Hpos : pos = 2 + Z.of_nat k) by (unfold pos; lia).
    rewrite (proj2 (Z.leb_gt _ _)) by lia. rewrite (proj2 (Z.ltb_ge _ _)) by lia.
    unfold n. by rewrite Nat2Z.id, take_app_length, drop_app_length.
Qed.

(** Reading back a list of elements. *)
Definition ders (l : list (Z * list Z)) : list Z := concat (map (λ tc, der tc.1 tc.2) l).

Lemma parse_ders t c l : short_tag t → fits (ders ((t, c) :: l)) → parse_tlv (ders ((t, c) :: l)) = Returned (Some (tlv_of (t, c), ders l)).
Proof. apply parse_der. Qed.

Lemma children_ders l fuel : Forall (λ tc, short_tag tc.1) l → fits (ders l) → (length (ders l) ≤ fuel)%nat →
  children_loop fuel (ders l) = Returned (map tlv_of l).
Proof.
  intros Hl. revert fuel. induction Hl as [|[t c] l Ht _ IH]; intros fuel Hf Hfu; [by destruct fuel|].
  unfold ders in *. cbn [map concat fst snd] in *. rewrite length_app, length_der in Hf, Hfu. destruct fuel as [|fuel]; [lia|].
  cbn [children_loop]. rewrite parse_der by (done || rewrite length_app, length_der; lia). unfold der at 1. cbn [app].
  unfold mbind at 1, outcome_bind at 1. rewrite IH by lia. done.
Qed.

Lemma children_of t l : Forall (λ tc, short_tag tc.1) l → fits (ders l) → tlv_children (tlv_of (t, ders l)) = Returned (map tlv_of l).
Proof. intros. by apply children_ders. Qed.

(** ** Object identifiers *)
Fixpoint high_groups (fuel : nat) (v : Z) : list Z :=
  match fuel with
  | O => []
  | S fuel' => (if v <? 128 then [] else high_groups fuel' (v `div` 128)) ++ [128 + v `mod` 128]
  end.
Definition arc_bytes (v : Z) : list Z := (if v <? 128 then [] else high_groups 10 (v `div` 128)) ++ [v `mod` 128].

(** The first two arcs share a byte. *)
Definition oid_bytes (arcs : list Z) : list Z :=
  match arcs with a :: b :: rest => 40 * a + b :: concat (map arc_bytes rest) | _ => [] end.
Definition oid_text (arcs : list Z) : list Z :=
  match arcs with
  | a :: b :: rest => decimal 20 a ++ [46] ++ decimal 20 b ++ concat (map (λ v, [46] ++ decimal 20 v) rest)
  | _ => []
  end.
Definition oid_ok (arcs : list Z) : Prop :=
  match arcs with a :: b :: rest => 0 ≤ a ≤ 2 ∧ 0 ≤ b < 40 ∧ Forall (uN 64) rest | _ => False end.

Lemma land_low b : 0 ≤ b < 128 → Z.land b 0x7F = b ∧ Z.land b 0x80 = 0 ∧ Z.land (128 + b) 0x7F = b ∧ Z.land (128 + b) 0x80 = 0x80.
Proof.
  intros Hb. assert (E : b ∈ seqZ 0 128) by (apply elem_of_seqZ; lia). revert b E Hb.
  apply (Forall_forall (λ b, 0 ≤ b < 128 → Z.land b 0x7F = b ∧ Z.land b 0x80 = 0 ∧ Z.land (128 + b) 0x7F = b ∧ Z.land (128 + b) 0x80 = 0x80)).
  repeat constructor.
Qed.

Lemma oid_high fuel v s : 0 ≤ v < 128 ^ Z.of_nat fuel → v < 2 ^ 64 → foldl oid_byte (s, 0) (high_groups fuel v) = (s, v).
Proof.
  revert v. induction fuel as [|fuel IH]; intros v Hv Hw; [cbn in *; f_equal; lia|].
  cbn [high_groups]. rewrite foldl_app. rewrite Nat2Z.inj_succ, Z.pow_succ_r in Hv by lia.
  pose proof (Z.mod_pos_bound v 128 ltac:(lia)) as Hm. destruct (land_low _ Hm) as (_ & _ & L1 & L2).
  assert (E : foldl oid_byte (s, 0) (if v <? 128 then [] else high_groups fuel (v `div` 128)) = (s, v `div` 128)).
  { case_bool; [by rewrite Z.div_small by lia|]. apply IH; [|Z.to_euclidean_division_equations; lia].
    split; [Z.to_euclidean_division_equations; lia|apply Z.div_lt_upper_bound; lia]. }
  rewrite E. cbn [foldl oid_byte]. rewrite L1, L2. cbn [Z.eqb]. f_equal.
  rewrite shift_byte; [|lia| |exact Hm]; Z.to_euclidean_division_equations; lia.
Qed.

Lemma rev_digits_spec fuel v : 0 < v → map (λ d, 48 + d) (reverse (rev_digits fuel v)) = decimal fuel v.
Proof.
  revert v. induction fuel as [|fuel IH]; intros v Hv; [done|]. cbn [rev_digits decimal]. zbool.
  rewrite reverse_cons, map_app. cbn [map]. f_equal. case_bool.
  - rewrite Z.div_small by lia. by destruct fuel.
  - apply IH. Z.to_euclidean_division_equations; lia.
Qed.

Lemma val_to_str_spec v : 0 ≤ v → val_to_str v = decimal 20 v.
Proof. intros Hv. unfold val_to_str. case_bool; [by subst|]. apply rev_digits_spec. lia. Qed.

Lemma oid_arc v s : uN 64 v → foldl oid_byte (s, 0) (arc_bytes v) = (s ++ [46] ++ decimal 20 v, 0).
Proof.
  intros [H1 H2]. unfold arc_bytes. rewrite foldl_app.
  pose proof (Z.mod_pos_bound v 128 ltac:(lia)) as Hm. destruct (land_low _ Hm) as (L1 & L2 & _ & _).
  assert (E : foldl oid_byte (s, 0) (if v <? 128 then [] else high_groups 10 (v `div` 128)) = (s, v `div` 128)).
  { case_bool; [by rewrite Z.div_small by lia|]. assert (v `div` 128 < 2 ^ 57) by (apply Z.div_lt_upper_bound; lia).
    assert (0 ≤ v `div` 128) by (apply Z.div_pos; lia). apply oid_high; [split; [done|]|lia].
    assert (2 ^ 57 < 128 ^ Z.of_nat 10) by done. lia. }
  rewrite E. cbn [foldl oid_byte]. rewrite L1, L2. cbn [Z.eqb]. do 3 f_equal.
  rewrite shift_byte; [|lia| |exact Hm].
  - rewrite val_to_str_spec; [f_equal|]; Z.to_euclidean_division_equations; lia.
  - Z.to_euclidean_division_equations; lia.
Qed.

Lemma parse_oid_spec arcs : oid_ok arcs → parse_oid (oid_bytes arcs) = oid_text arcs.
Proof.
  destruct arcs as [|a [|b rest]]; [done..|]. intros (Ha & Hb & Hr). cbn [oid_bytes parse_oid oid_text].
  assert (E1 : (40 * a + b) `div` 40 = a) by (Z.to_euclidean_division_equations; lia).
  assert (E2 : (40 * a + b) `mod` 40 = b) by (Z.to_euclidean_division_equations; lia).
  rewrite E1, E2. assert (G : ∀ v k, 0 ≤ v < 100 → (2 ≤ k)%nat → decimal k v = decimal 20 v).
  { clear. intros v [|[|k]] Hv Hk; [lia..|]. cbn [decimal]. case_bool; [done|]. f_equal.
    assert (v `div` 10 <? 10 = true) as -> by (apply Z.ltb_lt; Z.to_euclidean_division_equations; lia). done. }
  rewrite (G a 3%nat), (G b 3%nat) by lia. set (s0 := decimal 20 a ++ [46] ++ decimal 20 b).
  assert (F : ∀ s, foldl oid_byte (s, 0) (concat (map arc_bytes rest)) = (s ++ concat (map (λ v, [46] ++ decimal 20 v) rest), 0)).
  { clear -Hr. induction Hr as [|v rest Hv _ IH]; intros s; [cbn; by rewrite app_nil_r|].
    cbn [map concat]. rewrite foldl_app, oid_arc, IH by done. by rewrite <- !app_assoc. }
  rewrite F. cbn [fst]. unfold s0. by rewrite <- !app_assoc.
Qed.

(** ** Certificates *)

(** What a certificate with an RSA key says. *)
Record CertSpec := mkSpec {
  c_serial : list Z;
  c_alg : list Z;                        (* arcs *)
  c_issuer : list (list Z * list Z);     (* arcs and values *)
  c_from : list Z; c_until : list Z;
  c_subject : list (list Z * list Z);
  c_modulus : list Z; c_exponent : list Z;
  c_sig : list Z
}.

Definition alg_der (arcs : list Z) : list Z := ders [(0x06, oid_bytes arcs); (0x05, [])].
Definition attr_der (av : list Z * list Z) : list Z := ders [(0x30, ders [(0x06, oid_bytes av.1); (0x0C, av.2)])].
Definition name_der (n : list (list Z * list Z)) : list Z := ders (map (λ av, (0x31, attr_der av)) n).
Definition validity_der (from until : list Z) : list Z := ders [(0x17, from); (0x17, until)].
Definition rsa_arcs : list Z := [1; 2; 840; 113549; 1; 1; 1].
Definition spki_der (modulus exponent : list Z) : list Z :=
  ders [(0x30, alg_der rsa_arcs); (0x03, 0 :: ders [(0x30, ders [(0x02, modulus); (0x02, exponent)])])].

(** The fields of the signed part between an optional version and optional extensions. *)
Definition tbs_fields (c : CertSpec) : list (Z * list Z) :=
  [(0x02, c_serial c); (0x30, alg_der (c_alg c)); (0x30, name_der (c_issuer c)); (0x30, validity_der (c_from c) (c_until c));
   (0x30, name_der (c_subject c)); (0x30, spki_der (c_modulus c) (c_exponent c))].
Definition tbs_der (version exts : list (Z * list Z)) (c : CertSpec) : list Z := ders (version ++ tbs_fields c ++ exts).
Definition sig_fields (c : CertSpec) : list (Z * list Z) := [(0x30, alg_der (c_alg c)); (0x03, 0 :: c_sig c)].
Definition cert_der (version exts : list (Z * list Z)) (c : CertSpec) : list Z :=
  der 0x30 (ders ((0x30, tbs_der version exts c) :: sig_fields c)).

(** Version 1 has neither; version 3 has both. *)
Definition v1_der : CertSpec → list Z := cert_der [] [].
Definition v3_der (exts : list Z) : CertSpec → list Z := cert_der [(0xA0, ders [(0x02, [2])])] [(0xA3, exts)].

Definition name_of (n : list (list Z * list Z)) : list (list Z * list Z) := map (λ av, (oid_text av.1, av.2)) n.

Definition meaning (c : CertSpec) : Certificate :=
  mkCert (der 0x30 (tbs_der [] [] c)) (c_serial c) (name_of (c_issuer c)) (name_of (c_subject c)) (c_from c) (c_until c)
    (Rsa (c_modulus c) (c_exponent c)) false None [] (oid_text (c_alg c)) (c_sig c).

Definition name_ok (n : list (list Z * list Z)) : Prop := Forall (λ av, oid_ok av.1 ∧ utf8_valid av.2 = true) n.
Record spec_ok (c : CertSpec) : Prop := {
  ok_alg : oid_ok (c_alg c);
  ok_issuer : name_ok (c_issuer c);
  ok_subject : name_ok (c_subject c);
  ok_from : utf8_valid (c_from c) = true;
  ok_until : utf8_valid (c_until c) = true
}.

(** Short elements of a long one. *)
Lemma fits_in (a b : list Z) : (length a ≤ length b)%nat → fits b → fits a.
Proof. lia. Qed.

Lemma length_ders_in t c l : (t, c) ∈ l → (length c ≤ length (ders l))%nat.
Proof.
  induction l as [|[t' c'] l IH]; [by intros ?%not_elem_of_nil|]. unfold ders in *. cbn [map concat fst snd].
  rewrite length_app, length_der. intros [[= -> ->]|H]%elem_of_cons; [lia|]. apply IH in H. lia.
Qed.

Ltac tags := repeat (constructor; [by vm_compute|]); constructor.

Lemma first_oid_of arcs l : oid_ok arcs → first_oid (map tlv_of ((0x06, oid_bytes arcs) :: l)) = oid_text arcs.
Proof. intros. by apply parse_oid_spec. Qed.

Lemma alg_children t arcs : fits (alg_der arcs) →
  tlv_children (tlv_of (t, alg_der arcs)) = Returned (map tlv_of [(0x06, oid_bytes arcs); (0x05, [])]).
Proof. intros. apply children_of; [tags|done]. Qed.

Lemma parse_attr_spec out t arcs v : oid_ok arcs → utf8_valid v = true → fits (ders [(0x06, oid_bytes arcs); (0x0C, v)]) →
  parse_attr out (tlv_of (t, ders [(0x06, oid_bytes arcs); (0x0C, v)])) = Returned (out ++ [(oid_text arcs, v)]).
Proof.
  intros Ho Hv Hf. unfold parse_attr. rewrite children_of; [|tags|done].
  cbn [mbind outcome_bind map]. unfold parse_string. cbn [tlv_of snd content]. by rewrite parse_oid_spec, Hv.
Qed.

Lemma parse_name_spec t n : name_ok n → fits (name_der n) → parse_name (tlv_of (t, name_der n)) = Returned (name_of n).
Proof.
  intros Hn Hf. unfold parse_name, name_der. rewrite children_of; [|by apply Forall_fmap, Forall_true|done].
  cbn [mbind outcome_bind]. rewrite map_map.
  assert (Hin : ∀ av, av ∈ n → fits (attr_der av)).
  { intros av Hav. eapply fits_in; [|exact Hf]. apply (length_ders_in 0x31). apply list_elem_of_fmap. eauto. }
  enough (G : ∀ out, fold_calls (λ out rdn, tlv_children rdn ≫= λ attrs, fold_calls parse_attr out attrs) out
    (map (λ x, tlv_of (0x31, attr_der x)) n) = Returned (out ++ name_of n)) by apply G.
  clear Hf. induction Hn as [|[arcs v] n [Ho Hv] Hn IH]; intros out; [cbn; by rewrite app_nil_r|].
  cbn [map fold_calls name_of fst snd]. pose proof (Hin (arcs, v) ltac:(left)) as Hf. unfold attr_der in *. cbn [fst snd] in *.
  rewrite children_of; [|tags|done]. cbn [mbind outcome_bind map fold_calls].
  rewrite parse_attr_spec; [|done..|].
  2: { eapply fits_in; [|exact Hf]. apply (length_ders_in 0x30). left. }
  cbn [mbind outcome_bind mret outcome_ret]. rewrite IH; [by rewrite <- app_assoc|]. intros av Hav. apply Hin. by right.
Qed.

Lemma parse_spki_spec t m e : fits (spki_der m e) → parse_spki (tlv_of (t, spki_der m e)) = Returned (Rsa m e).
Proof.
  intros Hf. unfold parse_spki, spki_der. rewrite children_of; [|tags|done]. cbn [mbind outcome_bind map].
  rewrite alg_children.
  2: { eapply fits_in; [|exact Hf]. apply (length_ders_in 0x30). left. }
  cbn [mbind outcome_bind]. rewrite first_oid_of by (repeat constructor; by vm_compute).
  assert (E : oid_text rsa_arcs = RSA_OID) by (vm_compute; reflexivity). rewrite bool_decide_eq_true_2 by done.
  cbn [tlv_of content snd]. change (drop 1 (0 :: ?l)) with l.
  assert (Hf' : fits (ders [(0x30, ders [(0x02, m); (0x02, e)])])).
  { eapply fits_in; [|exact Hf]. unfold spki_der. etransitivity; [|apply (length_ders_in 0x03); right; left]. cbn [length]. lia. }
  rewrite parse_ders by (done || by vm_compute).
  cbn [mbind outcome_bind]. rewrite children_of; [reflexivity|tags|].
  eapply fits_in; [|exact Hf']. apply (length_ders_in 0x30). left.
Qed.

Lemma parse_validity_spec t a b : utf8_valid a = true → utf8_valid b = true → fits (validity_der a b) →
  parse_validity (tlv_of (t, validity_der a b)) = Returned (a, b).
Proof.
  intros Ha Hb Hf. unfold parse_validity, validity_der. rewrite children_of; [|tags|done].
  cbn [mbind outcome_bind map mret outcome_ret]. unfold parse_time. cbn [tlv_of content snd]. by rewrite Ha, Hb.
Qed.

(** The outer structure of a certificate. *)
Lemma from_der_outer version exts c : oid_ok (c_alg c) → fits (cert_der version exts c) →
  from_der (cert_der version exts c)
  = (parse_tbs (tlv_of (0x30, tbs_der version exts c)) (der 0x30 (tbs_der version exts c)) (oid_text (c_alg c)) (c_sig c)
     ≫= λ x, mret (Some x)).
Proof.
  intros Ho Hf. unfold from_der, cert_der in *. set (all := ders _) in *.
  assert (Hall : fits all) by (rewrite length_der in Hf; lia).
  rewrite <- (app_nil_r (der _ _)). rewrite parse_der; [|by vm_compute|by rewrite app_nil_r].
  cbn [mbind outcome_bind]. change (negb (tag (tlv_of (0x30, all)) =? TAG_SEQUENCE)) with false. cbv iota.
  assert (Ec : tlv_children (tlv_of (0x30, all)) = Returned (map tlv_of ((0x30, tbs_der version exts c) :: sig_fields c)))
    by (apply children_of; [tags|done]).
  assert (Ep : parse_tlv all = Returned (Some (tlv_of (0x30, tbs_der version exts c), ders (sig_fields c)))) by by apply parse_ders.
  rewrite Ec. cbn [mbind outcome_bind map sig_fields]. change (content (tlv_of (0x30, all))) with all. rewrite Ep.
  cbn [mbind outcome_bind]. unfold parse_sig_alg. rewrite alg_children.
  2: { eapply fits_in; [|exact Hall]. apply (length_ders_in 0x30). right. left. }
  cbn [mbind outcome_bind mret outcome_ret]. rewrite first_oid_of by done.
  assert (E : take (length all - length (ders (sig_fields c))) all = der 0x30 (tbs_der version exts c)).
  { unfold all. change (ders (?x :: ?l)) with (der x.1 x.2 ++ ders l). rewrite length_app.
    match goal with |- take (?n + ?k - ?k) _ = _ => replace (n + k - k)%nat with n by lia end. apply take_app_length. }
  by rewrite E.
Qed.

Lemma field_cons {A} (read : Tlv → outcome A) none f fs a : read f = Returned a → field read none (f :: fs) = Returned (a, fs).
Proof. intros E. unfold field. by rewrite E. Qed.

Lemma field_panic {A} (read : Tlv → outcome A) none f fs : read f = Panicked → field read none (f :: fs) = Panicked.
Proof. intros E. unfold field. by rewrite E. Qed.

(** The fields of the signed part fit with it. *)
Lemma tbs_fits version exts c : fits (tbs_der version exts c) → ∀ t x, (t, x) ∈ tbs_fields c → fits x.
Proof.
  intros Hf t x Hx. eapply fits_in; [|exact Hf]. apply (length_ders_in t). apply elem_of_app. right. apply elem_of_app. by left.
Qed.

Lemma cert_fits version exts c : fits (cert_der version exts c) → fits (tbs_der version exts c).
Proof.
  intros Hf. eapply fits_in; [|exact Hf]. unfold cert_der. rewrite length_der.
  pose proof (length_ders_in 0x30 (tbs_der version exts c) ((0x30, tbs_der version exts c) :: sig_fields c) ltac:(left)). lia.
Qed.

Lemma tbs_children version exts c : Forall (λ tc, short_tag tc.1) (version ++ tbs_fields c ++ exts) → fits (tbs_der version exts c) →
  tlv_children (tlv_of (0x30, tbs_der version exts c)) = Returned (map tlv_of (version ++ tbs_fields c ++ exts)).
Proof. apply children_of. Qed.

(** C25: a certificate of version 1 is read as it was written: every field of the
    reference writer comes back, and the signed part is the exact bytes the
    signature covers. *)
Theorem from_der_v1 c : spec_ok c → fits (v1_der c) → from_der (v1_der c) = Returned (Some (meaning c)).
Proof.
  intros [Ho Hi Hs Hf Hu] Hfit. unfold v1_der. rewrite from_der_outer by done.
  pose proof (cert_fits _ _ _ Hfit) as Ht. pose proof (tbs_fits _ _ _ Ht) as Hx.
  unfold parse_tbs. rewrite tbs_children by (done || tags).
  cbn [mbind outcome_bind map app tbs_fields].
  change ((class (tlv_of (0x02, c_serial c)) =? 2) && _) with false. cbv iota.
  change (tag (tlv_of (0x02, c_serial c)) =? TAG_INT) with true. cbv iota beta. change (drop 1 (?x :: ?l)) with l.
  rewrite (field_cons _ _ _ _ (name_of (c_issuer c))) by (apply parse_name_spec; [done|apply (Hx 0x30); do 2 right; left]).
  cbn [mbind outcome_bind].
  rewrite (field_cons _ _ _ _ (c_from c, c_until c)) by (apply parse_validity_spec; [done..|apply (Hx 0x30); do 3 right; left]).
  cbn [mbind outcome_bind].
  rewrite (field_cons _ _ _ _ (name_of (c_subject c))) by (apply parse_name_spec; [done|apply (Hx 0x30); do 4 right; left]).
  cbn [mbind outcome_bind].
  rewrite (field_cons _ _ _ _ (Rsa (c_modulus c) (c_exponent c))) by (apply parse_spki_spec; apply (Hx 0x30); do 5 right; left).
  reflexivity.
Qed.

(** ** Validity *)
Definition two (v : Z) : list Z := [48 + v `div` 10; 48 + v `mod` 10].

(** UTCTime: two digits of the year. *)
Definition utc_text (t : Time) : list Z :=
  let '(y, mo, d, h, mi, se) := t in
  two (y `mod` 100) ++ two mo ++ two d ++ two h ++ two mi ++ two se ++ [90].

Definition time_ok (t : Time) : Prop :=
  let '(y, mo, d, h, mi, se) := t in
  1950 ≤ y < 2050 ∧ 0 ≤ mo < 100 ∧ 0 ≤ d < 100 ∧ 0 ≤ h < 100 ∧ 0 ≤ mi < 100 ∧ 0 ≤ se < 100.

Definition ascii (s : list Z) : Prop := Forall (λ b, 0 ≤ b < 128) s.

Lemma boundary_ascii s i : ascii s → (i ≤ length s)%nat → boundary s i = true.
Proof.
  intros Hs Hi. unfold boundary. destruct (Nat.eqb_spec i (length s)); [done|]. rewrite (proj2 (Nat.ltb_lt _ _)) by lia.
  cbn [orb andb]. assert (Hn : 0 ≤ nth i s 0 < 128).
  { destruct (lookup_lt_is_Some_2 s i ltac:(lia)) as [b Hb]. rewrite (nth_lookup_Some _ _ _ _ Hb). by apply (Forall_lookup_1 _ _ _ _ Hs Hb). }
  unfold is_cont, in_range. by rewrite (proj2 (Z.leb_gt _ _)) by lia.
Qed.

Lemma two_ascii v : 0 ≤ v < 100 → ascii (two v).
Proof. intros Hv. unfold two. repeat constructor; Z.to_euclidean_division_equations; lia. Qed.

Lemma parse_two v : 0 ≤ v < 100 → parse_radix 10 32 (two v) = Some v.
Proof.
  intros Hv. assert (E : v ∈ seqZ 0 100) by (apply elem_of_seqZ; lia). revert v E Hv.
  apply (Forall_forall (λ v, 0 ≤ v < 100 → parse_radix 10 32 (two v) = Some v)). repeat constructor.
Qed.

Lemma number_two {A} pre v post (k : Z → outcome (option A)) a b : ascii (pre ++ two v ++ post) → 0 ≤ v < 100 →
  a = length pre → b = (a + 2)%nat → number (pre ++ two v ++ post) a b k = k v.
Proof.
  intros Hs Hv -> ->. unfold number, slice. rewrite !boundary_ascii by (done || rewrite !length_app; cbn; lia).
  cbn [andb mbind outcome_bind mret outcome_ret]. rewrite drop_app_length.
  replace (length pre + 2 - length pre)%nat with 2%nat by lia. change (take 2 (two v ++ post)) with (two v). by rewrite parse_two.
Qed.

Lemma no_space_end r : space_at_end (90 :: r) = O.
Proof. destruct r as [|b1 [|b2 r]]; cbn; unfold space2, space3; by rewrite ?andb_false_r. Qed.

Lemma parse_utc t : time_ok t → parse_cert_time (utc_text t) = Returned (Some t).
Proof.
  destruct t as [[[[[y mo] d] h] mi] se]. intros (Hy & H1 & H2 & H3 & H4 & H5).
  set (yy := y `mod` 100). assert (Hyy : 0 ≤ yy < 100) by (apply Z.mod_pos_bound; lia).
  assert (E : trim (utc_text (y, mo, d, h, mi, se)) = utc_text (y, mo, d, h, mi, se)).
  { apply trim_id; [|unfold utc_text; rewrite !app_assoc, reverse_snoc; apply no_space_end]. cbn [utc_text two app space_at_start]. unfold ascii_space.
    assert (48 ≤ 48 + yy `div` 10) by (Z.to_euclidean_division_equations; lia). fold yy. zbool. cbn.
    unfold space2, space3. assert (48 + yy `div` 10 < 128) by (Z.to_euclidean_division_equations; lia). by zbool. }
  unfold parse_cert_time. rewrite E. cbv zeta. clear E.
  set (s := two yy ++ two mo ++ two d ++ two h ++ two mi ++ two se).
  assert (Es : utc_text (y, mo, d, h, mi, se) = s ++ [90]) by (unfold utc_text, s; fold yy; by rewrite <- !app_assoc).
  assert (Ls : length s = 12%nat) by done.
  assert (Hs : ascii s) by (unfold s, ascii in *; rewrite !Forall_app; split_and!; by apply two_ascii).
  rewrite Es. destruct (s ++ [90]) as [|c r] eqn:Ec; [by destruct s|]. rewrite <- Ec.
  assert (Ee : ends_with [90] (s ++ [90]) = true).
  { unfold ends_with. rewrite length_app. cbn [length]. rewrite (proj2 (Nat.leb_le _ _)) by lia. cbn [andb].
    apply bool_decide_eq_true. replace (length s + 1 - 1)%nat with (length s) by lia. apply drop_app_length. }
  rewrite Ee, length_app. cbn [length]. replace (length s + 1 - 1)%nat with (length s) by lia. rewrite take_app_length, Ls. cbn [Nat.eqb].
  rewrite (number_two [] yy (two mo ++ two d ++ two h ++ two mi ++ two se)) by done.
  rewrite (number_two (two yy) mo (two d ++ two h ++ two mi ++ two se)) by done.
  rewrite (number_two (two yy ++ two mo) d (two h ++ two mi ++ two se)) by done.
  rewrite (number_two (two yy ++ two mo ++ two d) h (two mi ++ two se)) by done.
  rewrite (number_two (two yy ++ two mo ++ two d ++ two h) mi (two se)) by done.
  rewrite (number_two (two yy ++ two mo ++ two d ++ two h ++ two mi) se []) by done.
  do 3 f_equal. do 5 f_equal. unfold yy. case_bool; Z.to_euclidean_division_equations; lia.
Qed.

(** Times in order. *)
Definition stamp (t : Time) : Z :=
  let '(y, mo, d, h, mi, se) := t in ((((y * 100 + mo) * 100 + d) * 100 + h) * 100 + mi) * 100 + se.

Lemma is_before_spec a b : time_ok a → time_ok b → is_before a b = (stamp a <? stamp b).
Proof.
  destruct a as [[[[[a0 a1] a2] a3] a4] a5], b as [[[[[b0 b1] b2] b3] b4] b5]. unfold time_ok, is_before, stamp. intros Ha Hb.
  apply eq_true_iff_eq. repeat (case_match; rewrite ?Z.ltb_lt in *; rewrite ?negb_true_iff, ?negb_false_iff, ?Z.eqb_eq, ?Z.eqb_neq in *); lia.
Qed.

(** A certificate is accepted exactly from its first second to its last. *)
Lemma is_expired_spec now nb na c : time_ok now → time_ok nb → time_ok na → not_before c = utc_text nb → not_after c = utc_text na →
  is_expired now c = Returned (negb ((stamp nb <=? stamp now) && (stamp now <=? stamp na))).
Proof.
  intros Hn Hb Ha Eb Ea. unfold is_expired. rewrite Eb, Ea, !parse_utc by done. cbn [mbind outcome_bind].
  rewrite !is_before_spec by done. rewrite !Z.leb_antisym. destruct (stamp now <? stamp nb); [done|].
  cbn [negb andb mbind outcome_bind mret outcome_ret]. by destruct (stamp na <? stamp now).
Qed.

(** ** Host names *)

Lemma find_byte_Some c s i : find_byte c s = Some i → s = take i s ++ [c] ++ drop (S i) s ∧ Forall (λ b, b ≠ c) (take i s).
Proof.
  revert i. induction s as [|b s IH]; intros i; [done|]. cbn [find_byte]. destruct (Z.eqb_spec b c) as [->|Hb].
  - intros [= <-]. split; [done|constructor].
  - destruct (find_byte c s) as [k|]; [|done]. intros [= <-]. destruct (IH k eq_refl) as [E1 E2].
    split; [cbn; by f_equal|by constructor].
Qed.

(** A name matches itself, whatever its letter case, and a pattern with a star every
    name with one more label. *)
Lemma dns_match_spec pattern host : head host ≠ Some 42 →
  dns_match pattern host = true
  ↔ (starts_with (text "*.") pattern = false ∧ to_ascii_lowercase pattern = to_ascii_lowercase host)
    ∨ ∃ suffix label rest, pattern = text "*." ++ suffix ∧ host = label ++ [46] ++ rest ∧ Forall (λ b, b ≠ 46) label
        ∧ to_ascii_lowercase rest = to_ascii_lowercase suffix.
Proof.
  intros Hh. unfold dns_match, eq_ignore_ascii_case. destruct (starts_with (text "*.") pattern) eqn:Es.
  - apply starts_with_spec in Es as [suffix ->]. change (drop 2 (text "*." ++ suffix)) with suffix.
    replace (match host with 42 :: rest => ends_with suffix rest | _ => match find_byte 46 host with
        Some pos => bool_decide (to_ascii_lowercase (drop (pos + 1) host) = to_ascii_lowercase suffix) | None => false end end)
      with (match find_byte 46 host with
        Some pos => bool_decide (to_ascii_lowercase (drop (pos + 1) host) = to_ascii_lowercase suffix) | None => false end).
    2: { destruct host as [|b host]; [done|]. repeat (match goal with |- context [match ?z with _ => _ end] => is_var z; destruct z end; try done). }
    split.
    + destruct (find_byte 46 host) as [pos|] eqn:Ef; [|done]. intros E%bool_decide_eq_true. right.
      destruct (find_byte_Some _ _ _ Ef) as [E1 E2]. rewrite Nat.add_1_r in E. by exists suffix, (take pos host), (drop (S pos) host).
    + intros [[? _]|(suffix' & label & rest & E1 & E2 & Hl & E3)]; [done|]. apply (inj (app (text "*."))) in E1 as ->.
      rewrite E2. cbn [app]. rewrite find_byte_app by done. apply bool_decide_eq_true.
      rewrite drop_app_ge by lia. by replace (length label + 1 - length label)%nat with 1%nat by lia.
  - rewrite bool_decide_eq_true. split; [by left|]. intros [[_ ?]|(suffix & label & rest & -> & _)]; [done|].
    by rewrite (proj2 (starts_with_spec _ _)) in Es by eauto.
Qed.

(** ** PEM *)

(** The decoder reads what the encoder of [websocket.rs] writes. *)
Lemma b64_value_char v : 0 ≤ v → b64_value (b64_char v) = v `mod` 64 ∧ b64_char v ≠ 61 ∧ b64_char v ∉ [10; 13; 32].
Proof.
  intros Hv. unfold b64_char. change 63 with (Z.ones 6). rewrite Z.land_ones by lia. change (2 ^ 6) with 64.
  pose proof (Z.mod_pos_bound v 64 ltac:(lia)) as Hm. assert (E : v `mod` 64 ∈ seqZ 0 64) by (apply elem_of_seqZ; lia).
  revert E. generalize (v `mod` 64). clear.
  apply (Forall_forall (λ k, b64_value (nth (Z.to_nat k) B64_TABLE 0) = k ∧ nth (Z.to_nat k) B64_TABLE 0 ≠ 61
    ∧ nth (Z.to_nat k) B64_TABLE 0 ∉ [10; 13; 32])).
  apply (bool_decide_unpack _). vm_compute. exact I.
Qed.

(** The bytes of four values of six bits. *)
Lemma sextets a b c d : 0 ≤ a < 64 → 0 ≤ b < 64 → 0 ≤ c < 64 → 0 ≤ d < 64 →
  Z.lor (wrap 8 (Z.shiftl a 2)) (Z.shiftr b 4) = a * 4 + b `div` 16
  ∧ Z.lor (wrap 8 (Z.shiftl b 4)) (Z.shiftr c 2) = (b `mod` 16) * 16 + c `div` 4
  ∧ Z.lor (wrap 8 (Z.shiftl c 6)) d = (c `mod` 4) * 64 + d.
Proof.
  intros Ha Hb Hc Hd. rewrite !Z.shiftl_mul_pow2, !Z.shiftr_div_pow2 by lia. unfold wrap. change (2 ^ 8) with 256.
  assert (G : ∀ x y s, 0 ≤ s → 0 ≤ y < 2 ^ s → Z.lor (x * 2 ^ s) y = x * 2 ^ s + y).
  { intros x y s Hs Hy. rewrite Z.lor_comm, lor_disjoint by done. lia. }
  change (2 ^ 2) with 4. change (2 ^ 4) with 16. change (2 ^ 6) with 64.
  assert (E1 : (a * 4) `mod` 256 = a * 2 ^ 2) by (change (2 ^ 2) with 4; Z.to_euclidean_division_equations; lia).
  assert (E2 : (b * 16) `mod` 256 = (b `mod` 16) * 2 ^ 4) by (change (2 ^ 4) with 16; Z.to_euclidean_division_equations; lia).
  assert (E3 : (c * 64) `mod` 256 = (c `mod` 4) * 2 ^ 6) by (change (2 ^ 6) with 64; Z.to_euclidean_division_equations; lia).
  rewrite E1, E2, E3, !G; [done|lia..| | |]; try lia.
  - change (2 ^ 4) with 16. Z.to_euclidean_division_equations; lia.
  - change (2 ^ 2) with 4. Z.to_euclidean_division_equations; lia.
Qed.

Lemma sextet_of v k : 0 ≤ v → 0 ≤ k →
  b64_value (b64_char (Z.shiftr v k)) = v `div` 2 ^ k `mod` 64 ∧ (b64_char (Z.shiftr v k) =? 61) = false.
Proof.
  intros Hv Hk. rewrite Z.shiftr_div_pow2 by done. destruct (b64_value_char (v `div` 2 ^ k)) as (E1 & E2 & _); [apply Z.div_pos; lia|].
  split; [done|by apply Z.eqb_neq].
Qed.

Lemma mod64 v : 0 ≤ v `mod` 64 < 64.
Proof. apply Z.mod_pos_bound. lia. Qed.

Lemma neq255 v : (v `mod` 64 =? 255) = false.
Proof. apply Z.eqb_neq. pose proof (mod64 v). lia. Qed.

Lemma b64_loop_chunk c rest out : (0 < length c ≤ 3)%nat → bytes_ok c → b64_loop rest = Some out → b64_loop (b64_chunk c ++ rest) = Some (c ++ out).
Proof.
  intros Hl Hb Hr. unfold b64_chunk. set (v := Z.lor _ _).
  assert (Ev : v = nth 0 c 0 * 2 ^ 16 + nth 1 c 0 * 2 ^ 8 + nth 2 c 0).
  { apply b64_combined; (destruct c as [|? [|? [|? ?]]]; cbn [nth]; try done; rewrite !Forall_cons in Hb; tauto). }
  assert (Hv : 0 ≤ v).
  { unfold v. rewrite !Z.lor_nonneg, !Z.shiftl_nonneg. destruct c as [|? [|? [|? ?]]]; cbn [nth]; rewrite ?Forall_cons in Hb; unfold uN in Hb; lia. }
  destruct (sextet_of v 18 Hv ltac:(lia)) as [A1 _], (sextet_of v 12 Hv ltac:(lia)) as [A2 _], (sextet_of v 6 Hv ltac:(lia)) as [A3 B3],
    (sextet_of v 0 Hv ltac:(lia)) as [A4 B4]. rewrite Z.shiftr_0_r in A4, B4.
  pose proof (mod64 (v `div` 2 ^ 18)) as M1. pose proof (mod64 (v `div` 2 ^ 12)) as M2.
  pose proof (mod64 (v `div` 2 ^ 6)) as M3. pose proof (mod64 (v `div` 2 ^ 0)) as M4.
  destruct (sextets _ _ _ _ M1 M2 M3 M4) as (S1 & S2 & S3).
  change (2 ^ 18) with 262144 in *. change (2 ^ 12) with 4096 in *. change (2 ^ 6) with 64 in *. change (2 ^ 0) with 1 in *.
  change (2 ^ 16) with 65536 in *. change (2 ^ 8) with 256 in *.
  destruct c as [|x [|y [|z [|? ?]]]]; cbn [length] in Hl; try lia; rewrite ?Forall_cons in Hb; unfold uN in Hb; change (2 ^ 8) with 256 in Hb;
    cbn [nth length Nat.ltb Nat.leb app b64_loop] in *; rewrite ?A1, ?A2, ?A3, ?A4, ?B3, ?B4, !neq255, Hr; cbn [orb app];
    rewrite ?S1, ?S2, ?S3; clearbody v; repeat f_equal; clear -Ev Hb; Z.to_euclidean_division_equations; lia.
Qed.

Definition b64_letter (b : Z) : Prop := b ∈ B64_TABLE ++ [61].

Lemma b64_letters data : Forall b64_letter (base64_encode data).
Proof.
  unfold base64_encode. generalize (chunks 3 data). intros cs. induction cs as [|c cs IH]; [constructor|]. cbn [map concat].
  apply Forall_app. split; [|exact IH]. unfold b64_chunk, b64_letter. set (v := Z.lor _ _). clearbody v.
  assert (G : ∀ v, b64_char v ∈ B64_TABLE ++ [61]).
  { clear. intros v. apply elem_of_app. left. unfold b64_char. apply list_elem_of_In, nth_In. change (length B64_TABLE) with 64%nat.
    change 63 with (Z.ones 6). rewrite Z.land_ones by lia. change (2 ^ 6) with 64. pose proof (mod64 v). lia. }
  assert (E : 61 ∈ B64_TABLE ++ [61]) by (apply elem_of_app; right; left).
  rewrite !Forall_cons. split_and!; [apply G..| | |constructor]; (case_match; [apply G|exact E]).
Qed.

(** A letter is ASCII, no white space and no dash. *)
Lemma b64_letter_plain b : b64_letter b → (0 ≤ b < 128 ∧ b ≠ 13) ∧ b ≠ 10 ∧ b ≠ 32 ∧ b ≠ 45 ∧ ascii_space b = false.
Proof.
  unfold b64_letter. revert b. apply (Forall_forall (λ b, (0 ≤ b < 128 ∧ b ≠ 13) ∧ b ≠ 10 ∧ b ≠ 32 ∧ b ≠ 45 ∧ ascii_space b = false)).
  apply (bool_decide_unpack _). vm_compute. exact I.
Qed.

Lemma base64_decode_encode data : bytes_ok data → base64_decode (base64_encode data) = Some data.
Proof.
  intros Hb. unfold base64_decode.
  assert (E : List.filter (λ b, negb (b =? 10) && negb (b =? 13) && negb (b =? 32)) (base64_encode data) = base64_encode data).
  { induction (b64_letters data) as [|b l Hl _ IH]; [done|]. cbn [List.filter]. apply b64_letter_plain in Hl as ([_ ?] & ? & ? & _).
    rewrite !(proj2 (Z.eqb_neq _ _)) by done. cbn [negb andb]. by rewrite IH. }
  rewrite E. unfold base64_encode.
  assert (Hc : ∀ cs, Forall (λ c : list Z, 0 < length c ≤ 3)%nat cs → bytes_ok (concat cs) →
    b64_loop (concat (map b64_chunk cs)) = Some (concat cs)).
  { induction 1 as [|c cs Hl _ IH]; [done|]. cbn [map concat]. intros [H1 H2]%Forall_app. by apply b64_loop_chunk, IH. }
  pose proof (concat_chunks 3 data ltac:(lia)) as Ed. rewrite <- Ed at 2. apply Hc; [|by rewrite Ed]. apply chunks_length_le. lia.
Qed.

Lemma trim_solid l : Forall (λ b, 0 ≤ b < 128 ∧ ascii_space b = false) l → trim l = l.
Proof.
  intros Hl. assert (G : ∀ r, Forall (λ b, 0 ≤ b < 128 ∧ ascii_space b = false) r → space_at_start r = O ∧ space_at_end r = O).
  { clear. intros r Hr. destruct Hr as [|b0 r [H0 S0] Hr]; [done|]. cbn [space_at_start space_at_end]. rewrite S0.
    destruct Hr as [|b1 r [H1 _] Hr]; [done|]. unfold space2. rewrite !(proj2 (Z.eqb_neq _ 0xC2)) by lia. cbn [andb].
    destruct Hr as [|b2 r [H2 _] Hr]; [done|]. unfold space3.
    rewrite !(proj2 (Z.eqb_neq b0 _)), !(proj2 (Z.eqb_neq b2 _)) by lia. done. }
  apply trim_id; [apply G, Hl|apply G, Forall_reverse, Hl].
Qed.

(** The PEM text of a file: its base64 text cut into lines. *)
Definition BEGIN_LINE : list Z := text "-----BEGIN CERTIFICATE-----".
Definition END_LINE : list Z := text "-----END CERTIFICATE-----".
Definition pem_text (ls : list (list Z)) : list Z := concat (map (λ l, l ++ [10]) ([BEGIN_LINE] ++ ls ++ [END_LINE])).

Lemma pem_roundtrip data ls : bytes_ok data → concat ls = base64_encode data → pem_to_der (pem_text ls) = Some data.
Proof.
  intros Hb Hc. pose proof (b64_letters data) as Hl. rewrite <- Hc in Hl.
  assert (Hls : Forall (Forall b64_letter) ls).
  { clear -Hl. induction ls as [|l ls IH]; [constructor|]. apply Forall_app in Hl as [? ?]. constructor; auto. }
  unfold pem_to_der, pem_text. rewrite lines_concat.
  2: { apply Forall_app. split; [|apply Forall_app; split].
       - apply Forall_singleton. split; apply (bool_decide_unpack _); vm_compute; exact I.
       - eapply Forall_impl; [exact Hls|]. intros l H. split; (eapply Forall_impl; [exact H|]); intros b (? & ? & _)%b64_letter_plain; done.
       - apply Forall_singleton. split; apply (bool_decide_unpack _); vm_compute; exact I. }
  change (pem_lines false ([BEGIN_LINE] ++ ls ++ [END_LINE])) with (pem_lines true (ls ++ [END_LINE])).
  rewrite <- (base64_decode_encode data Hb), <- Hc. f_equal. clear -Hls.
  induction Hls as [|l ls Hl _ IH]; [vm_compute; reflexivity|]. cbn [app pem_lines concat].
  rewrite trim_solid by (eapply Forall_impl; [exact Hl|]; intros b (? & _ & _ & _ & ?)%b64_letter_plain; tauto).
  assert (Hd : ∀ r, starts_with (45 :: r) l = false).
  { intros r. destruct (starts_with (45 :: r) l) eqn:E; [|done]. apply starts_with_spec in E as [x ->].
    apply Forall_inv, b64_letter_plain in Hl. tauto. }
  change (text "-----BEGIN CERTIFICATE-----") with (45 :: drop 1 BEGIN_LINE). change (text "-----END CERTIFICATE-----") with (45 :: drop 1 END_LINE).
  by rewrite !Hd, IH.
Qed.

(** ** Findings *)

(** The digits at the start of a time are no element. *)
Definition time_text (s : list Z) : Prop := ∃ a b r, s = a :: b :: r ∧ 48 ≤ a ≤ 57 ∧ 48 ≤ b ≤ 57 ∧ (length r < 48)%nat.

Lemma digit_cases b : 48 ≤ b ≤ 57 → Z.land b 0x1F ≠ 0x1F ∧ Z.land b 0x80 = 0.
Proof.
  intros Hb. assert (E : b ∈ seqZ 48 10) by (apply elem_of_seqZ; lia). revert b E Hb.
  apply (Forall_forall (λ b, 48 ≤ b ≤ 57 → Z.land b 0x1F ≠ 0x1F ∧ Z.land b 0x80 = 0)). repeat constructor; by vm_compute.
Qed.

Lemma time_no_children t s : time_text s → tlv_children (tlv_of (t, s)) = Returned [].
Proof.
  intros (a & b & r & -> & Ha & Hb & Hr). destruct (digit_cases a Ha) as [A1 _], (digit_cases b Hb) as [_ B1].
  unfold tlv_children. cbn [tlv_of content snd length children_loop]. unfold parse_tlv.
  rewrite (proj2 (Z.eqb_neq _ _) A1), B1. cbn [Z.eqb length].
  replace (Z.of_nat (S (S (length r)) - length r)) with 2 by lia.
  rewrite (proj2 (Z.leb_gt _ _)) by lia. by rewrite (proj2 (Z.ltb_lt _ _)) by lia.
Qed.

(** Finding: the tag of the version is compared with 0, but its byte is 0xA0.  Every
    certificate of version 3 is read one field late: its key is lost, its subject is
    that of the issuer, and no extension is seen. *)
Theorem v3_misread exts c : spec_ok c → time_text (c_from c) → time_text (c_until c) → fits (v3_der exts c) →
  match from_der (v3_der exts c) with
  | Returned (Some x) => public_key x = Unknown [] ∧ subject x = name_of (c_issuer c) ∧ san x = [] ∧ is_ca x = false
  | Returned None => False
  | Panicked => True
  end.
Proof.
  intros [Ho Hi Hs Hf Hu] T1 T2 Hfit. unfold v3_der. rewrite from_der_outer by done.
  pose proof (cert_fits _ _ _ Hfit) as Ht. pose proof (tbs_fits _ _ _ Ht) as Hx.
  unfold parse_tbs. rewrite tbs_children by (done || tags).
  cbn [mbind outcome_bind map app tbs_fields].
  change ((class (tlv_of (0xA0, ders [(0x02, [2])])) =? 2) && _) with false. cbv iota.
  change (tag (tlv_of (0xA0, ders [(0x02, [2])])) =? TAG_INT) with false. cbv iota beta. change (drop 1 (?x :: ?l)) with l.
  destruct (parse_name (tlv_of (0x02, c_serial c))) as [n|] eqn:En; [rewrite (field_cons _ _ _ _ n En)|by rewrite field_panic].
  cbn [mbind outcome_bind].
  assert (Ev : ∃ v, parse_validity (tlv_of (0x30, alg_der (c_alg c))) = Returned v).
  { unfold parse_validity. rewrite alg_children; [eexists; reflexivity|]. apply (Hx 0x30). right. left. }
  destruct Ev as ([nb na] & Ev). rewrite (field_cons _ _ _ _ _ Ev). cbn [mbind outcome_bind].
  rewrite (field_cons _ _ _ _ (name_of (c_issuer c))) by (apply parse_name_spec; [done|apply (Hx 0x30); do 2 right; left]).
  cbn [mbind outcome_bind].
  rewrite (field_cons _ _ _ _ (Unknown [])).
  2: { unfold parse_spki, validity_der. rewrite children_of; [|tags|apply (Hx 0x30); do 3 right; left].
       cbn [mbind outcome_bind map]. by rewrite time_no_children. }
  cbn [mbind outcome_bind]. done.
Qed.

(** Finding: a length of 2^64 - 1 ends in a failed check, so a few bytes of a server's
    certificate stop the kernel. *)
Lemma tlv_length_panics : from_der ([0x30; 0x88] ++ replicate 8 0xFF) = Panicked.
Proof. vm_compute. reflexivity. Qed.

(** Finding: so does a character of two bytes in a validity time. *)
Lemma cert_time_panics : parse_cert_time (text "2" ++ [0xC3; 0xA9] ++ text "123456789") = Panicked.
Proof. vm_compute. reflexivity. Qed.

(** Finding: the first two arcs are separated as if the first were at most 2 and the
    second below 40 also where the first is 2. *)
Lemma oid_first_arcs : parse_oid [0x78] = text "3.0".
Proof. vm_compute. reflexivity. Qed.

(** ** Witnesses *)
Definition demo_spec : CertSpec :=
  mkSpec [1; 2; 3] [1; 2; 840; 113549; 1; 1; 11] [([2; 5; 4; 3], text "Root")] (text "250101000000Z") (text "300101000000Z")
    [([2; 5; 4; 10], text "Example"); ([2; 5; 4; 3], text "www.example.com")] (replicate 256 255) [1; 0; 1] (replicate 200 7).

Lemma demo_spec_ok : spec_ok demo_spec.
Proof. split; repeat constructor; by vm_compute. Qed.

Lemma from_der_v1_witness :
  (length (v1_der demo_spec) = 635%nat)
  ∧ from_der (v1_der demo_spec) = Returned (Some (meaning demo_spec))
  ∧ subject (meaning demo_spec) = [(text "2.5.4.10", text "Example"); (text "2.5.4.3", text "www.example.com")].
Proof.
  split; [vm_compute; reflexivity|]. split; [|vm_compute; reflexivity]. apply (from_der_v1 demo_spec demo_spec_ok). vm_compute. reflexivity.
Defined.
