(* ===== verification/CertChain.v ===== *)
(** * Certificate chains ([crypto/ca_store.rs], [crypto/cert_verifier.rs], and the
    certificate step of the TLS client, [net/tls.rs])

    The trust store, the verification of a chain up to a trust anchor, the verifier of
    the browser, and the reading of a server's Certificate message.  The clock is the
    argument [now]; console output is left out. *)

From S2P Require Import Prelude Bits Words SmartPack Sha2 BigInt BigIntProofs Inflate TextBytes P256 X509 X509Proofs.

(** ** The trust store *)
Record TrustAnchor := mkAnchor { a_subject : list (list Z * list Z); a_key : PublicKey }.
Definition CaStore : Type := list TrustAnchor.

Definition add_root_der (der : list Z) (store : CaStore) : outcome (bool * CaStore) :=
  from_der der ≫= λ r,
  match r with
  | Some cert => mret (true, store ++ [mkAnchor (subject cert) (public_key cert)])
  | None => mret (false, store)
  end.

Definition add_root_pem (pem : list Z) (store : CaStore) : outcome (bool * CaStore) :=
  match pem_to_der pem with
  | Some der => add_root_der der store
  | None => mret (false, store)
  end.

Fixpoint subjects_match (a b : list (list Z * list Z)) : bool :=
  match a, b with
  | [], [] => true
  | (ao, av) :: a', (bo, bv) :: b' => bool_decide (ao = bo) && eq_ignore_ascii_case av bv && subjects_match a' b'
  | _, _ => false
  end.

Definition find_anchor (issuer : list (list Z * list Z)) (store : CaStore) : option TrustAnchor :=
  List.find (λ a, subjects_match (a_subject a) issuer) store.

(** The loop of [init] over the unpacked bundle, and the number of roots added. *)
Fixpoint load_roots (fuel : nat) (data : list Z) (store : CaStore) (added : Z) : outcome (Z * CaStore) :=
  match fuel with
  | O => mret (added, store)
  | S fuel' =>
      if (length data <? 4)%nat then mret (added, store)
      else
        let len := Z.to_nat (from_be_bytes (take 4 data)) in
        let data := drop 4 data in
        if (length data <? len)%nat then mret (added, store)
        else add_root_der (take len data) store ≫= λ '(ok, store'),
             load_roots fuel' (drop len data) store' (if (ok : bool) then added + 1 else added)
  end.

Definition init_store (compressed_data : list Z) (store : CaStore) : outcome CaStore :=
  match inflate_zlib compressed_data with
  | Ok decompressed => load_roots (length decompressed) decompressed store 0 ≫= λ '(_, s), mret s
  | Err (Error _) => mret store
  | Err _ => Panicked
  end.

(** ** Signatures *)
Definition pad_left (n : nat) (bs : list Z) : list Z := replicate (n - length bs) 0 ++ bs.

Definition der_integer (content : list Z) : list Z :=
  let src := match content with 0 :: r => r | _ => content end in
  pad_left 32 (take 32 src).

Definition parse_ecdsa_sig (sig : list Z) : outcome (option (list Z * list Z)) :=
  parse_tlv sig ≫= λ r0,
  match r0 with
  | None => mret None
  | Some (seq, _) =>
      if negb (tag seq =? TAG_SEQUENCE) then mret None else
      parse_tlv (content seq) ≫= λ r1,
      match r1 with
      | None => mret None
      | Some (r_tlv, rest) =>
          parse_tlv rest ≫= λ r2,
          match r2 with
          | None => mret None
          | Some (s_tlv, _) =>
              if negb (tag r_tlv =? TAG_INT) || negb (tag s_tlv =? TAG_INT) then mret None
              else mret (Some (der_integer (content r_tlv), der_integer (content s_tlv)))
          end
      end
  end.

Definition P256_OID : list Z := text "1.2.840.10045.3.1.7".

Definition verify_cert_signature (cert : Certificate) (issuer_key : PublicKey) : outcome bool :=
  match issuer_key with
  | Rsa modulus exponent =>
      if (length modulus <? 256)%nat then mret false
      else if (256 <? length (signature cert))%nat then mret false
      else mret (rsa2048_verify_pkcs1v15_sha256 (drop (length modulus - 256) modulus) exponent
                   (pad_left 256 (signature cert)) (tbs_raw cert))
  | Ec curve_oid point =>
      if negb (bool_decide (curve_oid = P256_OID)) then mret false
      else parse_ecdsa_sig (signature cert) ≫= λ r_s,
           match r_s with
           | Some (r, s) => mret (ecdsa_verify_p256 point (tbs_raw cert) r s)
           | None => mret false
           end
  | Unknown _ => mret false
  end.

(** ** Chains *)
Inductive VerifyError :=
| EmptyChain
| UntrustedRoot
| Expired
| NotCA
| BadSignature (i : nat)
| HostnameMismatch
| PathLengthExceeded.

Definition either_expired (now : Time) (a b : Certificate) : outcome bool :=
  is_expired now a ≫= λ x, if (x : bool) then mret true else is_expired now b.

(** The loop over the links of a chain of [n] certificates, from link [i]. *)
Fixpoint verify_links (now : Time) (n i : nat) (chain : list Certificate) : outcome (result VerifyError unit) :=
  match chain with
  | subj :: ((iss :: _) as rest) =>
      if negb (is_ca iss) && (i + 1 <? n - 1)%nat then mret (Err NotCA)
      else if match path_len iss with Some m => m <? Z.of_nat i | None => false end then mret (Err PathLengthExceeded)
      else either_expired now subj iss ≫= λ e,
           if (e : bool) then mret (Err Expired)
           else verify_cert_signature subj (public_key iss) ≫= λ ok,
                if negb ok then mret (Err (BadSignature i)) else verify_links now n (S i) rest
  | _ => mret (Ok tt)
  end.

Definition verify_root (chain : list Certificate) (last_cert : Certificate) (store : CaStore) : outcome (result VerifyError unit) :=
  match find_anchor (issuer last_cert) store with
  | Some anchor =>
      verify_cert_signature last_cert (a_key anchor) ≫= λ ok,
      if negb ok then mret (Err (BadSignature (length chain - 1))) else mret (Ok tt)
  | None => mret (Err UntrustedRoot)
  end.

Definition verify_chain (now : Time) (chain : list Certificate) (hostname : list Z) (store : CaStore) : outcome (result VerifyError unit) :=
  match chain with
  | [] => mret (Err EmptyChain)
  | leaf :: rest =>
      if negb (matches_hostname hostname leaf) then mret (Err HostnameMismatch)
      else verify_links now (length chain) 0 chain ≫= λ r,
           match r with
           | Err e => mret (Err e)
           | Ok _ => verify_root chain (List.last chain leaf) store
           end
  end.

(** ** The verifier of the browser *)
Inductive CertError :=
| CChainBroken | CExpired | CNotYetValid | CHostnameMismatch | CSelfSigned | CRevoked | CWeakSignature | CEmptyChain | CParseError.

Record CertResult := mkResult {
  valid : bool; r_subject : list Z; r_issuer : list Z; san_names : list (list Z);
  r_not_before : Z; r_not_after : Z; error : option CertError; warnings : list (list Z)
}.

Definition result_ok (subj iss : list Z) : CertResult := mkResult true subj iss [] 0 (2 ^ 64 - 1) None [].
Definition result_err (e : CertError) (subj : list Z) : CertResult := mkResult false subj [] [] 0 0 (Some e) [].

Definition hostname_matches (hostname cert_host : list Z) : bool :=
  let h := to_ascii_lowercase hostname in
  let c := to_ascii_lowercase cert_host in
  if bool_decide (h = c) then true
  else if starts_with (text "*.") c then
    match find_byte 46 h with Some i => bool_decide (drop (i + 1) h = drop 2 c) | None => false end
  else false.

Definition extract_cn_from_cert (cert : Certificate) : list Z :=
  match List.find (λ nv, bool_decide (nv.1 = CN_OID) || eq_ignore_ascii_case nv.1 (text "CN")) (subject cert) with
  | Some (_, v) => v
  | None => text "Unknown"
  end.

Definition extract_cn (der : list Z) : outcome (option (list Z)) :=
  from_der der ≫= λ r, mret (option_map extract_cn_from_cert r).

Definition cert_error (e : VerifyError) : CertError :=
  match e with
  | HostnameMismatch => CHostnameMismatch
  | Expired => CExpired
  | UntrustedRoot => CSelfSigned
  | _ => CChainBroken
  end.

(** The certificates that can be parsed. *)
Fixpoint parse_all (ders : list (list Z)) : outcome (list Certificate) :=
  match ders with
  | [] => mret []
  | d :: ds => from_der d ≫= λ r, parse_all ds ≫= λ cs, mret (match r with Some c => c :: cs | None => cs end)
  end.

Definition verify_tls_cert (now : Time) (chain_der : list (list Z)) (hostname : list Z) (store : CaStore) : outcome CertResult :=
  match chain_der with
  | [] => mret (result_err CEmptyChain [])
  | leaf_der :: _ =>
      from_der leaf_der ≫= λ r,
      match r with
      | None => mret (result_err CParseError [])
      | Some leaf =>
          let subj := extract_cn_from_cert leaf in
          if negb (matches_hostname hostname leaf) then mret (result_err CHostnameMismatch subj)
          else is_expired now leaf ≫= λ e,
               if (e : bool) then mret (result_err CExpired subj)
               else parse_all chain_der ≫= λ parsed_chain,
                    let iss := match last parsed_chain with Some c => extract_cn_from_cert c | None => [] end in
                    verify_chain now parsed_chain hostname store ≫= λ v,
                    match v with
                    | Ok _ => mret (mkResult true subj iss (san leaf) 0 (2 ^ 64 - 1) None [])
                    | Err e => mret (result_err (cert_error e) subj)
                    end
      end
  end.

Definition parse_hsts_part (part : list Z) : option (option Z) :=
  let part := to_ascii_lowercase (trim part) in
  if starts_with (text "max-age=") part then Some (parse_radix 10 64 (trim (drop 8 part))) else None.

Definition parse_hsts_header (value : list Z) : option Z :=
  match omap parse_hsts_part (split_byte 59 value) with v :: _ => v | [] => None end.

(** ** The Certificate message of a server *)
Definition be24 (a b c : Z) : nat := Z.to_nat (Z.lor (Z.lor (Z.shiftl a 16) (Z.shiftl b 8)) c).

(** The loop over the entries; [list_body] has [list_len] bytes or more. *)
Fixpoint cert_entries (fuel list_len list_pos : nat) (list_body : list Z) (certs : list Certificate) : outcome (result string (list Certificate)) :=
  match fuel with
  | O => mret (Ok certs)
  | S fuel' =>
      if (list_len <? list_pos + 5)%nat then mret (Ok certs)
      else
        let cert_len := be24 (nth list_pos list_body 0) (nth (list_pos + 1) list_body 0) (nth (list_pos + 2) list_body 0) in
        if (list_len <? list_pos + 3 + cert_len)%nat then mret (Ok certs)
        else from_der (take cert_len (drop (list_pos + 3) list_body)) ≫= λ r,
             match r with
             | None => mret (Err "X.509 parse failed"%string)
             | Some cert =>
                 match list_body !! (list_pos + 3 + cert_len)%nat, list_body !! (list_pos + 3 + cert_len + 1)%nat with
                 | Some e0, Some e1 =>
                     let ext_len := Z.to_nat (Z.lor (Z.shiftl e0 8) e1) in
                     cert_entries fuel' list_len (list_pos + (3 + cert_len + 2 + ext_len)) list_body (certs ++ [cert])
                 | _, _ => Panicked
                 end
             end
  end.

Definition certificate_message (msg_body : list Z) (certs : list Certificate) : outcome (result string (list Certificate)) :=
  if (length msg_body <? 4)%nat then mret (Ok certs) else
  let context_len := Z.to_nat (nth 0 msg_body 0) in
  if (length msg_body <? 4 + context_len)%nat then mret (Ok certs) else
  let list_len := be24 (nth (context_len + 1) msg_body 0) (nth (context_len + 2) msg_body 0) (nth (context_len + 3) msg_body 0) in
  let list_body := drop (context_len + 4) msg_body in
  if (length list_body <? list_len)%nat then mret (Ok certs)
  else cert_entries (S list_len) list_len 0 list_body certs.

(** The loop over the handshake messages. *)
Fixpoint handshake_certs (fuel : nat) (data : list Z) (certs : list Certificate) : outcome (result string (list Certificate)) :=
  match fuel with
  | O => mret (Ok certs)
  | S fuel' =>
      if (length data <? 4)%nat then mret (Ok certs)
      else
        let msg_len := be24 (nth 1 data 0) (nth 2 data 0) (nth 3 data 0) in
        if (length data <? 4 + msg_len)%nat then mret (Ok certs)
        else (if nth 0 data 0 =? 11 then certificate_message (take msg_len (drop 4 data)) certs else mret (Ok certs)) ≫= λ r,
             match r with
             | Err e => mret (Err e)
             | Ok certs' => handshake_certs fuel' (drop (4 + msg_len) data) certs'
             end
  end.

Definition check_server (now : Time) (host decrypted_handshake : list Z) (store : CaStore) : outcome (result string unit) :=
  handshake_certs (length decrypted_handshake) decrypted_handshake [] ≫= λ r,
  match r with
  | Err e => mret (Err e)
  | Ok [] => mret (Err "No certificates received from server"%string)
  | Ok certs =>
      match store with
      | [] => mret (Ok tt)
      | _ => verify_chain now certs host store ≫= λ v,
             match v with Ok _ => mret (Ok tt) | Err _ => mret (Err "Certificate verification failed"%string) end
      end
  end.

(** ** What an accepted chain guarantees *)

(** The statement of an RSA signature: its power modulo the key, of which the last 2048
    bits are used, is a block with the digest of the signed part. *)
Definition signed_by (key : PublicKey) (c : Certificate) : Prop :=
  match key with
  | Rsa m e => ∃ k rest,
      to_be_bytes 256 (from_be_bytes (signature c) ^ from_be_bytes e `mod` (from_be_bytes m `mod` 2 ^ 2048))
      = padded (tbs_raw c) rest k
  | Ec curve point => curve = P256_OID ∧ ∃ r s, parse_ecdsa_sig (signature c) = Returned (Some (r, s))
      ∧ ecdsa_verify_p256 point (tbs_raw c) r s = true
  | Unknown _ => False
  end.

Definition key_ok (key : PublicKey) : Prop :=
  match key with
  | Rsa m e => bytes_ok m ∧ bytes_ok e ∧ (length e ≤ 512)%nat ∧ 1 < from_be_bytes m `mod` 2 ^ 2048
  | _ => True
  end.

Lemma be_zeros n bs : from_be_bytes (replicate n 0 ++ bs) = from_be_bytes bs.
Proof.
  rewrite from_be_bytes_app. replace (from_be_bytes (replicate n 0)) with 0; [lia|].
  induction n as [|n IH]; [done|]. by rewrite replicate_S_end, from_be_bytes_snoc, <- IH.
Qed.

Lemma be_last (n : nat) bs : bytes_ok bs → (n ≤ length bs)%nat → from_be_bytes (drop (length bs - n) bs) = from_be_bytes bs `mod` 2 ^ (8 * Z.of_nat n).
Proof.
  intros Hb Hn. rewrite <- (take_drop (length bs - n) bs) at 3. rewrite from_be_bytes_app, length_drop.
  replace (length bs - (length bs - n))%nat with n by lia. rewrite Z.add_comm, Z_mod_plus_full, Z.mod_small; [done|].
  pose proof (from_be_bytes_range (drop (length bs - n) bs) (Forall_drop _ _ _ Hb)) as R. rewrite length_drop in R.
  by replace (length bs - (length bs - n))%nat with n in R by lia.
Qed.

Lemma verify_cert_signature_sound c key :
  key_ok key → bytes_ok (signature c) → verify_cert_signature c key = Returned true → signed_by key c.
Proof.
  intros Hk Hs. destruct key as [m e|curve point|]; cbn [verify_cert_signature signed_by]; [| |done].
  - destruct Hk as (Hm & He & Le & Vm). destruct (Nat.ltb_spec (length m) 256); [done|]. destruct (Nat.ltb_spec 256 (length (signature c))); [done|].
    intros [= E]. assert (Em : from_be_bytes (drop (length m - 256) m) = from_be_bytes m `mod` 2 ^ 2048).
    { by rewrite (be_last 256) by done. }
    apply rsa_verify_spec in E.
    + unfold pad_left in E. by rewrite be_zeros, Em in E.
    + by apply Forall_drop.
    + rewrite length_drop. lia.
    + by rewrite Em.
    + done.
    + done.
    + apply Forall_app. split; [by apply Forall_replicate|done].
    + unfold pad_left. rewrite length_app, length_replicate. lia.
  - case_bool_decide as Ec; cbn [negb]; [|done]. destruct (parse_ecdsa_sig (signature c)) as [[[r s]|]|] eqn:E; cbn [mbind outcome_bind]; [|done..].
    intros [= Ev]. split; [done|]. by exists r, s.
Qed.

(** One link of a chain of [n] certificates: what is checked of a certificate and its
    issuer at position [i]. *)
Record link_ok (now : Time) (n i : nat) (subj iss : Certificate) : Prop := {
  l_ca : (i + 2 < n)%nat → is_ca iss = true;
  l_path m : path_len iss = Some m → Z.of_nat i ≤ m;
  l_subj : is_expired now subj = Returned false;
  l_iss : is_expired now iss = Returned false;
  l_sig : verify_cert_signature subj (public_key iss) = Returned true
}.

Lemma verify_links_spec now n chain : ∀ i, (1 ≤ n)%nat →
  verify_links now n i chain = Returned (Ok tt)
  ↔ ∀ j s t, chain !! j = Some s → chain !! S j = Some t → link_ok now n (i + j) s t.
Proof.
  induction chain as [|s chain IH]; intros i Hn; [done|].
  destruct chain as [|t chain]; [split; [by intros _ [|j]|done]|].
  assert (Hhead : verify_links now n i (s :: t :: chain) = Returned (Ok tt)
    ↔ link_ok now n i s t ∧ verify_links now n (S i) (t :: chain) = Returned (Ok tt)).
  { cbn [verify_links]. split.
    - destruct (negb (is_ca t) && (i + 1 <? n - 1)%nat) eqn:E1; [done|]. destruct (match path_len t with Some m => _ | None => _ end) eqn:E2; [done|].
      unfold either_expired. destruct (is_expired now s) as [[]|] eqn:E3; cbn [mbind outcome_bind mret outcome_ret]; [done| |done].
      destruct (is_expired now t) as [[]|] eqn:E4; cbn [mbind outcome_bind]; [done| |done].
      destruct (verify_cert_signature s (public_key t)) as [[]|] eqn:E5; cbn [mbind outcome_bind negb]; [|done..].
      intros Hr. split; [|exact Hr]. split; try done.
      + intros Hi. destruct (is_ca t); [done|]. cbn [negb andb] in E1. apply Nat.ltb_ge in E1. lia.
      + intros m Hm. rewrite Hm in E2. by apply Z.ltb_ge in E2.
    - intros [[L1 L2 L3 L4 L5] Hr]. assert (E1 : negb (is_ca t) && (i + 1 <? n - 1)%nat = false).
      { destruct (Nat.ltb_spec (i + 1) (n - 1)); [|apply andb_false_r]. by rewrite L1 by lia. }
      rewrite E1. assert (E2 : match path_len t with Some m => m <? Z.of_nat i | None => false end = false).
      { destruct (path_len t) as [m|]; [|done]. apply Z.ltb_ge. by apply L2. }
      assert (E3 : either_expired now s t = Returned false) by (unfold either_expired; by rewrite L3).
      rewrite E2, E3. cbn [mbind outcome_bind]. rewrite L5. exact Hr. }
  rewrite Hhead, IH by done. split.
  - intros [H1 H2] [|j] s' t'; [intros [= <-] [= <-]; by rewrite Nat.add_0_r|]. intros Hs Ht.
    replace (i + S j)%nat with (S i + j)%nat by lia. by apply H2.
  - intros H. split; [specialize (H O s t eq_refl eq_refl); by rewrite Nat.add_0_r in H|].
    intros j s' t' Hs Ht. replace (S i + j)%nat with (i + S j)%nat by lia. by apply H.
Qed.

(** A chain is accepted exactly when the host name is one of the first certificate's,
    every link is good, and the last certificate is signed by the first anchor that
    has its issuer's name. *)
Lemma verify_chain_spec now chain host store :
  verify_chain now chain host store = Returned (Ok tt)
  ↔ ∃ leaf top anchor, chain !! 0%nat = Some leaf ∧ matches_hostname host leaf = true
    ∧ (∀ j s t, chain !! j = Some s → chain !! S j = Some t → link_ok now (length chain) j s t)
    ∧ last chain = Some top ∧ find_anchor (issuer top) store = Some anchor
    ∧ verify_cert_signature top (a_key anchor) = Returned true.
Proof.
  destruct chain as [|leaf rest]; [split; [done|]; by intros (? & ? & ? & ? & _)|]. unfold verify_chain.
  assert (Hlast : ∀ l x, last (x :: l) = Some (List.last (x :: l) leaf)).
  { clear. induction l as [|y l IH]; intros x; [done|]. exact (IH y). }
  pose proof (verify_links_spec now (length (leaf :: rest)) (leaf :: rest) 0 ltac:(cbn; lia)) as Hl.
  unfold verify_root. split.
  - destruct (matches_hostname host leaf) eqn:Em; cbn [negb]; [|done].
    destruct (verify_links now _ 0 _) as [[[]|e]|] eqn:Ev; cbn [mbind outcome_bind]; [|done..].
    destruct (find_anchor _ store) as [anchor|] eqn:Ef; [|done].
    destruct (verify_cert_signature _ (a_key anchor)) as [[]|] eqn:Es; cbn [mbind outcome_bind negb]; [|done..]. intros _.
    exists leaf, (List.last (leaf :: rest) leaf), anchor. split_and!; try done. apply Hl. done.
  - intros (leaf' & top & anchor & [= <-] & Em & Hlk & Ht & Ef & Es). rewrite Em. cbn [negb].
    rewrite (proj2 Hl) by exact Hlk. cbn [mbind outcome_bind]. rewrite Hlast in Ht.
    assert (Ht' : List.last (leaf :: rest) leaf = top) by congruence. by rewrite Ht', Ef, Es.
Qed.

(** The end of the search for an anchor. *)
Lemma find_anchor_Some iss store a : find_anchor iss store = Some a → a ∈ store ∧ subjects_match (a_subject a) iss = true.
Proof. intros H. apply List.find_some in H as [Hi Hm]. split; [by apply list_elem_of_In|done]. Qed.


(** ** The server's chain *)

(** With trust anchors, a server is accepted only with a chain of certificates it has
    sent that verifies for the host. *)
Definition parsed (c : Certificate) : Prop := ∃ der, from_der der = Returned (Some c).

Lemma cert_entries_parsed fuel n body : ∀ pos certs r,
  Forall parsed certs → cert_entries fuel n pos body certs = Returned (Ok r) → Forall parsed r.
Proof.
  induction fuel as [|fuel IH]; intros pos certs r Hc; cbn [cert_entries]; [by intros [= <-]|].
  case_match; [by intros [= <-]|]. case_match; [by intros [= <-]|].
  destruct (from_der _) as [[c|]|] eqn:E; cbn [mbind outcome_bind]; [|done..].
  case_match; [|done]. case_match; [|done]. apply IH. apply Forall_app. split; [done|]. apply Forall_singleton. eexists. exact E.
Qed.

Lemma handshake_certs_parsed fuel : ∀ data certs r,
  Forall parsed certs → handshake_certs fuel data certs = Returned (Ok r) → Forall parsed r.
Proof.
  induction fuel as [|fuel IH]; intros data certs r Hc; cbn [handshake_certs]; [by intros [= <-]|].
  case_match; [by intros [= <-]|]. case_match; [by intros [= <-]|]. destruct (nth 0 data 0 =? 11).
  - destruct (certificate_message _ certs) as [[certs'|]|] eqn:E; cbn [mbind outcome_bind]; [|done..].
    apply IH. revert E. unfold certificate_message. repeat (case_match; [by intros [= <-]|]). by apply cert_entries_parsed.
  - cbn [mbind outcome_bind mret outcome_ret]. by apply IH.
Qed.

Lemma check_server_sound now host data store : store ≠ [] → check_server now host data store = Returned (Ok tt) →
  ∃ chain, Forall parsed chain ∧ verify_chain now chain host store = Returned (Ok tt).
Proof.
  intros Hne. unfold check_server. destruct (handshake_certs _ data []) as [[[|c cs]|]|] eqn:E; cbn [mbind outcome_bind]; [done| |done..].
  destruct store as [|a store]; [done|]. destruct (verify_chain now (c :: cs) host (a :: store)) as [[[]|]|] eqn:Ev; cbn [mbind outcome_bind]; [|done..].
  intros _. exists (c :: cs). split; [|done]. by apply handshake_certs_parsed in E.
Qed.

(** The browser's verdict. *)
Lemma verify_tls_cert_sound now ders host store r : verify_tls_cert now ders host store = Returned r → valid r = true →
  ∃ der leaf chain, head ders = Some der ∧ from_der der = Returned (Some leaf) ∧ matches_hostname host leaf = true
    ∧ is_expired now leaf = Returned false ∧ parse_all ders = Returned chain ∧ verify_chain now chain host store = Returned (Ok tt).
Proof.
  destruct ders as [|der ders]; [by intros [= <-]|]. unfold verify_tls_cert.
  destruct (from_der der) as [[leaf|]|] eqn:E1; cbn [mbind outcome_bind]; [|by intros [= <-]|done].
  destruct (matches_hostname host leaf) eqn:E2; cbn [negb]; [|by intros [= <-]].
  destruct (is_expired now leaf) as [[]|] eqn:E3; cbn [mbind outcome_bind]; [by intros [= <-]| |done].
  destruct (parse_all (der :: ders)) as [chain|] eqn:E4; cbn [mbind outcome_bind]; [|done].
  destruct (verify_chain now chain host store) as [[[]|]|] eqn:E5; cbn [mbind outcome_bind]; [|by intros [= <-]|done].
  intros _ _. by exists der, leaf, chain.
Qed.

(** The two comparisons of host names agree. *)
Lemma lower_dot b : lower_byte b = 46 ↔ b = 46.
Proof. unfold lower_byte. case_match eqn:E; [|done]. apply andb_true_iff in E as [E1%Z.leb_le E2%Z.leb_le]. lia. Qed.

Lemma find_dot_lower s : find_byte 46 (to_ascii_lowercase s) = find_byte 46 s.
Proof.
  induction s as [|b s IH]; [done|]. cbn [to_ascii_lowercase map find_byte]. fold (to_ascii_lowercase s). rewrite IH.
  destruct (Z.eqb_spec b 46) as [->|Hb]; [done|]. rewrite (proj2 (Z.eqb_neq _ _)); [done|]. by rewrite lower_dot.
Qed.

Lemma lower_star b : lower_byte b = 42 ↔ b = 42.
Proof. unfold lower_byte. case_match eqn:E; [|done]. apply andb_true_iff in E as [E1%Z.leb_le E2%Z.leb_le]. lia. Qed.

Lemma wildcard_lower s : starts_with (text "*.") (to_ascii_lowercase s) = starts_with (text "*.") s.
Proof.
  apply eq_true_iff_eq. rewrite !starts_with_spec. change (text "*.") with [42; 46]. split; intros [r E].
  - destruct s as [|b0 [|b1 s]]; [done..|]. injection E as E0 E1 _. apply lower_star in E0 as ->. apply lower_dot in E1 as ->. by exists s.
  - rewrite E. by eexists.
Qed.

Lemma hostname_matches_dns host pattern : head host ≠ Some 42 → hostname_matches host pattern = dns_match pattern host.
Proof.
  intros Hh. apply eq_true_iff_eq. rewrite dns_match_spec by done. unfold hostname_matches. rewrite wildcard_lower, find_dot_lower.
  destruct (starts_with (text "*.") pattern) eqn:Es.
  - apply starts_with_spec in Es as [suffix ->]. case_bool_decide as E.
    { destruct host as [|b host]; [done|]. injection E as E0 _. apply (proj1 (lower_star b)) in E0. by rewrite E0 in Hh. }
    change (drop 2 (to_ascii_lowercase (text "*." ++ suffix))) with (to_ascii_lowercase suffix). split.
    + destruct (find_byte 46 host) as [pos|] eqn:Ef; [|done]. intros E1%bool_decide_eq_true. right.
      destruct (find_byte_Some _ _ _ Ef) as [F1 F2]. rewrite Nat.add_1_r in E1.
      exists suffix, (take pos host), (drop (S pos) host). split_and!; try done. rewrite <- E1. unfold to_ascii_lowercase. by rewrite skipn_map.
    + intros [[? _]|(suffix' & label & rest & E1 & -> & Hl & E3)]; [done|]. apply (inj (app (text "*."))) in E1 as ->.
      cbn [app]. rewrite find_byte_app by done. apply bool_decide_eq_true. unfold to_ascii_lowercase in *. rewrite skipn_map, drop_app_ge by lia.
      by replace (length label + 1 - length label)%nat with 1%nat by lia.
  - assert (Hno : ∀ suffix, pattern ≠ text "*." ++ suffix).
    { intros suffix ->. by rewrite (proj2 (starts_with_spec _ _)) in Es by eauto. }
    transitivity (to_ascii_lowercase pattern = to_ascii_lowercase host).
    + case_bool_decide as E; split; (done || by intros E'; destruct E).
    + split; [by left|]. intros [[_ ?]|(suffix & _ & _ & Ep & _)]; [done|]. by destruct (Hno suffix).
Qed.

(** ** Findings *)

(** Finding: whether the last certificate of a chain is an authority is not asked, so
    whoever has a certificate for any host can issue one for every host. *)
Lemma any_holder_issues now c l host store own :
  verify_chain now [l] own store = Returned (Ok tt) → is_ca l = false → path_len l = None →
  matches_hostname host c = true → is_expired now c = Returned false → is_expired now l = Returned false →
  verify_cert_signature c (public_key l) = Returned true → verify_chain now [c; l] host store = Returned (Ok tt).
Proof.
  intros Hl Hca Hp Hm Ec El Hs. apply verify_chain_spec in Hl as (leaf & top & a & _ & _ & _ & [= <-] & Hf & Hv).
  apply verify_chain_spec. exists c, l, a. split_and!; try done.
  intros [|[|j]] s t; try done. intros [= <-] [= <-]. split; try done; [cbn; lia|]. intros m Em. congruence.
Qed.

(** Finding: a single certificate is not compared with the clock. *)
Lemma single_never_expires now now' c host store : verify_chain now [c] host store = verify_chain now' [c] host store.
Proof. reflexivity. Qed.

(** Finding: of a longer modulus only the last 2048 bits are used. *)
Lemma modulus_truncated c m e : (256 ≤ length m)%nat →
  verify_cert_signature c (Rsa m e) = verify_cert_signature c (Rsa (drop (length m - 256) m) e).
Proof.
  intros Hm. cbn [verify_cert_signature]. rewrite length_drop.
  replace (length m - (length m - 256))%nat with 256%nat by lia. by rewrite (proj2 (Nat.ltb_ge _ _)) by lia.
Qed.

(** Finding: roots of version 3 are useless, since their keys are lost: with such a
    store no chain is ever accepted. *)
Theorem v3_roots_refuse roots store0 store :
  Forall (λ a, ∃ x, a_key a = Unknown x) store0 →
  Forall (λ r, ∃ exts c, r = v3_der exts c ∧ spec_ok c ∧ time_text (c_from c) ∧ time_text (c_until c) ∧ fits (v3_der exts c)) roots →
  fold_calls (λ s r, add_root_der r s ≫= λ '(_, s'), mret s') store0 roots = Returned store →
  ∀ now chain host, verify_chain now chain host store ≠ Returned (Ok tt).
Proof.
  intros H0 Hr Hb. assert (Hall : Forall (λ a, ∃ x, a_key a = Unknown x) store).
  { revert store0 H0 Hb. induction Hr as [|r roots (exts & c & -> & Hc & T1 & T2 & Hf) _ IH]; intros store0 H0; cbn [fold_calls]; [by intros [= <-]|].
    destruct (add_root_der (v3_der exts c) store0) as [[b s1]|] eqn:Ea; cbn [mbind outcome_bind mret outcome_ret]; [|done]. apply IH.
    revert Ea. unfold add_root_der. pose proof (v3_misread exts c Hc T1 T2 Hf) as Hv.
    destruct (from_der (v3_der exts c)) as [[x|]|]; [|done..]. intros [= <- <-].
    apply Forall_app. split; [done|]. apply Forall_singleton. exists []. apply Hv. }
  intros now chain host Hv. apply verify_chain_spec in Hv as (leaf & top & a & _ & _ & _ & _ & Hf & Hs).
  apply find_anchor_Some in Hf as [Hin _]. rewrite Forall_forall in Hall. destruct (Hall a Hin) as [x Hx]. by rewrite Hx in Hs.
Qed.


(** ** Witnesses *)
Definition demo_key : PublicKey := Rsa (replicate 256 255) [1].
Definition demo_cert (tbs : list Z) (name : list Z) : Certificate :=
  mkCert tbs [1] [(CN_OID, text "Root")] [(CN_OID, name)] (text "250101000000Z") (text "300101000000Z")
    demo_key true None [] [] (padded tbs [] 202).
Definition demo_chain : list Certificate := [demo_cert [10; 20; 30] (text "*.example.com"); demo_cert [1; 2; 3] (text "Issuer")].
Definition demo_store : CaStore := [mkAnchor [(CN_OID, text "ROOT")] demo_key].
Definition demo_now : Time := (2027, 6, 1, 12, 0, 0).

Lemma length_padded tbs rest k : length (padded tbs rest k) = (54 + k + length rest)%nat.
Proof. unfold padded. rewrite !length_app, length_replicate, length_sha256. cbn [length]. unfold SHA256_DER_PREFIX. cbn [length]. lia. Qed.

Lemma padded_ok tbs k : bytes_ok (padded tbs [] k).
Proof.
  unfold padded. rewrite !Forall_app. split_and!; [repeat constructor; by compute| |repeat constructor; by compute| |apply sha256_bytes_ok|constructor].
  - apply Forall_replicate. by compute.
  - apply (bool_decide_unpack _). vm_compute. exact I.
Qed.

(** With the exponent 1 the block is its own signature. *)
Lemma demo_signed tbs name : verify_cert_signature (demo_cert tbs name) demo_key = Returned true.
Proof.
  unfold demo_key. cbn [verify_cert_signature demo_cert signature tbs_raw]. rewrite length_replicate, length_padded.
  cbn [length Nat.add Nat.ltb Nat.leb Nat.sub drop]. unfold mret, outcome_ret. f_equal.
  assert (Hp : pad_left 256 (padded tbs [] 202) = padded tbs [] 202) by (unfold pad_left; by rewrite length_padded).
  assert (Hn : bytes_ok (replicate 256 255)) by (apply Forall_replicate; by compute).
  assert (V : from_be_bytes (replicate 256 255) = 2 ^ 2048 - 1) by (vm_compute; reflexivity).
  assert (H1 : bytes_ok [1]) by (repeat constructor; by compute).
  rewrite Hp, drop_0. apply rsa_verify_spec; [done|by rewrite length_replicate|rewrite V; lia|done|cbn; lia|apply padded_ok|by rewrite length_padded|].
  exists 202%nat, []. change (from_be_bytes [1]) with 1. rewrite Z.pow_1_r, V.
  assert (B : 0 ≤ from_be_bytes (padded tbs [] 202) < 2 ^ 2048 - 1).
  { pose proof (padded_ok tbs 202) as Hb. change (padded tbs [] 202) with ([0] ++ drop 1 (padded tbs [] 202)) in *.
    apply Forall_app in Hb as [_ Hb]. apply from_be_bytes_range in Hb as [B1 B2]. rewrite from_be_bytes_app. change (from_be_bytes [0]) with 0.
    split; [lia|]. rewrite length_drop, length_padded in B2. cbn [length Nat.add Nat.sub] in B2. change (8 * Z.of_nat 255) with 2040 in B2. lia. }
  rewrite Z.mod_small by exact B. replace 256%nat with (length (padded tbs [] 202)) by by rewrite length_padded.
  apply to_from_be_bytes, padded_ok.
Qed.

Lemma demo_accepted : verify_chain demo_now demo_chain (text "www.example.com") demo_store = Returned (Ok tt).
Proof.
  apply verify_chain_spec. exists (demo_cert [10; 20; 30] (text "*.example.com")), (demo_cert [1; 2; 3] (text "Issuer")), (mkAnchor [(CN_OID, text "ROOT")] demo_key).
  split_and!; [done|by vm_compute| |done|by vm_compute|apply demo_signed].
  intros [|[|j]] s t; [|done..]. intros [= <-] [= <-]. split; [cbn; lia|done|by vm_compute..|apply demo_signed].
Qed.

